(* ===== verification/_CoqProject ===== *)
-Q . S2P
Prelude.v
DependencyGraph.v
WorkerManager.v
HeartbeatMonitor.v
TaskManager.v
TaskScheduler.v
Geometry.v
Bytes.v
ObjectHeader.v
Pipeline.v
FlyStream.v
LocalIndex.v
DataWriter.v
ConcurrentQueue.v
WriteBackQueue.v
ObjectCache.v
NameHasher.v
IdMap.v
BlockData.v
DesignTables.v
HierTree.v
NameMapper.v
Density.v
Partition.v
Flatten.v
NetUnion.v
Verify.v
InstancePipeline.v
NetPipeline.v
DefAdapter.v
ObjectNames.v
DataIndex.v
TieredRead.v
Vars.v
PendingRpcMap.v
VarProtocol.v
MasterState.v
Master.v
MasterTasks.v
MasterSafety.v
WorkerReports.v
WorkerTasks.v
Doubles.v
LefAdapter.v
