(* ===== verification/Prelude.v ===== *)
(** * A verification of the fly task framework

    fly is a distributed task framework in C++: a master keeps a graph of tasks
    and their data dependencies, dispatches ready tasks to workers, and the
    workers store the objects tasks produce in databases of append-only data
    files.  Its main application builds the design database of a chip: it parses
    LEF and DEF files into cells and blocks, numbers the instances and nets of the hierarchy, cuts
    the die into partitions and copies every shape to the partitions it touches.
    This library models the task layer, the storage formats and streams, the data
    service with its reads across machines, the master process with its handlers,
    and the design database from the callbacks of the readers to the final
    check, and proves them correct.
    Paths below are relative to src/ of the source tree (src/task/cpp/... is
    src/src/task/cpp/... of the repository).

    ** Parts and files

    - [Prelude]: record-update notation, machine-width integers ([u64], [s32],
      ...), lemmas on maps, sorted lists and decisions shared by the rest.
    - [DependencyGraph] (task/cpp/dependency_graph): tasks, the data they wait
      for, the reverse index and the ready queue.  The state is the record
      [DependencyGraph]; a failed [assert] of the code is the error value of the
      step.
    - [WorkerManager] (task/cpp/worker_manager): the registry of workers with
      their status, capabilities, grace window and current task.
    - [HeartbeatMonitor] (task/cpp/heartbeat_monitor): the sweep that declares
      silent workers dead; it reads and updates the worker registry.
    - [TaskManager] (task/cpp/task_manager): task metadata in buckets by status,
      with a bounded history of finished tasks.
    - [TaskScheduler] (task/cpp/task_scheduler): matches the ready tasks of the
      graph with the idle workers of the registry, by capabilities and by the
      locality of input data, with a degradation timeout.
    - [Geometry] (geometry/cpp/geometry_types.h, transform.h): points,
      rectangles, polygons and the placement transforms (the eight symmetries of
      the square with a translation) on integers of a given width.
    - [Bytes]: byte strings, slices and little-endian fields.
    - [ObjectHeader] (common/serialization/cpp/object_header): the header of an
      object in memory and the trailer of its record on disk, byte for byte.
    - [Pipeline] (storage/cpp/pipeline, the compressors): blocks and the stages
      that compress, checksum, verify and decompress them.
    - [FlyStream] (storage/cpp/fly_stream with the stream buffers and the
      in-memory source): writing an object as block records and a trailer, and
      reading it back.
    - [LocalIndex] (storage/cpp/local_index): where the versions of an object
      were written, and the operation log with write segments it is kept in.
    - [DataWriter] (storage/cpp/data_writer, data_reader): records appended to
      numbered data files, rollback of a segment, and range reads.
    - [ConcurrentQueue] (common/concurrent/cpp/concurrent_queue.h): the bounded
      queue between threads, generic in its capacity policy.
    - [WriteBackQueue] (storage/cpp/write_back_queue): the worker thread that
      executes write requests, with back-pressure, draining and discarding; the
      state holds the program counter of every thread inside the queue, and
      condition variables put threads to sleep and wake them.
    - [ObjectCache] (storage/cpp/object_cache.h): deserialized objects under a
      byte budget, evicted by a score of reads over age.
    - [ObjectNames] (storage/cpp/data_service.h, agent/cpp/master_agent.cpp): full
      names of objects, and databases as encoded arguments of tasks.
    - [DataIndex] (storage/cpp/data_service): which objects are on this process
      and which workers hold the others.  Entries of the local index are shared
      pointers that waiting readers keep, so they live in a heap of their own.
    - [TieredRead] (storage/cpp/data_service, database): a read from the local
      disk, from the replicas in rounds, and once more after a query to the master.
      What other machines answer is a function of the number of the call.
    - [Vars] (storage/cpp/database): the variables of a database and their file.

    The processes (agent/cpp):

    - [PendingRpcMap] (pending_rpc_map.h): calls that wait for their answer.
    - [VarProtocol] (worker_agent, master_agent, storage/cpp/database): setting,
      getting and removing variables as messages over connections that may break;
      a run is a list of actions of the processes in any order.
    - [MasterState], [Master] (master_agent): the state of the master with the
      graph, the registries, the scheduler and the data service above as parts,
      and its handlers as functions on it; what is sent is a list in the state.
    - [MasterTasks], [MasterSafety]: runs of the master and what holds in them.
    - [WorkerReports] (worker_agent): the reports of a worker over a connection that
      breaks and comes back.
    - [WorkerTasks] (worker_agent, storage/cpp/database): a task on a worker, from
      its begin over its writes and their registration to its commit or abort and its
      report; it drives the writers, the data service and, through the report, the
      master above.

    The design database (emir/design/cpp), in the order of its flow:

    - [NameHasher] (ds_name_hasher.h): names and their ids, in an arena while a
      table grows and prefix-compressed when it is saved; the back end that finds
      a name is the class [DSNameBackend].  It also declares [outcome], the result
      of code that may throw, exit, or leave what the language defines.
    - [IdMap] (ds_id_map): which partition holds an id, as a segmented table.
    - [BlockData] (ds_types): instances, nets and vias of one block.
    - [DesignTables] (ds_types, ds_merge): layers, cells, pins and vias of the
      design and the merging of the tables of several files.
    - [InstancePipeline], [NetPipeline] (ds_instance_pipeline, ds_net_pipeline):
      the chains of handlers that turn a component or a net of a DEF file into
      block data; [DefAdapter] (ds_def_adapter): the callbacks of the three passes
      over a file, which run these chains; [LefAdapter] (ds_lef_adapter): the callbacks
      for technology and cell files, which fill the tables of [DesignTables].
    - [Doubles]: the rounding errors of the binary64 arithmetic of [Partition], for the
      lengths of LEF files.
    - [HierTree] (ds_types, ds_merge): the tree of block occurrences with the
      ranges of global ids and the composed placements.
    - [NameMapper] (ds_name_mapper): full hierarchical names and global ids.
    - [NetUnion] (ds_union): classes of nets connected through block ports.
    - [Density] (ds_types, ds_partition): density grids and their merge.
    - [Partition] (ds_partition): the partitions of the die.
    - [Flatten] (ds_flatten): the copies of instances, nets and shapes in the
      partitions, and the slices from which the id maps are made.
    - [Verify] (ds_verify): the checks on the finished database.

    ** How code is modelled

    Each class is a record with the fields of the class, each method a function
    on it; methods run under one lock, so a method is one step, and
    interleavings are sequences of steps.  Where a method waits or leaves the lock
    in between ([WriteBackQueue], [WorkerTasks]) its parts are separate steps.  Clocks are arguments.  Unordered
    containers whose order is visible in a result are finite maps; ids and
    counters keep their width where it matters.  What is outside the source tree
    is a class parameter with its documented laws: the checksum ([Checksum]),
    the compression libraries ([CompressionLib]), the serialization of index
    records ([IndexCodec]), and the source a reader pulls from ([PullSource],
    with [StreamSource] for sources that deliver a byte stream).  Each has an
    instance that the witnesses run on.  In the design database, the order in
    which an unordered container is traversed is a function argument; doubles are
    the binary64 numbers of the Standard Library's [SpecFloat]; signed arithmetic
    that would overflow has no value; tables that several objects share through
    pointers are passed and returned.

    ** What is proved

    - Task layer: an invariant of every reachable graph and a refinement of the
      graph to an abstract task board; the order of the ready queue; which
      workers are candidates, and that reconnection, grace and cancellation keep
      the registry right; the exact effect of a heartbeat sweep; that a task is
      in exactly one status bucket and that history clean-up drops the oldest;
      and for the scheduler, which task goes to which worker, when a task waits,
      and that exhaustive scheduling terminates with nothing left to dispatch.
    - Storage: every object written through a stream is read back, whatever the
      block size, codec and call pattern; no unverified block reaches a reader;
      the trailer parser accepts exactly the written trailers; a write segment is
      all or nothing under a crash at any byte; reloading and compacting an index
      keep its contents; a written record stays readable and an aborted segment
      leaves no trace in the data files; the write-back queue executes requests
      in order and at most once, loses no wake-up, and [drain] returns only when
      everything accepted is settled; the bounded queue respects its limit; the
      cache counts its bytes exactly and evicts the lowest scores, no more than
      needed.
    - Reads and indexes: a reader that waits for a write is released by its end; a
      read offers every replica in the documented order; no failed checksum is
      hidden from whoever asked; reads end; variables survive their file.
    - Master: in every run a task is pending in the registry exactly when the graph
      has it; after a scheduling pass nothing waits that can no longer become
      ready; a frozen database takes no write again; a failed task leaves nothing
      behind; every registration of a write gets the answer its case asks for; the
      variables workers have cached are those of the master.
    - Worker: a failed task is undone on the worker and at the master, whatever it
      wrote; what a completed task has streamed can be read, at once and after a
      restart; reports arrive in order and at most once.
    - Geometry: composition, boxes and polygons under placement, area and
      overlap, with the exact conditions under which 32-bit arithmetic is safe.
    - Names and ids: names and ids are inverse in every reachable table, and
      sealing and saving keep them; an id map answers exactly the first slice that
      has the id; blocks number their instances and nets without gaps; every
      global id belongs to one occurrence; full names and global ids round trip.
    - Parsing: reading a DEF file gives the instances and the nets its statements
      describe, whatever the size of the batches; connections are resolved exactly
      when their names are; nothing is dropped without being counted.  Reading a cell
      file gives a cell per macro with its pins, shapes and vias, and lengths with
      three decimals are converted without error.
    - Flow: the hierarchy has one node per occurrence of a block, and building it
      terminates or reports a cycle; merging densities conserves every count;
      the cores of the partitions tile the die; the union of nets is the least
      equivalence that the connections through ports generate; flattening puts
      every instance into the partitions it belongs to, one of them primary, and
      every shape into exactly those it touches, within 64 bits; and a database
      built by these parts passes its own verification.
    - Defects: theorems that exhibit behaviour the code does not mean to have
      (lost wake-ups of the graph, a false death on clock skew, silent loss on
      source and compression failures, versions lost on reload, a truncated
      temporary file, fake cells that collide when they are merged, vias lost at
      the end of a path, shapes counted twice, rules for vias skipped silently; tasks lost when a worker disconnects,
      restarted tasks that fail again, writes into databases frozen earlier,
      objects dropped by a refused write, variables lost when workers freeze; refused
      streams that a later task commits, repeated temporary objects that cannot be
      read, reports lost with their connection).

    ** Fuel

    Loops that are not structural carry fuel, always with a theorem that it is
    enough or in a form where running out is visible: the write loop takes one
    unit per byte and returns [None] otherwise; [pull_exact] and [xsgetn] consume
    a byte per iteration; the loader of the index a record of at least eight
    bytes; exhaustive scheduling a ready task; the search for a free file name
    one unit per existing file.  The worker of the write-back queue needs three
    steps per request, and four attempts at most for each.  In the design
    database: the walk over the hierarchy goes no deeper than there are blocks;
    the loops of the union-find are bounded by the size of its table; the cuts of
    a prefix sum and the segments of an id map by the numbers of cells and ids.
    A read carries one unit per round over the replicas; [read_returns] shows that
    the rounds within the network deadline are enough.
    Theorems about parsing assume coordinates within 28 bits, far above any die,
    so that no intermediate value leaves 32 bits.

    ** Not modelled

    The LEF and DEF readers are vendored; sockets, event loops and the encoding of
    messages are I/O; configuration, logging, monitoring and the Python bindings
    are glue.  Of the master, merges of databases, backups, data queries, message
    quotas, the spawning of storage nodes, the stop sequence and the recording of
    metrics are left out; of the worker, the execution of tasks in Python, internal
    tasks, index loads, removals, monitoring and the calls between workers.  The library reader and the timing tables,
    the sink mode of streams and their disk and network sources
    are not modelled.  Failing file operations, the texts of log messages and the
    serialization of the design objects are not modelled either. *)

From stdpp Require Import base gmap strings list sorting fin_maps.
From Stdlib Require Import ZArith Lia.

Declare Scope fly_scope.
Delimit Scope fly_scope with fly.
Open Scope fly_scope.

(** * Record update

    The C++ code mutates members of structs in place.  A member update is
    written [x <| field_ := v |>], or [x <| field_ ::= f |>] for a
    read-modify-write of the member. *)

Class Setter {R T : Type} (proj : R -> T) := set_field : (T -> T) -> R -> R.
Arguments set_field {R T} proj {Setter} _ _ /.
#[export] Hint Mode Setter - - ! : typeclass_instances.

Notation "x <| proj ::= f |>" := (set_field proj f x)
  (at level 12, left associativity, format "x  <|  proj  ::=  f  |>") : fly_scope.
Notation "x <| proj := v |>" := (set_field proj (fun _ => v) x)
  (at level 12, left associativity, format "x  <|  proj  :=  v  |>") : fly_scope.

(** * Machine integers *)

(** [uint64_t], [uint32_t], [uint16_t] arithmetic wraps modulo the width. *)
Definition u64 (x : Z) : Z := x `mod` 2 ^ 64.
Definition u32 (x : Z) : Z := x `mod` 2 ^ 32.
Definition u16 (x : Z) : Z := x `mod` 2 ^ 16.

(** Conversion to [int32_t]. *)
Definition s32 (x : Z) : Z := (x + 2 ^ 31) `mod` 2 ^ 32 - 2 ^ 31.

Lemma s32_small x : (- 2 ^ 31 <= x < 2 ^ 31)%Z -> s32 x = x.
Proof. intros ?. unfold s32. rewrite Z.mod_small; lia. Qed.

Lemma u64_small x : (0 <= x < 2 ^ 64)%Z -> u64 x = x.
Proof. apply Z.mod_small. Qed.

Lemma u32_small x : (0 <= x < 2 ^ 32)%Z -> u32 x = x.
Proof. apply Z.mod_small. Qed.

Lemma u16_small x : (0 <= x < 2 ^ 16)%Z -> u16 x = x.
Proof. apply Z.mod_small. Qed.

Lemma u64_sub_wraps a b :
  (0 <= a)%Z -> (a < b)%Z -> (b < 2 ^ 64)%Z -> u64 (a - b) = (2 ^ 64 + a - b)%Z.
Proof.
  intros ???. unfold u64. symmetry.
  apply Z.mod_unique_pos with (-1)%Z; lia.
Qed.

(** * Maps used with [operator[]]

    [m[k]] on an [unordered_map] inserts a default value when [k] is absent;
    [map_touch] is that insertion. *)
Section map_touch.
Context {K V : Type} `{Countable K}.

Definition map_touch (d : V) (k : K) (m : gmap K V) : gmap K V :=
  <[k := default d (m !! k)]> m.

Lemma map_touch_id d k m : is_Some (m !! k) -> map_touch d k m = m.
Proof. intros [v Hv]. unfold map_touch. rewrite Hv. by apply insert_id. Qed.
End map_touch.
Arguments map_touch {_ _ _ _} _ _ _ : simpl never.

(** Proves a decidable closed proposition by evaluating its decision. *)
Ltac decide_compute := apply (bool_decide_eq_true_1 _); vm_compute; reflexivity.

(** * Sorting

    [std::sort] and the in-order traversal of [std::set] are both modelled by
    stdpp's [merge_sort]; the orders used are total, so the result does not
    depend on the order in which a hash table is traversed. *)
Section sort_facts.
Context {A : Type} (R : relation A) `{!RelDecision R} `{!Transitive R} `{!Total R}.

Lemma sort_elem l x : x ∈ merge_sort R l <-> x ∈ l.
Proof. by rewrite (merge_sort_Permutation R l). Qed.

Lemma sort_NoDup l : NoDup l -> NoDup (merge_sort R l).
Proof. by rewrite (merge_sort_Permutation R l). Qed.

Lemma sort_length l : length (merge_sort R l) = length l.
Proof. apply Permutation_length, merge_sort_Permutation. Qed.

Lemma sort_strongly l : StronglySorted R (merge_sort R l).
Proof. apply StronglySorted_merge_sort; apply _. Qed.

Lemma sort_perm_eq `{!AntiSymm (=) R} l1 l2 :
  l1 ≡ₚ l2 -> merge_sort R l1 = merge_sort R l2.
Proof.
  intros Hp. apply (StronglySorted_unique R); [apply sort_strongly..|].
  by rewrite !(merge_sort_Permutation R).
Qed.
End sort_facts.

Lemma StronglySorted_app_inv {A} (R : relation A) l1 l2 :
  StronglySorted R (l1 ++ l2) ->
  StronglySorted R l1 /\ StronglySorted R l2 /\ forall x y, x ∈ l1 -> y ∈ l2 -> R x y.
Proof.
  induction l1 as [|a l1 IH]; cbn; intros Hs.
  - repeat split; [constructor | done |]. set_solver.
  - apply StronglySorted_inv in Hs as [Hs Hall].
    destruct (IH Hs) as (H1 & H2 & H3). rewrite Forall_forall in Hall.
    repeat split; [constructor; [done|] | done |].
    + apply Forall_forall. set_solver.
    + set_solver.
Qed.

Lemma StronglySorted_filter {A} (R : relation A) (P : A -> Prop) `{!forall x, Decision (P x)} l :
  StronglySorted R l -> StronglySorted R (filter P l).
Proof.
  induction 1 as [|a l Hs IH Hall]; [constructor|].
  destruct (decide (P a)); [rewrite filter_cons_True by done|by rewrite filter_cons_False].
  constructor; [done|]. rewrite Forall_forall in *. intros x [_ Hx]%list_elem_of_filter. auto.
Qed.

Lemma list_filter_ext_in {A} (P1 P2 : A -> Prop) `{!forall x, Decision (P1 x)}
    `{!forall x, Decision (P2 x)} (l : list A) :
  (forall x, x ∈ l -> P1 x <-> P2 x) -> filter P1 l = filter P2 l.
Proof.
  induction l as [|a l IH]; intros Hiff; [done|].
  assert (filter P1 l = filter P2 l) as E by (apply IH; set_solver).
  destruct (decide (P1 a)) as [Ha|Ha].
  - rewrite !filter_cons_True by (done || (apply Hiff; [set_solver|done])). by rewrite E.
  - rewrite !filter_cons_False; [done | | done]. rewrite <- Hiff; [done | set_solver].
Qed.

(** Ascending lists of different ids. *)
Lemma sorted_le_lt (l : list N) : StronglySorted N.le l -> NoDup l -> StronglySorted N.lt l.
Proof.
  induction 1 as [|a l Hs IH Hall]; [constructor|]. intros [Ha Hn]%NoDup_cons. constructor; [by apply IH|].
  rewrite Forall_forall in *. intros x Hx. specialize (Hall x Hx). assert (a <> x) by (by intros ->). lia.
Qed.

Lemma sorted_lt (l : list N) : NoDup l -> StronglySorted N.lt (merge_sort N.le l).
Proof. intros Hn. apply sorted_le_lt; [apply (sort_strongly N.le); apply _|by apply sort_NoDup]. Qed.

Lemma sorted_lt_NoDup (l : list N) : StronglySorted N.lt l -> NoDup l.
Proof.
  induction 1 as [|a l _ IH Hall]; [constructor|]. apply NoDup_cons. split; [|done]. rewrite Forall_forall in Hall.
  intros Ha%Hall. lia.
Qed.

Lemma sorted_lt_ext (l1 l2 : list N) :
  StronglySorted N.lt l1 -> StronglySorted N.lt l2 -> (forall x, x ∈ l1 <-> x ∈ l2) -> l1 = l2.
Proof.
  intros H1 H2 Hx. apply (StronglySorted_unique_strong N.lt); [intros; lia|done|done|].
  apply NoDup_Permutation; [by apply sorted_lt_NoDup|by apply sorted_lt_NoDup|done].
Qed.

(** A loop that only gathers. *)
Lemma foldl_gather {A St} (P : St -> Prop) (Q : A -> Prop) (f : St -> A -> St) l s :
  (forall s x, P (f s x) <-> P s \/ Q x) -> P (foldl f s l) <-> P s \/ exists x, x ∈ l /\ Q x.
Proof.
  intros H. revert s. induction l as [|x l IH]; intros s; cbn [foldl].
  - split; [by left|]. by intros [?|(? & ?%elem_of_nil & _)].
  - rewrite IH, H. setoid_rewrite elem_of_cons. split.
    + intros [[?|?]|(y & ? & ?)]; eauto 6.
    + intros [?|(y & [->|?] & ?)]; eauto.
Qed.

Lemma elem_of_concat {A} (x : A) ls : x ∈ concat ls <-> exists l, x ∈ l /\ l ∈ ls.
Proof.
  rewrite list_elem_of_In, in_concat. split; intros (l & H1 & H2); exists l; rewrite <- !list_elem_of_In in *; done.
Qed.

(** The first element with a key, where keys are unique. *)
Lemma list_find_key {A K} `{EqDecision K} (f : A -> K) l d x :
  NoDup (f <$> l) -> l !! d = Some x -> list_find (fun y => f y = f x) l = Some (d, x).
Proof.
  intros Hnd Hd. apply list_find_Some. split; [done|]. split; [done|]. intros j y Hj Hlt E.
  assert (d = j) by (apply (NoDup_lookup _ _ _ (f x) Hnd); rewrite list_lookup_fmap, ?Hd, ?Hj; cbn; congruence). lia.
Qed.

Lemma concat_NoDup {A} (ls : list (list A)) :
  (forall l, l ∈ ls -> NoDup l) ->
  (forall i j l l' x, ls !! i = Some l -> ls !! j = Some l' -> x ∈ l -> x ∈ l' -> i = j) -> NoDup (concat ls).
Proof.
  induction ls as [|l ls IH]; intros Hnd Hone; cbn; [constructor|]. apply NoDup_app. split; [apply Hnd; by left|]. split.
  - intros x Hx (l' & Hx' & [j Hj]%list_elem_of_lookup)%elem_of_concat. by pose proof (Hone 0%nat (S j) l l' x eq_refl Hj Hx Hx').
  - apply IH; [intros; apply Hnd; by right|]. intros i j a b x Hi Hj Ha Hb. by injection (Hone (S i) (S j) a b x Hi Hj Ha Hb).
Qed.

(** The first error of a loop with an early return. *)
Fixpoint first_error {A E} (f : A -> option E) (l : list A) : option E :=
  match l with
  | [] => None
  | x :: l => match f x with Some e => Some e | None => first_error f l end
  end.

Lemma first_error_None {A E} (f : A -> option E) l : first_error f l = None <-> forall x, x ∈ l -> f x = None.
Proof.
  induction l as [|x l IH]; cbn [first_error].
  { split; [|done]. by intros _ x ?%elem_of_nil. }
  destruct (f x) as [e|] eqn:Ex.
  - split; [done|]. intros H. by rewrite <- (H x) by by left.
  - rewrite IH. split; [|intros H y Hy; apply H; by right]. intros H y [->|Hy]%elem_of_cons; [done|by apply H].
Qed.

Lemma mapM_elem {A B} (f : A -> option B) l ls a : mapM f l = Some ls -> a ∈ l -> exists k, f a = Some k.
Proof.
  intros H%mapM_Some [i Hi]%list_elem_of_lookup. destruct (Forall2_lookup_l _ _ _ _ _ H Hi) as (k & _ & ?). by exists k.
Qed.

(** The results of a loop that collects lists. *)
Lemma elem_of_mapM_concat {A B} (f : A -> option (list B)) l ls x :
  mapM f l = Some ls -> x ∈ concat ls <-> exists a k, a ∈ l /\ f a = Some k /\ x ∈ k.
Proof.
  intros H%mapM_Some. rewrite elem_of_concat. split.
  - intros (k & Hx & [i Hi]%list_elem_of_lookup). destruct (Forall2_lookup_r _ _ _ _ _ H Hi) as (a & Ha & E).
    exists a, k. split; [by eapply list_elem_of_lookup_2|done].
  - intros (a & k & [i Hi]%list_elem_of_lookup & E & Hx). destruct (Forall2_lookup_l _ _ _ _ _ H Hi) as (k' & Hk & E').
    exists k. split; [done|]. rewrite E in E'. injection E' as <-. by eapply list_elem_of_lookup_2.
Qed.

(** * Loops that can fail

    A [for] loop over the elements of a list whose body can fail. *)

Fixpoint ofold_option {A St} (f : St -> A -> option St) (l : list A) (s : St) : option St :=
  match l with
  | [] => Some s
  | x :: l => s' ← f s x; ofold_option f l s'
  end.

Lemma ofold_option_snoc {A St} (f : St -> A -> option St) l x s :
  ofold_option f (l ++ [x]) s = (s' ← ofold_option f l s; f s' x).
Proof.
  revert s. induction l as [|y l IH]; intros s; cbn [app ofold_option mbind option_bind].
  - by destruct (f s x).
  - destruct (f s y); cbn [mbind option_bind]; [apply IH|done].
Qed.

(** An observation that no step of a loop changes. *)
Lemma foldl_same {A St T} (obs : St -> T) (f : St -> A -> St) l s :
  (forall s x, obs (f s x) = obs s) -> obs (foldl f s l) = obs s.
Proof. intros H. revert s. induction l as [|x l IH]; intros s; [done|]. cbn. by rewrite IH. Qed.

Lemma ofold_same {A St T} (obs : St -> T) (f : St -> A -> option St) l s s' :
  (forall s x s', f s x = Some s' -> obs s' = obs s) -> ofold_option f l s = Some s' -> obs s' = obs s.
Proof.
  intros H. revert s. induction l as [|x l IH]; intros s; cbn [ofold_option]; [by intros [= <-]|].
  intros (s1 & H1 & H2)%bind_Some. rewrite (IH _ H2). by apply (H s x).
Qed.

Lemma ofold_fmap {A C St} (f : St -> C -> option St) (g : A -> C) l s :
  ofold_option f (g <$> l) s = ofold_option (fun s x => f s (g x)) l s.
Proof.
  revert s. induction l as [|x l IH]; intros s; [done|]. cbn [ofold_option fmap list_fmap].
  destruct (f s (g x)); [|done]. cbn [mbind option_bind]. apply IH.
Qed.

Lemma ofold_total {A St} (f : St -> A -> option St) l s :
  (forall x s, x ∈ l -> is_Some (f s x)) -> is_Some (ofold_option f l s).
Proof.
  revert s. induction l as [|x l IH]; intros s H; [done|]. cbn [ofold_option].
  destruct (H x s ltac:(by left)) as [s1 ->]. cbn [mbind option_bind]. apply IH. intros y s' Hy. apply H. by right.
Qed.

(** A loop whose steps write: [made x v] when the step of [x] stores [v].  Elements
    that store anything at all have the same key. *)
Section overlay.
Context {A St K V : Type} `{!EqDecision K}.
Context (obs : St -> V -> Prop) (step : St -> A -> option St) (made : A -> V -> Prop) (key : A -> K).

Lemma ofold_overlay l s s' v :
  (forall x, x ∈ l -> forall s s1, step s x = Some s1 ->
     forall v, obs s1 v <-> made x v \/ (obs s v /\ ~ exists v', made x v')) ->
  (forall x y v v', x ∈ l -> y ∈ l -> made x v -> made y v' -> key x = key y) ->
  (forall x y, x ∈ l -> y ∈ l -> key x = key y -> x = y) ->
  ofold_option step l s = Some s' ->
  obs s' v <-> (exists x, x ∈ l /\ made x v) \/ (obs s v /\ ~ exists x v', x ∈ l /\ made x v').
Proof using Type*.
  intros Hstep Hone Hkey. revert s. induction l as [|x l IH]; intros s; cbn [ofold_option].
  { intros [= <-]. split; [intros H; right; split; [done|]; by intros (? & ? & ?%elem_of_nil & _)|].
    by intros [(? & ?%elem_of_nil & _)|[? _]]. }
  intros (s1 & H1 & H2)%bind_Some. rewrite (IH ltac:(set_solver) ltac:(set_solver) ltac:(set_solver) s1 H2),
    (Hstep x ltac:(by left) s s1 H1). clear IH. split.
  - intros [(y & Hy & Hm)|[[Hm|[H Hno]] Hno']].
    + left. exists y. split; [by right|done].
    + left. exists x. split; [by left|done].
    + right. split; [done|]. intros (y & v' & [->|Hy]%elem_of_cons & Hm); [by apply Hno; exists v'|]. apply Hno'. by exists y, v'.
  - intros [(y & [->|Hy]%elem_of_cons & Hm)|[H Hno]].
    + destruct (decide (Exists (fun y => key y = key x) l)) as [Hex|Hex].
      * apply Exists_exists in Hex as (y & Hy & E). assert (y = x) as -> by (apply Hkey; [by right|by left|done]).
        left. by exists x.
      * right. split; [by left|]. intros (y & v' & Hy & Hm'). apply Hex, Exists_exists. exists y. split; [done|].
        symmetry. apply (Hone x y v v'); [by left|by right|done|done].
    + left. by exists y.
    + right. split; [right; split; [done|]|].
      * intros (v' & Hm). apply Hno. exists x, v'. split; [by left|done].
      * intros (y & v' & Hy & Hm). apply Hno. exists y, v'. split; [by right|done].
Qed.
End overlay.
