(* ===== verification/DependencyGraph.v ===== *)
(** The dependency graph of the task layer (src/task/cpp/dependency_graph.h
    and .cpp): which submitted tasks wait for input data and which are ready to
    be scheduled, in priority order.

    Every public method of the C++ class runs under [mutex_], so a method is one
    atomic state transformer; [graph_step] is the resulting step relation. *)

From stdpp Require Import base gmap strings list sorting fin_maps.
From Stdlib Require Import ZArith QArith Lia.
From S2P Require Import Prelude.

(** Worker attributes a task asks for ([TaskRequirements]).  The float
    [timeout_seconds_] is the rational it denotes; locality hints pair a
    worker with the input bytes it holds. *)
Record TaskRequirements := mkTaskRequirements {
  capabilities_ : list string;
  timeout_seconds_ : Q;
  locality_hint_ : list (N * Z);
  priority_ : Z
}.

#[export] Instance set_capabilities_TaskRequirements : Setter capabilities_ :=
  fun h x => mkTaskRequirements (h (capabilities_ x)) (timeout_seconds_ x) (locality_hint_ x) (priority_ x).
Arguments set_capabilities_TaskRequirements h x /.
#[export] Instance set_timeout_seconds_TaskRequirements : Setter timeout_seconds_ :=
  fun h x => mkTaskRequirements (capabilities_ x) (h (timeout_seconds_ x)) (locality_hint_ x) (priority_ x).
Arguments set_timeout_seconds_TaskRequirements h x /.
#[export] Instance set_locality_hint_TaskRequirements : Setter locality_hint_ :=
  fun h x => mkTaskRequirements (capabilities_ x) (timeout_seconds_ x) (h (locality_hint_ x)) (priority_ x).
Arguments set_locality_hint_TaskRequirements h x /.
#[export] Instance set_priority_TaskRequirements : Setter priority_ :=
  fun h x => mkTaskRequirements (capabilities_ x) (timeout_seconds_ x) (locality_hint_ x) (h (priority_ x)).
Arguments set_priority_TaskRequirements h x /.

(** The members of [DependencyGraph].  [ready_tasks_] holds the keys
    [(-priority, task_id)] of the ordered set of the source. *)
Record DependencyGraph := mkDependencyGraph {
  task_dependencies_ : gmap N (list string);
  data_ready_status_ : gmap string bool;
  task_requirements_ : gmap N TaskRequirements;
  ready_tasks_ : gset (Z * N);
  pending_tasks_ : gset N;
  completed_tasks_ : gset N;
  task_ready_timestamps_ : gmap N Z;
  task_ready_epoch_ms_ : gmap N Z;
  data_to_pending_tasks_ : gmap string (gset N)
}.

#[export] Instance set_task_dependencies_DependencyGraph : Setter task_dependencies_ :=
  fun h x => mkDependencyGraph (h (task_dependencies_ x)) (data_ready_status_ x) (task_requirements_ x) (ready_tasks_ x) (pending_tasks_ x) (completed_tasks_ x) (task_ready_timestamps_ x) (task_ready_epoch_ms_ x) (data_to_pending_tasks_ x).
Arguments set_task_dependencies_DependencyGraph h x /.
#[export] Instance set_data_ready_status_DependencyGraph : Setter data_ready_status_ :=
  fun h x => mkDependencyGraph (task_dependencies_ x) (h (data_ready_status_ x)) (task_requirements_ x) (ready_tasks_ x) (pending_tasks_ x) (completed_tasks_ x) (task_ready_timestamps_ x) (task_ready_epoch_ms_ x) (data_to_pending_tasks_ x).
Arguments set_data_ready_status_DependencyGraph h x /.
#[export] Instance set_task_requirements_DependencyGraph : Setter task_requirements_ :=
  fun h x => mkDependencyGraph (task_dependencies_ x) (data_ready_status_ x) (h (task_requirements_ x)) (ready_tasks_ x) (pending_tasks_ x) (completed_tasks_ x) (task_ready_timestamps_ x) (task_ready_epoch_ms_ x) (data_to_pending_tasks_ x).
Arguments set_task_requirements_DependencyGraph h x /.
#[export] Instance set_ready_tasks_DependencyGraph : Setter ready_tasks_ :=
  fun h x => mkDependencyGraph (task_dependencies_ x) (data_ready_status_ x) (task_requirements_ x) (h (ready_tasks_ x)) (pending_tasks_ x) (completed_tasks_ x) (task_ready_timestamps_ x) (task_ready_epoch_ms_ x) (data_to_pending_tasks_ x).
Arguments set_ready_tasks_DependencyGraph h x /.
#[export] Instance set_pending_tasks_DependencyGraph : Setter pending_tasks_ :=
  fun h x => mkDependencyGraph (task_dependencies_ x) (data_ready_status_ x) (task_requirements_ x) (ready_tasks_ x) (h (pending_tasks_ x)) (completed_tasks_ x) (task_ready_timestamps_ x) (task_ready_epoch_ms_ x) (data_to_pending_tasks_ x).
Arguments set_pending_tasks_DependencyGraph h x /.
#[export] Instance set_completed_tasks_DependencyGraph : Setter completed_tasks_ :=
  fun h x => mkDependencyGraph (task_dependencies_ x) (data_ready_status_ x) (task_requirements_ x) (ready_tasks_ x) (pending_tasks_ x) (h (completed_tasks_ x)) (task_ready_timestamps_ x) (task_ready_epoch_ms_ x) (data_to_pending_tasks_ x).
Arguments set_completed_tasks_DependencyGraph h x /.
#[export] Instance set_task_ready_timestamps_DependencyGraph : Setter task_ready_timestamps_ :=
  fun h x => mkDependencyGraph (task_dependencies_ x) (data_ready_status_ x) (task_requirements_ x) (ready_tasks_ x) (pending_tasks_ x) (completed_tasks_ x) (h (task_ready_timestamps_ x)) (task_ready_epoch_ms_ x) (data_to_pending_tasks_ x).
Arguments set_task_ready_timestamps_DependencyGraph h x /.
#[export] Instance set_task_ready_epoch_ms_DependencyGraph : Setter task_ready_epoch_ms_ :=
  fun h x => mkDependencyGraph (task_dependencies_ x) (data_ready_status_ x) (task_requirements_ x) (ready_tasks_ x) (pending_tasks_ x) (completed_tasks_ x) (task_ready_timestamps_ x) (h (task_ready_epoch_ms_ x)) (data_to_pending_tasks_ x).
Arguments set_task_ready_epoch_ms_DependencyGraph h x /.
#[export] Instance set_data_to_pending_tasks_DependencyGraph : Setter data_to_pending_tasks_ :=
  fun h x => mkDependencyGraph (task_dependencies_ x) (data_ready_status_ x) (task_requirements_ x) (ready_tasks_ x) (pending_tasks_ x) (completed_tasks_ x) (task_ready_timestamps_ x) (task_ready_epoch_ms_ x) (h (data_to_pending_tasks_ x)).
Arguments set_data_to_pending_tasks_DependencyGraph h x /.

(** [TaskRequirements{}]: no capability, wait forever, priority 10. *)
Definition default_requirements : TaskRequirements := mkTaskRequirements [] (-1)%Q [] 10.

Definition empty_graph : DependencyGraph := mkDependencyGraph ∅ ∅ ∅ ∅ ∅ ∅ ∅ ∅ ∅.

(** The clock readings taken when a given task becomes ready: the steady
    clock (nanoseconds) and the wall clock (epoch milliseconds).  An operation
    that makes several tasks ready reads the clocks once per task. *)
Record clock := mkClock { steady_now : N -> Z; epoch_ms_now : N -> Z }.

(** [data_ready_status_.count(dep) && data_ready_status_[dep]] *)
Definition dep_met (g : DependencyGraph) (dep : string) : bool :=
  match data_ready_status_ g !! dep with Some b => b | None => false end.

(** The priority looked up for a key of [ready_tasks_]; 10 when unknown. *)
Definition priority_of (g : DependencyGraph) (task_id : N) : Z :=
  match task_requirements_ g !! task_id with Some r => priority_ r | None => 10 end.

(** The order of [std::pair<int, uint64_t>]. *)
Definition key_le (a b : Z * N) : Prop := (a.1 < b.1)%Z \/ (a.1 = b.1 /\ (a.2 <= b.2)%N).

#[export] Instance key_le_dec : RelDecision key_le.
Proof. intros a b. unfold key_le. apply _. Defined.
#[export] Instance key_le_trans : Transitive key_le.
Proof. intros [] [] []. unfold key_le; cbn. lia. Qed.
#[export] Instance key_le_total : Total key_le.
Proof. intros [] []. unfold key_le; cbn. lia. Qed.
#[export] Instance key_le_antisymm : AntiSymm (=) key_le.
Proof. intros [] []. unfold key_le; cbn. intros. f_equal; lia. Qed.

(** In-order traversal of [ready_tasks_]. *)
Definition ready_keys (g : DependencyGraph) : list (Z * N) :=
  merge_sort key_le (elements (ready_tasks_ g)).

Definition get_ready_tasks (g : DependencyGraph) : list N := (ready_keys g).*2.

(** [data_to_pending_tasks_[dep].insert(task_id)] *)
Definition index_insert (task_id : N) (dep : string) (idx : gmap string (gset N)) :
    gmap string (gset N) :=
  <[dep := {[task_id]} ∪ default ∅ (idx !! dep)]> idx.

(** Erase [task_id] from the set of [dep], and the set when it becomes empty. *)
Definition index_erase (task_id : N) (dep : string) (idx : gmap string (gset N)) :
    gmap string (gset N) :=
  match idx !! dep with
  | None => idx
  | Some s =>
      let s' := s ∖ {[task_id]} in
      if decide (s' = ∅) then delete dep idx else <[dep := s']> idx
  end.

Definition index_insert_unmet (g : DependencyGraph) (task_id : N) (deps : list string)
    (idx : gmap string (gset N)) : gmap string (gset N) :=
  foldl (fun i d => if dep_met g d then i else index_insert task_id d i) idx deps.

Definition index_erase_all (task_id : N) (deps : list string)
    (idx : gmap string (gset N)) : gmap string (gset N) :=
  foldl (fun i d => index_erase task_id d i) idx deps.

(** The three updates made when a task enters [ready_tasks_]. *)
Definition enter_ready (clk : clock) (task_id : N) (priority : Z) (g : DependencyGraph) :
    DependencyGraph :=
  g <| ready_tasks_ ::= fun s => {[(- priority, task_id)%Z]} ∪ s |>
    <| task_ready_timestamps_ ::= <[task_id := steady_now clk task_id]> |>
    <| task_ready_epoch_ms_ ::= <[task_id := epoch_ms_now clk task_id]> |>.

(** [add_task]; [None] is the abort on a duplicate task id. *)
Definition add_task (clk : clock) (task_id : N) (inputs : list string)
    (requirements : TaskRequirements) (g : DependencyGraph) : option DependencyGraph :=
  if decide (is_Some (task_dependencies_ g !! task_id)) then None
  else
    let g := g <| task_dependencies_ ::= <[task_id := inputs]> |>
               <| task_requirements_ ::= <[task_id := requirements]> |> in
    let pending := length (filter (fun d => dep_met g d = false) inputs) in
    let g := g <| data_to_pending_tasks_ ::= index_insert_unmet g task_id inputs |> in
    Some (if decide (pending = 0%nat) then enter_ready clk task_id (priority_ requirements) g
          else g <| pending_tasks_ ::= fun s => {[task_id]} ∪ s |>).

(** A hint for an unknown task is ignored. *)
Definition set_task_locality_hint (task_id : N) (hint : list (N * Z)) (g : DependencyGraph) :
    DependencyGraph :=
  match task_requirements_ g !! task_id with
  | None => g
  | Some r => g <| task_requirements_ ::= <[task_id := r <| locality_hint_ := hint |>]> |>
  end.

(** [check_and_move_to_ready]; the boolean is its return value. *)
Definition check_and_move_to_ready (clk : clock) (task_id : N) (g : DependencyGraph) :
    bool * DependencyGraph :=
  if decide (task_id ∈ completed_tasks_ g) then (false, g)
  else if decide (task_id ∈ (elements (ready_tasks_ g)).*2) then (false, g)
  else if decide (task_id ∉ pending_tasks_ g) then (false, g)
  else
    let deps := default [] (task_dependencies_ g !! task_id) in
    let g := g <| task_dependencies_ ::= map_touch [] task_id |> in
    if forallb (dep_met g) deps then
      let g := g <| pending_tasks_ ::= fun s => s ∖ {[task_id]} |> in
      let g := enter_ready clk task_id (priority_of g task_id) g in
      (true, g <| data_to_pending_tasks_ ::= index_erase_all task_id deps |>)
    else (false, g).

Definition mark_data_ready (clk : clock) (data_path : string) (g : DependencyGraph) :
    DependencyGraph :=
  let g := g <| data_ready_status_ ::= <[data_path := true]> |> in
  match data_to_pending_tasks_ g !! data_path with
  | None => g
  | Some affected_tasks =>
      foldl (fun g t => snd (check_and_move_to_ready clk t g)) g (elements affected_tasks)
  end.

(** One iteration of the second loop of [mark_data_removed]. *)
Definition move_back_to_pending (task_id : N) (g : DependencyGraph) : DependencyGraph :=
  let g := g <| ready_tasks_ ::= fun s => s ∖ {[(- priority_of g task_id, task_id)%Z]} |>
             <| pending_tasks_ ::= fun s => {[task_id]} ∪ s |>
             <| task_ready_timestamps_ ::= delete task_id |> in
  let deps := default [] (task_dependencies_ g !! task_id) in
  let g := g <| task_dependencies_ ::= map_touch [] task_id |> in
  g <| data_to_pending_tasks_ ::= index_insert_unmet g task_id deps |>.

Definition mark_data_removed (data_path : string) (g : DependencyGraph) : DependencyGraph :=
  let g := g <| data_ready_status_ ::= delete data_path |> in
  let ready_ids := get_ready_tasks g in
  let to_pending := filter (fun t => data_path ∈ default [] (task_dependencies_ g !! t)) ready_ids in
  let g := g <| task_dependencies_ ::= fun m => foldl (fun m t => map_touch [] t m) m ready_ids |> in
  foldl (fun g t => move_back_to_pending t g) g to_pending.

Definition remove_task (task_id : N) (g : DependencyGraph) : DependencyGraph :=
  let g := g <| ready_tasks_ ::= fun s => s ∖ {[(- priority_of g task_id, task_id)%Z]} |>
             <| pending_tasks_ ::= fun s => s ∖ {[task_id]} |>
             <| completed_tasks_ ::= fun s => {[task_id]} ∪ s |>
             <| task_ready_timestamps_ ::= delete task_id |> in
  let g := match task_dependencies_ g !! task_id with
           | Some deps => g <| data_to_pending_tasks_ ::= index_erase_all task_id deps |>
           | None => g
           end in
  g <| task_dependencies_ ::= delete task_id |> <| task_requirements_ ::= delete task_id |>.

Definition get_pending_tasks (g : DependencyGraph) : list N :=
  merge_sort N.le (elements (pending_tasks_ g)).

Definition is_data_ready (data_path : string) (g : DependencyGraph) : bool :=
  match data_ready_status_ g !! data_path with Some b => b | None => false end.

Definition is_task_ready (task_id : N) (g : DependencyGraph) : bool :=
  bool_decide ((- priority_of g task_id, task_id)%Z ∈ ready_tasks_ g).

Definition completed_count (g : DependencyGraph) : nat := size (completed_tasks_ g).

Definition get_task_requirements (task_id : N) (g : DependencyGraph) : TaskRequirements :=
  default default_requirements (task_requirements_ g !! task_id).

Definition get_task_ready_timestamp (task_id : N) (g : DependencyGraph) : option Z :=
  task_ready_timestamps_ g !! task_id.

Definition get_task_ready_epoch_ms (task_id : N) (g : DependencyGraph) : Z :=
  default 0%Z (task_ready_epoch_ms_ g !! task_id).

Definition get_task_dependencies (task_id : N) (g : DependencyGraph) : list string :=
  default [] (task_dependencies_ g !! task_id).

(** ** The graph as a state machine *)

Inductive graph_op :=
| OpAddTask (clk : clock) (task_id : N) (inputs : list string) (reqs : TaskRequirements)
| OpSetHint (task_id : N) (hint : list (N * Z))
| OpDataReady (clk : clock) (data_path : string)
| OpDataRemoved (data_path : string)
| OpRemoveTask (task_id : N).

Definition graph_apply (op : graph_op) (g : DependencyGraph) : option DependencyGraph :=
  match op with
  | OpAddTask clk t ins r => add_task clk t ins r g
  | OpSetHint t h => Some (set_task_locality_hint t h g)
  | OpDataReady clk d => Some (mark_data_ready clk d g)
  | OpDataRemoved d => Some (mark_data_removed d g)
  | OpRemoveTask t => Some (remove_task t g)
  end.

Inductive graph_step : DependencyGraph -> graph_op -> DependencyGraph -> Prop :=
| graph_step_op g op g' : graph_apply op g = Some g' -> graph_step g op g'.

Inductive graph_run : DependencyGraph -> list graph_op -> DependencyGraph -> Prop :=
| graph_run_nil g : graph_run g [] g
| graph_run_cons g op g' ops g'' :
    graph_step g op g' -> graph_run g' ops g'' -> graph_run g (op :: ops) g''.

(** ** The reverse index *)

(** [idx_has idx d t]: [t] is recorded under [d]. *)
Definition idx_has (idx : gmap string (gset N)) (d : string) (t : N) : Prop :=
  t ∈ default ∅ (idx !! d).

Definition idx_no_empty (idx : gmap string (gset N)) : Prop :=
  forall d s, idx !! d = Some s -> s <> ∅.

Lemma idx_has_insert t d idx d' t' :
  idx_has (index_insert t d idx) d' t' <-> (d' = d /\ t' = t) \/ idx_has idx d' t'.
Proof.
  unfold idx_has, index_insert. destruct (decide (d = d')) as [->|].
  - rewrite lookup_insert_eq. cbn. set_solver.
  - rewrite lookup_insert_ne by done. naive_solver.
Qed.

Lemma idx_has_erase t d idx d' t' :
  idx_has (index_erase t d idx) d' t' <-> idx_has idx d' t' /\ ~ (d' = d /\ t' = t).
Proof.
  unfold idx_has, index_erase. destruct (idx !! d) as [s|] eqn:E.
  - destruct (decide (d = d')) as [<-|].
    + rewrite E. case_decide; [rewrite lookup_delete_eq | rewrite lookup_insert_eq]; cbn; set_solver.
    + case_decide; [rewrite lookup_delete_ne by done | rewrite lookup_insert_ne by done]; naive_solver.
  - split; [intros Hin; split; [done|] | naive_solver].
    intros [-> ->]. rewrite E in Hin. set_solver.
Qed.

Lemma idx_no_empty_insert t d idx : idx_no_empty idx -> idx_no_empty (index_insert t d idx).
Proof.
  intros Hne d' s. unfold index_insert. rewrite lookup_insert.
  case_decide; [intros [= <-]; set_solver | apply Hne].
Qed.

Lemma idx_no_empty_erase t d idx : idx_no_empty idx -> idx_no_empty (index_erase t d idx).
Proof.
  intros Hne d' s. unfold index_erase. destruct (idx !! d) as [s0|]; [|apply Hne].
  case_decide.
  - rewrite lookup_delete_Some. intros [_ ?]. by eapply Hne.
  - rewrite lookup_insert. case_decide; [by intros [= <-] | apply Hne].
Qed.

Lemma idx_has_insert_unmet g t deps idx d' t' :
  idx_has (index_insert_unmet g t deps idx) d' t' <->
  (t' = t /\ d' ∈ deps /\ dep_met g d' = false) \/ idx_has idx d' t'.
Proof.
  revert idx. unfold index_insert_unmet. induction deps as [|d deps IH]; intros idx; cbn.
  - set_solver.
  - rewrite IH, elem_of_cons. destruct (dep_met g d) eqn:E.
    + naive_solver congruence.
    + rewrite idx_has_insert. naive_solver.
Qed.

Lemma idx_no_empty_insert_unmet g t deps idx :
  idx_no_empty idx -> idx_no_empty (index_insert_unmet g t deps idx).
Proof.
  revert idx. unfold index_insert_unmet. induction deps as [|d deps IH]; intros idx; cbn; [done|].
  intros. apply IH. destruct (dep_met g d); auto using idx_no_empty_insert.
Qed.

Lemma idx_has_erase_all t deps idx d' t' :
  idx_has (index_erase_all t deps idx) d' t' <-> idx_has idx d' t' /\ ~ (d' ∈ deps /\ t' = t).
Proof.
  revert idx. unfold index_erase_all. induction deps as [|d deps IH]; intros idx; cbn.
  - set_solver.
  - rewrite IH, idx_has_erase, elem_of_cons. naive_solver.
Qed.

Lemma idx_no_empty_erase_all t deps idx :
  idx_no_empty idx -> idx_no_empty (index_erase_all t deps idx).
Proof.
  revert idx. unfold index_erase_all. induction deps as [|d deps IH]; intros idx; cbn; [done|].
  auto using idx_no_empty_erase.
Qed.

Create HintDb graph.
#[export] Hint Resolve idx_no_empty_insert idx_no_empty_erase idx_no_empty_insert_unmet
  idx_no_empty_erase_all : graph.

(** ** The invariant *)

(** [t] is in [ready_tasks_] under some key. *)
Definition in_ready (g : DependencyGraph) (t : N) : Prop := exists k, (k, t) ∈ ready_tasks_ g.

Definition deps_of (g : DependencyGraph) (t : N) : list string :=
  default [] (task_dependencies_ g !! t).

Definition known (g : DependencyGraph) (t : N) : Prop := is_Some (task_dependencies_ g !! t).

(** Bookkeeping: every known task is either pending or ready, never both; the
    keys of [ready_tasks_] carry the task's priority; the reverse index lists
    pending tasks only, under their own dependencies, with no empty entry; the
    ready timestamps are those of the ready tasks. *)
Record graph_shape (g : DependencyGraph) : Prop := {
  wf_reqs : forall t, is_Some (task_requirements_ g !! t) <-> known g t;
  wf_key : forall k t, (k, t) ∈ ready_tasks_ g -> k = (- priority_of g t)%Z;
  wf_known : forall t, known g t <-> t ∈ pending_tasks_ g \/ in_ready g t;
  wf_disjoint : forall t, t ∈ pending_tasks_ g -> ~ in_ready g t;
  wf_index : forall d t, idx_has (data_to_pending_tasks_ g) d t ->
      t ∈ pending_tasks_ g /\ d ∈ deps_of g t;
  wf_index_ne : idx_no_empty (data_to_pending_tasks_ g);
  wf_stamps : forall t, is_Some (task_ready_timestamps_ g !! t) <-> in_ready g t
}.

(** No task is ready before all its inputs are. *)
Definition graph_safe (g : DependencyGraph) : Prop :=
  forall t d, in_ready g t -> d ∈ deps_of g t -> dep_met g d = true.

Record graph_wf (g : DependencyGraph) : Prop := {
  wf_shape :> graph_shape g;
  wf_safe : graph_safe g
}.

Lemma empty_graph_wf : graph_wf empty_graph.
Proof.
  split; [split|]; unfold known, in_ready, idx_has, idx_no_empty, graph_safe, in_ready; cbn;
    intros *; rewrite ?lookup_empty; try set_solver.
  all: split; [intros [? [=]] | set_solver].
Qed.

Lemma known_not_pending g t : graph_shape g -> ~ known g t -> t ∉ pending_tasks_ g /\ ~ in_ready g t.
Proof. intros Hs Hn. rewrite (wf_known g Hs) in Hn. tauto. Qed.


Lemma in_ready_key g t : graph_shape g -> in_ready g t <-> (- priority_of g t, t)%Z ∈ ready_tasks_ g.
Proof.
  intros Hwf. split; [|by eexists].
  intros [k Hk]. by rewrite <- (wf_key g Hwf _ _ Hk).
Qed.

Lemma elem_ready_ids g t : t ∈ (elements (ready_tasks_ g)).*2 <-> in_ready g t.
Proof.
  rewrite list_elem_of_fmap. unfold in_ready. split.
  - intros ([k t'] & -> & Hin). exists k. by apply elem_of_elements.
  - intros [k Hk]. exists (k, t). split; [done|]. by apply elem_of_elements.
Qed.

Lemma elem_get_ready_tasks g t : t ∈ get_ready_tasks g <-> in_ready g t.
Proof.
  rewrite <- elem_ready_ids. unfold get_ready_tasks, ready_keys.
  by rewrite (merge_sort_Permutation key_le).
Qed.

Lemma forallb_dep_met g deps :
  forallb (dep_met g) deps = true <-> forall d, d ∈ deps -> dep_met g d = true.
Proof.
  rewrite forallb_forall. by setoid_rewrite list_elem_of_In.
Qed.

(** A task that [check_and_move_to_ready] leaves alone. *)
Lemma check_and_move_blocked clk t g :
  graph_wf g -> snd (check_and_move_to_ready clk t g) = g \/
  (t ∉ completed_tasks_ g /\ t ∈ pending_tasks_ g /\ ~ in_ready g t /\
   (forall d, d ∈ deps_of g t -> dep_met g d = true) /\
   fst (check_and_move_to_ready clk t g) = true /\
   snd (check_and_move_to_ready clk t g) =
     enter_ready clk t (priority_of g t)
       (g <| pending_tasks_ ::= fun s => s ∖ {[t]} |>)
     <| data_to_pending_tasks_ ::= index_erase_all t (deps_of g t) |>).
Proof.
  intros Hwf. unfold check_and_move_to_ready.
  case_decide as Hc; [by left|]. case_decide as Hr; [by left|].
  case_decide as Hp; [by left|].
  rewrite elem_ready_ids in Hr.
  assert (Hk : known g t) by (apply (wf_known g Hwf); auto).
  assert (Htouch : g <| task_dependencies_ ::= map_touch [] t |> = g).
  { cbn. rewrite map_touch_id by done. by destruct g. }
  rewrite Htouch. fold (deps_of g t).
  destruct (forallb (dep_met g) (deps_of g t)) eqn:E; [|by left].
  right. rewrite forallb_dep_met in E. done.
Qed.

Lemma enter_ready_in_ready clk t p g t' :
  in_ready (enter_ready clk t p g) t' <-> t' = t \/ in_ready g t'.
Proof. unfold in_ready; cbn. set_solver. Qed.

Lemma move_to_ready_wf clk t g :
  graph_wf g -> t ∈ pending_tasks_ g ->
  (forall d, d ∈ deps_of g t -> dep_met g d = true) ->
  graph_wf (enter_ready clk t (priority_of g t)
       (g <| pending_tasks_ ::= fun s => s ∖ {[t]} |>)
     <| data_to_pending_tasks_ ::= index_erase_all t (deps_of g t) |>).
Proof.
  intros Hwf Hp Hmet. pose proof (wf_disjoint g Hwf) as Hdis.
  split; [split|].
  - apply (wf_reqs g Hwf).
  - intros k u Hin. cbn in Hin. apply elem_of_union in Hin as [Hin|Hin].
    + apply elem_of_singleton in Hin. by simplify_eq.
    + by apply (wf_key g Hwf).
  - intros u. pose proof (wf_known g Hwf u). unfold in_ready, known in *; cbn.
    destruct (decide (u = t)); set_solver.
  - intros u Hu. specialize (Hdis u). unfold in_ready in *; cbn in *. set_solver.
  - intros d u. cbn. rewrite idx_has_erase_all. intros [Hin Hnot].
    apply (wf_index g Hwf) in Hin as [Hin1 Hin2]. split; [|done].
    apply elem_of_difference. split; [done|]. intros ->%elem_of_singleton. auto.
  - cbn. apply idx_no_empty_erase_all, (wf_index_ne g Hwf).
  - intros u. pose proof (wf_stamps g Hwf u). unfold in_ready in *; cbn.
    rewrite lookup_insert. case_decide; subst; set_solver.
  - intros u d Hu Hd.
    assert (Hu' : u = t \/ in_ready g u) by (unfold in_ready in *; cbn in *; set_solver).
    destruct Hu' as [->|Hu']; [by apply Hmet | by eapply (wf_safe g Hwf)].
Qed.

Lemma check_and_move_wf clk t g : graph_wf g -> graph_wf (snd (check_and_move_to_ready clk t g)).
Proof.
  intros Hwf. destruct (check_and_move_blocked clk t g Hwf) as [->|(?&?&?&?&?&->)]; [done|].
  by apply move_to_ready_wf.
Qed.

Lemma set_status_wf g d : graph_wf g -> graph_wf (g <| data_ready_status_ ::= <[d := true]> |>).
Proof.
  intros [[] Hsafe]. split; [by split|].
  intros u d' Hu Hd. unfold dep_met; cbn. rewrite lookup_insert. case_decide; [done|].
  by apply (Hsafe u d').
Qed.

Lemma mark_data_ready_wf clk d g : graph_wf g -> graph_wf (mark_data_ready clk d g).
Proof.
  intros Hwf. apply (set_status_wf g d) in Hwf. unfold mark_data_ready.
  destruct (_ !! d) as [s|]; [|done]. revert Hwf. generalize (g <| data_ready_status_ ::= <[d:=true]> |>).
  induction (elements s) as [|t ts IH]; cbn; [done|]. auto using check_and_move_wf.
Qed.

Lemma filter_unmet_nil g ins :
  length (filter (fun d => dep_met g d = false) ins) = 0%nat <->
  forall d, d ∈ ins -> dep_met g d = true.
Proof.
  rewrite length_zero_iff_nil. split.
  - intros Hnil d Hd. destruct (dep_met g d) eqn:E; [done|]. exfalso.
    apply (not_elem_of_nil d). rewrite <- Hnil. by apply list_elem_of_filter.
  - intros Hall. destruct (filter _ ins) as [|d l] eqn:E; [done|].
    assert (Hin : d ∈ filter (fun d => dep_met g d = false) ins) by (rewrite E; left).
    apply list_elem_of_filter in Hin as [Hf Hin]. specialize (Hall d Hin). congruence.
Qed.

(** The graph of [add_task] before it decides between ready and pending. *)
Definition add_task_base (t : N) (ins : list string) (r : TaskRequirements)
    (g : DependencyGraph) : DependencyGraph :=
  g <| task_dependencies_ ::= <[t := ins]> |> <| task_requirements_ ::= <[t := r]> |>
    <| data_to_pending_tasks_ ::= index_insert_unmet g t ins |>.

Lemma add_task_Some clk t ins r g g' :
  add_task clk t ins r g = Some g' <->
  ~ known g t /\
  (((forall d, d ∈ ins -> dep_met g d = true) /\
     g' = enter_ready clk t (priority_ r) (add_task_base t ins r g)) \/
   (~ (forall d, d ∈ ins -> dep_met g d = true) /\
     g' = add_task_base t ins r g <| pending_tasks_ ::= fun s => {[t]} ∪ s |>)).
Proof.
  unfold add_task, known. case_decide as Hdup; [naive_solver|].
  pose proof (filter_unmet_nil g ins) as Hf.
  case_decide as Hpend; apply Hf in Hpend || (rewrite Hf in Hpend); split.
  - intros [= <-]. auto.
  - intros [_ [[_ ->]|[? _]]]; done.
  - intros [= <-]. auto.
  - intros [_ [[? _]|[_ ->]]]; done.
Qed.

Section add_task_base.
Context (t : N) (ins : list string) (r : TaskRequirements) (g : DependencyGraph).
Context (Hwf : graph_wf g) (Hnew : ~ known g t).
Local Abbreviation g1 := (add_task_base t ins r g).

Lemma base_deps_eq : deps_of g1 t = ins.
Proof. unfold deps_of; cbn. by rewrite lookup_insert_eq. Qed.

Lemma base_deps_ne u : u <> t -> deps_of g1 u = deps_of g u.
Proof. intros. unfold deps_of; cbn. by rewrite lookup_insert_ne. Qed.

Lemma base_priority_ne u : u <> t -> priority_of g1 u = priority_of g u.
Proof. intros. unfold priority_of; cbn. by rewrite lookup_insert_ne. Qed.

Lemma base_priority_eq : priority_of g1 t = priority_ r.
Proof. unfold priority_of; cbn. by rewrite lookup_insert_eq. Qed.

Lemma base_known u : known g1 u <-> u = t \/ known g u.
Proof using Type.
  clear Hwf Hnew. unfold known; cbn. rewrite lookup_insert. case_decide; subst; [|naive_solver].
  split; [auto|]. by eexists.
Qed.

Lemma base_reqs u : is_Some (task_requirements_ g1 !! u) <-> known g1 u.
Proof using Hwf.
  clear Hnew. rewrite base_known, <- (wf_reqs g Hwf). cbn. rewrite lookup_insert.
  case_decide; subst; [|naive_solver]. split; [auto|]. by eexists.
Qed.

Lemma base_ready_ne u : in_ready g1 u -> u <> t.
Proof. intros Hu ->. by destruct (known_not_pending g t Hwf Hnew). Qed.

Lemma base_index d u : idx_has (data_to_pending_tasks_ g1) d u ->
  (u = t /\ d ∈ ins /\ dep_met g d = false) \/
  (u <> t /\ u ∈ pending_tasks_ g /\ d ∈ deps_of g1 u).
Proof.
  cbn. rewrite idx_has_insert_unmet. intros [?|Hin]; [by left|right].
  apply (wf_index g Hwf) in Hin as [Hp Hd].
  assert (u <> t) by (intros ->; by destruct (known_not_pending g t Hwf Hnew)).
  by rewrite base_deps_ne.
Qed.
End add_task_base.

Lemma add_task_ready_wf clk t ins r g :
  graph_wf g -> ~ known g t -> (forall d, d ∈ ins -> dep_met g d = true) ->
  graph_wf (enter_ready clk t (priority_ r) (add_task_base t ins r g)).
Proof.
  intros Hwf Hnew Hmet. pose proof (known_not_pending g t Hwf Hnew) as [Hnp Hnr].
  split; [split|].
  - exact (base_reqs t ins r g Hwf).
  - intros k u. cbn. intros [[= -> ->]%elem_of_singleton|Hin]%elem_of_union.
    + by rewrite <- (base_priority_eq t ins r g).
    + rewrite (wf_key g Hwf _ _ Hin). f_equal. symmetry. apply (base_priority_ne t ins r g).
      eapply (base_ready_ne t ins r g Hwf Hnew). by exists k.
  - intros u. rewrite enter_ready_in_ready. pose proof (base_known t ins r g u) as Hb.
    unfold known in *. cbn in *. rewrite Hb, (wf_known g Hwf u). unfold in_ready; cbn. tauto.
  - intros u Hu [->|Hr]%enter_ready_in_ready; cbn in Hu; [done|]. by apply (wf_disjoint g Hwf u).
  - intros d u [(-> & Hd & E)|(Hne & Hp & Hd)]%(base_index t ins r g Hwf Hnew); [|done].
    rewrite Hmet in E by done. done.
  - cbn. apply idx_no_empty_insert_unmet, (wf_index_ne g Hwf).
  - intros u. rewrite enter_ready_in_ready. cbn. rewrite lookup_insert.
    pose proof (wf_stamps g Hwf u) as Hst.
    case_decide; subst; [split; [auto|by eexists]|]. rewrite Hst. unfold in_ready; cbn. naive_solver.
  - intros u d [->|Hu]%enter_ready_in_ready.
    + intros Hd. change (d ∈ deps_of (add_task_base t ins r g) t) in Hd.
      rewrite base_deps_eq in Hd. by apply Hmet.
    + intros Hd. change (d ∈ deps_of (add_task_base t ins r g) u) in Hd.
      pose proof (base_ready_ne t ins r g Hwf Hnew u Hu).
      rewrite base_deps_ne in Hd by done. by apply (wf_safe g Hwf u d).
Qed.

Lemma add_task_pending_wf t ins r g :
  graph_wf g -> ~ known g t ->
  graph_wf (add_task_base t ins r g <| pending_tasks_ ::= fun s => {[t]} ∪ s |>).
Proof.
  intros Hwf Hnew. pose proof (known_not_pending g t Hwf Hnew) as [Hnp Hnr].
  split; [split|].
  - exact (base_reqs t ins r g Hwf).
  - intros k u Hin. cbn in Hin. rewrite (wf_key g Hwf _ _ Hin). f_equal. symmetry.
    apply (base_priority_ne t ins r g). eapply (base_ready_ne t ins r g Hwf Hnew). by exists k.
  - intros u. pose proof (base_known t ins r g u) as Hb. unfold known in *. cbn in *.
    rewrite Hb, (wf_known g Hwf u). unfold in_ready; cbn. set_solver.
  - intros u. cbn. intros [->%elem_of_singleton|Hu]%elem_of_union; [done|].
    by apply (wf_disjoint g Hwf u).
  - intros d u [(-> & Hd & E)|(Hne & Hp & Hd)]%(base_index t ins r g Hwf Hnew); cbn.
    + split; [set_solver|]. change (d ∈ deps_of (add_task_base t ins r g) t).
      by rewrite base_deps_eq.
    + split; [set_solver|done].
  - cbn. apply idx_no_empty_insert_unmet, (wf_index_ne g Hwf).
  - exact (wf_stamps g Hwf).
  - intros u d Hu Hd. change (d ∈ deps_of (add_task_base t ins r g) u) in Hd.
    pose proof (base_ready_ne t ins r g Hwf Hnew u Hu).
    rewrite base_deps_ne in Hd by done. by apply (wf_safe g Hwf u d).
Qed.

Lemma add_task_wf clk t ins r g g' :
  graph_wf g -> add_task clk t ins r g = Some g' -> graph_wf g'.
Proof.
  intros Hwf [Hnew [[Hmet ->]|[_ ->]]]%add_task_Some.
  - by apply add_task_ready_wf.
  - by apply add_task_pending_wf.
Qed.

Lemma set_task_locality_hint_wf t h g : graph_wf g -> graph_wf (set_task_locality_hint t h g).
Proof.
  intros Hwf. unfold set_task_locality_hint. destruct (task_requirements_ g !! t) as [r|] eqn:E; [|done].
  assert (Hp : forall u, priority_of (g <| task_requirements_ ::= <[t:=r <| locality_hint_ := h |>]> |>) u
    = priority_of g u).
  { intros u. unfold priority_of; cbn. rewrite lookup_insert. case_decide; [subst; by rewrite E|done]. }
  destruct Hwf as [[] ?]. split; [split|]; try done.
  - intros u. pose proof (wf_reqs0 u) as Hu. cbn. rewrite lookup_insert.
    case_decide; [|done]. subst. rewrite E in Hu.
    split; [intros _; apply Hu; by eexists | by eexists].
  - intros k u. rewrite Hp. apply wf_key0.
Qed.

Lemma erase_key_in_ready g t u :
  graph_shape g ->
  in_ready (g <| ready_tasks_ ::= fun s => s ∖ {[(- priority_of g t, t)%Z]} |>) u <->
  in_ready g u /\ u <> t.
Proof.
  intros Hs. unfold in_ready; cbn. split.
  - intros [k [Hk Hn]%elem_of_difference]. split; [by exists k|]. intros ->.
    apply Hn. by rewrite <- (wf_key g Hs _ _ Hk), elem_of_singleton.
  - intros [[k Hk] Hne]. exists k. set_solver.
Qed.

Lemma remove_task_in_ready g t u :
  graph_shape g -> in_ready (remove_task t g) u <-> in_ready g u /\ u <> t.
Proof.
  intros Hs. rewrite <- (erase_key_in_ready g t u Hs). unfold remove_task; cbn.
  by destruct (task_dependencies_ g !! t).
Qed.

(** The fields of [remove_task t g]. *)
Lemma remove_task_fields t g :
  task_dependencies_ (remove_task t g) = delete t (task_dependencies_ g) /\
  task_requirements_ (remove_task t g) = delete t (task_requirements_ g) /\
  pending_tasks_ (remove_task t g) = pending_tasks_ g ∖ {[t]} /\
  completed_tasks_ (remove_task t g) = {[t]} ∪ completed_tasks_ g /\
  data_ready_status_ (remove_task t g) = data_ready_status_ g /\
  task_ready_timestamps_ (remove_task t g) = delete t (task_ready_timestamps_ g) /\
  data_to_pending_tasks_ (remove_task t g) =
    index_erase_all t (deps_of g t) (data_to_pending_tasks_ g) /\
  ready_tasks_ (remove_task t g) = ready_tasks_ g ∖ {[(- priority_of g t, t)%Z]}.
Proof.
  unfold remove_task, deps_of; cbn. destruct (task_dependencies_ g !! t); cbn; done.
Qed.

Lemma remove_task_wf t g : graph_wf g -> graph_wf (remove_task t g).
Proof.
  intros Hwf. pose proof (fun u => remove_task_in_ready g t u Hwf) as Hr.
  destruct (remove_task_fields t g) as (Hd & Hq & Hp & _ & Hst & Hts & Hix & Hrk).
  assert (Hdeps : forall u, u <> t -> deps_of (remove_task t g) u = deps_of g u).
  { intros u Hne. unfold deps_of. by rewrite Hd, lookup_delete_ne. }
  split; [split|].
  - intros u. unfold known. rewrite Hd, Hq, !lookup_delete.
    case_decide; [by split; intros [? [=]]|]. apply (wf_reqs g Hwf).
  - intros k u. rewrite Hrk. intros [Hk Hn]%elem_of_difference.
    rewrite (wf_key g Hwf _ _ Hk) in *. unfold priority_of. rewrite Hq, lookup_delete_ne; [done|].
    intros ->. by apply Hn, elem_of_singleton.
  - intros u. rewrite Hr, Hp. pose proof (wf_known g Hwf u) as Hk. unfold known in *.
    rewrite Hd, lookup_delete. case_decide; subst; [split; [by intros [? [=]]|set_solver]|set_solver].
  - intros u. rewrite Hr, Hp. pose proof (wf_disjoint g Hwf u). set_solver.
  - intros d u. rewrite Hix, Hp, idx_has_erase_all. intros [Hin Hn].
    apply (wf_index g Hwf) in Hin as [Hp' Hd']. assert (u <> t) by (intros ->; auto).
    rewrite Hdeps by done. set_solver.
  - rewrite Hix. apply idx_no_empty_erase_all, (wf_index_ne g Hwf).
  - intros u. rewrite Hr, Hts, lookup_delete. pose proof (wf_stamps g Hwf u) as Hs.
    case_decide; subst; [split; [by intros [? [=]]|tauto]|]. rewrite Hs. naive_solver.
  - intros u d [Hu Hne]%Hr. rewrite Hdeps by done. unfold dep_met. rewrite Hst.
    by apply (wf_safe g Hwf).
Qed.

(** ** [mark_data_removed] *)

Lemma move_back_fields t g :
  graph_shape g -> in_ready g t ->
  move_back_to_pending t g =
    g <| ready_tasks_ ::= fun s => s ∖ {[(- priority_of g t, t)%Z]} |>
      <| pending_tasks_ ::= fun s => {[t]} ∪ s |>
      <| task_ready_timestamps_ ::= delete t |>
      <| data_to_pending_tasks_ ::= index_insert_unmet g t (deps_of g t) |>.
Proof.
  intros Hs Hr. assert (Hk : known g t) by (apply (wf_known g Hs); auto).
  unfold move_back_to_pending. cbn. rewrite map_touch_id by done. done.
Qed.

Lemma move_back_in_ready t g u :
  graph_shape g -> in_ready g t -> in_ready (move_back_to_pending t g) u <-> in_ready g u /\ u <> t.
Proof. intros Hs Hr. rewrite move_back_fields, <- (erase_key_in_ready g t u Hs) by done. done. Qed.

Lemma move_back_shape t g : graph_shape g -> in_ready g t -> graph_shape (move_back_to_pending t g).
Proof.
  intros Hs Hr. pose proof (fun u => move_back_in_ready t g u Hs Hr) as Hir.
  revert Hir. rewrite move_back_fields by done. intros Hir. split.
  - exact (wf_reqs g Hs).
  - intros k u. cbn. intros [Hk _]%elem_of_difference. by apply (wf_key g Hs).
  - intros u. rewrite Hir. pose proof (wf_known g Hs u) as Hk. unfold known in *; cbn.
    destruct (decide (u = t)) as [->|]; set_solver.
  - intros u. rewrite Hir. pose proof (wf_disjoint g Hs u). cbn. set_solver.
  - intros d u. cbn. rewrite idx_has_insert_unmet. intros [(-> & Hd & _)|Hin].
    + split; [set_solver|done].
    + apply (wf_index g Hs) in Hin as [? ?]. split; [set_solver|done].
  - cbn. apply idx_no_empty_insert_unmet, (wf_index_ne g Hs).
  - intros u. rewrite Hir. cbn. rewrite lookup_delete. pose proof (wf_stamps g Hs u) as Hst.
    case_decide; subst; [split; [by intros [? [=]]|tauto]|]. rewrite Hst. naive_solver.
Qed.

Lemma ready_keys_NoDup g : NoDup (ready_keys g).
Proof. apply sort_NoDup, NoDup_elements. Qed.

Lemma elem_ready_keys g k t : (k, t) ∈ ready_keys g <-> (k, t) ∈ ready_tasks_ g.
Proof. unfold ready_keys. by rewrite sort_elem, elem_of_elements. Qed.

Lemma get_ready_tasks_NoDup g : graph_shape g -> NoDup (get_ready_tasks g).
Proof.
  intros Hs. apply NoDup_fmap_2_strong, ready_keys_NoDup.
  intros [k1 t1] [k2 t2] H1 H2 Heq. cbn in Heq. subst.
  apply elem_ready_keys, (wf_key g Hs) in H1. apply elem_ready_keys, (wf_key g Hs) in H2. congruence.
Qed.

Lemma touch_all_id (ts : list N) (m : gmap N (list string)) :
  (forall t, t ∈ ts -> is_Some (m !! t)) -> foldl (fun m t => map_touch [] t m) m ts = m.
Proof.
  induction ts as [|t ts IH]; intros Hall; cbn; [done|].
  rewrite map_touch_id by (apply Hall; left). apply IH. intros. apply Hall. by right.
Qed.

(** What moving a set of ready tasks back to pending leaves unchanged. *)
Record same_data (g g' : DependencyGraph) : Prop := {
  same_deps : task_dependencies_ g' = task_dependencies_ g;
  same_reqs : task_requirements_ g' = task_requirements_ g;
  same_status : data_ready_status_ g' = data_ready_status_ g;
  same_completed : completed_tasks_ g' = completed_tasks_ g
}.

Lemma same_data_deps_of g g' t : same_data g g' -> deps_of g' t = deps_of g t.
Proof. intros [H _ _ _]. unfold deps_of. by rewrite H. Qed.

Lemma same_data_dep_met g g' d : same_data g g' -> dep_met g' d = dep_met g d.
Proof. intros [_ _ H _]. unfold dep_met. by rewrite H. Qed.

Lemma move_back_all ts g :
  graph_shape g -> NoDup ts -> (forall t, t ∈ ts -> in_ready g t) ->
  let g' := foldl (fun g t => move_back_to_pending t g) g ts in
  graph_shape g' /\ same_data g g' /\
  (forall u, in_ready g' u <-> in_ready g u /\ u ∉ ts) /\
  (forall u, u ∈ pending_tasks_ g' <-> u ∈ pending_tasks_ g \/ u ∈ ts) /\
  (forall d u, idx_has (data_to_pending_tasks_ g') d u <->
     idx_has (data_to_pending_tasks_ g) d u \/
     (u ∈ ts /\ d ∈ deps_of g u /\ dep_met g d = false)).
Proof.
  revert g. induction ts as [|t ts IH]; intros g Hs Hnd Hall; cbn.
  { split; [done|]. split; [by split|]. set_solver. }
  apply NoDup_cons in Hnd as [Hnin Hnd].
  assert (Hr : in_ready g t) by (apply Hall; left).
  pose proof (fun u => move_back_in_ready t g u Hs Hr) as Hir.
  destruct (IH (move_back_to_pending t g)) as (Hs' & Hsame & Hr' & Hp' & Hi').
  { by apply move_back_shape. } { done. }
  { intros u Hu. apply Hir. split; [apply Hall; by right|]. by intros ->. }
  rewrite move_back_fields in Hsame, Hp', Hi' by done.
  assert (Hsd : same_data g (foldl (fun g t => move_back_to_pending t g)
    (move_back_to_pending t g) ts)).
  { rewrite move_back_fields by done. destruct Hsame. by split. }
  split; [done|]. split; [done|]. split; [|split].
  - intros u. rewrite Hr', Hir. set_solver.
  - intros u. rewrite move_back_fields, Hp' by done. cbn. set_solver.
  - intros d u. rewrite move_back_fields, Hi' by done. cbn. rewrite idx_has_insert_unmet.
    unfold deps_of, dep_met; cbn. set_solver.
Qed.

(** The tasks [mark_data_removed d] takes out of the ready set. *)
Definition dependents_ready (d : string) (g : DependencyGraph) : list N :=
  filter (fun t => d ∈ deps_of g t) (get_ready_tasks g).

Lemma mark_data_removed_eq d g :
  graph_shape g ->
  mark_data_removed d g =
    foldl (fun g t => move_back_to_pending t g)
      (g <| data_ready_status_ ::= delete d |>) (dependents_ready d g).
Proof.
  intros Hs. unfold mark_data_removed. f_equal. cbn. f_equal.
  apply touch_all_id. intros t Ht. apply elem_get_ready_tasks in Ht.
  apply (wf_known g Hs). auto.
Qed.

Lemma mark_data_removed_spec d g :
  graph_shape g ->
  let g0 := g <| data_ready_status_ ::= delete d |> in
  let g' := mark_data_removed d g in
  graph_shape g' /\ same_data g0 g' /\
  (forall u, in_ready g' u <-> in_ready g u /\ d ∉ deps_of g u) /\
  (forall u, u ∈ pending_tasks_ g' <->
     u ∈ pending_tasks_ g \/ (in_ready g u /\ d ∈ deps_of g u)) /\
  (forall d' u, idx_has (data_to_pending_tasks_ g') d' u <->
     idx_has (data_to_pending_tasks_ g) d' u \/
     (in_ready g u /\ d ∈ deps_of g u /\ d' ∈ deps_of g u /\ dep_met g0 d' = false)).
Proof.
  intros Hs g0 g'. unfold g'. rewrite mark_data_removed_eq by done.
  assert (Hdr : forall u, u ∈ dependents_ready d g <-> in_ready g u /\ d ∈ deps_of g u).
  { intros u. unfold dependents_ready. rewrite list_elem_of_filter, elem_get_ready_tasks. tauto. }
  destruct (move_back_all (dependents_ready d g) g0) as (H1 & H2 & H3 & H4 & H5).
  { destruct Hs. by split. }
  { apply NoDup_filter. by apply get_ready_tasks_NoDup. }
  { intros t Ht. by apply Hdr in Ht as [? _]. }
  fold g0. split; [done|]. split; [done|]. split; [|split].
  - intros u. rewrite H3, Hdr. change (in_ready g0 u) with (in_ready g u). tauto.
  - intros u. rewrite H4, Hdr. tauto.
  - intros d' u. rewrite H5, Hdr. change (deps_of g0 u) with (deps_of g u). tauto.
Qed.

Lemma mark_data_removed_wf d g : graph_wf g -> graph_wf (mark_data_removed d g).
Proof.
  intros Hwf. destruct (mark_data_removed_spec d g Hwf) as (Hs & Hsame & Hr & _ & _).
  split; [done|]. intros t d' [Ht Hd]%Hr.
  rewrite (same_data_deps_of _ _ _ Hsame), (same_data_dep_met _ _ _ Hsame).
  intros Hd'. change (deps_of _ t) with (deps_of g t) in Hd'.
  unfold dep_met; cbn. rewrite lookup_delete_ne by (intros <-; done).
  by apply (wf_safe g Hwf t d').
Qed.

Lemma graph_step_wf g op g' : graph_step g op g' -> graph_wf g -> graph_wf g'.
Proof.
  intros [g0 op0 g0' Happ] Hwf. destruct op0; cbn in Happ; simplify_eq;
    eauto using add_task_wf, set_task_locality_hint_wf, mark_data_ready_wf,
      mark_data_removed_wf, remove_task_wf.
Qed.

Lemma graph_run_wf g ops g' : graph_run g ops g' -> graph_wf g -> graph_wf g'.
Proof. induction 1; eauto using graph_step_wf. Qed.

(** ** What [mark_data_ready] does *)

(** [t] would be moved by [check_and_move_to_ready]. *)
Definition movable (g : DependencyGraph) (t : N) : Prop :=
  t ∉ completed_tasks_ g /\ forall d, d ∈ deps_of g t -> dep_met g d = true.

Lemma check_and_move_spec clk t g :
  graph_wf g ->
  let g' := snd (check_and_move_to_ready clk t g) in
  same_data g g' /\
  (forall u, u ∈ pending_tasks_ g' <-> u ∈ pending_tasks_ g /\ ~ (u = t /\ movable g t)) /\
  (forall d u, idx_has (data_to_pending_tasks_ g') d u <->
     idx_has (data_to_pending_tasks_ g) d u /\ u ∈ pending_tasks_ g').
Proof.
  intros Hwf g'. pose proof (wf_index g Hwf) as Hix.
  destruct (check_and_move_blocked clk t g Hwf) as [E|(Hc & Hp & Hr & Hm & _ & E)].
  - subst g'. unfold check_and_move_to_ready in *.
    assert (Hnm : t ∈ pending_tasks_ g -> ~ movable g t).
    { intros Hp [Hc Hm]. revert E. rewrite decide_False by done.
      rewrite decide_False by (rewrite elem_ready_ids; by apply (wf_disjoint g Hwf)).
      rewrite decide_False by tauto. fold (deps_of g t).
      rewrite (proj2 (forallb_dep_met _ _)) by done. cbn. intros E.
      apply (f_equal pending_tasks_) in E. cbn in E. set_solver. }
    rewrite E. split; [by split|]. split; [naive_solver|]. intros d u. naive_solver.
  - subst g'. rewrite E. split; [by split|]. cbn. split.
    + intros u. unfold movable. set_solver.
    + intros d u. rewrite idx_has_erase_all. split.
      * intros [Hin Hn]. split; [done|]. apply Hix in Hin as [? ?]. set_solver.
      * intros [Hin Hu]. split; [done|]. intros [_ ->]. set_solver.
Qed.

Lemma check_all_spec clk ts g :
  graph_wf g ->
  let g' := foldl (fun g t => snd (check_and_move_to_ready clk t g)) g ts in
  graph_wf g' /\ same_data g g' /\
  (forall u, u ∈ pending_tasks_ g' <-> u ∈ pending_tasks_ g /\ ~ (u ∈ ts /\ movable g u)) /\
  (forall d u, idx_has (data_to_pending_tasks_ g') d u <->
     idx_has (data_to_pending_tasks_ g) d u /\ u ∈ pending_tasks_ g').
Proof.
  revert g. induction ts as [|t ts IH]; intros g Hwf; cbn.
  { split; [done|]. split; [by split|]. split; [set_solver|].
    intros d u. split; [|tauto]. intros Hin. split; [done|]. by apply (wf_index g Hwf) in Hin as [? _]. }
  destruct (check_and_move_spec clk t g Hwf) as (Hsame & Hp & Hi).
  destruct (IH (snd (check_and_move_to_ready clk t g)) (check_and_move_wf clk t g Hwf))
    as (Hwf' & Hsame' & Hp' & Hi').
  assert (Hmov : forall u, movable (snd (check_and_move_to_ready clk t g)) u <-> movable g u).
  { intros u. unfold movable. rewrite (same_completed _ _ Hsame).
    setoid_rewrite (same_data_deps_of _ _ u Hsame).
    setoid_rewrite (same_data_dep_met _ _ _ Hsame). done. }
  split; [done|]. split; [destruct Hsame, Hsame'; split; congruence|]. split.
  - intros u. rewrite Hp', Hp, Hmov, elem_of_cons.
    split; [intros [[? Hn] Hn2]; split; [done|]; intros [[->|?] ?]; auto|].
    intros [? Hn]. split; [split; [done|]; intros [-> ?]|]; naive_solver.
  - intros d u. rewrite Hi', Hi. specialize (Hp' u). tauto.
Qed.

Lemma mark_data_ready_spec clk d g :
  graph_wf g ->
  let g0 := g <| data_ready_status_ ::= <[d := true]> |> in
  let g' := mark_data_ready clk d g in
  same_data g0 g' /\
  (forall u, u ∈ pending_tasks_ g' <->
     u ∈ pending_tasks_ g /\ ~ (idx_has (data_to_pending_tasks_ g) d u /\ movable g0 u)) /\
  (forall d' u, idx_has (data_to_pending_tasks_ g') d' u <->
     idx_has (data_to_pending_tasks_ g) d' u /\ u ∈ pending_tasks_ g').
Proof.
  intros Hwf g0 g'. subst g'. unfold mark_data_ready. fold g0.
  change (data_to_pending_tasks_ g0) with (data_to_pending_tasks_ g).
  pose proof (set_status_wf g d Hwf) as Hwf0. fold g0 in Hwf0.
  destruct (data_to_pending_tasks_ g !! d) as [s|] eqn:E.
  - destruct (check_all_spec clk (elements s) g0 Hwf0) as (_ & Hsame & Hp & Hi).
    split; [done|]. split; [|done]. intros u. rewrite Hp, elem_of_elements.
    unfold idx_has. rewrite E. done.
  - split; [by split|]. split.
    + intros u. unfold idx_has. rewrite E. cbn. set_solver.
    + intros d' u. split; [|tauto]. intros Hin. split; [done|]. by apply (wf_index g Hwf) in Hin as [? _].
Qed.

(** ** When every satisfiable task is ready *)

(** Task ids are fresh, every pending task still waits for something, and the
    reverse index is complete for the data it waits for. *)
Record graph_complete (g : DependencyGraph) : Prop := {
  gc_fresh : forall t, known g t -> t ∉ completed_tasks_ g;
  gc_waits : forall t, t ∈ pending_tasks_ g ->
      exists d, d ∈ deps_of g t /\ dep_met g d = false;
  gc_index : forall t d, t ∈ pending_tasks_ g -> d ∈ deps_of g t -> dep_met g d = false ->
      idx_has (data_to_pending_tasks_ g) d t
}.

(** The operations for which this is preserved: a task id is not reused after
    [remove_task], and data is removed only while every pending task that
    depends on it is listed under it in the reverse index. *)
Definition op_disciplined (g : DependencyGraph) (op : graph_op) : Prop :=
  match op with
  | OpAddTask _ t _ _ => t ∉ completed_tasks_ g
  | OpDataRemoved d =>
      forall t, t ∈ pending_tasks_ g -> d ∈ deps_of g t -> idx_has (data_to_pending_tasks_ g) d t
  | _ => True
  end.

Lemma some_unmet g (ds : list string) :
  ~ (forall d, d ∈ ds -> dep_met g d = true) -> exists d, d ∈ ds /\ dep_met g d = false.
Proof.
  intros Hn. destruct (decide (Exists (fun d => dep_met g d = false) ds)) as [Hex|Hex].
  { apply Exists_exists in Hex as (d & ? & ?). by exists d. }
  exfalso. apply Hn. intros d Hd. destruct (dep_met g d) eqn:E; [done|].
  exfalso. apply Hex, Exists_exists. eauto.
Qed.

Lemma add_task_complete clk t ins r g g' :
  graph_wf g -> graph_complete g -> t ∉ completed_tasks_ g ->
  add_task clk t ins r g = Some g' -> graph_complete g'.
Proof.
  intros Hwf [Hf Hw Hx] Hnc [Hnew Hcase]%add_task_Some.
  pose proof (known_not_pending g t Hwf Hnew) as [Hnp Hnr].
  assert (Hpd : forall u, u ∈ pending_tasks_ g' ->
    (u <> t /\ u ∈ pending_tasks_ g) \/
    (u = t /\ ~ (forall d, d ∈ ins -> dep_met g d = true))).
  { destruct Hcase as [[Hm ->]|[Hm ->]]; cbn; intros u Hu.
    - left. split; [by intros ->|done].
    - destruct (decide (u = t)); [by right|]. left. set_solver. }
  assert (Hd : forall u, deps_of g' u = deps_of (add_task_base t ins r g) u)
    by (by destruct Hcase as [[_ ->]|[_ ->]]).
  assert (Hi : data_to_pending_tasks_ g' = index_insert_unmet g t ins (data_to_pending_tasks_ g))
    by (by destruct Hcase as [[_ ->]|[_ ->]]).
  assert (Hdm : forall d, dep_met g' d = dep_met g d) by (by destruct Hcase as [[_ ->]|[_ ->]]).
  split.
  - intros u Hk. assert (Hk' : known (add_task_base t ins r g) u)
      by (by destruct Hcase as [[_ ->]|[_ ->]]).
    assert (Hcg : completed_tasks_ g' = completed_tasks_ g)
      by (by destruct Hcase as [[_ ->]|[_ ->]]).
    rewrite Hcg. apply base_known in Hk' as [->|?]; auto.
  - intros u [[Hne Hu]|[-> Hun]]%Hpd; rewrite Hd; setoid_rewrite Hdm.
    + rewrite base_deps_ne by done. auto.
    + rewrite base_deps_eq. by apply some_unmet.
  - intros u d. rewrite Hd, Hdm, Hi, idx_has_insert_unmet.
    intros [[Hne Hu]|[-> Hun]]%Hpd.
    + rewrite base_deps_ne by done. auto.
    + rewrite base_deps_eq. auto.
Qed.

Lemma same_data_known g g' t : same_data g g' -> known g' t <-> known g t.
Proof. intros [H _ _ _]. unfold known. by rewrite H. Qed.

Lemma mark_data_ready_complete clk d g :
  graph_wf g -> graph_complete g -> graph_complete (mark_data_ready clk d g).
Proof.
  intros Hwf [Hf Hw Hx]. destruct (mark_data_ready_spec clk d g Hwf) as (Hsame & Hp & Hi).
  assert (Hdm : forall d', dep_met (mark_data_ready clk d g) d' = true <->
    d' = d \/ dep_met g d' = true).
  { intros d'. rewrite (same_data_dep_met _ _ _ Hsame). unfold dep_met; cbn.
    rewrite lookup_insert. case_decide; naive_solver. }
  split.
  - intros u. rewrite (same_data_known _ _ _ Hsame), (same_completed _ _ Hsame). apply Hf.
  - intros u [Hu Hn]%Hp. rewrite (same_data_deps_of _ _ u Hsame).
    change (deps_of _ u) with (deps_of g u). apply some_unmet. intros Hall. apply Hn.
    destruct (Hw u Hu) as (d' & Hd' & E). assert (d' = d) as ->.
    { destruct (proj1 (Hdm d') (Hall d' Hd')); [done|congruence]. }
    split; [by apply Hx|]. split.
    + apply Hf, (wf_known g Hwf). by left.
    + intros d' ?. rewrite <- (same_data_dep_met _ _ _ Hsame). by apply Hall.
  - intros u d' Hu. rewrite (same_data_deps_of _ _ u Hsame).
    change (deps_of _ u) with (deps_of g u). intros Hd' E. apply Hi. split; [|done].
    apply Hp in Hu as [Hu _]. apply Hx; [done..|].
    destruct (dep_met g d') eqn:E'; [|done]. rewrite (proj2 (Hdm d')) in E by auto. done.
Qed.

Lemma mark_data_removed_complete d g :
  graph_wf g -> graph_complete g -> op_disciplined g (OpDataRemoved d) ->
  graph_complete (mark_data_removed d g).
Proof.
  intros Hwf [Hf Hw Hx] Hok.
  destruct (mark_data_removed_spec d g Hwf) as (_ & Hsame & Hr & Hp & Hi).
  assert (Hdm : forall d', dep_met (g <| data_ready_status_ ::= delete d |>) d' = false <->
    d' = d \/ dep_met g d' = false).
  { intros d'. unfold dep_met; cbn. rewrite lookup_delete. case_decide; naive_solver. }
  split.
  - intros u. rewrite (same_data_known _ _ _ Hsame), (same_completed _ _ Hsame). apply Hf.
  - intros u Hu. rewrite (same_data_deps_of _ _ u Hsame).
    setoid_rewrite (same_data_dep_met _ _ _ Hsame). setoid_rewrite Hdm.
    change (deps_of _ u) with (deps_of g u).
    apply Hp in Hu as [Hu|[Hu Hd]]; [|by eauto].
    destruct (Hw u Hu) as (d' & ? & ?). eauto.
  - intros u d' Hu. rewrite (same_data_deps_of _ _ u Hsame), (same_data_dep_met _ _ _ Hsame).
    change (deps_of _ u) with (deps_of g u). intros Hd' E. apply Hi.
    apply Hp in Hu as [Hu|[Hu Hd]]; [|right; auto]. left.
    apply Hdm in E as [->|E]; [by apply Hok|by apply Hx].
Qed.

Lemma remove_task_complete t g :
  graph_wf g -> graph_complete g -> graph_complete (remove_task t g).
Proof.
  intros Hwf [Hf Hw Hx]. destruct (remove_task_fields t g) as (Hd & Hq & Hp & Hc & Hst & _ & Hix & _).
  assert (Hdeps : forall u, u <> t -> deps_of (remove_task t g) u = deps_of g u).
  { intros u Hne. unfold deps_of. by rewrite Hd, lookup_delete_ne. }
  assert (Hdm : forall d, dep_met (remove_task t g) d = dep_met g d).
  { intros d. unfold dep_met. by rewrite Hst. }
  split.
  - intros u. unfold known. rewrite Hd, lookup_delete, Hc. case_decide; [by intros [? [=]]|].
    intros Hk. specialize (Hf u Hk). set_solver.
  - intros u. rewrite Hp. intros [Hu Hne%not_elem_of_singleton]%elem_of_difference.
    rewrite Hdeps by done. setoid_rewrite Hdm. auto.
  - intros u d. rewrite Hp. intros [Hu Hne%not_elem_of_singleton]%elem_of_difference.
    rewrite Hdeps, Hdm, Hix, idx_has_erase_all by done. naive_solver.
Qed.

Lemma set_task_locality_hint_complete t h g :
  graph_complete g -> graph_complete (set_task_locality_hint t h g).
Proof.
  unfold set_task_locality_hint. destruct (task_requirements_ g !! t); [|done].
  intros []. by split.
Qed.

Lemma graph_step_complete g op g' :
  graph_step g op g' -> graph_wf g -> op_disciplined g op -> graph_complete g ->
  graph_complete g'.
Proof.
  intros [g0 op0 g0' Happ] Hwf Hok Hc. destruct op0; cbn in Happ; simplify_eq;
    eauto using add_task_complete, set_task_locality_hint_complete, mark_data_ready_complete,
      mark_data_removed_complete, remove_task_complete.
Qed.

(** A run all of whose operations are disciplined. *)
Inductive disciplined_run : DependencyGraph -> list graph_op -> DependencyGraph -> Prop :=
| disciplined_nil g : disciplined_run g [] g
| disciplined_cons g op g' ops g'' :
    op_disciplined g op -> graph_step g op g' -> disciplined_run g' ops g'' ->
    disciplined_run g (op :: ops) g''.

Lemma disciplined_run_inv g ops g' :
  disciplined_run g ops g' -> graph_wf g -> graph_complete g -> graph_wf g' /\ graph_complete g'.
Proof. induction 1; eauto using graph_step_wf, graph_step_complete. Qed.

Lemma empty_graph_complete : graph_complete empty_graph.
Proof. split; cbn; set_solver. Qed.

(** ** Abstract specification *)

(** What the graph promises its clients: the submitted tasks with their inputs
    and priorities, and the data known to be present. *)
Record spec_graph := mkSpecGraph {
  sp_tasks : gmap N (list string * Z);
  sp_data : gset string
}.

Definition spec_apply (op : graph_op) (s : spec_graph) : option spec_graph :=
  match op with
  | OpAddTask _ t ins r =>
      match sp_tasks s !! t with
      | Some _ => None
      | None => Some (mkSpecGraph (<[t := (ins, priority_ r)]> (sp_tasks s)) (sp_data s))
      end
  | OpSetHint _ _ => Some s
  | OpDataReady _ d => Some (mkSpecGraph (sp_tasks s) ({[d]} ∪ sp_data s))
  | OpDataRemoved d => Some (mkSpecGraph (sp_tasks s) (sp_data s ∖ {[d]}))
  | OpRemoveTask t => Some (mkSpecGraph (delete t (sp_tasks s)) (sp_data s))
  end.

(** The tasks all of whose inputs are present, by descending priority and then
    ascending id. *)
Definition spec_ready (s : spec_graph) : list N :=
  (merge_sort key_le
     ((fun e : N * (list string * Z) => (- e.2.2, e.1)%Z) <$>
        filter (fun e => Forall (fun d => d ∈ sp_data s) e.2.1)
          (map_to_list (sp_tasks s)))).*2.

(** The abstract state an implementation state stands for. *)
Definition abs_tasks (g : DependencyGraph) : gmap N (list string * Z) :=
  map_imap (fun t ins => Some (ins, priority_of g t)) (task_dependencies_ g).

Definition abs_data (g : DependencyGraph) : gset string :=
  dom (filter (fun '(_, b) => b = true) (data_ready_status_ g)).

Definition abs_graph (g : DependencyGraph) : spec_graph := mkSpecGraph (abs_tasks g) (abs_data g).

Lemma abs_tasks_lookup g t :
  abs_tasks g !! t = (fun ins => (ins, priority_of g t)) <$> (task_dependencies_ g !! t).
Proof. unfold abs_tasks. rewrite map_lookup_imap. by destruct (task_dependencies_ g !! t). Qed.

Lemma elem_abs_data g d : d ∈ abs_data g <-> dep_met g d = true.
Proof.
  unfold abs_data, dep_met. rewrite elem_of_dom. split.
  - intros [b [Hb ->]%map_lookup_filter_Some]. by rewrite Hb.
  - destruct (data_ready_status_ g !! d) as [[]|] eqn:E; [|done..].
    intros _. exists true. by apply map_lookup_filter_Some.
Qed.

Lemma same_data_abs_tasks g g' : same_data g g' -> abs_tasks g' = abs_tasks g.
Proof.
  intros [Hd Hq _ _]. apply map_eq. intros t. rewrite !abs_tasks_lookup, Hd.
  unfold priority_of. by rewrite Hq.
Qed.

Lemma same_data_abs_data g g' : same_data g g' -> abs_data g' = abs_data g.
Proof. intros [_ _ Hs _]. unfold abs_data. by rewrite Hs. Qed.

Lemma add_task_abs clk t ins r g g' :
  add_task clk t ins r g = Some g' ->
  abs_graph g' = mkSpecGraph (<[t := (ins, priority_ r)]> (abs_tasks g)) (abs_data g).
Proof.
  intros [Hnew Hcase]%add_task_Some.
  assert (Hab : abs_graph g' = abs_graph (add_task_base t ins r g))
    by (by destruct Hcase as [[_ ->]|[_ ->]]).
  rewrite Hab. unfold abs_graph. f_equal. apply map_eq. intros u.
  rewrite abs_tasks_lookup. destruct (decide (u = t)) as [->|Hne].
  - rewrite base_priority_eq, lookup_insert_eq. cbn. by rewrite lookup_insert_eq.
  - rewrite base_priority_ne, lookup_insert_ne, abs_tasks_lookup by done. cbn.
    by rewrite lookup_insert_ne.
Qed.

Lemma abs_data_insert g d :
  abs_data (g <| data_ready_status_ ::= <[d := true]> |>) = {[d]} ∪ abs_data g.
Proof.
  apply set_eq. intros d'. rewrite elem_of_union, elem_of_singleton, !elem_abs_data.
  unfold dep_met; cbn. rewrite lookup_insert. case_decide; naive_solver.
Qed.

Lemma abs_data_delete g d :
  abs_data (g <| data_ready_status_ ::= delete d |>) = abs_data g ∖ {[d]}.
Proof.
  apply set_eq. intros d'. rewrite elem_of_difference, elem_of_singleton, !elem_abs_data.
  unfold dep_met; cbn. rewrite lookup_delete. case_decide; naive_solver.
Qed.

Lemma remove_task_abs t g :
  abs_graph (remove_task t g) = mkSpecGraph (delete t (abs_tasks g)) (abs_data g).
Proof.
  destruct (remove_task_fields t g) as (Hd & Hq & _ & _ & Hst & _).
  unfold abs_graph. f_equal; [|unfold abs_data; by rewrite Hst].
  apply map_eq. intros u. rewrite abs_tasks_lookup, Hd, !lookup_delete.
  case_decide; [done|]. rewrite abs_tasks_lookup. unfold priority_of.
  by rewrite Hq, lookup_delete_ne.
Qed.

Lemma set_hint_abs t h g : abs_graph (set_task_locality_hint t h g) = abs_graph g.
Proof.
  unfold set_task_locality_hint. destruct (task_requirements_ g !! t) as [r|] eqn:E; [|done].
  unfold abs_graph. f_equal. apply map_eq. intros u. rewrite !abs_tasks_lookup. cbn.
  unfold priority_of; cbn. rewrite lookup_insert. case_decide; [|done]. subst. by rewrite E.
Qed.

(** Every operation acts on the abstract state as the specification says, and
    aborts exactly when it does. *)
Lemma graph_apply_abs op g :
  graph_wf g -> abs_graph <$> graph_apply op g = spec_apply op (abs_graph g).
Proof.
  intros Hwf. destruct op as [clk t ins r|t h|clk d|d|t]; cbn.
  - rewrite abs_tasks_lookup. destruct (task_dependencies_ g !! t) as [ds|] eqn:E; cbn.
    + unfold add_task. rewrite decide_True; [done|]. by rewrite E.
    + destruct (add_task clk t ins r g) as [g'|] eqn:Ea; cbn.
      * by rewrite (add_task_abs _ _ _ _ _ _ Ea).
      * exfalso. unfold add_task in Ea. case_decide as Hk; [|done].
        rewrite E in Hk. by destruct Hk.
  - by rewrite set_hint_abs.
  - destruct (mark_data_ready_spec clk d g Hwf) as [Hsame _]. f_equal. unfold abs_graph.
    by rewrite (same_data_abs_tasks _ _ Hsame), (same_data_abs_data _ _ Hsame), abs_data_insert.
  - destruct (mark_data_removed_spec d g Hwf) as (_ & Hsame & _). f_equal. unfold abs_graph.
    by rewrite (same_data_abs_tasks _ _ Hsame), (same_data_abs_data _ _ Hsame), abs_data_delete.
  - by rewrite remove_task_abs.
Qed.

(** In a complete graph the ready tasks are the satisfiable ones. *)
Lemma in_ready_iff_satisfiable g t :
  graph_wf g -> graph_complete g ->
  in_ready g t <-> known g t /\ forall d, d ∈ deps_of g t -> dep_met g d = true.
Proof.
  intros Hwf Hc. split.
  - intros Hr. split; [apply (wf_known g Hwf); by right|]. intros d. by apply (wf_safe g Hwf).
  - intros [Hk Hm]. apply (wf_known g Hwf) in Hk as [Hp|?]; [|done].
    destruct (gc_waits g Hc t Hp) as (d & Hd & E). by rewrite Hm in E.
Qed.

Lemma spec_ready_abs g :
  graph_wf g -> graph_complete g -> get_ready_tasks g = spec_ready (abs_graph g).
Proof.
  intros Hwf Hc. unfold get_ready_tasks, ready_keys, spec_ready. f_equal.
  apply sort_perm_eq; [apply _..|]. apply NoDup_Permutation.
  - apply NoDup_elements.
  - apply NoDup_fmap_2_strong; [|apply NoDup_filter, NoDup_map_to_list].
    intros [t1 [i1 p1]] [t2 [i2 p2]] H1 H2 [= _ ->]. f_equal.
    apply list_elem_of_filter in H1 as [_ H1%elem_of_map_to_list].
    apply list_elem_of_filter in H2 as [_ H2%elem_of_map_to_list]. congruence.
  - intros [k t]. rewrite elem_of_elements, list_elem_of_fmap.
    setoid_rewrite list_elem_of_filter. cbn. split.
    + intros Hin. assert (Hr : in_ready g t) by (by exists k).
      pose proof Hr as [[ds Hk] Hm]%(in_ready_iff_satisfiable g t Hwf Hc).
      exists (t, (ds, priority_of g t)). rewrite elem_of_map_to_list, abs_tasks_lookup, Hk.
      rewrite (wf_key g Hwf _ _ Hin). repeat split. cbn. apply Forall_forall. intros d Hd.
      apply elem_abs_data, Hm. unfold deps_of. by rewrite Hk.
    + intros ([t' [ins p]] & [= -> ->] & Hall & Hin). cbn in *.
      apply elem_of_map_to_list in Hin. rewrite abs_tasks_lookup in Hin.
      destruct (task_dependencies_ g !! t') as [ds|] eqn:Hk; [|done].
      injection Hin as -> <-. apply (in_ready_key g t' Hwf).
      apply (in_ready_iff_satisfiable g t' Hwf Hc). split; [by eexists|].
      intros d. unfold deps_of. rewrite Hk. cbn. rewrite Forall_forall in Hall.
      intros Hd. by apply elem_abs_data, Hall.
Qed.

Lemma disciplined_run_is_run g ops g' : disciplined_run g ops g' -> graph_run g ops g'.
Proof. induction 1; econstructor; eauto. Qed.

Fixpoint spec_run (ops : list graph_op) (s : spec_graph) : option spec_graph :=
  match ops with
  | [] => Some s
  | op :: ops => spec_apply op s ≫= spec_run ops
  end.

Lemma graph_run_abs g ops g' :
  graph_run g ops g' -> graph_wf g -> spec_run ops (abs_graph g) = Some (abs_graph g').
Proof.
  induction 1 as [|g op g1 ops g2 Hstep Hrun IH]; intros Hwf; [done|].
  pose proof (graph_step_wf _ _ _ Hstep Hwf). destruct Hstep as [g op g1 Happ].
  pose proof (graph_apply_abs op g Hwf) as Ha. rewrite Happ in Ha. cbn in *.
  rewrite <- Ha. cbn. auto.
Qed.

(** ** Executing the graph *)

Fixpoint run_ops (ops : list graph_op) (g : DependencyGraph) : option DependencyGraph :=
  match ops with
  | [] => Some g
  | op :: ops => graph_apply op g ≫= run_ops ops
  end.

Lemma run_ops_run ops g g' : run_ops ops g = Some g' -> graph_run g ops g'.
Proof.
  revert g. induction ops as [|op ops IH]; cbn; intros g.
  - intros [= <-]. constructor.
  - destruct (graph_apply op g) as [g1|] eqn:E; cbn; [|done].
    intros Hr. econstructor; [by constructor | auto].
Qed.

(** A clock for the examples. *)
Definition clock0 : clock := mkClock (fun _ => 0%Z) (fun _ => 0%Z).

(** ** Properties *)

Lemma key_sorted_tasks g :
  graph_shape g ->
  StronglySorted (fun a b => (priority_of g b < priority_of g a)%Z \/
    (priority_of g a = priority_of g b /\ (a < b)%N)) (get_ready_tasks g).
Proof.
  intros Hs. unfold get_ready_tasks.
  assert (Hk : forall k t, (k, t) ∈ ready_keys g -> k = (- priority_of g t)%Z).
  { intros k t. rewrite elem_ready_keys. apply (wf_key g Hs). }
  pose proof (sort_strongly key_le (elements (ready_tasks_ g))) as Hsort.
  pose proof (ready_keys_NoDup g) as Hnd. fold (ready_keys g) in Hsort. revert Hk Hsort Hnd.
  induction (ready_keys g) as [|[k t] l IH]; intros Hk Hsort Hnd; [constructor|].
  apply StronglySorted_inv in Hsort as [Hsort Hall]. apply NoDup_cons in Hnd as [Hnin Hnd].
  constructor; [apply IH; [|done..]; intros; apply Hk; by right|].
  apply Forall_forall. intros u ([k' u'] & -> & Hin)%list_elem_of_fmap. cbn.
  rewrite Forall_forall in Hall. specialize (Hall _ Hin). unfold key_le in Hall; cbn in Hall.
  pose proof (Hk k t ltac:(left)) as Ek. pose proof (Hk k' u' ltac:(by right)) as Ek'.
  destruct (decide (t = u')) as [<-|Hne]; [|lia].
  exfalso. apply Hnin. by replace k with k' by congruence.
Qed.

(** C1: In every graph reached from the empty one by any sequence of operations
    that does not abort, a task is offered for scheduling only when all its
    inputs are ready; every submitted task is either pending or ready and never
    both; the reverse index lists pending tasks only; and [get_ready_tasks]
    lists each ready task once. *)
Theorem reachable_graph_invariant ops g :
  graph_run empty_graph ops g ->
  graph_wf g /\ NoDup (get_ready_tasks g) /\
  (forall t d, t ∈ get_ready_tasks g -> d ∈ get_task_dependencies t g -> is_data_ready d g = true).
Proof.
  intros Hrun. pose proof (graph_run_wf _ _ _ Hrun empty_graph_wf) as Hwf.
  split; [done|]. split; [apply get_ready_tasks_NoDup, Hwf|].
  intros t d Ht. apply elem_get_ready_tasks in Ht. by apply (wf_safe g Hwf).
Qed.

Definition example_ops : list graph_op :=
  [ OpDataReady clock0 "a"; OpAddTask clock0 1 ["a"; "b"] default_requirements;
    OpAddTask clock0 2 ["a"] default_requirements; OpDataReady clock0 "b";
    OpRemoveTask 2 ]%N.

Lemma reachable_graph_invariant_witness :
  exists g, run_ops example_ops empty_graph = Some g /\ graph_wf g /\ get_ready_tasks g = [1%N].
Proof.
  destruct (run_ops example_ops empty_graph) as [g|] eqn:E; [|vm_compute in E; discriminate].
  exists g. split; [done|].
  split; [apply (reachable_graph_invariant example_ops g), run_ops_run, E|].
  vm_compute in E. injection E as <-. vm_compute. reflexivity.
Defined.

(** [get_ready_tasks] orders the tasks by strictly descending priority and,
    within one priority, by strictly ascending task id. *)
Theorem ready_tasks_order g :
  graph_wf g ->
  StronglySorted (fun a b => (priority_of g b < priority_of g a)%Z \/
    (priority_of g a = priority_of g b /\ (a < b)%N)) (get_ready_tasks g).
Proof. intros Hwf. apply key_sorted_tasks, Hwf. Qed.

Lemma ready_tasks_order_witness :
  StronglySorted (fun a b => (priority_of empty_graph b < priority_of empty_graph a)%Z \/
    (priority_of empty_graph a = priority_of empty_graph b /\ (a < b)%N))
    (get_ready_tasks empty_graph).
Proof. apply (ready_tasks_order empty_graph), empty_graph_wf. Defined.

(** C7: Refinement.  The graph simulates the abstract task board whose state is
    the submitted tasks and the present data: along a disciplined run every
    operation changes the abstract state as specified, and [get_ready_tasks] is
    exactly the specified list, namely the tasks whose inputs are all present,
    in priority order. *)
Theorem graph_refines_spec ops g :
  disciplined_run empty_graph ops g ->
  spec_run ops (abs_graph empty_graph) = Some (abs_graph g) /\
  get_ready_tasks g = spec_ready (abs_graph g).
Proof.
  intros Hrun.
  destruct (disciplined_run_inv _ _ _ Hrun empty_graph_wf empty_graph_complete) as [Hwf Hc].
  split; [|by apply spec_ready_abs].
  apply graph_run_abs, empty_graph_wf. by apply disciplined_run_is_run.
Qed.

Lemma graph_refines_spec_witness :
  exists g, disciplined_run empty_graph [OpDataReady clock0 "a";
      OpAddTask clock0 7 ["a"] default_requirements; OpDataRemoved "a"] g /\
    get_ready_tasks g = spec_ready (abs_graph g).
Proof.
  eexists. eassert (Hd : disciplined_run empty_graph [OpDataReady clock0 "a";
      OpAddTask clock0 7 ["a"] default_requirements; OpDataRemoved "a"] _).
  { econstructor; [exact I|constructor; reflexivity|].
    econstructor; [vm_compute; by inversion 1|constructor; vm_compute; reflexivity|].
    econstructor; [|constructor; reflexivity|constructor].
    intros t Ht. exfalso. revert Ht. vm_compute. by inversion 1. }
  split; [exact Hd|]. apply (graph_refines_spec _ _ Hd).
Defined.

(** Lost wake-up.  A pending task [t] that is not listed in the reverse index
    under its dependency [a], because [a] was ready when [t] was submitted, is
    never reconsidered when [a] is removed and becomes ready again: after
    [a] is removed, [b] becomes ready and [a] becomes ready, all inputs of [t] are
    ready and yet [t] stays pending and is not offered for scheduling. *)
Theorem removed_dep_lost_wakeup clk1 clk2 a b t g :
  graph_wf g -> t ∈ pending_tasks_ g -> a <> b ->
  (forall d, d ∈ deps_of g t <-> d = a \/ d = b) ->
  ~ idx_has (data_to_pending_tasks_ g) a t ->
  let g' := mark_data_ready clk2 a (mark_data_ready clk1 b (mark_data_removed a g)) in
  (forall d, d ∈ get_task_dependencies t g' -> is_data_ready d g' = true) /\
  t ∈ pending_tasks_ g' /\ t ∉ get_ready_tasks g'.
Proof.
  intros Hwf Ht Hab Hdeps Hni g'.
  pose proof (mark_data_removed_wf a g Hwf) as Hwf1.
  pose proof (mark_data_ready_wf clk1 b _ Hwf1) as Hwf2.
  pose proof (mark_data_ready_wf clk2 a _ Hwf2) as Hwf3. fold g' in Hwf3.
  destruct (mark_data_removed_spec a g Hwf) as (_ & S1 & _ & P1 & I1).
  destruct (mark_data_ready_spec clk1 b _ Hwf1) as (S2 & P2 & I2).
  destruct (mark_data_ready_spec clk2 a _ Hwf2) as (S3 & P3 & I3). fold g' in S3, P3.
  pose proof (wf_disjoint g Hwf t Ht) as Hnr.
  assert (Hpend : t ∈ pending_tasks_ g').
  { apply P3. split; [apply P2; split; [apply P1; auto|]|].
    - intros [_ [_ Hm]]. specialize (Hm a). unfold deps_of in Hm. cbn in Hm.
      rewrite (same_deps _ _ S1) in Hm. specialize (Hm ltac:(apply Hdeps; auto)).
      revert Hm. unfold dep_met; cbn. rewrite lookup_insert_ne, (same_status _ _ S1) by done.
      cbn. by rewrite lookup_delete_eq.
    - intros [[Hi _]%I2 _]. apply I1 in Hi as [?|[? _]]; done. }
  split; [|split; [done|]].
  - intros d Hd. change (d ∈ deps_of g' t) in Hd. change (dep_met g' d = true).
    unfold deps_of in Hd. rewrite (same_deps _ _ S3) in Hd. cbn in Hd.
    rewrite (same_deps _ _ S2) in Hd. cbn in Hd. rewrite (same_deps _ _ S1) in Hd.
    rewrite (same_data_dep_met _ _ d S3). unfold dep_met; cbn. rewrite lookup_insert.
    case_decide; [done|]. rewrite (same_status _ _ S2). cbn. rewrite lookup_insert.
    case_decide; [done|]. change (d ∈ deps_of g t) in Hd. apply Hdeps in Hd. naive_solver.
  - rewrite elem_get_ready_tasks. by apply (wf_disjoint g' Hwf3).
Qed.

Lemma removed_dep_lost_wakeup_witness :
  exists g, run_ops [OpDataReady clock0 "a"; OpAddTask clock0 1 ["a"; "b"] default_requirements]
      empty_graph = Some g /\
    1%N ∉ get_ready_tasks
      (mark_data_ready clock0 "a" (mark_data_ready clock0 "b" (mark_data_removed "a" g))).
Proof.
  set (ops := [OpDataReady clock0 "a"; OpAddTask clock0 1 ["a"; "b"] default_requirements]).
  destruct (run_ops ops empty_graph) as [g|] eqn:E; [|vm_compute in E; discriminate].
  exists g. split; [done|].
  assert (Hwf : graph_wf g) by exact (graph_run_wf _ _ _ (run_ops_run _ _ _ E) empty_graph_wf).
  vm_compute in E. injection E as <-.
  apply (removed_dep_lost_wakeup clock0 clock0 "a" "b" 1 _ Hwf).
  - decide_compute.
  - discriminate.
  - intros d. vm_compute deps_of. set_solver.
  - unfold idx_has. decide_compute.
Defined.

(** An operation that does not remove [t]. *)
Definition keeps_task (t : N) (op : graph_op) : Prop :=
  match op with OpRemoveTask u => u <> t | _ => True end.

Lemma pending_completed_step t g op g' :
  graph_step g op g' -> graph_wf g -> keeps_task t op ->
  t ∈ pending_tasks_ g -> t ∈ completed_tasks_ g ->
  t ∈ pending_tasks_ g' /\ t ∈ completed_tasks_ g'.
Proof.
  intros [g0 op0 g0' Happ] Hwf Hkeep Hp Hc. destruct op0 as [clk u ins r|u h|clk d|d|u]; cbn in *.
  - apply add_task_Some in Happ as [_ [[_ ->]|[_ ->]]]; cbn; set_solver.
  - simplify_eq. unfold set_task_locality_hint. by destruct (_ !! u).
  - simplify_eq. destruct (mark_data_ready_spec clk d g0 Hwf) as (Hs & Hpd & _).
    rewrite (same_completed _ _ Hs). split; [|done]. apply Hpd. split; [done|].
    intros [_ [Hn _]]. done.
  - simplify_eq. destruct (mark_data_removed_spec d g0 Hwf) as (_ & Hs & _ & Hpd & _).
    rewrite (same_completed _ _ Hs). split; [|done]. apply Hpd. auto.
  - simplify_eq. destruct (remove_task_fields u g0) as (_ & _ & -> & -> & _). set_solver.
Qed.

(** A task that is submitted again after [remove_task], as the recovery of the
    tasks of a dead worker does, and whose inputs are not all ready at that
    moment stays pending for ever: whatever data becomes ready later, no sequence
    of operations that does not remove it makes it ready. *)
Theorem requeued_task_never_ready t ops g g' :
  graph_wf g -> t ∈ pending_tasks_ g -> t ∈ completed_tasks_ g ->
  Forall (keeps_task t) ops -> graph_run g ops g' ->
  t ∈ pending_tasks_ g' /\ t ∉ get_ready_tasks g'.
Proof.
  intros Hwf Hp Hc Hkeep Hrun.
  assert (Hinv : graph_wf g' /\ t ∈ pending_tasks_ g').
  { induction Hrun as [|g op g1 ops g2 Hstep Hrun IH]; [done|].
    apply Forall_cons in Hkeep as [Hk Hks].
    destruct (pending_completed_step t _ _ _ Hstep Hwf Hk Hp Hc).
    apply IH; eauto using graph_step_wf. }
  destruct Hinv as [Hwf' Hp']. split; [done|].
  rewrite elem_get_ready_tasks. by apply (wf_disjoint g' Hwf').
Qed.

(** Task 1 runs ([remove_task] on dispatch), its worker dies and it is submitted
    again while its input is missing; the input then appears. *)
Lemma requeued_task_never_ready_witness :
  exists g g', run_ops [OpDataReady clock0 "a"; OpAddTask clock0 1 ["a"] default_requirements;
      OpRemoveTask 1; OpDataRemoved "a"; OpAddTask clock0 1 ["a"] default_requirements]
      empty_graph = Some g /\
    run_ops [OpDataReady clock0 "a"] g = Some g' /\
    is_data_ready "a" g' = true /\ 1%N ∉ get_ready_tasks g'.
Proof.
  destruct (run_ops _ empty_graph) as [g|] eqn:E; [|vm_compute in E; discriminate].
  destruct (run_ops [OpDataReady clock0 "a"] g) as [g'|] eqn:E'; [|discriminate].
  exists g, g'. split; [done|]. split; [done|].
  assert (Hwf : graph_wf g) by exact (graph_run_wf _ _ _ (run_ops_run _ _ _ E) empty_graph_wf).
  vm_compute in E. injection E as <-. split.
  - vm_compute in E'. injection E' as <-. vm_compute. reflexivity.
  - refine (proj2 (requeued_task_never_ready 1 [OpDataReady clock0 "a"] _ g' Hwf _ _ _ _)).
    + decide_compute.
    + decide_compute.
    + by repeat constructor.
    + by apply run_ops_run.
Defined.
