(* ===== verification/WorkerManager.v ===== *)
(** Worker bookkeeping of the master (src/task/cpp/worker_manager.h and .cpp):
    registration, reconnection inside the grace window, task assignment,
    capabilities, and the candidate lists the scheduler works from.

    The state is the map [workers_]; every method runs under [mutex_] and is one
    atomic transformer of it.  The wall clock in seconds is an argument of the
    operations that read it. *)

From stdpp Require Import base gmap strings list sorting fin_maps.
From Stdlib Require Import ZArith Lia.
From S2P Require Import Prelude.

Inductive WorkerStatus := IDLE | BUSY | DEAD | EXITED.
#[export] Instance WorkerStatus_eq_dec : EqDecision WorkerStatus.
Proof. solve_decision. Defined.

Inductive WorkerRole := HYBRID | STORAGE_ONLY.
#[export] Instance WorkerRole_eq_dec : EqDecision WorkerRole.
Proof. solve_decision. Defined.

Definition worker_status_alive (s : WorkerStatus) : bool :=
  match s with IDLE | BUSY => true | DEAD | EXITED => false end.

(** [WorkerInfo]; the member [capabilities_] is [worker_capabilities_] here
    because [TaskRequirements] has a member of the same name. *)
Record WorkerInfo := mkWorkerInfo {
  worker_id_ : N;
  address_ : string;
  port_ : Z;
  status_ : WorkerStatus;
  worker_capabilities_ : list string;
  last_heartbeat_ : Z;
  current_task_id_ : N;
  hostname_ : string;
  ip_address_ : string;
  role_ : WorkerRole;
  in_grace_ : bool
}.

#[export] Instance set_worker_id_WorkerInfo : Setter worker_id_ :=
  fun h x => mkWorkerInfo (h (worker_id_ x)) (address_ x) (port_ x) (status_ x) (worker_capabilities_ x) (last_heartbeat_ x) (current_task_id_ x) (hostname_ x) (ip_address_ x) (role_ x) (in_grace_ x).
Arguments set_worker_id_WorkerInfo h x /.
#[export] Instance set_address_WorkerInfo : Setter address_ :=
  fun h x => mkWorkerInfo (worker_id_ x) (h (address_ x)) (port_ x) (status_ x) (worker_capabilities_ x) (last_heartbeat_ x) (current_task_id_ x) (hostname_ x) (ip_address_ x) (role_ x) (in_grace_ x).
Arguments set_address_WorkerInfo h x /.
#[export] Instance set_port_WorkerInfo : Setter port_ :=
  fun h x => mkWorkerInfo (worker_id_ x) (address_ x) (h (port_ x)) (status_ x) (worker_capabilities_ x) (last_heartbeat_ x) (current_task_id_ x) (hostname_ x) (ip_address_ x) (role_ x) (in_grace_ x).
Arguments set_port_WorkerInfo h x /.
#[export] Instance set_status_WorkerInfo : Setter status_ :=
  fun h x => mkWorkerInfo (worker_id_ x) (address_ x) (port_ x) (h (status_ x)) (worker_capabilities_ x) (last_heartbeat_ x) (current_task_id_ x) (hostname_ x) (ip_address_ x) (role_ x) (in_grace_ x).
Arguments set_status_WorkerInfo h x /.
#[export] Instance set_worker_capabilities_WorkerInfo : Setter worker_capabilities_ :=
  fun h x => mkWorkerInfo (worker_id_ x) (address_ x) (port_ x) (status_ x) (h (worker_capabilities_ x)) (last_heartbeat_ x) (current_task_id_ x) (hostname_ x) (ip_address_ x) (role_ x) (in_grace_ x).
Arguments set_worker_capabilities_WorkerInfo h x /.
#[export] Instance set_last_heartbeat_WorkerInfo : Setter last_heartbeat_ :=
  fun h x => mkWorkerInfo (worker_id_ x) (address_ x) (port_ x) (status_ x) (worker_capabilities_ x) (h (last_heartbeat_ x)) (current_task_id_ x) (hostname_ x) (ip_address_ x) (role_ x) (in_grace_ x).
Arguments set_last_heartbeat_WorkerInfo h x /.
#[export] Instance set_current_task_id_WorkerInfo : Setter current_task_id_ :=
  fun h x => mkWorkerInfo (worker_id_ x) (address_ x) (port_ x) (status_ x) (worker_capabilities_ x) (last_heartbeat_ x) (h (current_task_id_ x)) (hostname_ x) (ip_address_ x) (role_ x) (in_grace_ x).
Arguments set_current_task_id_WorkerInfo h x /.
#[export] Instance set_hostname_WorkerInfo : Setter hostname_ :=
  fun h x => mkWorkerInfo (worker_id_ x) (address_ x) (port_ x) (status_ x) (worker_capabilities_ x) (last_heartbeat_ x) (current_task_id_ x) (h (hostname_ x)) (ip_address_ x) (role_ x) (in_grace_ x).
Arguments set_hostname_WorkerInfo h x /.
#[export] Instance set_ip_address_WorkerInfo : Setter ip_address_ :=
  fun h x => mkWorkerInfo (worker_id_ x) (address_ x) (port_ x) (status_ x) (worker_capabilities_ x) (last_heartbeat_ x) (current_task_id_ x) (hostname_ x) (h (ip_address_ x)) (role_ x) (in_grace_ x).
Arguments set_ip_address_WorkerInfo h x /.
#[export] Instance set_role_WorkerInfo : Setter role_ :=
  fun h x => mkWorkerInfo (worker_id_ x) (address_ x) (port_ x) (status_ x) (worker_capabilities_ x) (last_heartbeat_ x) (current_task_id_ x) (hostname_ x) (ip_address_ x) (h (role_ x)) (in_grace_ x).
Arguments set_role_WorkerInfo h x /.
#[export] Instance set_in_grace_WorkerInfo : Setter in_grace_ :=
  fun h x => mkWorkerInfo (worker_id_ x) (address_ x) (port_ x) (status_ x) (worker_capabilities_ x) (last_heartbeat_ x) (current_task_id_ x) (hostname_ x) (ip_address_ x) (role_ x) (h (in_grace_ x)).
Arguments set_in_grace_WorkerInfo h x /.

Abbreviation workers := (gmap N WorkerInfo).

(** ** Mutators *)

Definition fresh_worker (now : Z) (worker_id : N) (address : string) (port : Z)
    (capabilities : list string) (hostname ip_address : string) (role : WorkerRole) : WorkerInfo :=
  mkWorkerInfo worker_id address port IDLE capabilities now 0 hostname ip_address role false.

Definition register_worker (now : Z) (worker_id : N) (address : string) (port : Z)
    (capabilities : list string) (hostname ip_address : string) (role : WorkerRole)
    (m : workers) : workers :=
  <[worker_id := fresh_worker now worker_id address port capabilities hostname ip_address role]> m.

Definition register_worker_reconnect (now : Z) (worker_id : N) (address : string) (port : Z)
    (capabilities : list string) (hostname ip_address : string) (role : WorkerRole)
    (m : workers) : workers :=
  match m !! worker_id with
  | None =>
      <[worker_id := fresh_worker now worker_id address port capabilities hostname ip_address role]> m
  | Some info =>
      let info := info <| address_ := address |> <| port_ := port |> <| in_grace_ := false |> in
      let info := if decide (status_ info = BUSY) then info else info <| status_ := IDLE |> in
      <[worker_id := info <| worker_capabilities_ := capabilities |> <| last_heartbeat_ := now |>
                       <| hostname_ := hostname |> <| ip_address_ := ip_address |>
                       <| role_ := role |>]> m
  end.

Definition unregister_worker (worker_id : N) (m : workers) : workers := delete worker_id m.

Definition update_worker_status (worker_id : N) (status : WorkerStatus) (m : workers) : workers :=
  alter (fun i => i <| status_ := status |>) worker_id m.

Definition set_worker_grace (worker_id : N) (in_grace : bool) (m : workers) : workers :=
  alter (fun i => i <| in_grace_ := in_grace |>) worker_id m.

Definition set_heartbeat (worker_id : N) (timestamp : Z) (m : workers) : workers :=
  alter (fun i => i <| last_heartbeat_ := timestamp |>) worker_id m.

Definition record_heartbeat (now : Z) (worker_id : N) (m : workers) : workers :=
  alter (fun i => i <| last_heartbeat_ := now |>) worker_id m.

Definition assign_task (worker_id task_id : N) (m : workers) : workers :=
  alter (fun i => i <| status_ := BUSY |> <| current_task_id_ := task_id |>) worker_id m.

Definition complete_task (worker_id : N) (m : workers) : workers :=
  alter (fun i => i <| status_ := IDLE |> <| current_task_id_ := 0%N |>) worker_id m.

Definition cancel_task_if_assigned (worker_id task_id : N) (m : workers) : workers :=
  match m !! worker_id with
  | Some i =>
      if decide (current_task_id_ i = task_id /\ status_ i = BUSY)
      then <[worker_id := i <| status_ := IDLE |> <| current_task_id_ := 0%N |>]> m
      else m
  | None => m
  end.

(** [caps.push_back(prop)] unless present. *)
Definition caps_add (caps : list string) (prop : string) : list string :=
  if decide (prop ∈ caps) then caps else caps ++ [prop].

(** [caps.erase(std::find(...))]: the first occurrence goes. *)
Fixpoint caps_remove (prop : string) (caps : list string) : list string :=
  match caps with
  | [] => []
  | c :: caps => if decide (c = prop) then caps else c :: caps_remove prop caps
  end.

Definition update_capabilities (worker_id : N) (added removed : list string) (m : workers) :
    workers :=
  alter (fun i => i <| worker_capabilities_ ::= fun caps =>
           foldl (fun caps p => caps_remove p caps) (foldl caps_add caps added) removed |>)
    worker_id m.

Definition set_hostname (worker_id : N) (hostname ip_address : string) (m : workers) : workers :=
  alter (fun i => let i := i <| hostname_ := hostname |> in
                  if decide (ip_address = "") then i else i <| ip_address_ := ip_address |>)
    worker_id m.

(** ** Queries *)

Definition get_hostname (worker_id : N) (m : workers) : string :=
  match m !! worker_id with Some i => hostname_ i | None => "" end.

Definition get_ip_address (worker_id : N) (m : workers) : string :=
  match m !! worker_id with Some i => ip_address_ i | None => "" end.

Definition get_worker (worker_id : N) (m : workers) : option WorkerInfo := m !! worker_id.

Definition worker_status_snapshot (worker_id : N) (m : workers) : option WorkerStatus :=
  status_ <$> m !! worker_id.

(** The test of [get_idle_workers] and, with [BUSY], of [get_busy_workers]. *)
Definition candidate (s : WorkerStatus) (i : WorkerInfo) : bool :=
  bool_decide (status_ i = s) && negb (in_grace_ i) && negb (bool_decide (role_ i = STORAGE_ONLY)).

(** The ids, in ascending order, of the workers that pass a test. *)
Definition ids_where (p : WorkerInfo -> bool) (m : workers) : list N :=
  merge_sort N.le (filter (fun e => p e.2 = true) (map_to_list m)).*1.

Definition get_idle_workers (m : workers) : list N := ids_where (candidate IDLE) m.

Definition get_busy_workers (m : workers) : list N := ids_where (candidate BUSY) m.

Definition get_workers_with_capability (capability : string) (m : workers) : list N :=
  (filter (fun e => capability ∈ worker_capabilities_ e.2) (map_to_list m)).*1.

Definition get_all_workers (m : workers) : list WorkerInfo := (map_to_list m).*2.

Definition has_all (caps : list string) (i : WorkerInfo) : bool :=
  forallb (fun req => bool_decide (req ∈ worker_capabilities_ i)) caps.

Definition has_worker_with_all_capabilities (caps : list string) (m : workers) : bool :=
  match caps with
  | [] => true
  | _ => existsb (has_all caps) (get_all_workers m)
  end.

Definition count_workers_with_all_capabilities (caps : list string) (m : workers) : nat :=
  length (filter (fun i => negb (bool_decide (role_ i = STORAGE_ONLY) || in_grace_ i)
                             && has_all caps i = true) (get_all_workers m)).

Definition get_worker_capabilities (worker_id : N) (m : workers) : list string :=
  match m !! worker_id with Some i => worker_capabilities_ i | None => [] end.

Definition get_worker_count (m : workers) : nat := size m.

Definition get_idle_worker_count (m : workers) : nat :=
  length (filter (fun i => status_ i = IDLE /\ role_ i <> STORAGE_ONLY) (get_all_workers m)).

(** ** Facts about the candidate lists *)

Lemma elem_ids_where p m w : w ∈ ids_where p m <-> exists i, m !! w = Some i /\ p i = true.
Proof.
  unfold ids_where. rewrite (merge_sort_Permutation N.le), list_elem_of_fmap.
  setoid_rewrite list_elem_of_filter. split.
  - intros ([w' i] & -> & Hp & Hin%elem_of_map_to_list). eauto.
  - intros (i & Hi & Hp). exists (w, i). by rewrite elem_of_map_to_list.
Qed.

Lemma ids_where_NoDup p m : NoDup (ids_where p m).
Proof.
  unfold ids_where. apply sort_NoDup. apply NoDup_fmap_fst.
  - intros w i1 i2 [_ H1%elem_of_map_to_list]%list_elem_of_filter
      [_ H2%elem_of_map_to_list]%list_elem_of_filter. congruence.
  - apply NoDup_filter, NoDup_map_to_list.
Qed.

Lemma ids_where_sorted p m : StronglySorted N.le (ids_where p m).
Proof. apply sort_strongly; apply _. Qed.

Lemma elem_get_idle_workers m w :
  w ∈ get_idle_workers m <->
  exists i, m !! w = Some i /\ status_ i = IDLE /\ in_grace_ i = false /\ role_ i <> STORAGE_ONLY.
Proof.
  unfold get_idle_workers. rewrite elem_ids_where. unfold candidate.
  setoid_rewrite andb_true_iff. setoid_rewrite andb_true_iff.
  setoid_rewrite negb_true_iff. setoid_rewrite bool_decide_eq_false.
  setoid_rewrite bool_decide_eq_true. naive_solver.
Qed.

(** ** The manager as a state machine *)

Inductive worker_op :=
| OpRegister (now : Z) (w : N) (address : string) (port : Z) (caps : list string)
    (hostname ip : string) (role : WorkerRole)
| OpReconnect (now : Z) (w : N) (address : string) (port : Z) (caps : list string)
    (hostname ip : string) (role : WorkerRole)
| OpUnregister (w : N)
| OpStatus (w : N) (s : WorkerStatus)
| OpGrace (w : N) (b : bool)
| OpHeartbeat (now : Z) (w : N)
| OpSetHeartbeat (w : N) (ts : Z)
| OpAssign (w t : N)
| OpComplete (w : N)
| OpCancel (w t : N)
| OpCapabilities (w : N) (added removed : list string)
| OpHostname (w : N) (hostname ip : string).

Definition worker_apply (op : worker_op) (m : workers) : workers :=
  match op with
  | OpRegister now w a p c h ip r => register_worker now w a p c h ip r m
  | OpReconnect now w a p c h ip r => register_worker_reconnect now w a p c h ip r m
  | OpUnregister w => unregister_worker w m
  | OpStatus w s => update_worker_status w s m
  | OpGrace w b => set_worker_grace w b m
  | OpHeartbeat now w => record_heartbeat now w m
  | OpSetHeartbeat w ts => set_heartbeat w ts m
  | OpAssign w t => assign_task w t m
  | OpComplete w => complete_task w m
  | OpCancel w t => cancel_task_if_assigned w t m
  | OpCapabilities w a r => update_capabilities w a r m
  | OpHostname w h ip => set_hostname w h ip m
  end.

(** The worker an operation is about. *)
Definition op_worker (op : worker_op) : N :=
  match op with
  | OpRegister _ w _ _ _ _ _ _ | OpReconnect _ w _ _ _ _ _ _ | OpUnregister w | OpStatus w _
  | OpGrace w _ | OpHeartbeat _ w | OpSetHeartbeat w _ | OpAssign w _ | OpComplete w
  | OpCancel w _ | OpCapabilities w _ _ | OpHostname w _ _ => w
  end.

Definition run_worker_ops (ops : list worker_op) (m : workers) : workers :=
  foldl (fun m op => worker_apply op m) m ops.

(** An operation touches the entry of its own worker only. *)
Lemma worker_apply_other op m w : w <> op_worker op -> worker_apply op m !! w = m !! w.
Proof.
  intros Hne. destruct op; cbn in *; try by apply lookup_alter_ne.
  - by apply lookup_insert_ne.
  - unfold register_worker_reconnect. destruct (m !! w0); by apply lookup_insert_ne.
  - by apply lookup_delete_ne.
  - unfold cancel_task_if_assigned. destruct (m !! w0); [|done]. case_decide; [|done].
    by apply lookup_insert_ne.
Qed.

(** Every entry of the manager is stored under its own id. *)
Definition ids_ok (m : workers) : Prop := forall w i, m !! w = Some i -> worker_id_ i = w.

(** The operations that end the grace of a worker. *)
Definition ends_grace (op : worker_op) : bool :=
  match op with
  | OpRegister _ _ _ _ _ _ _ _ | OpReconnect _ _ _ _ _ _ _ _ | OpUnregister _ => true
  | OpGrace _ b => negb b
  | _ => false
  end.

(** The operations that change the static identity of a worker. *)
Definition registers (op : worker_op) : bool :=
  match op with
  | OpRegister _ _ _ _ _ _ _ _ | OpReconnect _ _ _ _ _ _ _ _ | OpUnregister _ => true
  | _ => false
  end.

Lemma worker_apply_entry op m i :
  m !! op_worker op = Some i -> registers op = false ->
  exists i', worker_apply op m !! op_worker op = Some i' /\
    worker_id_ i' = worker_id_ i /\ role_ i' = role_ i /\
    (in_grace_ i = true -> ends_grace op = false -> in_grace_ i' = true).
Proof.
  intros Hi Hr. destruct op; cbn in *; try done;
    try (eexists; split; [apply lookup_alter_Some; left; by eauto|]; cbn; auto; fail).
  - eexists. split; [apply lookup_alter_Some; left; by eauto|]. cbn. split_and!; [done..|].
    by destruct b.
  - unfold cancel_task_if_assigned. rewrite Hi. case_decide; [|by eauto].
    eexists. rewrite lookup_insert_eq. by split_and!.
  - eexists. split; [apply lookup_alter_Some; left; by eauto|]. cbn. by case_decide.
Qed.

Lemma worker_apply_ids_ok op m : ids_ok m -> ids_ok (worker_apply op m).
Proof.
  intros Hids w i'. destruct (decide (w = op_worker op)) as [->|Hne];
    [|rewrite worker_apply_other by done; apply Hids].
  destruct (registers op) eqn:Er.
  - destruct op; try done; cbn.
    + unfold register_worker. rewrite lookup_insert_eq. by intros [= <-].
    + unfold register_worker_reconnect. destruct (m !! w) as [i|] eqn:Ei;
        rewrite lookup_insert_eq; intros [= <-]; [|done].
      pose proof (Hids _ _ Ei). by case_decide.
    + unfold unregister_worker. by rewrite lookup_delete_eq.
  - destruct (m !! op_worker op) as [i|] eqn:Ei.
    + destruct (worker_apply_entry op m i Ei Er) as (j & Hj & Hid & _).
      rewrite Hj. intros [= <-]. rewrite Hid. eauto.
    + destruct op; try done; cbn in *;
        unfold cancel_task_if_assigned, update_worker_status, set_worker_grace, record_heartbeat,
          set_heartbeat, assign_task, complete_task, update_capabilities, set_hostname;
        rewrite ?lookup_alter_eq, Ei; (done || congruence).
Qed.

Lemma grace_step op m w i :
  m !! w = Some i -> in_grace_ i = true ->
  (op_worker op = w -> ends_grace op = false) ->
  exists i', worker_apply op m !! w = Some i' /\ in_grace_ i' = true.
Proof.
  intros Hi Hg Hop. destruct (decide (w = op_worker op)) as [->|Hne].
  - specialize (Hop eq_refl). destruct (registers op) eqn:E; [by destruct op|].
    destruct (worker_apply_entry op m i Hi E) as (i' & ? & _ & _ & ?). eauto.
  - rewrite worker_apply_other by done. eauto.
Qed.

(** ** Properties *)

(** The scheduling candidates are exactly the registered workers that are
    idle, connected (not in the grace window) and not storage-only, listed in
    strictly ascending id order. *)
Theorem idle_workers_exact m :
  (forall w, w ∈ get_idle_workers m <->
     exists i, m !! w = Some i /\ status_ i = IDLE /\ in_grace_ i = false /\
       role_ i <> STORAGE_ONLY) /\
  NoDup (get_idle_workers m) /\ StronglySorted N.le (get_idle_workers m).
Proof.
  split; [intros w; apply elem_get_idle_workers|].
  split; [apply ids_where_NoDup | apply ids_where_sorted].
Qed.

(** A worker whose connection dropped stays out of both candidate lists,
    whatever heartbeats, assignments, completions or status changes arrive for it
    or for other workers, until it registers again, is unregistered or its grace
    mark is cleared. *)
Theorem grace_excludes_worker w i ops m :
  m !! w = Some i -> in_grace_ i = true ->
  Forall (fun op => op_worker op = w -> ends_grace op = false) ops ->
  w ∉ get_idle_workers (run_worker_ops ops m) /\ w ∉ get_busy_workers (run_worker_ops ops m).
Proof.
  intros Hi Hg Hops.
  assert (Hinv : exists i', run_worker_ops ops m !! w = Some i' /\ in_grace_ i' = true).
  { revert m i Hi Hg. induction Hops as [|op ops Hop Hops IH]; intros m i Hi Hg; cbn; [by eauto|].
    destruct (grace_step op m w i Hi Hg Hop) as (i' & ? & ?). by eapply IH. }
  destruct Hinv as (i' & Hi' & Hg').
  split; unfold get_idle_workers, get_busy_workers; rewrite elem_ids_where;
    intros (j & Hj & Hc); simplify_eq; unfold candidate in Hc; rewrite Hg' in Hc;
    by rewrite andb_false_r in Hc.
Qed.

Definition demo_workers : workers :=
  set_worker_grace 1 true
    (register_worker 100 2 "10.0.0.2" 9000 ["gpu"] "h2" "" HYBRID
      (register_worker 100 1 "10.0.0.1" 9000 [] "h1" "" HYBRID ∅)).

Lemma grace_excludes_worker_witness :
  1%N ∉ get_idle_workers (run_worker_ops [OpComplete 1; OpHeartbeat 105 1; OpAssign 2 7] demo_workers)
  /\ 1%N ∉ get_busy_workers
       (run_worker_ops [OpComplete 1; OpHeartbeat 105 1; OpAssign 2 7] demo_workers).
Proof.
  eapply (grace_excludes_worker 1 (fresh_worker 100 1 "10.0.0.1" 9000 [] "h1" "" HYBRID
    <| in_grace_ := true |>)).
  - vm_compute. reflexivity.
  - reflexivity.
  - repeat constructor.
Defined.

(** Reconnecting inside the grace window keeps the running task of a busy
    worker: the worker is still busy with the same task, is not offered a second
    task, is no longer in grace, and no other worker changes.  A plain
    re-registration of the same worker loses the association. *)
Theorem reconnect_keeps_task now w address port caps host ip role m i :
  m !! w = Some i -> status_ i = BUSY ->
  let m' := register_worker_reconnect now w address port caps host ip role m in
  (exists i', m' !! w = Some i' /\ status_ i' = BUSY /\
     current_task_id_ i' = current_task_id_ i /\ in_grace_ i' = false /\
     worker_capabilities_ i' = caps /\ last_heartbeat_ i' = now) /\
  w ∉ get_idle_workers m' /\
  (forall w', w' <> w -> m' !! w' = m !! w') /\
  current_task_id_ <$> register_worker now w address port caps host ip role m !! w = Some 0%N.
Proof.
  intros Hi Hb m'.
  assert (Hm' : exists i', m' !! w = Some i' /\ status_ i' = BUSY /\
     current_task_id_ i' = current_task_id_ i /\ in_grace_ i' = false /\
     worker_capabilities_ i' = caps /\ last_heartbeat_ i' = now).
  { eexists. unfold m', register_worker_reconnect. rewrite Hi.
    rewrite lookup_insert_eq. split; [done|]. rewrite decide_True by done. cbn. auto. }
  split; [done|]. split; [|split].
  - destruct Hm' as (i' & Hi' & Hs & _). rewrite elem_get_idle_workers.
    intros (j & Hj & Hs' & _). congruence.
  - intros w' Hne. exact (worker_apply_other (OpReconnect now w address port caps host ip role) m w' Hne).
  - unfold register_worker. by rewrite lookup_insert_eq.
Qed.

Lemma reconnect_keeps_task_witness :
  2%N ∉ get_idle_workers (register_worker_reconnect 130 2 "10.0.0.2" 9001 ["gpu"] "h2" "" HYBRID
      (assign_task 2 7 demo_workers)).
Proof.
  eapply (reconnect_keeps_task 130 2 "10.0.0.2" 9001 ["gpu"] "h2" "" HYBRID).
  - vm_compute. reflexivity.
  - reflexivity.
Defined.

Lemma elem_caps_add caps p c : c ∈ caps_add caps p <-> c ∈ caps \/ c = p.
Proof. unfold caps_add. case_decide; set_solver. Qed.

Lemma caps_add_NoDup caps p : NoDup caps -> NoDup (caps_add caps p).
Proof.
  intros Hnd. unfold caps_add. case_decide; [done|]. apply NoDup_app.
  split; [done|]. split; [set_solver|]. apply NoDup_singleton.
Qed.

Lemma caps_remove_sub p caps c : c ∈ caps_remove p caps -> c ∈ caps.
Proof. induction caps as [|a caps IH]; cbn; [done|]. case_decide; set_solver. Qed.

Lemma caps_remove_NoDup p caps :
  NoDup caps -> NoDup (caps_remove p caps) /\ forall c, c ∈ caps_remove p caps <-> c ∈ caps /\ c <> p.
Proof.
  induction caps as [|a caps IH]; cbn; [set_solver|].
  intros [Hn Hnd]%NoDup_cons. destruct (IH Hnd) as [IH1 IH2]. case_decide as E; subst.
  - set_solver.
  - split; [|set_solver]. apply NoDup_cons. split; [|done]. intros ?%caps_remove_sub. done.
Qed.

Lemma caps_add_all caps added :
  NoDup caps ->
  NoDup (foldl caps_add caps added) /\
  forall c, c ∈ foldl caps_add caps added <-> c ∈ caps \/ c ∈ added.
Proof.
  revert caps. induction added as [|p added IH]; intros caps Hnd; cbn; [set_solver|].
  destruct (IH (caps_add caps p) (caps_add_NoDup _ _ Hnd)) as [H1 H2]. split; [done|].
  intros c. rewrite H2, elem_caps_add. set_solver.
Qed.

Lemma caps_remove_all caps removed :
  NoDup caps ->
  NoDup (foldl (fun caps p => caps_remove p caps) caps removed) /\
  forall c, c ∈ foldl (fun caps p => caps_remove p caps) caps removed <-> c ∈ caps /\ c ∉ removed.
Proof.
  revert caps. induction removed as [|p removed IH]; intros caps Hnd; cbn; [set_solver|].
  destruct (caps_remove_NoDup p caps Hnd) as [Hr1 Hr2].
  destruct (IH _ Hr1) as [H1 H2]. split; [done|]. intros c. rewrite H2, Hr2. set_solver.
Qed.

(** [update_capabilities] leaves a worker with exactly the attributes it had
    or gained and did not lose, without duplicates: a capability in both lists is
    removed.  An unknown worker is ignored. *)
Theorem update_capabilities_spec w added removed m i :
  m !! w = Some i -> NoDup (worker_capabilities_ i) ->
  let caps := get_worker_capabilities w (update_capabilities w added removed m) in
  NoDup caps /\
  (forall c, c ∈ caps <-> (c ∈ worker_capabilities_ i \/ c ∈ added) /\ c ∉ removed) /\
  (forall w', m !! w' = None -> update_capabilities w' added removed m = m).
Proof.
  intros Hi Hnd caps. subst caps. unfold get_worker_capabilities, update_capabilities.
  rewrite lookup_alter_eq, Hi. cbn.
  destruct (caps_add_all _ added Hnd) as [Ha1 Ha2].
  destruct (caps_remove_all _ removed Ha1) as [Hr1 Hr2]. split; [done|]. split.
  - intros c. by rewrite Hr2, Ha2.
  - intros w' Hn. apply map_eq. intros u. rewrite lookup_alter. case_decide; [|done].
    subst. by rewrite Hn.
Qed.

Lemma update_capabilities_spec_witness :
  NoDup (get_worker_capabilities 2 (update_capabilities 2 ["cpu"; "ssd"] ["gpu"; "ssd"] demo_workers))
  /\ get_worker_capabilities 2 (update_capabilities 2 ["cpu"; "ssd"] ["gpu"; "ssd"] demo_workers)
     = ["cpu"].
Proof.
  split; [|reflexivity].
  eapply (update_capabilities_spec 2 ["cpu"; "ssd"] ["gpu"; "ssd"] demo_workers).
  - vm_compute. reflexivity.
  - apply NoDup_singleton.
Defined.

(** [cancel_task_if_assigned] undoes an assignment to an idle worker exactly,
    and never revives a dead or exited worker, nor frees a worker that has moved
    on to another task. *)
Theorem cancel_undoes_assign w t m :
  (forall i, m !! w = Some i -> status_ i = IDLE -> current_task_id_ i = 0%N ->
     cancel_task_if_assigned w t (assign_task w t m) = m) /\
  (forall i, m !! w = Some i -> worker_status_alive (status_ i) = false ->
     cancel_task_if_assigned w t m = m) /\
  (forall i, m !! w = Some i -> current_task_id_ i <> t -> cancel_task_if_assigned w t m = m).
Proof.
  unfold cancel_task_if_assigned. split; [|split].
  - intros i Hi Hs Ht. unfold assign_task. rewrite lookup_alter_eq, Hi. cbn.
    rewrite decide_True by done. apply map_eq. intros u. rewrite lookup_insert.
    case_decide; subst; [|by apply lookup_alter_ne]. rewrite Hi. f_equal.
    destruct i; cbn in *. by subst.
  - intros i Hi Hs. rewrite Hi. case_decide as E; [|done]. destruct E as [_ E].
    by rewrite E in Hs.
  - intros i Hi Hne. rewrite Hi. case_decide as E; [|done]. by destruct E.
Qed.
