(* ===== verification/HeartbeatMonitor.v ===== *)
(** Heartbeat supervision (src/task/cpp/heartbeat_monitor.h and .cpp).

    [check_all_workers] walks a snapshot of the workers and declares dead those
    whose last heartbeat is older than the timeout.  The subtraction is the
    [uint64_t] subtraction of the source, with its wrap-around. *)

From stdpp Require Import base gmap strings list fin_maps.
From Stdlib Require Import ZArith Lia.
From S2P Require Import Prelude WorkerManager.

Record HeartbeatMonitor := mkHeartbeatMonitor {
  timeout_seconds_ : Z;
  dead_workers_ : list N
}.

Definition get_timeout (h : HeartbeatMonitor) : Z := timeout_seconds_ h.

Definition set_timeout (seconds : Z) (h : HeartbeatMonitor) : HeartbeatMonitor :=
  mkHeartbeatMonitor seconds (dead_workers_ h).

Definition get_dead_workers (h : HeartbeatMonitor) : list N := dead_workers_ h.

(** The body of the loop for one worker of the snapshot: the manager and the
    list of dead workers it leaves. *)
Definition check_worker (timeout current_time : Z) (exempt_workers : list N)
    (st : workers * list N) (worker : WorkerInfo) : workers * list N :=
  let '(m, dead) := st in
  if decide (status_ worker = EXITED) then (m, dead)
  else if decide (status_ worker = DEAD) then (m, dead ++ [worker_id_ worker])
  else if decide (worker_id_ worker ∈ exempt_workers) then (m, dead)
  else if decide (timeout < u64 (current_time - last_heartbeat_ worker))%Z
  then (update_worker_status (worker_id_ worker) DEAD m, dead ++ [worker_id_ worker])
  else (m, dead).

Definition check_all_workers (current_time : Z) (exempt_workers : list N)
    (h : HeartbeatMonitor) (m : workers) : HeartbeatMonitor * workers :=
  let '(m', dead) := foldl (check_worker (timeout_seconds_ h) current_time exempt_workers)
                       (m, []) (get_all_workers m) in
  (mkHeartbeatMonitor (timeout_seconds_ h) dead, m').

(** The verdict on one worker. *)
Definition declared_dead (timeout current_time : Z) (exempt_workers : list N) (i : WorkerInfo) : bool :=
  worker_status_alive (status_ i) && negb (bool_decide (worker_id_ i ∈ exempt_workers))
    && (timeout <? u64 (current_time - last_heartbeat_ i))%Z.

Definition reported_dead (timeout current_time : Z) (exempt_workers : list N) (i : WorkerInfo) : bool :=
  bool_decide (status_ i = DEAD) || declared_dead timeout current_time exempt_workers i.

Lemma check_worker_eq timeout now exempt m dead i :
  check_worker timeout now exempt (m, dead) i =
    ((if declared_dead timeout now exempt i then update_worker_status (worker_id_ i) DEAD m else m),
     (if reported_dead timeout now exempt i then dead ++ [worker_id_ i] else dead)).
Proof.
  unfold check_worker, reported_dead, declared_dead.
  destruct (status_ i) eqn:E; cbn;
    repeat (rewrite decide_False by done); try (rewrite decide_True by done); try done.
  all: destruct (decide (worker_id_ i ∈ exempt)) as [Hin|Hin];
    rewrite ?(bool_decide_eq_true_2 _ Hin), ?(bool_decide_eq_false_2 _ Hin); cbn; [done|].
  all: case_decide as Hlt;
    [rewrite (proj2 (Z.ltb_lt _ _) Hlt) | rewrite (proj2 (Z.ltb_ge _ _)) by lia]; done.
Qed.

Lemma check_workers_dead timeout now exempt l m dead :
  (foldl (check_worker timeout now exempt) (m, dead) l).2 =
    dead ++ (worker_id_ <$> filter (fun i => reported_dead timeout now exempt i = true) l).
Proof.
  revert m dead. induction l as [|i l IH]; intros m dead; cbn [foldl].
  - by rewrite app_nil_r.
  - rewrite check_worker_eq, IH, filter_cons.
    destruct (reported_dead timeout now exempt i); [|done].
    rewrite decide_True by done. by rewrite <- app_assoc.
Qed.

Lemma check_workers_map timeout now exempt l m dead w :
  (foldl (check_worker timeout now exempt) (m, dead) l).1 !! w =
    (if existsb (fun i => bool_decide (worker_id_ i = w) && declared_dead timeout now exempt i) l
     then (fun i => i <| status_ := DEAD |>) <$> m !! w else m !! w).
Proof.
  revert m dead. induction l as [|i l IH]; intros m dead; cbn [foldl existsb]; [done|].
  rewrite check_worker_eq, IH.
  destruct (declared_dead timeout now exempt i) eqn:E;
    [|by rewrite andb_false_r].
  rewrite andb_true_r. unfold update_worker_status. rewrite lookup_alter.
  destruct (decide (worker_id_ i = w)) as [<-|Hne].
  - rewrite bool_decide_eq_true_2 by done. cbn.
    destruct (existsb _ l); [|done]. by destruct (m !! worker_id_ i) as [j|].
  - by rewrite bool_decide_eq_false_2 by done.
Qed.

Lemma existsb_by_id m w i (p : WorkerInfo -> bool) :
  ids_ok m -> m !! w = Some i ->
  existsb (fun j => bool_decide (worker_id_ j = w) && p j) (get_all_workers m) = p i.
Proof.
  intros Hids Hi. apply eq_true_iff_eq. rewrite existsb_exists. split.
  - intros (j & Hin & [Hw%bool_decide_eq_true Hp]%andb_prop).
    apply list_elem_of_In, list_elem_of_fmap in Hin as ([w' j'] & -> & Hin).
    apply elem_of_map_to_list in Hin. cbn in *. pose proof (Hids _ _ Hin). congruence.
  - intros Hp. exists i. split.
    + apply list_elem_of_In, list_elem_of_fmap. exists (w, i). by rewrite elem_of_map_to_list.
    + by rewrite bool_decide_eq_true_2, Hp by eauto.
Qed.

(** One sweep of the heartbeat monitor.  A worker becomes dead exactly when it
    was alive, is not exempt and its heartbeat age (in [uint64_t] arithmetic)
    exceeds the timeout; every other entry is untouched; the reported list is the
    workers that are dead afterwards, so a worker that exited normally or is in
    the grace window is never reported unless it was dead already. *)
Theorem heartbeat_sweep now exempt h m h' m' :
  ids_ok m -> check_all_workers now exempt h m = (h', m') ->
  (forall w i, m !! w = Some i ->
     m' !! w = Some (if declared_dead (timeout_seconds_ h) now exempt i
                     then i <| status_ := DEAD |> else i)) /\
  (forall w, m !! w = None -> m' !! w = None) /\
  (forall w, w ∈ get_dead_workers h' <-> exists i, m' !! w = Some i /\ status_ i = DEAD) /\
  timeout_seconds_ h' = timeout_seconds_ h.
Proof.
  intros Hids. unfold check_all_workers.
  pose proof (check_workers_map (timeout_seconds_ h) now exempt (get_all_workers m) m []) as Hm.
  pose proof (check_workers_dead (timeout_seconds_ h) now exempt (get_all_workers m) m []) as Hd.
  destruct (foldl _ _ _) as [m1 dead]. cbn in Hm, Hd. intros [= <- <-].
  assert (Hsome : forall w i, m !! w = Some i ->
    m1 !! w = Some (if declared_dead (timeout_seconds_ h) now exempt i
                    then i <| status_ := DEAD |> else i)).
  { intros w i Hi. rewrite Hm, Hi, (existsb_by_id m w i _ Hids Hi). by case_match. }
  assert (Hnone : forall w, m !! w = None -> m1 !! w = None).
  { intros w Hw. rewrite Hm, Hw. by case_match. }
  split; [done|]. split; [done|]. split; [|done]. cbn. intros w. subst dead.
  rewrite list_elem_of_fmap. setoid_rewrite list_elem_of_filter. split.
  - intros (i & -> & Hr & Hin). apply list_elem_of_fmap in Hin as ([w j] & -> & Hin).
    apply elem_of_map_to_list in Hin. cbn in *. rewrite (Hids _ _ Hin).
    rewrite (Hsome _ _ Hin). eexists. split; [done|]. unfold reported_dead in Hr.
    apply orb_true_iff in Hr as [Hr%bool_decide_eq_true|Hr]; [|by rewrite Hr].
    by destruct (declared_dead _ _ _ j).
  - intros (i' & Hi' & Hs). destruct (m !! w) as [i|] eqn:Hi; [|by rewrite Hnone in Hi'].
    rewrite (Hsome _ _ Hi) in Hi'. injection Hi' as <-. exists i.
    rewrite (Hids _ _ Hi). split; [done|]. split.
    + unfold reported_dead. apply orb_true_iff.
      destruct (declared_dead _ _ _ i); [by right|left]. by apply bool_decide_eq_true.
    + apply list_elem_of_fmap. exists (w, i). by rewrite elem_of_map_to_list.
Qed.

Definition sweep_demo : workers :=
  register_worker 100 1 "10.0.0.1" 9000 [] "h1" "" HYBRID
    (register_worker 160 2 "10.0.0.2" 9000 [] "h2" "" HYBRID ∅).

Lemma sweep_demo_ids : ids_ok sweep_demo.
Proof.
  intros w i. unfold sweep_demo, register_worker.
  intros [[<- <-]|[_ [[<- <-]|[_ [=]]]%lookup_insert_Some]]%lookup_insert_Some; done.
Qed.

Lemma heartbeat_sweep_witness :
  get_dead_workers (check_all_workers 165 [] (mkHeartbeatMonitor 30 []) sweep_demo).1 = [1%N] /\
  forall w, w ∈ [1%N] <-> exists i,
    (check_all_workers 165 [] (mkHeartbeatMonitor 30 []) sweep_demo).2 !! w = Some i /\
    status_ i = DEAD.
Proof.
  split; [vm_compute; reflexivity|]. intros w.
  destruct (check_all_workers 165 [] (mkHeartbeatMonitor 30 []) sweep_demo) as [h' m'] eqn:E.
  pose proof (heartbeat_sweep 165 [] _ _ h' m' sweep_demo_ids E) as (_ & _ & Hd & _).
  rewrite <- Hd. vm_compute in E. injection E as <- <-. reflexivity.
Defined.

(** False death.  The age of a heartbeat is computed without checking that it
    is not in the future: a live, non-exempt worker whose heartbeat was recorded
    after the sweep read the clock, in a later second, has an age close to
    [2^64] and is declared dead. *)
Theorem future_heartbeat_declared_dead now exempt h m w i :
  ids_ok m -> m !! w = Some i -> worker_status_alive (status_ i) = true -> w ∉ exempt ->
  (0 <= now)%Z -> (now < last_heartbeat_ i)%Z -> (last_heartbeat_ i < 2 ^ 63)%Z ->
  (timeout_seconds_ h < 2 ^ 63)%Z ->
  status_ <$> (check_all_workers now exempt h m).2 !! w = Some DEAD.
Proof.
  intros Hids Hi Ha Hex H0 Hlt Hb Ht.
  destruct (check_all_workers now exempt h m) as [h' m'] eqn:E.
  unfold check_all_workers in E.
  pose proof (check_workers_map (timeout_seconds_ h) now exempt (get_all_workers m) m []  w) as Hm.
  destruct (foldl _ _ _) as [m1 dead]. cbn in Hm. injection E as <- <-. cbn.
  rewrite Hm, Hi, (existsb_by_id m w i _ Hids Hi).
  unfold declared_dead. rewrite Ha, (Hids _ _ Hi), bool_decide_eq_false_2 by done.
  rewrite u64_sub_wraps by lia. rewrite (proj2 (Z.ltb_lt _ _)) by lia. done.
Qed.

(** Worker 2 sent a heartbeat at second 160; a sweep that read second 159 and a
    timeout of one hour kills it. *)
Lemma future_heartbeat_declared_dead_witness :
  status_ <$> (check_all_workers 159 [] (mkHeartbeatMonitor 3600 []) sweep_demo).2 !! 2%N = Some DEAD.
Proof.
  eapply (future_heartbeat_declared_dead 159 [] (mkHeartbeatMonitor 3600 []) sweep_demo 2).
  - exact sweep_demo_ids.
  - vm_compute. reflexivity.
  - reflexivity.
  - set_solver.
  - lia.
  - vm_compute. reflexivity.
  - vm_compute. reflexivity.
  - vm_compute. reflexivity.
Defined.
