(* ===== verification/TaskManager.v ===== *)
(** Task metadata of the master (src/task/cpp/task_manager.h and .cpp): the
    life cycle of a task, its per-status buckets, and the bounded history of
    finished tasks.

    Every method runs under [mutex_].  The wall clock in milliseconds is an
    argument of the operations that read it. *)

From stdpp Require Import base gmap strings list sorting fin_maps.
From Stdlib Require Import ZArith QArith Lia.
From S2P Require Import Prelude.

Inductive TaskStatus := PENDING | RUNNING | COMPLETED | FAILED | CANCELLED.
#[export] Instance TaskStatus_eq_dec : EqDecision TaskStatus.
Proof. solve_decision. Defined.

Definition kMaxCompletedTasks : nat := 100.

(** What is fixed when a task is submitted ([TaskSubmissionSpec]); its member
    [priority_] is [spec_priority_] here. *)
Record TaskSubmissionSpec := mkTaskSubmissionSpec {
  name_ : string;
  module_ : string;
  args_ : list string;
  inputs_ : list string;
  outputs_ : list string;
  required_capabilities_ : list string;
  attribute_timeout_ : Q;
  spec_priority_ : Z;
  write_context_hash_ : string;
  vars_ : list string;
  owner_db_path_ : string
}.

#[export] Instance set_name_TaskSubmissionSpec : Setter name_ :=
  fun h x => mkTaskSubmissionSpec (h (name_ x)) (module_ x) (args_ x) (inputs_ x) (outputs_ x) (required_capabilities_ x) (attribute_timeout_ x) (spec_priority_ x) (write_context_hash_ x) (vars_ x) (owner_db_path_ x).
Arguments set_name_TaskSubmissionSpec h x /.
#[export] Instance set_module_TaskSubmissionSpec : Setter module_ :=
  fun h x => mkTaskSubmissionSpec (name_ x) (h (module_ x)) (args_ x) (inputs_ x) (outputs_ x) (required_capabilities_ x) (attribute_timeout_ x) (spec_priority_ x) (write_context_hash_ x) (vars_ x) (owner_db_path_ x).
Arguments set_module_TaskSubmissionSpec h x /.
#[export] Instance set_args_TaskSubmissionSpec : Setter args_ :=
  fun h x => mkTaskSubmissionSpec (name_ x) (module_ x) (h (args_ x)) (inputs_ x) (outputs_ x) (required_capabilities_ x) (attribute_timeout_ x) (spec_priority_ x) (write_context_hash_ x) (vars_ x) (owner_db_path_ x).
Arguments set_args_TaskSubmissionSpec h x /.
#[export] Instance set_inputs_TaskSubmissionSpec : Setter inputs_ :=
  fun h x => mkTaskSubmissionSpec (name_ x) (module_ x) (args_ x) (h (inputs_ x)) (outputs_ x) (required_capabilities_ x) (attribute_timeout_ x) (spec_priority_ x) (write_context_hash_ x) (vars_ x) (owner_db_path_ x).
Arguments set_inputs_TaskSubmissionSpec h x /.
#[export] Instance set_outputs_TaskSubmissionSpec : Setter outputs_ :=
  fun h x => mkTaskSubmissionSpec (name_ x) (module_ x) (args_ x) (inputs_ x) (h (outputs_ x)) (required_capabilities_ x) (attribute_timeout_ x) (spec_priority_ x) (write_context_hash_ x) (vars_ x) (owner_db_path_ x).
Arguments set_outputs_TaskSubmissionSpec h x /.
#[export] Instance set_required_capabilities_TaskSubmissionSpec : Setter required_capabilities_ :=
  fun h x => mkTaskSubmissionSpec (name_ x) (module_ x) (args_ x) (inputs_ x) (outputs_ x) (h (required_capabilities_ x)) (attribute_timeout_ x) (spec_priority_ x) (write_context_hash_ x) (vars_ x) (owner_db_path_ x).
Arguments set_required_capabilities_TaskSubmissionSpec h x /.
#[export] Instance set_attribute_timeout_TaskSubmissionSpec : Setter attribute_timeout_ :=
  fun h x => mkTaskSubmissionSpec (name_ x) (module_ x) (args_ x) (inputs_ x) (outputs_ x) (required_capabilities_ x) (h (attribute_timeout_ x)) (spec_priority_ x) (write_context_hash_ x) (vars_ x) (owner_db_path_ x).
Arguments set_attribute_timeout_TaskSubmissionSpec h x /.
#[export] Instance set_spec_priority_TaskSubmissionSpec : Setter spec_priority_ :=
  fun h x => mkTaskSubmissionSpec (name_ x) (module_ x) (args_ x) (inputs_ x) (outputs_ x) (required_capabilities_ x) (attribute_timeout_ x) (h (spec_priority_ x)) (write_context_hash_ x) (vars_ x) (owner_db_path_ x).
Arguments set_spec_priority_TaskSubmissionSpec h x /.
#[export] Instance set_write_context_hash_TaskSubmissionSpec : Setter write_context_hash_ :=
  fun h x => mkTaskSubmissionSpec (name_ x) (module_ x) (args_ x) (inputs_ x) (outputs_ x) (required_capabilities_ x) (attribute_timeout_ x) (spec_priority_ x) (h (write_context_hash_ x)) (vars_ x) (owner_db_path_ x).
Arguments set_write_context_hash_TaskSubmissionSpec h x /.
#[export] Instance set_vars_TaskSubmissionSpec : Setter vars_ :=
  fun h x => mkTaskSubmissionSpec (name_ x) (module_ x) (args_ x) (inputs_ x) (outputs_ x) (required_capabilities_ x) (attribute_timeout_ x) (spec_priority_ x) (write_context_hash_ x) (h (vars_ x)) (owner_db_path_ x).
Arguments set_vars_TaskSubmissionSpec h x /.
#[export] Instance set_owner_db_path_TaskSubmissionSpec : Setter owner_db_path_ :=
  fun h x => mkTaskSubmissionSpec (name_ x) (module_ x) (args_ x) (inputs_ x) (outputs_ x) (required_capabilities_ x) (attribute_timeout_ x) (spec_priority_ x) (write_context_hash_ x) (vars_ x) (h (owner_db_path_ x)).
Arguments set_owner_db_path_TaskSubmissionSpec h x /.

Record TaskMetadata := mkTaskMetadata {
  task_id_ : N;
  submission_ : TaskSubmissionSpec;
  status_ : TaskStatus;
  config_ : string;
  created_at_ : Z;
  started_at_ : Z;
  completed_at_ : Z;
  error_message_ : string;
  assigned_worker_id_ : N
}.

#[export] Instance set_task_id_TaskMetadata : Setter task_id_ :=
  fun h x => mkTaskMetadata (h (task_id_ x)) (submission_ x) (status_ x) (config_ x) (created_at_ x) (started_at_ x) (completed_at_ x) (error_message_ x) (assigned_worker_id_ x).
Arguments set_task_id_TaskMetadata h x /.
#[export] Instance set_submission_TaskMetadata : Setter submission_ :=
  fun h x => mkTaskMetadata (task_id_ x) (h (submission_ x)) (status_ x) (config_ x) (created_at_ x) (started_at_ x) (completed_at_ x) (error_message_ x) (assigned_worker_id_ x).
Arguments set_submission_TaskMetadata h x /.
#[export] Instance set_status_TaskMetadata : Setter status_ :=
  fun h x => mkTaskMetadata (task_id_ x) (submission_ x) (h (status_ x)) (config_ x) (created_at_ x) (started_at_ x) (completed_at_ x) (error_message_ x) (assigned_worker_id_ x).
Arguments set_status_TaskMetadata h x /.
#[export] Instance set_config_TaskMetadata : Setter config_ :=
  fun h x => mkTaskMetadata (task_id_ x) (submission_ x) (status_ x) (h (config_ x)) (created_at_ x) (started_at_ x) (completed_at_ x) (error_message_ x) (assigned_worker_id_ x).
Arguments set_config_TaskMetadata h x /.
#[export] Instance set_created_at_TaskMetadata : Setter created_at_ :=
  fun h x => mkTaskMetadata (task_id_ x) (submission_ x) (status_ x) (config_ x) (h (created_at_ x)) (started_at_ x) (completed_at_ x) (error_message_ x) (assigned_worker_id_ x).
Arguments set_created_at_TaskMetadata h x /.
#[export] Instance set_started_at_TaskMetadata : Setter started_at_ :=
  fun h x => mkTaskMetadata (task_id_ x) (submission_ x) (status_ x) (config_ x) (created_at_ x) (h (started_at_ x)) (completed_at_ x) (error_message_ x) (assigned_worker_id_ x).
Arguments set_started_at_TaskMetadata h x /.
#[export] Instance set_completed_at_TaskMetadata : Setter completed_at_ :=
  fun h x => mkTaskMetadata (task_id_ x) (submission_ x) (status_ x) (config_ x) (created_at_ x) (started_at_ x) (h (completed_at_ x)) (error_message_ x) (assigned_worker_id_ x).
Arguments set_completed_at_TaskMetadata h x /.
#[export] Instance set_error_message_TaskMetadata : Setter error_message_ :=
  fun h x => mkTaskMetadata (task_id_ x) (submission_ x) (status_ x) (config_ x) (created_at_ x) (started_at_ x) (completed_at_ x) (h (error_message_ x)) (assigned_worker_id_ x).
Arguments set_error_message_TaskMetadata h x /.
#[export] Instance set_assigned_worker_id_TaskMetadata : Setter assigned_worker_id_ :=
  fun h x => mkTaskMetadata (task_id_ x) (submission_ x) (status_ x) (config_ x) (created_at_ x) (started_at_ x) (completed_at_ x) (error_message_ x) (h (assigned_worker_id_ x)).
Arguments set_assigned_worker_id_TaskMetadata h x /.

(** [TaskManager]: the five maps of the array [buckets_], one per status, and
    the index from task id to current status. *)
Record TaskManager := mkTaskManager {
  bucket_pending : gmap N TaskMetadata;
  bucket_running : gmap N TaskMetadata;
  bucket_completed : gmap N TaskMetadata;
  bucket_failed : gmap N TaskMetadata;
  bucket_cancelled : gmap N TaskMetadata;
  task_status_ : gmap N TaskStatus
}.

#[export] Instance set_bucket_pending_TaskManager : Setter bucket_pending :=
  fun h x => mkTaskManager (h (bucket_pending x)) (bucket_running x) (bucket_completed x) (bucket_failed x) (bucket_cancelled x) (task_status_ x).
Arguments set_bucket_pending_TaskManager h x /.
#[export] Instance set_bucket_running_TaskManager : Setter bucket_running :=
  fun h x => mkTaskManager (bucket_pending x) (h (bucket_running x)) (bucket_completed x) (bucket_failed x) (bucket_cancelled x) (task_status_ x).
Arguments set_bucket_running_TaskManager h x /.
#[export] Instance set_bucket_completed_TaskManager : Setter bucket_completed :=
  fun h x => mkTaskManager (bucket_pending x) (bucket_running x) (h (bucket_completed x)) (bucket_failed x) (bucket_cancelled x) (task_status_ x).
Arguments set_bucket_completed_TaskManager h x /.
#[export] Instance set_bucket_failed_TaskManager : Setter bucket_failed :=
  fun h x => mkTaskManager (bucket_pending x) (bucket_running x) (bucket_completed x) (h (bucket_failed x)) (bucket_cancelled x) (task_status_ x).
Arguments set_bucket_failed_TaskManager h x /.
#[export] Instance set_bucket_cancelled_TaskManager : Setter bucket_cancelled :=
  fun h x => mkTaskManager (bucket_pending x) (bucket_running x) (bucket_completed x) (bucket_failed x) (h (bucket_cancelled x)) (task_status_ x).
Arguments set_bucket_cancelled_TaskManager h x /.
#[export] Instance set_task_status_TaskManager : Setter task_status_ :=
  fun h x => mkTaskManager (bucket_pending x) (bucket_running x) (bucket_completed x) (bucket_failed x) (bucket_cancelled x) (h (task_status_ x)).
Arguments set_task_status_TaskManager h x /.

Definition empty_manager : TaskManager := mkTaskManager ∅ ∅ ∅ ∅ ∅ ∅.

(** [buckets_[si(s)]] *)
Definition bucket (s : TaskStatus) (m : TaskManager) : gmap N TaskMetadata :=
  match s with
  | PENDING => bucket_pending m
  | RUNNING => bucket_running m
  | COMPLETED => bucket_completed m
  | FAILED => bucket_failed m
  | CANCELLED => bucket_cancelled m
  end.

Definition set_bucket (s : TaskStatus) (b : gmap N TaskMetadata) (m : TaskManager) : TaskManager :=
  match s with
  | PENDING => m <| bucket_pending := b |>
  | RUNNING => m <| bucket_running := b |>
  | COMPLETED => m <| bucket_completed := b |>
  | FAILED => m <| bucket_failed := b |>
  | CANCELLED => m <| bucket_cancelled := b |>
  end.

(** ** Internal helpers *)

Definition move_task (task_id : N) (from to : TaskStatus) (m : TaskManager) : TaskManager :=
  if decide (from = to) then m
  else
    match bucket from m !! task_id with
    | None => m
    | Some meta =>
        let m := set_bucket from (delete task_id (bucket from m)) m in
        let m := set_bucket to (<[task_id := meta <| status_ := to |>]> (bucket to m)) m in
        m <| task_status_ ::= <[task_id := to]> |>
    end.

(** Number of finished tasks kept. *)
Definition terminal_count (m : TaskManager) : nat :=
  (size (bucket COMPLETED m) + size (bucket FAILED m))%nat.

(** [(task_id, completed_at)] of the finished tasks. *)
Definition terminal_entries (m : TaskManager) : list (N * Z) :=
  ((fun e => (e.1, completed_at_ e.2)) <$> map_to_list (bucket COMPLETED m)) ++
  ((fun e => (e.1, completed_at_ e.2)) <$> map_to_list (bucket FAILED m)).

Definition older (a b : N * Z) : Prop := (a.2 <= b.2)%Z.
#[export] Instance older_dec : RelDecision older.
Proof. intros a b. unfold older. apply _. Defined.
#[export] Instance older_trans : Transitive older.
Proof. intros ???. unfold older. lia. Qed.
#[export] Instance older_total : Total older.
Proof. intros ??. unfold older. lia. Qed.

(** Erase a task from the bucket of its status and from the status index. *)
Definition erase_task (task_id : N) (m : TaskManager) : TaskManager :=
  match task_status_ m !! task_id with
  | None => m
  | Some st =>
      set_bucket st (delete task_id (bucket st m)) m <| task_status_ ::= delete task_id |>
  end.

Definition maybe_cleanup_completed (m : TaskManager) : TaskManager :=
  let terminal := terminal_count m in
  if decide (terminal <= kMaxCompletedTasks)%nat then m
  else
    let to_remove := merge_sort older (terminal_entries m) in
    let excess := (terminal - kMaxCompletedTasks)%nat in
    foldl (fun m e => erase_task e.1 m) m (take excess to_remove).

(** ** Mutators *)

(** [create_task]; [None] is the abort on a duplicate task id. *)
Definition create_task (now_ms : Z) (task_id : N) (spec : TaskSubmissionSpec) (config : string)
    (m : TaskManager) : option TaskManager :=
  match task_status_ m !! task_id with
  | Some _ => None
  | None =>
      let meta := mkTaskMetadata task_id spec PENDING config now_ms 0 0 "" 0 in
      Some (set_bucket PENDING (<[task_id := meta]> (bucket PENDING m)) m
              <| task_status_ ::= <[task_id := PENDING]> |>)
  end.

(** Apply [f] to the metadata of a task in place; nothing happens for an unknown
    task. *)
Definition update_meta (task_id : N) (f : TaskMetadata -> TaskMetadata) (m : TaskManager) :
    TaskManager :=
  match task_status_ m !! task_id with
  | None => m
  | Some st => set_bucket st (alter f task_id (bucket st m)) m
  end.

Definition is_terminal (s : TaskStatus) : bool :=
  match s with COMPLETED | FAILED => true | _ => false end.

Definition update_task_status (now_ms : Z) (task_id : N) (status : TaskStatus) (m : TaskManager) :
    TaskManager :=
  match task_status_ m !! task_id with
  | None => m
  | Some old =>
      if decide (old = status) then m
      else
        match bucket old m !! task_id with
        | None => m
        | Some meta =>
            let meta := if decide (status = RUNNING /\ started_at_ meta = 0%Z)
                        then meta <| started_at_ := now_ms |> else meta in
            let meta := if is_terminal status then meta <| completed_at_ := now_ms |> else meta in
            let m := set_bucket old (<[task_id := meta]> (bucket old m)) m in
            let m := move_task task_id old status m in
            if is_terminal status then maybe_cleanup_completed m else m
        end
  end.

Definition set_error (task_id : N) (error : string) : TaskManager -> TaskManager :=
  update_meta task_id (fun e => e <| error_message_ := error |>).

Definition set_assigned_worker (task_id worker_id : N) : TaskManager -> TaskManager :=
  update_meta task_id (fun e => e <| assigned_worker_id_ := worker_id |>).

Definition set_timestamps (task_id : N) (created started completed : Z) :
    TaskManager -> TaskManager :=
  update_meta task_id (fun e =>
    let e := if decide (created <> 0%Z) then e <| created_at_ := created |> else e in
    let e := if decide (started <> 0%Z) then e <| started_at_ := started |> else e in
    if decide (completed <> 0%Z) then e <| completed_at_ := completed |> else e).

Definition set_write_context_hash (task_id : N) (hash : string) : TaskManager -> TaskManager :=
  update_meta task_id (fun e => e <| submission_ ::= fun s => s <| write_context_hash_ := hash |> |>).

Definition fail_task (now_ms : Z) (task_id : N) (error : string) (m : TaskManager) : TaskManager :=
  match task_status_ m !! task_id with
  | None => m
  | Some FAILED =>
      set_bucket FAILED (alter (fun e => e <| error_message_ := error |>) task_id (bucket FAILED m)) m
  | Some old =>
      match bucket old m !! task_id with
      | None => m
      | Some meta =>
          let meta := meta <| error_message_ := error |> <| completed_at_ := now_ms |> in
          let m := set_bucket old (<[task_id := meta]> (bucket old m)) m in
          maybe_cleanup_completed (move_task task_id old FAILED m)
      end
  end.

Definition assign_task (now_ms : Z) (task_id worker_id : N) (m : TaskManager) : TaskManager :=
  match task_status_ m !! task_id with
  | None => m
  | Some old =>
      match bucket old m !! task_id with
      | None => m
      | Some meta =>
          let meta := meta <| assigned_worker_id_ := worker_id |> in
          let meta := if decide (started_at_ meta = 0%Z) then meta <| started_at_ := now_ms |>
                      else meta in
          let m := set_bucket old (<[task_id := meta]> (bucket old m)) m in
          move_task task_id old RUNNING m
      end
  end.

Definition unassign_task (task_id : N) (m : TaskManager) : TaskManager :=
  match task_status_ m !! task_id with
  | None => m
  | Some old =>
      match bucket old m !! task_id with
      | None => m
      | Some meta =>
          let m := set_bucket old
            (<[task_id := meta <| assigned_worker_id_ := 0%N |>]> (bucket old m)) m in
          move_task task_id old PENDING m
      end
  end.

Definition remove_task (task_id : N) (m : TaskManager) : TaskManager := erase_task task_id m.

(** ** Queries *)

Definition get_task (task_id : N) (m : TaskManager) : option TaskMetadata :=
  match task_status_ m !! task_id with
  | None => None
  | Some st => bucket st m !! task_id
  end.

Definition get_tasks_by_status (s : TaskStatus) (m : TaskManager) : list TaskMetadata :=
  (map_to_list (bucket s m)).*2.

Definition get_all_tasks (m : TaskManager) : list TaskMetadata :=
  concat ((fun s => get_tasks_by_status s m) <$> [PENDING; RUNNING; COMPLETED; FAILED; CANCELLED]).

Definition has_tasks_with_status (s : TaskStatus) (m : TaskManager) : bool :=
  negb (bool_decide (bucket s m = ∅)).

Definition count_tasks_by_status (s : TaskStatus) (m : TaskManager) : nat := size (bucket s m).

Definition get_task_ids_by_status (s : TaskStatus) (m : TaskManager) : list N :=
  (map_to_list (bucket s m)).*1.

Definition get_task_ids_by_worker (worker_id : N) (m : TaskManager) : list N :=
  (filter (fun e => assigned_worker_id_ e.2 = worker_id) (map_to_list (bucket RUNNING m))).*1.

Definition has_task (task_id : N) (m : TaskManager) : bool :=
  bool_decide (is_Some (task_status_ m !! task_id)).

(** ** The invariant *)

Lemma bucket_set s s' b m : bucket s' (set_bucket s b m) = if decide (s' = s) then b else bucket s' m.
Proof. by destruct s, s'. Qed.

Lemma bucket_set_eq s b m : bucket s (set_bucket s b m) = b.
Proof. by destruct s. Qed.

Lemma task_status_set_bucket s b m : task_status_ (set_bucket s b m) = task_status_ m.
Proof. by destruct s. Qed.

Lemma bucket_status s f m : bucket s (m <| task_status_ ::= f |>) = bucket s m.
Proof. by destruct s. Qed.

#[export] Hint Rewrite bucket_set task_status_set_bucket bucket_status : task_manager.

(** A task is in the bucket of its recorded status and in no other, and its
    metadata carries its own id and that status. *)
Record tm_wf (m : TaskManager) : Prop := {
  wf_bucket : forall s t e, bucket s m !! t = Some e ->
      task_status_ m !! t = Some s /\ status_ e = s /\ task_id_ e = t;
  wf_status : forall t s, task_status_ m !! t = Some s -> is_Some (bucket s m !! t)
}.

Lemma empty_manager_wf : tm_wf empty_manager.
Proof. split; [by intros [] | done]. Qed.

Lemma get_task_bucket m t e :
  tm_wf m -> get_task t m = Some e <-> bucket (status_ e) m !! t = Some e.
Proof.
  intros Hwf. unfold get_task. split.
  - destruct (task_status_ m !! t) as [s|]; [|done]. intros He.
    by destruct (wf_bucket m Hwf _ _ _ He) as (_ & -> & _).
  - intros He. by destruct (wf_bucket m Hwf _ _ _ He) as (-> & _ & _).
Qed.

Lemma get_task_known m t s :
  tm_wf m -> task_status_ m !! t = Some s ->
  exists e, get_task t m = Some e /\ bucket s m !! t = Some e /\ status_ e = s /\ task_id_ e = t.
Proof.
  intros Hwf Hs. destruct (wf_status m Hwf t s Hs) as [e He]. exists e.
  unfold get_task. rewrite Hs. destruct (wf_bucket m Hwf _ _ _ He) as (_ & ? & ?). auto.
Qed.

Lemma get_task_unknown m t : task_status_ m !! t = None -> get_task t m = None.
Proof. unfold get_task. by intros ->. Qed.

(** ** Moving a task between buckets *)

(** Store [e] under [t] in the bucket [old] and then move it to [to], as the
    status changing operations do. *)
Definition store_and_move (t : N) (e : TaskMetadata) (old to : TaskStatus) (m : TaskManager) :
    TaskManager :=
  move_task t old to (set_bucket old (<[t := e]> (bucket old m)) m).

Lemma store_and_move_bucket t e old to m s u :
  bucket s (store_and_move t e old to m) !! u =
    if decide (u = t) then
      if decide (s = to) then Some (if decide (old = to) then e else e <| status_ := to |>)
      else if decide (s = old) then None else bucket s m !! u
    else bucket s m !! u.
Proof.
  unfold store_and_move, move_task. case_decide as Eot.
  - subst. rewrite bucket_set. repeat case_decide; subst;
      rewrite ?lookup_insert_eq, ?lookup_insert_ne by done; done.
  - rewrite bucket_set_eq, lookup_insert_eq. autorewrite with task_manager.
    repeat case_decide; subst; try done;
      rewrite ?lookup_insert_eq, ?lookup_insert_ne, ?lookup_delete_eq, ?lookup_delete_ne,
        ?lookup_insert_ne by done; done.
Qed.

Lemma store_and_move_status t e old to m :
  task_status_ m !! t = Some old ->
  task_status_ (store_and_move t e old to m) = <[t := to]> (task_status_ m).
Proof.
  intros Hs. unfold store_and_move, move_task. case_decide as E.
  - subst. rewrite task_status_set_bucket. symmetry. by apply insert_id.
  - rewrite bucket_set_eq, lookup_insert_eq. cbn. by rewrite !task_status_set_bucket.
Qed.

Lemma store_and_move_wf t e old to m :
  tm_wf m -> task_status_ m !! t = Some old -> status_ e = old -> task_id_ e = t ->
  tm_wf (store_and_move t e old to m).
Proof.
  intros Hwf Hs He Ht. split.
  - intros s u e'. rewrite store_and_move_bucket, store_and_move_status by done.
    destruct (decide (u = t)) as [->|Hne]; [rewrite lookup_insert_eq|rewrite lookup_insert_ne by done].
    + destruct (decide (s = to)) as [->|Hst].
      * intros [= <-]. case_decide; subst; done.
      * case_decide as Eo; [done|]. intros He'.
        destruct (wf_bucket m Hwf _ _ _ He') as (Hs' & _ & _). congruence.
    + apply (wf_bucket m Hwf).
  - intros u s. rewrite store_and_move_bucket, store_and_move_status by done.
    destruct (decide (u = t)) as [->|Hne]; [rewrite lookup_insert_eq|rewrite lookup_insert_ne by done].
    + intros [= <-]. rewrite decide_True by done. by eexists.
    + apply (wf_status m Hwf).
Qed.

Lemma store_and_move_get t e old to m u :
  tm_wf m -> task_status_ m !! t = Some old -> status_ e = old ->
  get_task u (store_and_move t e old to m) =
    if decide (u = t) then Some (e <| status_ := to |>) else get_task u m.
Proof.
  intros Hwf Hs He. unfold get_task. rewrite store_and_move_status by done.
  destruct (decide (u = t)) as [->|Hne]; [rewrite lookup_insert_eq|rewrite lookup_insert_ne by done].
  - rewrite store_and_move_bucket, !decide_True by done. case_decide; [|done]. subst.
    f_equal. by destruct e.
  - destruct (task_status_ m !! u); [|done]. by rewrite store_and_move_bucket, decide_False.
Qed.

(** ** Erasing *)

Lemma erase_task_bucket t m s u :
  tm_wf m -> bucket s (erase_task t m) !! u = if decide (u = t) then None else bucket s m !! u.
Proof.
  intros Hwf. unfold erase_task. destruct (task_status_ m !! t) as [st|] eqn:E.
  - autorewrite with task_manager. repeat case_decide; subst;
      rewrite ?lookup_delete_eq, ?lookup_delete_ne by done; try done.
    destruct (bucket s m !! t) as [e|] eqn:Ee; [|done].
    destruct (wf_bucket m Hwf _ _ _ Ee) as (Hs & _ & _). congruence.
  - case_decide; [|done]. subst. destruct (bucket s m !! t) as [e|] eqn:Ee; [|done].
    destruct (wf_bucket m Hwf _ _ _ Ee) as (Hs & _ & _). congruence.
Qed.

Lemma erase_task_status t m : task_status_ (erase_task t m) = delete t (task_status_ m).
Proof.
  unfold erase_task. destruct (task_status_ m !! t) as [st|] eqn:E; cbn.
  - by rewrite task_status_set_bucket.
  - by rewrite delete_id.
Qed.

Lemma erase_task_wf t m : tm_wf m -> tm_wf (erase_task t m).
Proof.
  intros Hwf. split.
  - intros s u e. rewrite erase_task_bucket, erase_task_status by done. case_decide; [done|].
    rewrite lookup_delete_ne by done. apply (wf_bucket m Hwf).
  - intros u s. rewrite erase_task_bucket, erase_task_status by done. rewrite lookup_delete.
    repeat case_decide; subst; try done. apply (wf_status m Hwf).
Qed.

Lemma erase_task_get t m u :
  tm_wf m -> get_task u (erase_task t m) = if decide (u = t) then None else get_task u m.
Proof.
  intros Hwf. unfold get_task. rewrite erase_task_status, lookup_delete.
  repeat case_decide; subst; try done. destruct (task_status_ m !! u) as [s|]; [|done].
  by rewrite erase_task_bucket, decide_False.
Qed.

Lemma erase_bucket_map t m s : tm_wf m -> bucket s (erase_task t m) = delete t (bucket s m).
Proof.
  intros Hwf. apply map_eq. intros u. rewrite erase_task_bucket, lookup_delete by done.
  repeat case_decide; congruence.
Qed.

Definition terminal_task (t : N) (m : TaskManager) : Prop :=
  exists s, task_status_ m !! t = Some s /\ is_terminal s = true.

Lemma terminal_count_erase t m :
  tm_wf m -> terminal_task t m -> terminal_count m = S (terminal_count (erase_task t m)).
Proof.
  intros Hwf (s & Hs & Ht). unfold terminal_count. rewrite !erase_bucket_map by done.
  destruct (get_task_known m t s Hwf Hs) as (e & _ & He & _).
  assert (Hother : forall s', s' <> s -> bucket s' m !! t = None).
  { intros s' Hne. destruct (bucket s' m !! t) as [e'|] eqn:E; [|done].
    destruct (wf_bucket m Hwf _ _ _ E) as (? & _). congruence. }
  assert (Hpos : (0 < size (bucket s m))%nat).
  { destruct (size (bucket s m)) eqn:Esz; [|lia].
    apply map_size_empty_iff in Esz. by rewrite Esz in He. }
  destruct s; try done.
  - rewrite (map_size_delete_Some t (bucket COMPLETED m)), (delete_id (bucket FAILED m)) by eauto. lia.
  - rewrite (map_size_delete_Some t (bucket FAILED m)), (delete_id (bucket COMPLETED m)) by eauto. lia.
Qed.

Lemma erase_fold l m :
  tm_wf m -> NoDup l.*1 -> (forall e : N * Z, e ∈ l -> terminal_task e.1 m) ->
  let m' := foldl (fun m e => erase_task e.1 m) m l in
  tm_wf m' /\ terminal_count m = (length l + terminal_count m')%nat /\
  forall u, get_task u m' = if decide (u ∈ l.*1) then None else get_task u m.
Proof.
  revert m. induction l as [|[t c] l IH]; intros m Hwf Hnd Hall.
  { split; [done|]. split; [done|]. intros u. rewrite decide_False; [done|set_solver]. }
  cbn in *. apply NoDup_cons in Hnd as [Hnin Hnd].
  assert (Ht : terminal_task t m) by (apply (Hall (t, c)); left).
  destruct (IH (erase_task t m) (erase_task_wf t m Hwf) Hnd) as (Hwf' & Hcnt & Hget).
  { intros [t' c'] Hin. destruct (Hall (t', c')) as (s & Hs & Hts); [by right|]. exists s.
    cbn in *. split; [|done]. rewrite erase_task_status, lookup_delete_ne; [done|].
    intros <-. apply Hnin, list_elem_of_fmap. by exists (t, c'). }
  split; [done|]. split; [rewrite (terminal_count_erase t m) by done; lia|].
  intros u. rewrite Hget, erase_task_get by done.
  destruct (decide (u = t)) as [->|Hne].
  - rewrite (decide_True (P := t ∈ t :: l.*1)) by left. by case_decide.
  - destruct (decide (u ∈ l.*1)); [rewrite decide_True by (by right)|rewrite decide_False by set_solver]; done.
Qed.

Lemma elem_terminal_entries m t c :
  tm_wf m ->
  (t, c) ∈ terminal_entries m <->
  exists e, get_task t m = Some e /\ is_terminal (status_ e) = true /\ completed_at_ e = c.
Proof.
  intros Hwf. unfold terminal_entries. rewrite elem_of_app, !list_elem_of_fmap. split.
  - intros [([u e] & [= -> ->] & Hin)|([u e] & [= -> ->] & Hin)];
      apply elem_of_map_to_list in Hin; cbn; exists e;
      destruct (wf_bucket m Hwf _ _ _ Hin) as (_ & Hs & _);
      (split; [apply get_task_bucket; [done|by rewrite Hs] | by rewrite Hs]).
  - intros (e & He & Ht & <-). apply get_task_bucket in He; [|done].
    destruct (status_ e); try done; [left|right]; exists (t, e); by rewrite elem_of_map_to_list.
Qed.

Lemma terminal_entries_NoDup m : tm_wf m -> NoDup (terminal_entries m).*1.
Proof.
  intros Hwf. unfold terminal_entries. rewrite fmap_app, <- !list_fmap_compose.
  change (fst ∘ (fun e : N * TaskMetadata => (e.1, completed_at_ e.2))) with (@fst N TaskMetadata).
  apply NoDup_app. split; [apply NoDup_fst_map_to_list|]. split; [|apply NoDup_fst_map_to_list].
  intros t ([t1 e1] & -> & H1)%list_elem_of_fmap ([t2 e2] & Heq & H2)%list_elem_of_fmap.
  cbn in *. subst. apply elem_of_map_to_list, (wf_bucket m Hwf COMPLETED) in H1 as (H1 & _).
  apply elem_of_map_to_list, (wf_bucket m Hwf FAILED) in H2 as (H2 & _). congruence.
Qed.

Lemma length_terminal_entries m : length (terminal_entries m) = terminal_count m.
Proof. unfold terminal_entries, terminal_count. by rewrite length_app, !length_fmap, !length_map_to_list. Qed.

(** The finished tasks that [maybe_cleanup_completed] drops. *)
Definition evicted (m : TaskManager) : list (N * Z) :=
  take (terminal_count m - kMaxCompletedTasks) (merge_sort older (terminal_entries m)).

Lemma evicted_sub m e : e ∈ evicted m -> e ∈ terminal_entries m.
Proof.
  intros (i & Hi)%list_elem_of_lookup. apply (sort_elem older). unfold evicted in Hi.
  apply lookup_take_Some in Hi as [Hi _]. by apply list_elem_of_lookup_2 with i.
Qed.

Lemma sorted_entries_NoDup m : tm_wf m -> NoDup (merge_sort older (terminal_entries m)).*1.
Proof.
  intros Hwf. rewrite (merge_sort_Permutation older (terminal_entries m)).
  by apply terminal_entries_NoDup.
Qed.

Lemma cleanup_spec m :
  tm_wf m ->
  let m' := maybe_cleanup_completed m in
  tm_wf m' /\ terminal_count m' = Nat.min (terminal_count m) kMaxCompletedTasks /\
  forall u, get_task u m' = if decide (u ∈ (evicted m).*1) then None else get_task u m.
Proof.
  intros Hwf m'. subst m'. unfold maybe_cleanup_completed. case_decide as Hle.
  { split; [done|]. split; [lia|]. intros u. rewrite decide_False; [done|].
    unfold evicted. replace (terminal_count m - kMaxCompletedTasks)%nat with 0%nat by lia. set_solver. }
  fold (evicted m).
  destruct (erase_fold (evicted m) m) as (Hwf' & Hcnt & Hget); [done| | |].
  - apply (sublist_NoDup _ (merge_sort older (terminal_entries m)).*1).
    { by apply sorted_entries_NoDup. } apply fmap_sublist, sublist_take.
  - intros [t c] Hin%evicted_sub%elem_terminal_entries; [|done].
    destruct Hin as (e & He & Ht & _). exists (status_ e). split; [|done].
    apply get_task_bucket in He; [|done]. by destruct (wf_bucket m Hwf _ _ _ He).
  - split; [done|]. split; [|done].
    assert (length (evicted m) = terminal_count m - kMaxCompletedTasks)%nat.
    { unfold evicted. rewrite length_take, (sort_length older), length_terminal_entries. lia. }
    lia.
Qed.

(** ** The manager as a state machine *)

Inductive task_op :=
| TOpCreate (now : Z) (t : N) (spec : TaskSubmissionSpec) (config : string)
| TOpStatus (now : Z) (t : N) (s : TaskStatus)
| TOpError (t : N) (err : string)
| TOpWorker (t w : N)
| TOpTimestamps (t : N) (created started completed : Z)
| TOpHash (t : N) (hash : string)
| TOpFail (now : Z) (t : N) (err : string)
| TOpAssign (now : Z) (t w : N)
| TOpUnassign (t : N)
| TOpRemove (t : N).

Definition task_apply (op : task_op) (m : TaskManager) : option TaskManager :=
  match op with
  | TOpCreate now t spec cfg => create_task now t spec cfg m
  | TOpStatus now t s => Some (update_task_status now t s m)
  | TOpError t e => Some (set_error t e m)
  | TOpWorker t w => Some (set_assigned_worker t w m)
  | TOpTimestamps t a b c => Some (set_timestamps t a b c m)
  | TOpHash t h => Some (set_write_context_hash t h m)
  | TOpFail now t e => Some (fail_task now t e m)
  | TOpAssign now t w => Some (assign_task now t w m)
  | TOpUnassign t => Some (unassign_task t m)
  | TOpRemove t => Some (remove_task t m)
  end.

Inductive task_run : TaskManager -> list task_op -> TaskManager -> Prop :=
| task_run_nil m : task_run m [] m
| task_run_cons m op m' ops m'' :
    task_apply op m = Some m' -> task_run m' ops m'' -> task_run m (op :: ops) m''.

(** [f] changes neither the id nor the status of a task. *)
Definition keeps_identity (f : TaskMetadata -> TaskMetadata) : Prop :=
  forall e, task_id_ (f e) = task_id_ e /\ status_ (f e) = status_ e.

Lemma update_meta_bucket t f m s u :
  tm_wf m ->
  bucket s (update_meta t f m) !! u =
    if decide (u = t) then f <$> bucket s m !! u else bucket s m !! u.
Proof.
  intros Hwf. unfold update_meta. destruct (task_status_ m !! t) as [st|] eqn:E.
  - rewrite bucket_set. destruct (decide (s = st)) as [->|Hne].
    + rewrite lookup_alter. repeat case_decide; congruence.
    + case_decide; [|done]. subst. destruct (bucket s m !! t) as [e|] eqn:Ee; [|done].
      destruct (wf_bucket m Hwf _ _ _ Ee). congruence.
  - case_decide; [|done]. subst. destruct (bucket s m !! t) as [e|] eqn:Ee; [|done].
    destruct (wf_bucket m Hwf _ _ _ Ee). congruence.
Qed.

Lemma update_meta_status t f m : task_status_ (update_meta t f m) = task_status_ m.
Proof. unfold update_meta. destruct (_ !! t); [|done]. apply task_status_set_bucket. Qed.

Lemma update_meta_wf t f m : keeps_identity f -> tm_wf m -> tm_wf (update_meta t f m).
Proof.
  intros Hf Hwf. split.
  - intros s u e. rewrite update_meta_bucket, update_meta_status by done. case_decide; [|apply (wf_bucket m Hwf)].
    destruct (bucket s m !! u) as [e0|] eqn:E; [|done]. intros [= <-].
    destruct (Hf e0) as [-> ->]. by apply (wf_bucket m Hwf).
  - intros u s. rewrite update_meta_bucket, update_meta_status by done. intros Hs.
    destruct (wf_status m Hwf u s Hs) as [e ->]. case_decide; by eexists.
Qed.

Lemma alter_size (f : TaskMetadata -> TaskMetadata) t (b : gmap N TaskMetadata) :
  size (alter f t b) = size b.
Proof. by rewrite <- !size_dom, dom_alter_L. Qed.

Lemma update_meta_terminal t f m :
  tm_wf m -> terminal_count (update_meta t f m) = terminal_count m.
Proof.
  intros Hwf. unfold terminal_count, update_meta. destruct (_ !! t) as [st|]; [|done].
  rewrite !bucket_set. repeat case_decide; subst; by rewrite ?alter_size.
Qed.

Lemma create_task_wf now t spec cfg m m' :
  tm_wf m -> create_task now t spec cfg m = Some m' ->
  tm_wf m' /\ terminal_count m' = terminal_count m.
Proof.
  intros Hwf. unfold create_task. destruct (task_status_ m !! t) eqn:E; [done|].
  intros Heq. apply (inj Some) in Heq. subst m'. split; [split|].
  - intros s u e. rewrite bucket_status, bucket_set. cbn [task_status_ set_field set_task_status_TaskManager].
    rewrite ?task_status_set_bucket. cbn.
    destruct (decide (u = t)) as [->|Hne];
      [rewrite lookup_insert_eq|rewrite lookup_insert_ne by done].
    + case_decide; subst; [rewrite lookup_insert_eq; by intros [= <-]|].
      intros He. destruct (wf_bucket m Hwf _ _ _ He). congruence.
    + case_decide; subst; [rewrite lookup_insert_ne by done; apply (wf_bucket m Hwf PENDING)|].
      apply (wf_bucket m Hwf).
  - intros u s. rewrite bucket_status, bucket_set. cbn [task_status_ set_field set_task_status_TaskManager].
    rewrite ?task_status_set_bucket. cbn.
    destruct (decide (u = t)) as [->|Hne];
      [rewrite lookup_insert_eq|rewrite lookup_insert_ne by done].
    + intros [= <-]. rewrite decide_True, lookup_insert_eq by done. by eexists.
    + intros Hs. pose proof (wf_status m Hwf u s Hs) as H. case_decide; subst; [|done].
      rewrite lookup_insert_ne by done. exact H.
  - unfold terminal_count. by rewrite !bucket_status, !bucket_set.
Qed.

Lemma size_insert_le {A} (m : gmap N A) t x : (size (<[t:=x]> m) <= S (size m))%nat.
Proof. rewrite map_size_insert. destruct (m !! t); cbn; lia. Qed.

(** The bucket a task is moved into grows by at most one, the others do not. *)
Lemma store_and_move_size t e old to m s :
  tm_wf m -> task_status_ m !! t = Some old ->
  (size (bucket s (store_and_move t e old to m)) <=
     size (bucket s m) + (if decide (s = to) then 1 else 0))%nat.
Proof.
  intros Hwf Hs. destruct (get_task_known m t old Hwf Hs) as (e0 & _ & He0 & _).
  unfold store_and_move, move_task. case_decide as E.
  - rewrite bucket_set. case_decide; subst; [|lia].
    rewrite map_size_insert, He0. cbn. lia.
  - rewrite bucket_set_eq, lookup_insert_eq. autorewrite with task_manager.
    repeat case_decide; subst; try done.
    + pose proof (size_insert_le (bucket to m) t (e <| status_ := to |>)). lia.
    + rewrite delete_insert_eq. rewrite map_size_delete, He0. cbn. lia.
    + lia.
Qed.

Lemma store_and_move_terminal t e old to m :
  tm_wf m -> task_status_ m !! t = Some old ->
  (terminal_count (store_and_move t e old to m) <=
     terminal_count m + (if is_terminal to then 1 else 0))%nat.
Proof.
  intros Hwf Hs. unfold terminal_count.
  pose proof (store_and_move_size t e old to m COMPLETED Hwf Hs).
  pose proof (store_and_move_size t e old to m FAILED Hwf Hs).
  destruct to; repeat case_decide; try discriminate; cbn [is_terminal]; lia.
Qed.

(** The status changing operations as one move of the task's updated metadata,
    followed by the clean-up when the task is finished. *)

Definition status_meta (now : Z) (s : TaskStatus) (e : TaskMetadata) : TaskMetadata :=
  let e := if decide (s = RUNNING /\ started_at_ e = 0%Z) then e <| started_at_ := now |> else e in
  if is_terminal s then e <| completed_at_ := now |> else e.

Definition finish (s : TaskStatus) (m : TaskManager) : TaskManager :=
  if is_terminal s then maybe_cleanup_completed m else m.

Lemma update_task_status_eq now t s m :
  tm_wf m ->
  update_task_status now t s m =
    match task_status_ m !! t, get_task t m with
    | Some old, Some e =>
        if decide (old = s) then m else finish s (store_and_move t (status_meta now s e) old s m)
    | _, _ => m
    end.
Proof.
  intros Hwf. unfold update_task_status, get_task.
  destruct (task_status_ m !! t) as [old|]; [|done].
  case_decide; [by destruct (_ !! t)|]. by destruct (bucket old m !! t).
Qed.

Definition assign_meta (now : Z) (w : N) (e : TaskMetadata) : TaskMetadata :=
  let e := e <| assigned_worker_id_ := w |> in
  if decide (started_at_ e = 0%Z) then e <| started_at_ := now |> else e.

Lemma assign_task_eq now t w m :
  assign_task now t w m =
    match task_status_ m !! t, get_task t m with
    | Some old, Some e => store_and_move t (assign_meta now w e) old RUNNING m
    | _, _ => m
    end.
Proof.
  unfold assign_task, get_task. destruct (task_status_ m !! t) as [old|]; [|done].
  by destruct (bucket old m !! t).
Qed.

Lemma unassign_task_eq t m :
  unassign_task t m =
    match task_status_ m !! t, get_task t m with
    | Some old, Some e => store_and_move t (e <| assigned_worker_id_ := 0%N |>) old PENDING m
    | _, _ => m
    end.
Proof.
  unfold unassign_task, get_task. destruct (task_status_ m !! t) as [old|]; [|done].
  by destruct (bucket old m !! t).
Qed.

Definition fail_meta (now : Z) (err : string) (e : TaskMetadata) : TaskMetadata :=
  e <| error_message_ := err |> <| completed_at_ := now |>.

Lemma fail_task_eq now t err m :
  tm_wf m ->
  fail_task now t err m =
    match task_status_ m !! t, get_task t m with
    | Some old, Some e =>
        if decide (old = FAILED) then update_meta t (fun e => e <| error_message_ := err |>) m
        else maybe_cleanup_completed (store_and_move t (fail_meta now err e) old FAILED m)
    | _, _ => m
    end.
Proof.
  intros Hwf. unfold fail_task, get_task, update_meta.
  destruct (task_status_ m !! t) as [old|] eqn:Es; [|done].
  destruct (wf_status m Hwf t old Es) as [e He]. rewrite He.
  destruct (decide (old = FAILED)) as [->|Hne]; [done|]. destruct old; done.
Qed.

Lemma finish_spec s m :
  tm_wf m -> (terminal_count m <= kMaxCompletedTasks + (if is_terminal s then 1 else 0))%nat ->
  tm_wf (finish s m) /\ (terminal_count (finish s m) <= kMaxCompletedTasks)%nat.
Proof.
  intros Hwf Hc. unfold finish. destruct (is_terminal s); [|split; [done|lia]].
  destruct (cleanup_spec m Hwf) as (? & -> & _). split; [done|lia].
Qed.

(** Reachable managers: well formed, with a bounded history. *)
Definition tm_inv (m : TaskManager) : Prop :=
  tm_wf m /\ (terminal_count m <= kMaxCompletedTasks)%nat.

Lemma store_and_finish_inv t e old to m :
  tm_inv m -> task_status_ m !! t = Some old -> status_ e = old -> task_id_ e = t ->
  tm_inv (finish to (store_and_move t e old to m)).
Proof.
  intros [Hwf Hc] Hs He Ht. pose proof (store_and_move_terminal t e old to m Hwf Hs).
  apply finish_spec; [by apply store_and_move_wf|lia].
Qed.

Lemma update_meta_inv t f m : keeps_identity f -> tm_inv m -> tm_inv (update_meta t f m).
Proof.
  intros Hf [Hwf Hc]. split; [by apply update_meta_wf|]. by rewrite update_meta_terminal.
Qed.

Lemma erase_task_inv t m : tm_inv m -> tm_inv (erase_task t m).
Proof.
  intros [Hwf Hc]. split; [by apply erase_task_wf|]. unfold terminal_count in *.
  rewrite !erase_bucket_map by done.
  pose proof (map_size_delete t (bucket COMPLETED m)) as H1.
  pose proof (map_size_delete t (bucket FAILED m)) as H2.
  destruct (bucket COMPLETED m !! t), (bucket FAILED m !! t); cbn [id] in *; lia.
Qed.

(** Cases on whether a task is known to a well-formed manager. *)
Ltac known_task m t Hwf :=
  let s := fresh "old" in let Es := fresh "Es" in
  destruct (task_status_ m !! t) as [s|] eqn:Es;
  [destruct (get_task_known m t s Hwf Es) as (e & Ege & Ebk & Est & Eid); rewrite ?Ege | try done].

Lemma task_apply_inv op m m' : task_apply op m = Some m' -> tm_inv m -> tm_inv m'.
Proof.
  intros Happ Hinv. pose proof (proj1 Hinv) as Hwf.
  destruct op as [now t spec cfg|now t s|t err|t w|t a b c|t h|now t err|now t w|t|t];
    cbn in Happ; try (injection Happ as <-).
  - destruct (create_task_wf _ _ _ _ _ _ Hwf Happ) as [? Hc]. destruct Hinv. split; [done|]. by rewrite Hc.
  - rewrite update_task_status_eq by done. known_task m t Hwf. case_decide; [done|].
    apply store_and_finish_inv; [done..| |]; unfold status_meta; by repeat (case_match || case_decide).
  - apply update_meta_inv; [|done]. by intros e.
  - apply update_meta_inv; [|done]. by intros e.
  - apply update_meta_inv; [|done]. intros e. cbn. by repeat case_decide.
  - apply update_meta_inv; [|done]. by intros e.
  - rewrite fail_task_eq by done. known_task m t Hwf. case_decide.
    + apply update_meta_inv; [|done]. by intros ?.
    + change (maybe_cleanup_completed ?x) with (finish FAILED x). by apply store_and_finish_inv.
  - rewrite assign_task_eq by done. known_task m t Hwf.
    change (store_and_move ?a ?b ?c ?d ?x) with (finish RUNNING (store_and_move a b c d x)).
    apply store_and_finish_inv; [done..| |]; unfold assign_meta; by case_decide.
  - rewrite unassign_task_eq by done. known_task m t Hwf.
    change (store_and_move ?a ?b ?c ?d ?x) with (finish PENDING (store_and_move a b c d x)).
    by apply store_and_finish_inv.
  - by apply erase_task_inv.
Qed.

Lemma task_run_inv m ops m' : task_run m ops m' -> tm_inv m -> tm_inv m'.
Proof. induction 1; eauto using task_apply_inv. Qed.

Lemma empty_manager_inv : tm_inv empty_manager.
Proof. split; [apply empty_manager_wf|]. vm_compute. lia. Qed.

(** ** Properties *)

Fixpoint run_task_ops (ops : list task_op) (m : TaskManager) : option TaskManager :=
  match ops with
  | [] => Some m
  | op :: ops => task_apply op m ≫= run_task_ops ops
  end.

Lemma run_task_ops_run ops m m' : run_task_ops ops m = Some m' -> task_run m ops m'.
Proof.
  revert m. induction ops as [|op ops IH]; cbn; intros m; [intros [= <-]; constructor|].
  destruct (task_apply op m) as [m1|] eqn:E; cbn; [|done]. intros. econstructor; eauto.
Qed.

Definition spec0 : TaskSubmissionSpec := mkTaskSubmissionSpec "t" "m" [] [] [] [] (-1)%Q 10 "" [] "".

(** C16: In every state reached from the empty manager, a task is in exactly one
    status bucket, the one its status index names, its metadata agrees with both,
    and at most [kMaxCompletedTasks] finished tasks are kept. *)
Theorem task_manager_invariant ops m :
  task_run empty_manager ops m ->
  tm_wf m /\
  (count_tasks_by_status COMPLETED m + count_tasks_by_status FAILED m <= kMaxCompletedTasks)%nat /\
  (forall t, has_task t m = true <-> is_Some (get_task t m)).
Proof.
  intros Hrun. destruct (task_run_inv _ _ _ Hrun empty_manager_inv) as [Hwf Hc].
  split; [done|]. split; [done|]. intros t. unfold has_task. rewrite bool_decide_eq_true.
  unfold get_task. split.
  - intros [s Hs]. rewrite Hs. by apply (wf_status m Hwf).
  - intros [e He]. destruct (task_status_ m !! t); [by eexists|done].
Qed.

Definition task_demo_ops : list task_op :=
  [TOpCreate 5 1 spec0 "{}"; TOpAssign 6 1 3; TOpUnassign 1; TOpAssign 8 1 4; TOpStatus 9 1 COMPLETED]%N.

Lemma task_manager_invariant_witness :
  exists m, run_task_ops task_demo_ops empty_manager = Some m /\ tm_wf m.
Proof.
  destruct (run_task_ops task_demo_ops empty_manager) as [m|] eqn:E; [|vm_compute in E; discriminate].
  exists m. split; [done|].
  apply (task_manager_invariant task_demo_ops m), run_task_ops_run, E.
Defined.

Lemma evicted_are_oldest m a b :
  tm_wf m -> a ∈ evicted m -> b ∈ terminal_entries m -> b.1 ∉ (evicted m).*1 -> (a.2 <= b.2)%Z.
Proof.
  intros Hwf Ha Hb Hn. pose proof (sort_strongly older (terminal_entries m)) as Hs.
  rewrite <- (take_drop (terminal_count m - kMaxCompletedTasks) (merge_sort older _)) in Hs.
  apply StronglySorted_app_inv in Hs as (_ & _ & Hle). apply (Hle a b Ha).
  apply (sort_elem older) in Hb. rewrite <- (take_drop (terminal_count m - kMaxCompletedTasks)
    (merge_sort older (terminal_entries m))) in Hb.
  apply elem_of_app in Hb as [Hb|Hb]; [|done]. exfalso. apply Hn, list_elem_of_fmap. eauto.
Qed.

(** The clean-up of the history drops exactly the surplus over
    [kMaxCompletedTasks], touches no task that is pending, running or cancelled,
    leaves the surviving tasks unchanged, and never drops a finished task while it
    keeps one that finished strictly earlier. *)
Theorem cleanup_drops_oldest m :
  tm_wf m ->
  let m' := maybe_cleanup_completed m in
  terminal_count m' = Nat.min (terminal_count m) kMaxCompletedTasks /\
  (forall t e, get_task t m = Some e -> get_task t m' = None -> is_terminal (status_ e) = true) /\
  (forall t e, get_task t m' = Some e -> get_task t m = Some e) /\
  (forall t e u e', get_task t m = Some e -> get_task t m' = None ->
     get_task u m' = Some e' -> is_terminal (status_ e') = true ->
     (completed_at_ e <= completed_at_ e')%Z).
Proof.
  intros Hwf m'. destruct (cleanup_spec m Hwf) as (Hwf' & Hcnt & Hget). fold m' in Hwf', Hcnt, Hget.
  assert (Hkept : forall t e, get_task t m' = Some e -> get_task t m = Some e /\ t ∉ (evicted m).*1).
  { intros t e. rewrite Hget. by case_decide. }
  assert (Hdrop : forall t e, get_task t m = Some e -> get_task t m' = None ->
    is_terminal (status_ e) = true /\ (t, completed_at_ e) ∈ evicted m).
  { intros t e He. rewrite Hget. case_decide as Hin; [|congruence]. intros _.
    apply list_elem_of_fmap in Hin as ([t' c] & -> & Hin).
    pose proof Hin as (e' & He' & Ht & Hc)%evicted_sub%elem_terminal_entries; [|done].
    cbn in *. simplify_eq. done. }
  split; [done|]. split; [|split].
  - intros t e He Hn. by destruct (Hdrop t e He Hn).
  - intros t e He. by apply Hkept.
  - intros t e u e' He Hn He' Ht'. destruct (Hdrop t e He Hn) as [_ Hin].
    destruct (Hkept u e' He') as [He'' Hnin].
    apply (evicted_are_oldest m (t, completed_at_ e) (u, completed_at_ e') Hwf Hin); [|done].
    apply elem_terminal_entries; eauto.
Qed.

Lemma cleanup_drops_oldest_witness :
  terminal_count (maybe_cleanup_completed empty_manager) = 0%nat.
Proof. apply (cleanup_drops_oldest empty_manager empty_manager_wf). Defined.

Lemma ids_by_worker_exact m w t :
  tm_wf m ->
  t ∈ get_task_ids_by_worker w m <->
  exists e, get_task t m = Some e /\ status_ e = RUNNING /\ assigned_worker_id_ e = w.
Proof.
  intros Hwf. unfold get_task_ids_by_worker. rewrite list_elem_of_fmap.
  setoid_rewrite list_elem_of_filter. split.
  - intros ([t' e] & -> & Hw & Hin%elem_of_map_to_list). cbn in *. exists e.
    pose proof (wf_bucket m Hwf RUNNING _ _ Hin) as (_ & Hs & _).
    split; [|done]. apply get_task_bucket; [done|]. by rewrite Hs.
  - intros (e & He & Hs & Hw). exists (t, e). rewrite elem_of_map_to_list.
    apply get_task_bucket in He; [|done]. by rewrite Hs in He.
Qed.

(** Dispatch and recovery of a task.  Assigning a known task makes it running
    on the given worker and listed for that worker, records its start time only
    the first time, and changes no other task; unassigning it afterwards makes it
    pending with no worker while the first start time is kept. *)
Theorem assign_then_unassign now t w m e :
  tm_wf m -> get_task t m = Some e ->
  let m1 := assign_task now t w m in
  let m2 := unassign_task t m1 in
  get_task t m1 = Some (assign_meta now w e <| status_ := RUNNING |>) /\
  t ∈ get_task_ids_by_worker w m1 /\
  get_task t m2 = Some (assign_meta now w e <| assigned_worker_id_ := 0%N |> <| status_ := PENDING |>) /\
  (forall u, u <> t -> get_task u m1 = get_task u m /\ get_task u m2 = get_task u m) /\
  tm_wf m1 /\ tm_wf m2.
Proof.
  intros Hwf He m1 m2.
  assert (exists old, task_status_ m !! t = Some old /\ status_ e = old /\ task_id_ e = t)
    as (old & Hs & Hst & Hid).
  { apply get_task_bucket in He; [|done]. destruct (wf_bucket m Hwf _ _ _ He) as (? & ? & ?). eauto. }
  set (e1 := assign_meta now w e).
  assert (He1 : status_ e1 = old /\ task_id_ e1 = t /\ assigned_worker_id_ e1 = w)
    by (unfold e1, assign_meta; by case_decide).
  destruct He1 as (Hs1 & Hi1 & Hw1).
  assert (Em1 : m1 = store_and_move t e1 old RUNNING m).
  { unfold m1. by rewrite assign_task_eq, Hs, He. }
  assert (Hwf1 : tm_wf m1) by (rewrite Em1; by apply store_and_move_wf).
  assert (Hg1 : forall u, get_task u m1 = if decide (u = t) then Some (e1 <| status_ := RUNNING |>)
    else get_task u m) by (intros u; rewrite Em1; by apply store_and_move_get).
  assert (Hst1 : task_status_ m1 !! t = Some RUNNING).
  { rewrite Em1, store_and_move_status by done. apply lookup_insert_eq. }
  assert (Em2 : m2 = store_and_move t (e1 <| status_ := RUNNING |> <| assigned_worker_id_ := 0%N |>)
    RUNNING PENDING m1).
  { unfold m2. rewrite unassign_task_eq, Hst1, Hg1, decide_True by done. done. }
  assert (Hg2 : forall u, get_task u m2 = if decide (u = t)
    then Some (e1 <| assigned_worker_id_ := 0%N |> <| status_ := PENDING |>) else get_task u m1).
  { intros u. rewrite Em2, store_and_move_get by done. reflexivity. }
  split; [by rewrite Hg1, decide_True|]. split.
  { apply ids_by_worker_exact; [done|]. eexists. rewrite Hg1, decide_True by done. done. }
  split; [by rewrite Hg2, decide_True|]. split.
  { intros u Hne. by rewrite Hg2, !Hg1, !decide_False. }
  split; [done|]. rewrite Em2. by apply store_and_move_wf.
Qed.

Lemma assign_then_unassign_witness :
  exists m, run_task_ops [TOpCreate 5 1 spec0 "{}"] empty_manager = Some m /\
    1%N ∈ get_task_ids_by_worker 3 (assign_task 6 1 3 m).
Proof.
  destruct (run_task_ops [TOpCreate 5 1 spec0 "{}"] empty_manager) as [m|] eqn:E;
    [|vm_compute in E; discriminate].
  exists m. split; [done|].
  pose proof (proj1 (task_run_inv _ _ _ (run_task_ops_run _ _ _ E) empty_manager_inv)) as Hwf.
  vm_compute in E. injection E as <-.
  eapply (assign_then_unassign 6 1 3 _ _ Hwf). vm_compute. reflexivity.
Defined.
