(* ===== verification/TaskScheduler.v ===== *)
(** The scheduler (src/task/cpp/task_scheduler.h and .cpp): it matches the ready
    tasks of the dependency graph with the idle workers of the worker manager by
    capability, data locality and, when allowed, degradation.

    The scheduler owns no state but the locality switch; [score_buf_] is refilled
    before every use and is a local value here.  The steady clock in nanoseconds
    is an argument. *)

From stdpp Require Import base gmap strings list sorting fin_maps.
From Stdlib Require Import ZArith QArith Lia.
From S2P Require Import Prelude DependencyGraph WorkerManager.

Record ScheduleResult := mkScheduleResult {
  task_id_ : N;
  result_worker_id_ : N;
  scheduled_ : bool;
  degraded_ : bool
}.

Definition not_scheduled : ScheduleResult := mkScheduleResult 0 0 false false.

Record TaskScheduler := mkTaskScheduler {
  graph_ : DependencyGraph;
  manager_ : workers;
  locality_enabled_ : bool
}.

Definition set_locality_preference (enabled : bool) (s : TaskScheduler) : TaskScheduler :=
  mkTaskScheduler (graph_ s) (manager_ s) enabled.

Definition locality_preference (s : TaskScheduler) : bool := locality_enabled_ s.

(** ** Scores *)

Definition ScoreEntry : Type := N * Z.

(** [score_desc_compare] as a total preorder: higher score first, then lower id. *)
Definition score_le (a b : ScoreEntry) : Prop := (b.2 < a.2)%Z \/ (a.2 = b.2 /\ (a.1 <= b.1)%N).
#[export] Instance score_le_dec : RelDecision score_le.
Proof. intros a b. unfold score_le. apply _. Defined.
#[export] Instance score_le_trans : Transitive score_le.
Proof. intros [] [] []. unfold score_le; cbn. lia. Qed.
#[export] Instance score_le_total : Total score_le.
Proof. intros [] []. unfold score_le; cbn. lia. Qed.
#[export] Instance score_le_antisymm : AntiSymm (=) score_le.
Proof. intros [] []. unfold score_le; cbn. intros. f_equal; lia. Qed.

Definition max_worker_id (all_workers : list WorkerInfo) : N :=
  foldl (fun mx w => if decide (mx < worker_id_ w)%N then worker_id_ w else mx) 0%N all_workers.

Definition compute_scores (task_id : N) (g : DependencyGraph) (m : workers) : list ScoreEntry :=
  let all_workers := get_all_workers m in
  let score_buf := replicate (N.to_nat (max_worker_id all_workers) + 1) (0%N, 0%Z) in
  let score_buf := foldl (fun b w => <[N.to_nat (worker_id_ w) := (worker_id_ w, 0%Z)]> b)
                     score_buf all_workers in
  foldl (fun b h => if decide (N.to_nat h.1 < length b)%nat
                    then alter (fun e => (e.1, h.2)) (N.to_nat h.1) b else b)
    score_buf (locality_hint_ (get_task_requirements task_id g)).

(** ** Selection *)

Definition capability_match_count (m : workers) (wid : N) (reqs : list string) : nat :=
  match get_worker wid m with
  | None => 0%nat
  | Some info => length (filter (fun req => req ∈ worker_capabilities_ info) reqs)
  end.

(** Phase A: the first worker with every capability ([inl]), or the best partial
    match and its count ([inr]); 0 when no worker matches anything. *)
Fixpoint phase_a (m : workers) (caps : list string) (idle : list N) (best : N) (count : nat) :
    N + N * nat :=
  match idle with
  | [] => inr (best, count)
  | wid :: idle =>
      let match_count := capability_match_count m wid caps in
      if decide (match_count = length caps) then inl wid
      else if decide (count < match_count)%nat then phase_a m caps idle wid match_count
      else phase_a m caps idle best count
  end.

(** The first entry of the sorted scores that is idle and good enough. *)
Definition first_entry (p : N -> bool) (scores : list ScoreEntry) : option N :=
  fst <$> List.find (fun e => p e.1) (merge_sort score_le scores).

Definition select_best_worker (locality : bool) (task_id : N) (allow_degrade : bool)
    (idle_workers : list N) (g : DependencyGraph) (m : workers) : N :=
  match idle_workers with
  | [] => 0%N
  | idle0 :: _ =>
      let caps := capabilities_ (get_task_requirements task_id g) in
      let scores := if locality then compute_scores task_id g m else [] in
      match caps with
      | [] =>
          match (if locality then first_entry (fun w => bool_decide (w ∈ idle_workers)) scores
                 else None) with
          | Some w => w
          | None => idle0
          end
      | _ :: _ =>
          match phase_a m caps idle_workers 0%N 0%nat with
          | inl wid => wid
          | inr (best_partial_worker, best_partial_count) =>
              match (if locality && (0 <? best_partial_count)%nat
                     then first_entry (fun w => bool_decide (w ∈ idle_workers) &&
                            (best_partial_count <=? capability_match_count m w caps)%nat) scores
                     else None) with
              | Some w => w
              | None =>
                  if allow_degrade
                  then if decide (best_partial_worker <> 0%N) then best_partial_worker else idle0
                  else 0%N
              end
          end
      end
  end.

(** ** Scheduling *)

(** Seconds elapsed on the steady clock, as a rational. *)
Definition elapsed (now ready_time : Z) : Q := (inject_Z (now - ready_time) / 1000000000)%Q.

Definition degrade_allowed (now : Z) (task_id : N) (g : DependencyGraph) : bool :=
  let timeout := timeout_seconds_ (get_task_requirements task_id g) in
  if Qle_bool 0 timeout then
    if Qeq_bool timeout 0 then true
    else
      match get_task_ready_timestamp task_id g with
      | Some ready_time => Qle_bool timeout (elapsed now ready_time)
      | None => false
      end
  else false.

Definition is_degraded (allow_degrade : bool) (task_id worker_id : N) (g : DependencyGraph)
    (m : workers) : bool :=
  let caps := capabilities_ (get_task_requirements task_id g) in
  match caps with
  | [] => false
  | _ => allow_degrade && bool_decide (is_Some (get_worker worker_id m)) &&
         (capability_match_count m worker_id caps <? length caps)%nat
  end.

(** The loop of [schedule_next] over the ready tasks. *)
Fixpoint schedule_loop (now : Z) (ready_tasks idle_workers : list N) (s : TaskScheduler) :
    ScheduleResult * TaskScheduler :=
  match ready_tasks with
  | [] => (not_scheduled, s)
  | task_id :: rest =>
      let allow_degrade := degrade_allowed now task_id (graph_ s) in
      let worker_id := select_best_worker (locality_enabled_ s) task_id allow_degrade idle_workers
                         (graph_ s) (manager_ s) in
      if decide (worker_id = 0%N) then schedule_loop now rest idle_workers s
      else
        let degraded := is_degraded allow_degrade task_id worker_id (graph_ s) (manager_ s) in
        (mkScheduleResult task_id worker_id true degraded,
         mkTaskScheduler (remove_task task_id (graph_ s))
           (assign_task worker_id task_id (manager_ s)) (locality_enabled_ s))
  end.

Definition schedule_next (now : Z) (s : TaskScheduler) : ScheduleResult * TaskScheduler :=
  match get_ready_tasks (graph_ s) with
  | [] => (not_scheduled, s)
  | ready_tasks =>
      match get_idle_workers (manager_ s) with
      | [] => (not_scheduled, s)
      | idle_workers => schedule_loop now ready_tasks idle_workers s
      end
  end.

(** The loop of [schedule_all_available]: [nows] are the successive readings of
    the clock; [None] when the fuel runs out. *)
Fixpoint schedule_all_loop (fuel : nat) (nows : nat -> Z) (s : TaskScheduler) :
    option (list ScheduleResult * TaskScheduler) :=
  match fuel with
  | O => None
  | S fuel =>
      let '(result, s') := schedule_next (nows 0%nat) s in
      if scheduled_ result then
        '(results, s'') ← schedule_all_loop fuel (fun k => nows (S k)) s';
        Some (result :: results, s'')
      else Some ([], s')
  end.

(** One round per ready task, and the last one that finds nothing. *)
Definition schedule_all_available (nows : nat -> Z) (s : TaskScheduler) :
    option (list ScheduleResult * TaskScheduler) :=
  schedule_all_loop (S (length (get_ready_tasks (graph_ s)))) nows s.

(** ** The selection phases *)

Lemma match_count_le m w caps : (capability_match_count m w caps <= length caps)%nat.
Proof. unfold capability_match_count. destruct (get_worker w m); [apply length_filter|lia]. Qed.

Lemma phase_a_full m caps idle best count w :
  phase_a m caps idle best count = inl w ->
  w ∈ idle /\ capability_match_count m w caps = length caps.
Proof.
  revert best count. induction idle as [|v idle IH]; intros best count; cbn; [done|].
  case_decide; [intros [= ->]; split; [left|done]|].
  case_decide; intros [? ?]%IH; (split; [by right|done]).
Qed.

Lemma phase_a_partial m caps idle best count b c :
  phase_a m caps idle best count = inr (b, c) ->
  (forall w, w ∈ idle -> capability_match_count m w caps <= c /\
     capability_match_count m w caps < length caps)%nat /\
  (count <= c)%nat /\
  ((b = best /\ c = count) \/ (b ∈ idle /\ capability_match_count m b caps = c)).
Proof.
  revert best count. induction idle as [|v idle IH]; intros best count; cbn.
  { intros [= -> ->]. split; [set_solver|]. auto with lia. }
  pose proof (match_count_le m v caps) as Hv.
  case_decide; [done|]. case_decide; intros (Ha & Hb & Hc)%IH.
  - split; [intros w [->|Hw]%elem_of_cons; [lia|auto]|]. split; [lia|].
    destruct Hc as [[-> ->]|[? ?]]; right; split; try done; [left|by right].
  - split; [intros w [->|Hw]%elem_of_cons; [lia|auto]|]. split; [lia|].
    destruct Hc as [?|[? ?]]; [by left|right]. split; [by right|done].
Qed.

Lemma first_entry_Some p scores w :
  first_entry p scores = Some w ->
  p w = true /\ exists sc, (w, sc) ∈ scores /\
    forall e, e ∈ scores -> p e.1 = true -> score_le (w, sc) e.
Proof.
  unfold first_entry. intros ([w' sc] & Hf & ->)%fmap_Some.
  assert (Hin : forall e, e ∈ scores <-> e ∈ merge_sort score_le scores)
    by (intros; by rewrite (sort_elem score_le)).
  pose proof (sort_strongly score_le scores) as Hs. setoid_rewrite Hin. clear Hin.
  induction (merge_sort score_le scores) as [|e l IH]; cbn in Hf; [done|].
  apply StronglySorted_inv in Hs as [Hs Hall]. destruct (p e.1) eqn:Ep.
  - injection Hf as ->. split; [done|]. exists sc. split; [left|].
    intros e [->|He]%elem_of_cons _; [right; done|]. rewrite Forall_forall in Hall. by apply Hall.
  - destruct (IH Hf Hs) as (Hp & sc' & Hin & Hle). split; [done|]. exists sc'. split; [by right|].
    intros e' [->|He']%elem_of_cons; [congruence|]. by apply Hle.
Qed.

Lemma first_entry_None p scores e : first_entry p scores = None -> e ∈ scores -> p e.1 = false.
Proof.
  unfold first_entry. intros Hf%fmap_None He.
  apply (List.find_none _ _ Hf), list_elem_of_In. by apply (sort_elem score_le).
Qed.

(** A selected worker is one of the candidates. *)
Lemma select_in_idle loc t d idle g m w :
  select_best_worker loc t d idle g m = w -> w <> 0%N -> w ∈ idle.
Proof.
  intros <- Hne. unfold select_best_worker in *. destruct idle as [|i0 idle]; [done|].
  destruct (capabilities_ _) as [|c caps].
  - destruct loc; [|left]. destruct (first_entry _ _) as [w|] eqn:E; [|left].
    apply first_entry_Some in E as [Hp _]. by apply bool_decide_eq_true in Hp.
  - destruct (phase_a _ _ _ _ _) as [w|[b cnt]] eqn:Ea; [by apply phase_a_full in Ea as [? _]|].
    destruct (if loc && _ then _ else _) as [w|] eqn:Ef.
    + destruct (loc && _); [|done]. apply first_entry_Some in Ef as [Hp _].
      apply andb_prop in Hp as [Hp _]. by apply bool_decide_eq_true in Hp.
    + destruct d; [|done]. case_decide; [|left].
      apply phase_a_partial in Ea as (_ & _ & [[-> _]|[? _]]); done.
Qed.

(** No candidate matches more of the required capabilities than the selected one. *)
Lemma select_max_match loc t d idle g m w v :
  let caps := capabilities_ (get_task_requirements t g) in
  0%N ∉ idle -> select_best_worker loc t d idle g m = w -> w <> 0%N -> v ∈ idle ->
  (capability_match_count m v caps <= capability_match_count m w caps)%nat.
Proof.
  intros caps H0 <- Hne Hv. unfold select_best_worker in *. destruct idle as [|i0 idle]; [done|].
  fold caps in Hne |- *. destruct caps as [|c caps'] eqn:Ec.
  { unfold capability_match_count at 1. destruct (get_worker v m); cbn; lia. }
  rewrite <- Ec in *.
  destruct (phase_a m caps (i0 :: idle) 0 0) as [w|[b cnt]] eqn:Ea.
  - apply phase_a_full in Ea as [_ ->]. apply match_count_le.
  - apply phase_a_partial in Ea as (Hle & _ & Hb). destruct (Hle v Hv) as [Hv' _].
    destruct (if loc && _ then _ else _) as [w|] eqn:Ef.
    + destruct (loc && _); [|done]. apply first_entry_Some in Ef as [Hp _].
      apply andb_prop in Hp as [_ Hp]. apply Nat.leb_le in Hp. lia.
    + destruct d; [|done]. case_decide as Hb0.
      * destruct Hb as [[-> _]|[_ ->]]; [done|lia].
      * destruct Hb as [[_ ->]|[Hin _]]; [lia|]. by subst.
Qed.

(** ** The score buffer *)

(** The score a hint list gives a worker: its last entry, 0 when it has none. *)
Definition hint_score (hint : list (N * Z)) (w : N) (init : Z) : Z :=
  foldl (fun acc h => if decide (h.1 = w) then h.2 else acc) init hint.

Lemma max_worker_id_ge l w acc :
  w ∈ l -> (worker_id_ w <= foldl (fun mx w => if decide (mx < worker_id_ w)%N
     then worker_id_ w else mx) acc l)%N.
Proof.
  assert (Hacc : forall l acc, (acc <= foldl (fun mx w => if decide (mx < worker_id_ w)%N
     then worker_id_ w else mx) acc l)%N).
  { clear. intros l. induction l as [|v l IH]; intros acc; cbn; [lia|].
    etransitivity; [|apply IH]. case_decide; lia. }
  revert acc. induction l as [|v l IH]; intros acc; [set_solver|].
  intros [->|Hin]%elem_of_cons; cbn; [|by apply IH].
  etransitivity; [|apply Hacc]. case_decide; lia.
Qed.

Definition put_workers (b : list ScoreEntry) (l : list WorkerInfo) : list ScoreEntry :=
  foldl (fun b w => <[N.to_nat (worker_id_ w) := (worker_id_ w, 0%Z)]> b) b l.

Lemma put_workers_length l b : length (put_workers b l) = length b.
Proof.
  revert b. unfold put_workers. induction l as [|w l IH]; intros b; cbn; [done|].
  by rewrite IH, length_insert.
Qed.

Lemma put_workers_in l b w :
  w ∈ l -> (N.to_nat (worker_id_ w) < length b)%nat ->
  put_workers b l !! N.to_nat (worker_id_ w) = Some (worker_id_ w, 0%Z).
Proof.
  assert (Hkeep : forall l b w, b !! N.to_nat w = Some (w, 0%Z) ->
    put_workers b l !! N.to_nat w = Some (w, 0%Z)).
  { clear. intros l. unfold put_workers. induction l as [|v l IH]; intros b w Hb; cbn; [done|].
    apply IH. destruct (decide (worker_id_ v = w)) as [<-|Hne].
    - apply list_lookup_insert_eq. by eapply lookup_lt_Some.
    - rewrite list_lookup_insert_ne; [done|lia]. }
  revert b. induction l as [|v l IH]; intros b Hin Hlt; [set_solver|].
  change (put_workers b (v :: l)) with (put_workers
    (<[N.to_nat (worker_id_ v) := (worker_id_ v, 0%Z)]> b) l).
  apply elem_of_cons in Hin as [->|Hin].
  - apply Hkeep. by apply list_lookup_insert_eq.
  - apply IH; [done|]. by rewrite length_insert.
Qed.

(** An entry is the blank one or belongs to a worker of the list, at its index. *)
Definition entry_ok (l : list WorkerInfo) (k : nat) (e : ScoreEntry) : Prop :=
  e = (0%N, 0%Z) \/ exists w, w ∈ l /\ e = (worker_id_ w, 0%Z) /\ k = N.to_nat (worker_id_ w).

Lemma put_workers_ok l b k e l0 :
  (forall k e, b !! k = Some e -> entry_ok l0 k e) -> l ⊆ l0 ->
  put_workers b l !! k = Some e -> entry_ok l0 k e.
Proof.
  revert b. unfold put_workers. induction l as [|v l IH]; intros b Hb Hsub; cbn; [apply Hb|].
  apply IH; [|set_solver]. intros k' e' [(<- & <- & _)|[_ ?]]%list_lookup_insert_Some; [|by apply Hb].
  right. exists v. set_solver.
Qed.

Definition put_hints (b : list ScoreEntry) (hint : list (N * Z)) : list ScoreEntry :=
  foldl (fun b h => if decide (N.to_nat h.1 < length b)%nat
                    then alter (fun e => (e.1, h.2)) (N.to_nat h.1) b else b) b hint.

Lemma put_hints_lookup hint b k :
  put_hints b hint !! k = (fun e => (e.1, hint_score hint (N.of_nat k) e.2)) <$> b !! k.
Proof.
  revert b. unfold put_hints. induction hint as [|[w sc] hint IH]; intros b; cbn.
  { destruct (b !! k) as [[]|]; done. }
  rewrite IH. unfold ScoreEntry in *. case_decide as Hlt.
  - destruct (decide (w = N.of_nat k)) as [->|Hne].
    + rewrite Nat2N.id, list_lookup_alter_eq. destruct (b !! k) as [[]|]; cbn; done.
    + rewrite list_lookup_alter_ne by lia. destruct (b !! k) as [[]|]; cbn; done.
  - destruct (b !! k) as [[w' sc']|] eqn:Hb; cbn; [|done].
    apply lookup_lt_Some in Hb. rewrite decide_False; [done|]. intros ->.
    rewrite Nat2N.id in Hlt. lia.
Qed.

Lemma compute_scores_eq t g m :
  compute_scores t g m =
    put_hints (put_workers (replicate (N.to_nat (max_worker_id (get_all_workers m)) + 1) (0%N, 0%Z))
      (get_all_workers m)) (locality_hint_ (get_task_requirements t g)).
Proof. done. Qed.

Lemma elem_get_all_workers m i : ids_ok m -> i ∈ get_all_workers m <-> m !! worker_id_ i = Some i.
Proof.
  intros Hids. unfold get_all_workers. rewrite list_elem_of_fmap. split.
  - intros ([w j] & -> & Hin%elem_of_map_to_list). cbn. by rewrite (Hids _ _ Hin).
  - intros Hi. exists (worker_id_ i, i). by rewrite elem_of_map_to_list.
Qed.

(** Every registered worker has its hinted score in the buffer. *)
Lemma compute_scores_complete t g m w i :
  ids_ok m -> m !! w = Some i ->
  (w, hint_score (locality_hint_ (get_task_requirements t g)) w 0) ∈ compute_scores t g m.
Proof.
  intros Hids Hi. rewrite compute_scores_eq. apply list_elem_of_lookup. exists (N.to_nat w).
  assert (Hin : i ∈ get_all_workers m)
    by (apply elem_get_all_workers; [done|]; by rewrite (Hids _ _ Hi)).
  rewrite put_hints_lookup. pose proof (Hids _ _ Hi) as Hw. rewrite <- Hw.
  rewrite put_workers_in; [cbn; by rewrite N2Nat.id|done|].
  rewrite length_replicate. pose proof (max_worker_id_ge _ i 0%N Hin). unfold max_worker_id. lia.
Qed.

(** The other entries of the buffer have id 0. *)
Lemma compute_scores_sound t g m w sc :
  ids_ok m -> (w, sc) ∈ compute_scores t g m -> w <> 0%N ->
  sc = hint_score (locality_hint_ (get_task_requirements t g)) w 0.
Proof.
  intros Hids Hin Hne. rewrite compute_scores_eq in Hin.
  apply list_elem_of_lookup in Hin as [k Hk]. rewrite put_hints_lookup in Hk.
  apply fmap_Some in Hk as ([w' sc'] & Hb & [= -> ->]).
  apply (put_workers_ok _ _ _ _ (get_all_workers m)) in Hb as [[= ? ?]|(i & Hi & [= -> ->] & ->)];
    [done| |intros k' e' [-> _]%lookup_replicate; by left|done].
  by rewrite N2Nat.id.
Qed.

(** ** Properties of one scheduling round *)

(** The selection made for a task in a scheduler state. *)
Definition selected (now : Z) (s : TaskScheduler) (t : N) : N :=
  select_best_worker (locality_enabled_ s) t (degrade_allowed now t (graph_ s))
    (get_idle_workers (manager_ s)) (graph_ s) (manager_ s).

Lemma schedule_loop_spec now ready idle s r s' :
  idle = get_idle_workers (manager_ s) -> schedule_loop now ready idle s = (r, s') ->
  (scheduled_ r = false /\ r = not_scheduled /\ s' = s /\ forall t, t ∈ ready -> selected now s t = 0%N) \/
  (exists before t after, ready = before ++ t :: after /\
     (forall u, u ∈ before -> selected now s u = 0%N) /\ selected now s t <> 0%N /\
     r = mkScheduleResult t (selected now s t) true
           (is_degraded (degrade_allowed now t (graph_ s)) t (selected now s t) (graph_ s) (manager_ s)) /\
     s' = mkTaskScheduler (remove_task t (graph_ s))
            (assign_task (selected now s t) t (manager_ s)) (locality_enabled_ s)).
Proof.
  intros ->. induction ready as [|t ready IH]; cbn.
  { intros [= <- <-]. left. split; [done|]. split; [done|]. split; [done|]. set_solver. }
  fold (selected now s t). case_decide as E.
  - intros [(? & ? & ? & Hall)|(before & u & after & -> & Hb & Hrest)]%IH.
    + left. split_and!; try done. intros u [->|?]%elem_of_cons; auto.
    + right. exists (t :: before), u, after. split; [done|]. split; [|done].
      intros v [->|?]%elem_of_cons; auto.
  - intros [= <- <-]. right. exists [], t, ready. split_and!; try done. set_solver.
Qed.

Lemma schedule_next_loop now s :
  schedule_next now s = schedule_loop now (get_ready_tasks (graph_ s)) (get_idle_workers (manager_ s)) s
  \/ (schedule_next now s = (not_scheduled, s) /\ get_idle_workers (manager_ s) = []).
Proof.
  unfold schedule_next. destruct (get_ready_tasks _) as [|t ts]; [by left|].
  destruct (get_idle_workers _) as [|w ws]; [by right|by left].
Qed.

Lemma selected_no_idle now s t : get_idle_workers (manager_ s) = [] -> selected now s t = 0%N.
Proof. intros E. unfold selected. by rewrite E. Qed.

Lemma schedule_next_spec now s r s' :
  schedule_next now s = (r, s') ->
  (r = not_scheduled /\ s' = s /\
   forall t, t ∈ get_ready_tasks (graph_ s) -> selected now s t = 0%N) \/
  (exists before t after, get_ready_tasks (graph_ s) = before ++ t :: after /\
     (forall u, u ∈ before -> selected now s u = 0%N) /\ selected now s t <> 0%N /\
     r = mkScheduleResult t (selected now s t) true
           (is_degraded (degrade_allowed now t (graph_ s)) t (selected now s t) (graph_ s) (manager_ s)) /\
     s' = mkTaskScheduler (remove_task t (graph_ s))
            (assign_task (selected now s t) t (manager_ s)) (locality_enabled_ s)).
Proof.
  destruct (schedule_next_loop now s) as [->|[-> E]].
  - intros [(_ & -> & -> & Hall)|Hok]%schedule_loop_spec; [left|by right|done]. done.
  - intros [= <- <-]. left. split_and!; [done..|]. intros. by apply selected_no_idle.
Qed.

(** ** Ready and idle lists after an assignment *)

Lemma filter_cut {A} `{EqDecision A} (x : A) before after :
  NoDup (before ++ x :: after) -> filter (fun y => y <> x) (before ++ x :: after) = before ++ after.
Proof.
  intros Hnd. apply NoDup_app in Hnd as (Hb & Hd & [Hx Ha]%NoDup_cons).
  rewrite filter_app, filter_cons_False by auto.
  assert (Hid : forall l : list A, x ∉ l -> filter (fun y => y <> x) l = l).
  { clear. intros l. induction l as [|y l IH]; intros Hn; [done|].
    rewrite filter_cons_True by set_solver. f_equal. set_solver. }
  rewrite !Hid; [done|done|]. intros Hin. by apply (Hd x Hin); left.
Qed.

(** The ready list after [remove_task]: the same order without the task. *)
Lemma ready_after_remove t g :
  graph_wf g -> get_ready_tasks (remove_task t g) = filter (fun u => u <> t) (get_ready_tasks g).
Proof.
  intros Hwf. unfold get_ready_tasks.
  assert (Hk : ready_keys (remove_task t g) = filter (fun e => e.2 <> t) (ready_keys g)).
  { apply (StronglySorted_unique key_le).
    - apply sort_strongly; apply _.
    - apply StronglySorted_filter, sort_strongly; apply _.
    - apply NoDup_Permutation; [apply ready_keys_NoDup|apply NoDup_filter, ready_keys_NoDup|].
      intros [k u]. rewrite list_elem_of_filter, !elem_ready_keys. cbn [snd].
      destruct (remove_task_fields t g) as (_ & _ & _ & _ & _ & _ & _ & ->).
      rewrite elem_of_difference, elem_of_singleton. split.
      + intros [Hin Hne]. split; [|done]. intros ->. apply Hne.
        by rewrite (wf_key g (wf_shape g Hwf) _ _ Hin).
      + intros [Hne Hin]. split; [done|]. by intros [= _ ?]. }
  rewrite Hk. clear Hk. induction (ready_keys g) as [|[k u] l IH]; [done|]. rewrite fmap_cons.
  destruct (decide (u = t)) as [->|Hne].
  - rewrite !filter_cons_False; [done|naive_solver..].
  - rewrite !filter_cons_True, fmap_cons by done. by rewrite IH.
Qed.

Lemma assign_idle w t m v :
  v ∈ get_idle_workers (assign_task w t m) <-> v ∈ get_idle_workers m /\ v <> w.
Proof.
  rewrite !elem_get_idle_workers. unfold assign_task. split.
  - intros (i & Hi & Hs & Hrest). destruct (decide (v = w)) as [->|Hne].
    + rewrite lookup_alter_eq in Hi. apply fmap_Some in Hi as (j & _ & ->). done.
    + rewrite lookup_alter_ne in Hi by done. naive_solver.
  - intros [(i & Hi & Hrest) Hne]. exists i. by rewrite lookup_alter_ne.
Qed.

Lemma assign_ids_ok w t m : ids_ok m -> ids_ok (assign_task w t m).
Proof.
  intros H v i. unfold assign_task. destruct (decide (v = w)) as [->|Hne].
  - rewrite lookup_alter_eq. intros (j & Hj & ->)%fmap_Some. by apply (H w j).
  - rewrite lookup_alter_ne by done. apply H.
Qed.

(** ** Repeated rounds *)

(** The states [schedule_all_available] can start from. *)
Record scheduler_ok (s : TaskScheduler) : Prop := {
  sched_graph : graph_wf (graph_ s);
  sched_ids : ids_ok (manager_ s)
}.

(** The sequence of rounds of [schedule_all_loop]: the results, in order. *)
Inductive rounds : TaskScheduler -> list ScheduleResult -> TaskScheduler -> Prop :=
  | rounds_done now s : schedule_next now s = (not_scheduled, s) -> rounds s [] s
  | rounds_more now s r s' rs s'' :
      schedule_next now s = (r, s') -> scheduled_ r = true -> rounds s' rs s'' ->
      rounds s (r :: rs) s''.

Lemma schedule_next_false now s r s' :
  schedule_next now s = (r, s') -> scheduled_ r = false -> r = not_scheduled /\ s' = s.
Proof.
  intros [(-> & -> & _)|(? & ? & ? & _ & _ & _ & -> & _)]%schedule_next_spec Hs; done.
Qed.

(** What one successful round does. *)
Lemma schedule_next_true now s r s' :
  scheduler_ok s -> schedule_next now s = (r, s') -> scheduled_ r = true ->
  scheduler_ok s' /\
  task_id_ r ∈ get_ready_tasks (graph_ s) /\
  result_worker_id_ r ∈ get_idle_workers (manager_ s) /\
  get_ready_tasks (graph_ s') = filter (fun u => u <> task_id_ r) (get_ready_tasks (graph_ s)) /\
  (forall v, v ∈ get_idle_workers (manager_ s') <->
     v ∈ get_idle_workers (manager_ s) /\ v <> result_worker_id_ r).
Proof.
  intros [Hwf Hids] [(-> & _)|(bef & t & aft & Hr & _ & Hne & -> & ->)]%schedule_next_spec Hs;
    [done|cbn].
  split; [split; [by apply remove_task_wf|by apply assign_ids_ok]|].
  split; [rewrite Hr; set_solver|].
  split; [by eapply select_in_idle|]. split; [by apply ready_after_remove|].
  intros v. apply assign_idle.
Qed.

Lemma filter_ne_length (t : N) l : t ∈ l -> (length (filter (fun u => u <> t) l) < length l)%nat.
Proof.
  induction l as [|a l IH]; [set_solver|]. intros [->|Hin]%elem_of_cons.
  - rewrite filter_cons_False by auto. cbn. pose proof (length_filter (fun u => u <> a) l). lia.
  - destruct (decide (a = t)) as [->|Hne].
    + rewrite filter_cons_False by auto. cbn. specialize (IH Hin). lia.
    + rewrite filter_cons_True by done. cbn. specialize (IH Hin). lia.
Qed.

(** The fuel suffices, and the loop is a sequence of rounds. *)
Lemma schedule_all_rounds fuel nows s :
  scheduler_ok s -> (length (get_ready_tasks (graph_ s)) < fuel)%nat ->
  exists rs s', schedule_all_loop fuel nows s = Some (rs, s') /\ rounds s rs s'.
Proof.
  revert nows s. induction fuel as [|fuel IH]; intros nows s Hok Hf; [lia|]. cbn.
  destruct (schedule_next (nows 0%nat) s) as [r s'] eqn:E. destruct (scheduled_ r) eqn:Er.
  - destruct (schedule_next_true _ _ _ _ Hok E Er) as (Hok' & Hin & _ & Hr' & _).
    destruct (IH (fun k => nows (S k)) s' Hok') as (rs & s'' & -> & Hrs).
    { rewrite Hr'. pose proof (filter_ne_length _ _ Hin). lia. }
    cbn. exists (r :: rs), s''. split; [done|]. by econstructor.
  - destruct (schedule_next_false _ _ _ _ E Er) as [-> ->].
    exists [], s. split; [done|]. by econstructor.
Qed.

Lemma rounds_ok s rs s' :
  rounds s rs s' -> scheduler_ok s ->
  (forall r, r ∈ rs -> task_id_ r ∈ get_ready_tasks (graph_ s) /\
     result_worker_id_ r ∈ get_idle_workers (manager_ s)) /\
  NoDup (task_id_ <$> rs) /\ NoDup (result_worker_id_ <$> rs) /\
  get_ready_tasks (graph_ s') =
    filter (fun u => u ∉ task_id_ <$> rs) (get_ready_tasks (graph_ s)) /\
  exists now, schedule_next now s' = (not_scheduled, s').
Proof.
  induction 1 as [now s Hn|now s r s' rs s'' E Er Hrs IH]; intros Hok.
  { split; [set_solver|]. split; [constructor|]. split; [constructor|]. split; [|by exists now].
    cbn. induction (get_ready_tasks (graph_ s)) as [|a l IHl]; [done|].
    rewrite filter_cons_True by set_solver. by rewrite <- IHl. }
  destruct (schedule_next_true _ _ _ _ Hok E Er) as (Hok' & Ht & Hw & Hr' & Hi').
  destruct (IH Hok') as (Hall & Hnt & Hnw & Hfin & Hlast).
  setoid_rewrite Hi' in Hall. rewrite Hr' in *. setoid_rewrite list_elem_of_filter in Hall.
  split; [intros q [->|Hq]%elem_of_cons; [done|naive_solver]|].
  split; [cbn; constructor; [|done]; intros (q & Hq & Hin)%list_elem_of_fmap; naive_solver|].
  split; [cbn; constructor; [|done]; intros (q & Hq & Hin)%list_elem_of_fmap; naive_solver|].
  split; [|done]. rewrite Hfin, list_filter_filter. apply list_filter_iff.
  intros u. cbn. rewrite elem_of_cons. tauto.
Qed.

(** ** When a task waits *)

(** Some idle worker with at least [n] matches is found in the sorted scores. *)
Lemma first_entry_found t g m v (idle : list N) q :
  ids_ok m -> is_Some (m !! v) -> v ∈ idle -> q v = true ->
  first_entry (fun w => bool_decide (w ∈ idle) && q w) (compute_scores t g m) <> None.
Proof.
  intros Hids [i Hi] Hv Hq Hn.
  pose proof (compute_scores_complete t g m v i Hids Hi) as Hin.
  pose proof (first_entry_None _ _ _ Hn Hin) as Hf. cbn in Hf.
  rewrite bool_decide_true in Hf by done. by rewrite Hq in Hf.
Qed.

Lemma select_zero_iff loc t d idle g m :
  let caps := capabilities_ (get_task_requirements t g) in
  ids_ok m -> 0%N ∉ idle -> idle <> [] -> (forall v, v ∈ idle -> is_Some (m !! v)) ->
  select_best_worker loc t d idle g m = 0%N <->
  caps <> [] /\ d = false /\
  (forall v, v ∈ idle -> capability_match_count m v caps < length caps)%nat /\
  (loc = true -> forall v, v ∈ idle -> capability_match_count m v caps = 0%nat).
Proof.
  intros caps Hids H0 Hne Hreg. unfold select_best_worker.
  destruct idle as [|i0 idle]; [done|]. fold caps.
  assert (Hi0 : i0 <> 0%N) by set_solver. destruct caps as [|c caps'] eqn:Ec.
  { split; [|naive_solver]. destruct loc; [|done]. destruct (first_entry _ _) as [w|] eqn:Ef; [|done].
    intros ->. apply first_entry_Some in Ef as [Hp%bool_decide_eq_true _]. done. }
  rewrite <- Ec in *. destruct (phase_a m caps (i0 :: idle) 0 0) as [w|[b cnt]] eqn:Ea.
  { apply phase_a_full in Ea as [Hw Hm]. split; [by intros ->|].
    intros (_ & _ & Hlt & _). specialize (Hlt w Hw). lia. }
  apply phase_a_partial in Ea as (Hle & _ & Hb).
  destruct (if loc && (0 <? cnt)%nat then _ else _) as [w|] eqn:Ef.
  - destruct loc, (Nat.ltb_spec 0 cnt); try done. apply first_entry_Some in Ef as [Hp _].
    apply andb_prop in Hp as [Hp%bool_decide_eq_true Hc%Nat.leb_le]. split; [by intros ->|].
    intros (_ & _ & _ & Hz). specialize (Hz eq_refl w Hp). lia.
  - assert (Hz : loc = true -> cnt = 0%nat).
    { intros ->. destruct (Nat.ltb_spec 0 cnt) as [Hc|]; [|lia]. exfalso.
      destruct Hb as [[_ ->]|[Hb Hm]]; [lia|].
      revert Ef. apply (first_entry_found _ _ _ b); auto. apply Nat.leb_le. lia. }
    destruct d.
    + split; [|naive_solver]. case_decide; done.
    + split; [|done]. intros _. split; [by rewrite Ec|]. split; [done|].
      split; [intros v Hv; apply Hle, Hv|]. intros Hl v Hv.
      destruct (Hle v Hv) as [Hv' _]. rewrite (Hz Hl) in Hv'. lia.
Qed.

(** A worker with the best score among the idle ones, for a task that requires
    no capability. *)
Lemma select_best_score t d idle g m w v :
  capabilities_ (get_task_requirements t g) = [] ->
  ids_ok m -> (forall u, u ∈ idle -> is_Some (m !! u)) -> 0%N ∉ idle ->
  select_best_worker true t d idle g m = w -> v ∈ idle ->
  let score u := hint_score (locality_hint_ (get_task_requirements t g)) u 0 in
  score_le (w, score w) (v, score v).
Proof.
  intros Hc Hids Hreg H0 Hw Hv score. unfold select_best_worker in Hw.
  destruct idle as [|i0 idle]; [set_solver|]. rewrite Hc in Hw.
  destruct (Hreg v Hv) as [i Hi].
  pose proof (compute_scores_complete t g m v i Hids Hi) as Hin.
  destruct (first_entry _ _) as [w'|] eqn:Ef.
  - subst w'. apply first_entry_Some in Ef as [Hp%bool_decide_eq_true (sc & Hsc & Hmin)].
    assert (w <> 0%N) by set_solver. apply compute_scores_sound in Hsc as ->; [|done..].
    apply (Hmin _ Hin). by apply bool_decide_eq_true.
  - apply (first_entry_None _ _ _ Ef) in Hin. by apply bool_decide_eq_false in Hin.
Qed.

Lemma idle_registered m v : v ∈ get_idle_workers m -> is_Some (m !! v).
Proof. intros (i & Hi & _)%elem_get_idle_workers. by exists i. Qed.

Lemma idle_not_zero m : m !! 0%N = None -> 0%N ∉ get_idle_workers m.
Proof. intros Hn [i Hi]%idle_registered. congruence. Qed.

Lemma is_degraded_true a t w g m :
  is_degraded a t w g m = true ->
  a = true /\ (capability_match_count m w (capabilities_ (get_task_requirements t g))
                < length (capabilities_ (get_task_requirements t g)))%nat.
Proof.
  unfold is_degraded. destruct (capabilities_ _); [done|].
  by intros [[-> _]%andb_prop Hlt%Nat.ltb_lt]%andb_prop.
Qed.

(** ** Properties *)

(** C2: A successful round dispatches the first ready task, in priority order,
    that some idle worker can take.  The task leaves the graph, the order of the
    others is kept, its inputs are all ready, the worker was idle and is now busy
    with exactly that task, and no other worker changes; a task that has to wait
    does not block the ones behind it. *)
Theorem schedule_next_assigns now s r s' :
  scheduler_ok s -> schedule_next now s = (r, s') -> scheduled_ r = true ->
  exists before after,
    get_ready_tasks (graph_ s) = before ++ task_id_ r :: after /\
    get_ready_tasks (graph_ s') = before ++ after /\
    (forall u, u ∈ before -> selected now s u = 0%N) /\
    (forall d, d ∈ get_task_dependencies (task_id_ r) (graph_ s) ->
       is_data_ready d (graph_ s) = true) /\
    result_worker_id_ r ∈ get_idle_workers (manager_ s) /\
    (exists i, manager_ s' !! result_worker_id_ r = Some i /\ status_ i = BUSY /\
       current_task_id_ i = task_id_ r) /\
    (forall v, v <> result_worker_id_ r -> manager_ s' !! v = manager_ s !! v).
Proof.
  intros Hok E Hs. destruct (schedule_next_true _ _ _ _ Hok E Hs) as (_ & Hin & Hw & Hr' & _).
  apply schedule_next_spec in E as [(-> & _)|(bef & t & aft & Hr & Hb & _ & -> & ->)]; [done|].
  cbn in *. exists bef, aft. destruct Hok as [Hwf _].
  split; [done|]. split.
  { rewrite Hr', Hr. apply filter_cut. rewrite <- Hr. apply get_ready_tasks_NoDup, Hwf. }
  split; [done|]. split.
  { intros d Hd. apply (wf_safe _ Hwf t); [by apply elem_get_ready_tasks|done]. }
  split; [done|]. apply idle_registered in Hw as [i Hi]. split.
  - eexists. unfold assign_task. rewrite lookup_alter_eq, Hi. done.
  - intros v Hv. by apply lookup_alter_ne.
Qed.

(** The dispatched worker matches as many of the required capabilities as
    any idle worker does; a dispatch is reported as degraded only when the
    timeout policy allows it and a capability is missing; and with the locality
    preference off a task that may not degrade only goes to a worker with every
    required capability.  Worker ids start at 1. *)
Theorem schedule_respects_capabilities now s r s' :
  let caps := capabilities_ (get_task_requirements (task_id_ r) (graph_ s)) in
  let matches v := capability_match_count (manager_ s) v caps in
  scheduler_ok s -> manager_ s !! 0%N = None ->
  schedule_next now s = (r, s') -> scheduled_ r = true ->
  (forall v, v ∈ get_idle_workers (manager_ s) -> matches v <= matches (result_worker_id_ r))%nat /\
  (degraded_ r = true -> degrade_allowed now (task_id_ r) (graph_ s) = true /\
     (matches (result_worker_id_ r) < length caps)%nat) /\
  (locality_enabled_ s = false -> degrade_allowed now (task_id_ r) (graph_ s) = false ->
     matches (result_worker_id_ r) = length caps).
Proof.
  intros caps matches [_ Hids] H0 E Hs. apply idle_not_zero in H0.
  apply schedule_next_spec in E as [(-> & _)|(bef & t & aft & Hr & Hb & Hne & -> & _)]; [done|].
  cbn in *. assert (Hmax := fun v => select_max_match _ _ _ _ _ _ _ v H0 eq_refl Hne).
  split; [intros v Hv; by apply Hmax|]. split.
  - apply is_degraded_true.
  - intros Hl Hd. destruct (Nat.lt_ge_cases (matches (selected now s t)) (length caps)) as [Hlt|Hge];
      [|by apply Nat.le_antisymm; [apply match_count_le|]].
    exfalso. apply Hne. unfold selected. rewrite Hl, Hd.
    apply select_zero_iff; try done.
    + intros Hnil. unfold selected in Hne. rewrite Hnil in Hne. done.
    + apply idle_registered.
    + split; [intros Hnil; unfold caps in Hlt; rewrite Hnil in Hlt; cbn in Hlt; lia|].
      split; [done|]. split; [|done].
      intros v Hv. specialize (Hmax v Hv). fold caps in Hmax.
      eapply Nat.le_lt_trans; [exact Hmax|exact Hlt].
Qed.

(** A graph with three ready tasks: 1 needs a capability nobody has and never
    degrades, 2 needs [gpu] and [ssd], 3 needs nothing and has its data on 2. *)
Definition needs (caps : list string) (timeout : Q) (hint : list (N * Z)) : TaskRequirements :=
  default_requirements <| capabilities_ := caps |> <| timeout_seconds_ := timeout |>
    <| locality_hint_ := hint |>.

Definition demo_ops : list graph_op :=
  [ OpAddTask clock0 1 [] (needs ["fpga"] (-1) []);
    OpAddTask clock0 2 [] (needs ["gpu"; "ssd"] (-1) []);
    OpAddTask clock0 3 [] (needs [] 0 [(2, 4096%Z); (9, 7%Z)]) ]%N.

Definition demo_graph : DependencyGraph := default empty_graph (run_ops demo_ops empty_graph).

Definition demo_manager (caps2 : list string) : workers :=
  register_worker 100 2 "10.0.0.2" 9000 caps2 "h2" "" HYBRID
    (register_worker 100 1 "10.0.0.1" 9000 ["ssd"] "h1" "" HYBRID ∅).

Definition demo_scheduler (loc : bool) (caps2 : list string) : TaskScheduler :=
  mkTaskScheduler demo_graph (demo_manager caps2) loc.

Lemma demo_graph_wf : graph_wf demo_graph.
Proof.
  apply (graph_run_wf empty_graph demo_ops); [|apply empty_graph_wf].
  apply run_ops_run. vm_compute. reflexivity.
Qed.

Lemma demo_manager_ids caps2 : ids_ok (demo_manager caps2).
Proof.
  intros w i. unfold demo_manager, register_worker.
  intros [(<- & <-)|[_ [(<- & <-)|[_ [=]]]%lookup_insert_Some]]%lookup_insert_Some; done.
Qed.

Lemma demo_scheduler_ok loc caps2 : scheduler_ok (demo_scheduler loc caps2).
Proof. split; [apply demo_graph_wf|apply demo_manager_ids]. Qed.

Lemma schedule_next_assigns_witness :
  exists s', schedule_next 0 (demo_scheduler false ["gpu"; "ssd"]) =
    (mkScheduleResult 2 2 true false, s') /\ get_ready_tasks (graph_ s') = [1%N; 3%N].
Proof.
  destruct (schedule_next 0 (demo_scheduler false ["gpu"; "ssd"])) as [r s'] eqn:E.
  assert (Hr : r = mkScheduleResult 2 2 true false) by (revert E; vm_compute; congruence).
  exists s'. subst r. split; [done|].
  destruct (schedule_next_assigns 0 _ _ _ (demo_scheduler_ok false ["gpu"; "ssd"]) E eq_refl)
    as (bef & aft & Hb & -> & _).
  vm_compute in Hb. destruct bef as [|a [|b bef]]; [discriminate| |].
  - injection Hb as <- <-. vm_compute. reflexivity.
  - exfalso. injection Hb as <- <- Hb. destruct bef as [|? [|? ?]]; discriminate.
Defined.

Lemma schedule_respects_capabilities_witness :
  exists s', schedule_next 0 (demo_scheduler false ["gpu"; "ssd"]) =
    (mkScheduleResult 2 2 true false, s') /\
  capability_match_count (demo_manager ["gpu"; "ssd"]) 2 ["gpu"; "ssd"] = 2%nat.
Proof.
  destruct (schedule_next 0 (demo_scheduler false ["gpu"; "ssd"])) as [r s'] eqn:E.
  assert (Hr : r = mkScheduleResult 2 2 true false) by (revert E; vm_compute; congruence).
  exists s'. subst r. split; [done|].
  destruct (schedule_respects_capabilities 0 _ _ _ (demo_scheduler_ok false ["gpu"; "ssd"])
              eq_refl E eq_refl) as (_ & _ & Hfull).
  apply Hfull; vm_compute; reflexivity.
Defined.

(** A ready task is left waiting exactly when it requires capabilities, may
    not degrade, no idle worker has all of them and, with the locality preference
    on, no idle worker has any of them.  So with that preference on a task that
    never degrades is still sent to a worker that lacks required capabilities as
    soon as one of them matches. *)
Theorem task_waits_iff now s t :
  let caps := capabilities_ (get_task_requirements t (graph_ s)) in
  let matches v := capability_match_count (manager_ s) v caps in
  scheduler_ok s -> manager_ s !! 0%N = None -> get_idle_workers (manager_ s) <> [] ->
  selected now s t = 0%N <->
  caps <> [] /\ degrade_allowed now t (graph_ s) = false /\
  (forall v, v ∈ get_idle_workers (manager_ s) -> matches v < length caps)%nat /\
  (locality_enabled_ s = true -> forall v, v ∈ get_idle_workers (manager_ s) -> matches v = 0%nat).
Proof.
  intros caps matches [_ Hids] H0 Hne. apply select_zero_iff; auto.
  - by apply idle_not_zero.
  - apply idle_registered.
Qed.

(** Task 2 never degrades and worker 1 lacks [gpu]: it waits with the preference
    off and is dispatched, not marked degraded, with it on. *)
Lemma task_waits_iff_witness :
  degrade_allowed 0 2 demo_graph = false /\
  selected 0 (demo_scheduler false []) 2 = 0%N /\ selected 0 (demo_scheduler true []) 2 <> 0%N /\
  (schedule_next 0 (demo_scheduler true [])).1 = mkScheduleResult 2 1 true false.
Proof.
  split; [vm_compute; reflexivity|]. split; [|split; [|vm_compute; reflexivity]].
  - apply (task_waits_iff 0 (demo_scheduler false []) 2 (demo_scheduler_ok _ _) eq_refl).
    { vm_compute. discriminate. }
    split; [discriminate|]. split; [vm_compute; reflexivity|]. split; [|discriminate].
    apply Forall_forall. vm_compute. repeat constructor.
  - intros Hw. apply (task_waits_iff 0 (demo_scheduler true []) 2 (demo_scheduler_ok _ _) eq_refl)
      in Hw as (_ & _ & _ & Hz); [|vm_compute; discriminate].
    specialize (Hz eq_refl 1%N). vm_compute in Hz. discriminate Hz. repeat constructor.
Defined.

(** With the locality preference on, a task without capability requirements
    goes to the idle worker that holds the most bytes of its inputs (by the
    hint), and to the lowest id among equals. *)
Theorem locality_picks_best_holder now s r s' v :
  let hint := locality_hint_ (get_task_requirements (task_id_ r) (graph_ s)) in
  let w := result_worker_id_ r in
  scheduler_ok s -> manager_ s !! 0%N = None -> locality_enabled_ s = true ->
  schedule_next now s = (r, s') -> scheduled_ r = true ->
  capabilities_ (get_task_requirements (task_id_ r) (graph_ s)) = [] ->
  v ∈ get_idle_workers (manager_ s) ->
  (hint_score hint v 0 < hint_score hint w 0)%Z \/
  (hint_score hint w 0 = hint_score hint v 0 /\ (w <= v)%N).
Proof.
  intros hint w [_ Hids] H0 Hl E Hs Hc Hv.
  apply schedule_next_spec in E as [(-> & _)|(bef & t & aft & Hr & Hb & Hne & -> & _)]; [done|].
  cbn in *. eapply (select_best_score t _ _ (graph_ s) (manager_ s) w v Hc Hids); eauto.
  - apply idle_registered.
  - by apply idle_not_zero.
  - unfold w, selected. by rewrite Hl.
Qed.

Lemma locality_picks_best_holder_witness :
  let g := default empty_graph (run_ops [OpAddTask clock0 3 [] (needs [] 0 [(2, 4096%Z)])]%N empty_graph) in
  (schedule_next 0 (mkTaskScheduler g (demo_manager []) true)).1 = mkScheduleResult 3 2 true false /\
  (hint_score [(2%N, 4096%Z)] 1 0 < hint_score [(2%N, 4096%Z)] 2 0)%Z.
Proof.
  intros g. split; [vm_compute; reflexivity|].
  assert (Hok : scheduler_ok (mkTaskScheduler g (demo_manager []) true)).
  { split; [|apply demo_manager_ids].
    apply (graph_run_wf empty_graph [OpAddTask clock0 3 [] (needs [] 0 [(2%N, 4096%Z)])]);
      [|apply empty_graph_wf].
    apply run_ops_run. reflexivity. }
  destruct (schedule_next 0 (mkTaskScheduler g (demo_manager []) true)) as [r s'] eqn:E.
  assert (Hr : r = mkScheduleResult 3 2 true false) by (revert E; vm_compute; congruence). subst r.
  destruct (locality_picks_best_holder 0 _ _ _ 1 Hok eq_refl eq_refl E eq_refl eq_refl)
    as [H|[_ H]]; [vm_compute; repeat constructor|exact H|by vm_compute in H].
Defined.

(** C8: [schedule_all_available] always terminates.  Each dispatched task was
    ready and each worker idle when it was called, no task and no worker is used
    twice, the tasks left are the others in their order, and it stops only in a
    state in which nothing more can be dispatched. *)
Theorem schedule_all_complete nows s :
  scheduler_ok s ->
  exists rs s', schedule_all_available nows s = Some (rs, s') /\
    (forall r, r ∈ rs -> task_id_ r ∈ get_ready_tasks (graph_ s) /\
       result_worker_id_ r ∈ get_idle_workers (manager_ s)) /\
    NoDup (task_id_ <$> rs) /\ NoDup (result_worker_id_ <$> rs) /\
    get_ready_tasks (graph_ s') =
      filter (fun u => u ∉ task_id_ <$> rs) (get_ready_tasks (graph_ s)) /\
    exists now, forall u, u ∈ get_ready_tasks (graph_ s') -> selected now s' u = 0%N.
Proof.
  intros Hok. unfold schedule_all_available.
  destruct (schedule_all_rounds _ nows s Hok (Nat.lt_succ_diag_r _)) as (rs & s' & -> & Hrs).
  exists rs, s'. split; [done|].
  destruct (rounds_ok _ _ _ Hrs Hok) as (Ha & Hb & Hc & Hd & now & Hn).
  split_and!; try done. exists now.
  apply schedule_next_spec in Hn as [(_ & _ & Hall)|(? & ? & ? & _ & _ & _ & [=] & _)]. done.
Qed.

Lemma schedule_all_complete_witness :
  exists rs s', schedule_all_available (fun _ => 0%Z) (demo_scheduler true ["gpu"; "ssd"]) = Some (rs, s')
    /\ rs = [mkScheduleResult 2 2 true false; mkScheduleResult 3 1 true false]
    /\ get_ready_tasks (graph_ s') = [1%N].
Proof.
  destruct (schedule_all_complete (fun _ => 0%Z) _ (demo_scheduler_ok true ["gpu"; "ssd"]))
    as (rs & s' & E & _ & _ & _ & Hr & _).
  exists rs, s'. split; [exact E|].
  assert (Hrs : rs = [mkScheduleResult 2 2 true false; mkScheduleResult 3 1 true false])
    by (revert E; vm_compute; congruence).
  split; [exact Hrs|]. rewrite Hr, Hrs. vm_compute. reflexivity.
Defined.
