(* ===== verification/Geometry.v ===== *)
(** The geometry module (src/geometry/cpp/geometry_types.h and transform.h):
    points, half-open rectangles, polygons, and the placement transforms
    (a D4 orientation and a translation) used to flatten hierarchical designs.

    The templates are instantiated at the signed integers of width [w] (32 for
    the business aliases, 64 for the other integral instance); the [double]
    instance is not modelled.  A signed overflow is undefined behaviour and a
    failed [assert] aborts: both are [None]. *)

From stdpp Require Import base list option sets.
From Stdlib Require Import ZArith Lia.
From S2P Require Import Prelude.

Open Scope Z_scope.

Inductive GEOOrientation := N | W | S | E | FN | FW | FS | FE.
#[export] Instance GEOOrientation_eq_dec : EqDecision GEOOrientation.
Proof. solve_decision. Defined.

Record GEOPointT := GEOPoint { x_ : Z; y_ : Z }.
Record GEORectT := GEORect { x_low_ : Z; y_low_ : Z; x_high_ : Z; y_high_ : Z }.
Record GEOPolygonT := GEOPolygon { points_ : list GEOPointT }.
Record GEOTransformT := GEOTransform { offset_ : GEOPointT; orient_ : GEOOrientation }.

Definition identity : GEOTransformT := GEOTransform (GEOPoint 0 0) N.

(** ** Signed integers of width [w] *)

Definition fits (w z : Z) : Prop := - 2 ^ (w - 1) <= z < 2 ^ (w - 1).
#[export] Instance fits_dec w z : Decision (fits w z).
Proof. unfold fits. apply _. Defined.

(** The value of a signed operation, unless it overflows. *)
Definition chk (w z : Z) : option Z := if decide (fits w z) then Some z else None.

(** ** Rectangles *)

Definition rect_ok (r : GEORectT) : Prop := x_low_ r <= x_high_ r /\ y_low_ r <= y_high_ r.
#[export] Instance rect_ok_dec r : Decision (rect_ok r).
Proof. unfold rect_ok. apply _. Defined.

Definition width (w : Z) (r : GEORectT) : option Z :=
  if decide (x_low_ r <= x_high_ r) then chk w (x_high_ r - x_low_ r) else None.

Definition height (w : Z) (r : GEORectT) : option Z :=
  if decide (y_low_ r <= y_high_ r) then chk w (y_high_ r - y_low_ r) else None.

(** The product is taken in [int64_t]. *)
Definition area_int (w : Z) (r : GEORectT) : option Z :=
  a ← width w r; b ← height w r; chk 64 (a * b).

Definition low_left (r : GEORectT) : GEOPointT := GEOPoint (x_low_ r) (y_low_ r).
Definition high_right (r : GEORectT) : GEOPointT := GEOPoint (x_high_ r) (y_high_ r).

Definition contains (r : GEORectT) (p : GEOPointT) : bool :=
  (x_low_ r <=? x_ p) && (x_ p <? x_high_ r) && (y_low_ r <=? y_ p) && (y_ p <? y_high_ r).

Definition overlaps (a b : GEORectT) : bool :=
  (x_low_ a <? x_high_ b) && (x_low_ b <? x_high_ a) &&
  (y_low_ a <? y_high_ b) && (y_low_ b <? y_high_ a).

(** ** Polygons *)

Definition bbox_step (r : GEORectT) (p : GEOPointT) : GEORectT :=
  GEORect (Z.min (x_low_ r) (x_ p)) (Z.min (y_low_ r) (y_ p))
          (Z.max (x_high_ r) (x_ p)) (Z.max (y_high_ r) (y_ p)).

Definition bbox (poly : GEOPolygonT) : option GEORectT :=
  match points_ poly with
  | [] => None
  | p :: _ => Some (foldl bbox_step (GEORect (x_ p) (y_ p) (x_ p) (y_ p)) (points_ poly))
  end.

(** ** Transforms *)

(** The negations of [rotate] are signed operations of width [w]. *)
Definition rotate (w x y : Z) (o : GEOOrientation) : option GEOPointT :=
  match o with
  | N => Some (GEOPoint x y)
  | W => y' ← chk w (- y); Some (GEOPoint y' x)
  | S => x' ← chk w (- x); y' ← chk w (- y); Some (GEOPoint x' y')
  | E => x' ← chk w (- x); Some (GEOPoint y x')
  | FN => x' ← chk w (- x); Some (GEOPoint x' y)
  | FW => Some (GEOPoint y x)
  | FS => y' ← chk w (- y); Some (GEOPoint x y')
  | FE => y' ← chk w (- y); x' ← chk w (- x); Some (GEOPoint y' x')
  end.

(** The row of [k_orient_mul] for the outer orientation, indexed by the inner one. *)
Definition k_orient_mul (a b : GEOOrientation) : GEOOrientation :=
  let row N' W' S' E' FN' FW' FS' FE' :=
    match b with N => N' | W => W' | S => S' | E => E' | FN => FN' | FW => FW' | FS => FS' | FE => FE' end in
  match a with
  | N  => row N W S E FN FW FS FE
  | W  => row W S E N FE FN FW FS
  | S  => row S E N W FS FE FN FW
  | E  => row E N W S FW FS FE FN
  | FN => row FN FW FS FE N W S E
  | FW => row FW FS FE FN E N W S
  | FS => row FS FE FN FW S E N W
  | FE => row FE FN FW FS W S E N
  end.

Definition apply (w : Z) (t : GEOTransformT) (p : GEOPointT) : option GEOPointT :=
  r ← rotate w (x_ p) (y_ p) (orient_ t);
  x' ← chk w (x_ r + x_ (offset_ t)); y' ← chk w (y_ r + y_ (offset_ t)); Some (GEOPoint x' y').

Definition min4 (a b c d : Z) : Z := Z.min (Z.min (Z.min a b) c) d.
Definition max4 (a b c d : Z) : Z := Z.max (Z.max (Z.max a b) c) d.

Definition apply_box (w : Z) (t : GEOTransformT) (r : GEORectT) : option GEORectT :=
  if decide (rect_ok r) then
    c1 ← apply w t (GEOPoint (x_low_ r) (y_low_ r));
    c2 ← apply w t (GEOPoint (x_high_ r) (y_low_ r));
    c3 ← apply w t (GEOPoint (x_high_ r) (y_high_ r));
    c4 ← apply w t (GEOPoint (x_low_ r) (y_high_ r));
    Some (GEORect (min4 (x_ c1) (x_ c2) (x_ c3) (x_ c4)) (min4 (y_ c1) (y_ c2) (y_ c3) (y_ c4))
                  (max4 (x_ c1) (x_ c2) (x_ c3) (x_ c4)) (max4 (y_ c1) (y_ c2) (y_ c3) (y_ c4)))
  else None.

Definition apply_polygon (w : Z) (t : GEOTransformT) (poly : GEOPolygonT) : option GEOPolygonT :=
  GEOPolygon <$> mapM (apply w t) (points_ poly).

Definition compose (w : Z) (t sub : GEOTransformT) : option GEOTransformT :=
  o ← apply w t (offset_ sub); Some (GEOTransform o (k_orient_mul (orient_ t) (orient_ sub))).

(** ** The mathematical transforms *)

(** [rotate] and [apply] over the unbounded integers. *)
Definition rot (o : GEOOrientation) (p : GEOPointT) : GEOPointT :=
  let '(GEOPoint x y) := p in
  match o with
  | N => GEOPoint x y | W => GEOPoint (- y) x | S => GEOPoint (- x) (- y) | E => GEOPoint y (- x)
  | FN => GEOPoint (- x) y | FW => GEOPoint y x | FS => GEOPoint x (- y) | FE => GEOPoint (- y) (- x)
  end.

Definition add_point (p q : GEOPointT) : GEOPointT := GEOPoint (x_ p + x_ q) (y_ p + y_ q).

Definition image (t : GEOTransformT) (p : GEOPointT) : GEOPointT :=
  add_point (rot (orient_ t) p) (offset_ t).

Definition point_fits (w : Z) (p : GEOPointT) : Prop := fits w (x_ p) /\ fits w (y_ p).

Lemma chk_Some w z v : chk w z = Some v <-> fits w z /\ v = z.
Proof. unfold chk. case_decide; split; intros; destruct_and?; simplify_eq; done. Qed.

Lemma chk_eq w z : fits w z -> chk w z = Some z.
Proof. intros. by apply chk_Some. Qed.

Ltac geo_option :=
  repeat match goal with
  | H : chk _ _ = Some _ |- _ => apply chk_Some in H as [? ->]
  | H : _ ≫= _ = Some _ |- _ => apply bind_Some in H as (? & ? & ?)
  | H : Some _ = Some _ |- _ => injection H as <-
  end.

(** A point transform that does not overflow computes the mathematical one. *)
Lemma rotate_sound w x y o q :
  rotate w x y o = Some q -> q = rot o (GEOPoint x y).
Proof. destruct o; cbn; intros; geo_option; done. Qed.

(** Rotations are defined on the points whose opposite fits. *)
Lemma rotate_complete w x y o :
  fits w (- x) -> fits w (- y) -> rotate w x y o = Some (rot o (GEOPoint x y)).
Proof. intros. destruct o; cbn; rewrite ?chk_eq by done; done. Qed.

Lemma apply_sound w t p q : apply w t p = Some q -> q = image t p /\ point_fits w q.
Proof.
  destruct p as [x y]. unfold apply. intros (r & Hr%rotate_sound & H)%bind_Some. cbn in Hr. subst r.
  geo_option. done.
Qed.

Lemma apply_complete w t p :
  fits w (- x_ p) -> fits w (- y_ p) -> point_fits w (image t p) -> apply w t p = Some (image t p).
Proof.
  destruct p as [x y]; cbn. intros Hx Hy [Hi Hj]. unfold apply. cbn.
  rewrite (rotate_complete w x y (orient_ t)) by done. cbn.
  by rewrite !chk_eq by done.
Qed.

Lemma k_orient_mul_rot a b p : rot (k_orient_mul a b) p = rot a (rot b p).
Proof. destruct p, a, b; cbn; rewrite ?Z.opp_involutive; done. Qed.

Lemma rot_add o p q : rot o (add_point p q) = add_point (rot o p) (rot o q).
Proof. destruct p, q, o; unfold add_point; cbn; f_equal; lia. Qed.

Lemma image_compose t sub o p :
  o = image t (offset_ sub) ->
  image (GEOTransform o (k_orient_mul (orient_ t) (orient_ sub))) p = image t (image sub p).
Proof.
  intros ->. unfold image; cbn [offset_ orient_]. rewrite k_orient_mul_rot, rot_add.
  unfold add_point; cbn. f_equal; lia.
Qed.

(** ** Boxes *)

(** Membership in the closed rectangle. *)
Definition in_closed (r : GEORectT) (p : GEOPointT) : Prop :=
  x_low_ r <= x_ p <= x_high_ r /\ y_low_ r <= y_ p <= y_high_ r.

(** The box of the mathematical transform. *)
Definition image_box (t : GEOTransformT) (r : GEORectT) : GEORectT :=
  let p := image t (low_left r) in let q := image t (high_right r) in
  GEORect (Z.min (x_ p) (x_ q)) (Z.min (y_ p) (y_ q)) (Z.max (x_ p) (x_ q)) (Z.max (y_ p) (y_ q)).

(** Two opposite corners determine the box computed from the four. *)
Lemma corners_box t r :
  rect_ok r ->
  let c1 := image t (GEOPoint (x_low_ r) (y_low_ r)) in
  let c2 := image t (GEOPoint (x_high_ r) (y_low_ r)) in
  let c3 := image t (GEOPoint (x_high_ r) (y_high_ r)) in
  let c4 := image t (GEOPoint (x_low_ r) (y_high_ r)) in
  GEORect (min4 (x_ c1) (x_ c2) (x_ c3) (x_ c4)) (min4 (y_ c1) (y_ c2) (y_ c3) (y_ c4))
          (max4 (x_ c1) (x_ c2) (x_ c3) (x_ c4)) (max4 (y_ c1) (y_ c2) (y_ c3) (y_ c4))
  = image_box t r.
Proof.
  destruct t as [[ox oy] o], r as [xl yl xh yh]. unfold rect_ok; cbn. intros [Hx Hy].
  destruct o; unfold image_box, min4, max4; cbn; f_equal; lia.
Qed.

Lemma apply_box_sound w t r r' : apply_box w t r = Some r' -> rect_ok r /\ r' = image_box t r.
Proof.
  unfold apply_box. case_decide as Hok; [|done]. intros H. split; [done|]. geo_option.
  repeat match goal with Ha : apply _ _ _ = Some _ |- _ => apply apply_sound in Ha as [-> _] end.
  by apply corners_box.
Qed.

(** A rectangle all whose images, and whose opposites, fit is transformed. *)
Lemma image_in_box t r p : rect_ok r -> in_closed r p <-> in_closed (image_box t r) (image t p).
Proof.
  destruct t as [[ox oy] o], r as [xl yl xh yh], p as [x y].
  unfold rect_ok, in_closed, image_box; cbn. intros [Hx Hy].
  destruct o; cbn; split; intros; lia.
Qed.

Lemma image_inj t p q : image t p = image t q -> p = q.
Proof.
  destruct t as [[ox oy] o], p, q. destruct o; unfold image, add_point; cbn; intros [= ? ?];
    f_equal; lia.
Qed.

(** Every point of the transformed box is the image of some point. *)
Lemma image_surj t q : exists p, image t p = q.
Proof.
  destruct t as [[ox oy] o], q as [x y].
  destruct o; [exists (GEOPoint (x - ox) (y - oy))|exists (GEOPoint (y - oy) (ox - x))
    |exists (GEOPoint (ox - x) (oy - y))|exists (GEOPoint (oy - y) (x - ox))
    |exists (GEOPoint (ox - x) (y - oy))|exists (GEOPoint (y - oy) (x - ox))
    |exists (GEOPoint (x - ox) (oy - y))|exists (GEOPoint (oy - y) (ox - x))];
    unfold image, add_point; cbn; f_equal; lia.
Qed.

(** ** Bounding boxes *)

Definition point_box (p : GEOPointT) : GEORectT := GEORect (x_ p) (y_ p) (x_ p) (y_ p).

Lemma bbox_step_ok r p : rect_ok r -> rect_ok (bbox_step r p).
Proof. unfold rect_ok, bbox_step; cbn. lia. Qed.

Lemma image_box_step t r p :
  rect_ok r -> image_box t (bbox_step r p) = bbox_step (image_box t r) (image t p).
Proof.
  destruct t as [[ox oy] o], r as [xl yl xh yh], p as [x y]. unfold rect_ok; cbn. intros [Hx Hy].
  destruct o; unfold image_box, bbox_step; cbn; f_equal; lia.
Qed.

Lemma image_point_box t p : image_box t (point_box p) = point_box (image t p).
Proof. unfold image_box, point_box, low_left, high_right; cbn. destruct p. f_equal; cbn; lia. Qed.

Lemma foldl_bbox_image t ps r :
  rect_ok r ->
  image_box t (foldl bbox_step r ps) = foldl bbox_step (image_box t r) (image t <$> ps).
Proof.
  revert r. induction ps as [|p ps IH]; intros r Hr; [done|]. cbn.
  rewrite IH by (by apply bbox_step_ok). by rewrite image_box_step.
Qed.

Lemma mapM_apply_image w t ps qs : mapM (apply w t) ps = Some qs -> qs = image t <$> ps.
Proof.
  revert qs. induction ps as [|p ps IH]; intros qs; [by intros [= <-]|].
  cbn. intros (q & [-> _]%apply_sound & (qs' & ->%IH & [= <-])%bind_Some)%bind_Some. done.
Qed.

(** Whether a transform is defined at a point is decided for each coordinate on
    its own. *)
Lemma apply_mix w t p q p' q' :
  apply w t p = Some p' -> apply w t q = Some q' ->
  apply w t (GEOPoint (x_ p) (y_ q)) = Some (image t (GEOPoint (x_ p) (y_ q))).
Proof.
  destruct t as [[ox oy] o], p as [x y], q as [u v]. unfold apply, image, add_point.
  destruct o; cbn; intros Hp Hq; geo_option; cbn in *;
    repeat (rewrite chk_eq by done; cbn); done.
Qed.

(** The sides of the bounding box are coordinates of vertices. *)
Lemma bbox_sides ps r :
  (forall z, z = x_low_ r \/ z = x_high_ r -> exists p, p ∈ ps /\ x_ p = z) ->
  (forall z, z = y_low_ r \/ z = y_high_ r -> exists p, p ∈ ps /\ y_ p = z) ->
  forall qs, qs ⊆ ps ->
  let b := foldl bbox_step r qs in
  (forall z, z = x_low_ b \/ z = x_high_ b -> exists p, p ∈ ps /\ x_ p = z) /\
  (forall z, z = y_low_ b \/ z = y_high_ b -> exists p, p ∈ ps /\ y_ p = z).
Proof.
  intros Hx Hy qs. revert r Hx Hy. induction qs as [|q qs IH]; intros r Hx Hy Hsub; cbn; [done|].
  assert (Hq : q ∈ ps) by set_solver.
  apply IH; [| |set_solver]; intros z Hz; cbn in Hz.
  - destruct (decide (z = x_ q)) as [->|]; [by exists q|]. apply Hx. lia.
  - destruct (decide (z = y_ q)) as [->|]; [by exists q|]. apply Hy. lia.
Qed.

Lemma foldl_bbox_ok ps r : rect_ok r -> rect_ok (foldl bbox_step r ps).
Proof. revert r. induction ps as [|p ps IH]; intros r Hr; cbn; [done|]. by apply IH, bbox_step_ok. Qed.

(** A box whose corners mix coordinates of transformed vertices is transformed. *)
Lemma apply_box_corners w t ps qs b :
  mapM (apply w t) ps = Some qs -> rect_ok b ->
  (forall z, z = x_low_ b \/ z = x_high_ b -> exists p, p ∈ ps /\ x_ p = z) ->
  (forall z, z = y_low_ b \/ z = y_high_ b -> exists p, p ∈ ps /\ y_ p = z) ->
  apply_box w t b = Some (image_box t b).
Proof.
  intros Hm Hok Hx Hy.
  assert (Hdef : forall p, p ∈ ps -> exists p', apply w t p = Some p').
  { intros p Hp. apply mapM_Some_1 in Hm. apply list_elem_of_lookup in Hp as [k Hk].
    destruct (Forall2_lookup_l _ _ _ _ _ Hm Hk) as (p' & _ & Hp'). eauto. }
  assert (Hc : forall x y, x = x_low_ b \/ x = x_high_ b -> y = y_low_ b \/ y = y_high_ b ->
    apply w t (GEOPoint x y) = Some (image t (GEOPoint x y))).
  { intros x y (p & Hp & <-)%Hx (q & Hq & <-)%Hy.
    destruct (Hdef p Hp) as [p' Ep], (Hdef q Hq) as [q' Eq]. by eapply apply_mix. }
  unfold apply_box. rewrite decide_True by done. rewrite !Hc by auto. cbn [mbind option_bind].
  f_equal. by apply corners_box.
Qed.

(** ** Properties *)

(** [compose] is composition: wherever applying the inner and then the outer
    placement does not overflow, the composed placement maps the point to the
    same place, also without overflow, provided the coordinates can be negated;
    so the 8x8 table multiplies orientations as the symmetries of the square
    they denote. *)
Theorem compose_apply w t sub c p q r :
  fits w (- x_ p) -> fits w (- y_ p) ->
  apply w sub p = Some q -> apply w t q = Some r -> compose w t sub = Some c ->
  apply w c p = Some r.
Proof.
  intros Hx Hy [-> _]%apply_sound [-> Hfit]%apply_sound Hc. unfold compose in Hc.
  apply bind_Some in Hc as (o & [-> _]%apply_sound & [= <-]).
  rewrite <- (image_compose t sub _ p eq_refl) in *. by apply apply_complete.
Qed.

Lemma compose_apply_witness :
  let t := GEOTransform (GEOPoint 100 50) W in let sub := GEOTransform (GEOPoint 7 9) FE in
  compose 32 t sub = Some (GEOTransform (GEOPoint 91 57) FS) /\
  apply 32 (GEOTransform (GEOPoint 91 57) FS) (GEOPoint 3 4) = Some (GEOPoint 94 53).
Proof.
  split; [reflexivity|].
  apply (compose_apply 32 (GEOTransform (GEOPoint 100 50) W) (GEOTransform (GEOPoint 7 9) FE)
           _ (GEOPoint 3 4) (GEOPoint 3 6)); [decide_compute|decide_compute|reflexivity..].
Defined.

(** [apply_box] returns a well-formed rectangle that is exactly the image of
    the argument: a point is in the argument (boundary included) iff its image is
    in the result; the quarter-turn orientations swap the two sides. *)
Theorem apply_box_exact w t r r' :
  apply_box w t r = Some r' ->
  rect_ok r' /\
  (forall p q, apply w t p = Some q -> in_closed r p <-> in_closed r' q) /\
  (forall q, in_closed r' q -> exists p, in_closed r p /\ image t p = q) /\
  (x_high_ r' - x_low_ r', y_high_ r' - y_low_ r') =
    match orient_ t with
    | N | S | FN | FS => (x_high_ r - x_low_ r, y_high_ r - y_low_ r)
    | W | E | FW | FE => (y_high_ r - y_low_ r, x_high_ r - x_low_ r)
    end.
Proof.
  intros [Hok ->]%apply_box_sound. split; [unfold rect_ok, image_box; cbn; lia|].
  split; [intros p q [-> _]%apply_sound; by apply image_in_box|].
  split.
  - intros q Hq. destruct (image_surj t q) as [p <-]. exists p.
    by rewrite (image_in_box t) by done.
  - destruct t as [[ox oy] o], r as [xl yl xh yh]. destruct Hok as [Hx Hy]. cbn in *.
    destruct o; unfold image_box; cbn; f_equal; lia.
Qed.

Lemma apply_box_exact_witness :
  apply_box 32 (GEOTransform (GEOPoint 100 50) E) (GEORect 0 0 30 10) = Some (GEORect 100 20 110 50)
  /\ rect_ok (GEORect 100 20 110 50).
Proof.
  assert (Hb : apply_box 32 (GEOTransform (GEOPoint 100 50) E) (GEORect 0 0 30 10)
               = Some (GEORect 100 20 110 50)) by reflexivity.
  split; [exact Hb|]. destruct (apply_box_exact _ _ _ _ Hb) as [Hok _]. exact Hok.
Defined.

(** Bounding boxes commute with placement: when every vertex of a polygon can
    be transformed, so can its bounding box, and the result is the bounding box
    of the transformed polygon. *)
Theorem bbox_apply_polygon w t poly poly' b :
  apply_polygon w t poly = Some poly' -> bbox poly = Some b ->
  exists b', apply_box w t b = Some b' /\ bbox poly' = Some b'.
Proof.
  destruct poly as [ps]. unfold apply_polygon, bbox; cbn.
  intros (qs & Hm & ->)%fmap_Some Hb. destruct ps as [|p ps]; [done|].
  injection Hb as <-. fold (point_box p). set (ps' := p :: ps) in *.
  change (foldl bbox_step (bbox_step (point_box p) p) ps) with (foldl bbox_step (point_box p) ps').
  assert (Hpb : rect_ok (point_box p)) by (unfold rect_ok; cbn; lia).
  destruct (bbox_sides ps' (point_box p)) with (qs := ps') as [Hsx Hsy].
  1,2: intros z Hz; exists p; split; [left|cbn in Hz; lia].
  { done. }
  eexists. split; [apply (apply_box_corners w t ps' qs); [done|by apply foldl_bbox_ok|done..]|].
  apply mapM_apply_image in Hm as ->. cbn [points_ fmap list_fmap].
  rewrite foldl_bbox_image by done. by rewrite image_point_box.
Qed.

Lemma bbox_apply_polygon_witness :
  exists b', apply_box 32 (GEOTransform (GEOPoint 5 0) FW) (GEORect 0 0 4 2) = Some b' /\
    bbox (GEOPolygon [GEOPoint 5 0; GEOPoint 5 4; GEOPoint 7 2]) = Some b'.
Proof.
  apply (bbox_apply_polygon 32 _ (GEOPolygon [GEOPoint 0 0; GEOPoint 4 0; GEOPoint 2 2]));
    reflexivity.
Defined.

(** For a well-formed rectangle with 32-bit coordinates the 64-bit area is
    exact and the product never overflows, but it is defined only when each side
    is below 2^31: [width] and [height] subtract in 32 bits. *)
Theorem area_int_exact r :
  rect_ok r ->
  area_int 32 r =
    if decide (x_high_ r - x_low_ r < 2 ^ 31 /\ y_high_ r - y_low_ r < 2 ^ 31)
    then Some ((x_high_ r - x_low_ r) * (y_high_ r - y_low_ r)) else None.
Proof.
  destruct r as [xl yl xh yh]. unfold rect_ok. cbn. intros [Hx Hy].
  assert (Hchk : forall d, 0 <= d -> chk 32 d = if decide (d < 2 ^ 31) then Some d else None).
  { intros d Hd. unfold chk, fits. change (2 ^ (32 - 1)) with (2 ^ 31).
    repeat case_decide; done || lia. }
  unfold area_int, width, height; cbn [x_low_ y_low_ x_high_ y_high_].
  rewrite !decide_True, !Hchk by lia.
  destruct (decide (xh - xl < 2 ^ 31)) as [Hfx|Hfx];
    [|by rewrite (decide_False (P := _ /\ _)) by tauto].
  destruct (decide (yh - yl < 2 ^ 31)) as [Hfy|Hfy];
    [|by rewrite (decide_False (P := _ /\ _)) by tauto].
  rewrite (decide_True (P := _ /\ _)) by done. cbn [mbind option_bind]. apply chk_eq. unfold fits.
  change (2 ^ (64 - 1)) with 9223372036854775808. change (2 ^ 31) with 2147483648 in *. nia.
Qed.

Lemma area_int_exact_witness :
  area_int 32 (GEORect (-2147483648) 0 2147483647 1) = None /\
  area_int 32 (GEORect 0 0 2147483647 2147483647) = Some 4611686014132420609.
Proof.
  split; rewrite area_int_exact; try decide_compute; reflexivity.
Defined.

(** Two rectangles of positive size overlap exactly when some grid point
    lies in both half-open rectangles; touching along an edge is not overlap. *)
Theorem overlaps_iff_common_point a b :
  x_low_ a < x_high_ a -> y_low_ a < y_high_ a -> x_low_ b < x_high_ b -> y_low_ b < y_high_ b ->
  overlaps a b = true <-> exists p, contains a p = true /\ contains b p = true.
Proof.
  intros. unfold overlaps, contains.
  rewrite !andb_true_iff, !Z.ltb_lt. setoid_rewrite andb_true_iff. setoid_rewrite andb_true_iff.
  setoid_rewrite andb_true_iff. setoid_rewrite Z.leb_le. setoid_rewrite Z.ltb_lt. split.
  - intros. exists (GEOPoint (Z.max (x_low_ a) (x_low_ b)) (Z.max (y_low_ a) (y_low_ b))). cbn. lia.
  - intros [p ?]. lia.
Qed.

Lemma overlaps_iff_common_point_witness :
  overlaps (GEORect 0 0 10 10) (GEORect 9 9 12 12) = true /\
  overlaps (GEORect 0 0 10 10) (GEORect 10 0 20 10) = false.
Proof.
  split; [|reflexivity]. apply overlaps_iff_common_point; [reflexivity..|].
  exists (GEOPoint 9 9). split; reflexivity.
Defined.
