(* ===== verification/Bytes.v ===== *)
(** Bytes in memory and on disk, shared by the storage components.

    A buffer is a list of bytes.  Integers are copied to and from buffers with
    [memcpy] on a little-endian machine: [le_split n z] is the [n]-byte image of
    [z] and [le_combine] reads one back (coqutil's codec).  [slice] is the
    [n] bytes at an offset; reading past the end yields fewer bytes, so the
    callers state the bounds the code checks. *)

From stdpp Require Import base list option.
From Stdlib Require Import ZArith Lia.
From coqutil Require Import Byte.
From coqutil Require Export Word.LittleEndianList.
From S2P Require Import Prelude.

#[export] Instance byte_eq_dec : EqDecision byte.
Proof. intros a b. destruct (Byte.byte_eq_dec a b); [by left|by right]. Defined.

Definition bytes := list byte.

Definition slice (off n : nat) (bs : bytes) : bytes := take n (drop off bs).

(** [memcpy(&x, data + off, n)] for an unsigned integer of [n] bytes. *)
Definition load (n off : nat) (bs : bytes) : Z := le_combine (slice off n bs).

(** An unsigned integer of [n] bytes. *)
Definition unsigned (n : nat) (z : Z) : Prop := (0 <= z < 2 ^ (8 * Z.of_nat n))%Z.

Create HintDb bytes.

Lemma slice_add off n m bs : slice off (n + m) bs = slice off n bs ++ slice (off + n) m bs.
Proof. unfold slice. by rewrite <- drop_drop, take_take_drop. Qed.

Lemma drop_slice off n bs : drop off bs = slice off n bs ++ drop (off + n) bs.
Proof. unfold slice. by rewrite <- drop_drop, take_drop. Qed.

Lemma length_slice off n bs : length (slice off n bs) = (n `min` (length bs - off))%nat.
Proof. unfold slice. by rewrite length_take, length_drop. Qed.

Lemma slice_here n x s : length x = n -> slice 0 n (x ++ s) = x.
Proof. intros <-. unfold slice. rewrite drop_0. apply take_app_length. Qed.

Lemma slice_all n x : length x = n -> slice 0 n x = x.
Proof. intros <-. unfold slice. rewrite drop_0. by apply take_ge. Qed.

Lemma slice_skip off n x s :
  (length x <= off)%nat -> slice off n (x ++ s) = slice (off - length x) n s.
Proof. intros. unfold slice. by rewrite drop_app_ge. Qed.

Lemma slice_mid n p x s off :
  length p = off -> length x = n -> slice off n (p ++ x ++ s) = x.
Proof.
  intros Hp Hx. rewrite slice_skip by lia. rewrite Hp, Nat.sub_diag. by apply slice_here.
Qed.

Lemma load_split n z s : unsigned n z -> load n 0 (le_split n z ++ s) = z.
Proof.
  intros Hz. unfold load. rewrite slice_here by apply length_le_split.
  rewrite le_combine_split. apply Z.mod_small. unfold unsigned in Hz.
  by rewrite Z.mul_comm.
Qed.

Lemma load_skip n off x s :
  (length x <= off)%nat -> load n off (x ++ s) = load n (off - length x) s.
Proof. intros. unfold load. by rewrite slice_skip. Qed.

Lemma load_unsigned n off bs : unsigned n (load n off bs).
Proof.
  unfold unsigned, load. pose proof (le_combine_bound (slice off n bs)) as [Hl Hu].
  split; [done|]. eapply Z.lt_le_trans; [exact Hu|]. apply Z.pow_le_mono_r; [lia|].
  rewrite length_slice. lia.
Qed.

(** Bytes read back are the image of the integer they decode to. *)
Lemma split_load n off bs :
  (off + n <= length bs)%nat -> le_split n (load n off bs) = slice off n bs.
Proof.
  intros. unfold load. apply split_le_combine'. rewrite length_slice. lia.
Qed.

Lemma split_combine_unsigned n z : unsigned n z -> le_combine (le_split n z) = z.
Proof. intros Hz. rewrite le_combine_split. apply Z.mod_small. unfold unsigned in Hz. by rewrite Z.mul_comm. Qed.

#[export] Hint Rewrite length_le_split length_app @length_nil @length_cons : bytes.
#[export] Hint Resolve load_unsigned : bytes.

(** Closes goals on lengths of concatenated images. *)
Ltac bytes_len := autorewrite with bytes in *; cbn [length] in *; lia.

(** Reads a field out of a concatenation of images at constant offsets. *)
Ltac load_field :=
  repeat (rewrite load_skip by bytes_len; autorewrite with bytes; cbn [Nat.sub]);
  apply load_split; auto with bytes.

(** ** Tables of 32-bit integers *)

Definition put_u32s (l : list Z) : bytes := concat (le_split 4 <$> l).

Fixpoint get_u32s (n : nat) (bs : bytes) : list Z :=
  match n with
  | O => []
  | S n => load 4 0 bs :: get_u32s n (drop 4 bs)
  end.

Lemma length_put_u32s l : length (put_u32s l) = (4 * length l)%nat.
Proof.
  unfold put_u32s. induction l as [|x l IH]; [done|]. cbn. rewrite length_app, length_le_split, IH. lia.
Qed.
#[export] Hint Rewrite length_put_u32s : bytes.

Lemma get_put_u32s l s : Forall (unsigned 4) l -> get_u32s (length l) (put_u32s l ++ s) = l.
Proof.
  induction 1 as [|x l Hx Hl IH]; [done|]. cbn [length get_u32s].
  change (put_u32s (x :: l)) with (le_split 4 x ++ put_u32s l). rewrite <- app_assoc.
  rewrite load_split by done. f_equal.
  rewrite drop_app_length' by (by rewrite length_le_split). done.
Qed.

Lemma get_u32s_app n bs s : (4 * n <= length bs)%nat -> get_u32s n (bs ++ s) = get_u32s n bs.
Proof.
  revert bs. induction n as [|n IH]; intros bs Hn; [done|]. cbn. f_equal.
  - unfold load, slice. rewrite !drop_0. by rewrite take_app_le by lia.
  - rewrite drop_app_le by lia. apply IH. rewrite length_drop. lia.
Qed.

Lemma get_u32s_take n bs : (4 * n <= length bs)%nat -> get_u32s n (take (4 * n) bs) = get_u32s n bs.
Proof.
  intros Hn. rewrite <- (take_drop (4 * n) bs) at 2. symmetry. apply get_u32s_app.
  rewrite length_take. lia.
Qed.

Lemma put_get_u32s n bs : length bs = (4 * n)%nat -> put_u32s (get_u32s n bs) = bs.
Proof.
  revert bs. induction n as [|n IH]; intros bs Hn.
  { destruct bs; [done|cbn in Hn; lia]. }
  cbn. unfold put_u32s in *. cbn. rewrite IH by (rewrite length_drop; lia).
  rewrite split_load by lia. unfold slice. rewrite drop_0. apply take_drop.
Qed.

Lemma length_get_u32s n bs : length (get_u32s n bs) = n.
Proof. revert bs. induction n; intros bs; cbn; congruence. Qed.

Lemma get_u32s_unsigned n bs : Forall (unsigned 4) (get_u32s n bs).
Proof. revert bs. induction n; intros bs; cbn; constructor; auto with bytes. Qed.
