(* ===== verification/ObjectHeader.v ===== *)
(** The object header (src/common/serialization/cpp/object_header.h and .cpp,
    src/common/types/cpp/compression_type.h): the metadata written in front of an
    object in memory and behind its block stream on disk (the trailer).

    The checksum (src/common/buffer/cpp/data_checksum.h) wraps a CRC-64 of an
    external library; it is the operation of the class [Checksum], whose law is
    the first clause of the contract in that header: a digest is a 64-bit
    unsigned integer. *)

From stdpp Require Import base list option.
From Stdlib Require Import ZArith Lia.
From coqutil Require Import Byte.
From S2P Require Import Prelude Bytes.

Open Scope Z_scope.

Inductive CompressionType := NONE | LZ4 | ZLIB | ZSTD.
#[export] Instance CompressionType_eq_dec : EqDecision CompressionType.
Proof. solve_decision. Defined.

(** The stable byte values of the enumeration. *)
Definition compression_type_raw (c : CompressionType) : Z :=
  match c with NONE => 0 | LZ4 => 1 | ZLIB => 2 | ZSTD => 3 end.

Definition is_valid_compression_type (raw : Z) : bool := raw <=? compression_type_raw ZSTD.

(** [static_cast<CompressionType>(raw)] for a valid value. *)
Definition compression_type_of (raw : Z) : CompressionType :=
  if raw =? 0 then NONE else if raw =? 1 then LZ4 else if raw =? 2 then ZLIB else ZSTD.

Class Checksum := {
  data_checksum : bytes -> Z;
  data_checksum_u64 : forall b, unsigned 8 (data_checksum b)
}.

Definition FLY_OBJECT_MAGIC : Z := 0x464C5900.
Definition FLY_OBJECT_VERSION : Z := 1.

Record ObjectHeader := mkObjectHeader {
  magic_ : Z;
  version_ : Z;
  py_name_len_ : Z;
  py_name_ : bytes;
  total_size_ : Z;
  chunk_count_ : Z;
  compression_type_ : CompressionType;
  block_comp_lens_ : list Z
}.

Definition fixed_header_size : nat := 24.

Definition is_valid (magic : Z) : bool := magic =? FLY_OBJECT_MAGIC.

(** The fixed part, shared by the memory format and the trailer: [table_len] is
    the length of the block table in bytes. *)
Definition fixed_bytes (h : ObjectHeader) (table_len : Z) : bytes :=
  le_split 4 (magic_ h) ++ le_split 1 (version_ h) ++
  le_split 2 (Z.of_nat (length (py_name_ h))) ++ le_split 4 table_len ++
  le_split 8 (total_size_ h) ++ le_split 4 (chunk_count_ h) ++
  le_split 1 (compression_type_raw (compression_type_ h)).

Definition serialize (h : ObjectHeader) : bytes := fixed_bytes h 0 ++ py_name_ h.

(** [None] is the result [false]; the second component is [offset] after the
    call, which may have advanced on a failure. *)
Definition deserialize (data : bytes) (offset : nat) : option ObjectHeader * nat :=
  if (length data <? offset + fixed_header_size)%nat then (None, offset) else
  let magic := load 4 offset data in
  let offset := (offset + 4)%nat in
  if negb (is_valid magic) then (None, offset) else
  let version := load 1 offset data in
  let offset := (offset + 1)%nat in
  if FLY_OBJECT_VERSION <? version then (None, offset) else
  let py_name_len := load 2 offset data in
  let offset := (offset + 2)%nat in
  let mem_table_len := load 4 offset data in
  let offset := (offset + 4)%nat in
  if negb (mem_table_len =? 0) then (None, offset) else
  let total_size := load 8 offset data in
  let offset := (offset + 8)%nat in
  let chunk_count := load 4 offset data in
  let offset := (offset + 4)%nat in
  let comp_raw := load 1 offset data in
  if negb (is_valid_compression_type comp_raw) then (None, offset) else
  let offset := (offset + 1)%nat in
  let comp := compression_type_of comp_raw in
  if 0 <? py_name_len then
    if (length data <? offset + Z.to_nat py_name_len)%nat then (None, offset) else
    (Some (mkObjectHeader magic version py_name_len (slice offset (Z.to_nat py_name_len) data)
             total_size chunk_count comp []), offset + Z.to_nat py_name_len)%nat
  else
    (Some (mkObjectHeader magic version py_name_len [] total_size chunk_count comp []), offset).

Section trailer.
Context `{Checksum}.

Definition trailer_body (h : ObjectHeader) : bytes :=
  put_u32s (block_comp_lens_ h) ++ py_name_ h ++
  fixed_bytes h (u32 (4 * Z.of_nat (length (block_comp_lens_ h)))).

Definition serialize_trailer (h : ObjectHeader) : bytes :=
  trailer_body h ++ le_split 8 (data_checksum (trailer_body h)).

(** The header and the length of the trailer; [None] is the result [false]. *)
Definition deserialize_trailer (record : bytes) : option (ObjectHeader * nat) :=
  if (length record <? fixed_header_size + 8)%nat then None else
  let crc_p := (length record - 8)%nat in
  let stored_crc := load 8 crc_p record in
  let hp := (crc_p - fixed_header_size)%nat in
  let magic := load 4 hp record in
  if negb (is_valid magic) then None else
  let version := load 1 (hp + 4) record in
  if FLY_OBJECT_VERSION <? version then None else
  let py_name_len := load 2 (hp + 5) record in
  let table_len := load 4 (hp + 7) record in
  let total_size := load 8 (hp + 11) record in
  let chunk_count := load 4 (hp + 19) record in
  let comp_raw := load 1 (hp + 23) record in
  if negb (is_valid_compression_type comp_raw) then None else
  if negb (table_len =? chunk_count * 4) then None else
  let body_len := (Z.to_nat table_len + Z.to_nat py_name_len + fixed_header_size)%nat in
  if (length record <? body_len + 8)%nat then None else
  let body_start := (crc_p - body_len)%nat in
  if negb (data_checksum (slice body_start body_len record) =? stored_crc) then None else
  Some (mkObjectHeader magic version py_name_len
          (slice (body_start + Z.to_nat table_len) (Z.to_nat py_name_len) record)
          total_size chunk_count (compression_type_of comp_raw)
          (get_u32s (Z.to_nat chunk_count) (drop body_start record)), body_len + 8)%nat.
End trailer.

(** ** Headers the writers produce *)

(** The members fit their widths; magic and version are the ones the readers
    accept; the name length is the one of the name. *)
Record header_ok (h : ObjectHeader) : Prop := {
  ok_magic : magic_ h = FLY_OBJECT_MAGIC;
  ok_version : 0 <= version_ h <= FLY_OBJECT_VERSION;
  ok_name_len : py_name_len_ h = Z.of_nat (length (py_name_ h));
  ok_name : unsigned 2 (py_name_len_ h);
  ok_total : unsigned 8 (total_size_ h);
  ok_chunks : unsigned 4 (chunk_count_ h)
}.

(** The block table agrees with the chunk count and its length fits 32 bits. *)
Record table_ok (h : ObjectHeader) : Prop := {
  ok_table : chunk_count_ h = Z.of_nat (length (block_comp_lens_ h));
  ok_lens : Forall (unsigned 4) (block_comp_lens_ h);
  ok_table_len : 4 * chunk_count_ h < 2 ^ 32
}.

Lemma compression_raw_of c : compression_type_of (compression_type_raw c) = c.
Proof. by destruct c. Qed.

Lemma compression_of_raw raw :
  0 <= raw -> is_valid_compression_type raw = true ->
  compression_type_raw (compression_type_of raw) = raw.
Proof.
  unfold is_valid_compression_type, compression_type_of. intros H0 H%Z.leb_le. cbn in H.
  destruct (Z.eqb_spec raw 0); [done|]. destruct (Z.eqb_spec raw 1); [done|].
  destruct (Z.eqb_spec raw 2); [done|]. cbn. lia.
Qed.

Lemma compression_raw_u8 c : unsigned 1 (compression_type_raw c).
Proof. destruct c; unfold unsigned; cbn; lia. Qed.

Lemma compression_raw_valid c : is_valid_compression_type (compression_type_raw c) = true.
Proof. by destruct c. Qed.

Lemma length_fixed h t : length (fixed_bytes h t) = 24%nat.
Proof. unfold fixed_bytes. by autorewrite with bytes. Qed.
#[export] Hint Rewrite length_fixed : bytes.

Lemma magic_u32 : unsigned 4 FLY_OBJECT_MAGIC.
Proof. unfold unsigned, FLY_OBJECT_MAGIC. cbn. lia. Qed.
#[export] Hint Resolve magic_u32 compression_raw_u8 : bytes.

(** The fields of the fixed part read back, whatever precedes and follows it. *)
Section fixed_fields.
Context (h : ObjectHeader) (t : Z) (pre post : bytes).
Hypothesis (Hok : header_ok h) (Ht : unsigned 4 t).

Local Notation rec := (pre ++ fixed_bytes h t ++ post).
Local Notation at_ k := (length pre + k)%nat.

Lemma load_fixed n k : load n (at_ k) rec = load n k (fixed_bytes h t ++ post).
Proof using Hok Ht. rewrite load_skip by lia. f_equal. lia. Qed.

Lemma fixed_magic : load 4 (at_ 0) rec = FLY_OBJECT_MAGIC.
Proof using Hok Ht.
  rewrite load_fixed. unfold fixed_bytes. rewrite <- !app_assoc, (ok_magic h Hok).
  load_field.
Qed.

Lemma fixed_version : load 1 (at_ 4) rec = version_ h.
Proof using Hok Ht.
  rewrite load_fixed. unfold fixed_bytes. rewrite <- !app_assoc. load_field.
  pose proof (ok_version h Hok). unfold unsigned, FLY_OBJECT_VERSION in *. cbn. lia.
Qed.

Lemma fixed_name_len : load 2 (at_ 5) rec = py_name_len_ h.
Proof using Hok Ht.
  rewrite load_fixed. unfold fixed_bytes. rewrite <- !app_assoc, <- (ok_name_len h Hok). load_field.
  apply (ok_name h Hok).
Qed.

Lemma fixed_table_len : load 4 (at_ 7) rec = t.
Proof using Hok Ht. rewrite load_fixed. unfold fixed_bytes. rewrite <- !app_assoc. load_field. Qed.

Lemma fixed_total : load 8 (at_ 11) rec = total_size_ h.
Proof using Hok Ht.
  rewrite load_fixed. unfold fixed_bytes. rewrite <- !app_assoc. load_field. apply (ok_total h Hok).
Qed.

Lemma fixed_chunks : load 4 (at_ 19) rec = chunk_count_ h.
Proof using Hok Ht.
  rewrite load_fixed. unfold fixed_bytes. rewrite <- !app_assoc. load_field. apply (ok_chunks h Hok).
Qed.

Lemma fixed_comp : load 1 (at_ 23) rec = compression_type_raw (compression_type_ h).
Proof using Hok Ht.
  rewrite load_fixed. unfold fixed_bytes. rewrite <- !app_assoc. load_field.
Qed.
End fixed_fields.

(** ** Round trips *)

(** The memory format does not carry the block table. *)
Definition without_table (h : ObjectHeader) : ObjectHeader :=
  mkObjectHeader (magic_ h) (version_ h) (py_name_len_ h) (py_name_ h) (total_size_ h)
    (chunk_count_ h) (compression_type_ h) [].

Lemma name_slice (off : nat) (name post pre : bytes) z :
  length pre = off -> z = Z.of_nat (length name) -> slice off (Z.to_nat z) (pre ++ name ++ post) = name.
Proof. intros Hp ->. rewrite Nat2Z.id. by apply slice_mid. Qed.

Lemma deserialize_serialize pre h post :
  header_ok h ->
  deserialize (pre ++ serialize h ++ post) (length pre) =
    (Some (without_table h), length pre + length (serialize h))%nat.
Proof.
  intros Hok. unfold serialize. rewrite <- app_assoc. set (post' := py_name_ h ++ post).
  assert (H0 : unsigned 4 0) by (unfold unsigned; cbn; lia).
  unfold deserialize.
  rewrite (proj2 (Nat.ltb_ge _ _)) by (unfold fixed_header_size; bytes_len).
  pose proof (fixed_magic h 0 pre post' Hok H0) as Hm. rewrite Nat.add_0_r in Hm. rewrite Hm.
  rewrite <- !Nat.add_assoc. cbn [Nat.add is_valid].
  rewrite (fixed_version h 0 pre post' Hok H0), (fixed_name_len h 0 pre post' Hok H0),
    (fixed_table_len h 0 pre post' Hok H0), (fixed_total h 0 pre post' Hok H0),
    (fixed_chunks h 0 pre post' Hok H0), (fixed_comp h 0 pre post' Hok H0).
  rewrite (proj2 (Z.ltb_ge _ _)) by apply (ok_version h Hok).
  rewrite compression_raw_valid, compression_raw_of. unfold is_valid.
  rewrite Z.eqb_refl. cbn [negb Z.eqb].
  rewrite (ok_name_len h Hok), <- (ok_magic h Hok). unfold without_table.
  rewrite (ok_name_len h Hok).
  replace (length (fixed_bytes h 0 ++ py_name_ h)) with (24 + length (py_name_ h))%nat by bytes_len.
  destruct (Z.ltb_spec 0 (Z.of_nat (length (py_name_ h)))).
  - rewrite (proj2 (Nat.ltb_ge _ _)) by (unfold post'; bytes_len).
    replace (pre ++ fixed_bytes h 0 ++ post') with ((pre ++ fixed_bytes h 0) ++ py_name_ h ++ post)
      by (unfold post'; by rewrite <- !app_assoc).
    rewrite name_slice by (done || bytes_len). do 2 f_equal. lia.
  - destruct (py_name_ h) eqn:En; [|cbn in *; lia]. cbn. do 2 f_equal.
Qed.

Section trailer_proofs.
Context `{Checksum}.

Lemma length_trailer_body h :
  length (trailer_body h) = (4 * length (block_comp_lens_ h) + length (py_name_ h) + 24)%nat.
Proof. unfold trailer_body. bytes_len. Qed.

Lemma length_serialize_trailer h :
  length (serialize_trailer h) = (length (trailer_body h) + 8)%nat.
Proof. unfold serialize_trailer. bytes_len. Qed.

Definition table_bytes (h : ObjectHeader) : Z := 4 * Z.of_nat (length (block_comp_lens_ h)).

Lemma table_bytes_u32 h : table_ok h -> unsigned 4 (table_bytes h).
Proof.
  intros Ht. pose proof (ok_table_len h Ht) as Hlt. rewrite (ok_table h Ht) in Hlt.
  unfold unsigned, table_bytes. split; [lia|exact Hlt].
Qed.

(** A trailer seen as the fixed part between what precedes it and the checksum. *)
Lemma serialize_trailer_split area h :
  table_ok h ->
  area ++ serialize_trailer h =
    (area ++ put_u32s (block_comp_lens_ h) ++ py_name_ h) ++
    fixed_bytes h (table_bytes h) ++ le_split 8 (data_checksum (trailer_body h)).
Proof.
  intros Ht. unfold serialize_trailer. set (crc := le_split 8 _). unfold trailer_body.
  fold (table_bytes h). unfold u32. rewrite Z.mod_small by (by apply table_bytes_u32).
  by rewrite <- !app_assoc.
Qed.

Lemma load_trailer_crc area h :
  load 8 (length area + length (trailer_body h)) (area ++ serialize_trailer h)
  = data_checksum (trailer_body h).
Proof.
  unfold serialize_trailer. rewrite app_assoc, load_skip by bytes_len.
  replace (_ - _)%nat with 0%nat by bytes_len.
  rewrite <- (app_nil_r (le_split _ _)). apply load_split, data_checksum_u64.
Qed.

Lemma deserialize_serialize_trailer area h :
  header_ok h -> table_ok h ->
  deserialize_trailer (area ++ serialize_trailer h) = Some (h, length (serialize_trailer h)).
Proof.
  intros Hok Htab. pose proof (length_trailer_body h) as Hlb.
  pose proof (length_serialize_trailer h) as Hls. pose proof (table_bytes_u32 h Htab) as Htl.
  pose proof (serialize_trailer_split area h Htab) as Hrec.
  set (pre := area ++ put_u32s (block_comp_lens_ h) ++ py_name_ h) in *.
  set (crc := le_split 8 _) in *. set (tl := table_bytes h) in *.
  assert (Hpre : (length pre + 24 = length area + length (trailer_body h))%nat)
    by (unfold pre; bytes_len).
  assert (Hname : Z.to_nat (py_name_len_ h) = length (py_name_ h))
    by (rewrite (ok_name_len h Hok); lia).
  unfold deserialize_trailer. rewrite (length_app area), Hls.
  replace (length area + (length (trailer_body h) + 8) - 8)%nat
    with (length area + length (trailer_body h))%nat by lia.
  rewrite load_trailer_crc.
  rewrite (proj2 (Nat.ltb_ge _ _)) by (unfold fixed_header_size; lia).
  replace (length area + length (trailer_body h) - fixed_header_size)%nat with (length pre)
    by (unfold fixed_header_size; lia).
  rewrite Hrec. pose proof (fixed_magic h tl pre crc Hok Htl) as Hm.
  rewrite Nat.add_0_r in Hm. rewrite Hm.
  rewrite (fixed_version h tl pre crc Hok Htl), (fixed_name_len h tl pre crc Hok Htl),
    (fixed_table_len h tl pre crc Hok Htl), (fixed_total h tl pre crc Hok Htl),
    (fixed_chunks h tl pre crc Hok Htl), (fixed_comp h tl pre crc Hok Htl), <- Hrec.
  rewrite (proj2 (Z.ltb_ge _ _)) by apply (ok_version h Hok).
  rewrite compression_raw_valid, compression_raw_of. unfold is_valid. rewrite Z.eqb_refl. cbn [negb].
  replace (tl =? chunk_count_ h * 4) with true
    by (symmetry; apply Z.eqb_eq; rewrite (ok_table h Htab); unfold tl, table_bytes; lia).
  cbn [negb]. rewrite Hname.
  replace (Z.to_nat tl) with (4 * length (block_comp_lens_ h))%nat by (unfold tl, table_bytes; lia).
  replace (4 * length (block_comp_lens_ h) + length (py_name_ h) + fixed_header_size)%nat
    with (length (trailer_body h)) by (unfold fixed_header_size; lia).
  rewrite (proj2 (Nat.ltb_ge _ _)) by lia.
  replace (length area + length (trailer_body h) - length (trailer_body h))%nat
    with (length area) by lia.
  unfold serialize_trailer at 1. rewrite slice_mid by done. rewrite Z.eqb_refl. cbn [negb].
  rewrite drop_app_length. unfold serialize_trailer, trailer_body at 1 3.
  rewrite (ok_table h Htab), Nat2Z.id, <- !app_assoc, get_put_u32s by apply (ok_lens h Htab).
  rewrite (app_assoc area), slice_mid by bytes_len.
  do 2 f_equal. rewrite <- (ok_magic h Hok), <- (ok_table h Htab). by destruct h.
Qed.

(** The fixed part of a parsed record, byte for byte. *)
Lemma fixed_of_loads record hp h t :
  (hp + 24 <= length record)%nat ->
  magic_ h = load 4 hp record -> version_ h = load 1 (hp + 4) record ->
  Z.of_nat (length (py_name_ h)) = load 2 (hp + 5) record -> t = load 4 (hp + 7) record ->
  total_size_ h = load 8 (hp + 11) record -> chunk_count_ h = load 4 (hp + 19) record ->
  compression_type_raw (compression_type_ h) = load 1 (hp + 23) record ->
  fixed_bytes h t = slice hp 24 record.
Proof using.
  intros Hlen Hm Hv Hn Ht Hs Hc Hr. unfold fixed_bytes. rewrite Hm, Hv, Hn, Ht, Hs, Hc, Hr.
  rewrite !split_load by lia.
  change 24%nat with (4 + (1 + (2 + (4 + (8 + (4 + 1))))))%nat.
  rewrite !slice_add. rewrite <- !Nat.add_assoc. done.
Qed.

(** What the checks of the parser establish about the record. *)
Lemma deserialize_trailer_facts record h n :
  deserialize_trailer record = Some (h, n) ->
  exists k nl, let len := length record in let b := (len - 8 - (4 * k + nl + 24))%nat in
    (4 * k + nl + 24 + 8 <= len)%nat /\ n = (4 * k + nl + 24 + 8)%nat /\
    data_checksum (slice b (4 * k + nl + 24) record) = load 8 (len - 8) record /\
    header_ok h /\ table_ok h /\
    length (py_name_ h) = nl /\ py_name_ h = slice (b + 4 * k) nl record /\
    block_comp_lens_ h = get_u32s k (drop b record) /\
    fixed_bytes h (table_bytes h) = slice (len - 8 - 24) 24 record.
Proof.
  unfold deserialize_trailer, fixed_header_size. intros Hp.
  set (len := length record) in *. set (hp := (len - 8 - 24)%nat) in *.
  destruct (Nat.ltb_spec len (24 + 8)) as [|Hlen]; [done|].
  destruct (is_valid _) eqn:Hmag in Hp; cbn [negb] in Hp; [|done]. apply Z.eqb_eq in Hmag.
  destruct (Z.ltb_spec FLY_OBJECT_VERSION (load 1 (hp + 4) record)) as [|Hver] in Hp; [done|].
  destruct (is_valid_compression_type _) eqn:Hcomp in Hp; cbn [negb] in Hp; [|done].
  destruct (Z.eqb_spec (load 4 (hp + 7) record) (load 4 (hp + 19) record * 4)) as [Htab|] in Hp;
    cbn [negb] in Hp; [|done].
  set (cc := load 4 (hp + 19) record) in *.
  pose proof (load_unsigned 2 (hp + 5) record) as Hnl.
  pose proof (load_unsigned 4 (hp + 19) record) as Hcc. fold cc in Hcc.
  pose proof (load_unsigned 4 (hp + 7) record) as Htl. rewrite Htab in *.
  replace (Z.to_nat (cc * 4)) with (4 * Z.to_nat cc)%nat in Hp by (unfold unsigned in *; lia).
  exists (Z.to_nat cc), (Z.to_nat (load 2 (hp + 5) record)).
  set (nl := Z.to_nat (load 2 _ _)) in *. set (k := Z.to_nat cc) in *.
  destruct (Nat.ltb_spec len (4 * k + nl + 24 + 8)) as [|Hbl] in Hp; [done|].
  destruct (Z.eqb_spec (data_checksum (slice (len - 8 - (4 * k + nl + 24)) (4 * k + nl + 24) record))
    (load 8 (len - 8) record)) as [Hcrc|] in Hp; cbn [negb] in Hp; [|done].
  apply (inj Some), pair_equal_spec in Hp as [<- <-]. split; [done|]. split; [done|]. split; [done|].
  assert (Hname : length (slice (len - 8 - (4 * k + nl + 24) + 4 * k) nl record) = nl)
    by (rewrite length_slice; lia).
  split; [split|split; [split|split_and!]]; cbn [magic_ version_ py_name_len_ py_name_ total_size_
    chunk_count_ block_comp_lens_]; try done.
  - split; [apply load_unsigned|done].
  - rewrite Hname. unfold nl, unsigned in *. lia.
  - apply load_unsigned.
  - rewrite length_get_u32s. unfold unsigned in *. lia.
  - apply get_u32s_unsigned.
  - unfold unsigned in Htl. lia.
  - apply fixed_of_loads; cbn [magic_ version_ py_name_ total_size_ chunk_count_ compression_type_];
      try done; [lia|rewrite Hname; unfold nl, unsigned in *; lia| |].
    + unfold table_bytes; cbn [block_comp_lens_]. rewrite length_get_u32s. unfold unsigned in *. lia.
    + apply compression_of_raw; [apply load_unsigned|done].
Qed.

(** A record the parser accepts ends with the serialization of the header. *)
Lemma deserialize_trailer_inv record h n :
  deserialize_trailer record = Some (h, n) ->
  header_ok h /\ table_ok h /\
  exists area, record = area ++ serialize_trailer h /\ n = length (serialize_trailer h).
Proof.
  intros (k & nl & Hlen & -> & Hcrc & Hok & Htok & Hnl & Hname & Htab & Hfix)%deserialize_trailer_facts.
  split; [done|]. split; [done|]. set (len := length record) in *.
  set (b := (len - 8 - (4 * k + nl + 24))%nat) in *.
  assert (Hbody : slice b (4 * k + nl + 24) record = trailer_body h).
  { unfold trailer_body. fold (table_bytes h). rewrite u32_small, Hfix by (by apply table_bytes_u32).
    rewrite !slice_add, <- app_assoc, Hname, Htab. f_equal; [|f_equal; f_equal; lia].
    unfold slice. rewrite <- get_u32s_take by (rewrite length_drop; lia).
    rewrite put_get_u32s; [done|]. rewrite length_take, length_drop. lia. }
  exists (take b record). rewrite length_serialize_trailer, <- Hbody, length_slice. split; [|lia].
  rewrite <- (take_drop b record) at 1. f_equal.
  rewrite (drop_slice b (4 * k + nl + 24)). unfold serialize_trailer. rewrite <- Hbody, Hcrc. f_equal.
  replace (b + (4 * k + nl + 24))%nat with (len - 8)%nat by lia.
  rewrite split_load by lia. unfold slice. symmetry. apply take_ge. rewrite length_drop. lia.
Qed.
End trailer_proofs.

(** ** Properties *)

(** A checksum for the witnesses: the sum of the bytes. *)
#[export] Instance sum_checksum : Checksum := {
  data_checksum b := u64 (foldr (fun x acc => byte.unsigned x + acc) 0 b);
  data_checksum_u64 b := Z.mod_pos_bound _ (2 ^ 64) eq_refl
}.

(** A header read back from the memory format, at any offset and whatever
    surrounds it, is the one that was written (less the block table, which that
    format does not carry), and the offset advances past exactly its bytes. *)
Theorem header_roundtrip pre h post :
  header_ok h ->
  deserialize (pre ++ serialize h ++ post) (length pre) =
    (Some (without_table h), length pre + length (serialize h))%nat.
Proof. apply deserialize_serialize. Qed.

Definition sample_header : ObjectHeader :=
  mkObjectHeader FLY_OBJECT_MAGIC 1 2 (map byte.of_Z [104; 105]) 300 2 LZ4 [17; 40].

Lemma sample_header_ok : header_ok sample_header /\ table_ok sample_header.
Proof. split; split; cbn; unfold unsigned, FLY_OBJECT_VERSION; cbn; repeat constructor; lia. Qed.

Lemma header_roundtrip_witness :
  deserialize ([Byte.x00] ++ serialize sample_header ++ [Byte.x01]) 1 =
    (Some (without_table sample_header), 27%nat).
Proof. exact (header_roundtrip [Byte.x00] sample_header [Byte.x01] (proj1 sample_header_ok)). Defined.

(** C17: The trailer parser accepts a record exactly when it ends with the
    serialization of a well-formed header, and then returns that header and the
    length of the serialization: every written trailer is read back, whatever
    block area precedes it, and nothing but a written trailer is accepted. *)
Theorem trailer_parse_iff `{Checksum} record h n :
  deserialize_trailer record = Some (h, n) <->
  header_ok h /\ table_ok h /\
  exists area, record = area ++ serialize_trailer h /\ n = length (serialize_trailer h).
Proof.
  split; [apply deserialize_trailer_inv|].
  intros (Hok & Ht & area & -> & ->). by apply deserialize_serialize_trailer.
Qed.

Lemma trailer_parse_iff_witness :
  deserialize_trailer ([Byte.x07; Byte.x08] ++ serialize_trailer sample_header) =
    Some (sample_header, 42%nat).
Proof.
  apply trailer_parse_iff. split; [apply sample_header_ok|]. split; [apply sample_header_ok|].
  exists [Byte.x07; Byte.x08]. split; reflexivity.
Defined.
