(* ===== verification/Pipeline.v ===== *)
(** The block pipeline (src/storage/cpp/pipeline.h and .cpp) and the compressors
    behind it (src/storage/cpp/compressor.h and .cpp, lz4_compressor.cpp,
    zlib_compressor.cpp, zstd_compressor.cpp).

    Plain bytes are cut into blocks; each block goes through a list of stages
    (compress, checksum, block header) and is emitted as a block record.  The
    reader pulls records from a source, verifies and decompresses them.

    The compression libraries are the operations of the class [CompressionLib];
    its laws are that decompressing the output of a successful compression into a
    buffer of the original size gives the original bytes back, and that the
    output stays within the size the libraries' bound functions announce (each of
    the three is below twice the input and a kilobyte). *)

From stdpp Require Import base list option.
From Stdlib Require Import ZArith Lia.
From coqutil Require Import Byte.
From S2P Require Import Prelude Bytes ObjectHeader.

Open Scope Z_scope.

(** ** Compressors *)

(** [lib_decompress t data n]: the bytes written to a buffer of [n] bytes. *)
Class CompressionLib := {
  lib_compress : CompressionType -> bytes -> option bytes;
  lib_decompress : CompressionType -> bytes -> nat -> option bytes;
  lib_roundtrip : forall t x y, x <> [] -> lib_compress t x = Some y ->
    lib_decompress t y (length x) = Some x;
  lib_bound : forall t x y, lib_compress t x = Some y -> (length y <= 2 * length x + 1024)%nat
}.

Record CompressedChunk := mkCompressedChunk { compressed_size_ : Z; data_ : bytes }.

(** A failed library call returns [CompressedChunk{}]. *)
Definition compress `{CompressionLib} (t : CompressionType) (input : bytes) : CompressedChunk :=
  match t with
  | NONE => mkCompressedChunk (s32 (Z.of_nat (length input))) input
  | _ =>
      match input with
      | [] => mkCompressedChunk 0 []
      | _ =>
          match lib_compress t input with
          | Some out => mkCompressedChunk (s32 (Z.of_nat (length out))) out
          | None => mkCompressedChunk 0 []
          end
      end
  end.

(** The bytes written to [output]; [None] is the result -1. *)
Definition decompress_to `{CompressionLib} (t : CompressionType) (compressed_data : bytes)
    (output_size : nat) : option bytes :=
  match t with
  | NONE => Some (take output_size compressed_data)
  | _ => if decide (output_size = 0%nat) then Some [] else lib_decompress t compressed_data output_size
  end.

(** ** Blocks and stages *)

Record BlockData := mkBlockData {
  plain : bytes;
  encoded : bytes;
  crc : Z;
  unc_size : Z;
  comp_size : Z;
  raw : bool;
  tail_ : bool;
  failed : bool
}.

Definition empty_block : BlockData := mkBlockData [] [] 0 0 0 false false false.

(** A null compressor is [None]. *)
Record CompressConfig := mkCompressConfig {
  compressor_ : option CompressionType;
  ratio_floor_pct_ : Z;
  raw_threshold_ : Z
}.

Inductive WriteStage := CompressStage (c : CompressConfig) | CrcStage | BlockHeaderStage.

Inductive ReadStage := CrcVerifyStage | DecompressStage (compressor : option CompressionType).

Section stages.
Context `{Checksum} `{CompressionLib}.

Definition raw_block (b : BlockData) : BlockData :=
  mkBlockData (plain b) (plain b) (crc b) (unc_size b) (unc_size b) true (tail_ b) (failed b).

Definition process_compress (c : CompressConfig) (b : BlockData) : BlockData :=
  match compressor_ c with
  | None => raw_block b
  | Some t =>
      if (ratio_floor_pct_ c <=? 0)
         || (tail_ b && (0 <=? raw_threshold_ c) && (unc_size b <=? raw_threshold_ c))
      then raw_block b
      else
        let chunk := compress t (plain b) in
        if (0 <=? compressed_size_ chunk)
           && (compressed_size_ chunk * 100 <? unc_size b * ratio_floor_pct_ c)
        then mkBlockData (plain b) (data_ chunk) (crc b) (unc_size b) (compressed_size_ chunk)
               false (tail_ b) (failed b)
        else raw_block b
  end.

Definition process_crc (b : BlockData) : BlockData :=
  mkBlockData (plain b) (encoded b) (data_checksum (encoded b)) (unc_size b) (comp_size b)
    (raw b) (tail_ b) (failed b).

(** The bytes handed to [emit_]. *)
Definition process_header (b : BlockData) : bytes :=
  le_split 4 (unc_size b) ++ le_split 4 (comp_size b) ++ le_split 8 (crc b) ++ encoded b.

(** One stage: the block after it and the bytes it emitted. *)
Definition write_process (s : WriteStage) (b : BlockData) : BlockData * bytes :=
  match s with
  | CompressStage c => (process_compress c b, [])
  | CrcStage => (process_crc b, [])
  | BlockHeaderStage => (b, process_header b)
  end.

Fixpoint run_write_stages (stages : list WriteStage) (b : BlockData) : BlockData * bytes :=
  match stages with
  | [] => (b, [])
  | s :: stages =>
      let '(b, out) := write_process s b in
      let '(b, out') := run_write_stages stages b in (b, out ++ out')
  end.

Definition process_verify (b : BlockData) : BlockData :=
  mkBlockData (plain b) (encoded b) (crc b) (unc_size b) (comp_size b) (raw b) (tail_ b)
    (if data_checksum (encoded b) =? crc b then failed b else true).

Definition process_decompress (c : option CompressionType) (b : BlockData) : BlockData :=
  let passthrough :=
    mkBlockData (encoded b) (encoded b) (crc b) (unc_size b) (comp_size b) true (tail_ b) (failed b) in
  match c with
  | None => passthrough
  | Some t =>
      if comp_size b =? unc_size b then passthrough
      else
        match decompress_to t (encoded b) (Z.to_nat (unc_size b)) with
        | Some out =>
            if Z.of_nat (length out) =? unc_size b
            then mkBlockData out (encoded b) (crc b) (unc_size b) (comp_size b) false (tail_ b) (failed b)
            else mkBlockData (plain b) (encoded b) (crc b) (unc_size b) (comp_size b) false (tail_ b) true
        | None => mkBlockData (plain b) (encoded b) (crc b) (unc_size b) (comp_size b) false (tail_ b) true
        end
  end.

Definition read_process (s : ReadStage) (b : BlockData) : BlockData :=
  match s with
  | CrcVerifyStage => process_verify b
  | DecompressStage c => process_decompress c b
  end.

(** Stops at the first stage that marks the block failed. *)
Fixpoint run_read_stages (stages : list ReadStage) (b : BlockData) : option BlockData :=
  match stages with
  | [] => Some b
  | s :: stages =>
      let b := read_process s b in
      if failed b then None else run_read_stages stages b
  end.
End stages.

(** ** The writer *)

(** [emitted_] is everything handed to the sink so far. *)
Record WritePipeline := mkWritePipeline {
  w_stages_ : list WriteStage;
  chunk_size_ : nat;
  buf_ : bytes;
  ctx_ : BlockData;
  total_uncompressed_ : Z;
  w_chunk_count_ : Z;
  raw_blocks_ : Z;
  w_block_comp_lens_ : list Z;
  emitted_ : bytes
}.

Section writer.
Context `{Checksum} `{CompressionLib}.

Definition make_file_write_pipeline (compressor : option CompressionType) (chunk_size : nat)
    (ratio_floor_pct raw_threshold : Z) : WritePipeline :=
  let stages := match compressor with
    | Some t => [CompressStage (mkCompressConfig (Some t) ratio_floor_pct raw_threshold)]
    | None => []
    end ++ [CrcStage; BlockHeaderStage] in
  mkWritePipeline stages chunk_size [] empty_block 0 0 0 [] [].

Definition flush_block (p : WritePipeline) : WritePipeline :=
  let size := u32 (Z.of_nat (length (buf_ p))) in
  let b := mkBlockData (buf_ p) (buf_ p) (crc (ctx_ p)) size size true (tail_ (ctx_ p))
             (failed (ctx_ p)) in
  let '(b, out) := run_write_stages (w_stages_ p) b in
  let ctx := mkBlockData (plain b) (encoded b) (crc b) (unc_size b) (comp_size b) (raw b) false
               (failed b) in
  mkWritePipeline (w_stages_ p) (chunk_size_ p) [] ctx
    (u64 (total_uncompressed_ p + Z.of_nat (length (buf_ p)))) (u32 (w_chunk_count_ p + 1))
    (if raw b then u32 (raw_blocks_ p + 1) else raw_blocks_ p)
    (w_block_comp_lens_ p ++ [comp_size b]) (emitted_ p ++ out).

Definition flush_if_full (p : WritePipeline) : WritePipeline :=
  if decide (length (buf_ p) = chunk_size_ p) then flush_block p else p.

Definition append_buf (x : bytes) (p : WritePipeline) : WritePipeline :=
  mkWritePipeline (w_stages_ p) (chunk_size_ p) (buf_ p ++ x) (ctx_ p) (total_uncompressed_ p)
    (w_chunk_count_ p) (raw_blocks_ p) (w_block_comp_lens_ p) (emitted_ p).

(** The loop of [write]; [None] when the fuel runs out. *)
Fixpoint write_loop (fuel : nat) (data : bytes) (p : WritePipeline) : option WritePipeline :=
  match data with
  | [] => Some p
  | _ =>
      match fuel with
      | O => None
      | S fuel =>
          let p := flush_if_full p in
          let take_n := ((chunk_size_ p - length (buf_ p)) `min` length data)%nat in
          let p := flush_if_full (append_buf (take take_n data) p) in
          write_loop fuel (drop take_n data) p
      end
  end.

(** One iteration per byte is enough when blocks are not empty. *)
Definition write (data : bytes) (p : WritePipeline) : option WritePipeline :=
  write_loop (length data) data p.

Definition finish (p : WritePipeline) : WritePipeline :=
  match buf_ p with
  | [] => p
  | _ =>
      let c := ctx_ p in
      flush_block (mkWritePipeline (w_stages_ p) (chunk_size_ p) (buf_ p)
        (mkBlockData (plain c) (encoded c) (crc c) (unc_size c) (comp_size c) (raw c) true (failed c))
        (total_uncompressed_ p) (w_chunk_count_ p) (raw_blocks_ p) (w_block_comp_lens_ p) (emitted_ p))
  end.

Definition all_raw (p : WritePipeline) : bool :=
  (0 <? w_chunk_count_ p) && (raw_blocks_ p =? w_chunk_count_ p).
End writer.

(** ** The reader *)

(** [PullFn]: at most [n] bytes and the source after the call; no bytes is the
    end of the stream and [None] an error. *)
Class PullSource (Src : Type) := pull : nat -> Src -> option bytes * Src.

Record ReadPipeline (Src : Type) := mkReadPipeline {
  r_stages_ : list ReadStage;
  src_ : Src;
  hdr_partial_ : bool;
  failed_ : bool;
  eof_ : bool
}.
Arguments mkReadPipeline {Src}.
Arguments r_stages_ {Src}.
Arguments src_ {Src}.
Arguments hdr_partial_ {Src}.
Arguments failed_ {Src}.
Arguments eof_ {Src}.

Definition kMaxWireBlockBytes : Z := 64 * 1024 * 1024.

Section reader.
Context `{Checksum} `{CompressionLib} {Src : Type} `{PullSource Src}.

Definition make_block_read_pipeline (comp : CompressionType) (src : Src) : ReadPipeline Src :=
  mkReadPipeline
    [CrcVerifyStage; DecompressStage (match comp with NONE => None | _ => Some comp end)]
    src false false false.

(** The loop of [pull_exact]: the [n] bytes, [hdr_partial_] and the source
    after it; [None] is the result [false]. *)
Fixpoint pull_loop (fuel n : nat) (got : bytes) (partial : bool) (s : Src) :
    option bytes * bool * Src :=
  if (n <=? length got)%nat then (Some got, partial, s)
  else
    match fuel with
    | O => (None, partial, s)
    | S fuel =>
        match pull (n - length got)%nat s with
        | (None, s) | (Some [], s) => (None, partial, s)
        | (Some x, s) =>
            let got := got ++ x in
            pull_loop fuel n got (partial || (length got <? n)%nat) s
        end
    end.

(** Every pull that does not end the loop brings a byte. *)
Definition pull_exact (n : nat) (partial : bool) (s : Src) : option bytes * bool * Src :=
  pull_loop n n [] partial s.

Definition next_block (p : ReadPipeline Src) : option BlockData * ReadPipeline Src :=
  if failed_ p || eof_ p then (None, p)
  else
    match pull_exact 16 (hdr_partial_ p) (src_ p) with
    | (None, partial, s) => (None, mkReadPipeline (r_stages_ p) s partial partial (negb partial))
    | (Some hdr, _, s) =>
        let unc := load 4 0 hdr in
        let comp := load 4 4 hdr in
        let c := load 8 8 hdr in
        if (kMaxWireBlockBytes <? unc) || (kMaxWireBlockBytes <? comp)
        then (None, mkReadPipeline (r_stages_ p) s false true false)
        else
          match pull_exact (Z.to_nat comp) false s with
          | (None, partial, s) => (None, mkReadPipeline (r_stages_ p) s partial true false)
          | (Some data, partial, s) =>
              match run_read_stages (r_stages_ p) (mkBlockData [] data c unc comp false false false) with
              | None => (None, mkReadPipeline (r_stages_ p) s partial true false)
              | Some b => (Some b, mkReadPipeline (r_stages_ p) s partial false false)
              end
          end
    end.
End reader.

(** ** Sources that deliver a byte stream *)

(** What the reader relies on: a source with [bs] left delivers it in pieces,
    never empty before the end. *)
Class StreamSource (Src : Type) `{PullSource Src} := {
  remaining : Src -> bytes -> Prop;
  pull_stream : forall n s bs, (0 < n)%nat -> remaining s bs ->
    exists x rest s', pull n s = (Some x, s') /\ bs = x ++ rest /\ (length x <= n)%nat /\
      (bs <> [] -> x <> []) /\ remaining s' rest
}.

Section stream.
Context `{Checksum} `{CompressionLib} {Src : Type} `{StreamSource Src}.

Lemma pull_loop_stream fuel n x rest got partial s :
  remaining s (x ++ rest) -> (length got + length x = n)%nat -> (length x <= fuel)%nat ->
  exists partial' s', pull_loop fuel n got partial s = (Some (got ++ x), partial', s') /\
    remaining s' rest.
Proof.
  revert x got partial s. induction fuel as [|fuel IH]; intros x got partial s Hr Hn Hf.
  - destruct x; [|cbn in Hf; lia]. cbn. rewrite app_nil_r, (proj2 (Nat.leb_le _ _)) by (cbn in *; lia). eauto.
  - cbn [pull_loop]. destruct (Nat.leb_spec n (length got)) as [Hle|Hgt].
    { destruct x; [|cbn in Hn; lia]. rewrite app_nil_r. eauto. }
    destruct (pull_stream (n - length got) s _ ltac:(lia) Hr) as (y & rest' & s' & -> & Heq & Hy & Hne & Hr').
    assert (Hxr : x ++ rest <> []) by (destruct x; [cbn in Hn; lia|discriminate]).
    destruct y as [|y0 y]; [by destruct (Hne Hxr)|].
    set (y' := y0 :: y) in *.
    assert (Hx : x = y' ++ drop (length y') x /\ rest' = drop (length y') x ++ rest).
    { pose proof (take_app_length y' rest') as Htk. pose proof (drop_app_length y' rest') as Hdr.
      rewrite <- Heq, take_app_le in Htk by lia. rewrite <- Heq, drop_app_le in Hdr by lia.
      split; [|done]. rewrite <- Htk at 1. by rewrite take_drop. }
    destruct Hx as [Hx ->].
    assert (Hlx : length x = (length y' + length (drop (length y') x))%nat)
      by (rewrite Hx at 1; by rewrite length_app).
    destruct (IH (drop (length y') x) (got ++ y') (partial || (length (got ++ y') <? n)%nat) s')
      as (partial' & s'' & Hp & Hr''); [done|rewrite length_app; lia|cbn in *; lia|].
    exists partial', s''. fold y'. rewrite Hp. split; [|done].
    rewrite <- app_assoc. by rewrite <- Hx.
Qed.

Lemma pull_exact_stream n x rest partial s :
  remaining s (x ++ rest) -> length x = n ->
  exists partial' s', pull_exact n partial s = (Some x, partial', s') /\ remaining s' rest.
Proof. intros Hr Hn. apply (pull_loop_stream n n x rest []); [done|cbn; lia|lia]. Qed.

Lemma pull_exact_eof n partial s :
  remaining s [] -> (0 < n)%nat -> exists s', pull_exact n partial s = (None, partial, s').
Proof.
  intros Hr Hn. unfold pull_exact. destruct n as [|n]; [lia|]. cbn.
  destruct (pull_stream (S n) s [] Hn Hr) as (x & rest & s' & -> & Heq & _).
  symmetry in Heq. apply app_nil in Heq as [-> ->]. eauto.
Qed.
End stream.

(** ** Block records *)

Section records.
Context `{Checksum} `{CompressionLib}.

(** The record of a block with plain bytes [data] and payload [enc]. *)
Definition block_bytes (enc data : bytes) : bytes :=
  le_split 4 (Z.of_nat (length data)) ++ le_split 4 (Z.of_nat (length enc)) ++
  le_split 8 (data_checksum enc) ++ enc.

(** The payload represents the data for readers with decompressor [c]. *)
Definition encodes (c : option CompressionType) (enc data : bytes) : Prop :=
  enc = data \/
  exists t, c = Some t /\ (length enc < length data)%nat /\
    decompress_to t enc (length data) = Some data.

(** Sizes accepted on the wire. *)
Definition block_fits (enc data : bytes) : Prop :=
  Z.of_nat (length enc) <= kMaxWireBlockBytes /\ Z.of_nat (length data) <= kMaxWireBlockBytes.

Lemma length_block_bytes enc data : length (block_bytes enc data) = (16 + length enc)%nat.
Proof. unfold block_bytes. bytes_len. Qed.

Definition header_bytes (enc data : bytes) : bytes :=
  le_split 4 (Z.of_nat (length data)) ++ le_split 4 (Z.of_nat (length enc)) ++
  le_split 8 (data_checksum enc).

Lemma block_bytes_header enc data : block_bytes enc data = header_bytes enc data ++ enc.
Proof. unfold block_bytes, header_bytes. by rewrite <- !app_assoc. Qed.

Lemma header_fields enc data :
  block_fits enc data ->
  load 4 0 (header_bytes enc data) = Z.of_nat (length data) /\
  load 4 4 (header_bytes enc data) = Z.of_nat (length enc) /\
  load 8 8 (header_bytes enc data) = data_checksum enc.
Proof.
  intros [He Hd]. unfold kMaxWireBlockBytes in *.
  rewrite <- (app_nil_r (header_bytes _ _)). unfold header_bytes. rewrite <- !app_assoc.
  split_and!; load_field; unfold unsigned; cbn; try lia. apply data_checksum_u64.
Qed.

(** The stages of a reader deliver the data a payload represents. *)
Lemma read_stages_deliver c enc data :
  encodes c enc data ->
  exists b, run_read_stages [CrcVerifyStage; DecompressStage c]
      (mkBlockData [] enc (data_checksum enc) (Z.of_nat (length data)) (Z.of_nat (length enc))
         false false false) = Some b /\ plain b = data.
Proof.
  intros Henc. cbn. unfold process_verify; cbn. rewrite Z.eqb_refl. cbn.
  destruct c as [t|]; cbn.
  - destruct (Z.eqb_spec (Z.of_nat (length enc)) (Z.of_nat (length data))) as [Heq|Hne].
    + destruct Henc as [->|(t' & _ & Hlt & _)]; [|lia]. eauto.
    + destruct Henc as [->|(t' & [= <-] & Hlt & Hd)]; [done|].
      rewrite Nat2Z.id, Hd. cbn. rewrite Z.eqb_refl. cbn. eauto.
  - destruct Henc as [->|(t' & [=] & _)]. eauto.
Qed.

Context {Src : Type} `{StreamSource Src}.

(** Reading a block record off a stream. *)
Lemma next_block_deliver c enc data rest s partial :
  encodes c enc data -> block_fits enc data -> remaining s (block_bytes enc data ++ rest) ->
  let p := mkReadPipeline [CrcVerifyStage; DecompressStage c] s partial false false in
  exists b s' partial', next_block p = (Some b, mkReadPipeline (r_stages_ p) s' partial' false false) /\
    plain b = data /\ remaining s' rest.
Proof.
  intros Henc Hfits Hr p. rewrite block_bytes_header, <- app_assoc in Hr.
  destruct (header_fields enc data Hfits) as (Hu & Hc & Hcrc).
  destruct (pull_exact_stream 16 _ _ partial s Hr) as (p1 & s1 & Hp1 & Hr1);
    [unfold header_bytes; bytes_len|].
  destruct (pull_exact_stream (length enc) _ _ false s1 Hr1 eq_refl) as (p2 & s2 & Hp2 & Hr2).
  destruct (read_stages_deliver c enc data Henc) as (b & Hb & Hpl).
  unfold next_block; cbn [failed_ eof_ orb hdr_partial_ src_ r_stages_ p]. rewrite Hp1, Hu, Hc, Hcrc.
  destruct Hfits as [He Hd]. rewrite !(proj2 (Z.ltb_ge _ _)) by done. cbn [orb].
  rewrite Nat2Z.id, Hp2, Hb. eauto 10.
Qed.

(** At the end of the stream the reader stops without reporting a failure. *)
Lemma next_block_eof c s :
  remaining s [] ->
  let p := mkReadPipeline [CrcVerifyStage; DecompressStage c] s false false false in
  exists s', next_block p = (None, mkReadPipeline (r_stages_ p) s' false false true).
Proof.
  intros Hr p. destruct (pull_exact_eof 16 false s Hr ltac:(lia)) as (s' & Hp).
  exists s'. unfold next_block; cbn [failed_ eof_ orb hdr_partial_ src_ r_stages_ p].
  rewrite Hp. done.
Qed.
End records.

(** ** What the writer emits *)

(** A flushed block: whether it was left raw, its payload and its plain bytes. *)
Record block_rec := mkBlockRec { br_raw : bool; br_enc : bytes; br_data : bytes }.

Definition raw_count (bl : list block_rec) : nat := length (filter (fun r => br_raw r = true) bl).

Lemma compress_lib `{CompressionLib} t x y :
  t <> NONE -> x <> [] -> lib_compress t x = Some y ->
  compress t x = mkCompressedChunk (s32 (Z.of_nat (length y))) y.
Proof. intros Ht Hx Hy. unfold compress. rewrite Hy. by destruct t, x. Qed.

Lemma decompress_lib `{CompressionLib} t x y :
  t <> NONE -> x <> [] -> lib_compress t x = Some y -> decompress_to t y (length x) = Some x.
Proof.
  intros Ht Hx Hy. unfold decompress_to. rewrite decide_False by (by destruct x).
  destruct t; [done|..]; by apply lib_roundtrip.
Qed.

Lemma kmax_small n : Z.of_nat n <= kMaxWireBlockBytes -> 0 <= Z.of_nat n < 2 ^ 32.
Proof. unfold kMaxWireBlockBytes. lia. Qed.

Section writer_proofs.
Context `{Checksum} `{CompressionLib}.
Context (co : option CompressionType) (cs : nat) (pct thr : Z).
Hypothesis (Hcs : (0 < cs)%nat) (Hmax : Z.of_nat cs <= kMaxWireBlockBytes) (Hpct : pct <= 100).
(** The library does not fail on the blocks. *)
Hypothesis Hlib : forall t x, co = Some t -> x <> [] -> (length x <= cs)%nat ->
  is_Some (lib_compress t x).

Local Notation init := (make_file_write_pipeline co cs pct thr).

Definition rec_ok (r : block_rec) : Prop :=
  encodes co (br_enc r) (br_data r) /\ (br_raw r = true -> br_enc r = br_data r) /\
  (length (br_enc r) <= length (br_data r))%nat /\ (0 < length (br_data r) <= cs)%nat.

(** The compression stage: the payload represents the block. *)
Lemma compress_stage_ok t b :
  co = Some t -> (0 < length (plain b) <= cs)%nat -> unc_size b = Z.of_nat (length (plain b)) ->
  let b' := process_compress (mkCompressConfig (Some t) pct thr) b in
  exists r, rec_ok r /\ br_data r = plain b /\ encoded b' = br_enc r /\ raw b' = br_raw r /\
    comp_size b' = Z.of_nat (length (br_enc r)) /\ plain b' = plain b /\ unc_size b' = unc_size b.
Proof using Hcs Hmax Hpct Hlib.
  intros Hco Hlen Hunc b'. subst b'. unfold process_compress; cbn [compressor_ ratio_floor_pct_ raw_threshold_].
  assert (Hraw : rec_ok (mkBlockRec true (plain b) (plain b))) by (split_and!; cbn; [by left|done|lia..]).
  assert (Hr : exists r, rec_ok r /\ br_data r = plain b /\ encoded (raw_block b) = br_enc r /\
    raw (raw_block b) = br_raw r /\ comp_size (raw_block b) = Z.of_nat (length (br_enc r)) /\
    plain (raw_block b) = plain b /\ unc_size (raw_block b) = unc_size b)
    by (eexists; split; [exact Hraw|done]).
  destruct (_ || _); [done|]. destruct (_ && _) eqn:Hc; [|done].
  apply andb_prop in Hc as [Hc0%Z.leb_le Hc%Z.ltb_lt].
  assert (Hne : plain b <> []) by (intros Hn; rewrite Hn in Hlen; cbn in Hlen; lia).
  destruct (Hlib t (plain b) Hco Hne ltac:(lia)) as [y Hy].
  pose proof (lib_bound _ _ _ Hy) as Hyb. unfold kMaxWireBlockBytes in Hmax.
  assert (Hs : forall k, (k <= 2 * length (plain b) + 1024)%nat -> s32 (Z.of_nat k) = Z.of_nat k)
    by (intros k Hk; apply s32_small; lia).
  destruct (decide (t = NONE)) as [->|Ht].
  { cbn [compress compressed_size_] in Hc. rewrite Hs, Hunc in Hc by lia. nia. }
  rewrite (compress_lib t _ y) in * by done. cbn [compressed_size_ data_] in *.
  rewrite Hs in * by lia. exists (mkBlockRec false y (plain b)).
  assert (Hlt : (length y < length (plain b))%nat) by nia.
  unfold rec_ok; cbn. split_and!; try done; [|lia..].
  right. exists t. split; [done|]. split; [done|]. by apply decompress_lib.
Qed.

(** All the stages: the record emitted for a block. *)
Lemma write_stages_ok b :
  (0 < length (plain b) <= cs)%nat -> unc_size b = Z.of_nat (length (plain b)) ->
  encoded b = plain b -> comp_size b = unc_size b -> raw b = true ->
  exists b' r, run_write_stages (w_stages_ init) b = (b', block_bytes (br_enc r) (plain b)) /\
    rec_ok r /\ br_data r = plain b /\ raw b' = br_raw r /\
    comp_size b' = Z.of_nat (length (br_enc r)).
Proof using Hcs Hmax Hpct Hlib.
  intros Hlen Hunc Henc Hcomp Hraw. unfold make_file_write_pipeline; cbn [w_stages_].
  assert (Hco : (exists t, co = Some t) \/ co = None) by (clear; destruct co; eauto).
  destruct Hco as [[t Hco]|Hco]; rewrite Hco; cbn [app].
  - destruct (compress_stage_ok t b Hco Hlen Hunc) as (r & Hr & Hd & He & Hra & Hcz & _ & Hu).
    cbn [run_write_stages write_process app]. rewrite app_nil_r.
    exists (process_crc (process_compress (mkCompressConfig (Some t) pct thr) b)), r.
    split_and!; [f_equal|done|done|exact Hra|exact Hcz].
    unfold process_header, process_crc, block_bytes. cbn [comp_size encoded crc unc_size].
    by rewrite Hcz, He, Hu, Hunc.
  - cbn [run_write_stages write_process app]. rewrite app_nil_r.
    exists (process_crc b), (mkBlockRec true (plain b) (plain b)).
    split_and!; [f_equal|split_and!|..]; cbn; try done; try lia.
    + unfold process_header, process_crc, block_bytes. cbn [comp_size encoded crc unc_size].
      by rewrite Hcomp, Henc, Hunc.
    + by left.
Qed.

Lemma flush_block_ok p :
  w_stages_ p = w_stages_ init -> (0 < length (buf_ p) <= cs)%nat ->
  exists r ctx, rec_ok r /\ br_data r = buf_ p /\ tail_ ctx = false /\
    flush_block p = mkWritePipeline (w_stages_ p) (chunk_size_ p) [] ctx
      (u64 (total_uncompressed_ p + Z.of_nat (length (buf_ p)))) (u32 (w_chunk_count_ p + 1))
      (if br_raw r then u32 (raw_blocks_ p + 1) else raw_blocks_ p)
      (w_block_comp_lens_ p ++ [Z.of_nat (length (br_enc r))])
      (emitted_ p ++ block_bytes (br_enc r) (buf_ p)).
Proof using Hcs Hmax Hpct Hlib.
  intros Hst Hlen. unfold flush_block.
  rewrite (u32_small (Z.of_nat (length (buf_ p)))) by (apply kmax_small; lia).
  set (b := mkBlockData _ _ _ _ _ _ _ _).
  destruct (write_stages_ok b Hlen eq_refl eq_refl eq_refl eq_refl)
    as (b' & r & Hrun & Hr & Hd & Hra & Hcz).
  rewrite Hst, Hrun, <- Hst, Hra, Hcz.
  eexists r, _. split; [done|]. split; [done|]. split; [|reflexivity]. done.
Qed.

(** ** The invariant of a writer *)

(** After some bytes were written, the blocks [bl] have been emitted. *)
Record wrote (p : WritePipeline) (bl : list block_rec) (written : bytes) : Prop := {
  wr_stages : w_stages_ p = w_stages_ init;
  wr_size : chunk_size_ p = cs;
  wr_buf : (length (buf_ p) < cs)%nat;
  wr_data : written = concat (br_data <$> bl) ++ buf_ p;
  wr_emitted : emitted_ p = concat ((fun r => block_bytes (br_enc r) (br_data r)) <$> bl);
  wr_lens : w_block_comp_lens_ p = (fun r => Z.of_nat (length (br_enc r))) <$> bl;
  wr_count : w_chunk_count_ p = u32 (Z.of_nat (length bl));
  wr_raw : raw_blocks_ p = u32 (Z.of_nat (raw_count bl));
  wr_total : total_uncompressed_ p = u64 (Z.of_nat (length (concat (br_data <$> bl))));
  wr_ok : Forall rec_ok bl
}.

Lemma wrote_init : wrote init [] [].
Proof using Hcs. by split. Qed.

(** Flushing a buffer that is about to hold [written] adds one block. *)
Lemma wrote_flush p bl x :
  wrote p bl (concat (br_data <$> bl) ++ buf_ p) -> (0 < length (buf_ p ++ x) <= cs)%nat ->
  forall q, (q = append_buf x p \/ exists c, q = mkWritePipeline (w_stages_ p) (chunk_size_ p)
      (buf_ p ++ x) c (total_uncompressed_ p) (w_chunk_count_ p) (raw_blocks_ p)
      (w_block_comp_lens_ p) (emitted_ p)) ->
  exists bl', wrote (flush_block q) bl' (concat (br_data <$> bl) ++ buf_ p ++ x) /\
    buf_ (flush_block q) = [].
Proof using Hcs Hmax Hpct Hlib.
  intros [Hst Hsz Hb _ He Hl Hc Hr Ht Hok] Hlen q Hq.
  assert (Hqf : exists c, q = mkWritePipeline (w_stages_ p) (chunk_size_ p)
      (buf_ p ++ x) c (total_uncompressed_ p) (w_chunk_count_ p) (raw_blocks_ p)
      (w_block_comp_lens_ p) (emitted_ p)) by (destruct Hq as [->|]; [by eexists|done]).
  destruct Hqf as [c ->].
  destruct (flush_block_ok (mkWritePipeline (w_stages_ p) (chunk_size_ p) (buf_ p ++ x) c
    (total_uncompressed_ p) (w_chunk_count_ p) (raw_blocks_ p) (w_block_comp_lens_ p) (emitted_ p)))
    as (r & ctx & Hrok & Hrd & Htl & ->); [done|done|].
  cbn [w_stages_ chunk_size_ buf_ total_uncompressed_ w_chunk_count_ raw_blocks_ w_block_comp_lens_ emitted_] in *.
  exists (bl ++ [r]). split; [|done].
  split; cbn [w_stages_ chunk_size_ buf_ total_uncompressed_ w_chunk_count_ raw_blocks_ w_block_comp_lens_ emitted_];
    rewrite ?fmap_app, ?concat_app; cbn [fmap list_fmap concat]; rewrite ?app_nil_r; try done.
  - by rewrite Hrd.
  - by rewrite He, Hrd.
  - by rewrite Hl.
  - rewrite Hc, length_app. unfold u32. rewrite Zplus_mod_idemp_l. f_equal. cbn. lia.
  - unfold raw_count. rewrite list.filter_app, length_app, Hr. destruct (br_raw r) eqn:Er.
    + rewrite filter_cons_True, filter_nil by done. unfold u32. rewrite Zplus_mod_idemp_l. f_equal.
      cbn [length]. unfold raw_count. lia.
    + rewrite filter_cons_False, filter_nil by congruence. cbn [length]. by rewrite Nat.add_0_r.
  - rewrite Ht, Hrd, !length_app. unfold u64. rewrite Zplus_mod_idemp_l. f_equal. lia.
  - apply Forall_app. split; [done|]. by apply Forall_singleton.
Qed.

Lemma wrote_written p bl w : wrote p bl w -> wrote p bl (concat (br_data <$> bl) ++ buf_ p).
Proof using. intros Hw. by rewrite <- (wr_data _ _ _ Hw). Qed.

(** One iteration of the loop of [write]. *)
Lemma wrote_step p bl w x :
  wrote p bl w -> (length (buf_ p ++ x) <= cs)%nat -> x <> [] ->
  exists bl', wrote (flush_if_full (append_buf x p)) bl' (w ++ x).
Proof using Hcs Hmax Hpct Hlib.
  intros Hw Hlen Hx. rewrite (wr_data _ _ _ Hw), <- app_assoc. unfold flush_if_full. cbn [append_buf buf_ chunk_size_].
  rewrite (wr_size _ _ _ Hw). case_decide as Hfull.
  - destruct (wrote_flush p bl x (wrote_written _ _ _ Hw)) with (q := append_buf x p) as (bl' & Hbl & _);
      [lia|by left|]. eauto.
  - exists bl. destruct Hw. split; cbn; auto. lia.
Qed.

Lemma write_loop_ok fuel data p bl w :
  wrote p bl w -> (length data <= fuel)%nat ->
  exists p' bl', write_loop fuel data p = Some p' /\ wrote p' bl' (w ++ data).
Proof using Hcs Hmax Hpct Hlib.
  revert data p bl w. induction fuel as [|fuel IH]; intros data p bl w Hw Hf.
  { destruct data; [|cbn in Hf; lia]. rewrite app_nil_r. exists p, bl. done. }
  destruct data as [|d0 data']; [rewrite app_nil_r; by exists p, bl|].
  set (data := d0 :: data') in *. cbn [write_loop data]. fold data.
  pose proof (wr_buf _ _ _ Hw) as Hb. pose proof (wr_size _ _ _ Hw) as Hsz.
  assert (Hno : flush_if_full p = p) by (unfold flush_if_full; rewrite decide_False by lia; done).
  rewrite Hno, Hsz. set (n := ((cs - length (buf_ p)) `min` length data)%nat).
  assert (Hn : (0 < n <= length data)%nat) by (unfold n; cbn [data length]; lia).
  destruct (wrote_step p bl w (take n data) Hw) as (bl1 & Hw1).
  { rewrite length_app, length_take. lia. }
  { intros Ht. apply (f_equal length) in Ht. rewrite length_take in Ht. cbn in Ht. lia. }
  destruct (IH (drop n data) _ bl1 _ Hw1) as (p' & bl' & Hl & Hw').
  { rewrite length_drop. lia. }
  exists p', bl'. split; [done|]. by rewrite <- app_assoc, take_drop in Hw'.
Qed.

Lemma write_ok data p bl w :
  wrote p bl w -> exists p' bl', write data p = Some p' /\ wrote p' bl' (w ++ data).
Proof using Hcs Hmax Hpct Hlib. intros Hw. by apply (write_loop_ok (length data) data p bl). Qed.

Lemma finish_ok p bl w :
  wrote p bl w -> exists bl', wrote (finish p) bl' w /\ buf_ (finish p) = [].
Proof using Hcs Hmax Hpct Hlib.
  intros Hw. pose proof (wr_buf _ _ _ Hw) as Hb. pose proof (wr_data _ _ _ Hw) as Hd. unfold finish.
  destruct (buf_ p) as [|b0 bs] eqn:E; [by exists bl|]. rewrite <- E in *.
  set (q := mkWritePipeline _ _ _ _ _ _ _ _ _).
  destruct (wrote_flush p bl [] (wrote_written _ _ _ Hw)) with (q := q) as (bl' & Hbl & Hnil).
  { rewrite app_nil_r, E. cbn. rewrite E in Hb. cbn in Hb. lia. }
  { right. rewrite app_nil_r. by eexists. }
  exists bl'. rewrite app_nil_r, <- Hd in Hbl. done.
Qed.
End writer_proofs.
