(* ===== verification/FlyStream.v ===== *)
(** The object streams (src/storage/cpp/fly_stream.h and .cpp) with the adapters
    they are made of: the compressing stream buffer (compressing_streambuf.h and
    .cpp), the in-memory source (memory_chunk_source.h and .cpp) and the
    decompressing stream buffer (decompressing_streambuf.h and .cpp).

    Writing an object runs its bytes through the block pipeline and appends a
    trailer; reading parses the trailer, reconciles the block table with the
    block headers, and pulls the blocks back through the read pipeline. *)

From stdpp Require Import base list option.
From Stdlib Require Import ZArith Lia.
From coqutil Require Import Byte.
From S2P Require Import Prelude Bytes ObjectHeader Pipeline.

Open Scope Z_scope.

(** ** The in-memory source *)

Record MemoryChunkSource := mkMemoryChunkSource {
  m_data_ : bytes;
  m_pos_ : nat;
  m_block_area_len_ : nat;
  m_py_name_ : bytes;
  m_total_uncompressed_ : Z;
  m_chunk_count_ : Z;
  m_compression_type_ : CompressionType;
  m_failed_ : bool
}.

(** The scan of the block headers against the block table, from [pos]. *)
Fixpoint reconcile (data : bytes) (area : nat) (lens : list Z) (pos : nat) : bool :=
  match lens with
  | [] => (pos =? area)%nat
  | len :: lens =>
      if (area <? pos + 16)%nat then false
      else
        let comp := s32 (load 4 (pos + 4) data) in
        if (comp <? 0) || negb (u32 comp =? len) then false
        else reconcile data area lens (pos + 16 + Z.to_nat comp)
  end.

Section memory_source.
Context `{Checksum}.

Definition make_memory_source (data : bytes) : MemoryChunkSource :=
  match data with
  | [] => mkMemoryChunkSource data 0 0 [] 0 0 NONE false
  | _ =>
      match deserialize_trailer data with
      | None => mkMemoryChunkSource data 0 0 [] 0 0 NONE true
      | Some (h, tl) =>
          let area := (length data - tl)%nat in
          let ok := (Z.of_nat (length (block_comp_lens_ h)) =? chunk_count_ h)
                    && reconcile data area (block_comp_lens_ h) 0 in
          mkMemoryChunkSource data 0 area (py_name_ h) (total_size_ h) (chunk_count_ h)
            (compression_type_ h) (negb ok)
      end
  end.
End memory_source.

#[export] Instance memory_pull : PullSource MemoryChunkSource := fun n s =>
  if m_failed_ s then (None, s)
  else
    let take_n := (n `min` (m_block_area_len_ s - m_pos_ s))%nat in
    if (take_n =? 0)%nat then (Some [], s)
    else
      (Some (slice (m_pos_ s) take_n (m_data_ s)),
       mkMemoryChunkSource (m_data_ s) (m_pos_ s + take_n) (m_block_area_len_ s) (m_py_name_ s)
         (m_total_uncompressed_ s) (m_chunk_count_ s) (m_compression_type_ s) (m_failed_ s)).

(** ** The decompressing stream buffer *)

(** The source as the pull closure of [build_pipeline] sees it: bounded by the
    block area, with the count of the bytes consumed. *)
Record BoundedSource (Src : Type) := mkBoundedSource {
  inner_ : Src;
  area_ : nat;
  pull_consumed_ : nat
}.
Arguments mkBoundedSource {Src}.
Arguments inner_ {Src}.
Arguments area_ {Src}.
Arguments pull_consumed_ {Src}.

#[export] Instance bounded_pull `{PullSource Src} : PullSource (BoundedSource Src) := fun n s =>
  if (area_ s <=? pull_consumed_ s)%nat then (Some [], s)
  else
    let n := (n `min` (area_ s - pull_consumed_ s))%nat in
    let '(r, inner) := pull n (inner_ s) in
    let got := match r with Some x => length x | None => 0%nat end in
    (r, mkBoundedSource inner (area_ s) (pull_consumed_ s + got)).

Record DecompressingStreamBuf (Src : Type) := mkDecompressingStreamBuf {
  pipeline_ : ReadPipeline (BoundedSource Src);
  checksum_failed_ : bool;
  plain_ : bytes;
  plain_pos_ : nat
}.
Arguments mkDecompressingStreamBuf {Src}.
Arguments pipeline_ {Src}.
Arguments checksum_failed_ {Src}.
Arguments plain_ {Src}.
Arguments plain_pos_ {Src}.

(** [block_area_len_] is set once and captured by the pull closure. *)
Definition block_area_len_ {Src} (d : DecompressingStreamBuf Src) : nat :=
  area_ (src_ (pipeline_ d)).

Section streambuf.
Context `{Checksum} `{CompressionLib} {Src : Type} `{PullSource Src}.

(** [failed] and [comp] are what the source reports when it is attached. *)
Definition open_streambuf (source : Src) (src_failed : bool) (comp : CompressionType)
    (block_area_len : nat) : DecompressingStreamBuf Src :=
  mkDecompressingStreamBuf
    (make_block_read_pipeline comp (mkBoundedSource source block_area_len 0))
    src_failed [] 0.

Definition refill (d : DecompressingStreamBuf Src) : bool * DecompressingStreamBuf Src :=
  if checksum_failed_ d then (false, d)
  else if (block_area_len_ d <=? pull_consumed_ (src_ (pipeline_ d)))%nat then (false, d)
  else
    match next_block (pipeline_ d) with
    | (None, p) =>
        (false, mkDecompressingStreamBuf p (failed_ p) (plain_ d) (plain_pos_ d))
    | (Some b, p) =>
        ((0 <? length (plain b))%nat,
         mkDecompressingStreamBuf p false (plain b) 0)
    end.

(** The next byte, not consumed. *)
Definition underflow (d : DecompressingStreamBuf Src) : option byte * DecompressingStreamBuf Src :=
  if (plain_pos_ d <? length (plain_ d))%nat then (plain_ d !! plain_pos_ d, d)
  else
    let '(ok, d) := refill d in
    if ok then (plain_ d !! plain_pos_ d, d) else (None, d).

Definition advance (k : nat) (d : DecompressingStreamBuf Src) : DecompressingStreamBuf Src :=
  mkDecompressingStreamBuf (pipeline_ d) (checksum_failed_ d) (plain_ d)
    (plain_pos_ d + k).

(** The loop of [xsgetn]: what is copied and the buffer after it. *)
Fixpoint xsgetn_loop (fuel n : nat) (d : DecompressingStreamBuf Src) :
    bytes * DecompressingStreamBuf Src :=
  match n, fuel with
  | O, _ | _, O => ([], d)
  | _, S fuel =>
      let '(ok, d) := if (length (plain_ d) <=? plain_pos_ d)%nat then refill d else (true, d) in
      if ok then
        let avail := ((length (plain_ d) - plain_pos_ d) `min` n)%nat in
        let x := slice (plain_pos_ d) avail (plain_ d) in
        let '(rest, d) := xsgetn_loop fuel (n - avail) (advance avail d) in
        (x ++ rest, d)
      else ([], d)
  end.

(** Every iteration that does not end the loop copies a byte. *)
Definition xsgetn (n : nat) (d : DecompressingStreamBuf Src) : bytes * DecompressingStreamBuf Src :=
  xsgetn_loop n n d.
End streambuf.

(** ** Writing *)

Record FlyWriter := mkFlyWriter {
  w_pipeline_ : WritePipeline;
  comp_type_ : CompressionType;
  w_py_name_ : bytes
}.

(** The calls of a writing client. *)
Inductive write_op := OpWrite (data : bytes) | OpFlush.

Section fly_writer.
Context `{Checksum} `{CompressionLib}.

Definition compressor_for (comp_type : CompressionType) : option CompressionType :=
  match comp_type with NONE => None | _ => Some comp_type end.

Definition open_write (comp_type : CompressionType) (chunk_size : nat) (py_name : bytes)
    (compression_threshold : Z) : FlyWriter :=
  mkFlyWriter (make_file_write_pipeline (compressor_for comp_type) chunk_size 85 compression_threshold)
    comp_type py_name.

Definition set_pipeline (w : FlyWriter) (p : WritePipeline) : FlyWriter :=
  mkFlyWriter p (comp_type_ w) (w_py_name_ w).

Definition fly_write (data : bytes) (w : FlyWriter) : option FlyWriter :=
  set_pipeline w <$> write data (w_pipeline_ w).

Definition fly_flush (w : FlyWriter) : FlyWriter := set_pipeline w (finish (w_pipeline_ w)).

Definition effective_compression_type (w : FlyWriter) : CompressionType :=
  if (0 <? w_chunk_count_ (w_pipeline_ w)) && all_raw (w_pipeline_ w) then NONE else comp_type_ w.

Definition trailer_header (w : FlyWriter) : ObjectHeader :=
  mkObjectHeader FLY_OBJECT_MAGIC FLY_OBJECT_VERSION (u16 (Z.of_nat (length (w_py_name_ w))))
    (w_py_name_ w) (total_uncompressed_ (w_pipeline_ w)) (w_chunk_count_ (w_pipeline_ w))
    (effective_compression_type w) (w_block_comp_lens_ (w_pipeline_ w)).

Definition finish_write (w : FlyWriter) : bytes :=
  let w := fly_flush w in emitted_ (w_pipeline_ w) ++ serialize_trailer (trailer_header w).

Definition apply_write (op : write_op) (w : FlyWriter) : option FlyWriter :=
  match op with OpWrite data => fly_write data w | OpFlush => Some (fly_flush w) end.

Fixpoint apply_writes (ops : list write_op) (w : FlyWriter) : option FlyWriter :=
  match ops with
  | [] => Some w
  | op :: ops => w ← apply_write op w; apply_writes ops w
  end.
End fly_writer.

(** ** Reading *)

(** [is_good_] is the state of the [istream]: a short read sets its fail bit and
    later reads return nothing. *)
Record FlyReader := mkFlyReader {
  decompress_sb_ : DecompressingStreamBuf MemoryChunkSource;
  is_good_ : bool
}.

Section fly_reader.
Context `{Checksum} `{CompressionLib}.

Definition open_read (data : bytes) : FlyReader :=
  let mem := make_memory_source data in
  mkFlyReader (open_streambuf mem (m_failed_ mem) (m_compression_type_ mem) (m_block_area_len_ mem)) true.

Definition fly_read (n : nat) (r : FlyReader) : bytes * FlyReader :=
  if is_good_ r then
    let '(x, d) := xsgetn n (decompress_sb_ r) in (x, mkFlyReader d (length x =? n)%nat)
  else ([], r).

(** The size of the local buffer of [read_all]. *)
Definition tmp_size : nat := Z.to_nat 8192.

(** The loop of [read_all]; [None] when the fuel runs out. *)
Fixpoint read_all (fuel : nat) (r : FlyReader) : option (bytes * FlyReader) :=
  match fuel with
  | O => None
  | S fuel =>
      let '(x, r) := fly_read tmp_size r in
      match x with
      | [] => Some ([], r)
      | _ => '(rest, r) ← read_all fuel r; Some (x ++ rest, r)
      end
  end.

Definition checksum_failed (r : FlyReader) : bool := checksum_failed_ (decompress_sb_ r).

Definition reader_py_name (r : FlyReader) : bytes :=
  m_py_name_ (inner_ (src_ (pipeline_ (decompress_sb_ r)))).
End fly_reader.

(** ** The sources deliver their block area *)

Definition memory_remaining (s : MemoryChunkSource) (bs : bytes) : Prop :=
  m_failed_ s = false /\ (m_pos_ s <= m_block_area_len_ s <= length (m_data_ s))%nat /\
  bs = slice (m_pos_ s) (m_block_area_len_ s - m_pos_ s) (m_data_ s).

Lemma memory_pull_stream n s bs :
  (0 < n)%nat -> memory_remaining s bs ->
  exists x rest s', pull n s = (Some x, s') /\ bs = x ++ rest /\ (length x <= n)%nat /\
    (bs <> [] -> x <> []) /\ memory_remaining s' rest.
Proof.
  intros Hn (Hf & Hle & ->). unfold pull, memory_pull. rewrite Hf.
  set (k := (m_block_area_len_ s - m_pos_ s)%nat).
  destruct (Nat.eqb_spec (n `min` k) 0) as [Hz|Hz].
  - assert (Hk : k = 0%nat) by lia. exists [], [], s. rewrite Hk.
    split; [done|]. split; [done|]. split; [cbn; lia|]. split; [done|].
    split; [done|]. split; [lia|]. fold k. by rewrite Hk.
  - eexists _, (slice (m_pos_ s + n `min` k) (k - n `min` k) (m_data_ s)), _.
    split; [done|]. split; [rewrite <- slice_add; f_equal; lia|].
    split; [rewrite length_slice; lia|]. split.
    + intros _ Hnil. apply (f_equal length) in Hnil. rewrite length_slice in Hnil. cbn in Hnil. lia.
    + split; [done|]. split; [cbn; lia|]. cbn [m_pos_ m_block_area_len_ m_data_]. unfold k. f_equal. lia.
Qed.

#[export] Instance memory_stream : StreamSource MemoryChunkSource :=
  { remaining := memory_remaining; pull_stream := memory_pull_stream }.

Section bounded.
Context {Src : Type} `{StreamSource Src}.

Definition bounded_remaining (s : BoundedSource Src) (bs : bytes) : Prop :=
  exists whole, remaining (inner_ s) whole /\
    (pull_consumed_ s <= area_ s)%nat /\ (area_ s - pull_consumed_ s <= length whole)%nat /\
    bs = take (area_ s - pull_consumed_ s) whole.

Lemma bounded_pull_stream n (s : BoundedSource Src) bs :
  (0 < n)%nat -> bounded_remaining s bs ->
  exists x rest s', pull n s = (Some x, s') /\ bs = x ++ rest /\ (length x <= n)%nat /\
    (bs <> [] -> x <> []) /\ bounded_remaining s' rest.
Proof.
  intros Hn (whole & Hr & Hc & Hlen & ->). unfold pull at 1, bounded_pull.
  destruct (Nat.leb_spec (area_ s) (pull_consumed_ s)) as [Hle|Hlt].
  { eexists [], [], s. replace (area_ s - pull_consumed_ s)%nat with 0%nat by lia.
    split_and!; try done; [cbn; lia|]. exists whole. split_and!; try done; [lia..|].
    by replace (area_ s - pull_consumed_ s)%nat with 0%nat by lia. }
  set (k := (area_ s - pull_consumed_ s)%nat) in *.
  destruct (pull_stream (n `min` k) (inner_ s) whole ltac:(lia) Hr)
    as (x & rest & s' & -> & -> & Hx & Hne & Hr').
  eexists x, (take (k - length x) rest), _. split; [done|].
  rewrite length_app in Hlen. split; [apply take_app_ge; lia|]. split; [lia|]. split.
  - intros Hnn. apply Hne. intros Hnil. rewrite Hnil in Hnn. by rewrite take_nil in Hnn.
  - cbn. exists rest. cbn. split_and!; [done|lia..|]. f_equal. lia.
Qed.

#[export] Instance bounded_stream : StreamSource (BoundedSource Src) :=
  { remaining := bounded_remaining; pull_stream := bounded_pull_stream }.

Lemma bounded_length (s : BoundedSource Src) bs :
  remaining s bs -> length bs = (area_ s - pull_consumed_ s)%nat.
Proof. intros (whole & _ & _ & Hl & ->). rewrite length_take. lia. Qed.
End bounded.

(** ** Reading back *)

Definition rec_bytes `{Checksum} (r : block_rec) : bytes := block_bytes (br_enc r) (br_data r).

Section reading.
Context `{Checksum} `{CompressionLib} {Src : Type} `{StreamSource Src}.
Context (c : option CompressionType).

Definition readable (r : block_rec) : Prop :=
  encodes c (br_enc r) (br_data r) /\ block_fits (br_enc r) (br_data r) /\ br_data r <> [].

(** The buffer will deliver exactly [rest]. *)
Definition delivers (d : DecompressingStreamBuf Src) (rest : bytes) : Prop :=
  checksum_failed_ d = false /\
  exists s partial bl,
    pipeline_ d = mkReadPipeline [CrcVerifyStage; DecompressStage c] s partial false false /\
    remaining s (concat (rec_bytes <$> bl)) /\ Forall readable bl /\
    (plain_pos_ d <= length (plain_ d))%nat /\
    rest = drop (plain_pos_ d) (plain_ d) ++ concat (br_data <$> bl).

Lemma refill_ok d rest :
  delivers d rest -> (length (plain_ d) <= plain_pos_ d)%nat ->
  (rest = [] /\ refill d = (false, d)) \/
  (rest <> [] /\ exists d', refill d = (true, d') /\ delivers d' rest /\
     plain_pos_ d' = 0%nat /\ plain_ d' <> []).
Proof using.
  intros [Hcf (s & partial & bl & Hp & Hr & Hbl & Hpos & ->)] Hle.
  rewrite drop_ge by done. cbn. unfold refill, block_area_len_. rewrite Hcf, Hp; cbn [src_].
  pose proof (bounded_length _ _ Hr) as Hlen. destruct bl as [|r bl].
  - left. split; [done|]. cbn in Hlen. by rewrite (proj2 (Nat.leb_le _ _)) by lia.
  - right. apply Forall_cons_1 in Hbl as [(Henc & Hfit & Hne) Hbl].
    cbn [fmap list_fmap concat] in *. unfold rec_bytes in Hlen at 1.
    rewrite length_app, length_block_bytes in Hlen.
    split; [by intros [? _]%app_nil|].
    rewrite (proj2 (Nat.leb_gt _ _)) by lia.
    destruct (next_block_deliver c _ _ _ s partial Henc Hfit Hr) as (b & s' & p' & Hnb & Hpl & Hr').
    rewrite Hnb. rewrite Hpl. eexists. split; [f_equal|].
    + apply Nat.ltb_lt. destruct (br_data r); [done|cbn; lia].
    + split; [|done]. split; [done|]. exists s', p', bl. cbn. split_and!; try done. lia.
Qed.

Lemma advance_ok k d rest :
  delivers d rest -> (plain_pos_ d + k <= length (plain_ d))%nat -> delivers (advance k d) (drop k rest).
Proof using.
  intros [Hcf (s & partial & bl & Hp & Hr & Hbl & Hpos & ->)] Hk.
  split; [done|]. exists s, partial, bl. cbn. split_and!; try done.
  rewrite drop_app_le by (rewrite length_drop; lia). by rewrite drop_drop.
Qed.

(** What is left of the current block is the next thing delivered. *)
Lemma delivers_plain d rest k :
  delivers d rest -> (plain_pos_ d + k <= length (plain_ d))%nat ->
  slice (plain_pos_ d) k (plain_ d) = take k rest.
Proof using.
  intros [_ (s & partial & bl & _ & _ & _ & _ & ->)] Hk. unfold slice.
  by rewrite take_app_le by (rewrite length_drop; lia).
Qed.

Lemma xsgetn_loop_ok fuel n d rest :
  delivers d rest -> (n <= fuel)%nat ->
  exists d', xsgetn_loop fuel n d = (take n rest, d') /\ delivers d' (drop n rest).
Proof using.
  revert n d rest. induction fuel as [|fuel IH]; intros n d rest Hd Hf.
  { destruct n; [|lia]. cbn. exists d. by rewrite take_0, drop_0. }
  destruct n as [|n]; [exists d; by rewrite take_0, drop_0|].
  cbn [xsgetn_loop].
  assert (Hstep : forall d1, delivers d1 rest -> (plain_pos_ d1 < length (plain_ d1))%nat ->
    let avail := ((length (plain_ d1) - plain_pos_ d1) `min` S n)%nat in
    exists d', (let '(r, d) := xsgetn_loop fuel (S n - avail) (advance avail d1) in
                (slice (plain_pos_ d1) avail (plain_ d1) ++ r, d)) = (take (S n) rest, d') /\
      delivers d' (drop (S n) rest)).
  { intros d1 Hd1 Hlt avail. assert (Ha : (0 < avail <= S n)%nat) by (unfold avail; lia).
    destruct (IH (S n - avail)%nat (advance avail d1) (drop avail rest)) as (d' & -> & Hd');
      [apply advance_ok; [done|unfold avail; lia]|lia|].
    rewrite (delivers_plain _ rest) by (done || (unfold avail; lia)).
    rewrite drop_drop in Hd'. replace (avail + (S n - avail))%nat with (S n) in Hd' by lia.
    exists d'. split; [|done]. f_equal. rewrite take_take_drop. f_equal. lia. }
  destruct (Nat.leb_spec (length (plain_ d)) (plain_pos_ d)) as [Hle|Hlt].
  - destruct (refill_ok d rest Hd Hle) as [[-> ->]|(_ & d1 & -> & Hd1 & Hp0 & Hne)].
    + exists d. by rewrite take_nil, drop_nil.
    + apply Hstep; [done|]. rewrite Hp0. destruct (plain_ d1); [done|cbn; lia].
  - by apply Hstep.
Qed.

Lemma xsgetn_ok n d rest :
  delivers d rest -> exists d', xsgetn n d = (take n rest, d') /\ delivers d' (drop n rest).
Proof using. intros Hd. by apply xsgetn_loop_ok. Qed.
End reading.

(** ** The record a writer produces *)

(** The bytes a sequence of calls writes. *)
Definition written (ops : list write_op) : bytes :=
  concat ((fun op => match op with OpWrite data => data | OpFlush => [] end) <$> ops).

Lemma raw_count_all bl : raw_count bl = length bl -> Forall (fun r => br_raw r = true) bl.
Proof.
  unfold raw_count. induction bl as [|r bl IH]; intros Hl; [constructor|].
  destruct (br_raw r) eqn:E.
  - rewrite filter_cons_True in Hl by done. constructor; [done|]. apply IH. cbn in Hl. lia.
  - rewrite filter_cons_False in Hl by congruence.
    pose proof (length_filter (fun r => br_raw r = true) bl). cbn in Hl. lia.
Qed.

(** The scan of the block headers succeeds on the emitted records. *)
Lemma reconcile_ok `{Checksum} pre bl post :
  Forall (fun r => block_fits (br_enc r) (br_data r)) bl ->
  reconcile (pre ++ concat (rec_bytes <$> bl) ++ post)
    (length pre + length (concat (rec_bytes <$> bl)))
    ((fun r => Z.of_nat (length (br_enc r))) <$> bl) (length pre) = true.
Proof.
  revert pre. induction bl as [|r bl IH]; intros pre Hbl; cbn [fmap list_fmap reconcile concat].
  { apply Nat.eqb_eq. cbn. lia. }
  apply Forall_cons_1 in Hbl as [Hf Hbl]. destruct (header_fields _ _ Hf) as (_ & Hcl & _).
  destruct Hf as [Hf _]. unfold kMaxWireBlockBytes in Hf.
  assert (Hl : length (rec_bytes r) = (16 + length (br_enc r))%nat) by apply length_block_bytes.
  rewrite (length_app (rec_bytes r)), Hl. rewrite (proj2 (Nat.ltb_ge _ _)) by lia.
  rewrite load_skip by lia. replace (length pre + 4 - length pre)%nat with 4%nat by lia.
  assert (Hload : load 4 4 ((rec_bytes r ++ concat (rec_bytes <$> bl)) ++ post)
                  = Z.of_nat (length (br_enc r))).
  { unfold rec_bytes at 1. rewrite block_bytes_header, <- !app_assoc, <- Hcl. reflexivity. }
  rewrite Hload, s32_small, u32_small by lia. rewrite Z.eqb_refl.
  rewrite (proj2 (Z.ltb_ge _ _)) by lia. cbn [orb negb]. rewrite Nat2Z.id.
  specialize (IH (pre ++ rec_bytes r) Hbl). rewrite length_app, Hl, <- !app_assoc in IH.
  rewrite <- app_assoc, <- IH. f_equal; lia.
Qed.

Section record.
Context `{Checksum} `{CompressionLib}.
Context (ct : CompressionType) (cs : nat) (py_name : bytes) (thr : Z).
Hypothesis (Hcs : (0 < cs)%nat) (Hmax : Z.of_nat cs <= kMaxWireBlockBytes).
Hypothesis Hlib : forall x, x <> [] -> (length x <= cs)%nat -> is_Some (lib_compress ct x).

Local Notation wrote_ := (wrote (compressor_for ct) cs 85 thr).

Lemma lib_for t x :
  compressor_for ct = Some t -> x <> [] -> (length x <= cs)%nat -> is_Some (lib_compress t x).
Proof using Hlib. intros Ht. assert (t = ct) as -> by (destruct ct; cbn in Ht; congruence). apply Hlib. Qed.

Lemma apply_writes_ok ops w bl x :
  wrote_ (w_pipeline_ w) bl x -> comp_type_ w = ct -> w_py_name_ w = py_name ->
  exists w' bl', apply_writes ops w = Some w' /\ wrote_ (w_pipeline_ w') bl' (x ++ written ops) /\
    comp_type_ w' = ct /\ w_py_name_ w' = py_name.
Proof using Hcs Hmax Hlib.
  revert w bl x. induction ops as [|op ops IH]; intros w bl x Hw Hc Hn; cbn.
  { exists w, bl. by rewrite app_nil_r. }
  destruct op as [data|]; cbn.
  - destruct (write_ok _ cs 85 thr Hcs Hmax ltac:(lia) lib_for data _ _ _ Hw) as (p' & bl' & Hwr & Hw').
    unfold fly_write. rewrite Hwr. cbn. rewrite app_assoc. by apply (IH (set_pipeline w p') bl').
  - destruct (finish_ok _ cs 85 thr Hcs Hmax ltac:(lia) lib_for _ _ _ Hw) as (bl' & Hw' & _).
    by apply (IH (fly_flush w) bl').
Qed.

(** Records of a writer are readable with the type recorded in the trailer. *)
Lemma records_readable w bl x :
  wrote_ (w_pipeline_ w) bl x -> comp_type_ w = ct -> Z.of_nat (length bl) < 2 ^ 30 ->
  Forall (readable (compressor_for (effective_compression_type w))) bl.
Proof using Hcs Hmax.
  intros Hw Hc Hlen. pose proof (wr_ok _ _ _ _ _ _ _ Hw) as Hok.
  unfold effective_compression_type. rewrite Hc.
  assert (Hraw : (0 <? w_chunk_count_ (w_pipeline_ w)) && all_raw (w_pipeline_ w) = true ->
    Forall (fun r => br_raw r = true) bl).
  { intros [_ [_ Heq%Z.eqb_eq]%andb_prop]%andb_prop. apply raw_count_all.
    rewrite (wr_raw _ _ _ _ _ _ _ Hw), (wr_count _ _ _ _ _ _ _ Hw) in Heq.
    pose proof (length_filter (fun r => br_raw r = true) bl) as Hle. fold (raw_count bl) in Hle.
    rewrite !u32_small in Heq by lia. lia. }
  assert (Hfit : forall r, rec_ok (compressor_for ct) cs r ->
    block_fits (br_enc r) (br_data r) /\ br_data r <> []).
  { intros r (_ & _ & Hle & Hd). split; [unfold block_fits; lia|].
    intros Hnil. rewrite Hnil in Hd. cbn in Hd. lia. }
  destruct (_ && _) eqn:E.
  - specialize (Hraw eq_refl). rewrite Forall_forall in *. intros r Hr.
    destruct (Hfit r (Hok r Hr)) as [Hf Hne]. split; [|by split].
    left. destruct (Hok r Hr) as (_ & Hr' & _). by apply Hr', Hraw.
  - eapply Forall_impl; [|exact Hok]. intros r Hr. destruct (Hfit r Hr) as [Hf Hne].
    split; [|by split]. apply Hr.
Qed.

Lemma trailer_header_ok w bl x :
  wrote_ (w_pipeline_ w) bl x -> Z.of_nat (length (w_py_name_ w)) < 2 ^ 16 ->
  Z.of_nat (length bl) < 2 ^ 30 -> header_ok (trailer_header w) /\ table_ok (trailer_header w).
Proof using Hcs Hmax.
  intros Hw Hn Hl. pose proof (wr_ok _ _ _ _ _ _ _ Hw) as Hok. split; split; cbn.
  - done.
  - unfold FLY_OBJECT_VERSION. lia.
  - apply u16_small. lia.
  - rewrite u16_small by lia. unfold unsigned. cbn. lia.
  - rewrite (wr_total _ _ _ _ _ _ _ Hw). apply Z.mod_pos_bound. done.
  - rewrite (wr_count _ _ _ _ _ _ _ Hw). apply Z.mod_pos_bound. done.
  - rewrite (wr_count _ _ _ _ _ _ _ Hw), (wr_lens _ _ _ _ _ _ _ Hw), length_fmap.
    apply u32_small. lia.
  - rewrite (wr_lens _ _ _ _ _ _ _ Hw), Forall_fmap. eapply Forall_impl; [|exact Hok].
    intros r (_ & _ & Hle & Hd). unfold unsigned; cbn. unfold kMaxWireBlockBytes in Hmax. lia.
  - rewrite (wr_count _ _ _ _ _ _ _ Hw). rewrite u32_small by lia. lia.
Qed.
End record.

(** Opening a record made of emitted blocks and their trailer. *)
Lemma open_record `{Checksum} `{CompressionLib} bl h :
  header_ok h -> table_ok h ->
  block_comp_lens_ h = (fun r => Z.of_nat (length (br_enc r))) <$> bl ->
  Forall (readable (compressor_for (compression_type_ h))) bl ->
  let r := open_read (concat (rec_bytes <$> bl) ++ serialize_trailer h) in
  delivers (compressor_for (compression_type_ h)) (decompress_sb_ r) (concat (br_data <$> bl)) /\
  reader_py_name r = py_name_ h /\ is_good_ r = true.
Proof.
  intros Hok Htab Hlens Hbl. set (area := concat (rec_bytes <$> bl)). set (tr := serialize_trailer h).
  assert (Hsrc : make_memory_source (area ++ tr) =
    mkMemoryChunkSource (area ++ tr) 0 (length area) (py_name_ h) (total_size_ h) (chunk_count_ h)
      (compression_type_ h) false).
  { unfold make_memory_source. destruct (area ++ tr) as [|a0 l] eqn:E.
    { apply (f_equal length) in E. unfold tr in E. rewrite length_app, length_serialize_trailer in E.
      cbn in E. lia. }
    rewrite <- E. unfold tr at 1. rewrite deserialize_serialize_trailer by done. fold tr.
    rewrite length_app. replace (length area + length tr - length tr)%nat with (length area) by lia.
    f_equal. rewrite (ok_table h Htab), Z.eqb_refl, Hlens. cbn [andb].
    pose proof (reconcile_ok [] bl tr) as Hrec. cbn [app length Nat.add] in Hrec.
    fold area in Hrec. rewrite Hrec; [done|]. eapply Forall_impl; [|exact Hbl]. by intros r (_ & Hf & _). }
  unfold open_read. cbv zeta. rewrite Hsrc. split; [|done]. split; [done|].
  eexists _, false, bl. split; [reflexivity|].
  split; [|by split_and!; cbn; [|lia|]]. cbn. exists area. cbn. fold area.
  split; [|split_and!; [lia..|]].
  - split; [done|]. cbn. rewrite length_app. split; [lia|]. unfold slice. rewrite Nat.sub_0_r, drop_0.
    by rewrite take_app_length.
  - rewrite Nat.sub_0_r. by rewrite take_ge.
Qed.

Section fly_read_proofs.
Context `{Checksum} `{CompressionLib} (c : option CompressionType).

Lemma fly_read_ok n r rest :
  delivers c (decompress_sb_ r) rest -> is_good_ r = true ->
  exists r', fly_read n r = (take n rest, r') /\ delivers c (decompress_sb_ r') (drop n rest) /\
    is_good_ r' = (length (take n rest) =? n)%nat.
Proof.
  intros Hd Hg. unfold fly_read. rewrite Hg.
  destruct (xsgetn_ok c n _ _ Hd) as (d' & -> & Hd'). by eexists.
Qed.

Lemma read_all_ok fuel r rest :
  delivers c (decompress_sb_ r) rest -> is_good_ r = true -> (length rest < fuel)%nat ->
  exists r', read_all fuel r = Some (rest, r') /\ checksum_failed r' = false.
Proof.
  revert r rest. induction fuel as [|fuel IH]; intros r rest Hd Hg Hf; [lia|]. cbn [read_all].
  destruct (fly_read_ok tmp_size r rest Hd Hg) as (r' & -> & Hd' & Hg').
  destruct (take tmp_size rest) as [|x0 x] eqn:Et.
  - exists r'. apply take_nil_inv in Et as [Hz| ->]; [unfold tmp_size in Hz; lia|].
    split; [done|]. apply Hd'.
  - set (got := x0 :: x) in *. destruct (is_good_ r') eqn:Eg.
    + destruct (IH r' _ Hd' Eg) as (r'' & -> & Hcf).
      { rewrite length_drop. destruct rest; [by rewrite take_nil in Et|]. cbn [length] in *. unfold tmp_size. lia. }
      exists r''. split; [|done]. cbn [mbind option_bind]. do 2 f_equal.
      rewrite <- Et. apply take_drop.
    + symmetry in Hg'. apply Nat.eqb_neq in Hg'.
      assert (Hall : rest = got).
      { rewrite <- Et. symmetry. apply take_ge. apply (f_equal length) in Et.
        rewrite length_take in Et. lia. }
      destruct fuel as [|fuel]; [cbn in *; apply (f_equal length) in Hall; cbn in Hall; lia|].
      exists r'. cbn. unfold fly_read. rewrite Eg. cbn. rewrite app_nil_r. split; [by rewrite Hall|].
      apply Hd'.
Qed.
End fly_read_proofs.

(** ** Properties *)

(** C5: An object written in any sequence of writes and flushes, with any codec,
    block size (up to the wire limit) and raw threshold, is read back exactly:
    every write call terminates, the produced record passes all the checks of the
    reader, a read of [n] bytes returns the first [n] bytes written and reading to
    the end returns all of them, with no failure reported.  The codec is assumed
    not to fail on a block. *)
Theorem fly_stream_roundtrip `{Checksum} `{CompressionLib} ct cs py_name thr ops :
  (0 < cs)%nat -> Z.of_nat cs <= kMaxWireBlockBytes -> Z.of_nat (length py_name) < 2 ^ 16 ->
  (forall x, x <> [] -> (length x <= cs)%nat -> is_Some (lib_compress ct x)) ->
  exists w, apply_writes ops (open_write ct cs py_name thr) = Some w /\
    (Z.of_nat (length (w_block_comp_lens_ (w_pipeline_ (fly_flush w)))) < 2 ^ 30 ->
     let r := open_read (finish_write w) in
     checksum_failed r = false /\ reader_py_name r = py_name /\
     (forall n, (fly_read n r).1 = take n (written ops)) /\
     forall fuel, (length (written ops) < fuel)%nat ->
       exists r', read_all fuel r = Some (written ops, r') /\ checksum_failed r' = false).
Proof.
  intros Hcs Hmax Hname Hlib.
  destruct (apply_writes_ok ct cs py_name thr Hcs Hmax Hlib ops (open_write ct cs py_name thr) [] [])
    as (w & bl & Hops & Hw & Hct & Hpn); [by apply wrote_init|done..|].
  exists w. split; [done|]. intros Hlen.
  destruct (finish_ok _ cs 85 thr Hcs Hmax ltac:(lia) (lib_for ct cs Hlib) _ _ _ Hw) as (bl' & Hf & Hnil).
  cbn [fly_flush set_pipeline w_pipeline_] in Hlen.
  rewrite (wr_lens _ _ _ _ _ _ _ Hf), length_fmap in Hlen.
  set (w' := fly_flush w) in *. assert (Hw' : wrote (compressor_for ct) cs 85 thr (w_pipeline_ w') bl'
    ([] ++ written ops)) by exact Hf.
  destruct (trailer_header_ok ct cs thr Hcs Hmax w' bl' _ Hw') as [Hok Htab];
    [cbn; by rewrite Hpn|done|].
  pose proof (records_readable ct cs thr Hcs Hmax w' bl' _ Hw' Hct Hlen) as Hread.
  destruct (open_record bl' (trailer_header w') Hok Htab (wr_lens _ _ _ _ _ _ _ Hw') Hread)
    as (Hd & Hpy & Hg).
  assert (Hrec : finish_write w = concat (rec_bytes <$> bl') ++ serialize_trailer (trailer_header w')).
  { unfold finish_write. fold w'. by rewrite (wr_emitted _ _ _ _ _ _ _ Hw'). }
  assert (Hdata : concat (br_data <$> bl') = written ops).
  { pose proof (wr_data _ _ _ _ _ _ _ Hf) as Hwd. by rewrite Hnil, app_nil_r in Hwd. }
  rewrite Hdata in Hd. rewrite <- Hrec in *. cbn zeta. split; [apply Hd|].
  split; [rewrite Hpy; exact Hpn|]. split.
  - intros n. destruct (fly_read_ok _ n _ _ Hd Hg) as (r' & -> & _). done.
  - intros fuel Hfuel. by apply (read_all_ok _ fuel _ _ Hd Hg).
Qed.

(** A codec for the witnesses: a run of zero bytes becomes one byte, other data
    is stored behind a marker. *)
Definition toy_compress (x : bytes) : bytes :=
  if decide (Forall (fun b => b = Byte.x00) x) then [Byte.x01] else Byte.x00 :: x.

Definition toy_decompress (y : bytes) (n : nat) : option bytes :=
  match y with
  | [] => None
  | b :: x => if decide (b = Byte.x01) then Some (replicate n Byte.x00) else Some x
  end.

Lemma zeros_replicate x : Forall (fun b => b = Byte.x00) x -> replicate (length x) Byte.x00 = x.
Proof. induction 1 as [|b x -> _ IH]; [done|]. cbn. by rewrite IH. Qed.

Lemma toy_roundtrip x : toy_decompress (toy_compress x) (length x) = Some x.
Proof. unfold toy_compress. case_decide; cbn; [by rewrite zeros_replicate|done]. Qed.

Lemma toy_bound x : (length (toy_compress x) <= 2 * length x + 1024)%nat.
Proof. unfold toy_compress. case_decide; cbn [length]; lia. Qed.

#[export] Instance toy_lib : CompressionLib := {
  lib_compress t x := Some (toy_compress x);
  lib_decompress t y n := toy_decompress y n;
  lib_roundtrip t x y _ H := eq_ind _ (fun y => toy_decompress y _ = _) (toy_roundtrip x) _
    (Some_inj _ _ H);
  lib_bound t x y H := eq_ind _ (fun y => (length y <= _)%nat) (toy_bound x) _ (Some_inj _ _ H)
}.

Lemma fly_stream_roundtrip_witness :
  exists w, apply_writes [OpWrite (replicate 300 Byte.x00); OpFlush; OpWrite [Byte.x07]]
      (open_write LZ4 256 [Byte.x61] (-1)) = Some w /\
    exists r', read_all 302 (open_read (finish_write w)) =
      Some (replicate 300 Byte.x00 ++ [Byte.x07], r') /\ checksum_failed r' = false.
Proof.
  destruct (fly_stream_roundtrip LZ4 256 [Byte.x61] (-1)
    [OpWrite (replicate 300 Byte.x00); OpFlush; OpWrite [Byte.x07]]) as (w & Hw & Hread).
  - lia.
  - vm_compute. discriminate.
  - reflexivity.
  - intros x _ _. eexists. reflexivity.
  - exists w. split; [exact Hw|]. vm_compute in Hw. injection Hw as <-.
    destruct Hread as (_ & _ & _ & Hall); [vm_compute; reflexivity|].
    apply (Hall 302%nat). cbn. lia.
Defined.

(** ** What a delivered block is *)

Section delivered.
Context `{Checksum} `{CompressionLib} {Src : Type} `{PullSource Src}.

(** [pulled s bs s']: some pulls from [s] delivered the bytes [bs], in this
    order, and left the source in [s']. *)
Inductive pulled : Src -> bytes -> Src -> Prop :=
| pulled_nil s : pulled s [] s
| pulled_pull n s x s' ys s'' :
    pull n s = (Some x, s') -> pulled s' ys s'' -> pulled s (x ++ ys) s''.

Lemma pulled_app s x s' y s'' : pulled s x s' -> pulled s' y s'' -> pulled s (x ++ y) s''.
Proof.
  induction 1; [done|]. intros. rewrite <- app_assoc. econstructor; [eassumption|]. auto.
Qed.

(** A source never delivers more than it was asked for. *)
Context (Hpull : forall n (s : Src) x s', pull n s = (Some x, s') -> (length x <= n)%nat).

Lemma pull_loop_pulled fuel n got pt s y pt' s' :
  pull_loop fuel n got pt s = (Some y, pt', s') -> (length got <= n)%nat ->
  exists x, y = got ++ x /\ length y = n /\ pulled s x s'.
Proof.
  revert got pt s. induction fuel as [|fuel IH]; intros got pt s; cbn [pull_loop].
  - destruct (Nat.leb_spec n (length got)); [|done]. intros [= <- _ <-] ?. exists [].
    rewrite app_nil_r. split; [done|]. split; [lia|constructor].
  - destruct (Nat.leb_spec n (length got)).
    + intros [= <- _ <-] ?. exists []. rewrite app_nil_r. split; [done|]. split; [lia|constructor].
    + destruct (pull (n - length got) s) as [[[|c x]|] s1] eqn:E; [done| |done]. intros Hl Hg.
      pose proof (Hpull _ _ _ _ E) as Hx.
      destruct (IH _ _ _ Hl) as (z & -> & Hlen & Hd); [rewrite length_app; lia|].
      exists ((c :: x) ++ z). rewrite app_assoc. split; [done|]. split; [done|].
      by econstructor.
Qed.

Lemma pull_exact_pulled n pt s y pt' s' :
  pull_exact n pt s = (Some y, pt', s') -> length y = n /\ pulled s y s'.
Proof.
  intros E. destruct (pull_loop_pulled _ _ _ _ _ _ _ _ E) as (x & -> & Hl & Hd); [cbn; lia|done].
Qed.

(** The 16 header bytes and the payload of a block, and what a reader with
    compression [comp] makes of them. *)
Definition block_read_as comp (hdr data out : bytes) : Prop :=
  let unc := load 4 0 hdr in
  let cmp := load 4 4 hdr in
  length hdr = 16%nat /\ Z.of_nat (length data) = cmp /\
  unc <= kMaxWireBlockBytes /\ cmp <= kMaxWireBlockBytes /\
  data_checksum data = load 8 8 hdr /\
  (if decide (comp = NONE \/ cmp = unc) then out = data
   else decompress_to comp data (Z.to_nat unc) = Some out /\ Z.of_nat (length out) = unc).

Lemma stages_read_as comp hdr data b :
  length hdr = 16%nat -> length data = Z.to_nat (load 4 4 hdr) ->
  load 4 0 hdr <= kMaxWireBlockBytes -> load 4 4 hdr <= kMaxWireBlockBytes ->
  run_read_stages [CrcVerifyStage; DecompressStage (match comp with NONE => None | _ => Some comp end)]
    (mkBlockData [] data (load 8 8 hdr) (load 4 0 hdr) (load 4 4 hdr) false false false) = Some b ->
  block_read_as comp hdr data (plain b).
Proof.
  intros Hl1 Hl2 Hu Hc. pose proof (load_unsigned 4 4 hdr) as [Hpos _].
  cbn [run_read_stages read_process]. unfold process_verify; cbn [encoded crc failed].
  destruct (Z.eqb_spec (data_checksum data) (load 8 8 hdr)) as [Hcrc|]; [|done]. cbn [failed].
  unfold process_decompress; cbn [comp_size unc_size encoded]. unfold block_read_as.
  intros Hb. split_and!; [done|lia|done..|].
  destruct (decide _) as [[->|Heq]|Hn].
  - by injection Hb as <-.
  - rewrite (proj2 (Z.eqb_eq _ _) Heq) in Hb. destruct comp; by injection Hb as <-.
  - rewrite (proj2 (Z.eqb_neq _ _)) in Hb by tauto.
    assert (Ht : (match comp with NONE => None | _ => Some comp end) = Some comp)
      by (destruct comp; tauto).
    rewrite Ht in Hb. destruct (decompress_to _ _ _) as [out|] eqn:Ed; [|done].
    destruct (Z.eqb_spec (Z.of_nat (length out)) (load 4 0 hdr)); [|done]. by injection Hb as <-.
Qed.

Lemma next_block_verified comp (p p' : ReadPipeline Src) b :
  r_stages_ p = r_stages_ (make_block_read_pipeline comp (src_ p)) -> next_block p = (Some b, p') ->
  exists hdr data, pulled (src_ p) (hdr ++ data) (src_ p') /\ block_read_as comp hdr data (plain b).
Proof.
  unfold next_block. intros ->. destruct (failed_ p || eof_ p); [done|]. cbn [r_stages_ make_block_read_pipeline].
  destruct (pull_exact 16 (hdr_partial_ p) (src_ p)) as [[[hdr|] pt] s1] eqn:E1; [|done].
  destruct (Z.ltb_spec kMaxWireBlockBytes (load 4 0 hdr)); [done|].
  destruct (Z.ltb_spec kMaxWireBlockBytes (load 4 4 hdr)); [done|]. cbn [orb].
  destruct (pull_exact (Z.to_nat (load 4 4 hdr)) false s1) as [[[data|] pt2] s2] eqn:E2; [|done].
  apply pull_exact_pulled in E1 as [Hl1 Hd1]. apply pull_exact_pulled in E2 as [Hl2 Hd2].
  destruct (run_read_stages _ _) as [b'|] eqn:Er; [|done]. intros [= <- <-]. exists hdr, data.
  split; [by eapply pulled_app|]. by apply stages_read_as.
Qed.
End delivered.

Lemma bounded_pull_length `{PullSource Src} :
  (forall n (s : Src) x s', pull n s = (Some x, s') -> (length x <= n)%nat) ->
  forall n (s : BoundedSource Src) x s', pull n s = (Some x, s') -> (length x <= n)%nat.
Proof.
  intros Hpull n s x s'. unfold pull at 1, bounded_pull. destruct (_ <=? _)%nat; [intros [= <- _]; cbn; lia|].
  destruct (pull _ (inner_ s)) as [r i] eqn:E. intros [= -> _]. apply Hpull in E. lia.
Qed.

(** C23: When a stream buffer, reading from any source that never
    delivers more than it is asked for, is refilled, the bytes it hands on come from the next bytes of its
    source and are checked: the source delivered 16 header bytes and then
    exactly as many payload bytes as the header's second field says, both sizes of the
    header respect the wire limit, the checksum of the payload is the
    header's third field, and the bytes handed on are the payload itself when
    the stream is not compressed or the header's sizes are equal, else its
    decompression, of exactly the size in the header's first field. *)
Theorem delivered_block_verified `{Checksum} `{CompressionLib} {Src} `{PullSource Src} comp
    (d d' : DecompressingStreamBuf Src)
    (Hpull : forall n (s : Src) x s', pull n s = (Some x, s') -> (length x <= n)%nat) :
  r_stages_ (pipeline_ d) = r_stages_ (make_block_read_pipeline comp (src_ (pipeline_ d))) ->
  refill d = (true, d') ->
  plain_pos_ d' = 0%nat /\
  exists hdr data, pulled (src_ (pipeline_ d)) (hdr ++ data) (src_ (pipeline_ d')) /\
    length hdr = 16%nat /\ Z.of_nat (length data) = load 4 4 hdr /\
    load 4 0 hdr <= kMaxWireBlockBytes /\ load 4 4 hdr <= kMaxWireBlockBytes /\
    data_checksum data = load 8 8 hdr /\
    (if decide (comp = NONE \/ load 4 4 hdr = load 4 0 hdr) then plain_ d' = data
     else decompress_to comp data (Z.to_nat (load 4 0 hdr)) = Some (plain_ d') /\
       Z.of_nat (length (plain_ d')) = load 4 0 hdr).
Proof.
  unfold refill. intros Hst. destruct (checksum_failed_ d); [done|]. destruct (_ <=? _)%nat; [done|].
  destruct (next_block (pipeline_ d)) as [[b|] p'] eqn:E; [|done]. intros [= _ <-].
  split; [done|]. exact (next_block_verified (bounded_pull_length Hpull) comp _ _ b Hst E).
Qed.

Definition sample_writer : option FlyWriter :=
  apply_writes [OpWrite (replicate 20 Byte.x00)] (open_write ZSTD 16 [] (-1)).

Definition sample_record : bytes := match sample_writer with Some w => finish_write w | None => [] end.

Lemma memory_pull_length n (s : MemoryChunkSource) x s' :
  pull n s = (Some x, s') -> (length x <= n)%nat.
Proof.
  unfold pull, memory_pull. destruct (m_failed_ s); [done|]. cbn zeta. destruct (_ =? _)%nat; intros [= <- _].
  - cbn; lia.
  - unfold slice. rewrite length_take. lia.
Qed.

Lemma delivered_block_verified_witness :
  exists hdr data d', refill (decompress_sb_ (open_read sample_record)) = (true, d') /\
    pulled (src_ (pipeline_ (decompress_sb_ (open_read sample_record)))) (hdr ++ data) (src_ (pipeline_ d')) /\
    data_checksum data = load 8 8 hdr /\ plain_ d' = replicate 16 Byte.x00.
Proof.
  destruct (refill (decompress_sb_ (open_read sample_record))) as [[|] d'] eqn:E; [|vm_compute in E; discriminate].
  destruct (delivered_block_verified ZSTD (decompress_sb_ (open_read sample_record)) d')
    as (_ & hdr & data & Hp & _ & _ & _ & _ & Hc & _);
    [exact memory_pull_length|vm_compute; reflexivity|exact E|].
  exists hdr, data, d'. split; [reflexivity|]. split; [exact Hp|]. split; [exact Hc|].
  vm_compute in E. by injection E as <-.
Defined.

(** A source that fails exactly between two blocks (a broken connection, a
    stopped receiver) is taken for a clean end of the stream: the block reader
    sets its end flag, the stream buffer stops, and neither reports a failure
    although part of the block area was not delivered. *)
Theorem source_failure_is_silent_eof `{Checksum} `{CompressionLib} {Src} `{PullSource Src}
    comp (s s' : Src) area consumed plain0 pos :
  (consumed < area)%nat ->
  pull (16 `min` (area - consumed))%nat s = (None, s') ->
  let d := mkDecompressingStreamBuf
    (mkReadPipeline (r_stages_ (make_block_read_pipeline comp s))
       (mkBoundedSource s area consumed) false false false) false plain0 pos in
  exists d', refill d = (false, d') /\ checksum_failed_ d' = false /\
    failed_ (pipeline_ d') = false /\ eof_ (pipeline_ d') = true /\
    (pull_consumed_ (src_ (pipeline_ d')) < block_area_len_ d')%nat.
Proof.
  intros Hlt Hp d. subst d. unfold refill, block_area_len_. cbn [checksum_failed_ pipeline_ src_ area_ pull_consumed_].
  rewrite (proj2 (Nat.leb_gt _ _)) by done. unfold next_block.
  cbn [failed_ eof_ orb hdr_partial_ src_ r_stages_].
  assert (Hpe : pull_exact 16 false (mkBoundedSource s area consumed) =
    (None, false, mkBoundedSource s' area (consumed + 0))).
  { unfold pull_exact. cbn [pull_loop length Nat.leb Nat.sub]. unfold pull at 1, bounded_pull.
    cbn [area_ pull_consumed_ inner_]. rewrite (proj2 (Nat.leb_gt _ _)) by done. by rewrite Hp. }
  rewrite Hpe. eexists. split; [reflexivity|]. cbn. split_and!; [done..|lia].
Qed.

(** The source fails once it is asked for the second block. *)
Definition failing_source : MemoryChunkSource :=
  mkMemoryChunkSource sample_record 17 34 [] 20 2 ZSTD true.

Lemma source_failure_is_silent_eof_witness :
  exists d', refill (mkDecompressingStreamBuf
      (mkReadPipeline (r_stages_ (make_block_read_pipeline ZSTD failing_source))
         (mkBoundedSource failing_source 34 17) false false false) false [] 0) = (false, d') /\
    checksum_failed_ d' = false /\ failed_ (pipeline_ d') = false.
Proof.
  destruct (source_failure_is_silent_eof ZSTD failing_source failing_source 34 17 [] 0)
    as (d' & Hr & Hc & Hf & _); [lia|reflexivity|]. by exists d'.
Defined.

Section failed_compression.
Context `{Checksum} `{CompressionLib}.

(** The pipeline after one block the library rejects: what it emitted does not
    depend on the bytes of the block. *)
Lemma flush_failed t cs thr z tail :
  t <> NONE -> z <> [] -> Z.of_nat (length z) < 2 ^ 32 -> thr < Z.of_nat (length z) ->
  lib_compress t z = None ->
  exists ctx, flush_block (mkWritePipeline (w_stages_ (make_file_write_pipeline (Some t) cs 85 thr)) cs z
      (mkBlockData [] [] 0 0 0 false tail false) 0 0 0 [] []) =
    mkWritePipeline (w_stages_ (make_file_write_pipeline (Some t) cs 85 thr)) cs [] ctx
      (u64 (Z.of_nat (length z))) 1 0 [0]
      (le_split 4 (Z.of_nat (length z)) ++ le_split 4 0 ++ le_split 8 (data_checksum [])).
Proof.
  intros Ht Hz Hlt Hthr Hf. assert (0 < Z.of_nat (length z)) by (destruct z; [done|cbn; lia]).
  assert (Hc : compress t z = mkCompressedChunk 0 []) by (unfold compress; rewrite Hf; by destruct t, z).
  eexists. unfold flush_block. cbn [buf_ w_stages_ make_file_write_pipeline app ctx_].
  rewrite u32_small by lia. cbn [run_write_stages write_process app]. unfold process_compress.
  cbn [compressor_ ratio_floor_pct_ raw_threshold_ tail_ unc_size plain]. rewrite Hc.
  rewrite (proj2 (Z.leb_gt (Z.of_nat (length z)) thr)), andb_false_r by lia.
  cbn [andb orb Z.leb Z.compare compressed_size_ data_]. rewrite Z.mul_0_l, (proj2 (Z.ltb_lt 0 _)) by lia.
  cbn -[Z.add]. by rewrite !app_nil_r.
Qed.

(** An object of at most one block is flushed as that block. *)
Lemma single_block_flush t cs name thr z :
  t <> NONE -> z <> [] -> (length z <= cs)%nat -> Z.of_nat cs < 2 ^ 32 -> thr < Z.of_nat (length z) ->
  lib_compress t z = None ->
  exists w ctx, fly_write z (open_write t cs name thr) = Some w /\
    fly_flush w = mkFlyWriter (mkWritePipeline (w_stages_ (make_file_write_pipeline (Some t) cs 85 thr)) cs [] ctx
      (u64 (Z.of_nat (length z))) 1 0 [0]
      (le_split 4 (Z.of_nat (length z)) ++ le_split 4 0 ++ le_split 8 (data_checksum []))) t name.
Proof.
  intros Ht Hz Hcs Hb Hthr Hf. assert (Hlen : (0 < length z)%nat) by (destruct z; [done|cbn; lia]).
  set (st := w_stages_ (make_file_write_pipeline (Some t) cs 85 thr)).
  assert (Hw : write z (make_file_write_pipeline (Some t) cs 85 thr) =
    Some (flush_if_full (mkWritePipeline st cs z empty_block 0 0 0 [] []))).
  { unfold write. destruct (length z) as [|n] eqn:Hn; [lia|]. destruct z as [|b z]; [done|]. cbn [write_loop].
    assert (Hff : flush_if_full (make_file_write_pipeline (Some t) cs 85 thr) =
      make_file_write_pipeline (Some t) cs 85 thr) by (unfold flush_if_full; rewrite decide_False; [done|cbn; lia]).
    rewrite !Hff.
    replace (_ `min` _)%nat with (length (b :: z)) by (cbn [make_file_write_pipeline buf_ chunk_size_ length] in *; lia).
    rewrite take_ge, drop_ge by done. by destruct n. }
  assert (Ho : open_write t cs name thr = mkFlyWriter (make_file_write_pipeline (Some t) cs 85 thr) t name)
    by (unfold open_write, compressor_for; by destruct t).
  rewrite Ho. unfold fly_write. cbn [w_pipeline_]. rewrite Hw. cbn [fmap option_fmap option_map].
  destruct (decide (length z = cs)) as [He|Hne].
  - destruct (flush_failed t cs thr z false Ht Hz ltac:(lia) Hthr Hf) as [ctx E].
    eexists _, ctx. split; [done|]. unfold flush_if_full. cbn [buf_ chunk_size_]. rewrite decide_True by done.
    unfold st, empty_block, set_pipeline, fly_flush. cbn [w_pipeline_]. by rewrite E.
  - destruct (flush_failed t cs thr z true Ht Hz ltac:(lia) Hthr Hf) as [ctx E].
    eexists _, ctx. split; [done|]. unfold flush_if_full. cbn [buf_ chunk_size_]. rewrite decide_False by done.
    unfold st, empty_block, set_pipeline, fly_flush, finish. cbn [w_pipeline_ buf_ ctx_].
    destruct z as [|b z]; [done|]. cbn [plain encoded crc unc_size comp_size raw failed chunk_size_ w_stages_
      total_uncompressed_ w_chunk_count_ raw_blocks_ w_block_comp_lens_ emitted_]. by rewrite E.
Qed.
End failed_compression.

(** C40: When the compression library fails on a block the writer stores an empty
    payload for it: two objects of one block and of the same size that the library
    rejects leave the same record behind, so their contents are lost although
    every call succeeds. *)
Theorem failed_compression_loses_block `{Checksum} `{CompressionLib} t cs name thr x y :
  t <> NONE -> x <> [] -> length x = length y -> (length x <= cs)%nat -> Z.of_nat cs < 2 ^ 32 ->
  thr < Z.of_nat (length x) -> lib_compress t x = None -> lib_compress t y = None ->
  exists wx wy,
    fly_write x (open_write t cs name thr) = Some wx /\ fly_write y (open_write t cs name thr) = Some wy /\
    finish_write wx = finish_write wy.
Proof.
  intros Ht Hx Hxy Hcs Hb Hthr Hfx Hfy. assert (y <> []) by (intros ->; by destruct x).
  destruct (single_block_flush t cs name thr x) as (wx & cx & Ex & Fx); [done..|].
  destruct (single_block_flush t cs name thr y) as (wy & cy & Ey & Fy); [done|done|lia|done|lia|done|].
  exists wx, wy. split; [done|]. split; [done|]. unfold finish_write. rewrite Fx, Fy, Hxy. done.
Qed.

(** A library whose compression always fails. *)
Definition broken_lib : CompressionLib := {|
  lib_compress t x := None;
  lib_decompress t y n := None;
  lib_roundtrip t x y _ H := False_ind _ (eq_ind None (fun o => match o with None => True | Some _ => False end) I _ H);
  lib_bound t x y H := False_ind _ (eq_ind None (fun o => match o with None => True | Some _ => False end) I _ H)
|}.

Lemma failed_compression_loses_block_witness :
  exists wx wy,
    @fly_write sum_checksum broken_lib [Byte.x01; Byte.x02] (open_write ZLIB 4 [] 0) = Some wx /\
    @fly_write sum_checksum broken_lib [Byte.x03; Byte.x04] (open_write ZLIB 4 [] 0) = Some wy /\
    @finish_write sum_checksum broken_lib wx = @finish_write sum_checksum broken_lib wy.
Proof.
  apply (@failed_compression_loses_block sum_checksum broken_lib ZLIB 4 [] 0 [Byte.x01; Byte.x02]
           [Byte.x03; Byte.x04]); (discriminate || reflexivity || (cbn; lia)).
Defined.

(** ** Sources that deliver in pieces *)

(** A source that hands out its pieces one by one. *)
Definition Pieces := list bytes.

#[export] Instance pieces_pull : PullSource Pieces := fun n s =>
  match s with
  | [] => (Some [], [])
  | x :: rest => if (length x <=? n)%nat then (Some x, rest) else (Some (take n x), drop n x :: rest)
  end.

(** A payload that arrives in two pieces leaves [hdr_partial_] set, and the clean
    end of the stream that follows is then reported as a failure. *)
Lemma split_payload_fails_at_eof :
  let payload := [Byte.x05; Byte.x06] in
  let p0 := make_block_read_pipeline NONE
    ([header_bytes payload payload; [Byte.x05]; [Byte.x06]] : Pieces) in
  let '(b, p1) := next_block p0 in let '(e, p2) := next_block p1 in
  (plain <$> b) = Some payload /\ failed_ p1 = false /\ e = None /\ failed_ p2 = true.
Proof. vm_compute. auto. Qed.
