(* ===== verification/LocalIndex.v ===== *)
(** The local index (src/storage/cpp/local_index.h and .cpp, index_entry.h): the
    in-memory map from object names to the places their records were written,
    and the operation log it is persisted to.

    The log file is the sequence of records appended to it; [idx_bytes] is its
    content.  The encoding of record bodies (the FLY_ENCODE and FLY_DECODE macros
    over an external serialization library) is the class [IndexCodec]: decoding
    an encoded record gives it back; decoding other bytes may fail ([None] is the
    exception the loader swallows).  Opening and writing the file is assumed to
    succeed; a crash leaves an arbitrary prefix of the file. *)

From stdpp Require Import base gmap strings list option sets fin_maps fin_map_dom.
From Stdlib Require Import ZArith Lia.
From coqutil Require Import Byte.
From S2P Require Import Prelude Bytes.

Open Scope Z_scope.

Record IndexEntry := mkIndexEntry {
  object_name_ : string;
  file_name_ : string;
  offset_ : Z;
  size_ : Z;
  is_large_ : bool;
  block_count_ : Z;
  host_ : string;
  write_context_hash_ : string
}.
#[export] Instance IndexEntry_eq_dec : EqDecision IndexEntry.
Proof. solve_decision. Defined.

Inductive IdxOpType := ADD | REMOVE | BEGIN | END | ABORT.

Definition op_raw (op : IdxOpType) : Z :=
  match op with ADD => 1 | REMOVE => 2 | BEGIN => 3 | END => 4 | ABORT => 5 end.

Record AddRecord := mkAddRecord { r_object_name_ : string; r_entries_ : list IndexEntry }.

Abbreviation EntryMap := (gmap string (list IndexEntry)).

Class IndexCodec := {
  encode_record : AddRecord -> bytes;
  decode_record : bytes -> option AddRecord;
  encode_index : EntryMap -> bytes;
  decode_index : bytes -> option EntryMap;
  decode_encode_record : forall r, decode_record (encode_record r) = Some r;
  decode_encode_index : forall m, decode_index (encode_index m) = Some m
}.

(** ** The log *)

(** A record of the log: an operation and the record in its body, if any. *)
Record LogRecord := mkLogRecord { lr_op : IdxOpType; lr_body : option AddRecord }.

Section log.
Context `{IndexCodec}.

Definition write_header (op : IdxOpType) (body_size : Z) : bytes :=
  le_split 1 (op_raw op) ++ le_split 7 body_size.

Definition body_bytes (r : LogRecord) : bytes :=
  match lr_body r with Some a => encode_record a | None => [] end.

Definition record_bytes (r : LogRecord) : bytes :=
  write_header (lr_op r) (Z.of_nat (length (body_bytes r))) ++ body_bytes r.

Definition idx_bytes (log : list LogRecord) : bytes := concat (record_bytes <$> log).
End log.

Definition append_add (name : string) (entries : list IndexEntry) : LogRecord :=
  mkLogRecord ADD (Some (mkAddRecord name entries)).
Definition append_remove (name : string) : LogRecord :=
  mkLogRecord REMOVE (Some (mkAddRecord name [])).
Definition append_marker (op : IdxOpType) : LogRecord := mkLogRecord op None.

(** ** The index *)

Record LocalIndex := mkLocalIndex {
  entries_ : EntryMap;
  pending_adds_ : EntryMap;
  pending_removes_ : gset string;
  modified_ : bool;
  had_unclosed_segment_ : bool;
  log_ : list LogRecord
}.
#[export] Instance set_entries_LocalIndex : Setter entries_ := fun h x =>
  mkLocalIndex (h (entries_ x)) (pending_adds_ x) (pending_removes_ x) (modified_ x)
    (had_unclosed_segment_ x) (log_ x).
#[export] Instance set_pending_adds_LocalIndex : Setter pending_adds_ := fun h x =>
  mkLocalIndex (entries_ x) (h (pending_adds_ x)) (pending_removes_ x) (modified_ x)
    (had_unclosed_segment_ x) (log_ x).
#[export] Instance set_pending_removes_LocalIndex : Setter pending_removes_ := fun h x =>
  mkLocalIndex (entries_ x) (pending_adds_ x) (h (pending_removes_ x)) (modified_ x)
    (had_unclosed_segment_ x) (log_ x).
#[export] Instance set_modified_LocalIndex : Setter modified_ := fun h x =>
  mkLocalIndex (entries_ x) (pending_adds_ x) (pending_removes_ x) (h (modified_ x))
    (had_unclosed_segment_ x) (log_ x).
#[export] Instance set_log_LocalIndex : Setter log_ := fun h x =>
  mkLocalIndex (entries_ x) (pending_adds_ x) (pending_removes_ x) (modified_ x)
    (had_unclosed_segment_ x) (h (log_ x)).
Arguments set_entries_LocalIndex h x /.
Arguments set_pending_adds_LocalIndex h x /.
Arguments set_pending_removes_LocalIndex h x /.
Arguments set_modified_LocalIndex h x /.
Arguments set_log_LocalIndex h x /.

Definition empty_index : LocalIndex := mkLocalIndex ∅ ∅ ∅ false false [].

(** [m[k].push_back(e)] *)
Definition push_entry (e : IndexEntry) (m : EntryMap) : EntryMap :=
  <[object_name_ e := default [] (m !! object_name_ e) ++ [e]]> m.

Definition add_entry (entry : IndexEntry) (x : LocalIndex) : LocalIndex :=
  x <| entries_ ::= push_entry entry |> <| pending_adds_ ::= push_entry entry |>
    <| pending_removes_ ::= fun s => s ∖ {[object_name_ entry]} |> <| modified_ := true |>.

Definition remove_entry (name : string) (x : LocalIndex) : bool * LocalIndex :=
  match entries_ x !! name with
  | None => (false, x)
  | Some _ =>
      (true, x <| entries_ ::= delete name |> <| pending_removes_ ::= fun s => {[name]} ∪ s |>
               <| pending_adds_ ::= delete name |> <| modified_ := true |>)
  end.

Definition find_entry (name : string) (x : LocalIndex) : option IndexEntry :=
  match entries_ x !! name with None => None | Some l => head l end.

Definition find_all_entries (name : string) (x : LocalIndex) : option (list IndexEntry) :=
  entries_ x !! name.

Definition mark_begin (x : LocalIndex) : LocalIndex := x <| log_ ::= fun l => l ++ [append_marker BEGIN] |>.
Definition mark_end (x : LocalIndex) : LocalIndex := x <| log_ ::= fun l => l ++ [append_marker END] |>.
Definition mark_abort (x : LocalIndex) : LocalIndex := x <| log_ ::= fun l => l ++ [append_marker ABORT] |>.

(** The records [save] appends: first the additions, then the removals. *)
Definition save_records (x : LocalIndex) : list LogRecord :=
  ((fun e => append_add e.1 e.2) <$> map_to_list (pending_adds_ x)) ++
  (append_remove <$> elements (pending_removes_ x)).

Definition save (x : LocalIndex) : LocalIndex :=
  if modified_ x then
    x <| log_ ::= fun l => l ++ save_records x |> <| pending_adds_ := ∅ |>
      <| pending_removes_ := ∅ |> <| modified_ := false |>
  else x.

Definition compact (x : LocalIndex) : LocalIndex :=
  x <| log_ := (fun e => append_add e.1 e.2) <$> map_to_list (entries_ x) |>.

Definition entry_count (x : LocalIndex) : nat := sum_list (length <$> (map_to_list (entries_ x)).*2).

Definition get_all_entries (x : LocalIndex) : list IndexEntry := concat (map_to_list (entries_ x)).*2.

(** ** Loading *)

Record LoadState := mkLoadState {
  l_entries : EntryMap;
  l_in_segment : bool;
  l_pending : EntryMap
}.

Definition load_init : LoadState := mkLoadState ∅ false ∅.

Section loading.
Context `{IndexCodec}.

(** The transaction state machine on one record; other operation bytes are
    skipped. *)
Definition load_op (op : Z) (body : bytes) (s : LoadState) : LoadState :=
  if op =? op_raw ADD then
    match decode_record body with
    | Some r =>
        if l_in_segment s
        then mkLoadState (l_entries s) true (<[r_object_name_ r := r_entries_ r]> (l_pending s))
        else mkLoadState (<[r_object_name_ r := r_entries_ r]> (l_entries s)) false (l_pending s)
    | None => s
    end
  else if op =? op_raw REMOVE then
    match decode_record body with
    | Some r => mkLoadState (delete (r_object_name_ r) (l_entries s)) (l_in_segment s)
                  (delete (r_object_name_ r) (l_pending s))
    | None => s
    end
  else if op =? op_raw BEGIN then mkLoadState (l_entries s) true ∅
  else if op =? op_raw END then mkLoadState (l_pending s ∪ l_entries s) false ∅
  else if op =? op_raw ABORT then mkLoadState (l_entries s) false ∅
  else s.

(** The loop over the file from its current position; [fuel] bounds the number
    of records by the number of bytes. *)
Fixpoint load_loop (fuel : nat) (bs : bytes) (s : LoadState) : LoadState :=
  match fuel with
  | O => s
  | S fuel =>
      if (length bs <? 8)%nat then s
      else
        let op := load 1 0 bs in
        let body_size := load 7 1 bs in
        let rest := drop 8 bs in
        if Z.of_nat (length rest) <? body_size then s
        else
          let n := Z.to_nat body_size in
          load_loop fuel (drop n rest) (load_op op (take n rest) s)
  end.

Definition is_new_format (first_byte : Z) : bool := (1 <=? first_byte) && (first_byte <=? 5).

(** The legacy format: a signed 64-bit size and one encoded map. *)
Definition load_legacy (bs : bytes) : EntryMap :=
  let raw := load 8 0 bs in
  let legacy_size := if raw <? 2 ^ 63 then raw else raw - 2 ^ 64 in
  if (8 <=? length bs)%nat && (0 <? legacy_size) && (8 + legacy_size <=? Z.of_nat (length bs)) then
    match decode_index (slice 8 (Z.to_nat legacy_size) bs) with Some m => m | None => ∅ end
  else ∅.

(** [load] on the content of the file. *)
Definition load_index (bs : bytes) (x : LocalIndex) : LocalIndex :=
  match bs with
  | [] => mkLocalIndex ∅ ∅ ∅ false false (log_ x)
  | _ =>
      if is_new_format (load 1 0 bs) then
        let s := load_loop (length bs) bs load_init in
        mkLocalIndex (l_entries s) ∅ ∅ false
          (l_in_segment s && negb (bool_decide (l_pending s = ∅))) (log_ x)
      else mkLocalIndex (load_legacy bs) ∅ ∅ false false (log_ x)
  end.

Definition save_legacy (x : LocalIndex) : bytes :=
  let body := encode_index (entries_ x) in le_split 8 (Z.of_nat (length body)) ++ body.
End loading.

(** ** Replaying a log *)

Section replay.
Context `{IndexCodec}.

(** What the loader does with a complete record. *)
Definition replay_rec (s : LoadState) (r : LogRecord) : LoadState :=
  load_op (op_raw (lr_op r)) (body_bytes r) s.

Definition replay (log : list LogRecord) (s : LoadState) : LoadState := foldl replay_rec s log.

(** The length of the body fits the seven bytes of the header. *)
Definition rec_small (r : LogRecord) : Prop := unsigned 7 (Z.of_nat (length (body_bytes r))).

#[export] Instance rec_small_dec r : Decision (rec_small r).
Proof. unfold rec_small, unsigned. apply _. Defined.

(** The records that lie completely in the first [k] bytes. *)
Fixpoint complete (k : nat) (log : list LogRecord) : list LogRecord :=
  match log with
  | [] => []
  | r :: log =>
      if (length (record_bytes r) <=? k)%nat then r :: complete (k - length (record_bytes r)) log else []
  end.

(** Bytes at which the loader stops. *)
Definition stops (tail : bytes) : Prop :=
  (length tail < 8)%nat \/ Z.of_nat (length (drop 8 tail)) < load 7 1 tail.

Lemma length_record r : length (record_bytes r) = (8 + length (body_bytes r))%nat.
Proof. unfold record_bytes, write_header. bytes_len. Qed.

Lemma record_fields r s :
  rec_small r ->
  load 1 0 (record_bytes r ++ s) = op_raw (lr_op r) /\
  load 7 1 (record_bytes r ++ s) = Z.of_nat (length (body_bytes r)) /\
  drop 8 (record_bytes r ++ s) = body_bytes r ++ s.
Proof.
  intros Hsm. unfold record_bytes, write_header. rewrite <- !app_assoc. split_and!.
  - load_field. destruct (lr_op r); unfold unsigned; cbn; lia.
  - load_field.
  - rewrite app_assoc. apply drop_app_length'. bytes_len.
Qed.

Lemma load_loop_stop fuel tail s : stops tail -> load_loop fuel tail s = s.
Proof.
  intros Hst. destruct fuel; [done|]. cbn [load_loop]. destruct (Nat.ltb_spec (length tail) 8) as [|Hge]; [done|].
  destruct Hst as [Hlt|Hlt]; [lia|]. by rewrite (proj2 (Z.ltb_lt _ _)).
Qed.

Lemma load_loop_log log tail fuel s :
  Forall rec_small log -> stops tail -> (length log <= fuel)%nat ->
  load_loop fuel (idx_bytes log ++ tail) s = replay log s.
Proof.
  intros Hsm Hst. revert fuel s. induction Hsm as [|r log Hr Hsm IH]; intros fuel s Hf.
  { by apply load_loop_stop. }
  destruct fuel as [|fuel]; [cbn in Hf; lia|]. unfold idx_bytes. cbn [fmap list_fmap concat load_loop].
  rewrite <- app_assoc. destruct (record_fields r (concat (record_bytes <$> log) ++ tail) Hr) as (-> & -> & ->).
  rewrite (proj2 (Nat.ltb_ge _ _)) by (rewrite length_app, length_record; lia).
  rewrite (proj2 (Z.ltb_ge _ _)) by (rewrite length_app; lia).
  rewrite Nat2Z.id, take_app_length, drop_app_length. apply IH. cbn in Hf. lia.
Qed.

Lemma prefix_stops r k :
  rec_small r -> (k < length (record_bytes r))%nat -> stops (take k (record_bytes r)).
Proof.
  intros Hr Hk. rewrite length_record in Hk. destruct (Nat.lt_ge_cases k 8) as [Hlt|Hge].
  { left. rewrite length_take. lia. }
  right. destruct (record_fields r [] Hr) as (_ & Hsz & Hd). rewrite app_nil_r in *.
  assert (Hload : load 7 1 (take k (record_bytes r)) = load 7 1 (record_bytes r)).
  { unfold load, slice. rewrite skipn_firstn_comm, take_take. do 2 f_equal. lia. }
  rewrite Hload, Hsz, length_drop, length_take, length_record. lia.
Qed.

(** A prefix of the file is its complete records and a tail that stops the loader. *)
Lemma take_idx_bytes k log :
  Forall rec_small log ->
  exists tail, take k (idx_bytes log) = idx_bytes (complete k log) ++ tail /\ stops tail.
Proof.
  intros Hsm. revert k. induction Hsm as [|r log Hr Hsm IH]; intros k.
  { exists []. cbn. rewrite take_nil. split; [done|]. left. cbn. lia. }
  unfold idx_bytes. cbn [fmap list_fmap concat complete].
  destruct (Nat.leb_spec (length (record_bytes r)) k) as [Hle|Hlt].
  - destruct (IH (k - length (record_bytes r))%nat) as (tail & Htk & Hst).
    exists tail. split; [|done]. rewrite take_app_ge by done. unfold idx_bytes in Htk. rewrite Htk.
    cbn. by rewrite <- app_assoc.
  - exists (take k (record_bytes r)). split; [|by apply prefix_stops].
    rewrite take_app_le by lia. done.
Qed.

Lemma complete_small k log : Forall rec_small log -> Forall rec_small (complete k log).
Proof.
  intros Hsm. revert k. induction Hsm as [|r log Hr Hsm IH]; intros k; cbn; [constructor|].
  destruct (_ <=? _)%nat; constructor; auto.
Qed.

Lemma length_idx_bytes log : (8 * length log <= length (idx_bytes log))%nat.
Proof.
  unfold idx_bytes. induction log as [|r log IH]; cbn [fmap list_fmap concat length]; [lia|].
  rewrite length_app, length_record. lia.
Qed.

(** Loading any prefix of a log replays its complete records. *)
Lemma load_prefix k log x :
  Forall rec_small log ->
  entries_ (load_index (take k (idx_bytes log)) x) = l_entries (replay (complete k log) load_init).
Proof.
  intros Hsm. destruct (take_idx_bytes k log Hsm) as (tail & Htk & Hst).
  unfold load_index. destruct (take k (idx_bytes log)) as [|b bs] eqn:E.
  { symmetry in Htk. apply app_nil in Htk as [Hc _].
    destruct (complete k log) as [|r l]; [done|]. pose proof (length_idx_bytes (r :: l)) as Hl.
    rewrite Hc in Hl. cbn in Hl. lia. }
  rewrite <- E in *. assert (Hlen : take k (idx_bytes log) <> []) by congruence. clear E b bs.
  assert (Hnew : is_new_format (load 1 0 (take k (idx_bytes log))) = true).
  { destruct k as [|k]; [by rewrite take_0 in Hlen|].
    destruct log as [|r log]; [by destruct (Hlen (take_nil _))|].
    unfold load, slice. rewrite drop_0, take_take. replace (1 `min` S k)%nat with 1%nat by lia.
    apply Forall_cons_1 in Hsm as [Hr _].
    destruct (record_fields r (idx_bytes log) Hr) as (Hop & _). unfold load, slice in Hop.
    rewrite drop_0 in Hop. unfold idx_bytes in *. cbn [fmap list_fmap concat]. rewrite Hop.
    by destruct (lr_op r). }
  rewrite Hnew. cbn [entries_]. rewrite Htk, load_loop_log; [done| |done|].
  - apply (complete_small k log Hsm).
  - rewrite length_app. pose proof (length_idx_bytes (complete k log)). lia.
Qed.
End replay.

(** ** Segments *)

(** What the index would hold if the open segment were committed. *)
Definition view (s : LoadState) : EntryMap :=
  if l_in_segment s then l_pending s ∪ l_entries s else l_entries s.

(** Outside a segment nothing is pending. *)
Definition seg_ok (s : LoadState) : Prop := l_in_segment s = false -> l_pending s = ∅.

Section segments.
Context `{IndexCodec}.

Lemma replay_app l1 l2 s : replay (l1 ++ l2) s = replay l2 (replay l1 s).
Proof. apply foldl_app. Qed.

Lemma replay_add s name es :
  replay_rec s (append_add name es) =
    if l_in_segment s then mkLoadState (l_entries s) true (<[name := es]> (l_pending s))
    else mkLoadState (<[name := es]> (l_entries s)) false (l_pending s).
Proof. unfold replay_rec, load_op; cbn. by rewrite decode_encode_record. Qed.

Lemma replay_remove s name :
  replay_rec s (append_remove name) =
    mkLoadState (delete name (l_entries s)) (l_in_segment s) (delete name (l_pending s)).
Proof. unfold replay_rec, load_op; cbn. by rewrite decode_encode_record. Qed.

(** Additions and removals act on the view, inside a segment or not. *)
Lemma replay_add_view s name es :
  view (replay_rec s (append_add name es)) = <[name := es]> (view s) /\
  l_in_segment (replay_rec s (append_add name es)) = l_in_segment s /\
  (seg_ok s -> seg_ok (replay_rec s (append_add name es))).
Proof.
  rewrite replay_add. unfold view, seg_ok. destruct (l_in_segment s) eqn:E; cbn;
    split_and!; try done; [|naive_solver..]. by rewrite insert_union_l.
Qed.

Lemma replay_remove_view s name :
  view (replay_rec s (append_remove name)) = delete name (view s) /\
  l_in_segment (replay_rec s (append_remove name)) = l_in_segment s /\
  (seg_ok s -> seg_ok (replay_rec s (append_remove name))).
Proof.
  rewrite replay_remove. unfold view, seg_ok. destruct (l_in_segment s) eqn:E; cbn;
    split_and!; try done.
  - by rewrite delete_union.
  - intros Hp _. rewrite Hp by done. apply delete_empty.
Qed.

(** Additions replayed from an association list. *)
Definition adds (l : list (string * list IndexEntry)) : list LogRecord :=
  (fun e => append_add e.1 e.2) <$> l.

Lemma replay_adds l s :
  NoDup l.*1 ->
  view (replay (adds l) s) = list_to_map l ∪ view s /\
  l_in_segment (replay (adds l) s) = l_in_segment s /\ (seg_ok s -> seg_ok (replay (adds l) s)).
Proof.
  revert s. induction l as [|[name es] l IH]; intros s Hnd.
  { cbn. by rewrite (left_id_L ∅ (∪)). }
  change (replay (adds ((name, es) :: l)) s) with (replay (adds l) (replay_rec s (append_add name es))).
  apply NoDup_cons in Hnd as [Hn Hnd].
  destruct (replay_add_view s name es) as (Hv & Hs & Hk).
  destruct (IH (replay_rec s (append_add name es)) Hnd) as (Hv' & Hs' & Hk').
  split_and!; [|congruence|auto]. rewrite Hv', Hv. cbn [list_to_map foldr].
  assert (Hnone : (list_to_map l : EntryMap) !! name = None) by (by apply not_elem_of_list_to_map).
  rewrite <- insert_union_l. by rewrite insert_union_r.
Qed.

Lemma replay_removes l s :
  (forall n, view (replay (append_remove <$> l) s) !! n = if decide (n ∈ l) then None else view s !! n) /\
  l_in_segment (replay (append_remove <$> l) s) = l_in_segment s /\
  (seg_ok s -> seg_ok (replay (append_remove <$> l) s)).
Proof.
  revert s. induction l as [|name l IH]; intros s; [done|].
  change (replay (append_remove <$> name :: l) s)
    with (replay (append_remove <$> l) (replay_rec s (append_remove name))).
  destruct (replay_remove_view s name) as (Hv & Hs & Hk).
  destruct (IH (replay_rec s (append_remove name))) as (Hv' & Hs' & Hk').
  split_and!; [|congruence|auto]. intros n. rewrite Hv', Hv.
  destruct (decide (n ∈ l)); [by rewrite decide_True by set_solver|].
  destruct (decide (n = name)) as [->|Hne].
  - rewrite decide_True by set_solver. apply lookup_delete_eq.
  - rewrite decide_False by set_solver. by apply lookup_delete_ne.
Qed.

Lemma replay_begin s :
  seg_ok s -> l_in_segment s = false ->
  replay_rec s (append_marker BEGIN) = mkLoadState (l_entries s) true ∅ /\
  view (replay_rec s (append_marker BEGIN)) = view s.
Proof.
  intros _ Hs. split; [done|]. unfold view. cbn. rewrite Hs. apply (left_id_L ∅ (∪)).
Qed.

Lemma replay_end s :
  seg_ok s ->
  replay_rec s (append_marker END) = mkLoadState (view s) false ∅.
Proof.
  intros Hk. unfold replay_rec, load_op, view; cbn. destruct (l_in_segment s) eqn:E; [done|].
  rewrite Hk by done. by rewrite (left_id_L ∅ (∪)).
Qed.

Lemma view_closed s : l_in_segment s = false -> view s = l_entries s.
Proof. unfold view. by intros ->. Qed.

(** An open segment that only adds does not touch the committed entries. *)
Lemma replay_adds_entries l s :
  l_in_segment s = true -> l_entries (replay (adds l) s) = l_entries s.
Proof.
  revert s. induction l as [|[name es] l IH]; intros s Hs; [done|].
  change (replay (adds ((name, es) :: l)) s) with (replay (adds l) (replay_rec s (append_add name es))).
  rewrite replay_add, Hs. by rewrite IH.
Qed.
End segments.

(** ** Persistence *)

Inductive index_op := IAdd (e : IndexEntry) | IRemove (name : string) | ISave | IBegin | IEnd.

Definition index_apply (op : index_op) (x : LocalIndex) : LocalIndex :=
  match op with
  | IAdd e => add_entry e x
  | IRemove name => (remove_entry name x).2
  | ISave => save x
  | IBegin => mark_begin x
  | IEnd => mark_end x
  end.

(** The latest version of an object, as [entries.back()] gives it. *)
Definition latest (m : EntryMap) (name : string) : option (option IndexEntry) := last <$> m !! name.

Section persistence.
Context `{IndexCodec}.

(** The state the loader would be in after the log written so far. *)
Definition log_state (x : LocalIndex) : LoadState := replay (log_ x) load_init.

(** A run in which segments do not nest and are not aborted. *)
Inductive index_run : LocalIndex -> list index_op -> LocalIndex -> Prop :=
  | index_run_nil x : index_run x [] x
  | index_run_cons x op ops y :
      (op = IBegin -> l_in_segment (log_state x) = false) ->
      index_run (index_apply op x) ops y -> index_run x (op :: ops) y.

(** Executes a sequence of operations and checks its guards. *)
Definition run_index (ops : list index_op) (x : LocalIndex) : LocalIndex :=
  foldl (fun x op => index_apply op x) x ops.

Fixpoint guarded (ops : list index_op) (x : LocalIndex) : bool :=
  match ops with
  | [] => true
  | op :: ops =>
      match op with IBegin => negb (l_in_segment (log_state x)) | _ => true end
      && guarded ops (index_apply op x)
  end.

Lemma guarded_run ops x : guarded ops x = true -> index_run x ops (run_index ops x).
Proof.
  revert x. induction ops as [|op ops IH]; intros x; [constructor|]. cbn.
  intros [Hg Hops]%andb_prop. constructor; [|by apply IH]. intros ->. by apply negb_true_iff.
Qed.

(** Memory and log agree on the latest version of every object but the ones
    still pending. *)
Record agrees (x : LocalIndex) : Prop := {
  ag_seg : seg_ok (log_state x);
  ag_add : forall n l, pending_adds_ x !! n = Some l ->
    n ∉ pending_removes_ x /\ l <> [] /\ exists l0, entries_ x !! n = Some (l0 ++ l);
  ag_remove : forall n, n ∈ pending_removes_ x -> entries_ x !! n = None;
  ag_rest : forall n, pending_adds_ x !! n = None -> n ∉ pending_removes_ x ->
    latest (entries_ x) n = latest (view (log_state x)) n;
  ag_clean : modified_ x = false -> pending_adds_ x = ∅ /\ pending_removes_ x = ∅
}.

Lemma agrees_empty : agrees empty_index.
Proof. split; cbn; try done; set_solver. Qed.

Lemma add_entry_agrees e x : agrees x -> agrees (add_entry e x).
Proof.
  intros [Hs Ha Hr Hrest Hc]. set (n0 := object_name_ e). split; cbn; try done.
  - intros n l. unfold push_entry. fold n0. rewrite lookup_insert_Some.
    intros [[<- <-]|[Hne Hl]].
    + split; [set_solver|]. split; [by destruct (default [] _)|]. rewrite lookup_insert_eq.
      destruct (pending_adds_ x !! n0) as [l|] eqn:El; cbn.
      * destruct (Ha n0 l El) as (_ & _ & l0 & ->). exists l0. cbn. by rewrite app_assoc.
      * exists (default [] (entries_ x !! n0)). done.
    + destruct (Ha n l Hl) as (Hnr & Hnn & l0 & Hl0). split; [set_solver|]. split; [done|].
      exists l0. by rewrite lookup_insert_ne.
  - intros n [Hn Hne]%elem_of_difference. unfold push_entry. rewrite lookup_insert_ne by set_solver.
    by apply Hr.
  - intros n Hn Hnr. unfold push_entry in *. fold n0 in Hn, Hnr |- *.
    apply lookup_insert_None in Hn as [Hn Hne]. unfold latest. rewrite lookup_insert_ne by done.
    apply Hrest; [done|]. set_solver.
Qed.

Lemma remove_entry_agrees n0 x : agrees x -> agrees (remove_entry n0 x).2.
Proof.
  intros Hx. unfold remove_entry. destruct (entries_ x !! n0) as [es|] eqn:E; [|done]. cbn.
  destruct Hx as [Hs Ha Hr Hrest Hc]. split; cbn; try done.
  - intros n l [Hne Hl]%lookup_delete_Some. destruct (Ha n l Hl) as (Hnr & Hnn & l0 & Hl0).
    split; [set_solver|]. split; [done|]. exists l0. by rewrite lookup_delete_ne.
  - intros n [->%elem_of_singleton|Hn]%elem_of_union; [apply lookup_delete_eq|].
    apply lookup_delete_None. right. by apply Hr.
  - intros n Hn Hnr. unfold latest. rewrite lookup_delete_ne by set_solver.
    apply Hrest; [|set_solver]. apply lookup_delete_None in Hn as [->|?]; [set_solver|done].
Qed.

(** The view after a save: the removed objects are gone, the pending ones have
    their pending entries. *)
Lemma save_view x :
  let s := replay (save_records x) (log_state x) in
  (forall n, view s !! n = if decide (n ∈ pending_removes_ x) then None
     else match pending_adds_ x !! n with Some l => Some l | None => view (log_state x) !! n end) /\
  l_in_segment s = l_in_segment (log_state x) /\ (seg_ok (log_state x) -> seg_ok s).
Proof.
  intros s. subst s. unfold save_records. rewrite replay_app.
  change ((fun e => append_add e.1 e.2) <$> map_to_list (pending_adds_ x))
    with (adds (map_to_list (pending_adds_ x))).
  destruct (replay_adds (map_to_list (pending_adds_ x)) (log_state x)) as (Hv & Hg & Hk);
    [apply NoDup_fst_map_to_list|].
  destruct (replay_removes (elements (pending_removes_ x))
    (replay (adds (map_to_list (pending_adds_ x))) (log_state x))) as (Hv' & Hg' & Hk').
  split_and!; [|congruence|auto]. intros n. rewrite Hv', Hv, list_to_map_to_list.
  destruct (decide (n ∈ pending_removes_ x)) as [Hn|Hn].
  - by rewrite decide_True by set_solver.
  - rewrite decide_False by set_solver. rewrite lookup_union.
    destruct (pending_adds_ x !! n), (view (log_state x) !! n); done.
Qed.

Lemma log_state_app x l : replay (log_ x ++ l) load_init = replay l (log_state x).
Proof. apply replay_app. Qed.

Lemma save_agrees x : agrees x -> agrees (save x).
Proof.
  intros Hx. unfold save. destruct (modified_ x) eqn:Em; [|done].
  destruct (save_view x) as (Hv & _ & Hk). destruct Hx as [Hs Ha Hr Hrest Hc].
  change (agrees (mkLocalIndex (entries_ x) ∅ ∅ false (had_unclosed_segment_ x)
    (log_ x ++ save_records x))).
  split; unfold log_state; cbn [entries_ pending_adds_ pending_removes_ modified_ log_];
    rewrite ?log_state_app.
  - by apply Hk.
  - intros n l Hl. by rewrite lookup_empty in Hl.
  - set_solver.
  - intros n _ _. unfold latest. rewrite Hv. case_decide as Hn; [by rewrite Hr|].
    destruct (pending_adds_ x !! n) as [l|] eqn:El; [|by apply Hrest].
    destruct (Ha n l El) as (_ & Hne & l0 & ->). cbn. f_equal. rewrite last_app.
    destruct (last l) eqn:Ell; [done|]. by apply last_None in Ell.
  - done.
Qed.

(** A marker that keeps the view keeps the agreement. *)
Lemma marker_agrees op x :
  agrees x -> seg_ok (replay_rec (log_state x) (append_marker op)) ->
  view (replay_rec (log_state x) (append_marker op)) = view (log_state x) ->
  agrees (x <| log_ ::= fun l => l ++ [append_marker op] |>).
Proof.
  intros [Hs Ha Hr Hrest Hc] Hsg Hv.
  change (agrees (mkLocalIndex (entries_ x) (pending_adds_ x) (pending_removes_ x) (modified_ x)
    (had_unclosed_segment_ x) (log_ x ++ [append_marker op]))).
  split; unfold log_state; cbn [entries_ pending_adds_ pending_removes_ modified_ log_];
    rewrite ?log_state_app; cbn [replay foldl]; auto.
  intros n Hn Hnr. unfold replay; cbn [foldl]. rewrite Hv. by apply Hrest.
Qed.

Lemma index_step_agrees op x :
  (op = IBegin -> l_in_segment (log_state x) = false) -> agrees x -> agrees (index_apply op x).
Proof.
  intros Hop Hx. destruct op; cbn [index_apply].
  - by apply add_entry_agrees.
  - by apply remove_entry_agrees.
  - by apply save_agrees.
  - destruct (replay_begin (log_state x) (ag_seg _ Hx) (Hop eq_refl)) as (Hb & Hv).
    apply marker_agrees; [done|by rewrite Hb|done].
  - pose proof (replay_end (log_state x) (ag_seg _ Hx)) as He.
    apply marker_agrees; [done|by rewrite He|by rewrite He].
Qed.

Lemma index_run_agrees x ops y : index_run x ops y -> agrees x -> agrees y.
Proof. induction 1; auto using index_step_agrees. Qed.

Lemma complete_all log : complete (length (idx_bytes log)) log = log.
Proof.
  induction log as [|r log IH]; [done|]. unfold idx_bytes; cbn [fmap list_fmap concat complete].
  rewrite length_app, (proj2 (Nat.leb_le _ _)) by lia. f_equal.
  by replace (length (record_bytes r) + length (concat (record_bytes <$> log)) - length (record_bytes r))%nat
    with (length (idx_bytes log)) by (unfold idx_bytes; lia).
Qed.

Lemma load_whole log x :
  Forall rec_small log ->
  entries_ (load_index (idx_bytes log) x) = l_entries (replay log load_init).
Proof.
  intros Hsm. pose proof (load_prefix (length (idx_bytes log)) log x Hsm) as Hl.
  by rewrite take_ge, complete_all in Hl.
Qed.
End persistence.

(** ** A codec for the witnesses *)

#[export] Instance IndexEntry_countable : Countable IndexEntry.
Proof.
  apply (inj_countable'
    (fun e => (object_name_ e, file_name_ e, offset_ e, size_ e, is_large_ e, block_count_ e, host_ e,
               write_context_hash_ e))
    (fun '(a, b, c, d, e, f, g, h) => mkIndexEntry a b c d e f g h)). by intros [].
Defined.
#[export] Instance AddRecord_eq_dec : EqDecision AddRecord.
Proof. solve_decision. Defined.
#[export] Instance AddRecord_countable : Countable AddRecord.
Proof.
  apply (inj_countable' (fun r => (r_object_name_ r, r_entries_ r)) (fun '(a, b) => mkAddRecord a b)).
  by intros [].
Defined.

(** One byte per bit of the number that stands for the value. *)
Fixpoint pos_bytes (p : positive) : bytes :=
  match p with
  | xH => []
  | xO p => Byte.x00 :: pos_bytes p
  | xI p => Byte.x01 :: pos_bytes p
  end.

Fixpoint bytes_pos (bs : bytes) : positive :=
  match bs with
  | [] => xH
  | b :: bs => if decide (b = Byte.x00) then xO (bytes_pos bs) else xI (bytes_pos bs)
  end.

Lemma bytes_pos_bytes p : bytes_pos (pos_bytes p) = p.
Proof. induction p as [p IH|p IH|]; cbn; by rewrite ?IH. Qed.

Lemma countable_roundtrip `{Countable A} (a : A) : decode (bytes_pos (pos_bytes (encode a))) = Some a.
Proof. by rewrite bytes_pos_bytes, decode_encode. Qed.

#[export] Instance bit_codec : IndexCodec := {
  encode_record r := pos_bytes (encode r);
  decode_record bs := decode (bytes_pos bs);
  encode_index m := pos_bytes (encode m);
  decode_index bs := decode (bytes_pos bs);
  decode_encode_record := countable_roundtrip;
  decode_encode_index := countable_roundtrip
}.

(** ** Complete records of a prefix *)

Section complete_facts.
Context `{IndexCodec}.

Lemma length_idx_app l1 l2 :
  length (idx_bytes (l1 ++ l2)) = (length (idx_bytes l1) + length (idx_bytes l2))%nat.
Proof. unfold idx_bytes. by rewrite fmap_app, concat_app, length_app. Qed.

Lemma complete_app k l1 l2 :
  (length (idx_bytes l1) <= k)%nat ->
  complete k (l1 ++ l2) = l1 ++ complete (k - length (idx_bytes l1)) l2.
Proof.
  revert k. induction l1 as [|r l1 IH]; intros k Hk; cbn [app complete].
  { cbn. by rewrite Nat.sub_0_r. }
  change (r :: l1) with ([r] ++ l1) in Hk. rewrite length_idx_app in Hk.
  unfold idx_bytes at 1 in Hk. cbn [fmap list_fmap concat] in Hk. rewrite app_nil_r in Hk.
  rewrite (proj2 (Nat.leb_le _ _)) by lia. f_equal. rewrite IH by lia. f_equal. f_equal.
  change (r :: l1) with ([r] ++ l1). rewrite length_idx_app. unfold idx_bytes at 2.
  cbn [fmap list_fmap concat]. rewrite app_nil_r. lia.
Qed.

Lemma complete_ge k l : (length (idx_bytes l) <= k)%nat -> complete k l = l.
Proof. intros Hk. rewrite <- (app_nil_r l) at 1. rewrite complete_app by done. apply app_nil_r. Qed.

Lemma complete_strict k l :
  (k < length (idx_bytes l))%nat -> exists r rest, l = complete k l ++ r :: rest.
Proof.
  revert k. induction l as [|r l IH]; intros k Hk; [cbn in Hk; lia|]. cbn [complete].
  destruct (Nat.leb_spec (length (record_bytes r)) k) as [Hle|Hlt]; [|by exists r, l].
  change (r :: l) with ([r] ++ l) in Hk. rewrite length_idx_app in Hk.
  unfold idx_bytes at 1 in Hk. cbn [fmap list_fmap concat] in Hk. rewrite app_nil_r in Hk.
  destruct (IH (k - length (record_bytes r))%nat) as (r' & rest & Heq); [lia|].
  exists r', rest. by rewrite Heq at 1.
Qed.

(** A proper prefix of a segment is empty or an open segment. *)
Lemma segment_prefix l p r rest :
  append_marker BEGIN :: adds l ++ [append_marker END] = p ++ r :: rest ->
  p = [] \/ exists n, p = append_marker BEGIN :: adds (take n l).
Proof.
  destruct p as [|b p]; [by left|]. intros [= <- Heq]. right. exists (length p). f_equal.
  assert (Hlen : (length p <= length (adds l))%nat).
  { apply (f_equal length) in Heq. rewrite !length_app in Heq. cbn in Heq. lia. }
  rewrite <- (take_app_length p (r :: rest)), <- Heq at 1. rewrite take_app_le by done.
  unfold adds. by rewrite fmap_take.
Qed.
End complete_facts.

(** ** Properties *)

(** C6: Segments are all-or-nothing across a crash: when the file is cut at any
    byte at or after the start of a segment of additions, a reload gives exactly
    the entries committed before it if the segment's END marker is not complete
    in the file, and those entries overlaid with all the additions if it is. *)
Theorem segment_crash_atomic `{IndexCodec} log l k x :
  let seg := append_marker BEGIN :: adds l ++ [append_marker END] in
  Forall rec_small (log ++ seg) ->
  NoDup l.*1 -> l_in_segment (replay log load_init) = false -> l_pending (replay log load_init) = ∅ ->
  (length (idx_bytes log) <= k)%nat ->
  entries_ (load_index (take k (idx_bytes (log ++ seg))) x) =
    if decide (length (idx_bytes (log ++ seg)) <= k)%nat
    then list_to_map l ∪ l_entries (replay log load_init)
    else l_entries (replay log load_init).
Proof.
  intros seg Hsm Hnd Hseg Hpend Hk. set (before := l_entries (replay log load_init)).
  assert (Hs0 : replay log load_init = mkLoadState before false ∅)
    by (unfold before; destruct (replay log load_init); cbn in *; by subst).
  rewrite load_prefix, complete_app, replay_app, Hs0 by done. rewrite length_idx_app. case_decide as Hfull.
  - rewrite complete_ge by lia. unfold seg. change (append_marker BEGIN :: ?t) with ([append_marker BEGIN] ++ t).
    rewrite !replay_app. change (replay [append_marker BEGIN] _) with (mkLoadState before true ∅).
    destruct (replay_adds l (mkLoadState before true ∅) Hnd) as (Hv & _ & Hok).
    change (replay [append_marker END] ?s) with (replay_rec s (append_marker END)).
    rewrite replay_end by (by apply Hok). cbn [l_entries]. rewrite Hv. unfold view; cbn.
    by rewrite (left_id_L ∅ (∪)).
  - destruct (complete_strict (k - length (idx_bytes log)) seg) as (r & rest & Heq); [lia|].
    apply segment_prefix in Heq as [->|[n ->]]; [done|].
    change (append_marker BEGIN :: ?t) with ([append_marker BEGIN] ++ t).
    rewrite replay_app. change (replay [append_marker BEGIN] _) with (mkLoadState before true ∅).
    by rewrite replay_adds_entries.
Qed.

Definition entry_at (name file : string) (off size : Z) : IndexEntry :=
  mkIndexEntry name file off size false 1 "" "".

Definition demo_log : list LogRecord := [append_add "a" [entry_at "a" "d1" 0 40]].
Definition demo_adds : list (string * list IndexEntry) :=
  [("b", [entry_at "b" "d1" 40 8]); ("a", [entry_at "a" "d1" 48 9])].

Lemma demo_small :
  Forall rec_small (demo_log ++ append_marker BEGIN :: adds demo_adds ++ [append_marker END]).
Proof. decide_compute. Qed.

Lemma segment_crash_atomic_witness :
  entries_ (load_index (take (length (idx_bytes demo_log) + 21)
    (idx_bytes (demo_log ++ append_marker BEGIN :: adds demo_adds ++ [append_marker END]))) empty_index) =
  {["a" := [entry_at "a" "d1" 0 40]]}.
Proof.
  rewrite (segment_crash_atomic demo_log demo_adds (length (idx_bytes demo_log) + 21) empty_index).
  - vm_compute. reflexivity.
  - exact demo_small.
  - decide_compute.
  - vm_compute. reflexivity.
  - vm_compute. reflexivity.
  - lia.
Defined.

(** C22: A reload loses no object and no update: after any sequence of additions,
    removals, saves and committed segments that ends saved and outside a segment,
    the index loaded back from the file knows the same objects as the one in
    memory and has the same latest version of each. *)
Theorem reload_keeps_latest `{IndexCodec} ops x :
  index_run empty_index ops x ->
  modified_ x = false -> l_in_segment (log_state x) = false -> Forall rec_small (log_ x) ->
  let y := load_index (idx_bytes (log_ x)) x in
  forall n, latest (entries_ y) n = latest (entries_ x) n.
Proof.
  intros Hrun Hm Hseg Hsm y n. pose proof (index_run_agrees _ _ _ Hrun agrees_empty) as Hag.
  destruct (ag_clean _ Hag Hm) as [Hpa Hpr]. symmetry. etransitivity.
  - apply (ag_rest _ Hag n); [by rewrite Hpa|by rewrite Hpr].
  - rewrite (view_closed _ Hseg). unfold y. by rewrite load_whole.
Qed.

Definition demo_index_ops : list index_op :=
  [IAdd (entry_at "a" "d1" 0 40); ISave; IBegin; IAdd (entry_at "b" "d1" 40 8);
   IAdd (entry_at "a" "d1" 48 9); ISave; IEnd; IRemove "b"; ISave].

Definition demo_index : LocalIndex := Eval vm_compute in run_index demo_index_ops empty_index.

Lemma demo_index_run : index_run empty_index demo_index_ops demo_index.
Proof.
  assert (Heq : demo_index = run_index demo_index_ops empty_index) by (vm_compute; reflexivity).
  rewrite Heq. apply guarded_run. vm_compute. reflexivity.
Qed.

Lemma demo_index_small : Forall rec_small (log_ demo_index) /\ Forall rec_small (log_ (compact demo_index)).
Proof. split; decide_compute. Qed.

Lemma reload_keeps_latest_witness :
  latest (entries_ (load_index (idx_bytes (log_ demo_index)) demo_index)) "a" =
    Some (Some (entry_at "a" "d1" 48 9)) /\
  latest (entries_ (load_index (idx_bytes (log_ demo_index)) demo_index)) "b" = None.
Proof.
  assert (Hm : modified_ demo_index = false) by (vm_compute; reflexivity).
  assert (Hseg : l_in_segment (log_state demo_index) = false) by (vm_compute; reflexivity).
  split; rewrite (reload_keeps_latest demo_index_ops demo_index demo_index_run Hm Hseg
    (proj1 demo_index_small)); vm_compute; reflexivity.
Defined.

(** Compaction is exact: the index loaded from the compacted file has exactly
    the entries the index had in memory, all versions included. *)
Theorem compact_reload_exact `{IndexCodec} x y :
  Forall rec_small (log_ (compact x)) ->
  entries_ (load_index (idx_bytes (log_ (compact x))) y) = entries_ x.
Proof.
  intros Hsm. rewrite load_whole by done.
  change (log_ (compact x)) with (adds (map_to_list (entries_ x))).
  destruct (replay_adds (map_to_list (entries_ x)) load_init) as (Hv & Hg & _);
    [apply NoDup_fst_map_to_list|].
  rewrite <- (view_closed (replay _ _)) by (by rewrite Hg). rewrite Hv.
  change (view load_init) with (∅ : EntryMap).
  by rewrite (right_id_L ∅ (∪)), list_to_map_to_list.
Qed.

Lemma compact_reload_exact_witness :
  entries_ (load_index (idx_bytes (log_ (compact demo_index))) empty_index) = entries_ demo_index /\
  entries_ demo_index !! "a" = Some [entry_at "a" "d1" 0 40; entry_at "a" "d1" 48 9].
Proof.
  split; [|vm_compute; reflexivity]. apply compact_reload_exact.
  exact (proj2 demo_index_small).
Defined.

(** ** What a reload does not keep *)

(** Earlier versions saved in another batch are replaced by the later batch. *)
Lemma reload_drops_old_versions :
  entries_ demo_index !! "a" = Some [entry_at "a" "d1" 0 40; entry_at "a" "d1" 48 9] /\
  entries_ (load_index (idx_bytes (log_ demo_index)) demo_index) !! "a" = Some [entry_at "a" "d1" 48 9].
Proof. vm_compute. auto. Qed.

(** A removal saved inside a segment takes effect although the segment is aborted. *)
Lemma aborted_remove_takes_effect :
  let x := mark_abort (save (remove_entry "a" (mark_begin (save (add_entry (entry_at "a" "d1" 0 40)
             empty_index)))).2) in
  entries_ (load_index (idx_bytes (log_ x)) x) = ∅.
Proof. vm_compute. reflexivity. Qed.

(** The memory of the index keeps what an aborted segment added, and a later save
    of such an entry that was still pending makes it permanent. *)
Lemma aborted_add_survives :
  let x := save (mark_abort (add_entry (entry_at "a" "d1" 0 40) (mark_begin empty_index))) in
  entries_ (load_index (idx_bytes (log_ x)) x) !! "a" = Some [entry_at "a" "d1" 0 40].
Proof. vm_compute. reflexivity. Qed.
