(* ===== verification/DataWriter.v ===== *)
(** The data writer and reader (src/storage/cpp/data_writer.h and .cpp,
    data_reader.h and .cpp): object records appended to numbered data files, with
    an index entry per record and rollback of a write segment.

    The write directory is a map from file names to contents: what each file
    holds once its stream is flushed.  A write goes to the buffer of the output
    stream, so the state also counts the bytes of the current file that are
    known to have left the buffer, and [on_disk] says which directories a reader
    may find: the buffer may have drained further at any time.  File operations
    are assumed to succeed, so the paths that report I/O errors are not
    modelled. *)

From stdpp Require Import base gmap strings list option sets fin_maps.
From Stdlib Require Import ZArith Lia Ascii.
From Stdlib Require String.
From coqutil Require Import Byte.
From S2P Require Import Prelude Bytes LocalIndex.

Open Scope Z_scope.

(** ** File names *)

Definition digit (d : nat) : ascii := ascii_of_nat (48 + d).

(** The decimal digits of a number, at least [width] of them, most significant
    last; [fuel] bounds the number of digits. *)
Fixpoint digits_rev (fuel width n : nat) : list nat :=
  match fuel with
  | O => []
  | S fuel =>
      if (width =? 0)%nat && (n =? 0)%nat then []
      else Nat.modulo n 10 :: digits_rev fuel (width - 1) (Nat.div n 10)
  end.

(** [std::setw(3)] with fill [0]. *)
Definition number3 (n : nat) : string :=
  String.string_of_list_ascii (digit <$> reverse (digits_rev (3 + n) 3 n)).

Definition get_file_name (temp_mode : bool) (writer_id : string) (index : nat) : string :=
  ((if temp_mode then ".temp.data_" else "data_") ++ writer_id ++ "_" ++ number3 index ++ ".dat")%string.

(** ** State *)

Record SegmentRollbackPoint := mkSegmentRollbackPoint {
  sp_file_index_ : nat;
  sp_file_offset_ : nat;
  sp_active_ : bool
}.

Record DataWriter := mkDataWriter {
  files_ : gmap string bytes;
  writer_id_ : string;
  host_name_ : string;
  temp_mode_ : bool;
  aggregation_threshold_ : Z;
  current_file_ : string;
  file_index_ : nat;
  current_file_size_ : nat;
  index_ : LocalIndex;
  total_bytes_ : Z;
  closed_ : bool;
  stream_open_ : bool;
  segment_point_ : SegmentRollbackPoint;
  incremental_offset_ : option nat;
  incremental_file_ : string;
  flushed_ : nat
}.
#[export] Instance set_files_DataWriter : Setter files_ :=
  fun h x => mkDataWriter (h (files_ x)) (writer_id_ x) (host_name_ x) (temp_mode_ x) (aggregation_threshold_ x) (current_file_ x) (file_index_ x) (current_file_size_ x) (index_ x) (total_bytes_ x) (closed_ x) (stream_open_ x) (segment_point_ x) (incremental_offset_ x) (incremental_file_ x) (flushed_ x).
Arguments set_files_DataWriter h x /.
#[export] Instance set_current_file_DataWriter : Setter current_file_ :=
  fun h x => mkDataWriter (files_ x) (writer_id_ x) (host_name_ x) (temp_mode_ x) (aggregation_threshold_ x) (h (current_file_ x)) (file_index_ x) (current_file_size_ x) (index_ x) (total_bytes_ x) (closed_ x) (stream_open_ x) (segment_point_ x) (incremental_offset_ x) (incremental_file_ x) (flushed_ x).
Arguments set_current_file_DataWriter h x /.
#[export] Instance set_file_index_DataWriter : Setter file_index_ :=
  fun h x => mkDataWriter (files_ x) (writer_id_ x) (host_name_ x) (temp_mode_ x) (aggregation_threshold_ x) (current_file_ x) (h (file_index_ x)) (current_file_size_ x) (index_ x) (total_bytes_ x) (closed_ x) (stream_open_ x) (segment_point_ x) (incremental_offset_ x) (incremental_file_ x) (flushed_ x).
Arguments set_file_index_DataWriter h x /.
#[export] Instance set_current_file_size_DataWriter : Setter current_file_size_ :=
  fun h x => mkDataWriter (files_ x) (writer_id_ x) (host_name_ x) (temp_mode_ x) (aggregation_threshold_ x) (current_file_ x) (file_index_ x) (h (current_file_size_ x)) (index_ x) (total_bytes_ x) (closed_ x) (stream_open_ x) (segment_point_ x) (incremental_offset_ x) (incremental_file_ x) (flushed_ x).
Arguments set_current_file_size_DataWriter h x /.
#[export] Instance set_index_DataWriter : Setter index_ :=
  fun h x => mkDataWriter (files_ x) (writer_id_ x) (host_name_ x) (temp_mode_ x) (aggregation_threshold_ x) (current_file_ x) (file_index_ x) (current_file_size_ x) (h (index_ x)) (total_bytes_ x) (closed_ x) (stream_open_ x) (segment_point_ x) (incremental_offset_ x) (incremental_file_ x) (flushed_ x).
Arguments set_index_DataWriter h x /.
#[export] Instance set_total_bytes_DataWriter : Setter total_bytes_ :=
  fun h x => mkDataWriter (files_ x) (writer_id_ x) (host_name_ x) (temp_mode_ x) (aggregation_threshold_ x) (current_file_ x) (file_index_ x) (current_file_size_ x) (index_ x) (h (total_bytes_ x)) (closed_ x) (stream_open_ x) (segment_point_ x) (incremental_offset_ x) (incremental_file_ x) (flushed_ x).
Arguments set_total_bytes_DataWriter h x /.
#[export] Instance set_closed_DataWriter : Setter closed_ :=
  fun h x => mkDataWriter (files_ x) (writer_id_ x) (host_name_ x) (temp_mode_ x) (aggregation_threshold_ x) (current_file_ x) (file_index_ x) (current_file_size_ x) (index_ x) (total_bytes_ x) (h (closed_ x)) (stream_open_ x) (segment_point_ x) (incremental_offset_ x) (incremental_file_ x) (flushed_ x).
Arguments set_closed_DataWriter h x /.
#[export] Instance set_stream_open_DataWriter : Setter stream_open_ :=
  fun h x => mkDataWriter (files_ x) (writer_id_ x) (host_name_ x) (temp_mode_ x) (aggregation_threshold_ x) (current_file_ x) (file_index_ x) (current_file_size_ x) (index_ x) (total_bytes_ x) (closed_ x) (h (stream_open_ x)) (segment_point_ x) (incremental_offset_ x) (incremental_file_ x) (flushed_ x).
Arguments set_stream_open_DataWriter h x /.
#[export] Instance set_segment_point_DataWriter : Setter segment_point_ :=
  fun h x => mkDataWriter (files_ x) (writer_id_ x) (host_name_ x) (temp_mode_ x) (aggregation_threshold_ x) (current_file_ x) (file_index_ x) (current_file_size_ x) (index_ x) (total_bytes_ x) (closed_ x) (stream_open_ x) (h (segment_point_ x)) (incremental_offset_ x) (incremental_file_ x) (flushed_ x).
Arguments set_segment_point_DataWriter h x /.
#[export] Instance set_incremental_offset_DataWriter : Setter incremental_offset_ :=
  fun h x => mkDataWriter (files_ x) (writer_id_ x) (host_name_ x) (temp_mode_ x) (aggregation_threshold_ x) (current_file_ x) (file_index_ x) (current_file_size_ x) (index_ x) (total_bytes_ x) (closed_ x) (stream_open_ x) (segment_point_ x) (h (incremental_offset_ x)) (incremental_file_ x) (flushed_ x).
Arguments set_incremental_offset_DataWriter h x /.
#[export] Instance set_incremental_file_DataWriter : Setter incremental_file_ :=
  fun h x => mkDataWriter (files_ x) (writer_id_ x) (host_name_ x) (temp_mode_ x) (aggregation_threshold_ x) (current_file_ x) (file_index_ x) (current_file_size_ x) (index_ x) (total_bytes_ x) (closed_ x) (stream_open_ x) (segment_point_ x) (incremental_offset_ x) (h (incremental_file_ x)) (flushed_ x).
Arguments set_incremental_file_DataWriter h x /.
#[export] Instance set_flushed_DataWriter : Setter flushed_ :=
  fun h x => mkDataWriter (files_ x) (writer_id_ x) (host_name_ x) (temp_mode_ x) (aggregation_threshold_ x) (current_file_ x) (file_index_ x) (current_file_size_ x) (index_ x) (total_bytes_ x) (closed_ x) (stream_open_ x) (segment_point_ x) (incremental_offset_ x) (incremental_file_ x) (h (flushed_ x)).
Arguments set_flushed_DataWriter h x /.

(** ** Operations *)

(** Closing the stream of the previous file flushes it; opening a file for
    writing truncates it. *)
Definition create_new_file (w : DataWriter) : DataWriter :=
  let name := get_file_name (temp_mode_ w) (writer_id_ w) (file_index_ w) in
  w <| current_file_ := name |> <| files_ ::= <[name := []]> |> <| stream_open_ := true |>
    <| current_file_size_ := 0%nat |> <| flushed_ := 0%nat |>.

(** The first index, from [index] on, whose candidate name is free; the
    candidates of the constructor never carry the prefix of temporary files. *)
Fixpoint first_free (fuel : nat) (files : gmap string bytes) (writer_id : string) (index : nat) : nat :=
  match fuel with
  | O => index
  | S fuel =>
      match files !! get_file_name false writer_id index with
      | Some _ => first_free fuel files writer_id (S index)
      | None => index
      end
  end.

(** The constructor: the index file is loaded by the caller. *)
Definition open_writer (files : gmap string bytes) (index : LocalIndex) (writer_id host : string)
    (aggregation_threshold : Z) (temp_mode : bool) : DataWriter :=
  create_new_file (mkDataWriter files writer_id host temp_mode aggregation_threshold ""
    (first_free (S (size files)) files writer_id 1) 0 index 0 false false
    (mkSegmentRollbackPoint 1 0 false) None "" 0).

Definition next_file (w : DataWriter) : DataWriter := create_new_file (w <| file_index_ ::= S |>).

Definition append_data (data c : bytes) : bytes := c ++ data.

(** [file_stream_.write] on the stream of the current file, which does nothing on a closed
    stream, and the tracked size; the data stays in the stream's buffer. *)
Definition append_current (data : bytes) (w : DataWriter) : DataWriter :=
  w <| files_ ::= if stream_open_ w then alter (append_data data) (current_file_ w) else id |>
    <| current_file_size_ ::= fun n => (n + length data)%nat |>.

Definition entry_for (w : DataWriter) (name file : string) (offset size : nat) (chunk_count : Z)
    (hash : string) : IndexEntry :=
  mkIndexEntry name file (Z.of_nat offset) (Z.of_nat size) false chunk_count (host_name_ w) hash.

Definition write_record (name : string) (original_size chunk_count : Z) (record : bytes) (hash : string)
    (w : DataWriter) : DataWriter :=
  if closed_ w then w
  else
    let w := if decide (aggregation_threshold_ w < Z.of_nat (current_file_size_ w + length record)
                        /\ (0 < current_file_size_ w)%nat)
             then next_file w else w in
    let offset := current_file_size_ w in
    let w := append_current record w in
    let entry := entry_for w name (current_file_ w) offset (current_file_size_ w - offset) chunk_count hash in
    w <| index_ ::= add_entry entry |> <| total_bytes_ ::= Z.add original_size |>.

(** Whether the record was accepted. *)
Definition write_record_checked (name : string) (original_size chunk_count : Z) (record : bytes)
    (hash : string) (w : DataWriter) : bool * DataWriter :=
  if closed_ w then (false, w)
  else
    let w := write_record name original_size chunk_count record hash w in
    (negb (closed_ w), w).

(** The offset of the record, or [None] when the writer is closed. *)
Definition begin_incremental (w : DataWriter) : option nat * DataWriter :=
  if closed_ w then (None, w)
  else
    let w := if decide (aggregation_threshold_ w / 2 < Z.of_nat (current_file_size_ w)
                        /\ (0 < current_file_size_ w)%nat)
             then next_file w else w in
    let w := w <| incremental_offset_ := Some (current_file_size_ w) |>
               <| incremental_file_ := current_file_ w |> in
    (incremental_offset_ w, w).

Definition append_incremental (data : bytes) (w : DataWriter) : DataWriter :=
  match incremental_offset_ w with None => w | Some _ => append_current data w end.

Definition finish_incremental (name : string) (original_size chunk_count : Z) (hash : string)
    (w : DataWriter) : DataWriter :=
  match incremental_offset_ w with
  | None => w
  | Some offset =>
      let entry := entry_for w name (incremental_file_ w) offset (current_file_size_ w - offset)
                     chunk_count hash in
      w <| index_ ::= add_entry entry |> <| total_bytes_ ::= Z.add original_size |>
        <| incremental_offset_ := None |> <| incremental_file_ := "" |>
  end.

(** [file_stream_.flush]: the buffer of an open stream reaches the file. *)
Definition flush_stream (w : DataWriter) : DataWriter :=
  w <| flushed_ ::= fun n => if stream_open_ w then current_file_size_ w else n |>.

Definition flush (w : DataWriter) : DataWriter := flush_stream w <| index_ ::= save |>.

Definition close (w : DataWriter) : DataWriter :=
  if closed_ w then w
  else flush_stream w <| stream_open_ := false |> <| index_ ::= save |> <| closed_ := true |>.

Definition writer_mark_begin (w : DataWriter) : DataWriter :=
  w <| segment_point_ := mkSegmentRollbackPoint (file_index_ w) (current_file_size_ w) true |>
    <| index_ ::= mark_begin |>.

Definition set_inactive (p : SegmentRollbackPoint) : SegmentRollbackPoint :=
  mkSegmentRollbackPoint (sp_file_index_ p) (sp_file_offset_ p) false.

Definition writer_mark_end (w : DataWriter) : DataWriter :=
  w <| segment_point_ ::= set_inactive |> <| index_ ::= mark_end |>.

(** [fs::resize_file]: cuts the file, or extends it with zeros. *)
Definition resize_file (n : nat) (c : bytes) : bytes := resize n Byte.x00 c.

(** Removes the files after the rollback point, last one first. *)
Fixpoint remove_later (count : nat) (temp_mode : bool) (writer_id : string) (index : nat)
    (files : gmap string bytes) : gmap string bytes :=
  match count with
  | O => files
  | S count =>
      remove_later count temp_mode writer_id (index - 1)
        (delete (get_file_name temp_mode writer_id index) files)
  end.

Definition rollback_data_file (w : DataWriter) : DataWriter :=
  let p := segment_point_ w in
  let name := get_file_name (temp_mode_ w) (writer_id_ w) (sp_file_index_ p) in
  w <| files_ := alter (resize_file (sp_file_offset_ p)) name
         (remove_later (file_index_ w - sp_file_index_ p) (temp_mode_ w) (writer_id_ w) (file_index_ w)
            (files_ w)) |>
    <| file_index_ := Nat.min (sp_file_index_ p) (file_index_ w) |>
    <| current_file_ := name |> <| current_file_size_ := sp_file_offset_ p |>
    <| stream_open_ := true |> <| flushed_ := sp_file_offset_ p |>.

Definition abort_segment (w : DataWriter) : DataWriter :=
  if sp_active_ (segment_point_ w) then
    rollback_data_file (flush_stream w <| index_ ::= mark_abort |>) <| segment_point_ ::= set_inactive |>
  else w.

Definition writer_remove_entry (name : string) (w : DataWriter) : DataWriter :=
  w <| index_ ::= fun i => (remove_entry name i).2 |>.

Definition writer_get_all_entries (name : string) (w : DataWriter) : option (list IndexEntry) :=
  find_all_entries name (index_ w).

Definition get_last_entry (name : string) (w : DataWriter) : option IndexEntry := find_entry name (index_ w).

(** ** Reading *)

(** The directories a reader searches: the data directory when the data path is
    not empty, the database directory, and the directory of merged data. *)
Record Directories := mkDirectories {
  data_dir : option (gmap string bytes);
  db_dir : gmap string bytes;
  merged_dir : gmap string bytes
}.

(** The files a reader may find while the writer is in this state: of the file of an open
    stream at least the flushed bytes, and every other file whole. *)
Definition on_disk (w : DataWriter) (disk : gmap string bytes) : Prop :=
  forall k, if decide (stream_open_ w = true /\ k = current_file_ w)
    then exists n, (flushed_ w <= n)%nat /\ disk !! k = take n <$> files_ w !! k
    else disk !! k = files_ w !! k.

(** The directory a writer writes to. *)
Definition write_dir (temp_mode : bool) (d : Directories) : gmap string bytes :=
  match data_dir d with
  | Some files => if temp_mode then db_dir d else files
  | None => db_dir d
  end.

(** The content of the file found, or [None]. *)
Definition find_file_path (d : Directories) (file : string) : option bytes :=
  match (files ← data_dir d; files !! file) with
  | Some content => Some content
  | None =>
      match db_dir d !! file with
      | Some content => Some content
      | None => merged_dir d !! file
      end
  end.

(** [None] when the range is not valid or the file is shorter than the range. *)
Definition read_from_file (content : bytes) (offset size : Z) : option bytes :=
  if decide (0 <= offset /\ 0 <= size /\ (size = 0 \/ offset + size <= Z.of_nat (length content)))
  then Some (slice (Z.to_nat offset) (Z.to_nat size) content) else None.

Definition read_raw_from_entry (d : Directories) (e : IndexEntry) : option bytes :=
  content ← find_file_path d (file_name_ e);
  read_from_file content (offset_ e) (size_ e).

(** [DataReader::read_raw_bytes] by name, with the reader's index. *)
Definition read_raw_bytes (d : Directories) (index : LocalIndex) (name : string) : option bytes :=
  e ← find_entry name index;
  read_raw_from_entry d e.

(** ** Operation sequences *)

(** The calls that leave the current segment open. *)
Inductive writer_op :=
  | OpWrite (name : string) (original_size chunk_count : Z) (record : bytes) (hash : string)
  | OpBeginIncremental
  | OpAppendIncremental (data : bytes)
  | OpFinishIncremental (name : string) (original_size chunk_count : Z) (hash : string)
  | OpFlush
  | OpClose
  | OpRemoveEntry (name : string).

Definition apply_op (o : writer_op) (w : DataWriter) : DataWriter :=
  match o with
  | OpWrite name size chunks record hash => write_record name size chunks record hash w
  | OpBeginIncremental => (begin_incremental w).2
  | OpAppendIncremental data => append_incremental data w
  | OpFinishIncremental name size chunks hash => finish_incremental name size chunks hash w
  | OpFlush => flush w
  | OpClose => close w
  | OpRemoveEntry name => writer_remove_entry name w
  end.

Definition apply_ops (ops : list writer_op) (w : DataWriter) : DataWriter := foldl (fun w o => apply_op o w) w ops.

(** A whole incremental record: [begin], the chunks, [finish]. *)
Definition write_incremental (name : string) (original_size chunk_count : Z) (chunks : list bytes)
    (hash : string) (w : DataWriter) : DataWriter :=
  finish_incremental name original_size chunk_count hash
    (foldl (fun w data => append_incremental data w) (begin_incremental w).2 chunks).

(** ** File names are distinct *)

Definition file_of (w : DataWriter) : nat -> string := get_file_name (temp_mode_ w) (writer_id_ w).

Definition digits_value : list nat -> nat := foldr (fun d v => d + 10 * v)%nat 0%nat.

Lemma digits_rev_value fuel width n :
  (width + n <= fuel)%nat -> digits_value (digits_rev fuel width n) = n.
Proof.
  revert width n. induction fuel as [|fuel IH]; intros width n Hf; cbn [digits_rev].
  { assert (n = 0)%nat by lia. by subst. }
  destruct ((width =? 0)%nat && (n =? 0)%nat) eqn:E.
  { apply andb_true_iff in E as [_ ->%Nat.eqb_eq]. done. }
  assert (~ (width = 0 /\ n = 0)%nat) by (intros [-> ->]; done).
  change (digits_value (?d :: ?l)) with (d + 10 * digits_value l)%nat.
  pose proof (Nat.div_mod_eq n 10). pose proof (Nat.mod_upper_bound n 10).
  rewrite IH; lia.
Qed.

Lemma digits_rev_small fuel width n : Forall (fun d => (d < 10)%nat) (digits_rev fuel width n).
Proof.
  revert width n. induction fuel as [|fuel IH]; intros width n; cbn [digits_rev]; [constructor|].
  destruct (_ && _); constructor; [apply Nat.mod_upper_bound; lia | apply IH].
Qed.

Lemma digit_inj d d' : (d < 10)%nat -> (d' < 10)%nat -> digit d = digit d' -> d = d'.
Proof.
  intros Hd Hd' H. apply (f_equal nat_of_ascii) in H. unfold digit in H.
  rewrite !nat_ascii_embedding in H by lia. lia.
Qed.

Lemma digits_inj l l' :
  Forall (fun d => (d < 10)%nat) l -> Forall (fun d => (d < 10)%nat) l' -> digit <$> l = digit <$> l' -> l = l'.
Proof.
  intros Hl. revert l'. induction Hl as [|d l Hd _ IH]; intros [|d' l'] Hl' H; try done.
  apply Forall_cons in Hl' as [? ?]. rewrite !fmap_cons in H. injection H as Hhead Htail.
  f_equal; [by apply digit_inj | by apply IH].
Qed.

Lemma number3_inj n n' : number3 n = number3 n' -> n = n'.
Proof.
  unfold number3. intros H. apply (f_equal String.list_ascii_of_string) in H.
  rewrite !String.list_ascii_of_string_of_list_ascii, !fmap_reverse in H.
  apply (inj reverse), digits_inj in H; try apply digits_rev_small.
  apply (f_equal digits_value) in H. by rewrite !digits_rev_value in H by lia.
Qed.

Lemma list_ascii_append (a b : string) :
  String.list_ascii_of_string (a +:+ b) = String.list_ascii_of_string a ++ String.list_ascii_of_string b.
Proof. induction a as [|c a IH]; [done | exact (f_equal (cons c) IH)]. Qed.

Lemma get_file_name_inj temp_mode wid n n' :
  get_file_name temp_mode wid n = get_file_name temp_mode wid n' -> n = n'.
Proof.
  unfold get_file_name. intros H. do 3 apply (inj (String.append _)) in H. apply number3_inj.
  apply (f_equal String.list_ascii_of_string) in H. rewrite !list_ascii_append in H.
  apply app_inv_tail, (f_equal String.string_of_list_ascii) in H.
  by rewrite !String.string_of_list_ascii_of_string in H.
Qed.

(** ** The writer's invariant *)

(** The current file is the one its index names, no later file exists, and while
    the stream is open the tracked size is the length of the file with what is buffered. *)
Record writer_inv (w : DataWriter) : Prop := {
  inv_current : current_file_ w = file_of w (file_index_ w);
  inv_later : forall i, (file_index_ w < i)%nat -> files_ w !! file_of w i = None;
  inv_size : stream_open_ w = true ->
    exists c : bytes, files_ w !! current_file_ w = Some c /\ length c = current_file_size_ w;
  inv_open : closed_ w = false -> stream_open_ w = true;
  inv_flushed : (flushed_ w <= current_file_size_ w)%nat
}.

(** The first [stop] bytes of file [k] are out of the stream's buffer. *)
Definition persisted (w : DataWriter) (k : string) (stop : nat) : Prop :=
  stream_open_ w = true -> k = current_file_ w -> (stop <= flushed_ w)%nat.

(** A closed writer has no open stream. *)
Definition shut (w : DataWriter) : Prop := closed_ w = true -> stream_open_ w = false.

(** Files only grow, by appending. *)
Definition grows (f f' : gmap string bytes) : Prop :=
  forall k c, f !! k = Some c -> exists d, f' !! k = Some (append_data d c).

#[export] Instance grows_preorder : PreOrder grows.
Proof.
  split.
  - intros f k c H. exists []. unfold append_data. by rewrite app_nil_r.
  - intros f g h Hfg Hgh k c H. destruct (Hfg k c H) as [d Hd]. destruct (Hgh _ _ Hd) as [e He].
    exists (d ++ e). unfold append_data in *. by rewrite app_assoc.
Qed.

Lemma grows_append f k data : grows f (alter (append_data data) k f).
Proof.
  intros k' c H. destruct (decide (k = k')) as [<-|Hne].
  - exists data. by rewrite lookup_alter_eq, H.
  - exists []. rewrite lookup_alter_ne by done. unfold append_data. by rewrite app_nil_r.
Qed.

Lemma grows_create f k c0 : f !! k = None -> grows f (<[k := c0]> f).
Proof.
  intros Hk k' c H. exists []. unfold append_data. rewrite app_nil_r. by rewrite lookup_insert_ne by congruence.
Qed.

(** How the calls of a segment change the writer: files grow, only files from the
    current one on are touched, the segment's rollback point stays, and what has left
    the buffer stays on disk. *)
Record evolves (w w' : DataWriter) : Prop := {
  ev_grows : grows (files_ w) (files_ w');
  ev_temp : temp_mode_ w' = temp_mode_ w;
  ev_id : writer_id_ w' = writer_id_ w;
  ev_point : segment_point_ w' = segment_point_ w;
  ev_index : (file_index_ w <= file_index_ w')%nat;
  ev_other : forall k, (forall i, (file_index_ w <= i <= file_index_ w')%nat -> k <> file_of w i) ->
    files_ w' !! k = files_ w !! k;
  ev_persisted : forall k stop, is_Some (files_ w !! k) -> persisted w k stop -> persisted w' k stop
}.

#[export] Instance evolves_preorder : PreOrder evolves.
Proof.
  split; [done|]. intros x y z [] []. split; try (etransitivity; done); try congruence.
  2: { intros k stop Hk Hp. apply ev_persisted1; [|by apply ev_persisted0].
    destruct Hk as [c Hc]. destruct (ev_grows0 _ _ Hc) as [d ->]. done. }
  intros k Hk. rewrite ev_other1; [apply ev_other0; intros i Hi; apply Hk; lia|].
  intros i Hi. unfold file_of. rewrite ev_temp0, ev_id0. apply Hk. lia.
Qed.

Lemma next_file_inv w : writer_inv w -> writer_inv (next_file w) /\ evolves w (next_file w).
Proof.
  intros [Hc Hl Hs Ho Hf]. split; [split|split]; cbn; try done.
  - intros i Hi. rewrite lookup_insert_ne; [apply Hl; lia|]. intros H%get_file_name_inj. lia.
  - intros _. exists []. by rewrite lookup_insert_eq.
  - apply grows_create, Hl. lia.
  - lia.
  - intros k Hk. apply lookup_insert_ne, not_eq_sym, Hk. lia.
  - intros k stop [c Hk] _ _ ->. specialize (Hl (S (file_index_ w)) ltac:(lia)). unfold file_of in Hl.
    cbn in Hk. congruence.
Qed.

Lemma append_current_inv data w :
  writer_inv w -> writer_inv (append_current data w) /\ evolves w (append_current data w).
Proof.
  intros [Hc Hl Hs Ho Hf]. unfold append_current. destruct (stream_open_ w) eqn:E.
  - split; [split|split]; cbn; try done; try lia.
    + intros i Hi. rewrite lookup_alter_ne; [by apply Hl|].
      rewrite Hc. intros H%get_file_name_inj. lia.
    + intros _. destruct Hs as (c & Hk & Hn); [done|].
      exists (append_data data c). rewrite lookup_alter_eq, Hk. split; [done|].
      unfold append_data. by rewrite length_app, Hn.
    + apply grows_append.
    + intros k Hk. apply lookup_alter_ne. rewrite Hc. by apply not_eq_sym, Hk.
  - split; [split|split]; cbn; try done; try lia. all: by rewrite ?E.
Qed.

(** Flushing the stream, and closing it or not. *)
Lemma flush_stream_inv w :
  writer_inv w -> writer_inv (flush_stream w) /\ evolves w (flush_stream w).
Proof.
  intros [Hc Hl Hs Ho Hf]. split; [split|split]; cbn; try done.
  - destruct (stream_open_ w); lia.
  - intros k stop _ Hp Ho' Hk. cbn in *. rewrite Ho'. specialize (Hp Ho' Hk). lia.
Qed.

Lemma roll_inv (P : Prop) `{Decision P} w :
  writer_inv w ->
  let w' := if decide P then next_file w else w in
  writer_inv w' /\ evolves w w' /\ index_ w' = index_ w /\ closed_ w' = closed_ w.
Proof.
  intros Hw. cbv zeta. destruct (decide P); [|done].
  destruct (next_file_inv w Hw) as [? ?]. done.
Qed.

(** Takes the roll-over at the start of a record as a state [w1] of its own. *)
Ltac roll Hw w1 :=
  cbv zeta;
  match goal with
  | |- context [if @decide ?P ?D then next_file ?w else ?w] =>
      let H := fresh "H" w1 in let G := fresh "G" w1 in
      let I := fresh "I" w1 in let C := fresh "C" w1 in
      destruct (@roll_inv P D w Hw) as (H & G & I & C); revert H G I C; cbv zeta;
      generalize (if @decide P D then next_file w else w); intros w1 H G I C
  end.

Lemma apply_op_inv o w : writer_inv w -> writer_inv (apply_op o w) /\ evolves w (apply_op o w).
Proof.
  intros Hw. destruct o as [name sz ch record hash| |data|name sz ch hash| | |name]; cbn [apply_op].
  - unfold write_record. destruct (closed_ w); [done|]. roll Hw w1.
    destruct (append_current_inv record w1 Hw1) as [H2 G2].
    assert (G : evolves w (append_current record w1)) by (etransitivity; done).
    split; [by destruct H2; constructor | by destruct G; constructor].
  - unfold begin_incremental. destruct (closed_ w); [done|]. roll Hw w1.
    split; [by destruct Hw1; constructor | by destruct Gw1; constructor].
  - unfold append_incremental. destruct (incremental_offset_ w); [by apply append_current_inv | done].
  - unfold finish_incremental. destruct (incremental_offset_ w); [|done].
    split; [by destruct Hw; constructor | by constructor].
  - destruct (flush_stream_inv w Hw) as [H1 G1].
    split; [by destruct H1; constructor | by destruct G1; constructor].
  - unfold close. destruct (closed_ w); [done|]. destruct (flush_stream_inv w Hw) as [H1 G1].
    split; [by destruct H1; constructor | by destruct G1; constructor].
  - split; [by destruct Hw; constructor | by constructor].
Qed.

Lemma apply_ops_inv ops w : writer_inv w -> writer_inv (apply_ops ops w) /\ evolves w (apply_ops ops w).
Proof.
  unfold apply_ops. revert w. induction ops as [|o ops IH]; intros w Hw; [done|].
  destruct (apply_op_inv o w Hw) as [H1 G1]. destruct (IH _ H1) as [H2 G2].
  split; [done | by etransitivity].
Qed.

Lemma apply_op_shut o w : shut w -> shut (apply_op o w).
Proof.
  intros Hw. destruct o as [name sz ch record hash| |data|name sz ch hash| | |name]; cbn [apply_op].
  - unfold write_record. destruct (closed_ w) eqn:E; [done|]. intros C.
    destruct (decide _); cbn in C; congruence.
  - unfold begin_incremental. destruct (closed_ w) eqn:E; [done|]. intros C.
    destruct (decide _); cbn in C; congruence.
  - unfold append_incremental. by destruct (incremental_offset_ w).
  - unfold finish_incremental. by destruct (incremental_offset_ w).
  - done.
  - unfold close. by destruct (closed_ w).
  - done.
Qed.

Lemma apply_ops_shut ops w : shut w -> shut (apply_ops ops w).
Proof. unfold apply_ops. revert w. induction ops as [|o ops IH]; intros w Hw; [done|]. by apply IH, apply_op_shut. Qed.

(** The constructor establishes the invariant when the directory has no file of
    the writer numbered after the one it creates. *)
Lemma open_writer_inv files index wid host threshold temp_mode :
  let i := first_free (S (size files)) files wid 1 in
  (forall j, (i < j)%nat -> files !! get_file_name temp_mode wid j = None) ->
  writer_inv (open_writer files index wid host threshold temp_mode).
Proof.
  cbv zeta. intros Hl. split; try done.
  - cbn -[first_free]. intros j Hj. rewrite lookup_insert_ne; [by apply Hl|].
    intros H%get_file_name_inj. lia.
  - intros _. exists []. cbn. by rewrite lookup_insert_eq.
Qed.

(** ** Records stay readable *)

(** No directory searched before the writer's one has the file. *)
Definition unshadowed (temp_mode : bool) (d : Directories) (file : string) : Prop :=
  temp_mode = true -> (files ← data_dir d; files !! file) = None.

Lemma find_file_written temp_mode d file c :
  unshadowed temp_mode d file -> write_dir temp_mode d !! file = Some c -> find_file_path d file = Some c.
Proof.
  unfold unshadowed, write_dir, find_file_path. intros Hs Hc.
  destruct (data_dir d) as [files|]; cbn in *; [|by rewrite Hc].
  destruct temp_mode; [by rewrite Hs, Hc | by rewrite Hc].
Qed.

(** The buffer may have drained altogether. *)
Lemma on_disk_whole w : on_disk w (files_ w).
Proof.
  intros k. case_decide; [|done].
  exists (flushed_ w `max` length (default [] (files_ w !! k)))%nat. split; [lia|].
  destruct (files_ w !! k) as [c|]; [|done]. cbn. rewrite take_ge by lia. done.
Qed.

(** A prefix of a file gives the bytes of the file or nothing. *)
Lemma read_prefix (c : bytes) n offset size :
  read_from_file (take n c) offset size = read_from_file c offset size \/
  read_from_file (take n c) offset size = None.
Proof.
  unfold read_from_file. rewrite length_take. destruct (decide _) as [(Ho & Hn & Hr)|]; [|by right].
  left. rewrite decide_True by lia. f_equal. unfold slice.
  destruct Hr as [->|Hr]; [done|]. rewrite skipn_firstn_comm, take_take. f_equal. lia.
Qed.

Lemma read_prefix_whole (c : bytes) n offset size :
  offset + size <= Z.of_nat n -> read_from_file (take n c) offset size = read_from_file c offset size.
Proof.
  intros Hn. destruct (read_prefix c n offset size) as [|E]; [done|]. rewrite E. revert E.
  unfold read_from_file. rewrite length_take. destruct (decide _) as [|H1]; [done|].
  destruct (decide _) as [H2|]; [|done]. lia.
Qed.

(** A record inside a file of the writer, read from what is on disk: the
    record, or nothing as long as part of it is in the buffer. *)
Lemma read_on_disk w d e (before x rest : bytes) :
  files_ w !! file_name_ e = Some (before ++ x ++ rest) -> on_disk w (write_dir (temp_mode_ w) d) ->
  offset_ e = Z.of_nat (length before) -> size_ e = Z.of_nat (length x) ->
  unshadowed (temp_mode_ w) d (file_name_ e) ->
  (read_raw_from_entry d e = Some x \/ read_raw_from_entry d e = None) /\
  (persisted w (file_name_ e) (length before + length x) -> read_raw_from_entry d e = Some x).
Proof.
  intros Hf Hd Ho Hn Hs.
  assert (Hall : read_from_file (before ++ x ++ rest) (offset_ e) (size_ e) = Some x).
  { unfold read_from_file. rewrite Ho, Hn, !length_app. rewrite decide_True by lia.
    by rewrite !Nat2Z.id, slice_mid. }
  specialize (Hd (file_name_ e)). unfold read_raw_from_entry. case_decide as Hk.
  - destruct Hd as (n & Hfl & Hd). rewrite Hf in Hd. cbn in Hd.
    rewrite (find_file_written _ _ _ _ Hs Hd). cbn [mbind option_bind]. rewrite <- Hall. split; [apply read_prefix|].
    intros Hp. apply read_prefix_whole. specialize (Hp (proj1 Hk) (proj2 Hk)). lia.
  - pose proof (eq_trans Hd Hf) as Hc. rewrite (find_file_written _ _ _ _ Hs Hc). cbn [mbind option_bind]. auto.
Qed.

(** A flush or a close takes everything out of the buffer, for good. *)
Lemma persisted_after ops w k (c : bytes) :
  writer_inv w -> shut w -> files_ w !! k = Some c ->
  OpFlush ∈ ops \/ OpClose ∈ ops \/ current_file_ (apply_ops ops w) <> k ->
  persisted (apply_ops ops w) k (length c).
Proof.
  intros Hw Hsh Hk [Hin|[Hin|Hne]]; [| |by intros _ Heq].
  all: apply list_elem_of_split in Hin as (o1 & o2 & ->); unfold apply_ops; rewrite foldl_app; cbn [foldl];
    change (foldl (fun w o => apply_op o w)) with (fun w ops => apply_ops ops w); cbn beta.
  all: destruct (apply_ops_inv o1 w Hw) as [H1 G1]; pose proof (apply_ops_shut o1 w Hsh) as S1;
    destruct (ev_grows _ _ G1 _ _ Hk) as [x Hx]; revert H1 S1 Hx; generalize (apply_ops o1 w); intros w1 H1 S1 Hx.
  - destruct (apply_op_inv OpFlush w1 H1) as [H2 G2]. destruct (apply_ops_inv o2 _ H2) as [_ G3].
    apply (ev_persisted _ _ G3); [cbn; by rewrite Hx|]. intros Ho ->. cbn in *. rewrite Ho.
    destruct (inv_size _ H1 Ho) as (c' & Hc & <-). rewrite Hx in Hc. injection Hc as <-.
    unfold append_data. rewrite length_app. lia.
  - destruct (apply_op_inv OpClose w1 H1) as [H2 G2]. destruct (apply_ops_inv o2 _ H2) as [_ G3].
    apply (ev_persisted _ _ G3); [unfold apply_op, close; destruct (closed_ w1); cbn; by rewrite Hx|].
    intros Ho _. exfalso. revert Ho. unfold apply_op, close. destruct (closed_ w1) eqn:Ec; [|done].
    by rewrite (S1 Ec).
Qed.

(** A record that a state of the writer holds, read after any later calls. *)
Lemma read_later w ops d e (before x : bytes) :
  writer_inv w -> shut w -> files_ w !! file_name_ e = Some (append_data x before) ->
  offset_ e = Z.of_nat (length before) -> size_ e = Z.of_nat (length x) ->
  on_disk (apply_ops ops w) (write_dir (temp_mode_ w) d) -> unshadowed (temp_mode_ w) d (file_name_ e) ->
  (read_raw_from_entry d e = Some x \/ read_raw_from_entry d e = None) /\
  (OpFlush ∈ ops \/ OpClose ∈ ops \/ current_file_ (apply_ops ops w) <> file_name_ e ->
   read_raw_from_entry d e = Some x).
Proof.
  intros Hw Hsh Hf Ho Hn Hd Hs. destruct (apply_ops_inv ops w Hw) as [_ G].
  destruct (ev_grows _ _ G _ _ Hf) as [rest Hr]. rewrite <- (ev_temp _ _ G) in Hd, Hs.
  unfold append_data in Hr. rewrite <- app_assoc in Hr.
  destruct (read_on_disk _ _ _ _ _ _ Hr Hd Ho Hn Hs) as [H1 H2]. split; [done|]. intros Hops. apply H2.
  pose proof (persisted_after ops w _ _ Hw Hsh Hf Hops) as Hp. unfold append_data in Hp. by rewrite length_app in Hp.
Qed.

(** The state after the chunks of an incremental record. *)
Lemma append_chunks chunks w off (c : bytes) :
  incremental_offset_ w = Some off -> stream_open_ w = true -> files_ w !! current_file_ w = Some c ->
  let w' := foldl (fun w data => append_incremental data w) w chunks in
  files_ w' !! current_file_ w = Some (append_data (concat chunks) c) /\
  current_file_size_ w' = (current_file_size_ w + length (concat chunks))%nat /\
  incremental_offset_ w' = Some off /\ incremental_file_ w' = incremental_file_ w /\
  index_ w' = index_ w /\ temp_mode_ w' = temp_mode_ w.
Proof.
  revert w c. induction chunks as [|data chunks IH]; intros w c Hi Ho Hc; cbv zeta; cbn [foldl concat].
  { unfold append_data. rewrite app_nil_r, Nat.add_0_r. done. }
  assert (E : append_incremental data w = append_current data w) by (unfold append_incremental; by rewrite Hi).
  rewrite E. destruct (IH (append_current data w) (append_data data c)) as (H1 & H2 & H3); try done.
  { unfold append_current. cbn. by rewrite Ho, lookup_alter_eq, Hc. }
  unfold append_data in *. rewrite <- app_assoc in H1. rewrite length_app, Nat.add_assoc. done.
Qed.

Lemma apply_ops_app ops ops' w : apply_ops (ops ++ ops') w = apply_ops ops' (apply_ops ops w).
Proof. unfold apply_ops. apply foldl_app. Qed.

Lemma write_incremental_ops name sz ch chunks hash w :
  write_incremental name sz ch chunks hash w =
  apply_ops (OpBeginIncremental :: (OpAppendIncremental <$> chunks) ++ [OpFinishIncremental name sz ch hash]) w.
Proof.
  unfold write_incremental. cbn [apply_ops foldl apply_op]. unfold apply_ops.
  cbn [foldl apply_op]. rewrite foldl_app. cbn [foldl apply_op]. f_equal.
  generalize ((begin_incremental w).2). clear w.
  induction chunks as [|c l IH]; intros w; [done | apply IH].
Qed.

(** Pushing an entry appends it to the versions of its object. *)
Lemma find_all_add e i :
  find_all_entries (object_name_ e) (add_entry e i) =
  Some (default [] (find_all_entries (object_name_ e) i) ++ [e]).
Proof. unfold find_all_entries. cbn. unfold push_entry. by rewrite lookup_insert_eq. Qed.

(** C18: A record handed to an open writer appends one index entry to the
    versions of its object.  The record goes through the buffer of the output stream, so
    a reader of the entry, after any later writes, flushes, removals and the close
    of the writer, gets the record or nothing, never other bytes; once the writer has been
    flushed or closed, or has rolled over to another file, the reader gets the
    record.  A reader of a temporary writer's entry needs that no file of
    the same name is in the data directory, which is searched first. *)
Theorem written_record_stays_readable name sz ch record hash w :
  writer_inv w -> closed_ w = false ->
  let w' := write_record name sz ch record hash w in
  exists e,
    writer_get_all_entries name w' = Some (default [] (writer_get_all_entries name w) ++ [e]) /\
    forall ops d,
      on_disk (apply_ops ops w') (write_dir (temp_mode_ w) d) ->
      unshadowed (temp_mode_ w) d (file_name_ e) ->
      (read_raw_from_entry d e = Some record \/ read_raw_from_entry d e = None) /\
      (OpFlush ∈ ops \/ OpClose ∈ ops \/ current_file_ (apply_ops ops w') <> file_name_ e ->
       read_raw_from_entry d e = Some record).
Proof.
  intros Hw Hopen w'. destruct (apply_op_inv (OpWrite name sz ch record hash) w Hw) as [Hw' G].
  pose proof (ev_temp _ _ G) as Ht. cbn [apply_op] in Hw', Ht. fold w' in Hw', Ht. clear G.
  revert Hw' Ht. unfold w', write_record. rewrite Hopen. roll Hw w1.
  rewrite Hopen in Cw1.
  destruct (inv_size _ Hw1) as (c & Hcur & Hlen); [by apply inv_open|].
  intros Hw' Ht. eexists. split.
  { unfold writer_get_all_entries. rewrite <- Iw1. cbn. apply find_all_add. }
  intros ops d. rewrite <- Ht. intros Hd Hs. eapply (read_later _ _ _ _ c); [exact Hw'| | | | |exact Hd|exact Hs].
  - intros C. cbn in C. congruence.
  - cbn. rewrite (inv_open _ Hw1 Cw1). rewrite lookup_alter_eq, Hcur. done.
  - cbn. by rewrite Hlen.
  - cbn. lia.
Qed.

(** A record written incrementally, in any chunks: the same holds of the
    entry its [finish_incremental] adds. *)
Theorem incremental_record_stays_readable name sz ch chunks hash w :
  writer_inv w -> closed_ w = false ->
  let w' := write_incremental name sz ch chunks hash w in
  exists e,
    writer_get_all_entries name w' = Some (default [] (writer_get_all_entries name w) ++ [e]) /\
    forall ops d,
      on_disk (apply_ops ops w') (write_dir (temp_mode_ w) d) ->
      unshadowed (temp_mode_ w) d (file_name_ e) ->
      (read_raw_from_entry d e = Some (concat chunks) \/ read_raw_from_entry d e = None) /\
      (OpFlush ∈ ops \/ OpClose ∈ ops \/ current_file_ (apply_ops ops w') <> file_name_ e ->
       read_raw_from_entry d e = Some (concat chunks)).
Proof.
  intros Hw Hopen w'.
  assert (Hw' : writer_inv w' /\ temp_mode_ w' = temp_mode_ w /\ shut w').
  { unfold w'; rewrite write_incremental_ops. split; [by apply apply_ops_inv|].
    split; [by apply ev_temp, apply_ops_inv|]. apply apply_ops_shut. intros C. congruence. }
  destruct Hw' as (Hw' & Ht & Hsh). revert Hw' Ht Hsh.
  unfold w', write_incremental, begin_incremental. rewrite Hopen. roll Hw w1.
  rewrite Hopen in Cw1. pose proof (inv_open _ Hw1 Cw1) as Hst.
  destruct (inv_size _ Hw1 Hst) as (c & Hcur & Hlen).
  match goal with |- context [foldl ?f ?x chunks] => set (w2 := x) end.
  destruct (append_chunks chunks w2 (current_file_size_ w1) c) as (H1 & H2 & H3 & H4 & H5 & _); try done.
  revert H1 H2 H3 H4 H5. generalize (foldl (fun w data => append_incremental data w) w2 chunks). subst w2. cbn.
  intros w3 H1 H2 H3 H4 H5. unfold finish_incremental. rewrite H3. intros Hw' Ht Hsh.
  eexists. split.
  { unfold writer_get_all_entries. rewrite <- Iw1, <- H5. cbn. apply find_all_add. }
  intros ops d. rewrite <- Ht. intros Hd Hs. eapply (read_later _ _ _ _ c); [exact Hw'|exact Hsh| | |  |exact Hd|exact Hs].
  - cbn. by rewrite H4.
  - cbn. by rewrite Hlen.
  - cbn. rewrite H2. lia.
Qed.

(** ** Rolling a segment back *)

Lemma remove_later_deleted count temp_mode wid index files i :
  (count <= index)%nat -> (index - count < i <= index)%nat ->
  remove_later count temp_mode wid index files !! get_file_name temp_mode wid i = None.
Proof.
  revert index files. induction count as [|count IH]; intros index files Hc Hi; [lia|]. cbn [remove_later].
  destruct (decide (i = index)) as [->|Hne]; [|apply IH; lia].
  clear IH. assert (Hd : delete (get_file_name temp_mode wid index) files !! get_file_name temp_mode wid index = None)
    by apply lookup_delete_eq.
  revert Hd. generalize (delete (get_file_name temp_mode wid index) files). clear Hi Hc.
  generalize (index - 1)%nat. induction count as [|count IH]; intros j f Hf; [done|]. cbn [remove_later].
  apply IH. by rewrite lookup_delete_None; right.
Qed.

Lemma remove_later_kept count temp_mode wid index files k :
  (count <= index)%nat -> (forall i, (index - count < i <= index)%nat -> k <> get_file_name temp_mode wid i) ->
  remove_later count temp_mode wid index files !! k = files !! k.
Proof.
  revert index files. induction count as [|count IH]; intros index files Hc Hk; [done|]. cbn [remove_later].
  rewrite IH; [|lia|intros i Hi; apply Hk; lia].
  apply lookup_delete_ne, not_eq_sym, Hk. lia.
Qed.

Lemma resize_file_back (c d : bytes) : resize_file (length c) (append_data d c) = c.
Proof.
  unfold resize_file, append_data. rewrite resize_le by (rewrite length_app; lia). apply take_app_length.
Qed.

(** Removing the later files and cutting the file at the rollback point undoes
    everything the writer did since. *)
Lemma rollback_files w w1 (c : bytes) :
  writer_inv w -> evolves w w1 -> files_ w !! file_of w (file_index_ w) = Some c ->
  alter (resize_file (length c)) (file_of w (file_index_ w))
    (remove_later (file_index_ w1 - file_index_ w) (temp_mode_ w) (writer_id_ w) (file_index_ w1) (files_ w1))
  = files_ w.
Proof.
  intros Hw [Hg _ _ _ Hi Ho] Hc. apply map_eq. intros k.
  destruct (decide (k = file_of w (file_index_ w))) as [->|Hne].
  { destruct (Hg _ _ Hc) as [d Hd].
    rewrite lookup_alter_eq, remove_later_kept, Hd, Hc; [|lia|].
    - cbn. by rewrite resize_file_back.
    - intros i ? H%get_file_name_inj. lia. }
  rewrite lookup_alter_ne by congruence.
  destruct (decide (Exists (fun i => k = file_of w i)
                      (seq (S (file_index_ w)) (file_index_ w1 - file_index_ w)))) as [E|E].
  - apply list.Exists_exists in E as (i & Hin%elem_of_seq & ->).
    rewrite (inv_later _ Hw) by lia. apply remove_later_deleted; lia.
  - assert (Hk : forall i, (file_index_ w < i <= file_index_ w1)%nat -> k <> file_of w i).
    { intros i ? ->. apply E, list.Exists_exists. exists i. split; [apply elem_of_seq; lia | done]. }
    rewrite remove_later_kept; [|lia|intros i ?; apply Hk; lia].
    apply Ho. intros i ?. destruct (decide (i = file_index_ w)) as [->|]; [done | apply Hk; lia].
Qed.

(** Aborting a segment after any calls restores the writer's directory, file
    and position exactly as they were when the segment began. *)
Theorem abort_restores_files ops w :
  writer_inv w -> closed_ w = false ->
  let w' := abort_segment (apply_ops ops (writer_mark_begin w)) in
  files_ w' = files_ w /\ file_index_ w' = file_index_ w /\ current_file_ w' = current_file_ w /\
  current_file_size_ w' = current_file_size_ w /\ sp_active_ (segment_point_ w') = false /\ writer_inv w'.
Proof.
  intros Hw Hopen w'. pose proof (inv_open _ Hw Hopen) as Hst.
  destruct (inv_size _ Hw Hst) as (c & Hcur & Hlen). pose proof (inv_current _ Hw) as Hname.
  assert (Hb : writer_inv (writer_mark_begin w)) by (destruct Hw; by constructor).
  destruct (apply_ops_inv ops _ Hb) as [_ E]. unfold w'. clear w'.
  revert E. generalize (apply_ops ops (writer_mark_begin w)). intros w1 E.
  pose proof Hcur as Hf. rewrite Hname in Hf. apply (rollback_files _ _ c Hb E) in Hf.
  destruct E as [_ Ht Hid Hp Hi _]. cbn in Ht, Hid, Hp, Hi, Hf. rewrite Hlen in Hf.
  unfold file_of in Hf. cbn in Hf.
  unfold abort_segment. rewrite Hp. cbn. rewrite Hp, Ht, Hid. cbn. rewrite Hf, Nat.min_l by lia.
  split_and!; try done. split; cbn; try done.
  - intros i Hi'. by apply (inv_later _ Hw).
  - intros _. exists c. unfold file_of in Hname. by rewrite <- Hname.
Qed.

(** ** Temporary writers *)

(** The constructor of a temporary writer looks for a free number among the
    names of regular files, so when the first of these is free it truncates the
    existing first temporary file of its writer id, whatever it holds. *)
Theorem temp_writer_truncates files index wid host threshold :
  files !! get_file_name false wid 1 = None ->
  files_ (open_writer files index wid host threshold true) !! get_file_name true wid 1 = Some [].
Proof.
  intros H. assert (E : first_free (S (size files)) files wid 1 = 1%nat) by (cbn; by rewrite H).
  unfold open_writer. rewrite E. apply lookup_insert_eq.
Qed.

(** ** Witnesses *)

Definition demo_files : gmap string bytes := {[ "data_w_001.dat" := [Byte.x01] ]}.

Definition demo_writer : DataWriter := open_writer demo_files empty_index "w" "h" 4 false.

Lemma demo_writer_inv : writer_inv demo_writer.
Proof.
  apply open_writer_inv. change (first_free _ _ _ _) with 2%nat. intros j Hj.
  apply lookup_singleton_ne. intros H. apply (get_file_name_inj false "w" 1) in H. lia.
Qed.

Definition demo_record : bytes := [Byte.x02; Byte.x03].

Definition demo_ops : list writer_op := [OpWrite "b" 3 1 [Byte.x04; Byte.x05; Byte.x06] ""; OpClose].

Lemma written_record_stays_readable_witness :
  exists e, read_raw_from_entry (mkDirectories None
    (files_ (apply_ops demo_ops (write_record "a" 2 1 demo_record "" demo_writer))) ∅) e = Some demo_record.
Proof.
  destruct (written_record_stays_readable "a" 2 1 demo_record "" demo_writer demo_writer_inv eq_refl)
    as (e & _ & He).
  exists e. apply (He demo_ops); [apply on_disk_whole|discriminate|].
  right; left. unfold demo_ops. apply list_elem_of_further, list_elem_of_here.
Defined.

(** Before the flush a reader may find nothing: the file is on disk, still empty. *)
Lemma unflushed_record_unreadable :
  let w := write_record "a" 2 1 demo_record "" demo_writer in
  let disk := <[current_file_ w := []]> (files_ w) in
  on_disk w disk /\ exists e, get_last_entry "a" w = Some e /\ read_raw_from_entry (mkDirectories None disk ∅) e = None.
Proof.
  cbv zeta. split; [|eexists; split; vm_compute; reflexivity].
  intros k. case_decide as E.
  - destruct E as [_ ->]. exists 0%nat. split; [vm_compute; lia|]. rewrite lookup_insert_eq. vm_compute. done.
  - apply lookup_insert_ne. intros <-. apply E. done.
Qed.

Lemma incremental_record_stays_readable_witness :
  exists e, read_raw_from_entry (mkDirectories None
    (files_ (apply_ops [OpClose] (write_incremental "a" 2 1 [demo_record; demo_record] "" demo_writer))) ∅) e =
    Some [Byte.x02; Byte.x03; Byte.x02; Byte.x03].
Proof.
  destruct (incremental_record_stays_readable "a" 2 1 [demo_record; demo_record] "" demo_writer
              demo_writer_inv eq_refl) as (e & _ & He).
  exists e. apply (He [OpClose]); [apply on_disk_whole|discriminate|right; left; apply list_elem_of_here].
Defined.

Lemma abort_restores_files_witness :
  files_ (apply_ops demo_ops (writer_mark_begin demo_writer)) <> files_ demo_writer /\
  files_ (abort_segment (apply_ops demo_ops (writer_mark_begin demo_writer))) = files_ demo_writer.
Proof.
  split; [|exact (proj1 (abort_restores_files demo_ops demo_writer demo_writer_inv eq_refl))].
  intros H. apply (f_equal (lookup "data_w_002.dat")) in H. vm_compute in H. discriminate.
Defined.

Lemma temp_writer_truncates_witness :
  files_ (open_writer {[ ".temp.data_w_001.dat" := demo_record ]} empty_index "w" "h" 4 true)
    !! ".temp.data_w_001.dat" = Some [].
Proof. by apply temp_writer_truncates. Defined.
