(* ===== verification/ConcurrentQueue.v ===== *)
(** The bounded queue between threads
    (src/common/concurrent/cpp/concurrent_queue.h): back-pressure on producers, end
    of stream on [close], and quick abandonment on [fail].

    Every operation is one critical section; [None] is an operation that waits on a
    condition variable because its predicate does not hold, and that is tried
    again when the queue changes.  The capacity policy of the template is the class
    [Capacity]. *)

From stdpp Require Import base list option.
From Stdlib Require Import ZArith Lia.
From S2P Require Import Prelude.

Open Scope Z_scope.

(** ** Capacity policies *)

(** How much of the limit an element takes; a limit of 0 is no limit. *)
Class Capacity (T : Type) := { size_of : T -> Z; limit_ : Z }.

(** [CountCapacity]: by the number of elements. *)
Definition CountCapacity {T} (max_items : Z) : Capacity T := {| size_of := fun _ => 1; limit_ := max_items |}.

(** [BytesCapacity]: by the size of the elements. *)
Definition BytesCapacity {T} (size : T -> Z) (max_bytes : Z) : Capacity T :=
  {| size_of := size; limit_ := max_bytes |}.

Section queue.
Context {T : Type} `{Capacity T}.

Record ConcurrentQueue := mkConcurrentQueue {
  queue_ : list T;
  occupancy_ : Z;
  closed_ : bool;
  failed_ : bool
}.

Definition empty_queue : ConcurrentQueue := mkConcurrentQueue [] 0 false false.

(** Whether an element of size [sz] fits. *)
Definition has_space (sz : Z) (q : ConcurrentQueue) : bool :=
  (limit_ =? 0) || (u64 (occupancy_ q + sz) <=? limit_).

Definition append (value : T) (q : ConcurrentQueue) : ConcurrentQueue :=
  mkConcurrentQueue (queue_ q ++ [value]) (u64 (occupancy_ q + size_of value)) (closed_ q) (failed_ q).

Definition push (value : T) (q : ConcurrentQueue) : option (bool * ConcurrentQueue) :=
  if closed_ q || failed_ q then Some (false, q)
  else if has_space (size_of value) q then Some (true, append value q)
  else None.

Definition try_push (value : T) (q : ConcurrentQueue) : bool * ConcurrentQueue :=
  if closed_ q || failed_ q then (false, q)
  else if has_space (size_of value) q then (true, append value q)
  else (false, q).

(** The common end of the three ways to pop. *)
Definition try_pop (q : ConcurrentQueue) : option T * ConcurrentQueue :=
  if failed_ q then (None, q)
  else
    match queue_ q with
    | [] => (None, q)
    | x :: rest =>
        (Some x, mkConcurrentQueue rest (u64 (occupancy_ q - size_of x)) (closed_ q) (failed_ q))
    end.

Definition pop (q : ConcurrentQueue) : option (option T * ConcurrentQueue) :=
  match queue_ q with
  | [] => if closed_ q || failed_ q then Some (try_pop q) else None
  | _ => Some (try_pop q)
  end.

(** Returns at the latest when the timeout is over. *)
Definition pop_for (q : ConcurrentQueue) : option T * ConcurrentQueue := try_pop q.

Definition drain_all (q : ConcurrentQueue) : list T * ConcurrentQueue :=
  (queue_ q, mkConcurrentQueue [] 0 (closed_ q) (failed_ q)).

Definition snapshot (q : ConcurrentQueue) : list T := queue_ q.

Definition clear (q : ConcurrentQueue) : ConcurrentQueue := mkConcurrentQueue [] 0 (closed_ q) (failed_ q).

Definition close (q : ConcurrentQueue) : ConcurrentQueue :=
  mkConcurrentQueue (queue_ q) (occupancy_ q) true (failed_ q).

Definition fail (q : ConcurrentQueue) : ConcurrentQueue :=
  mkConcurrentQueue (queue_ q) (occupancy_ q) (closed_ q) true.

(** ** Runs *)

(** The calls of producers and consumers, in the order of their critical
    sections. *)
Inductive call :=
  | Push (value : T)
  | TryPush (value : T)
  | Pop
  | PopFor
  | TryPop
  | DrainAll
  | Clear
  | Close
  | Fail.

(** The queue with what was accepted and what consumers received so far; elements
    removed by [clear] count as received. *)
Record history := mkHistory { q_of : ConcurrentQueue; accepted : list T; received : list T }.

Definition on_push (value : T) (h : history) (r : bool * ConcurrentQueue) : history :=
  mkHistory r.2 (accepted h ++ (if r.1 then [value] else [])) (received h).

Definition on_pop (h : history) (r : option T * ConcurrentQueue) : history :=
  mkHistory r.2 (accepted h) (received h ++ option_list r.1).

(** One call; [None] when it has to wait. *)
Definition step (c : call) (h : history) : option history :=
  match c with
  | Push x => on_push x h <$> push x (q_of h)
  | TryPush x => Some (on_push x h (try_push x (q_of h)))
  | Pop => on_pop h <$> pop (q_of h)
  | PopFor => Some (on_pop h (pop_for (q_of h)))
  | TryPop => Some (on_pop h (try_pop (q_of h)))
  | DrainAll =>
      let '(xs, q) := drain_all (q_of h) in Some (mkHistory q (accepted h) (received h ++ xs))
  | Clear => Some (mkHistory (clear (q_of h)) (accepted h) (received h ++ queue_ (q_of h)))
  | Close => Some (mkHistory (close (q_of h)) (accepted h) (received h))
  | Fail => Some (mkHistory (fail (q_of h)) (accepted h) (received h))
  end.

Fixpoint run (cs : list call) (h : history) : option history :=
  match cs with
  | [] => Some h
  | c :: cs => h ← step c h; run cs h
  end.

Definition start : history := mkHistory empty_queue [] [].

(** ** Invariant *)

Definition total (l : list T) : Z := foldr (fun x n => size_of x + n) 0 l.

Lemma total_app l1 l2 : total (l1 ++ l2) = total l1 + total l2.
Proof. unfold total. induction l1 as [|x l1 IH]; cbn; [done|]. rewrite IH. lia. Qed.

(** The limit and every element take less than half of [size_t]. *)
Definition sizes_ok : Prop := (forall x : T, 0 <= size_of x < 2 ^ 63) /\ 0 <= limit_ < 2 ^ 63.

Record queue_inv (h : history) : Prop := {
  qi_fifo : accepted h = received h ++ queue_ (q_of h);
  qi_occupancy : occupancy_ (q_of h) = u64 (total (queue_ (q_of h)));
  qi_bound : limit_ <> 0 -> total (queue_ (q_of h)) <= limit_
}.

Lemma channel_total_nonneg l : sizes_ok -> 0 <= total l.
Proof. intros [Hs _]. induction l as [|x l IH]; cbn; [done|]. specialize (Hs x). unfold total in IH. lia. Qed.

Lemma append_inv x h acc :
  sizes_ok -> has_space (size_of x) (q_of h) = true -> queue_inv h -> acc = accepted h ++ [x] ->
  queue_inv (mkHistory (append x (q_of h)) acc (received h)).
Proof.
  intros Hok Hsp [Hf Ho Hb] ->. pose proof (channel_total_nonneg (queue_ (q_of h)) Hok) as Hn.
  destruct Hok as [Hs Hl]. specialize (Hs x).
  split; cbn.
  - by rewrite Hf, app_assoc.
  - rewrite total_app, Ho. cbn. unfold u64. rewrite Zplus_mod_idemp_l. f_equal. lia.
  - intros Hz. specialize (Hb Hz). unfold has_space in Hsp. rewrite total_app. cbn.
    apply orb_true_iff in Hsp as [?%Z.eqb_eq|Hsp%Z.leb_le]; [done|].
    rewrite Ho, !u64_small in Hsp; lia || (rewrite ?u64_small; lia).
Qed.

Lemma pop_inv h : sizes_ok -> queue_inv h -> queue_inv (on_pop h (try_pop (q_of h))).
Proof.
  intros [Hs _] [Hf Ho Hb]. unfold on_pop, try_pop. destruct (failed_ (q_of h)).
  { split; cbn; by rewrite ?app_nil_r. }
  destruct (queue_ (q_of h)) as [|x l] eqn:Hq; (split; cbn; rewrite ?Hq, ?app_nil_r in *; try done).
  - rewrite Hf. by rewrite <- app_assoc.
  - rewrite Ho. cbn. unfold u64. rewrite Zminus_mod_idemp_l. f_equal. unfold total. lia.
  - intros Hz. specialize (Hb Hz). specialize (Hs x). cbn in Hb. unfold total in *. lia.
Qed.

Lemma channel_push_inv x h r :
  sizes_ok -> queue_inv h -> r = (false, q_of h) \/ (has_space (size_of x) (q_of h) = true /\ r = (true, append x (q_of h))) ->
  queue_inv (on_push x h r).
Proof.
  intros Hok Hi [->|[Hsp ->]].
  - destruct Hi as [Hf Ho Hb]. split; cbn; by rewrite ?app_nil_r.
  - by apply append_inv.
Qed.

Lemma emptied_inv h q xs :
  sizes_ok -> queue_inv h -> xs = queue_ (q_of h) -> queue_ q = [] -> occupancy_ q = 0 ->
  queue_inv (mkHistory q (accepted h) (received h ++ xs)).
Proof.
  intros Hok [Hf Ho Hb] -> Hq Hz. split; cbn; rewrite Hq; cbn; [by rewrite app_nil_r|done|].
  intros _. destruct Hok. lia.
Qed.

Lemma channel_step_inv c h h' : sizes_ok -> step c h = Some h' -> queue_inv h -> queue_inv h'.
Proof.
  intros Hok E Hi. destruct c as [x|x| | | | | | |]; cbn in E.
  - unfold push in E. destruct (closed_ _ || failed_ _); [injection E as <-; apply channel_push_inv; auto|].
    destruct (has_space _ _) eqn:Hsp; [|done]. injection E as <-. apply channel_push_inv; auto.
  - unfold try_push in E. injection E as <-. apply channel_push_inv; [done..|].
    destruct (closed_ _ || failed_ _); [by left|]. destruct (has_space _ _); [by right | by left].
  - unfold pop in E. destruct (queue_ _); [destruct (closed_ _ || failed_ _); [|done]|];
      injection E as <-; by apply pop_inv.
  - injection E as <-. by apply pop_inv.
  - injection E as <-. by apply pop_inv.
  - injection E as <-. by apply emptied_inv.
  - injection E as <-. by apply emptied_inv.
  - injection E as <-. by destruct Hi; split.
  - injection E as <-. by destruct Hi; split.
Qed.

(** The queue is a bounded first-in first-out channel. Whatever calls
    producers and consumers make, in any interleaving, the accepted elements are
    those that left the queue followed by those in it, in order; the occupancy is
    the sum of the sizes of the queued elements; and with a limit the queue never
    holds more than the limit. *)
Theorem bounded_fifo cs h :
  sizes_ok -> run cs start = Some h ->
  accepted h = received h ++ queue_ (q_of h) /\
  occupancy_ (q_of h) = u64 (total (queue_ (q_of h))) /\
  (limit_ <> 0 -> total (queue_ (q_of h)) <= limit_).
Proof.
  intros Hok Hr. assert (Hi : queue_inv h); [|by destruct Hi].
  assert (H0 : queue_inv start) by (split; cbn; [done|done|intros _; destruct Hok; lia]).
  revert H0 Hr. generalize start. induction cs as [|c cs IH]; intros h0 H0; cbn; [by intros [= <-]|].
  destruct (step c h0) as [h1|] eqn:E; [|done]. cbn. apply IH. by eapply channel_step_inv.
Qed.

(** [n] pops in a row; [None] when one of them waits. *)
Fixpoint pops (n : nat) (q : ConcurrentQueue) : option (list (option T) * ConcurrentQueue) :=
  match n with
  | O => Some ([], q)
  | S n => '(r, q) ← pop q; '(rs, q) ← pops n q; Some (r :: rs, q)
  end.

(** After [close] consumers receive what is queued, in order, and then the end of
    the stream; no pop waits and no push is accepted. *)
Lemma closed_queue_drains q l x :
  closed_ q = true -> failed_ q = false -> queue_ q = l ->
  push x q = Some (false, q) /\
  exists q', pops (S (length l)) q = Some ((Some <$> l) ++ [None], q') /\ queue_ q' = [].
Proof.
  intros Hc Hf Hl. split; [unfold push; by rewrite Hc|].
  revert q Hc Hf Hl. induction l as [|y l IH]; intros q Hc Hf Hl.
  - exists q. cbn. unfold pop, try_pop. by rewrite Hl, Hc, Hf.
  - set (q1 := mkConcurrentQueue l (u64 (occupancy_ q - size_of y)) (closed_ q) false).
    assert (Hp : pop q = Some (Some y, q1)) by (unfold pop, try_pop; by rewrite Hl, Hf).
    destruct (IH q1) as (q' & E & Hq'); try done. exists q'. split; [|done].
    change (pops (S (length (y :: l))) q) with ('(r, q) ← pop q; '(rs, q) ← pops (S (length l)) q; Some (r :: rs, q)).
    rewrite Hp. cbn [mbind option_bind]. by rewrite E.
Qed.

(** After [fail] consumers give up at once, with elements left in the queue. *)
Lemma failed_queue_abandons q x : failed_ q = true -> pop q = Some (None, q) /\ push x q = Some (false, q).
Proof.
  intros Hf. unfold pop, push, try_pop. rewrite Hf, orb_true_r. by destruct (queue_ q).
Qed.

(** An element larger than the limit waits for ever on an open queue. *)
Lemma oversized_push_waits x q :
  sizes_ok -> limit_ <> 0 -> limit_ < size_of x -> 0 <= occupancy_ q <= limit_ ->
  closed_ q = false -> failed_ q = false -> push x q = None /\ try_push x q = (false, q).
Proof.
  intros [Hs Hl] Hz Hx Ho Hc Hf. specialize (Hs x). unfold push, try_push, has_space. rewrite Hc, Hf. cbn.
  rewrite u64_small by lia. destruct (Z.eqb_spec limit_ 0); [done|]. by destruct (Z.leb_spec (occupancy_ q + size_of x) limit_); [lia|].
Qed.
End queue.

(** ** Witness *)

(** A queue of at most two elements. *)
Lemma bounded_fifo_witness :
  exists h : history (T := N),
    run (H := CountCapacity 2) [Push 1%N; Push 2%N; TryPush 3%N; Pop; Push 4%N] start = Some h /\
    accepted h = [1; 2; 4]%N /\ accepted h = received h ++ queue_ (q_of h).
Proof.
  assert (Hok : sizes_ok (H := CountCapacity (T := N) 2)) by (split; [intros x|]; cbn; lia).
  eexists. split; [by vm_compute|]. split; [by vm_compute|].
  exact (proj1 (bounded_fifo (H := CountCapacity 2) [Push 1%N; Push 2%N; TryPush 3%N; Pop; Push 4%N] _ Hok
    ltac:(by vm_compute))).
Defined.
