(* ===== verification/WriteBackQueue.v ===== *)
(** The write-back queue (src/storage/cpp/write_back_queue.h and .cpp): requests
    to write objects to disk, executed in order by one worker thread, with
    back-pressure on producers, draining and discarding.

    The state holds the members of the queue and the program counter of every
    thread inside it; one step of [step] is what one thread does between two
    points where another thread can run: a critical section of [mutex_], a wait
    on a condition variable, or the work done outside the lock.  A waiting thread
    is asleep until it is notified, or wakes up spuriously, and then evaluates
    its predicate again.  Requests are opaque: what [execute_] answers on each
    attempt is part of the request, and what happens to a request is recorded in
    [events_]. *)

From stdpp Require Import base gmap list option fin_maps.
From Stdlib Require Import ZArith Lia.
From S2P Require Import Prelude.

Open Scope Z_scope.

(** ** Requests *)

(** The outcome of one call of [execute_]. *)
Inductive exec_result := ExecOk | ExecFailed | ExecThrew.

(** [execute_] gives the outcome of each attempt; the callbacks are present or
    not, and exceptions they throw are swallowed. *)
Record WriteRequest := mkWriteRequest {
  request_id : N;
  execute_ : nat -> exec_result;
  on_complete_ : bool;
  on_error_ : bool
}.

Definition kMaxWriteBackRetries : nat := 3.

(** The loop over the attempts from number [attempt] on, with [retries] to
    go: whether the write succeeded and how often [execute_] was called. *)
Fixpoint attempts (retries attempt : nat) (r : WriteRequest) : bool * nat :=
  match execute_ r attempt with
  | ExecOk => (true, 1%nat)
  | ExecThrew => (false, 1%nat)
  | ExecFailed =>
      match retries with
      | O => (false, 1%nat)
      | S retries => let '(ok, n) := attempts retries (S attempt) r in (ok, S n)
      end
  end.

Definition execute_request (r : WriteRequest) : bool * nat := attempts kMaxWriteBackRetries 0 r.

(** ** State *)

(** What happened to requests: accepted by [enqueue], taken by the worker,
    dropped by [clear_pending], executed with a number of attempts, and the
    callbacks called. *)
Inductive event :=
  | EvAccepted (id : N)
  | EvTaken (id : N)
  | EvDropped (id : N)
  | EvExecuted (id : N) (ok : bool) (calls : nat)
  | EvCompleted (id : N)
  | EvError (id : N)
  | EvGracefulExit.

(** The worker thread: not started or joined, about to evaluate the predicate of
    its wait, asleep in it, holding a request outside the lock, about to account
    for a finished request, or at the end of its loop. *)
Inductive worker_pc :=
  | NoWorker
  | Evaluating
  | Sleeping
  | Working (r : WriteRequest)
  | Finishing (r : WriteRequest)
  | Terminated.

(** A client thread inside an operation of the queue. *)
Inductive client_pc :=
  | AtStart
  | StartSpawn
  | AtStop
  | StopNotify
  | StopJoin
  | AtEnqueue (r : WriteRequest)
  | EnqueueAsleep (r : WriteRequest)
  | EnqueueAwake (r : WriteRequest)
  | AtDrain
  | DrainAsleep
  | AtClear
  | ClearNotify.

(** [exit_initiated_] is the flag of [graceful_exit]; [exited_] holds when the
    process is gone. *)
Record WriteBackQueue := mkWriteBackQueue {
  high_watermark_ : nat;
  queue_ : list WriteRequest;
  pending_ : Z;
  running_ : bool;
  worker_ : worker_pc;
  clients_ : gmap nat client_pc;
  exit_initiated_ : bool;
  exited_ : bool;
  events_ : list event
}.
#[export] Instance set_queue_WriteBackQueue : Setter queue_ :=
  fun h x => mkWriteBackQueue (high_watermark_ x) (h (queue_ x)) (pending_ x) (running_ x) (worker_ x) (clients_ x) (exit_initiated_ x) (exited_ x) (events_ x).
Arguments set_queue_WriteBackQueue h x /.
#[export] Instance set_pending_WriteBackQueue : Setter pending_ :=
  fun h x => mkWriteBackQueue (high_watermark_ x) (queue_ x) (h (pending_ x)) (running_ x) (worker_ x) (clients_ x) (exit_initiated_ x) (exited_ x) (events_ x).
Arguments set_pending_WriteBackQueue h x /.
#[export] Instance set_running_WriteBackQueue : Setter running_ :=
  fun h x => mkWriteBackQueue (high_watermark_ x) (queue_ x) (pending_ x) (h (running_ x)) (worker_ x) (clients_ x) (exit_initiated_ x) (exited_ x) (events_ x).
Arguments set_running_WriteBackQueue h x /.
#[export] Instance set_worker_WriteBackQueue : Setter worker_ :=
  fun h x => mkWriteBackQueue (high_watermark_ x) (queue_ x) (pending_ x) (running_ x) (h (worker_ x)) (clients_ x) (exit_initiated_ x) (exited_ x) (events_ x).
Arguments set_worker_WriteBackQueue h x /.
#[export] Instance set_clients_WriteBackQueue : Setter clients_ :=
  fun h x => mkWriteBackQueue (high_watermark_ x) (queue_ x) (pending_ x) (running_ x) (worker_ x) (h (clients_ x)) (exit_initiated_ x) (exited_ x) (events_ x).
Arguments set_clients_WriteBackQueue h x /.
#[export] Instance set_exit_initiated_WriteBackQueue : Setter exit_initiated_ :=
  fun h x => mkWriteBackQueue (high_watermark_ x) (queue_ x) (pending_ x) (running_ x) (worker_ x) (clients_ x) (h (exit_initiated_ x)) (exited_ x) (events_ x).
Arguments set_exit_initiated_WriteBackQueue h x /.
#[export] Instance set_exited_WriteBackQueue : Setter exited_ :=
  fun h x => mkWriteBackQueue (high_watermark_ x) (queue_ x) (pending_ x) (running_ x) (worker_ x) (clients_ x) (exit_initiated_ x) (h (exited_ x)) (events_ x).
Arguments set_exited_WriteBackQueue h x /.
#[export] Instance set_events_WriteBackQueue : Setter events_ :=
  fun h x => mkWriteBackQueue (high_watermark_ x) (queue_ x) (pending_ x) (running_ x) (worker_ x) (clients_ x) (exit_initiated_ x) (exited_ x) (h (events_ x)).
Arguments set_events_WriteBackQueue h x /.

Definition empty_queue (high_watermark : nat) : WriteBackQueue :=
  mkWriteBackQueue high_watermark [] 0 false NoWorker ∅ false false [].

(** ** Condition variables *)

(** [cv_not_empty_]: only the worker waits on it. *)
Definition notify_not_empty (s : WriteBackQueue) : WriteBackQueue :=
  s <| worker_ ::= fun w => match w with Sleeping => Evaluating | _ => w end |>.

(** A thread woken on [cv_drained_] or [cv_backpressure_]. *)
Definition wake (p : client_pc) : client_pc :=
  match p with
  | EnqueueAsleep r => EnqueueAwake r
  | DrainAsleep => AtDrain
  | _ => p
  end.

(** [cv_drained_.notify_all()] and [cv_backpressure_.notify_all()], which the
    code always calls together. *)
Definition notify_drained (s : WriteBackQueue) : WriteBackQueue := s <| clients_ ::= fmap wake |>.

(** ** The worker *)

(** The work outside the lock: the attempts and the callbacks, and the exit of
    the process when the write failed for good; only the first call of
    [graceful_exit] ends it. *)
Definition run_request (r : WriteRequest) (s : WriteBackQueue) : WriteBackQueue :=
  let '(ok, calls) := execute_request r in
  let s := s <| worker_ := Finishing r |>
             <| events_ ::= fun l => l ++ [EvExecuted (request_id r) ok calls] |> in
  if ok then
    s <| events_ ::= fun l => l ++ (if on_complete_ r then [EvCompleted (request_id r)] else []) |>
  else
    let s := s <| events_ ::= fun l => l ++ (if on_error_ r then [EvError (request_id r)] else []) |> in
    if exit_initiated_ s then s
    else s <| events_ ::= fun l => l ++ [EvGracefulExit] |> <| exit_initiated_ := true |> <| exited_ := true |>.

(** One step of [worker_loop]; [None] when the worker cannot move. *)
Definition worker_step (s : WriteBackQueue) : option WriteBackQueue :=
  match worker_ s with
  | Evaluating =>
      match queue_ s with
      | r :: queue =>
          Some (s <| queue_ := queue |> <| worker_ := Working r |>
                  <| events_ ::= fun l => l ++ [EvTaken (request_id r)] |>)
      | [] => Some (s <| worker_ := if running_ s then Sleeping else Terminated |>)
      end
  | Working r => Some (run_request r s)
  | Finishing r =>
      let s := s <| pending_ ::= fun n => u64 (n - 1) |> <| worker_ := Evaluating |> in
      Some (match queue_ s with [] => notify_drained s | _ => s end)
  | NoWorker | Sleeping | Terminated => None
  end.

(** ** The clients *)

Definition goto (t : nat) (p : client_pc) (s : WriteBackQueue) : WriteBackQueue :=
  s <| clients_ ::= <[t := p]> |>.

Definition return_from (t : nat) (s : WriteBackQueue) : WriteBackQueue := s <| clients_ ::= delete t |>.

(** The end of [enqueue], under the lock. *)
Definition push_request (t : nat) (r : WriteRequest) (s : WriteBackQueue) : WriteBackQueue :=
  return_from t (notify_not_empty
    (s <| queue_ ::= fun q => q ++ [r] |> <| pending_ ::= fun n => u64 (n + 1) |>
       <| events_ ::= fun l => l ++ [EvAccepted (request_id r)] |>)).

(** Replacing a joinable [std::thread] ends the process. *)
Definition spawn_worker (t : nat) (s : WriteBackQueue) : WriteBackQueue :=
  match worker_ s with
  | NoWorker => return_from t (s <| worker_ := Evaluating |>)
  | _ => s <| exited_ := true |>
  end.

Definition clear_queue (s : WriteBackQueue) : WriteBackQueue :=
  let dropped := Z.of_nat (length (queue_ s)) in
  s <| events_ ::= fun l => l ++ ((fun r => EvDropped (request_id r)) <$> queue_ s) |>
    <| queue_ := [] |>
    <| pending_ ::= fun n => if dropped <=? n then n - dropped else 0 |>.

(** One step of the thread [t]; [None] when it is asleep, joins a worker that
    still runs, or is not inside the queue. *)
Definition client_step (t : nat) (s : WriteBackQueue) : option WriteBackQueue :=
  p ← clients_ s !! t;
  match p with
  | AtStart => Some (if running_ s then return_from t s else goto t StartSpawn (s <| running_ := true |>))
  | StartSpawn => Some (spawn_worker t s)
  | AtStop => Some (if running_ s then goto t StopNotify (s <| running_ := false |>) else return_from t s)
  | StopNotify => Some (goto t StopJoin (notify_not_empty s))
  | StopJoin =>
      match worker_ s with
      | NoWorker => Some (return_from t s)
      | Terminated => Some (return_from t (s <| worker_ := NoWorker |>))
      | _ => None
      end
  | AtEnqueue r =>
      Some (if (high_watermark_ s <? length (queue_ s))%nat then goto t (EnqueueAsleep r) s
            else push_request t r s)
  | EnqueueAwake r =>
      Some (match queue_ s with [] => push_request t r s | _ => goto t (EnqueueAsleep r) s end)
  | AtDrain =>
      Some (match queue_ s with
            | [] => if pending_ s =? 0 then return_from t s else goto t DrainAsleep s
            | _ => goto t DrainAsleep s
            end)
  | AtClear => Some (goto t ClearNotify (clear_queue s))
  | ClearNotify => Some (return_from t (notify_drained s))
  | EnqueueAsleep _ | DrainAsleep => None
  end.

(** ** Steps of the whole system *)

(** The operations a thread can call. *)
Inductive call := CallStart | CallStop | CallEnqueue (r : WriteRequest) | CallDrain | CallClear.

Definition entry_point (c : call) : client_pc :=
  match c with
  | CallStart => AtStart
  | CallStop => AtStop
  | CallEnqueue r => AtEnqueue r
  | CallDrain => AtDrain
  | CallClear => AtClear
  end.

(** A thread enters an operation, a client or the worker moves, or one of them
    wakes up without being notified. *)
Inductive label :=
  | Enter (t : nat) (c : call)
  | Run (t : nat)
  | Work
  | Spurious (t : nat)
  | SpuriousWorker.

Definition step (l : label) (s : WriteBackQueue) : option WriteBackQueue :=
  if exited_ s then None
  else
    match l with
    | Enter t c => match clients_ s !! t with None => Some (goto t (entry_point c) s) | Some _ => None end
    | Run t => client_step t s
    | Work => worker_step s
    | Spurious t => p ← clients_ s !! t; Some (goto t (wake p) s)
    | SpuriousWorker => Some (notify_not_empty s)
    end.

Fixpoint run (ls : list label) (s : WriteBackQueue) : option WriteBackQueue :=
  match ls with
  | [] => Some s
  | l :: ls => s ← step l s; run ls s
  end.

(** ** The history of the requests *)

Definition accepted : list event -> list N := omap (fun e => match e with EvAccepted i => Some i | _ => None end).

(** Taken or dropped, in the order in which they left the queue. *)
Definition gone : list event -> list N :=
  omap (fun e => match e with EvTaken i | EvDropped i => Some i | _ => None end).

Definition taken : list event -> list N := omap (fun e => match e with EvTaken i => Some i | _ => None end).

Definition executed : list event -> list N :=
  omap (fun e => match e with EvExecuted i _ _ => Some i | _ => None end).

(** The request in the hands of the worker, and the one it has not executed. *)
Definition in_flight (s : WriteBackQueue) : list WriteRequest :=
  match worker_ s with Working r | Finishing r => [r] | _ => [] end.

Definition unexecuted (s : WriteBackQueue) : list WriteRequest :=
  match worker_ s with Working r => [r] | _ => [] end.

Record queue_inv (s : WriteBackQueue) : Prop := {
  qi_order : accepted (events_ s) = gone (events_ s) ++ (request_id <$> queue_ s);
  qi_taken : taken (events_ s) = executed (events_ s) ++ (request_id <$> unexecuted s);
  qi_size : (length (queue_ s) + length (in_flight s) <= length (events_ s))%nat;
  qi_pending : pending_ s = Z.of_nat (length (queue_ s) + length (in_flight s))
}.

(** Fewer events than [size_t] can count. *)
Definition countable_history (s : WriteBackQueue) : Prop := Z.of_nat (length (events_ s)) < 2 ^ 64.

Ltac history := unfold accepted, gone, taken, executed in *; rewrite ?omap_app; cbn [omap list_omap].

Lemma omap_dropped {A} (f : event -> option A) (q : list WriteRequest) :
  (forall i, f (EvDropped i) = None) -> omap f ((fun r => EvDropped (request_id r)) <$> q) = [].
Proof. intros Hf. induction q as [|r q IH]; [done|]. cbn. by rewrite Hf. Qed.

Lemma gone_dropped (q : list WriteRequest) :
  gone ((fun r => EvDropped (request_id r)) <$> q) = request_id <$> q.
Proof. induction q as [|r q IH]; [done|]. cbn. by f_equal. Qed.

(** The invariant does not look at the client threads nor at the flags. *)
Lemma queue_inv_ext s s' :
  queue_ s' = queue_ s -> pending_ s' = pending_ s -> events_ s' = events_ s ->
  in_flight s' = in_flight s -> unexecuted s' = unexecuted s -> queue_inv s -> queue_inv s'.
Proof. intros Hq Hp He Hf Hu [H1 H2 H3 H4]. split; by rewrite ?Hq, ?Hp, ?He, ?Hf, ?Hu. Qed.

Lemma notify_in_flight s :
  in_flight (notify_not_empty s) = in_flight s /\ unexecuted (notify_not_empty s) = unexecuted s.
Proof. unfold in_flight, unexecuted. cbn. by destruct (worker_ s). Qed.

Lemma push_inv t r s :
  countable_history (push_request t r s) -> queue_inv s -> queue_inv (push_request t r s).
Proof.
  unfold countable_history. cbn. rewrite length_app. cbn. intros Hb [H1 H2 H3 H4].
  set (s1 := s <| queue_ ::= fun q => q ++ [r] |> <| pending_ ::= fun n => u64 (n + 1) |>
               <| events_ ::= fun l => l ++ [EvAccepted (request_id r)] |>).
  destruct (notify_in_flight s1) as [Hf Hu].
  apply (queue_inv_ext s1); try done.
  split; cbn; unfold in_flight, unexecuted in *; cbn.
  - history. rewrite H1, app_nil_r, fmap_app. by rewrite app_assoc.
  - history. by rewrite !app_nil_r.
  - rewrite !length_app. cbn. lia.
  - rewrite length_app, H4, u64_small; cbn; lia.
Qed.

Lemma clear_inv s : queue_inv s -> queue_inv (clear_queue s).
Proof.
  intros [H1 H2 H3 H4]. split; cbn; unfold in_flight, unexecuted in *; cbn.
  - unfold accepted, gone in *. rewrite !omap_app. fold gone. rewrite gone_dropped, omap_dropped by done.
    by rewrite !app_nil_r.
  - unfold taken, executed in *. rewrite !omap_app, !omap_dropped by done. by rewrite !app_nil_r.
  - rewrite length_app, length_fmap. lia.
  - rewrite H4. destruct (Z.leb_spec (Z.of_nat (length (queue_ s)))
      (Z.of_nat (length (queue_ s) + length match worker_ s with Working r | Finishing r => [r] | _ => [] end))); lia.
Qed.

Lemma run_request_inv r s : worker_ s = Working r -> queue_inv s -> queue_inv (run_request r s).
Proof.
  intros Hw [H1 H2 H3 H4]. unfold in_flight, unexecuted in *. rewrite Hw in *.
  unfold run_request. destruct (execute_request r) as [ok calls].
  destruct ok; [|cbn; destruct (exit_initiated_ s)]; cbn;
    (split; unfold in_flight, unexecuted; cbn; [..|done];
     [history; destruct (on_complete_ r), (on_error_ r); cbn; by rewrite ?app_nil_r
     |history; destruct (on_complete_ r), (on_error_ r); cbn; by rewrite ?app_nil_r, ?H2
     |rewrite !length_app; cbn in *; lia]).
Qed.

Lemma worker_step_inv s s' :
  countable_history s -> worker_step s = Some s' -> queue_inv s -> queue_inv s'.
Proof.
  unfold countable_history. intros Hb.
  unfold worker_step. destruct (worker_ s) as [| | |r|r|] eqn:Hw; try done.
  - destruct (queue_ s) as [|r q] eqn:Hq; intros [= <-] [H1 H2 H3 H4]; unfold in_flight, unexecuted in *;
      rewrite ?Hw, ?Hq in *; split; unfold in_flight, unexecuted; cbn.
    1-4: destruct (running_ s); by rewrite ?Hq.
    + history. rewrite H1, app_nil_r, <- app_assoc. done.
    + history. rewrite H2. by rewrite !app_nil_r.
    + rewrite length_app. cbn in *. lia.
    + cbn in *. lia.
  - intros [= <-]. by apply run_request_inv.
  - intros [= <-] Hi.
    assert (Hd : queue_inv (s <| pending_ ::= fun n => u64 (n - 1) |> <| worker_ := Evaluating |>)).
    { destruct Hi as [H1 H2 H3 H4]. unfold in_flight, unexecuted in *. rewrite Hw in *.
      split; unfold in_flight, unexecuted; cbn; try done; cbn in *; [lia|].
      rewrite H4, u64_small; lia. }
    cbn. destruct (queue_ s) eqn:Hq; (eapply queue_inv_ext; [..|exact Hd]; cbn; done).
Qed.

(** For a step that leaves the queue and the worker's request alone. *)
Ltac frame_inv Hi :=
  eapply queue_inv_ext; [..|exact Hi]; unfold in_flight, unexecuted in *; cbn;
  repeat match goal with H : worker_ _ = _ |- _ => rewrite H end; try done;
  by match goal with |- context [worker_ ?s] => destruct (worker_ s) end.

Lemma client_step_inv t s s' :
  countable_history s' -> client_step t s = Some s' -> queue_inv s -> queue_inv s'.
Proof.
  intros Hb. unfold client_step. destruct (clients_ s !! t) as [p|]; [|done]. cbn [mbind option_bind].
  destruct p as [| | | | |r|r|r| | | |]; try done; intros E Hi.
  - injection E as <-. destruct (running_ s); frame_inv Hi.
  - injection E as <-. unfold spawn_worker. destruct (worker_ s) eqn:Hw; frame_inv Hi.
  - injection E as <-. destruct (running_ s); frame_inv Hi.
  - injection E as <-. frame_inv Hi.
  - destruct (worker_ s) eqn:Hw; try done; injection E as <-; frame_inv Hi.
  - injection E as <-. destruct (high_watermark_ s <? length (queue_ s))%nat; [frame_inv Hi | by apply push_inv].
  - injection E as <-. destruct (queue_ s) eqn:Hq; [by apply push_inv | frame_inv Hi].
  - injection E as <-. destruct (queue_ s); [destruct (pending_ s =? 0)|]; frame_inv Hi.
  - injection E as <-. eapply queue_inv_ext; [..|exact (clear_inv s Hi)]; done.
  - injection E as <-. frame_inv Hi.
Qed.

Lemma step_inv l s s' :
  countable_history s' -> countable_history s -> step l s = Some s' -> queue_inv s -> queue_inv s'.
Proof.
  intros Hb' Hb. unfold step. destruct (exited_ s); [done|].
  destruct l as [t c|t| |t|]; intros E Hi.
  - destruct (clients_ s !! t); [done|]. injection E as <-. frame_inv Hi.
  - by eapply client_step_inv.
  - by eapply worker_step_inv.
  - destruct (clients_ s !! t); [|done]. injection E as <-. frame_inv Hi.
  - injection E as <-. frame_inv Hi.
Qed.

(** ** The history only grows *)

Lemma step_events l s s' : step l s = Some s' -> events_ s `prefix_of` events_ s'.
Proof.
  assert (Hr : forall r, events_ s `prefix_of` events_ (run_request r s)).
  { intros r. unfold run_request. destruct (execute_request r) as [[|] n]; cbn;
      [|destruct (exit_initiated_ s)]; cbn; by repeat apply prefix_app_r. }
  unfold step, client_step, worker_step, spawn_worker, mbind, option_bind. intros E.
  repeat case_match; simplify_eq; try apply Hr; cbn; first [done | by apply prefix_app_r].
Qed.

Lemma step_countable l s s' : step l s = Some s' -> countable_history s' -> countable_history s.
Proof. intros H%step_events%prefix_length. unfold countable_history. lia. Qed.

Lemma run_countable ls s s' : run ls s = Some s' -> countable_history s' -> countable_history s.
Proof.
  revert s. induction ls as [|l ls IH]; intros s; cbn; [by intros [= <-]|].
  destruct (step l s) as [s1|] eqn:E; [|done]. cbn. intros Hr Hb. eapply step_countable; eauto.
Qed.

(** Invariants carry over runs whose history stays countable. *)
Lemma run_preserves (P : WriteBackQueue -> Prop) ls s s' :
  (forall l s s', countable_history s -> countable_history s' -> step l s = Some s' -> P s -> P s') ->
  countable_history s' -> P s -> run ls s = Some s' -> P s'.
Proof.
  intros Hstep Hb. revert s. induction ls as [|l ls IH]; intros s Hp; cbn; [by intros [= <-]|].
  destruct (step l s) as [s1|] eqn:E; [|done]. cbn. intros Hr. apply (IH s1); [|done].
  assert (Hb1 := run_countable _ _ _ Hr Hb). apply (Hstep l s); try done. by eapply step_countable.
Qed.

Lemma empty_inv hw : queue_inv (empty_queue hw).
Proof. by split. Qed.

(** C24: Requests are executed in the order in which they were accepted, each at
    most once: the accepted requests are those taken or dropped so far followed
    by the queue, the requests taken are those executed followed by the one the
    worker is about to execute, and [pending_count] is exactly the number of
    requests queued or in the worker's hands. *)
Theorem queue_fifo_exact hw ls s :
  run ls (empty_queue hw) = Some s -> countable_history s ->
  accepted (events_ s) = gone (events_ s) ++ (request_id <$> queue_ s) /\
  taken (events_ s) = executed (events_ s) ++ (request_id <$> unexecuted s) /\
  pending_ s = Z.of_nat (length (queue_ s) + length (in_flight s)).
Proof.
  intros Hr Hb. assert (Hi : queue_inv s) by
    (eapply (run_preserves queue_inv); [| |apply empty_inv|]; eauto using step_inv).
  by destruct Hi.
Qed.

Lemma reachable_inv hw ls s : run ls (empty_queue hw) = Some s -> countable_history s -> queue_inv s.
Proof.
  intros Hr Hb. eapply (run_preserves queue_inv); [| |apply empty_inv|]; eauto using step_inv.
Qed.

(** When [drain] returns, every request accepted before is settled: none is
    queued, the worker holds none, and each one was executed to its end or
    dropped by [clear_pending]. *)
Theorem drain_returns_settled hw ls s t s' :
  run ls (empty_queue hw) = Some s -> countable_history s ->
  clients_ s !! t = Some AtDrain -> step (Run t) s = Some s' -> clients_ s' !! t = None ->
  queue_ s' = [] /\ in_flight s' = [] /\
  accepted (events_ s') = gone (events_ s') /\ taken (events_ s') = executed (events_ s').
Proof.
  intros Hr Hb Ht Hs Hret. destruct (reachable_inv _ _ _ Hr Hb) as [H1 H2 _ H4].
  unfold step, client_step in Hs. rewrite Ht in Hs. destruct (exited_ s); [done|]. cbn [mbind option_bind] in Hs.
  injection Hs as <-. destruct (queue_ s) as [|r q] eqn:Hq; [|cbn in Hret; by rewrite lookup_insert_eq in Hret].
  destruct (Z.eqb_spec (pending_ s) 0) as [Hz|Hz]; [|cbn in Hret; by rewrite lookup_insert_eq in Hret].
  assert (Hf : in_flight s = []) by (apply nil_length_inv; cbn in *; lia).
  assert (Hu : unexecuted s = []) by (unfold in_flight, unexecuted in *; by destruct (worker_ s)).
  rewrite Hu in H2. cbn. rewrite H1, H2. by rewrite !app_nil_r.
Qed.

(** ** No wake-up is lost *)

Definition at_pc (p : client_pc) (s : WriteBackQueue) : Prop := exists t, clients_ s !! t = Some p.

(** A thread asleep waits for something that has not happened, or a thread about
    to notify it is still inside the queue. *)
Record wake_inv (s : WriteBackQueue) : Prop := {
  wi_worker : worker_ s = Sleeping -> queue_ s = [] /\ (running_ s = true \/ at_pc StopNotify s);
  wi_drain : at_pc DrainAsleep s -> queue_ s <> [] \/ pending_ s <> 0 \/ at_pc ClearNotify s;
  wi_enqueue : forall r, at_pc (EnqueueAsleep r) s ->
    queue_ s <> [] \/ in_flight s <> [] \/ at_pc ClearNotify s
}.

Lemma at_goto p t q s : at_pc p (goto t q s) -> p = q \/ at_pc p s.
Proof.
  intros [t' H]. cbn in H. apply lookup_insert_Some in H as [[_ ->]|[_ H]]; [by left | right; by exists t'].
Qed.

Lemma at_goto_other p t q q0 s : clients_ s !! t = Some q0 -> q0 <> p -> at_pc p s -> at_pc p (goto t q s).
Proof. intros Ht Hne [t' H]. exists t'. cbn. rewrite lookup_insert_ne; congruence. Qed.

Lemma at_goto_here p t s : at_pc p (goto t p s).
Proof. exists t. cbn. by rewrite lookup_insert_eq. Qed.

Lemma at_return p t s : at_pc p (return_from t s) -> at_pc p s.
Proof. intros [t' H]. cbn in H. apply lookup_delete_Some in H as [_ H]. by exists t'. Qed.

Lemma at_return_other p t q0 s : clients_ s !! t = Some q0 -> q0 <> p -> at_pc p s -> at_pc p (return_from t s).
Proof. intros Ht Hne [t' H]. exists t'. cbn. rewrite lookup_delete_ne; congruence. Qed.

Lemma notified_drain s : ~ at_pc DrainAsleep (notify_drained s).
Proof. intros [t H]. cbn in H. apply lookup_fmap_Some in H as (p & Hp & _). by destruct p. Qed.

Lemma notified_enqueue r s : ~ at_pc (EnqueueAsleep r) (notify_drained s).
Proof. intros [t H]. cbn in H. apply lookup_fmap_Some in H as (p & Hp & _). by destruct p. Qed.

Lemma notified_keeps p s : wake p = p -> at_pc p s -> at_pc p (notify_drained s).
Proof. intros Hw [t H]. exists t. cbn. rewrite lookup_fmap, H. cbn. by rewrite Hw. Qed.

(** A thread that owes no notification moves or returns. *)
Lemma wake_goto t q0 q s :
  clients_ s !! t = Some q0 -> q0 <> ClearNotify -> (q0 = StopNotify -> worker_ s <> Sleeping) ->
  (q = DrainAsleep -> queue_ s <> [] \/ pending_ s <> 0) ->
  (forall r, q = EnqueueAsleep r -> queue_ s <> []) ->
  wake_inv s -> wake_inv (goto t q s).
Proof.
  intros Ht Hc Hs Hd He [H1 H2 H3]. split.
  - intros Hw. destruct (H1 Hw) as [? [?|?]]; split; try done; [by left | right].
    apply (at_goto_other _ t _ q0); [done| |done]. intros Heq. by apply (Hs Heq).
  - intros [Hq|Ha]%at_goto.
    + destruct (Hd (eq_sym Hq)); [by left | by right; left].
    + destruct (H2 Ha) as [?|[?|?]]; [by left | by right; left |]. right; right. by eapply at_goto_other.
  - intros r [Hq|Ha]%at_goto.
    + left. by eapply He.
    + destruct (H3 r Ha) as [?|[?|?]]; [by left | by right; left |]. right; right. by eapply at_goto_other.
Qed.

Lemma wake_return t q0 s :
  clients_ s !! t = Some q0 -> q0 <> StopNotify -> q0 <> ClearNotify -> wake_inv s -> wake_inv (return_from t s).
Proof.
  intros Ht Hs Hc [H1 H2 H3]. split.
  - intros Hw. destruct (H1 Hw) as [? [?|?]]; split; try done; [by left | right; by eapply at_return_other].
  - intros Ha%at_return. destruct (H2 Ha) as [?|[?|?]]; [by left | by right; left |].
    right; right. by eapply at_return_other.
  - intros r Ha%at_return. destruct (H3 r Ha) as [?|[?|?]]; [by left | by right; left |].
    right; right. by eapply at_return_other.
Qed.

Lemma wake_notify_not_empty s : wake_inv s -> wake_inv (notify_not_empty s).
Proof.
  intros [H1 H2 H3]. destruct (notify_in_flight s) as [Hf _]. split.
  - cbn. by destruct (worker_ s).
  - exact H2.
  - intros r Ha. rewrite Hf. by apply (H3 r).
Qed.

(** Pushing a request wakes the worker and makes the queue not empty. *)
Lemma wake_push t r q0 s :
  clients_ s !! t = Some q0 -> q0 <> StopNotify -> q0 <> ClearNotify ->
  wake_inv s -> wake_inv (push_request t r s).
Proof.
  intros Ht Hs Hc [H1 H2 H3]. unfold push_request.
  apply (wake_return t q0); [done..|]. split; cbn.
  - by destruct (worker_ s).
  - intros _. left. by destruct (queue_ s).
  - intros r' _. left. by destruct (queue_ s).
Qed.

Lemma wake_set_running b s : (worker_ s = Sleeping -> b = true \/ at_pc StopNotify s) ->
  wake_inv s -> wake_inv (s <| running_ := b |>).
Proof. intros Hb [H1 H2 H3]. split; [|exact H2|exact H3]. intros Hw. split; [by apply H1 | by apply Hb]. Qed.

(** The worker thread is replaced where it holds no request. *)
Lemma wake_set_worker w s :
  w <> Sleeping -> in_flight s = [] -> wake_inv s -> wake_inv (s <| worker_ := w |>).
Proof.
  intros Hw Hf [H1 H2 H3]. split; [done | exact H2 |].
  intros r Ha. destruct (H3 r Ha) as [?|[?|?]]; [by left | done | by right; right].
Qed.

Lemma wake_spawn t s : clients_ s !! t = Some StartSpawn -> wake_inv s -> wake_inv (spawn_worker t s).
Proof.
  intros Ht Hi. unfold spawn_worker. destruct (worker_ s) eqn:Hw.
  2-6: destruct Hi; by split.
  eapply wake_return; [exact Ht|done..|].
  apply wake_set_worker; [done| |done]. unfold in_flight. by rewrite Hw.
Qed.

Lemma wake_stop t s : clients_ s !! t = Some AtStop -> wake_inv s -> wake_inv (goto t StopNotify (s <| running_ := false |>)).
Proof.
  intros Ht Hi. apply (wake_set_running false (goto t StopNotify s)).
  - intros _. right. apply at_goto_here.
  - by eapply wake_goto.
Qed.

Lemma wake_clear t s : clients_ s !! t = Some AtClear -> wake_inv s -> wake_inv (goto t ClearNotify (clear_queue s)).
Proof.
  intros Ht [H1 H2 H3]. split.
  - intros Hw. destruct (H1 Hw) as [_ Hr]. split; [done|].
    destruct Hr as [?|Hr]; [by left | right]. by eapply (at_goto_other _ t _ AtClear).
  - intros _. right; right. apply at_goto_here.
  - intros r _. right; right. apply at_goto_here.
Qed.

Lemma wake_notify_drained s : wake_inv s -> wake_inv (notify_drained s).
Proof.
  intros [H1 H2 H3]. split.
  - intros Hw. destruct (H1 Hw) as [? Hr]. split; [done|]. destruct Hr as [?|Hr]; [by left | right].
    by apply notified_keeps.
  - intros Ha. by apply notified_drain in Ha.
  - intros r Ha. by apply notified_enqueue in Ha.
Qed.

Lemma wake_clear_notify t s :
  clients_ s !! t = Some ClearNotify -> wake_inv s -> wake_inv (return_from t (notify_drained s)).
Proof.
  intros Ht Hi. destruct (wake_notify_drained s Hi) as [H1 _ _]. split.
  - intros Hw. destruct (H1 Hw) as [? Hr]. split; [done|]. destruct Hr as [?|Hr]; [by left | right].
    apply (at_return_other _ t ClearNotify); [cbn; by rewrite lookup_fmap, Ht|done|done].
  - intros Ha%at_return. by apply notified_drain in Ha.
  - intros r Ha%at_return. by apply notified_enqueue in Ha.
Qed.

Lemma client_wake_inv t s s' : client_step t s = Some s' -> wake_inv s -> wake_inv s'.
Proof.
  unfold client_step. destruct (clients_ s !! t) as [p|] eqn:Ht; [|done]. cbn [mbind option_bind].
  destruct p as [| | | | |r|r|r| | | |]; try done; intros E Hi.
  - injection E as <-. destruct (running_ s); [by eapply wake_return|].
    eapply wake_goto; try done. apply wake_set_running; [by left | done].
  - injection E as <-. by apply wake_spawn.
  - injection E as <-. destruct (running_ s); [by apply wake_stop | by eapply wake_return].
  - injection E as <-. eapply wake_goto; try done; [|by apply wake_notify_not_empty].
    intros _. cbn. by destruct (worker_ s).
  - destruct (worker_ s) eqn:Hw; try done; injection E as <-; (eapply wake_return; try done).
    apply wake_set_worker; [done| |done]. unfold in_flight. by rewrite Hw.
  - injection E as <-. destruct (Nat.ltb_spec (high_watermark_ s) (length (queue_ s))); [|by eapply wake_push].
    eapply wake_goto; try done. intros _ _ Hq. rewrite Hq in *. cbn in *. lia.
  - injection E as <-. destruct (queue_ s) eqn:Hq; [by eapply wake_push|].
    eapply wake_goto; try done; by rewrite Hq.
  - injection E as <-. destruct (queue_ s) eqn:Hq; [destruct (Z.eqb_spec (pending_ s) 0)|].
    + by eapply wake_return.
    + eapply wake_goto; try done. by right.
    + eapply wake_goto; try done. left. by rewrite Hq.
  - injection E as <-. by apply wake_clear.
  - injection E as <-. by apply wake_clear_notify.
Qed.

(** Between taking a request and accounting for it the worker keeps [pending_]
    positive, so a thread asleep in [drain] is still waiting for something. *)
Lemma worker_wake_inv s s' :
  countable_history s -> queue_inv s -> worker_step s = Some s' -> wake_inv s -> wake_inv s'.
Proof.
  intros Hb Hq. unfold worker_step. destruct (worker_ s) as [| | |r|r|] eqn:Hw; try done.
  - destruct (queue_ s) as [|r q] eqn:Hqu; intros [= <-] Hi; destruct Hi as [H1 H2 H3].
    + split; cbn; [|exact H2|]; rewrite ?Hqu.
      * destruct (running_ s); [by intros _; split; [|left] | done].
      * intros r Ha. destruct (H3 r Ha) as [?|[Hf|?]]; [by rewrite Hqu in * | |by right; right].
        unfold in_flight in Hf. by rewrite Hw in Hf.
    + split; cbn; [done| |intros _ _; right; by left].
      intros _. right; left. rewrite (qi_pending _ Hq), Hqu. cbn. lia.
  - intros [= <-] [H1 H2 H3]. unfold run_request. destruct (execute_request r) as [[|] n]; cbn;
      [|destruct (exit_initiated_ s); cbn]; (split; [done | exact H2 | intros r' _; right; by left]).
  - intros [= <-] [H1 H2 H3]. cbn. destruct (queue_ s) eqn:Hqu; split; cbn; try done.
    all: try (intros Ha; by apply notified_drain in Ha).
    all: try (intros r' Ha; by apply notified_enqueue in Ha).
    all: intros; left; by rewrite ?Hqu.
Qed.

Lemma goto_same t p s : clients_ s !! t = Some p -> goto t p s = s.
Proof. intros H. destruct s. unfold goto. cbn in *. by rewrite insert_id. Qed.

Lemma step_wake_inv l s s' :
  countable_history s -> queue_inv s -> step l s = Some s' -> wake_inv s -> wake_inv s'.
Proof.
  intros Hb Hq. unfold step. destruct (exited_ s); [done|].
  destruct l as [t c|t| |t|]; intros E Hi.
  - destruct (clients_ s !! t) eqn:Ht; [done|]. injection E as <-. destruct Hi as [H1 H2 H3].
    assert (Hk : forall p, at_pc p s -> at_pc p (goto t (entry_point c) s)).
    { intros p [t' H]. exists t'. cbn. rewrite lookup_insert_ne; congruence. }
    split; [intros Hw; destruct (H1 Hw) as [? [?|?]]; auto|..]; intros *; intros [Hp|Ha]%at_goto;
      try (by destruct c); [destruct (H2 Ha) as [?|[?|?]] | destruct (H3 _ Ha) as [?|[?|?]]]; auto.
  - by eapply client_wake_inv.
  - by eapply worker_wake_inv.
  - destruct (clients_ s !! t) as [p|] eqn:Ht; [|done]. injection E as <-.
    destruct p as [| | | | |r|r|r| | | |]; cbn [wake]; first
      [by rewrite goto_same | by eapply wake_goto].
  - injection E as <-. by apply wake_notify_not_empty.
Qed.

(** C25: No wake-up is lost. In every reachable state a sleeping worker has
    nothing to do, or [stop] is about to notify it; a thread asleep in [drain] is
    waiting for a request that is queued or in the worker's hands, and a producer
    asleep on back-pressure for a queue that is not empty or a request the worker
    holds, unless [clear_pending] is about to notify them. *)
Theorem no_lost_wakeup hw ls s :
  run ls (empty_queue hw) = Some s -> countable_history s ->
  (worker_ s = Sleeping -> queue_ s = [] /\ (running_ s = true \/ at_pc StopNotify s)) /\
  (at_pc DrainAsleep s -> queue_ s <> [] \/ in_flight s <> [] \/ at_pc ClearNotify s) /\
  (forall r, at_pc (EnqueueAsleep r) s -> queue_ s <> [] \/ in_flight s <> [] \/ at_pc ClearNotify s).
Proof.
  intros Hr Hb. assert (Hi : queue_inv s /\ wake_inv s).
  { eapply (run_preserves (fun s => queue_inv s /\ wake_inv s)); [|done| |exact Hr].
    - intros l s1 s2 Hb1 Hb2 E [Hq Hw]. split; [by apply (step_inv l s1 s2) | by apply (step_wake_inv l s1 s2)].
    - split; [apply empty_inv|]. split; [done|intros [t H]|intros r [t H]]; cbn in H; by rewrite lookup_empty in H. }
  destruct Hi as [Hq [H1 H2 H3]]. split; [done|]. split; [|done].
  intros Ha. destruct (H2 Ha) as [?|[Hp|?]]; [by left| |by right; right].
  rewrite (qi_pending _ Hq) in Hp. destruct (queue_ s), (in_flight s); cbn in Hp; auto.
Qed.

(** ** The worker empties the queue *)

(** [n] steps of the worker in a row. *)
Definition work (n : nat) (s : WriteBackQueue) : option WriteBackQueue := run (replicate n Work) s.

(** What a request that is written successfully leaves in the history. *)
Definition success_events (r : WriteRequest) : list event :=
  [EvTaken (request_id r); EvExecuted (request_id r) true (execute_request r).2]
  ++ (if on_complete_ r then [EvCompleted (request_id r)] else []).

(** One request: taken, executed, accounted for. *)
Lemma worker_cycle r q s :
  exited_ s = false -> worker_ s = Evaluating -> queue_ s = r :: q -> (execute_request r).1 = true ->
  exists s', work 3 s = Some s' /\ queue_ s' = q /\ pending_ s' = u64 (pending_ s - 1) /\
    worker_ s' = Evaluating /\ exited_ s' = false /\ events_ s' = events_ s ++ success_events r.
Proof.
  intros Hx Hw Hq Hok. unfold work, success_events.
  destruct (execute_request r) as [ok n] eqn:Ex. cbn in Hok. subst ok.
  assert (Hs : forall s, exited_ s = false -> step Work s = worker_step s) by (intros ? H; unfold step; by rewrite H).
  cbn [run replicate]. rewrite Hs by done. unfold worker_step at 1. rewrite Hw, Hq. cbn [mbind option_bind].
  rewrite Hs by done. unfold worker_step at 1. cbn [worker_ set_field set_worker_WriteBackQueue].
  cbn. unfold run_request. rewrite Ex. cbn. rewrite Hs by done. cbn.
  destruct q; cbn; (eexists; split; [done|]); cbn; (split_and!; try done);
    rewrite <- !app_assoc; by destruct (on_complete_ r).
Qed.

Lemma run_app ls ls' s : run (ls ++ ls') s = run ls s ≫= run ls'.
Proof. revert s. induction ls as [|l ls IH]; intros s; cbn; [done|]. destruct (step l s); cbn; [apply IH | done]. Qed.

Lemma work_add n m s : work (n + m) s = work n s ≫= work m.
Proof. unfold work. by rewrite replicate_add, run_app. Qed.

Lemma work_queue q s :
  exited_ s = false -> worker_ s = Evaluating -> queue_ s = q ->
  Forall (fun r => (execute_request r).1 = true) q ->
  pending_ s = Z.of_nat (length q) -> Z.of_nat (length q) < 2 ^ 64 ->
  exists s', work (3 * length q) s = Some s' /\ queue_ s' = [] /\ pending_ s' = 0 /\
    worker_ s' = Evaluating /\ events_ s' = events_ s ++ concat (success_events <$> q).
Proof.
  revert s. induction q as [|r q IH]; intros s Hx Hw Hq Hok Hp Hb.
  { exists s. cbn. by rewrite app_nil_r. }
  apply Forall_cons in Hok as [Hr Hok].
  destruct (worker_cycle r q s Hx Hw Hq Hr) as (s1 & E1 & Hq1 & Hp1 & Hw1 & Hx1 & He1).
  rewrite Hp, u64_small in Hp1 by (cbn [length] in *; lia).
  destruct (IH s1 Hx1 Hw1 Hq1 Hok) as (s2 & E2 & H2 & H3 & H4 & H5); [cbn [length] in *; lia..|].
  exists s2. split.
  - replace (3 * length (r :: q))%nat with (3 + 3 * length q)%nat by (cbn [length]; lia).
    rewrite work_add, E1. exact E2.
  - split_and!; try done. rewrite H5, He1. cbn [fmap list_fmap concat]. by rewrite <- app_assoc.
Qed.

(** The worker, left alone, writes out the whole queue: when every queued
    request succeeds within its retries, three steps per request leave the queue
    empty, with every request executed in order and its completion callback
    called, nothing pending, and the worker ready for more. *)
Theorem worker_empties_queue hw ls s :
  run ls (empty_queue hw) = Some s -> countable_history s -> exited_ s = false -> worker_ s = Evaluating ->
  Forall (fun r => (execute_request r).1 = true) (queue_ s) ->
  exists s', work (3 * length (queue_ s)) s = Some s' /\
    queue_ s' = [] /\ pending_ s' = 0 /\ worker_ s' = Evaluating /\
    events_ s' = events_ s ++ concat (success_events <$> queue_ s).
Proof.
  intros Hr Hb Hx Hw Hok. destruct (reachable_inv _ _ _ Hr Hb) as [_ _ H3 H4].
  unfold in_flight in *. rewrite Hw in *. unfold countable_history in Hb. cbn [length] in *.
  apply work_queue; try done; lia.
Qed.

Lemma attempts_calls retries a r : (1 <= (attempts retries a r).2 <= S retries)%nat.
Proof.
  revert a. induction retries as [|n IH]; intros a; cbn; destruct (execute_ r a); cbn; try lia.
  specialize (IH (S a)). destruct (attempts n (S a) r). cbn in *. lia.
Qed.

Lemma attempts_ok retries a r :
  (attempts retries a r).1 = true <->
  exists n, (n <= retries)%nat /\ execute_ r (a + n) = ExecOk /\
    forall m, (m < n)%nat -> execute_ r (a + m) = ExecFailed.
Proof.
  revert a. induction retries as [|k IH]; intros a; cbn; destruct (execute_ r a) eqn:Ea; cbn;
    try (split; [intros _; exists 0%nat; rewrite Nat.add_0_r; split_and!; [lia|done|lia] | done]).
  all: try (split; [done|]; intros (n & Hn & Hok & Hf); destruct n as [|n];
    [rewrite Nat.add_0_r in Hok | specialize (Hf 0%nat); rewrite Nat.add_0_r in Hf; rewrite Hf in Ea by lia];
    first [congruence | lia]).
  specialize (IH (S a)). destruct (attempts k (S a) r) as [ok n0]. cbn in *. rewrite IH. split.
  - intros (n & Hn & Hok & Hf). exists (S n). rewrite Nat.add_succ_r. split_and!; [lia|done|].
    intros [|m] Hm; [by rewrite Nat.add_0_r|]. rewrite Nat.add_succ_r. apply Hf. lia.
  - intros (n & Hn & Hok & Hf). destruct n as [|n]; [rewrite Nat.add_0_r in Hok; congruence|].
    exists n. rewrite Nat.add_succ_r in Hok. split_and!; [lia|done|].
    intros m Hm. specialize (Hf (S m)). rewrite Nat.add_succ_r in Hf. apply Hf. lia.
Qed.

(** A request is tried at most four times. It counts as written exactly when
    some attempt succeeds with only failures before it; then its completion
    callback is called. Otherwise its error callback is called and the process
    exits, unless it is exiting already. *)
Theorem request_outcome r s :
  let '(ok, calls) := execute_request r in
  (1 <= calls <= 4)%nat /\
  (ok = true <-> exists n, (n <= 3)%nat /\ execute_ r n = ExecOk /\
                   forall m, (m < n)%nat -> execute_ r m = ExecFailed) /\
  (ok = true -> exited_ (run_request r s) = exited_ s /\
     events_ (run_request r s) = events_ s ++ [EvExecuted (request_id r) true calls] ++
       (if on_complete_ r then [EvCompleted (request_id r)] else [])) /\
  (ok = false -> exited_ (run_request r s) = (if exit_initiated_ s then exited_ s else true) /\
     events_ (run_request r s) = events_ s ++ [EvExecuted (request_id r) false calls] ++
       (if on_error_ r then [EvError (request_id r)] else []) ++
       (if exit_initiated_ s then [] else [EvGracefulExit])).
Proof.
  pose proof (attempts_calls kMaxWriteBackRetries 0 r) as Hc.
  pose proof (attempts_ok kMaxWriteBackRetries 0 r) as Ho.
  unfold run_request. unfold execute_request in *. destruct (attempts _ 0 r) as [ok calls]. cbn in Hc, Ho.
  split; [done|]. split; [done|]. split; intros ->; cbn; [by rewrite <- app_assoc|].
  destruct (exit_initiated_ s); cbn; rewrite <- ?app_assoc, ?app_nil_r; done.
Qed.

(** ** Witnesses *)

(** A request that fails once and then succeeds. *)
Definition demo_request (id : N) : WriteRequest :=
  mkWriteRequest id (fun n => match n with O => ExecFailed | _ => ExecOk end) true true.

(** Two requests are queued, the worker takes the first, and a third thread
    starts to drain. *)
Definition demo_labels : list label :=
  [Enter 0 CallStart; Run 0; Run 0; Enter 0 (CallEnqueue (demo_request 1)); Run 0;
   Enter 0 (CallEnqueue (demo_request 2)); Run 0; Work; Enter 1 CallDrain; Run 1].

Definition demo_state : WriteBackQueue :=
  match run demo_labels (empty_queue 10) with Some s => s | None => empty_queue 10 end.

Lemma queue_fifo_exact_witness :
  accepted (events_ demo_state) = [1; 2]%N /\ pending_ demo_state = 2 /\
  accepted (events_ demo_state) = gone (events_ demo_state) ++ (request_id <$> queue_ demo_state).
Proof.
  split; [by vm_compute|]. split; [by vm_compute|].
  exact (proj1 (queue_fifo_exact 10 demo_labels demo_state ltac:(by vm_compute) ltac:(by vm_compute))).
Defined.

Lemma no_lost_wakeup_witness :
  at_pc DrainAsleep demo_state /\
  (queue_ demo_state <> [] \/ in_flight demo_state <> [] \/ at_pc ClearNotify demo_state).
Proof.
  assert (H : at_pc DrainAsleep demo_state) by (exists 1%nat; by vm_compute).
  split; [done|].
  exact (proj1 (proj2 (no_lost_wakeup 10 demo_labels demo_state ltac:(by vm_compute) ltac:(by vm_compute))) H).
Defined.

(** The worker finishes both requests, which wakes the draining thread. *)
Definition demo_drained : WriteBackQueue :=
  match run (demo_labels ++ replicate 5 Work) (empty_queue 10) with Some s => s | None => empty_queue 10 end.

Definition demo_returned : WriteBackQueue :=
  match step (Run 1) demo_drained with Some s => s | None => demo_drained end.

Lemma drain_returns_settled_witness :
  queue_ demo_returned = [] /\ executed (events_ demo_returned) = [1; 2]%N /\
  accepted (events_ demo_returned) = gone (events_ demo_returned).
Proof.
  destruct (drain_returns_settled 10 (demo_labels ++ replicate 5 Work) demo_drained 1 demo_returned
    ltac:(by vm_compute) ltac:(by vm_compute) ltac:(by vm_compute) ltac:(by vm_compute) ltac:(by vm_compute)) as (H1 & _ & H2 & _).
  split; [done|]. split; [by vm_compute | done].
Defined.

Definition demo_idle : WriteBackQueue :=
  match run (take 7 demo_labels) (empty_queue 10) with Some s => s | None => empty_queue 10 end.

Lemma worker_empties_queue_witness :
  exists s', work 6 demo_idle = Some s' /\ queue_ s' = [] /\ pending_ s' = 0.
Proof.
  destruct (worker_empties_queue 10 (take 7 demo_labels) demo_idle ltac:(by vm_compute) ltac:(by vm_compute)
    ltac:(by vm_compute) ltac:(by vm_compute) ltac:(repeat constructor)) as (s' & H1 & H2 & H3 & _).
  by exists s'.
Defined.
