(* ===== verification/ObjectCache.v ===== *)
(** The object cache (src/storage/cpp/object_cache.h): deserialized objects kept in
    memory under a byte budget, with eviction by a score of reads over age.

    Objects are type-erased: a value is a type tag with an object, and a read at
    another type misses.  Times are nanoseconds of the steady clock and are
    arguments; the code keeps them as seconds in [double], and the rounding of that
    conversion is not modelled.  Scores are compared as fractions.  The cache is
    traversed in the order of [map_to_list], and candidates of equal score are
    evicted in that order; the code leaves both orders to the standard library. *)

From stdpp Require Import base gmap strings list sorting option fin_maps.
From Stdlib Require Import ZArith Lia Permutation.
From S2P Require Import Prelude.

Open Scope Z_scope.

(** ** State *)

(** A [std::any] that holds a shared pointer: the tag of its type and the object. *)
Record any := mkAny { any_type : string; any_object : N }.

Record Entry := mkEntry {
  value_ : any;
  size_ : Z;
  last_access_ : Z;
  created_at_ : Z;
  read_count_ : Z
}.

Record Stats := mkStats {
  high_hits : Z;
  high_misses : Z;
  high_puts : Z;
  high_evictions : Z
}.

Record ObjectCache := mkObjectCache {
  high_ : gmap string Entry;
  high_bytes_ : Z;
  stats_ : Stats;
  max_bytes_ : Z;
  hard_limit_ : Z
}.

(** Nanoseconds. *)
Definition PROTECTION_SEC : Z := 30 * 10 ^ 9.
Definition min_age : Z := 10 ^ 6.

(** [configured] is the value of [read_cache_size], [None] when reading it
    throws. *)
Definition load_max_bytes (configured : option Z) : Z :=
  let cfg := match configured with Some n => u64 n | None => 0 end in
  if 0 <? cfg then cfg else 2 ^ 30.

Definition no_stats : Stats := mkStats 0 0 0 0.

Definition empty_cache (max_bytes : Z) : ObjectCache :=
  mkObjectCache ∅ 0 no_stats max_bytes (u64 (max_bytes + max_bytes / 2)).

(** ** Eviction *)

(** The denominator of the score. *)
Definition age (now : Z) (e : Entry) : Z := Z.max (now - last_access_ e) min_age.

(** [a.score(now) <= b.score(now)] *)
Definition score_le (now : Z) (a b : string * Entry) : Prop :=
  read_count_ a.2 * age now b.2 <= read_count_ b.2 * age now a.2.

#[export] Instance score_le_dec now : RelDecision (score_le now).
Proof. intros a b. unfold score_le. apply _. Defined.

(** Entries past the protection window, or all entries over the hard limit when
    there is none. *)
Definition candidates (now bytes hard_limit : Z) (cache : gmap string Entry) : list (string * Entry) :=
  let old := filter (fun ke => PROTECTION_SEC <= now - created_at_ ke.2) (map_to_list cache) in
  match old with
  | [] => if hard_limit <? bytes then map_to_list cache else []
  | _ => old
  end.

(** The loop over the sorted candidates: the cache, its bytes and the number of
    entries evicted. *)
Fixpoint evict_loop (max_bytes : Z) (cands : list (string * Entry)) (cache : gmap string Entry)
    (bytes evicted : Z) : gmap string Entry * Z * Z :=
  match cands with
  | [] => (cache, bytes, evicted)
  | (k, e) :: cands =>
      if bytes <=? max_bytes then (cache, bytes, evicted)
      else evict_loop max_bytes cands (delete k cache) (u64 (bytes - size_ e)) (u64 (evicted + 1))
  end.

Definition evict (now max_bytes hard_limit : Z) (cache : gmap string Entry) (bytes : Z) :
    gmap string Entry * Z * Z :=
  if bytes <=? max_bytes then (cache, bytes, 0)
  else evict_loop max_bytes (merge_sort (score_le now) (candidates now bytes hard_limit cache)) cache bytes 0.

(** ** Operations *)

Definition count_hit (s : Stats) : Stats :=
  mkStats (u64 (high_hits s + 1)) (high_misses s) (high_puts s) (high_evictions s).
Definition count_miss (s : Stats) : Stats :=
  mkStats (high_hits s) (u64 (high_misses s + 1)) (high_puts s) (high_evictions s).
Definition count_put (evicted : Z) (s : Stats) : Stats :=
  mkStats (high_hits s) (high_misses s) (u64 (high_puts s + 1)) (u64 (high_evictions s + evicted)).

Definition with_stats (f : Stats -> Stats) (c : ObjectCache) : ObjectCache :=
  mkObjectCache (high_ c) (high_bytes_ c) (f (stats_ c)) (max_bytes_ c) (hard_limit_ c).

Definition touch_entry (now : Z) (e : Entry) : Entry :=
  mkEntry (value_ e) (size_ e) now (created_at_ e) (s32 (read_count_ e + 1)).

(** A read at the type tagged [type]. *)
Definition get_high (type key : string) (now : Z) (c : ObjectCache) : option N * ObjectCache :=
  match high_ c !! key with
  | None => (None, with_stats count_miss c)
  | Some e =>
      if decide (any_type (value_ e) = type) then
        (Some (any_object (value_ e)),
         with_stats count_hit
           (mkObjectCache (<[key := touch_entry now e]> (high_ c)) (high_bytes_ c) (stats_ c)
              (max_bytes_ c) (hard_limit_ c)))
      else (None, with_stats count_miss c)
  end.

(** [now] is the clock when the entry is stored and [now'] when eviction looks. *)
Definition put_high (key : string) (obj : any) (size now now' : Z) (c : ObjectCache) : ObjectCache :=
  let bytes := match high_ c !! key with
    | Some e => u64 (high_bytes_ c - size_ e)
    | None => high_bytes_ c
    end in
  let cache := <[key := mkEntry obj size now now 1]> (high_ c) in
  let '(cache, bytes, evicted) := evict now' (max_bytes_ c) (hard_limit_ c) cache (u64 (bytes + size)) in
  mkObjectCache cache bytes (count_put evicted (stats_ c)) (max_bytes_ c) (hard_limit_ c).

Definition remove (key : string) (c : ObjectCache) : ObjectCache :=
  match high_ c !! key with
  | None => c
  | Some e =>
      mkObjectCache (delete key (high_ c)) (u64 (high_bytes_ c - size_ e)) (stats_ c) (max_bytes_ c)
        (hard_limit_ c)
  end.

Definition clear (c : ObjectCache) : ObjectCache :=
  mkObjectCache ∅ 0 no_stats (max_bytes_ c) (hard_limit_ c).

(** ** Accounting *)

Inductive cache_op :=
  | OpGet (type key : string) (now : Z)
  | OpPut (key : string) (obj : any) (size now now' : Z)
  | OpRemove (key : string)
  | OpClear.

Definition apply_op (o : cache_op) (c : ObjectCache) : ObjectCache :=
  match o with
  | OpGet type key now => (get_high type key now c).2
  | OpPut key obj size now now' => put_high key obj size now now' c
  | OpRemove key => remove key c
  | OpClear => clear c
  end.

Definition apply_ops (ops : list cache_op) (c : ObjectCache) : ObjectCache :=
  foldl (fun c o => apply_op o c) c ops.

Definition total_size (m : gmap string Entry) : Z := map_fold (fun _ e n => size_ e + n) 0 m.

Lemma total_insert k e m : m !! k = None -> total_size (<[k := e]> m) = size_ e + total_size m.
Proof. intros H. unfold total_size. rewrite map_fold_insert_L; [done|intros; lia|done]. Qed.

Lemma total_delete k e m : m !! k = Some e -> total_size m = size_ e + total_size (delete k m).
Proof. intros H. unfold total_size. rewrite (map_fold_delete_L _ _ k e m); [done|intros; lia|done]. Qed.

Lemma total_insert_any k e m :
  total_size (<[k := e]> m) = size_ e + total_size m - match m !! k with Some e' => size_ e' | None => 0 end.
Proof.
  destruct (m !! k) as [e'|] eqn:H; [|rewrite total_insert by done; lia].
  rewrite <- insert_delete_eq, total_insert by apply lookup_delete_eq.
  rewrite (total_delete k e' m H). lia.
Qed.

Lemma u64_add_l a b : u64 (u64 a + b) = u64 (a + b).
Proof. unfold u64. by rewrite Zplus_mod_idemp_l. Qed.

Lemma u64_sub_l a b : u64 (u64 a - b) = u64 (a - b).
Proof. unfold u64. by rewrite Zminus_mod_idemp_l. Qed.

(** Distinct entries of the cache. *)
Definition entries_of (m : gmap string Entry) (l : list (string * Entry)) : Prop :=
  NoDup l.*1 /\ forall k e, (k, e) ∈ l -> m !! k = Some e.

Lemma entries_of_delete k e l m :
  entries_of m ((k, e) :: l) -> m !! k = Some e /\ entries_of (delete k m) l.
Proof.
  intros [Hn Hin]. cbn in Hn. apply NoDup_cons in Hn as [Hk Hn]. split; [apply Hin; left|].
  split; [done|]. intros k' e' H. rewrite lookup_delete_ne; [apply Hin; by right|].
  intros <-. apply Hk. apply list_elem_of_fmap. by exists (k, e').
Qed.

Lemma evict_loop_bytes max_bytes l m bytes n :
  entries_of m l -> bytes = u64 (total_size m) ->
  let '(m', bytes', _) := evict_loop max_bytes l m bytes n in bytes' = u64 (total_size m').
Proof.
  revert m bytes n. induction l as [|[k e] l IH]; intros m bytes n Hl Hb; cbn; [done|].
  destruct (bytes <=? max_bytes); [done|]. destruct (entries_of_delete _ _ _ _ Hl) as [Hk Hl'].
  apply IH; [done|]. rewrite Hb, u64_sub_l, (total_delete k e m Hk). f_equal. lia.
Qed.

Lemma map_entries m : entries_of m (map_to_list m).
Proof. split; [apply NoDup_fst_map_to_list|]. intros k e H. by apply elem_of_map_to_list in H. Qed.

Lemma candidates_entries now bytes hard m : entries_of m (candidates now bytes hard m).
Proof.
  destruct (map_entries m) as [Hn Hin]. unfold candidates.
  assert (Hf : entries_of m (filter (fun ke => PROTECTION_SEC <= now - created_at_ ke.2) (map_to_list m))).
  { split; [|intros k e [_ H]%list_elem_of_filter; by apply Hin].
    eapply sublist_NoDup; [exact Hn|]. apply fmap_sublist, sublist_filter. }
  destruct (filter _ _); [|done]. destruct (hard <? bytes); [done|]. split; [constructor|]. set_solver.
Qed.

Lemma entries_of_sort now m l : entries_of m l -> entries_of m (merge_sort (score_le now) l).
Proof.
  intros [Hn Hin]. split; [by rewrite merge_sort_Permutation|].
  intros k e H. apply Hin. by rewrite merge_sort_Permutation in H.
Qed.

Definition accounted (c : ObjectCache) : Prop := high_bytes_ c = u64 (total_size (high_ c)).

Lemma put_accounted key obj size now now' c : accounted c -> accounted (put_high key obj size now now' c).
Proof.
  unfold accounted. intros Hc. unfold put_high. set (m := <[key := _]> (high_ c)).
  set (b := u64 (_ + size)).
  assert (Hb : b = u64 (total_size m)).
  { unfold b, m. rewrite total_insert_any, Hc. cbn. destruct (high_ c !! key);
      rewrite ?u64_sub_l, ?u64_add_l; f_equal; lia. }
  unfold evict. destruct (b <=? max_bytes_ c); [done|].
  pose proof (evict_loop_bytes (max_bytes_ c) _ m b 0
    (entries_of_sort now' _ _ (candidates_entries now' b (hard_limit_ c) m)) Hb) as H.
  by destruct (evict_loop _ _ _ _ _) as [[? ?] ?].
Qed.

(** The byte count of the cache is exactly the sum of the sizes of the
    entries it holds (in [size_t] arithmetic), after any sequence of reads,
    stores, evictions, removals and clears. *)
Theorem cache_accounting max_bytes ops :
  let c := apply_ops ops (empty_cache max_bytes) in high_bytes_ c = u64 (total_size (high_ c)).
Proof.
  cbv zeta. assert (H : accounted (empty_cache max_bytes)) by done. revert H.
  generalize (empty_cache max_bytes). unfold apply_ops.
  induction ops as [|o ops IH]; intros c Hc; [done|]. apply IH. clear IH.
  destruct o as [ty key now|key obj size now now'|key|]; cbn [apply_op].
  - unfold get_high. destruct (high_ c !! key) as [e|] eqn:E; [|done]. destruct (decide _); [|done].
    unfold accounted in *. cbn. rewrite total_insert_any, E. cbn. rewrite Hc. f_equal. lia.
  - by apply put_accounted.
  - unfold remove. destruct (high_ c !! key) as [e|] eqn:E; [|done]. unfold accounted in *. cbn.
    rewrite Hc, u64_sub_l, (total_delete key e _ E). f_equal. lia.
  - done.
Qed.

(** ** What eviction removes *)

Definition sizes_ok (m : gmap string Entry) : Prop :=
  (forall k e, m !! k = Some e -> 0 <= size_ e) /\ total_size m < 2 ^ 64.

Lemma total_nonneg m : (forall k e, m !! k = Some e -> 0 <= size_ e) -> 0 <= total_size m.
Proof.
  unfold total_size. induction m as [|k e m Hk Hf IH] using map_first_key_ind; intros Hm.
  { by rewrite map_fold_empty. }
  rewrite map_fold_insert_L; [|intros; lia|done].
  assert (0 <= size_ e) by (apply (Hm k); by rewrite lookup_insert_eq).
  assert (0 <= map_fold (fun _ e n => size_ e + n) 0 m); [|lia].
  apply IH. intros k' e' Hk'. apply (Hm k'). rewrite lookup_insert_ne; congruence.
Qed.

Lemma sizes_ok_delete k e m :
  sizes_ok m -> m !! k = Some e -> sizes_ok (delete k m) /\ u64 (total_size m - size_ e) = total_size (delete k m).
Proof.
  intros [Hn Hb] Hk. pose proof (total_delete k e m Hk) as Ht. assert (0 <= size_ e) by by eapply Hn.
  assert (Hd : forall k' e', delete k m !! k' = Some e' -> 0 <= size_ e').
  { intros k' e' [_ H']%lookup_delete_Some. by eapply Hn. }
  pose proof (total_nonneg _ Hd). split; [split; [done|lia]|]. rewrite u64_small; lia.
Qed.

Definition delete_all (l : list (string * Entry)) (m : gmap string Entry) : gmap string Entry :=
  foldl (fun m ke => delete ke.1 m) m l.

Lemma lookup_delete_all l m k :
  delete_all l m !! k = if decide (k ∈ l.*1) then None else m !! k.
Proof.
  unfold delete_all. revert m. induction l as [|[k' e] l IH]; intros m; [done|]. cbn [foldl fst fmap list_fmap].
  rewrite IH. destruct (decide (k = k')) as [->|Hne].
  - rewrite lookup_delete_eq, (decide_True (P := k' ∈ k' :: l.*1)) by left. by destruct (decide _).
  - rewrite lookup_delete_ne by done. destruct (decide (k ∈ l.*1)); [by rewrite decide_True by by right|].
    rewrite decide_False; [done|]. intros [?|?]%elem_of_cons; done.
Qed.

(** The loop evicts the shortest prefix of the candidates that brings the cache
    within the limit, or all of them. *)
Lemma evict_loop_spec max_bytes l m n :
  entries_of m l -> sizes_ok m ->
  exists pre post n', l = pre ++ post /\
    evict_loop max_bytes l m (total_size m) n = (delete_all pre m, total_size (delete_all pre m), n') /\
    (post = [] \/ total_size (delete_all pre m) <= max_bytes) /\
    (pre = [] \/ exists k e, (k, e) ∈ pre /\ max_bytes < total_size (delete_all pre m) + size_ e).
Proof.
  revert m n. induction l as [|[k e] l IH]; intros m n Hl Hm; cbn [evict_loop].
  { exists [], [], n. split_and!; auto. }
  destruct (Z.leb_spec (total_size m) max_bytes) as [Hle|Hgt].
  { exists [], ((k, e) :: l), n. split_and!; auto. }
  destruct (entries_of_delete _ _ _ _ Hl) as [Hk Hl']. destruct (sizes_ok_delete k e m Hm Hk) as [Hm' Hu].
  rewrite Hu. destruct (IH (delete k m) (u64 (n + 1)) Hl' Hm') as (pre & post & n' & -> & He & Hpost & Hpre).
  exists ((k, e) :: pre), post, n'. split; [done|]. split; [done|]. split; [done|]. right.
  destruct Hpre as [->|(k' & e' & Hin & Hmax)].
  - exists k, e. split; [left|]. cbn. rewrite (total_delete k e m Hk) in Hgt. lia.
  - exists k', e'. split; [by right | done].
Qed.

(** Whether an entry may be evicted. *)
Definition evictable (now bytes hard_limit : Z) (m : gmap string Entry) (e : Entry) : Prop :=
  PROTECTION_SEC <= now - created_at_ e \/
  (hard_limit < bytes /\ forall k' e', m !! k' = Some e' -> now - created_at_ e' < PROTECTION_SEC).

Lemma elem_candidates now bytes hard m k e :
  (k, e) ∈ candidates now bytes hard m <-> m !! k = Some e /\ evictable now bytes hard m e.
Proof.
  unfold candidates, evictable.
  assert (Hf : forall k e, (k, e) ∈ filter (fun ke => PROTECTION_SEC <= now - created_at_ ke.2) (map_to_list m) <->
                      m !! k = Some e /\ PROTECTION_SEC <= now - created_at_ e).
  { intros k' e'. rewrite list_elem_of_filter, elem_of_map_to_list. cbn. tauto. }
  destruct (filter _ _) as [|[k0 e0] l].
  - assert (Hy : forall k' e', m !! k' = Some e' -> now - created_at_ e' < PROTECTION_SEC).
    { intros k' e' H. destruct (Z.lt_ge_cases (now - created_at_ e') PROTECTION_SEC); [done|].
      assert (Hx : (k', e') ∈ ([] : list (string * Entry))) by (apply Hf; split; [done|lia]). by inversion Hx. }
    destruct (Z.ltb_spec hard bytes) as [Hlt|Hge].
    + rewrite elem_of_map_to_list. split; [|tauto]. intros H. split; [done|]. by right.
    + split; [intros H; by inversion H|]. intros [H [Ho|[? _]]]; [|lia]. specialize (Hy k e H). lia.
  - rewrite Hf. split; [tauto|]. intros [H [?|[_ Hy]]]; [done|]. split; [done|].
    destruct (proj1 (Hf k0 e0)) as [H0 H0']; [left|]. specialize (Hy _ _ H0). lia.
Qed.

#[export] Instance score_le_total now : Total (score_le now).
Proof. intros a b. unfold score_le. lia. Qed.

#[export] Instance score_le_trans now : Transitive (score_le now).
Proof.
  intros [? a] [? b] [? c]. unfold score_le, age, min_age. cbn. intros Hab Hbc.
  set (A := Z.max (now - last_access_ a) (10 ^ 6)) in *. set (B := Z.max (now - last_access_ b) (10 ^ 6)) in *.
  set (C := Z.max (now - last_access_ c) (10 ^ 6)) in *.
  assert (0 < A /\ 0 < B /\ 0 < C) as (? & ? & ?) by lia.
  apply (Z.mul_le_mono_pos_r _ _ B); [done|]. nia.
Qed.

(** A prefix of a list of entries, taken out of the cache. *)
Lemma delete_all_split m pre post k e :
  entries_of m (pre ++ post) ->
  (delete_all pre m !! k = Some e -> m !! k = Some e /\ ((k, e) ∈ pre ++ post -> (k, e) ∈ post)) /\
  (m !! k = Some e -> delete_all pre m !! k = None -> (k, e) ∈ pre).
Proof.
  intros [Hn Hin]. rewrite lookup_delete_all. destruct (decide (k ∈ pre.*1)) as [Hk|Hk].
  - split; [done|]. intros Hm _. apply list_elem_of_fmap in Hk as ([k0 e0] & ? & Hp). cbn in *. subst k0.
    assert (m !! k = Some e0) by (apply Hin, elem_of_app; by left). by simplify_eq.
  - split; [|congruence]. intros Hm. split; [done|]. intros [Hp|]%elem_of_app; [|done].
    destruct Hk. apply list_elem_of_fmap. by exists (k, e).
Qed.

(** What an eviction does to a cache whose sizes add up in [size_t]. It only
    removes entries, and keeps the byte count right; it stops within the limit or
    when nothing evictable is left; an entry is evicted only past its protection
    window, or when the hard limit is exceeded and every entry is protected, and
    no entry that survives and could have been evicted has a lower score; and it
    evicts no more than needed: putting back some evicted entry would exceed the
    limit. *)
Theorem evict_spec now max_bytes hard_limit m m' bytes' n :
  sizes_ok m -> evict now max_bytes hard_limit m (total_size m) = (m', bytes', n) ->
  let ok := evictable now (total_size m) hard_limit m in
  m' ⊆ m /\ bytes' = total_size m' /\
  (bytes' <= max_bytes \/ forall k e, m' !! k = Some e -> ~ ok e) /\
  (forall k e, m !! k = Some e -> m' !! k = None ->
     ok e /\ forall k' e', m' !! k' = Some e' -> ok e' -> score_le now (k, e) (k', e')) /\
  (m' = m \/ exists k e, m !! k = Some e /\ m' !! k = None /\ max_bytes < bytes' + size_ e).
Proof.
  intros Hm He ok. unfold evict in He. destruct (Z.leb_spec (total_size m) max_bytes) as [Hle|Hgt].
  { injection He as <- <- <-. split_and!; auto. congruence. }
  destruct (evict_loop_spec max_bytes (merge_sort (score_le now) (candidates now (total_size m) hard_limit m)) m 0)
    as (pre & post & n' & Hl & E & Hpost & Hpre); [apply entries_of_sort, candidates_entries | done|].
  rewrite E in He. injection He as <- <- <-. clear E.
  assert (Hc : forall k e, (k, e) ∈ pre ++ post <-> m !! k = Some e /\ ok e).
  { intros k e. rewrite <- Hl, sort_elem. apply elem_candidates. }
  assert (Hent : entries_of m (pre ++ post)) by (rewrite <- Hl; apply entries_of_sort, candidates_entries).
  assert (Hsort : StronglySorted (score_le now) (pre ++ post)) by (rewrite <- Hl; apply (sort_strongly (score_le now))).
  apply StronglySorted_app_inv in Hsort as (_ & _ & Hsort).
  pose proof (fun k e => delete_all_split m pre post k e Hent) as Hs. split_and!.
  - apply map_subseteq_spec. intros k e H. by apply Hs.
  - done.
  - destruct Hpost as [->|?]; [right | by left]. intros k e Hk Hok.
    destruct (proj1 (Hs k e) Hk) as [Hk' Hin]. assert (H : (k, e) ∈ ([] : list (string * Entry))) by by apply Hin, Hc.
    by inversion H.
  - intros k e Hk Hg. assert (Hp : (k, e) ∈ pre) by by apply (Hs k e). split; [apply (Hc k e), elem_of_app; by left|].
    intros k' e' Hk' Hok'. apply Hsort; [done|]. destruct (proj1 (Hs k' e') Hk') as [H Hin]. by apply Hin, Hc.
  - destruct Hpre as [->|(k & e & Hp & Hmax)]; [by left | right]. exists k, e.
    split; [apply Hc, elem_of_app; by left|]. split; [|done].
    rewrite lookup_delete_all, decide_True; [done|]. apply list_elem_of_fmap. by exists (k, e).
Qed.

(** The hard limit is not enforced while an unprotected entry exists: when the
    protected entries alone exceed it, they stay over it. *)
Lemma hard_limit_not_enforced now max_bytes hard_limit m m' bytes' n k0 e0 :
  sizes_ok m -> m !! k0 = Some e0 -> PROTECTION_SEC <= now - created_at_ e0 ->
  evict now max_bytes hard_limit m (total_size m) = (m', bytes', n) ->
  forall k e, m !! k = Some e -> now - created_at_ e < PROTECTION_SEC -> m' !! k = Some e.
Proof.
  intros Hm H0 Hold He k e Hk Hy. unfold evict in He. destruct (total_size m <=? max_bytes); [by simplify_eq|].
  destruct (evict_loop_spec max_bytes (merge_sort (score_le now) (candidates now (total_size m) hard_limit m)) m 0)
    as (pre & post & n' & Hl & E & _); [apply entries_of_sort, candidates_entries | done|].
  rewrite E in He. injection He as <- <- <-. rewrite lookup_delete_all, decide_False; [done|].
  intros ([k1 e1] & ? & Hin)%list_elem_of_fmap. cbn in *. subst k1.
  assert (Hc : (k, e1) ∈ candidates now (total_size m) hard_limit m).
  { apply (sort_elem (score_le now)). rewrite Hl. apply elem_of_app. by left. }
  apply elem_candidates in Hc as [Hk1 [Hc|[_ Hc]]]; simplify_eq; [lia|]. specialize (Hc _ _ H0). lia.
Qed.

(** ** Witness *)

Definition demo_entry (size last reads : Z) : Entry := mkEntry (mkAny "T" 1) size last 0 reads.

(** Three entries past their protection, of 10 bytes each, over a limit of 15. *)
Definition demo_cache : gmap string Entry :=
  {[ "a" := demo_entry 10 (10 * 10 ^ 9) 5; "b" := demo_entry 10 (20 * 10 ^ 9) 1; "c" := demo_entry 10 (39 * 10 ^ 9) 9 ]}.

Lemma demo_sizes_ok : sizes_ok demo_cache.
Proof.
  split; [|by vm_compute]. apply (bool_decide_eq_true_1 (map_Forall (fun _ e => 0 <= size_ e) demo_cache)).
  by vm_compute.
Qed.

Lemma evict_spec_witness :
  exists m' bytes' n, evict (40 * 10 ^ 9) 15 22 demo_cache (total_size demo_cache) = (m', bytes', n) /\
    m' !! "b" = None /\ m' !! "c" <> None /\ bytes' = total_size m'.
Proof.
  destruct (evict (40 * 10 ^ 9) 15 22 demo_cache (total_size demo_cache)) as [[m' bytes'] n] eqn:E.
  destruct (evict_spec _ _ _ _ _ _ _ demo_sizes_ok E) as (_ & Hb & _).
  assert (Hm : m' !! "b" = None /\ m' !! "c" <> None)
    by (clear Hb; vm_compute in E; injection E as <- <- <-; by vm_compute).
  exists m', bytes', n. destruct Hm as [H1 H2]. split; [done|]. split; [exact H1|]. split; [exact H2 | exact Hb].
Defined.
