(* ===== verification/NameHasher.v ===== *)
(** Names and ids of the design database (emir/design/cpp/ds_name_hasher.h).

    A hasher maps names to ids and back.  The direction name to id is a backend
    ([DSNameBackend], the C++ concept with its laws; the hash backend is an
    instance, the htrie backend wraps a third-party container and is any other
    instance).  The direction id to name has two forms: a pool of all characters
    with one slot per id, and, after [finalize_for_save], a compressed form in
    which the names are sorted, each stores only what follows the prefix it
    shares with its predecessor, and every 64th name is kept in full.  The file
    shows that the two forms hold the same names, that the two directions are
    inverse to each other, and that saving and loading restores both. *)

From stdpp Require Import base gmap list sorting fin_maps.
From Stdlib Require Import ZArith NArith Lia.
From coqutil Require Import Byte.
From S2P Require Import Prelude Bytes.

(** * Order on names

    [std::string_view::operator<]: unsigned bytes, a proper prefix first. *)
Fixpoint name_compare (a b : bytes) : comparison :=
  match a, b with
  | [], [] => Eq
  | [], _ => Lt
  | _, [] => Gt
  | x :: a', y :: b' =>
      match N.compare (Byte.to_N x) (Byte.to_N y) with
      | Eq => name_compare a' b'
      | c => c
      end
  end.

Definition name_lt (a b : bytes) : Prop := name_compare a b = Lt.
Definition name_le (a b : bytes) : Prop := name_compare a b <> Gt.

#[export] Instance name_lt_dec : RelDecision name_lt.
Proof. intros a b. unfold name_lt. apply _. Defined.
#[export] Instance name_le_dec : RelDecision name_le.
Proof. intros a b. unfold name_le. apply _. Defined.

#[export] Instance byte_countable : Countable byte.
Proof. apply (inj_countable Byte.to_N Byte.of_N). exact Byte.of_to_N. Defined.

Lemma to_N_inj x y : Byte.to_N x = Byte.to_N y -> x = y.
Proof. intros H%(f_equal Byte.of_N). rewrite !Byte.of_to_N in H. congruence. Qed.

Lemma name_compare_eq a b : name_compare a b = Eq <-> a = b.
Proof.
  revert b. induction a as [|x a IH]; intros [|y b]; cbn; try (split; congruence).
  destruct (N.compare_spec (Byte.to_N x) (Byte.to_N y)) as [E|E|E].
  - apply to_N_inj in E as ->. rewrite IH. split; congruence.
  - split; [done|]. intros [= -> ->]. lia.
  - split; [done|]. intros [= -> ->]. lia.
Qed.

Lemma name_compare_antisym a b : name_compare b a = CompOpp (name_compare a b).
Proof.
  revert b. induction a as [|x a IH]; intros [|y b]; cbn; try done.
  rewrite (N.compare_antisym (Byte.to_N x)).
  destruct (Byte.to_N x ?= Byte.to_N y)%N; cbn; auto.
Qed.

Lemma name_compare_trans a b c :
  name_compare a b = Lt -> name_compare b c = Lt -> name_compare a c = Lt.
Proof.
  revert b c. induction a as [|x a IH]; intros [|y b] [|z c]; cbn; try done.
  destruct (N.compare_spec (Byte.to_N x) (Byte.to_N y)) as [E1|E1|E1]; [|intros _|done];
    destruct (N.compare_spec (Byte.to_N y) (Byte.to_N z)) as [E2|E2|E2]; try done; intros;
    destruct (N.compare_spec (Byte.to_N x) (Byte.to_N z)) as [E3|E3|E3]; try lia; eauto.
Qed.

Lemma name_le_cases a b : name_le a b <-> name_lt a b \/ a = b.
Proof.
  unfold name_le, name_lt. rewrite <- name_compare_eq.
  destruct (name_compare a b); split; intros; destruct_or?; auto; congruence.
Qed.

#[export] Instance name_lt_irrefl : Irreflexive name_lt.
Proof. intros a. unfold complement, name_lt. by rewrite (proj2 (name_compare_eq a a) eq_refl). Qed.
#[export] Instance name_lt_trans : Transitive name_lt.
Proof. exact name_compare_trans. Qed.
#[export] Instance name_le_trans : Transitive name_le.
Proof.
  intros a b c. rewrite !name_le_cases. intros [H1| ->]; [|done]. intros [H2| <-]; [|by left].
  left. by transitivity b.
Qed.
#[export] Instance name_le_total : Total name_le.
Proof.
  intros a b. unfold name_le. rewrite (name_compare_antisym a b).
  destruct (name_compare a b); cbn; auto; by left.
Qed.

(** * Outcomes

    A C++ exception, the process exit of [MSG_FATAL_EXIT] with its message code,
    and what the language leaves undefined: an access outside a container, a
    signed overflow. *)
Inductive outcome (A : Type) :=
  | Ok (a : A)
  | LogicError
  | FatalExit (code : N)
  | Undefined.
Arguments Ok {_} _.
Arguments LogicError {_}.
Arguments FatalExit {_} _.
Arguments Undefined {_}.

#[export] Instance outcome_bind : MBind outcome := fun A B f o =>
  match o with
  | Ok a => f a
  | LogicError => LogicError
  | FatalExit c => FatalExit c
  | Undefined => Undefined
  end.

(** An [option] whose [None] is undefined behaviour. *)
Definition defined {A} (o : option A) : outcome A :=
  match o with Some a => Ok a | None => Undefined end.

Lemma outcome_bind_Ok {A B} (f : A -> outcome B) (o : outcome A) b :
  (o ≫= f) = Ok b <-> exists a, o = Ok a /\ f a = Ok b.
Proof.
  destruct o as [a| | |]; cbn; split; try done; try (by intros (? & ? & ?)); [by eauto|].
  by intros (? & [= ->] & ?).
Qed.

(** * Backends

    [DSNameBackendConcept] with what its comments promise.  [backend_map] is the
    finite map a backend stands for; [native_save] and [native_load] are the
    bridge that adds the backend's own image to a saved hasher: loading it either
    restores the backend or is refused, which leaves the empty one. *)
Class DSNameBackend (B : Type) := {
  backend_map : B -> gmap bytes N;
  backend_new : B;
  backend_insert : bytes -> N -> B -> B;
  backend_find : B -> bytes -> N -> N;
  backend_size : B -> nat;
  backend_clear : B -> B;
  backend_for_each : B -> list (bytes * N);
  native_save : B -> bytes;
  native_load : bytes -> B;
  backend_new_map : backend_map backend_new = ∅;
  backend_insert_map n i b : backend_map (backend_insert n i b) = <[n := i]> (backend_map b);
  backend_find_map b n inv : backend_find b n inv = default inv (backend_map b !! n);
  backend_size_map b : backend_size b = size (backend_map b);
  backend_clear_map b : backend_map (backend_clear b) = ∅;
  backend_for_each_map b : backend_for_each b ≡ₚ map_to_list (backend_map b);
  native_load_save b :
    backend_map (native_load (native_save b)) = backend_map b \/
    backend_map (native_load (native_save b)) = ∅;
}.
#[export] Hint Rewrite @backend_insert_map @backend_find_map @backend_size_map
  @backend_clear_map @backend_new_map : backend.

(** [DSHasherBackendHash]: an [unordered_map], with an empty native image. *)
Definition DSHasherBackendHash := gmap bytes N.

#[export] Instance hash_backend : DSNameBackend DSHasherBackendHash.
Proof.
  refine {|
    backend_map b := b;
    backend_new := ∅ : gmap bytes N;
    backend_insert n i b := <[n := i]> b;
    backend_find b n inv := default inv (b !! n);
    backend_size b := size b;
    backend_clear _ := ∅;
    backend_for_each b := map_to_list b;
    native_save _ := [];
    native_load _ := ∅ |}; try done.
  intros b. by right.
Defined.

(** * The hasher *)

Record DSNameSlot := { slot_offset : nat; slot_length : nat }.
Definition empty_slot : DSNameSlot := {| slot_offset := 0; slot_length := 0 |}.

Record DSSuffixSlot := { suffix_offset : nat; suffix_length : nat; lcp_len : nat }.

Inductive DSNameHasherForm := ARENA | LCP.
#[export] Instance form_eq_dec : EqDecision DSNameHasherForm.
Proof. solve_decision. Defined.

(** [static_cast<uint32_t>] of a container size. *)
Definition cast_u32 (n : nat) : nat := Z.to_nat (u32 (Z.of_nat n)).

Lemma cast_u32_small n : (Z.of_nat n < 2 ^ 32)%Z -> cast_u32 n = n.
Proof. intros. unfold cast_u32. rewrite u32_small by lia. lia. Qed.

Definition kLcpCheckpoint : nat := 64.
Arguments kLcpCheckpoint : simpl never.
Definition kNoRank : N := 2 ^ 32 - 1.
Definition max_lcp : N := 2 ^ 16 - 1.

(** [std::string::resize]. *)
Definition string_resize (n : nat) (s : bytes) : bytes :=
  take n s ++ replicate (n - length s) Byte.x00.

(** The first index at which two names differ (the loop of [build_lcp_form]). *)
Fixpoint common_prefix (a b : bytes) : nat :=
  match a, b with
  | x :: a', y :: b' => if decide (x = y) then S (common_prefix a' b') else 0
  | _, _ => 0
  end.

Section hasher.
Context {B : Type} `{!DSNameBackend B}.
(** Bits of the id type: 32 or 64. *)
Context (w : N).

Record DSNameHasherT := {
  name_arena_ : bytes;
  name_table_ : list DSNameSlot;
  lcp_form_ : DSNameHasherForm;
  lcp_suffix_arena_ : bytes;
  lcp_suffix_table_ : list DSSuffixSlot;
  id_to_rank_ : list N;
  lcp_ckpt_arena_ : bytes;
  lcp_ckpt_offsets_ : list nat;
  backend_ : B;
}.

Definition new_hasher : DSNameHasherT :=
  {| name_arena_ := []; name_table_ := []; lcp_form_ := ARENA; lcp_suffix_arena_ := [];
     lcp_suffix_table_ := []; id_to_rank_ := []; lcp_ckpt_arena_ := []; lcp_ckpt_offsets_ := [];
     backend_ := backend_new |}.

Definition with_names (h : DSNameHasherT) arena table b : DSNameHasherT :=
  {| name_arena_ := arena; name_table_ := table; lcp_form_ := lcp_form_ h;
     lcp_suffix_arena_ := lcp_suffix_arena_ h; lcp_suffix_table_ := lcp_suffix_table_ h;
     id_to_rank_ := id_to_rank_ h; lcp_ckpt_arena_ := lcp_ckpt_arena_ h;
     lcp_ckpt_offsets_ := lcp_ckpt_offsets_ h; backend_ := b |}.

Definition kInvalidId : N := 2 ^ w - 1.
Definition is_valid_id (id : N) : bool := negb (id =? kInvalidId)%N.

Definition is_lcp_form (h : DSNameHasherT) : bool := bool_decide (lcp_form_ h = LCP).

Definition name_domain (h : DSNameHasherT) : nat :=
  match lcp_form_ h with LCP => length (id_to_rank_ h) | ARENA => length (name_table_ h) end.

Definition get_id (h : DSNameHasherT) (name : bytes) : N := backend_find (backend_ h) name kInvalidId.

Definition slot_name (arena : bytes) (s : DSNameSlot) : bytes :=
  slice (slot_offset s) (slot_length s) arena.

Definition name_view (h : DSNameHasherT) (id : nat) : bytes :=
  match name_table_ h !! id with Some s => slot_name (name_arena_ h) s | None => [] end.

(** The loop of [name_by_rank] over the ranks [i .. i+k-1]. *)
Fixpoint extend_name (h : DSNameHasherT) (k i : nat) (out : bytes) : option bytes :=
  match k with
  | O => Some out
  | S k' =>
      slot ← lcp_suffix_table_ h !! i;
      next ← lcp_suffix_table_ h !! S i;
      extend_name h k' (S i)
        (string_resize (lcp_len next)
           (out ++ slice (suffix_offset slot) (suffix_length slot) (lcp_suffix_arena_ h)))
  end.

Definition name_by_rank (h : DSNameHasherT) (r : nat) : option bytes :=
  let rem := (r `mod` kLcpCheckpoint)%nat in
  let k0 := (r / kLcpCheckpoint)%nat in
  from ← lcp_ckpt_offsets_ h !! k0;
  if decide (rem = 0%nat) then
    upto ← lcp_ckpt_offsets_ h !! S k0;
    Some (slice from (upto - from) (lcp_ckpt_arena_ h))
  else
    let c := (r - rem)%nat in
    first ← lcp_suffix_table_ h !! S c;
    out ← extend_name h (r - S c) (S c) (slice from (lcp_len first) (lcp_ckpt_arena_ h));
    last ← lcp_suffix_table_ h !! r;
    Some (out ++ slice (suffix_offset last) (suffix_length last) (lcp_suffix_arena_ h)).

(** [None]: the id is outside the domain (an assertion of the code). *)
Definition get_name (h : DSNameHasherT) (id : N) : option bytes :=
  match lcp_form_ h with
  | LCP =>
      rank ← id_to_rank_ h !! N.to_nat id;
      if decide (rank = kNoRank) then Some [] else name_by_rank h (N.to_nat rank)
  | ARENA => slot_name (name_arena_ h) <$> name_table_ h !! N.to_nat id
  end.

(** The slot of a name appended to the character pool. *)
Definition append_slot (h : DSNameHasherT) (name : bytes) : DSNameSlot :=
  {| slot_offset := length (name_arena_ h); slot_length := cast_u32 (length name) |}.

Definition emplace (name : bytes) (h : DSNameHasherT) : outcome (DSNameHasherT * N) :=
  if is_lcp_form h then LogicError else
  let existing := backend_find (backend_ h) name kInvalidId in
  if is_valid_id existing then Ok (h, existing) else
  let id := (N.of_nat (length (name_table_ h)) mod 2 ^ w)%N in
  Ok (with_names h (name_arena_ h ++ name) (name_table_ h ++ [append_slot h name])
        (backend_insert name id (backend_ h)), id).

(** The table of [assign] without the name's old slot, and grown to hold [id]. *)
Definition clear_old (h : DSNameHasherT) (name : bytes) (id : N) : list DSNameSlot :=
  let old := backend_find (backend_ h) name kInvalidId in
  if is_valid_id old && negb (old =? id)%N && (old <? N.of_nat (length (name_table_ h)))%N
  then <[N.to_nat old := empty_slot]> (name_table_ h) else name_table_ h.

Definition grow_table (id : N) (table : list DSNameSlot) : list DSNameSlot :=
  if (N.of_nat (length table) <=? id)%N
  then resize (N.to_nat ((id + 1) mod 2 ^ w)) empty_slot table else table.

Definition assign (name : bytes) (id : N) (h : DSNameHasherT) : outcome DSNameHasherT :=
  if is_lcp_form h then LogicError else
  let table := grow_table id (clear_old h name id) in
  if (id <? N.of_nat (length table))%N then
    Ok (with_names h (name_arena_ h ++ name) (<[N.to_nat id := append_slot h name]> table)
          (backend_insert name id (backend_ h)))
  else Undefined.

Definition hasher_size (h : DSNameHasherT) : nat := backend_size (backend_ h).
Definition for_each (h : DSNameHasherT) : list (bytes * N) := backend_for_each (backend_ h).

(** ** The compressed form *)

Definition by_name (h : DSNameHasherT) (a b : nat) : Prop := name_le (name_view h a) (name_view h b).

#[local] Instance by_name_dec h : RelDecision (by_name h) := fun a b => name_le_dec _ _.

(** The ids with a name, and those ids in the order of their names. *)
Definition registered (h : DSNameHasherT) : list nat :=
  filter (fun id => from_option slot_length 0 (name_table_ h !! id) <> 0)
    (seq 0 (length (name_table_ h))).

Definition name_order (h : DSNameHasherT) : list nat := merge_sort (by_name h) (registered h).

(** [id_to_rank_[order[r]] = r] for the ranks from [r] on. *)
Fixpoint set_ranks (r : nat) (order : list nat) (ranks : list N) : list N :=
  match order with
  | [] => ranks
  | id :: order' => set_ranks (S r) order' (<[id := N.of_nat r]> ranks)
  end.

(** One suffix slot per name; [None] when a shared prefix does not fit 16 bits. *)
Fixpoint build_slots (prev : option bytes) (total : nat) (names : list bytes)
  : option (list DSSuffixSlot) :=
  match names with
  | [] => Some []
  | cur :: names' =>
      let l := match prev with Some p => common_prefix p cur | None => 0 end in
      if (max_lcp <? N.of_nat l)%N then None else
      slots ← build_slots (Some cur) (total + (length cur - l)) names';
      Some ({| suffix_offset := total; suffix_length := cast_u32 (length cur - l);
               lcp_len := l |} :: slots)
  end.

Definition append_suffixes (slots : list DSSuffixSlot) (names : list bytes) : bytes :=
  concat (zip_with (fun s name => drop (lcp_len s) name) slots names).

(** The names of ranks 0, 64, 128, ... *)
Definition checkpoint_names (names : list bytes) : list bytes :=
  omap (fun k => names !! (kLcpCheckpoint * k)%nat)
    (seq 0 ((length names + (kLcpCheckpoint - 1)) / kLcpCheckpoint)).

Fixpoint append_checkpoints (names : list bytes) (arena : bytes) (offsets : list nat)
  : bytes * list nat :=
  match names with
  | [] => (arena, offsets ++ [length arena])
  | name :: names' => append_checkpoints names' (arena ++ name) (offsets ++ [length arena])
  end.

Definition build_lcp_form (h : DSNameHasherT) : outcome DSNameHasherT :=
  let order := name_order h in
  if (kNoRank <? N.of_nat (length order))%N then LogicError else
  let names := name_view h <$> order in
  match build_slots None 0 names with
  | None => LogicError
  | Some slots =>
      let '(ckpt_arena, ckpt_offsets) :=
        append_checkpoints (checkpoint_names names) (lcp_ckpt_arena_ h) (lcp_ckpt_offsets_ h) in
      Ok {| name_arena_ := name_arena_ h; name_table_ := name_table_ h; lcp_form_ := lcp_form_ h;
            lcp_suffix_arena_ := lcp_suffix_arena_ h ++ append_suffixes slots names;
            lcp_suffix_table_ := slots;
            id_to_rank_ := set_ranks 0 order (replicate (length (name_table_ h)) kNoRank);
            lcp_ckpt_arena_ := ckpt_arena; lcp_ckpt_offsets_ := ckpt_offsets;
            backend_ := backend_ h |}
  end.

Definition finalize_for_save (lcp_enabled : bool) (h : DSNameHasherT) : outcome DSNameHasherT :=
  if negb lcp_enabled || is_lcp_form h then Ok h else
  h' ← build_lcp_form h;
  Ok {| name_arena_ := []; name_table_ := []; lcp_form_ := LCP;
        lcp_suffix_arena_ := lcp_suffix_arena_ h'; lcp_suffix_table_ := lcp_suffix_table_ h';
        id_to_rank_ := id_to_rank_ h'; lcp_ckpt_arena_ := lcp_ckpt_arena_ h';
        lcp_ckpt_offsets_ := lcp_ckpt_offsets_ h'; backend_ := backend_ h' |}.

(** The inverse of [id_to_rank_], from index [id] on; [None] for a rank outside
    the table. *)
Fixpoint set_ids (id : N) (ranks : list N) (ids : list N) : option (list N) :=
  match ranks with
  | [] => Some ids
  | r :: ranks' =>
      if decide (r = kNoRank) then set_ids (id + 1) ranks' ids
      else if (r <? N.of_nat (length ids))%N then set_ids (id + 1) ranks' (<[N.to_nat r := id]> ids)
      else None
  end.

Definition rank_to_id (h : DSNameHasherT) : option (list N) :=
  set_ids 0 (id_to_rank_ h) (replicate (length (lcp_suffix_table_ h)) kInvalidId).

(** The ids with their names, in the order of the ranks. *)
Definition ranked_names (h : DSNameHasherT) : option (list (N * bytes)) :=
  ids ← rank_to_id h;
  mapM (fun p => name ← name_by_rank h (fst p); Some (snd p, name)) (imap pair ids).

Definition named_ids (h : DSNameHasherT) (ids : list nat) : list (N * bytes) :=
  (fun id => (N.of_nat id, name_view h id)) <$> ids.

(** The calls [fn(id, name)], in order. *)
Definition for_each_name_by_rank (h : DSNameHasherT) : option (list (N * bytes)) :=
  match lcp_form_ h with
  | LCP => ranked_names h
  | ARENA => Some (named_ids h (name_order h))
  end.

Definition insert_pair (b : B) (p : N * bytes) : B := backend_insert (snd p) (fst p) b.

Definition rebuild_backend (h : DSNameHasherT) : option B :=
  foldl insert_pair (backend_clear (backend_ h)) <$>
  match lcp_form_ h with
  | LCP => ranked_names h
  | ARENA => Some (named_ids h (registered h))
  end.

(** ** Saving and loading *)

Inductive AuthSegment :=
  | ArenaSegment (arena : bytes) (table : list DSNameSlot)
  | LcpSegment (suffix_arena : bytes) (suffix_table : list DSSuffixSlot) (ranks : list N)
      (ckpt_arena : bytes) (ckpt_offsets : list nat).

Record HasherImage := { image_auth : AuthSegment; image_count : nat; image_native : bytes }.

Definition save_hasher (h : DSNameHasherT) : HasherImage :=
  {| image_auth :=
       match lcp_form_ h with
       | ARENA => ArenaSegment (name_arena_ h) (name_table_ h)
       | LCP => LcpSegment (lcp_suffix_arena_ h) (lcp_suffix_table_ h) (id_to_rank_ h)
                  (lcp_ckpt_arena_ h) (lcp_ckpt_offsets_ h)
       end;
     image_count := backend_size (backend_ h);
     image_native := native_save (backend_ h) |}.

(** The fields read from an image into a new hasher. *)
Definition read_fields (im : HasherImage) : DSNameHasherT :=
  let b := native_load (image_native im) in
  match image_auth im with
  | ArenaSegment arena table =>
      {| name_arena_ := arena; name_table_ := table; lcp_form_ := ARENA; lcp_suffix_arena_ := [];
         lcp_suffix_table_ := []; id_to_rank_ := []; lcp_ckpt_arena_ := []; lcp_ckpt_offsets_ := [];
         backend_ := b |}
  | LcpSegment sa st ranks ca co =>
      {| name_arena_ := []; name_table_ := []; lcp_form_ := LCP; lcp_suffix_arena_ := sa;
         lcp_suffix_table_ := st; id_to_rank_ := ranks; lcp_ckpt_arena_ := ca;
         lcp_ckpt_offsets_ := co; backend_ := b |}
  end.

Definition with_backend (h : DSNameHasherT) (b : B) : DSNameHasherT :=
  with_names h (name_arena_ h) (name_table_ h) b.

(** DSGN::0012 when the counts do not match. *)
Definition corrupt_names : N := 12.

Definition check_ranks (h : DSNameHasherT) : outcome DSNameHasherT :=
  if is_lcp_form h && (length (id_to_rank_ h) <? backend_size (backend_ h))%nat
  then FatalExit corrupt_names else Ok h.

Definition load_hasher (im : HasherImage) : outcome DSNameHasherT :=
  let h := read_fields im in
  if (image_count im =? backend_size (backend_ h))%nat then check_ranks h else
  match rebuild_backend h with
  | None => Undefined
  | Some b =>
      if (image_count im =? backend_size b)%nat then check_ranks (with_backend h b)
      else FatalExit corrupt_names
  end.

(** ** Ranks of a list of names *)

Lemma common_prefix_le a b : common_prefix a b <= length a /\ common_prefix a b <= length b.
Proof.
  revert b. induction a as [|x a IH]; intros [|y b]; cbn; try lia.
  destruct (decide (x = y)); [|lia]. destruct (IH b). lia.
Qed.

Lemma common_prefix_take a b : take (common_prefix a b) a = take (common_prefix a b) b.
Proof.
  revert b. induction a as [|x a IH]; intros [|y b]; cbn; try done.
  destruct (decide (x = y)) as [->|]; [|done]. cbn. by rewrite IH.
Qed.

Definition short_names (names : list bytes) : Prop :=
  Forall (fun n => (Z.of_nat (length n) < 2 ^ 32)%Z) names.

(** What a slot says of the name at its rank, given the previous name. *)
Definition slot_ok (arena : bytes) (prev : option bytes) (s : DSSuffixSlot) (name : bytes) : Prop :=
  lcp_len s <= length name /\
  slice (suffix_offset s) (suffix_length s) arena = drop (lcp_len s) name /\
  forall p, prev = Some p -> take (lcp_len s) p = take (lcp_len s) name /\ lcp_len s <= length p.

Lemma build_slots_ok names prev total slots pre :
  short_names names -> build_slots prev total names = Some slots -> length pre = total ->
  length slots = length names /\
  forall r s name, slots !! r = Some s -> names !! r = Some name ->
  slot_ok (pre ++ append_suffixes slots names)
    (match r with O => prev | S r' => names !! r' end) s name.
Proof.
  revert prev total slots pre.
  induction names as [|cur names IH]; intros prev total slots pre Hshort Hb Hpre; cbn in Hb.
  { injection Hb as <-. split; [done|]. intros r s name Hs. by rewrite lookup_nil in Hs. }
  apply Forall_cons in Hshort as [Hcur Hshort].
  set (l := match prev with Some p => common_prefix p cur | None => 0 end) in *.
  destruct (_ <? _)%N; [done|].
  destruct (build_slots _ _ names) as [slots'|] eqn:Hb'; [|done]. injection Hb as <-.
  assert (l <= length cur) as Hl.
  { subst l. destruct prev; [apply common_prefix_le | lia]. }
  destruct (IH _ _ _ (pre ++ drop l cur) Hshort Hb') as [Hlen Hok].
  { rewrite length_app, length_drop. lia. }
  assert (forall rest, pre ++ append_suffixes ({| suffix_offset := total;
    suffix_length := rest; lcp_len := l |} :: slots') (cur :: names) =
    (pre ++ drop l cur) ++ append_suffixes slots' names) as Happ.
  { intros. unfold append_suffixes. cbn. by rewrite (assoc_L app). }
  split; [cbn; lia|]. intros [|r] s name Hs Hn; cbn in Hs, Hn.
  - injection Hs as <-. injection Hn as <-. rewrite Happ. unfold slot_ok. cbn.
    rewrite cast_u32_small by lia. split; [done|]. split.
    + rewrite <- (assoc_L app). apply slice_mid; [done|]. by rewrite length_drop.
    + intros p ->. subst l. split; [apply common_prefix_take | apply common_prefix_le].
  - rewrite Happ. specialize (Hok r s name Hs Hn). by destruct r.
Qed.

Lemma append_checkpoints_ok names arena offsets arena' offsets' :
  append_checkpoints names arena offsets = (arena', offsets') ->
  (exists rest, arena' = arena ++ rest) /\ (exists rest, offsets' = offsets ++ rest) /\
  offsets' !! length offsets = Some (length arena) /\
  forall k name, names !! k = Some name -> exists o,
  offsets' !! (length offsets + k) = Some o /\
  offsets' !! S (length offsets + k) = Some (o + length name) /\
  forall n, n <= length name -> slice o n arena' = take n name.
Proof.
  revert arena offsets. induction names as [|cur names IH]; intros arena offsets Ha; cbn in Ha.
  { injection Ha as <- <-. split; [by exists []; rewrite app_nil_r|]. split; [by eexists|].
    split; [by rewrite lookup_app_r, Nat.sub_diag|]. intros k name. by rewrite lookup_nil. }
  destruct (IH _ _ Ha) as ((r1 & ->) & (r2 & ->) & H1 & H2).
  rewrite length_app in H1, H2. cbn in H1, H2. rewrite length_app in H1.
  split; [eexists; by rewrite <- (assoc_L app)|].
  split; [eexists; by rewrite <- (assoc_L app)|].
  assert (((offsets ++ [length arena]) ++ r2) !! length offsets = Some (length arena)) as H0.
  { rewrite lookup_app_l by (rewrite length_app; cbn; lia).
    by rewrite lookup_app_r, Nat.sub_diag. }
  split; [done|]. intros [|k] name Hk; cbn in Hk.
  - injection Hk as <-. exists (length arena). rewrite Nat.add_0_r. split; [done|].
    rewrite <- Nat.add_1_r. split; [done|]. intros n Hn. rewrite <- (assoc_L app).
    rewrite slice_skip by lia. rewrite Nat.sub_diag. unfold slice. rewrite drop_0.
    by rewrite take_app_le.
  - destruct (H2 k name Hk) as (o & Ho & Ho' & Hsl). exists o.
    by rewrite <- Nat.add_succ_comm, <- (Nat.add_1_r (length offsets)).
Qed.

Lemma checkpoint_names_lookup names k :
  kLcpCheckpoint * k < length names -> checkpoint_names names !! k = names !! (kLcpCheckpoint * k).
Proof.
  intros Hk. unfold checkpoint_names.
  set (m := (length names + (kLcpCheckpoint - 1)) / kLcpCheckpoint).
  assert (forall i n, (forall j, i <= j < i + n -> kLcpCheckpoint * j < length names) ->
    forall j, j < n -> omap (fun k => names !! (kLcpCheckpoint * k)) (seq i n) !! j =
    names !! (kLcpCheckpoint * (i + j))) as Hgen.
  { intros i n. revert i. induction n as [|n IH]; intros i Hb j Hj; [lia|]. cbn [seq omap list_omap].
    destruct (lookup_lt_is_Some_2 names (kLcpCheckpoint * i)) as [x Hx]; [apply Hb; lia|].
    cbn. rewrite Hx. destruct j as [|j]; cbn; [by rewrite Nat.add_0_r|].
    rewrite IH; [f_equal; lia | intros; apply Hb; lia | lia]. }
  assert (m = (length names + 63) / 64) as Em by done.
  assert (kLcpCheckpoint = 64) as E64 by done.
  rewrite Hgen; [done| |].
  - intros j Hj. rewrite Em in Hj. rewrite E64 in *.
    pose proof (Nat.Div0.mul_div_le (length names + 63) 64). nia.
  - rewrite Em. rewrite E64 in Hk. pose proof (Nat.Div0.div_mod (length names + 63) 64).
    pose proof (Nat.mod_upper_bound (length names + 63) 64). lia.
Qed.

(** The tables built from a list of names. *)
Definition tables_of (h : DSNameHasherT) (names : list bytes) : Prop :=
  build_slots None 0 names = Some (lcp_suffix_table_ h) /\
  lcp_suffix_arena_ h = append_suffixes (lcp_suffix_table_ h) names /\
  append_checkpoints (checkpoint_names names) [] [] = (lcp_ckpt_arena_ h, lcp_ckpt_offsets_ h).

Lemma string_resize_take n s : n <= length s -> string_resize n s = take n s.
Proof.
  intros. unfold string_resize. replace (n - length s) with 0 by lia. apply app_nil_r.
Qed.

Section ranks.
Context (h : DSNameHasherT) (names : list bytes).
Context (Hshort : short_names names) (Htab : tables_of h names).

Lemma rank_slot r (name : bytes) :
  names !! r = Some name -> exists s, lcp_suffix_table_ h !! r = Some s /\
  slot_ok (lcp_suffix_arena_ h) (match r with O => None | S r' => names !! r' end) s name.
Proof.
  destruct Htab as (Hb & Ha & _). intros Hr.
  destruct (build_slots_ok names None 0 _ [] Hshort Hb eq_refl) as [Hlen Hok].
  destruct (lookup_lt_is_Some_2 (lcp_suffix_table_ h) r) as [s Hs].
  { rewrite Hlen. by eapply lookup_lt_Some. }
  exists s. split; [done|]. rewrite Ha. by apply Hok.
Qed.

(** Appending the stored suffix to the shared prefix gives the name. *)
Lemma slot_ok_complete arena prev s name :
  slot_ok arena prev s name ->
  take (lcp_len s) name ++ slice (suffix_offset s) (suffix_length s) arena = name.
Proof. intros (_ & -> & _). apply take_drop. Qed.

Lemma extend_name_ok k i (name : bytes) s (last : bytes) lslot :
  names !! i = Some name -> lcp_suffix_table_ h !! i = Some s ->
  names !! (i + k) = Some last -> lcp_suffix_table_ h !! (i + k) = Some lslot ->
  extend_name h k i (take (lcp_len s) name) = Some (take (lcp_len lslot) last).
Proof.
  revert i name s. induction k as [|k IH]; intros i name s Hn Hs Hl Hls.
  { rewrite Nat.add_0_r in Hl, Hls. by simplify_eq. }
  cbn [extend_name]. rewrite Hs. cbn [mbind option_bind].
  destruct (lookup_lt_is_Some_2 names (S i)) as [next Hnext].
  { apply lookup_lt_Some in Hl. lia. }
  destruct (rank_slot (S i) next Hnext) as (s' & Hs' & Hok'). rewrite Hs'. cbn [mbind option_bind].
  destruct (rank_slot i name Hn) as (s0 & Hs0 & Hok). rewrite Hs in Hs0. injection Hs0 as <-.
  rewrite (slot_ok_complete _ _ _ _ Hok).
  destruct Hok' as (_ & _ & Hprev). destruct (Hprev name Hn) as [Htk Hle].
  rewrite string_resize_take by done. rewrite Htk.
  apply (IH (S i)); [done..| |]; by rewrite Nat.add_succ_comm.
Qed.

Lemma name_by_rank_ok r (name : bytes) : names !! r = Some name -> name_by_rank h r = Some name.
Proof.
  intros Hr. pose proof (lookup_lt_Some _ _ _ Hr) as Hlt.
  assert (kLcpCheckpoint = 64) as E64 by done.
  pose proof (Nat.Div0.div_mod r kLcpCheckpoint) as Hdm.
  pose proof (Nat.mod_upper_bound r kLcpCheckpoint ltac:(lia)) as Hub.
  set (k0 := r / kLcpCheckpoint) in *. set (rem := r `mod` kLcpCheckpoint) in *.
  destruct (lookup_lt_is_Some_2 names (kLcpCheckpoint * k0)) as [cname Hc]; [lia|].
  destruct Htab as (_ & _ & Hck).
  destruct (append_checkpoints_ok _ _ _ _ _ Hck) as (_ & _ & _ & Hoff). cbn in Hoff.
  destruct (Hoff k0 cname) as (o & Ho & Ho' & Hsl).
  { rewrite checkpoint_names_lookup by lia. done. }
  unfold name_by_rank. fold k0 rem. rewrite Ho. cbn [mbind option_bind].
  destruct (decide (rem = 0)) as [E|E].
  - rewrite Ho'. cbn [mbind option_bind]. rewrite Hsl by lia.
    rewrite take_ge by lia. replace r with (kLcpCheckpoint * k0) in Hr by lia. congruence.
  - replace (r - rem) with (kLcpCheckpoint * k0) by lia. set (c := kLcpCheckpoint * k0) in *.
    destruct (lookup_lt_is_Some_2 names (S c)) as [n1 Hn1]; [lia|].
    destruct (rank_slot (S c) n1 Hn1) as (s1 & Hs1 & Hok1). rewrite Hs1. cbn [mbind option_bind].
    destruct (rank_slot r name Hr) as (sl & Hl & Hokl).
    destruct Hok1 as (_ & _ & Hprev). destruct (Hprev cname Hc) as [Htk Hle].
    rewrite Hsl by done. rewrite Htk.
    rewrite (extend_name_ok (r - S c) (S c) n1 s1 name sl); [|done..| |];
      [|by replace (S c + (r - S c)) with r by lia..].
    cbn [mbind option_bind]. rewrite Hl. cbn [mbind option_bind].
    by rewrite (slot_ok_complete _ _ _ _ Hokl).
Qed.
End ranks.

(** ** Ranks of ids *)

Lemma length_set_ranks r order ranks : length (set_ranks r order ranks) = length ranks.
Proof.
  revert r ranks. induction order as [|i order IH]; intros r ranks; cbn; [done|].
  by rewrite IH, length_insert.
Qed.

Lemma set_ranks_other r order ranks id :
  id ∉ order -> set_ranks r order ranks !! id = ranks !! id.
Proof.
  revert r ranks. induction order as [|i order IH]; intros r ranks Hid; cbn; [done|].
  apply not_elem_of_cons in Hid as [Hne Hid]. rewrite IH by done.
  by rewrite list_lookup_insert_ne by done.
Qed.

Lemma set_ranks_here r order ranks k id :
  NoDup order -> order !! k = Some id -> id < length ranks ->
  set_ranks r order ranks !! id = Some (N.of_nat (r + k)).
Proof.
  revert r ranks k. induction order as [|i order IH]; intros r ranks k Hnd Hk Hlt; cbn; [done|].
  apply NoDup_cons in Hnd as [Hi Hnd]. destruct k as [|k]; cbn in Hk.
  - injection Hk as ->. rewrite set_ranks_other by done.
    rewrite list_lookup_insert_eq by done. by rewrite Nat.add_0_r.
  - rewrite (IH (S r) _ k) by (done || by rewrite length_insert). f_equal. lia.
Qed.

Lemma registered_NoDup h : NoDup (registered h).
Proof. apply NoDup_filter, NoDup_seq. Qed.

#[local] Instance by_name_trans h : Transitive (by_name h).
Proof. intros a b c. unfold by_name. apply transitivity. Qed.
#[local] Instance by_name_total h : Total (by_name h).
Proof. intros a b. apply (total name_le). Qed.

Lemma name_order_NoDup h : NoDup (name_order h).
Proof. apply sort_NoDup, registered_NoDup. Qed.

Lemma elem_of_registered h id :
  id ∈ registered h <-> exists s, name_table_ h !! id = Some s /\ slot_length s <> 0.
Proof.
  unfold registered. rewrite list_elem_of_filter, elem_of_seq. split.
  - intros [Hl Hi]. destruct (name_table_ h !! id) as [s|]; [by exists s | done].
  - intros (s & Hs & Hl). rewrite Hs. split; [done|]. apply lookup_lt_Some in Hs. lia.
Qed.

Lemma elem_of_name_order h id : id ∈ name_order h <-> id ∈ registered h.
Proof. unfold name_order. by rewrite sort_elem. Qed.

Lemma set_ids_spec (base : nat) ranks ids :
  Forall (fun r => r = kNoRank \/ (r < N.of_nat (length ids))%N) ranks ->
  exists ids', set_ids (N.of_nat base) ranks ids = Some ids' /\ length ids' = length ids /\
  (forall k, N.of_nat k <> kNoRank -> N.of_nat k ∉ ranks -> ids' !! k = ids !! k) /\
  (forall k j, N.of_nat k <> kNoRank -> ranks !! j = Some (N.of_nat k) ->
     (forall j', ranks !! j' = Some (N.of_nat k) -> j' = j) ->
     ids' !! k = Some (N.of_nat (base + j))).
Proof.
  revert base ids. induction ranks as [|r ranks IH]; intros base ids Hall.
  { exists ids. repeat split; try done. }
  apply Forall_cons in Hall as [Hr Hall]. cbn [set_ids].
  replace (N.of_nat base + 1)%N with (N.of_nat (S base)) by lia.
  destruct (decide (r = kNoRank)) as [->|Hne].
  - destruct (IH (S base) ids Hall) as (ids' & -> & Hlen & Hno & Hyes). exists ids'.
    split; [done|]. split; [done|]. split.
    + intros k Hk [_ Hin]%not_elem_of_cons. by apply Hno.
    + intros k [|j] Hk Hj Huniq; cbn in Hj; [congruence|].
      rewrite (Hyes k j) by (done || (intros j' Hj'; specialize (Huniq (S j') Hj'); lia)).
      f_equal. lia.
  - destruct Hr as [?|Hr]; [done|]. apply N.ltb_lt in Hr as Hr'. rewrite Hr'.
    destruct (IH (S base) (<[N.to_nat r:=N.of_nat base]> ids)) as (ids' & -> & Hlen & Hno & Hyes).
    { by rewrite length_insert. }
    rewrite length_insert in Hlen. exists ids'. split; [done|]. split; [done|]. split.
    + intros k Hk [Hrk Hin]%not_elem_of_cons. rewrite Hno by done.
      apply list_lookup_insert_ne. lia.
    + intros k [|j] Hk Hj Huniq; cbn in Hj.
      * injection Hj as ->. rewrite Hno; [| done |].
        -- rewrite Nat2N.id. rewrite list_lookup_insert_eq by lia. f_equal. lia.
        -- intros (j' & Hj')%list_elem_of_lookup. by specialize (Huniq (S j') Hj').
      * rewrite (Hyes k j) by (done || (intros j' Hj'; specialize (Huniq (S j') Hj'); lia)).
        f_equal. lia.
Qed.

(** ** Sealing a hasher *)

(** A hasher in arena form whose directions agree: [backend_] maps a name to an
    id exactly when the slot of the id holds the (non-empty) name. *)
Record arena_ok (h : DSNameHasherT) : Prop := {
  ok_form : lcp_form_ h = ARENA;
  ok_suffix : lcp_suffix_arena_ h = [];
  ok_ckpt : lcp_ckpt_arena_ h = [];
  ok_ckpts : lcp_ckpt_offsets_ h = [];
  ok_slots : Forall (fun s => slot_offset s + slot_length s <= length (name_arena_ h) /\
    (Z.of_nat (slot_length s) < 2 ^ 32)%Z) (name_table_ h);
  ok_domain : (N.of_nat (length (name_table_ h)) < 2 ^ w)%N;
  ok_map (n : bytes) i : backend_map (backend_ h) !! n = Some i <-> n <> [] /\ get_name h i = Some n;
}.

(** What [finalize_for_save] makes of [h]. *)
Record sealed_from (h h' : DSNameHasherT) : Prop := {
  sf_form : lcp_form_ h' = LCP;
  sf_tables : tables_of h' (name_view h <$> name_order h);
  sf_ranks : id_to_rank_ h' = set_ranks 0 (name_order h) (replicate (length (name_table_ h)) kNoRank);
  sf_count : (N.of_nat (length (name_order h)) <= kNoRank)%N;
  sf_backend : backend_ h' = backend_ h;
}.

Lemma finalize_sealed h h' :
  arena_ok h -> finalize_for_save true h = Ok h' -> sealed_from h h'.
Proof.
  intros Hok. destruct Hok as [Hf Hsa Hca Hco _ _ _]. unfold finalize_for_save, is_lcp_form.
  rewrite Hf. cbn [negb orb bool_decide]. rewrite bool_decide_false by done.
  unfold build_lcp_form. destruct (N.ltb_spec kNoRank (N.of_nat (length (name_order h)))); [done|].
  destruct (build_slots _ _ _) as [slots|] eqn:Hb; [|done].
  rewrite Hsa, Hca, Hco.
  destruct (append_checkpoints _ _ _) as [ca co] eqn:Hck. intros [= <-].
  by split.
Qed.

Lemma length_name_view h id :
  arena_ok h -> forall s, name_table_ h !! id = Some s -> length (name_view h id) = slot_length s.
Proof.
  intros Hok s Hs. unfold name_view, slot_name. rewrite Hs, length_slice.
  pose proof (proj1 (Forall_lookup _ _) (ok_slots h Hok) id s Hs) as [Hr _]. lia.
Qed.

Lemma ordered_names_short h : arena_ok h -> short_names (name_view h <$> name_order h).
Proof.
  intros Hok. apply Forall_fmap, Forall_forall. intros id (s & Hs & _)%elem_of_name_order%elem_of_registered.
  cbn. rewrite (length_name_view h id Hok s Hs).
  apply (proj1 (Forall_lookup _ _) (ok_slots h Hok) id s Hs).
Qed.

Section sealed.
Context (h h' : DSNameHasherT) (Hok : arena_ok h) (Hs : sealed_from h h').

Lemma sealed_rank k id :
  name_order h !! k = Some id ->
  id_to_rank_ h' !! id = Some (N.of_nat k) /\ N.of_nat k <> kNoRank.
Proof.
  intros Hk. pose proof (lookup_lt_Some _ _ _ Hk). pose proof (sf_count _ _ Hs).
  split; [|lia]. rewrite (sf_ranks _ _ Hs).
  rewrite (set_ranks_here 0 _ _ k id (name_order_NoDup h) Hk); [done|].
  rewrite length_replicate. apply list_elem_of_lookup_2, elem_of_name_order, elem_of_registered in Hk
    as (s & Hk & _). by apply lookup_lt_Some in Hk.
Qed.

Lemma sealed_no_rank id :
  id < length (name_table_ h) -> id ∉ name_order h -> id_to_rank_ h' !! id = Some kNoRank.
Proof.
  intros Hlt Hin. rewrite (sf_ranks _ _ Hs), set_ranks_other by done. by apply lookup_replicate_2.
Qed.

Lemma length_sealed_ranks : length (id_to_rank_ h') = length (name_table_ h).
Proof. rewrite (sf_ranks _ _ Hs), length_set_ranks. apply length_replicate. Qed.

Lemma sealed_name_by_rank k id :
  name_order h !! k = Some id -> name_by_rank h' k = Some (name_view h id).
Proof.
  intros Hk. apply (name_by_rank_ok h' (name_view h <$> name_order h));
    [by apply ordered_names_short | apply Hs |]. by rewrite list_lookup_fmap, Hk.
Qed.

Lemma get_name_sealed id : get_name h' id = get_name h id.
Proof.
  unfold get_name. rewrite (sf_form _ _ Hs), (ok_form _ Hok).
  destruct (name_table_ h !! N.to_nat id) as [s|] eqn:E; cbn [fmap option_fmap option_map].
  - destruct (decide (N.to_nat id ∈ name_order h)) as [Hin|Hin].
    + apply list_elem_of_lookup in Hin as [k Hk]. destruct (sealed_rank k _ Hk) as [-> Hne].
      cbn [mbind option_bind]. rewrite decide_False by done. rewrite Nat2N.id.
      rewrite (sealed_name_by_rank k _ Hk). unfold name_view. by rewrite E.
    + rewrite sealed_no_rank by (done || by eapply lookup_lt_Some). cbn [mbind option_bind].
      rewrite decide_True by done. f_equal. rewrite elem_of_name_order, elem_of_registered in Hin.
      unfold slot_name, slice. destruct (decide (slot_length s = 0)) as [->|]; [done|].
      destruct Hin. eauto.
  - rewrite lookup_ge_None_2; [done|]. rewrite length_sealed_ranks. by apply lookup_ge_None.
Qed.

Lemma rank_to_id_sealed : rank_to_id h' = Some (N.of_nat <$> name_order h).
Proof.
  destruct (sf_tables _ _ Hs) as (Hb & _ & _).
  destruct (build_slots_ok _ _ _ _ [] (ordered_names_short h Hok) Hb eq_refl) as [Hlen _].
  rewrite length_fmap in Hlen. unfold rank_to_id. rewrite Hlen.
  set (ids := replicate (length (name_order h)) kInvalidId).
  assert (forall j r, id_to_rank_ h' !! j = Some r -> r = kNoRank \/
    exists k, r = N.of_nat k /\ name_order h !! k = Some j) as Hrank.
  { intros j r Hj. destruct (decide (j ∈ name_order h)) as [Hin|Hin].
    - apply list_elem_of_lookup in Hin as [k Hk]. right. exists k.
      destruct (sealed_rank k j Hk) as [E _]. split; congruence.
    - left. rewrite sealed_no_rank in Hj; [congruence| |done].
      apply lookup_lt_Some in Hj. by rewrite length_sealed_ranks in Hj. }
  destruct (set_ids_spec 0 (id_to_rank_ h') ids) as (ids' & E & Hl' & _ & Hyes).
  { apply Forall_lookup. intros j r [?|(k & -> & Hk%lookup_lt_Some)]%Hrank; [by left|right].
    subst ids. rewrite length_replicate. lia. }
  change 0%N with (N.of_nat 0). rewrite E. f_equal. apply list_eq. intros k.
  rewrite list_lookup_fmap. destruct (name_order h !! k) as [id|] eqn:Hk; cbn.
  - destruct (sealed_rank k id Hk) as [Hr Hne]. rewrite (Hyes k id); [done|done|done|].
    intros j' [?|(k' & Ek & Hk')]%Hrank; [done|]. apply Nat2N.inj in Ek as <-. congruence.
  - apply lookup_ge_None. rewrite Hl'. subst ids. rewrite length_replicate.
    by apply lookup_ge_None.
Qed.

Lemma ranked_names_sealed : ranked_names h' = Some (named_ids h (name_order h)).
Proof.
  unfold ranked_names. rewrite rank_to_id_sealed. cbn [mbind option_bind].
  apply mapM_Some. apply Forall2_lookup. intros k. unfold named_ids.
  rewrite list_lookup_imap, !list_lookup_fmap.
  destruct (name_order h !! k) as [id|] eqn:Hk; cbn; constructor.
  cbn. by rewrite (sealed_name_by_rank k id Hk).
Qed.
End sealed.

(** ** Registration *)

Lemma new_hasher_ok : arena_ok new_hasher.
Proof.
  split; try done; [cbn; lia|]. intros n i. cbn. rewrite backend_new_map, lookup_empty.
  unfold get_name. cbn. rewrite lookup_nil. cbn. split; [done|]. by intros [_ ?].
Qed.

Lemma arena_get_name h i :
  lcp_form_ h = ARENA -> get_name h i = slot_name (name_arena_ h) <$> name_table_ h !! N.to_nat i.
Proof. unfold get_name. by intros ->. Qed.

Lemma arena_get_name_valid h i n :
  arena_ok h -> get_name h i = Some n -> (i < N.of_nat (length (name_table_ h)))%N.
Proof.
  intros Hok. rewrite (arena_get_name h i (ok_form h Hok)).
  intros (s & Hs%lookup_lt_Some & _)%fmap_Some. lia.
Qed.

(** Names are never registered under the invalid id. *)
Lemma registered_valid h n i :
  arena_ok h -> backend_map (backend_ h) !! n = Some i -> i <> kInvalidId.
Proof.
  intros Hok [_ Hn]%(ok_map h Hok). apply arena_get_name_valid in Hn; [|done].
  pose proof (ok_domain h Hok). unfold kInvalidId. lia.
Qed.

Lemma get_id_arena h n :
  arena_ok h -> get_id h n = default kInvalidId (backend_map (backend_ h) !! n).
Proof. intros _. unfold get_id. by rewrite backend_find_map. Qed.

Lemma found_iff h n :
  arena_ok h ->
  is_valid_id (backend_find (backend_ h) n kInvalidId) = true <->
  is_Some (backend_map (backend_ h) !! n).
Proof.
  intros Hok. rewrite backend_find_map. unfold is_valid_id.
  destruct (_ !! n) as [i|] eqn:E; cbn.
  - apply registered_valid in E; [|done]. split; [by eexists|]. intros _.
    apply negb_true_iff. by apply N.eqb_neq.
  - rewrite N.eqb_refl. split; [done|]. by intros [? ?].
Qed.

Lemma slot_name_app (arena rest : bytes) s :
  slot_offset s + slot_length s <= length arena -> slot_name (arena ++ rest) s = slot_name arena s.
Proof.
  intros. unfold slot_name, slice. rewrite drop_app_le by lia. rewrite take_app_le; [done|].
  rewrite length_drop. lia.
Qed.

Lemma slot_name_new h (name : bytes) :
  (Z.of_nat (length name) < 2 ^ 32)%Z ->
  slot_name (name_arena_ h ++ name) (append_slot h name) = name.
Proof.
  intros Hl. unfold slot_name, append_slot. cbn [slot_offset slot_length].
  rewrite cast_u32_small by done.
  rewrite slice_skip by lia. rewrite Nat.sub_diag. by apply slice_all.
Qed.

(** A hasher whose table is [table] after [name] was appended to the pool and
    registered under [id]: enough for the invariant is that the slot of [id] is
    the new one and that every other id has its old name, or no name where the
    old one was [name]. *)
Lemma register_ok h (name : bytes) id table :
  arena_ok h -> name <> [] -> (Z.of_nat (length name) < 2 ^ 32)%Z ->
  (N.of_nat (length table) < 2 ^ w)%N ->
  table !! N.to_nat id = Some (append_slot h name) ->
  (forall n, get_name h id = Some n -> n = [] \/ n = name) ->
  (forall j s, j <> N.to_nat id -> table !! j = Some s ->
     s = empty_slot \/ (name_table_ h !! j = Some s /\
       backend_map (backend_ h) !! name <> Some (N.of_nat j))) ->
  (forall j s, j <> N.to_nat id -> name_table_ h !! j = Some s ->
     table !! j = Some s \/ backend_map (backend_ h) !! name = Some (N.of_nat j)) ->
  arena_ok (with_names h (name_arena_ h ++ name) table (backend_insert name id (backend_ h))).
Proof.
  intros Hok Hne Hlen Hdom Hid Hfree Hnew Hold. destruct Hok as [Hf Hsa Hca Hco Hsl Hd Hm] eqn:Eok.
  assert (forall j s, name_table_ h !! j = Some s ->
    slot_offset s + slot_length s <= length (name_arena_ h)) as Hrange.
  { intros j s Hs. apply (proj1 (Forall_lookup _ _) Hsl j s Hs). }
  split; cbn; try done.
  - apply Forall_lookup. intros j s Hj. rewrite length_app.
    destruct (decide (j = N.to_nat id)) as [->|Hji].
    + rewrite Hid in Hj. injection Hj as <-. cbn. rewrite cast_u32_small by done. lia.
    + destruct (Hnew j s Hji Hj) as [->|[Hj' _]]; [cbn; lia|].
      pose proof (proj1 (Forall_lookup _ _) Hsl j s Hj'). cbn in *. lia.
  - intros n i. rewrite backend_insert_map, arena_get_name by done. cbn [name_table_ name_arena_ with_names].
    assert (forall i', get_name h i' = slot_name (name_arena_ h) <$> name_table_ h !! N.to_nat i') as Hgn.
    { intros. by apply arena_get_name. }
    destruct (decide (i = id)) as [->|Hii].
    + rewrite Hid. cbn [fmap option_fmap option_map]. rewrite slot_name_new by done.
      destruct (decide (n = name)) as [->|Hnn]; [by rewrite lookup_insert_eq|].
      rewrite lookup_insert_ne by done. rewrite Hm. split; [|intros [_ ?]; congruence].
      intros [Hn0 Hn]. destruct (Hfree n Hn); done.
    + assert (N.to_nat i <> N.to_nat id) as Hij by lia.
      destruct (decide (n = name)) as [->|Hnn].
      * rewrite lookup_insert_eq. split; [congruence|]. intros [_ (s & Hi & Hs)%fmap_Some].
        destruct (Hnew _ s Hij Hi) as [->|[Hi' Hno]]; [by cbn in Hs|].
        destruct Hno. rewrite N2Nat.id. apply Hm. split; [done|]. rewrite Hgn, Hi'. cbn [fmap option_fmap option_map].
        f_equal. rewrite Hs. symmetry. by apply slot_name_app, (Hrange (N.to_nat i)).
      * rewrite lookup_insert_ne by done. rewrite Hm, Hgn. split; intros [Hn0 (s & Hi & Hs)%fmap_Some];
          (split; [done|]).
        -- destruct (Hold _ s Hij Hi) as [Hi'|Hreg].
           ++ rewrite Hi'. cbn [fmap option_fmap option_map]. by rewrite slot_name_app by eauto; subst.
           ++ rewrite N2Nat.id in Hreg. apply Hm in Hreg as [_ Hreg]. rewrite Hgn, Hi in Hreg.
              cbn in Hreg. congruence.
        -- destruct (Hnew _ s Hij Hi) as [->|[Hi' _]]; [by cbn in Hs|].
           rewrite Hi'. cbn [fmap option_fmap option_map]. rewrite Hs. f_equal. symmetry. by apply slot_name_app, (Hrange (N.to_nat i)).
Qed.

(** The names the callers register are not empty and shorter than 4 GiB, an id
    they choose is valid and free or already the name's own. *)
Inductive reg_op := Emplace (name : bytes) | Assign (name : bytes) (id : N).

Definition proper_name (name : bytes) : Prop := name <> [] /\ (Z.of_nat (length name) < 2 ^ 32)%Z.

Definition reg_pre (h : DSNameHasherT) (op : reg_op) : Prop :=
  match op with
  | Emplace name => proper_name name /\ (N.of_nat (length (name_table_ h)) + 1 < 2 ^ w)%N
  | Assign name id =>
      proper_name name /\ (id + 1 < 2 ^ w)%N /\
      forall n, get_name h id = Some n -> n = [] \/ n = name
  end.

Definition run_op (op : reg_op) (h : DSNameHasherT) : outcome DSNameHasherT :=
  match op with
  | Emplace name => '(h', _) ← emplace name h; Ok h'
  | Assign name id => assign name id h
  end.

Lemma arena_not_sealed h : arena_ok h -> is_lcp_form h = false.
Proof. intros Hok. unfold is_lcp_form. rewrite (ok_form h Hok). by apply bool_decide_false. Qed.

Lemma table_name_view h j s :
  arena_ok h -> name_table_ h !! j = Some s -> get_name h (N.of_nat j) = Some (name_view h j).
Proof.
  intros Hok Hj. rewrite arena_get_name by apply Hok. unfold name_view. by rewrite Nat2N.id, Hj.
Qed.

Lemma emplace_new_ok h name :
  arena_ok h -> reg_pre h (Emplace name) -> backend_map (backend_ h) !! name = None ->
  let id := N.of_nat (length (name_table_ h)) in
  emplace name h = Ok (with_names h (name_arena_ h ++ name) (name_table_ h ++ [append_slot h name])
    (backend_insert name id (backend_ h)), id) /\
  arena_ok (with_names h (name_arena_ h ++ name) (name_table_ h ++ [append_slot h name])
    (backend_insert name id (backend_ h))).
Proof.
  intros Hok [[Hne Hlen] Hroom] Hnone id. split.
  - unfold emplace. rewrite arena_not_sealed by done.
    destruct (is_valid_id _) eqn:E.
    { apply found_iff in E as [? E]; [congruence|done]. }
    by rewrite N.mod_small by lia.
  - apply register_ok; try done.
    + rewrite length_app. cbn. lia.
    + subst id. rewrite Nat2N.id, lookup_app_r by lia. by rewrite Nat.sub_diag.
    + intros n Hn%arena_get_name_valid; [|done]. subst id. lia.
    + intros j s Hj. subst id. rewrite Nat2N.id in Hj. intros Hs. right.
      assert (j < length (name_table_ h)).
      { apply lookup_lt_Some in Hs. rewrite length_app in Hs. cbn in Hs. lia. }
      rewrite lookup_app_l in Hs by done. split; [done|]. congruence.
    + intros j s _ Hj. left. apply lookup_lt_Some in Hj as Hlt. by rewrite lookup_app_l.
Qed.

Lemma length_clear_old h name id : length (clear_old h name id) = length (name_table_ h).
Proof. unfold clear_old. destruct (_ && _ && _); [apply length_insert | done]. Qed.

(** Clearing empties exactly the slot of the name, unless it is the slot asked for. *)
Lemma clear_old_cases h name id j :
  arena_ok h -> j <> N.to_nat id ->
  (backend_map (backend_ h) !! name = Some (N.of_nat j) /\ clear_old h name id !! j = Some empty_slot) \/
  (backend_map (backend_ h) !! name <> Some (N.of_nat j) /\ clear_old h name id !! j = name_table_ h !! j).
Proof.
  intros Hok Hji. unfold clear_old.
  destruct (backend_map (backend_ h) !! name) as [o|] eqn:E.
  - rewrite (proj2 (found_iff h name Hok)) by by eexists.
    rewrite backend_find_map, E. change (default kInvalidId (Some o)) with o. cbn [andb].
    apply (ok_map h Hok) in E as [_ E%arena_get_name_valid]; [|done].
    rewrite (proj2 (N.ltb_lt _ _) E), andb_true_r.
    destruct (decide (o = N.of_nat j)) as [->|Hne].
    + left. split; [done|]. rewrite (proj2 (N.eqb_neq _ _)) by lia. cbn [negb].
      rewrite Nat2N.id. apply list_lookup_insert_eq. lia.
    + right. split; [congruence|]. destruct (negb _); [|done].
      apply list_lookup_insert_ne. lia.
  - right. split; [done|]. destruct (is_valid_id _) eqn:Hv; [|done].
    apply found_iff in Hv as [? ?]; [congruence|done].
Qed.

Lemma grow_table_old id table j :
  (id + 1 < 2 ^ w)%N -> j < length table -> grow_table id table !! j = table !! j.
Proof.
  intros Hid Hj. unfold grow_table. destruct (N.leb_spec (N.of_nat (length table)) id); [|done].
  rewrite N.mod_small by lia. apply lookup_resize; lia.
Qed.

Lemma grow_table_new id table j s :
  (id + 1 < 2 ^ w)%N -> length table <= j -> grow_table id table !! j = Some s -> s = empty_slot.
Proof.
  intros Hid Hj. unfold grow_table. destruct (N.leb_spec (N.of_nat (length table)) id).
  - rewrite N.mod_small by lia. intros Hs. apply lookup_lt_Some in Hs as Hlt.
    rewrite length_resize in Hlt. rewrite lookup_resize_new in Hs by lia. congruence.
  - by rewrite lookup_ge_None_2.
Qed.

Lemma length_grow_table id table :
  (id + 1 < 2 ^ w)%N -> (N.of_nat (length table) < 2 ^ w)%N ->
  (id < N.of_nat (length (grow_table id table)) < 2 ^ w)%N.
Proof.
  intros. unfold grow_table. destruct (N.leb_spec (N.of_nat (length table)) id); [|lia].
  rewrite length_resize, N.mod_small by lia. lia.
Qed.

Lemma assign_ok h name id :
  arena_ok h -> reg_pre h (Assign name id) ->
  let h' := with_names h (name_arena_ h ++ name)
    (<[N.to_nat id := append_slot h name]> (grow_table id (clear_old h name id)))
    (backend_insert name id (backend_ h)) in
  assign name id h = Ok h' /\ arena_ok h'.
Proof.
  intros Hok ([Hne Hlen] & Hid & Hfree). cbn zeta.
  destruct (length_grow_table id (clear_old h name id)) as [Hin Hsz];
    [done | rewrite length_clear_old; apply Hok|].
  unfold assign. rewrite arena_not_sealed by done. rewrite (proj2 (N.ltb_lt _ _) Hin).
  split; [done|]. apply register_ok; try done.
  - by rewrite length_insert.
  - apply list_lookup_insert_eq. lia.
  - intros j s Hji. rewrite list_lookup_insert_ne by done. intros Hs.
    destruct (decide (j < length (clear_old h name id))).
    + rewrite grow_table_old in Hs by done.
      destruct (clear_old_cases h name id j) as [[_ E]|[? E]]; [done..| |]; rewrite E in Hs;
        [left; congruence | by right].
    + left. eapply grow_table_new; [done| |done]. lia.
  - intros j s Hji Hj. rewrite list_lookup_insert_ne by done. apply lookup_lt_Some in Hj as Hlt.
    rewrite grow_table_old by (done || by rewrite length_clear_old).
    destruct (clear_old_cases h name id j) as [[? _]|[_ ->]]; [done..|by right|by left].
Qed.

(** The names after a registration, slot by slot. *)
Lemma get_name_register h (name : bytes) table b i :
  arena_ok h -> (Z.of_nat (length name) < 2 ^ 32)%Z ->
  let h' := with_names h (name_arena_ h ++ name) table b in
  (table !! N.to_nat i = Some (append_slot h name) -> get_name h' i = Some name) /\
  (table !! N.to_nat i = name_table_ h !! N.to_nat i -> get_name h' i = get_name h i) /\
  (table !! N.to_nat i = Some empty_slot -> get_name h' i = Some []).
Proof.
  intros Hok Hlen h'. assert (lcp_form_ h' = ARENA) as Hf by apply Hok.
  rewrite (arena_get_name h' i Hf), (arena_get_name h i (ok_form _ Hok)).
  cbn [name_table_ name_arena_ h' with_names]. split; [|split]; intros ->; cbn [fmap option_fmap option_map].
  - by rewrite slot_name_new.
  - destruct (name_table_ h !! N.to_nat i) as [s|] eqn:Hs; cbn [fmap option_fmap option_map]; [|done].
    rewrite slot_name_app; [done|]. apply (proj1 (Forall_lookup _ _) (ok_slots h Hok) _ _ Hs).
  - done.
Qed.

(** Hashers made by registrations and sealing. *)
Inductive reach : DSNameHasherT -> Prop :=
  | reach_new : reach new_hasher
  | reach_reg h op h' : reach h -> reg_pre h op -> run_op op h = Ok h' -> reach h'
  | reach_seal h b h' : reach h -> finalize_for_save b h = Ok h' -> reach h'.

Definition hasher_ok (h : DSNameHasherT) : Prop :=
  exists h0, arena_ok h0 /\ (h = h0 \/ sealed_from h0 h).

Lemma run_op_ok h op h' : arena_ok h -> reg_pre h op -> run_op op h = Ok h' -> arena_ok h'.
Proof.
  intros Hok Hpre. destruct op as [name|name id]; cbn [run_op].
  - destruct (backend_map (backend_ h) !! name) as [i|] eqn:E.
    + unfold emplace. rewrite arena_not_sealed by done.
      rewrite (proj2 (found_iff h name Hok)) by by eexists.
      cbn [mbind outcome_bind]. congruence.
    + destruct (emplace_new_ok h name Hok Hpre E) as [-> Hok']. cbn [mbind outcome_bind]. congruence.
  - destruct (assign_ok h name id Hok Hpre) as [-> Hok']. congruence.
Qed.

Lemma sealed_op h op h' : lcp_form_ h = LCP -> run_op op h <> Ok h'.
Proof.
  intros Hf. destruct op; cbn; unfold emplace, assign, is_lcp_form;
    by rewrite bool_decide_true.
Qed.

Lemma reach_ok h : reach h -> hasher_ok h.
Proof.
  induction 1 as [|h op h' _ (h0 & Hok & [->|Hs]) Hpre Hrun|h b h' _ (h0 & Hok & Hcase) Hfin].
  - exists new_hasher. split; [apply new_hasher_ok | by left].
  - exists h'. split; [by eapply run_op_ok | by left].
  - destruct (sealed_op h op h' (sf_form _ _ Hs) Hrun).
  - destruct b; [|injection Hfin as <-; by exists h0]. destruct Hcase as [->|Hs].
    + exists h0. split; [done|]. right. by apply finalize_sealed.
    + unfold finalize_for_save, is_lcp_form in Hfin.
      rewrite bool_decide_true in Hfin by apply Hs. injection Hfin as <-. exists h0. auto.
Qed.

(** Both forms answer like the hasher in arena form they come from. *)
Lemma hasher_ok_names h : hasher_ok h -> exists h0,
  arena_ok h0 /\ backend_ h = backend_ h0 /\ (forall id, get_name h id = get_name h0 id) /\
  name_domain h = length (name_table_ h0) /\
  for_each_name_by_rank h = Some (named_ids h0 (name_order h0)).
Proof.
  intros (h0 & Hok & [->|Hs]); exists h0.
  - do 3 (split; [done|]). unfold name_domain, for_each_name_by_rank. by rewrite (ok_form _ Hok).
  - split; [done|]. split; [apply Hs|]. split; [intros; by apply get_name_sealed|].
    unfold name_domain, for_each_name_by_rank. rewrite (sf_form _ _ Hs).
    split; [by apply length_sealed_ranks | by apply ranked_names_sealed].
Qed.

Lemma get_id_iff h (n : bytes) id :
  hasher_ok h -> (get_id h n = id /\ is_valid_id id = true <-> n <> [] /\ get_name h id = Some n).
Proof.
  intros (h0 & Hok & Hb & Hn & _)%hasher_ok_names. unfold get_id. rewrite Hb, Hn, <- (ok_map h0 Hok).
  split.
  - intros [<- Hv]. apply found_iff in Hv as [i Hi]; [|done]. by rewrite backend_find_map, Hi.
  - intros Hi. rewrite backend_find_map, Hi. split; [done|].
    assert (is_valid_id (backend_find (backend_ h0) n kInvalidId) = true) as Hv.
    { apply found_iff; [done | by eexists]. }
    by rewrite backend_find_map, Hi in Hv.
Qed.

(** *** Names by rank *)

Lemma named_ids_elem h0 ids i (n : bytes) :
  arena_ok h0 -> (forall id, id ∈ ids <-> id ∈ registered h0) ->
  (i, n) ∈ named_ids h0 ids <-> n <> [] /\ get_name h0 i = Some n.
Proof.
  intros Hok Hids. unfold named_ids. rewrite list_elem_of_fmap. split.
  - intros (id & [= -> ->] & Hin%Hids%elem_of_registered). destruct Hin as (s & Hs & Hl).
    rewrite (table_name_view h0 id s Hok Hs). split; [|done].
    intros E%(f_equal length). rewrite (length_name_view h0 id Hok s Hs) in E. by cbn in E.
  - intros [Hne Hn]. pose proof Hn as Hn'. rewrite arena_get_name in Hn by apply Hok.
    apply fmap_Some in Hn as (s & Hs & Hns).
    assert (name_view h0 (N.to_nat i) = n) as Hv by (unfold name_view; by rewrite Hs).
    exists (N.to_nat i). rewrite N2Nat.id, Hv. split; [done|]. apply Hids, elem_of_registered.
    exists s. split; [done|]. intros El. rewrite <- (length_name_view h0 _ Hok s Hs), Hv in El.
    by apply length_zero_iff_nil in El.
Qed.

Lemma view_inj h0 a b :
  arena_ok h0 -> a ∈ registered h0 -> b ∈ registered h0 -> name_view h0 a = name_view h0 b -> a = b.
Proof.
  intros Hok Ha Hb E.
  assert (forall id, id ∈ registered h0 ->
    backend_map (backend_ h0) !! name_view h0 id = Some (N.of_nat id)) as H.
  { intros id Hid. apply (ok_map h0 Hok), (named_ids_elem h0 (registered h0)); [done..|].
    unfold named_ids. apply list_elem_of_fmap. by exists id. }
  apply H in Ha. apply H in Hb. rewrite E in Ha. rewrite Ha in Hb.
  injection Hb as Hb. by apply Nat2N.inj in Hb.
Qed.

Lemma named_ids_NoDup h0 ids :
  arena_ok h0 -> NoDup ids -> (forall id, id ∈ ids -> id ∈ registered h0) ->
  NoDup (named_ids h0 ids).*2.
Proof.
  intros Hok Hnd Hids. unfold named_ids. rewrite <- list_fmap_compose. apply NoDup_fmap_2_strong; [|done].
  intros a b Ha Hb E. apply (view_inj h0); auto.
Qed.

Lemma named_ids_sorted h0 : arena_ok h0 -> StronglySorted name_lt (named_ids h0 (name_order h0)).*2.
Proof.
  intros Hok. unfold named_ids. rewrite <- list_fmap_compose.
  assert (forall ids, NoDup ids -> (forall id, id ∈ ids -> id ∈ registered h0) ->
    StronglySorted (by_name h0) ids ->
    StronglySorted name_lt (compose snd (fun id => (N.of_nat id, name_view h0 id)) <$> ids)) as H.
  { induction ids as [|a ids IH]; intros Hnd Hin Hs; [constructor|].
    apply NoDup_cons in Hnd as [Ha Hnd]. apply StronglySorted_inv in Hs as [Hs Hall].
    cbn. constructor; [apply IH; [done| |done]; set_solver|].
    apply Forall_fmap, Forall_forall. intros b Hb. cbn.
    rewrite Forall_forall in Hall. apply Hall in Hb as Hle.
    apply name_le_cases in Hle as [?|E]; [done|].
    apply (view_inj h0) in E as ->; [done..| |]; set_solver. }
  apply H; [apply name_order_NoDup | intros id; apply elem_of_name_order|].
  apply sort_strongly; apply _.
Qed.

(** *** The backend from the names *)

Lemma foldl_insert_lookup l b (n : bytes) i :
  NoDup l.*2 ->
  backend_map (foldl insert_pair b l) !! n = Some i <->
  (i, n) ∈ l \/ (n ∉ l.*2 /\ backend_map b !! n = Some i).
Proof.
  revert b. induction l as [|[i' n'] l IH]; intros b Hnd; cbn.
  { split; [by right; split; [apply not_elem_of_nil|]|].
    intros [?%elem_of_nil|[_ ?]]; done. }
  apply NoDup_cons in Hnd as [Hn' Hnd]. rewrite IH by done. unfold insert_pair. cbn.
  rewrite backend_insert_map, elem_of_cons, not_elem_of_cons.
  assert ((i, n) ∈ l -> n ∈ l.*2) as Hin by (intros H; apply list_elem_of_fmap; by exists (i, n)).
  destruct (decide (n = n')) as [->|Hne].
  - rewrite lookup_insert_eq. split.
    + intros [?|[_ [= ->]]]; auto.
    + intros [[[= ->]|?]|[[? _] _]]; auto; done.
  - rewrite lookup_insert_ne by done. split.
    + intros [?|[? ?]]; auto.
    + intros [[[= -> ->]|?]|[[_ ?] ?]]; auto; done.
Qed.

Lemma rebuilt_map h0 ids b :
  arena_ok h0 -> NoDup ids -> (forall id, id ∈ ids <-> id ∈ registered h0) ->
  backend_map b = ∅ ->
  backend_map (foldl insert_pair b (named_ids h0 ids)) = backend_map (backend_ h0).
Proof.
  intros Hok Hnd Hids Hb. apply map_eq. intros n. apply option_eq. intros i.
  rewrite foldl_insert_lookup by (apply named_ids_NoDup; [done..|]; intros id; apply Hids).
  rewrite Hb, lookup_empty, (ok_map h0 Hok), (named_ids_elem h0 ids) by done.
  split; [intros [?|[_ ?]]; done | by left].
Qed.

(** The compressed tables determine the names; the backend does not matter. *)
Definition same_tables (h h' : DSNameHasherT) : Prop :=
  lcp_suffix_arena_ h' = lcp_suffix_arena_ h /\ lcp_suffix_table_ h' = lcp_suffix_table_ h /\
  id_to_rank_ h' = id_to_rank_ h /\ lcp_ckpt_arena_ h' = lcp_ckpt_arena_ h /\
  lcp_ckpt_offsets_ h' = lcp_ckpt_offsets_ h.

Lemma name_by_rank_ext h h' r : same_tables h h' -> name_by_rank h' r = name_by_rank h r.
Proof.
  intros (Ha & Ht & _ & Hc & Ho).
  assert (forall k i out, extend_name h' k i out = extend_name h k i out) as He.
  { induction k as [|k IH]; intros i out; cbn [extend_name]; [done|]. rewrite Ht, Ha.
    destruct (lcp_suffix_table_ h !! i); cbn [mbind option_bind]; [|done].
    destruct (lcp_suffix_table_ h !! S i); cbn [mbind option_bind]; [|done]. apply IH. }
  unfold name_by_rank. rewrite Ha, Ht, Hc, Ho.
  destruct (lcp_ckpt_offsets_ h !! (r / kLcpCheckpoint)); cbn [mbind option_bind]; [|done].
  destruct (decide _); [done|].
  destruct (lcp_suffix_table_ h !! S (r - _)); cbn [mbind option_bind]; [|done]. by rewrite He.
Qed.

Lemma get_name_ext h h' id :
  lcp_form_ h = LCP -> lcp_form_ h' = LCP -> same_tables h h' -> get_name h' id = get_name h id.
Proof.
  intros Hf Hf' Hst. unfold get_name. rewrite Hf, Hf'. pose proof Hst as (_ & _ & -> & _).
  destruct (_ !! _); cbn; [|done]. by rewrite (name_by_rank_ext h h' _ Hst).
Qed.

Lemma ranked_names_ext h h' : same_tables h h' -> ranked_names h' = ranked_names h.
Proof.
  intros Hst. pose proof Hst as (_ & Ht & Hr & _). unfold ranked_names, rank_to_id. rewrite Ht, Hr.
  destruct (set_ids _ _ _); cbn; [|done]. apply Forall_mapM_ext, Forall_forall. intros p _.
  by rewrite (name_by_rank_ext h h' _ Hst).
Qed.

Lemma get_name_backend h b id : get_name (with_backend h b) id = get_name h id.
Proof.
  destruct (lcp_form_ h) eqn:Hf; [by unfold get_name; cbn; rewrite Hf|]. by apply get_name_ext.
Qed.

Lemma rebuild_backend_ok h b0 : hasher_ok h -> exists b,
  rebuild_backend (with_backend h b0) = Some b /\ backend_map b = backend_map (backend_ h).
Proof.
  intros (h0 & Hok & [->|Hs]); unfold rebuild_backend; cbn [lcp_form_ with_backend with_names].
  - rewrite (ok_form _ Hok). eexists. split; [done|].
    apply (rebuilt_map h0 (registered h0)); [done | apply registered_NoDup | done | apply backend_clear_map].
  - rewrite (sf_form _ _ Hs), (ranked_names_ext h) by (by repeat split).
    rewrite (ranked_names_sealed h0 h Hok Hs). eexists. split; [done|].
    rewrite (sf_backend _ _ Hs).
    apply rebuilt_map; [done | apply name_order_NoDup | apply elem_of_name_order | apply backend_clear_map].
Qed.

Lemma count_names h0 : arena_ok h0 -> backend_size (backend_ h0) = length (name_order h0).
Proof.
  intros Hok. rewrite backend_size_map, <- length_map_to_list, <- (length_fmap fst).
  trans (length (named_ids h0 (name_order h0)).*2); [|unfold named_ids; by rewrite !length_fmap].
  apply Permutation_length, NoDup_Permutation.
  - apply NoDup_fst_map_to_list.
  - apply named_ids_NoDup; [done | apply name_order_NoDup | intros ?; apply elem_of_name_order].
  - intros n. rewrite !list_elem_of_fmap. split.
    + intros ([n' i] & -> & Hin%elem_of_map_to_list%(ok_map h0 Hok)). exists (i, n').
      split; [done|]. by apply named_ids_elem; [|apply elem_of_name_order|].
    + intros ([i n'] & -> & Hin). apply named_ids_elem in Hin; [|done|apply elem_of_name_order].
      exists (n', i). split; [done|]. by apply elem_of_map_to_list, (ok_map h0 Hok).
Qed.

Lemma build_slots_total names prev total :
  Forall (fun n : bytes => (N.of_nat (length n) <= max_lcp)%N) names ->
  is_Some (build_slots prev total names).
Proof.
  intros Hn. revert prev total. induction Hn as [|cur names Hc _ IH]; intros prev total; [done|].
  cbn [build_slots]. set (l := match prev with Some p => _ | None => _ end).
  assert (l <= length cur) by (subst l; destruct prev; [apply common_prefix_le|lia]).
  rewrite (proj2 (N.ltb_ge _ _)) by lia.
  destruct (IH (Some cur) (total + (length cur - l))) as [slots ->]. by eexists.
Qed.

Lemma finalize_total h :
  arena_ok h -> (N.of_nat (hasher_size h) <= kNoRank)%N ->
  (forall id n, get_name h id = Some n -> (N.of_nat (length n) <= max_lcp)%N) ->
  exists h', finalize_for_save true h = Ok h'.
Proof.
  intros Hok Hc Hn. unfold finalize_for_save. rewrite (arena_not_sealed h Hok). cbn [negb orb].
  unfold build_lcp_form. unfold hasher_size in Hc. rewrite (count_names h Hok) in Hc.
  rewrite (proj2 (N.ltb_ge _ _)) by done.
  destruct (build_slots_total (name_view h <$> name_order h) None 0) as [slots ->].
  - apply Forall_fmap, Forall_forall. intros id (s & Hs & _)%elem_of_name_order%elem_of_registered.
    apply (Hn (N.of_nat id)). by eapply table_name_view.
  - destruct (append_checkpoints _ _ _). by eexists.
Qed.

(** C26: whatever names are registered (with [emplace], or [assign] at a free id
    or the name's own) and whether or not the hasher was then sealed in its
    compressed form, [get_id] and [get_name] are inverse to each other: the id of
    a name is [id], and valid, exactly when [id] has that (non-empty) name. *)
Theorem names_and_ids_inverse h n id :
  reach h ->
  (get_id h n = id /\ is_valid_id id = true <-> n <> [] /\ get_name h id = Some n).
Proof. intros Hr. by apply get_id_iff, reach_ok. Qed.

(** sealing changes nothing that can be asked.  A hasher with no more than
    2^32 - 1 names of at most 65535 bytes can be sealed; the compressed form,
    read through checkpoints and shared prefixes, has the same name for every id
    (holes and ids outside the domain included), the same ids, the same domain
    and lists the names by rank in the same way. *)
Theorem sealing_keeps_names h :
  reach h -> is_lcp_form h = false -> (N.of_nat (hasher_size h) <= kNoRank)%N ->
  (forall id n, get_name h id = Some n -> (N.of_nat (length n) <= max_lcp)%N) ->
  exists h', finalize_for_save true h = Ok h' /\ is_lcp_form h' = true /\
    (forall id, get_name h' id = get_name h id) /\ (forall n, get_id h' n = get_id h n) /\
    name_domain h' = name_domain h /\ hasher_size h' = hasher_size h /\
    for_each_name_by_rank h' = for_each_name_by_rank h.
Proof.
  intros (h0 & Hok & [->|Hs])%reach_ok Hf Hc Hn; last first.
  { unfold is_lcp_form in Hf. apply bool_decide_eq_false in Hf. by rewrite (sf_form _ _ Hs) in Hf. }
  destruct (finalize_total h0 Hok Hc Hn) as [h' Hh']. exists h'. split; [done|].
  apply finalize_sealed in Hh' as Hs; [|done]. split.
  { apply bool_decide_true, Hs. }
  split; [intros; by apply get_name_sealed|].
  unfold get_id, hasher_size, name_domain, for_each_name_by_rank.
  rewrite (sf_backend _ _ Hs), (sf_form _ _ Hs), (ok_form _ Hok).
  repeat split; [by apply length_sealed_ranks | by apply ranked_names_sealed].
Qed.

(** [for_each_name_by_rank] calls back for every registered name exactly once,
    with its id, in strictly ascending order of the names, in both forms. *)
Theorem names_by_rank_sorted h :
  reach h -> exists l, for_each_name_by_rank h = Some l /\
    StronglySorted name_lt l.*2 /\ NoDup l.*1 /\ length l = hasher_size h /\
    forall id n, (id, n) ∈ l <-> get_id h n = id /\ is_valid_id id = true.
Proof.
  intros Hr. pose proof (reach_ok h Hr) as Hh. destruct (hasher_ok_names h Hh) as (h0 & Hok & Hb & Hn & _ & ->).
  eexists. split; [done|]. split; [by apply named_ids_sorted|]. split; [|split].
  - unfold named_ids. rewrite <- list_fmap_compose. apply NoDup_fmap_2_strong; [|apply name_order_NoDup].
    intros a b _ _ E. by apply Nat2N.inj.
  - unfold hasher_size. rewrite Hb, count_names by done. unfold named_ids. by rewrite length_fmap.
  - intros id n. rewrite (get_id_iff h n id Hh), Hn. apply named_ids_elem; [done|apply elem_of_name_order].
Qed.

(** ** Saving and loading *)

Lemma arena_ok_backend h b :
  arena_ok h -> backend_map b = backend_map (backend_ h) -> arena_ok (with_backend h b).
Proof.
  intros [Hf Hsa Hca Hco Hsl Hd Hm] Hb. split; try done.
  intros n i. rewrite get_name_backend. cbn. rewrite Hb. apply Hm.
Qed.

Lemma hasher_ok_backend h b :
  hasher_ok h -> backend_map b = backend_map (backend_ h) -> hasher_ok (with_backend h b).
Proof.
  intros (h0 & Hok & [->|Hs]) Hb.
  - exists (with_backend h0 b). split; [by apply arena_ok_backend | by left].
  - exists (with_backend h0 b). rewrite (sf_backend _ _ Hs) in Hb.
    split; [by apply arena_ok_backend|]. right. destruct Hs as [Hf Ht Hr Hc _]. by split.
Qed.

(** What is read back is the saved hasher with the backend of the native image. *)
Lemma read_saved h :
  hasher_ok h ->
  hasher_ok (with_backend (read_fields (save_hasher h)) (backend_ h)) /\
  lcp_form_ (read_fields (save_hasher h)) = lcp_form_ h /\
  name_domain (read_fields (save_hasher h)) = name_domain h /\
  forall id, get_name (read_fields (save_hasher h)) id = get_name h id.
Proof.
  intros (h0 & Hok & [->|Hs]).
  - unfold read_fields, save_hasher, name_domain, get_name. rewrite (ok_form _ Hok). cbn.
    repeat split. eexists. split; [|by left].
    destruct Hok as [Hf Hsa Hca Hco Hsl Hd Hm]. split; try done.
    intros n i. cbn. rewrite Hm. unfold get_name. cbn. by rewrite Hf.
  - assert (same_tables h (read_fields (save_hasher h)) /\
      lcp_form_ (read_fields (save_hasher h)) = LCP) as [Hst Hf'].
    { unfold read_fields, save_hasher. by rewrite (sf_form _ _ Hs). }
    pose proof Hst as (Ha & Ht & Hr & Hc & Ho). unfold name_domain. rewrite Hf', (sf_form _ _ Hs), Hr.
    split; [|split; [done|split; [done|]]].
    + exists h0. split; [done|]. right. destruct Hs as [Hf (T1 & T2 & T3) Hr0 Hc0 Hb].
      split; try done; [|by cbn; rewrite Hr]. unfold tables_of. cbn. by rewrite Ha, Ht, Hc, Ho.
    + intros id. apply get_name_ext; [apply Hs | done..].
Qed.

Lemma size_le_domain h : hasher_ok h -> backend_size (backend_ h) <= name_domain h.
Proof.
  intros (h0 & Hok & Hb & _ & Hd & _)%hasher_ok_names. rewrite Hb, Hd, count_names by done.
  unfold name_order. rewrite sort_length. unfold registered.
  etrans; [apply length_filter|]. by rewrite length_seq.
Qed.

Lemma check_ranks_ok h : hasher_ok h -> check_ranks h = Ok h.
Proof.
  intros Hok%size_le_domain. unfold check_ranks, is_lcp_form, name_domain in *.
  destruct (lcp_form_ h); [by rewrite bool_decide_false|].
  rewrite bool_decide_true by done. cbn [andb]. by rewrite (proj2 (Nat.ltb_ge _ _)).
Qed.

(** A saved hasher, in either form, loads without error, whatever the
    backend keeps of its native image (a refused image is replaced by a rebuild
    from the names), and answers every query as before. *)
Theorem load_saved_hasher h :
  reach h -> exists h', load_hasher (save_hasher h) = Ok h' /\
    is_lcp_form h' = is_lcp_form h /\ hasher_size h' = hasher_size h /\
    (forall id, get_name h' id = get_name h id) /\ (forall n, get_id h' n = get_id h n).
Proof.
  intros Hh%reach_ok. destruct (read_saved h Hh) as (Hok & Hf & _ & Hn).
  set (h1 := read_fields (save_hasher h)) in *.
  assert (forall b, backend_map b = backend_map (backend_ h) ->
    check_ranks (with_backend h1 b) = Ok (with_backend h1 b) /\
    is_lcp_form (with_backend h1 b) = is_lcp_form h /\
    hasher_size (with_backend h1 b) = hasher_size h /\
    (forall id, get_name (with_backend h1 b) id = get_name h id) /\
    (forall n, get_id (with_backend h1 b) n = get_id h n)) as Hgood.
  { intros b Hb. split; [by apply check_ranks_ok, (hasher_ok_backend (with_backend h1 (backend_ h)))|].
    unfold is_lcp_form, hasher_size, get_id. cbn. rewrite Hf, !backend_size_map, Hb.
    do 2 (split; [done|]). split; [intros; by rewrite get_name_backend|]. intros n. by rewrite !backend_find_map, Hb. }
  assert (with_backend h1 (backend_ h1) = h1) as Eself by by destruct h1.
  assert (backend_ h1 = native_load (native_save (backend_ h))) as Eb.
  { subst h1. unfold read_fields. cbn. by destruct (lcp_form_ h). }
  unfold load_hasher. fold h1. cbn [image_count save_hasher].
  destruct (Nat.eqb_spec (backend_size (backend_ h)) (backend_size (backend_ h1))) as [E|_].
  - exists h1. rewrite <- Eself. apply Hgood. rewrite !backend_size_map in E.
    destruct (native_load_save (backend_ h)) as [El|El]; rewrite <- Eb in El; [done|].
    rewrite El in E |- *. rewrite map_size_empty in E. symmetry. by apply map_size_empty_inv.
  - destruct (rebuild_backend_ok _ (backend_ h1) Hok) as (b' & Hr & Hb').
    change (rebuild_backend (with_backend h1 (backend_ h1)) = Some b') in Hr.
    rewrite Eself in Hr. rewrite Hr. cbn in Hb'.
    rewrite !backend_size_map, Hb', Nat.eqb_refl. exists (with_backend h1 b'). by apply Hgood.
Qed.
End hasher.
Arguments DSNameHasherT B : clear implicits.

(** ** The empty name *)

Section empty_name.
Context (h : DSNameHasherT DSHasherBackendHash).

Let id := N.of_nat (length (name_table_ h)).
Let h' := with_names h (name_arena_ h ++ []) (name_table_ h ++ [append_slot h []])
  (backend_insert [] id (backend_ h)).

(** The slot of the empty name looks like a hole. *)
Lemma empty_name_view j : name_view h' j = name_view h j.
Proof.
  unfold name_view. subst h'. cbn [name_table_ name_arena_ with_names]. rewrite app_nil_r.
  destruct (decide (j < length (name_table_ h))) as [Hj|Hj]; [by rewrite lookup_app_l by done|].
  rewrite lookup_app_r by lia. rewrite (lookup_ge_None_2 (name_table_ h)) by lia.
  destruct (j - length (name_table_ h)) as [|k]; [|done]. cbn.
  unfold slot_name, slice. cbn. by destruct (drop _ _).
Qed.

Lemma empty_name_registered : registered h' = registered h.
Proof.
  unfold registered. subst h'. cbn [name_table_ with_names]. rewrite length_app. cbn [length].
  rewrite seq_app, filter_app. cbn [seq]. rewrite filter_cons_False, filter_nil, app_nil_r.
  2: { rewrite lookup_app_r by lia. rewrite Nat.sub_diag. cbn. intros H. by apply H. }
  apply list_filter_ext_in. intros j [_ Hj]%elem_of_seq.
  by rewrite lookup_app_l by lia.
Qed.
Context (w : N) (Hok : arena_ok w h).
Context (Hroom : (N.of_nat (length (name_table_ h)) + 1 < 2 ^ w)%N).

Lemma empty_name_new : backend_map (backend_ h) !! ([] : bytes) = None.
Proof. destruct (_ !! _) as [i|] eqn:E; [|done]. by apply (ok_map w h Hok) in E as [? _]. Qed.

Lemma emplace_empty : emplace w [] h = Ok (h', id).
Proof.
  unfold emplace. rewrite (arena_not_sealed w h Hok).
  destruct (is_valid_id w _) eqn:E.
  { apply (found_iff w h _ Hok) in E as [? E]. by rewrite empty_name_new in E. }
  by rewrite N.mod_small by lia.
Qed.

End empty_name.

Lemma reach_arena w (h : DSNameHasherT DSHasherBackendHash) :
  reach w h -> is_lcp_form h = false -> arena_ok w h.
Proof.
  intros (h0 & Hok & [->|Hs])%reach_ok Hf; [done|].
  apply bool_decide_eq_false in Hf. by rewrite (sf_form _ _ Hs) in Hf.
Qed.

(** Registering the empty name succeeds and [get_id] finds it, but its slot
    of length 0 is taken for a hole: with the hash backend the saved hasher does
    not load any more, the count of names after the rebuild is one short and the
    process exits with DSGN::0012, although the file is intact. *)
Theorem empty_name_breaks_load w (h : DSNameHasherT DSHasherBackendHash) :
  reach w h -> is_lcp_form h = false -> (N.of_nat (length (name_table_ h)) + 1 < 2 ^ w)%N ->
  exists h' id, emplace w [] h = Ok (h', id) /\ is_valid_id w id = true /\ get_id w h' [] = id /\
    load_hasher w (save_hasher h') = FatalExit corrupt_names.
Proof.
  intros Hr Hf Hroom. pose proof (reach_arena w h Hr Hf) as Hok.
  eexists _, _. split; [by apply (emplace_empty h w)|].
  set (h' := with_names _ _ _ _). split; [|split].
  - unfold is_valid_id, kInvalidId. apply negb_true_iff, N.eqb_neq. lia.
  - unfold get_id. rewrite backend_find_map. cbn. by rewrite lookup_insert_eq.
  - assert (rebuild_backend w (read_fields (save_hasher h')) =
      Some (foldl insert_pair (∅ : DSHasherBackendHash) (named_ids h (registered h)))) as Hreb.
    { unfold rebuild_backend. rewrite <- (empty_name_registered h).
      assert (lcp_form_ h' = ARENA) as Hf' by apply Hok.
      unfold read_fields, save_hasher. cbn [image_auth]. rewrite Hf'. cbn [lcp_form_ fmap option_fmap option_map].
      do 2 f_equal. unfold named_ids. apply list_fmap_ext. intros _ j _.
      by rewrite <- (empty_name_view h). }
    unfold load_hasher. rewrite Hreb. cbn [image_count save_hasher].
    rewrite !backend_size_map, (rebuilt_map w h) by (done || apply registered_NoDup).
    assert (backend_map (backend_ (read_fields (save_hasher h'))) = ∅) as ->.
    { unfold read_fields. by destruct (image_auth _). }
    subst h'. cbn [backend_ with_names]. rewrite backend_insert_map, map_size_insert_None, map_size_empty
      by exact (empty_name_new h w Hok).
    destruct (Nat.eqb_spec (S (size (backend_map (backend_ h)))) 0); [lia|].
    by destruct (Nat.eqb_spec (S (size (backend_map (backend_ h)))) (size (backend_map (backend_ h)))); [lia|].
Qed.

(** ** A small hasher *)

Definition sample_op (op : reg_op) (h : DSNameHasherT DSHasherBackendHash) :=
  match run_op 32 op h with Ok h' => h' | _ => h end.

(** Names ab, abc at id 3 (with two holes), and b. *)
Definition sample_names : DSNameHasherT DSHasherBackendHash :=
  sample_op (Emplace [Byte.x62])
    (sample_op (Assign [Byte.x61; Byte.x62; Byte.x63] 3)
       (sample_op (Emplace [Byte.x61; Byte.x62]) new_hasher)).

Ltac proper_name := split; [done | cbn; lia].

Lemma sample_op_reach op h : reach 32 h -> reg_pre 32 h op -> reach 32 (sample_op op h).
Proof.
  intros Hr Hpre. unfold sample_op. destruct (run_op 32 op h) eqn:E; try done.
  by apply (reach_reg _ h op).
Qed.

Lemma sample_reach : reach 32 sample_names.
Proof.
  apply sample_op_reach; [apply sample_op_reach; [apply sample_op_reach; [apply reach_new|]|]|].
  - split; [proper_name|]. vm_compute. reflexivity.
  - split; [proper_name|]. split; [vm_compute; reflexivity|]. intros n Hn. vm_compute in Hn. discriminate.
  - split; [proper_name|]. vm_compute. reflexivity.
Qed.

Definition sample_sealed : DSNameHasherT DSHasherBackendHash :=
  match finalize_for_save true sample_names with Ok h => h | _ => sample_names end.

Lemma sample_sealed_reach : reach 32 sample_sealed.
Proof.
  unfold sample_sealed. destruct (finalize_for_save true sample_names) eqn:E; try apply sample_reach.
  by apply (reach_seal _ sample_names true); [apply sample_reach|].
Qed.

Example sample_sealed_names :
  (get_name sample_sealed <$> [0%N; 1%N; 3%N; 4%N; 5%N]) =
  [Some [Byte.x61; Byte.x62]; Some []; Some [Byte.x61; Byte.x62; Byte.x63]; Some [Byte.x62]; None].
Proof. vm_compute. reflexivity. Qed.

Lemma names_and_ids_inverse_witness : get_id 32 sample_sealed [Byte.x62] = 4%N.
Proof.
  apply (names_and_ids_inverse 32 sample_sealed [Byte.x62] 4 sample_sealed_reach).
  split; [done|]. vm_compute. reflexivity.
Defined.

Lemma sealing_keeps_names_witness : exists h', finalize_for_save true sample_names = Ok h' /\
  get_name h' 3 = Some [Byte.x61; Byte.x62; Byte.x63].
Proof.
  destruct (sealing_keeps_names 32 sample_names sample_reach) as (h' & Hf & _ & Hn & _).
  - vm_compute. reflexivity.
  - vm_compute. discriminate.
  - intros id n Hn. unfold get_name in Hn. change (lcp_form_ sample_names) with ARENA in Hn.
    apply fmap_Some in Hn as (s & _ & ->). unfold slot_name. rewrite length_slice.
    replace (length (name_arena_ sample_names)) with 6 by (vm_compute; reflexivity).
    unfold max_lcp. lia.
  - exists h'. split; [exact Hf|]. rewrite Hn. vm_compute. reflexivity.
Defined.

Lemma names_by_rank_sorted_witness : exists l, for_each_name_by_rank 32 sample_sealed = Some l /\
  StronglySorted name_lt l.*2 /\ length l = 3.
Proof.
  destruct (names_by_rank_sorted 32 sample_sealed sample_sealed_reach) as (l & Hl & Hs & _ & Hc & _).
  exists l. split; [exact Hl|]. split; [exact Hs|]. rewrite Hc. vm_compute. reflexivity.
Defined.

Lemma load_saved_hasher_witness : exists h', load_hasher 32 (save_hasher sample_sealed) = Ok h' /\
  get_id 32 h' [Byte.x62] = 4%N.
Proof.
  destruct (load_saved_hasher 32 sample_sealed sample_sealed_reach) as (h' & Hl & _ & _ & _ & Hi).
  exists h'. split; [exact Hl|]. rewrite Hi. vm_compute. reflexivity.
Defined.

Lemma empty_name_breaks_load_witness : exists h' id, emplace 32 [] sample_names = Ok (h', id) /\
  load_hasher 32 (save_hasher h') = FatalExit corrupt_names.
Proof.
  destruct (empty_name_breaks_load 32 sample_names sample_reach) as (h' & id & He & _ & _ & Hl).
  - vm_compute. reflexivity.
  - vm_compute. reflexivity.
  - exists h', id. split; [exact He | exact Hl].
Defined.
