(* ===== verification/IdMap.v ===== *)
(** From ids to partitions (emir/design/cpp/ds_id_map.h, ds_id_map.cpp).

    Each partition task leaves a slice with the ids it owns.  The merge sorts all
    entries, cuts the id space into segments of 2^20 ids, fills one array per
    segment that has an id, and lists the starts of those segments in an index.
    A query finds the segment in the index and reads the array.  The number of
    bits of a segment is a parameter here; the code uses 20. *)

From stdpp Require Import base list sorting sets.
From Stdlib Require Import ZArith NArith Lia.
From S2P Require Import Prelude.

(** [kIdMapNoPartition] and [kIdMapNoSegment]. *)
Definition kIdMapNoPartition : N := 2 ^ 32 - 1.
Definition kIdMapNoSegment : N := 2 ^ 64 - 1.
Definition kIdMapSegmentBits : N := 20.
Arguments kIdMapNoPartition : simpl never.
Arguments kIdMapNoSegment : simpl never.

(** [DSIdPartitionSliceT]: two parallel arrays. *)
Record DSIdPartitionSlice := { ids_ : list N; pids_ : list N }.
Definition empty_slice : DSIdPartitionSlice := {| ids_ := []; pids_ := [] |}.
Definition slice_add (id pid : N) (s : DSIdPartitionSlice) : DSIdPartitionSlice :=
  {| ids_ := ids_ s ++ [id]; pids_ := pids_ s ++ [pid] |}.
Definition slice_size (s : DSIdPartitionSlice) : nat := length (ids_ s).

Record DSIdPartitionSegment := { id_start_ : N; seg_pids_ : list N }.

Definition partition_of (seg : DSIdPartitionSegment) (id : N) : N :=
  if (id <? id_start_ seg)%N || (N.of_nat (length (seg_pids_ seg)) <=? id - id_start_ seg)%N
  then kIdMapNoPartition
  else default kIdMapNoPartition (seg_pids_ seg !! N.to_nat (id - id_start_ seg)).

Definition DSIdPartitionIndex := list N.

(** [std::lower_bound] on a sorted array: the first element not below [x]. *)
Definition lower_bound (x : N) (l : list N) : option N := snd <$> list_find (fun y => (x <= y)%N) l.

(** The order of the sort: by id, then by partition. *)
Definition entry_le (a b : N * N) : Prop :=
  (a.1 < b.1)%N \/ (a.1 = b.1 /\ (a.2 <= b.2)%N).

#[export] Instance entry_le_dec : RelDecision entry_le.
Proof. intros a b. unfold entry_le. apply _. Defined.
#[export] Instance entry_le_trans : Transitive entry_le.
Proof. intros a b c. unfold entry_le. lia. Qed.
#[export] Instance entry_le_total : Total entry_le.
Proof. intros a b. unfold entry_le. lia. Qed.

Section segments.
Context (bits : N).

Definition segment_size : N := 2 ^ bits.
Definition segment_of (id : N) : N := N.shiftr id bits.
Definition segment_start (id : N) : N := N.shiftl (N.shiftr id bits) bits.

Definition find_segment_start (index : DSIdPartitionIndex) (id : N) : N :=
  let start := segment_start id in
  match lower_bound start index with
  | Some y => if (y =? start)%N then start else kIdMapNoSegment
  | None => kIdMapNoSegment
  end.

Definition has_segment (index : DSIdPartitionIndex) (id : N) : bool :=
  negb (find_segment_start index id =? kIdMapNoSegment)%N.

(** The entries of one slice; [None] (the null pointer) is skipped.  The arrays
    have the same length. *)
Definition slice_entries (s : option DSIdPartitionSlice) : list (N * N) :=
  match s with Some s => zip (ids_ s) (pids_ s) | None => [] end.

Definition collect_entries (slices : list (option DSIdPartitionSlice)) : list (N * N) :=
  concat (slice_entries <$> slices).

(** [fill_segment]: the first valid partition of a slot stays. *)
Definition fill_slot (seg_start : N) (pids : list N) (e : N * N) : list N :=
  let slot := N.to_nat (e.1 - seg_start) in
  if decide (pids !! slot = Some kIdMapNoPartition) then <[slot := e.2]> pids else pids.

Definition fill_segment (seg_start : N) (entries : list (N * N)) : DSIdPartitionSegment :=
  {| id_start_ := seg_start;
     seg_pids_ := foldl (fill_slot seg_start)
       (replicate (N.to_nat segment_size) kIdMapNoPartition) entries |}.

(** The entries at the front that lie in the segment of [seg_start]. *)
Fixpoint take_segment (seg_start : N) (entries : list (N * N)) : list (N * N) * list (N * N) :=
  match entries with
  | e :: rest =>
      if (segment_of e.1 =? segment_of seg_start)%N
      then let '(now, later) := take_segment seg_start rest in (e :: now, later)
      else ([], entries)
  | [] => ([], [])
  end.

(** The loop over the sorted entries; one unit of fuel per entry is enough. *)
Fixpoint segment_loop (fuel : nat) (entries : list (N * N)) : list DSIdPartitionSegment :=
  match fuel, entries with
  | S fuel, e :: rest =>
      let seg_start := segment_start e.1 in
      let '(now, later) := take_segment seg_start rest in
      fill_segment seg_start (e :: now) :: segment_loop fuel later
  | _, _ => []
  end.

Record DSIdPartitionMapResult := {
  map_index : DSIdPartitionIndex;
  map_segments : list DSIdPartitionSegment;
}.

Definition ds_merge_id_partition_slices (slices : list (option DSIdPartitionSlice))
  : DSIdPartitionMapResult :=
  let entries := merge_sort entry_le (collect_entries slices) in
  let segments := segment_loop (length entries) entries in
  {| map_index := id_start_ <$> segments; map_segments := segments |}.

(** A query: the segment object is the one stored under its start. *)
Definition find_partition (m : DSIdPartitionMapResult) (id : N) : N :=
  let start := find_segment_start (map_index m) id in
  if (start =? kIdMapNoSegment)%N then kIdMapNoPartition
  else match list_find (fun seg => id_start_ seg = start) (map_segments m) with
       | Some (_, seg) => partition_of seg id
       | None => kIdMapNoPartition
       end.

(** * Segments of sorted entries *)

(** The least partition registered for [id]. *)
Fixpoint least_pid (id : N) (entries : list (N * N)) : N :=
  match entries with
  | [] => kIdMapNoPartition
  | (i, p) :: rest => if (i =? id)%N then N.min p (least_pid id rest) else least_pid id rest
  end.

Lemma least_pid_bound id es :
  (least_pid id es <= kIdMapNoPartition)%N /\
  (forall e, e ∈ es -> e.1 = id -> (least_pid id es <= e.2)%N) /\
  (least_pid id es = kIdMapNoPartition \/ (id, least_pid id es) ∈ es).
Proof.
  induction es as [|[i p] es (IH1 & IH2 & IH3)]; cbn.
  { split; [lia|]. split; [|by left]. intros e He. by apply elem_of_nil in He. }
  destruct (N.eqb_spec i id) as [->|Hne].
  - split; [lia|]. split.
    + intros e [->|He]%elem_of_cons Ei; cbn; [lia|]. specialize (IH2 e He Ei). lia.
    + destruct (N.min_spec p (least_pid id es)) as [[Hlt E]|[Hle E]].
      * right. rewrite E. set_solver.
      * rewrite E. destruct IH3; [by left|right; set_solver].
  - split; [done|]. split.
    + intros e [->|He]%elem_of_cons Ei; [done|]. auto.
    + destruct IH3; [by left|right; set_solver].
Qed.

(** The least partition depends on the entries of the id only, not on their order. *)
Lemma least_pid_ext id es1 es2 :
  (forall e, e.1 = id -> e ∈ es1 <-> e ∈ es2) -> least_pid id es1 = least_pid id es2.
Proof.
  intros Hiff.
  destruct (least_pid_bound id es1) as (A1 & A2 & A3), (least_pid_bound id es2) as (B1 & B2 & B3).
  assert (least_pid id es1 <= least_pid id es2)%N.
  { destruct B3 as [->|Hin]; [done|]. apply Hiff in Hin; [|done]. by apply (A2 _ Hin). }
  assert (least_pid id es2 <= least_pid id es1)%N.
  { destruct A3 as [->|Hin]; [done|]. apply Hiff in Hin; [|done]. by apply (B2 _ Hin). }
  lia.
Qed.

Lemma segment_size_pos : (0 < segment_size)%N.
Proof. unfold segment_size. apply N.neq_0_lt_0, N.pow_nonzero. done. Qed.

Lemma segment_of_div id : segment_of id = (id / segment_size)%N.
Proof. apply N.shiftr_div_pow2. Qed.

Lemma segment_start_mul id : segment_start id = (segment_of id * segment_size)%N.
Proof. apply N.shiftl_mul_pow2. Qed.

Lemma segment_of_start id : segment_of (segment_start id) = segment_of id.
Proof.
  rewrite (segment_of_div (segment_start id)), segment_start_mul.
  apply N.div_mul. pose proof segment_size_pos. lia.
Qed.

Lemma segment_offset id : (segment_start id <= id < segment_start id + segment_size)%N.
Proof.
  rewrite segment_start_mul, segment_of_div. pose proof segment_size_pos.
  pose proof (N.div_mod id segment_size ltac:(lia)).
  pose proof (N.mod_lt id segment_size ltac:(lia)).
  generalize dependent (id / segment_size)%N. generalize dependent (id mod segment_size)%N.
  generalize dependent segment_size. intros. nia.
Qed.

Lemma segment_of_mono a b : (a <= b)%N -> (segment_of a <= segment_of b)%N.
Proof. intros. rewrite !segment_of_div. apply N.Div0.div_le_mono. done. Qed.

Lemma segment_start_inj a b : segment_start a = segment_start b <-> segment_of a = segment_of b.
Proof.
  split; [|rewrite !segment_start_mul; congruence].
  intros E. by rewrite <- (segment_of_start a), E, segment_of_start.
Qed.

(** Filling an array: an empty slot gets the least partition of its id. *)
Lemma foldl_fill_slot start es pids id :
  StronglySorted entry_le es -> (forall e, e ∈ es -> (start <= e.1)%N) ->
  (forall e, e ∈ es -> (e.2 <= kIdMapNoPartition)%N) ->
  (start <= id)%N -> N.to_nat (id - start) < length pids ->
  foldl (fill_slot start) pids es !! N.to_nat (id - start) =
  if decide (pids !! N.to_nat (id - start) = Some kIdMapNoPartition) then Some (least_pid id es)
  else pids !! N.to_nat (id - start).
Proof.
  intros Hs. revert pids. induction Hs as [|[i p] es Hs IH Hall]; intros pids Hst Hp Hid Hlen; cbn.
  { by destruct (decide _). }
  assert (length (fill_slot start pids (i, p)) = length pids) as Hl.
  { unfold fill_slot. destruct (decide _); [apply length_insert|done]. }
  rewrite IH; [|set_solver|set_solver|done|by rewrite Hl].
  destruct (least_pid_bound id es) as (Hle & _ & Hin).
  assert (p <= kIdMapNoPartition)%N by (apply (Hp (i, p)); set_solver).
  unfold fill_slot. cbn [fst snd]. destruct (N.eqb_spec i id) as [->|Hne].
  - destruct (decide (pids !! _ = Some kIdMapNoPartition)) as [E|E]; [|by rewrite decide_False].
    rewrite list_lookup_insert_eq by done. destruct (decide (Some p = Some _)) as [[= ->]|Hpn].
    + f_equal. lia.
    + f_equal. assert (p <= least_pid id es)%N; [|lia].
      destruct Hin as [->|Hin]; [done|]. rewrite Forall_forall in Hall. specialize (Hall _ Hin).
      unfold entry_le in Hall. cbn in Hall. lia.
  - assert (start <= i)%N by (apply (Hst (i, p)); set_solver).
    destruct (decide (pids !! N.to_nat (i - start) = _)) as [E|E]; [|done].
    by rewrite list_lookup_insert_ne by lia.
Qed.

Lemma length_fill_segment start es : length (seg_pids_ (fill_segment start es)) = N.to_nat segment_size.
Proof.
  cbn. rewrite <- (length_replicate (N.to_nat segment_size) kIdMapNoPartition) at 2.
  generalize (replicate (N.to_nat segment_size) kIdMapNoPartition). induction es as [|e es IH]; intros l; cbn; [done|].
  rewrite IH. unfold fill_slot. destruct (decide _); [apply length_insert|done].
Qed.

Lemma partition_of_filled es id :
  StronglySorted entry_le es -> (forall e, e ∈ es -> segment_of e.1 = segment_of id) ->
  (forall e, e ∈ es -> (e.2 <= kIdMapNoPartition)%N) ->
  partition_of (fill_segment (segment_start id) es) id = least_pid id es.
Proof.
  intros Hs Hseg Hp. pose proof (segment_offset id) as Hoff. unfold partition_of.
  rewrite length_fill_segment. cbn [id_start_ fill_segment].
  rewrite (proj2 (N.ltb_ge _ _)), (proj2 (N.leb_gt _ _)) by lia. cbn [orb seg_pids_ fill_segment].
  rewrite foldl_fill_slot; [| done | | done | lia | rewrite length_replicate; lia].
  - rewrite decide_True; [done|]. apply lookup_replicate_2. lia.
  - intros e He. rewrite (proj2 (segment_start_inj id e.1)) by (symmetry; auto).
    apply segment_offset.
Qed.

Lemma take_segment_spec start es now later :
  take_segment start es = (now, later) ->
  es = now ++ later /\ (forall e, e ∈ now -> segment_of e.1 = segment_of start) /\
  (forall e, head later = Some e -> segment_of e.1 <> segment_of start) /\ length later <= length es.
Proof.
  revert now later. induction es as [|e es IH]; intros now later; cbn.
  { intros [= <- <-]. repeat split; try done. intros e He. by apply elem_of_nil in He. }
  destruct (N.eqb_spec (segment_of e.1) (segment_of start)) as [E|E].
  - destruct (take_segment start es) as [now' later'] eqn:Et. intros [= <- <-].
    destruct (IH _ _ eq_refl) as (-> & Hn & Hl & Hlen). split; [done|].
    split; [set_solver|]. split; [done|]. cbn in *. lia.
  - intros [= <- <-]. split; [done|]. split; [set_solver|]. split; [by intros ? [= ->]|]. cbn. lia.
Qed.

Lemma segment_loop_spec fuel es :
  StronglySorted entry_le es -> length es <= fuel ->
  let segs := segment_loop fuel es in
  StronglySorted N.lt (id_start_ <$> segs) /\
  (forall seg, seg ∈ segs -> exists id part,
     seg = fill_segment (segment_start id) part /\ StronglySorted entry_le part /\
     (exists p, (id, p) ∈ part) /\
     forall e, e ∈ part <-> e ∈ es /\ segment_of e.1 = segment_of id) /\
  (forall e, e ∈ es -> segment_start e.1 ∈ id_start_ <$> segs).
Proof.
  revert es. induction fuel as [|fuel IH]; intros [|[id p] es] Hs Hlen; cbn in Hlen; try lia;
    [cbn; repeat split; [constructor|set_solver..]..|].
  cbn. destruct (take_segment _ es) as [now later] eqn:Et.
  destruct (take_segment_spec _ _ _ _ Et) as (-> & Hnow & Hhead & Hll).
  rewrite segment_of_start in Hnow. setoid_rewrite segment_of_start in Hhead.
  apply StronglySorted_inv in Hs as [Hs Hall]. rewrite Forall_forall in Hall.
  apply StronglySorted_app_inv in Hs as (Hs1 & Hs2 & Hcross).
  assert (forall e, e ∈ later -> (segment_of id < segment_of e.1)%N) as Hlater.
  { intros e He. assert (segment_of id <= segment_of e.1)%N.
    { apply segment_of_mono. assert (entry_le (id, p) e) by (apply Hall; set_solver).
      unfold entry_le in *. cbn in *. lia. }
    destruct later as [|e0 later]; [by apply elem_of_nil in He|].
    specialize (Hhead e0 eq_refl).
    assert (segment_of id <= segment_of e0.1)%N.
    { apply segment_of_mono. assert (entry_le (id, p) e0) by (apply Hall; set_solver).
      unfold entry_le in *. cbn in *. lia. }
    assert (segment_of e0.1 <= segment_of e.1)%N; [|lia].
    apply elem_of_cons in He as [->|He]; [done|]. apply segment_of_mono.
    apply StronglySorted_inv in Hs2 as [_ Hf]. rewrite Forall_forall in Hf. specialize (Hf e He).
    unfold entry_le in Hf. lia. }
  destruct (IH later Hs2) as (I1 & I2 & I3); [rewrite length_app in Hlen; lia|].
  split; [|split].
  - constructor; [done|]. apply Forall_forall. intros s (seg & -> & Hseg)%list_elem_of_fmap.
    destruct (I2 seg Hseg) as (id' & part & -> & _ & (p' & Hin) & Hpart). cbn.
    apply Hpart in Hin as [Hin _]. specialize (Hlater _ Hin). cbn in Hlater.
    rewrite !segment_start_mul. apply N.mul_lt_mono_pos_r; [apply segment_size_pos|done].
  - intros seg [->|Hseg]%elem_of_cons.
    + exists id, ((id, p) :: now). split; [done|]. split.
      { constructor; [done|]. apply Forall_forall. intros e He. apply Hall. set_solver. }
      split; [exists p; set_solver|]. intros e. split.
      * intros [->|He]%elem_of_cons; [set_solver|]. split; [set_solver|by apply Hnow].
      * intros [[->|[?|He]%elem_of_app]%elem_of_cons Ee]; [set_solver..|].
        specialize (Hlater e He). lia.
    + destruct (I2 seg Hseg) as (id' & part & -> & Hsp & (p' & Hin) & Hpart).
      exists id', part. split; [done|]. split; [done|]. split; [by exists p'|].
      intros e. rewrite Hpart. split; [set_solver|]. intros [[->|[He|He]%elem_of_app]%elem_of_cons Ee];
        [| |done]; apply Hpart in Hin as [Hin _]; specialize (Hlater _ Hin); cbn in *;
        [|rewrite (Hnow e He) in Ee]; lia.
  - intros e [->|[He|He]%elem_of_app]%elem_of_cons; cbn; [set_solver| |set_solver].
    apply elem_of_cons. left. by apply segment_start_inj, Hnow.
Qed.

(** * Queries *)

Lemma lower_bound_hit x l :
  StronglySorted N.lt l -> x ∈ l -> lower_bound x l = Some x.
Proof.
  intros Hs. unfold lower_bound. induction Hs as [|a l Hs IH Hall]; intros Hin; [by apply elem_of_nil in Hin|].
  cbn. rewrite Forall_forall in Hall. apply elem_of_cons in Hin as [->|Hin].
  - by rewrite decide_True by lia.
  - specialize (Hall x Hin). rewrite decide_False by lia. specialize (IH Hin).
    by destruct (list_find _ l) as [[? ?]|].
Qed.

Lemma lower_bound_elem x l y : lower_bound x l = Some y -> y ∈ l.
Proof.
  unfold lower_bound. intros ([i z] & Hf & ->)%fmap_Some. apply list_find_Some in Hf as (Hi & _).
  by eapply list_elem_of_lookup_2.
Qed.

(** Ids are 64 bits wide, a segment has at least two ids and at most half of them. *)
Context (Hbits : (1 <= bits < 64)%N).

Lemma start_not_sentinel id : (id < 2 ^ 64)%N -> segment_start id <> kIdMapNoSegment.
Proof.
  intros Hid E. pose proof (segment_start_mul id) as Hm. rewrite E in Hm.
  assert (exists k, kIdMapNoSegment = 2 * k)%N as [k Hk].
  { exists (segment_of id * 2 ^ (bits - 1))%N. rewrite Hm. unfold segment_size.
    replace (2 ^ bits)%N with (2 * 2 ^ (bits - 1))%N; [lia|].
    rewrite <- N.pow_succ_r'. f_equal. lia. }
  unfold kIdMapNoSegment in Hk. lia.
Qed.

Lemma find_segment_start_spec index id :
  StronglySorted N.lt index -> (id < 2 ^ 64)%N ->
  find_segment_start index id = if decide (segment_start id ∈ index) then segment_start id else kIdMapNoSegment.
Proof.
  intros Hs Hid. unfold find_segment_start. destruct (decide _) as [Hin|Hin].
  - by rewrite lower_bound_hit, N.eqb_refl.
  - destruct (lower_bound _ _) as [y|] eqn:E; [|done]. apply lower_bound_elem in E.
    destruct (N.eqb_spec y (segment_start id)) as [->|]; done.
Qed.

Lemma sorted_entries slices : StronglySorted entry_le (merge_sort entry_le (collect_entries slices)).
Proof. apply sort_strongly; apply _. Qed.

Lemma find_partition_least slices id :
  (id < 2 ^ 64)%N -> (forall e, e ∈ collect_entries slices -> (e.2 <= kIdMapNoPartition)%N) ->
  find_partition (ds_merge_id_partition_slices slices) id = least_pid id (collect_entries slices).
Proof.
  intros Hid Hp. set (es := merge_sort entry_le (collect_entries slices)).
  assert (forall e, e ∈ es <-> e ∈ collect_entries slices) as Hes by (intros; apply sort_elem).
  destruct (segment_loop_spec (length es) es) as (S1 & S2 & S3); [apply sorted_entries|done|].
  unfold find_partition, ds_merge_id_partition_slices. fold es. cbn [map_index map_segments].
  set (segs := segment_loop (length es) es) in *.
  rewrite find_segment_start_spec by done. destruct (decide _) as [Hin|Hin].
  - rewrite (proj2 (N.eqb_neq _ _)) by (by apply start_not_sentinel).
    destruct (list_find _ segs) as [[i seg]|] eqn:Hf.
    + apply list_find_Some in Hf as (Hi & Hst & _).
      destruct (S2 seg) as (id' & part & -> & Hsp & _ & Hpart); [by eapply list_elem_of_lookup_2|].
      cbn in Hst. rewrite Hst. rewrite segment_start_inj in Hst.
      rewrite partition_of_filled; [|done|intros e He; apply Hpart in He as [_ ->]; done|].
      * apply least_pid_ext. intros e <-. rewrite Hpart, Hes. split; [by intros [? _]|done].
      * intros e [He _]%Hpart. by apply Hp, Hes.
    + apply list_elem_of_fmap in Hin as (seg & Hst & Hseg).
      apply list_find_None in Hf. rewrite Forall_forall in Hf. by destruct (Hf seg Hseg).
  - cbn. destruct (least_pid_bound id (collect_entries slices)) as (_ & _ & [->|Hl]); [done|].
    destruct Hin. apply Hes in Hl. by apply S3 in Hl.
Qed.

(** C37: a query through index and segment is exact.  For slices with valid
    partition ids, in any order and with null slices among them, an id some slice
    holds is found in the least partition that holds it, an id no slice holds is
    in no partition; the index is strictly ascending and has the segment of an id
    exactly when some slice has an id in it. *)
Theorem id_query_exact slices id :
  (id < 2 ^ 64)%N ->
  (forall e, e ∈ collect_entries slices -> (e.2 < kIdMapNoPartition)%N) ->
  let m := ds_merge_id_partition_slices slices in
  (forall p, (id, p) ∈ collect_entries slices ->
     (id, find_partition m id) ∈ collect_entries slices /\ (find_partition m id <= p)%N) /\
  ((forall p, (id, p) ∉ collect_entries slices) -> find_partition m id = kIdMapNoPartition) /\
  StronglySorted N.lt (map_index m) /\
  (has_segment (map_index m) id = true <->
   exists e, e ∈ collect_entries slices /\ segment_of e.1 = segment_of id).
Proof.
  intros Hid Hp m. subst m. rewrite find_partition_least; [|done|intros e He; by apply N.lt_le_incl, Hp].
  destruct (least_pid_bound id (collect_entries slices)) as (_ & Hmin & Hcase).
  destruct (segment_loop_spec _ _ (sorted_entries slices) (le_n _)) as (S1 & S2 & S3).
  split; [|split; [|split]].
  - intros p Hin. specialize (Hmin _ Hin eq_refl). cbn in Hmin. specialize (Hp _ Hin). cbn in Hp.
    split; [|done]. destruct Hcase as [E|?]; [rewrite E in Hmin; lia|done].
  - intros Hno. destruct Hcase as [?|Hin]; [done|]. by destruct (Hno _ Hin).
  - done.
  - unfold has_segment. rewrite find_segment_start_spec by done. cbn [map_index ds_merge_id_partition_slices].
    destruct (decide _) as [Hin|Hin].
    + rewrite (proj2 (N.eqb_neq _ _)) by (by apply start_not_sentinel). split; [|done]. intros _.
      apply list_elem_of_fmap in Hin as (seg & Est & Hseg).
      destruct (S2 seg Hseg) as (id' & part & -> & _ & (p & Hip) & Hpart). cbn in Est.
      apply Hpart in Hip as [Hip _]. apply sort_elem in Hip. exists (id', p). split; [done|].
      by apply segment_start_inj.
    + rewrite N.eqb_refl. split; [done|]. intros (e & He & Eseg). destruct Hin.
      apply segment_start_inj in Eseg as <-. apply S3. by apply sort_elem.
Qed.
End segments.

Definition sample_slices : list (option DSIdPartitionSlice) :=
  [Some (slice_add 7 1 (slice_add 3000000 1 empty_slice)); None; Some (slice_add 9 0 empty_slice)].

Lemma id_query_exact_witness :
  let m := ds_merge_id_partition_slices kIdMapSegmentBits sample_slices in
  (find_partition kIdMapSegmentBits m 3000000 <= 1)%N /\
  find_partition kIdMapSegmentBits m 3000001 = kIdMapNoPartition.
Proof.
  assert (forall e, e ∈ collect_entries sample_slices -> (e.2 < kIdMapNoPartition)%N) as Hp.
  { apply Forall_forall. repeat constructor. }
  split.
  - apply (id_query_exact kIdMapSegmentBits ltac:(vm_compute; split; congruence) sample_slices 3000000
      ltac:(vm_compute; reflexivity) Hp). set_solver.
  - apply (id_query_exact kIdMapSegmentBits ltac:(vm_compute; split; congruence) sample_slices 3000001
      ltac:(vm_compute; reflexivity) Hp).
    intros p Hin. vm_compute in Hin. repeat (apply elem_of_cons in Hin as [[=]|Hin]).
    by apply elem_of_nil in Hin.
Defined.

(** The same queries, evaluated on segments of 8 ids. *)
Example sample_queries :
  find_partition 3 (ds_merge_id_partition_slices 3 sample_slices) <$> [7%N; 8%N; 9%N; 3000000%N; 20%N]
  = [1%N; kIdMapNoPartition; 0%N; 1%N; kIdMapNoPartition].
Proof. vm_compute. reflexivity. Qed.
