(* ===== verification/BlockData.v ===== *)
(** What one DEF file contributes to the design database
    (emir/design/cpp/ds_types.h, ds_types.cpp: [DSInstance], [DSBlockBuildData],
    [DSNetBuildData]).

    A block numbers its instances and nets locally from 1; local instance 0
    stands for the block itself.  Names are kept apart from the data, in two
    hashers.  Shared pointers that are never null are the values they point to;
    the hashers, which may be absent after loading, are options. *)

From stdpp Require Import base gmap list sets fin_maps.
From Stdlib Require Import ZArith NArith Lia.
From S2P Require Import Prelude Bytes NameHasher Geometry.
Import Corelib.Init.Datatypes(nat(..)) Corelib.Numbers.BinNums(N(..)).

Inductive DSPlacementStatus := UNPLACED | FIXED | COVER | PLACED.
#[export] Instance placement_eq_dec : EqDecision DSPlacementStatus.
Proof. solve_decision. Defined.

Inductive DSNetUse := SIGNAL | POWER | GROUND | CLOCK | TIEOFF | ANALOG | RESET | SCAN.
#[export] Instance net_use_eq_dec : EqDecision DSNetUse.
Proof. solve_decision. Defined.

Record DSInstance := {
  cell_id_ : N;
  transform_ : GEOTransformT;
  placement_status_ : DSPlacementStatus;
  primary_ : bool;
}.

(** A rectangle on a layer. *)
Record DSShapeRef := { layer_id_ : N; rect_ : GEORectT }.

(** Ids of the design space are 64 bits wide. *)
Definition id_bits : N := 64.
Arguments id_bits : simpl never.

(** * Blocks *)

Section block.
Context {B : Type} `{!DSNameBackend B}.

(** The instances, the names and the obstructions; the density grid, the
    statistics and the table of fake cells of the class are kept apart. *)
Record DSBlockBuildData := {
  block_name_ : bytes;
  instances_ : gmap N DSInstance;
  instance_names_ : option (DSNameHasherT B);
  net_names_ : option (DSNameHasherT B);
  obstructions_ : list DSShapeRef;
  next_instance_id_ : N;
  next_net_id_ : N;
}.

Definition new_block : DSBlockBuildData :=
  {| block_name_ := []; instances_ := ∅; instance_names_ := None; net_names_ := None; obstructions_ := [];
     next_instance_id_ := 1; next_net_id_ := 1 |}.

Definition ensure_names (b : DSBlockBuildData) : DSBlockBuildData :=
  {| block_name_ := block_name_ b; instances_ := instances_ b;
     instance_names_ := Some (default new_hasher (instance_names_ b));
     net_names_ := Some (default new_hasher (net_names_ b)); obstructions_ := obstructions_ b;
     next_instance_id_ := next_instance_id_ b; next_net_id_ := next_net_id_ b |}.

(** The default placement of a [DSInstance]. *)
Definition placeholder (cell : N) : DSInstance :=
  {| cell_id_ := cell; transform_ := identity; placement_status_ := UNPLACED; primary_ := false |}.

Definition init_placeholder (name : bytes) (cell : N) (b : DSBlockBuildData) : DSBlockBuildData :=
  if decide (instances_ b = ∅) then
    let b := ensure_names b in
    {| block_name_ := name; instances_ := {[ 0%N := placeholder cell ]};
       instance_names_ := instance_names_ b; net_names_ := net_names_ b;
       obstructions_ := obstructions_ b; next_instance_id_ := 1; next_net_id_ := next_net_id_ b |}
  else b.

(** [Undefined]: the hasher is dereferenced before [ensure_names]. *)
Definition add_instance (inst : DSInstance) (name : bytes) (b : DSBlockBuildData)
  : outcome (DSBlockBuildData * N) :=
  h ← defined (instance_names_ b);
  let id := next_instance_id_ b in
  h' ← assign id_bits name id h;
  Ok ({| block_name_ := block_name_ b;
         instances_ := match instances_ b !! id with
                       | Some _ => instances_ b
                       | None => <[id := inst]> (instances_ b)
                       end;
         instance_names_ := Some h'; net_names_ := net_names_ b; obstructions_ := obstructions_ b;
         next_instance_id_ := id + 1; next_net_id_ := next_net_id_ b |}, id).

Definition register_net (name : bytes) (b : DSBlockBuildData) : outcome (DSBlockBuildData * N) :=
  let b := ensure_names b in
  let h := default new_hasher (net_names_ b) in
  let existing := get_id id_bits h name in
  if is_valid_id id_bits existing then Ok (b, existing) else
  let id := next_net_id_ b in
  h' ← assign id_bits name id h;
  Ok ({| block_name_ := block_name_ b; instances_ := instances_ b;
         instance_names_ := instance_names_ b; net_names_ := Some h'; obstructions_ := obstructions_ b;
         next_instance_id_ := next_instance_id_ b; next_net_id_ := id + 1 |}, id).

Definition instance_total (b : DSBlockBuildData) : nat := size (instances_ b).
Definition find_instance (b : DSBlockBuildData) (id : N) : option DSInstance := instances_ b !! id.

Definition find_instance_by_name (b : DSBlockBuildData) (name : bytes) : option DSInstance :=
  h ← instance_names_ b;
  let id := get_id id_bits h name in
  if is_valid_id id_bits id then find_instance b id else None.

Definition net_count (b : DSBlockBuildData) : nat :=
  match net_names_ b with Some h => hasher_size h | None => 0 end.

Definition net_name_at (b : DSBlockBuildData) (local_id : N) : option bytes :=
  h ← net_names_ b;
  if is_valid_id id_bits local_id && (local_id <? N.of_nat (name_domain h))%N
  then get_name h local_id else None.

Definition finalize_names (enabled : bool) (h : option (DSNameHasherT B))
  : outcome (option (DSNameHasherT B)) :=
  match h with
  | None => Ok None
  | Some h => h' ← finalize_for_save enabled h; Ok (Some h')
  end.

Definition finalize_names_for_save (enabled : bool) (b : DSBlockBuildData) : outcome DSBlockBuildData :=
  i ← finalize_names enabled (instance_names_ b);
  n ← finalize_names enabled (net_names_ b);
  Ok {| block_name_ := block_name_ b; instances_ := instances_ b; instance_names_ := i;
        net_names_ := n; obstructions_ := obstructions_ b;
        next_instance_id_ := next_instance_id_ b; next_net_id_ := next_net_id_ b |}.

(** ** Blocks of a parsed DEF *)

Inductive block_op := AddInstance (inst : DSInstance) (name : bytes) | RegisterNet (name : bytes).

Definition run_block_op (op : block_op) (b : DSBlockBuildData) : outcome DSBlockBuildData :=
  match op with
  | AddInstance inst name => '(b', _) ← add_instance inst name b; Ok b'
  | RegisterNet name => '(b', _) ← register_net name b; Ok b'
  end.

(** Names are proper, instance names are new (the DEF format makes them unique). *)
Definition block_pre (b : DSBlockBuildData) (op : block_op) : Prop :=
  match op with
  | AddInstance _ name =>
      proper_name name /\ (next_instance_id_ b + 1 < 2 ^ id_bits)%N /\
      forall h, instance_names_ b = Some h -> is_valid_id id_bits (get_id id_bits h name) = false
  | RegisterNet name => proper_name name /\ (next_net_id_ b + 1 < 2 ^ id_bits)%N
  end.

Inductive block_reach : DSBlockBuildData -> Prop :=
  | block_init name cell : block_reach (init_placeholder name cell new_block)
  | block_step b op b' :
      block_reach b -> block_pre b op -> run_block_op op b = Ok b' -> block_reach b'.

(** The names of the ids 1 .. next-1, each with one. *)
Record names_upto (h : DSNameHasherT B) (next : N) : Prop := {
  nu_ok : arena_ok id_bits h;
  nu_count : hasher_size h = N.to_nat (next - 1);
  nu_pos : (1 <= next)%N;
  nu_range n i : backend_map (backend_ h) !! n = Some i -> (1 <= i < next)%N;
  nu_named i : (1 <= i < next)%N -> exists n, backend_map (backend_ h) !! n = Some i;
}.

Record block_ok (b : DSBlockBuildData) : Prop := {
  bo_instances : exists h, instance_names_ b = Some h /\ names_upto h (next_instance_id_ b);
  bo_nets : exists h, net_names_ b = Some h /\ names_upto h (next_net_id_ b);
  bo_dom i : is_Some (instances_ b !! i) <-> (i < next_instance_id_ b)%N;
  bo_total : instance_total b = N.to_nat (next_instance_id_ b);
}.

Lemma names_upto_new : names_upto new_hasher 1.
Proof.
  split; [apply new_hasher_ok | | done | | lia].
  - unfold hasher_size. cbn. by rewrite backend_size_map, backend_new_map.
  - intros n i. cbn. by rewrite backend_new_map, lookup_empty.
Qed.

(** Registering a new name under the next id. *)
Lemma names_upto_assign h next name :
  names_upto h next -> proper_name name -> (next + 1 < 2 ^ id_bits)%N ->
  backend_map (backend_ h) !! name = None ->
  exists h', assign id_bits name next h = Ok h' /\ names_upto h' (next + 1).
Proof.
  intros [Hok Hc Hpos Hr Hn] Hname Hroom Hnone.
  destruct (assign_ok id_bits h name next Hok) as [Has Hok'].
  { split; [done|]. split; [done|]. intros n Hgn.
    destruct (decide (n = [])) as [->|Hne]; [by left|].
    assert (backend_map (backend_ h) !! n = Some next) as E by (by apply (ok_map _ _ Hok)).
    apply Hr in E. lia. }
  eexists. split; [exact Has|]. split; [done| |lia| |].
  - revert Hc. unfold hasher_size. cbn [backend_ with_names].
    rewrite !backend_size_map, backend_insert_map, map_size_insert_None by done. lia.
  - intros n i. cbn [backend_ with_names]. rewrite backend_insert_map.
    intros [[-> ->]|[_ E]]%lookup_insert_Some; [lia|]. apply Hr in E. lia.
  - intros i Hi. cbn [backend_ with_names]. rewrite backend_insert_map.
    destruct (decide (i = next)) as [->|Hne].
    + exists name. apply lookup_insert_eq.
    + destruct (Hn i) as [n E]; [lia|]. exists n. rewrite lookup_insert_ne; [done|].
      intros ->. congruence.
Qed.

Lemma get_id_fresh h name :
  arena_ok id_bits h -> is_valid_id id_bits (get_id id_bits h name) = false <->
  backend_map (backend_ h) !! name = None.
Proof.
  intros Hok. unfold get_id. rewrite eq_None_not_Some, <- (found_iff id_bits h name Hok).
  by destruct (is_valid_id _ _).
Qed.

Lemma add_instance_ok b inst name :
  block_ok b -> block_pre b (AddInstance inst name) ->
  exists b', add_instance inst name b = Ok (b', next_instance_id_ b) /\ block_ok b'.
Proof.
  intros [(h & Hh & Hnu) Hnets Hdom Htot] (Hname & Hroom & Hfresh).
  specialize (Hfresh h Hh). apply get_id_fresh in Hfresh; [|apply Hnu].
  destruct (names_upto_assign h _ name Hnu Hname Hroom Hfresh) as (h' & Has & Hnu').
  unfold add_instance. rewrite Hh. cbn [defined mbind outcome_bind]. rewrite Has.
  cbn [mbind outcome_bind].
  assert (instances_ b !! next_instance_id_ b = None) as Hnone.
  { apply eq_None_not_Some. rewrite Hdom. lia. }
  rewrite Hnone. eexists. split; [done|]. split; cbn.
  - by exists h'.
  - done.
  - intros i. rewrite lookup_insert_is_Some', Hdom. lia.
  - unfold instance_total in *. cbn. rewrite map_size_insert_None by done. lia.
Qed.

Lemma ensure_names_ok b : block_ok b -> ensure_names b = b.
Proof.
  intros [(h & Hh & _) (h' & Hh' & _) _ _]. unfold ensure_names. rewrite Hh, Hh'.
  destruct b. cbn in *. by subst.
Qed.

Lemma register_net_ok b name :
  block_ok b -> block_pre b (RegisterNet name) ->
  exists b' id, register_net name b = Ok (b', id) /\ block_ok b'.
Proof.
  intros Hb [Hname Hroom]. unfold register_net. rewrite (ensure_names_ok b Hb).
  destruct Hb as [Hinst (h & Hh & Hnu) Hdom Htot] eqn:Eb. rewrite Hh. cbn [default from_option id].
  destruct (is_valid_id _ _) eqn:E; [by eauto|].
  apply get_id_fresh in E; [|apply Hnu].
  destruct (names_upto_assign h _ name Hnu Hname Hroom E) as (h' & -> & Hnu').
  eexists _, _. split; [done|]. split; cbn; try done. by exists h'.
Qed.

Lemma block_reach_ok b : block_reach b -> block_ok b.
Proof.
  induction 1 as [name cell|b op b' _ IH Hpre Hrun].
  - unfold init_placeholder. cbn. rewrite decide_True by done. split; cbn.
    + exists new_hasher. split; [done|apply names_upto_new].
    + exists new_hasher. split; [done|apply names_upto_new].
    + intros i. destruct (decide (i = 0%N)) as [->|].
      * rewrite lookup_singleton_eq. split; [lia|by eexists].
      * rewrite lookup_singleton_ne by done. split; [by intros [? ?]|lia].
    + unfold instance_total. cbn. by rewrite map_size_singleton.
  - destruct op as [inst name|name]; cbn in Hrun.
    + destruct (add_instance_ok b inst name IH Hpre) as (b'' & Hb'' & Hok).
      rewrite Hb'' in Hrun. cbn in Hrun. congruence.
    + destruct (register_net_ok b name IH Hpre) as (b'' & id & Hb'' & Hok).
      rewrite Hb'' in Hrun. cbn in Hrun. congruence.
Qed.

(** C38: a block numbers without gaps.  After any sequence of instances with new
    names and nets with old or new names, the local ids below [instance_total]
    are exactly the instances, every one but the block itself has a name that
    finds it, and the nets have exactly the ids 1 .. [net_count]. *)
Theorem local_numbering b :
  block_reach b ->
  (forall i, is_Some (find_instance b i) <-> (i < N.of_nat (instance_total b))%N) /\
  (forall i, (1 <= i < N.of_nat (instance_total b))%N ->
     exists name, find_instance_by_name b name = find_instance b i) /\
  (forall i, (1 <= i <= N.of_nat (net_count b))%N <->
     exists name, name <> [] /\ net_name_at b i = Some name).
Proof.
  intros Hb%block_reach_ok. destruct Hb as [(h & Hh & Hi) (hn & Hhn & Hn) Hdom Htot].
  rewrite Htot, N2Nat.id. unfold net_count. rewrite Hhn, (nu_count _ _ Hn), N2Nat.id.
  split; [done|]. split.
  - intros i Hi'. destruct (nu_named _ _ Hi i Hi') as [n En]. exists n. unfold find_instance_by_name.
    rewrite Hh. cbn [mbind option_bind].
    assert (is_valid_id id_bits (get_id id_bits h n) = true) as ->.
    { apply found_iff; [apply Hi|by eexists]. }
    unfold get_id. by rewrite backend_find_map, En.
  - intros i. unfold net_name_at. rewrite Hhn. cbn [mbind option_bind]. split.
    + intros Hr. destruct (nu_named _ _ Hn i) as [n En]; [lia|]. pose proof En as Hm.
      apply (ok_map _ _ (nu_ok _ _ Hn)) in En as [Hne Hgn]. exists n. split; [done|].
      rewrite (proj2 (N.ltb_lt i _)); [|unfold name_domain; rewrite (ok_form _ _ (nu_ok _ _ Hn));
        by eapply arena_get_name_valid; [apply Hn|]].
      rewrite andb_true_r. destruct (is_valid_id id_bits i) eqn:Ev; [done|].
      apply (registered_valid id_bits) in Hm; [|apply Hn]. unfold is_valid_id in Ev.
      by apply negb_false_iff, N.eqb_eq in Ev.
    + intros (n & Hne & Hgn). destruct (_ && _); [|done].
      assert (backend_map (backend_ hn) !! n = Some i) as Hm by (by apply (ok_map _ _ (nu_ok _ _ Hn))).
      apply (nu_range _ _ Hn) in Hm. lia.
Qed.
End block.
Arguments DSBlockBuildData B : clear implicits.

(** * Net contents *)

Record DSNetConnection := {
  instance_local_id_ : N;
  pin_id_ : N;
  conn_port : bool; conn_driver : bool; conn_receiver : bool;
  conn_power : bool; conn_ground : bool; conn_clock : bool;
}.

Record DSNetWire := { wire_layer_id_ : N; wire_width_ : Z; wire_points_ : list GEOPointT }.
Record DSNetRect := { rect_layer_id_ : N; net_rect_ : GEORectT }.
Record DSViaInstance := { via_cell_id_ : N; via_pos_ : GEOPointT }.

(** The counters of [DSNetStats] that the operations below maintain. *)
Record DSNetStats := {
  connection_count : N; wire_count : N; rect_count : N; via_instance_count : N;
}.

Record DSNetBuildData := {
  connections_ : gmap N (list DSNetConnection);
  wires_ : gmap N (list DSNetWire);
  rects_ : gmap N (list DSNetRect);
  via_instances_ : gmap N DSViaInstance;
  net_via_ids_ : gmap N (list N);
  pg_nets_ : gset N;
  net_uses_ : gmap N DSNetUse;
  net_stats_ : DSNetStats;
  next_via_instance_id_ : N;
}.

Definition new_nets : DSNetBuildData :=
  {| connections_ := ∅; wires_ := ∅; rects_ := ∅; via_instances_ := ∅; net_via_ids_ := ∅;
     pg_nets_ := ∅; net_uses_ := ∅;
     net_stats_ := {| connection_count := 0; wire_count := 0; rect_count := 0;
                      via_instance_count := 0 |};
     next_via_instance_id_ := 1 |}.

(** [vec = m[k]], created when absent, then [push_back]. *)
Definition push_at {A} (k : N) (x : A) (m : gmap N (list A)) : gmap N (list A) :=
  <[k := default [] (m !! k) ++ [x]]> m.

Definition add_connection (net : N) (c : DSNetConnection) (d : DSNetBuildData) : DSNetBuildData :=
  let st := net_stats_ d in
  {| connections_ := push_at net c (connections_ d); wires_ := wires_ d; rects_ := rects_ d;
     via_instances_ := via_instances_ d; net_via_ids_ := net_via_ids_ d; pg_nets_ := pg_nets_ d;
     net_uses_ := net_uses_ d;
     net_stats_ := {| connection_count := connection_count st + 1; wire_count := wire_count st;
                      rect_count := rect_count st; via_instance_count := via_instance_count st |};
     next_via_instance_id_ := next_via_instance_id_ d |}.

Definition add_wire (net : N) (w : DSNetWire) (d : DSNetBuildData) : DSNetBuildData :=
  let st := net_stats_ d in
  {| connections_ := connections_ d; wires_ := push_at net w (wires_ d); rects_ := rects_ d;
     via_instances_ := via_instances_ d; net_via_ids_ := net_via_ids_ d; pg_nets_ := pg_nets_ d;
     net_uses_ := net_uses_ d;
     net_stats_ := {| connection_count := connection_count st; wire_count := wire_count st + 1;
                      rect_count := rect_count st; via_instance_count := via_instance_count st |};
     next_via_instance_id_ := next_via_instance_id_ d |}.

Definition add_rect (net : N) (r : DSNetRect) (d : DSNetBuildData) : DSNetBuildData :=
  let st := net_stats_ d in
  {| connections_ := connections_ d; wires_ := wires_ d; rects_ := push_at net r (rects_ d);
     via_instances_ := via_instances_ d; net_via_ids_ := net_via_ids_ d; pg_nets_ := pg_nets_ d;
     net_uses_ := net_uses_ d;
     net_stats_ := {| connection_count := connection_count st; wire_count := wire_count st;
                      rect_count := rect_count st + 1; via_instance_count := via_instance_count st |};
     next_via_instance_id_ := next_via_instance_id_ d |}.

Definition add_via_instance (net : N) (v : DSViaInstance) (d : DSNetBuildData)
  : DSNetBuildData * N :=
  let st := net_stats_ d in
  let id := next_via_instance_id_ d in
  ({| connections_ := connections_ d; wires_ := wires_ d; rects_ := rects_ d;
      via_instances_ := <[id := v]> (via_instances_ d);
      net_via_ids_ := push_at net id (net_via_ids_ d); pg_nets_ := pg_nets_ d;
      net_uses_ := net_uses_ d;
      net_stats_ := {| connection_count := connection_count st; wire_count := wire_count st;
                       rect_count := rect_count st;
                       via_instance_count := via_instance_count st + 1 |};
      next_via_instance_id_ := id + 1 |}, id).

Definition is_pg_net (d : DSNetBuildData) (net : N) : bool := bool_decide (net ∈ pg_nets_ d).

Definition mark_pg_net (net : N) (d : DSNetBuildData) : DSNetBuildData :=
  {| connections_ := connections_ d; wires_ := wires_ d; rects_ := rects_ d;
     via_instances_ := via_instances_ d; net_via_ids_ := net_via_ids_ d;
     pg_nets_ := {[net]} ∪ pg_nets_ d; net_uses_ := net_uses_ d; net_stats_ := net_stats_ d;
     next_via_instance_id_ := next_via_instance_id_ d |}.

(** Only uses other than SIGNAL are recorded, and the first one stays. *)
Definition record_net_use (net : N) (use : DSNetUse) (d : DSNetBuildData) : DSNetBuildData :=
  if decide (use = SIGNAL) then d else
  {| connections_ := connections_ d; wires_ := wires_ d; rects_ := rects_ d;
     via_instances_ := via_instances_ d; net_via_ids_ := net_via_ids_ d; pg_nets_ := pg_nets_ d;
     net_uses_ := match net_uses_ d !! net with
                  | Some _ => net_uses_ d
                  | None => <[net := use]> (net_uses_ d)
                  end;
     net_stats_ := net_stats_ d; next_via_instance_id_ := next_via_instance_id_ d |}.

Definition net_use_of (d : DSNetBuildData) (net : N) : DSNetUse := default SIGNAL (net_uses_ d !! net).

Inductive net_op :=
  | AddConnection (net : N) (c : DSNetConnection) | AddWire (net : N) (w : DSNetWire)
  | AddRect (net : N) (r : DSNetRect) | AddVia (net : N) (v : DSViaInstance)
  | MarkPg (net : N) | RecordUse (net : N) (u : DSNetUse).

Definition run_net_op (d : DSNetBuildData) (op : net_op) : DSNetBuildData :=
  match op with
  | AddConnection net c => add_connection net c d | AddWire net w => add_wire net w d
  | AddRect net r => add_rect net r d | AddVia net v => (add_via_instance net v d).1
  | MarkPg net => mark_pg_net net d | RecordUse net u => record_net_use net u d
  end.

Definition parsed_nets (ops : list net_op) : DSNetBuildData := foldl run_net_op new_nets ops.

(** The via ids of all nets together. *)
Definition all_via_ids (d : DSNetBuildData) : list N := concat (map_to_list (net_via_ids_ d)).*2.

Lemma concat_values_insert {A} k (l : list A) (m : gmap N (list A)) :
  m !! k = None -> concat (map_to_list (<[k := l]> m)).*2 ≡ₚ l ++ concat (map_to_list m).*2.
Proof. intros Hk. by rewrite map_to_list_insert. Qed.

Lemma push_at_concat {A} k (x : A) m :
  concat (map_to_list (push_at k x m)).*2 ≡ₚ x :: concat (map_to_list m).*2.
Proof.
  unfold push_at. destruct (m !! k) as [l|] eqn:E; cbn.
  - rewrite <- (insert_delete_eq m). rewrite concat_values_insert by apply lookup_delete_eq.
    rewrite <- (assoc_L app). cbn. rewrite <- Permutation_middle. apply Permutation_skip.
    rewrite <- concat_values_insert with (k := k) by apply lookup_delete_eq.
    by rewrite insert_delete_id.
  - by rewrite concat_values_insert.
Qed.

(** The via instances are numbered 1 .. [via_instance_count] and each belongs to
    one net. *)
Lemma via_numbering ops :
  let d := parsed_nets ops in
  next_via_instance_id_ d = (via_instance_count (net_stats_ d) + 1)%N /\
  (forall i, is_Some (via_instances_ d !! i) <-> (1 <= i <= via_instance_count (net_stats_ d))%N) /\
  NoDup (all_via_ids d) /\ forall i, i ∈ all_via_ids d <-> is_Some (via_instances_ d !! i).
Proof.
  unfold parsed_nets. induction ops as [|op ops IH] using rev_ind.
  { cbn. unfold all_via_ids. cbn. rewrite map_to_list_empty. cbn.
    split; [done|]. split; [|split; [constructor|]].
    - intros i. rewrite lookup_empty. split; [by intros [? ?]|lia].
    - intros i. rewrite lookup_empty. split; [by intros ?%elem_of_nil|by intros [? ?]]. }
  rewrite foldl_app. cbn. set (d := foldl run_net_op new_nets ops) in *.
  destruct IH as (Hnext & Hdom & Hnd & Hin). destruct op as [| | |net v| |net u]; cbn; try done;
    [|unfold record_net_use; by destruct (decide _)].
  split; [lia|]. split; [|split].
  - intros i. rewrite lookup_insert_is_Some', Hdom. lia.
  - unfold all_via_ids. cbn. rewrite push_at_concat. apply NoDup_cons. split; [|done].
    intros Hi%Hin%Hdom. lia.
  - intros i. unfold all_via_ids. cbn. rewrite push_at_concat, elem_of_cons, lookup_insert_is_Some'.
    change (i = next_via_instance_id_ d \/ i ∈ all_via_ids d <->
      next_via_instance_id_ d = i \/ is_Some (via_instances_ d !! i)). rewrite Hin. naive_solver.
Qed.

(** * A sample

    Block [B] holds a cell and a net; block [T] places [B] twice. *)

Definition ok_or {A} (d : A) (o : outcome A) : A := match o with Ok a => a | _ => d end.

Definition nT : bytes := [Byte.x54].
Definition nB : bytes := [Byte.x42].
Definition nL : bytes := [Byte.x4c].
Definition nu1 : bytes := [Byte.x75; Byte.x31].
Definition nu2 : bytes := [Byte.x75; Byte.x32].
Definition nx : bytes := [Byte.x78].
Definition ny : bytes := [Byte.x79].
Definition nn : bytes := [Byte.x6e].

Definition sample_inst (cell : N) (x : Z) : DSInstance :=
  {| cell_id_ := cell; transform_ := GEOTransform (GEOPoint x 0) Geometry.N;
     placement_status_ := PLACED; primary_ := false |}.

Definition run_ops (b : DSBlockBuildData DSHasherBackendHash) (ops : list block_op)
  : DSBlockBuildData DSHasherBackendHash :=
  foldl (fun b op => ok_or b (run_block_op op b)) b ops.

Definition sample_T : DSBlockBuildData DSHasherBackendHash :=
  run_ops (init_placeholder nT 0 new_block)
    [AddInstance (sample_inst 1 10) nu1; AddInstance (sample_inst 1 20) nu2;
     AddInstance (sample_inst 2 5) nx].
Definition sample_B : DSBlockBuildData DSHasherBackendHash :=
  run_ops (init_placeholder nB 1 new_block) [AddInstance (sample_inst 2 3) ny; RegisterNet nn].

(** Checks the side conditions of a sequence of operations by evaluation. *)
Definition block_pre_b (b : DSBlockBuildData DSHasherBackendHash) (op : block_op) : bool :=
  let proper (name : bytes) := bool_decide (name <> []) && (Z.of_nat (length name) <? 2 ^ 32)%Z in
  match op with
  | AddInstance _ name =>
      proper name && (next_instance_id_ b + 1 <? 2 ^ id_bits)%N &&
      match instance_names_ b with
      | Some h => negb (is_valid_id id_bits (get_id id_bits h name))
      | None => true
      end
  | RegisterNet name => proper name && (next_net_id_ b + 1 <? 2 ^ id_bits)%N
  end.

Fixpoint ops_pre_b (b : DSBlockBuildData DSHasherBackendHash) (ops : list block_op) : bool :=
  match ops with
  | [] => true
  | op :: ops => block_pre_b b op &&
      match run_block_op op b with Ok b' => ops_pre_b b' ops | _ => false end
  end.

Lemma block_pre_b_ok b op : block_pre_b b op = true -> block_pre b op.
Proof.
  unfold block_pre_b, block_pre, proper_name. destruct op; rewrite !andb_true_iff.
  - intros [[[Hn%bool_decide_eq_true Hl%Z.ltb_lt] Hi%N.ltb_lt] Hv].
    split; [done|]. split; [done|]. intros h Hh. rewrite Hh in Hv. by apply negb_true_iff.
  - intros [[Hn%bool_decide_eq_true Hl%Z.ltb_lt] Hi%N.ltb_lt]. done.
Qed.

Lemma run_ops_reach ops : forall b, block_reach b -> ops_pre_b b ops = true -> block_reach (run_ops b ops).
Proof.
  induction ops as [|op ops IH]; intros b Hb Hpre; [done|]. cbn in Hpre |- *.
  apply andb_true_iff in Hpre as [Hop Hpre].
  destruct (run_block_op op b) as [b'| | |] eqn:Hr; try done.
  apply IH; [|done]. eapply block_step; [done|by apply block_pre_b_ok|done].
Qed.

Lemma sample_T_reach : block_reach sample_T.
Proof. apply run_ops_reach; [constructor|vm_compute; reflexivity]. Qed.
Lemma sample_B_reach : block_reach sample_B.
Proof. apply run_ops_reach; [constructor|vm_compute; reflexivity]. Qed.

Lemma local_numbering_witness :
  is_Some (find_instance sample_B 1) /\ exists name, name <> [] /\ net_name_at sample_B 1 = Some name.
Proof.
  destruct (local_numbering sample_B sample_B_reach) as (Hi & _ & Hn). split.
  - apply Hi. vm_compute. reflexivity.
  - apply Hn. vm_compute. split; discriminate.
Defined.
