(* ===== verification/DesignTables.v ===== *)
(** The tables of the design container and the merging of parsed parts
    (emir/design/cpp/ds_types.h, ds_types.cpp: [DSStack], [DSPinGeometry],
    [DSDesign]; ds_merge.cpp: [ds_merge_cell_lef], [ds_merge_def_header],
    [ds_merge_block_build]).

    Cells, vias, pins and layers are numbered by their position in a table, and a
    hasher maps names to numbers; the two must agree.  Parsing tasks build small
    containers with numbers of their own; merging renumbers them into the global
    one.  The hash backend of these hashers is the one of the code.  The loops
    over an unordered map take the order of the traversal as an argument. *)

From stdpp Require Import base gmap list sets fin_maps.
From Stdlib Require Import ZArith NArith Lia.
From S2P Require Import Prelude Bytes NameHasher Geometry BlockData.
Import Corelib.Init.Datatypes(nat(..)) Corelib.Numbers.BinNums(N(..)).
#[local] Open Scope nat_scope.

(** Cell, pin, via and layer ids are 32 bits wide. *)
Definition table_bits : N := 32.
Arguments table_bits : simpl never.
Definition NameTable := DSNameHasherT DSHasherBackendHash.

Inductive DSPinType := PIN_SIGNAL | PIN_POWER | PIN_GROUND | PIN_CLOCK.
Inductive DSPinDirection := INPUT | OUTPUT | INOUT.
Inductive DSPinPlacementStatus := PIN_NONE | PIN_FIXED | PIN_COVER | PIN_PLACED.

Record DSPin := {
  type_ : DSPinType; direction_ : DSPinDirection; pin_global_id_ : N;
  pin_placement_status_ : DSPinPlacementStatus; is_port : bool;
}.
Definition set_pin_id (id : N) (p : DSPin) : DSPin :=
  {| type_ := type_ p; direction_ := direction_ p; pin_global_id_ := id;
     pin_placement_status_ := pin_placement_status_ p; is_port := is_port p |}.

(** The bits of [CM_FLAGS] of a cell. *)
Record CellFlags := {
  is_fake_cell : bool; is_std_cell : bool; is_lef_cell : bool; is_lib_cell : bool;
  is_macro_cell : bool; is_block_cell : bool; is_polygon : bool;
}.
Definition no_flags : CellFlags :=
  {| is_fake_cell := false; is_std_cell := false; is_lef_cell := false; is_lib_cell := false;
     is_macro_cell := false; is_block_cell := false; is_polygon := false |}.
Definition block_flags : CellFlags :=
  {| is_fake_cell := false; is_std_cell := false; is_lef_cell := false; is_lib_cell := false;
     is_macro_cell := false; is_block_cell := true; is_polygon := false |}.

(** [DSCell] without the two pointers that are injected at run time. *)
Record DSCell := {
  name_ : bytes; library_name_ : bytes; bbox_ : GEORectT; origin_x_ : Z; origin_y_ : Z;
  def_path_ : bytes; flags_ : CellFlags; pins_ : list DSPin; obs_ : list DSShapeRef;
  polygon_ : GEOPolygonT;
}.
Definition empty_cell : DSCell :=
  {| name_ := []; library_name_ := []; bbox_ := GEORect 0 0 0 0; origin_x_ := 0; origin_y_ := 0;
     def_path_ := []; flags_ := no_flags; pins_ := []; obs_ := []; polygon_ := GEOPolygon [] |}.
Definition set_pins (ps : list DSPin) (c : DSCell) : DSCell :=
  {| name_ := name_ c; library_name_ := library_name_ c; bbox_ := bbox_ c;
     origin_x_ := origin_x_ c; origin_y_ := origin_y_ c; def_path_ := def_path_ c;
     flags_ := flags_ c; pins_ := ps; obs_ := obs_ c; polygon_ := polygon_ c |}.

Record DSViaCell := {
  via_name_ : bytes; bottom_layer_id_ : N; top_layer_id_ : N; cut_layer_id_ : N;
  cut_rects_ : list GEORectT; bottom_enclosure_ : list GEORectT; top_enclosure_ : list GEORectT;
}.

(** * Layers *)

Inductive DSLayerType := ROUTING | CUT.
#[export] Instance layer_type_eq_dec : EqDecision DSLayerType.
Proof. solve_decision. Defined.
Inductive DSDirection := HORIZONTAL | VERTICAL | NONE.

Record DSLayer := {
  layer_name_ : bytes; layer_id : N; layer_type_ : DSLayerType; layer_direction_ : DSDirection;
  default_width_ : Z; pitch_ : Z; spacing_ : list Z; min_area_ : Z;
}.
Definition set_layer_id (id : N) (l : DSLayer) : DSLayer :=
  {| layer_name_ := layer_name_ l; layer_id := id; layer_type_ := layer_type_ l;
     layer_direction_ := layer_direction_ l; default_width_ := default_width_ l;
     pitch_ := pitch_ l; spacing_ := spacing_ l; min_area_ := min_area_ l |}.

(** The layer table of [DSStack]; its units and its grid are plain fields. *)
Record DSStack := { layers_ : list DSLayer; layer_names_ : NameTable }.
Definition new_stack : DSStack := {| layers_ := []; layer_names_ := new_hasher |}.

Definition add_layer (l : DSLayer) (s : DSStack) : outcome (DSStack * N) :=
  let index := (N.of_nat (length (layers_ s)) mod 2 ^ table_bits)%N in
  '(h, _) ← emplace table_bits (layer_name_ l) (layer_names_ s);
  Ok ({| layers_ := layers_ s ++ [set_layer_id index l]; layer_names_ := h |}, index).

Definition find_layer (s : DSStack) (name : bytes) : N := get_id table_bits (layer_names_ s) name.

Definition find_or_add_layer (l : DSLayer) (s : DSStack) : outcome (DSStack * N) :=
  let existing := find_layer s (layer_name_ l) in
  if is_valid_id table_bits existing then Ok (s, existing) else add_layer l s.

Definition layer_by_id (s : DSStack) (id : N) : option DSLayer := layers_ s !! N.to_nat id.

(** * Pin shapes *)

Definition DSPinGeometry := gmap N (gmap N (list DSShapeRef)).

Definition add_geometries (cell pin : N) (geos : list DSShapeRef) (g : DSPinGeometry) : DSPinGeometry :=
  let pins := default ∅ (g !! cell) in
  <[cell := <[pin := default [] (pins !! pin) ++ geos]> pins]> g.

Definition add_geometry (cell pin : N) (ref : DSShapeRef) (g : DSPinGeometry) : DSPinGeometry :=
  add_geometries cell pin [ref] g.

Definition geometry_of (g : DSPinGeometry) (cell pin : N) : option (list DSShapeRef) :=
  pins ← g !! cell; pins !! pin.

Definition pin_has_geometry (g : DSPinGeometry) (cell pin : N) : bool :=
  bool_decide (is_Some (geometry_of g cell pin)).

(** * The container *)

Record DSDesign := {
  cells_ : list DSCell;
  fake_cell_ids_ : list N;
  via_cells_ : list DSViaCell;
  lib_link_ : gmap N bytes;
  cell_names_ : NameTable;
  pin_names_ : NameTable;
  via_cell_names_ : NameTable;
}.

Definition new_design : DSDesign :=
  {| cells_ := []; fake_cell_ids_ := []; via_cells_ := []; lib_link_ := ∅;
     cell_names_ := new_hasher; pin_names_ := new_hasher; via_cell_names_ := new_hasher |}.

#[export] Instance set_cells_DSDesign : Setter cells_ := fun f d =>
  {| cells_ := f (cells_ d); fake_cell_ids_ := fake_cell_ids_ d; via_cells_ := via_cells_ d;
     lib_link_ := lib_link_ d; cell_names_ := cell_names_ d; pin_names_ := pin_names_ d;
     via_cell_names_ := via_cell_names_ d |}.
#[export] Instance set_fake_cell_ids_DSDesign : Setter fake_cell_ids_ := fun f d =>
  {| cells_ := cells_ d; fake_cell_ids_ := f (fake_cell_ids_ d); via_cells_ := via_cells_ d;
     lib_link_ := lib_link_ d; cell_names_ := cell_names_ d; pin_names_ := pin_names_ d;
     via_cell_names_ := via_cell_names_ d |}.
#[export] Instance set_via_cells_DSDesign : Setter via_cells_ := fun f d =>
  {| cells_ := cells_ d; fake_cell_ids_ := fake_cell_ids_ d; via_cells_ := f (via_cells_ d);
     lib_link_ := lib_link_ d; cell_names_ := cell_names_ d; pin_names_ := pin_names_ d;
     via_cell_names_ := via_cell_names_ d |}.
#[export] Instance set_lib_link_DSDesign : Setter lib_link_ := fun f d =>
  {| cells_ := cells_ d; fake_cell_ids_ := fake_cell_ids_ d; via_cells_ := via_cells_ d;
     lib_link_ := f (lib_link_ d); cell_names_ := cell_names_ d; pin_names_ := pin_names_ d;
     via_cell_names_ := via_cell_names_ d |}.
#[export] Instance set_cell_names_DSDesign : Setter cell_names_ := fun f d =>
  {| cells_ := cells_ d; fake_cell_ids_ := fake_cell_ids_ d; via_cells_ := via_cells_ d;
     lib_link_ := lib_link_ d; cell_names_ := f (cell_names_ d); pin_names_ := pin_names_ d;
     via_cell_names_ := via_cell_names_ d |}.
#[export] Instance set_pin_names_DSDesign : Setter pin_names_ := fun f d =>
  {| cells_ := cells_ d; fake_cell_ids_ := fake_cell_ids_ d; via_cells_ := via_cells_ d;
     lib_link_ := lib_link_ d; cell_names_ := cell_names_ d; pin_names_ := f (pin_names_ d);
     via_cell_names_ := via_cell_names_ d |}.
#[export] Instance set_via_cell_names_DSDesign : Setter via_cell_names_ := fun f d =>
  {| cells_ := cells_ d; fake_cell_ids_ := fake_cell_ids_ d; via_cells_ := via_cells_ d;
     lib_link_ := lib_link_ d; cell_names_ := cell_names_ d; pin_names_ := pin_names_ d;
     via_cell_names_ := f (via_cell_names_ d) |}.

Definition add_cell (c : DSCell) (d : DSDesign) : outcome (DSDesign * N) :=
  '(h, id) ← emplace table_bits (name_ c) (cell_names_ d);
  Ok (d <| cell_names_ := h |> <| cells_ ::= (fun l => l ++ [c]) |>, id).

Definition add_via_cell (v : DSViaCell) (d : DSDesign) : outcome (DSDesign * N) :=
  '(h, id) ← emplace table_bits (via_name_ v) (via_cell_names_ d);
  Ok (d <| via_cell_names_ := h |> <| via_cells_ ::= (fun l => l ++ [v]) |>, id).

Definition register_pin (pin_name : bytes) (d : DSDesign) : outcome (DSDesign * N) :=
  let existing := get_id table_bits (pin_names_ d) pin_name in
  if is_valid_id table_bits existing then Ok (d, existing) else
  let id := (N.of_nat (hasher_size (pin_names_ d)) mod 2 ^ table_bits)%N in
  h ← assign table_bits pin_name id (pin_names_ d);
  Ok (d <| pin_names_ := h |>, id).

Definition add_cell_at (cell_id : N) (c : DSCell) (d : DSDesign) : outcome DSDesign :=
  let cells := if (N.of_nat (length (cells_ d)) <=? cell_id)%N
    then resize (N.to_nat ((cell_id + 1) mod 2 ^ table_bits)) empty_cell (cells_ d) else cells_ d in
  h ← assign table_bits (name_ c) cell_id (cell_names_ d);
  if (cell_id <? N.of_nat (length cells))%N
  then Ok (d <| cell_names_ := h |> <| cells_ := <[N.to_nat cell_id := c]> cells |>)
  else Undefined.

(** [Ok None]: no such cell; a name with an id outside the table fails an assertion. *)
Definition find_cell (d : DSDesign) (name : bytes) : outcome (option DSCell) :=
  let id := get_id table_bits (cell_names_ d) name in
  if is_valid_id table_bits id then c ← defined (cells_ d !! N.to_nat id); Ok (Some c) else Ok None.

Definition find_via_cell (d : DSDesign) (name : bytes) : outcome (option DSViaCell) :=
  let id := get_id table_bits (via_cell_names_ d) name in
  if is_valid_id table_bits id then v ← defined (via_cells_ d !! N.to_nat id); Ok (Some v) else Ok None.

Definition pin_name_of (d : DSDesign) (pin : N) : option bytes :=
  if negb (is_valid_id table_bits pin) || (N.of_nat (length (name_table_ (pin_names_ d))) <=? pin)%N
  then Some [] else get_name (pin_names_ d) pin.

Definition cell_pin_geometries (d : DSDesign) (g : DSPinGeometry) (cell : N) : option (list DSShapeRef) :=
  c ← cells_ d !! N.to_nat cell;
  Some (concat ((fun p => default [] (geometry_of g cell (pin_global_id_ p))) <$> pins_ c)).

(** * Merging *)

(** A loop whose body may fail. *)
Fixpoint ofold {A St} (f : St -> A -> outcome St) (l : list A) (s : St) : outcome St :=
  match l with
  | [] => Ok s
  | x :: l => s' ← f s x; ofold f l s'
  end.

(** Renumbers one pin of a merged cell and moves its shapes: [src_id] and [dst_id]
    are the numbers of the cell, [pi] the position of the pin. *)
Definition merge_pin (src : DSDesign) (src_geom : DSPinGeometry) (src_id dst_id : N)
    (st : DSDesign * DSPinGeometry) (p : nat * DSPin) : outcome (DSDesign * DSPinGeometry) :=
  let '(dst, dst_geom) := st in
  let '(pi, pin) := p in
  let local := pin_global_id_ pin in
  if negb (is_valid_id table_bits local) ||
     (N.of_nat (length (name_table_ (pin_names_ src))) <=? local)%N then Ok st else
  key ← defined (get_name (pin_names_ src) local);
  if decide (key = []) then Ok st else
  '(dst, global_id) ← register_pin key dst;
  c ← defined (cells_ dst !! N.to_nat dst_id);
  let dst := dst <| cells_ ::= (fun l =>
    <[N.to_nat dst_id := set_pins (alter (set_pin_id global_id) pi (pins_ c)) c]> l) |> in
  Ok (dst, match geometry_of src_geom src_id local with
           | Some geos => add_geometries dst_id global_id geos dst_geom
           | None => dst_geom
           end).

Definition merge_cell_pins (src : DSDesign) (src_geom : DSPinGeometry)
    (st : DSDesign * DSPinGeometry) (m : N * N) : outcome (DSDesign * DSPinGeometry) :=
  let '(src_id, dst_id) := m in
  c ← defined (cells_ src !! N.to_nat src_id);
  ofold (merge_pin src src_geom src_id dst_id) (imap pair (pins_ c)) st.

(** A cell of the part: dropped when its name is taken, added otherwise; the map
    from old to new numbers gets an entry. *)
Definition merge_cell (st : DSDesign * nat * list (N * N)) (p : nat * DSCell)
  : outcome (DSDesign * nat * list (N * N)) :=
  let '(dst, conflicts, idmap) := st in
  let '(src_id, c) := p in
  found ← find_cell dst (name_ c);
  match found with
  | Some _ => Ok (dst, S conflicts, idmap)
  | None => '(dst, dst_id) ← add_cell c dst; Ok (dst, conflicts, idmap ++ [(N.of_nat src_id, dst_id)])
  end.

Definition merge_via (st : DSDesign * nat) (v : DSViaCell) : outcome (DSDesign * nat) :=
  let '(dst, conflicts) := st in
  found ← find_via_cell dst (via_name_ v);
  match found with
  | Some _ => Ok (dst, S conflicts)
  | None => '(dst, _) ← add_via_cell v dst; Ok (dst, conflicts)
  end.

Definition assoc (m : list (N * N)) (k : N) : option N := (list_to_map m : gmap N N) !! k.

Definition remap_fakes (src : DSDesign) (idmap : list (N * N)) (dst : DSDesign) : DSDesign :=
  dst <| fake_cell_ids_ ::= (fun l => l ++ omap (assoc idmap) (fake_cell_ids_ src)) |>.

Definition remap_link (idmap : list (N * N)) (dst : DSDesign) (e : N * bytes) : DSDesign :=
  match assoc idmap e.1 with
  | Some dst_id => dst <| lib_link_ ::= <[dst_id := e.2]> |>
  | None => dst
  end.

(** [order] is the order in which the map of cell ids is traversed. *)
Definition ds_merge_cell_lef (order : list (N * N) -> list (N * N))
    (src : DSDesign) (src_geom : DSPinGeometry) (dst : DSDesign) (dst_geom : DSPinGeometry)
  : outcome (DSDesign * DSPinGeometry * nat) :=
  '(dst, conflicts, idmap) ← ofold merge_cell (imap pair (cells_ src)) (dst, 0, []);
  '(dst, dst_geom) ← ofold (merge_cell_pins src src_geom) (order idmap) (dst, dst_geom);
  let dst := remap_fakes src idmap dst in
  let dst := foldl (remap_link idmap) dst (map_to_list (lib_link_ src)) in
  '(dst, conflicts) ← ofold merge_via (via_cells_ src) (dst, conflicts);
  Ok (dst, dst_geom, conflicts).

(** The port pins of a block cell, named by [port_names]. *)
Definition merge_port (port_names : list bytes) (port_geoms : DSPinGeometry) (dst_id : N)
    (st : DSDesign * DSPinGeometry) (p : nat * DSPin) : outcome (DSDesign * DSPinGeometry) :=
  let '(dst, dst_geom) := st in
  match port_names !! p.1 with
  | None => Ok st
  | Some port =>
      '(dst, global_id) ← register_pin port dst;
      c ← defined (cells_ dst !! N.to_nat dst_id);
      let dst := dst <| cells_ ::= (fun l =>
        <[N.to_nat dst_id := set_pins (alter (set_pin_id global_id) p.1 (pins_ c)) c]> l) |> in
      Ok (dst, match geometry_of port_geoms 0 (N.of_nat p.1) with
               | Some geos => add_geometries dst_id global_id geos dst_geom
               | None => dst_geom
               end)
  end.

Definition merge_block_cell (port_names : list bytes) (port_geoms : DSPinGeometry)
    (st : DSDesign * DSPinGeometry * nat) (blk : DSCell) : outcome (DSDesign * DSPinGeometry * nat) :=
  let '(dst, dst_geom, conflicts) := st in
  found ← find_cell dst (name_ blk);
  match found with
  | Some _ => Ok (dst, dst_geom, S conflicts)
  | None =>
      '(dst, dst_id) ← add_cell blk dst;
      '(dst, dst_geom) ← ofold (merge_port port_names port_geoms dst_id)
        (imap pair (pins_ blk)) (dst, dst_geom);
      Ok (dst, dst_geom, conflicts)
  end.

Definition ds_merge_def_header (block_cells : list DSCell) (port_names : list bytes)
    (port_geoms : DSPinGeometry) (def_vias : list DSViaCell) (dst : DSDesign) (dst_geom : DSPinGeometry)
  : outcome (DSDesign * DSPinGeometry * nat) :=
  '(dst, dst_geom, conflicts) ← ofold (merge_block_cell port_names port_geoms) block_cells
    (dst, dst_geom, 0);
  '(dst, conflicts) ← ofold merge_via def_vias (dst, conflicts);
  Ok (dst, dst_geom, conflicts).

(** The parts of a block that merging its fake cells rewrites: the cells of its
    instances, the counts per cell and the table of fake names. *)
Record BlockFakes := {
  fb_instances : gmap N DSInstance;
  per_cell_counts_ : gmap N N;
  fake_name_to_id_ : gmap bytes N;
}.

(** The first free number at or after [id]; one unit of fuel per cell is enough. *)
Fixpoint free_slot (fuel : nat) (cells : list DSCell) (id : N) : option N :=
  match cells !! N.to_nat id with
  | None => Some id
  | Some c => if decide (name_ c = []) then Some id else
      match fuel with O => None | S fuel => free_slot fuel cells (id + 1) end
  end.

Definition set_cell_id (id : N) (i : DSInstance) : DSInstance :=
  {| cell_id_ := id; transform_ := transform_ i; placement_status_ := placement_status_ i;
     primary_ := primary_ i |}.

(** [remapped[cid == from ? to : cid] = count] over the counts in the order [order]. *)
Definition remap_counts (from to : N) (order : list (N * N)) : gmap N N :=
  foldl (fun m e => <[(if decide (e.1 = from) then to else e.1) := e.2]> m) ∅ order.

Definition remap_block (name : bytes) (from to : N) (b : BlockFakes) : BlockFakes :=
  {| fb_instances := (fun i => if decide (cell_id_ i = from) then set_cell_id to i else i)
       <$> fb_instances b;
     per_cell_counts_ := remap_counts from to (map_to_list (per_cell_counts_ b));
     fake_name_to_id_ := <[name := to]> (fake_name_to_id_ b) |}.

Definition merge_fake (st : DSDesign * BlockFakes * nat) (fake : DSCell)
  : outcome (DSDesign * BlockFakes * nat) :=
  let '(dst, b, merged) := st in
  found ← find_cell dst (name_ fake);
  match found, fake_name_to_id_ b !! name_ fake with
  | Some _, _ | _, None => Ok st
  | None, Some from =>
      id ← defined (free_slot (length (cells_ dst)) (cells_ dst) from);
      dst ← add_cell_at id fake dst;
      let dst := dst <| fake_cell_ids_ ::= (fun l => l ++ [id]) |> in
      Ok (dst, if decide (id = from) then b else remap_block (name_ fake) from id b, S merged)
  end.

Definition ds_merge_block_build (fake_cells : list DSCell) (dst : DSDesign) (b : BlockFakes)
  : outcome (DSDesign * BlockFakes * nat) :=
  ofold merge_fake fake_cells (dst, b, 0).

(** * Loops that may fail *)

Lemma ofold_snoc {A St} (f : St -> A -> outcome St) l x s :
  ofold f (l ++ [x]) s = (s' ← ofold f l s; f s' x).
Proof.
  revert s. induction l as [|y l IH]; intros s; cbn [app ofold mbind outcome_bind].
  - destruct (f s x); done.
  - destruct (f s y); cbn [mbind outcome_bind]; [apply IH|done..].
Qed.

(** Every turn returns what [g] computes. *)
Lemma ofold_pure {A St} (f : St -> A -> outcome St) (g : St -> A -> St) (P : A -> Prop) l s :
  (forall s a, P a -> f s a = Ok (g s a)) -> Forall P l -> ofold f l s = Ok (foldl g s l).
Proof.
  intros Hf. revert s. induction l as [|a l IH]; intros s; [done|]. intros [Ha Hl]%Forall_cons.
  cbn [ofold foldl]. rewrite Hf by done. cbn [mbind outcome_bind]. by apply IH.
Qed.

(** Every turn returns and keeps a property. *)
Lemma ofold_keeps {A St} (I : St -> Prop) (f : St -> A -> outcome St) l s :
  I s -> (forall s a, a ∈ l -> I s -> exists s', f s a = Ok s' /\ I s') -> exists s', ofold f l s = Ok s' /\ I s'.
Proof.
  revert s. induction l as [|a l IH]; intros s Hs Hf; [by exists s|]. destruct (Hf s a) as (s' & E & Hs'); [by left|done|].
  cbn [ofold]. rewrite E. cbn [mbind outcome_bind]. apply IH; [done|]. intros s2 a2 Ha. apply Hf. by right.
Qed.

(** * Layers and their names *)

Lemma table_emplace_new (h : NameTable) name :
  arena_ok table_bits h -> proper_name name -> backend_map (backend_ h) !! name = None ->
  (N.of_nat (length (name_table_ h)) + 1 < 2 ^ table_bits)%N ->
  exists h', emplace table_bits name h = Ok (h', N.of_nat (length (name_table_ h))) /\
    arena_ok table_bits h' /\ length (name_table_ h') = S (length (name_table_ h)) /\
    backend_map (backend_ h') = <[name := N.of_nat (length (name_table_ h))]> (backend_map (backend_ h)).
Proof.
  intros Hok Hname Hnone Hroom.
  destruct (emplace_new_ok table_bits h name Hok (conj Hname Hroom) Hnone) as [He Hok'].
  eexists. split; [exact He|]. split; [done|]. cbn. by rewrite length_app, Nat.add_comm.
Qed.

Lemma table_emplace_old (h : NameTable) name i :
  arena_ok table_bits h -> backend_map (backend_ h) !! name = Some i ->
  emplace table_bits name h = Ok (h, i).
Proof.
  intros Hok Hi. unfold emplace. rewrite (arena_not_sealed table_bits h Hok).
  rewrite (proj2 (found_iff table_bits h name Hok)) by by eexists. by rewrite backend_find_map, Hi.
Qed.

Lemma table_get_id (h : NameTable) name :
  arena_ok table_bits h ->
  get_id table_bits h name = default (kInvalidId table_bits) (backend_map (backend_ h) !! name) /\
  is_valid_id table_bits (get_id table_bits h name) = bool_decide (is_Some (backend_map (backend_ h) !! name)).
Proof.
  intros Hok. split; [unfold get_id; apply backend_find_map|].
  apply eq_true_iff_eq. rewrite bool_decide_eq_true. apply (found_iff table_bits h name Hok).
Qed.

(** [names] lists the names of a table by number, empty for a hole. *)
Definition table_names (h : NameTable) (names : list bytes) : Prop :=
  arena_ok table_bits h /\ length (name_table_ h) = length names /\
  forall i n, names !! i = Some n -> get_name h (N.of_nat i) = Some n.

Lemma table_names_new : table_names new_hasher [].
Proof. split; [apply new_hasher_ok|]. split; [done|]. intros i n. by rewrite lookup_nil. Qed.

Lemma table_lookup h names (n : bytes) i :
  table_names h names -> n <> [] ->
  backend_map (backend_ h) !! n = Some i <-> names !! N.to_nat i = Some n.
Proof.
  intros (Hok & Hlen & Hn) Hne. rewrite (ok_map _ _ Hok). split.
  - intros [_ Hg]. pose proof (arena_get_name_valid table_bits h i n Hok Hg) as Hlt.
    destruct (lookup_lt_is_Some_2 names (N.to_nat i)) as [n' Hn']; [lia|].
    pose proof (Hn _ _ Hn') as Hg'. rewrite N2Nat.id, Hg in Hg'. congruence.
  - intros Hi. split; [done|]. apply Hn in Hi. by rewrite N2Nat.id in Hi.
Qed.

Lemma table_fresh h names (n : bytes) :
  table_names h names -> n <> [] -> n ∉ names -> backend_map (backend_ h) !! n = None.
Proof.
  intros Ht Hne Hnin. apply eq_None_not_Some. intros [i Hi]. rewrite (table_lookup h names) in Hi by done.
  by apply list_elem_of_lookup_2 in Hi.
Qed.

Lemma table_find h names (n : bytes) :
  table_names h names -> n <> [] ->
  if decide (n ∈ names) then exists i, names !! i = Some n /\ get_id table_bits h n = N.of_nat i /\
    is_valid_id table_bits (get_id table_bits h n) = true
  else is_valid_id table_bits (get_id table_bits h n) = false.
Proof.
  intros Ht Hne. destruct (table_get_id h n (proj1 Ht)) as [Eid ->]. destruct (decide _) as [Hin|Hnin].
  - apply list_elem_of_lookup in Hin as [i Hi]. exists i. rewrite <- (Nat2N.id i) in Hi.
    rewrite <- (table_lookup h names) in Hi by done. split; [|split].
    + apply (table_lookup h names) in Hi; [|done..]. by rewrite Nat2N.id in Hi.
    + by rewrite Eid, Hi.
    + apply bool_decide_eq_true. by eexists.
  - rewrite (table_fresh h names) by done. by apply bool_decide_eq_false.
Qed.

Lemma table_emplace h names (n : bytes) :
  table_names h names -> proper_name n -> n ∉ names ->
  (N.of_nat (length names) + 1 < 2 ^ table_bits)%N ->
  exists h', emplace table_bits n h = Ok (h', N.of_nat (length names)) /\ table_names h' (names ++ [n]).
Proof.
  intros Ht Hname Hnin Hroom. pose proof Ht as (Hok & Hlen & Hn).
  destruct (emplace_new_ok table_bits h n Hok) as [He Hok'].
  { split; [done|]. by rewrite Hlen. }
  { by apply (table_fresh h names); [|apply Hname|]. }
  rewrite Hlen in He, Hok'. eexists. split; [exact He|]. split; [exact Hok'|]. split.
  { cbn. rewrite !length_app, Hlen. done. }
  intros i m Hi.
  destruct (get_name_register table_bits h n (name_table_ h ++ [append_slot h n])
    (backend_insert n (N.of_nat (length names)) (backend_ h)) (N.of_nat i) Hok (proj2 Hname))
    as (G1 & G2 & _). rewrite Nat2N.id in G1, G2.
  destruct (decide (i < length names)) as [Hlt|Hge].
  - rewrite lookup_app_l in Hi by done. rewrite G2; [by apply Hn|]. apply lookup_app_l. lia.
  - rewrite lookup_app_r in Hi by lia. destruct (i - length names) as [|k] eqn:Ek; [|by destruct k].
    injection Hi as <-. apply G1. rewrite lookup_app_r by lia. by rewrite Hlen, Ek.
Qed.

(** The list of names with room for number [id]. *)
Definition grow_names (id : N) (names : list bytes) : list bytes :=
  if (N.of_nat (length names) <=? id)%N then resize (N.to_nat (id + 1)) [] names else names.

Lemma table_assign h names (n : bytes) id :
  table_names h names -> proper_name n -> n ∉ names -> (id + 1 < 2 ^ table_bits)%N ->
  (forall m : bytes, names !! N.to_nat id = Some m -> m = []) ->
  exists h', assign table_bits n id h = Ok h' /\
    table_names h' (<[N.to_nat id := n]> (grow_names id names)).
Proof.
  intros Ht Hname Hnin Hid Hfree. pose proof Ht as (Hok & Hlen & Hn).
  assert (backend_map (backend_ h) !! n = None) as Hnone.
  { by apply (table_fresh h names); [|apply Hname|]. }
  destruct (assign_ok table_bits h n id Hok) as [Ha Hok'].
  { split; [done|]. split; [done|]. intros m Hm. left.
    pose proof (arena_get_name_valid table_bits h id m Hok Hm) as Hlt.
    destruct (lookup_lt_is_Some_2 names (N.to_nat id)) as [m' Hm']; [lia|].
    pose proof (Hfree _ Hm') as ->. apply Hn in Hm'. rewrite N2Nat.id, Hm in Hm'. congruence. }
  assert (clear_old table_bits h n id = name_table_ h) as Hclear.
  { unfold clear_old. destruct (is_valid_id _ _) eqn:E; [|done].
    apply (found_iff table_bits h n Hok) in E as [? E]. congruence. }
  rewrite Hclear in Ha, Hok'. eexists. split; [exact Ha|]. split; [done|].
  assert (length (grow_table table_bits id (name_table_ h)) = length (grow_names id names)) as Hgl.
  { unfold grow_table, grow_names. rewrite Hlen. destruct (_ <=? _)%N; [|done].
    rewrite !length_resize, N.mod_small by lia. done. }
  split; [cbn; by rewrite !length_insert|]. intros i m Hi.
  match goal with |- get_name (with_names _ _ ?t ?b) _ = _ =>
    destruct (get_name_register table_bits h n t b (N.of_nat i) Hok (proj2 Hname)) as (G1 & G2 & G3) end.
  rewrite Nat2N.id in G1, G2, G3. apply lookup_lt_Some in Hi as Hil. rewrite length_insert in Hil.
  destruct (decide (i = N.to_nat id)) as [->|Hne].
  - rewrite list_lookup_insert_eq in Hi by done. injection Hi as <-. apply G1.
    apply list_lookup_insert_eq. lia.
  - rewrite list_lookup_insert_ne in Hi by done. rewrite list_lookup_insert_ne in G2, G3 by done.
    unfold grow_names in Hi.
    destruct (decide (i < length names)) as [Hlt|Hge].
    + rewrite G2 by (apply grow_table_old; [done|lia]). apply Hn.
      destruct (N.leb_spec (N.of_nat (length names)) id); [|done].
      by rewrite lookup_resize in Hi by lia.
    + destruct (N.leb_spec (N.of_nat (length names)) id);
        [|apply lookup_lt_Some in Hi; lia].
      apply lookup_lt_Some in Hi as Hlt. rewrite length_resize in Hlt.
      rewrite lookup_resize_new in Hi by lia. injection Hi as <-. apply G3.
      destruct (lookup_lt_is_Some_2 (grow_table table_bits id (name_table_ h)) i) as [sl Hsl]; [lia|].
      rewrite Hsl. f_equal. eapply grow_table_new; [done| |done]. lia.
Qed.

(** Layers added with new names only. *)
Inductive stack_reach : DSStack -> Prop :=
  | stack_new : stack_reach new_stack
  | stack_add l s s' id :
      stack_reach s -> proper_name (layer_name_ l) ->
      is_valid_id table_bits (find_layer s (layer_name_ l)) = false ->
      (N.of_nat (length (layers_ s)) + 1 < 2 ^ table_bits)%N ->
      add_layer l s = Ok (s', id) -> stack_reach s'.

Definition stack_ok (s : DSStack) : Prop :=
  arena_ok table_bits (layer_names_ s) /\
  length (name_table_ (layer_names_ s)) = length (layers_ s).

Lemma stack_reach_ok s : stack_reach s -> stack_ok s.
Proof.
  induction 1 as [|l s s' id _ [Hok Hlen] Hname Hnew Hroom Hadd].
  { split; [apply new_hasher_ok|done]. }
  unfold find_layer in Hnew. destruct (table_get_id (layer_names_ s) (layer_name_ l) Hok) as [_ E].
  rewrite E in Hnew. apply bool_decide_eq_false, eq_None_not_Some in Hnew.
  destruct (table_emplace_new _ _ Hok Hname Hnew) as (h' & He & Hok' & Hl' & _); [by rewrite Hlen|].
  unfold add_layer in Hadd. rewrite He in Hadd. cbn in Hadd. injection Hadd as <- _.
  split; [done|]. cbn. rewrite Hl', length_app, Hlen. cbn. lia.
Qed.

(** After a layer name that occurs twice, names and layers are out of step.
    [add_layer] keeps the second layer in the table but not in the hasher, so the
    next layer [m] is found under the number of the duplicate: looking [m] up by
    name yields the layer [l]. *)
Theorem duplicate_layer_shifts s l m :
  stack_reach s ->
  is_valid_id table_bits (find_layer s (layer_name_ l)) = true ->
  is_valid_id table_bits (find_layer s (layer_name_ m)) = false -> proper_name (layer_name_ m) ->
  (N.of_nat (length (layers_ s)) + 2 < 2 ^ table_bits)%N ->
  exists s1 id1 s2 id2, add_layer l s = Ok (s1, id1) /\ add_layer m s1 = Ok (s2, id2) /\
    id1 <> id2 /\ find_layer s2 (layer_name_ m) = id1 /\
    layer_name_ <$> layer_by_id s2 id1 = Some (layer_name_ l) /\
    layer_name_ <$> layer_by_id s2 id2 = Some (layer_name_ m).
Proof.
  intros [Hok Hlen]%stack_reach_ok Hl Hm Hname Hroom. unfold find_layer in *.
  rewrite (proj2 (table_get_id _ (layer_name_ l) Hok)) in Hl.
  rewrite (proj2 (table_get_id _ (layer_name_ m) Hok)) in Hm.
  apply bool_decide_eq_true in Hl as [i Hi]. apply bool_decide_eq_false, eq_None_not_Some in Hm.
  unfold add_layer at 1. rewrite (table_emplace_old _ _ _ Hok Hi). cbn [mbind outcome_bind].
  eexists _, _. destruct (table_emplace_new _ _ Hok Hname Hm) as (h' & He & Hok' & Hl' & Hmap);
    [rewrite Hlen; lia|].
  eexists _, _. split; [done|]. unfold add_layer. cbn [layer_names_ layers_]. rewrite He.
  cbn [mbind outcome_bind]. split; [done|]. rewrite length_app. cbn [length layer_names_ layers_].
  rewrite !N.mod_small by lia. split; [lia|]. split.
  - rewrite (proj1 (table_get_id _ _ Hok')), Hmap, lookup_insert_eq. cbn. by rewrite Hlen.
  - unfold layer_by_id. cbn [layers_]. rewrite !Nat2N.id. rewrite <- (assoc_L app).
    split; rewrite lookup_app_r by lia; [by rewrite Nat.sub_diag|].
    by replace (length (layers_ s) + 1 - length (layers_ s)) with 1 by lia.
Qed.

Definition sample_layer (name : bytes) : DSLayer :=
  {| layer_name_ := name; layer_id := 0; layer_type_ := ROUTING; layer_direction_ := HORIZONTAL;
     default_width_ := 50; pitch_ := 100; spacing_ := [50%Z]; min_area_ := 0 |}.
Definition M1 : bytes := [Byte.x4d; Byte.x31].
Definition M2 : bytes := [Byte.x4d; Byte.x32].

Lemma duplicate_layer_shifts_witness : exists s s1 id1 s2 id2,
  add_layer (sample_layer M1) new_stack = Ok (s, 0%N) /\
  add_layer (sample_layer M1) s = Ok (s1, id1) /\ add_layer (sample_layer M2) s1 = Ok (s2, id2) /\
  find_layer s2 M2 = id1 /\ id1 <> id2.
Proof.
  assert (exists s, add_layer (sample_layer M1) new_stack = Ok (s, 0%N)) as [s Hs] by (eexists; reflexivity).
  destruct (duplicate_layer_shifts s (sample_layer M1) (sample_layer M2))
    as (s1 & id1 & s2 & id2 & H1 & H2 & Hne & Hf & _).
  - apply (stack_add (sample_layer M1) new_stack s 0%N); [constructor|split; [done|cbn; lia]|
      vm_compute; reflexivity|vm_compute; reflexivity|exact Hs].
  - revert Hs. intros [= <-]. vm_compute. reflexivity.
  - revert Hs. intros [= <-]. vm_compute. reflexivity.
  - split; [done|cbn; lia].
  - revert Hs. intros [= <-]. vm_compute. reflexivity.
  - exists s, s1, id1, s2, id2. repeat split; [exact Hs|exact H1|exact H2|exact Hf|exact Hne].
Defined.

(** * Renumbered fake cells *)

Definition named_cell (name : bytes) : DSCell :=
  {| name_ := name; library_name_ := []; bbox_ := GEORect 0 0 1 1; origin_x_ := 0; origin_y_ := 0;
     def_path_ := []; flags_ := no_flags; pins_ := []; obs_ := []; polygon_ := GEOPolygon [] |}.

(** The tables and the hashers of a container agree. *)
Definition design_ok (d : DSDesign) : Prop :=
  table_names (cell_names_ d) (name_ <$> cells_ d) /\
  table_names (via_cell_names_ d) (via_name_ <$> via_cells_ d) /\
  exists pins, table_names (pin_names_ d) pins /\ Forall (fun n => n <> []) pins /\
    hasher_size (pin_names_ d) = length pins.

Lemma new_design_ok : design_ok new_design.
Proof.
  split; [apply table_names_new|]. split; [apply table_names_new|].
  exists []. split; [apply table_names_new|]. done.
Qed.

Lemma find_cell_new d (n : bytes) :
  design_ok d -> n <> [] -> n ∉ name_ <$> cells_ d -> find_cell d n = Ok None.
Proof.
  intros (Hc & _) Hne Hnin. unfold find_cell.
  pose proof (table_find _ _ n Hc Hne) as Hf. rewrite decide_False in Hf by done. by rewrite Hf.
Qed.

Lemma find_cell_old d (n : bytes) :
  design_ok d -> n <> [] -> n ∈ name_ <$> cells_ d ->
  exists c, find_cell d n = Ok (Some c) /\ c ∈ cells_ d /\ name_ c = n.
Proof.
  intros (Hc & _) Hne Hin. unfold find_cell.
  pose proof (table_find _ _ n Hc Hne) as Hf. rewrite decide_True in Hf by done.
  destruct Hf as (i & Hi & -> & ->). rewrite Nat2N.id. rewrite list_lookup_fmap in Hi.
  apply fmap_Some in Hi as (c & Hcell & ->). rewrite Hcell. exists c. split; [done|].
  split; [|done]. by eapply list_elem_of_lookup_2.
Qed.

Lemma free_slot_total fuel cells id :
  length cells <= N.to_nat id + fuel -> exists id', free_slot fuel cells id = Some id' /\
    (id <= id')%N /\ (id' <= N.max id (N.of_nat (length cells)))%N /\
    forall c, cells !! N.to_nat id' = Some c -> name_ c = [].
Proof.
  revert id. induction fuel as [|fuel IH]; intros id Hlen; cbn.
  - rewrite lookup_ge_None_2 by lia. exists id. split; [done|]. split; [lia|]. split; [lia|].
    intros c. rewrite lookup_ge_None_2 by lia. done.
  - destruct (cells !! N.to_nat id) as [c|] eqn:E.
    + apply lookup_lt_Some in E as Hlt. destruct (decide (name_ c = [])) as [He|He].
      * exists id. split; [done|]. split; [lia|]. split; [lia|]. intros c'. rewrite E. congruence.
      * destruct (IH (id + 1)%N) as (id' & -> & H1 & H2 & H3); [lia|]. exists id'.
        split; [done|]. split; [lia|]. split; [lia|]. done.
    + exists id. split; [done|]. split; [lia|]. split; [lia|]. intros c'. by rewrite E.
Qed.

(** [add_cell_at] at a free number: the table grows with holes. *)
Definition grow_cells (id : N) (cells : list DSCell) : list DSCell :=
  if (N.of_nat (length cells) <=? id)%N then resize (N.to_nat (id + 1)) empty_cell cells else cells.

Lemma grow_cells_names id cells : name_ <$> grow_cells id cells = grow_names id (name_ <$> cells).
Proof.
  unfold grow_cells, grow_names. rewrite length_fmap. destruct (_ <=? _)%N; [|done].
  by rewrite fmap_resize.
Qed.

Lemma grow_cells_lt id cells : (id < N.of_nat (length (grow_cells id cells)))%N.
Proof.
  unfold grow_cells. destruct (N.leb_spec (N.of_nat (length cells)) id); [|lia].
  rewrite length_resize. lia.
Qed.

Lemma add_cell_at_ok d c id :
  design_ok d -> proper_name (name_ c) -> name_ c ∉ name_ <$> cells_ d ->
  (id + 1 < 2 ^ table_bits)%N ->
  (forall c', cells_ d !! N.to_nat id = Some c' -> name_ c' = []) ->
  exists d', add_cell_at id c d = Ok d' /\ design_ok d' /\
    cells_ d' = <[N.to_nat id := c]> (grow_cells id (cells_ d)).
Proof.
  intros (Hc & Hv & Hp) Hname Hnin Hid Hfree. unfold add_cell_at.
  destruct (table_assign (cell_names_ d) (name_ <$> cells_ d) (name_ c) id Hc Hname Hnin Hid)
    as (h' & -> & Hc').
  { intros m. rewrite list_lookup_fmap. intros (c' & E & ->)%fmap_Some. by apply Hfree. }
  cbn [mbind outcome_bind].
  assert ((if (N.of_nat (length (cells_ d)) <=? id)%N
    then resize (N.to_nat ((id + 1) mod 2 ^ table_bits)) empty_cell (cells_ d) else cells_ d) =
    grow_cells id (cells_ d)) as ->.
  { unfold grow_cells. destruct (_ <=? _)%N; [|done]. by rewrite N.mod_small. }
  rewrite (proj2 (N.ltb_lt _ _) (grow_cells_lt id (cells_ d))).
  eexists. split; [done|]. split; [|done]. split; [|done]. cbn.
  rewrite list_fmap_insert, grow_cells_names. done.
Qed.

(** One fake cell with a new name is placed at the first free number. *)
Lemma merge_fake_new d b k fake from :
  design_ok d -> proper_name (name_ fake) -> name_ fake ∉ name_ <$> cells_ d ->
  fake_name_to_id_ b !! name_ fake = Some from ->
  (N.max from (N.of_nat (length (cells_ d))) + 1 < 2 ^ table_bits)%N ->
  exists d' id, free_slot (length (cells_ d)) (cells_ d) from = Some id /\
    merge_fake (d, b, k) fake =
      Ok (d', if decide (id = from) then b else remap_block (name_ fake) from id b, S k) /\
    design_ok d' /\ cells_ d' = <[N.to_nat id := fake]> (grow_cells id (cells_ d)).
Proof.
  intros Hd Hname Hnin Hfrom Hroom. unfold merge_fake.
  rewrite (find_cell_new d) by (done || apply Hname). cbn [mbind outcome_bind]. rewrite Hfrom.
  destruct (free_slot_total (length (cells_ d)) (cells_ d) from) as (id & -> & H1 & H2 & H3); [lia|].
  cbn [defined mbind outcome_bind].
  destruct (add_cell_at_ok d fake id Hd Hname Hnin ltac:(lia) H3) as (d' & -> & Hd' & Hcells).
  cbn [mbind outcome_bind]. eexists _, id. split; [done|]. split; [done|]. by split.
Qed.

(** when a fake cell has to move because its number is taken, its instances
    are not safe from the next one.  Two fake cells of one DEF file have
    consecutive numbers; if the first moves to the number [to] of the second, the
    second has to move too, and renumbering its instances takes those of the first
    along: after the merge every instance of [fa] refers to a cell named like
    [fb], while the table of fake names still says [to] for [fa]. *)
Theorem shifted_fakes_collide d b fa fb from to i inst :
  design_ok d -> proper_name (name_ fa) -> proper_name (name_ fb) -> name_ fa <> name_ fb ->
  name_ fa ∉ name_ <$> cells_ d -> name_ fb ∉ name_ <$> cells_ d ->
  fake_name_to_id_ b !! name_ fa = Some from -> fake_name_to_id_ b !! name_ fb = Some to ->
  free_slot (length (cells_ d)) (cells_ d) from = Some to -> from <> to ->
  (N.max to (N.of_nat (length (cells_ d))) + 3 < 2 ^ table_bits)%N ->
  fb_instances b !! i = Some inst -> cell_id_ inst = from ->
  exists d' b' inst' c, ds_merge_block_build [fa; fb] d b = Ok (d', b', 2) /\
    fake_name_to_id_ b' !! name_ fa = Some to /\
    fb_instances b' !! i = Some inst' /\
    cells_ d' !! N.to_nat (cell_id_ inst') = Some c /\ name_ c = name_ fb.
Proof.
  intros Hd Ha Hb Hne Hna Hnb Hfa Hfb Hslot Hft Hroom Hi Hinst. unfold ds_merge_block_build.
  assert (from <= to)%N as Hle.
  { destruct (free_slot_total (length (cells_ d)) (cells_ d) from) as (x & E & ? & _); [lia|].
    rewrite Hslot in E. by injection E as ->. }
  destruct (merge_fake_new d b 0 fa from Hd Ha Hna Hfa) as (d1 & id1 & E1 & M1' & Hd1 & Hcells1); [lia|].
  rewrite Hslot in E1. injection E1 as <-. cbn [ofold]. rewrite M1', decide_False by done.
  cbn [mbind outcome_bind]. set (b1 := remap_block _ _ _ _).
  pose proof (grow_cells_lt to (cells_ d)) as Hgrow.
  assert (length (cells_ d1) = length (grow_cells to (cells_ d))) as Hl1 by (by rewrite Hcells1, length_insert).
  assert (cells_ d1 !! N.to_nat to = Some fa) as Hto.
  { rewrite Hcells1. apply list_lookup_insert_eq. lia. }
  assert (N.of_nat (length (grow_cells to (cells_ d))) <= N.max (to + 1) (N.of_nat (length (cells_ d))))%N as Hl2.
  { unfold grow_cells. destruct (_ <=? _)%N; [rewrite length_resize|]; lia. }
  assert (name_ fb ∉ name_ <$> cells_ d1) as Hnb1.
  { rewrite Hcells1, list_fmap_insert, grow_cells_names. intros (j & Hj)%list_elem_of_lookup.
    apply list_lookup_insert_Some in Hj as [(_ & E & _)|(_ & Hj)]; [done|].
    unfold grow_names in Hj. destruct (_ <=? _)%N; [|by apply Hnb; eapply list_elem_of_lookup_2].
    apply list_elem_of_lookup_2 in Hj. rewrite resize_spec, elem_of_app, elem_of_replicate in Hj.
    destruct Hj as [Hj|[Hj _]]; [by apply Hnb; eapply subseteq_take|by destruct Hb]. }
  destruct (merge_fake_new d1 b1 1 fb to Hd1 Hb Hnb1) as (d2 & id2 & E2 & M2' & Hd2 & Hcells2).
  { subst b1. cbn. by rewrite lookup_insert_ne. }
  { rewrite Hl1. lia. }
  assert (id2 <> to) as Hid2.
  { intros ->. destruct (free_slot_total (length (cells_ d1)) (cells_ d1) to) as (x & E & _ & _ & Hempty); [lia|].
    rewrite E2 in E. injection E as <-. specialize (Hempty fa Hto). by destruct Ha. }
  rewrite M2', decide_False by done. cbn [mbind outcome_bind ofold].
  eexists _, _, (set_cell_id id2 (set_cell_id to inst)), fb. split; [done|]. split; [|split; [|split]].
  - cbn. rewrite lookup_insert_ne by done. apply lookup_insert_eq.
  - cbn. rewrite !lookup_fmap, Hi. cbn. rewrite (decide_True (P := cell_id_ inst = from)) by done.
    cbn. by rewrite decide_True.
  - cbn. rewrite Hcells2. apply list_lookup_insert_eq. pose proof (grow_cells_lt id2 (cells_ d1)). lia.
  - done.
Qed.

Lemma shifted_fakes_collide_witness : exists d b d' b' inst' c,
  cells_ d = [named_cell M1] /\
  ds_merge_block_build [named_cell [Byte.x41]; named_cell [Byte.x42]] d b = Ok (d', b', 2) /\
  fb_instances b' !! 1%N = Some inst' /\ cells_ d' !! N.to_nat (cell_id_ inst') = Some c /\
  name_ c = [Byte.x42].
Proof.
  destruct (add_cell_at_ok new_design (named_cell M1) 0 new_design_ok) as (d & _ & Hd & Hcells);
    [split; [done|cbn; lia]|by intros ?%elem_of_nil|done|by intros c'|].
  cbn in Hcells.
  pose (b := {| fb_instances := {[ 1%N := placeholder 0 ]}; per_cell_counts_ := {[ 0%N := 1%N ]};
    fake_name_to_id_ := <[[Byte.x41] := 0%N]> {[ [Byte.x42] := 1%N ]} |}).
  destruct (shifted_fakes_collide d b (named_cell [Byte.x41]) (named_cell [Byte.x42]) 0 1 1 (placeholder 0) Hd)
    as (d' & b' & inst' & c & Hm & _ & Hi & Hc & Hn).
  1-2: split; [done|cbn; lia].
  - done.
  - rewrite Hcells. set_solver.
  - rewrite Hcells. set_solver.
  - done.
  - done.
  - by rewrite Hcells.
  - done.
  - rewrite Hcells. vm_compute. reflexivity.
  - done.
  - done.
  - exists d, b, d', b', inst', c. repeat split; [exact Hcells|exact Hm|exact Hi|exact Hc|exact Hn].
Defined.
