(* ===== verification/HierTree.v ===== *)
(** The hierarchy of a design (emir/design/cpp/ds_types.h, ds_types.cpp:
    [DSHierNode], [DSHierTree]; ds_merge.cpp: [ds_build_hier_tree]).

    A block defined by one DEF file may be instantiated many times, in several
    other blocks.  The tree has one node per occurrence of a block: a depth-first
    walk from the only block nobody instantiates gives each node a range of global
    instance, net and via ids and the placement of its occurrence.  Queries go
    from a global id to the node by binary search.  The sums of the counts are
    not truncated to 64 bits. *)

From stdpp Require Import base gmap list sets fin_maps sorting.
From Stdlib Require Import ZArith NArith Lia.
From S2P Require Import Prelude Bytes NameHasher Geometry BlockData DesignTables.
Import Corelib.Init.Datatypes(nat(..)) Corelib.Numbers.BinNums(N(..)).
#[local] Open Scope nat_scope.

Record DSHierNode := {
  id_ : nat;
  parent_id_ : nat;
  children_ids_ : list nat;
  block_cell_name_ : bytes;
  instance_name_ : bytes;
  block_cell_id_ : N;
  self_global_id_ : N;
  composite_transform_ : GEOTransformT;
  instance_start_ : N;
  instance_count_ : N;
  net_start_ : N;
  net_count_ : N;
  via_start_ : N;
  via_count_ : N;
}.

Record DSHierTree := { nodes_ : list DSHierNode; design_name_ : bytes }.

Definition kNoNode : N := 2 ^ 32 - 1.
Arguments kNoNode : simpl never.

Definition push_child (child : nat) (n : DSHierNode) : DSHierNode :=
  {| id_ := id_ n; parent_id_ := parent_id_ n; children_ids_ := children_ids_ n ++ [child];
     block_cell_name_ := block_cell_name_ n; instance_name_ := instance_name_ n;
     block_cell_id_ := block_cell_id_ n; self_global_id_ := self_global_id_ n;
     composite_transform_ := composite_transform_ n; instance_start_ := instance_start_ n;
     instance_count_ := instance_count_ n; net_start_ := net_start_ n; net_count_ := net_count_ n;
     via_start_ := via_start_ n; via_count_ := via_count_ n |}.

(** * Queries *)

(** The loop of [hier_block_of]: the number of nodes whose start is at most [id],
    when the starts do not decrease.  [hi - lo] units of fuel are enough. *)
Fixpoint last_start (fuel : nat) (starts : list N) (id : N) (lo hi : nat) : nat :=
  match fuel with
  | O => lo
  | S fuel =>
      if lo <? hi then
        let mid := lo + (hi - lo) / 2 in
        match starts !! mid with
        | Some s => if (s <=? id)%N then last_start fuel starts id (S mid) hi
                    else last_start fuel starts id lo mid
        | None => lo
        end
      else lo
  end.

Definition hier_block_of (start count : DSHierNode -> N) (nodes : list DSHierNode) (id : N) : N :=
  match last_start (length nodes) (start <$> nodes) id 0 (length nodes) with
  | O => kNoNode
  | S k => match nodes !! k with
           | Some n => if (0 <? count n)%N && (id <? start n + count n)%N then N.of_nat (id_ n)
                       else kNoNode
           | None => kNoNode
           end
  end.

Definition block_of_instance (t : DSHierTree) (id : N) : N :=
  hier_block_of instance_start_ instance_count_ (nodes_ t) id.
Definition block_of_net (t : DSHierTree) (id : N) : N :=
  hier_block_of net_start_ net_count_ (nodes_ t) id.
Definition block_of_via_instance (t : DSHierTree) (id : N) : N :=
  hier_block_of via_start_ via_count_ (nodes_ t) id.

Definition instance_range (t : DSHierTree) (node : nat) : N * N :=
  match nodes_ t !! node with Some n => (instance_start_ n, instance_count_ n) | None => (0, 0)%N end.
Definition net_range (t : DSHierTree) (node : nat) : N * N :=
  match nodes_ t !! node with Some n => (net_start_ n, net_count_ n) | None => (0, 0)%N end.
Definition via_range (t : DSHierTree) (node : nat) : N * N :=
  match nodes_ t !! node with Some n => (via_start_ n, via_count_ n) | None => (0, 0)%N end.

(** [None]: the node does not exist (an assertion). *)
Definition find_child_by_instance_name (t : DSHierTree) (node : nat) (name : bytes) : option N :=
  n ← nodes_ t !! node;
  Some (match list_find (fun c => instance_name_ <$> nodes_ t !! c = Some name) (children_ids_ n) with
        | Some (_, c) => N.of_nat c
        | None => kNoNode
        end).

Definition global_instance_id (t : DSHierTree) (node : nat) (local : N) : N :=
  match nodes_ t !! node with
  | None => kInvalidId id_bits
  | Some n => if (local =? 0)%N then self_global_id_ n
              else if (instance_count_ n <=? local)%N then kInvalidId id_bits
              else (instance_start_ n + local)%N
  end.

Definition global_net_id (t : DSHierTree) (node : nat) (local : N) : N :=
  match nodes_ t !! node with
  | None => kInvalidId id_bits
  | Some n => if (local =? 0)%N || (net_count_ n <=? local)%N then kInvalidId id_bits
              else (net_start_ n + local)%N
  end.

Definition global_via_instance_id (t : DSHierTree) (node : nat) (local : N) : N :=
  match nodes_ t !! node with
  | None => kInvalidId id_bits
  | Some n => if (local =? 0)%N || (via_count_ n <? local)%N then kInvalidId id_bits
              else (via_start_ n + (local - 1))%N
  end.

(** * Building the tree *)

(** Coordinates of placements are 32-bit integers. *)
Definition coord_bits : Z := 32.
Arguments coord_bits : simpl never.

(** DSGN::0011 for a malformed hierarchy. *)
Definition bad_hierarchy : N := 11.

Section build.
Context {B : Type} `{!DSNameBackend B}.
Context (design : DSDesign).
(** The blocks with the via counts of their net data, in the order of the DEF files. *)
Context (blocks : list (DSBlockBuildData B * N)).

(** The first block with this name. *)
Definition def_by_cell_name (name : bytes) : option nat :=
  fst <$> list_find (fun b => block_name_ b.1 = name) blocks.

(** The block an instance refers to, unless it is the block itself. *)
Definition block_ref (def_idx : nat) (e : N * DSInstance) : option (N * nat) :=
  let '(local, inst) := e in
  if (local =? 0)%N then None else
  c ← cells_ design !! N.to_nat (cell_id_ inst);
  if is_block_cell (flags_ c) then
    child ← def_by_cell_name (name_ c);
    if decide (child = def_idx) then None else Some (local, child)
  else None.

Definition ref_le (a b : N * nat) : Prop := (a.1 < b.1)%N \/ (a.1 = b.1 /\ a.2 <= b.2).
#[export] Instance ref_le_dec : RelDecision ref_le.
Proof. intros a b. unfold ref_le. apply _. Defined.

Definition block_refs_of (def_idx : nat) : list (N * nat) :=
  match blocks !! def_idx with
  | Some b => merge_sort ref_le (omap (block_ref def_idx) (map_to_list (instances_ b.1)))
  | None => []
  end.

(** How often [child] is referred to. *)
Definition in_degree (child : nat) : nat :=
  length (filter (fun r => r.2 = child) (concat (block_refs_of <$> seq 0 (length blocks)))).

Definition roots : list nat := filter (fun i => in_degree i = 0) (seq 0 (length blocks)).

(** What the walk carries along: the nodes, the next start of each kind and the
    blocks on the path from the root. *)
Record walk := {
  w_nodes : list DSHierNode;
  w_inst : N; w_net : N; w_via : N;
  w_path : list nat;
}.

Definition new_node (b : DSBlockBuildData B) (vias : N) (iname : bytes) (parent : nat) (self : N)
    (composite : GEOTransformT) (w : walk) : DSHierNode :=
  {| id_ := length (w_nodes w); parent_id_ := parent; children_ids_ := [];
     block_cell_name_ := block_name_ b; instance_name_ := iname;
     block_cell_id_ := get_id table_bits (cell_names_ design) (block_name_ b);
     self_global_id_ := self; composite_transform_ := composite;
     instance_start_ := w_inst w; instance_count_ := N.of_nat (instance_total b);
     net_start_ := w_net w; net_count_ := N.of_nat (net_count b) + 1;
     via_start_ := w_via w; via_count_ := vias |}.

Definition enter_node (n : DSHierNode) (def_idx : nat) (w : walk) : walk :=
  let nodes := w_nodes w ++ [n] in
  {| w_nodes := if decide (id_ n = parent_id_ n) then nodes
                else alter (push_child (id_ n)) (parent_id_ n) nodes;
     w_inst := w_inst w + instance_count_ n; w_net := w_net w + net_count_ n;
     w_via := w_via w + via_count_ n; w_path := def_idx :: w_path w |}.

Definition leave (w : walk) : walk :=
  {| w_nodes := w_nodes w; w_inst := w_inst w; w_net := w_net w; w_via := w_via w;
     w_path := tail (w_path w) |}.

(** The name and the placement of a child.  Without names the hasher is dereferenced. *)
Definition child_name (b : DSBlockBuildData B) (local : N) : outcome bytes :=
  h ← defined (instance_names_ b); defined (get_name h local).

Definition child_composite (b : DSBlockBuildData B) (composite : GEOTransformT) (local : N)
  : outcome GEOTransformT :=
  match instances_ b !! local with
  | Some inst => defined (compose coord_bits composite (transform_ inst))
  | None => Ok composite
  end.

(** [visit]; a block on its own path is a cycle.  The depth is at most the number
    of blocks, so that much fuel is enough; [LogicError] marks its end. *)
Fixpoint visit (fuel def_idx : nat) (iname : bytes) (parent : nat) (self : N)
    (composite : GEOTransformT) (w : walk) : outcome walk :=
  match fuel with
  | O => LogicError
  | S fuel =>
      if decide (def_idx ∈ w_path w) then FatalExit bad_hierarchy else
      '(b, vias) ← defined (blocks !! def_idx);
      let n := new_node b vias iname parent self composite w in
      w ← ofold (fun w r =>
             comp ← child_composite b composite r.1;
             name ← child_name b r.1;
             visit fuel r.2 name (id_ n) (instance_start_ n + r.1) comp w)
          (block_refs_of def_idx) (enter_node n def_idx w);
      Ok (leave w)
  end.

Definition empty_walk : walk :=
  {| w_nodes := []; w_inst := 0; w_net := 0; w_via := 0; w_path := [] |}.

(** The lists of blocks and of net data have the same length here: another length
    is the fatal exit of the code. *)
Definition ds_build_hier_tree : outcome DSHierTree :=
  if decide (blocks = []) then Ok {| nodes_ := []; design_name_ := [] |} else
  match roots with
  | [root] =>
      w ← visit (S (length blocks)) root [] 0 0 identity empty_walk;
      b ← defined (blocks !! root);
      Ok {| nodes_ := w_nodes w; design_name_ := block_name_ b.1 |}
  | _ => FatalExit bad_hierarchy
  end.

(** ** Ranges *)

Definition total (l : list N) : N := foldr N.add 0%N l.

Lemma sum_counts_app l1 l2 : total (l1 ++ l2) = (total l1 + total l2)%N.
Proof. induction l1 as [|x l1 IH]; cbn; [done|]. unfold total in *. lia. Qed.

(** The starts are the sums of the counts before them. *)
Definition ranges (starts counts : list N) : Prop :=
  length starts = length counts /\ forall i s, starts !! i = Some s -> s = total (take i counts).

Lemma ranges_snoc starts counts c :
  ranges starts counts -> ranges (starts ++ [total counts]) (counts ++ [c]).
Proof.
  intros [Hlen Hr]. split; [by rewrite !length_app, Hlen|]. intros i s Hi.
  destruct (decide (i < length starts)) as [Hlt|Hge].
  - rewrite lookup_app_l in Hi by done. rewrite take_app_le by lia. by apply Hr.
  - apply lookup_lt_Some in Hi as Hlt. rewrite length_app in Hlt. cbn in Hlt.
    assert (i = length counts) as -> by lia. rewrite lookup_app_r in Hi by lia.
    rewrite Hlen, Nat.sub_diag in Hi. injection Hi as <-. by rewrite take_app_length.
Qed.

(** ** The walk *)

Record walk_ok (w : walk) : Prop := {
  wo_ids : id_ <$> w_nodes w = seq 0 (length (w_nodes w));
  wo_inst : ranges (instance_start_ <$> w_nodes w) (instance_count_ <$> w_nodes w);
  wo_net : ranges (net_start_ <$> w_nodes w) (net_count_ <$> w_nodes w);
  wo_via : ranges (via_start_ <$> w_nodes w) (via_count_ <$> w_nodes w);
  wo_next_inst : w_inst w = total (instance_count_ <$> w_nodes w);
  wo_next_net : w_net w = total (net_count_ <$> w_nodes w);
  wo_next_via : w_via w = total (via_count_ <$> w_nodes w);
}.

Lemma empty_walk_ok : walk_ok empty_walk.
Proof. by split; try done; split; try done; intros i s; rewrite lookup_nil. Qed.

(** Adding a child changes no other field. *)
Lemma fmap_push_child {A} (f : DSHierNode -> A) c (i : nat) (ns : list DSHierNode) :
  (forall n, f (push_child c n) = f n) -> f <$> alter (push_child c) i ns = f <$> ns.
Proof.
  intros Hf. apply list_eq. intros j. rewrite !list_lookup_fmap.
  destruct (decide (i = j)) as [->|Hne].
  - rewrite list_lookup_alter_eq. destruct (ns !! j); cbn; [by rewrite Hf|done].
  - by rewrite list_lookup_alter_ne.
Qed.

Definition entered (n : DSHierNode) (ns : list DSHierNode) : list DSHierNode :=
  if decide (id_ n = parent_id_ n) then ns ++ [n] else alter (push_child (id_ n)) (parent_id_ n) (ns ++ [n]).

Lemma entered_fmap {A} (f : DSHierNode -> A) n ns :
  (forall c m, f (push_child c m) = f m) -> f <$> entered n ns = (f <$> ns) ++ [f n].
Proof.
  intros Hf. unfold entered. destruct (decide _); [|rewrite fmap_push_child by auto];
    by rewrite fmap_app.
Qed.

Lemma enter_node_ok b v iname parent self comp d w :
  walk_ok w -> walk_ok (enter_node (new_node b v iname parent self comp w) d w).
Proof.
  intros [Hids Hi Hn Hv Ei En Ev]. set (n := new_node b v iname parent self comp w).
  assert (length (entered n (w_nodes w)) = S (length (w_nodes w))) as Hlen.
  { unfold entered. destruct (decide _); rewrite ?length_alter, length_app; cbn; lia. }
  split; cbn [w_nodes enter_node w_inst w_net w_via]; fold (entered n (w_nodes w));
    rewrite ?entered_fmap by done.
  - rewrite Hlen, seq_S, Hids. done.
  - change (instance_start_ n) with (w_inst w). rewrite Ei. by apply ranges_snoc.
  - change (net_start_ n) with (w_net w). rewrite En. by apply ranges_snoc.
  - change (via_start_ n) with (w_via w). rewrite Ev. by apply ranges_snoc.
  - rewrite sum_counts_app, Ei. cbn. lia.
  - rewrite sum_counts_app, En. cbn. lia.
  - rewrite sum_counts_app, Ev. cbn. lia.
Qed.

Lemma leave_ok w : walk_ok w -> walk_ok (leave w).
Proof. by intros [???????]; split. Qed.

(** ** Nodes and their children *)

Definition occurrence (n : DSHierNode) (d : nat) (b : DSBlockBuildData B) : Prop :=
  exists v, blocks !! d = Some (b, v) /\ block_cell_name_ n = block_name_ b /\
  block_cell_id_ n = get_id table_bits (cell_names_ design) (block_name_ b) /\
  instance_count_ n = N.of_nat (instance_total b) /\
  net_count_ n = (N.of_nat (net_count b) + 1)%N /\ via_count_ n = v.

(** Node [j] is the child of node [i] (with data [n], of block [b]) for the
    reference [r]. *)
Definition child_of (ns : list DSHierNode) (i : nat) (start : N) (comp : GEOTransformT)
    (b : DSBlockBuildData B) (j : nat) (r : N * nat) : Prop :=
  i < j /\ exists m b', ns !! j = Some m /\ parent_id_ m = i /\
  self_global_id_ m = (start + r.1)%N /\
  child_composite b comp r.1 = Ok (composite_transform_ m) /\
  child_name b r.1 = Ok (instance_name_ m) /\ occurrence m r.2 b'.

Definition finished (ns : list DSHierNode) (i : nat) : Prop :=
  forall n, ns !! i = Some n -> exists d b, occurrence n d b /\
  Forall2 (child_of ns i (instance_start_ n) (composite_transform_ n) b)
    (children_ids_ n) (block_refs_of d).

Definition has_parent (base : nat) (ns : list DSHierNode) (j : nat) : Prop :=
  forall m, ns !! j = Some m -> base <= parent_id_ m < j /\
  exists n, ns !! parent_id_ m = Some n /\ j ∈ children_ids_ n.

Lemma child_of_ext ns ns' i start comp b j r :
  (forall k, i < k -> k < length ns -> ns' !! k = ns !! k) ->
  child_of ns i start comp b j r -> child_of ns' i start comp b j r.
Proof.
  intros Hext (Hij & m & b' & Hm & Hrest). split; [done|]. exists m, b'.
  rewrite Hext; [done|done|]. by eapply lookup_lt_Some.
Qed.

Lemma finished_ext ns ns' i :
  i < length ns -> (forall k, i <= k -> k < length ns -> ns' !! k = ns !! k) ->
  finished ns i -> finished ns' i.
Proof.
  intros Hi Hext Hf n. rewrite Hext by lia. intros Hn. destruct (Hf n Hn) as (d & b & Hocc & Hch).
  exists d, b. split; [done|]. eapply Forall2_impl; [exact Hch|]. intros j r Hc.
  eapply child_of_ext; [|exact Hc]. intros k Hk. apply Hext. lia.
Qed.

(** What a visit does to the nodes. *)
Record visited (d : nat) (iname : bytes) (parent : nat) (self : N) (comp : GEOTransformT)
    (w w' : walk) : Prop := {
  vi_path : w_path w' = w_path w;
  vi_ok : walk_ok w';
  vi_grow : length (w_nodes w) < length (w_nodes w');
  vi_old k : k < length (w_nodes w) -> w_nodes w' !! k =
    (if decide (k = parent) then push_child (length (w_nodes w)) else id) <$> w_nodes w !! k;
  vi_new : exists n b, w_nodes w' !! length (w_nodes w) = Some n /\ occurrence n d b /\
    parent_id_ n = parent /\ self_global_id_ n = self /\ composite_transform_ n = comp /\
    instance_name_ n = iname;
  vi_finished i : length (w_nodes w) <= i -> finished (w_nodes w') i;
  vi_parents j : length (w_nodes w) < j -> has_parent (length (w_nodes w)) (w_nodes w') j;
}.

(** The loop over the references of node [base], after those in [rs]. *)
Record in_loop (old : list DSHierNode) (base d : nat) (b : DSBlockBuildData B) (core : DSHierNode)
    (path : list nat) (w : walk) (rs : list (N * nat)) : Prop := {
  il_path : w_path w = path;
  il_ok : walk_ok w;
  il_old k : k < base -> w_nodes w !! k = old !! k;
  il_cur : exists n, w_nodes w !! base = Some n /\ occurrence n d b /\
    instance_start_ n = instance_start_ core /\ composite_transform_ n = composite_transform_ core /\
    parent_id_ n = parent_id_ core /\ self_global_id_ n = self_global_id_ core /\
    instance_name_ n = instance_name_ core /\
    Forall2 (child_of (w_nodes w) base (instance_start_ core) (composite_transform_ core) b)
      (children_ids_ n) rs;
  il_finished i : base < i -> finished (w_nodes w) i;
  il_parents j : base < j -> has_parent base (w_nodes w) j;
}.

Lemma in_loop_step old base d b core path w rs r name comp w' :
  in_loop old base d b core path w rs ->
  child_composite b (composite_transform_ core) r.1 = Ok comp -> child_name b r.1 = Ok name ->
  visited r.2 name base (instance_start_ core + r.1) comp w w' ->
  in_loop old base d b core path w' (rs ++ [r]).
Proof.
  intros [Hpath Hok Hold (n & Hn & Hocc & E1 & E2 & E3 & E4 & E5 & Hch) Hfin Hpar] Hcomp Hname Hv.
  destruct Hv as [Vp Vok Vg Vold (m & bm & Hm & Hmo & Mp & Ms & Mc & Mn) Vf Vpar].
  pose proof (lookup_lt_Some _ _ _ Hn) as Hlen.
  assert (forall k, base < k -> k < length (w_nodes w) -> w_nodes w' !! k = w_nodes w !! k) as Hsame.
  { intros k Hk Hk'. rewrite Vold by done. rewrite decide_False by lia. by rewrite option_fmap_id. }
  assert (w_nodes w' !! base = Some (push_child (length (w_nodes w)) n)) as Hn'.
  { rewrite Vold by done. rewrite decide_True by done. by rewrite Hn. }
  split.
  - by rewrite Vp.
  - done.
  - intros k Hk. rewrite Vold by lia. rewrite decide_False by lia. rewrite option_fmap_id. auto.
  - exists (push_child (length (w_nodes w)) n). split; [done|]. split; [exact Hocc|].
    do 5 (split; [done|]). cbn. apply Forall2_app.
    + eapply Forall2_impl; [exact Hch|]. intros j r' Hc. by eapply child_of_ext.
    + constructor; [|constructor]. split; [lia|]. exists m, bm. by subst.
  - intros i Hi. destruct (decide (i < length (w_nodes w))) as [Hlt|Hge]; [|apply Vf; lia].
    eapply finished_ext; [done| |by apply Hfin]. intros k Hk. apply Hsame. lia.
  - intros j Hj mj Hmj. destruct (decide (j < length (w_nodes w))) as [Hlt|Hge].
    + rewrite Hsame in Hmj by done. destruct (Hpar j Hj mj Hmj) as (Hr & np & Hnp & Hin).
      split; [done|]. destruct (decide (parent_id_ mj = base)) as [Ep|Ep].
      * rewrite Ep in Hnp |- *. rewrite Hn in Hnp. injection Hnp as <-.
        exists (push_child (length (w_nodes w)) n). split; [done|]. cbn. set_solver.
      * exists np. split; [|done]. rewrite Hsame; [done|lia|]. by eapply lookup_lt_Some.
    + destruct (decide (j = length (w_nodes w))) as [->|Hne].
      * rewrite Hm in Hmj. injection Hmj as <-. rewrite Mp. split; [lia|].
        exists (push_child (length (w_nodes w)) n). split; [done|]. cbn. set_solver.
      * destruct (Vpar j ltac:(lia) mj Hmj) as ([H1 H2] & Hex). split; [lia|done].
Qed.

Lemma in_loop_all old base d b core path vis refs :
  (forall c name comp self w w', vis c name comp self w = Ok w' -> walk_ok w ->
     base < length (w_nodes w) -> visited c name base self comp w w') ->
  forall w w' rs, in_loop old base d b core path w rs ->
  ofold (fun w r => comp ← child_composite b (composite_transform_ core) r.1;
           name ← child_name b r.1; vis r.2 name comp (instance_start_ core + r.1)%N w) refs w = Ok w' ->
  in_loop old base d b core path w' (rs ++ refs).
Proof.
  intros Hvis. induction refs as [|r refs IH]; intros w w' rs Hl; cbn [ofold].
  { intros [= <-]. by rewrite app_nil_r. }
  intros (w1 & Hstep & Hrest)%outcome_bind_Ok.
  apply outcome_bind_Ok in Hstep as (comp & Hcomp & (name & Hname & Hv)%outcome_bind_Ok).
  replace (rs ++ r :: refs) with ((rs ++ [r]) ++ refs) by by rewrite <- (assoc_L app).
  apply (IH w1); [|done]. eapply in_loop_step; [done..|]. apply Hvis; [done|apply Hl|].
  destruct Hl as [_ _ _ (n & Hn & _) _ _]. by eapply lookup_lt_Some.
Qed.

Lemma entered_lookup n ns k :
  id_ n = length ns -> parent_id_ n <= length ns -> k < length ns ->
  entered n ns !! k = (if decide (k = parent_id_ n) then push_child (length ns) else id) <$> ns !! k.
Proof.
  intros Hid Hp Hk. unfold entered. destruct (decide (id_ n = parent_id_ n)) as [E|E].
  - rewrite decide_False by lia. rewrite option_fmap_id. by apply lookup_app_l.
  - destruct (decide (k = parent_id_ n)) as [->|Hne].
    + rewrite list_lookup_alter_eq, lookup_app_l by done. by rewrite Hid.
    + rewrite list_lookup_alter_ne by done. rewrite option_fmap_id. by apply lookup_app_l.
Qed.

Lemma visit_visited fuel d iname parent self comp w w' :
  visit fuel d iname parent self comp w = Ok w' -> walk_ok w -> parent <= length (w_nodes w) ->
  (length (w_nodes w) = parent -> length (w_nodes w) = 0) ->
  visited d iname parent self comp w w'.
Proof.
  revert d iname parent self comp w w'.
  induction fuel as [|fuel IH]; intros d iname parent self comp w w' Hv Hok Hp Hp0; cbn [visit] in Hv; [done|].
  destruct (decide (d ∈ w_path w)) as [?|Hfree]; [done|].
  apply outcome_bind_Ok in Hv as ([b v] & Hb & Hv). destruct (blocks !! d) as [bv|] eqn:Hd; [|done].
  cbn in Hb. injection Hb as ->. apply outcome_bind_Ok in Hv as (w1 & Hloop & [= <-]).
  set (n := new_node b v iname parent self comp w) in *. set (base := length (w_nodes w)).
  assert (in_loop (entered n (w_nodes w)) base d b n (d :: w_path w) (enter_node n d w) []) as Hinit.
  { assert (length (entered n (w_nodes w)) = S base) as Hlen.
    { unfold entered. destruct (decide _); rewrite ?length_alter, length_app; cbn; lia. }
    assert (entered n (w_nodes w) !! base = Some n) as Hbase.
    { unfold entered. destruct (decide (id_ n = parent_id_ n)) as [E|E];
        [|rewrite list_lookup_alter_ne by done];
        (rewrite lookup_app_r by done; subst base; by rewrite Nat.sub_diag). }
    split.
    - done.
    - by apply enter_node_ok.
    - done.
    - exists n. split; [exact Hbase|]. split; [by exists v|]. do 5 (split; [done|]). constructor.
    - intros i Hi m Hm. apply lookup_lt_Some in Hm.
      change (w_nodes (enter_node n d w)) with (entered n (w_nodes w)) in Hm. lia.
    - intros i Hi m Hm. apply lookup_lt_Some in Hm.
      change (w_nodes (enter_node n d w)) with (entered n (w_nodes w)) in Hm. lia. }
  assert (in_loop (entered n (w_nodes w)) base d b n (d :: w_path w) w1 ([] ++ block_refs_of d)) as Hend.
  { apply (in_loop_all _ _ _ _ _ _ (fun c name comp self w => visit fuel c name base self comp w)
      (block_refs_of d)) with (w := enter_node n d w); [|exact Hinit|exact Hloop].
    intros c name comp' self' w2 w3 H2 Hok2 Hlt. apply (IH _ _ _ _ _ _ _ H2 Hok2); lia. }
  clear Hloop. destruct Hend as [Lp Lok Lold (m & Hm & Hocc & E1 & E2 & E3 & E4 & E5 & Hch) Lf Lpar].
  pose proof (lookup_lt_Some _ _ _ Hm) as Hlt. split; cbn [leave w_nodes w_path].
  - by rewrite Lp.
  - by apply leave_ok.
  - done.
  - intros k Hk. rewrite Lold by done. by apply entered_lookup.
  - by exists m, b.
  - intros i Hi. destruct (decide (i = base)) as [->|Hne]; [|apply Lf; lia].
    intros m' Hm'. rewrite Hm in Hm'. injection Hm' as <-. exists d, b. split; [done|].
    by rewrite E1, E2.
  - done.
Qed.

(** ** The walk ends *)

Lemma ofold_path refs d (f : walk -> N * nat -> outcome walk) w w' :
  (forall r w w', f w r = Ok w' -> w_path w' = w_path w) -> ofold f refs w = Ok w' ->
  w_path w = d -> w_path w' = d.
Proof.
  intros Hf. revert w. induction refs as [|r refs IH]; intros w; cbn; [congruence|].
  intros (w1 & H1 & H2)%outcome_bind_Ok Hp. apply (IH w1 H2). by rewrite (Hf _ _ _ H1).
Qed.

Lemma visit_path fuel d iname parent self comp w w' :
  visit fuel d iname parent self comp w = Ok w' -> w_path w' = w_path w.
Proof.
  revert d iname parent self comp w w'.
  induction fuel as [|fuel IH]; intros d iname parent self comp w w'; cbn [visit]; [done|].
  destruct (decide _) as [?|?]; [done|]. intros ([b v] & _ & Hv)%outcome_bind_Ok.
  apply outcome_bind_Ok in Hv as (w1 & Hl & [= <-]). cbn.
  erewrite (ofold_path _ (d :: w_path w)); [done| |exact Hl|done]. cbn. intros r w2 w3 H.
  apply outcome_bind_Ok in H as (? & _ & (? & _ & H)%outcome_bind_Ok). by eapply IH.
Qed.

Lemma bind_not_LogicError {A C} (o : outcome A) (f : A -> outcome C) :
  o <> LogicError -> (forall a, o = Ok a -> f a <> LogicError) -> (o ≫= f) <> LogicError.
Proof. intros Ho Hf. destruct o; cbn; auto. Qed.

Lemma defined_not_LogicError {A} (o : option A) : defined o <> LogicError.
Proof. by destruct o. Qed.

Lemma path_bound (path : list nat) m :
  NoDup path -> (forall d, d ∈ path -> d < m) -> length path <= m.
Proof.
  intros Hnd Hlt. rewrite <- (length_seq m 0). apply submseteq_length, NoDup_submseteq; [done|].
  intros d Hd%Hlt. apply elem_of_seq. lia.
Qed.

Lemma visit_enough_fuel fuel d iname parent self comp w :
  NoDup (w_path w) -> (forall d', d' ∈ w_path w -> d' < length blocks) ->
  length blocks < fuel + length (w_path w) ->
  visit fuel d iname parent self comp w <> LogicError.
Proof.
  revert d iname parent self comp w. induction fuel as [|fuel IH]; intros d iname parent self comp w Hnd Hlt Hf.
  { pose proof (path_bound _ _ Hnd Hlt). lia. }
  cbn [visit]. destruct (decide _) as [?|Hd]; [done|].
  apply bind_not_LogicError; [apply defined_not_LogicError|]. intros [b v] Hb.
  apply bind_not_LogicError; [|by intros a _].
  set (n := new_node b v iname parent self comp w).
  assert (d < length blocks) as Hdlt.
  { destruct (blocks !! d) eqn:E; [by eapply lookup_lt_Some|done]. }
  assert (forall refs w2, w_path w2 = d :: w_path w ->
    ofold (fun w r => comp0 ← child_composite b comp r.1; name ← child_name b r.1;
      visit fuel r.2 name (id_ n) (instance_start_ n + r.1) comp0 w) refs w2 <> LogicError) as Hloop; [|by apply Hloop].
  induction refs as [|r refs IHr]; intros w2 Hp2; cbn; [done|].
  apply bind_not_LogicError.
  - apply bind_not_LogicError; [unfold child_composite;
      destruct (instances_ b !! r.1); [apply defined_not_LogicError|done]|].
    intros comp' _. apply bind_not_LogicError; [|intros name _].
    + unfold child_name. apply bind_not_LogicError; [apply defined_not_LogicError|]. intros; apply defined_not_LogicError.
    + apply IH; rewrite Hp2.
      * by constructor.
      * intros d' [->|Hd']%elem_of_cons; auto.
      * cbn. lia.
  - intros w3 Hw3. apply IHr. apply outcome_bind_Ok in Hw3 as (? & _ & (? & _ & Hw3)%outcome_bind_Ok).
    by rewrite (visit_path _ _ _ _ _ _ _ _ Hw3).
Qed.

(** building the hierarchy always ends: whatever the blocks and their
    references, the walk never runs out of its depth budget (one level per block),
    because a block that meets itself on its own path is reported as a cycle
    first. *)
Theorem hier_build_terminates : ds_build_hier_tree <> LogicError.
Proof.
  unfold ds_build_hier_tree. destruct (decide _); [done|]. destruct roots as [|root [|? ?]]; [done| |done].
  apply bind_not_LogicError; [|intros w _; apply bind_not_LogicError; [apply defined_not_LogicError|done]].
  apply visit_enough_fuel; cbn; [constructor|by intros d' ?%elem_of_nil|lia].
Qed.

(** ** The tree *)

Record tree_ok (t : DSHierTree) : Prop := {
  to_ids i n : nodes_ t !! i = Some n -> id_ n = i;
  to_inst : ranges (instance_start_ <$> nodes_ t) (instance_count_ <$> nodes_ t);
  to_net : ranges (net_start_ <$> nodes_ t) (net_count_ <$> nodes_ t);
  to_via : ranges (via_start_ <$> nodes_ t) (via_count_ <$> nodes_ t);
  to_root : exists n, nodes_ t !! 0 = Some n /\ parent_id_ n = 0 /\ self_global_id_ n = 0%N /\
    composite_transform_ n = identity /\ instance_name_ n = [] /\ block_cell_name_ n = design_name_ t;
  to_finished i : finished (nodes_ t) i;
  to_parents j : 0 < j -> has_parent 0 (nodes_ t) j;
}.

Lemma built_tree_ok t : blocks <> [] -> ds_build_hier_tree = Ok t -> tree_ok t.
Proof.
  intros Hne. unfold ds_build_hier_tree. rewrite decide_False by done.
  destruct roots as [|root [|? ?]]; [done| |done].
  intros (w & Hv & ([b v] & Hb & [= <-])%outcome_bind_Ok)%outcome_bind_Ok.
  apply visit_visited in Hv; [|apply empty_walk_ok|done|done].
  destruct Hv as [_ [Hids Hi Hn Hvi _ _ _] Hg _ (n & b' & Hn0 & Hocc & Hp & Hs & Hc & Hna) Hf Hpar].
  cbn in Hg, Hn0. split; cbn; try done.
  - intros i m Hm. assert ((id_ <$> w_nodes w) !! i = Some (id_ m)) as E by by rewrite list_lookup_fmap, Hm.
    rewrite Hids in E. apply lookup_seq in E as [-> _]. done.
  - exists n. repeat split; try done. destruct Hocc as (v' & Hb' & -> & _). rewrite Hb' in Hb.
    cbn in Hb. by injection Hb as -> ->.
  - intros i. apply Hf. cbn. lia.
Qed.
End build.

(** ** Binary search *)

Lemma last_start_spec starts id fuel lo hi :
  (forall i j a b, i <= j -> starts !! i = Some a -> starts !! j = Some b -> (a <= b)%N) ->
  hi <= length starts -> lo <= hi -> hi - lo <= fuel ->
  (forall k s, k < lo -> starts !! k = Some s -> (s <= id)%N) ->
  (forall k s, hi <= k -> starts !! k = Some s -> (id < s)%N) ->
  let r := last_start fuel starts id lo hi in
  (forall k s, k < r -> starts !! k = Some s -> (s <= id)%N) /\
  (forall k s, r <= k -> starts !! k = Some s -> (id < s)%N) /\ r <= length starts.
Proof.
  intros Hmono Hhi. revert lo hi Hhi. induction fuel as [|fuel IH]; intros lo hi Hhi Hle Hf Hlo Hup; cbn [last_start].
  { assert (lo = hi) as -> by lia. done. }
  destruct (Nat.ltb_spec lo hi) as [Hlt|Hge].
  - set (mid := lo + (hi - lo) / 2).
    assert (lo <= mid < hi) as Hmid.
    { subst mid. pose proof (Nat.div_lt (hi - lo) 2). lia. }
    destruct (lookup_lt_is_Some_2 starts mid) as [s Hs]; [lia|]. rewrite Hs.
    destruct (N.leb_spec s id).
    + apply IH; [done|lia|lia| |done]. intros k sk Hk Hsk.
      pose proof (Hmono k mid sk s ltac:(lia) Hsk Hs). lia.
    + apply IH; [lia|lia|lia|done|]. intros k sk Hk Hsk.
      pose proof (Hmono mid k s sk ltac:(lia) Hs Hsk). lia.
  - assert (lo = hi) as -> by lia. done.
Qed.

Lemma total_take_mono l i j : i <= j -> (total (take i l) <= total (take j l))%N.
Proof.
  intros Hij. assert (take j l = take i l ++ take (j - i) (drop i l)) as ->.
  { rewrite take_take_drop. f_equal. lia. }
  rewrite sum_counts_app. lia.
Qed.

Section query.
Context (start count : DSHierNode -> N) (nodes : list DSHierNode).
Context (Hr : ranges (start <$> nodes) (count <$> nodes)).
Context (Hid : forall i n, nodes !! i = Some n -> id_ n = i).

Lemma node_start i n : nodes !! i = Some n -> start n = total (take i (count <$> nodes)).
Proof. intros Hn. apply (proj2 Hr). by rewrite list_lookup_fmap, Hn. Qed.

Lemma node_end i n : nodes !! i = Some n -> (start n + count n)%N = total (take (S i) (count <$> nodes)).
Proof.
  intros Hn. rewrite (node_start i n Hn).
  rewrite (take_S_r _ _ (count n)) by by rewrite list_lookup_fmap, Hn. rewrite sum_counts_app. cbn. lia.
Qed.

Lemma hier_block_of_hit i n id :
  nodes !! i = Some n -> (start n <= id < start n + count n)%N ->
  hier_block_of start count nodes id = N.of_nat i.
Proof.
  intros Hn Hin. unfold hier_block_of.
  destruct (last_start_spec (start <$> nodes) id (length nodes) 0 (length nodes)) as (H1 & H2 & H3);
    rewrite ?length_fmap in *; try lia.
  { intros a b x y Hab. rewrite !list_lookup_fmap.
    intros (na & Ha & ->)%fmap_Some (nb & Hb & ->)%fmap_Some.
    rewrite (node_start a na Ha), (node_start b nb Hb). by apply total_take_mono. }
  { intros k s Hk. rewrite lookup_ge_None_2; [done|]. by rewrite length_fmap. }
  set (r := last_start _ _ _ _ _) in *.
  assert (i < r) as Hir.
  { destruct (decide (i < r)) as [|Hge]; [done|]. specialize (H2 i (start n) ltac:(lia)).
    rewrite list_lookup_fmap, Hn in H2. specialize (H2 eq_refl). lia. }
  assert (r <= S i) as Hri.
  { destruct (decide (r <= S i)) as [|Hgt]; [done|].
    destruct (lookup_lt_is_Some_2 nodes (S i)) as [m Hm]; [lia|].
    specialize (H1 (S i) (start m) ltac:(lia)). rewrite list_lookup_fmap, Hm in H1.
    specialize (H1 eq_refl). rewrite (node_start _ _ Hm), <- (node_end i n Hn) in H1. lia. }
  assert (r = S i) as -> by lia. rewrite Hn.
  rewrite (proj2 (N.ltb_lt _ _)), (proj2 (N.ltb_lt id _)) by lia. cbn. by rewrite (Hid i n Hn).
Qed.

Lemma hier_block_of_miss id :
  (forall i n, nodes !! i = Some n -> ~ (start n <= id < start n + count n)%N) ->
  hier_block_of start count nodes id = kNoNode.
Proof.
  intros Hno. unfold hier_block_of.
  destruct (last_start_spec (start <$> nodes) id (length nodes) 0 (length nodes)) as (H1 & _ & _);
    rewrite ?length_fmap in *; try lia.
  { intros a b x y Hab. rewrite !list_lookup_fmap.
    intros (na & Ha & ->)%fmap_Some (nb & Hb & ->)%fmap_Some.
    rewrite (node_start a na Ha), (node_start b nb Hb). by apply total_take_mono. }
  { intros k s Hk. rewrite lookup_ge_None_2; [done|]. by rewrite length_fmap. }
  destruct (last_start _ _ _ _ _) as [|k] eqn:E; [done|].
  destruct (nodes !! k) as [n|] eqn:Hn; [|done].
  destruct (_ && _) eqn:Hc; [|done]. apply andb_true_iff in Hc as [Hpos Hlt].
  apply N.ltb_lt in Hpos, Hlt. destruct (Hno k n Hn). split; [|done].
  apply (H1 k); [lia|]. by rewrite list_lookup_fmap, Hn.
Qed.

(** The ranges leave no gap below the total. *)
Lemma range_cover id :
  (id < total (count <$> nodes))%N -> exists i n, nodes !! i = Some n /\ (start n <= id < start n + count n)%N.
Proof.
  intros Hlt. assert (forall k, k <= length nodes -> (id < total (take k (count <$> nodes)))%N ->
    exists i n, nodes !! i = Some n /\ (start n <= id < start n + count n)%N) as H.
  { induction k as [|k IH]; intros Hk Hidk; [rewrite take_0 in Hidk; unfold total in Hidk; cbn in Hidk; lia|].
    destruct (decide (id < total (take k (count <$> nodes)))%N) as [Hk'|Hk']; [apply IH; [lia|done]|].
    destruct (lookup_lt_is_Some_2 nodes k) as [n Hn]; [lia|]. exists k, n. split; [done|].
    rewrite (node_end k n Hn), (node_start k n Hn). lia. }
  apply (H (length nodes)); [done|]. rewrite take_ge; [done|]. by rewrite length_fmap.
Qed.
End query.

(** ** Properties of built trees *)

Section built.
Context {B : Type} `{!DSNameBackend B}.
Context (design : DSDesign) (blocks : list (DSBlockBuildData B * N)).
Context (Hne : blocks <> []) (t : DSHierTree) (Hbuild : ds_build_hier_tree design blocks = Ok t).

#[local] Instance ref_le_total : Total ref_le.
Proof. intros a b. unfold ref_le. lia. Qed.
#[local] Instance ref_le_trans : Transitive ref_le.
Proof. intros a b c. unfold ref_le. lia. Qed.

Lemma elem_of_block_refs d b v local c :
  blocks !! d = Some (b, v) ->
  (local, c) ∈ block_refs_of design blocks d <->
  exists inst, instances_ b !! local = Some inst /\ block_ref design blocks d (local, inst) = Some (local, c).
Proof.
  intros Hd. unfold block_refs_of. rewrite Hd, sort_elem, list_elem_of_omap. cbn [fst]. split.
  - intros ([l i] & Hin%elem_of_map_to_list & Hr). cbn [fst] in Hin.
    assert (l = local) as ->; [|by exists i].
    unfold block_ref in Hr. destruct (l =? 0)%N; [done|].
    destruct (cells_ design !! _); cbn in Hr; [|done]. destruct (is_block_cell _); [|done].
    destruct (def_by_cell_name _ _); cbn in Hr; [|done]. destruct (decide _); [done|]. congruence.
  - intros (inst & Hi & Hr). exists (local, inst). split; [by apply elem_of_map_to_list|done].
Qed.

Lemma block_ref_local d local inst c :
  block_ref design blocks d (local, inst) = Some (local, c) -> local <> 0%N.
Proof. unfold block_ref. by destruct (N.eqb_spec local 0). Qed.

(** Instance [local] of block [d] refers to block [c]: it is not the placeholder, its cell
    is a block cell, and [c] is the first block with the name of that cell and not [d]. *)
Definition refers (d : nat) (local : N) (c : nat) : Prop :=
  exists b v inst cell b' v', blocks !! d = Some (b, v) /\ local <> 0%N /\ instances_ b !! local = Some inst /\
    cells_ design !! N.to_nat (cell_id_ inst) = Some cell /\ is_block_cell (flags_ cell) = true /\
    blocks !! c = Some (b', v') /\ block_name_ b' = name_ cell /\
    (forall k e, k < c -> blocks !! k = Some e -> block_name_ e.1 <> name_ cell) /\ c <> d.

Lemma block_refs_refers d local c : (local, c) ∈ block_refs_of design blocks d <-> refers d local c.
Proof.
  destruct (blocks !! d) as [[b v]|] eqn:Hd.
  - rewrite (elem_of_block_refs d b v) by done. unfold refers, block_ref. split.
    + intros (inst & Hi & Hr). destruct (N.eqb_spec local 0); [done|]. destruct (cells_ design !! _) as [cell|] eqn:Hc; [|done]. cbn in Hr.
      destruct (is_block_cell _) eqn:Hb; [|done]. unfold def_by_cell_name in Hr. destruct (list_find _ blocks) as [[k [b' v']]|] eqn:Hk; [|done]. cbn in Hr.
      destruct (decide (k = d)); [done|]. injection Hr as ->. apply list_find_Some in Hk as (Hk & Hn & Hbefore).
      exists b, v, inst, cell, b', v'. repeat (split; [done|]). split; [|done]. intros j e Hj He. by apply (Hbefore j).
    + intros (b0 & v0 & inst & cell & b' & v' & Hd' & Hl & Hi & Hc & Hb & Hc' & Hn & Hbefore & Hne'). rewrite Hd in Hd'. injection Hd' as <- <-. exists inst. split; [done|].
      rewrite (proj2 (N.eqb_neq _ _)) by done. rewrite Hc. cbn [mbind option_bind]. rewrite Hb. unfold def_by_cell_name.
      assert (list_find (fun b : DSBlockBuildData B * N => block_name_ b.1 = name_ cell) blocks = Some (c, (b', v'))) as ->.
      { apply list_find_Some. split; [done|]. split; [done|]. intros j e He Hj. by apply (Hbefore j). }
      cbn. by rewrite decide_False.
  - unfold block_refs_of. rewrite Hd. split; [by intros ?%elem_of_nil|]. intros (? & ? & ? & ? & ? & ? & Hd' & _). congruence.
Qed.

Lemma block_refs_sorted d : StronglySorted N.lt (block_refs_of design blocks d).*1.
Proof.
  unfold block_refs_of. destruct (blocks !! d) as [[b v]|]; [|constructor]. cbn [fst].
  assert (forall l : list (N * DSInstance), NoDup l.*1 -> NoDup (omap (block_ref design blocks d) l).*1) as Hnd.
  { assert (forall l, (omap (block_ref design blocks d) l).*1 `sublist_of` l.*1) as Hsub.
    { induction l as [|[k i] l IH]; [done|]. cbn [omap list_omap]. destruct (block_ref design blocks d (k, i)) as [r|] eqn:E; cbn; [|by constructor].
      assert (r.1 = k) as ->; [|by constructor]. unfold block_ref in E. repeat case_match; simplify_eq; try done.
      destruct (cells_ design !! _); cbn in E; [|done]. destruct (is_block_cell _); [|done]. destruct (def_by_cell_name _ _); cbn in E; [|done].
      destruct (decide _); [done|]. by injection E as <-. }
    intros l Hl. by eapply sublist_NoDup. }
  pose proof (Hnd _ (NoDup_fst_map_to_list (instances_ b))) as H. set (l := omap _ _) in *. clearbody l.
  assert (NoDup (merge_sort ref_le l).*1) as H' by (by rewrite merge_sort_Permutation).
  assert (StronglySorted ref_le (merge_sort ref_le l)) as Hs by (apply StronglySorted_merge_sort; apply _).
  revert Hs H'. generalize (merge_sort ref_le l). clear. induction 1 as [|r rs Hs IH Hf]; cbn; [constructor|]. intros [Hn Hnd]%NoDup_cons.
  constructor; [by apply IH|]. apply Forall_fmap. rewrite Forall_forall in Hf |- *. intros r' Hr'. specialize (Hf r' Hr'). unfold ref_le in Hf. cbn.
  destruct (decide (r.1 = r'.1)) as [E|]; [|lia]. destruct Hn. rewrite E. by apply list_elem_of_fmap_2.
Qed.

(** The root is the block nobody refers to. *)
Lemma built_root : exists root b n, nodes_ t !! 0 = Some n /\ occurrence design blocks n root b /\
  forall d, d < length blocks -> d = root <-> forall d' local, ~ refers d' local d.
Proof.
  pose proof Hbuild as E. unfold ds_build_hier_tree in E. rewrite decide_False in E by done.
  destruct (roots design blocks) as [|root [|? ?]] eqn:Er; [done| |done].
  apply outcome_bind_Ok in E as (w & Hv & ([b v] & Hb & [= Et])%outcome_bind_Ok). rewrite <- Et. cbn [nodes_].
  apply visit_visited in Hv; [|apply empty_walk_ok|done|done]. destruct Hv as [_ _ _ _ (n & b' & Hn0 & Hocc & _) _ _].
  exists root, b', n. split; [exact Hn0|]. split; [done|]. intros d Hd.
  transitivity (d ∈ roots design blocks); [rewrite Er; by rewrite list_elem_of_singleton|].
  unfold roots. rewrite list_elem_of_filter, elem_of_seq. unfold in_degree. rewrite length_zero_iff_nil. split.
  - intros [H0 _] d' local Hr. apply block_refs_refers in Hr.
    assert ((local, d) ∈ filter (fun r : N * nat => r.2 = d) (concat (block_refs_of design blocks <$> seq 0 (length blocks)))) as Hin; [|rewrite H0 in Hin; by apply elem_of_nil in Hin].
    apply list_elem_of_filter. split; [done|]. apply elem_of_concat. exists (block_refs_of design blocks d'). split; [exact Hr|].
    apply list_elem_of_fmap. exists d'. split; [done|]. apply elem_of_seq. unfold block_refs_of in Hr. destruct (blocks !! d') eqn:Ed; [apply lookup_lt_Some in Ed; lia|by apply elem_of_nil in Hr].
  - intros Hno. split; [|lia]. apply elem_of_nil_inv. intros [l c] [Hc Hin]%list_elem_of_filter. cbn in Hc. subst c.
    apply elem_of_concat in Hin as (rs & Hin & (d' & -> & _)%list_elem_of_fmap). apply (Hno d' l). by apply block_refs_refers.
Qed.

(** C14: the tree is the full expansion of the hierarchy, for blocks from which a tree was
    built.  Its root is an occurrence of the only block that no instance of another block
    refers to, without a name and at the origin; every node is an occurrence of one
    block and has exactly one child per instance of that block that refers to another
    block, in ascending order of the local ids: the child is an occurrence of the block
    referred to and carries the id of the instance it stands for, its name, and the
    composition of the placements on the way from the root.  Every other node is a child
    of an earlier one. *)
Theorem hierarchy_complete :
  (exists n root b, nodes_ t !! 0 = Some n /\ parent_id_ n = 0 /\ self_global_id_ n = 0%N /\
     composite_transform_ n = identity /\ instance_name_ n = [] /\ block_cell_name_ n = design_name_ t /\
     occurrence design blocks n root b /\
     forall d, d < length blocks -> d = root <-> forall d' local, ~ refers d' local d) /\
  (forall i n, nodes_ t !! i = Some n -> id_ n = i /\ exists d b refs,
     occurrence design blocks n d b /\ StronglySorted N.lt refs.*1 /\ (forall local c, (local, c) ∈ refs <-> refers d local c) /\
     Forall2 (child_of design blocks (nodes_ t) i (instance_start_ n) (composite_transform_ n) b) (children_ids_ n) refs) /\
  (forall j m, 0 < j -> nodes_ t !! j = Some m -> parent_id_ m < j /\
     exists n, nodes_ t !! parent_id_ m = Some n /\ j ∈ children_ids_ n).
Proof.
  destruct (built_tree_ok design blocks t Hne Hbuild) as [Hids _ _ _ (n & Hn & Hroot) Hfin Hpar].
  split; [|split].
  - destruct built_root as (root & b & n' & Hn' & Hocc & Hr). rewrite Hn in Hn'. injection Hn' as <-. exists n, root, b. naive_solver.
  - intros i m Hm. split; [by apply Hids|]. destruct (Hfin i m Hm) as (d & b & Hocc & Hch). exists d, b, (block_refs_of design blocks d).
    split; [done|]. split; [apply block_refs_sorted|]. split; [|done]. intros. apply block_refs_refers.
  - intros j m Hj Hm. destruct (Hpar j Hj m Hm) as [[_ ?] ?]. done.
Qed.

(** The id of node and local number, from the fact [G] that the node is found again. *)
Ltac same_id G Hn :=
  let l := fresh "l" in let Hl := fresh in intros l Hl;
  let E1 := fresh in let E2 := fresh in destruct (G _ _ l Hn Hl) as [E1 E2]; do 2 (split; [done|]);
  let j := fresh "j" in let m := fresh "m" in let l' := fresh "l" in let Hm := fresh in let Hl' := fresh in let E := fresh in
  intros j m l' Hm Hl' E; let E1' := fresh in let E2' := fresh in destruct (G j m l' Hm Hl') as [E1' E2'];
  rewrite E1', E1 in E; rewrite E, E2 in E2'; apply Nat2N.inj in E2' as <-; rewrite Hn in Hm; injection Hm as <-; split; [done|lia].

(** C27: global ids name one thing each, in a tree that was built.  Local instance and net
    ids from 1 up to their count (exclusive: the count includes the unused 0) and via
    ids from 1 up to theirs get the global ids start + local, start + local and
    start + local - 1 of their node; the node is found again from the global id by
    binary search, and no other node and local id of this kind gets the same global id.
    Every instance id below the total belongs to a node, and ids beyond it to none.
    (Local 0 is not such an id: for instances it stands for the instance of the node in
    its parent, for nets and vias it has no global id.) *)
Theorem global_ids_unique i n :
  nodes_ t !! i = Some n ->
  (forall local, (1 <= local < instance_count_ n)%N ->
     global_instance_id t i local = (instance_start_ n + local)%N /\ block_of_instance t (instance_start_ n + local) = N.of_nat i /\
     forall j m l, nodes_ t !! j = Some m -> (1 <= l < instance_count_ m)%N ->
       global_instance_id t j l = global_instance_id t i local -> j = i /\ l = local) /\
  (forall local, (1 <= local < net_count_ n)%N ->
     global_net_id t i local = (net_start_ n + local)%N /\ block_of_net t (net_start_ n + local) = N.of_nat i /\
     forall j m l, nodes_ t !! j = Some m -> (1 <= l < net_count_ m)%N ->
       global_net_id t j l = global_net_id t i local -> j = i /\ l = local) /\
  (forall local, (1 <= local <= via_count_ n)%N ->
     global_via_instance_id t i local = (via_start_ n + (local - 1))%N /\ block_of_via_instance t (via_start_ n + (local - 1)) = N.of_nat i /\
     forall j m l, nodes_ t !! j = Some m -> (1 <= l <= via_count_ m)%N ->
       global_via_instance_id t j l = global_via_instance_id t i local -> j = i /\ l = local) /\
  (forall g, (g < total (instance_count_ <$> nodes_ t))%N ->
     exists k m, nodes_ t !! k = Some m /\ block_of_instance t g = N.of_nat k /\
       (instance_start_ m <= g < instance_start_ m + instance_count_ m)%N) /\
  (forall g, (total (instance_count_ <$> nodes_ t) <= g)%N -> block_of_instance t g = kNoNode).
Proof.
  intros Hn. destruct (built_tree_ok design blocks t Hne Hbuild) as [Hids Hi Hnet Hvia _ _ _].
  assert (forall j m l, nodes_ t !! j = Some m -> (1 <= l < instance_count_ m)%N ->
    global_instance_id t j l = (instance_start_ m + l)%N /\ block_of_instance t (instance_start_ m + l) = N.of_nat j) as G1.
  { intros j m l Hm Hl. unfold global_instance_id. rewrite Hm, (proj2 (N.eqb_neq _ _)), (proj2 (N.leb_gt _ _)) by lia.
    split; [done|]. apply (hier_block_of_hit _ _ _ Hi Hids j m); [done|lia]. }
  assert (forall j m l, nodes_ t !! j = Some m -> (1 <= l < net_count_ m)%N ->
    global_net_id t j l = (net_start_ m + l)%N /\ block_of_net t (net_start_ m + l) = N.of_nat j) as G2.
  { intros j m l Hm Hl. unfold global_net_id. rewrite Hm, (proj2 (N.eqb_neq _ _)), (proj2 (N.leb_gt _ _)) by lia. cbn [orb].
    split; [done|]. apply (hier_block_of_hit _ _ _ Hnet Hids j m); [done|lia]. }
  assert (forall j m l, nodes_ t !! j = Some m -> (1 <= l <= via_count_ m)%N ->
    global_via_instance_id t j l = (via_start_ m + (l - 1))%N /\ block_of_via_instance t (via_start_ m + (l - 1)) = N.of_nat j) as G3.
  { intros j m l Hm Hl. unfold global_via_instance_id. rewrite Hm, (proj2 (N.eqb_neq _ _)), (proj2 (N.ltb_ge _ _)) by lia. cbn [orb].
    split; [done|]. apply (hier_block_of_hit _ _ _ Hvia Hids j m); [done|lia]. }
  split; [|split; [|split; [|split]]].
  - same_id G1 Hn.
  - same_id G2 Hn.
  - same_id G3 Hn.
  - intros g Hg. destruct (range_cover _ _ _ Hi g Hg) as (k & m & Hm & Hr). exists k, m.
    split; [done|]. split; [|done]. by apply (hier_block_of_hit _ _ _ Hi Hids k m).
  - intros g Hg. apply hier_block_of_miss; [done|]. intros k m Hm [_ Hlt].
    rewrite (node_end _ _ _ Hi k m Hm) in Hlt.
    pose proof (total_take_mono (instance_count_ <$> nodes_ t) (S k) (length (instance_count_ <$> nodes_ t))) as Hmono.
    rewrite (take_ge _ (length (instance_count_ <$> nodes_ t))) in Hmono by done. apply lookup_lt_Some in Hm. rewrite length_fmap in Hmono. lia.
Qed.

(** The id of a node's own instance lies in the range of its parent. *)
Lemma self_in_parent j m :
  (forall d b v, blocks !! d = Some (b, v) -> block_ok b) -> 0 < j -> nodes_ t !! j = Some m ->
  exists n, nodes_ t !! parent_id_ m = Some n /\
  (instance_start_ n < self_global_id_ m < instance_start_ n + instance_count_ n)%N.
Proof.
  intros Hblocks Hj Hm. destruct (built_tree_ok design blocks t Hne Hbuild) as [_ _ _ _ _ Hall Hpar].
  destruct (Hpar j Hj m Hm) as (_ & n & Hn & Hin). exists n. split; [done|].
  destruct (Hall _ n Hn) as (d & b & Hocc & Hch). apply list_elem_of_lookup in Hin as [k Hk].
  destruct (Forall2_lookup_l _ _ _ _ _ Hch Hk) as ([local c] & Hr & (_ & m' & b' & Hm' & _ & Hself & _)).
  rewrite Hm in Hm'. injection Hm' as <-. cbn in Hself.
  destruct Hocc as (v & Hd & _ & _ & Hcount & _). apply list_elem_of_lookup_2 in Hr.
  apply (elem_of_block_refs d b v) in Hr as (inst & Hi & Href); [|done].
  apply block_ref_local in Href. specialize (Hblocks d b v Hd).
  assert (local < next_instance_id_ b)%N by (apply (bo_dom _ Hblocks); by eexists).
  pose proof (bo_total _ Hblocks). lia.
Qed.
End built.

(** ** A small hierarchy

    Block T places block B twice, as u1 and u2, and a leaf cell x; B has a leaf y
    and a net n. *)

Definition sample_cell (name : bytes) (block : bool) : DSCell :=
  {| name_ := name; library_name_ := []; bbox_ := GEORect 0 0 100 100; origin_x_ := 0; origin_y_ := 0;
     def_path_ := []; flags_ := if block then block_flags else no_flags; pins_ := []; obs_ := [];
     polygon_ := GEOPolygon [] |}.

Definition sample_design : DSDesign :=
  foldl (fun d c => fst (ok_or (d, 0%N) (add_cell c d))) new_design
    [sample_cell nT true; sample_cell nB true; sample_cell nL false].

Definition sample_blocks : list (DSBlockBuildData DSHasherBackendHash * N) :=
  [(sample_B, 0%N); (sample_T, 4%N)].

Definition sample_tree : DSHierTree :=
  ok_or {| nodes_ := []; design_name_ := [] |} (ds_build_hier_tree sample_design sample_blocks).

Lemma sample_build : ds_build_hier_tree sample_design sample_blocks = Ok sample_tree.
Proof. vm_compute. reflexivity. Qed.

Example sample_ranges :
  ((fun n => (parent_id_ n, instance_start_ n, net_start_ n, x_ (offset_ (composite_transform_ n))))
     <$> nodes_ sample_tree) = [(0, 0%N, 0%N, 0%Z); (0, 4%N, 1%N, 10%Z); (0, 6%N, 3%N, 20%Z)].
Proof. vm_compute. reflexivity. Qed.

Lemma hierarchy_complete_witness : exists n, nodes_ sample_tree !! 0 = Some n /\
  block_cell_name_ n = design_name_ sample_tree.
Proof.
  destruct (hierarchy_complete sample_design sample_blocks ltac:(discriminate) sample_tree sample_build)
    as ((n & _ & _ & Hn & _ & _ & _ & _ & Hname & _) & _). exists n. split; [exact Hn|exact Hname].
Defined.

Lemma global_ids_unique_witness : exists n, nodes_ sample_tree !! 2 = Some n /\
  block_of_instance sample_tree (global_instance_id sample_tree 2 1) = N.of_nat 2.
Proof.
  assert (exists n, nodes_ sample_tree !! 2 = Some n /\ instance_count_ n = 2%N) as (n & Hn & Hc)
    by (eexists; split; vm_compute; reflexivity).
  destruct (global_ids_unique sample_design sample_blocks ltac:(discriminate) sample_tree sample_build 2 n Hn)
    as (Hi & _). exists n. split; [exact Hn|].
  destruct (Hi 1%N ltac:(rewrite Hc; lia)) as (-> & Hb & _). exact Hb.
Defined.
