(* ===== verification/NameMapper.v ===== *)
(** Hierarchical names and global ids (emir/design/cpp/ds_name_mapper.h,
    ds_name_mapper.cpp).

    A mapper joins the hierarchy tree with the hashers of the blocks: the name
    [a/b/n] is the instance or net [n] of the block placed by instance [b] of the
    block placed by instance [a] of the top block.  An index maps the path of
    every node but the root to its number.  The instance and the net mapper of the
    code are one template; here [dim] says which of the two it is. *)

From stdpp Require Import base gmap list sets fin_maps sorting.
From Stdlib Require Import ZArith NArith Lia.
From S2P Require Import Prelude Bytes NameHasher Geometry BlockData DesignTables HierTree.
Import Corelib.Init.Datatypes(nat(..)) Corelib.Numbers.BinNums(N(..)).
#[local] Open Scope nat_scope.

Inductive dimension := INSTANCE | NET.

Definition slash : Byte.byte := Byte.x2f.

(** ** Paths *)

(** The loop of [hier_path_of]: the instance names from a node up to the root,
    which is its own parent.  In a tree whose parents come first as many steps as
    nodes are enough; [LogicError] marks a longer walk. *)
Fixpoint hier_parts (fuel : nat) (t : DSHierTree) (node : nat) : outcome (list bytes) :=
  match fuel with
  | O => LogicError
  | S fuel =>
      n ← defined (nodes_ t !! node);
      if decide (id_ n = parent_id_ n) then Ok []
      else parts ← hier_parts fuel t (parent_id_ n); Ok (instance_name_ n :: parts)
  end.

Definition join_step (out part : bytes) : bytes :=
  (if decide (out = []) then [] else out ++ [slash]) ++ part.

Definition join_path (parts : list bytes) : bytes := foldl join_step [] parts.

Definition hier_path_of (t : DSHierTree) (node : nat) : outcome bytes :=
  parts ← hier_parts (S (length (nodes_ t))) t node;
  Ok (join_path (reverse parts)).

(** [find_last_of('/')]. *)
Definition last_slash (s : bytes) : option nat :=
  (fun p => length s - 1 - p.1) <$> list_find (fun c => c = slash) (reverse s).

(** The last component of a path joined to the ones before. *)
Definition prefixed (prefix name : bytes) : bytes :=
  if decide (prefix = []) then name else prefix ++ slash :: name.

(** The names of one DEF, saved beside its data. *)
Record DSBlockNames {B : Type} := {
  bn_block_name_ : bytes;
  bn_instance_names_ : option (DSNameHasherT B);
  bn_net_names_ : option (DSNameHasherT B);
}.
Arguments DSBlockNames B : clear implicits.

Section mapper.
Context {B D : Type} `{!DSNameBackend B} `{!DSNameBackend D}.
Context (dim : dimension).

Record DSNameMapperT := {
  tree_ : option DSHierTree;
  injected_ : gmap N (DSNameHasherT B);
  dispatch_ : D;
}.

(** One step of [rebuild_dispatch_index]: the first node keeps a path. *)
Definition dispatch_node (t : DSHierTree) (d : D) (i : nat) : outcome D :=
  key ← hier_path_of t i;
  if (backend_find d key kNoNode =? kNoNode)%N then Ok (backend_insert key (N.of_nat i) d) else Ok d.

Definition rebuild_dispatch_index (m : DSNameMapperT) : outcome DSNameMapperT :=
  let d := backend_clear (dispatch_ m) in
  match tree_ m with
  | None => Ok {| tree_ := None; injected_ := injected_ m; dispatch_ := d |}
  | Some t =>
      let count := N.to_nat (N.of_nat (length (nodes_ t)) mod 2 ^ 32) in
      d ← ofold (dispatch_node t) (seq 1 (count - 1)) d;
      Ok {| tree_ := Some t; injected_ := injected_ m; dispatch_ := d |}
  end.

Definition new_mapper (t : option DSHierTree) : outcome DSNameMapperT :=
  rebuild_dispatch_index {| tree_ := t; injected_ := ∅; dispatch_ := backend_new |}.

Definition set_tree (t : option DSHierTree) (m : DSNameMapperT) : outcome DSNameMapperT :=
  rebuild_dispatch_index {| tree_ := t; injected_ := injected_ m; dispatch_ := dispatch_ m |}.

(** The hasher of a block, [None] for the null pointer. *)
Definition set_block_hasher (cell_id : N) (h : option (DSNameHasherT B)) (m : DSNameMapperT) : DSNameMapperT :=
  {| tree_ := tree_ m;
     injected_ := match h with
                  | None => delete cell_id (injected_ m)
                  | Some h => <[cell_id := h]> (injected_ m)
                  end;
     dispatch_ := dispatch_ m |}.

Definition set_block_hasher_by_name (cell_name : bytes) (h : option (DSNameHasherT B)) (m : DSNameMapperT)
  : DSNameMapperT :=
  match tree_ m with
  | None => m
  | Some t => match list_find (fun n => block_cell_name_ n = cell_name) (nodes_ t) with
              | Some (_, n) => set_block_hasher (block_cell_id_ n) h m
              | None => m
              end
  end.

Definition injected_count (m : DSNameMapperT) : nat := size (injected_ m).

(** The start and the length of the range of a node. *)
Definition start_of (n : DSHierNode) : N :=
  match dim with INSTANCE => instance_start_ n | NET => net_start_ n end.
Definition count_of (n : DSHierNode) : N :=
  match dim with INSTANCE => instance_count_ n | NET => net_count_ n end.

(** The end of [get_global_id]: from the local id to the global one. *)
Definition to_global (n : DSHierNode) (local : N) : N :=
  match dim with
  | INSTANCE => if (local =? 0)%N then self_global_id_ n
                else if (instance_count_ n <=? local)%N then kInvalidId id_bits
                else (instance_start_ n + local)%N
  | NET => if (local =? 0)%N || (net_count_ n <=? local)%N then kInvalidId id_bits
           else (net_start_ n + local)%N
  end.

Definition lookup_leaf (m : DSNameMapperT) (n : DSHierNode) (leaf : bytes) : N :=
  match injected_ m !! block_cell_id_ n with
  | None => kInvalidId id_bits
  | Some h =>
      let local := get_id id_bits h leaf in
      if is_valid_id id_bits local then to_global n local else kInvalidId id_bits
  end.

Definition get_global_id (m : DSNameMapperT) (name : bytes) : outcome N :=
  match tree_ m with
  | None => Ok (kInvalidId id_bits)
  | Some t =>
      if decide (nodes_ t = []) then Ok (kInvalidId id_bits) else
      if decide (name = []) then
        match dim with
        | INSTANCE => n ← defined (nodes_ t !! 0); Ok (self_global_id_ n)
        | NET => Ok (kInvalidId id_bits)
        end
      else
        match last_slash name with
        | None => n ← defined (nodes_ t !! 0); Ok (lookup_leaf m n name)
        | Some k =>
            if k + 1 =? length name then Ok (kInvalidId id_bits) else
            let node := backend_find (dispatch_ m) (take k name) kNoNode in
            if (N.of_nat (length (nodes_ t)) <=? node)%N then Ok (kInvalidId id_bits) else
            n ← defined (nodes_ t !! N.to_nat node);
            Ok (lookup_leaf m n (drop (k + 1) name))
        end
  end.

(** The part of [get_full_name] the two dimensions share: the name of a local id
    of node [node]. *)
Definition local_name (m : DSNameMapperT) (n : DSHierNode) (local : N) : outcome bytes :=
  match injected_ m !! block_cell_id_ n with
  | None => Ok []
  | Some h => defined (get_name h local)
  end.

Definition get_full_name (m : DSNameMapperT) (global : N) : outcome bytes :=
  match tree_ m with
  | None => Ok []
  | Some t =>
      if decide (nodes_ t = []) then Ok [] else
      if negb (is_valid_id id_bits global) then Ok [] else
      let node := match dim with INSTANCE => block_of_instance t global | NET => block_of_net t global end in
      if (node =? kNoNode)%N then Ok [] else
      n ← defined (nodes_ t !! N.to_nat node);
      let local := (global - start_of n)%N in
      match dim with
      | INSTANCE =>
          prefix ← hier_path_of t (N.to_nat node);
          if (local =? 0)%N then Ok prefix else
          name ← local_name m n local;
          if decide (name = []) then Ok [] else Ok (prefixed prefix name)
      | NET =>
          name ← local_name m n local;
          if decide (name = []) then Ok [] else
          prefix ← hier_path_of t (N.to_nat node);
          Ok (prefixed prefix name)
      end
  end.

(** [ds_make_instance_name_mapper], [ds_make_net_name_mapper]. *)
Definition names_of (bn : DSBlockNames B) : option (DSNameHasherT B) :=
  match dim with INSTANCE => bn_instance_names_ bn | NET => bn_net_names_ bn end.

Definition inject (design : DSDesign) (m : DSNameMapperT) (bn : option (DSBlockNames B)) : DSNameMapperT :=
  match bn with
  | None => m
  | Some bn =>
      let cell_id := get_id table_bits (cell_names_ design) (bn_block_name_ bn) in
      if is_valid_id table_bits cell_id then set_block_hasher cell_id (names_of bn) m else m
  end.

Definition ds_make_name_mapper (design : DSDesign) (tree : DSHierTree) (names : list (option (DSBlockNames B)))
  : outcome DSNameMapperT :=
  m ← new_mapper (Some tree);
  Ok (foldl (inject design) m names).
End mapper.
Arguments DSNameMapperT B D : clear implicits.

(** ** Strings *)

Lemma last_slash_None (s : list Byte.byte) : slash ∉ s -> last_slash s = None.
Proof.
  intros Hs. unfold last_slash. destruct (list_find _ (reverse s)) as [[i c]|] eqn:E; [|done].
  apply list_find_Some in E as (Hi & -> & _). apply list_elem_of_lookup_2 in Hi. by rewrite elem_of_reverse in Hi.
Qed.

Lemma last_slash_app (p leaf : list Byte.byte) : slash ∉ leaf -> last_slash (p ++ slash :: leaf) = Some (length p).
Proof.
  intros Hs. unfold last_slash.
  assert (list_find (fun c => c = slash) (reverse (p ++ slash :: leaf)) = Some (length leaf, slash)) as ->.
  { apply list_find_Some. rewrite reverse_app, reverse_cons, <- app_assoc.
    rewrite lookup_app_r by by rewrite length_reverse.
    rewrite length_reverse, Nat.sub_diag. split; [done|]. split; [done|].
    intros j y Hj Hlt ->. rewrite lookup_app_l in Hj by by rewrite length_reverse.
    apply list_elem_of_lookup_2 in Hj. by rewrite elem_of_reverse in Hj. }
  cbn. f_equal. rewrite length_app. cbn. lia.
Qed.

Lemma last_slash_Some (s : list Byte.byte) k :
  last_slash s = Some k -> s = take k s ++ slash :: drop (k + 1) s /\ slash ∉ drop (k + 1) s.
Proof.
  unfold last_slash. intros ([i c] & Hf & ->)%fmap_Some.
  apply list_find_Some in Hf as (Hi & -> & Hmin). cbn [fst].
  apply lookup_lt_Some in Hi as Hlt. rewrite length_reverse in Hlt.
  rewrite reverse_lookup in Hi by done. replace (length s - S i) with (length s - 1 - i) in Hi by lia.
  set (k := length s - 1 - i) in *. split.
  - replace (k + 1) with (S k) by lia. symmetry. by apply take_drop_middle.
  - intros Hin. apply list_elem_of_lookup in Hin as [j Hj]. rewrite lookup_drop in Hj.
    apply lookup_lt_Some in Hj as Hjl. subst k.
    apply (Hmin (length s - S (length s - 1 - i + 1 + j)) slash).
    + rewrite reverse_lookup by lia. rewrite <- Hj. f_equal. lia.
    + lia.
    + done.
Qed.

(** A path ends in its last component. *)
Lemma prefixed_inj (p q a b : list Byte.byte) :
  slash ∉ a -> slash ∉ b -> a <> [] -> b <> [] -> prefixed p a = prefixed q b -> p = q /\ a = b.
Proof.
  intros Ha Hb Na Nb. unfold prefixed. do 2 case_decide; subst; [done| | |].
  - intros ->. set_solver.
  - intros <-. set_solver.
  - intros E. pose proof (last_slash_app p a Ha) as H1. rewrite E, (last_slash_app q b Hb) in H1.
    injection H1 as H1. apply app_inj_1 in E as [-> [= ->]]; [done|lia].
Qed.

Lemma prefixed_ne (p a : list Byte.byte) : a <> [] -> prefixed p a <> [].
Proof. intros Ha. unfold prefixed. destruct (decide _); [done|]. by destruct p. Qed.

Lemma join_step_prefixed p a : join_step p a = prefixed p a.
Proof. unfold join_step, prefixed. destruct (decide _); [done|]. by rewrite <- app_assoc. Qed.

(** ** Paths in a built tree *)

Lemma hier_parts_fuel t f f' node parts :
  hier_parts f t node = Ok parts -> f <= f' -> hier_parts f' t node = Ok parts.
Proof.
  revert f' node parts. induction f as [|f IH]; intros f' node parts Hp Hle; [done|].
  destruct f' as [|f']; [lia|]. cbn [hier_parts] in *.
  apply outcome_bind_Ok in Hp as (n & Hn & Hp). rewrite Hn. cbn [mbind outcome_bind].
  destruct (decide _); [done|]. apply outcome_bind_Ok in Hp as (ps & Hps & Hp).
  rewrite (IH f' _ _ Hps) by lia. done.
Qed.

Lemma block_ref_fst {B} `{!DSNameBackend B} design (blocks : list (DSBlockBuildData B * N)) d e r :
  block_ref design blocks d e = Some r -> r.1 = e.1.
Proof.
  destruct e as [l inst]. unfold block_ref. destruct (l =? 0)%N; [done|].
  intros (c & _ & Hc)%bind_Some. destruct (is_block_cell _); [|done].
  apply bind_Some in Hc as (k & _ & Hk). destruct (decide _); [done|]. by injection Hk as <-.
Qed.

Lemma block_refs_NoDup {B} `{!DSNameBackend B} design (blocks : list (DSBlockBuildData B * N)) d :
  NoDup (block_refs_of design blocks d).*1.
Proof.
  unfold block_refs_of. destruct (blocks !! d) as [b|]; [|constructor].
  rewrite merge_sort_Permutation. pose proof (NoDup_fst_map_to_list (instances_ b.1)) as Hnd.
  induction (map_to_list (instances_ b.1)) as [|e l IH]; [constructor|]. cbn in Hnd.
  apply NoDup_cons in Hnd as [Hin Hnd]. cbn [omap list_omap].
  destruct (block_ref design blocks d e) as [r|] eqn:Er; [|by apply IH].
  rewrite fmap_cons. apply NoDup_cons. split; [|by apply IH].
  rewrite (block_ref_fst _ _ _ _ _ Er). intros ([? ?] & Ek & (e' & He' & Hr')%list_elem_of_omap)%list_elem_of_fmap.
  apply block_ref_fst in Hr'. cbn in Ek, Hr'. apply Hin, list_elem_of_fmap. exists e'. split; [congruence|done].
Qed.

Section paths.
Context {B : Type} `{!DSNameBackend B}.
Context (design : DSDesign) (blocks : list (DSBlockBuildData B * N)) (t : DSHierTree).
Context (Ht : tree_ok design blocks t).

Lemma hier_parts_total j m :
  nodes_ t !! j = Some m -> exists parts, hier_parts (S j) t j = Ok parts.
Proof using Ht.
  revert m. induction (lt_wf j) as [j _ IH]. intros m Hm. cbn [hier_parts].
  rewrite Hm. cbn [defined mbind outcome_bind]. rewrite (to_ids _ _ _ Ht j m Hm).
  destruct (decide (j = parent_id_ m)) as [|Hne]; [by eexists|].
  destruct j as [|j].
  { destruct (to_root _ _ _ Ht) as (r & Hr & Hp & _). congruence. }
  destruct (to_parents _ _ _ Ht (S j) ltac:(lia) m Hm) as ([_ Hlt] & n & Hn & _).
  destruct (IH _ Hlt n Hn) as [parts Hp]. rewrite (hier_parts_fuel _ _ _ _ _ Hp) by lia.
  cbn [mbind outcome_bind]. by eexists.
Qed.

Lemma path_root : hier_path_of t 0 = Ok [].
Proof using Ht.
  destruct (to_root _ _ _ Ht) as (r & Hr & Hp & _). unfold hier_path_of. cbn [hier_parts].
  rewrite Hr. cbn [defined mbind outcome_bind]. by rewrite decide_True by by rewrite (to_ids _ _ _ Ht 0 r Hr).
Qed.

Lemma path_child j m :
  0 < j -> nodes_ t !! j = Some m ->
  exists p, hier_path_of t (parent_id_ m) = Ok p /\ hier_path_of t j = Ok (prefixed p (instance_name_ m)).
Proof using Ht.
  intros Hj Hm. destruct (to_parents _ _ _ Ht j Hj m Hm) as ([_ Hlt] & n & Hn & _).
  destruct (hier_parts_total _ _ Hn) as [parts Hp]. apply lookup_lt_Some in Hm as Hl.
  exists (join_path (reverse parts)). unfold hier_path_of. split.
  - by rewrite (hier_parts_fuel _ _ _ _ _ Hp) by lia.
  - cbn [hier_parts]. rewrite Hm. cbn [defined mbind outcome_bind]. rewrite (to_ids _ _ _ Ht j m Hm).
    rewrite decide_False by lia. rewrite (hier_parts_fuel _ _ _ _ _ Hp) by lia.
    cbn [mbind outcome_bind]. rewrite reverse_cons. unfold join_path. rewrite foldl_snoc.
    by rewrite join_step_prefixed.
Qed.

Lemma path_total j m : nodes_ t !! j = Some m -> exists p, hier_path_of t j = Ok p.
Proof using Ht.
  intros Hm. destruct (hier_parts_total _ _ Hm) as [parts Hp]. apply lookup_lt_Some in Hm.
  unfold hier_path_of. rewrite (hier_parts_fuel _ _ _ _ _ Hp) by lia. by eexists.
Qed.

Context (Hblocks : forall d b v, blocks !! d = Some (b, v) -> block_ok b).

(** A child is named by a local id of its parent's block, and has a proper name. *)
Lemma child_named j m :
  0 < j -> nodes_ t !! j = Some m ->
  exists n d b v h local, nodes_ t !! parent_id_ m = Some n /\ blocks !! d = Some (b, v) /\
  instance_names_ b = Some h /\ instance_name_ m <> [] /\
  backend_map (backend_ h) !! instance_name_ m = Some local.
Proof using Ht Hblocks.
  intros Hj Hm. destruct (to_parents _ _ _ Ht j Hj m Hm) as (_ & n & Hn & Hin).
  destruct (to_finished _ _ _ Ht _ n Hn) as (d & b & (v & Hd & _) & Hch).
  apply list_elem_of_lookup in Hin as [k Hk].
  destruct (Forall2_lookup_l _ _ _ _ _ Hch Hk) as ([local c] & Hr & (_ & m' & b' & Hm' & _ & _ & _ & Hname & _)).
  rewrite Hm in Hm'. injection Hm' as <-. cbn [fst] in Hname.
  apply list_elem_of_lookup_2 in Hr. apply (elem_of_block_refs _ _ d b v) in Hr as (inst & Hi & Href); [|done].
  apply block_ref_local in Href. pose proof (Hblocks d b v Hd) as Hb.
  destruct (bo_instances _ Hb) as (h & Hh & Hu).
  assert (local < next_instance_id_ b)%N by (apply (bo_dom _ Hb); by eexists).
  destruct (nu_named _ _ Hu local) as [name Hl]; [lia|].
  pose proof Hl as [Hne Hg]%(ok_map _ _ (nu_ok _ _ Hu)).
  unfold child_name in Hname. rewrite Hh in Hname. cbn [defined mbind outcome_bind] in Hname.
  rewrite Hg in Hname. injection Hname as <-. by exists n, d, b, v, h, local.
Qed.

(** Two children of one node have different names. *)
Lemma sibling_names j1 j2 m1 m2 :
  0 < j1 -> 0 < j2 -> nodes_ t !! j1 = Some m1 -> nodes_ t !! j2 = Some m2 ->
  parent_id_ m1 = parent_id_ m2 -> instance_name_ m1 = instance_name_ m2 -> j1 = j2.
Proof using Ht Hblocks.
  intros Hj1 Hj2 Hm1 Hm2 Hp Hname.
  destruct (to_parents _ _ _ Ht j1 Hj1 m1 Hm1) as (_ & n & Hn & [k1 Hk1]%list_elem_of_lookup).
  destruct (to_parents _ _ _ Ht j2 Hj2 m2 Hm2) as (_ & n' & Hn' & [k2 Hk2]%list_elem_of_lookup).
  rewrite <- Hp, Hn in Hn'. injection Hn' as <-.
  destruct (to_finished _ _ _ Ht _ n Hn) as (d & b & (v & Hd & _) & Hch).
  destruct (Forall2_lookup_l _ _ _ _ _ Hch Hk1) as ([l1 c1] & Hr1 & (_ & m & b1 & Hm & _ & _ & _ & Hn1 & _)).
  rewrite Hm1 in Hm. injection Hm as <-.
  destruct (Forall2_lookup_l _ _ _ _ _ Hch Hk2) as ([l2 c2] & Hr2 & (_ & m & b2 & Hm & _ & _ & _ & Hn2 & _)).
  rewrite Hm2 in Hm. injection Hm as <-. cbn [fst] in Hn1, Hn2.
  destruct (bo_instances _ (Hblocks d b v Hd)) as (h & Hh & Hu).
  destruct (child_named j1 m1 Hj1 Hm1) as (_ & _ & _ & _ & _ & _ & _ & _ & _ & Hne & _).
  unfold child_name in Hn1, Hn2. rewrite Hh in Hn1, Hn2. cbn [defined mbind outcome_bind] in Hn1, Hn2.
  assert (l1 = l2) as ->.
  { destruct (get_name h l1) as [a|] eqn:E1; [|done]. destruct (get_name h l2) as [a'|] eqn:E2; [|done].
    injection Hn1 as ->. injection Hn2 as ->.
    assert (backend_map (backend_ h) !! instance_name_ m1 = Some l1) as A1 by (apply (ok_map _ _ (nu_ok _ _ Hu)); done).
    assert (backend_map (backend_ h) !! instance_name_ m1 = Some l2) as A2.
    { apply (ok_map _ _ (nu_ok _ _ Hu)). rewrite Hname. split; [by rewrite <- Hname|done]. }
    congruence. }
  assert (k1 = k2) as ->; [|congruence].
  apply (NoDup_lookup (block_refs_of design blocks d).*1 k1 k2 l2); [by apply block_refs_NoDup| |];
    rewrite list_lookup_fmap; [by rewrite Hr1|by rewrite Hr2].
Qed.

Lemma path_ne j m p : 0 < j -> nodes_ t !! j = Some m -> hier_path_of t j = Ok p -> p <> [].
Proof using Ht Hblocks.
  intros Hj Hm Hp. destruct (path_child j m Hj Hm) as (q & _ & Hq).
  destruct (child_named j m Hj Hm) as (_ & _ & _ & _ & _ & _ & _ & _ & _ & Hne & _).
  rewrite Hq in Hp. injection Hp as <-. by apply prefixed_ne.
Qed.

Definition no_slash (h : DSNameHasherT B) : Prop :=
  forall (n : list Byte.byte) i, backend_map (backend_ h) !! n = Some i -> slash ∉ n.

Context (Hslash : forall d b v h, blocks !! d = Some (b, v) -> instance_names_ b = Some h -> no_slash h).

(** Different nodes have different paths. *)
Lemma path_inj j1 j2 m1 m2 p :
  nodes_ t !! j1 = Some m1 -> nodes_ t !! j2 = Some m2 ->
  hier_path_of t j1 = Ok p -> hier_path_of t j2 = Ok p -> j1 = j2.
Proof using Ht Hblocks Hslash.
  revert j2 m1 m2 p. induction (lt_wf j1) as [j1 _ IH]. intros j2 m1 m2 p Hm1 Hm2 Hp1 Hp2.
  destruct (decide (j1 = 0)) as [->|H1].
  { destruct (decide (j2 = 0)) as [->|H2]; [done|]. rewrite path_root in Hp1. injection Hp1 as <-.
    by destruct (path_ne j2 m2 [] ltac:(lia) Hm2 Hp2). }
  destruct (decide (j2 = 0)) as [->|H2].
  { rewrite path_root in Hp2. injection Hp2 as <-. by destruct (path_ne j1 m1 [] ltac:(lia) Hm1 Hp1). }
  destruct (path_child j1 m1 ltac:(lia) Hm1) as (q1 & Hq1 & E1).
  destruct (path_child j2 m2 ltac:(lia) Hm2) as (q2 & Hq2 & E2).
  rewrite E1 in Hp1. injection Hp1 as <-. rewrite E2 in Hp2. injection Hp2 as Hp2.
  destruct (child_named j1 m1 ltac:(lia) Hm1) as (n1 & d1 & b1 & v1 & h1 & l1 & Hn1 & Hd1 & Hh1 & Hne1 & Hl1).
  destruct (child_named j2 m2 ltac:(lia) Hm2) as (n2 & d2 & b2 & v2 & h2 & l2 & Hn2 & Hd2 & Hh2 & Hne2 & Hl2).
  destruct (prefixed_inj _ _ _ _ (Hslash _ _ _ _ Hd2 Hh2 _ _ Hl2) (Hslash _ _ _ _ Hd1 Hh1 _ _ Hl1) Hne2 Hne1 Hp2)
    as [Hq Hname].
  apply (sibling_names j1 j2 m1 m2); try done; try lia.
  destruct (to_parents _ _ _ Ht j1 ltac:(lia) m1 Hm1) as ([_ Hlt] & _).
  rewrite Hq in Hq2. by apply (IH _ Hlt _ n1 n2 q1).
Qed.
End paths.

(** ** The index of paths *)

Section dispatch.
Context {B D : Type} `{!DSNameBackend B} `{!DSNameBackend D}.
Context (design : DSDesign) (blocks : list (DSBlockBuildData B * N)) (t : DSHierTree).
Context (Ht : tree_ok design blocks t).

(** The index after the nodes 1 .. k. *)
Definition dispatch_upto (k : nat) (d : D) : Prop :=
  (forall (key : bytes) (v : N), backend_map d !! key = Some v -> v <> kNoNode /\
     exists i, 1 <= i <= k /\ v = N.of_nat i /\ hier_path_of t i = Ok key) /\
  (forall i (key : bytes), 1 <= i <= k -> hier_path_of t i = Ok key -> is_Some (backend_map d !! key)).

Lemma dispatch_node_ok k d :
  dispatch_upto k d -> S k < length (nodes_ t) -> (N.of_nat (S k) < kNoNode)%N ->
  exists d', dispatch_node t d (S k) = Ok d' /\ dispatch_upto (S k) d'.
Proof using Ht.
  intros [Hs Hc] Hk Hno. destruct (lookup_lt_is_Some_2 (nodes_ t) (S k) Hk) as [m Hm].
  destruct (path_total _ _ _ Ht _ _ Hm) as [p Hp]. unfold dispatch_node. rewrite Hp. cbn [mbind outcome_bind].
  rewrite backend_find_map. destruct (backend_map d !! p) as [v|] eqn:Ev; cbn [default].
  - destruct (Hs p v Ev) as [Hv _]. rewrite (proj2 (N.eqb_neq _ _)) by done. exists d. split; [done|]. split.
    + intros key v' Hv'. destruct (Hs key v' Hv') as (Hn & i & Hi & Hrest). split; [done|].
      exists i. split; [lia|done].
    + intros i key Hi Hpi. destruct (decide (i = S k)) as [->|]; [|apply (Hc i); [lia|done]].
      rewrite Hp in Hpi. injection Hpi as <-. by rewrite Ev.
  - change (default kNoNode None) with kNoNode. rewrite N.eqb_refl. eexists. split; [done|].
    unfold dispatch_upto. rewrite backend_insert_map. split.
    + intros key v'. destruct (decide (p = key)) as [->|Hne].
      * rewrite lookup_insert_eq. intros [= <-]. split; [lia|]. exists (S k). split; [lia|done].
      * rewrite lookup_insert_ne by done. intros Hv'. destruct (Hs key v' Hv') as (Hn & i & Hi & Hrest).
        split; [done|]. exists i. split; [lia|done].
    + intros i key Hi Hpi. destruct (decide (p = key)) as [->|Hne]; [rewrite lookup_insert_eq; by eexists|].
      rewrite lookup_insert_ne by done. destruct (decide (i = S k)) as [->|]; [congruence|].
      apply (Hc i); [lia|done].
Qed.

Lemma dispatch_fold_ok k d :
  backend_map d = ∅ -> k < length (nodes_ t) -> (N.of_nat k < kNoNode)%N ->
  exists d', ofold (dispatch_node t) (seq 1 k) d = Ok d' /\ dispatch_upto k d'.
Proof using Ht.
  intros Hd. induction k as [|k IH]; intros Hk Hno.
  - exists d. split; [done|]. split; [intros key v; by rewrite Hd, lookup_empty|intros; lia].
  - destruct IH as (d1 & Hd1 & Hok); [lia|lia|].
    destruct (dispatch_node_ok k d1 Hok Hk Hno) as (d2 & Hd2 & Hok2).
    exists d2. split; [|done]. rewrite seq_S, ofold_snoc, Hd1. done.
Qed.

Lemma new_mapper_ok :
  (N.of_nat (length (nodes_ t)) < kNoNode)%N ->
  exists m : DSNameMapperT B D, new_mapper (Some t) = Ok m /\ tree_ m = Some t /\ injected_ m = ∅ /\
  dispatch_upto (length (nodes_ t) - 1) (dispatch_ m).
Proof using Ht.
  intros Hno. unfold new_mapper, rebuild_dispatch_index. cbn [tree_ dispatch_ injected_].
  destruct (to_root _ _ _ Ht) as (r & Hr & _). apply lookup_lt_Some in Hr.
  rewrite N.mod_small by (unfold kNoNode in Hno; lia). rewrite Nat2N.id.
  destruct (dispatch_fold_ok (length (nodes_ t) - 1) (backend_clear backend_new)) as (d & Hd & Hok);
    [by rewrite backend_clear_map|lia|lia|].
  rewrite Hd. cbn [mbind outcome_bind]. eexists. split; [done|]. done.
Qed.
End dispatch.

(** ** Names and ids *)

Section names.
Context {B D : Type} `{!DSNameBackend B} `{!DSNameBackend D}.
Context (dim : dimension).
Context (design : DSDesign) (blocks : list (DSBlockBuildData B * N)) (t : DSHierTree).
Context (Ht : tree_ok design blocks t).
Context (Hblocks : forall d b v, blocks !! d = Some (b, v) -> block_ok b).

Definition block_names (b : DSBlockBuildData B) : option (DSNameHasherT B) :=
  match dim with INSTANCE => instance_names_ b | NET => net_names_ b end.

(** A hasher with the same names, such as one that was saved and loaded. *)
Definition agrees (h hb : DSNameHasherT B) : Prop :=
  (forall name, get_id id_bits h name = get_id id_bits hb name) /\ forall i, get_name h i = get_name hb i.

(** Every node finds the names of its block. *)
Definition covered (m : DSNameMapperT B D) : Prop :=
  forall i n d b, nodes_ t !! i = Some n -> occurrence design blocks n d b ->
  exists h hb, block_names b = Some hb /\ injected_ m !! block_cell_id_ n = Some h /\ agrees h hb.

Context (m : DSNameMapperT B D).
Context (Hm : tree_ m = Some t) (Hd : dispatch_upto t (length (nodes_ t) - 1) (dispatch_ m)).
Context (Hcov : covered m).

(** The names of a node's block, as the mapper sees them. *)
Definition sees (n : DSHierNode) (h hb : DSNameHasherT B) : Prop :=
  injected_ m !! block_cell_id_ n = Some h /\ agrees h hb /\ names_upto hb (count_of dim n).

Lemma node_sees i n :
  nodes_ t !! i = Some n ->
  exists d b v h hb, blocks !! d = Some (b, v) /\ block_names b = Some hb /\ sees n h hb.
Proof using Ht Hblocks Hcov.
  intros Hn. destruct (to_finished _ _ _ Ht i n Hn) as (d & b & Hocc & _).
  destruct (Hcov i n d b Hn Hocc) as (h & hb & Hhb & Hinj & Hag).
  destruct Hocc as (v & Hv & _ & _ & Hic & Hnc & _). pose proof (Hblocks d b v Hv) as Hb.
  exists d, b, v, h, hb. split; [done|]. split; [done|]. split; [done|]. split; [done|].
  unfold block_names, count_of in *. destruct dim.
  - destruct (bo_instances _ Hb) as (h' & Hh' & Hu). rewrite Hhb in Hh'. injection Hh' as <-.
    rewrite Hic, (bo_total _ Hb), N2Nat.id. done.
  - destruct (bo_nets _ Hb) as (h' & Hh' & Hu). rewrite Hhb in Hh'. injection Hh' as <-.
    rewrite Hnc. unfold net_count. rewrite Hhb, (nu_count _ _ Hu).
    pose proof (nu_pos _ _ Hu). by replace (N.of_nat (N.to_nat (next_net_id_ b - 1)) + 1)%N with (next_net_id_ b) by lia.
Qed.

Lemma lookup_leaf_found n h hb (leaf : bytes) local :
  sees n h hb -> backend_map (backend_ hb) !! leaf = Some local ->
  lookup_leaf dim m n leaf = (start_of dim n + local)%N.
Proof using Type.
  intros (Hi & [Hg _] & Hu) Hl. unfold lookup_leaf. rewrite Hi, Hg.
  unfold get_id. rewrite backend_find_map, Hl. cbn [from_option id].
  pose proof (nu_range _ _ Hu _ _ Hl) as Hr.
  assert (is_valid_id id_bits local = true) as ->.
  { apply negb_true_iff, N.eqb_neq. exact (registered_valid id_bits hb leaf local (nu_ok _ _ Hu) Hl). }
  unfold to_global, start_of, count_of in *. destruct dim;
    rewrite (proj2 (N.eqb_neq _ _)), (proj2 (N.leb_gt _ _)) by lia; done.
Qed.

Lemma lookup_leaf_valid n h hb (leaf : bytes) g :
  sees n h hb -> lookup_leaf dim m n leaf = g -> is_valid_id id_bits g = true ->
  exists local, backend_map (backend_ hb) !! leaf = Some local /\ g = (start_of dim n + local)%N.
Proof.
  intros Hs Hg Hv. destruct (backend_map (backend_ hb) !! leaf) as [local|] eqn:El.
  - exists local. split; [done|]. by rewrite <- Hg, (lookup_leaf_found n h hb leaf local).
  - exfalso. destruct Hs as (Hi & [Ha _] & _). unfold lookup_leaf in Hg. rewrite Hi, Ha in Hg.
    unfold get_id in Hg. rewrite backend_find_map, El in Hg. cbn [default] in Hg.
    assert (is_valid_id id_bits (kInvalidId id_bits) = false) as E by (vm_compute; reflexivity).
    change (default (kInvalidId id_bits) None) with (kInvalidId id_bits) in Hg. rewrite E in Hg. congruence.
Qed.

Context (Htotal : (total (count_of dim <$> nodes_ t) <= kInvalidId id_bits)%N).
Context (Hnodes : (N.of_nat (length (nodes_ t)) < kNoNode)%N).

Lemma full_name_found i n h hb (name : bytes) local p :
  nodes_ t !! i = Some n -> sees n h hb -> backend_map (backend_ hb) !! name = Some local ->
  hier_path_of t i = Ok p ->
  get_full_name dim m (start_of dim n + local) = Ok (prefixed p name).
Proof using Ht Hm Htotal Hnodes.
  intros Hn (Hi & [_ Hg] & Hu) Hl Hp. pose proof (nu_range _ _ Hu _ _ Hl) as Hr.
  assert (ranges (start_of dim <$> nodes_ t) (count_of dim <$> nodes_ t)) as Hrs.
  { destruct dim; [apply (to_inst _ _ _ Ht)|apply (to_net _ _ _ Ht)]. }
  assert (start_of dim n + local < kInvalidId id_bits)%N as Hlt.
  { eapply N.lt_le_trans; [|exact Htotal]. pose proof (node_end _ _ _ Hrs i n Hn) as He.
    pose proof (total_take_mono (count_of dim <$> nodes_ t) (S i) (length (count_of dim <$> nodes_ t))) as Hmono.
    apply lookup_lt_Some in Hn. rewrite (take_ge _ (length _)) in Hmono by done. rewrite length_fmap in Hmono. lia. }
  unfold get_full_name. rewrite Hm. rewrite decide_False by (intros E; by rewrite E in Hn).
  assert (is_valid_id id_bits (start_of dim n + local) = true) as ->.
  { apply negb_true_iff, N.eqb_neq. lia. }
  cbn [negb].
  assert (match dim with INSTANCE => block_of_instance t (start_of dim n + local)
          | NET => block_of_net t (start_of dim n + local) end = N.of_nat i) as ->.
  { pose proof (hier_block_of_hit _ _ _ Hrs (to_ids _ _ _ Ht) i n (start_of dim n + local) Hn ltac:(lia)) as Hh.
    unfold start_of, count_of in *. destruct dim; exact Hh. }
  apply lookup_lt_Some in Hn as Hil. rewrite (proj2 (N.eqb_neq _ _)) by lia. rewrite Nat2N.id, Hn.
  cbn [defined mbind outcome_bind]. rewrite N.add_comm, N.add_sub.
  unfold local_name. rewrite Hi, Hg, Hp.
  pose proof Hl as [Hne Hgn]%(ok_map _ _ (nu_ok _ _ Hu)). rewrite Hgn.
  cbn [defined mbind outcome_bind].
  destruct dim; [rewrite (proj2 (N.eqb_neq local 0)) by lia|]; by rewrite decide_False by done.
Qed.

(** Reading a name back from the id it was given. *)
Lemma full_name_of_global_id (name : bytes) g :
  name <> [] -> get_global_id dim m name = Ok g -> is_valid_id id_bits g = true ->
  get_full_name dim m g = Ok name.
Proof using Ht Hblocks Hm Hd Hcov Htotal Hnodes.
  intros Hne. unfold get_global_id. rewrite Hm.
  destruct (to_root _ _ _ Ht) as (r & Hr & _).
  rewrite decide_False by (intros E; by rewrite E in Hr). rewrite decide_False by done.
  assert (is_valid_id id_bits (kInvalidId id_bits) = false) as Hinv by (vm_compute; reflexivity).
  destruct (last_slash name) as [k|] eqn:Es.
  - destruct (last_slash_Some _ _ Es) as [Hsplit Hleaf]. set (leaf := drop (k + 1) name) in *.
    destruct (Nat.eqb_spec (k + 1) (length name)) as [_|_]; [intros [= <-]; congruence|].
    rewrite backend_find_map.
    match goal with |- context [default kNoNode ?o] => destruct o as [v|] eqn:Ev end; cbn [from_option id].
    + destruct (proj1 Hd _ _ Ev) as (_ & i & Hi & -> & Hp).
      assert (i < length (nodes_ t)) as Hil by lia. rewrite (proj2 (N.leb_gt _ _)) by lia.
      rewrite Nat2N.id. destruct (lookup_lt_is_Some_2 _ _ Hil) as [n Hn]. rewrite Hn.
      cbn [defined mbind outcome_bind]. intros [= Hg] Hv.
      destruct (node_sees i n Hn) as (d & b & v & h & hb & _ & _ & Hs).
      destruct (lookup_leaf_valid n h hb leaf g Hs Hg Hv) as (local & Hl & ->).
      rewrite (full_name_found i n h hb leaf local _ Hn Hs Hl Hp). f_equal.
      unfold prefixed. rewrite decide_False; [by rewrite <- Hsplit|].
      exact (path_ne _ _ _ Ht Hblocks i n _ ltac:(lia) Hn Hp).
    + change (default kNoNode None) with kNoNode.
      rewrite (proj2 (N.leb_le _ _)) by lia. intros [= <-]. congruence.
  - rewrite Hr. cbn [defined mbind outcome_bind]. intros [= Hg] Hv.
    destruct (node_sees 0 r Hr) as (d & b & v & h & hb & _ & _ & Hs).
    destruct (lookup_leaf_valid r h hb name g Hs Hg Hv) as (local & Hl & ->).
    rewrite (full_name_found 0 r h hb name local _ Hr Hs Hl (path_root _ _ _ Ht)). done.
Qed.

Context (Hslash : forall d b v h, blocks !! d = Some (b, v) -> instance_names_ b = Some h -> no_slash h).

Lemma dispatch_finds i n p :
  0 < i -> nodes_ t !! i = Some n -> hier_path_of t i = Ok p ->
  backend_find (dispatch_ m) p kNoNode = N.of_nat i.
Proof.
  intros Hi Hn Hp. apply lookup_lt_Some in Hn as Hlt.
  destruct (proj2 Hd i p ltac:(lia) Hp) as [v Hv]. rewrite backend_find_map, Hv. cbn [from_option id].
  destruct (proj1 Hd p v Hv) as (_ & j & Hj & -> & Hpj). f_equal.
  destruct (lookup_lt_is_Some_2 (nodes_ t) j ltac:(lia)) as [nj Hnj].
  exact (path_inj _ _ _ Ht Hblocks Hslash j i nj n p Hnj Hn Hpj Hp).
Qed.

Lemma global_id_found i n h hb (name : list Byte.byte) local p :
  nodes_ t !! i = Some n -> sees n h hb -> backend_map (backend_ hb) !! name = Some local ->
  slash ∉ name -> hier_path_of t i = Ok p ->
  get_global_id dim m (prefixed p name) = Ok (start_of dim n + local)%N.
Proof.
  intros Hn Hs Hl Hname Hp. pose proof Hl as [Hne _]%(ok_map _ _ (nu_ok _ _ (proj2 (proj2 Hs)))).
  unfold get_global_id. rewrite Hm. rewrite decide_False by (intros E; by rewrite E in Hn).
  rewrite decide_False by by apply prefixed_ne.
  destruct (decide (i = 0)) as [->|Hi].
  - rewrite (path_root _ _ _ Ht) in Hp. injection Hp as <-. unfold prefixed. rewrite decide_True by done.
    rewrite (last_slash_None name Hname), Hn. cbn [defined mbind outcome_bind].
    by rewrite (lookup_leaf_found n h hb name local Hs Hl).
  - unfold prefixed. rewrite decide_False by exact (path_ne _ _ _ Ht Hblocks i n p ltac:(lia) Hn Hp).
    rewrite (last_slash_app p name Hname). rewrite (proj2 (Nat.eqb_neq _ _)).
    2:{ rewrite length_app, length_cons. destruct name; [done|]. cbn [length]. lia. }
    rewrite take_app_length. rewrite (dispatch_finds i n p ltac:(lia) Hn Hp).
    apply lookup_lt_Some in Hn as Hlt. rewrite (proj2 (N.leb_gt _ _)) by lia. rewrite Nat2N.id, Hn.
    cbn [defined mbind outcome_bind]. rewrite drop_app_ge by lia.
    replace (length p + 1 - length p) with 1 by lia. cbn [drop]. rewrite drop_0.
    by rewrite (lookup_leaf_found n h hb name local Hs Hl).
Qed.
End names.

(** ** The mappers of a design *)

Section factory.
Context {B D : Type} `{!DSNameBackend B} `{!DSNameBackend D}.
Context (dim : dimension) (design : DSDesign).

(** The names saved beside a block are those of the block. *)
Definition companion (bn : option (DSBlockNames B)) (b : DSBlockBuildData B * N) : Prop :=
  exists bn' h hb, bn = Some bn' /\ bn_block_name_ bn' = block_name_ b.1 /\
  names_of dim bn' = Some h /\ block_names dim b.1 = Some hb /\ agrees h hb.

Definition block_cell (b : DSBlockBuildData B * N) : N :=
  get_id table_bits (cell_names_ design) (block_name_ b.1).

Lemma inject_all names blocks (m : DSNameMapperT B D) :
  Forall2 companion names blocks -> Forall (fun b => is_valid_id table_bits (block_cell b) = true) blocks ->
  NoDup (block_cell <$> blocks) ->
  let m' := foldl (inject dim design) m names in
  tree_ m' = tree_ m /\ dispatch_ m' = dispatch_ m /\
  (forall k, k ∉ block_cell <$> blocks -> injected_ m' !! k = injected_ m !! k) /\
  (forall b, b ∈ blocks -> exists h hb, block_names dim b.1 = Some hb /\
     injected_ m' !! block_cell b = Some h /\ agrees h hb).
Proof.
  intros Hall. revert m. induction Hall as [|bn b names blocks Hc _ IH]; intros m Hv Hnd; cbn.
  { repeat split; try done. intros b Hb. by apply elem_of_nil in Hb. }
  apply Forall_cons in Hv as [Hv Hvs]. apply NoDup_cons in Hnd as [Hb Hnd].
  destruct Hc as (bn' & h & hb & -> & Hname & Hn & Hbn & Hag).
  assert (inject dim design m (Some bn') = set_block_hasher (block_cell b) (Some h) m) as ->.
  { unfold inject. rewrite Hname, Hn. fold (block_cell b). by rewrite Hv. }
  destruct (IH (set_block_hasher (block_cell b) (Some h) m) Hvs Hnd) as (H1 & H2 & H3 & H4).
  split; [done|]. split; [done|]. split.
  - intros k Hk. rewrite H3 by set_solver. cbn. rewrite lookup_insert_ne by set_solver. done.
  - intros b' [->|Hb']%elem_of_cons; [|by apply H4].
    exists h, hb. split; [done|]. split; [|done]. rewrite H3 by done. cbn. by rewrite lookup_insert_eq.
Qed.

Context (blocks : list (DSBlockBuildData B * N)) (Hne : blocks <> []) (t : DSHierTree).
Context (Hbuild : ds_build_hier_tree design blocks = Ok t).
Context (names : list (option (DSBlockNames B))).
Context (Hreach : Forall (fun b => block_reach b.1) blocks).
Context (Hcompanion : Forall2 companion names blocks).
Context (Hcells : Forall (fun b => is_valid_id table_bits (block_cell b) = true) blocks).
Context (Hdistinct : NoDup (block_cell <$> blocks)).
Context (Hnodes : (N.of_nat (length (nodes_ t)) < kNoNode)%N).
Context (Htotal : (total (count_of dim <$> nodes_ t) <= kInvalidId id_bits)%N).

Lemma factory_blocks_ok d b v : blocks !! d = Some (b, v) -> block_ok b.
Proof using Hreach. intros Hd. apply (Forall_lookup_1 _ _ _ _ Hreach) in Hd. by apply block_reach_ok. Qed.

Lemma factory_mapper : exists m : DSNameMapperT B D,
  ds_make_name_mapper dim design t names = Ok m /\ tree_ m = Some t /\
  dispatch_upto t (length (nodes_ t) - 1) (dispatch_ m) /\ covered dim design blocks t m.
Proof using All.
  pose proof (built_tree_ok design blocks t Hne Hbuild) as Ht.
  destruct (new_mapper_ok (B := B) (D := D) design blocks t Ht Hnodes) as (m & Hm & Htree & _ & Hd).
  destruct (inject_all names blocks m Hcompanion Hcells Hdistinct) as (H1 & H2 & _ & H4).
  exists (foldl (inject dim design) m names). unfold ds_make_name_mapper. rewrite Hm.
  split; [done|]. rewrite H1, H2. split; [done|]. split; [done|].
  intros i n d b Hn (v & Hv & _ & Hid & _). apply list_elem_of_lookup_2 in Hv.
  rewrite Hid. apply (H4 (b, v) Hv).
Qed.

(** C28: hierarchical names and global ids are inverse to each other.  For the
    mapper that is made from the names of a built hierarchy (block names being
    distinct and known to the cell table), every local id of every node has a
    non-empty full name, and when no instance and no name of the dimension
    contains a slash, looking the name up gives the id back; and whatever
    non-empty name finds a valid id is the full name of that id. *)
Theorem full_names_roundtrip : exists m : DSNameMapperT B D,
  ds_make_name_mapper dim design t names = Ok m /\
  (forall (name : bytes) g, name <> [] -> get_global_id dim m name = Ok g ->
     is_valid_id id_bits g = true -> get_full_name dim m g = Ok name) /\
  (forall i n local, nodes_ t !! i = Some n -> (1 <= local < count_of dim n)%N ->
     exists name : bytes, name <> [] /\ get_full_name dim m (start_of dim n + local) = Ok name /\
     ((forall d b v h, blocks !! d = Some (b, v) -> instance_names_ b = Some h -> no_slash h) ->
      (forall d b v h, blocks !! d = Some (b, v) -> block_names dim b = Some h -> no_slash h) ->
      get_global_id dim m name = Ok (start_of dim n + local)%N)).
Proof using All.
  pose proof (built_tree_ok design blocks t Hne Hbuild) as Ht.
  destruct factory_mapper as (m & Hm & Htree & Hd & Hcov). exists m. split; [done|]. split.
  - intros name g. apply (full_name_of_global_id dim design blocks t Ht factory_blocks_ok m Htree Hd Hcov Htotal Hnodes).
  - intros i n local Hn Hl.
    destruct (node_sees dim design blocks t Ht factory_blocks_ok m Hcov i n Hn)
      as (d & b & v & h & hb & Hb & Hhb & Hs).
    destruct (nu_named _ _ (proj2 (proj2 Hs)) local Hl) as [name Hname].
    destruct (path_total _ _ _ Ht i n Hn) as [p Hp].
    pose proof Hname as [Hnn _]%(ok_map _ _ (nu_ok _ _ (proj2 (proj2 Hs)))).
    exists (prefixed p name). split; [by apply prefixed_ne|]. split.
    + by apply (full_name_found dim design blocks t Ht m Htree Htotal Hnodes i n h hb).
    + intros Hsi Hsd.
      by apply (global_id_found dim design blocks t Ht factory_blocks_ok m Htree Hd Htotal Hnodes Hsi i n h hb);
        [..|apply (Hsd d b v hb Hb Hhb name local)|].
Qed.
End factory.

(** ** Samples *)

Definition companion_of (b : DSBlockBuildData DSHasherBackendHash * N) : option (DSBlockNames DSHasherBackendHash) :=
  Some {| bn_block_name_ := block_name_ b.1; bn_instance_names_ := instance_names_ b.1;
          bn_net_names_ := net_names_ b.1 |}.

Lemma companions_ok dim (blocks : list (DSBlockBuildData DSHasherBackendHash * N)) :
  Forall (fun b => block_reach b.1) blocks -> Forall2 (companion dim) (companion_of <$> blocks) blocks.
Proof.
  induction 1 as [|b blocks Hb _ IH]; [constructor|]. cbn. constructor; [|done].
  apply block_reach_ok in Hb. destruct (bo_instances _ Hb) as (h & Hh & _), (bo_nets _ Hb) as (hn & Hhn & _).
  destruct dim; [exists {| bn_block_name_ := block_name_ b.1; bn_instance_names_ := instance_names_ b.1;
    bn_net_names_ := net_names_ b.1 |}, h, h|exists {| bn_block_name_ := block_name_ b.1;
    bn_instance_names_ := instance_names_ b.1; bn_net_names_ := net_names_ b.1 |}, hn, hn]; done.
Qed.

Lemma sample_blocks_reach : Forall (fun b => block_reach b.1) sample_blocks.
Proof. constructor; [apply sample_B_reach|]. constructor; [apply sample_T_reach|constructor]. Qed.

Lemma full_names_roundtrip_witness :
  exists (m : DSNameMapperT DSHasherBackendHash DSHasherBackendHash) name,
  ds_make_name_mapper INSTANCE sample_design sample_tree (companion_of <$> sample_blocks) = Ok m /\
  get_full_name INSTANCE m 7 = Ok name /\ name <> [].
Proof.
  destruct (full_names_roundtrip (D := DSHasherBackendHash) INSTANCE sample_design sample_blocks
    ltac:(discriminate) sample_tree sample_build (companion_of <$> sample_blocks) sample_blocks_reach
    (companions_ok INSTANCE sample_blocks sample_blocks_reach)) as (m & Hm & _ & Hr).
  - apply Forall_forall. intros b Hb. repeat (apply elem_of_cons in Hb as [->|Hb]; [vm_compute; reflexivity|]).
    by apply elem_of_nil in Hb.
  - apply (bool_decide_eq_true_1 (NoDup _)). vm_compute. reflexivity.
  - vm_compute. reflexivity.
  - vm_compute. discriminate.
  - assert (exists n, nodes_ sample_tree !! 2 = Some n /\ instance_count_ n = 2%N /\ instance_start_ n = 6%N)
      as (n & Hn & Hc & Hs) by (eexists; split; [vm_compute; reflexivity|split; vm_compute; reflexivity]).
    destruct (Hr 2 n 1%N Hn) as (name & Hne & Hname & _); [unfold count_of; rewrite Hc; lia|].
    exists m, name. split; [exact Hm|]. split; [|exact Hne].
    unfold start_of in Hname. rewrite Hs in Hname. exact Hname.
Defined.

(** The full names of the sample. *)
Example sample_full_names :
  (m ← ds_make_name_mapper (B := DSHasherBackendHash) (D := DSHasherBackendHash) INSTANCE sample_design sample_tree
     (companion_of <$> sample_blocks);
   a ← get_full_name INSTANCE m 5; b ← get_full_name INSTANCE m 7; g ← get_global_id INSTANCE m (nu2 ++ slash :: ny);
   Ok (a, b, g)) = Ok (nu1 ++ slash :: ny, nu2 ++ slash :: ny, 7%N).
Proof. vm_compute. reflexivity. Qed.

(** An instance name that contains a slash has a full name that finds nothing. *)
Definition slash_block : DSBlockBuildData DSHasherBackendHash :=
  run_ops (init_placeholder nT 0 new_block) [AddInstance (sample_inst 2 5) (nx ++ slash :: ny)].

Lemma slash_name_not_found :
  (t ← ds_build_hier_tree sample_design [(slash_block, 0%N)];
   m ← ds_make_name_mapper (D := DSHasherBackendHash) INSTANCE sample_design t
     (companion_of <$> [(slash_block, 0%N)]);
   name ← get_full_name INSTANCE m 1; g ← get_global_id INSTANCE m name;
   Ok (name, g)) = Ok (nx ++ slash :: ny, kInvalidId id_bits).
Proof. vm_compute. reflexivity. Qed.

(** Of two blocks with one name the hierarchy takes the first, the mapper the names
    of the last. *)
Definition second_B : DSBlockBuildData DSHasherBackendHash :=
  run_ops (init_placeholder nB 1 new_block) [AddInstance (sample_inst 2 3) nx].
Definition twice_B : list (DSBlockBuildData DSHasherBackendHash * N) :=
  [(sample_T, 4%N); (sample_B, 0%N)].

Lemma last_names_win :
  (t ← ds_build_hier_tree sample_design twice_B;
   m ← ds_make_name_mapper (D := DSHasherBackendHash) INSTANCE sample_design t
     (companion_of <$> (twice_B ++ [(second_B, 0%N)]));
   get_full_name INSTANCE m 5) = Ok (nu1 ++ slash :: nx).
Proof. vm_compute. reflexivity. Qed.

(** In the hierarchy itself a second block with a used name has no parent and ends
    the build. *)
Lemma duplicate_block_fatal :
  ds_build_hier_tree sample_design (twice_B ++ [(second_B, 0%N)]) = FatalExit bad_hierarchy.
Proof. vm_compute. reflexivity. Qed.
