(* ===== verification/Density.v ===== *)
(** Density maps (emir/design/cpp/ds_types.h, ds_types.cpp: [DSDensityGrid];
    ds_partition.cpp: [scatter_cell], [ds_merge_global_density]).

    A grid counts shapes per cell: a footprint adds one to every cell it overlaps.
    The maps of the blocks are scattered into one global map, every local cell
    being split over the global cells it covers in proportion to the area, with
    the largest remainder method.  Coordinates are signed 32-bit integers; the
    differences that the code takes in 32 bits and the products it takes in 64
    bits are checked ([None] is undefined behaviour or a failed assertion), the
    counters themselves are unbounded. *)

From stdpp Require Import base gmap list sets fin_maps sorting.
From Stdlib Require Import ZArith NArith Lia.
From S2P Require Import Prelude Bytes NameHasher Geometry BlockData DesignTables HierTree.
Import Corelib.Init.Datatypes(nat(..)) Corelib.Numbers.BinNums(N(..)).
#[local] Open Scope Z_scope.

Record DSDensityGrid := {
  origin_x : Z; origin_y : Z;
  bin_width : Z; bin_height : Z;
  cols : Z; rows : Z;
  counts_ : list Z;
  metal_layer_counts_ : gmap N (list Z);
  via_layer_counts_ : gmap N (list Z);
}.

Definition new_grid : DSDensityGrid :=
  {| origin_x := 0; origin_y := 0; bin_width := 0; bin_height := 0; cols := 0; rows := 0;
     counts_ := []; metal_layer_counts_ := ∅; via_layer_counts_ := ∅ |}.

Definition zeros (g : DSDensityGrid) : list Z := replicate (Z.to_nat (cols g * rows g)) 0.

Definition set_counts (l : list Z) (g : DSDensityGrid) : DSDensityGrid :=
  {| origin_x := origin_x g; origin_y := origin_y g; bin_width := bin_width g;
     bin_height := bin_height g; cols := cols g; rows := rows g; counts_ := l;
     metal_layer_counts_ := metal_layer_counts_ g; via_layer_counts_ := via_layer_counts_ g |}.

Definition set_layer (via : bool) (layer : N) (l : list Z) (g : DSDensityGrid) : DSDensityGrid :=
  {| origin_x := origin_x g; origin_y := origin_y g; bin_width := bin_width g;
     bin_height := bin_height g; cols := cols g; rows := rows g; counts_ := counts_ g;
     metal_layer_counts_ := if via then metal_layer_counts_ g else <[layer := l]> (metal_layer_counts_ g);
     via_layer_counts_ := if via then <[layer := l]> (via_layer_counts_ g) else via_layer_counts_ g |}.

Definition layer_counts (via : bool) (g : DSDensityGrid) : gmap N (list Z) :=
  if via then via_layer_counts_ g else metal_layer_counts_ g.

Definition configure (ox oy bw bh c r : Z) (g : DSDensityGrid) : option DSDensityGrid :=
  if decide (0 < bw /\ 0 < bh) then
    Some {| origin_x := ox; origin_y := oy; bin_width := bw; bin_height := bh; cols := c; rows := r;
            counts_ := replicate (Z.to_nat (c * r)) 0;
            metal_layer_counts_ := metal_layer_counts_ g; via_layer_counts_ := via_layer_counts_ g |}
  else None.

(** [floor_div], [floor_div_i64]: the quotient and the remainder of C++ truncate. *)
Definition floor_div (a b : Z) : Z :=
  let q := Z.quot a b in
  if negb (Z.rem a b =? 0) && negb (Bool.eqb (a <? 0) (b <? 0)) then q - 1 else q.

(** The cells from [lo] to [hi], empty when [hi < lo], row by row. *)
Definition cells_between (row_lo row_hi col_lo col_hi : Z) : list (Z * Z) :=
  r ← seqZ row_lo (row_hi - row_lo + 1); c ← seqZ col_lo (col_hi - col_lo + 1); [(r, c)].

Definition cell_index (g : DSDensityGrid) (rc : Z * Z) : nat := Z.to_nat (rc.1 * cols g + rc.2).

Definition bump (g : DSDensityGrid) (ch : list Z) (rc : Z * Z) : list Z :=
  alter (Z.add 1) (cell_index g rc) ch.

Definition configured (g : DSDensityGrid) : bool :=
  negb ((cols g =? 0) || (rows g =? 0) || (bin_width g <=? 0) || (bin_height g <=? 0)).

(** The cells a footprint touches: the lower bounds are subtracted as 32-bit
    integers, the upper bounds as 64-bit ones. *)
Definition touched (g : DSDensityGrid) (f : GEORectT) : option (list (Z * Z)) :=
  dx ← chk 32 (x_low_ f - origin_x g);
  dy ← chk 32 (y_low_ f - origin_y g);
  let col_lo := Z.max 0 (floor_div dx (bin_width g)) in
  let col_hi := Z.min (cols g - 1) (floor_div (x_high_ f - 1 - origin_x g) (bin_width g)) in
  let row_lo := Z.max 0 (floor_div dy (bin_height g)) in
  let row_hi := Z.min (rows g - 1) (floor_div (y_high_ f - 1 - origin_y g) (bin_height g)) in
  Some (cells_between row_lo row_hi col_lo col_hi).

Definition accumulate_footprint (f : GEORectT) (g : DSDensityGrid) : option DSDensityGrid :=
  if negb (configured g) then Some g else
  if decide (rect_ok f) then
    cells ← touched g f; Some (set_counts (foldl (bump g) (counts_ g) cells) g)
  else None.

Definition accumulate_layer_shape (layer : N) (via : bool) (shape : GEORectT) (g : DSDensityGrid)
  : option DSDensityGrid :=
  if negb (configured g) then Some g else
  let ch := default [] (layer_counts via g !! layer) in
  let ch := if decide (ch = []) then zeros g else ch in
  cells ← touched g shape;
  Some (set_layer via layer (foldl (bump g) ch cells) g).

Definition cell_count (g : DSDensityGrid) (col row : Z) : option Z :=
  if (cols g <=? col) || (rows g <=? row) then Some 0 else counts_ g !! cell_index g (row, col).

Definition sum (l : list Z) : Z := foldr Z.add 0 l.

Definition total_count (g : DSDensityGrid) : Z := sum (counts_ g).

Definition layer_total (layer : N) (via : bool) (g : DSDensityGrid) : Z :=
  match layer_counts via g !! layer with Some l => sum l | None => 0 end.

Definition channel_total (via : bool) (g : DSDensityGrid) : Z :=
  sum ((fun e => sum e.2) <$> map_to_list (layer_counts via g)).

(** * Scattering *)

Record Entry := { e_col : Z; e_row : Z; e_overlap : Z; e_remainder : Z }.
#[export] Instance entry_eq_dec : EqDecision Entry.
Proof. solve_decision. Defined.

(** The overlap of [rect] with a cell, when there is one. *)
Definition overlap_of (g : DSDensityGrid) (rect : GEORectT) (rc : Z * Z) : option Z :=
  let gx0 := origin_x g + rc.2 * bin_width g in
  let gy0 := origin_y g + rc.1 * bin_height g in
  let ox := Z.min (x_high_ rect) (gx0 + bin_width g) - Z.max (x_low_ rect) gx0 in
  let oy := Z.min (y_high_ rect) (gy0 + bin_height g) - Z.max (y_low_ rect) gy0 in
  if (ox <=? 0) || (oy <=? 0) then None else Some (ox * oy).

Definition cell_area (g : DSDensityGrid) : Z := bin_width g * bin_height g.

(** One turn of the loop over the cells; the product with the count may overflow. *)
Definition scatter_entry (v : Z) (g : DSDensityGrid) (rect : GEORectT) (rc : Z * Z)
  : option (list Entry) :=
  match overlap_of g rect rc with
  | None => Some []
  | Some ov =>
      p ← chk 64 (v * ov);
      Some [{| e_col := rc.2; e_row := rc.1; e_overlap := ov; e_remainder := Z.rem p (cell_area g) |}]
  end.

(** The order of the second pass. *)
Definition entry_before (a b : Entry) : Prop :=
  e_remainder b < e_remainder a \/
  (e_remainder a = e_remainder b /\
   (e_row a < e_row b \/ (e_row a = e_row b /\ e_col a <= e_col b))).
#[export] Instance entry_before_dec : RelDecision entry_before.
Proof. intros a b. unfold entry_before. apply _. Defined.

Definition base_of (v : Z) (g : DSDensityGrid) (e : Entry) : Z := Z.quot (v * e_overlap e) (cell_area g).

Definition add_base (v : Z) (g : DSDensityGrid) (ch : list Z) (e : Entry) : list Z :=
  alter (Z.add (base_of v g e)) (cell_index g (e_row e, e_col e)) ch.

Definition add_one (g : DSDensityGrid) (ch : list Z) (e : Entry) : list Z := bump g ch (e_row e, e_col e).

Definition scatter_cells (g : DSDensityGrid) (rect : GEORectT) : list (Z * Z) :=
  cells_between
    (Z.max 0 (floor_div (y_low_ rect - origin_y g) (bin_height g)))
    (Z.min (rows g - 1) (floor_div (y_high_ rect - 1 - origin_y g) (bin_height g)))
    (Z.max 0 (floor_div (x_low_ rect - origin_x g) (bin_width g)))
    (Z.min (cols g - 1) (floor_div (x_high_ rect - 1 - origin_x g) (bin_width g))).

Definition scatter_cell (v : Z) (rect : GEORectT) (g : DSDensityGrid) (ch : list Z) : option (list Z) :=
  if v =? 0 then Some ch else
  entries ← mapM (scatter_entry v g rect) (scatter_cells g rect);
  let entries := concat entries in
  if decide (entries = []) then Some ch else
  let ch := foldl (add_base v g) ch entries in
  let leftover := v - sum (base_of v g <$> entries) in
  if decide (0 <= leftover) then
    Some (foldl (add_one g) ch (take (Z.to_nat leftover) (merge_sort entry_before entries)))
  else None.

(** The rectangle of a local cell. *)
Definition local_cell (g : DSDensityGrid) (rc : Z * Z) : GEORectT :=
  GEORect (origin_x g + rc.2 * bin_width g) (origin_y g + rc.1 * bin_height g)
          (origin_x g + (rc.2 + 1) * bin_width g) (origin_y g + (rc.1 + 1) * bin_height g).

Definition scatter_one (src : list Z) (local : DSDensityGrid) (t : GEOTransformT) (global : DSDensityGrid)
    (dst : list Z) (rc : Z * Z) : option (list Z) :=
  v ← src !! cell_index local rc;
  if v =? 0 then Some dst else
  rect ← apply_box 64 t (local_cell local rc);
  scatter_cell v rect global dst.

Definition scatter_channel (src : list Z) (local : DSDensityGrid) (t : GEOTransformT) (global : DSDensityGrid)
    (dst : list Z) : option (list Z) :=
  ofold_option (scatter_one src local t global) (cells_between 0 (rows local - 1) 0 (cols local - 1)) dst.

Definition scatter_density_channel (local : DSDensityGrid) (src : list Z) (t : GEOTransformT)
    (global : DSDensityGrid) (dst : list Z) : option (list Z) :=
  if (cols local =? 0) || (rows local =? 0) then Some dst else scatter_channel src local t global dst.

(** ** Sums and updates *)

Arguments sum : simpl never.
Lemma sum_nil : sum [] = 0.
Proof. done. Qed.
Lemma sum_cons x l : sum (x :: l) = x + sum l.
Proof. done. Qed.

Lemma sum_app l1 l2 : sum (l1 ++ l2) = sum l1 + sum l2.
Proof. induction l1 as [|x l1 IH]; cbn; rewrite ?sum_nil, ?sum_cons; lia. Qed.

Lemma sum_perm l1 l2 : l1 ≡ₚ l2 -> sum l1 = sum l2.
Proof. induction 1; rewrite ?sum_cons; lia. Qed.

Lemma sum_fmap_add {A} (f g : A -> Z) l : sum ((fun x => f x + g x) <$> l) = sum (f <$> l) + sum (g <$> l).
Proof. induction l as [|x l IH]; rewrite ?fmap_nil, ?fmap_cons, ?sum_nil, ?sum_cons; cbn [length]; lia. Qed.

Lemma sum_fmap_mul {A} (k : Z) (f : A -> Z) l : sum ((fun x => k * f x) <$> l) = k * sum (f <$> l).
Proof. induction l as [|x l IH]; rewrite ?fmap_nil, ?fmap_cons, ?sum_nil, ?sum_cons; cbn [length]; lia. Qed.

Lemma sum_fmap_le {A} (f g : A -> Z) l : (forall x, x ∈ l -> f x <= g x) -> sum (f <$> l) <= sum (g <$> l).
Proof.
  induction l as [|x l IH]; intros H; [done|]. rewrite !fmap_cons, !sum_cons.
  specialize (IH ltac:(intros; apply H; by right)). specialize (H x ltac:(by left)). lia.
Qed.

Lemma sum_const {A} (k : Z) (l : list A) : sum ((fun _ => k) <$> l) = Z.of_nat (length l) * k.
Proof. induction l as [|x l IH]; rewrite ?fmap_nil, ?fmap_cons, ?sum_nil, ?sum_cons; cbn [length]; lia. Qed.

Lemma sum_bind {A B} (f : A -> list B) (g : B -> Z) l :
  sum (g <$> (l ≫= f)) = sum ((fun x => sum (g <$> f x)) <$> l).
Proof.
  induction l as [|x l IH]; [done|]. rewrite bind_cons, fmap_app, sum_app, fmap_cons, sum_cons. by rewrite IH.
Qed.

Lemma sum_zeros n : sum (replicate n 0) = 0.
Proof. induction n as [|n IH]; [done|]. cbn [replicate]. by rewrite sum_cons, IH. Qed.

Section updates.
Context {E : Type} (ix : E -> nat) (d : E -> Z).
Let update (ch : list Z) (e : E) : list Z := alter (Z.add (d e)) (ix e) ch.

Lemma update_length ch e : length (update ch e) = length ch.
Proof. apply length_alter. Qed.

Lemma updates_length es ch : length (foldl update ch es) = length ch.
Proof. revert ch. induction es as [|e es IH]; intros ch; [done|]. cbn. by rewrite IH, update_length. Qed.

Lemma sum_update ch e : (ix e < length ch)%nat -> sum (update ch e) = sum ch + d e.
Proof.
  intros He. destruct (lookup_lt_is_Some_2 ch (ix e) He) as [x Hx].
  assert (update ch e = <[ix e := d e + x]> ch) as ->.
  { apply list_eq. intros j. unfold update. destruct (decide (ix e = j)) as [<-|Hne].
    - by rewrite list_lookup_alter_eq, list_lookup_insert_eq, Hx by done.
    - by rewrite list_lookup_alter_ne, list_lookup_insert_ne. }
  rewrite insert_take_drop by done. rewrite <- (take_drop_middle ch (ix e) x Hx) at 3.
  rewrite !sum_app, !sum_cons. lia.
Qed.

Lemma sum_updates es ch :
  Forall (fun e => (ix e < length ch)%nat) es -> sum (foldl update ch es) = sum ch + sum (d <$> es).
Proof.
  revert ch. induction es as [|e es IH]; intros ch Hall; [rewrite fmap_nil, sum_nil; cbn [foldl]; lia|].
  apply Forall_cons in Hall as [He Hall]. cbn [foldl].
  rewrite IH, sum_update, fmap_cons, sum_cons; [lia|done|].
  eapply Forall_impl; [exact Hall|]. intros e' He'. cbn. by rewrite update_length.
Qed.

Lemma updates_other es ch i : i ∉ ix <$> es -> foldl update ch es !! i = ch !! i.
Proof.
  revert ch. induction es as [|e es IH]; intros ch Hi; [done|]. cbn in Hi |- *.
  rewrite IH by set_solver. apply list_lookup_alter_ne. set_solver.
Qed.

Lemma updates_at es ch e :
  NoDup (ix <$> es) -> e ∈ es -> foldl update ch es !! ix e = Z.add (d e) <$> ch !! ix e.
Proof.
  revert ch. induction es as [|e' es IH]; intros ch Hnd He; [by apply elem_of_nil in He|].
  cbn in Hnd. apply NoDup_cons in Hnd as [Hni Hnd]. cbn [foldl].
  destruct (decide (ix e = ix e')) as [Eq|Hne].
  - rewrite Eq. rewrite updates_other by done. unfold update. rewrite list_lookup_alter_eq.
    apply elem_of_cons in He as [->|He]; [done|]. destruct Hni. rewrite <- Eq. by apply list_elem_of_fmap_2.
  - apply elem_of_cons in He as [->|He]; [done|]. rewrite IH by done. unfold update.
    by rewrite list_lookup_alter_ne.
Qed.
End updates.

Lemma floor_div_eq a b : 0 < b -> floor_div a b = a / b.
Proof.
  intros Hb. unfold floor_div. pose proof (Z.quot_rem' a b) as Hqr.
  destruct (Z.eqb_spec (Z.rem a b) 0) as [E|E]; cbn [negb andb].
  - apply (Z.div_unique_pos a b _ 0); lia.
  - rewrite (proj2 (Z.ltb_ge b 0)) by lia. destruct (Z.ltb_spec a 0); cbn [Bool.eqb negb].
    + pose proof (Z.rem_bound_pos_neg a b). pose proof (Z.rem_nonpos a b).
      apply (Z.div_unique_pos a b _ (Z.rem a b + b)); lia.
    + pose proof (Z.rem_bound_pos a b). apply (Z.div_unique_pos a b _ (Z.rem a b)); lia.
Qed.

(** ** One dimension *)

Section segment.
Context (xl xh o b : Z) (Hb : 0 < b) (Hx : xl < xh).

(** The overlap of [xl, xh) with the cell [c] of width [b]. *)
Definition seg (c : Z) : Z := Z.min xh (o + c * b + b) - Z.max xl (o + c * b).
Let clamp (c : Z) : Z := Z.min xh (Z.max xl (o + c * b)).

Lemma seg_clamp c : (xl - o) / b <= c <= (xh - 1 - o) / b -> 0 < seg c /\ seg c = clamp (c + 1) - clamp c.
Proof using Hb Hx.
  intros [H1 H2]. unfold seg, clamp.
  assert (c * b <= xh - 1 - o) by (pose proof (Z.mul_div_le (xh - 1 - o) b Hb); nia).
  assert (xl - o < (c + 1) * b) by (pose proof (Z.mul_succ_div_gt (xl - o) b Hb); nia).
  lia.
Qed.

Lemma seg_sum lo n :
  (xl - o) / b <= lo -> lo + Z.of_nat n - 1 <= (xh - 1 - o) / b ->
  sum (seg <$> seqZ lo (Z.of_nat n)) = clamp (lo + Z.of_nat n) - clamp lo.
Proof using Hb Hx.
  intros Hlo. induction n as [|n IH]; intros Hhi.
  - change (Z.of_nat 0) with 0. rewrite seqZ_nil, fmap_nil, sum_nil by lia.
    replace (lo + 0) with lo by lia. lia.
  - rewrite seqZ_S, Nat2Z.inj_succ, fmap_app, sum_app, IH by lia.
    rewrite fmap_cons, fmap_nil, sum_cons, sum_nil. rewrite (proj2 (seg_clamp (lo + Z.of_nat n) ltac:(lia))).
    replace (lo + Z.succ (Z.of_nat n)) with (lo + Z.of_nat n + 1) by lia. lia.
Qed.

(** The cells from [lo] to [hi], clamped to a grid of [n] cells, cover at most the
    segment, and exactly the segment when it lies inside the grid. *)
Lemma seg_cover n :
  let lo := Z.max 0 ((xl - o) / b) in let hi := Z.min (n - 1) ((xh - 1 - o) / b) in
  let s := sum (seg <$> seqZ lo (hi - lo + 1)) in
  0 <= s <= xh - xl /\ (o <= xl -> xh <= o + n * b -> s = xh - xl).
Proof using Hb Hx.
  cbv zeta. set (lo := Z.max 0 _). set (hi := Z.min _ _).
  assert (o <= xl -> xh <= o + n * b -> lo = (xl - o) / b /\ hi = (xh - 1 - o) / b /\ lo <= hi) as Hin.
  { intros H1 H2. pose proof (Z.div_pos (xl - o) b ltac:(lia) Hb).
    pose proof (Z.div_lt_upper_bound (xh - 1 - o) b n Hb ltac:(lia)).
    pose proof (Z.div_le_mono (xl - o) (xh - 1 - o) b Hb ltac:(lia)). lia. }
  destruct (decide (hi - lo + 1 <= 0)) as [He|Hne].
  - rewrite seqZ_nil, fmap_nil, sum_nil by lia. split; [lia|]. intros H1 H2. destruct (Hin H1 H2) as (_ & _ & ?). lia.
  - rewrite <- (Z2Nat.id (hi - lo + 1)) by lia. rewrite seg_sum by lia.
    rewrite Z2Nat.id by lia. replace (lo + (hi - lo + 1)) with (hi + 1) by lia. split; [unfold clamp; nia|].
    intros H1 H2. destruct (Hin H1 H2) as (-> & -> & _). unfold clamp.
    pose proof (Z.mul_div_le (xl - o) b Hb). pose proof (Z.mul_succ_div_gt (xh - 1 - o) b Hb). nia.
Qed.
End segment.

(** The cells a segment overlaps. *)
Lemma seg_iff xl xh o b c : 0 < b ->
  (xl - o) / b <= c <= (xh - 1 - o) / b <-> xl < o + (c + 1) * b /\ o + c * b < xh.
Proof.
  intros Hb. pose proof (Z.mul_div_le (xl - o) b Hb). pose proof (Z.mul_succ_div_gt (xl - o) b Hb).
  pose proof (Z.mul_div_le (xh - 1 - o) b Hb). pose proof (Z.mul_succ_div_gt (xh - 1 - o) b Hb).
  split; intros [? ?]; split; nia.
Qed.

(** ** Cells *)

Lemma elem_of_cells_between rl rh cl ch r c :
  (r, c) ∈ cells_between rl rh cl ch <-> rl <= r <= rh /\ cl <= c <= ch.
Proof.
  unfold cells_between. rewrite list_elem_of_bind. setoid_rewrite list_elem_of_bind.
  setoid_rewrite list_elem_of_singleton. setoid_rewrite elem_of_seqZ. split.
  - intros (r' & (c' & E & Hc) & Hr). simplify_eq. lia.
  - intros [Hr Hc]. exists r. split; [exists c; split; [done|lia]|lia].
Qed.

Lemma cells_between_NoDup rl rh cl ch : NoDup (cells_between rl rh cl ch).
Proof.
  unfold cells_between. apply NoDup_bind; [| |apply NoDup_seqZ].
  - intros r1 r2 [r c] _ _ (c1 & E1%list_elem_of_singleton & _)%list_elem_of_bind
      (c2 & E2%list_elem_of_singleton & _)%list_elem_of_bind. congruence.
  - intros r _. apply NoDup_bind; [| |apply NoDup_seqZ].
    + intros c1 c2 [r' c] _ _ E1%list_elem_of_singleton E2%list_elem_of_singleton. congruence.
    + intros c _. apply NoDup_singleton.
Qed.

Record grid_ok (g : DSDensityGrid) : Prop := {
  go_width : 0 < bin_width g; go_height : 0 < bin_height g; go_cols : 0 < cols g; go_rows : 0 < rows g;
}.

Definition in_grid (g : DSDensityGrid) (rc : Z * Z) : Prop := 0 <= rc.1 < rows g /\ 0 <= rc.2 < cols g.

Definition channel_ok (g : DSDensityGrid) (ch : list Z) : Prop := length ch = Z.to_nat (cols g * rows g).

Lemma cell_index_lt g ch rc : channel_ok g ch -> in_grid g rc -> (cell_index g rc < length ch)%nat.
Proof. unfold channel_ok, cell_index, in_grid. intros -> [? ?]. apply Z2Nat.inj_lt; nia. Qed.

Lemma cell_index_inj g rc rc' :
  in_grid g rc -> in_grid g rc' -> cell_index g rc = cell_index g rc' -> rc = rc'.
Proof.
  destruct rc as [r c], rc' as [r' c']. unfold in_grid, cell_index; cbn. intros [? ?] [? ?] E.
  apply Z2Nat.inj in E; [|nia|nia]. assert (r = r') by nia. subst. f_equal. lia.
Qed.

(** The cells of [touched] and [scatter_cells]: those of the grid the rectangle
    overlaps. *)
Lemma elem_of_overlapped g f r c :
  grid_ok g ->
  (r, c) ∈ scatter_cells g f <-> in_grid g (r, c) /\ overlaps f (local_cell g (r, c)) = true.
Proof.
  intros [Hw Hh _ _]. unfold scatter_cells. rewrite elem_of_cells_between.
  rewrite !floor_div_eq by done. unfold in_grid, overlaps, local_cell; cbn.
  rewrite !andb_true_iff, !Z.ltb_lt.
  pose proof (seg_iff (x_low_ f) (x_high_ f) (origin_x g) (bin_width g) c Hw).
  pose proof (seg_iff (y_low_ f) (y_high_ f) (origin_y g) (bin_height g) r Hh). lia.
Qed.

Lemma touched_cells g f :
  fits 32 (x_low_ f - origin_x g) -> fits 32 (y_low_ f - origin_y g) -> touched g f = Some (scatter_cells g f).
Proof. intros. unfold touched. rewrite !chk_eq by done. done. Qed.

Lemma configured_ok g : grid_ok g -> configured g = true.
Proof.
  intros [? ? ? ?]. unfold configured. rewrite !(proj2 (Z.eqb_neq _ _)), !(proj2 (Z.leb_gt _ _)) by lia. done.
Qed.

(** The counts after one more shape. *)
Lemma bump_all g ch f :
  grid_ok g -> channel_ok g ch ->
  let ch' := foldl (bump g) ch (scatter_cells g f) in
  channel_ok g ch' /\
  forall r c, in_grid g (r, c) ->
  ch' !! cell_index g (r, c) =
    Z.add (if overlaps f (local_cell g (r, c)) then 1 else 0) <$> ch !! cell_index g (r, c).
Proof.
  intros Hg Hch. cbv zeta.
  change (foldl (bump g) ch (scatter_cells g f))
    with (foldl (fun ch rc => alter (Z.add ((fun _ => 1) rc)) (cell_index g rc) ch) ch (scatter_cells g f)).
  split; [unfold channel_ok; by rewrite updates_length|]. intros r c Hrc.
  destruct (overlaps f (local_cell g (r, c))) eqn:Ho.
  - apply (updates_at (cell_index g) (fun _ => 1) _ ch (r, c)); [|by apply elem_of_overlapped].
    apply NoDup_fmap_2_strong; [|apply cells_between_NoDup].
    intros [r1 c1] [r2 c2] H1 H2 E. apply elem_of_overlapped in H1 as [H1 _]; [|done].
    apply elem_of_overlapped in H2 as [H2 _]; [|done]. by apply (cell_index_inj g).
  - rewrite updates_other; [by destruct (ch !! cell_index g (r, c))|].
    intros ([r' c'] & E & Hin)%list_elem_of_fmap. apply elem_of_overlapped in Hin as [Hin Ho']; [|done].
    apply cell_index_inj in E; [|done|done]. congruence.
Qed.

(** A footprint adds one to exactly the cells it overlaps.  In a configured
    grid, for a footprint whose lower corner is within 32 bits of the origin,
    counting it changes no cell but those of the grid whose half-open square
    overlaps the footprint, and adds one to each of them. *)
Theorem accumulate_exact g f :
  grid_ok g -> channel_ok g (counts_ g) -> x_low_ f <= x_high_ f -> y_low_ f <= y_high_ f ->
  fits 32 (x_low_ f - origin_x g) -> fits 32 (y_low_ f - origin_y g) ->
  exists g', accumulate_footprint f g = Some g' /\ channel_ok g' (counts_ g') /\
  forall r c, in_grid g (r, c) ->
    cell_count g' c r = Z.add (if overlaps f (local_cell g (r, c)) then 1 else 0) <$> cell_count g c r.
Proof.
  intros Hg Hch Hx Hy Hfx Hfy. unfold accumulate_footprint. rewrite configured_ok by done. cbn [negb].
  rewrite decide_True by done. rewrite touched_cells by done. cbn [mbind option_bind].
  destruct (bump_all g (counts_ g) f Hg Hch) as [Hch' Hat]. eexists. split; [done|]. split; [exact Hch'|].
  intros r c Hrc. unfold cell_count. cbn [cols rows set_counts counts_].
  unfold in_grid in Hrc. cbn in Hrc. rewrite !(proj2 (Z.leb_gt _ _)) by lia. cbn [orb]. by apply Hat.
Qed.

(** ** Scattering one cell *)

Lemma overlap_seg g rect r c :
  grid_ok g -> x_low_ rect < x_high_ rect -> y_low_ rect < y_high_ rect -> (r, c) ∈ scatter_cells g rect ->
  overlap_of g rect (r, c) =
    Some (seg (x_low_ rect) (x_high_ rect) (origin_x g) (bin_width g) c *
          seg (y_low_ rect) (y_high_ rect) (origin_y g) (bin_height g) r) /\
  0 < seg (x_low_ rect) (x_high_ rect) (origin_x g) (bin_width g) c /\
  0 < seg (y_low_ rect) (y_high_ rect) (origin_y g) (bin_height g) r.
Proof.
  intros [Hw Hh _ _] Hx Hy Hin. unfold scatter_cells in Hin. rewrite elem_of_cells_between in Hin.
  rewrite !floor_div_eq in Hin by done.
  destruct (seg_clamp (x_low_ rect) (x_high_ rect) (origin_x g) (bin_width g) Hw Hx c ltac:(lia)) as [H1 _].
  destruct (seg_clamp (y_low_ rect) (y_high_ rect) (origin_y g) (bin_height g) Hh Hy r ltac:(lia)) as [H2 _].
  split; [|done]. unfold overlap_of. cbn [fst snd]. fold (seg (x_low_ rect) (x_high_ rect) (origin_x g) (bin_width g) c).
  fold (seg (y_low_ rect) (y_high_ rect) (origin_y g) (bin_height g) r).
  by rewrite !(proj2 (Z.leb_gt _ _)) by lia.
Qed.

Definition inside (g : DSDensityGrid) (rect : GEORectT) : Prop :=
  origin_x g <= x_low_ rect /\ x_high_ rect <= origin_x g + cols g * bin_width g /\
  origin_y g <= y_low_ rect /\ y_high_ rect <= origin_y g + rows g * bin_height g.

Definition overlap (g : DSDensityGrid) (rect : GEORectT) (rc : Z * Z) : Z := default 0 (overlap_of g rect rc).

(** The overlaps add up to at most the area, and to the area inside the grid. *)
Lemma overlaps_sum g rect :
  grid_ok g -> x_low_ rect < x_high_ rect -> y_low_ rect < y_high_ rect ->
  let area := (x_high_ rect - x_low_ rect) * (y_high_ rect - y_low_ rect) in
  let s := sum (overlap g rect <$> scatter_cells g rect) in
  0 <= s <= area /\ (inside g rect -> s = area).
Proof.
  intros Hg Hx Hy. cbv zeta.
  assert (sum (overlap g rect <$> scatter_cells g rect) =
    sum (seg (y_low_ rect) (y_high_ rect) (origin_y g) (bin_height g) <$>
      seqZ (Z.max 0 ((y_low_ rect - origin_y g) / bin_height g))
        (Z.min (rows g - 1) ((y_high_ rect - 1 - origin_y g) / bin_height g) -
         Z.max 0 ((y_low_ rect - origin_y g) / bin_height g) + 1)) *
    sum (seg (x_low_ rect) (x_high_ rect) (origin_x g) (bin_width g) <$>
      seqZ (Z.max 0 ((x_low_ rect - origin_x g) / bin_width g))
        (Z.min (cols g - 1) ((x_high_ rect - 1 - origin_x g) / bin_width g) -
         Z.max 0 ((x_low_ rect - origin_x g) / bin_width g) + 1))) as ->.
  { transitivity (sum ((fun rc => seg (y_low_ rect) (y_high_ rect) (origin_y g) (bin_height g) rc.1 *
      seg (x_low_ rect) (x_high_ rect) (origin_x g) (bin_width g) rc.2) <$> scatter_cells g rect)).
    - f_equal. apply list_fmap_ext. intros i [r c] Hi%list_elem_of_lookup_2.
      destruct (overlap_seg g rect r c Hg Hx Hy Hi) as [E _]. unfold overlap. rewrite E. cbn. lia.
    - unfold scatter_cells, cells_between. rewrite !floor_div_eq by apply Hg. rewrite sum_bind.
      rewrite Z.mul_comm, <- sum_fmap_mul. f_equal. apply list_fmap_ext. intros i r _.
      rewrite sum_bind, Z.mul_comm, <- sum_fmap_mul. f_equal. apply list_fmap_ext. intros j c _.
      rewrite fmap_cons, fmap_nil, sum_cons, sum_nil. cbn [fst snd]. lia. }
  destruct (seg_cover (x_low_ rect) (x_high_ rect) (origin_x g) (bin_width g) (go_width _ Hg) Hx (cols g)) as [Bx Ix].
  destruct (seg_cover (y_low_ rect) (y_high_ rect) (origin_y g) (bin_height g) (go_height _ Hg) Hy (rows g)) as [By Iy].
  cbv zeta in Bx, Ix, By, Iy. split; [nia|]. intros (H1 & H2 & H3 & H4). rewrite Ix, Iy by done. lia.
Qed.

Section scatter.
Context (v : Z) (g : DSDensityGrid) (rect : GEORectT).
Context (Hg : grid_ok g) (Hv : 0 <= v).
Context (Hx : x_low_ rect < x_high_ rect) (Hy : y_low_ rect < y_high_ rect).
Context (Harea : (x_high_ rect - x_low_ rect) * (y_high_ rect - y_low_ rect) = cell_area g).
Context (Hfits : v * cell_area g < 2 ^ 63).

Lemma cell_area_pos : 0 < cell_area g.
Proof using Hg. destruct Hg. unfold cell_area. nia. Qed.

Definition entry_of (rc : Z * Z) : Entry :=
  {| e_col := rc.2; e_row := rc.1; e_overlap := overlap g rect rc;
     e_remainder := v * overlap g rect rc mod cell_area g |}.

Lemma overlap_bounds rc : rc ∈ scatter_cells g rect -> 0 < overlap g rect rc <= cell_area g.
Proof using All.
  intros Hin. destruct (overlaps_sum g rect Hg Hx Hy) as [[_ Hs] _]. cbv zeta in Hs. rewrite Harea in Hs.
  assert (forall rc', rc' ∈ scatter_cells g rect -> 0 < overlap g rect rc') as Hpos.
  { intros [r c] Hrc. destruct (overlap_seg g rect r c Hg Hx Hy Hrc) as (E & ? & ?). unfold overlap.
    rewrite E. cbn. nia. }
  split; [by apply Hpos|]. apply list_elem_of_split in Hin as (l1 & l2 & E). rewrite E in Hs, Hpos.
  rewrite fmap_app, sum_app, fmap_cons, sum_cons in Hs.
  assert (forall l, (forall rc', rc' ∈ l -> 0 < overlap g rect rc') -> 0 <= sum (overlap g rect <$> l)) as Hnn.
  { intros l Hl. pose proof (sum_fmap_le (fun _ => 0) (overlap g rect) l) as H.
    rewrite sum_const in H. apply Z.le_trans with (2 := H ltac:(intros rc' Hrc'; specialize (Hl rc' Hrc'); lia)). lia. }
  pose proof (Hnn l1 ltac:(intros; apply Hpos; set_solver)). pose proof (Hnn l2 ltac:(intros; apply Hpos; set_solver)). lia.
Qed.

Lemma scatter_entries :
  ((@concat Entry) <$> mapM (scatter_entry v g rect) (scatter_cells g rect)) = Some (entry_of <$> scatter_cells g rect).
Proof using All.
  pose proof cell_area_pos as HA.
  assert (forall l, (forall rc, rc ∈ l -> rc ∈ scatter_cells g rect) ->
    ((@concat Entry) <$> mapM (scatter_entry v g rect) l) = Some (entry_of <$> l)) as H; [|by apply H].
  induction l as [|[r c] l IH]; intros Hin; [done|].
  assert (scatter_entry v g rect (r, c) = Some [entry_of (r, c)]) as E.
  { assert ((r, c) ∈ scatter_cells g rect) as Hrc by (apply Hin; by left).
    destruct (overlap_seg g rect r c Hg Hx Hy Hrc) as (Eo & _). pose proof (overlap_bounds _ Hrc) as Hb.
    unfold scatter_entry, entry_of, overlap in *. rewrite Eo in *. cbn [from_option id] in *.
    rewrite chk_eq by (unfold fits; nia). cbn [mbind option_bind]. rewrite Z.rem_mod_nonneg by nia. done. }
  specialize (IH ltac:(intros; apply Hin; by right)). cbn [mapM]. rewrite E. cbn [mbind option_bind].
  destruct (mapM (scatter_entry v g rect) l) as [es|]; [|done]. cbn in IH |- *. injection IH as ->. done.
Qed.

Lemma base_of_entry rc : rc ∈ scatter_cells g rect -> base_of v g (entry_of rc) = v * overlap g rect rc / cell_area g.
Proof using All.
  intros Hin. pose proof (overlap_bounds rc Hin). pose proof cell_area_pos. unfold base_of. cbn [e_overlap entry_of].
  apply Z.quot_div_nonneg; nia.
Qed.

(** The shares without the leftover: their sum and what is missing. *)
Lemma shares_sum :
  let bases := sum (base_of v g <$> (entry_of <$> scatter_cells g rect)) in
  0 <= bases <= v /\
  (inside g rect -> scatter_cells g rect <> [] /\ v - bases < Z.of_nat (length (scatter_cells g rect))).
Proof using All.
  cbv zeta. pose proof cell_area_pos as HA. set (cs := scatter_cells g rect).
  assert (sum (base_of v g <$> (entry_of <$> cs)) = sum ((fun rc => v * overlap g rect rc / cell_area g) <$> cs)) as ->.
  { f_equal. rewrite <- list_fmap_compose. apply list_fmap_ext. intros i rc Hi%list_elem_of_lookup_2. by apply base_of_entry. }
  destruct (overlaps_sum g rect Hg Hx Hy) as [[Hs0 Hs] Hin]. cbv zeta in Hs, Hin. rewrite Harea in Hs, Hin. fold cs in Hs0, Hs, Hin.
  assert (cell_area g * sum ((fun rc => v * overlap g rect rc / cell_area g) <$> cs) +
    sum ((fun rc => v * overlap g rect rc mod cell_area g) <$> cs) = v * sum (overlap g rect <$> cs)) as Hsum.
  { rewrite <- !sum_fmap_mul, <- sum_fmap_add. f_equal. apply list_fmap_ext. intros i rc _.
    symmetry. apply Z.div_mod. lia. }
  assert (0 <= sum ((fun rc => v * overlap g rect rc mod cell_area g) <$> cs) <= Z.of_nat (length cs) * (cell_area g - 1)) as Hrem.
  { rewrite <- (sum_const (cell_area g - 1) cs). split.
    - transitivity (sum ((fun _ => 0) <$> cs)); [rewrite sum_const; lia|]. apply sum_fmap_le.
      intros rc _. pose proof (Z.mod_pos_bound (v * overlap g rect rc) (cell_area g) HA). lia.
    - apply sum_fmap_le. intros rc _. pose proof (Z.mod_pos_bound (v * overlap g rect rc) (cell_area g) HA). lia. }
  assert (0 <= sum ((fun rc => v * overlap g rect rc / cell_area g) <$> cs)).
  { transitivity (sum ((fun _ => 0) <$> cs)); [rewrite sum_const; lia|]. apply sum_fmap_le.
    intros rc Hrc. pose proof (overlap_bounds rc Hrc). apply Z.div_pos; nia. }
  split; [nia|]. intros Hi. specialize (Hin Hi).
  assert (cs <> []) as Hne.
  { intros E. rewrite E, fmap_nil, sum_nil in Hin. lia. }
  split; [done|]. assert (1 <= Z.of_nat (length cs)) by (destruct cs; [done|cbn [length]; lia]).
  rewrite Hin in Hsum. nia.
Qed.

Lemma not_overlapped r c : in_grid g (r, c) -> (r, c) ∉ scatter_cells g rect -> overlap g rect (r, c) = 0.
Proof using All.
  intros Hin Hno. rewrite elem_of_overlapped in Hno by done. unfold overlap, overlap_of. cbn [fst snd].
  destruct (_ || _) eqn:E; [done|]. destruct Hno. split; [done|]. unfold overlaps, local_cell. cbn.
  apply orb_false_iff in E as [E1%Z.leb_gt E2%Z.leb_gt]. rewrite !andb_true_iff, !Z.ltb_lt. lia.
Qed.

Definition index_of (e : Entry) : nat := cell_index g (e_row e, e_col e).

Lemma entry_index_NoDup : NoDup (index_of <$> (entry_of <$> scatter_cells g rect)).
Proof using Hg.
  rewrite <- list_fmap_compose. apply NoDup_fmap_2_strong; [|apply cells_between_NoDup].
  intros [r1 c1] [r2 c2] H1 H2 E. apply elem_of_overlapped in H1 as [H1 _]; [|done].
  apply elem_of_overlapped in H2 as [H2 _]; [|done]. by apply (cell_index_inj g).
Qed.

Lemma entries_in_range ch : channel_ok g ch ->
  Forall (fun e => (index_of e < length ch)%nat) (entry_of <$> scatter_cells g rect).
Proof using Hg.
  intros Hch. apply Forall_forall. intros e ([r c] & -> & Hin)%list_elem_of_fmap.
  apply elem_of_overlapped in Hin as [Hin _]; [|done]. by apply cell_index_lt.
Qed.

(** The cells that get one more. *)
Definition lucky (leftover : Z) : list Entry :=
  take (Z.to_nat leftover) (merge_sort entry_before (entry_of <$> scatter_cells g rect)).

Lemma lucky_sub leftover e : e ∈ lucky leftover -> e ∈ entry_of <$> scatter_cells g rect.
Proof using Type.
  intros He. rewrite <- (merge_sort_Permutation entry_before _).
  rewrite <- (take_drop (Z.to_nat leftover) (merge_sort _ _)). apply elem_of_app. by left.
Qed.

Lemma lucky_NoDup leftover : NoDup (index_of <$> lucky leftover).
Proof using Hg.
  unfold lucky. rewrite fmap_take. eapply sublist_NoDup; [|apply sublist_take].
  rewrite (merge_sort_Permutation entry_before _). apply entry_index_NoDup.
Qed.

Lemma lucky_length leftover :
  0 <= leftover -> Z.of_nat (length (lucky leftover)) = Z.min leftover (Z.of_nat (length (scatter_cells g rect))).
Proof using Type. intros. unfold lucky. rewrite length_take, sort_length, length_fmap. lia. Qed.

(** The channel that [scatter_cell] computes. *)
Lemma scatter_cell_eq ch : v <> 0 -> scatter_cells g rect <> [] -> exists leftover,
  leftover = v - sum (base_of v g <$> (entry_of <$> scatter_cells g rect)) /\ 0 <= leftover /\
  scatter_cell v rect g ch = Some (foldl (fun ch e => alter (Z.add ((fun _ => 1) e)) (index_of e) ch)
    (foldl (fun ch e => alter (Z.add (base_of v g e)) (index_of e) ch) ch (entry_of <$> scatter_cells g rect))
    (lucky leftover)).
Proof using All.
  intros Hv0 Hne. destruct shares_sum as [Hs _]. cbv zeta in Hs. eexists. split; [done|]. split; [lia|].
  unfold scatter_cell. rewrite (proj2 (Z.eqb_neq v 0)) by done. pose proof scatter_entries as He.
  destruct (mapM (scatter_entry v g rect) (scatter_cells g rect)) as [es|]; [|done].
  cbn [fmap option_fmap option_map] in He. injection He as He. cbn [mbind option_bind]. rewrite He.
  rewrite decide_False by (intros E%fmap_nil_inv; done). rewrite decide_True by lia. done.
Qed.
(** What the two passes add to a cell. *)
Lemma scatter_shares (ch : list Z) leftover r c :
  in_grid g (r, c) ->
  let es := entry_of <$> scatter_cells g rect in
  let ch1 := foldl (fun ch e => alter (Z.add (base_of v g e)) (index_of e) ch) ch es in
  exists extra, (extra = 0 \/ extra = 1) /\
  foldl (fun ch e => alter (Z.add ((fun _ => 1) e)) (index_of e) ch) ch1 (lucky leftover) !! cell_index g (r, c) =
    Z.add (v * overlap g rect (r, c) / cell_area g + extra) <$> ch !! cell_index g (r, c).
Proof using All.
  intros Hrc es ch1. set (L := lucky leftover).
  assert (v * 0 / cell_area g + 0 = 0) as Hz by (pose proof cell_area_pos; rewrite Z.mul_0_r, Z.div_0_l by lia; done).
  destruct (decide ((r, c) ∈ scatter_cells g rect)) as [Hc|Hc].
  - assert (entry_of (r, c) ∈ es) as Hes by by apply list_elem_of_fmap_2.
    assert (ch1 !! cell_index g (r, c) = Z.add (v * overlap g rect (r, c) / cell_area g) <$> ch !! cell_index g (r, c)) as E1.
    { rewrite <- (base_of_entry (r, c) Hc).
      apply (updates_at (index_of) (base_of v g) es ch (entry_of (r, c))); [|done]. by apply entry_index_NoDup. }
    destruct (decide (entry_of (r, c) ∈ L)) as [Hlk|Hnl].
    + exists 1. split; [by right|]. etransitivity;
        [apply (updates_at (index_of) (fun _ => 1) L ch1 (entry_of (r, c))); [by apply lucky_NoDup|done]|].
      change (index_of (entry_of (r, c))) with (cell_index g (r, c)). rewrite E1.
      destruct (ch !! cell_index g (r, c)); cbn; [f_equal; lia|done].
    + exists 0. split; [by left|]. rewrite updates_other, E1.
      * destruct (ch !! cell_index g (r, c)); cbn; [f_equal; lia|done].
      * intros (e & Ei & He)%list_elem_of_fmap. pose proof (lucky_sub _ _ He) as ([r' c'] & -> & Hin')%list_elem_of_fmap.
        apply cell_index_inj in Ei; [|done|by apply elem_of_overlapped in Hin' as [? _]]. cbn in Ei. congruence.
  - exists 0. split; [by left|]. rewrite (not_overlapped r c Hrc Hc), Hz.
    assert (cell_index g (r, c) ∉ index_of <$> es) as Hno.
    { intros (e & Ei & ([r' c'] & -> & Hin')%list_elem_of_fmap)%list_elem_of_fmap.
      apply cell_index_inj in Ei; [|done|by apply elem_of_overlapped in Hin' as [? _]]. cbn in Ei. congruence. }
    rewrite updates_other; [|intros (e & Ei & He%lucky_sub)%list_elem_of_fmap; apply Hno; rewrite Ei; by apply list_elem_of_fmap_2].
    unfold ch1. rewrite updates_other by done. by destruct (ch !! cell_index g (r, c)).
Qed.
End scatter.

(** What [scatter_cell] does to a channel. *)
Lemma scatter_cell_ok v g rect ch :
  grid_ok g -> channel_ok g ch -> 0 <= v -> x_low_ rect < x_high_ rect -> y_low_ rect < y_high_ rect ->
  (x_high_ rect - x_low_ rect) * (y_high_ rect - y_low_ rect) = cell_area g -> v * cell_area g < 2 ^ 63 ->
  exists ch', scatter_cell v rect g ch = Some ch' /\ channel_ok g ch' /\
  sum ch <= sum ch' <= sum ch + v /\ (inside g rect -> sum ch' = sum ch + v) /\
  forall r c, in_grid g (r, c) -> exists extra, (extra = 0 \/ extra = 1) /\
    ch' !! cell_index g (r, c) =
      Z.add (v * overlap g rect (r, c) / cell_area g + extra) <$> ch !! cell_index g (r, c).
Proof.
  intros Hg Hch Hv Hx Hy Harea Hfits.
  pose proof (cell_area_pos g Hg) as HA.
  assert (v * 0 / cell_area g + 0 = 0) as Hz by (rewrite Z.mul_0_r, Z.div_0_l by lia; done).
  destruct (decide (v = 0)) as [->|Hv0].
  { exists ch. split; [done|]. split; [done|]. split; [lia|]. split; [lia|]. intros r c _. exists 0.
    split; [by left|]. rewrite Z.mul_0_l, Z.div_0_l by lia. by destruct (ch !! _). }
  destruct (shares_sum v g rect Hg Hv Hx Hy Harea Hfits) as [Hs Hin]. cbv zeta in Hs, Hin.
  destruct (decide (scatter_cells g rect = [])) as [He|Hne].
  { exists ch. unfold scatter_cell. rewrite (proj2 (Z.eqb_neq v 0)) by done. rewrite He. split; [done|].
    split; [done|]. split; [lia|]. split; [intros Hi; by destruct (Hin Hi)|]. intros r c Hrc. exists 0.
    split; [by left|]. rewrite (not_overlapped v g rect Hg Hv Hx Hy Harea Hfits r c Hrc), Hz by (rewrite He; apply not_elem_of_nil).
    by destruct (ch !! _). }
  destruct (scatter_cell_eq v g rect Hg Hv Hx Hy Harea Hfits ch Hv0 Hne) as (leftover & El & Hl & Heq).
  rewrite Heq. eexists. split; [done|]. set (es := entry_of v g rect <$> scatter_cells g rect) in *.
  set (ch1 := foldl _ ch es). set (L := lucky v g rect leftover).
  assert (channel_ok g ch1) as Hch1 by (unfold channel_ok, ch1; by rewrite updates_length).
  assert (Forall (fun e => (index_of g e < length ch1)%nat) L) as HL.
  { apply Forall_forall. intros e He%lucky_sub. exact (proj1 (Forall_forall _ _) (entries_in_range v g rect Hg ch1 Hch1) e He). }
  split; [unfold channel_ok; by rewrite updates_length|].
  rewrite sum_updates by done. unfold ch1 at 1 2 3. rewrite sum_updates by (by apply entries_in_range).
  rewrite sum_const. unfold L at 1 2 3. rewrite lucky_length by done. fold es.
  split; [lia|]. split; [intros Hi; destruct (Hin Hi) as [_ ?]; lia|].
  intros r c Hrc. by apply scatter_shares.
Qed.

(** Scattering keeps the count.  Let a cell of the size of a grid cell hold [v]
    shapes, [v] times the cell area being below 2^63.  Scattering it into a channel
    succeeds and gives every grid cell its share by area, [v * overlap / area],
    rounded down or up; altogether it never adds more than [v], and adds exactly
    [v] when the cell lies inside the grid. *)
Theorem scatter_conserves v g rect ch :
  grid_ok g -> channel_ok g ch -> 0 <= v -> x_low_ rect < x_high_ rect -> y_low_ rect < y_high_ rect ->
  (x_high_ rect - x_low_ rect) * (y_high_ rect - y_low_ rect) = cell_area g -> v * cell_area g < 2 ^ 63 ->
  exists ch', scatter_cell v rect g ch = Some ch' /\ channel_ok g ch' /\
  sum ch <= sum ch' <= sum ch + v /\ (inside g rect -> sum ch' = sum ch + v) /\
  forall r c, in_grid g (r, c) -> exists extra, (extra = 0 \/ extra = 1) /\
    ch' !! cell_index g (r, c) =
      Z.add (v * overlap g rect (r, c) / cell_area g + extra) <$> ch !! cell_index g (r, c).
Proof. apply scatter_cell_ok. Qed.

(** * The global map *)

Section merge.
Context {B : Type} `{!DSNameBackend B}.
(** The blocks with their density maps, and the density maps of their nets. *)
Context (tree : DSHierTree) (blocks : list (DSBlockBuildData B * DSDensityGrid)) (nets : list DSDensityGrid).

Definition def_by_name (name : bytes) : option nat :=
  fst <$> list_find (fun b => block_name_ b.1 = name) blocks.

(** The placement of a block instance in the block of its parent. *)
Definition placement_of (node parent : DSHierNode) : option DSInstance :=
  let local_id := ((self_global_id_ node + 2 ^ 64 - instance_start_ parent) mod 2 ^ 64)%N in
  p ← def_by_name (block_cell_name_ parent);
  b ← blocks !! p;
  instances_ b.1 !! local_id.

(** A missing instance counts as placed at the origin. *)
Definition node_transform (transforms : list GEOTransformT) (id : nat) (node : DSHierNode)
  : option GEOTransformT :=
  if (id =? 0)%nat then Some identity else
  parent ← nodes_ tree !! parent_id_ node;
  t ← transforms !! parent_id_ node;
  compose 64 t (match placement_of node parent with Some inst => transform_ inst | None => identity end).

Definition scatter_layer (via : bool) (local : DSDensityGrid) (t : GEOTransformT) (global : DSDensityGrid)
    (e : N * list Z) : option DSDensityGrid :=
  let dst := default [] (layer_counts via global !! e.1) in
  let dst := if decide (dst = []) then zeros global else dst in
  dst ← scatter_density_channel local e.2 t global dst;
  Some (set_layer via e.1 dst global).

Definition scatter_node (node : DSHierNode) (t : GEOTransformT) (global : DSDensityGrid)
  : option DSDensityGrid :=
  match def_by_name (block_cell_name_ node) with
  | None => Some global
  | Some d =>
      b ← blocks !! d; net ← nets !! d;
      counts ← scatter_density_channel b.2 (counts_ b.2) t global (counts_ global);
      let global := set_counts counts global in
      global ← ofold_option (scatter_layer false net t) (map_to_list (metal_layer_counts_ net)) global;
      ofold_option (scatter_layer true net t) (map_to_list (via_layer_counts_ net)) global
  end.

Definition merge_node (st : list GEOTransformT * DSDensityGrid) (p : nat * DSHierNode)
  : option (list GEOTransformT * DSDensityGrid) :=
  let '(transforms, global) := st in
  t ← node_transform transforms p.1 p.2;
  global ← scatter_node p.2 t global;
  Some (<[p.1 := t]> transforms, global).

Definition ds_merge_global_density : option DSDensityGrid :=
  if decide (nodes_ tree = [] \/ blocks = []) then Some new_grid else
  if decide (length nets <> length blocks) then Some new_grid else
  root ← nodes_ tree !! 0%nat;
  match def_by_name (block_cell_name_ root) with
  | None => Some new_grid
  | Some d =>
      b ← blocks !! d;
      let root_grid := b.2 in
      if (cols root_grid =? 0) || (rows root_grid =? 0) then Some new_grid else
      global ← configure (origin_x root_grid) (origin_y root_grid) (bin_width root_grid)
        (bin_height root_grid) (cols root_grid) (rows root_grid) new_grid;
      st ← ofold_option merge_node (imap pair (nodes_ tree)) (replicate (length (nodes_ tree)) identity, global);
      Some st.2
  end.
End merge.

(** ** Scattering a whole map *)

Lemma row_indices (n c : nat) :
  (fun x => Z.to_nat (Z.of_nat n * Z.of_nat c + x)) <$> seqZ 0 (Z.of_nat c) = seq (n * c) c.
Proof.
  unfold seqZ. rewrite Nat2Z.id, <- list_fmap_compose. apply list_eq. intros i.
  rewrite list_lookup_fmap. destruct (decide (i < c)%nat) as [Hi|Hi].
  - rewrite !lookup_seq_lt by done. cbn. f_equal. lia.
  - rewrite !lookup_seq_ge by lia. done.
Qed.

(** The indices of the cells of a grid, row by row, are 0, 1, 2, ... *)
Lemma grid_indices g :
  0 <= cols g -> 0 <= rows g ->
  cell_index g <$> cells_between 0 (rows g - 1) 0 (cols g - 1) = seq 0 (Z.to_nat (cols g * rows g)).
Proof.
  intros Hc Hr. unfold cells_between. replace (rows g - 1 - 0 + 1) with (rows g) by lia.
  replace (cols g - 1 - 0 + 1) with (cols g) by lia.
  rewrite Z2Nat.inj_mul, Nat.mul_comm by lia. remember (Z.to_nat (rows g)) as n eqn:En.
  replace (rows g) with (Z.of_nat n) by lia. clear En Hr. induction n as [|n IH]; [done|].
  rewrite seqZ_S, bind_app, fmap_app, IH, bind_singleton. cbn [Nat.mul]. rewrite Nat.add_comm, seq_app. f_equal.
  cbn [Nat.add]. rewrite <- row_indices, Z2Nat.id by lia. clear IH.
  induction (seqZ 0 (cols g)) as [|x l IHl]; [done|]. rewrite bind_cons, fmap_app, fmap_cons, IHl.
  done.
Qed.

Lemma sum_by_index (l : list Z) : sum ((fun i => default 0 (l !! i)) <$> seq 0 (length l)) = sum l.
Proof.
  induction l as [|x l IH] using rev_ind; [done|].
  rewrite length_app. cbn [length]. rewrite Nat.add_1_r, seq_S, fmap_app, sum_app, sum_app.
  cbn [fmap list_fmap Nat.add]. rewrite !sum_cons, !sum_nil, lookup_app_r, Nat.sub_diag by lia. cbn [lookup list_lookup from_option id].
  f_equal. etransitivity; [|exact IH]. f_equal. apply list_fmap_ext. intros j i [-> Hi]%lookup_seq.
  rewrite lookup_app_l by lia. done.
Qed.

Definition same_grid (g g' : DSDensityGrid) : Prop :=
  origin_x g = origin_x g' /\ origin_y g = origin_y g' /\ bin_width g = bin_width g' /\
  bin_height g = bin_height g' /\ cols g = cols g' /\ rows g = rows g'.

(** A local map whose cells all land inside the global grid. *)
Record lands (global local : DSDensityGrid) (t : GEOTransformT) (src : list Z) : Prop := {
  la_grid : grid_ok local;
  la_area : cell_area local = cell_area global;
  la_channel : channel_ok local src;
  la_count v : v ∈ src -> 0 <= v /\ v * cell_area global < 2 ^ 63;
  la_cell rc : in_grid local rc ->
    exists rect, apply_box 64 t (local_cell local rc) = Some rect /\ inside global rect;
}.

Definition unconfigured (g : DSDensityGrid) : Prop := cols g = 0 \/ rows g = 0.

Lemma image_box_area t r :
  rect_ok r -> let r' := image_box t r in
  (x_high_ r' - x_low_ r') * (y_high_ r' - y_low_ r') = (x_high_ r - x_low_ r) * (y_high_ r - y_low_ r) /\
  (x_low_ r < x_high_ r -> y_low_ r < y_high_ r -> x_low_ r' < x_high_ r' /\ y_low_ r' < y_high_ r').
Proof.
  destruct t as [[ox oy] o], r as [xl yl xh yh]. unfold rect_ok; cbn. intros [Hx Hy].
  destruct o; unfold image_box; cbn; rewrite ?(Z.min_l), ?(Z.max_r), ?(Z.min_r), ?(Z.max_l) by lia; split; nia.
Qed.

Section scatter_map.
Context (global : DSDensityGrid) (Hg : grid_ok global).

Lemma scatter_one_ok src local t dst rc :
  lands global local t src -> channel_ok global dst -> in_grid local rc ->
  exists dst', scatter_one src local t global dst rc = Some dst' /\ channel_ok global dst' /\
  sum dst' = sum dst + default 0 (src !! cell_index local rc).
Proof using Hg.
  intros [Hl Ha Hs Hc Hcell] Hd Hrc. unfold scatter_one.
  destruct (lookup_lt_is_Some_2 src _ (cell_index_lt local src rc Hs Hrc)) as [v Hv]. rewrite Hv.
  cbn [mbind option_bind from_option id]. destruct (Z.eqb_spec v 0) as [->|Hv0].
  { exists dst. split; [done|]. split; [done|]. lia. }
  destruct (Hc v (list_elem_of_lookup_2 _ _ _ Hv)) as [Hvp Hvf].
  destruct (Hcell rc Hrc) as (rect & Hb & Hin). rewrite Hb. cbn [mbind option_bind].
  apply apply_box_sound in Hb as [Hok ->]. destruct (image_box_area t _ Hok) as [Harea Hpos]. cbv zeta in Harea, Hpos.
  assert (x_low_ (local_cell local rc) < x_high_ (local_cell local rc) /\
          y_low_ (local_cell local rc) < y_high_ (local_cell local rc)) as [Hx Hy].
  { destruct Hl. unfold local_cell; cbn. nia. }
  destruct (Hpos Hx Hy) as [Hx' Hy'].
  destruct (scatter_cell_ok v global (image_box t (local_cell local rc)) dst Hg Hd Hvp Hx' Hy') as (dst' & E & Hd' & _ & Hsum & _); [|done|].
  { rewrite Harea, <- Ha. unfold local_cell, cell_area; cbn. nia. }
  exists dst'. split; [done|]. split; [done|]. by apply Hsum.
Qed.

Lemma scatter_map_ok src local t dst :
  unconfigured local \/ lands global local t src -> channel_ok global dst ->
  exists dst', scatter_density_channel local src t global dst = Some dst' /\ channel_ok global dst' /\
  sum dst' = sum dst + if (cols local =? 0) || (rows local =? 0) then 0 else sum src.
Proof using Hg.
  intros Hl Hd. unfold scatter_density_channel. destruct (_ || _) eqn:Eu.
  { exists dst. split; [done|]. split; [done|]. lia. }
  destruct Hl as [[Hu|Hu]|Hl]; [rewrite Hu in Eu; done|rewrite Hu, orb_true_r in Eu; done|].
  assert (sum src = sum ((fun rc => default 0 (src !! cell_index local rc)) <$>
    cells_between 0 (rows local - 1) 0 (cols local - 1))) as ->.
  { change (fun rc => default 0 (src !! cell_index local rc))
      with ((fun i => default 0 (src !! i)) ∘ cell_index local).
    rewrite list_fmap_compose, grid_indices by (destruct (la_grid _ _ _ _ Hl); lia).
    rewrite <- (la_channel _ _ _ _ Hl). by rewrite sum_by_index. }
  unfold scatter_channel.
  assert (forall rc, rc ∈ cells_between 0 (rows local - 1) 0 (cols local - 1) -> in_grid local rc) as Hall.
  { intros [r c] Hrc%elem_of_cells_between. unfold in_grid; cbn. lia. }
  revert dst Hd. induction (cells_between 0 (rows local - 1) 0 (cols local - 1)) as [|rc l IH]; intros dst Hd.
  { exists dst. split; [done|]. split; [done|]. rewrite fmap_nil, sum_nil. lia. }
  destruct (scatter_one_ok src local t dst rc Hl Hd ltac:(apply Hall; by left)) as (d1 & E1 & Hd1 & Hs1).
  destruct (IH ltac:(intros; apply Hall; by right) d1 Hd1) as (d2 & E2 & Hd2 & Hs2).
  exists d2. cbn [ofold_option]. rewrite E1. cbn [mbind option_bind]. split; [done|]. split; [done|].
  rewrite fmap_cons, sum_cons. lia.
Qed.
End scatter_map.

(** ** Merging *)

Lemma fits_widen z : fits 32 z -> fits 64 z.
Proof. unfold fits. lia. Qed.

Lemma apply_widen t p q : apply 32 t p = Some q -> apply 64 t p = Some q.
Proof.
  destruct t as [[ox oy] o], p as [x y]. unfold apply. cbn [x_ y_ offset_ orient_].
  intros (r & Hr & H)%bind_Some. geo_option. destruct o; cbn in *; geo_option; cbn in *;
    repeat (rewrite chk_eq by (by apply fits_widen); cbn); done.
Qed.

Lemma compose_widen t s c : compose 32 t s = Some c -> compose 64 t s = Some c.
Proof. unfold compose. intros (o & Ho%apply_widen & E)%bind_Some. rewrite Ho. done. Qed.

Lemma lands_same g g' local t src : same_grid g g' -> lands g' local t src -> lands g local t src.
Proof.
  intros (E1 & E2 & E3 & E4 & E5 & E6) [H1 H2 H3 H4 H5].
  assert (cell_area g = cell_area g') as Ea by (unfold cell_area; congruence). split; try done.
  - congruence.
  - intros v Hv. rewrite Ea. by apply H4.
  - intros rc Hrc. destruct (H5 rc Hrc) as (rect & Hr & Hin). exists rect. split; [done|].
    unfold inside in *. by rewrite E1, E2, E3, E4, E5, E6.
Qed.

Section layers.
Context (root : DSDensityGrid) (Hroot : grid_ok root).

(** The map under construction. *)
Record global_ok (g : DSDensityGrid) : Prop := {
  gl_same : same_grid g root;
  gl_counts : channel_ok root (counts_ g);
  gl_layers via k l : layer_counts via g !! k = Some l -> channel_ok root l;
}.

Lemma global_grid_ok g : global_ok g -> grid_ok g.
Proof using Hroot.
  intros [(_ & _ & E3 & E4 & E5 & E6) _ _]. destruct Hroot. split; congruence.
Qed.

Lemma global_channel g l : global_ok g -> channel_ok g l <-> channel_ok root l.
Proof. intros [(_ & _ & _ & _ & E5 & E6) _ _]. unfold channel_ok. by rewrite E5, E6. Qed.

Definition landing (local : DSDensityGrid) (t : GEOTransformT) (src : list Z) : Prop :=
  unconfigured local \/ lands root local t src.

Definition amount (local : DSDensityGrid) (src : list Z) : Z :=
  if (cols local =? 0) || (rows local =? 0) then 0 else sum src.

Lemma scatter_into g local t src dst :
  global_ok g -> landing local t src -> channel_ok root dst ->
  exists dst', scatter_density_channel local src t g dst = Some dst' /\ channel_ok root dst' /\
  sum dst' = sum dst + amount local src.
Proof using Hroot.
  intros Hg Hl Hd. destruct (scatter_map_ok g (global_grid_ok g Hg) src local t dst) as (d' & E & Hd' & Hs).
  - destruct Hl as [Hu|Hl]; [by left|right]. eapply lands_same; [apply Hg|done].
  - by apply global_channel.
  - exists d'. split; [done|]. split; [by apply (global_channel g)|done].
Qed.

Lemma layer_counts_set via via' k l g :
  layer_counts via' (set_layer via k l g) =
    if Bool.eqb via via' then <[k := l]> (layer_counts via' g) else layer_counts via' g.
Proof. by destruct via, via'. Qed.

Lemma scatter_layer_ok via local t g k l :
  global_ok g -> landing local t l ->
  exists g', scatter_layer via local t g (k, l) = Some g' /\ global_ok g' /\ counts_ g' = counts_ g /\
  (forall via', via' <> via -> layer_counts via' g' = layer_counts via' g) /\
  (forall k', k' <> k -> layer_counts via g' !! k' = layer_counts via g !! k') /\
  layer_total k via g' = layer_total k via g + amount local l.
Proof using Hroot.
  intros Hg Hl. unfold scatter_layer. cbn [fst snd].
  set (dst := if decide (_ = []) then _ else _).
  assert (channel_ok root dst /\ sum dst = layer_total k via g) as [Hd Hsd].
  { unfold dst, layer_total. pose proof (gl_layers g Hg via k) as Hgl.
    destruct (layer_counts via g !! k) as [c|]; cbn [from_option id].
    - specialize (Hgl c eq_refl). rewrite decide_False; [done|]. intros ->. destruct Hroot.
      unfold channel_ok in Hgl. cbn [length] in Hgl. nia.
    - rewrite decide_True by done. unfold zeros. destruct (gl_same g Hg) as (_ & _ & _ & _ & E5 & E6).
      rewrite E5, E6. split; [unfold channel_ok; by rewrite length_replicate|]. apply sum_zeros. }
  destruct (scatter_into g local t l dst Hg Hl Hd) as (d' & E & Hd' & Hs). rewrite E. cbn [mbind option_bind].
  eexists. split; [done|]. split; [|split; [done|split; [|split]]].
  - destruct Hg as [Hsame Hc Hla]. split; [done|done|]. intros via' k' l'. rewrite layer_counts_set.
    destruct (Bool.eqb via via'); [|apply Hla]. destruct (decide (k = k')) as [->|Hne].
    + rewrite lookup_insert_eq. by intros [= <-].
    + rewrite lookup_insert_ne by done. apply Hla.
  - intros via' Hv. rewrite layer_counts_set. by rewrite (proj2 (Bool.eqb_false_iff _ _)) by done.
  - intros k' Hk. rewrite layer_counts_set, Bool.eqb_reflx. by rewrite lookup_insert_ne.
  - unfold layer_total at 1. rewrite layer_counts_set, Bool.eqb_reflx, lookup_insert_eq. lia.
Qed.

Lemma scatter_layers_ok via local t (ls : list (N * list Z)) g :
  global_ok g -> NoDup ls.*1 -> (forall e, e ∈ ls -> landing local t e.2) ->
  exists g', ofold_option (scatter_layer via local t) ls g = Some g' /\ global_ok g' /\ counts_ g' = counts_ g /\
  (forall via', via' <> via -> layer_counts via' g' = layer_counts via' g) /\
  forall k, layer_total k via g' = layer_total k via g +
    match (list_to_map ls : gmap N (list Z)) !! k with Some l => amount local l | None => 0 end.
Proof using Hroot.
  revert g. induction ls as [|[k l] ls IH]; intros g Hg Hnd Hl.
  { exists g. split; [done|]. split; [done|]. split; [done|]. split; [done|]. intros k. cbn. rewrite lookup_empty. lia. }
  cbn in Hnd. apply NoDup_cons in Hnd as [Hk Hnd].
  destruct (scatter_layer_ok via local t g k l Hg (Hl (k, l) ltac:(by left))) as (g1 & E1 & Hg1 & C1 & V1 & O1 & T1).
  destruct (IH g1 Hg1 Hnd ltac:(intros; apply Hl; by right)) as (g2 & E2 & Hg2 & C2 & V2 & T2).
  exists g2. cbn [ofold_option]. rewrite E1. cbn [mbind option_bind]. split; [done|]. split; [done|].
  split; [congruence|]. split; [intros via' Hv; by rewrite V2, V1|].
  intros k'. rewrite T2. cbn [list_to_map foldr uncurry]. destruct (decide (k = k')) as [<-|Hne].
  - rewrite lookup_insert_eq, T1. rewrite (not_elem_of_list_to_map_1 ls k) by done. cbn [fst snd]. lia.
  - rewrite lookup_insert_ne by done. unfold layer_total at 1. rewrite O1 by done. done.
Qed.
End layers.

Section merged.
Context {B : Type} `{!DSNameBackend B}.
Context (design : DSDesign) (tb : list (DSBlockBuildData B * N)) (tree : DSHierTree).
Context (Htree : tree_ok design tb tree).
Context (blocks : list (DSBlockBuildData B * DSDensityGrid)) (nets : list DSDensityGrid).
Context (Hsame : blocks.*1 = tb.*1) (Hnets : length nets = length blocks).
Context (Hblocks : forall d b v, tb !! d = Some (b, v) -> block_ok b).
Context (Hnames : NoDup (block_name_ <$> blocks.*1)).

Lemma def_by_name_at d b : blocks !! d = Some b -> def_by_name blocks (block_name_ b.1) = Some d.
Proof using All.
  intros Hd. unfold def_by_name.
  assert (list_find (fun b' => block_name_ b'.1 = block_name_ b.1) blocks = Some (d, b)) as ->; [|done].
  apply list_find_Some. split; [done|]. split; [done|]. intros j b' Hj Hlt E.
  assert (j = d) as ->; [|lia]. apply (NoDup_lookup _ _ _ (block_name_ b.1) Hnames);
    rewrite !list_lookup_fmap; [rewrite Hj; cbn; by rewrite E|by rewrite Hd].
Qed.

Lemma occurrence_block n d b :
  occurrence design tb n d b -> exists g net, blocks !! d = Some (b, g) /\ nets !! d = Some net /\
  def_by_name blocks (block_cell_name_ n) = Some d.
Proof using All.
  intros (v & Hd & Hname & _). assert (blocks.*1 !! d = Some b) as Hb by (rewrite Hsame, list_lookup_fmap, Hd; done).
  rewrite list_lookup_fmap in Hb. apply fmap_Some in Hb as ([b' g] & Hb & ->).
  destruct (lookup_lt_is_Some_2 nets d) as [net Hnet]; [rewrite Hnets; by eapply lookup_lt_Some|].
  exists g, net. split; [done|]. split; [done|]. rewrite Hname. by apply (def_by_name_at d (b', g)).
Qed.

(** The transform that the merge computes for a node is the one stored in the tree. *)
Lemma node_transform_eq id node ts :
  nodes_ tree !! id = Some node ->
  (forall k n, (k < id)%nat -> nodes_ tree !! k = Some n -> ts !! k = Some (composite_transform_ n)) ->
  node_transform tree blocks ts id node = Some (composite_transform_ node).
Proof using All.
  intros Hn Hts. unfold node_transform. destruct (Nat.eqb_spec id 0) as [->|Hid].
  { destruct (to_root _ _ _ Htree) as (r & Hr & _ & _ & Hc & _). congruence. }
  destruct (to_parents _ _ _ Htree id ltac:(lia) node Hn) as ([_ Hlt] & p & Hp & [k Hk]%list_elem_of_lookup).
  rewrite Hp. cbn [mbind option_bind]. rewrite (Hts _ p Hlt Hp). cbn [mbind option_bind].
  destruct (to_finished _ _ _ Htree _ p Hp) as (d & b & Hocc & Hch).
  destruct (Forall2_lookup_l _ _ _ _ _ Hch Hk) as ([local c] & Hr & (_ & m & b' & Hm & _ & Hself & Hcomp & _)).
  rewrite Hn in Hm. injection Hm as <-. cbn [fst] in Hself, Hcomp.
  destruct (occurrence_block p d b Hocc) as (g & net & Hb & _ & Hdef).
  destruct Hocc as (v & Hd & _). pose proof (Hblocks d b v Hd) as Hbo.
  apply list_elem_of_lookup_2, (elem_of_block_refs _ _ d b v) in Hr as (inst & Hi & Href); [|done].
  apply block_ref_local in Href. unfold child_composite in Hcomp. rewrite Hi in Hcomp.
  assert (local < 2 ^ 64)%N as Hlocal.
  { destruct (bo_instances _ Hbo) as (h & _ & Hu).
    assert (local < next_instance_id_ b)%N by (apply (bo_dom _ Hbo); by eexists).
    destruct (nu_named _ _ Hu local ltac:(lia)) as [name Hl].
    pose proof Hl as [_ Hgn]%(ok_map _ _ (nu_ok _ _ Hu)).
    apply (arena_get_name_valid id_bits) in Hgn; [|apply (nu_ok _ _ Hu)].
    pose proof (ok_domain _ _ (nu_ok _ _ Hu)). unfold id_bits in *. lia. }
  assert (placement_of blocks node p = Some inst) as ->.
  { unfold placement_of. rewrite Hself, Hdef. cbn [mbind option_bind]. rewrite Hb. cbn [mbind option_bind fst].
    replace (instance_start_ p + local + 2 ^ 64 - instance_start_ p)%N with (local + 1 * 2 ^ 64)%N by lia.
    rewrite N.Div0.mod_add, N.mod_small by done. done. }
  destruct (compose coord_bits (composite_transform_ p) (transform_ inst)) as [ct|] eqn:Ec; [|done].
  cbn in Hcomp. injection Hcomp as <-. by apply compose_widen.
Qed.

(** What a node contributes. *)
Definition node_counts (n : DSHierNode) : Z :=
  match d ← def_by_name blocks (block_cell_name_ n); blocks !! d with
  | Some b => amount b.2 (counts_ b.2)
  | None => 0
  end.

Definition node_layer (via : bool) (k : N) (n : DSHierNode) : Z :=
  match d ← def_by_name blocks (block_cell_name_ n); nets !! d with
  | Some net => match layer_counts via net !! k with Some l => amount net l | None => 0 end
  | None => 0
  end.

Context (root : DSDensityGrid) (Hroot : grid_ok root).
Context (Hland : forall i n d b g net, nodes_ tree !! i = Some n -> occurrence design tb n d b ->
  blocks !! d = Some (b, g) -> nets !! d = Some net ->
  landing root g (composite_transform_ n) (counts_ g) /\
  forall via k l, layer_counts via net !! k = Some l -> landing root net (composite_transform_ n) l).

Lemma scatter_node_ok i n g :
  nodes_ tree !! i = Some n -> global_ok root g ->
  exists g', scatter_node blocks nets n (composite_transform_ n) g = Some g' /\ global_ok root g' /\
  total_count g' = total_count g + node_counts n /\
  forall via k, layer_total k via g' = layer_total k via g + node_layer via k n.
Proof using All.
  intros Hn Hg. destruct (to_finished _ _ _ Htree i n Hn) as (d & b & Hocc & _).
  destruct (occurrence_block n d b Hocc) as (gb & net & Hb & Hnet & Hdef).
  destruct (Hland i n d b gb net Hn Hocc Hb Hnet) as [Hl Hll].
  unfold scatter_node, node_counts, node_layer. rewrite Hdef. cbn [mbind option_bind]. rewrite Hb, Hnet.
  cbn [mbind option_bind snd].
  destruct (scatter_into root Hroot g gb (composite_transform_ n) (counts_ gb) (counts_ g) Hg Hl (gl_counts _ _ Hg))
    as (ch & Ech & Hch & Hsum). rewrite Ech. cbn [mbind option_bind].
  assert (global_ok root (set_counts ch g)) as Hg1 by (destruct Hg; by split).
  assert (forall via e, e ∈ map_to_list (layer_counts via net) -> landing root net (composite_transform_ n) e.2) as Hle.
  { intros via [k l] He%elem_of_map_to_list. by apply (Hll via k). }
  destruct (scatter_layers_ok root Hroot false net (composite_transform_ n) (map_to_list (metal_layer_counts_ net))
    (set_counts ch g) Hg1 (NoDup_fst_map_to_list _) (Hle false)) as (g2 & E2 & Hg2 & C2 & V2 & T2).
  rewrite E2. cbn [mbind option_bind].
  destruct (scatter_layers_ok root Hroot true net (composite_transform_ n) (map_to_list (via_layer_counts_ net))
    g2 Hg2 (NoDup_fst_map_to_list _) (Hle true)) as (g3 & E3 & Hg3 & C3 & V3 & T3).
  exists g3. split; [done|]. split; [done|]. split.
  - unfold total_count. rewrite C3, C2. cbn [counts_ set_counts]. done.
  - intros via k. destruct via.
    + rewrite T3, list_to_map_to_list. unfold layer_total at 1. rewrite (V2 true) by done. done.
    + unfold layer_total at 1. rewrite (V3 false) by done. fold (layer_total k false g2).
      rewrite T2, list_to_map_to_list. done.
Qed.

Lemma merge_nodes_ok k g0 :
  (k <= length (nodes_ tree))%nat -> global_ok root g0 ->
  exists ts g, ofold_option (merge_node tree blocks nets) (take k (imap pair (nodes_ tree)))
    (replicate (length (nodes_ tree)) identity, g0) = Some (ts, g) /\ global_ok root g /\
  length ts = length (nodes_ tree) /\
  (forall j n, (j < k)%nat -> nodes_ tree !! j = Some n -> ts !! j = Some (composite_transform_ n)) /\
  total_count g = total_count g0 + sum (node_counts <$> take k (nodes_ tree)) /\
  forall via l, layer_total l via g = layer_total l via g0 + sum (node_layer via l <$> take k (nodes_ tree)).
Proof using All.
  intros Hk Hg0. induction k as [|k IH].
  { eexists _, g0. split; [done|]. split; [done|]. split; [apply length_replicate|]. split; [lia|].
    rewrite !take_0. split; [rewrite fmap_nil, sum_nil; lia|]. intros via l. rewrite fmap_nil, sum_nil. lia. }
  destruct (IH ltac:(lia)) as (ts & g & E & Hg & Hlen & Hts & Hc & Hl).
  destruct (lookup_lt_is_Some_2 (nodes_ tree) k ltac:(lia)) as [n Hn].
  destruct (scatter_node_ok k n g Hn Hg) as (g' & E' & Hg' & Hc' & Hl').
  exists (<[k := composite_transform_ n]> ts), g'.
  rewrite (take_S_r _ _ (k, n)) by (rewrite list_lookup_imap, Hn; done).
  rewrite ofold_option_snoc, E. cbn [mbind option_bind merge_node fst snd].
  rewrite (node_transform_eq k n ts Hn Hts). cbn [mbind option_bind]. rewrite E'. cbn [mbind option_bind].
  split; [done|]. split; [done|]. split; [by rewrite length_insert|]. split; [|split].
  - intros j m Hj Hm. destruct (decide (j = k)) as [->|Hne].
    + rewrite list_lookup_insert_eq by lia. congruence.
    + rewrite list_lookup_insert_ne by done. apply Hts; [lia|done].
  - rewrite (take_S_r _ _ n) by done. rewrite fmap_app, sum_app, fmap_cons, fmap_nil, sum_cons, sum_nil. lia.
  - intros via l. rewrite (take_S_r _ _ n) by done.
    rewrite fmap_app, sum_app, fmap_cons, fmap_nil, sum_cons, sum_nil, Hl', Hl. lia.
Qed.
End merged.

(** C29: the global density map loses nothing.  For a built hierarchy, when every
    cell of every block and net map lands inside the grid of the top block (with
    counts times cell area below 2^63), the merge succeeds and uses for every node
    the placement stored in the tree: the total of the global instance channel and
    of each layer of the metal and via channels is the sum, over all nodes of the
    hierarchy, of the totals of the maps of the node's block. *)
Theorem merge_conserves {B} `{!DSNameBackend B} design (tb : list (DSBlockBuildData B * N)) tree
    (blocks : list (DSBlockBuildData B * DSDensityGrid)) nets d0 b0 root :
  tb <> [] -> ds_build_hier_tree design tb = Ok tree -> Forall (fun b => block_reach b.1) tb ->
  blocks.*1 = tb.*1 -> length nets = length blocks -> NoDup (block_name_ <$> blocks.*1) ->
  blocks !! d0 = Some (b0, root) -> block_name_ b0 = design_name_ tree -> grid_ok root ->
  (forall i n d b g net, nodes_ tree !! i = Some n -> occurrence design tb n d b ->
     blocks !! d = Some (b, g) -> nets !! d = Some net ->
     landing root g (composite_transform_ n) (counts_ g) /\
     forall via k l, layer_counts via net !! k = Some l -> landing root net (composite_transform_ n) l) ->
  exists g, ds_merge_global_density tree blocks nets = Some g /\ same_grid g root /\
  total_count g = sum (node_counts blocks <$> nodes_ tree) /\
  forall via k, layer_total k via g = sum (node_layer blocks nets via k <$> nodes_ tree).
Proof.
  intros Hne Hbuild Hreach Hsame Hnets Hnames Hd0 Hb0 Hroot Hland.
  pose proof (built_tree_ok design tb tree Hne Hbuild) as Htree.
  assert (forall d b v, tb !! d = Some (b, v) -> block_ok b) as Hblocks.
  { intros d b v Hd. apply (Forall_lookup_1 _ _ _ _ Hreach) in Hd. by apply block_reach_ok. }
  destruct (to_root _ _ _ Htree) as (r & Hr & _ & _ & _ & _ & Hname).
  pose proof (def_by_name_at design tb tree Htree blocks nets Hsame Hnets Hblocks Hnames d0 (b0, root) Hd0) as Hdef. cbn [fst] in Hdef.
  pose proof Hroot as [Hw Hh Hc Hrw].
  set (g0 := {| origin_x := origin_x root; origin_y := origin_y root; bin_width := bin_width root;
    bin_height := bin_height root; cols := cols root; rows := rows root;
    counts_ := replicate (Z.to_nat (cols root * rows root)) 0;
    metal_layer_counts_ := metal_layer_counts_ new_grid; via_layer_counts_ := via_layer_counts_ new_grid |}).
  assert (global_ok root g0) as Hg0.
  { split; [done|unfold channel_ok; cbn; by rewrite length_replicate|]. intros [] k l; cbn; by rewrite lookup_empty. }
  destruct (merge_nodes_ok design tb tree Htree blocks nets Hsame Hnets Hblocks Hnames root Hroot Hland
    (length (nodes_ tree)) g0 ltac:(lia) Hg0) as (ts & g & E & Hg & _ & _ & Ht & Hl).
  rewrite take_ge in E by by rewrite length_imap. rewrite take_ge in Ht by lia.
  exists g. split; [|split; [apply Hg|split]].
  - unfold ds_merge_global_density. rewrite decide_False.
    2:{ intros [E0|E0]; [by rewrite E0 in Hr|by rewrite E0 in Hd0]. }
    rewrite decide_False by (intros Hn; by apply Hn). rewrite Hr. cbn [mbind option_bind].
    rewrite Hname, <- Hb0, Hdef. rewrite Hd0. cbn [mbind option_bind snd].
    rewrite !(proj2 (Z.eqb_neq _ _)) by lia. cbn [orb]. unfold configure. rewrite decide_True by done.
    cbn [mbind option_bind]. fold g0. by rewrite E.
  - rewrite Ht. assert (total_count g0 = 0) as ->; [|lia]. unfold total_count. apply sum_zeros.
  - intros via k. rewrite Hl, take_ge by lia. unfold layer_total at 1. destruct via; cbn; rewrite lookup_empty; lia.
Qed.

(** ** Samples *)

Definition sample_grid (n : Z) (counts : list Z) : DSDensityGrid :=
  {| origin_x := 0; origin_y := 0; bin_width := 40; bin_height := 40; cols := n; rows := 1;
     counts_ := counts; metal_layer_counts_ := ∅; via_layer_counts_ := ∅ |}.

Lemma sample_grid_ok n counts : 0 < n -> grid_ok (sample_grid n counts).
Proof. intros. by split. Qed.

Lemma accumulate_exact_witness : exists g',
  accumulate_footprint (GEORect 10 10 50 20) (sample_grid 2 [5; 7]) = Some g' /\ cell_count g' 1 0 = Some 8.
Proof.
  destruct (accumulate_exact (sample_grid 2 [5; 7]) (GEORect 10 10 50 20)) as (g' & E & _ & H).
  - by apply sample_grid_ok.
  - reflexivity.
  - cbn; lia.
  - cbn; lia.
  - unfold fits; cbn; lia.
  - unfold fits; cbn; lia.
  - exists g'. split; [exact E|]. rewrite (H 0 1) by (unfold in_grid; cbn; lia). reflexivity.
Defined.

Lemma scatter_conserves_witness : exists ch',
  scatter_cell 3 (GEORect 10 0 50 40) (sample_grid 2 []) [0; 0] = Some ch' /\ sum ch' = 3.
Proof.
  destruct (scatter_conserves 3 (sample_grid 2 []) (GEORect 10 0 50 40) [0; 0]) as (ch' & E & _ & _ & H & _).
  - by apply sample_grid_ok.
  - reflexivity.
  - lia.
  - cbn; lia.
  - cbn; lia.
  - reflexivity.
  - reflexivity.
  - exists ch'. split; [exact E|]. rewrite H by (unfold inside; cbn; lia). reflexivity.
Defined.

Definition map_blocks : list (DSBlockBuildData DSHasherBackendHash * DSDensityGrid) :=
  [(sample_B, sample_grid 1 [3]); (sample_T, sample_grid 2 [1; 2])].
Definition map_nets : list DSDensityGrid := [new_grid; new_grid].

Lemma map_nodes :
  (fun n => (block_cell_name_ n, composite_transform_ n)) <$> nodes_ sample_tree =
  [(nT, identity); (nB, GEOTransform (GEOPoint 10 0) Geometry.N); (nB, GEOTransform (GEOPoint 20 0) Geometry.N)].
Proof. vm_compute. reflexivity. Qed.

Lemma sample_lands n counts t x y :
  (n = 1 \/ n = 2) -> length counts = Z.to_nat n -> t = GEOTransform (GEOPoint x y) Geometry.N -> y = 0 ->
  0 <= x -> x + 40 * n <= 80 -> (forall v, v ∈ counts -> 0 <= v <= 3) ->
  lands (sample_grid 2 [1; 2]) (sample_grid n counts) t counts.
Proof.
  intros Hn Hlen -> -> Hx Hx2 Hc. split.
  - apply sample_grid_ok. lia.
  - done.
  - unfold channel_ok. cbn. rewrite Hlen. f_equal. lia.
  - intros v Hv. specialize (Hc v Hv). unfold cell_area; cbn. lia.
  - intros [r c] [Hr Hcc]. cbn in Hr, Hcc. assert (r = 0) as -> by lia.
    exists (GEORect (c * 40 + x) 0 ((c + 1) * 40 + x) 40). split.
    + unfold apply_box. rewrite decide_True by (unfold rect_ok; cbn; lia). unfold apply. cbn [rotate orient_ offset_ x_ y_ mbind option_bind].
      cbn [local_cell sample_grid origin_x origin_y bin_width bin_height fst snd x_low_ y_low_ x_high_ y_high_].
      repeat (rewrite chk_eq by (unfold fits; lia); cbn [mbind option_bind x_ y_]).
      f_equal. unfold min4, max4. f_equal; lia.
    + unfold inside; cbn. lia.
Qed.

Lemma merge_conserves_witness : exists g,
  ds_merge_global_density sample_tree map_blocks map_nets = Some g /\ total_count g = 9.
Proof.
  destruct (merge_conserves sample_design sample_blocks sample_tree map_blocks map_nets 1 sample_T (sample_grid 2 [1; 2]))
    as (g & E & _ & Ht & _).
  - discriminate.
  - exact sample_build.
  - constructor; [apply sample_B_reach|]. constructor; [apply sample_T_reach|constructor].
  - reflexivity.
  - reflexivity.
  - apply (bool_decide_eq_true_1 (NoDup _)). vm_compute. reflexivity.
  - reflexivity.
  - vm_compute. reflexivity.
  - by apply sample_grid_ok.
  - intros i n d b g net Hn (v & _ & Hname & _) Hb Hnet. split.
    + right. assert (((fun n => (block_cell_name_ n, composite_transform_ n)) <$> nodes_ sample_tree) !! i =
        Some (block_cell_name_ n, composite_transform_ n)) as Hi by (rewrite list_lookup_fmap, Hn; reflexivity).
      rewrite map_nodes in Hi. rewrite Hname in Hi.
      destruct d as [|[|d]]; [injection Hb as <- <-|injection Hb as <- <-|destruct d; discriminate];
        (destruct i as [|[|[|i]]]; [..|destruct i; discriminate]); try discriminate Hi.
      * eapply (sample_lands 1); [lia|reflexivity|by injection Hi as <-|reflexivity|lia|lia|].
        intros v' ->%list_elem_of_singleton. lia.
      * eapply (sample_lands 1); [lia|reflexivity|by injection Hi as <-|reflexivity|lia|lia|].
        intros v' ->%list_elem_of_singleton. lia.
      * eapply (sample_lands 2); [lia|reflexivity|by injection Hi as <-|reflexivity|lia|lia|].
        intros v' [->|E%list_elem_of_singleton]%elem_of_cons; lia.
    + intros via k l Hl. destruct d as [|[|d]]; [injection Hnet as <-|injection Hnet as <-|destruct d; discriminate];
        destruct via; cbn in Hl; rewrite lookup_empty in Hl; discriminate.
  - exists g. split; [exact E|]. rewrite Ht. vm_compute. reflexivity.
Defined.
