(* ===== verification/Partition.v ===== *)
(** Cutting the die into partitions (emir/design/cpp/ds_partition.h,
    ds_partition.cpp: [compose_load], [prefix_cuts], [grid_shape],
    [parse_target_partitions], [ds_decide_partitions]).

    The density map is folded into one load per cell; the rows and the columns are
    cut where the sum of the loads crosses equal shares; a partition is a block of
    cells (its core) with a margin around it (its extend rectangle), which is open
    to the extremes of the integers at the border.  Loads are binary64 numbers,
    here the executable specification of them of the Standard Library; what the
    theorems say does not depend on the values of the loads.  The loops over the
    unordered maps of layers take the order of the traversal as an argument. *)

From stdpp Require Import base gmap list sets fin_maps.
From Stdlib Require Import ZArith NArith Lia SpecFloat.
From S2P Require Import Prelude Bytes NameHasher Geometry BlockData DesignTables Density.
Import Corelib.Init.Datatypes(nat(..)) Corelib.Numbers.BinNums(N(..)).
#[local] Open Scope Z_scope.

(** * Doubles *)

Definition double := spec_float.
Definition dadd : double -> double -> double := SFadd 53 1024.
Definition dsub : double -> double -> double := SFsub 53 1024.
Definition dmul : double -> double -> double := SFmul 53 1024.
Definition ddiv : double -> double -> double := SFdiv 53 1024.
Definition dsqrt : double -> double := SFsqrt 53 1024.
Definition dleb : double -> double -> bool := SFleb.
Definition deqb : double -> double -> bool := SFeqb.
Definition dzero : double := S754_zero false.
Definition of_Z (z : Z) : double := binary_normalize 53 1024 z 0 false.

(** [std::max] of doubles: the first unless it is below the second. *)
Definition dmax (a b : double) : double := if SFltb a b then b else a.

(** The double nearest to 1e-9. *)
Definition d1e_9 : double := S754_finite false 4835703278458517 (-82).

(** [llround]: half away from zero; the value for what is not a 64-bit integer is
    not specified, here [unspecified]. *)
Definition llround (unspecified : Z) (d : double) : Z :=
  match d with
  | S754_zero _ => 0
  | S754_finite s m e =>
      let r := if (0 <=? e) then Z.pos m * 2 ^ e else (Z.pos m + 2 ^ (- e - 1)) / 2 ^ (- e) in
      let r := if s then - r else r in
      if decide (fits 64 r) then r else unspecified
  | _ => unspecified
  end.

(** [static_cast<int64_t>(std::ceil(d))], undefined when it does not fit. *)
Definition ceil_i64 (d : double) : option Z :=
  match d with
  | S754_zero _ => Some 0
  | S754_finite s m e =>
      let v := if s then Z.neg m else Z.pos m in
      chk 64 (if (0 <=? e) then v * 2 ^ e else - (- v / 2 ^ (- e)))
  | _ => None
  end.

(** * Loads *)

Record DSDensityWeights := {
  w_instance : double; w_metal : double; w_via : double; layer_factors_ : gmap N double;
}.
Definition default_weights : DSDensityWeights :=
  {| w_instance := of_Z 6; w_metal := of_Z 2; w_via := of_Z 2; layer_factors_ := ∅ |}.
Definition layer_factor (w : DSDensityWeights) (layer : N) : double :=
  default (of_Z 1) (layer_factors_ w !! layer).

Record CompositeLoad := { l_cells : list double; col_load : list double; row_load : list double; l_total : double }.

(** The lambda [accumulate]; a channel shorter than the grid is read past its end. *)
Definition add_channel (cells : list double) (counts : list Z) (weight : double) : option (list double) :=
  if deqb weight dzero then Some cells else
  if decide (length cells <= length counts)%nat then
    Some (zip_with (fun x n => let v := of_Z n in if deqb v dzero then x else dadd x (dmul v weight)) cells counts)
  else None.

(** One turn of the loop of the projections. *)
Definition project (cols : nat) (l : CompositeLoad) (p : nat * double) : CompositeLoad :=
  let '(i, v) := p in
  {| l_cells := l_cells l;
     col_load := alter (fun x => dadd x v) (i mod cols)%nat (col_load l);
     row_load := alter (fun x => dadd x v) (i / cols)%nat (row_load l);
     l_total := dadd (l_total l) v |}.

Section decide.
(** The orders in which the layers are traversed, and the value of a [llround] of
    something that is not a 64-bit integer. *)
Context (order : gmap N (list Z) -> list (N * list Z)) (unspecified : Z).

Definition compose_load (g : DSDensityGrid) (w : DSDensityWeights) : option CompositeLoad :=
  let n := Z.to_nat (cols g * rows g) in
  cells ← add_channel (replicate n dzero) (counts_ g) (w_instance w);
  cells ← ofold_option (fun cells e => add_channel cells e.2 (dmul (w_metal w) (layer_factor w e.1)))
            (order (metal_layer_counts_ g)) cells;
  cells ← ofold_option (fun cells e => add_channel cells e.2 (dmul (w_via w) (layer_factor w e.1)))
            (order (via_layer_counts_ g)) cells;
  Some (foldl (project (Z.to_nat (cols g)))
    {| l_cells := cells; col_load := replicate (Z.to_nat (cols g)) dzero;
       row_load := replicate (Z.to_nat (rows g)) dzero; l_total := dzero |} (imap pair cells)).

(** * Cuts *)

Definition dsum (l : list double) : double := foldl dadd dzero l.

(** The inner loop of [prefix_cuts]: as long as the sum [acc] has reached the share
    of the next cut, cut after column [c].  There are at most [n - k] cuts left. *)
Fixpoint push_cuts (fuel : nat) (total eps acc : double) (n k : nat) (c : nat) (cuts : list nat)
  : nat * list nat :=
  match fuel with
  | O => (k, cuts)
  | S fuel =>
      if (k <? n)%nat &&
         dleb (ddiv (dmul total (of_Z (Z.of_nat k))) (of_Z (Z.of_nat n))) (dadd acc eps)
      then push_cuts fuel total eps acc n (S k) c (cuts ++ [S c])
      else (k, cuts)
  end.

Definition cut_step (total eps : double) (n : nat) (st : double * nat * list nat) (p : nat * double)
  : double * nat * list nat :=
  let '(acc, k, cuts) := st in
  let acc := dadd acc p.2 in
  let '(k, cuts) := push_cuts (n - k) total eps acc n k p.1 cuts in
  (acc, k, cuts).

Definition prefix_cuts (load : list double) (n : nat) : list nat :=
  let m := length load in
  let total := dsum load in
  let eps := dmul total d1e_9 in
  let '(_, _, cuts) := foldl (cut_step total eps n) (dzero, 1%nat, [0%nat]) (imap pair load) in
  cuts ++ replicate (n - length cuts) m ++ [m].

(** [spread]: twice the standard deviation of the load, at least 1. *)
Definition spread (load : list double) : double :=
  let total := dsum load in
  if dleb total dzero then of_Z 1 else
  let mean := ddiv (foldl (fun s p => dadd s (dmul (of_Z (Z.of_nat p.1)) p.2)) dzero (imap pair load)) total in
  let var := ddiv (foldl (fun s p => let d := dsub (of_Z (Z.of_nat p.1)) mean in
                     dadd s (dmul (dmul p.2 d) d)) dzero (imap pair load)) total in
  dmax (dmul (of_Z 2) (dsqrt var)) (of_Z 1).

(** [None]: a division by zero. *)
Definition grid_shape (n : Z) (col_load row_load : list double) : option (Z * Z) :=
  let raw := dsqrt (ddiv (dmul (of_Z n) (spread col_load)) (spread row_load)) in
  let nx := u32 (Z.min (Z.max (llround unspecified raw) 1) n) in
  if nx =? 0 then None else Some (nx, u32 (Z.quot (n + nx - 1) nx)).

(** * The shape in the options *)

Definition is_space (b : Byte.byte) : bool :=
  let c := Byte.to_N b in ((c =? 32) || ((9 <=? c) && (c <=? 13)))%N.
Definition digit (b : Byte.byte) : option Z :=
  let c := Z.of_N (Byte.to_N b) in if (48 <=? c) && (c <=? 57) then Some (c - 48) else None.

Fixpoint skip_spaces (s : bytes) : bytes :=
  match s with b :: s' => if is_space b then skip_spaces s' else s | [] => [] end.

(** The value of the leading digits and what follows them. *)
Fixpoint digits (acc : Z) (s : bytes) : Z * bytes :=
  match s with
  | b :: s' => match digit b with Some d => digits (10 * acc + d) s' | None => (acc, s) end
  | [] => (acc, [])
  end.

(** [std::stoi] with the number of characters it consumes; [None] is an exception. *)
Definition stoi (s : bytes) : option (Z * nat) :=
  let s1 := skip_spaces s in
  let '(neg, s2) := match s1 with
    | b :: s' => if decide (b = Byte.x2d) then (true, s') else
                 if decide (b = Byte.x2b) then (false, s') else (false, s1)
    | [] => (false, s1)
    end in
  match s2 with
  | b :: _ => match digit b with
      | None => None
      | Some _ => let '(v, rest) := digits 0 s2 in
                  let v := if neg then - v else v in
                  if decide (fits 32 v) then Some (v, length s - length rest)%nat else None
      end
  | [] => None
  end.

Definition parse_target_partitions (s : bytes) : option (Z * Z) :=
  match fst <$> list_find (fun b => b = Byte.x78) s with
  | None => None
  | Some pos =>
      if (pos =? 0)%nat || (length s <=? pos + 1)%nat then None else
      '(xv, cx) ← stoi s;
      if negb (cx =? pos)%nat then None else
      '(yv, cy) ← stoi (drop (pos + 1) s);
      if negb (cy =? length s - pos - 1)%nat then None else
      if (xv <=? 0) || (yv <=? 0) then None else Some (u32 xv, u32 yv)
  end.

(** * The decision *)

Record DSSubPartition := {
  partition_id_ : N; xp_ : nat; yp_ : nat; core_rect_ : GEORectT; extend_rect_ : GEORectT;
}.

Definition kDefaultPartitionTargetDensity : Z := 150000.

(** The number of columns and rows of partitions; [(1, 1)] is a single one. *)
Definition partition_shape (load : CompositeLoad) (target_partitions : bytes) (partition_count target_density : Z)
  : option (Z * Z) :=
  if dleb (l_total load) dzero then Some (1, 1) else
  match (if decide (target_partitions = []) then None else parse_target_partitions target_partitions) with
  | Some shape => Some shape
  | None =>
      if 0 <? partition_count then
        if partition_count =? 1 then Some (1, 1) else grid_shape partition_count (col_load load) (row_load load)
      else
        let td := if target_density <=? 0 then kDefaultPartitionTargetDensity else target_density in
        c ← ceil_i64 (ddiv (l_total load) (of_Z td));
        let n := Z.max 1 c in
        let n := Z.min n (Z.of_nat (length (col_load load)) * Z.of_nat (length (row_load load))) in
        if n <=? 1 then Some (1, 1) else grid_shape n (col_load load) (row_load load)
  end.

(** The width of the highest routing layer with metal. *)
Definition w_eff (stack : DSStack) (g : DSDensityGrid) : Z :=
  match list_find (fun l => layer_type_ l = ROUTING /\ 0 < layer_total (layer_id l) false g) (reverse (layers_ stack)) with
  | Some (_, l) => default_width_ l
  | None => 0
  end.

Definition int_min : Z := - 2 ^ 31.
Definition int_max : Z := 2 ^ 31 - 1.

(** The segments of a list of cuts that are not empty, with their positions. *)
Definition segments (cuts : list nat) (n : nat) : list (nat * nat * nat) :=
  k ← seq 0 n;
  match cuts !! k, cuts !! S k with
  | Some lo, Some hi => if (hi <=? lo)%nat then [] else [(k, lo, hi)]
  | _, _ => []
  end.

Definition make_partition (g : DSDensityGrid) (extend_w : Z) (nx ny : nat) (id : nat)
    (p : (nat * nat * nat) * (nat * nat * nat)) : DSSubPartition :=
  let '((yp, r0, r1), (xp, c0, c1)) := p in
  let x_low := s32 (origin_x g + Z.of_nat c0 * bin_width g) in
  let y_low := s32 (origin_y g + Z.of_nat r0 * bin_height g) in
  let x_high := s32 (origin_x g + Z.of_nat c1 * bin_width g) in
  let y_high := s32 (origin_y g + Z.of_nat r1 * bin_height g) in
  {| partition_id_ := (N.of_nat id mod 2 ^ 32)%N; xp_ := xp; yp_ := yp;
     core_rect_ := GEORect x_low y_low x_high y_high;
     extend_rect_ := GEORect
       (if (xp =? 0)%nat then int_min else s32 (x_low - extend_w))
       (if (yp =? 0)%nat then int_min else s32 (y_low - extend_w))
       (if (xp =? nx - 1)%nat then int_max else s32 (x_high + extend_w))
       (if (yp =? ny - 1)%nat then int_max else s32 (y_high + extend_w)) |}.

(** The partitions of given cuts, row by row. *)
Definition make_partitions (g : DSDensityGrid) (extend_w : Z) (nx ny : nat) (col_cuts row_cuts : list nat)
  : list DSSubPartition :=
  imap (make_partition g extend_w nx ny)
    (r ← segments row_cuts ny; c ← segments col_cuts nx; [(r, c)]).

Definition ds_decide_partitions (g : DSDensityGrid) (stack : DSStack) (weights : DSDensityWeights)
    (target_partitions : bytes) (partition_count target_density : Z) : option (list DSSubPartition) :=
  if (cols g =? 0) || (rows g =? 0) then Some [] else
  load ← compose_load g weights;
  '(nx, ny) ← partition_shape load target_partitions partition_count target_density;
  let nx := Z.to_nat nx in let ny := Z.to_nat ny in
  let col_cuts := prefix_cuts (col_load load) nx in
  let row_cuts := prefix_cuts (row_load load) ny in
  Some (make_partitions g (2 * w_eff stack g) nx ny col_cuts row_cuts).
End decide.

(** ** Cuts *)

Definition ascending (l : list nat) : Prop :=
  forall i j x y, (i <= j)%nat -> l !! i = Some x -> l !! j = Some y -> (x <= y)%nat.

Lemma ascending_app_replicate l j v :
  ascending l -> Forall (fun x => (x <= v)%nat) l -> ascending (l ++ replicate j v).
Proof.
  intros Hl Hv i k x y Hik Hx Hy. apply lookup_app_Some in Hx, Hy.
  destruct Hx as [Hx|[Hix Hx]].
  - destruct Hy as [Hy|[_ Hy]]; [by apply (Hl i k)|]. apply lookup_replicate in Hy as [-> _].
    by apply (Forall_lookup_1 _ _ _ _ Hv Hx).
  - destruct Hy as [Hy|[_ Hy]]; [apply lookup_lt_Some in Hy; lia|].
    apply lookup_replicate in Hx as [-> _], Hy as [-> _]. done.
Qed.

Lemma push_cuts_spec fuel total eps acc n k c cuts k' cuts' :
  push_cuts fuel total eps acc n k c cuts = (k', cuts') -> (k <= n)%nat ->
  exists j, cuts' = cuts ++ replicate j (S c) /\ k' = (k + j)%nat /\ (k' <= n)%nat.
Proof.
  revert k cuts. induction fuel as [|fuel IH]; intros k cuts; cbn [push_cuts].
  { intros [= <- <-] Hk. exists 0%nat. cbn. rewrite app_nil_r. split; [done|]. lia. }
  destruct (Nat.ltb_spec k n) as [Hk|Hk]; cbn [andb].
  - destruct (dleb _ _).
    + intros H _. destruct (IH _ _ H ltac:(lia)) as (j & -> & -> & Hle). exists (S j).
      split; [by rewrite <- app_assoc|]. lia.
    + intros [= <- <-] ?. exists 0%nat. cbn. rewrite app_nil_r. split; [done|]. lia.
  - intros [= <- <-] ?. exists 0%nat. cbn. rewrite app_nil_r. split; [done|]. lia.
Qed.

(** The cuts after [i] columns. *)
Record cuts_upto (n i k : nat) (cuts : list nat) : Prop := {
  cu_len : length cuts = k; cu_pos : (1 <= k <= n)%nat; cu_first : cuts !! 0%nat = Some 0%nat;
  cu_asc : ascending cuts; cu_max : Forall (fun x => (x <= i)%nat) cuts;
}.

Lemma cut_step_ok total eps n i acc k cuts v acc' k' cuts' :
  cuts_upto n i k cuts -> cut_step total eps n (acc, k, cuts) (i, v) = (acc', k', cuts') ->
  cuts_upto n (S i) k' cuts'.
Proof.
  intros [Hl Hk Hf Ha Hm]. unfold cut_step. cbn [fst snd].
  destruct (push_cuts _ _ _ _ _ _ _ _) as [k1 c1] eqn:E. intros [= _ <- <-].
  apply push_cuts_spec in E as (j & -> & -> & Hle); [|lia].
  assert (Forall (fun x => (x <= S i)%nat) cuts) as Hm' by (eapply Forall_impl; [exact Hm|]; cbv beta; intros; lia). split.
  - rewrite length_app, length_replicate. lia.
  - lia.
  - rewrite lookup_app_l by lia. done.
  - by apply ascending_app_replicate.
  - apply Forall_app. split; [done|]. apply Forall_replicate. done.
Qed.

Lemma cut_fold_ok total eps n load i acc k cuts acc' k' cuts' :
  cuts_upto n i k cuts ->
  foldl (cut_step total eps n) (acc, k, cuts) (imap (fun j v => ((i + j)%nat, v)) load) = (acc', k', cuts') ->
  cuts_upto n (i + length load) k' cuts'.
Proof.
  revert i acc k cuts. induction load as [|v load IH]; intros i acc k cuts Hc; cbn [imap foldl].
  { intros [= _ <- <-]. by rewrite Nat.add_0_r. }
  rewrite Nat.add_0_r. destruct (cut_step total eps n (acc, k, cuts) (i, v)) as [[a1 k1] c1] eqn:E.
  intros H. cbn [length]. rewrite <- Nat.add_succ_comm. apply (IH (S i) a1 k1 c1).
  - by eapply cut_step_ok.
  - rewrite <- H. f_equal. apply imap_ext. intros j x _. cbn. f_equal. lia.
Qed.

(** The cuts start at 0, end at the number of columns and never go back. *)
Lemma prefix_cuts_ok load n :
  (1 <= n)%nat -> let cuts := prefix_cuts load n in
  length cuts = S n /\ cuts !! 0%nat = Some 0%nat /\ cuts !! n = Some (length load) /\ ascending cuts.
Proof.
  intros Hn. cbv zeta. unfold prefix_cuts.
  destruct (foldl _ _ _) as [[a k] cuts] eqn:E.
  assert (cuts_upto n (length load) k cuts) as [Hl Hk Hf Ha Hm].
  { apply (cut_fold_ok (dsum load) (dmul (dsum load) d1e_9) n load 0 dzero 1 [0%nat] a k cuts); [|exact E].
    split; [done|lia|done| |by constructor; [lia|]].
    intros i j x y _ [_ <-]%list_lookup_singleton_Some [_ <-]%list_lookup_singleton_Some. done. }
  assert (replicate (n - length cuts) (length load) ++ [length load] = replicate (S (n - length cuts)) (length load)) as ->
    by (by rewrite replicate_S_end).
  split; [rewrite length_app, length_replicate; lia|]. split; [rewrite lookup_app_l by lia; done|].
  split; [|by apply ascending_app_replicate].
  rewrite lookup_app_r by lia. apply lookup_replicate. lia.
Qed.

(** ** Segments *)

Section segments.
Context (cuts : list nat) (n m : nat).
Context (Hlen : length cuts = S n) (Hfirst : cuts !! 0%nat = Some 0%nat) (Hlast : cuts !! n = Some m).
Context (Hasc : ascending cuts).

Lemma elem_of_segments k lo hi :
  (k, lo, hi) ∈ segments cuts n <-> (k < n)%nat /\ cuts !! k = Some lo /\ cuts !! S k = Some hi /\ (lo < hi)%nat.
Proof using Hlen.
  unfold segments. rewrite list_elem_of_bind. split.
  - intros (k' & Hin & Hk'%elem_of_seq). destruct (cuts !! k') as [a|] eqn:Ea; [|by apply elem_of_nil in Hin].
    destruct (cuts !! S k') as [b|] eqn:Eb; [|by apply elem_of_nil in Hin].
    destruct (Nat.leb_spec b a); [by apply elem_of_nil in Hin|]. apply list_elem_of_singleton in Hin.
    simplify_eq. split; [lia|done].
  - intros (Hk & Ha & Hb & Hlt). exists k. rewrite Ha, Hb, (proj2 (Nat.leb_gt _ _)) by done.
    split; [by apply list_elem_of_singleton|]. apply elem_of_seq. lia.
Qed.

Lemma segments_NoDup : NoDup (segments cuts n).
Proof using Hlen.
  unfold segments. apply NoDup_bind; [| |apply NoDup_seq].
  - intros k1 k2 [[k lo] hi] _ _ H1 H2.
    assert (k = k1 /\ k = k2); [|lia]. split; [clear H2; rename H1 into H|clear H1; rename H2 into H];
    match type of H with context [match cuts !! ?q with _ => _ end] => destruct (cuts !! q); [|by apply elem_of_nil in H] end;
    match type of H with context [match cuts !! ?q with _ => _ end] => destruct (cuts !! q); [|by apply elem_of_nil in H] end;
    destruct (_ <=? _)%nat; [by apply elem_of_nil in H|apply list_elem_of_singleton in H; congruence
      |by apply elem_of_nil in H|apply list_elem_of_singleton in H; congruence].
  - intros k _. destruct (cuts !! k), (cuts !! S k); try constructor. destruct (_ <=? _)%nat; [constructor|apply NoDup_singleton].
Qed.

(** Every column lies in one segment. *)
Lemma segment_of_column c : (c < m)%nat -> exists k lo hi, (k, lo, hi) ∈ segments cuts n /\ (lo <= c < hi)%nat.
Proof using Hlen Hfirst Hlast.
  intros Hc. assert (forall k x, (k <= n)%nat -> cuts !! k = Some x -> (c < x)%nat ->
    exists j lo hi, (j, lo, hi) ∈ segments cuts n /\ (lo <= c < hi)%nat) as H; [|by apply (H n m)].
  induction k as [|k IH]; intros x Hk Hx Hcx; [rewrite Hfirst in Hx; injection Hx as <-; lia|].
  destruct (lookup_lt_is_Some_2 cuts k ltac:(lia)) as [y Hy].
  destruct (decide (c < y)%nat) as [Hlt|Hge]; [by apply (IH y); [lia|done|done]|].
  exists k, y, x. split; [|lia]. apply elem_of_segments. split; [lia|]. split; [done|]. split; [done|lia].
Qed.

Lemma segment_unique c k lo hi k' lo' hi' :
  (k, lo, hi) ∈ segments cuts n -> (k', lo', hi') ∈ segments cuts n ->
  (lo <= c < hi)%nat -> (lo' <= c < hi')%nat -> (k, lo, hi) = (k', lo', hi').
Proof using Hlen Hasc.
  rewrite !elem_of_segments. intros (Hk & H1 & H2 & _) (Hk' & H1' & H2' & _) Hc Hc'.
  assert (k = k') as ->; [|congruence]. destruct (decide (k = k')) as [|Hne]; [done|]. exfalso.
  destruct (decide (k < k')%nat) as [Hlt|Hge].
  - pose proof (Hasc (S k) k' _ _ ltac:(lia) H2 H1'). lia.
  - pose proof (Hasc (S k') k _ _ ltac:(lia) H2' H1). lia.
Qed.

Lemma segment_bound k lo hi : (k, lo, hi) ∈ segments cuts n -> (lo < hi <= m)%nat.
Proof using Hlen Hlast Hasc.
  rewrite elem_of_segments. intros (Hk & _ & H2 & Hlt). split; [done|]. by apply (Hasc (S k) n).
Qed.
End segments.

(** ** The cores *)

Lemma s32_fits z : fits 32 z -> s32 z = z.
Proof. apply s32_small. Qed.

Lemma cell_of_point o b x c : 0 < b -> (o + c * b <= x <-> c <= (x - o) / b) /\ (x < o + c * b <-> (x - o) / b < c).
Proof.
  intros Hb. pose proof (Z.mul_div_le (x - o) b Hb). pose proof (Z.mul_succ_div_gt (x - o) b Hb).
  split; split; nia.
Qed.

Definition area (g : DSDensityGrid) : GEORectT :=
  GEORect (origin_x g) (origin_y g) (origin_x g + cols g * bin_width g) (origin_y g + rows g * bin_height g).

Definition area_fits (g : DSDensityGrid) : Prop :=
  fits 32 (x_low_ (area g)) /\ fits 32 (y_low_ (area g)) /\ fits 32 (x_high_ (area g)) /\ fits 32 (y_high_ (area g)).

(** Partitions whose cores tile the die: each point of it lies in one core, and no
    core leaves it. *)
Record tiles (g : DSDensityGrid) (ps : list DSSubPartition) : Prop := {
  ti_id i q : ps !! i = Some q -> partition_id_ q = (N.of_nat i mod 2 ^ 32)%N;
  ti_cover p : contains (area g) p = true -> exists i q, ps !! i = Some q /\ contains (core_rect_ q) p = true;
  ti_unique p i j q r : ps !! i = Some q -> ps !! j = Some r ->
    contains (core_rect_ q) p = true -> contains (core_rect_ r) p = true -> i = j;
  ti_inside p i q : ps !! i = Some q -> contains (core_rect_ q) p = true -> contains (area g) p = true;
}.

Section tile.
Context (g : DSDensityGrid) (Hg : grid_ok g) (Hfit : area_fits g) (w : Z).
Context (nx ny : nat) (cc rc : list nat).
Context (Hc1 : length cc = S nx) (Hc2 : cc !! 0%nat = Some 0%nat) (Hc3 : cc !! nx = Some (Z.to_nat (cols g)))
  (Hc4 : ascending cc).
Context (Hr1 : length rc = S ny) (Hr2 : rc !! 0%nat = Some 0%nat) (Hr3 : rc !! ny = Some (Z.to_nat (rows g)))
  (Hr4 : ascending rc).

Let pairs : list ((nat * nat * nat) * (nat * nat * nat)) :=
  r ← segments rc ny; c ← segments cc nx; [(r, c)].

Lemma elem_of_pairs r c : (r, c) ∈ pairs <-> r ∈ segments rc ny /\ c ∈ segments cc nx.
Proof.
  unfold pairs. split.
  - intros (r' & (c' & E%list_elem_of_singleton & Hc)%list_elem_of_bind & Hr)%list_elem_of_bind. by injection E as -> ->.
  - intros [Hr Hc]. apply list_elem_of_bind. exists r. split; [|done].
    apply list_elem_of_bind. exists c. split; [by apply list_elem_of_singleton|done].
Qed.

Lemma pairs_NoDup : NoDup pairs.
Proof using All.
  unfold pairs. apply NoDup_bind; [| |exact (segments_NoDup rc ny Hr1)].
  - intros r1 r2 [r c] _ _ (c1 & E1%list_elem_of_singleton & _)%list_elem_of_bind
      (c2 & E2%list_elem_of_singleton & _)%list_elem_of_bind. congruence.
  - intros r _. apply NoDup_bind; [| |exact (segments_NoDup cc nx Hc1)].
    + intros c1 c2 [r' c] _ _ E1%list_elem_of_singleton E2%list_elem_of_singleton. congruence.
    + intros c _. apply NoDup_singleton.
Qed.

(** The core of a pair of segments, without conversions. *)
Lemma core_eq id yp r0 r1 xp c0 c1 :
  (yp, r0, r1) ∈ segments rc ny -> (xp, c0, c1) ∈ segments cc nx ->
  core_rect_ (make_partition g w nx ny id ((yp, r0, r1), (xp, c0, c1))) =
  GEORect (origin_x g + Z.of_nat c0 * bin_width g) (origin_y g + Z.of_nat r0 * bin_height g)
          (origin_x g + Z.of_nat c1 * bin_width g) (origin_y g + Z.of_nat r1 * bin_height g).
Proof using All.
  intros Hr Hc. apply (segment_bound _ _ _ Hr1 Hr3 Hr4) in Hr. apply (segment_bound _ _ _ Hc1 Hc3 Hc4) in Hc.
  destruct Hfit as (F1 & F2 & F3 & F4), Hg as [Hw Hh Hco Hro]. unfold fits, area in *. cbn in F1, F2, F3, F4.
  cbn [core_rect_ make_partition]. f_equal; apply s32_fits; unfold fits; nia.
Qed.

Lemma core_contains id yp r0 r1 xp c0 c1 p :
  (yp, r0, r1) ∈ segments rc ny -> (xp, c0, c1) ∈ segments cc nx ->
  contains (core_rect_ (make_partition g w nx ny id ((yp, r0, r1), (xp, c0, c1)))) p = true <->
  Z.of_nat c0 <= (x_ p - origin_x g) / bin_width g < Z.of_nat c1 /\
  Z.of_nat r0 <= (y_ p - origin_y g) / bin_height g < Z.of_nat r1.
Proof using All.
  intros Hr Hc. rewrite core_eq by done. unfold contains. cbn [x_low_ x_high_ y_low_ y_high_].
  rewrite !andb_true_iff, !Z.leb_le, !Z.ltb_lt. destruct Hg as [Hw Hh _ _].
  destruct (cell_of_point (origin_x g) (bin_width g) (x_ p) (Z.of_nat c0) Hw) as [-> _].
  destruct (cell_of_point (origin_x g) (bin_width g) (x_ p) (Z.of_nat c1) Hw) as [_ ->].
  destruct (cell_of_point (origin_y g) (bin_height g) (y_ p) (Z.of_nat r0) Hh) as [-> _].
  destruct (cell_of_point (origin_y g) (bin_height g) (y_ p) (Z.of_nat r1) Hh) as [_ ->]. tauto.
Qed.

Lemma area_contains p :
  contains (area g) p = true <->
  0 <= (x_ p - origin_x g) / bin_width g < cols g /\ 0 <= (y_ p - origin_y g) / bin_height g < rows g.
Proof using All.
  unfold contains, area. cbn [x_low_ x_high_ y_low_ y_high_]. rewrite !andb_true_iff, !Z.leb_le, !Z.ltb_lt.
  destruct Hg as [Hw Hh _ _].
  pose proof (cell_of_point (origin_x g) (bin_width g) (x_ p) 0 Hw). pose proof (cell_of_point (origin_x g) (bin_width g) (x_ p) (cols g) Hw).
  pose proof (cell_of_point (origin_y g) (bin_height g) (y_ p) 0 Hh). pose proof (cell_of_point (origin_y g) (bin_height g) (y_ p) (rows g) Hh). lia.
Qed.

Lemma partition_at i q :
  make_partitions g w nx ny cc rc !! i = Some q -> exists r c, pairs !! i = Some (r, c) /\
  r ∈ segments rc ny /\ c ∈ segments cc nx /\ q = make_partition g w nx ny i (r, c).
Proof using All.
  unfold make_partitions. fold pairs. rewrite list_lookup_imap. intros ([r c] & Hi & ->)%fmap_Some.
  exists r, c. split; [done|]. apply list_elem_of_lookup_2, elem_of_pairs in Hi as [? ?]. done.
Qed.

Lemma make_partitions_tile : tiles g (make_partitions g w nx ny cc rc).
Proof using All.
  split.
  - intros i q (r & c & _ & _ & _ & ->)%partition_at. by destruct r as [[? ?] ?], c as [[? ?] ?].
  - intros p Hp%area_contains. set (cx := (x_ p - origin_x g) / bin_width g) in *.
    set (cy := (y_ p - origin_y g) / bin_height g) in *.
    destruct (segment_of_column cc nx _ Hc1 Hc2 Hc3 (Z.to_nat cx) ltac:(lia)) as (xp & c0 & c1 & Hc & Hcc).
    destruct (segment_of_column rc ny _ Hr1 Hr2 Hr3 (Z.to_nat cy) ltac:(lia)) as (yp & r0 & r1 & Hr & Hrr).
    assert ((((yp, r0, r1), (xp, c0, c1))) ∈ pairs) as Hin by by apply elem_of_pairs.
    apply list_elem_of_lookup in Hin as [i Hi]. eexists i, _. split.
    + unfold make_partitions. fold pairs. rewrite list_lookup_imap, Hi. done.
    + apply core_contains; [done|done|]. fold cx cy. lia.
  - intros p i j q r (r1' & c1' & Hi & Hr & Hc & ->)%partition_at (r2' & c2' & Hj & Hr' & Hc' & ->)%partition_at.
    destruct r1' as [[y1 a1] b1], c1' as [[x1 d1] e1], r2' as [[y2 a2] b2], c2' as [[x2 d2] e2].
    rewrite !core_contains by done. intros [P1 P2] [P3 P4].
    pose proof (segment_unique cc nx Hc1 Hc4 (Z.to_nat ((x_ p - origin_x g) / bin_width g)) _ _ _ _ _ _ Hc Hc' ltac:(lia) ltac:(lia)).
    pose proof (segment_unique rc ny Hr1 Hr4 (Z.to_nat ((y_ p - origin_y g) / bin_height g)) _ _ _ _ _ _ Hr Hr' ltac:(lia) ltac:(lia)).
    apply (NoDup_lookup pairs i j ((y1, a1, b1), (x1, d1, e1)) pairs_NoDup); [done|congruence].
  - intros p i q (r & c & _ & Hr & Hc & ->)%partition_at. destruct r as [[y a] b], c as [[x d] e].
    rewrite core_contains, area_contains by done.
    apply (segment_bound _ _ _ Hr1 Hr3 Hr4) in Hr. apply (segment_bound _ _ _ Hc1 Hc3 Hc4) in Hc. lia.
Qed.

(** Every core lies in its extend rectangle. *)
Lemma core_in_extend i q p :
  0 <= w -> fits 32 (x_low_ (area g) - w) -> fits 32 (y_low_ (area g) - w) ->
  fits 32 (x_high_ (area g) + w) -> fits 32 (y_high_ (area g) + w) ->
  make_partitions g w nx ny cc rc !! i = Some q -> contains (core_rect_ q) p = true ->
  contains (extend_rect_ q) p = true.
Proof using All.
  intros Hw0 F1 F2 F3 F4 (r & c & _ & Hr & Hc & ->)%partition_at. destruct r as [[y a] b], c as [[x d] e].
  rewrite core_eq by done. apply (segment_bound _ _ _ Hr1 Hr3 Hr4) in Hr. apply (segment_bound _ _ _ Hc1 Hc3 Hc4) in Hc.
  destruct Hfit as (G1 & G2 & G3 & G4), Hg as [Hw Hh Hco Hro]. unfold fits, area in *. cbn in F1, F2, F3, F4, G1, G2, G3, G4.
  assert (Z.of_nat e * bin_width g <= cols g * bin_width g) by nia.
  assert (Z.of_nat b * bin_height g <= rows g * bin_height g) by nia.
  assert (0 <= Z.of_nat d * bin_width g) by nia. assert (0 <= Z.of_nat a * bin_height g) by nia.
  assert (Z.of_nat d * bin_width g <= Z.of_nat e * bin_width g) by nia.
  assert (Z.of_nat a * bin_height g <= Z.of_nat b * bin_height g) by nia.
  unfold contains. cbn [extend_rect_ make_partition x_low_ x_high_ y_low_ y_high_].
  rewrite !andb_true_iff, !Z.leb_le, !Z.ltb_lt. intros [[[P1 P2] P3] P4].
  rewrite !(s32_fits (origin_x g + Z.of_nat d * bin_width g)), !(s32_fits (origin_x g + Z.of_nat e * bin_width g)),
    !(s32_fits (origin_y g + Z.of_nat a * bin_height g)), !(s32_fits (origin_y g + Z.of_nat b * bin_height g)) by (unfold fits; lia).
  rewrite !(s32_fits (_ - w)), !(s32_fits (_ + w)) by (unfold fits; lia). unfold int_min, int_max.
  destruct (x =? 0)%nat, (y =? 0)%nat, (x =? nx - 1)%nat, (y =? ny - 1)%nat; lia.
Qed.
End tile.

(** ** The shape *)

(** The products of columns and rows cover what was asked for, and no row is spare. *)
Lemma grid_shape_ok u n cl rl :
  1 <= n < 2 ^ 32 -> exists nx ny, grid_shape u n cl rl = Some (nx, ny) /\
  1 <= nx <= n /\ 1 <= ny /\ nx * (ny - 1) < n <= nx * ny.
Proof.
  intros Hn. unfold grid_shape. set (raw := dsqrt _). set (c := Z.min (Z.max (llround u raw) 1) n).
  assert (1 <= c <= n) as Hc by (subst c; lia). clearbody c. rewrite (u32_small c) by lia.
  rewrite (proj2 (Z.eqb_neq c 0)) by lia. exists c, (Z.quot (n + c - 1) c).
  rewrite Z.quot_div_nonneg by lia.
  pose proof (Z.mul_div_le (n + c - 1) c ltac:(lia)). pose proof (Z.mul_succ_div_gt (n + c - 1) c ltac:(lia)).
  assert (1 <= (n + c - 1) / c) by (apply Z.div_le_lower_bound; lia).
  assert ((n + c - 1) / c <= n) by nia.
  rewrite u32_small by lia. split; [done|]. split; [done|]. split; [done|]. nia.
Qed.

Lemma stoi_fits s v k : stoi s = Some (v, k) -> fits 32 v.
Proof.
  unfold stoi. destruct (match skip_spaces s with [] => _ | _ => _ end) as [neg s2].
  destruct s2 as [|b s2]; [done|]. destruct (digit b); [|done]. destruct (digits 0 (b :: s2)) as [d rest].
  case_decide; [|done]. by intros [= <- <-].
Qed.

Lemma parse_target_ok s nx ny : parse_target_partitions s = Some (nx, ny) -> 1 <= nx < 2 ^ 31 /\ 1 <= ny < 2 ^ 31.
Proof.
  unfold parse_target_partitions. destruct (fst <$> _) as [pos|]; [|done]. destruct (_ || _); [done|].
  destruct (stoi s) as [[xv cx]|] eqn:Ex; [|done]. cbn [mbind option_bind]. destruct (negb _); [done|].
  destruct (stoi (drop _ s)) as [[yv cy]|] eqn:Ey; [|done]. cbn [mbind option_bind]. destruct (negb _); [done|].
  apply stoi_fits in Ex, Ey. unfold fits in Ex, Ey.
  destruct (Z.leb_spec xv 0), (Z.leb_spec yv 0); cbn [orb]; try done.
  intros [= <- <-]. rewrite !u32_small by lia. lia.
Qed.

(** The quotient whose ceiling is the number of partitions when only a density is given. *)
Definition density_quotient (load : CompositeLoad) (td : Z) : double :=
  ddiv (l_total load) (of_Z (if td <=? 0 then kDefaultPartitionTargetDensity else td)).

Definition cells_fit (load : CompositeLoad) : Prop :=
  Z.of_nat (length (col_load load)) * Z.of_nat (length (row_load load)) < 2 ^ 32.

Lemma partition_shape_ok u load tp pc td nx ny :
  pc < 2 ^ 31 -> cells_fit load -> partition_shape u load tp pc td = Some (nx, ny) -> 1 <= nx /\ 1 <= ny.
Proof.
  intros Hpc Hcells. unfold partition_shape. destruct (dleb _ _); [intros [= <- <-]; lia|].
  destruct (if decide (tp = []) then _ else _) as [[a b]|] eqn:Et.
  { intros [= <- <-]. case_decide; [done|]. apply parse_target_ok in Et. lia. }
  destruct (Z.ltb_spec 0 pc) as [Hp|Hp].
  - destruct (pc =? 1); [intros [= <- <-]; lia|].
    destruct (grid_shape_ok u pc (col_load load) (row_load load) ltac:(lia)) as (a & b & -> & H). intros [= <- <-]. lia.
  - destruct (ceil_i64 _) as [c|]; [|done]. cbn [mbind option_bind]. set (n := Z.min _ _).
    destruct (Z.leb_spec n 1); [intros [= <- <-]; lia|].
    destruct (grid_shape_ok u n (col_load load) (row_load load)) as (a & b & -> & H1).
    + split; [lia|]. unfold cells_fit in Hcells. subst n. lia.
    + intros [= <- <-]. lia.
Qed.

Lemma partition_shape_total u load tp pc td :
  pc < 2 ^ 31 -> cells_fit load -> 0 < pc \/ is_Some (ceil_i64 (density_quotient load td)) ->
  is_Some (partition_shape u load tp pc td).
Proof.
  intros Hpc Hcells Hq. unfold partition_shape, density_quotient in *. destruct (dleb _ _); [done|].
  destruct (if decide (tp = []) then _ else _) as [[a b]|]; [done|].
  destruct (Z.ltb_spec 0 pc) as [Hp|Hp].
  - destruct (pc =? 1); [done|].
    destruct (grid_shape_ok u pc (col_load load) (row_load load) ltac:(lia)) as (a & b & -> & _). done.
  - destruct Hq as [Hq|[c Hc]]; [lia|]. rewrite Hc. cbn [mbind option_bind]. set (n := Z.min _ _).
    destruct (Z.leb_spec n 1); [done|].
    destruct (grid_shape_ok u n (col_load load) (row_load load)) as (a & b & -> & _); [|done].
    unfold cells_fit in Hcells. subst n. lia.
Qed.

(** ** The loads *)

Lemma project_lengths cols ps l :
  length (col_load (foldl (project cols) l ps)) = length (col_load l) /\
  length (row_load (foldl (project cols) l ps)) = length (row_load l).
Proof.
  revert l. induction ps as [|[i v] ps IH]; intros l; [done|]. cbn [foldl].
  destruct (IH (project cols l (i, v))) as [-> ->]. cbn [project col_load row_load].
  by rewrite !length_alter.
Qed.

Lemma add_channel_length cells counts w cells' : add_channel cells counts w = Some cells' -> length cells' = length cells.
Proof.
  unfold add_channel. destruct (deqb w dzero); [by intros [= <-]|]. case_decide; [|done].
  intros [= <-]. rewrite length_zip_with. lia.
Qed.

Lemma add_channel_total cells counts w : (length cells <= length counts)%nat -> is_Some (add_channel cells counts w).
Proof. intros H. unfold add_channel. destruct (deqb _ _); [done|]. by rewrite decide_True. Qed.

Lemma add_layers_total (f : N -> double) n ls cells :
  length cells = n -> Forall (fun e => n <= length (e.2 : list Z))%nat ls ->
  exists cells', ofold_option (fun cells e => add_channel cells e.2 (f e.1)) ls cells = Some cells' /\ length cells' = n.
Proof.
  intros Hn Hls. revert cells Hn. induction Hls as [|[l ch] ls He _ IH]; intros cells Hn; cbn [ofold_option]; [by exists cells|].
  destruct (add_channel_total cells ch (f l)) as [c' Hc]; [by rewrite Hn|]. cbn [fst snd]. rewrite Hc. cbn [mbind option_bind].
  apply IH. apply add_channel_length in Hc. lia.
Qed.

Section load.
Context (order : gmap N (list Z) -> list (N * list Z)) (unspecified : Z).
(** The traversals visit entries of the map. *)
Context (Horder : forall m e, e ∈ order m -> m !! e.1 = Some e.2).
Context (g : DSDensityGrid) (Hg : grid_ok g).

Definition channels_ok : Prop :=
  channel_ok g (counts_ g) /\ (forall l ch, metal_layer_counts_ g !! l = Some ch -> channel_ok g ch) /\
  (forall l ch, via_layer_counts_ g !! l = Some ch -> channel_ok g ch).

Lemma order_channels (m : gmap N (list Z)) :
  (forall l ch, m !! l = Some ch -> channel_ok g ch) ->
  Forall (fun e => Z.to_nat (cols g * rows g) <= length (e.2 : list Z))%nat (order m).
Proof using Horder.
  intros H. apply Forall_forall. intros [l ch] He%Horder. apply H in He. unfold channel_ok in He. cbn [fst snd] in *. by rewrite He.
Qed.

Lemma compose_load_total w : channels_ok -> is_Some (compose_load order g w).
Proof using Horder.
  intros (H1 & H2 & H3). unfold compose_load. set (n := Z.to_nat (cols g * rows g)).
  destruct (add_channel_total (replicate n dzero) (counts_ g) (w_instance w)) as [c1 E1].
  { rewrite length_replicate. unfold channel_ok in H1. lia. }
  rewrite E1. cbn [mbind option_bind]. apply add_channel_length in E1. rewrite length_replicate in E1.
  destruct (add_layers_total (fun l => dmul (w_metal w) (layer_factor w l)) n (order (metal_layer_counts_ g)) c1 E1)
    as (c2 & E2 & L2); [by apply order_channels|]. rewrite E2. cbn [mbind option_bind].
  destruct (add_layers_total (fun l => dmul (w_via w) (layer_factor w l)) n (order (via_layer_counts_ g)) c2 L2)
    as (c3 & E3 & L3); [by apply order_channels|]. rewrite E3. cbn [mbind option_bind]. done.
Qed.

Lemma compose_load_lengths w load :
  compose_load order g w = Some load ->
  length (col_load load) = Z.to_nat (cols g) /\ length (row_load load) = Z.to_nat (rows g).
Proof.
  unfold compose_load. intros (c1 & _ & (c2 & _ & (c3 & _ & [= <-])%bind_Some)%bind_Some)%bind_Some.
  destruct (project_lengths (Z.to_nat (cols g)) (imap pair c3) {| l_cells := c3; col_load := replicate (Z.to_nat (cols g)) dzero;
       row_load := replicate (Z.to_nat (rows g)) dzero; l_total := dzero |}) as [-> ->].
  cbn [col_load row_load]. by rewrite !length_replicate.
Qed.
End load.

(** ** The decision *)

Lemma decide_partitions_cuts order u g stack w tp pc td ps :
  grid_ok g -> cols g * rows g < 2 ^ 32 -> pc < 2 ^ 31 ->
  ds_decide_partitions order u g stack w tp pc td = Some ps ->
  exists nx ny cl rl, (1 <= nx)%nat /\ (1 <= ny)%nat /\ length cl = Z.to_nat (cols g) /\ length rl = Z.to_nat (rows g) /\
  ps = make_partitions g (2 * w_eff stack g) nx ny (prefix_cuts cl nx) (prefix_cuts rl ny).
Proof.
  intros Hg Hcells Hpc. unfold ds_decide_partitions. destruct Hg as [_ _ Hc Hr].
  rewrite (proj2 (Z.eqb_neq (cols g) 0)), (proj2 (Z.eqb_neq (rows g) 0)) by lia. cbn [orb].
  intros (load & El & ([nx ny] & Es & [= <-])%bind_Some)%bind_Some. apply compose_load_lengths in El as [L1 L2].
  apply partition_shape_ok in Es as [H1 H2]; [|done|unfold cells_fit; rewrite L1, L2; lia].
  exists (Z.to_nat nx), (Z.to_nat ny), (col_load load), (row_load load).
  split; [lia|]. split; [lia|]. done.
Qed.

Definition margin_fits (g : DSDensityGrid) (w : Z) : Prop :=
  0 <= w /\ fits 32 (x_low_ (area g) - w) /\ fits 32 (y_low_ (area g) - w) /\
  fits 32 (x_high_ (area g) + w) /\ fits 32 (y_high_ (area g) + w).

Lemma decided_tile order u g stack w tp pc td ps :
  grid_ok g -> area_fits g -> cols g * rows g < 2 ^ 32 -> pc < 2 ^ 31 ->
  ds_decide_partitions order u g stack w tp pc td = Some ps ->
  tiles g ps /\
  (margin_fits g (2 * w_eff stack g) -> forall i q p, ps !! i = Some q ->
     contains (core_rect_ q) p = true -> contains (extend_rect_ q) p = true).
Proof.
  intros Hg Hfit Hcells Hpc H.
  destruct (decide_partitions_cuts _ _ _ _ _ _ _ _ _ Hg Hcells Hpc H) as (nx & ny & cl & rl & Hx & Hy & L1 & L2 & ->).
  destruct (prefix_cuts_ok cl nx Hx) as (A1 & A2 & A3 & A4), (prefix_cuts_ok rl ny Hy) as (B1 & B2 & B3 & B4).
  rewrite L1 in A3. rewrite L2 in B3. split; [by apply make_partitions_tile|].
  intros (M1 & M2 & M3 & M4 & M5) i q p Hq Hp.
  by apply (core_in_extend g Hg Hfit (2 * w_eff stack g) nx ny (prefix_cuts cl nx) (prefix_cuts rl ny)
    A1 A2 A3 A4 B1 B2 B3 B4 i q p).
Qed.

Lemma decide_partitions_total order u g stack w tp pc td :
  (forall m e, e ∈ order m -> m !! e.1 = Some e.2) -> grid_ok g -> cols g * rows g < 2 ^ 32 -> pc < 2 ^ 31 ->
  channels_ok g ->
  (forall load, compose_load order g w = Some load -> 0 < pc \/ is_Some (ceil_i64 (density_quotient load td))) ->
  is_Some (ds_decide_partitions order u g stack w tp pc td).
Proof.
  intros Ho Hg Hcells Hpc Hch Hq. unfold ds_decide_partitions. destruct (_ || _); [done|].
  destruct (compose_load_total order Ho g w Hch) as [load El]. rewrite El. cbn [mbind option_bind].
  destruct Hg as [_ _ Hc Hr]. destruct (compose_load_lengths _ _ _ _ El) as [L1 L2].
  destruct (partition_shape_total u load tp pc td Hpc) as [[nx ny] Es]; [|by apply Hq|by rewrite Es].
  unfold cells_fit. rewrite L1, L2. lia.
Qed.

(** C15: [ds_decide_partitions] returns, for any weights and loads, any requested shape
    and any traversal order of the layers, whenever a partition count is given or the
    quotient of the total load by the target density is a 64-bit number; and the
    partitions it returns are numbered by their position, their cores tile the die
    (each point of the die lies in exactly one core and no core leaves the die), and
    each core lies in its extend rectangle unless the margin leaves the 32-bit range.
    The shape may have more columns or rows than the grid has, the loads may be all on
    one column: the empty segments are dropped without breaking the tiling. *)
Theorem partitions_tile order u g stack w tp pc td :
  (forall m e, e ∈ order m -> m !! e.1 = Some e.2) ->
  grid_ok g -> area_fits g -> channels_ok g -> cols g * rows g < 2 ^ 32 -> pc < 2 ^ 31 ->
  ((forall load, compose_load order g w = Some load -> 0 < pc \/ is_Some (ceil_i64 (density_quotient load td))) ->
   is_Some (ds_decide_partitions order u g stack w tp pc td)) /\
  forall ps, ds_decide_partitions order u g stack w tp pc td = Some ps ->
    tiles g ps /\
    (margin_fits g (2 * w_eff stack g) -> forall i q p, ps !! i = Some q ->
       contains (core_rect_ q) p = true -> contains (extend_rect_ q) p = true).
Proof.
  intros Ho Hg Hf Hch Hc Hpc. split; [by apply decide_partitions_total|].
  intros ps. by apply decided_tile.
Qed.

(** * Samples *)

Definition any_order : gmap N (list Z) -> list (N * list Z) := map_to_list.
Lemma any_order_ok m e : e ∈ any_order m -> m !! e.1 = Some e.2.
Proof. destruct e as [l ch]. apply elem_of_map_to_list. Qed.

Definition cut_of (g : DSDensityGrid) (shape : bytes) (count : Z) : option (list (GEORectT * GEORectT)) :=
  option_map (map (fun q => (core_rect_ q, extend_rect_ q)))
    (ds_decide_partitions any_order 0 g new_stack default_weights shape count 0).

(** Eleven instances over four cells: nine of them on the first. *)
Example cut_by_load :
  cut_of (sample_grid 4 [9; 1; 1; 0]) [] 2 =
  Some [(GEORect 0 0 40 40, GEORect int_min int_min 40 int_max); (GEORect 40 0 160 40, GEORect 40 int_min int_max int_max)].
Proof. vm_compute. reflexivity. Qed.

(** "3x1": the load of the last column takes the cuts past it. *)
Example cut_by_shape :
  cut_of (sample_grid 4 [1; 1; 1; 0]) [Byte.x33; Byte.x78; Byte.x31] 0 =
  Some [(GEORect 0 0 40 40, GEORect int_min int_min 40 int_max); (GEORect 40 0 80 40, GEORect 40 int_min 80 int_max);
        (GEORect 80 0 160 40, GEORect 80 int_min int_max int_max)].
Proof. vm_compute. reflexivity. Qed.

(** When the load ends on the last column the last segment is empty; the last
    partition that is made is not the last of the shape, and its extend rectangle
    stops at the border of the die. *)
Lemma trailing_segment_closed :
  cut_of (sample_grid 2 [0; 1]) [Byte.x32; Byte.x78; Byte.x31] 0 =
  Some [(GEORect 0 0 80 40, GEORect int_min int_min 80 int_max)].
Proof. vm_compute. reflexivity. Qed.

Lemma partitions_tile_witness : exists ps,
  ds_decide_partitions any_order 0 (sample_grid 4 [9; 1; 1; 0]) new_stack default_weights [] 2 0 = Some ps /\
  tiles (sample_grid 4 [9; 1; 1; 0]) ps /\ length ps = 2%nat.
Proof.
  destruct (partitions_tile any_order 0 (sample_grid 4 [9; 1; 1; 0]) new_stack default_weights [] 2 0) as [H1 H2].
  - intros m e. apply any_order_ok.
  - by apply sample_grid_ok.
  - unfold area_fits, area, fits; cbn; lia.
  - split; [reflexivity|]. split; intros l ch H; cbn in H; by rewrite lookup_empty in H.
  - cbn. lia.
  - lia.
  - destruct H1 as [ps E]; [by left|]. exists ps. split; [exact E|]. split; [by apply H2|].
    apply (f_equal (fun o => length <$> o)) in E. vm_compute in E. by injection E.
Defined.
