(* ===== verification/Flatten.v ===== *)
(** Flattening the hierarchy into partitions (emir/design/cpp/ds_flatten.h,
    ds_flatten.cpp) and the slices of the id maps (ds_id_map.cpp).

    Every block is expanded once: for each of its occurrences in the tree its
    instances, nets and obstructions are placed in the coordinates of the design
    and copied into every partition they touch.  An instance belongs to the
    partitions whose extend rectangle contains its placement, and one of them is
    its primary partition.  The expansions of all blocks are then merged partition
    by partition.  Hash tables are maps; where the order of a traversal shows in a
    list, it is an argument.  Warnings and their counter are not modelled.  An
    overflow of a 64-bit coordinate is [None]. *)

From stdpp Require Import base gmap list sets fin_maps sorting.
From Stdlib Require Import ZArith NArith Lia.
From S2P Require Import Prelude Bytes NameHasher Geometry BlockData DesignTables HierTree IdMap Density Partition.
Import Corelib.Init.Datatypes(nat(..)) Corelib.Numbers.BinNums(N(..)).
#[local] Open Scope Z_scope.

(** * Points and rectangles *)

Definition fits_i32 (v : Z) : bool := (- 2 ^ 31 <=? v) && (v <=? 2 ^ 31 - 1).

Definition to_i32_rect (r : GEORectT) : option GEORectT :=
  if negb (fits_i32 (x_low_ r)) || negb (fits_i32 (y_low_ r)) || negb (fits_i32 (x_high_ r)) || negb (fits_i32 (y_high_ r))
  then None else Some r.

Definition overlaps_extend (r e : GEORectT) : bool :=
  (x_low_ r <? x_high_ e) && (x_low_ e <? x_high_ r) && (y_low_ r <? y_high_ e) && (y_low_ e <? y_high_ r).

Record PointAssignment := { primary : N; copies : list N }.

Definition kDistCap : Z := 2 ^ 30.

(** The distance of a coordinate to an interval, capped. *)
Definition axis_distance (v low high : Z) : option Z :=
  d ← (if v <? low then chk 64 (low - v) else d ← chk 64 (v - high); Some (Z.max d 0));
  Some (Z.min d kDistCap).

Definition distance2 (p : GEOPointT) (core : GEORectT) : option Z :=
  dx ← axis_distance (x_ p) (x_low_ core) (x_high_ core);
  dy ← axis_distance (y_ p) (y_low_ core) (y_high_ core);
  xx ← chk 64 (dx * dx); yy ← chk 64 (dy * dy);
  chk 64 (xx + yy).

(** The first core that contains the point, the nearest core with its squared
    distance (the first of the nearest) and the extend rectangles with the point. *)
Record point_scan := { core_hit : option N; best : Z * N; in_extend : list N }.

Definition scan_partition (p : GEOPointT) (s : point_scan) (e : nat * DSSubPartition) : option point_scan :=
  let i := N.of_nat e.1 in
  let core := core_rect_ e.2 in
  d2 ← distance2 p core;
  Some {| core_hit := match core_hit s with
                      | Some h => Some h
                      | None => if contains core p then Some i else None
                      end;
          best := if d2 <? (best s).1 then (d2, i) else best s;
          in_extend := if contains (extend_rect_ e.2) p then in_extend s ++ [i] else in_extend s |}.

Definition assign_point (p : GEOPointT) (parts : list DSSubPartition) : option PointAssignment :=
  s ← ofold_option (scan_partition p) (imap pair parts)
        {| core_hit := None; best := (2 ^ 63 - 1, 0%N); in_extend := [] |};
  let primary := match core_hit s with Some i => i | None => (best s).2 end in
  let copies := if decide (primary ∈ in_extend s) then in_extend s else in_extend s ++ [primary] in
  Some {| primary := primary; copies := merge_sort N.le copies |}.

(** * The products *)

(** The flags of a connection: port, driver, receiver, power, ground, clock. *)
Record ConnFlags := { f_port : bool; f_driver : bool; f_receiver : bool; f_power : bool; f_ground : bool; f_clock : bool }.
Definition flags_of (c : DSNetConnection) : ConnFlags :=
  {| f_port := conn_port c; f_driver := conn_driver c; f_receiver := conn_receiver c;
     f_power := conn_power c; f_ground := conn_ground c; f_clock := conn_clock c |}.

Record DSNetConnEntry := { e_inst_id_ : N; e_pin_id_ : N; e_flags_ : ConnFlags }.
Record DSPartConnection := { c_inst_id_ : N; c_net_global_id_ : N; c_pin_id_ : N; c_flags_ : ConnFlags }.

Record DSGeomEntry := { g_layer_id_ : N; g_rect_ : GEORectT; g_via_cell_id_ : N; g_obs : bool; g_primary : bool }.
Definition kNoViaCell : N := kInvalidId table_bits.
Definition is_via (e : DSGeomEntry) : bool := is_valid_id table_bits (g_via_cell_id_ e).

Record DSPartitionGeometry := { geo_nets_ : gmap N (list DSGeomEntry); crossing_nets_ : gset N }.
Definition new_geometry : DSPartitionGeometry := {| geo_nets_ := ∅; crossing_nets_ := ∅ |}.
Definition add_entry (net : N) (e : DSGeomEntry) (g : DSPartitionGeometry) : DSPartitionGeometry :=
  {| geo_nets_ := push_at net e (geo_nets_ g); crossing_nets_ := crossing_nets_ g |}.
Definition mark_crossing (net : N) (g : DSPartitionGeometry) : DSPartitionGeometry :=
  {| geo_nets_ := geo_nets_ g; crossing_nets_ := {[net]} ∪ crossing_nets_ g |}.
Definition is_crossing (g : DSPartitionGeometry) (net : N) : bool := bool_decide (net ∈ crossing_nets_ g).
Definition entries_of (g : DSPartitionGeometry) (net : N) : option (list DSGeomEntry) := geo_nets_ g !! net.
Definition net_entries (g : DSPartitionGeometry) (net : N) : list DSGeomEntry :=
  filter (fun e => g_obs e = false) (default [] (entries_of g net)).
Definition obs_entries (g : DSPartitionGeometry) : list DSGeomEntry :=
  filter (fun e => g_obs e = true) (default [] (entries_of g 0%N)).

Record DSNet := { net_id_ : N; use_ : DSNetUse; net_connections_ : list DSNetConnEntry }.
Record DSPartitionNets := { part_id_ : N; nets_ : gmap N DSNet }.
Definition no_partition : N := kInvalidId table_bits.
Definition new_partition_nets : DSPartitionNets := {| part_id_ := no_partition; nets_ := ∅ |}.
Definition net_of (ns : DSPartitionNets) (net : N) : option DSNet := nets_ ns !! net.

Record DSPartitionProduct := {
  p_instances : gmap N DSInstance;
  p_inst_connections : gmap N (list DSPartConnection);
  p_nets : DSPartitionNets;
  p_nets_pg : DSPartitionNets;
  p_geometry : DSPartitionGeometry;
  p_geometry_pg : DSPartitionGeometry;
}.
Definition new_product : DSPartitionProduct :=
  {| p_instances := ∅; p_inst_connections := ∅; p_nets := new_partition_nets; p_nets_pg := new_partition_nets;
     p_geometry := new_geometry; p_geometry_pg := new_geometry |}.

Definition set_instances (f : gmap N DSInstance -> gmap N DSInstance) (p : DSPartitionProduct) : DSPartitionProduct :=
  {| p_instances := f (p_instances p); p_inst_connections := p_inst_connections p; p_nets := p_nets p;
     p_nets_pg := p_nets_pg p; p_geometry := p_geometry p; p_geometry_pg := p_geometry_pg p |}.
Definition set_inst_connections (f : gmap N (list DSPartConnection) -> gmap N (list DSPartConnection))
    (p : DSPartitionProduct) : DSPartitionProduct :=
  {| p_instances := p_instances p; p_inst_connections := f (p_inst_connections p); p_nets := p_nets p;
     p_nets_pg := p_nets_pg p; p_geometry := p_geometry p; p_geometry_pg := p_geometry_pg p |}.
(** The nets and the geometry of the power (and ground) or of the signal side. *)
Definition set_nets (pg : bool) (f : DSPartitionNets -> DSPartitionNets) (p : DSPartitionProduct) : DSPartitionProduct :=
  {| p_instances := p_instances p; p_inst_connections := p_inst_connections p;
     p_nets := if pg then p_nets p else f (p_nets p); p_nets_pg := if pg then f (p_nets_pg p) else p_nets_pg p;
     p_geometry := p_geometry p; p_geometry_pg := p_geometry_pg p |}.
Definition set_geometry (pg : bool) (f : DSPartitionGeometry -> DSPartitionGeometry) (p : DSPartitionProduct)
  : DSPartitionProduct :=
  {| p_instances := p_instances p; p_inst_connections := p_inst_connections p; p_nets := p_nets p; p_nets_pg := p_nets_pg p;
     p_geometry := if pg then p_geometry p else f (p_geometry p);
     p_geometry_pg := if pg then f (p_geometry_pg p) else p_geometry_pg p |}.

(** ** Merging *)

Definition append_lists {A} (dst src : gmap N (list A)) : gmap N (list A) :=
  union_with (fun d s => Some (d ++ s)) dst src.

Definition merge_net (d s : DSNet) : DSNet :=
  {| net_id_ := net_id_ s; use_ := use_ s; net_connections_ := net_connections_ d ++ net_connections_ s |}.
Definition merge_nets (dst src : DSPartitionNets) : DSPartitionNets :=
  {| part_id_ := if is_valid_id table_bits (part_id_ src) then part_id_ src else part_id_ dst;
     nets_ := union_with (fun d s => Some (merge_net d s)) (nets_ dst) (nets_ src) |}.
Definition merge_geometry (dst src : DSPartitionGeometry) : DSPartitionGeometry :=
  {| geo_nets_ := append_lists (geo_nets_ dst) (geo_nets_ src);
     crossing_nets_ := crossing_nets_ src ∪ crossing_nets_ dst |}.

(** [merge_from]: instances of the source replace those of the same id. *)
Definition merge_from (src dst : DSPartitionProduct) : DSPartitionProduct :=
  {| p_instances := p_instances src ∪ p_instances dst;
     p_inst_connections := append_lists (p_inst_connections dst) (p_inst_connections src);
     p_nets := merge_nets (p_nets dst) (p_nets src);
     p_nets_pg := merge_nets (p_nets_pg dst) (p_nets_pg src);
     p_geometry := merge_geometry (p_geometry dst) (p_geometry src);
     p_geometry_pg := merge_geometry (p_geometry_pg dst) (p_geometry_pg src) |}.

(** ** The list of products

    [out] with [product_index]: a product is made when its partition is first
    touched. *)
Definition products := list (N * DSPartitionProduct).

Definition fresh_product (pid : N) : DSPartitionProduct :=
  set_nets true (fun ns => {| part_id_ := pid; nets_ := nets_ ns |})
    (set_nets false (fun ns => {| part_id_ := pid; nets_ := nets_ ns |}) new_product).

(** [f(product_for(pid))]. *)
Fixpoint update_product (pid : N) (f : DSPartitionProduct -> DSPartitionProduct) (out : products) : products :=
  match out with
  | [] => [(pid, f (fresh_product pid))]
  | (k, p) :: out => if decide (k = pid) then (k, f p) :: out else (k, p) :: update_product pid f out
  end.

Fixpoint product_of (pid : N) (out : products) : option DSPartitionProduct :=
  match out with
  | [] => None
  | (k, p) :: out => if decide (k = pid) then Some p else product_of pid out
  end.

(** * Expanding a block *)

Section flatten.
Context {B : Type} `{!DSNameBackend B}.
(** The orders of the traversals of hash tables. *)
Context (order_conns : gmap N (list DSNetConnection) -> list (N * list DSNetConnection)).
Context (order_insts : gmap N DSInstance -> list (N * DSInstance)).
Context (order_nets : gset N -> list N).
Context (design : DSDesign) (block : DSBlockBuildData B) (nets : DSNetBuildData) (parts : list DSSubPartition).

(** ** One occurrence *)

Section occurrence.
Context (node : DSHierNode).
#[local] Notation t := (composite_transform_ node).

Definition endpoint (c : DSNetConnection) : N :=
  if conn_port c then self_global_id_ node else (instance_start_ node + instance_local_id_ c)%N.

Definition make_connection (c : DSNetConnection) (global_net : N) : DSPartConnection :=
  {| c_inst_id_ := endpoint c; c_net_global_id_ := global_net; c_pin_id_ := pin_id_ c; c_flags_ := flags_of c |}.

(** The connections by local instance; 0 collects those of the block's own ports. *)
Definition bucket_connection (global_net : N) (bucket : gmap N (list DSPartConnection)) (c : DSNetConnection)
  : gmap N (list DSPartConnection) :=
  let pc := make_connection c global_net in
  push_at (if f_port (c_flags_ pc) then 0%N else (c_inst_id_ pc - instance_start_ node)%N) pc bucket.

Definition conn_bucket : gmap N (list DSPartConnection) :=
  foldl (fun bucket e => foldl (bucket_connection (net_start_ node + e.1)%N) bucket e.2) ∅ (order_conns (connections_ nets)).

(** The copy of an instance for a partition; coordinates beyond 32 bits are cut off. *)
Definition instance_copy (inst : DSInstance) (g : GEOTransformT) (is_primary : bool) : DSInstance :=
  {| cell_id_ := cell_id_ inst;
     transform_ := GEOTransform (GEOPoint (s32 (x_ (offset_ g))) (s32 (y_ (offset_ g)))) (orient_ g);
     placement_status_ := placement_status_ inst;
     primary_ := is_primary || primary_ inst |}.

(** [operator[]], which creates an empty list, and an insertion at the end. *)
Definition append_at {A} (k : N) (l : list A) (m : gmap N (list A)) : gmap N (list A) :=
  <[k := default [] (m !! k) ++ l]> m.

Definition put_copy (bucket : gmap N (list DSPartConnection)) (local : N) (inst : DSInstance) (g : GEOTransformT)
    (primary : N) (out : products) (pid : N) : products :=
  let global := (instance_start_ node + local)%N in
  let out := update_product pid (set_instances (<[global := instance_copy inst g (bool_decide (pid = primary))]>)) out in
  match bucket !! local with
  | Some conns => update_product pid (set_inst_connections (append_at global conns)) out
  | None => out
  end.

Definition place_instance (bucket : gmap N (list DSPartConnection)) (out : products) (e : N * DSInstance) : option products :=
  let '(local, inst) := e in
  if (local =? 0)%N then Some out else
  if decide (placement_status_ inst = UNPLACED) then Some out else
  g ← compose 64 t (transform_ inst);
  pa ← assign_point (offset_ g) parts;
  Some (foldl (put_copy bucket local inst g (primary pa)) out (copies pa)).

Definition place_self (bucket : gmap N (list DSPartConnection)) (self : PointAssignment) (out : products) : products :=
  match bucket !! 0%N with
  | Some conns =>
      foldl (fun out pid => update_product pid (set_inst_connections (append_at (self_global_id_ node) conns)) out)
        out (copies self)
  | None => out
  end.

(** *** Geometry *)

(** A rectangle to spread, with the partition that owns the via it belongs to. *)
Record shape := { sh_rect : GEORectT; sh_layer : N; sh_via : N; sh_primary : option N }.

(** A rectangle whose corners are computed in 64 bits. *)
Definition rect64 (xl yl xh yh : Z) : option GEORectT :=
  xl ← chk 64 xl; yl ← chk 64 yl; xh ← chk 64 xh; yh ← chk 64 yh; Some (GEORect xl yl xh yh).

Definition wire_segment (half_w : Z) (p0 p1 : GEOPointT) : option GEORectT :=
  rect64 (Z.min (x_ p0) (x_ p1) - half_w) (Z.min (y_ p0) (y_ p1) - half_w)
         (Z.max (x_ p0) (x_ p1) + half_w) (Z.max (y_ p0) (y_ p1) + half_w).

Definition place_shape (layer via : N) (primary : option N) (r : GEORectT) : option shape :=
  r ← apply_box 64 t r; Some {| sh_rect := r; sh_layer := layer; sh_via := via; sh_primary := primary |}.

Definition wire_shapes (w : DSNetWire) : option (list shape) :=
  mapM (fun e => seg ← wire_segment (wire_width_ w ÷ 2) e.1 e.2; place_shape (wire_layer_id_ w) kNoViaCell None seg)
    (zip (wire_points_ w) (drop 1 (wire_points_ w))).

Definition rect_shape (r : DSNetRect) : option shape := place_shape (rect_layer_id_ r) kNoViaCell None (net_rect_ r).

Definition moved (v : GEOPointT) (r : GEORectT) : option GEORectT :=
  rect64 (x_low_ r + x_ v) (y_low_ r + y_ v) (x_high_ r + x_ v) (y_high_ r + y_ v).

(** A via that cannot be resolved is skipped. *)
Definition via_shapes (via_id : N) : option (list shape) :=
  match (vi ← via_instances_ nets !! via_id; vc ← via_cells_ design !! N.to_nat (via_cell_id_ vi); Some (vi, vc)) with
  | None => Some []
  | Some (vi, vc) =>
      pos ← apply 64 t (via_pos_ vi);
      pa ← assign_point pos parts;
      let cut_layer := if is_valid_id table_bits (cut_layer_id_ vc) then cut_layer_id_ vc else bottom_layer_id_ vc in
      let group layer rs := mapM (fun r => local ← moved (via_pos_ vi) r; place_shape layer (via_cell_id_ vi) (Some (primary pa)) local) rs in
      cuts ← group cut_layer (cut_rects_ vc);
      bottom ← group (bottom_layer_id_ vc) (bottom_enclosure_ vc);
      top ← group (top_layer_id_ vc) (top_enclosure_ vc);
      Some (cuts ++ bottom ++ top)
  end.

Definition net_shapes (local_net : N) : option (list shape) :=
  ws ← mapM wire_shapes (default [] (wires_ nets !! local_net));
  rs ← mapM rect_shape (default [] (rects_ nets !! local_net));
  vs ← mapM via_shapes (default [] (net_via_ids_ nets !! local_net));
  Some (concat ws ++ rs ++ concat vs).

(** [spread_rect]: an entry in every partition whose extend rectangle is touched; what
    does not fit 32 bits is dropped.  [hits] are the partitions with an entry. *)
Definition spread_one (pg : bool) (global_net : N) (s : shape) (st : products * gset N) (e : nat * DSSubPartition)
  : products * gset N :=
  let '(out, hits) := st in
  let pid := N.of_nat e.1 in
  if overlaps_extend (sh_rect s) (extend_rect_ e.2) then
    match to_i32_rect (sh_rect s) with
    | None => st
    | Some r =>
        let entry := {| g_layer_id_ := sh_layer s; g_rect_ := r; g_via_cell_id_ := sh_via s; g_obs := false;
                        g_primary := bool_decide (sh_primary s = Some pid) |} in
        (update_product pid (set_geometry pg (add_entry global_net entry)) out, {[pid]} ∪ hits)
    end
  else st.

Definition spread_rect (pg : bool) (global_net : N) (st : products * gset N) (s : shape) : products * gset N :=
  foldl (spread_one pg global_net s) st (imap pair parts).

Definition mark_crossings (pg : bool) (global_net : N) (hits : gset N) (out : products) : products :=
  if decide (1 < size hits)%nat then
    foldl (fun out pid => update_product pid (set_geometry pg (mark_crossing global_net)) out) out (elements hits)
  else out.

(** *** Nets *)

(** An entry of the net with the partitions that hold its endpoint. *)
Definition conn_entry (self : PointAssignment) (c : DSNetConnection) : option (DSNetConnEntry * list N) :=
  let e := {| e_inst_id_ := endpoint c; e_pin_id_ := pin_id_ c; e_flags_ := flags_of c |} in
  if f_port (e_flags_ e) then Some (e, copies self) else
  match instances_ block !! (e_inst_id_ e - instance_start_ node)%N with
  | Some inst =>
      if decide (placement_status_ inst = UNPLACED) then Some (e, []) else
      g ← compose 64 t (transform_ inst);
      pa ← assign_point (offset_ g) parts;
      Some (e, copies pa)
  | None => Some (e, [])
  end.

Definition put_net (pg : bool) (global_net : N) (net : DSNet) (pid : N) (out : products) : products :=
  update_product pid (set_nets pg (fun ns => {| part_id_ := part_id_ ns; nets_ := <[global_net := net]> (nets_ ns) |})) out.

(** A signal net is stored whole in each partition with geometry of it, a power net
    only with the connections of the partition. *)
Definition put_nets (pg : bool) (global_net : N) (use : DSNetUse) (entries : list (DSNetConnEntry * list N))
    (out : products) (pid : N) : products :=
  let net l := {| net_id_ := global_net; use_ := use; net_connections_ := l |} in
  if pg then
    match (filter (fun e => pid ∈ e.2) entries).*1 with
    | [] => out
    | part => put_net pg global_net (net part) pid out
    end
  else put_net pg global_net (net entries.*1) pid out.

Definition geo_nets : gset N := dom (wires_ nets) ∪ dom (rects_ nets) ∪ dom (net_via_ids_ nets).

Definition place_net (self : PointAssignment) (out : products) (local_net : N) : option products :=
  let global_net := (net_start_ node + local_net)%N in
  let pg := is_pg_net nets local_net in
  shapes ← net_shapes local_net;
  let '(out, hits) := foldl (spread_rect pg global_net) (out, ∅) shapes in
  if decide (hits = ∅) then Some out else
  let out := mark_crossings pg global_net hits out in
  match default [] (connections_ nets !! local_net) with
  | [] => Some out
  | conns =>
      entries ← mapM (conn_entry self) conns;
      Some (foldl (put_nets pg global_net (default SIGNAL (net_uses_ nets !! local_net)) entries) out (elements hits))
  end.

(** *** Obstructions *)

Definition put_obstruction (layer : N) (r : GEORectT) (out : products) (e : nat * DSSubPartition) : products :=
  if overlaps_extend r (extend_rect_ e.2) then
    match to_i32_rect r with
    | None => out
    | Some r => update_product (N.of_nat e.1) (set_geometry false (add_entry 0
        {| g_layer_id_ := layer; g_rect_ := r; g_via_cell_id_ := kNoViaCell; g_obs := true; g_primary := false |})) out
    end
  else out.

Definition place_obstruction (out : products) (o : DSShapeRef) : option products :=
  r ← apply_box 64 t (rect_ o);
  Some (foldl (put_obstruction (layer_id_ o) r) out (imap pair parts)).

Definition flatten_node (out : products) : option products :=
  self ← assign_point (offset_ t) parts;
  let bucket := conn_bucket in
  out ← ofold_option (place_instance bucket) (order_insts (instances_ block)) out;
  let out := place_self bucket self out in
  out ← ofold_option (place_net self) (order_nets geo_nets) out;
  ofold_option place_obstruction (obstructions_ block) out.
End occurrence.

Definition positions (tree : DSHierTree) : list nat :=
  id_ <$> filter (fun n => block_cell_name_ n = block_name_ block) (nodes_ tree).

(** [None] for a position that is no node stands for the out-of-range access. *)
Definition ds_flatten_block (tree : DSHierTree) : option products :=
  if decide (parts = [] \/ nodes_ tree = []) then Some [] else
  ofold_option (fun out pos => node ← nodes_ tree !! pos; flatten_node node out) (positions tree) [].
End flatten.

(** * Slices *)

(** The global set of power nets. *)
Record DSPgNetSlice := { power_ids_ : list N; ground_ids_ : list N }.

Definition ds_collect_pg_net_slice (order : gmap N DSNet -> list (N * DSNet)) (nets_pg : DSPartitionNets) : DSPgNetSlice :=
  foldl (fun s e =>
    match use_ e.2 with
    | POWER => {| power_ids_ := power_ids_ s ++ [net_id_ e.2]; ground_ids_ := ground_ids_ s |}
    | GROUND => {| power_ids_ := power_ids_ s; ground_ids_ := ground_ids_ s ++ [net_id_ e.2] |}
    | _ => s
    end) {| power_ids_ := []; ground_ids_ := [] |} (order (nets_ nets_pg)).

Record DSPgNetSet := { power_ : gset N; ground_ : gset N }.
Definition finalize_from_flatten (slices : list (option DSPgNetSlice)) (s : DSPgNetSet) : DSPgNetSet :=
  foldl (fun s slice => match slice with
    | None => s
    | Some sl => {| power_ := list_to_set (power_ids_ sl) ∪ power_ s; ground_ := list_to_set (ground_ids_ sl) ∪ ground_ s |}
    end) s slices.
Definition is_power (s : DSPgNetSet) (net : N) : bool := bool_decide (net ∈ power_ s).
Definition is_ground (s : DSPgNetSet) (net : N) : bool := bool_decide (net ∈ ground_ s).
Definition is_pg (s : DSPgNetSet) (net : N) : bool := is_power s net || is_ground s net.
Definition power_count (s : DSPgNetSet) : nat := size (power_ s).
Definition ground_count (s : DSPgNetSet) : nat := size (ground_ s).

Definition ds_collect_inst_id_slice (order : gmap N DSInstance -> list (N * DSInstance)) (instances : gmap N DSInstance)
    (pid : N) : DSIdPartitionSlice :=
  foldl (fun s e => if primary_ e.2 then slice_add e.1 pid s else s) empty_slice (order instances).

Definition ds_collect_net_id_slice (order : gmap N (list DSGeomEntry) -> list (N * list DSGeomEntry))
    (geometry geometry_pg : DSPartitionGeometry) (pid : N) : DSIdPartitionSlice :=
  foldl (fun s e => slice_add e.1 pid s) empty_slice (order (geo_nets_ geometry) ++ order (geo_nets_ geometry_pg)).

(** * Assigning a point *)

Definition rect_fits (w : Z) (r : GEORectT) : Prop :=
  fits w (x_low_ r) /\ fits w (y_low_ r) /\ fits w (x_high_ r) /\ fits w (y_high_ r).

(** The distance of a coordinate to an interval, distances from 2^30 on taken as equal, and the
    squared distance of a point to a rectangle. *)
Definition gap (v low high : Z) : Z := Z.min (2 ^ 30) (if decide (v < low) then low - v else Z.max 0 (v - high)).
Definition squared_gap (p : GEOPointT) (r : GEORectT) : Z := gap (x_ p) (x_low_ r) (x_high_ r) ^ 2 + gap (y_ p) (y_low_ r) (y_high_ r) ^ 2.

Lemma axis_distance_gap v low high :
  fits 63 v -> fits 32 low -> fits 32 high -> axis_distance v low high = Some (gap v low high) /\ 0 <= gap v low high <= 2 ^ 30.
Proof.
  unfold axis_distance, gap, kDistCap, fits. intros. destruct (Z.ltb_spec v low); [rewrite decide_True by done|rewrite decide_False by lia].
  - rewrite chk_eq by (unfold fits; lia). split; [|lia]. cbn [mbind option_bind]. f_equal. lia.
  - rewrite chk_eq by (unfold fits; lia). split; [|lia]. cbn [mbind option_bind]. f_equal. lia.
Qed.

Lemma distance2_gap p core :
  point_fits 63 p -> rect_fits 32 core -> distance2 p core = Some (squared_gap p core) /\ 0 <= squared_gap p core < 2 ^ 63 - 1.
Proof.
  intros [Hx Hy] (F1 & F2 & F3 & F4). unfold distance2, squared_gap.
  destruct (axis_distance_gap _ _ _ Hx F1 F3) as (-> & H1), (axis_distance_gap _ _ _ Hy F2 F4) as (-> & H2). rewrite !Z.pow_2_r.
  revert H1 H2. generalize (gap (x_ p) (x_low_ core) (x_high_ core)) (gap (y_ p) (y_low_ core) (y_high_ core)). intros dx dy H1 H2.
  assert (0 <= dx * dx <= 2 ^ 60 /\ 0 <= dy * dy <= 2 ^ 60) as [Hxx Hyy] by nia.
  cbn [mbind option_bind]. rewrite !chk_eq by (unfold fits; lia). cbn [mbind option_bind]. rewrite chk_eq by (unfold fits; lia).
  split; [done|]. lia.
Qed.

Lemma rect64_eq xl yl xh yh : rect_fits 40 (GEORect xl yl xh yh) -> rect64 xl yl xh yh = Some (GEORect xl yl xh yh).
Proof.
  intros (H1 & H2 & H3 & H4). unfold fits in *. cbn in *. unfold rect64. by rewrite !chk_eq by (unfold fits; lia).
Qed.

(** What the scan of a list of numbered partitions finds. *)
Definition hits_core (p : GEOPointT) (e : nat * DSSubPartition) : Prop := contains (core_rect_ e.2) p = true.
Definition hits_extend (p : GEOPointT) (e : nat * DSSubPartition) : Prop := contains (extend_rect_ e.2) p = true.
#[local] Instance hits_core_dec p e : Decision (hits_core p e).
Proof. unfold hits_core. apply _. Defined.
#[local] Instance hits_extend_dec p e : Decision (hits_extend p e).
Proof. unfold hits_extend. apply _. Defined.

Record scanned (p : GEOPointT) (l : list (nat * DSSubPartition)) (s s' : point_scan) : Prop := {
  sd_core : core_hit s' = match core_hit s with Some i => Some i | None => (fun e => N.of_nat e.2.1) <$> list_find (hits_core p) l end;
  sd_extend : in_extend s' = in_extend s ++ ((fun e => N.of_nat e.1) <$> filter (hits_extend p) l);
  sd_best : forall e d, e ∈ l -> distance2 p (core_rect_ e.2) = Some d -> (best s').1 <= d;
  sd_le : (best s').1 <= (best s).1;
  sd_from : best s' = best s \/ exists k e d, l !! k = Some e /\ distance2 p (core_rect_ e.2) = Some d /\
    best s' = (d, N.of_nat e.1) /\ d < (best s).1 /\
    forall k' e' d', (k' < k)%nat -> l !! k' = Some e' -> distance2 p (core_rect_ e'.2) = Some d' -> d < d';
}.

Lemma scan_ok p l s :
  point_fits 63 p -> Forall (fun e => rect_fits 32 (core_rect_ e.2)) l ->
  exists s', ofold_option (scan_partition p) l s = Some s' /\ scanned p l s s'.
Proof.
  intros Hp Hl. revert s. induction Hl as [|[i q] l Hq _ IH]; intros s; cbn [ofold_option].
  { exists s. split; [done|]. split; cbn; [by destruct (core_hit s)|by rewrite app_nil_r|by intros ? ? ?%elem_of_nil|lia|by left]. }
  cbn [snd] in Hq. destruct (distance2_gap p (core_rect_ q) Hp Hq) as [Hd _]. set (d := squared_gap p (core_rect_ q)) in Hd.
  unfold scan_partition at 2. cbv zeta. cbn [fst snd].
  rewrite Hd. cbn [mbind option_bind].
  set (s1 := {| core_hit := _ |}). destruct (IH s1) as (s' & -> & [C1 C2 C3 C4 C5]). exists s'. split; [done|].
  assert ((best s1).1 <= d /\ (best s1).1 <= (best s).1 /\
      (best s1 = best s \/ best s1 = (d, N.of_nat i) /\ d < (best s).1)) as (B1 & B2 & B3).
  { subst s1. cbn. destruct (Z.ltb_spec d (best s).1); cbn; [split; [lia|split; [lia|by right]]|split; [done|split; [lia|by left]]]. }
  split.
  - rewrite C1. subst s1. cbn [core_hit list_find]. destruct (core_hit s); [done|]. destruct (decide (hits_core p (i, q))) as [E|E]; unfold hits_core in E; cbn [snd] in E.
    + by rewrite E.
    + rewrite (not_true_is_false _ E). by destruct (list_find _ l) as [[? ?]|].
  - rewrite C2. subst s1. cbn [in_extend]. destruct (contains (extend_rect_ q) p) eqn:E.
    + rewrite filter_cons_True by (unfold hits_extend; by cbn). by rewrite <- app_assoc.
    + rewrite filter_cons_False by (unfold hits_extend; cbn; by rewrite E). done.
  - intros e d' [->|He]%elem_of_cons Hd'; [cbn in Hd'; rewrite Hd in Hd'; injection Hd' as <-; lia|by apply (C3 e d')].
  - lia.
  - destruct C5 as [->|(k & e & d' & He & Hd' & Hb & Hlt & Hbefore)].
    + destruct B3 as [->|[-> ?]]; [by left|]. right. exists 0%nat, (i, q), d. repeat (split; [done|]). intros; lia.
    + right. exists (S k), e, d'. repeat (split; [done|]). split; [lia|].
      intros [|k'] e' d'' Hk He' Hd''; [|by apply (Hbefore k' e'); [lia| |]].
      cbn in He'. injection He' as <-. cbn [snd] in Hd''. rewrite Hd in Hd''. injection Hd'' as <-. lia.
Qed.

Lemma lookup_numbered {A} (l : list A) k e : imap pair l !! k = Some e <-> e.1 = k /\ l !! k = Some e.2.
Proof.
  rewrite list_lookup_imap. destruct e as [i x]. destruct (l !! k); cbn; split; [|intros [-> ?]; congruence| |intros [_ ?]; done].
  - intros [= <- <-]. done.
  - done.
Qed.

Lemma find_core p parts i q :
  list_find (hits_core p) (imap pair parts) = Some (i, q) ->
  q.1 = i /\ parts !! i = Some q.2 /\ contains (core_rect_ q.2) p = true /\
  forall j r, (j < i)%nat -> parts !! j = Some r -> contains (core_rect_ r) p = false.
Proof.
  intros (Hi & Hq & Hbefore)%list_find_Some. apply lookup_numbered in Hi as [<- Hi]. repeat (split; [done|]).
  intros j r Hj Hr. apply not_true_is_false. apply (Hbefore j (j, r)); [|done]. by apply lookup_numbered.
Qed.

(** The partition [q] at [i] is the one a point is assigned to. *)
Definition assigned (p : GEOPointT) (parts : list DSSubPartition) (i : nat) (q : DSSubPartition) : Prop :=
  (contains (core_rect_ q) p = true /\
   forall j r, (j < i)%nat -> parts !! j = Some r -> contains (core_rect_ r) p = false) \/
  ((forall j r, parts !! j = Some r -> contains (core_rect_ r) p = false) /\
   forall j r, parts !! j = Some r -> let d := squared_gap p (core_rect_ q) in let d' := squared_gap p (core_rect_ r) in d <= d' /\ ((j < i)%nat -> d < d')).

Lemma scan_assigned p parts s :
  parts <> [] -> point_fits 63 p -> Forall (fun q => rect_fits 32 (core_rect_ q)) parts ->
  scanned p (imap pair parts) {| core_hit := None; best := (2 ^ 63 - 1, 0%N); in_extend := [] |} s ->
  exists i q, parts !! i = Some q /\ match core_hit s with Some i => i | None => (best s).2 end = N.of_nat i /\
  assigned p parts i q.
Proof.
  intros Hne Hp Hf [C1 _ C3 _ C5]. cbn in C1, C5. rewrite C1.
  destruct (list_find _ _) as [[i q]|] eqn:E; cbn.
  { apply find_core in E as (<- & Hi & Hc & Hb). exists q.1, q.2. split; [done|]. split; [done|]. by left. }
  assert (forall j r, parts !! j = Some r -> contains (core_rect_ r) p = false) as Hno.
  { intros j r Hr. apply list_find_None in E. rewrite Forall_lookup in E. apply not_true_is_false.
    apply (E j (j, r)). by apply lookup_numbered. }
  destruct C5 as [Hb|(k & e & d & He & Hd & Hb & _ & Hbefore)].
  - destruct parts as [|q0 parts]; [done|]. inversion Hf as [|? ? Hq0 _]; subst.
    destruct (distance2_gap p (core_rect_ q0) Hp Hq0) as [Hd Hlt].
    specialize (C3 (0%nat, q0) _ ltac:(by left) Hd). rewrite Hb in C3. cbn in C3. lia.
  - apply lookup_numbered in He as [<- He]. exists e.1, e.2. rewrite Hb. split; [done|]. split; [done|]. right. split; [done|].
    rewrite (proj1 (distance2_gap p _ Hp (Forall_lookup_1 _ _ _ _ Hf He))) in Hd. injection Hd as <-.
    intros j r Hr. pose proof (proj1 (distance2_gap p _ Hp (Forall_lookup_1 _ _ _ _ Hf Hr))) as Hd'. cbv zeta. split.
    + rewrite Hb in C3. apply (C3 (j, r) _); [|done]. apply list_elem_of_lookup. exists j. by apply lookup_numbered.
    + intros Hj. apply (Hbefore j (j, r) _ Hj); [|done]. by apply lookup_numbered.
Qed.

Lemma numbered_NoDup {A} (l : list A) : NoDup ((fun e => N.of_nat e.1) <$> imap pair l).
Proof.
  apply NoDup_alt. intros i j x (e & -> & Ei%lookup_numbered)%list_lookup_fmap_Some_1
    (e' & E & Ej%lookup_numbered)%list_lookup_fmap_Some_1.
  destruct Ei as [<- _], Ej as [<- _]. by apply Nat2N.inj in E.
Qed.

Lemma assign_point_ok p parts :
  parts <> [] -> point_fits 63 p -> Forall (fun q => rect_fits 32 (core_rect_ q)) parts ->
  exists pa i q, assign_point p parts = Some pa /\ primary pa = N.of_nat i /\ parts !! i = Some q /\
  assigned p parts i q /\ StronglySorted N.lt (copies pa) /\
  forall pid, pid ∈ copies pa <-> pid = primary pa \/
    exists k r, pid = N.of_nat k /\ parts !! k = Some r /\ contains (extend_rect_ r) p = true.
Proof.
  intros Hne Hp Hf. unfold assign_point. destruct (scan_ok p (imap pair parts)
    {| core_hit := None; best := (2 ^ 63 - 1, 0%N); in_extend := [] |} Hp) as (s & -> & Hs).
  { apply Forall_lookup. intros k e [_ He]%lookup_numbered. by apply (Forall_lookup_1 _ _ _ _ Hf He). }
  destruct (scan_assigned p parts s Hne Hp Hf Hs) as (i & q & Hq & Ei & Has). cbn [mbind option_bind]. rewrite Ei.
  eexists _, i, q. split; [done|]. cbn [primary copies]. do 3 (split; [done|]).
  assert (NoDup (in_extend s)) as Hnd.
  { rewrite (sd_extend _ _ _ _ Hs). cbn [in_extend app]. eapply sublist_NoDup; [apply (numbered_NoDup parts)|].
    apply fmap_sublist, sublist_filter. }
  split.
  - apply sorted_lt. destruct (decide _); [done|]. apply NoDup_app. split; [done|]. split; [|apply NoDup_singleton].
    by intros x Hx ->%list_elem_of_singleton.
  - intros pid. rewrite sort_elem. transitivity (pid = N.of_nat i \/ pid ∈ in_extend s).
    + destruct (decide _); [|rewrite elem_of_app, list_elem_of_singleton; tauto]. split; [by right|]. by intros [->|?].
    + rewrite (sd_extend _ _ _ _ Hs). cbn [in_extend app]. rewrite list_elem_of_fmap. split; (intros [->|H]; [by left|right]).
      * destruct H as (e & -> & [Hc (k & Hk%lookup_numbered)%list_elem_of_lookup]%list_elem_of_filter). destruct Hk as [<- Hk].
        exists e.1, e.2. done.
      * destruct H as (k & r & -> & Hr & Hc). exists (k, r). split; [done|]. apply list_elem_of_filter. split; [done|].
        apply list_elem_of_lookup. exists k. by apply lookup_numbered.
Qed.

(** C20: A point has one primary partition.  For any point of 63 bits and any
    non-empty list of partitions with 32-bit cores, [assign_point] gives a primary partition, the
    first whose core contains the point or, when none does, the first of those with
    the least distance, where distances along an axis from 2^30 on count as equal;
    the copies are, in ascending order and without
    repetition, the primary partition and the partitions whose extend rectangle
    contains the point.  For partitions that tile a die and a point of the die, the
    primary partition is the only one whose core contains the point. *)
Theorem point_assigned p parts :
  parts <> [] -> point_fits 63 p -> Forall (fun q => rect_fits 32 (core_rect_ q)) parts ->
  exists pa i q, assign_point p parts = Some pa /\ primary pa = N.of_nat i /\ parts !! i = Some q /\
  assigned p parts i q /\ StronglySorted N.lt (copies pa) /\
  (forall pid, pid ∈ copies pa <-> pid = primary pa \/
    exists k r, pid = N.of_nat k /\ parts !! k = Some r /\ contains (extend_rect_ r) p = true) /\
  forall g, tiles g parts -> contains (area g) p = true -> contains (core_rect_ q) p = true /\
    forall k r, parts !! k = Some r -> contains (core_rect_ r) p = true -> k = i.
Proof.
  intros Hne Hp Hf. destruct (assign_point_ok p parts Hne Hp Hf) as (pa & i & q & H1 & H2 & H3 & H4 & H5 & H6).
  exists pa, i, q. repeat (split; [done|]). intros g Ht Ha.
  assert (contains (core_rect_ q) p = true) as Hc.
  { destruct H4 as [[? _]|[Hno _]]; [done|]. destruct (ti_cover _ _ Ht p Ha) as (k & r & Hr & Hcr).
    by rewrite (Hno k r Hr) in Hcr. }
  split; [done|]. intros k r Hr Hcr. by apply (ti_unique _ _ Ht p k i r q).
Qed.

(** * The instances of the products *)

Lemma product_of_update pid f out k :
  product_of k (update_product pid f out) =
  if decide (k = pid) then Some (f (default (fresh_product pid) (product_of pid out))) else product_of k out.
Proof.
  induction out as [|[k' p] out IH]; cbn [update_product product_of].
  - destruct (decide (pid = k)) as [->|Hne]; [by rewrite decide_True|by rewrite decide_False].
  - destruct (decide (k' = pid)) as [->|Hne]; cbn [product_of].
    + destruct (decide (pid = k)) as [->|Hne]; [by rewrite !decide_True|by rewrite decide_False].
    + rewrite IH. destruct (decide (k' = k)) as [->|]; [by rewrite decide_False|done].
Qed.

Definition insts (out : products) (pid : N) : gmap N DSInstance :=
  match product_of pid out with Some p => p_instances p | None => ∅ end.

Lemma insts_update pid f out k :
  insts (update_product pid f out) k =
  if decide (k = pid) then p_instances (f (default (fresh_product pid) (product_of pid out))) else insts out k.
Proof. unfold insts. rewrite product_of_update. by destruct (decide (k = pid)). Qed.

(** An update that leaves the instances alone. *)
Definition keeps (f : DSPartitionProduct -> DSPartitionProduct) : Prop := forall p, p_instances (f p) = p_instances p.

Lemma insts_keep pid f out k : keeps f -> insts (update_product pid f out) k = insts out k.
Proof.
  intros Hf. rewrite insts_update. destruct (decide (k = pid)) as [->|]; [|done]. rewrite Hf. unfold insts.
  by destruct (product_of pid out).
Qed.

Lemma keeps_nets pg f : keeps (set_nets pg f).
Proof. done. Qed.
Lemma keeps_geometry pg f : keeps (set_geometry pg f).
Proof. done. Qed.
Lemma keeps_inst_connections f : keeps (set_inst_connections f).
Proof. done. Qed.

Section node_insts.
Context {B : Type} `{!DSNameBackend B}.
Context (order_conns : gmap N (list DSNetConnection) -> list (N * list DSNetConnection)).
Context (order_insts : gmap N DSInstance -> list (N * DSInstance)).
Context (order_nets : gset N -> list N).
Context (Horder : forall m e, e ∈ order_insts m <-> m !! e.1 = Some e.2).
Context (design : DSDesign) (block : DSBlockBuildData B) (nets : DSNetBuildData) (parts : list DSSubPartition).

Lemma place_self_insts node bucket self out k : insts (place_self node bucket self out) k = insts out k.
Proof.
  unfold place_self. destruct (bucket !! 0%N); [|done]. apply (foldl_same (fun out => insts out k)).
  intros. apply insts_keep, keeps_inst_connections.
Qed.

Lemma spread_insts pg net s st k : insts (spread_rect parts pg net st s).1 k = insts st.1 k.
Proof.
  unfold spread_rect. apply (foldl_same (fun st => insts st.1 k)). intros [out hits] [i q]. unfold spread_one.
  destruct (overlaps_extend _ _); [|done]. destruct (to_i32_rect _); [|done]. apply insts_keep, keeps_geometry.
Qed.

Lemma put_nets_insts pg net use entries out pid k : insts (put_nets pg net use entries out pid) k = insts out k.
Proof.
  unfold put_nets, put_net. destruct pg; [destruct ((filter _ _).*1); [done|]|]; apply insts_keep, keeps_nets.
Qed.

Lemma place_net_insts node self out net out' k :
  place_net design block nets parts node self out net = Some out' -> insts out' k = insts out k.
Proof.
  unfold place_net. intros (shapes & _ & H)%bind_Some.
  destruct (foldl _ _ shapes) as [out1 hits] eqn:E.
  assert (insts out1 k = insts out k) as E1.
  { pose proof (foldl_same (fun st => insts st.1 k) (spread_rect parts (is_pg_net nets net) (net_start_ node + net)%N)
      shapes (out, ∅) ltac:(intros; apply spread_insts)) as Hs. by rewrite E in Hs. }
  destruct (decide _); [by injection H as <-|].
  assert (insts (mark_crossings (is_pg_net nets net) (net_start_ node + net)%N hits out1) k = insts out k) as E2.
  { rewrite <- E1. unfold mark_crossings. destruct (decide _); [|done]. apply (foldl_same (fun out => insts out k)).
    intros. apply insts_keep, keeps_geometry. }
  destruct (default [] _) as [|c conns]; [by injection H as <-|].
  apply bind_Some in H as (entries & _ & [= <-]). rewrite <- E2. apply (foldl_same (fun out => insts out k)).
  intros. apply put_nets_insts.
Qed.

Lemma place_obstruction_insts node out o out' k :
  place_obstruction parts node out o = Some out' -> insts out' k = insts out k.
Proof.
  unfold place_obstruction. intros (r & _ & [= <-])%bind_Some. apply (foldl_same (fun out => insts out k)).
  intros s [i q]. unfold put_obstruction. destruct (overlaps_extend _ _); [|done].
  destruct (to_i32_rect _); [|done]. apply insts_keep, keeps_geometry.
Qed.

(** Instance [i] with id [gid] of partition [pid] comes from the local instance [l]. *)
Definition copied (node : DSHierNode) (l : N * DSInstance) (pid gid : N) (i : DSInstance) : Prop :=
  l.1 <> 0%N /\ placement_status_ l.2 <> UNPLACED /\ gid = (instance_start_ node + l.1)%N /\
  exists g pa, compose 64 (composite_transform_ node) (transform_ l.2) = Some g /\
    assign_point (offset_ g) parts = Some pa /\ pid ∈ copies pa /\
    i = instance_copy l.2 g (bool_decide (pid = primary pa)).

Lemma put_copies_insts node bucket local inst g prim pids out pid :
  insts (foldl (put_copy node bucket local inst g prim) out pids) pid =
  if decide (pid ∈ pids)
  then <[(instance_start_ node + local)%N := instance_copy inst g (bool_decide (pid = prim))]> (insts out pid)
  else insts out pid.
Proof.
  revert out. induction pids as [|k pids IH]; intros out; [by rewrite decide_False by (by intros ?%elem_of_nil)|].
  cbn [foldl]. rewrite IH.
  assert (insts (put_copy node bucket local inst g prim out k) pid =
    if decide (pid = k) then <[(instance_start_ node + local)%N := instance_copy inst g (bool_decide (pid = prim))]> (insts out pid)
    else insts out pid) as ->.
  { unfold put_copy. transitivity (insts (update_product k (set_instances (<[(instance_start_ node + local)%N :=
        instance_copy inst g (bool_decide (k = prim))]>)) out) pid).
    - destruct (bucket !! local); [|done]. apply insts_keep, keeps_inst_connections.
    - rewrite insts_update. destruct (decide (pid = k)) as [->|]; [|done]. cbn. f_equal. unfold insts.
      by destruct (product_of k out). }
  assert (pid ∈ k :: pids <-> pid = k \/ pid ∈ pids) as Hc by apply elem_of_cons.
  destruct (decide (pid ∈ pids)), (decide (pid = k)), (decide (pid ∈ k :: pids)); try tauto; [|done..].
  by rewrite insert_insert_eq.
Qed.

Lemma copied_same node e pid gid i i' : copied node e pid gid i -> copied node e pid gid i' -> i = i'.
Proof.
  intros (_ & _ & _ & g & pa & Hg & Hpa & _ & ->) (_ & _ & _ & g' & pa' & Hg' & Hpa' & _ & ->).
  rewrite Hg in Hg'. injection Hg' as <-. rewrite Hpa in Hpa'. by injection Hpa' as <-.
Qed.

Lemma place_instance_insts node bucket out e out1 pid gid i :
  place_instance parts node bucket out e = Some out1 ->
  insts out1 pid !! gid = Some i <->
  copied node e pid gid i \/ (insts out pid !! gid = Some i /\ ~ exists i', copied node e pid gid i').
Proof.
  destruct e as [local inst]. unfold place_instance.
  destruct (N.eqb_spec local 0) as [->|Hl].
  { intros [= <-]. split; [|by intros [(? & _)|[? _]]]. intros H. right. split; [done|]. by intros (? & ? & _). }
  destruct (decide _) as [Hu|Hu].
  { intros [= <-]. split; [|by intros [(_ & ? & _)|[? _]]]. intros H. right. split; [done|]. by intros (? & _ & ? & _). }
  intros (g & Hg & (pa & Hpa & [= <-])%bind_Some)%bind_Some. rewrite put_copies_insts.
  assert (forall i', copied node (local, inst) pid gid i' <-> pid ∈ copies pa /\ gid = (instance_start_ node + local)%N /\
    i' = instance_copy inst g (bool_decide (pid = primary pa))) as Hc.
  { intros i'. unfold copied. cbn [fst snd]. split.
    - intros (_ & _ & -> & g' & pa' & Hg' & Hpa' & Hin & ->). rewrite Hg in Hg'. injection Hg' as <-.
      rewrite Hpa in Hpa'. by injection Hpa' as <-.
    - intros (Hin & -> & ->). repeat (split; [done|]). by exists g, pa. }
  rewrite Hc. destruct (decide (pid ∈ copies pa)) as [Hin|Hin].
  - rewrite lookup_insert_Some. split.
    + intros [[<- <-]|[Hne H]]; [by left|]. right. split; [done|]. intros (i' & (_ & -> & _)%Hc). done.
    + intros [(_ & -> & ->)|[H Hno]]; [by left|]. right. split; [|done]. intros <-. apply Hno.
      eexists. apply Hc. done.
  - split; [|by intros [(? & _)|[? _]]]. intros H. right. split; [done|]. by intros (i' & (? & _)%Hc).
Qed.

Lemma place_instances_insts node bucket l out out' pid gid i :
  (forall e e', e ∈ l -> e' ∈ l -> e.1 = e'.1 -> e = e') ->
  ofold_option (place_instance parts node bucket) l out = Some out' ->
  insts out' pid !! gid = Some i <->
  (exists e, e ∈ l /\ copied node e pid gid i) \/
  (insts out pid !! gid = Some i /\ ~ exists e i', e ∈ l /\ copied node e pid gid i').
Proof.
  intros Hl. apply (ofold_overlay (fun out i => insts out pid !! gid = Some i) _ (fun e i => copied node e pid gid i) fst).
  - intros e _ o o1 Ho j. by apply (place_instance_insts node bucket).
  - intros e e' v v' _ _ (_ & _ & -> & _) (_ & _ & ? & _). lia.
  - done.
Qed.

(** The instances after one occurrence. *)
Definition node_copied (node : DSHierNode) (pid gid : N) (i : DSInstance) : Prop :=
  exists local inst, instances_ block !! local = Some inst /\ copied node (local, inst) pid gid i.

Lemma flatten_node_insts node out out' pid gid i :
  flatten_node order_conns order_insts order_nets design block nets parts node out = Some out' ->
  insts out' pid !! gid = Some i <->
  node_copied node pid gid i \/ (insts out pid !! gid = Some i /\ ~ exists i', node_copied node pid gid i').
Proof using Horder.
  unfold flatten_node. intros (self & _ & (o1 & H1 & (o2 & H2 & H3)%bind_Some)%bind_Some)%bind_Some.
  apply (ofold_same (fun out => insts out pid)) in H3; [|intros; by eapply place_obstruction_insts].
  apply (ofold_same (fun out => insts out pid)) in H2; [|intros; by eapply place_net_insts].
  rewrite H3, H2, place_self_insts. rewrite (place_instances_insts node (conn_bucket order_conns nets node) (order_insts (instances_ block)) out o1 pid gid i); [| |exact H1].
  - assert (forall j, (exists e, e ∈ order_insts (instances_ block) /\ copied node e pid gid j) <-> node_copied node pid gid j) as E.
    { intros j. split.
      - intros ([local inst] & He%Horder & Hc). by exists local, inst.
      - intros (local & inst & He & Hc). exists (local, inst). split; [by apply Horder|done]. }
    rewrite E. split; (intros [H|[H Hno]]; [by left|right; split; [done|]]).
    + intros (j & Hj). apply E in Hj as (e & ? & ?). apply Hno. by exists e, j.
    + intros (e & j & ? & ?). apply Hno. exists j. apply E. by exists e.
  - intros [a x] [b y] Ha%Horder Hb%Horder E. cbn in *. subst b. congruence.
Qed.
End node_insts.

(** ** All occurrences of a block *)

Section block_insts.
Context {B : Type} `{!DSNameBackend B}.
Context (order_conns : gmap N (list DSNetConnection) -> list (N * list DSNetConnection)).
Context (order_insts : gmap N DSInstance -> list (N * DSInstance)).
Context (order_nets : gset N -> list N).
Context (Horder : forall m e, e ∈ order_insts m <-> m !! e.1 = Some e.2).
Context (design : DSDesign) (block : DSBlockBuildData B) (nets : DSNetBuildData) (parts : list DSSubPartition).
Context (tree : DSHierTree) (Hids : forall i n, nodes_ tree !! i = Some n -> id_ n = i).

(** Node [n] is an occurrence of the block that stores [i]. *)
Definition occurs (pid gid : N) (i : DSInstance) (n : DSHierNode) : Prop :=
  n ∈ nodes_ tree /\ block_cell_name_ n = block_name_ block /\ node_copied block parts n pid gid i.

Lemma node_by_id n : n ∈ nodes_ tree -> nodes_ tree !! id_ n = Some n.
Proof using Hids. intros [k Hk]%list_elem_of_lookup. by rewrite (Hids _ _ Hk). Qed.

Lemma flatten_block_insts out pid gid i :
  (forall n n' j j', occurs pid gid j n -> occurs pid gid j' n' -> id_ n = id_ n') -> parts <> [] ->
  ds_flatten_block order_conns order_insts order_nets design block nets parts tree = Some out ->
  insts out pid !! gid = Some i <-> exists n, occurs pid gid i n.
Proof using Hids Horder.
  intros Hone Hne. unfold ds_flatten_block. destruct (decide _) as [[?|Hnil]|_]; [done| |].
  { intros [= <-]. unfold insts. cbn. rewrite lookup_empty. split; [done|]. intros (n & Hn & _). rewrite Hnil in Hn.
    by apply elem_of_nil in Hn. }
  unfold positions. set (ns := filter (fun n => block_cell_name_ n = block_name_ block) (nodes_ tree)).
  assert (forall n, n ∈ ns <-> n ∈ nodes_ tree /\ block_cell_name_ n = block_name_ block) as Hns.
  { intros n. unfold ns. rewrite list_elem_of_filter. tauto. }
  rewrite ofold_fmap. intros H.
  match type of H with ofold_option ?f _ _ = _ => rewrite (ofold_overlay (fun out i => insts out pid !! gid = Some i) f
    (fun n i => node_copied block parts n pid gid i) id_ ns [] out i); [| | | |exact H] end.
  - split.
    + intros [(n & [? ?]%Hns & Hc)|[Hc _]]; [by exists n|]. unfold insts in Hc. cbn in Hc. by rewrite lookup_empty in Hc.
    + intros (n & Hin & Hname & Hc). left. exists n. split; [by apply Hns|done].
  - intros n [Hn _]%Hns s s1 (n' & Hn' & Hs)%bind_Some j. rewrite (node_by_id n Hn) in Hn'. injection Hn' as <-.
    by apply (flatten_node_insts order_conns order_insts order_nets Horder design block nets).
  - intros n n' v v' [Hn Hm]%Hns [Hn' Hm']%Hns Hv Hv'. by apply (Hone n n' v v').
  - intros n n' [Hn _]%Hns [Hn' _]%Hns E. apply node_by_id in Hn, Hn'. rewrite E in Hn. congruence.
Qed.
End block_insts.

(** ** The whole design

    The flow expands every block and merges, for each partition, what the
    expansions hold for it; the slices are taken from the merged products. *)

Definition merge_product (pid : N) (p : DSPartitionProduct) (out : products) : DSPartitionProduct :=
  match product_of pid out with Some src => merge_from src p | None => p end.
Definition merged (outs : list products) (pid : N) : DSPartitionProduct := foldl (merge_product pid) new_product outs.

Lemma merged_insts_lookup outs pid gid i :
  (forall o o' j j', o ∈ outs -> o' ∈ outs -> insts o pid !! gid = Some j -> insts o' pid !! gid = Some j' -> j = j') ->
  p_instances (merged outs pid) !! gid = Some i <-> exists o, o ∈ outs /\ insts o pid !! gid = Some i.
Proof.
  induction outs as [|o outs IH] using rev_ind; intros Hone.
  { unfold merged. cbn. rewrite lookup_empty. split; [done|]. by intros (? & ?%elem_of_nil & _). }
  assert (p_instances (merged (outs ++ [o]) pid) = insts o pid ∪ p_instances (merged outs pid)) as ->.
  { unfold merged. rewrite foldl_app. cbn [foldl]. unfold merge_product at 1, insts. destruct (product_of pid o); [done|].
    by rewrite (left_id_L ∅ (∪)). }
  rewrite lookup_union_Some_raw, IH by set_solver. split.
  - intros [?|[_ (o' & ? & ?)]]; [exists o; set_solver|exists o'; set_solver].
  - intros (o' & Ho' & Hi). destruct (insts o pid !! gid) as [j|] eqn:E.
    + left. f_equal. symmetry. apply (Hone o' o i j); [done|set_solver|done|done].
    + right. split; [done|]. exists o'. split; [|done]. apply elem_of_app in Ho' as [?|E'%list_elem_of_singleton]; [done|].
      subst o'. congruence.
Qed.

Lemma slice_entries_collect order (m : gmap N DSInstance) pid e :
  (forall m e, e ∈ order m <-> m !! e.1 = Some e.2) ->
  e ∈ slice_entries (Some (ds_collect_inst_id_slice order m pid)) <->
  e.2 = pid /\ exists i, m !! e.1 = Some i /\ primary_ i = true.
Proof.
  intros Ho. unfold slice_entries, ds_collect_inst_id_slice.
  assert (forall l s, length (ids_ s) = length (pids_ s) ->
    let s' := foldl (fun s e => if primary_ e.2 then slice_add e.1 pid s else s) s l in
    forall e, e ∈ zip (ids_ s') (pids_ s') <-> e ∈ zip (ids_ s) (pids_ s) \/
      e.2 = pid /\ exists i, (e.1, i) ∈ l /\ primary_ i = true) as H.
  { induction l as [|[k x] l IH]; intros s Hs; cbv zeta; intros c; cbn [foldl].
    { split; [by left|]. intros [?|(_ & ? & ?%elem_of_nil & _)]; done. }
    cbn [fst snd]. destruct (primary_ x) eqn:E.
    - rewrite IH by (cbn; rewrite !length_app; cbn; lia). cbn [slice_add ids_ pids_]. rewrite zip_with_app by done.
      rewrite elem_of_app. cbn [zip_with]. rewrite list_elem_of_singleton. destruct c as [a b]. cbn [fst snd]. split.
      + intros [[?|[= -> ->]]|(-> & i & Hi & Hp)]; [by left|right|right].
        * split; [done|]. exists x. split; [by left|done].
        * split; [done|]. exists i. split; [by right|done].
      + intros [?|(-> & i & [[= -> ->]|Hi]%elem_of_cons & Hp)]; [by left; left|by left; right|]. right. split; [done|]. by exists i.
    - rewrite IH by done. split; (intros [?|(-> & i & Hi & Hp)]; [by left|right; split; [done|]; exists i]).
      + split; [by right|done].
      + apply elem_of_cons in Hi as [[= -> ->]|Hi]; [congruence|done]. }
  rewrite H by done. cbn. rewrite elem_of_nil. setoid_rewrite Ho. cbn. tauto.
Qed.

Section design_query.
Context {B : Type} `{!DSNameBackend B}.
Context (order_conns : gmap N (list DSNetConnection) -> list (N * list DSNetConnection)).
Context (order_insts : gmap N DSInstance -> list (N * DSInstance)).
Context (order_nets : gset N -> list N).
Context (Horder : forall m e, e ∈ order_insts m <-> m !! e.1 = Some e.2).
Context (design : DSDesign) (defs : list (DSBlockBuildData B * DSNetBuildData)) (vias : list N).
Context (parts : list DSSubPartition) (tree : DSHierTree).

(** The blocks as the hierarchy takes them, with their numbers of vias. *)
Definition blocks_of : list (DSBlockBuildData B * N) := zip defs.*1 vias.

Record design_ready : Prop := {
  dr_some : defs <> []; dr_vias : length vias = length defs;
  dr_tree : ds_build_hier_tree design blocks_of = Ok tree;
  dr_blocks b nets : (b, nets) ∈ defs -> block_ok b;
  dr_names : NoDup (block_name_ <$> defs.*1);
  dr_parts : parts <> [];
}.

Definition flatten_all : option (list products) :=
  mapM (fun d => ds_flatten_block order_conns order_insts order_nets design d.1 d.2 parts tree) defs.

Definition inst_slices (outs : list products) : list (option DSIdPartitionSlice) :=
  (fun k => Some (ds_collect_inst_id_slice order_insts (p_instances (merged outs (N.of_nat k))) (N.of_nat k)))
    <$> seq 0 (length parts).

Context (Hready : design_ready).

Lemma blocks_of_fst : blocks_of.*1 = defs.*1.
Proof using Hready. unfold blocks_of. apply fst_zip. rewrite length_fmap, (dr_vias Hready). lia. Qed.

Lemma blocks_of_some : blocks_of <> [].
Proof using Hready.
  intros E. pose proof blocks_of_fst as H. rewrite E in H. cbn in H. symmetry in H. apply fmap_nil_inv in H.
  by apply (dr_some Hready).
Qed.

Lemma same_name b b' : b ∈ defs.*1 -> b' ∈ defs.*1 -> block_name_ b = block_name_ b' -> b = b'.
Proof using Hready.
  intros [i Hi]%list_elem_of_lookup [j Hj]%list_elem_of_lookup E.
  assert (i = j) as ->; [|congruence]. apply (NoDup_lookup _ _ _ (block_name_ b) (dr_names Hready)).
  - by rewrite list_lookup_fmap, Hi.
  - by rewrite list_lookup_fmap, Hj, E.
Qed.

(** The local ids of a block lie in the range of each of its occurrences. *)
Lemma occurrence_range n b nets local inst :
  n ∈ nodes_ tree -> (b, nets) ∈ defs -> block_cell_name_ n = block_name_ b -> instances_ b !! local = Some inst ->
  (local < instance_count_ n)%N.
Proof using Hready.
  intros [k Hk]%list_elem_of_lookup Hb Hname Hi.
  pose proof (built_tree_ok design blocks_of tree blocks_of_some (dr_tree Hready)) as Ht.
  destruct (to_finished _ _ _ Ht k n Hk) as (d & b' & (v & Hd & Hname' & _ & Hcount & _) & _).
  assert (b' ∈ defs.*1) as Hb'.
  { rewrite <- blocks_of_fst. apply list_elem_of_fmap. exists (b', v). split; [done|]. by eapply list_elem_of_lookup_2. }
  assert (b ∈ defs.*1) as Hb1 by (apply list_elem_of_fmap; by exists (b, nets)).
  assert (b' = b) as -> by (apply same_name; [done|done|congruence]).
  destruct (dr_blocks Hready b nets Hb) as [_ _ Hdom Htot]. rewrite Hcount, Htot, N2Nat.id. apply Hdom. by eexists.
Qed.

(** Partition [pid] stores [i] under [gid] because of node [n], an occurrence of [b]. *)
Definition stored (pid gid : N) (i : DSInstance) (n : DSHierNode) (b : DSBlockBuildData B) : Prop :=
  exists nets, (b, nets) ∈ defs /\ occurs b parts tree pid gid i n.

(** An instance of an occurrence. *)
Definition instance_at (n : DSHierNode) (b : DSBlockBuildData B) (local : N) (inst : DSInstance) : Prop :=
  n ∈ nodes_ tree /\ block_cell_name_ n = block_name_ b /\ (exists nets, (b, nets) ∈ defs) /\ instances_ b !! local = Some inst.

(** Its global id tells it apart from all others. *)
Lemma instance_at_unique n b local inst n' b' local' inst' :
  instance_at n b local inst -> instance_at n' b' local' inst' ->
  (instance_start_ n + local = instance_start_ n' + local')%N -> n = n' /\ b = b' /\ local = local' /\ inst = inst'.
Proof using Hready.
  pose proof (built_tree_ok design blocks_of tree blocks_of_some (dr_tree Hready)) as Ht.
  intros (Hn & Hname & (nets & Hb) & Hi) (Hn' & Hname' & (nets' & Hb') & Hi') E.
  pose proof (occurrence_range n b nets local inst Hn Hb Hname Hi) as Hr.
  pose proof (occurrence_range n' b' nets' local' inst' Hn' Hb' Hname' Hi') as Hr'.
  assert (n = n') as <-.
  { apply list_elem_of_lookup in Hn as [k Hk], Hn' as [k' Hk'].
    pose proof (hier_block_of_hit _ _ _ (to_inst _ _ _ Ht) (to_ids _ _ _ Ht) k n (instance_start_ n + local)%N Hk ltac:(lia)) as H1.
    pose proof (hier_block_of_hit _ _ _ (to_inst _ _ _ Ht) (to_ids _ _ _ Ht) k' n' (instance_start_ n + local)%N Hk' ltac:(lia)) as H2.
    rewrite H1 in H2. apply Nat2N.inj in H2. congruence. }
  assert (b = b') as <-.
  { apply same_name; [apply list_elem_of_fmap; by exists (b, nets)|apply list_elem_of_fmap; by exists (b', nets')|congruence]. }
  assert (local = local') as <- by lia. split; [done|]. split; [done|]. split; [done|congruence].
Qed.

(** What a partition stores for an instance. *)
Lemma stored_iff pid n b local inst i :
  instance_at n b local inst ->
  (exists n' b', stored pid (instance_start_ n + local)%N i n' b') <->
  copied parts n (local, inst) pid (instance_start_ n + local)%N i.
Proof using Hready.
  intros Hat. split.
  - intros (n' & b' & nets' & Hb' & Hn' & Hname' & l' & inst' & Hi' & Hc).
    assert (instance_at n' b' l' inst') as Hat' by (split; [done|split; [done|split; [by exists nets'|done]]]).
    assert (instance_start_ n + local = instance_start_ n' + l')%N as E by by destruct Hc as (_ & _ & ? & _).
    destruct (instance_at_unique _ _ _ _ _ _ _ _ Hat Hat' E) as (<- & <- & <- & <-). done.
  - destruct Hat as (Hn & Hname & (nets & Hb) & Hi). intros Hc. exists n, b, nets. split; [done|]. split; [done|].
    split; [done|]. by exists local, inst.
Qed.

Lemma stored_unique pid gid i j n n' b b' :
  stored pid gid i n b -> stored pid gid j n' b' -> n = n' /\ i = j.
Proof using Hready.
  intros (nets & Hb & Hn & Hname & l & inst & Hi & Hc) (nets' & Hb' & Hn' & Hname' & l' & inst' & Hi' & Hc').
  assert (instance_at n b l inst) as Hat by (split; [done|split; [done|split; [by exists nets|done]]]).
  assert (instance_at n' b' l' inst') as Hat' by (split; [done|split; [done|split; [by exists nets'|done]]]).
  assert (instance_start_ n + l = instance_start_ n' + l')%N as E.
  { destruct Hc as (_ & _ & -> & _), Hc' as (_ & _ & ? & _). done. }
  destruct (instance_at_unique _ _ _ _ _ _ _ _ Hat Hat' E) as (<- & <- & <- & <-). split; [done|]. by eapply copied_same.
Qed.

Lemma design_insts outs pid gid i :
  flatten_all = Some outs ->
  p_instances (merged outs pid) !! gid = Some i <-> exists n b, stored pid gid i n b.
Proof using Hready Horder.
  intros Hall%mapM_Some. pose proof (built_tree_ok design blocks_of tree blocks_of_some (dr_tree Hready)) as Ht.
  assert (forall b nets o j, (b, nets) ∈ defs ->
    ds_flatten_block order_conns order_insts order_nets design b nets parts tree = Some o ->
    insts o pid !! gid = Some j <-> exists n, occurs b parts tree pid gid j n) as Hblock.
  { intros b nets o j Hb Ho. apply (flatten_block_insts order_conns order_insts order_nets Horder design b nets parts tree
      (to_ids _ _ _ Ht)); [|apply Hready|done].
    intros n n' v v' H1 H2. destruct (stored_unique pid gid v v' n n' b b) as [-> _]; [by exists nets|by exists nets|done]. }
  assert (forall o j, o ∈ outs -> insts o pid !! gid = Some j -> exists n b, stored pid gid j n b) as Hin.
  { intros o j [k Hk]%list_elem_of_lookup Hj. destruct (Forall2_lookup_r _ _ _ _ _ Hall Hk) as ([b nets] & Hd & Ho).
    apply list_elem_of_lookup_2 in Hd. destruct (proj1 (Hblock b nets o j Hd Ho) Hj) as [n Hn]. exists n, b. by exists nets. }
  rewrite merged_insts_lookup.
  - split; [intros (o & Ho & Hi); by apply (Hin o)|]. intros (n & b & nets & Hb & Hocc).
    pose proof Hb as [k Hk]%list_elem_of_lookup. destruct (Forall2_lookup_l _ _ _ _ _ Hall Hk) as (o & Ho & Hf).
    exists o. split; [by eapply list_elem_of_lookup_2|]. apply (Hblock b nets o i Hb Hf). by exists n.
  - intros o o' j j' Ho Ho' Hj Hj'. destruct (Hin o j Ho Hj) as (n & b & H1), (Hin o' j' Ho' Hj') as (n' & b' & H2).
    by destruct (stored_unique _ _ _ _ _ _ _ _ H1 H2) as [_ ->].
Qed.

Lemma slice_entry_iff outs pid gid :
  flatten_all = Some outs ->
  (gid, pid) ∈ collect_entries (inst_slices outs) <->
  (pid < N.of_nat (length parts))%N /\ exists i n b, stored pid gid i n b /\ primary_ i = true.
Proof using Hready Horder.
  intros Hall. unfold collect_entries. rewrite elem_of_concat. split.
  - intros (es & Hin & (sl & -> & (k & -> & Hk%elem_of_seq)%list_elem_of_fmap)%list_elem_of_fmap).
    apply slice_entries_collect in Hin as (E & i & Hi & Hp); [|done]. cbn [fst snd] in *. subst pid.
    apply (design_insts outs _ _ _ Hall) in Hi as (n & b & Hs). split; [lia|]. by exists i, n, b.
  - intros (Hlt & i & n & b & Hs & Hp). eexists. split.
    2: { apply list_elem_of_fmap_2. unfold inst_slices. apply list_elem_of_fmap. exists (N.to_nat pid).
         split; [done|]. apply elem_of_seq. lia. }
    apply slice_entries_collect; [done|]. rewrite N2Nat.id. split; [done|]. exists i. split; [|done].
    apply (design_insts outs _ _ _ Hall). by exists n, b.
Qed.

(** No parsed instance has the primary flag. *)
Definition no_primary : Prop :=
  forall b nets l inst, (b, nets) ∈ defs -> instances_ b !! l = Some inst -> primary_ inst = false.

Lemma primary_entry outs n b local inst g pa pid :
  no_primary -> flatten_all = Some outs -> instance_at n b local inst ->
  local <> 0%N -> placement_status_ inst <> UNPLACED ->
  compose 64 (composite_transform_ n) (transform_ inst) = Some g -> assign_point (offset_ g) parts = Some pa ->
  primary pa ∈ copies pa -> (primary pa < N.of_nat (length parts))%N ->
  ((instance_start_ n + local)%N, pid) ∈ collect_entries (inst_slices outs) <-> pid = primary pa.
Proof using Hready Horder.
  intros Hnp Hall Hat Hl Hpl Hg Hpa Hprim Hlt. rewrite slice_entry_iff by done. split.
  - intros (_ & i & n' & b' & Hs & Hp). assert (copied parts n (local, inst) pid (instance_start_ n + local)%N i) as Hc
      by (apply (stored_iff _ _ _ _ _ _ Hat); by exists n', b').
    destruct Hc as (_ & _ & _ & g' & pa' & Hg' & Hpa' & _ & ->). cbn [snd] in *.
    rewrite Hg in Hg'. injection Hg' as <-. rewrite Hpa in Hpa'. injection Hpa' as <-. cbn in Hp.
    destruct Hat as (_ & _ & (nets & Hb) & Hi).
    rewrite (Hnp b nets local inst Hb Hi), orb_false_r in Hp. by apply bool_decide_eq_true in Hp.
  - intros ->. split; [done|]. exists (instance_copy inst g true).
    destruct (proj2 (stored_iff (primary pa) _ _ _ _ (instance_copy inst g true) Hat)) as (n' & b' & Hs); [|by exists n', b'].
    split; [done|]. split; [done|]. split; [done|]. exists g, pa. repeat (split; [done|]). by rewrite bool_decide_true.
Qed.

Lemma compose_32 (t s : GEOTransformT) :
  point_fits 32 (offset_ t) -> point_fits 32 (offset_ s) ->
  exists g, compose 64 t s = Some g /\ point_fits 63 (offset_ g).
Proof.
  intros [Hx Hy] [Hsx Hsy]. unfold fits in *. unfold compose.
  assert (point_fits 63 (image t (offset_ s))) as Hi.
  { destruct t as [[tx ty] o], s as [[sx sy] o']. unfold point_fits, fits. cbn in *. destruct o; cbn; lia. }
  rewrite apply_complete; [| | |].
  - eexists. split; [done|]. done.
  - unfold fits; lia.
  - unfold fits; lia.
  - destruct Hi as [H1 H2]. unfold point_fits, fits in *. lia.
Qed.

Lemma query_least outs gid :
  flatten_all = Some outs -> (N.of_nat (length parts) < kIdMapNoPartition)%N -> (gid < 2 ^ 64)%N ->
  let q := find_partition kIdMapSegmentBits (ds_merge_id_partition_slices kIdMapSegmentBits (inst_slices outs)) gid in
  (q = kIdMapNoPartition \/ (gid, q) ∈ collect_entries (inst_slices outs)) /\
  forall pid, (gid, pid) ∈ collect_entries (inst_slices outs) -> (q <= pid)%N.
Proof using Hready Horder.
  intros Hall Hlen Hgid. cbv zeta. rewrite find_partition_least; [|by vm_compute|done|].
  - destruct (least_pid_bound gid (collect_entries (inst_slices outs))) as (_ & H2 & H3). split; [done|].
    intros pid Hin. by apply (H2 (gid, pid)).
  - intros [id pid] Hin. apply (slice_entry_iff outs pid id Hall) in Hin as [? _]. cbn. lia.
Qed.

Lemma global_id_lt k n local :
  nodes_ tree !! k = Some n -> (local < instance_count_ n)%N ->
  (instance_start_ n + local < total (instance_count_ <$> nodes_ tree))%N.
Proof using Hready.
  intros Hn Hl. pose proof (built_tree_ok design blocks_of tree blocks_of_some (dr_tree Hready)) as Ht.
  pose proof (node_end _ _ _ (to_inst _ _ _ Ht) k n Hn) as He.
  pose proof (total_take_mono (instance_count_ <$> nodes_ tree) (Datatypes.S k) (length (instance_count_ <$> nodes_ tree))) as Hmono.
  rewrite (take_ge _ (length (instance_count_ <$> nodes_ tree))) in Hmono by done.
  apply lookup_lt_Some in Hn. rewrite length_fmap in Hmono. lia.
Qed.

(** C13: where an instance is found.  For a built hierarchy whose blocks have different
    names and whose instances carry no primary flag, at least one partition, cores and
    placements within 32 bits, fewer partitions than the mark for none and ids within 64
    bits: when the blocks are flattened one by one, merged partition by partition and
    indexed, in any order of the hash tables, the query for the global id of a placed
    instance of any occurrence (local id not 0) returns the first partition whose core
    contains its placement in the design, the composition of the placements on its path,
    or, if no core does, the first of the nearest (distances along an axis from 2^30 on
    count as equal); the partitions that hold a copy are that one and exactly those whose extend rectangle contains the placement, and each copy has
    the coordinates of the design, with the primary flag in the partition returned; the
    query for an instance that is not placed returns no partition. *)
Theorem instance_query_primary outs k n b nets local inst :
  flatten_all = Some outs -> no_primary -> Forall (fun q => rect_fits 32 (core_rect_ q)) parts ->
  (N.of_nat (length parts) < kIdMapNoPartition)%N -> (total (instance_count_ <$> nodes_ tree) <= 2 ^ 64)%N ->
  nodes_ tree !! k = Some n -> (b, nets) ∈ defs -> block_cell_name_ n = block_name_ b ->
  instances_ b !! local = Some inst -> local <> 0%N ->
  point_fits 32 (offset_ (composite_transform_ n)) -> point_fits 32 (offset_ (transform_ inst)) ->
  let gid := global_instance_id tree k local in
  let found := find_partition kIdMapSegmentBits (ds_merge_id_partition_slices kIdMapSegmentBits (inst_slices outs)) gid in
  (placement_status_ inst = UNPLACED -> found = kIdMapNoPartition) /\
  (placement_status_ inst <> UNPLACED -> exists g j q,
     compose 64 (composite_transform_ n) (transform_ inst) = Some g /\
     parts !! j = Some q /\ assigned (offset_ g) parts j q /\ found = N.of_nat j /\
     forall pid i, p_instances (merged outs pid) !! gid = Some i <->
       (pid = N.of_nat j \/ exists k r, pid = N.of_nat k /\ parts !! k = Some r /\ contains (extend_rect_ r) (offset_ g) = true) /\
       i = instance_copy inst g (bool_decide (pid = N.of_nat j))).
Proof using Hready Horder.
  intros Hall Hnp Hf Hlen Htot Hn Hb Hname Hi Hl Ht Ht'. pose proof (list_elem_of_lookup_2 _ _ _ Hn) as Hnn.
  pose proof (occurrence_range n b nets local inst Hnn Hb Hname Hi) as Hr.
  assert (instance_at n b local inst) as Hat by (split; [done|split; [done|split; [by exists nets|done]]]).
  assert (global_instance_id tree k local = (instance_start_ n + local)%N) as ->.
  { unfold global_instance_id. rewrite Hn, (proj2 (N.eqb_neq _ _)), (proj2 (N.leb_gt _ _)) by lia. done. }
  cbv zeta. destruct (query_least outs (instance_start_ n + local)%N Hall Hlen) as [Hq Hmin].
  { pose proof (global_id_lt k n local Hn Hr). lia. }
  set (found := find_partition _ _ _) in *. split.
  - intros Hu. destruct Hq as [?|Hq]; [done|]. apply (slice_entry_iff outs _ _ Hall) in Hq as (_ & i & n' & b' & Hs & _).
    destruct (proj1 (stored_iff found _ _ _ _ i Hat)) as (_ & Hp & _); [by exists n', b'|]. by cbn in Hp.
  - intros Hp. destruct (compose_32 _ _ Ht Ht') as (g & Hg & Hgf).
    destruct (assign_point_ok (offset_ g) parts (dr_parts Hready) Hgf Hf) as (pa & j & q & Hpa & Ej & Hj & Has & _ & Hcop).
    exists g, j, q. do 3 (split; [done|]). rewrite <- Ej.
    assert (primary pa ∈ copies pa) as Hin by (apply Hcop; by left).
    assert (primary pa < N.of_nat (length parts))%N as Hlt by (apply lookup_lt_Some in Hj; lia).
    pose proof (fun pid => primary_entry outs n b local inst g pa pid Hnp Hall Hat Hl Hp Hg Hpa Hin Hlt) as Hent.
    split.
    + destruct Hq as [E|Hq]; [|by apply Hent in Hq]. specialize (Hmin (primary pa) ltac:(by apply Hent)). lia.
    + intros pid i. rewrite <- Hcop, (design_insts outs _ _ _ Hall), (stored_iff pid _ _ _ _ i Hat). split.
      * intros (_ & _ & _ & g' & pa' & Hg' & Hpa' & Hc & ->). cbn [snd] in *. rewrite Hg in Hg'. injection Hg' as <-.
        rewrite Hpa in Hpa'. by injection Hpa' as <-.
      * intros [Hc ->]. split; [done|]. split; [done|]. split; [done|]. by exists g, pa.
Qed.
End design_query.

(** * No overflow *)

Lemma apply_40 t p : point_fits 32 (offset_ t) -> point_fits 40 p -> exists q, apply 64 t p = Some q /\ point_fits 63 q.
Proof.
  intros [Hx Hy] [Hpx Hpy]. unfold fits in *. assert (point_fits 63 (image t p)) as Hi.
  { destruct t as [[tx ty] o], p as [px py]. unfold point_fits, fits. cbn in *. destruct o; cbn; lia. }
  rewrite apply_complete; [by eexists|unfold fits; lia..|]. destruct Hi as [H1 H2]. unfold point_fits, fits in *. lia.
Qed.

Lemma apply_box_40 t r : point_fits 32 (offset_ t) -> rect_ok r -> rect_fits 40 r -> is_Some (apply_box 64 t r).
Proof.
  intros Ht Hr (H1 & H2 & H3 & H4). unfold apply_box. rewrite decide_True by done.
  destruct (apply_40 t (GEOPoint (x_low_ r) (y_low_ r)) Ht) as (c1 & -> & _); [done|].
  destruct (apply_40 t (GEOPoint (x_high_ r) (y_low_ r)) Ht) as (c2 & -> & _); [done|].
  destruct (apply_40 t (GEOPoint (x_high_ r) (y_high_ r)) Ht) as (c3 & -> & _); [done|].
  destruct (apply_40 t (GEOPoint (x_low_ r) (y_high_ r)) Ht) as (c4 & -> & _); [done|]. done.
Qed.

Section total.
Context {B : Type} `{!DSNameBackend B}.
Context (order_conns : gmap N (list DSNetConnection) -> list (N * list DSNetConnection)).
Context (order_insts : gmap N DSInstance -> list (N * DSInstance)).
Context (order_nets : gset N -> list N).
Context (Horder : forall m e, e ∈ order_insts m <-> m !! e.1 = Some e.2).
Context (design : DSDesign) (block : DSBlockBuildData B) (nets : DSNetBuildData) (parts : list DSSubPartition).

Definition rect32 (r : GEORectT) : Prop := rect_ok r /\ rect_fits 32 r.

(** The coordinates of the inputs are 32-bit integers, rectangles have their corners
    in order and widths are not negative. *)
Record inputs_32 : Prop := {
  i32_parts : parts <> []; i32_cores : Forall (fun q => rect_fits 32 (core_rect_ q)) parts;
  i32_insts l inst : instances_ block !! l = Some inst -> point_fits 32 (offset_ (transform_ inst));
  i32_wires k ws w : wires_ nets !! k = Some ws -> w ∈ ws -> 0 <= wire_width_ w < 2 ^ 31 /\ Forall (point_fits 32) (wire_points_ w);
  i32_rects k rs r : rects_ nets !! k = Some rs -> r ∈ rs -> rect32 (net_rect_ r);
  i32_vias k v : via_instances_ nets !! k = Some v -> point_fits 32 (via_pos_ v);
  i32_cells k c : via_cells_ design !! k = Some c ->
    Forall rect32 (cut_rects_ c) /\ Forall rect32 (bottom_enclosure_ c) /\ Forall rect32 (top_enclosure_ c);
  i32_obs : Forall (fun o => rect32 (rect_ o)) (obstructions_ block);
}.

Context (Hin : inputs_32) (node : DSHierNode) (Hnode : point_fits 32 (offset_ (composite_transform_ node))).

Lemma assign_total p : point_fits 63 p -> is_Some (assign_point p parts).
Proof using Hin.
  intros Hp. destruct (assign_point_ok p parts (i32_parts Hin) Hp (i32_cores Hin)) as (pa & _ & _ & -> & _). done.
Qed.

Lemma placement_total inst :
  point_fits 32 (offset_ (transform_ inst)) ->
  exists g pa, compose 64 (composite_transform_ node) (transform_ inst) = Some g /\ assign_point (offset_ g) parts = Some pa.
Proof using Hin Hnode.
  intros Hi. destruct (compose_32 _ _ Hnode Hi) as (g & Hg & Hf). destruct (assign_total _ Hf) as [pa Hpa]. by exists g, pa.
Qed.

Lemma place_shape_total layer via prim r : rect_ok r -> rect_fits 40 r -> is_Some (place_shape node layer via prim r).
Proof using Hnode.
  intros Hr Hf. unfold place_shape. destruct (apply_box_40 _ r Hnode Hr Hf) as [r' ->]. done.
Qed.

Lemma rect32_40 r : rect32 r -> rect_ok r /\ rect_fits 40 r.
Proof. intros [Hr (H1 & H2 & H3 & H4)]. split; [done|]. unfold rect_fits, fits in *. lia. Qed.

Lemma wire_shapes_total w :
  0 <= wire_width_ w < 2 ^ 31 -> Forall (point_fits 32) (wire_points_ w) -> is_Some (wire_shapes node w).
Proof using Hnode.
  intros Hw Hp. unfold wire_shapes. apply mapM_is_Some, Forall_forall. intros [p0 p1] Hz.
  apply list_elem_of_lookup in Hz as [k Hk]. apply lookup_zip_with_Some in Hk as (a & b & [= <- <-] & Ha & Hb).
  rewrite lookup_drop in Hb. unfold Basics.compose. cbn [fst snd].
  destruct (Forall_lookup_1 _ _ _ _ Hp Ha) as [A1 A2], (Forall_lookup_1 _ _ _ _ Hp Hb) as [B1 B2].
  pose proof (Z.quot_pos (wire_width_ w) 2 ltac:(lia) ltac:(lia)).
  assert (wire_width_ w ÷ 2 < 2 ^ 31) by (apply Z.quot_lt_upper_bound; lia).
  unfold fits in *. unfold wire_segment. rewrite rect64_eq by (unfold rect_fits, fits; cbn; lia). cbn [mbind option_bind].
  apply place_shape_total; unfold rect_ok, rect_fits, fits; cbn; lia.
Qed.

Lemma via_shapes_total v : is_Some (via_shapes design nets parts node v).
Proof using Hin Hnode.
  unfold via_shapes. destruct (via_instances_ nets !! v) as [vi|] eqn:Ev; [|done]. cbn [mbind option_bind].
  destruct (via_cells_ design !! _) as [vc|] eqn:Ec; [|done]. cbn [mbind option_bind].
  pose proof (i32_vias Hin _ _ Ev) as Hpos. destruct (i32_cells Hin _ _ Ec) as (C1 & C2 & C3).
  destruct (apply_40 _ (via_pos_ vi) Hnode) as (p & -> & Hp).
  { destruct Hpos. unfold point_fits, fits in *. lia. }
  cbn [mbind option_bind]. destruct (assign_total p Hp) as [pa ->]. cbn [mbind option_bind].
  assert (forall layer rs, Forall rect32 rs -> is_Some (mapM (fun r => local ← moved (via_pos_ vi) r; place_shape node layer (via_cell_id_ vi)
    (Some (primary pa)) local) rs)) as Hg.
  { intros layer rs Hrs. apply mapM_is_Some. eapply Forall_impl; [exact Hrs|]. intros r [[R1 R2] (F1 & F2 & F3 & F4)].
    destruct Hpos. unfold fits in *. unfold Basics.compose, moved. rewrite rect64_eq by (unfold rect_fits, fits; cbn; lia). cbn [mbind option_bind].
    apply place_shape_total; unfold rect_ok, rect_fits, fits; cbn; lia. }
  destruct (Hg (if is_valid_id table_bits (cut_layer_id_ vc) then cut_layer_id_ vc else bottom_layer_id_ vc) _ C1) as [s1 ->].
  destruct (Hg (bottom_layer_id_ vc) _ C2) as [s2 ->], (Hg (top_layer_id_ vc) _ C3) as [s3 ->]. done.
Qed.

Lemma net_shapes_total k : is_Some (net_shapes design nets parts node k).
Proof using Hin Hnode.
  unfold net_shapes.
  assert (is_Some (mapM (wire_shapes node) (default [] (wires_ nets !! k)))) as [ws ->].
  { apply mapM_is_Some, Forall_forall. intros w Hw. destruct (wires_ nets !! k) as [l|] eqn:E; [|by apply elem_of_nil in Hw].
    destruct (i32_wires Hin _ _ _ E Hw). by apply wire_shapes_total. }
  assert (is_Some (mapM (rect_shape node) (default [] (rects_ nets !! k)))) as [rs ->].
  { apply mapM_is_Some, Forall_forall. intros r Hr. destruct (rects_ nets !! k) as [l|] eqn:E; [|by apply elem_of_nil in Hr].
    destruct (rect32_40 _ (i32_rects Hin _ _ _ E Hr)). by apply place_shape_total. }
  assert (is_Some (mapM (via_shapes design nets parts node) (default [] (net_via_ids_ nets !! k)))) as [vs ->].
  { apply mapM_is_Some, Forall_forall. intros. apply via_shapes_total. }
  done.
Qed.

Lemma conn_entry_total self c : is_Some (conn_entry block parts node self c).
Proof using Hin Hnode.
  unfold conn_entry. destruct (f_port _); [done|]. destruct (instances_ block !! _) as [inst|] eqn:E; [|done].
  destruct (decide _); [done|]. destruct (placement_total inst (i32_insts Hin _ _ E)) as (g & pa & -> & Hpa).
  cbn [mbind option_bind]. by rewrite Hpa.
Qed.

Lemma place_net_total self out k : is_Some (place_net design block nets parts node self out k).
Proof using Hin Hnode.
  unfold place_net. destruct (net_shapes_total k) as [shapes ->]. cbn [mbind option_bind].
  destruct (foldl _ _ shapes) as [o hits]. destruct (decide _); [done|]. destruct (default [] _) as [|c conns]; [done|].
  assert (is_Some (mapM (conn_entry block parts node self) (c :: conns))) as [es ->]; [|done].
  apply mapM_is_Some, Forall_forall. intros. apply conn_entry_total.
Qed.

Lemma flatten_node_total out :
  is_Some (flatten_node order_conns order_insts order_nets design block nets parts node out).
Proof using Hin Hnode Horder.
  unfold flatten_node. destruct (assign_total (offset_ (composite_transform_ node))) as [self ->].
  { destruct Hnode. unfold point_fits, fits in *. lia. }
  cbn [mbind option_bind].
  destruct (ofold_total (place_instance parts node (conn_bucket order_conns nets node))
    (order_insts (instances_ block)) out) as [o1 ->].
  { intros [l inst] s He%Horder. unfold place_instance. destruct (l =? 0)%N; [done|]. destruct (decide _); [done|].
    destruct (placement_total inst (i32_insts Hin _ _ He)) as (g & pa & -> & Hpa). cbn [mbind option_bind]. by rewrite Hpa. }
  cbn [mbind option_bind].
  destruct (ofold_total (place_net design block nets parts node self) (order_nets (geo_nets nets))
    (place_self node (conn_bucket order_conns nets node) self o1)) as [o2 ->]; [intros; apply place_net_total|].
  cbn [mbind option_bind]. apply ofold_total. intros o s Ho. unfold place_obstruction.
  pose proof (i32_obs Hin) as Hobs. rewrite Forall_forall in Hobs. destruct (rect32_40 _ (Hobs o Ho)) as [Hr Hf].
  destruct (apply_box_40 _ _ Hnode Hr Hf) as [r ->]. done.
Qed.
End total.

(** C39: expanding a block never overflows.  When the coordinates of a block, of its
    nets, of the via cells, of the cores and of the placements in the tree are 32-bit
    integers (as their types are), rectangles have their corners in order, widths are not
    negative and there is a partition, then every transform, every capped distance with its
    square and sum, and every corner of a segment or of a moved via is computed within 64
    bits, and [ds_flatten_block] returns its products, whatever the tree and the block. *)
Theorem flatten_in_64_bits {B : Type} `{!DSNameBackend B} order_conns order_insts order_nets design
    (block : DSBlockBuildData B) nets parts tree :
  (forall m e, e ∈ order_insts m <-> m !! e.1 = Some e.2) -> inputs_32 design block nets parts ->
  (forall i n, nodes_ tree !! i = Some n -> id_ n = i /\ point_fits 32 (offset_ (composite_transform_ n))) ->
  exists out, ds_flatten_block order_conns order_insts order_nets design block nets parts tree = Some out.
Proof.
  intros Ho Hin Ht. unfold ds_flatten_block. destruct (decide _) as [_|_]; [by eexists|].
  apply ofold_total. intros pos s (n & -> & [_ [k Hk]%list_elem_of_lookup]%list_elem_of_filter)%list_elem_of_fmap.
  destruct (Ht k n Hk) as [-> Hf]. rewrite Hk. cbn [mbind option_bind]. by apply flatten_node_total.
Qed.

(** * The geometry of a net *)

Definition geom (pg : bool) (out : products) (pid : N) : DSPartitionGeometry :=
  match product_of pid out with
  | Some p => if pg then p_geometry_pg p else p_geometry p
  | None => new_geometry
  end.

Lemma geom_update pg pid f out k :
  geom pg (update_product pid (set_geometry pg f) out) k = if decide (k = pid) then f (geom pg out pid) else geom pg out k.
Proof.
  unfold geom. rewrite product_of_update. destruct (decide (k = pid)); [|done].
  destruct (product_of pid out); cbn; by destruct pg.
Qed.

Lemma geom_keep pg pid f out k :
  (forall p, p_geometry (f p) = p_geometry p /\ p_geometry_pg (f p) = p_geometry_pg p) ->
  geom pg (update_product pid f out) k = geom pg out k.
Proof.
  intros Hf. unfold geom. rewrite product_of_update. destruct (decide (k = pid)) as [->|]; [|done].
  destruct (Hf (default (fresh_product pid) (product_of pid out))) as [-> ->].
  destruct (product_of pid out); cbn; by destruct pg.
Qed.

(** The entries of a net in a partition. *)
Definition entries (pg : bool) (out : products) (pid net : N) : list DSGeomEntry :=
  default [] (entries_of (geom pg out pid) net).

(** The entry of a shape in partition [k], if it touches its extend rectangle and fits. *)
Definition entry_in (k : nat) (q : DSSubPartition) (s : shape) : option DSGeomEntry :=
  if overlaps_extend (sh_rect s) (extend_rect_ q) then
    r ← to_i32_rect (sh_rect s);
    Some {| g_layer_id_ := sh_layer s; g_rect_ := r; g_via_cell_id_ := sh_via s; g_obs := false;
            g_primary := bool_decide (sh_primary s = Some (N.of_nat k)) |}
  else None.

Section geometry.
Context (pg : bool) (net : N).

Lemma spread_one_spec s st e k :
  entries pg (spread_one pg net s st e).1 k net =
    entries pg st.1 k net ++ (if decide (k = N.of_nat e.1) then option_list (entry_in e.1 e.2 s) else []) /\
  crossing_nets_ (geom pg (spread_one pg net s st e).1 k) = crossing_nets_ (geom pg st.1 k) /\
  (k ∈ (spread_one pg net s st e).2 <-> k ∈ st.2 \/ k = N.of_nat e.1 /\ is_Some (entry_in e.1 e.2 s)).
Proof.
  destruct st as [out hits], e as [i q]. unfold spread_one, entry_in. cbn [fst snd].
  destruct (overlaps_extend _ _).
  2: { cbn [fst snd]. destruct (decide _); cbn; rewrite app_nil_r; (split; [done|split; [done|]]); split; [by left| |by left|];
       by intros [?|[_ [? ?]]]. }
  destruct (to_i32_rect _) as [r|]; cbn [mbind option_bind option_list fst snd].
  2: { destruct (decide _); cbn; rewrite app_nil_r; (split; [done|split; [done|]]); split; [by left| |by left|];
       by intros [?|[_ [? ?]]]. }
  unfold entries, entries_of. rewrite !geom_update. destruct (decide (k = N.of_nat i)) as [->|Hne]; cbn.
  - unfold push_at. rewrite lookup_insert_eq. cbn. split; [done|]. split; [done|]. rewrite elem_of_union, elem_of_singleton.
    split; [intros _; right; split; [done|by eexists]|]. by left.
  - rewrite app_nil_r. split; [done|]. split; [done|]. rewrite elem_of_union, elem_of_singleton. split.
    + intros [?|?]; [done|by left].
    + intros [?|[? _]]; [by right|done].
Qed.

(** Numbered partitions from [off] on. *)
Lemma spread_from s parts off st k :
  entries pg (foldl (spread_one pg net s) st (imap (fun i q => ((off + i)%nat, q)) parts)).1 k net =
    entries pg st.1 k net ++ (if decide (N.of_nat off <= k)%N then
      match parts !! (N.to_nat k - off)%nat with Some q => option_list (entry_in (N.to_nat k) q s) | None => [] end else []) /\
  crossing_nets_ (geom pg (foldl (spread_one pg net s) st (imap (fun i q => ((off + i)%nat, q)) parts)).1 k) =
    crossing_nets_ (geom pg st.1 k) /\
  (k ∈ (foldl (spread_one pg net s) st (imap (fun i q => ((off + i)%nat, q)) parts)).2 <->
   k ∈ st.2 \/ (N.of_nat off <= k)%N /\ exists q, parts !! (N.to_nat k - off)%nat = Some q /\ is_Some (entry_in (N.to_nat k) q s)).
Proof.
  revert off st. induction parts as [|q parts IH]; intros off st.
  { cbn. destruct (decide _); rewrite ?app_nil_r; (split; [done|split; [done|]]); (split; [by left|]); by intros [?|(_ & ? & ? & _)]. }
  cbn [imap foldl]. rewrite Nat.add_0_r.
  destruct (spread_one_spec s st (off, q) k) as (E1 & E2 & E3). cbn [fst snd] in E1, E3.
  set (st1 := spread_one pg net s st (off, q)) in *.
  assert (imap ((fun i q0 => ((off + i)%nat, q0)) ∘ S) parts = imap (fun i q0 => ((S off + i)%nat, q0)) parts) as ->.
  { apply imap_ext. intros i x _. cbn. f_equal. lia. }
  destruct (IH (S off) st1) as (I1 & I2 & I3). rewrite I1, I2, I3, E1, E2, E3. clear IH I1 I2 I3 E1 E2 E3.
  destruct (decide (k = N.of_nat off)) as [->|Hne].
  - rewrite decide_False by lia. rewrite decide_True by lia. rewrite Nat2N.id, Nat.sub_diag. cbn [lookup list_lookup]. rewrite app_nil_r.
    split; [done|]. split; [done|]. split.
    + intros [[?|[_ ?]]|[? _]]; [by left|right; split; [lia|by exists q]|lia].
    + intros [?|(_ & q' & [= <-] & ?)]; [by left; left|by left; right].
  - rewrite app_nil_r. split; [f_equal; destruct (decide (N.of_nat (S off) <= k)%N) as [H|H]|].
    + rewrite decide_True by lia. replace (N.to_nat k - off)%nat with (S (N.to_nat k - S off)) by lia. done.
    + rewrite decide_False by lia. done.
    + split; [done|]. split.
      * intros [[?|[? _]]|(H & q' & Hq & Hs)]; [by left|done|]. right. split; [lia|]. exists q'.
        replace (N.to_nat k - off)%nat with (S (N.to_nat k - S off)) by lia. done.
      * intros [?|(H & q' & Hq & Hs)]; [by left; left|]. right. split; [lia|]. exists q'.
        replace (N.to_nat k - off)%nat with (S (N.to_nat k - S off)) in Hq by lia. done.
Qed.
End geometry.

Lemma spread_rect_spec pg net parts s st k q :
  parts !! k = Some q ->
  entries pg (spread_rect parts pg net st s).1 (N.of_nat k) net =
    entries pg st.1 (N.of_nat k) net ++ option_list (entry_in k q s) /\
  crossing_nets_ (geom pg (spread_rect parts pg net st s).1 (N.of_nat k)) = crossing_nets_ (geom pg st.1 (N.of_nat k)).
Proof.
  intros Hq. destruct (spread_from pg net s parts 0 st (N.of_nat k)) as (E1 & E2 & _).
  rewrite decide_True, Nat2N.id, Nat.sub_0_r, Hq in E1 by lia. done.
Qed.

(** Shape [s] leaves an entry in partition [pid]. *)
Definition lands_in (parts : list DSSubPartition) (s : shape) (pid : N) : Prop :=
  exists q, parts !! N.to_nat pid = Some q /\ is_Some (entry_in (N.to_nat pid) q s).

Lemma spread_rect_hits pg net parts s st pid :
  pid ∈ (spread_rect parts pg net st s).2 <-> pid ∈ st.2 \/ lands_in parts s pid.
Proof.
  destruct (spread_from pg net s parts 0 st pid) as (_ & _ & E). rewrite Nat.sub_0_r in E. unfold spread_rect, lands_in.
  cbn [Nat.add] in E. rewrite E. split; (intros [?|H]; [by left|right]); [by destruct H|]. split; [lia|done].
Qed.

Lemma spread_shapes_spec pg net parts shapes st k q :
  parts !! k = Some q ->
  entries pg (foldl (spread_rect parts pg net) st shapes).1 (N.of_nat k) net =
    entries pg st.1 (N.of_nat k) net ++ omap (entry_in k q) shapes /\
  crossing_nets_ (geom pg (foldl (spread_rect parts pg net) st shapes).1 (N.of_nat k)) =
    crossing_nets_ (geom pg st.1 (N.of_nat k)) /\
  forall pid, pid ∈ (foldl (spread_rect parts pg net) st shapes).2 <->
    pid ∈ st.2 \/ exists s, s ∈ shapes /\ lands_in parts s pid.
Proof.
  intros Hq. revert st. induction shapes as [|s shapes IH]; intros st; cbn [foldl].
  { cbn. rewrite app_nil_r. split; [done|]. split; [done|]. intros pid. split; [by left|]. by intros [?|(? & ?%elem_of_nil & _)]. }
  destruct (IH (spread_rect parts pg net st s)) as (-> & -> & I3).
  destruct (spread_rect_spec pg net parts s st k q Hq) as [-> ->]. split; [|split; [done|]].
  - rewrite <- app_assoc. f_equal. cbn [omap list_omap]. by destruct (entry_in k q s).
  - intros pid. rewrite I3, spread_rect_hits. split.
    + intros [[?|?]|(s' & ? & ?)]; [by left|right; exists s; split; [by left|done]|right; exists s'; split; [by right|done]].
    + intros [?|(s' & [->|?]%elem_of_cons & ?)]; [by left; left|by left; right|right; by exists s'].
Qed.

Lemma two_elements (X : gset N) x : x ∈ X -> (1 < size X)%nat <-> exists y, y ∈ X /\ y <> x.
Proof.
  intros Hx. split.
  - intros Hs. destruct (decide (X ∖ {[x]} = ∅)) as [E|E].
    + assert (X ⊆ {[x]}) as Hsub.
      { intros z Hz. destruct (decide (z = x)) as [->|Hne]; [by apply elem_of_singleton|].
        assert (z ∈ X ∖ {[x]}) as Hd by (apply elem_of_difference; split; [done|by rewrite elem_of_singleton]).
        rewrite E in Hd. by apply elem_of_empty in Hd. }
      apply subseteq_size in Hsub. rewrite size_singleton in Hsub. lia.
    + apply set_choose_L in E as [y [Hy Hne]%elem_of_difference]. exists y. split; [done|].
      intros ->. by apply Hne, elem_of_singleton.
  - intros (y & Hy & Hne). assert (({[x]} ∪ {[y]} : gset N) ⊆ X) as Hsub.
    { intros z [->%elem_of_singleton| ->%elem_of_singleton]%elem_of_union; done. }
    apply subseteq_size in Hsub. rewrite size_union, !size_singleton in Hsub; [lia|].
    intros z ->%elem_of_singleton ?%elem_of_singleton. done.
Qed.

Lemma mark_crossings_spec pg net hits out k n' :
  entries pg (mark_crossings pg net hits out) k n' = entries pg out k n' /\
  (net ∈ crossing_nets_ (geom pg (mark_crossings pg net hits out) k) <->
   net ∈ crossing_nets_ (geom pg out k) \/ k ∈ hits /\ (1 < size hits)%nat).
Proof.
  unfold mark_crossings. destruct (decide (1 < size hits)%nat) as [Hs|Hs]; [|split; [done|]; split; [by left|by intros [?|[_ ?]]]].
  assert (forall l o, entries pg (foldl (fun out pid => update_product pid (set_geometry pg (mark_crossing net)) out) o l) k n' =
      entries pg o k n' /\
    (net ∈ crossing_nets_ (geom pg (foldl (fun out pid => update_product pid (set_geometry pg (mark_crossing net)) out) o l) k) <->
     net ∈ crossing_nets_ (geom pg o k) \/ k ∈ l)) as H.
  { induction l as [|pid l IH]; intros o; cbn [foldl]; [split; [done|]; split; [by left|by intros [?|?%elem_of_nil]]|].
    destruct (IH (update_product pid (set_geometry pg (mark_crossing net)) o)) as [-> ->]. unfold entries, entries_of.
    rewrite geom_update. destruct (decide (k = pid)) as [->|Hne]; (split; [done|]); rewrite elem_of_cons; [|tauto].
    cbn. rewrite elem_of_union, elem_of_singleton. tauto. }
  destruct (H (elements hits) out) as [-> ->]. split; [done|]. rewrite elem_of_elements. tauto.
Qed.

Lemma put_nets_geom pg pg' net use es out pid k : geom pg (put_nets pg' net use es out pid) k = geom pg out k.
Proof.
  unfold put_nets, put_net. destruct pg'; [destruct ((filter _ _).*1); [done|]|]; by apply geom_keep.
Qed.

(** the geometry of a net.  After a net has been placed, every partition holds, in
    the order of its wires, rectangles and vias, one entry for each shape of the net
    that touches the partition's extend rectangle and fits 32 bits, and nothing else
    new; a via's entry is primary in the partition that owns the via.  The net is
    marked as crossing in a partition exactly when an entry was left there and in
    another partition. *)
Theorem net_geometry_exact {B : Type} `{!DSNameBackend B} design (block : DSBlockBuildData B) nets parts node self out net out' k q :
  place_net design block nets parts node self out net = Some out' -> parts !! k = Some q ->
  let pg := is_pg_net nets net in
  let gnet := (net_start_ node + net)%N in
  exists shapes, net_shapes design nets parts node net = Some shapes /\
  entries pg out' (N.of_nat k) gnet = entries pg out (N.of_nat k) gnet ++ omap (entry_in k q) shapes /\
  (is_crossing (geom pg out' (N.of_nat k)) gnet = true <->
   is_crossing (geom pg out (N.of_nat k)) gnet = true \/
   (exists s, s ∈ shapes /\ lands_in parts s (N.of_nat k)) /\
   (exists s pid, s ∈ shapes /\ lands_in parts s pid /\ pid <> N.of_nat k)).
Proof.
  unfold place_net. intros (shapes & Hsh & H)%bind_Some Hq. cbv zeta. exists shapes. split; [done|].
  set (pg := is_pg_net nets net) in *. set (gnet := (net_start_ node + net)%N) in *.
  destruct (spread_shapes_spec pg gnet parts shapes (out, ∅) k q Hq) as (S1 & S2 & S3).
  destruct (foldl _ _ shapes) as [o1 hits]. cbn [fst snd] in *.
  assert (forall pid, pid ∈ hits <-> exists s, s ∈ shapes /\ lands_in parts s pid) as Hhits by set_solver.
  unfold is_crossing. rewrite !bool_decide_eq_true.
  assert (geom pg out' (N.of_nat k) = geom pg (mark_crossings pg gnet hits o1) (N.of_nat k)) as Eg.
  { destruct (decide (hits = ∅)) as [->|]; [injection H as <-; unfold mark_crossings; by rewrite decide_False by (rewrite size_empty; lia)|].
    destruct (default [] _); [by injection H as <-|]. apply bind_Some in H as (es & _ & [= <-]).
    apply (foldl_same (fun o => geom pg o (N.of_nat k))). intros. apply put_nets_geom. }
  destruct (mark_crossings_spec pg gnet hits o1 (N.of_nat k) gnet) as [M1 M2].
  split; [unfold entries; rewrite Eg; fold (entries pg (mark_crossings pg gnet hits o1) (N.of_nat k) gnet); by rewrite M1|].
  rewrite Eg, M2, S2, <- Hhits. split; (intros [?|[H1 H2]]; [by left|right; split; [done|]]).
  - apply (two_elements hits (N.of_nat k) H1) in H2 as (y & (s & ? & ?)%Hhits & ?). by exists s, y.
  - apply (two_elements hits (N.of_nat k) H1). destruct H2 as (s & y & ? & ? & ?). exists y. split; [|done].
    apply Hhits. by exists s.
Qed.

(** * Samples

    The design of two blocks, cut at x = 15 with a margin; B has one net with a wire
    along its instance. *)

Definition sample_parts : list DSSubPartition :=
  [{| partition_id_ := 0; xp_ := 0; yp_ := 0; core_rect_ := GEORect 0 0 15 80; extend_rect_ := GEORect int_min int_min 17 int_max |};
   {| partition_id_ := 1; xp_ := 1; yp_ := 0; core_rect_ := GEORect 15 0 80 80; extend_rect_ := GEORect 11 int_min int_max int_max |}].

Definition sample_conn (inst : N) : DSNetConnection :=
  {| instance_local_id_ := inst; pin_id_ := 0; conn_port := false; conn_driver := true; conn_receiver := false;
     conn_power := false; conn_ground := false; conn_clock := false |}.
Definition sample_wire : DSNetWire :=
  {| wire_layer_id_ := 0; wire_width_ := 2; wire_points_ := [GEOPoint 0 0; GEOPoint 4 0] |}.
Definition sample_nets : DSNetBuildData := parsed_nets [AddWire 1 sample_wire; AddConnection 1 (sample_conn 1)].
(** The same net as a power net without connections. *)
Definition floating_power : DSNetBuildData := parsed_nets [AddWire 1 sample_wire; MarkPg 1; RecordUse 1 POWER].

Definition flat (b : DSBlockBuildData DSHasherBackendHash) (nets : DSNetBuildData) : option products :=
  ds_flatten_block map_to_list map_to_list elements sample_design b nets sample_parts sample_tree.

Lemma map_to_list_order {A} (m : gmap N A) e : e ∈ map_to_list m <-> m !! e.1 = Some e.2.
Proof. destruct e. apply elem_of_map_to_list. Qed.

Definition copies_of (out : option products) : list (N * list (N * Z * bool)) :=
  match out with
  | None => []
  | Some out => (fun e => (e.1, (fun i => (i.1, x_ (offset_ (transform_ i.2)), primary_ i.2)) <$> map_to_list (p_instances e.2))) <$> out
  end.

(** The instance of B at 13 is copied to both partitions, the one at 23 to one. *)
Example sample_copies :
  copies_of (flat sample_B sample_nets) = [(0%N, [(5%N, 13, true)]); (1%N, [(5%N, 13, false); (7%N, 23, true)])].
Proof. vm_compute. reflexivity. Qed.

(** A power net with geometry but without connections in a partition is in
    [GEOMETRY_PG] and in no [NETS_PG], from which the set of power nets is made: the
    query for it says that it is not a power net. *)
Lemma floating_power_not_pg :
  match flat sample_B floating_power with
  | Some out =>
      let slices := (fun e => Some (ds_collect_pg_net_slice map_to_list (p_nets_pg e.2))) <$> out in
      (is_pg (finalize_from_flatten slices {| power_ := ∅; ground_ := ∅ |}) 2,
       (fun e => length (default [] (entries_of (p_geometry_pg e.2) 2))) <$> out)
  | None => (true, [])
  end = (false, [1%nat; 1%nat]).
Proof. vm_compute. reflexivity. Qed.

Lemma point_assigned_witness : exists pa, assign_point (GEOPoint 13 0) sample_parts = Some pa /\ primary pa = 0%N.
Proof.
  destruct (point_assigned (GEOPoint 13 0) sample_parts) as (pa & i & q & E & _ & _ & _ & _ & Hc & _).
  - discriminate.
  - unfold point_fits, fits; cbn; lia.
  - repeat constructor; cbn; lia.
  - exists pa. split; [exact E|]. vm_compute in E. by injection E as <-.
Defined.

Definition sample_defs : list (DSBlockBuildData DSHasherBackendHash * DSNetBuildData) :=
  [(sample_B, sample_nets); (sample_T, new_nets)].

Lemma sample_ready : design_ready sample_design sample_defs [0%N; 4%N] sample_parts sample_tree.
Proof.
  split.
  - discriminate.
  - reflexivity.
  - assert (blocks_of sample_defs [0%N; 4%N] = sample_blocks) as -> by reflexivity. exact sample_build.
  - intros b nets [[= -> ->]|[[= -> ->]|?%elem_of_nil]%elem_of_cons]%elem_of_cons; [| |done];
      apply block_reach_ok; [apply sample_B_reach|apply sample_T_reach].
  - apply (bool_decide_eq_true_1 _). vm_compute. reflexivity.
  - discriminate.
Qed.

Lemma sample_no_primary : no_primary sample_defs.
Proof.
  intros b nets l inst Hb Hl. assert (map_Forall (fun _ i => primary_ i = false) (instances_ b)) as H; [|by apply (H l)].
  apply elem_of_cons in Hb as [[= -> ->]|[[= -> ->]|?%elem_of_nil]%elem_of_cons]; [| |done];
    apply (bool_decide_eq_true_1 _); vm_compute; reflexivity.
Qed.

Lemma instance_query_primary_witness : exists outs,
  flatten_all map_to_list map_to_list elements sample_design sample_defs sample_parts sample_tree = Some outs /\
  find_partition kIdMapSegmentBits (ds_merge_id_partition_slices kIdMapSegmentBits
    (inst_slices map_to_list sample_parts outs)) 7 = 1%N.
Proof.
  destruct (flatten_all map_to_list map_to_list elements sample_design sample_defs sample_parts sample_tree) as [outs|] eqn:E;
    [|exfalso; vm_compute in E; discriminate].
  exists outs. split; [done|].
  assert (exists n, nodes_ sample_tree !! 2%nat = Some n /\ block_cell_name_ n = nB /\
    composite_transform_ n = GEOTransform (GEOPoint 20 0) Geometry.N) as (n & Hn & Hname & Ht)
    by (eexists; split; [vm_compute; reflexivity|split; vm_compute; reflexivity]).
  pose proof (instance_query_primary map_to_list map_to_list elements map_to_list_order sample_design sample_defs [0%N; 4%N]
    sample_parts sample_tree sample_ready outs 2 n sample_B sample_nets 1 (sample_inst 2 3) E sample_no_primary) as Hth.
  cbv zeta in Hth. assert (global_instance_id sample_tree 2 1 = 7%N) as Eid by (vm_compute; reflexivity). rewrite Eid in Hth.
  assert (Forall (fun q => rect_fits 32 (core_rect_ q)) sample_parts) as H1 by (repeat constructor; cbn; lia).
  assert (total (instance_count_ <$> nodes_ sample_tree) <= 2 ^ 64)%N as H2 by (vm_compute; discriminate).
  assert (block_cell_name_ n = block_name_ sample_B) as H3 by (rewrite Hname; vm_compute; reflexivity).
  assert (instances_ sample_B !! 1%N = Some (sample_inst 2 3)) as H4 by (vm_compute; reflexivity).
  assert (point_fits 32 (offset_ (composite_transform_ n))) as H5 by (rewrite Ht; unfold point_fits, fits; cbn; lia).
  assert (point_fits 32 (offset_ (transform_ (sample_inst 2 3)))) as H6 by (unfold point_fits, fits; cbn; lia).
  destruct (Hth H1 ltac:(vm_compute; reflexivity) H2 Hn ltac:(by left) H3 H4 ltac:(discriminate) H5 H6) as [_ H].
  destruct (H ltac:(discriminate)) as (g & j & q & Hg & Hj & Has & Hf & _).
  rewrite Ht in Hg. vm_compute in Hg. injection Hg as <-. rewrite Hf. destruct j as [|[|j]]; [exfalso|reflexivity|discriminate Hj].
  injection Hj as <-. destruct Has as [[Hc _]|[Hno _]]; [vm_compute in Hc; discriminate Hc|]. specialize (Hno 1%nat _ eq_refl). vm_compute in Hno. discriminate Hno.
Defined.

#[local] Instance point_fits_dec w p : Decision (point_fits w p).
Proof. unfold point_fits. apply _. Defined.

Lemma sample_inputs : inputs_32 sample_design sample_B sample_nets sample_parts.
Proof.
  split.
  - discriminate.
  - repeat constructor; cbn; lia.
  - assert (map_Forall (fun _ i => point_fits 32 (offset_ (transform_ i))) (instances_ sample_B)) as H by decide_compute.
    intros l inst Hl. exact (H l inst Hl).
  - assert (map_Forall (fun _ ws => Forall (fun w => 0 <= wire_width_ w < 2 ^ 31 /\ Forall (point_fits 32) (wire_points_ w)) ws)
      (wires_ sample_nets)) as H by decide_compute.
    intros k ws w Hk Hw. specialize (H k ws Hk). rewrite Forall_forall in H. by apply H.
  - intros k rs r Hk. assert (rects_ sample_nets = ∅) as E by (vm_compute; reflexivity). by rewrite E, lookup_empty in Hk.
  - intros k v Hk. assert (via_instances_ sample_nets = ∅) as E by (vm_compute; reflexivity). by rewrite E, lookup_empty in Hk.
  - intros k c Hk. assert (via_cells_ sample_design = []) as E by (vm_compute; reflexivity). by rewrite E in Hk.
  - assert (obstructions_ sample_B = []) as -> by (vm_compute; reflexivity). constructor.
Qed.

Lemma sample_nodes i n :
  nodes_ sample_tree !! i = Some n -> id_ n = i /\ point_fits 32 (offset_ (composite_transform_ n)).
Proof.
  intros Hi. assert (Forall (fun e => id_ e.2 = e.1 /\ point_fits 32 (offset_ (composite_transform_ e.2)))
    (imap pair (nodes_ sample_tree))) as H by decide_compute.
  apply (Forall_lookup_1 _ _ i (i, n) H). by apply lookup_numbered.
Qed.

Lemma flatten_in_64_bits_witness : exists out, flat sample_B sample_nets = Some out.
Proof.
  exact (flatten_in_64_bits map_to_list map_to_list elements sample_design sample_B sample_nets sample_parts sample_tree
    map_to_list_order sample_inputs sample_nodes).
Defined.

(** The wire of the occurrence at 10 covers 9 .. 15 and lies in both partitions. *)
Lemma net_geometry_exact_witness : exists n out',
  place_net sample_design sample_B sample_nets sample_parts n {| primary := 0; copies := [0%N] |} [] 1 = Some out' /\
  length (entries false out' 1 2) = 1%nat /\ is_crossing (geom false out' 1) 2 = true.
Proof.
  assert (exists n, nodes_ sample_tree !! 1%nat = Some n) as [n Hn] by (eexists; vm_compute; reflexivity).
  destruct (place_net sample_design sample_B sample_nets sample_parts n {| primary := 0; copies := [0%N] |} [] 1)
    as [out'|] eqn:E; [|exfalso; vm_compute in Hn; injection Hn as <-; vm_compute in E; discriminate].
  assert (exists q, sample_parts !! 1%nat = Some q) as [q Hq] by (eexists; vm_compute; reflexivity).
  destruct (net_geometry_exact sample_design sample_B sample_nets sample_parts n {| primary := 0; copies := [0%N] |} [] 1 out' 1 q E Hq)
    as (shapes & Hs & He & Hc).
  exists n, out'. split; [done|]. vm_compute in Hn. injection Hn as <-. vm_compute in Hs. injection Hs as <-.
  vm_compute in Hq. injection Hq as <-. split.
  - etransitivity; [exact (f_equal length He)|]. vm_compute. reflexivity.
  - apply Hc. right. split.
    + eexists. split; [by left|]. eexists. split; [vm_compute; reflexivity|]. eexists. vm_compute. reflexivity.
    + eexists _, 0%N. split; [by left|]. split; [|done]. eexists. split; [vm_compute; reflexivity|]. eexists. vm_compute. reflexivity.
Defined.
