(* ===== verification/NetUnion.v ===== *)
(** Nets that are one net across the hierarchy (emir/design/cpp/ds_union.h,
    ds_union.cpp).

    A net of a block that is connected to a port of a child block is electrically
    the same as the net inside the child behind that port.  Each block yields the
    edges between its nets and those of its children, at every occurrence; a union
    find structure with path compression joins them; each class is then represented
    by its net closest to the root of the hierarchy.  Ports without an outer
    connection are classes of their own.  The memo of depths is not modelled.
    [None] is an access to a node that does not exist. *)

From stdpp Require Import base gmap list sets fin_maps sorting relations.
From Stdlib Require Import ZArith NArith Lia.
From S2P Require Import Prelude Bytes NameHasher Geometry BlockData DesignTables HierTree.
Import Corelib.Init.Datatypes(nat(..)) Corelib.Numbers.BinNums(N(..)).
#[local] Open Scope N_scope.

(** [std::unique] on a sorted array: equal neighbours are kept once. *)
Fixpoint unique {A} `{EqDecision A} (l : list A) : list A :=
  match l with
  | x :: (y :: _) as l' => if decide (x = y) then unique l' else x :: unique l'
  | _ => l
  end.

(** [emplace]: the first value of a key stays. *)
Definition emplace_map {K V} `{Countable K} (k : K) (v : V) (m : gmap K V) : gmap K V :=
  match m !! k with Some _ => m | None => <[k := v]> m end.

(** * The slice of one block *)

Record DSNetUnionSlice := { edges_ : list (N * N); port_net_ids_ : list N; slice_block_name_ : bytes }.

(** The order on pairs of ids. *)
Definition pair_le (a b : N * N) : Prop := a.1 < b.1 \/ (a.1 = b.1 /\ a.2 <= b.2).
#[export] Instance pair_le_dec : RelDecision pair_le.
Proof. intros a b. unfold pair_le. apply _. Defined.
#[export] Instance pair_le_trans : Transitive pair_le.
Proof. intros a b c. unfold pair_le. lia. Qed.
#[export] Instance pair_le_total : Total pair_le.
Proof. intros a b. unfold pair_le. lia. Qed.

Definition minmax (a b : N) : N * N := if b <? a then (b, a) else (a, b).

(** Pin, then cell of the child, then the nets behind the port. *)
#[local] Notation PortNets := (gmap N (gmap N (list N))).

Section slice.
(** The order in which a table of connections is traversed. *)
Context (order : gmap N (list DSNetConnection) -> list (N * list DSNetConnection)).
Context (tree : DSHierTree).

Definition cell_id_of_block : gmap bytes N :=
  foldl (fun m n => if is_valid_id table_bits (block_cell_id_ n)
                    then emplace_map (block_cell_name_ n) (block_cell_id_ n) m else m) ∅ (nodes_ tree).

Definition add_port (cell local : N) (m : PortNets) (c : DSNetConnection) : PortNets :=
  if conn_port c then <[pin_id_ c := push_at cell local (default ∅ (m !! pin_id_ c))]> m else m.

(** A child definition: its block name and its nets. *)
Definition add_child (m : PortNets) (child : option (bytes * DSNetBuildData)) : PortNets :=
  match child with
  | None => m
  | Some (name, nets) =>
      match cell_id_of_block !! name with
      | None => m
      | Some cell => foldl (fun m e => foldl (add_port cell e.1) m e.2) m (order (connections_ nets))
      end
  end.

Definition port_pin_nets (children : list (option (bytes * DSNetBuildData))) : PortNets := foldl add_child ∅ children.

Definition port_nets (nets : DSNetBuildData) : list N :=
  unique (merge_sort N.le (omap (fun e => if existsb conn_port e.2 then Some e.1 else None) (order (connections_ nets)))).

Definition positions_of (name : bytes) : list nat := id_ <$> filter (fun n => block_cell_name_ n = name) (nodes_ tree).

Definition node_by_self_id : gmap N nat :=
  foldl (fun m n => emplace_map (self_global_id_ n) (id_ n) m) ∅ (nodes_ tree).

(** The edges of one connection of the net [parent_global] at node [pos]. *)
Definition conn_edges (ports : PortNets) (pos : nat) (parent_global : N) (c : DSNetConnection) : option (list (N * N)) :=
  if conn_port c then Some [] else
  match node_by_self_id !! ((instance_range tree pos).1 + instance_local_id_ c) with
  | None => Some []
  | Some child =>
      n ← nodes_ tree !! child;
      if negb (parent_id_ n =? pos)%nat then Some [] else
      Some (match m ← ports !! pin_id_ c; m !! block_cell_id_ n with
            | None => []
            | Some locals => omap (fun l => let g := global_net_id tree child l in
                if is_valid_id id_bits g then Some (minmax parent_global g) else None) locals
            end)
  end.

Definition net_edges (ports : PortNets) (pos : nat) (e : N * list DSNetConnection) : option (list (N * N)) :=
  let g := global_net_id tree pos e.1 in
  if is_valid_id id_bits g then es ← mapM (conn_edges ports pos g) e.2; Some (concat es) else Some [].

Definition position_edges (ports : PortNets) (nets : DSNetBuildData) (pos : nat) : option (list (N * N)) :=
  es ← mapM (net_edges ports pos) (order (connections_ nets)); Some (concat es).

Definition ds_collect_net_union_slice (name : bytes) (nets : DSNetBuildData)
    (children : list (option (bytes * DSNetBuildData))) : option DSNetUnionSlice :=
  let ports := port_pin_nets children in
  edges ← mapM (position_edges ports nets) (positions_of name);
  Some {| edges_ := unique (merge_sort pair_le (concat edges)); port_net_ids_ := port_nets nets; slice_block_name_ := name |}.
End slice.

(** * The union *)

(** [uf_find]: first the root, then the path is compressed.  A path is no longer
    than the table, which bounds both loops. *)
Fixpoint uf_root (fuel : nat) (parent : gmap N N) (root : N) : option N :=
  match fuel with
  | O => None
  | S fuel =>
      match parent !! root with
      | Some p => if p =? root then Some root else uf_root fuel parent p
      | None => Some root
      end
  end.

Fixpoint compress (fuel : nat) (root x : N) (parent : gmap N N) : option (gmap N N) :=
  if x =? root then Some parent else
  match fuel with
  | O => None
  | S fuel => next ← parent !! x; compress fuel root next (<[x := root]> parent)
  end.

Definition uf_find (x : N) (parent : gmap N N) : option (gmap N N * N) :=
  root ← uf_root (S (size parent)) parent x;
  parent ← compress (size parent) root x parent;
  Some (parent, root).

Definition union_edge (parent : gmap N N) (e : N * N) : option (gmap N N) :=
  let parent := emplace_map e.2 e.2 (emplace_map e.1 e.1 parent) in
  '(parent, ra) ← uf_find e.1 parent;
  '(parent, rb) ← uf_find e.2 parent;
  Some (if ra =? rb then parent else <[ra := rb]> parent).

Definition all_edges (slices : list (option DSNetUnionSlice)) : list (N * N) :=
  concat ((fun s => match s with Some s => edges_ s | None => [] end) <$> slices).

Definition root_block_name (tree : DSHierTree) : bytes :=
  match nodes_ tree with n :: _ => block_cell_name_ n | [] => [] end.

(** The port nets of a slice at every occurrence of its block. *)
Definition slice_ports (tree : DSHierTree) (s : option DSNetUnionSlice) : list N :=
  match s with
  | None => []
  | Some s =>
      if decide (slice_block_name_ s = root_block_name tree) then [] else
      local ← port_net_ids_ s;
      pos ← positions_of tree (slice_block_name_ s);
      let g := global_net_id tree pos local in if is_valid_id id_bits g then [g] else []
  end.

Definition all_ports (tree : DSHierTree) (slices : list (option DSNetUnionSlice)) : list N :=
  concat (slice_ports tree <$> slices).

(** The loop of [hier_depth]; parents have smaller ids, so the number of nodes bounds it. *)
Fixpoint depth_loop (fuel : nat) (tree : DSHierTree) (cur : nat) (depth : N) : option N :=
  if (cur =? 0)%nat || (N.of_nat cur =? kNoNode) then Some depth else
  match fuel with
  | O => None
  | S fuel => n ← nodes_ tree !! cur; depth_loop fuel tree (parent_id_ n) (depth + 1)
  end.
Definition hier_depth (tree : DSHierTree) (node : nat) : option N := depth_loop (length (nodes_ tree)) tree node 0.

Definition net_depth (tree : DSHierTree) (net : N) : option N :=
  let node := block_of_net tree net in
  if node =? kNoNode then Some (2 ^ 32 - 1) else hier_depth tree (N.to_nat node).

Record DSNetUnion := { root_of_ : gmap N N; members_of_ : gmap N (list N); dangling_count_ : nat }.
Definition find (u : DSNetUnion) (net : N) : N := default net (root_of_ u !! net).
Definition members (u : DSNetUnion) (root : N) : option (list N) := members_of_ u !! root.
Definition class_count (u : DSNetUnion) : nat := size (members_of_ u).

Section build.
Context (order_keys : gmap N N -> list N) (order_groups : gmap N (list N) -> list (N * list N)).
Context (tree : DSHierTree).

(** The members by root. *)
Definition group_step (st : gmap N N * gmap N (list N)) (id : N) : option (gmap N N * gmap N (list N)) :=
  '(parent, root) ← uf_find id st.1;
  Some (parent, push_at root id st.2).

(** The first member of least depth. *)
Definition canonical_step (best : N * N) (m : N) : option (N * N) :=
  d ← net_depth tree m; Some (if d <? best.1 then (d, m) else best).
Definition canonical (members : list N) : option N :=
  match members with
  | [] => None
  | m :: _ => d ← net_depth tree m; best ← ofold_option canonical_step members (d, m); Some best.2
  end.

Definition add_class (u : DSNetUnion) (g : N * list N) : option DSNetUnion :=
  let members := merge_sort N.le g.2 in
  c ← canonical members;
  Some {| root_of_ := foldl (fun r m => <[m := c]> r) (root_of_ u) members;
          members_of_ := <[c := members]> (members_of_ u);
          dangling_count_ := dangling_count_ u + if (length members =? 1)%nat then 1 else 0 |}.

Definition ds_build_net_union (slices : list (option DSNetUnionSlice)) : option DSNetUnion :=
  parent ← ofold_option union_edge (all_edges slices) ∅;
  let parent := foldl (fun p g => emplace_map g g p) parent (all_ports tree slices) in
  '(_, groups) ← ofold_option group_step (order_keys parent) (parent, ∅);
  ofold_option add_class (order_groups groups) {| root_of_ := ∅; members_of_ := ∅; dangling_count_ := 0 |}.
End build.

(** * The children of a definition *)

Definition ds_net_union_child_indexes (tree : DSHierTree) (block_names : list bytes) (index : nat) : option (list nat) :=
  match block_names !! index with
  | None => Some []
  | Some name =>
      let index_of : gmap bytes nat := foldl (fun m e => emplace_map e.2 e.1 m) ∅ (imap pair block_names) in
      let children := n ← filter (fun n => block_cell_name_ n = name) (nodes_ tree); children_ids_ n in
      found ← mapM (fun c => n ← nodes_ tree !! c; Some (index_of !! block_cell_name_ n)) children;
      let out := foldl (fun (out : list nat) (i : option nat) => match i with
        | Some i => if decide (i = index \/ i ∈ out) then out else out ++ [i]
        | None => out end) [] found in
      Some (merge_sort Nat.le out)
  end.

(** * Roots *)

(** [x] reaches the root [r] in [n] steps; an id that is not in the table is its own
    root. *)
Inductive root_in (p : gmap N N) : nat -> N -> N -> Prop :=
  | root_absent x : p !! x = None -> root_in p 0 x x
  | root_self x : p !! x = Some x -> root_in p 0 x x
  | root_step n x y r : p !! x = Some y -> x <> y -> root_in p n y r -> root_in p (S n) x r.

Definition is_root (p : gmap N N) (r : N) : Prop := p !! r = None \/ p !! r = Some r.
Definition rooted (p : gmap N N) (x r : N) : Prop := exists n, root_in p n x r.
(** Every chain ends. *)
Definition forest (p : gmap N N) : Prop := forall x, exists r, rooted p x r.

Lemma root_in_root p n x r : root_in p n x r -> is_root p r.
Proof. induction 1; [by left|by right|done]. Qed.

Lemma is_root_rooted p r : is_root p r -> root_in p 0 r r.
Proof. intros [H|H]; by constructor. Qed.

Lemma root_in_det p n x r m s : root_in p n x r -> root_in p m x s -> n = m /\ r = s.
Proof.
  intros H. revert m s. induction H as [x Hx|x Hx|n x y r Hx Hne H IH]; intros m s Hs; inversion Hs; subst; try congruence; [done|done|].
  assert (y0 = y) as -> by congruence. destruct (IH _ _ H2) as [-> ->]. done.
Qed.

Lemma rooted_det p x r s : rooted p x r -> rooted p x s -> r = s.
Proof. intros [n H] [m H']. by destruct (root_in_det _ _ _ _ _ _ H H'). Qed.

(** The ids on the way: one at each distance, all in the table but the last. *)
Lemma root_path p n x r :
  root_in p n x r -> exists l : list N, length l = n /\ NoDup l /\ forall y, y ∈ l -> exists m, (0 < m <= n)%nat /\ root_in p m y r /\ is_Some (p !! y).
Proof.
  induction 1 as [x Hx|x Hx|n x y r Hx Hne H (l & Hl & Hnd & Hin)].
  1,2: exists []; split; [done|]; split; [constructor|]; by intros ? ?%elem_of_nil.
  exists (x :: l). assert (root_in p (S n) x r) as Hr by by eapply root_step. split; [cbn; lia|]. split.
  - apply NoDup_cons. split; [|done]. intros (m & Hm & Hm' & _)%Hin. destruct (root_in_det _ _ _ _ _ _ Hr Hm'). lia.
  - intros z [->|(m & Hm & Hz)%Hin]%elem_of_cons; [|by exists m; split; [lia|]]. exists (S n). split; [lia|]. split; [done|by eexists].
Qed.

Lemma root_in_bound p n x r : root_in p n x r -> (n <= size p)%nat.
Proof.
  intros (l & <- & Hnd & Hin)%root_path. rewrite <- size_dom, <- (size_list_to_set (C := gset N) l) by done.
  apply subseteq_size. intros y Hy%elem_of_list_to_set. apply elem_of_dom. by destruct (Hin y Hy) as (_ & _ & _ & ?).
Qed.

Lemma uf_root_ok p n x r fuel : root_in p n x r -> (n < fuel)%nat -> uf_root fuel p x = Some r.
Proof.
  intros H. revert fuel. induction H as [x Hx|x Hx|n x y r Hx Hne H IH]; intros [|fuel] Hf; try lia; cbn [uf_root]; rewrite Hx; [done| |].
  - by rewrite N.eqb_refl.
  - rewrite (proj2 (N.eqb_neq _ _)) by done. apply IH. lia.
Qed.

(** ** Compression *)

(** A table with the same keys and roots. *)
Definition same_roots (p q : gmap N N) : Prop := dom p = dom q /\ forall x r, rooted p x r -> rooted q x r.

Lemma same_roots_refl p : same_roots p p.
Proof. done. Qed.
Lemma same_roots_trans p q s : same_roots p q -> same_roots q s -> same_roots p s.
Proof. intros [D1 H1] [D2 H2]. split; [congruence|]. eauto. Qed.

(** Pointing [x] at its root shortens chains. *)
Lemma shortcut_ok p k x r : root_in p k x r -> x <> r ->
  (forall n z s, root_in p n z s -> exists m, (m <= n)%nat /\ root_in (<[x := r]> p) m z s) /\ same_roots p (<[x := r]> p).
Proof.
  intros Hx Hne.
  assert (is_Some (p !! x)) as Hsome. { inversion Hx; subst; [done|done|by eexists]. }
  assert (is_root (<[x := r]> p) r) as Hr.
  { destruct (root_in_root _ _ _ _ Hx) as [H|H]; [left|right]; by rewrite lookup_insert_ne. }
  assert (forall n z s, root_in p n z s -> exists m, (m <= n)%nat /\ root_in (<[x := r]> p) m z s) as Hall.
  { induction 1 as [z Hz|z Hz|n z y s Hz Hzy H (m & Hm & IH)].
    - exists 0%nat. split; [done|]. apply root_absent. rewrite lookup_insert_ne; [done|]. intros ->. rewrite Hz in Hsome. by destruct Hsome.
    - exists 0%nat. split; [done|]. apply root_self. rewrite lookup_insert_ne; [done|]. intros ->.
      apply Hne. by destruct (root_in_det _ _ _ _ _ _ Hx (root_self _ _ Hz)) as [_ ->].
    - destruct (decide (z = x)) as [->|Hne'].
      + destruct (root_in_det _ _ _ _ _ _ Hx (root_step _ _ _ _ _ Hz Hzy H)) as [_ <-]. exists 1%nat. split; [lia|].
        eapply root_step; [apply lookup_insert_eq|done|by apply is_root_rooted].
      + exists (S m). split; [lia|]. eapply root_step; [by rewrite lookup_insert_ne|done|done]. }
  split; [done|]. split.
  - rewrite dom_insert_L. apply elem_of_dom in Hsome. symmetry. apply subseteq_union_1_L. by apply singleton_subseteq_l.
  - intros z s [n H]. destruct (Hall _ _ _ H) as (m & _ & ?). by exists m.
Qed.

Lemma compress_ok fuel r x p n :
  root_in p n x r -> (n <= fuel)%nat -> exists q, compress fuel r x p = Some q /\ same_roots p q.
Proof.
  revert x p n. induction fuel as [|fuel IH]; intros x p n Hx Hn; cbn [compress]; destruct (N.eqb_spec x r) as [->|Hne];
    try (by exists p).
  - inversion Hx; subst; [done|done|lia].
  - destruct (shortcut_ok p n x r Hx Hne) as [Hs Hsame]. inversion Hx as [| |k ? y ? Hy Hxy Hyr]; subst; [done|done|].
    rewrite Hy. cbn [mbind option_bind]. destruct (Hs _ _ _ Hyr) as (m & Hm & Hroot).
    destruct (IH y (<[x := r]> p) m Hroot) as (q & Eq & Hq); [lia|]. exists q. split; [done|].
    by eapply same_roots_trans.
Qed.

Lemma uf_find_ok p x r : rooted p x r -> exists q, uf_find x p = Some (q, r) /\ same_roots p q.
Proof.
  intros [n H]. pose proof (root_in_bound _ _ _ _ H) as Hb. unfold uf_find.
  rewrite (uf_root_ok p n x r) by (done || lia). cbn [mbind option_bind].
  destruct (compress_ok (size p) r x p n H Hb) as (q & -> & Hq). by exists q.
Qed.

(** ** Classes *)

Definition linked (p : gmap N N) (x y : N) : Prop := exists r, rooted p x r /\ rooted p y r.

(** Keeping the roots keeps the classes. *)
Lemma roots_linked p q :
  forest p -> (forall x r, rooted p x r -> rooted q x r) -> forest q /\ forall x y, linked q x y <-> linked p x y.
Proof.
  intros Hp H. split; [intros x; destruct (Hp x) as [r ?]; exists r; auto|]. intros x y. split.
  - intros (r & Hx & Hy). destruct (Hp x) as [s Hs], (Hp y) as [t Ht]. exists s. split; [done|].
    rewrite (rooted_det q x s r (H _ _ Hs) Hx), <- (rooted_det q y t r (H _ _ Ht) Hy). done.
  - intros (r & ? & ?). exists r. auto.
Qed.

Lemma emplace_rooted p a x r : rooted p x r -> rooted (emplace_map a a p) x r.
Proof.
  unfold emplace_map. destruct (p !! a) as [v|] eqn:Ea; [done|]. intros [n H]. exists n.
  induction H as [x Hx|x Hx|n x y r Hx Hne H IH].
  - destruct (decide (x = a)) as [->|]; [apply root_self, lookup_insert_eq|]. apply root_absent. by rewrite lookup_insert_ne.
  - apply root_self. rewrite lookup_insert_ne; [done|congruence].
  - eapply root_step; [|done|done]. rewrite lookup_insert_ne; [done|congruence].
Qed.

Lemma emplace_dom (p : gmap N N) a b : dom (emplace_map a b p) = {[a]} ∪ dom p.
Proof.
  unfold emplace_map. destruct (p !! a) eqn:E; [|apply dom_insert_L]. symmetry. apply subseteq_union_1_L, singleton_subseteq_l, elem_of_dom. by eexists.
Qed.

Lemma emplace_linked p a :
  forest p -> forest (emplace_map a a p) /\ forall x y, linked (emplace_map a a p) x y <-> linked p x y.
Proof. intros Hp. apply roots_linked; [done|]. intros. by apply emplace_rooted. Qed.

(** Hanging the root [a] under the root [b]. *)
Lemma link_rooted p a b x r :
  is_root p a -> is_root p b -> a <> b -> rooted p x r -> rooted (<[a := b]> p) x (if decide (r = a) then b else r).
Proof.
  intros Ha Hb Hab [n H]. assert (root_in (<[a := b]> p) 0 b b) as Hb'.
  { apply is_root_rooted. destruct Hb as [Hb|Hb]; [left|right]; by rewrite lookup_insert_ne. }
  assert (root_in (<[a := b]> p) 1 a b) as Ha' by (eapply root_step; [apply lookup_insert_eq|done|done]).
  induction H as [x Hx|x Hx|n x y r Hx Hne H [m IH]].
  - destruct (decide (x = a)) as [->|]; [by exists 1%nat|]. exists 0%nat. apply root_absent. by rewrite lookup_insert_ne.
  - destruct (decide (x = a)) as [->|]; [by exists 1%nat|]. exists 0%nat. apply root_self. by rewrite lookup_insert_ne.
  - exists (S m). eapply root_step; [|done|done]. rewrite lookup_insert_ne; [done|]. intros <-. destruct Ha; congruence.
Qed.

Definition edge (es : list (N * N)) (x y : N) : Prop := (x, y) ∈ es.
(** Electrically one net. *)
Definition joined (es : list (N * N)) : relation N := rtsc (edge es).

#[local] Instance joined_equiv es : Equivalence (joined es).
Proof. unfold joined. apply _. Qed.

Lemma joined_mono es es' x y : es ⊆ es' -> joined es x y -> joined es' x y.
Proof.
  intros Hs. apply rtc_subrel. intros a b [H|H]; [left|right]; by apply Hs.
Qed.

Lemma joined_edge es a b : (a, b) ∈ es -> joined es a b.
Proof. intros H. apply rtc_once. by left. Qed.

Lemma joined_snoc es a b x y :
  joined (es ++ [(a, b)]) x y <->
  joined es x y \/ (joined es x a /\ joined es b y) \/ (joined es x b /\ joined es a y).
Proof.
  split.
  - induction 1 as [x|x z y Hxz _ IH]; [by left|].
    assert (joined es x z \/ (x = a /\ z = b) \/ (x = b /\ z = a)) as [Hj|[[-> ->]|[-> ->]]].
    { destruct Hxz as [[H|[= -> ->]%list_elem_of_singleton]%elem_of_app|[H|[= -> ->]%list_elem_of_singleton]%elem_of_app]; [left|by right; left|left|by right; right].
      - by apply joined_edge.
      - symmetry. by apply joined_edge. }
    + destruct IH as [?|[[? ?]|[? ?]]]; [left|right; left|right; right]; try split; try done; by etransitivity.
    + destruct IH as [?|[[? ?]|[? ?]]]; [right; left; by split|right; left; by split|left; done].
    + destruct IH as [?|[[? ?]|[? ?]]]; [right; right; by split|left; done|right; right; by split].
  - assert (es ⊆ es ++ [(a, b)]) as Hs by set_solver.
    assert (joined (es ++ [(a, b)]) a b) as Hab by (apply joined_edge; set_solver).
    intros [H|[[H1 H2]|[H1 H2]]].
    + by apply (joined_mono es).
    + apply (joined_mono _ _ _ _ Hs) in H1, H2. etransitivity; [exact H1|]. by etransitivity.
    + apply (joined_mono _ _ _ _ Hs) in H1, H2. etransitivity; [exact H1|]. etransitivity; [symmetry; exact Hab|done].
Qed.

(** An id no edge ends in is joined to itself only. *)
Lemma joined_isolated es x y :
  joined es x y -> (forall e, e ∈ es -> y = e.1 \/ y = e.2 -> False) -> x = y.
Proof.
  intros H Hy. apply rtc_inv_r in H as [?|(z & _ & [Hz|Hz])]; [done| |].
  - destruct (Hy _ Hz). by right.
  - destruct (Hy _ Hz). by left.
Qed.

(** The table after the edges [es]. *)
Record joins (es : list (N * N)) (p : gmap N N) : Prop := {
  jo_forest : forest p;
  jo_linked x y : linked p x y <-> joined es x y;
  jo_dom x : x ∈ dom p <-> exists e, e ∈ es /\ (x = e.1 \/ x = e.2);
}.

Lemma joins_nil : joins [] ∅.
Proof.
  assert (forall x, root_in ∅ 0 x x) as H by (intros x; apply root_absent, lookup_empty). split.
  - intros x. exists x. by exists 0%nat.
  - intros x y. split.
    + intros (r & [n Hx] & [m Hy]). destruct (root_in_det _ _ _ _ _ _ Hx (H x)) as [_ ->].
      destruct (root_in_det _ _ _ _ _ _ Hy (H y)) as [_ ->]. done.
    + induction 1 as [x|x z y [Hz|Hz] _ _]; [|by apply elem_of_nil in Hz..]. exists x. split; by exists 0%nat.
  - intros x. rewrite dom_empty_L. split; [by intros ?%elem_of_empty|]. by intros (e & ?%elem_of_nil & _).
Qed.

Lemma link_linked p a b :
  forest p -> is_root p a -> is_root p b -> a <> b ->
  forest (<[a := b]> p) /\
  forall x y, linked (<[a := b]> p) x y <->
    linked p x y \/ (linked p x a /\ linked p b y) \/ (linked p x b /\ linked p a y).
Proof.
  intros Hp Ha Hb Hne. pose proof (fun x r => link_rooted p a b x r Ha Hb Hne) as Hl.
  assert (rooted p a a) as Haa by (exists 0%nat; by apply is_root_rooted).
  assert (rooted p b b) as Hbb by (exists 0%nat; by apply is_root_rooted).
  split; [intros x; destruct (Hp x) as [r Hr]; eexists; by apply Hl|]. intros x y.
  destruct (Hp x) as [r Hr], (Hp y) as [s Hs]. pose proof (Hl x r Hr) as Hr'. pose proof (Hl y s Hs) as Hs'.
  assert (forall z t, rooted p z t -> forall u v, rooted p u v -> linked p z u <-> t = v) as Hiff.
  { intros z t Hz u v Hu. split; [|intros ->; by exists v]. intros (w & H1 & H2).
    rewrite (rooted_det p z t w Hz H1). symmetry. by apply (rooted_det p u). }
  assert (linked (<[a := b]> p) x y <-> (if decide (r = a) then b else r) = (if decide (s = a) then b else s)) as ->.
  { split; [|intros E; eexists; split; [exact Hr'|by rewrite E]]. intros (w & H1 & H2).
    rewrite (rooted_det _ _ _ _ Hr' H1). symmetry. by eapply rooted_det. }
  rewrite (Hiff x r Hr y s Hs), (Hiff x r Hr a a Haa), (Hiff b b Hbb y s Hs), (Hiff x r Hr b b Hbb), (Hiff a a Haa y s Hs).
  destruct (decide (r = a)), (decide (s = a)); subst; intuition congruence.
Qed.

Lemma union_edge_ok es p a b :
  joins es p -> exists q, union_edge p (a, b) = Some q /\ joins (es ++ [(a, b)]) q.
Proof.
  intros [Hf Hl Hd]. unfold union_edge. cbn [fst snd].
  set (p1 := emplace_map b b (emplace_map a a p)).
  destruct (emplace_linked p a Hf) as [F1 L1], (emplace_linked _ b F1) as [F2 L2]. fold p1 in F2, L2.
  assert (dom p1 = {[b]} ∪ ({[a]} ∪ dom p)) as D1 by (unfold p1; by rewrite !emplace_dom).
  destruct (F2 a) as [ra Ha]. destruct (uf_find_ok p1 a ra Ha) as (p2 & -> & S2). cbn [mbind option_bind].
  destruct (roots_linked p1 p2 F2 (proj2 S2)) as [F3 L3].
  destruct (F3 b) as [rb Hb]. destruct (uf_find_ok p2 b rb Hb) as (p3 & -> & S3). cbn [mbind option_bind].
  destruct (roots_linked p2 p3 F3 (proj2 S3)) as [F4 L4].
  assert (forall x y, linked p3 x y <-> joined es x y) as L by (intros; by rewrite L4, L3, L2, L1, Hl).
  assert (rooted p3 a ra) as Ha3 by (by apply S3, S2). assert (rooted p3 b rb) as Hb3 by (by apply S3).
  assert (forall x, x ∈ dom p3 <-> exists e, e ∈ es ++ [(a, b)] /\ (x = e.1 \/ x = e.2)) as D.
  { intros x. rewrite <- (proj1 S3), <- (proj1 S2), D1, !elem_of_union, !elem_of_singleton, Hd. split.
    - intros [->|[->|(e & He & Hx)]]; [exists (a, b)|exists (a, b)|exists e]; set_solver.
    - intros (e & [He| ->%list_elem_of_singleton]%elem_of_app & Hx); [right; right; by exists e|]. cbn in Hx. tauto. }
  assert (linked p3 a ra) as La by (exists ra; split; [done|]; exists 0%nat; destruct Ha3 as [n H]; by eapply is_root_rooted, root_in_root).
  assert (linked p3 b rb) as Lb by (exists rb; split; [done|]; exists 0%nat; destruct Hb3 as [n H]; by eapply is_root_rooted, root_in_root).
  rewrite L in La, Lb. eexists. split; [done|]. destruct (N.eqb_spec ra rb) as [->|Hne].
  - split; [done| |done]. intros x y. rewrite L, joined_snoc. assert (joined es a b) as Hab by (by rewrite La, Lb).
    split; [by left|]. intros [?|[[H1 H2]|[H1 H2]]]; [done| |]; rewrite H1, <- H2; [done|by symmetry].
  - assert (is_root p3 ra /\ is_root p3 rb) as [Ra Rb]
      by (destruct Ha3, Hb3; split; by eapply root_in_root).
    destruct (link_linked p3 ra rb F4 Ra Rb Hne) as [F5 L5]. split; [done| |].
    + intros x y. rewrite L5, !L, joined_snoc, <- La, <- Lb. done.
    + intros x. rewrite dom_insert_L, elem_of_union, elem_of_singleton, D. split; [|by right]. intros [->|?]; [|done].
      apply D. destruct Ra as [Ra|Ra]; [|apply elem_of_dom; by eexists].
      assert (a = ra) as <- by (apply (joined_isolated es); [done|]; intros e He Hx;
        apply not_elem_of_dom in Ra; apply Ra, D; exists e; split; [set_solver|done]).
      apply D. exists (a, b). split; [set_solver|by left].
Qed.

Lemma union_edges_ok es es' p :
  joins es p -> exists q, ofold_option union_edge es' p = Some q /\ joins (es ++ es') q.
Proof.
  revert es p. induction es' as [|[a b] es' IH]; intros es p Hp; [exists p; by rewrite app_nil_r|].
  destruct (union_edge_ok es p a b Hp) as (q & E & Hq). cbn [ofold_option]. rewrite E. cbn [mbind option_bind].
  destruct (IH _ _ Hq) as (q' & E' & Hq'). exists q'. split; [done|]. by rewrite <- app_assoc in Hq'.
Qed.

(** * Groups *)

(** The root of an id in a forest, as a function. *)
Definition root_fn (p : gmap N N) (x : N) : N := default x (uf_root (S (size p)) p x).

Lemma root_fn_eq p x r : rooted p x r -> root_fn p x = r.
Proof.
  intros [n H]. unfold root_fn. by rewrite (uf_root_ok p n x r) by (done || (apply root_in_bound in H; lia)).
Qed.

Lemma linked_root_fn p x y : forest p -> linked p x y <-> root_fn p x = root_fn p y.
Proof.
  intros Hp. destruct (Hp x) as [r Hr], (Hp y) as [s Hs]. rewrite (root_fn_eq p x r Hr), (root_fn_eq p y s Hs). split.
  - intros (t & H1 & H2). rewrite (rooted_det _ _ _ _ Hr H1). symmetry. by eapply rooted_det.
  - intros ->. by exists s.
Qed.

(** The keys with root [r]. *)
Definition group_of (p : gmap N N) (ks : list N) (r : N) : list N := filter (fun k => root_fn p k = r) ks.

Lemma group_steps_ok ks p g :
  forest p -> (forall r l, g !! r = Some l -> l <> []) ->
  exists q g', ofold_option group_step ks (p, g) = Some (q, g') /\
  (forall r l, g' !! r = Some l -> l <> []) /\
  forall r, default [] (g' !! r) = default [] (g !! r) ++ group_of p ks r.
Proof.
  revert p g. induction ks as [|k ks IH]; intros p g Hp Hg; cbn [ofold_option].
  { exists p, g. split; [done|]. split; [done|]. intros r. cbn. by rewrite app_nil_r. }
  destruct (Hp k) as [s Hs]. destruct (uf_find_ok p k s Hs) as (p1 & E1 & S1). unfold group_step at 2. cbn [fst snd].
  rewrite E1. cbn [mbind option_bind]. destruct (roots_linked p p1 Hp (proj2 S1)) as [Hp1 _].
  destruct (IH p1 (push_at s k g) Hp1) as (q & g' & -> & Hne & Hg').
  { intros r l. unfold push_at. rewrite lookup_insert_Some. intros [[_ <-]|[_ ?]]; [|by eapply Hg]. by destruct (default [] _). }
  exists q, g'. split; [done|]. split; [done|]. intros r. rewrite Hg'.
  assert (forall x, root_fn p1 x = root_fn p x) as Hroot.
  { intros x. destruct (Hp x) as [t Ht]. rewrite (root_fn_eq p x t Ht). apply root_fn_eq. by apply S1. }
  assert (group_of p1 ks r = group_of p ks r) as -> by (apply list_filter_ext_in; intros x _; by rewrite Hroot).
  unfold push_at, group_of. cbn [filter list_filter]. rewrite (root_fn_eq p k s Hs).
  destruct (decide (s = r)) as [->|Hsr].
  - rewrite lookup_insert_eq. cbn. by rewrite <- app_assoc.
  - by rewrite lookup_insert_ne.
Qed.

Lemma groups_ok ks p :
  forest p -> exists q g, ofold_option group_step ks (p, ∅) = Some (q, g) /\
  forall r l, g !! r = Some l <-> l = group_of p ks r /\ l <> [].
Proof.
  intros Hp. destruct (group_steps_ok ks p ∅ Hp) as (q & g & E & Hne & Hg); [by intros r l ?%lookup_empty_Some|].
  exists q, g. split; [done|]. intros r l. specialize (Hg r). rewrite lookup_empty in Hg. cbn in Hg. split.
  - intros Hl. rewrite Hl in Hg. cbn in Hg. split; [done|]. by eapply Hne.
  - intros [-> Hl]. destruct (g !! r) as [l|]; cbn in Hg; [by rewrite Hg|by rewrite <- Hg in Hl].
Qed.

(** * Representatives *)

(** Parents come before their children. *)
Definition tree_good (tree : DSHierTree) : Prop :=
  forall i n, nodes_ tree !! i = Some n -> id_ n = i /\ ((0 < i)%nat -> (parent_id_ n < i)%nat).

Lemma depth_loop_total tree fuel cur d :
  tree_good tree -> (cur <= fuel)%nat -> (cur < length (nodes_ tree))%nat -> is_Some (depth_loop fuel tree cur d).
Proof.
  intros Ht. revert cur d. induction fuel as [|fuel IH]; intros cur d Hf Hc; cbn [depth_loop].
  { assert (cur = 0%nat) as -> by lia. done. }
  destruct (Nat.eqb_spec cur 0) as [->|Hne]; [done|]. cbn [orb]. destruct (N.of_nat cur =? kNoNode); [done|].
  destruct (lookup_lt_is_Some_2 (nodes_ tree) cur Hc) as [n Hn]. rewrite Hn. cbn [mbind option_bind].
  destruct (Ht cur n Hn) as [_ Hp]. apply IH; [lia|]. specialize (Hp ltac:(lia)). lia.
Qed.

Lemma net_depth_total tree net : tree_good tree -> is_Some (net_depth tree net).
Proof.
  intros Ht. unfold net_depth, block_of_net, hier_block_of.
  destruct (last_start _ _ _ _ _) as [|k]; [by rewrite N.eqb_refl|].
  destruct (nodes_ tree !! k) as [n|] eqn:Hn; [|by rewrite N.eqb_refl].
  destruct (_ && _); [|by rewrite N.eqb_refl]. destruct (_ =? kNoNode); [done|]. rewrite Nat2N.id.
  destruct (Ht k n Hn) as [-> _]. apply lookup_lt_Some in Hn. apply depth_loop_total; [done|lia|done].
Qed.

(** Net [a] is at least as close to the root as [b], and not larger when equally close. *)
Definition nearer (tree : DSHierTree) (a b : N) : Prop :=
  exists da db, net_depth tree a = Some da /\ net_depth tree b = Some db /\ (da < db \/ (da = db /\ a <= b)).

Lemma canonical_fold tree l d c :
  tree_good tree -> StronglySorted N.le (c :: l) -> net_depth tree c = Some d ->
  exists d' c', ofold_option (canonical_step tree) l (d, c) = Some (d', c') /\ net_depth tree c' = Some d' /\
  c' ∈ c :: l /\ forall m, m ∈ c :: l -> nearer tree c' m.
Proof.
  intros Ht. revert d c. induction l as [|m l IH]; intros d c Hs Hd; cbn [ofold_option].
  { exists d, c. split; [done|]. split; [done|]. split; [by left|]. intros m ->%list_elem_of_singleton. exists d, d. by repeat split; try right. }
  apply StronglySorted_inv in Hs as [Hs Hall]. apply StronglySorted_inv in Hs as [Hs Hall'].
  rewrite Forall_forall in Hall. assert (c <= m) as Hcm by (apply Hall; by left).
  destruct (net_depth_total tree m Ht) as [dm Hdm]. unfold canonical_step at 2. rewrite Hdm. cbn [mbind option_bind fst snd].
  destruct (N.ltb_spec dm d) as [Hlt|Hge].
  - destruct (IH dm m ltac:(by constructor) Hdm) as (d' & c' & -> & Hc' & Hin & Hmin). exists d', c'. split; [done|]. split; [done|].
    split; [by right|]. intros x [->|Hx]%elem_of_cons; [|by apply Hmin].
    destruct (Hmin m ltac:(by left)) as (a & b & Ha & Hb & Hab). exists a, d. rewrite Hdm in Hb. injection Hb as <-.
    split; [done|]. split; [done|]. left. lia.
  - assert (StronglySorted N.le (c :: l)) as Hcl by (constructor; [done|]; apply Forall_forall; intros x Hx; apply Hall; by right).
    destruct (IH d c Hcl Hd) as (d' & c' & -> & Hc' & Hin & Hmin). exists d', c'. split; [done|]. split; [done|].
    split; [set_solver|]. intros x [->|[->|Hx]%elem_of_cons]%elem_of_cons; [apply Hmin; by left| |apply Hmin; by right].
    destruct (Hmin c ltac:(by left)) as (a & b & Ha & Hb & Hab). exists a, dm. rewrite Hd in Hb. injection Hb as <-.
    split; [done|]. split; [done|]. lia.
Qed.

Lemma canonical_ok tree l :
  tree_good tree -> l <> [] ->
  exists c, canonical tree (merge_sort N.le l) = Some c /\ c ∈ l /\ forall m, m ∈ l -> nearer tree c m.
Proof.
  intros Ht Hl. assert (forall m, m ∈ merge_sort N.le l <-> m ∈ l) as Hm by (intros; apply sort_elem).
  assert (StronglySorted N.le (merge_sort N.le l)) as Hs by (apply sort_strongly; apply _).
  destruct (merge_sort N.le l) as [|c ms] eqn:E.
  { destruct l as [|x l]; [done|]. assert (x ∈ []) as ?%elem_of_nil; [|done]. apply Hm. by left. }
  cbn [canonical]. destruct (net_depth_total tree c Ht) as [d Hd]. rewrite Hd. cbn [mbind option_bind].
  assert (StronglySorted N.le (c :: c :: ms)) as Hs'.
  { constructor; [done|]. apply StronglySorted_inv in Hs as [_ Hall]. constructor; [lia|done]. }
  destruct (canonical_fold tree (c :: ms) d c Ht Hs' Hd) as (d' & c' & -> & _ & Hin & Hmin). exists c'. split; [done|].
  split; [apply Hm; apply elem_of_cons in Hin as [->|?]; [by left|done]|]. intros m Hml. apply Hmin. right. by apply Hm.
Qed.

(** * The result *)

Definition singletons (m : gmap N (list N)) : nat := length (filter (fun e => length e.2 = 1%nat) (map_to_list m)).

(** The result after the groups [gs]. *)
Record classes (tree : DSHierTree) (gs : list (N * list N)) (u : DSNetUnion) : Prop := {
  cl_root m c : root_of_ u !! m = Some c <-> exists g, g ∈ gs /\ m ∈ g.2 /\ canonical tree (merge_sort N.le g.2) = Some c;
  cl_members c ms : members_of_ u !! c = Some ms <->
    exists g, g ∈ gs /\ ms = merge_sort N.le g.2 /\ canonical tree ms = Some c;
  cl_dangling : dangling_count_ u = singletons (members_of_ u);
}.

Definition apart (gs : list (N * list N)) : Prop :=
  forall g h m, g ∈ gs -> h ∈ gs -> m ∈ g.2 -> m ∈ h.2 -> g = h.

Lemma foldl_insert_key (c : N) l (r : gmap N N) m :
  foldl (fun r m => <[m := c]> r) r l !! m = if decide (m ∈ l) then Some c else r !! m.
Proof.
  revert r. induction l as [|x l IH]; intros r; cbn [foldl]; [by rewrite decide_False by (by intros ?%elem_of_nil)|].
  rewrite IH. assert (m ∈ x :: l <-> m = x \/ m ∈ l) as Hc by apply elem_of_cons.
  destruct (decide (m ∈ l)), (decide (m ∈ x :: l)); try tauto.
  - destruct Hc as [[->|] _]; [done| |done]. by rewrite lookup_insert_eq.
  - rewrite lookup_insert_ne; [done|]. intros ->. tauto.
Qed.

Lemma singletons_insert m c ms :
  m !! c = None -> singletons (<[c := ms]> m) = (singletons m + if (length ms =? 1)%nat then 1 else 0)%nat.
Proof.
  intros Hc. unfold singletons. rewrite (map_to_list_insert m c ms Hc).
  destruct (Nat.eqb_spec (length ms) 1) as [E|E].
  - rewrite filter_cons_True by done. cbn [length]. by rewrite Nat.add_1_r.
  - rewrite filter_cons_False by done. by rewrite Nat.add_0_r.
Qed.

Lemma add_class_ok tree gs u g :
  tree_good tree -> apart (g :: gs) -> Forall (fun g => g.2 <> []) (g :: gs) -> g ∉ gs -> classes tree gs u ->
  exists u', add_class tree u g = Some u' /\ classes tree (g :: gs) u'.
Proof.
  intros Ht Ha Hne Hg [C1 C2 C3]. rewrite Forall_cons in Hne. destruct Hne as [Hl Hne].
  destruct (canonical_ok tree g.2 Ht Hl) as (c & Hc & Hin & _). unfold add_class. rewrite Hc. cbn [mbind option_bind].
  set (ms := merge_sort N.le g.2) in *. assert (forall m, m ∈ ms <-> m ∈ g.2) as Hms by (intros; apply sort_elem).
  assert (forall h m, h ∈ gs -> m ∈ g.2 -> m ∈ h.2 -> False) as Hapart.
  { intros h m Hh H1 H2. apply Hg. rewrite (Ha g h m ltac:(by left) ltac:(by right) H1 H2). done. }
  assert (members_of_ u !! c = None) as Hfresh.
  { destruct (members_of_ u !! c) as [ms'|] eqn:E; [|done]. exfalso. apply C2 in E as (h & Hh & -> & Hch).
    rewrite Forall_forall in Hne. destruct (canonical_ok tree h.2 Ht (Hne h Hh)) as (c' & Hc' & Hin' & _).
    rewrite Hch in Hc'. injection Hc' as <-. by apply (Hapart h c). }
  eexists. split; [done|]. split; cbn [root_of_ members_of_ dangling_count_].
  - intros m d. rewrite foldl_insert_key. destruct (decide (m ∈ ms)) as [Hm|Hm]; [apply Hms in Hm|].
    + split; [intros [= <-]; exists g; split; [by left|done]|].
      intros (h & [->|Hh]%elem_of_cons & Hmh & Hd); [by rewrite <- Hd|]. by destruct (Hapart h m).
    + rewrite C1. split; intros (h & Hh & Hmh & Hd); [exists h; split; [by right|done]|].
      apply elem_of_cons in Hh as [->|Hh]; [|by exists h]. by destruct Hm; apply Hms.
  - intros d l. rewrite lookup_insert_Some, C2. split.
    + intros [[<- <-]|[_ (h & Hh & H)]]; [exists g; split; [by left|done]|exists h; split; [by right|done]].
    + intros (h & [->|Hh]%elem_of_cons & -> & Hd); [left; split; [|done]; fold ms in Hd; congruence|]. right. split; [|by exists h].
      intros <-. assert (members_of_ u !! c = Some (merge_sort N.le h.2)) as E by (apply C2; by exists h). congruence.
  - rewrite singletons_insert, C3 by done. done.
Qed.

Lemma add_classes_ok tree gs :
  tree_good tree -> apart gs -> NoDup gs -> Forall (fun g => g.2 <> []) gs ->
  exists u, ofold_option (add_class tree) gs {| root_of_ := ∅; members_of_ := ∅; dangling_count_ := 0 |} = Some u /\ classes tree gs u.
Proof.
  intros Ht. induction gs as [|g gs IH] using rev_ind; intros Ha Hnd Hne.
  { eexists. split; [done|]. split; cbn [root_of_ members_of_ dangling_count_].
    - intros m c. rewrite lookup_empty. split; [done|]. by intros (? & ?%elem_of_nil & _).
    - intros m c. rewrite lookup_empty. split; [done|]. by intros (? & ?%elem_of_nil & _).
    - unfold singletons. by rewrite map_to_list_empty. }
  apply NoDup_app in Hnd as (Hnd & Hg & _). rewrite Forall_app, Forall_singleton in Hne. destruct Hne as [Hne Hg'].
  destruct IH as (u & E & Hu); [|done|done|].
  { intros a b m Ha' Hb'. apply Ha; apply elem_of_app; by left. }
  rewrite ofold_option_snoc, E. cbn [mbind option_bind].
  assert (forall x, x ∈ gs ++ [g] <-> x ∈ g :: gs) as Hperm.
  { intros x. rewrite elem_of_app, list_elem_of_singleton, elem_of_cons. tauto. }
  destruct (add_class_ok tree gs u g Ht) as (u' & E' & [C1 C2 C3]); [| | |done|].
  - intros a b m Ha' Hb'. apply Ha; by apply Hperm.
  - by constructor.
  - intros Hin. by apply (Hg g Hin), list_elem_of_singleton.
  - exists u'. split; [done|]. split; [| |done].
    + intros m c. rewrite C1. by setoid_rewrite Hperm.
    + intros c ms. rewrite C2. by setoid_rewrite Hperm.
Qed.

Section result.
Context (order_keys : gmap N N -> list N) (order_groups : gmap N (list N) -> list (N * list N)).
Context (Hkeys : forall m, NoDup (order_keys m) /\ forall x, x ∈ order_keys m <-> x ∈ dom m).
Context (Hgroups : forall g, NoDup (order_groups g) /\ forall e, e ∈ order_groups g <-> g !! e.1 = Some e.2).
Context (tree : DSHierTree) (Ht : tree_good tree) (slices : list (option DSNetUnionSlice)).

(** The nets that take part: those on edges and the ports. *)
Definition takes_part (x : N) : Prop :=
  (exists e, e ∈ all_edges slices /\ (x = e.1 \/ x = e.2)) \/ x ∈ all_ports tree slices.

Lemma ports_ok p ps :
  forest p -> let q := foldl (fun p g => emplace_map g g p) p ps in
  forest q /\ (forall x y, linked q x y <-> linked p x y) /\ forall x, x ∈ dom q <-> x ∈ dom p \/ x ∈ ps.
Proof.
  revert p. induction ps as [|g ps IH]; intros p Hp; cbn.
  { split; [done|]. split; [done|]. intros x. rewrite elem_of_nil. tauto. }
  destruct (emplace_linked p g Hp) as [Hf Hl]. destruct (IH _ Hf) as (F & L & D). split; [done|]. split.
  - intros x y. by rewrite L, Hl.
  - intros x. rewrite D, emplace_dom, elem_of_union, elem_of_singleton, elem_of_cons. tauto.
Qed.

(** The classes of the ids that take part, and their representatives. *)
Lemma build_ok : exists u gs, ds_build_net_union order_keys order_groups tree slices = Some u /\ classes tree gs u /\
  (forall g x, g ∈ gs -> x ∈ g.2 -> takes_part x) /\
  (forall g, g ∈ gs -> NoDup g.2 /\ g.2 <> []) /\
  (forall x, takes_part x -> exists g, g ∈ gs /\ x ∈ g.2) /\
  (forall g h x y, g ∈ gs -> h ∈ gs -> x ∈ g.2 -> y ∈ h.2 -> g = h <-> joined (all_edges slices) x y).
Proof using All.
  unfold ds_build_net_union. destruct (union_edges_ok [] (all_edges slices) ∅ joins_nil) as (p & -> & [Hf Hl Hd]).
  cbn [mbind option_bind]. cbn [app] in Hl, Hd.
  destruct (ports_ok p (all_ports tree slices) Hf) as (Fq & Lq & Dq). set (q := foldl _ p _) in *.
  destruct (groups_ok (order_keys q) q Fq) as (q' & g & -> & Hg). cbn [mbind option_bind].
  destruct (Hkeys q) as [Hk1 Hk2], (Hgroups g) as [Hg1 Hg2].
  assert (forall e, e ∈ order_groups g -> e.2 = group_of q (order_keys q) e.1 /\ e.2 <> []) as He by (intros e He; by apply Hg, Hg2).
  assert (forall e x, e ∈ order_groups g -> x ∈ e.2 <-> root_fn q x = e.1 /\ x ∈ dom q) as Hx.
  { intros e x H. destruct (He e H) as [-> _]. unfold group_of. by rewrite list_elem_of_filter, Hk2. }
  assert (forall e e', e ∈ order_groups g -> e' ∈ order_groups g -> e.1 = e'.1 -> e = e') as Hkey.
  { intros [a l] [a' l'] H1%Hg2 H2%Hg2. cbn. intros <-. cbn in H1, H2. congruence. }
  assert (forall x, x ∈ dom q <-> takes_part x) as Hpart by (intros x; unfold takes_part; by rewrite Dq, Hd).
  destruct (add_classes_ok tree (order_groups g) Ht) as (u & -> & Hu); [| done| |].
  - intros a b m Ha Hb Hma Hmb. apply Hkey; [done|done|]. apply (Hx a m Ha) in Hma as [<- _]. by apply (Hx b m Hb) in Hmb as [<- _].
  - apply Forall_forall. intros e H. by apply He.
  - exists u, (order_groups g). split; [done|]. split; [done|]. split; [|split; [|split]].
    + intros e x H Hxe. apply Hpart. by apply (Hx e x H) in Hxe as [_ ?].
    + intros e H. split; [|by apply He]. destruct (He e H) as [-> _]. by apply NoDup_filter.
    + intros x Hxp. apply Hpart in Hxp. exists (root_fn q x, group_of q (order_keys q) (root_fn q x)).
      assert (x ∈ group_of q (order_keys q) (root_fn q x)) as Hin by (apply list_elem_of_filter; split; [done|by apply Hk2]).
      split; [|done]. apply Hg2, Hg. split; [done|]. cbn [fst snd]. intros E. rewrite E in Hin. by apply elem_of_nil in Hin.
    + intros e h x y H1 H2 Hxe Hyh. rewrite <- Hl, <- Lq, (linked_root_fn q x y Fq).
      apply (Hx e x H1) in Hxe as [-> _]. apply (Hx h y H2) in Hyh as [-> _]. split; [by intros ->|by apply Hkey].
Qed.

Lemma class_representative gs u :
  classes tree gs u -> (forall g, g ∈ gs -> g.2 <> []) -> forall g, g ∈ gs -> exists c,
  canonical tree (merge_sort N.le g.2) = Some c /\ c ∈ g.2 /\ (forall m, m ∈ g.2 -> nearer tree c m) /\
  forall x, x ∈ g.2 -> find u x = c.
Proof using Ht.
  intros [C1 _ _] Hgs g Hg. destruct (canonical_ok tree g.2 Ht) as (c & H1 & H2 & H3); [by apply Hgs|]. exists c.
  repeat (split; [done|]). intros x Hx. unfold find. rewrite (proj2 (C1 x c)); [done|]. by exists g.
Qed.

(** C32: the union of nets is the electrical one.  For any slices and any order of the
    hash tables, [ds_build_net_union] returns, and: every net that takes part (an end
    of an edge or a port) is mapped to a net of its own class, the one closest to the
    root of the hierarchy and the least of those; two of them are mapped to the same
    net exactly when a chain of edges, in either direction, leads from one to the
    other; the member list of a representative is its class in ascending order and no
    other net has one; other nets are mapped to themselves; the dangling count is the
    number of classes with one member. *)
Theorem net_union_exact : exists u, ds_build_net_union order_keys order_groups tree slices = Some u /\
  (forall x, takes_part x ->
     takes_part (find u x) /\ joined (all_edges slices) x (find u x) /\
     forall y, takes_part y -> joined (all_edges slices) x y -> nearer tree (find u x) y) /\
  (forall x y, takes_part x -> takes_part y -> find u x = find u y <-> joined (all_edges slices) x y) /\
  (forall r ms, members u r = Some ms <->
     takes_part r /\ find u r = r /\ StronglySorted N.lt ms /\ forall x, x ∈ ms <-> takes_part x /\ find u x = r) /\
  (forall x, ~ takes_part x -> find u x = x) /\
  dangling_count_ u = singletons (members_of_ u).
Proof using All.
  destruct build_ok as (u & gs & E & Hcl & Hpart & Hgs & Hsome & Hone). exists u. split; [done|].
  pose proof (class_representative gs u Hcl (fun g H => proj2 (Hgs g H))) as Hc. destruct Hcl as [C1 C2 C3].
  assert (forall x, takes_part x -> exists g c, g ∈ gs /\ x ∈ g.2 /\ find u x = c /\ c ∈ g.2 /\
    canonical tree (merge_sort N.le g.2) = Some c /\ forall m, m ∈ g.2 -> nearer tree c m) as Hfind.
  { intros x Hx. destruct (Hsome x Hx) as (g & Hg & Hxg). destruct (Hc g Hg) as (c & H1 & H2 & H3 & H4). exists g, c. auto 10. }
  assert (forall x y, takes_part x -> takes_part y -> find u x = find u y <-> joined (all_edges slices) x y) as Hsame.
  { intros x y Hx Hy. destruct (Hfind x Hx) as (g & c & Hg & Hxg & -> & Hcg & Hcan & _), (Hfind y Hy) as (h & d & Hh & Hyh & -> & Hdh & Hcan' & _).
    rewrite <- (Hone g h x y Hg Hh Hxg Hyh). split; [|intros ->; congruence]. intros ->. apply (Hone g h d d Hg Hh Hcg Hdh). done. }
  split; [|split; [done|split; [|split; [|done]]]].
  - intros x Hx. destruct (Hfind x Hx) as (g & c & Hg & Hxg & -> & Hcg & _ & Hmin). split; [by apply (Hpart g)|].
    split; [by apply (Hone g g)|]. intros y Hy Hxy. destruct (Hsome y Hy) as (h & Hh & Hyh).
    assert (g = h) as -> by (by apply (Hone g h x y)). by apply Hmin.
  - intros r ms. unfold members. rewrite C2. split.
    + intros (g & Hg & -> & Hcan). destruct (Hc g Hg) as (c & H1 & H2 & _ & H4). rewrite Hcan in H1. injection H1 as <-.
      split; [by apply (Hpart g)|]. split; [by apply H4|]. split; [by apply sorted_lt, Hgs|]. intros x. rewrite sort_elem. split.
      * intros Hx. split; [by apply (Hpart g)|by apply H4].
      * intros [Hx Hfx]. destruct (Hfind x Hx) as (h & d & Hh & Hxh & E' & Hdh & _). assert (d = r) as -> by congruence.
        assert (h = g) as -> by (by apply (Hone h g r r)). done.
    + intros (Hr & Hfr & Hs & Hms). destruct (Hfind r Hr) as (g & c & Hg & Hrg & E' & Hcg & Hcan & _). assert (c = r) as -> by congruence.
      exists g. split; [done|]. assert (ms = merge_sort N.le g.2) as ->; [|done].
      apply sorted_lt_ext; [done|by apply sorted_lt, Hgs|]. intros x. rewrite Hms, sort_elem. split.
      * intros [Hx Hfx]. destruct (Hfind x Hx) as (h & d & Hh & Hxh & E'' & Hdh & _). assert (d = r) as -> by congruence.
        assert (h = g) as -> by (by apply (Hone h g r r)). done.
      * intros Hx. split; [by apply (Hpart g)|]. destruct (Hc g Hg) as (d & H1 & _ & _ & H4). rewrite (H4 x Hx). congruence.
  - intros x Hx. unfold find. destruct (root_of_ u !! x) as [c|] eqn:Er; [|done]. apply C1 in Er as (g & Hg & Hxg & _).
    by destruct Hx; apply (Hpart g).
Qed.
End result.

(** * Slices *)

Lemma unique_elem {A} `{EqDecision A} (l : list A) x : x ∈ unique l <-> x ∈ l.
Proof.
  induction l as [|a l IH]; [done|]. destruct l as [|b l]; [done|]. cbn [unique]. case_decide as E.
  - subst b. rewrite IH, (elem_of_cons (a :: l)). split; [by right|]. intros [->|?]; [by left|done].
  - rewrite !(elem_of_cons _ _ a), IH. done.
Qed.

Lemma unique_sorted {A} `{EqDecision A} (R : relation A) `{!AntiSymm (=) R} (l : list A) :
  StronglySorted R l -> StronglySorted R (unique l) /\ NoDup (unique l).
Proof.
  induction 1 as [|a l Hs IH Hall]; [by split; constructor|].
  destruct l as [|b l]; [split; [by constructor|apply NoDup_singleton]|]. cbn [unique]. case_decide as E; [done|].
  destruct IH as [IH1 IH2]. rewrite Forall_forall in Hall. split.
  - constructor; [done|]. apply Forall_forall. intros x Hx. by apply Hall, unique_elem.
  - constructor; [|done]. intros Ha. apply (unique_elem (b :: l) a) in Ha. apply elem_of_cons in Ha as [->|Ha]; [done|].
    apply StronglySorted_inv in Hs as [_ Hb]. rewrite Forall_forall in Hb. apply E. apply (anti_symm R); [apply Hall; by left|by apply Hb].
Qed.

#[local] Instance pair_le_antisymm : AntiSymm (=) pair_le.
Proof. intros [a b] [c d]. unfold pair_le. cbn. intros. f_equal; lia. Qed.

Section slices.
Context (order : gmap N (list DSNetConnection) -> list (N * list DSNetConnection)).
Context (Horder : forall m e, e ∈ order m <-> m !! e.1 = Some e.2).
Context (tree : DSHierTree).

(** Net [l] is behind pin [pin] of the block with id [cell]. *)
Definition behind (m : PortNets) (pin cell l : N) : Prop := l ∈ default [] (default ∅ (m !! pin) !! cell).

Lemma behind_add cell local m c pin' cell' l' :
  behind (add_port cell local m c) pin' cell' l' <->
  behind m pin' cell' l' \/ (conn_port c = true /\ pin_id_ c = pin' /\ cell = cell' /\ local = l').
Proof.
  unfold behind, add_port. destruct (conn_port c); [|split; [by left|by intros [?|[? _]]]].
  destruct (decide (pin_id_ c = pin')) as [->|Hne].
  2: { rewrite lookup_insert_ne by done. split; [by left|by intros [?|(_ & ? & _)]]. }
  rewrite lookup_insert_eq. cbn [default from_option id]. unfold push_at.
  destruct (decide (cell = cell')) as [->|Hne].
  2: { rewrite lookup_insert_ne by done. split; [by left|by intros [?|(_ & _ & ? & _)]]. }
  rewrite lookup_insert_eq. cbn [default from_option id]. rewrite elem_of_app, list_elem_of_singleton. split.
  - intros [?| ->]; [by left|by right].
  - intros [?|(_ & _ & _ & ->)]; [by left|by right].
Qed.

(** The nets of the child definitions behind a port. *)
Definition child_port (children : list (option (bytes * DSNetBuildData))) (pin cell l : N) : Prop :=
  exists name nets conns c, Some (name, nets) ∈ children /\ cell_id_of_block tree !! name = Some cell /\
  connections_ nets !! l = Some conns /\ c ∈ conns /\ conn_port c = true /\ pin_id_ c = pin.

Lemma port_pin_nets_ok children pin cell l :
  behind (port_pin_nets order tree children) pin cell l <-> child_port children pin cell l.
Proof using Horder.
  unfold port_pin_nets. rewrite (foldl_gather (fun m => behind m pin cell l) (fun ch => exists name nets conns c,
    ch = Some (name, nets) /\ cell_id_of_block tree !! name = Some cell /\
    connections_ nets !! l = Some conns /\ c ∈ conns /\ conn_port c = true /\ pin_id_ c = pin)).
  - unfold behind. rewrite lookup_empty. cbn. rewrite lookup_empty. cbn. rewrite elem_of_nil. split.
    + intros [?|(ch & Hin & name & nets & conns & c & -> & H)]; [done|]. by exists name, nets, conns, c.
    + intros (name & nets & conns & c & Hin & H). right. exists (Some (name, nets)). split; [done|]. by exists name, nets, conns, c.
  - intros m [[name nets]|]; cbn [add_child]; [|split; [by left|intros [?|(? & ? & ? & ? & ? & _)]; done]].
    destruct (cell_id_of_block tree !! name) as [cell'|] eqn:E.
    2: { split; [by left|]. intros [?|(? & ? & ? & ? & [= <- <-] & ? & _)]; [done|congruence]. }
    rewrite (foldl_gather (fun m => behind m pin cell l) (fun e => e.1 = l /\ cell' = cell /\ exists c, c ∈ e.2 /\ conn_port c = true /\ pin_id_ c = pin)).
    + split; (intros [?|H]; [by left|right]).
      * destruct H as ([l' conns] & He%Horder & <- & <- & c & Hc). exists name, nets, conns, c. cbn in *. auto.
      * destruct H as (? & ? & conns & c & [= <- <-] & Hcell & Hconns & Hc). exists (l, conns). split; [by apply Horder|].
        split; [done|]. split; [congruence|]. by exists c.
    + intros m' [l' conns]. rewrite (foldl_gather (fun m => behind m pin cell l) _ _ _ _ (fun m c => behind_add cell' l' m c pin cell l)).
      cbn [fst snd]. split; (intros [?|H]; [by left|right]).
      * destruct H as (c & Hc & Hp & Hpin & -> & ->). split; [done|]. split; [done|]. by exists c.
      * destruct H as (-> & -> & c & Hc & Hp & Hpin). by exists c.
Qed.

(** A net of the block at node [pos] and a net of a child that share a port. *)
Definition crosses (name : bytes) (nets : DSNetBuildData) (children : list (option (bytes * DSNetBuildData))) (e : N * N) : Prop :=
  exists pos local conns c child m l,
  pos ∈ positions_of tree name /\ connections_ nets !! local = Some conns /\ c ∈ conns /\ conn_port c = false /\
  node_by_self_id tree !! ((instance_range tree pos).1 + instance_local_id_ c) = Some child /\
  nodes_ tree !! child = Some m /\ parent_id_ m = pos /\ child_port children (pin_id_ c) (block_cell_id_ m) l /\
  is_valid_id id_bits (global_net_id tree pos local) = true /\ is_valid_id id_bits (global_net_id tree child l) = true /\
  e = minmax (global_net_id tree pos local) (global_net_id tree child l).

Lemma conn_edges_ok children pos g c es e :
  conn_edges tree (port_pin_nets order tree children) pos g c = Some es ->
  e ∈ es <-> exists child m l, conn_port c = false /\
    node_by_self_id tree !! ((instance_range tree pos).1 + instance_local_id_ c) = Some child /\
    nodes_ tree !! child = Some m /\ parent_id_ m = pos /\ child_port children (pin_id_ c) (block_cell_id_ m) l /\
    is_valid_id id_bits (global_net_id tree child l) = true /\ e = minmax g (global_net_id tree child l).
Proof using Horder.
  unfold conn_edges. destruct (conn_port c); [intros [= <-]; rewrite elem_of_nil; split; [done|by intros (? & ? & ? & ? & _)]|].
  destruct (node_by_self_id tree !! _) as [child|]; [|intros [= <-]; rewrite elem_of_nil; split; [done|by intros (? & ? & ? & _ & ? & _)]].
  destruct (nodes_ tree !! child) as [m|] eqn:Em; [|done]. cbn [mbind option_bind].
  destruct (Nat.eqb_spec (parent_id_ m) pos) as [Hp|Hp]; cbn [negb].
  2: { intros [= <-]. rewrite elem_of_nil. split; [done|]. intros (? & ? & ? & _ & [= <-] & Hm & ? & _). congruence. }
  intros [= <-].
  assert (forall l, child_port children (pin_id_ c) (block_cell_id_ m) l <->
    l ∈ default [] (port_pin_nets order tree children !! pin_id_ c ≫= (fun m0 => m0 !! block_cell_id_ m))) as Hport.
  { intros l. rewrite <- port_pin_nets_ok. unfold behind. destruct (port_pin_nets _ _ _ !! _); [done|]. cbn. by rewrite lookup_empty. }
  transitivity (exists l, child_port children (pin_id_ c) (block_cell_id_ m) l /\
    is_valid_id id_bits (global_net_id tree child l) = true /\ e = minmax g (global_net_id tree child l)).
  - setoid_rewrite Hport. destruct (_ ≫= _) as [locals|]; cbn [default from_option id].
    + rewrite list_elem_of_omap. split.
      * intros (l & Hl & H). exists l. destruct (is_valid_id _ _); [|done]. by injection H as <-.
      * intros (l & Hl & Hv & ->). exists l. by rewrite Hv.
    + setoid_rewrite elem_of_nil. split; [done|]. by intros (? & ? & _).
  - split.
    + intros (l & H1 & H2 & H3). by exists child, m, l.
    + intros (child' & m' & l & _ & [= <-] & Hm & _ & H1 & H2 & H3). rewrite Em in Hm. injection Hm as <-. by exists l.
Qed.

(** The edges of a slice are the connections through ports.  The slice of a block
    has, each once and in ascending order, exactly the pairs of a net of the block at
    one of its occurrences and a net of a child instance at that occurrence that are
    connected to the same port of the child; and its port nets are, in ascending
    order, the nets of the block with a port. *)
Theorem slice_edges_exact name nets children s :
  ds_collect_net_union_slice order tree name nets children = Some s ->
  StronglySorted pair_le (edges_ s) /\ NoDup (edges_ s) /\ StronglySorted N.le (port_net_ids_ s) /\ NoDup (port_net_ids_ s) /\
  (forall e, e ∈ edges_ s <-> crosses name nets children e) /\
  (forall l, l ∈ port_net_ids_ s <-> exists conns c, connections_ nets !! l = Some conns /\ c ∈ conns /\ conn_port c = true).
Proof using Horder.
  unfold ds_collect_net_union_slice. intros (ess & Hess & [= <-])%bind_Some. cbn [edges_ port_net_ids_].
  destruct (unique_sorted pair_le _ (sort_strongly pair_le (concat ess))) as [E1 E2].
  do 2 (split; [done|]). unfold port_nets. set (ports := omap _ _).
  destruct (unique_sorted N.le _ (sort_strongly N.le ports)) as [E3 E4]. do 2 (split; [done|]). split.
  - intros e. rewrite unique_elem, sort_elem, (elem_of_mapM_concat _ _ _ e Hess). split.
    + intros (pos & es & Hpos & (es1 & H1 & [= <-])%bind_Some & He).
      apply (elem_of_mapM_concat _ _ _ e H1) in He as ([local conns] & es2 & Hc%Horder & H2 & He). unfold net_edges in H2. cbn [fst snd] in *.
      destruct (is_valid_id id_bits (global_net_id tree pos local)) eqn:Ev; [|injection H2 as <-; by apply elem_of_nil in He].
      apply bind_Some in H2 as (es3 & H3 & [= <-]). apply (elem_of_mapM_concat _ _ _ e H3) in He as (c & es4 & Hcc & H4 & He).
      apply (conn_edges_ok children pos _ c es4 e H4) in He as (child & m & l & ? & ? & ? & ? & ? & ? & ?).
      by exists pos, local, conns, c, child, m, l.
    + intros (pos & local & conns & c & child & m & l & Hpos & Hconns & Hc & Hp & Hs & Hm & Hpar & Hport & Hv & Hv' & ->).
      destruct (mapM_elem _ _ _ _ Hess Hpos) as [es He]. exists pos, es. split; [done|]. split; [done|].
      unfold position_edges in He. apply bind_Some in He as (es1 & H1 & [= <-]). apply (elem_of_mapM_concat _ _ _ _ H1).
      assert ((local, conns) ∈ order (connections_ nets)) as Hin by (by apply Horder).
      destruct (mapM_elem _ _ _ _ H1 Hin) as [es2 He2]. exists (local, conns), es2. split; [done|]. split; [done|].
      unfold net_edges in He2. cbn [fst snd] in He2. rewrite Hv in He2. apply bind_Some in He2 as (es3 & H3 & [= <-]).
      apply (elem_of_mapM_concat _ _ _ _ H3). destruct (mapM_elem _ _ _ _ H3 Hc) as [es4 He4]. exists c, es4.
      split; [done|]. split; [done|]. apply (conn_edges_ok children pos _ c es4 _ He4). by exists child, m, l.
  - intros l. subst ports. rewrite unique_elem, sort_elem, list_elem_of_omap. split.
    + intros ([l' conns] & He%Horder & H). cbn [fst snd] in *. destruct (existsb conn_port conns) eqn:Ex; [|done]. injection H as <-.
      apply existsb_exists in Ex as (c & Hc & Hcp). exists conns, c. split; [done|]. by rewrite list_elem_of_In.
    + intros (conns & c & Hl & Hc & Hp). exists (l, conns). split; [by apply Horder|]. cbn [fst snd].
      rewrite (proj2 (existsb_exists conn_port conns)); [done|]. exists c. by rewrite <- list_elem_of_In.
Qed.
End slices.

(** * The children of a definition *)

Lemma children_gathered (index : nat) (found : list (option nat)) out :
  let r := foldl (fun (out : list nat) (i : option nat) => match i with
    | Some i => if decide (i = index \/ i ∈ out) then out else out ++ [i]
    | None => out end) out found in
  (NoDup out -> NoDup r) /\ forall i, i ∈ r <-> i ∈ out \/ (i <> index /\ Some i ∈ found).
Proof.
  revert out. induction found as [|[j|] found IH]; intros out; cbv zeta; cbn [foldl].
  - split; [done|]. intros i. rewrite elem_of_nil. tauto.
  - destruct (decide (j = index \/ j ∈ out)) as [Hj|Hj].
    + destruct (IH out) as [H1 H2]. split; [done|]. intros i. rewrite H2, elem_of_cons. split.
      * intros [?|[? ?]]; [by left|right; split; [done|by right]].
      * intros [?|[Hi [[= ->]|?]]]; [by left| |by right]. destruct Hj; [done|by left].
    + destruct (IH (out ++ [j])) as [H1 H2]. split.
      * intros Hnd. apply H1, NoDup_app. split; [done|]. split; [|apply NoDup_singleton].
        intros x Hx ->%list_elem_of_singleton. tauto.
      * intros i. rewrite H2, elem_of_app, list_elem_of_singleton, elem_of_cons. split.
        -- intros [[?| ->]|[? ?]]; [by left|right; split; [tauto|by left]|right; split; [done|by right]].
        -- intros [?|[Hi [[= ->]|?]]]; [by left; left|by left; right|by right].
  - destruct (IH out) as [H1 H2]. split; [done|]. intros i. rewrite H2, elem_of_cons. split.
    + intros [?|[? ?]]; [by left|right; split; [done|by right]].
    + intros [?|[? [?|?]]]; [by left|done|by right].
Qed.

(** The indexes are ascending, each once, never the index itself. *)
Lemma child_indexes_sorted tree block_names index out :
  ds_net_union_child_indexes tree block_names index = Some out ->
  StronglySorted Nat.le out /\ NoDup out /\ index ∉ out.
Proof.
  unfold ds_net_union_child_indexes. destruct (block_names !! index) as [name|].
  2: { intros [= <-]. split; [constructor|]. split; [constructor|]. apply not_elem_of_nil. }
  intros (found & _ & [= <-])%bind_Some. destruct (children_gathered index found []) as [H1 H2].
  split; [apply sort_strongly; apply _|]. split; [apply sort_NoDup, H1, NoDup_nil_2|].
  intros [?%elem_of_nil|[? _]]%sort_elem%H2; done.
Qed.

(** * Samples

    A root with one child instance (local id 1); net 1 of each is connected to pin 7
    of the child. *)

Definition mini_node (id parent : nat) (name : bytes) (self inst_start net_start : N) : DSHierNode :=
  {| id_ := id; parent_id_ := parent; children_ids_ := if (id =? 0)%nat then [1%nat] else []; block_cell_name_ := name;
     instance_name_ := []; block_cell_id_ := N.of_nat id; self_global_id_ := self; composite_transform_ := identity;
     instance_start_ := inst_start; instance_count_ := 2; net_start_ := net_start; net_count_ := 3; via_start_ := 0; via_count_ := 0 |}.
Definition mini_tree : DSHierTree :=
  {| nodes_ := [mini_node 0 0 nT 0 0 0; mini_node 1 0 nB 1 2 3]; design_name_ := nT |}.

Definition mini_conn (port : bool) (inst : N) : DSNetConnection :=
  {| instance_local_id_ := inst; pin_id_ := 7; conn_port := port; conn_driver := false; conn_receiver := true;
     conn_power := false; conn_ground := false; conn_clock := false |}.
Definition outer_nets : DSNetBuildData := parsed_nets [AddConnection 1 (mini_conn false 1)].
(** Net 2 of the child is behind another port that the root leaves open. *)
Definition inner_nets : DSNetBuildData := parsed_nets [AddConnection 1 (mini_conn true 0); AddConnection 2 (mini_conn true 0)].

Definition mini_slices : list (option DSNetUnionSlice) :=
  [ds_collect_net_union_slice map_to_list mini_tree nT outer_nets [Some (nB, inner_nets)]; None;
   Some {| edges_ := []; port_net_ids_ := [1]; slice_block_name_ := nB |}].

Definition keys_of (m : gmap N N) : list N := elements (dom m).

Lemma keys_of_ok m : NoDup (keys_of m) /\ forall x, x ∈ keys_of m <-> x ∈ dom m.
Proof. unfold keys_of. split; [apply NoDup_elements|]. intros x. apply elem_of_elements. Qed.

Lemma pairs_of_ok {A} (g : gmap N A) : NoDup (map_to_list g) /\ forall e, e ∈ map_to_list g <-> g !! e.1 = Some e.2.
Proof. split; [apply NoDup_map_to_list|]. intros [k x]. apply elem_of_map_to_list. Qed.

Lemma mini_good : tree_good mini_tree.
Proof.
  intros [|[|i]] n Hn; cbn in Hn; [injection Hn as <-..|done]; cbn; (split; [done|lia]).
Qed.

(** Both inner nets are joined with the outer one, which represents them. *)
Example mini_union :
  ((fun u => (find u <$> [1; 4; 5; 2], members u 1, dangling_count_ u)) <$>
    ds_build_net_union keys_of map_to_list mini_tree mini_slices) = Some ([1; 1; 1; 2], Some [1; 4; 5], 0%nat).
Proof. vm_compute. reflexivity. Qed.

Lemma net_union_exact_witness : exists u,
  ds_build_net_union keys_of map_to_list mini_tree mini_slices = Some u /\ find u 5 = find u 4.
Proof.
  destruct (net_union_exact keys_of map_to_list keys_of_ok pairs_of_ok mini_tree mini_good mini_slices) as (u & E & _ & Hs & _).
  exists u. split; [exact E|].
  assert (all_edges mini_slices = [(1, 4); (1, 5)]) as Ee by (vm_compute; reflexivity).
  assert (takes_part mini_tree mini_slices 5) as H5.
  { left. rewrite Ee. exists (1, 5). split; [right; by left|by right]. }
  assert (takes_part mini_tree mini_slices 4) as H4.
  { left. rewrite Ee. exists (1, 4). split; [by left|by right]. }
  apply (Hs 5 4 H5 H4). rewrite Ee. transitivity 1; [symmetry|]; apply joined_edge; [right; by left|by left].
Defined.

Lemma slice_edges_exact_witness : exists s,
  ds_collect_net_union_slice map_to_list mini_tree nT outer_nets [Some (nB, inner_nets)] = Some s /\ NoDup (edges_ s) /\
  (1, 4) ∈ edges_ s.
Proof.
  destruct (ds_collect_net_union_slice map_to_list mini_tree nT outer_nets [Some (nB, inner_nets)]) as [s|] eqn:E;
    [|exfalso; vm_compute in E; discriminate].
  destruct (slice_edges_exact map_to_list (fun m => proj2 (pairs_of_ok m)) mini_tree nT outer_nets [Some (nB, inner_nets)] s E)
    as (_ & Hnd & _). exists s. split; [done|]. split; [exact Hnd|]. vm_compute in E. injection E as <-. cbn. by left.
Defined.
