(* ===== verification/Verify.v ===== *)
(** The consistency checks before a design is frozen (emir/design/cpp/ds_verify.h,
    ds_verify.cpp).

    Damage ends the process: a union of nets that contradicts itself, partitions that
    do not cover the die, name tables whose two directions disagree.  Gaps and
    duplicates among the global ids and a total of primary instances that differs from
    the hierarchy are only reported.  A message is a value that holds what the text of
    the code interpolates; the empty string is [None].  The partitions of the design
    and the counters of a block are arguments of their own.  [None] for a whole check is
    a signed overflow, a failed assertion or a missing table. *)

From stdpp Require Import base gmap list sets fin_maps sorting.
From Stdlib Require Import ZArith NArith Lia.
From S2P Require Import Prelude Bytes NameHasher IdMap Geometry BlockData DesignTables HierTree NameMapper Density Partition Flatten NetUnion.
Import Corelib.Init.Datatypes(nat(..)) Corelib.Numbers.BinNums(N(..)).
#[local] Open Scope Z_scope.

Definition sort_unique (l : list N) : list N := unique (merge_sort N.le l).

(** * The union of nets *)

Inductive UnionError :=
  | RootNotSelfMapped (root : N)
  | KeyNotRoot (key : N)
  | MemberNotMappedBack (id root : N)
  | ListedCount (listed total : nat).

Section net_union.
(** The orders in which the two tables are traversed. *)
Context (order_roots : gmap N N -> list (N * N)) (order_members : gmap N (list N) -> list (N * list N)).

Definition maps_to (u : DSNetUnion) (id root : N) : bool := bool_decide (root_of_ u !! id = Some root).

Definition check_class (u : DSNetUnion) (e : N * list N) : option UnionError :=
  if negb (maps_to u e.1 e.1) then Some (KeyNotRoot e.1) else
  first_error (fun id => if maps_to u id e.1 then None else Some (MemberNotMappedBack id e.1)) e.2.

Definition ds_check_net_union (u : DSNetUnion) : option UnionError :=
  match first_error (fun e => if maps_to u e.2 e.2 then None else Some (RootNotSelfMapped e.2)) (order_roots (root_of_ u)) with
  | Some e => Some e
  | None =>
      match first_error (check_class u) (order_members (members_of_ u)) with
      | Some e => Some e
      | None =>
          let listed := sum_list_with (fun e => length e.2) (order_members (members_of_ u)) in
          if (listed =? size (root_of_ u))%nat then None else Some (ListedCount listed (size (root_of_ u)))
      end
  end.
End net_union.

(** * Names *)

Inductive NameLabel :=
  | LabelCell | LabelPin | LabelViaCell | LabelLayer
  | LabelInstance (block : bytes) | LabelNet (block : bytes).

Inductive NameMapError :=
  | ClosureBroken (bad : nat) (label : NameLabel) (name : bytes)
  | DefinitionMissing (node : nat) (block : bytes).

(** The number of names whose id has another name, and the first of them. *)
Definition closure_count := (nat * option (NameLabel * bytes))%type.

Section names.
Context {B : Type} `{!DSNameBackend B}.

Definition closure_step {H} `{!DSNameBackend H} (h : DSNameHasherT H) (label : NameLabel) (st : closure_count) (e : bytes * N)
  : option closure_count :=
  name ← get_name h e.2;
  Some (if decide (name = e.1) then st
        else (S st.1, if (st.1 =? 0)%nat then Some (label, e.1) else st.2)).

Definition check_hasher_closure {H} `{!DSNameBackend H} (h : DSNameHasherT H) (label : NameLabel) (st : closure_count)
  : option closure_count := ofold_option (closure_step h label) (for_each h) st.

Definition check_block_names (st : closure_count) (n : DSBlockNames B) : option closure_count :=
  i ← bn_instance_names_ n;
  st ← check_hasher_closure i (LabelInstance (bn_block_name_ n)) st;
  h ← bn_net_names_ n;
  check_hasher_closure h (LabelNet (bn_block_name_ n)) st.

Definition ds_check_name_maps (design : DSDesign) (stack : DSStack) (names : list (DSBlockNames B))
  : option (option NameMapError) :=
  st ← check_hasher_closure (cell_names_ design) LabelCell (0%nat, None);
  st ← check_hasher_closure (pin_names_ design) LabelPin st;
  st ← check_hasher_closure (via_cell_names_ design) LabelViaCell st;
  st ← check_hasher_closure (layer_names_ stack) LabelLayer st;
  st ← ofold_option check_block_names names st;
  Some (match st with
        | (S bad, Some (label, name)) => Some (ClosureBroken (S bad) label name)
        | _ => None
        end).
End names.

(** * Coverage *)

Inductive CoverageError :=
  | EmptyTable (cols rows : Z)
  | NoGrid (entries : nat)
  | DuplicateCell (xp yp : nat)
  | OutsideDomain (xp yp : nat) (core : GEORectT)
  | NotAligned (xp yp : nat)
  | CoresOverlap (a b : GEORectT)
  | AreaMismatch (total domain : Z).

Definition density_configured (g : DSDensityGrid) : bool :=
  (0 <? cols g) && (0 <? rows g) && (0 <? bin_width g) && (0 <? bin_height g).

Definition outside (g : DSDensityGrid) (c : GEORectT) : bool :=
  (x_low_ c <? origin_x g) || (y_low_ c <? origin_y g) ||
  (origin_x g + cols g * bin_width g <? x_high_ c) || (origin_y g + rows g * bin_height g <? y_high_ c).

Definition aligned (g : DSDensityGrid) (c : GEORectT) : bool :=
  (Z.rem (x_low_ c - origin_x g) (bin_width g) =? 0) && (Z.rem (x_high_ c - origin_x g) (bin_width g) =? 0) &&
  (Z.rem (y_low_ c - origin_y g) (bin_height g) =? 0) && (Z.rem (y_high_ c - origin_y g) (bin_height g) =? 0).

Definition core_area (c : GEORectT) : Z := (x_high_ c - x_low_ c) * (y_high_ c - y_low_ c).

(** The loop over the partitions: the total area of the cores, or the first error. *)
Fixpoint cover_loop (g : DSDensityGrid) (ps : list DSSubPartition) (occupied : gset (nat * nat)) (total : Z)
  : option (CoverageError + Z) :=
  match ps with
  | [] => Some (inr total)
  | p :: ps =>
      if decide ((xp_ p, yp_ p) ∈ occupied) then Some (inl (DuplicateCell (xp_ p) (yp_ p))) else
      if outside g (core_rect_ p) then Some (inl (OutsideDomain (xp_ p) (yp_ p) (core_rect_ p))) else
      if negb (aligned g (core_rect_ p)) then Some (inl (NotAligned (xp_ p) (yp_ p))) else
      a ← chk 64 (core_area (core_rect_ p));
      t ← chk 64 (total + a);
      cover_loop g ps ({[ (xp_ p, yp_ p) ]} ∪ occupied) t
  end.

Fixpoint overlap_loop (cores : list GEORectT) : option CoverageError :=
  match cores with
  | [] => None
  | a :: rest =>
      match first_error (fun b => if overlaps a b then Some (CoresOverlap a b) else None) rest with
      | Some e => Some e
      | None => overlap_loop rest
      end
  end.

Definition domain_area (g : DSDensityGrid) : Z := cols g * bin_width g * (rows g * bin_height g).

Definition ds_check_partition_coverage (ps : list DSSubPartition) (g : DSDensityGrid) : option (option CoverageError) :=
  if decide (ps = []) then Some (if density_configured g then Some (EmptyTable (cols g) (rows g)) else None) else
  if negb (density_configured g) then Some (Some (NoGrid (length ps))) else
  dom_area ← chk 64 (domain_area g);
  r ← cover_loop g ps ∅ 0;
  match r with
  | inl e => Some (Some e)
  | inr total =>
      match overlap_loop (core_rect_ <$> ps) with
      | Some e => Some (Some e)
      | None => Some (if total =? dom_area then None else Some (AreaMismatch total dom_area))
      end
  end.

(** * One partition *)

Record DSPartitionCheckResult := {
  ck_partition_id_ : N; ck_xp_ : nat; ck_yp_ : nat;
  primary_instance_count_ : Z;
  ck_instance_count_ : Z;
  ck_net_count_ : Z;
  crossing_net_count_ : Z;
  geometry_entry_count_ : Z;
  connection_count_ : Z;
  primary_instance_ids_ : list N;
  ck_instance_ids_ : list N;
  ck_net_ids_ : list N;
  crossing_net_ids_ : list N;
}.

(** The total of a counter of 64 bits. *)
Definition usum {A} (f : A -> Z) (l : list A) : Z := foldl (fun t x => u64 (t + f x)) 0 l.

Definition has_real_geometry (e : N * list DSGeomEntry) : bool :=
  negb (e.1 =? 0)%N || existsb (fun g => negb (g_obs g)) e.2.

(** The nets a geometry covers: those with entries, then the crossing ones. *)
Definition geometry_net_ids (g : DSPartitionGeometry) : list N :=
  (filter (fun e => has_real_geometry e = true) (map_to_list (geo_nets_ g))).*1 ++ elements (crossing_nets_ g).

(** The ids are sorted afterwards, so the order of the tables does not matter. *)
Definition ds_verify_partition (partition_id : N) (xp yp : nat) (geometry geometry_pg : DSPartitionGeometry)
    (instances : gmap N DSInstance) (inst_connections : gmap N (list DSPartConnection))
    (nets nets_pg : DSPartitionNets) : DSPartitionCheckResult :=
  let geos := [geometry; geometry_pg] in
  let sides := [nets; nets_pg] in
  let prims := (filter (fun e => primary_ e.2 = true) (map_to_list instances)).*1 in
  {| ck_partition_id_ := partition_id; ck_xp_ := xp; ck_yp_ := yp;
     primary_instance_count_ := Z.of_nat (length prims);
     ck_instance_count_ := Z.of_nat (size instances);
     ck_net_count_ := usum (fun g => Z.of_nat (size (geo_nets_ g))) geos;
     crossing_net_count_ := usum (fun g => Z.of_nat (size (crossing_nets_ g))) geos;
     geometry_entry_count_ := usum (fun g => usum (fun e => Z.of_nat (length e.2)) (map_to_list (geo_nets_ g))) geos;
     connection_count_ := u64 (usum (fun s => usum (fun e => Z.of_nat (length (net_connections_ e.2))) (map_to_list (nets_ s))) sides +
       usum (fun e => Z.of_nat (length e.2)) (map_to_list inst_connections));
     primary_instance_ids_ := sort_unique prims;
     ck_instance_ids_ := sort_unique (map_to_list instances).*1;
     ck_net_ids_ := sort_unique ((geos ≫= geometry_net_ids) ++ (sides ≫= fun s => (map_to_list (nets_ s)).*1) ++
       ((map_to_list inst_connections).*2 ≫= fmap c_net_global_id_));
     crossing_net_ids_ := sort_unique (geos ≫= fun g => elements (crossing_nets_ g)) |}.

(** * The design *)

Record DSIdDomain := { expected_ : Z; actual_ : Z; holes_ : Z; duplicates_ : Z }.

(** [primary total] and [tree total] of the message. *)
Record DensityVariance := { dv_primary : Z; dv_placed : Z }.

Record DSDesignCheckReport := {
  union_inconsistency_ : option UnionError;
  coverage_gap_ : option CoverageError;
  namemap_inconsistency_ : list NameMapError;
  instance_ids_ : DSIdDomain;
  net_ids_ : DSIdDomain;
  via_ids_ : DSIdDomain;
  density_variance_ : option DensityVariance;
  expected_instances_ : Z; expected_nets_ : Z; expected_vias_ : Z;
  total_primary_ : Z; total_instances_ : Z; total_nets_ : Z; total_connections_ : Z;
  total_geometry_entries_ : Z; total_crossing_nets_ : Z;
  density_instance_total_ : Z; density_metal_total_ : Z; density_via_total_ : Z;
  partition_count_ : Z;
}.

(** The counters of [DSInstanceStats] the check reads. *)
Record InstanceCounts := { instance_count : Z; unplaced_count : Z }.

(** [++hist[id]] on counters of 32 bits. *)
Definition hist_add (h : gmap N Z) (id : N) : gmap N Z := <[id := u32 (default 0 (h !! id) + 1)]> h.
Definition hist_of (ids : list N) : gmap N Z := foldl hist_add ∅ ids.

(** The occurrences beyond the first of each id. *)
Definition hist_duplicates (h : gmap N Z) : Z :=
  usum (fun e => if 1 <? e.2 then e.2 - 1 else 0) (map_to_list h).

Definition id_domain (expected actual duplicates : Z) : DSIdDomain :=
  {| expected_ := expected; actual_ := actual;
     holes_ := if actual <? expected then expected - actual else 0; duplicates_ := duplicates |}.

(** The value of [n.via_start_ + (local.value() - 1)]. *)
Definition via_id (n : DSHierNode) (local : N) : N := Z.to_N (u64 (Z.of_N (via_start_ n) + (Z.of_N local - 1))).

Section design.
Context {B : Type} `{!DSNameBackend B}.
Context (order_roots : gmap N N -> list (N * N)) (order_members : gmap N (list N) -> list (N * list N)).
Context (tree : DSHierTree) (design : DSDesign) (partitions : list DSSubPartition) (stack : DSStack).
Context (global_density : DSDensityGrid) (net_union : DSNetUnion).
Context (blocks : list InstanceCounts) (nets : list DSNetBuildData) (names : list (DSBlockNames B)).
Context (checks : list DSPartitionCheckResult).

(** The first definition with a name. *)
Definition def_of_name (name : bytes) : option nat := fst <$> list_find (fun n => bn_block_name_ n = name) names.

Definition expected_instances : Z :=
  let inst_slots := usum (fun n => Z.of_N (instance_count_ n)) (nodes_ tree) in
  if (0 <? Z.of_nat (length (nodes_ tree))) then u64 (inst_slots - (Z.of_nat (length (nodes_ tree)) - 1) - 1) else 0.

Definition node_via_ids (n : DSHierNode) : option (list N) :=
  match def_of_name (block_cell_name_ n) with
  | None => Some []
  | Some i => d ← nets !! i; Some (via_id n <$> (map_to_list (via_instances_ d)).*1)
  end.

Definition tree_def_missing : list NameMapError :=
  match list_find (fun n => def_of_name (block_cell_name_ n) = None) (nodes_ tree) with
  | Some (_, n) => [DefinitionMissing (id_ n) (block_cell_name_ n)]
  | None => []
  end.

Definition node_placed (n : DSHierNode) : option Z :=
  match def_of_name (block_cell_name_ n) with
  | None => Some 0
  | Some i => s ← blocks !! i;
      Some (if unplaced_count s <? instance_count s then instance_count s - unplaced_count s else 0)
  end.

Definition ds_verify_design : option DSDesignCheckReport :=
  let expected_nets := usum (fun n => if (0 <? net_count_ n)%N then Z.of_N (net_count_ n) - 1 else 0) (nodes_ tree) in
  let expected_vias := usum (fun n => Z.of_N (via_count_ n)) (nodes_ tree) in
  let primaries := usum primary_instance_count_ checks in
  let instance_set : gset N := list_to_set (concat (ck_instance_ids_ <$> checks)) in
  let net_set : gset N := list_to_set (concat (ck_net_ids_ <$> checks)) in
  let crossing_set : gset N := list_to_set (concat (crossing_net_ids_ <$> checks)) in
  let primary_hist := hist_of (concat (primary_instance_ids_ <$> checks)) in
  via_lists ← mapM node_via_ids (nodes_ tree);
  let via_hist := hist_of (concat via_lists) in
  placed ← mapM node_placed (nodes_ tree);
  let expected_placed := usum id placed in
  coverage ← ds_check_partition_coverage partitions global_density;
  name_maps ← ds_check_name_maps design stack names;
  Some {| union_inconsistency_ := ds_check_net_union order_roots order_members net_union;
          coverage_gap_ := coverage;
          namemap_inconsistency_ := option_list name_maps ++ tree_def_missing;
          instance_ids_ := id_domain expected_instances (Z.of_nat (size instance_set)) (hist_duplicates primary_hist);
          net_ids_ := id_domain expected_nets (Z.of_nat (size net_set)) 0;
          via_ids_ := id_domain expected_vias (Z.of_nat (size via_hist)) (hist_duplicates via_hist);
          density_variance_ := if expected_placed =? primaries then None
                               else Some {| dv_primary := primaries; dv_placed := expected_placed |};
          expected_instances_ := expected_instances; expected_nets_ := expected_nets; expected_vias_ := expected_vias;
          total_primary_ := primaries;
          total_instances_ := usum ck_instance_count_ checks;
          total_nets_ := Z.of_nat (size net_set);
          total_connections_ := usum connection_count_ checks;
          total_geometry_entries_ := usum geometry_entry_count_ checks;
          total_crossing_nets_ := Z.of_nat (size crossing_set);
          density_instance_total_ := u64 (total_count global_density);
          density_metal_total_ := u64 (channel_total false global_density);
          density_via_total_ := u64 (channel_total true global_density);
          partition_count_ := u32 (Z.of_nat (length checks)) |}.
End design.

(** The ids of the messages that end the process. *)
Definition union_broken : N := 19.
Definition coverage_broken : N := 20.
Definition namemap_broken : N := 21.

Definition ds_verify_report_or_fatal (r : DSDesignCheckReport) : outcome unit :=
  match union_inconsistency_ r with Some _ => FatalExit union_broken | None =>
  match coverage_gap_ r with Some _ => FatalExit coverage_broken | None =>
  match namemap_inconsistency_ r with _ :: _ => FatalExit namemap_broken | [] => Ok tt end end end.

(** ** The union check *)

Section union_check.
Context (order_roots : gmap N N -> list (N * N)) (order_members : gmap N (list N) -> list (N * list N)).
Context (Hroots : forall m, order_roots m ≡ₚ map_to_list m) (Hmembers : forall m, order_members m ≡ₚ map_to_list m).

(** What the loops establish. *)
Record union_consistent (u : DSNetUnion) : Prop := {
  uc_layers m r : root_of_ u !! m = Some r -> root_of_ u !! r = Some r;
  uc_members r ms : members_of_ u !! r = Some ms ->
    root_of_ u !! r = Some r /\ forall x, x ∈ ms -> root_of_ u !! x = Some r;
  uc_listed : length (concat (map_to_list (members_of_ u)).*2) = size (root_of_ u);
}.

Lemma maps_to_true u id root : maps_to u id root = true <-> root_of_ u !! id = Some root.
Proof. apply bool_decide_eq_true. Qed.

Lemma length_listed {A} (l : list (A * list N)) : sum_list_with (fun e => length e.2) l = length (concat l.*2).
Proof. induction l as [|[a ms] l IH]; cbn; [done|]. by rewrite length_app, <- IH. Qed.

Lemma check_class_None u r ms :
  check_class u (r, ms) = None <-> root_of_ u !! r = Some r /\ forall x, x ∈ ms -> root_of_ u !! x = Some r.
Proof.
  unfold check_class. cbn [fst snd]. rewrite <- maps_to_true. destruct (maps_to u r r); cbn [negb].
  - rewrite first_error_None. split.
    + intros H. split; [done|]. intros x Hx. apply maps_to_true. specialize (H x Hx). by destruct (maps_to u x r).
    + intros [_ H] x Hx. by rewrite (proj2 (maps_to_true u x r) (H x Hx)).
  - split; [done|]. by intros [? _].
Qed.

Lemma check_union_consistent u : ds_check_net_union order_roots order_members u = None <-> union_consistent u.
Proof using All.
  unfold ds_check_net_union. destruct (first_error _ (order_roots _)) as [e|] eqn:E1.
  { split; [done|]. intros [H _ _]. enough (Some e = None) by done. rewrite <- E1. apply first_error_None.
    intros [m r] Hin. rewrite Hroots in Hin. apply elem_of_map_to_list in Hin. cbn. by rewrite (proj2 (maps_to_true u r r) (H m r Hin)). }
  rewrite first_error_None in E1. destruct (first_error _ (order_members _)) as [e|] eqn:E2.
  { split; [done|]. intros [_ H _]. enough (Some e = None) by done. rewrite <- E2. apply first_error_None.
    intros [r ms] Hin. rewrite Hmembers in Hin. apply elem_of_map_to_list in Hin. by apply check_class_None, H. }
  rewrite first_error_None in E2. rewrite (Hmembers (members_of_ u)), length_listed.
  destruct (Nat.eqb_spec (length (concat (map_to_list (members_of_ u)).*2)) (size (root_of_ u))) as [E3|E3].
  - split; [intros _|done]. split; [| |done].
    + intros m r Hm. specialize (E1 (m, r)). rewrite Hroots, elem_of_map_to_list in E1. specialize (E1 Hm). cbn in E1.
      apply maps_to_true. by destruct (maps_to u r r).
    + intros r ms Hr. apply check_class_None, E2. rewrite Hmembers. by apply elem_of_map_to_list.
  - split; [done|]. by intros [_ _ ?].
Qed.

Lemma listed_NoDup u :
  (forall r ms, members_of_ u !! r = Some ms -> NoDup ms) ->
  (forall r ms x, members_of_ u !! r = Some ms -> x ∈ ms -> root_of_ u !! x = Some r) ->
  NoDup (concat (map_to_list (members_of_ u)).*2).
Proof.
  intros Hnd Hback. apply concat_NoDup.
  - intros ms ([r ms'] & -> & Hin%elem_of_map_to_list)%list_elem_of_fmap. by apply (Hnd r).
  - intros i j l l' x Hi Hj Hx Hx'. rewrite list_lookup_fmap in Hi, Hj.
    apply fmap_Some in Hi as ([r ms] & Hi & ->), Hj as ([r' ms'] & Hj & ->). cbn in Hx, Hx'.
    assert (r = r') as <-.
    { pose proof (list_elem_of_lookup_2 _ _ _ Hi) as E1%elem_of_map_to_list. pose proof (list_elem_of_lookup_2 _ _ _ Hj) as E2%elem_of_map_to_list.
      pose proof (Hback r ms x E1 Hx). pose proof (Hback r' ms' x E2 Hx'). congruence. }
    by apply (NoDup_lookup _ _ _ r (NoDup_fst_map_to_list (members_of_ u))); rewrite list_lookup_fmap, ?Hi, ?Hj.
Qed.

(** The member lists are the classes of the map, and a root is in its own class. *)
Definition classes_agree (u : DSNetUnion) : Prop :=
  (forall x r, root_of_ u !! x = Some r <-> exists ms, members_of_ u !! r = Some ms /\ x ∈ ms) /\
  (forall r ms, members_of_ u !! r = Some ms -> r ∈ ms).

Lemma elem_of_listed u x : x ∈ concat (map_to_list (members_of_ u)).*2 <-> exists r ms, members_of_ u !! r = Some ms /\ x ∈ ms.
Proof.
  rewrite elem_of_concat. split.
  - intros (ms & Hx & ([r ms'] & -> & Hin%elem_of_map_to_list)%list_elem_of_fmap). by exists r, ms'.
  - intros (r & ms & Hr & Hx). exists ms. split; [done|]. apply list_elem_of_fmap. exists (r, ms). split; [done|]. by apply elem_of_map_to_list.
Qed.

Lemma consistent_agree u :
  (forall r ms, members_of_ u !! r = Some ms -> NoDup ms) -> union_consistent u <-> classes_agree u.
Proof.
  intros Hnd. set (listed := concat (map_to_list (members_of_ u)).*2).
  assert ((map_to_list (root_of_ u)).*1 ≡ₚ elements (dom (root_of_ u))) as Hdom.
  { apply NoDup_Permutation; [apply NoDup_fst_map_to_list|apply NoDup_elements|]. intros x. rewrite elem_of_elements, elem_of_dom, list_elem_of_fmap.
    split; [intros ([k r] & -> & H%elem_of_map_to_list); by exists r|]. intros [r H]. exists (x, r). split; [done|]. by apply elem_of_map_to_list. }
  assert (length (elements (dom (root_of_ u))) = size (root_of_ u)) as Hsize by (rewrite <- Hdom, length_fmap; apply length_map_to_list).
  split.
  - intros [Hl Hm Hs]. assert (NoDup listed) as Hnl by (apply listed_NoDup; [done|]; intros r ms x H; by apply Hm).
    assert (listed ⊆+ elements (dom (root_of_ u))) as Hsub.
    { apply NoDup_submseteq; [done|]. intros x (r & ms & Hr & Hx)%elem_of_listed. apply elem_of_elements, elem_of_dom. exists r. by apply (Hm r ms). }
    apply submseteq_length_Permutation in Hsub; [|rewrite Hsize; unfold listed; lia].
    assert (forall x r, root_of_ u !! x = Some r -> exists ms, members_of_ u !! r = Some ms /\ x ∈ ms) as Hcover.
    { intros x r Hx. assert (x ∈ listed) as (r' & ms & Hr & Hin)%elem_of_listed.
      { rewrite Hsub. apply elem_of_elements, elem_of_dom. by exists r. }
      pose proof (proj2 (Hm r' ms Hr) x Hin) as E. rewrite Hx in E. injection E as <-. by exists ms. }
    split; [intros x r; split; [apply Hcover|]|].
    + intros (ms & Hr & Hx). by apply (proj2 (Hm r ms Hr)).
    + intros r ms Hr. destruct (Hcover r r) as (ms' & Hr' & Hin); [by apply Hm in Hr as [? _]|]. congruence.
  - intros [Hiff Hself]. split.
    + intros m r (ms & Hr & Hm)%Hiff. apply Hiff. exists ms. split; [done|by apply Hself].
    + intros r ms Hr. split; [apply Hiff; exists ms; split; [done|by apply Hself]|]. intros x Hx. apply Hiff. by exists ms.
    + rewrite <- Hsize. apply Permutation_length, NoDup_Permutation; [|apply NoDup_elements|].
      * apply listed_NoDup; [done|]. intros r ms x Hr Hx. apply Hiff. by exists ms.
      * intros x. rewrite elem_of_listed, elem_of_elements, elem_of_dom. split.
        -- intros (r & ms & H). exists r. apply Hiff. by exists ms.
        -- intros [r (ms & H)%Hiff]. by exists r, ms.
Qed.

(** Every result of the construction agrees. *)
Lemma built_union_agrees order_keys order_groups tree slices u :
  (forall m, NoDup (order_keys m) /\ forall x, x ∈ order_keys m <-> x ∈ dom m) ->
  (forall g, NoDup (order_groups g) /\ forall e, e ∈ order_groups g <-> g !! e.1 = Some e.2) ->
  tree_good tree -> ds_build_net_union order_keys order_groups tree slices = Some u ->
  (forall r ms, members_of_ u !! r = Some ms -> NoDup ms) /\ classes_agree u.
Proof.
  intros Hk Hg Ht Hu. destruct (build_ok order_keys order_groups Hk Hg tree Ht slices) as (u' & gs & E & [C1 C2 _] & _ & Hgs & _).
  rewrite Hu in E. injection E as <-. split; [|split].
  - intros r ms (g & Hin & -> & _)%C2. apply sort_NoDup, Hgs, Hin.
  - intros x r. rewrite C1. split.
    + intros (g & Hin & Hx & Hc). exists (merge_sort N.le g.2). split; [apply C2; by exists g|by apply sort_elem].
    + intros (ms & (g & Hin & -> & Hc)%C2 & Hx). exists g. split; [done|]. by apply sort_elem in Hx.
  - intros r ms (g & Hin & -> & Hc)%C2. destruct (canonical_ok tree g.2 Ht (proj2 (Hgs g Hin))) as (c & Hc' & Hr & _).
    rewrite Hc in Hc'. injection Hc' as <-. by apply sort_elem.
Qed.
End union_check.

(** ** The coverage check *)

Definition coord (p : DSSubPartition) : nat * nat := (xp_ p, yp_ p).

Lemma cover_loop_inr g ps occ t t' :
  cover_loop g ps occ t = Some (inr t') ->
  NoDup (coord <$> ps) /\ (forall p, p ∈ ps -> coord p ∉ occ /\ outside g (core_rect_ p) = false /\ aligned g (core_rect_ p) = true) /\
  t' = t + sum ((fun p => core_area (core_rect_ p)) <$> ps).
Proof.
  revert occ t. induction ps as [|p ps IH]; intros occ t; cbn [cover_loop].
  { intros [= ->]. split; [constructor|]. split; [by intros ? ?%elem_of_nil|]. rewrite fmap_nil, sum_nil. lia. }
  destruct (decide _) as [|Hocc]; [done|]. destruct (outside _ _) eqn:Ho; [done|]. destruct (aligned _ _) eqn:Ha; [|done]. cbn [negb].
  intros (a & [_ ->]%chk_Some & (t1 & [_ ->]%chk_Some & H)%bind_Some)%bind_Some.
  destruct (IH _ _ H) as (Hnd & Hps & ->). split; [|split].
  - cbn. constructor; [|done]. intros (q & E & Hq)%list_elem_of_fmap. apply Hps in Hq as [Hq _]. rewrite <- E in Hq. set_solver.
  - intros q [->|Hq]%elem_of_cons; [done|]. apply Hps in Hq as (Hq & ? & ?). split; [set_solver|done].
  - rewrite fmap_cons, sum_cons. lia.
Qed.

Lemma cover_loop_total g ps occ t :
  NoDup (coord <$> ps) ->
  (forall p, p ∈ ps -> coord p ∉ occ /\ outside g (core_rect_ p) = false /\ aligned g (core_rect_ p) = true /\ rect_ok (core_rect_ p)) ->
  0 <= t -> t + sum ((fun p => core_area (core_rect_ p)) <$> ps) < 2 ^ 63 ->
  cover_loop g ps occ t = Some (inr (t + sum ((fun p => core_area (core_rect_ p)) <$> ps))).
Proof.
  revert occ t. induction ps as [|p ps IH]; intros occ t Hnd Hps Ht Hfit; cbn [cover_loop].
  { rewrite fmap_nil, sum_nil. do 2 f_equal. lia. }
  cbn in Hnd. apply NoDup_cons in Hnd as [Hp Hnd]. destruct (Hps p) as (Hocc & -> & -> & Hr); [by left|].
  rewrite decide_False by done. cbn [negb]. rewrite fmap_cons, sum_cons in *.
  assert (forall q, q ∈ p :: ps -> 0 <= core_area (core_rect_ q)) as Hpos.
  { intros q Hq. apply Hps in Hq as (_ & _ & _ & Hx & Hy). unfold core_area. nia. }
  assert (0 <= sum ((fun p => core_area (core_rect_ p)) <$> ps)) as Hs.
  { pose proof (sum_fmap_le (fun _ => 0) (fun p => core_area (core_rect_ p)) ps ltac:(intros; apply Hpos; by right)) as H.
    rewrite sum_const in H. lia. }
  pose proof (Hpos p ltac:(by left)). unfold chk. rewrite decide_True by (unfold fits; lia). cbn [mbind option_bind].
  rewrite decide_True by (unfold fits; lia). cbn [mbind option_bind]. rewrite IH; [do 2 f_equal; lia|done| |lia|lia].
  intros q Hq. destruct (Hps q) as (H1 & H2 & H3 & H4); [by right|]. split; [|done].
  intros [E%elem_of_singleton|?]%elem_of_union; [|done]. apply Hp. change (coord q = coord p) in E. rewrite <- E.
  by apply list_elem_of_fmap_2.
Qed.

Lemma overlap_loop_None cs :
  overlap_loop cs = None <-> forall i j a b, (i < j)%nat -> cs !! i = Some a -> cs !! j = Some b -> overlaps a b = false.
Proof.
  induction cs as [|c cs IH]; cbn [overlap_loop]; [done|].
  destruct (first_error _ _) as [e|] eqn:E.
  - split; [done|]. intros H. enough (Some e = None) by done. rewrite <- E. apply first_error_None. intros b [j Hj]%list_elem_of_lookup.
    by rewrite (H 0%nat (S j) c b ltac:(lia) eq_refl Hj).
  - rewrite first_error_None in E. rewrite IH. split.
    + intros H i j a b Hij Hi Hj. destruct j as [|j]; [lia|]. cbn in Hj. destruct i as [|i]; [|by apply (H i j); [lia|..]].
      injection Hi as <-. specialize (E b ltac:(by eapply list_elem_of_lookup_2)). by destruct (overlaps c b).
    + intros H i j a b Hij Hi Hj. by apply (H (S i) (S j)); [lia|..].
Qed.

Section tiling.
Context (g : DSDensityGrid) (Hg : grid_ok g).

(** The cell of a point, the lower corner of a cell, the cells of a core. *)
Definition cell_at (p : GEOPointT) : Z * Z := ((y_ p - origin_y g) / bin_height g, (x_ p - origin_x g) / bin_width g).
Definition corner (rc : Z * Z) : GEOPointT := GEOPoint (origin_x g + rc.2 * bin_width g) (origin_y g + rc.1 * bin_height g).
Definition core_cells (c : GEORectT) : list (Z * Z) :=
  cells_between ((y_low_ c - origin_y g) / bin_height g) ((y_high_ c - origin_y g) / bin_height g - 1)
    ((x_low_ c - origin_x g) / bin_width g) ((x_high_ c - origin_x g) / bin_width g - 1).
Definition all_cells : list (Z * Z) := cells_between 0 (rows g - 1) 0 (cols g - 1).

Lemma cell_at_corner rc : cell_at (corner rc) = rc.
Proof using Hg.
  destruct rc as [r c], Hg as [Hw Hh _ _]. unfold cell_at, corner. cbn [x_ y_ fst snd].
  f_equal; [replace (origin_y g + _ - _) with (r * bin_height g) by lia|replace (origin_x g + _ - _) with (c * bin_width g) by lia];
    apply Z.div_mul; lia.
Qed.

(** The bounds of an aligned rectangle are bounds of cells. *)
Lemma aligned_bounds c : aligned g c = true ->
  x_low_ c = origin_x g + (x_low_ c - origin_x g) / bin_width g * bin_width g /\
  x_high_ c = origin_x g + (x_high_ c - origin_x g) / bin_width g * bin_width g /\
  y_low_ c = origin_y g + (y_low_ c - origin_y g) / bin_height g * bin_height g /\
  y_high_ c = origin_y g + (y_high_ c - origin_y g) / bin_height g * bin_height g.
Proof using Hg.
  destruct Hg as [Hw Hh _ _]. assert (forall a b, 0 < b -> Z.rem a b = 0 -> a = a / b * b) as H.
  { intros a b Hb E. apply Z.rem_mod_eq_0 in E; [|lia]. pose proof (Z.div_mod a b ltac:(lia)). lia. }
  unfold aligned. rewrite !andb_true_iff, !Z.eqb_eq. intros [[[H1 H2] H3] H4].
  pose proof (H _ _ Hw H1). pose proof (H _ _ Hw H2). pose proof (H _ _ Hh H3). pose proof (H _ _ Hh H4). lia.
Qed.

Lemma contains_iff_cell c p : aligned g c = true -> contains c p = true <-> cell_at p ∈ core_cells c.
Proof using Hg.
  intros (E1 & E2 & E3 & E4)%aligned_bounds. unfold cell_at, core_cells. rewrite elem_of_cells_between.
  unfold contains. rewrite !andb_true_iff, !Z.leb_le, !Z.ltb_lt, E1, E2, E3, E4. destruct Hg as [Hw Hh _ _].
  pose proof (cell_of_point (origin_x g) (bin_width g) (x_ p) ((x_low_ c - origin_x g) / bin_width g) Hw).
  pose proof (cell_of_point (origin_x g) (bin_width g) (x_ p) ((x_high_ c - origin_x g) / bin_width g) Hw).
  pose proof (cell_of_point (origin_y g) (bin_height g) (y_ p) ((y_low_ c - origin_y g) / bin_height g) Hh).
  pose proof (cell_of_point (origin_y g) (bin_height g) (y_ p) ((y_high_ c - origin_y g) / bin_height g) Hh).
  rewrite <- E1, <- E2, <- E3, <- E4 in *. lia.
Qed.

Lemma area_iff_cell p : contains (area g) p = true <-> cell_at p ∈ all_cells.
Proof using Hg.
  unfold cell_at, all_cells. rewrite elem_of_cells_between. unfold contains, area. cbn [x_low_ x_high_ y_low_ y_high_].
  rewrite !andb_true_iff, !Z.leb_le, !Z.ltb_lt. destruct Hg as [Hw Hh _ _].
  pose proof (cell_of_point (origin_x g) (bin_width g) (x_ p) 0 Hw). pose proof (cell_of_point (origin_x g) (bin_width g) (x_ p) (cols g) Hw).
  pose proof (cell_of_point (origin_y g) (bin_height g) (y_ p) 0 Hh). pose proof (cell_of_point (origin_y g) (bin_height g) (y_ p) (rows g) Hh). lia.
Qed.

Lemma length_cells rl rh cl ch : rl <= rh + 1 -> cl <= ch + 1 ->
  Z.of_nat (length (cells_between rl rh cl ch)) = (rh + 1 - rl) * (ch + 1 - cl).
Proof.
  intros Hr Hc. unfold cells_between. assert (forall (f : Z -> list (Z * Z)) n l, (forall x, length (f x) = n) -> length (l ≫= f) = (length l * n)%nat) as H.
  { intros f n l Hf. induction l as [|x l IH]; [done|]. rewrite bind_cons, length_app, Hf, IH. done. }
  rewrite (H _ (Z.to_nat (ch - cl + 1))); [rewrite length_seqZ, Nat2Z.inj_mul, !Z2Nat.id by lia; lia|]. intros r.
  rewrite (H _ 1%nat); [rewrite length_seqZ; lia|done].
Qed.

Lemma core_area_cells c : aligned g c = true -> rect_ok c -> core_area c = Z.of_nat (length (core_cells c)) * cell_area g.
Proof using Hg.
  intros Ha [Hx Hy]. destruct (aligned_bounds c Ha) as (E1 & E2 & E3 & E4). destruct Hg as [Hw Hh _ _].
  unfold core_cells. rewrite length_cells by (pose proof (Z.div_le_mono (y_low_ c - origin_y g) (y_high_ c - origin_y g) (bin_height g));
    pose proof (Z.div_le_mono (x_low_ c - origin_x g) (x_high_ c - origin_x g) (bin_width g)); lia).
  unfold core_area, cell_area. rewrite E1, E2, E3, E4 at 1. lia.
Qed.

(** Partitions whose cores consist of whole cells and cover the die without overlap. *)
Record seamless (ps : list DSSubPartition) : Prop := {
  se_coords : NoDup (coord <$> ps);
  se_cells p : p ∈ ps -> outside g (core_rect_ p) = false /\ aligned g (core_rect_ p) = true;
  se_cover p : contains (area g) p = true -> exists i q, ps !! i = Some q /\ contains (core_rect_ q) p = true;
  se_unique p i j q r : ps !! i = Some q -> ps !! j = Some r ->
    contains (core_rect_ q) p = true -> contains (core_rect_ r) p = true -> i = j;
}.

(** A rectangle with points. *)
Definition proper (c : GEORectT) : Prop := x_low_ c < x_high_ c /\ y_low_ c < y_high_ c.

Lemma overlaps_point a b : proper a -> proper b -> overlaps a b = true <-> exists p, contains a p = true /\ contains b p = true.
Proof. intros [? ?] [? ?]. by apply overlaps_iff_common_point. Qed.

Section cores.
Context (ps : list DSSubPartition) (Hp : forall p, p ∈ ps -> proper (core_rect_ p)).
Context (Hal : forall p, p ∈ ps -> outside g (core_rect_ p) = false /\ aligned g (core_rect_ p) = true).

Let covered : list (Z * Z) := concat ((fun p => core_cells (core_rect_ p)) <$> ps).

Lemma elem_of_covered rc : rc ∈ covered <-> exists i q, ps !! i = Some q /\ contains (core_rect_ q) (corner rc) = true.
Proof using All.
  unfold covered. rewrite elem_of_concat. split.
  - intros (l & Hrc & (q & -> & Hq)%list_elem_of_fmap). pose proof (proj2 (Hal q Hq)) as Ha. apply list_elem_of_lookup in Hq as [i Hi].
    exists i, q. split; [done|]. apply contains_iff_cell; [done|]. by rewrite cell_at_corner.
  - intros (i & q & Hi & Hc). apply list_elem_of_lookup_2 in Hi as Hq. exists (core_cells (core_rect_ q)). split.
    + apply contains_iff_cell in Hc; [|by apply Hal]. by rewrite cell_at_corner in Hc.
    + by apply (list_elem_of_fmap_2 (fun p => core_cells (core_rect_ p))).
Qed.

Definition no_common_point : Prop := forall p i j q r, ps !! i = Some q -> ps !! j = Some r ->
  contains (core_rect_ q) p = true -> contains (core_rect_ r) p = true -> i = j.

Lemma overlap_loop_iff : overlap_loop (core_rect_ <$> ps) = None <-> no_common_point.
Proof using Hp.
  rewrite overlap_loop_None. split.
  - intros H p i j q r Hi Hj Hq Hr. assert (forall i j q r, (i < j)%nat -> ps !! i = Some q -> ps !! j = Some r ->
      contains (core_rect_ q) p = true -> contains (core_rect_ r) p = true -> False) as Hno.
    { intros i' j' q' r' Hlt Hi' Hj' Hq' Hr'. assert (overlaps (core_rect_ q') (core_rect_ r') = true) as E.
      { apply overlaps_point; [by apply Hp; eapply list_elem_of_lookup_2|by apply Hp; eapply list_elem_of_lookup_2|by exists p]. }
      rewrite (H i' j') in E; [done|done|by rewrite list_lookup_fmap, Hi'|by rewrite list_lookup_fmap, Hj']. }
    destruct (Nat.lt_trichotomy i j) as [Hlt|[?|Hlt]]; [|done|]; exfalso; [by apply (Hno i j q r)|by apply (Hno j i r q)].
  - intros H i j a b Hlt Ha Hb. rewrite list_lookup_fmap in Ha, Hb.
    apply fmap_Some in Ha as (q & Hq & ->), Hb as (r & Hr & ->). destruct (overlaps _ _) eqn:E; [|done].
    apply overlaps_point in E as (p & H1 & H2); [|by apply Hp; eapply list_elem_of_lookup_2..].
    pose proof (H p i j q r Hq Hr H1 H2). lia.
Qed.

Lemma covered_NoDup : no_common_point -> NoDup covered.
Proof using All.
  intros Hone. apply concat_NoDup.
  - intros l (q & -> & _)%list_elem_of_fmap. apply cells_between_NoDup.
  - intros i j l l' rc Hi Hj Hl Hl'. rewrite list_lookup_fmap in Hi, Hj. apply fmap_Some in Hi as (q & Hq & ->), Hj as (r & Hr & ->).
    assert (forall k s, ps !! k = Some s -> rc ∈ core_cells (core_rect_ s) -> contains (core_rect_ s) (corner rc) = true) as Hc.
    { intros k s Hs Hin. apply contains_iff_cell; [by apply Hal; eapply list_elem_of_lookup_2|]. by rewrite cell_at_corner. }
    apply (Hone (corner rc) i j q r Hq Hr); by eapply Hc.
Qed.

Lemma covered_inside rc : rc ∈ covered -> rc ∈ all_cells.
Proof using All.
  intros (i & q & Hq & Hc)%elem_of_covered. rewrite <- (cell_at_corner rc). apply area_iff_cell.
  destruct (Hal q (list_elem_of_lookup_2 _ _ _ Hq)) as [Ho _]. unfold outside in Ho. rewrite !orb_false_iff, !Z.ltb_ge in Ho.
  unfold contains, area in *. cbn [x_low_ x_high_ y_low_ y_high_]. rewrite !andb_true_iff, !Z.leb_le, !Z.ltb_lt in *. lia.
Qed.

Lemma total_area : sum ((fun p => core_area (core_rect_ p)) <$> ps) = Z.of_nat (length covered) * cell_area g.
Proof using All.
  unfold covered. clear covered. induction ps as [|p l IH]; [done|]. rewrite !fmap_cons, sum_cons. cbn [concat].
  rewrite length_app, IH by (intros; (apply Hp || apply Hal); by right).
  rewrite core_area_cells; [lia|by apply Hal; left|]. destruct (Hp p ltac:(by left)). split; lia.
Qed.

Lemma domain_cells : domain_area g = Z.of_nat (length all_cells) * cell_area g.
Proof using Hg.
  unfold all_cells. destruct Hg as [_ _ Hc Hr]. rewrite length_cells by lia. unfold domain_area, cell_area. lia.
Qed.

(** The areas agree exactly when every cell of the die is covered. *)
Lemma area_iff_cover : no_common_point ->
  sum ((fun p => core_area (core_rect_ p)) <$> ps) = domain_area g <->
  forall p, contains (area g) p = true -> exists i q, ps !! i = Some q /\ contains (core_rect_ q) p = true.
Proof using All.
  intros Hone. rewrite total_area, domain_cells. pose proof (covered_NoDup Hone) as Hnd.
  assert (0 < cell_area g) as Hpos by (destruct Hg; unfold cell_area; nia).
  assert (covered ⊆+ all_cells) as Hsub by (apply NoDup_submseteq; [done|apply covered_inside]). split.
  - intros E p Hc%area_iff_cell. assert (covered ≡ₚ all_cells) as Hperm.
    { apply submseteq_length_Permutation; [done|]. nia. }
    rewrite <- Hperm in Hc. apply elem_of_covered in Hc as (i & q & Hq & Hc). exists i, q. split; [done|].
    destruct (Hal q (list_elem_of_lookup_2 _ _ _ Hq)) as [_ Ha]. apply contains_iff_cell in Hc; [|done]. rewrite cell_at_corner in Hc.
    by apply contains_iff_cell.
  - intros Hcov. do 2 f_equal. apply Permutation_length, NoDup_Permutation; [done|apply cells_between_NoDup|].
    intros rc. split; [apply covered_inside|]. intros Hrc. apply elem_of_covered, Hcov, area_iff_cell. by rewrite cell_at_corner.
Qed.
End cores.

Lemma density_configured_ok : density_configured g = true.
Proof using Hg. destruct Hg. unfold density_configured. rewrite !andb_true_iff, !Z.ltb_lt. lia. Qed.

Lemma coverage_iff ps :
  ps <> [] -> (forall p, p ∈ ps -> proper (core_rect_ p)) -> fits 64 (domain_area g) ->
  ds_check_partition_coverage ps g = Some None <-> seamless ps.
Proof using Hg.
  intros Hne Hp Hfit. unfold ds_check_partition_coverage. rewrite decide_False, density_configured_ok by done. cbn [negb].
  unfold chk. rewrite decide_True by done. cbn [mbind option_bind]. split.
  - destruct (cover_loop _ _ _ _) as [[e|t]|] eqn:El; [done| |done]. cbn. destruct (overlap_loop _) eqn:Eo; [done|].
    destruct (Z.eqb_spec t (domain_area g)) as [->|]; [intros _|done].
    apply cover_loop_inr in El as (H1 & H2 & H3). rewrite overlap_loop_iff in Eo by done. split; [done| | |done].
    + intros p H%H2. tauto.
    + apply area_iff_cover; [done| |done|by rewrite H3]. intros p H%H2. tauto.
  - intros [H1 H2 H3 H4]. apply (area_iff_cover ps Hp H2 H4) in H3.
    rewrite cover_loop_total; [|done| |lia|rewrite H3; unfold fits in Hfit; lia].
    + cbn. rewrite (proj2 (overlap_loop_iff ps Hp) H4), H3, Z.eqb_refl. done.
    + intros p H. destruct (H2 p H) as [? ?]. split; [set_solver|]. split; [done|]. split; [done|]. destruct (Hp p H). split; lia.
Qed.
End tiling.

(** ** The partitions that are decided *)

(** Each is at its own position and its core is a block of cells. *)
Lemma decided_cores order u g stack w tp pc td ps :
  grid_ok g -> area_fits g -> cols g * rows g < 2 ^ 32 -> pc < 2 ^ 31 ->
  ds_decide_partitions order u g stack w tp pc td = Some ps ->
  exists cuts_x cuts_y : nat -> option nat, forall i q, ps !! i = Some q -> exists r0 r1 c0 c1,
    cuts_y (yp_ q) = Some r0 /\ cuts_x (xp_ q) = Some c0 /\
    (r0 < r1 <= Z.to_nat (rows g))%nat /\ (c0 < c1 <= Z.to_nat (cols g))%nat /\
    core_rect_ q = GEORect (origin_x g + Z.of_nat c0 * bin_width g) (origin_y g + Z.of_nat r0 * bin_height g)
                           (origin_x g + Z.of_nat c1 * bin_width g) (origin_y g + Z.of_nat r1 * bin_height g).
Proof.
  intros Hg Hfit Hcells Hpc H.
  destruct (decide_partitions_cuts _ _ _ _ _ _ _ _ _ Hg Hcells Hpc H) as (nx & ny & cl & rl & Hx & Hy & L1 & L2 & ->).
  destruct (prefix_cuts_ok cl nx Hx) as (A1 & A2 & A3 & A4), (prefix_cuts_ok rl ny Hy) as (B1 & B2 & B3 & B4).
  rewrite L1 in A3. rewrite L2 in B3. exists (fun k => prefix_cuts cl nx !! k), (fun k => prefix_cuts rl ny !! k). intros i q Hq.
  apply (partition_at g Hg Hfit _ nx ny _ _ A1 A2 A3 A4 B1 B2 B3 B4) in Hq as ([[yp r0] r1] & [[xp c0] c1] & _ & Hr & Hc & ->).
  exists r0, r1, c0, c1. split; [by apply (elem_of_segments _ _ B1) in Hr as (_ & ? & _)|]. split; [by apply (elem_of_segments _ _ A1) in Hc as (_ & ? & _)|].
  split; [by apply (segment_bound _ _ _ B1 B3 B4 _ _ _ Hr)|]. split; [by apply (segment_bound _ _ _ A1 A3 A4 _ _ _ Hc)|].
  by apply (core_eq g Hg Hfit _ nx ny _ _ A1 A2 A3 A4 B1 B2 B3 B4).
Qed.

Lemma decided_seamless order u g stack w tp pc td ps :
  grid_ok g -> area_fits g -> cols g * rows g < 2 ^ 32 -> pc < 2 ^ 31 ->
  ds_decide_partitions order u g stack w tp pc td = Some ps ->
  seamless g ps /\ forall p, p ∈ ps -> proper (core_rect_ p).
Proof.
  intros Hg Hfit Hcells Hpc H. destruct (decided_tile order u g stack w tp pc td ps Hg Hfit Hcells Hpc H) as [[_ Hcov Huniq _] _].
  destruct (decided_cores order u g stack w tp pc td ps Hg Hfit Hcells Hpc H) as (cx & cy & Hat). destruct Hg as [Hw Hh Hc Hr].
  split; [split; [| |exact Hcov|exact Huniq]|].
  - apply NoDup_alt. intros i j k Hi Hj. rewrite list_lookup_fmap in Hi, Hj.
    apply fmap_Some in Hi as (q & Hq & Ek), Hj as (q' & Hq' & Ek'). rewrite Ek in Ek'. injection Ek' as Ex Ey.
    destruct (Hat i q Hq) as (r0 & r1 & c0 & c1 & S1 & T1 & R1 & C1 & K1).
    destruct (Hat j q' Hq') as (r0' & r1' & c0' & c1' & S2 & T2 & R2 & C2 & K2). rewrite Ex, T2 in T1. rewrite Ey, S2 in S1. simplify_eq.
    apply (Huniq (GEOPoint (origin_x g + Z.of_nat c0 * bin_width g) (origin_y g + Z.of_nat r0 * bin_height g)) i j q q' Hq Hq');
      [rewrite K1|rewrite K2]; unfold contains; cbn [x_ y_ x_low_ x_high_ y_low_ y_high_];
      rewrite !andb_true_iff, !Z.leb_le, !Z.ltb_lt; nia.
  - intros q [i Hi]%list_elem_of_lookup. destruct (Hat i q Hi) as (r0 & r1 & c0 & c1 & _ & _ & R & C & ->).
    unfold outside, aligned. cbn [x_low_ x_high_ y_low_ y_high_]. rewrite !orb_false_iff, !andb_true_iff, !Z.ltb_ge, !Z.eqb_eq.
    assert (forall o b c, 0 < b -> Z.rem (o + c * b - o) b = 0) as Hrem.
    { intros o b c Hb. replace (o + c * b - o) with (c * b) by lia. apply Z.rem_mul. lia. }
    rewrite !Hrem by done. split; [repeat split; nia|done].
  - intros q [i Hi]%list_elem_of_lookup. destruct (Hat i q Hi) as (r0 & r1 & c0 & c1 & _ & _ & R & C & ->).
    unfold proper. cbn [x_low_ x_high_ y_low_ y_high_]. split; nia.
Qed.

(** * The damage checks *)

(** [ds_check_net_union] finds exactly the damage it is meant to find, in any order of
    the hash tables, provided the member lists have no duplicates: it passes if and only
    if the member list of each root holds exactly the nets that the map sends to that
    root and contains the root itself.  Every union that [ds_build_net_union] returns
    has such lists and passes. *)
Theorem union_check_exact order_roots order_members (u : DSNetUnion) :
  (forall m, order_roots m ≡ₚ map_to_list m) -> (forall m, order_members m ≡ₚ map_to_list m) ->
  ((forall r ms, members_of_ u !! r = Some ms -> NoDup ms) ->
     ds_check_net_union order_roots order_members u = None <-> classes_agree u) /\
  (forall order_keys order_groups tree slices,
     (forall m, NoDup (order_keys m) /\ forall x, x ∈ order_keys m <-> x ∈ dom m) ->
     (forall g, NoDup (order_groups g) /\ forall e, e ∈ order_groups g <-> g !! e.1 = Some e.2) ->
     tree_good tree -> ds_build_net_union order_keys order_groups tree slices = Some u ->
     ds_check_net_union order_roots order_members u = None).
Proof.
  intros H1 H2. assert ((forall r ms, members_of_ u !! r = Some ms -> NoDup ms) ->
     ds_check_net_union order_roots order_members u = None <-> classes_agree u) as H.
  { intros Hnd. rewrite (check_union_consistent order_roots order_members H1 H2). by apply consistent_agree. }
  split; [done|]. intros ok og tree slices Hk Hg Ht Hu. destruct (built_union_agrees ok og tree slices u Hk Hg Ht Hu) as [Hnd Ha].
  by apply H.
Qed.

(** Without that the lists are only counted: a net that is missing from its class goes
    unnoticed when another one is listed twice. *)
Definition twice_listed : DSNetUnion := {| root_of_ := <[1%N := 1%N]> {[2%N := 1%N]}; members_of_ := {[1%N := [1; 1]%N]}; dangling_count_ := 0 |}.

Lemma duplicate_member_passes : ds_check_net_union map_to_list map_to_list twice_listed = None /\ ~ classes_agree twice_listed.
Proof.
  split; [by vm_compute|]. intros [H _]. destruct (proj1 (H 2%N 1%N) eq_refl) as (ms & [= <-] & Hin).
  by repeat (apply elem_of_cons in Hin as [?|Hin]; [done|]); apply elem_of_nil in Hin.
Qed.

(** [ds_check_partition_coverage] decides seamless coverage: for a configured grid whose
    area is a 64-bit number and cores that are not empty, it passes if and only if the
    partitions have different positions, consist of whole cells inside the die, and each
    point of the die lies in exactly one core; adding up areas and comparing cores in
    pairs is enough.  The partitions that [ds_decide_partitions] returns always pass. *)
Theorem coverage_check_exact g ps :
  grid_ok g -> fits 64 (domain_area g) ->
  (ps <> [] -> (forall p, p ∈ ps -> proper (core_rect_ p)) -> ds_check_partition_coverage ps g = Some None <-> seamless g ps) /\
  (forall order u stack w tp pc td, area_fits g -> cols g * rows g < 2 ^ 32 -> pc < 2 ^ 31 ->
     ds_decide_partitions order u g stack w tp pc td = Some ps -> ds_check_partition_coverage ps g = Some None).
Proof.
  intros Hg Hfit. split; [intros; by apply coverage_iff|]. intros order u stack w tp pc td Hf Hcells Hpc H.
  destruct (decided_seamless order u g stack w tp pc td ps Hg Hf Hcells Hpc H) as [Hs Hp]. apply coverage_iff; [done| |done|done|done].
  intros ->. destruct (se_cover _ _ Hs (GEOPoint (origin_x g) (origin_y g))) as (i & q & Hi & _); [|done].
  destruct Hg as [Hw Hh Hc Hr]. unfold contains, area. cbn [x_ y_ x_low_ x_high_ y_low_ y_high_].
  rewrite !andb_true_iff, !Z.leb_le, !Z.ltb_lt. nia.
Qed.

(** * A design that was built *)

Lemma usum_sum {A} (f : A -> Z) l : usum f l = u64 (sum (f <$> l)).
Proof.
  unfold usum. induction l as [|x l IH] using rev_ind; [done|]. rewrite foldl_app, fmap_app, sum_app. cbn [foldl]. rewrite IH.
  unfold u64. rewrite Z.add_mod_idemp_l by done. rewrite fmap_cons, fmap_nil, sum_cons, sum_nil. f_equal. lia.
Qed.

Lemma sum_lengths {A} (ls : list (list A)) : sum ((fun l => Z.of_nat (length l)) <$> ls) = Z.of_nat (length (concat ls)).
Proof. induction ls as [|l ls IH]; [done|]. rewrite fmap_cons, sum_cons, IH. cbn [concat]. rewrite length_app. lia. Qed.

Lemma filter_keys_NoDup {A} (P : N * A -> Prop) `{!forall x, Decision (P x)} (m : gmap N A) : NoDup (filter P (map_to_list m)).*1.
Proof.
  pose proof (NoDup_fst_map_to_list m) as Hm. induction (map_to_list m) as [|e l IH]; [constructor|].
  cbn in Hm. apply NoDup_cons in Hm as [He Hl]. rewrite filter_cons. destruct (decide (P e)); [|by apply IH]. cbn. constructor; [|by apply IH].
  intros (e' & E & [_ Hin]%list_elem_of_filter)%list_elem_of_fmap. apply He. rewrite E. by apply list_elem_of_fmap_2.
Qed.

Lemma hist_of_NoDup l : NoDup l -> hist_of l = gset_to_gmap 1 (list_to_set l).
Proof.
  unfold hist_of. induction l as [|x l IH] using rev_ind; intros Hnd; [done|].
  apply NoDup_app in Hnd as (Hnd & Hx & _). rewrite foldl_app, IH by done. cbn [foldl]. unfold hist_add.
  assert (x ∉ (list_to_set l : gset N)) as Hn.
  { intros H%elem_of_list_to_set. apply (Hx x H). by left. }
  rewrite (proj2 (lookup_gset_to_gmap_None _ _ _)) by done. cbn [default from_option id].
  change (u32 (0 + 1)) with 1. rewrite <- gset_to_gmap_union_singleton, list_to_set_app_L. f_equal. set_solver.
Qed.

Lemma hist_once l : NoDup l -> size (hist_of l) = length l /\ hist_duplicates (hist_of l) = 0.
Proof.
  intros Hnd. rewrite (hist_of_NoDup l Hnd). split.
  - rewrite <- size_dom, dom_gset_to_gmap. by apply size_list_to_set.
  - unfold hist_duplicates. rewrite usum_sum. set (m := gset_to_gmap 1 (list_to_set l)).
    assert (forall e, e ∈ map_to_list m -> e.2 = 1) as H.
    { intros [k v] [_ E]%elem_of_map_to_list%lookup_gset_to_gmap_Some. by cbn. }
    induction (map_to_list m) as [|e es IH]; [done|]. rewrite fmap_cons, sum_cons, (H e) by by left. cbn [Z.ltb Z.compare Pos.compare Pos.compare_cont].
    apply IH. intros e' He'. apply H. by right.
Qed.

Lemma sort_unique_elem l x : x ∈ sort_unique l <-> x ∈ l.
Proof. unfold sort_unique. by rewrite unique_elem, sort_elem. Qed.

Lemma sort_unique_sorted l : StronglySorted N.lt (sort_unique l).
Proof.
  destruct (unique_sorted N.le (merge_sort N.le l)) as [Hs Hnd]; [apply (sort_strongly N.le)|]. by apply sorted_le_lt.
Qed.

Lemma sort_unique_perm l : NoDup l -> sort_unique l ≡ₚ l.
Proof. intros Hnd. apply NoDup_Permutation; [apply sorted_lt_NoDup, sort_unique_sorted|done|apply sort_unique_elem]. Qed.

(** Ids that lie in the ranges of their nodes differ. *)
Lemma spread_ids_NoDup (start count : DSHierNode -> N) nodes (f : DSHierNode -> list N) :
  ranges (start <$> nodes) (count <$> nodes) -> (forall i n, nodes !! i = Some n -> id_ n = i) ->
  (forall n, n ∈ nodes -> NoDup (f n) /\ forall x, x ∈ f n -> (start n <= x < start n + count n)%N) ->
  NoDup (concat (f <$> nodes)).
Proof.
  intros Hr Hid Hf. apply concat_NoDup.
  - intros l (n & -> & Hn)%list_elem_of_fmap. by apply Hf.
  - intros i j l l' x Hi Hj Hx Hx'. rewrite list_lookup_fmap in Hi, Hj. apply fmap_Some in Hi as (n & Hn & ->), Hj as (m & Hm & ->).
    pose proof (hier_block_of_hit start count nodes Hr Hid i n x Hn) as E1.
    pose proof (hier_block_of_hit start count nodes Hr Hid j m x Hm) as E2.
    rewrite E1 in E2; [by apply Nat2N.inj, E2, Hf; [eapply list_elem_of_lookup_2|]|].
    apply Hf; [by eapply list_elem_of_lookup_2|done].
Qed.

Lemma imap_seq {A C} (f : nat -> A -> C) (h : nat -> C) l : (forall i x, l !! i = Some x -> f i x = h i) -> imap f l = h <$> seq 0 (length l).
Proof.
  intros H. apply list_eq. intros i. rewrite list_lookup_imap, list_lookup_fmap.
  destruct (l !! i) as [x|] eqn:E; cbn.
  - apply lookup_lt_Some in E as Hi. rewrite lookup_seq_lt by done. cbn. by rewrite (H i x E).
  - apply lookup_ge_None in E. by rewrite lookup_seq_ge.
Qed.

Lemma mapM_fmap {A C} (f : A -> option C) (g : A -> C) l : (forall x, x ∈ l -> f x = Some (g x)) -> mapM f l = Some (g <$> l).
Proof.
  induction l as [|x l IH]; intros H; [done|]. cbn. rewrite (H x) by by left. cbn. rewrite IH; [done|]. intros y Hy. apply H. by right.
Qed.

(** The placed and the unplaced instances of a block. *)
Section locals.
Context {B : Type} `{!DSNameBackend B}.

Definition placed_locals (b : DSBlockBuildData B) : list N :=
  (filter (fun e => e.1 <> 0%N /\ placement_status_ e.2 <> UNPLACED) (map_to_list (instances_ b))).*1.
Definition unplaced_locals (b : DSBlockBuildData B) : list N :=
  (filter (fun e => e.1 <> 0%N /\ placement_status_ e.2 = UNPLACED) (map_to_list (instances_ b))).*1.

(** The counters of a block are those of its instances. *)
Definition counts_ok (b : DSBlockBuildData B) (s : InstanceCounts) : Prop :=
  instance_count s = Z.of_nat (length (placed_locals b)) + Z.of_nat (length (unplaced_locals b)) /\
  unplaced_count s = Z.of_nat (length (unplaced_locals b)).

Lemma instances_split b : block_ok b ->
  instance_total b = S (length (placed_locals b) + length (unplaced_locals b)).
Proof.
  intros [(h & _ & Hh) _ Hdom _]. destruct (proj2 (Hdom 0%N)) as [x Hx]; [destruct Hh; lia|].
  unfold instance_total, placed_locals, unplaced_locals. rewrite !length_fmap, <- length_map_to_list, <- (map_to_list_delete _ _ _ Hx).
  rewrite !filter_cons_False by (by intros [? _]). cbn [length]. f_equal.
  assert (forall e, e ∈ map_to_list (delete 0%N (instances_ b)) -> e.1 <> 0%N) as Hne.
  { intros [l i] [H _]%elem_of_map_to_list%lookup_delete_Some. by cbn. }
  induction (map_to_list (delete 0%N (instances_ b))) as [|e es IH]; [done|].
  assert (e.1 <> 0%N) as H0 by (apply Hne; by left). cbn [length]. rewrite IH by (intros; apply Hne; by right).
  destruct (decide (placement_status_ e.2 = UNPLACED)) as [E|E].
  - rewrite (filter_cons_False _ e), (filter_cons_True _ e) by naive_solver. cbn [length]. lia.
  - rewrite (filter_cons_True _ e), (filter_cons_False _ e) by naive_solver. cbn [length]. lia.
Qed.

Lemma elem_of_placed_locals b l :
  l ∈ placed_locals b <-> exists inst, instances_ b !! l = Some inst /\ l <> 0%N /\ placement_status_ inst <> UNPLACED.
Proof.
  unfold placed_locals. rewrite list_elem_of_fmap. split.
  - intros ([l' inst] & -> & [[H1 H2] H3]%list_elem_of_filter). apply elem_of_map_to_list in H3. by exists inst.
  - intros (inst & H1 & H2 & H3). exists (l, inst). split; [done|]. apply list_elem_of_filter. split; [done|]. by apply elem_of_map_to_list.
Qed.
End locals.

Section flow.
Context {B : Type} `{!DSNameBackend B}.
Context (order_conns : gmap N (list DSNetConnection) -> list (N * list DSNetConnection)).
Context (order_insts : gmap N DSInstance -> list (N * DSInstance)).
Context (order_nets : gset N -> list N).
Context (Horder : forall m e, e ∈ order_insts m <-> m !! e.1 = Some e.2).
Context (design : DSDesign) (defs : list (DSBlockBuildData B * DSNetBuildData)) (vias : list N).
Context (parts : list DSSubPartition) (tree : DSHierTree).
Context (Hready : design_ready design defs vias parts tree).
Context (outs : list products) (Hall : flatten_all order_conns order_insts order_nets design defs parts tree = Some outs).
Context (Hnp : no_primary defs) (Hcores : Forall (fun q => rect_fits 32 (core_rect_ q)) parts).
(** Coordinates are 32-bit integers. *)
Context (Hnodes : forall n, n ∈ nodes_ tree -> point_fits 32 (offset_ (composite_transform_ n))).
Context (Hinsts : forall b nets l inst, (b, nets) ∈ defs -> instances_ b !! l = Some inst -> point_fits 32 (offset_ (transform_ inst))).

#[local] Notation at_node := (instance_at defs tree).

Lemma flow_tree_ok : tree_ok design (blocks_of defs vias) tree.
Proof using Hready. apply built_tree_ok; [by apply (blocks_of_some design defs vias parts tree)|apply (dr_tree _ _ _ _ _ Hready)]. Qed.

Lemma node_def n : n ∈ nodes_ tree -> exists d b nets, defs !! d = Some (b, nets) /\ vias !! d = Some (via_count_ n) /\
  block_cell_name_ n = block_name_ b /\ instance_count_ n = N.of_nat (instance_total b).
Proof using Hready.
  intros [k Hk]%list_elem_of_lookup. destruct (to_finished _ _ _ flow_tree_ok k n Hk) as (d & b & (v & Hd & Hname & _ & Hcount & _ & Hv) & _).
  unfold blocks_of in Hd. apply lookup_zip_with_Some in Hd as (b' & v' & E & Hb & Hv'). injection E as <- <-.
  rewrite list_lookup_fmap in Hb. apply fmap_Some in Hb as ([b'' nets] & Hb & ->).
  exists d, b'', nets. split; [done|]. split; [by rewrite Hv|]. done.
Qed.

(** The global ids of the placed instances of an occurrence. *)
Definition block_of_node (n : DSHierNode) : list (DSBlockBuildData B) := filter (fun b => block_name_ b = block_cell_name_ n) defs.*1.
Definition placed_ids (n : DSHierNode) : list N := b ← block_of_node n; (fun l => (instance_start_ n + l)%N) <$> placed_locals b.
Definition all_placed : list N := concat (placed_ids <$> nodes_ tree).

Lemma elem_of_block_of_node n b : b ∈ block_of_node n <-> block_name_ b = block_cell_name_ n /\ exists nets, (b, nets) ∈ defs.
Proof.
  unfold block_of_node. rewrite list_elem_of_filter, list_elem_of_fmap. split.
  - intros (H1 & [b' nets] & -> & H2). split; [done|]. by exists nets.
  - intros (H1 & nets & H2). split; [done|]. by exists (b, nets).
Qed.

Lemma elem_of_placed_ids n gid : n ∈ nodes_ tree ->
  gid ∈ placed_ids n <-> exists b local inst, at_node n b local inst /\ local <> 0%N /\ placement_status_ inst <> UNPLACED /\
    gid = (instance_start_ n + local)%N.
Proof.
  intros Hn. unfold placed_ids. rewrite list_elem_of_bind. split.
  - intros (b & (l & -> & (inst & H1 & H2 & H3)%elem_of_placed_locals)%list_elem_of_fmap & [Hb Hd]%elem_of_block_of_node).
    exists b, l, inst. split; [by split; [done|split; [by symmetry|]]|done].
  - intros (b & l & inst & (_ & Hb & Hd & Hi) & H2 & H3 & ->). exists b. split; [|by apply elem_of_block_of_node].
    apply list_elem_of_fmap. exists l. split; [done|]. apply elem_of_placed_locals. by exists inst.
Qed.

Lemma placed_ids_one n : n ∈ nodes_ tree -> exists b nets, (b, nets) ∈ defs /\ block_of_node n = [b].
Proof using Hready.
  intros (d & b & nets & Hd & _ & Hname & _)%node_def. exists b, nets. split; [by eapply list_elem_of_lookup_2|].
  unfold block_of_node. rewrite Hname. assert (defs.*1 !! d = Some b) as Hb by by rewrite list_lookup_fmap, Hd.
  pose proof (dr_names _ _ _ _ _ Hready) as Hnd. rewrite <- (take_drop_middle _ _ _ Hb) in Hnd |- *.
  rewrite fmap_app, fmap_cons in Hnd. apply NoDup_app in Hnd as (_ & H1 & [H2 _]%NoDup_cons).
  rewrite filter_app, filter_cons_True by done.
  assert (forall l : list (DSBlockBuildData B), block_name_ b ∉ (block_name_ <$> l) -> filter (fun b' => block_name_ b' = block_name_ b) l = []) as Hnone.
  { induction l as [|b' l IH]; [done|]. rewrite fmap_cons, not_elem_of_cons. intros [Hne Hl]. rewrite filter_cons_False by done. by apply IH. }
  rewrite !Hnone; [done|done|]. intros Hin. apply (H1 _ Hin). by left.
Qed.

Lemma all_placed_NoDup : NoDup all_placed.
Proof using Hready.
  apply (spread_ids_NoDup instance_start_ instance_count_); [apply flow_tree_ok|apply flow_tree_ok|]. intros n Hn. split.
  - unfold placed_ids. destruct (placed_ids_one n Hn) as (b & nets & Hb & ->). cbn. rewrite app_nil_r. apply NoDup_fmap_2; [intros x y; lia|].
    apply filter_keys_NoDup.
  - intros x (b & l & inst & (_ & Hb & (nets & Hd) & Hi) & _ & _ & ->)%elem_of_placed_ids; [|done].
    pose proof (occurrence_range design defs vias parts tree Hready n b nets l inst Hn Hd Hb Hi). lia.
Qed.

Lemma elem_of_all_placed gid : gid ∈ all_placed <->
  exists n b local inst, at_node n b local inst /\ local <> 0%N /\ placement_status_ inst <> UNPLACED /\ gid = (instance_start_ n + local)%N.
Proof.
  unfold all_placed. rewrite elem_of_concat. split.
  - intros (l & Hx & (n & -> & Hn)%list_elem_of_fmap). apply elem_of_placed_ids in Hx as (b & H); [|done]. by exists n, b.
  - intros (n & b & l & inst & Hat & H). exists (placed_ids n). pose proof (proj1 Hat) as Hn. split; [|by apply list_elem_of_fmap_2].
    apply elem_of_placed_ids; [done|]. by exists b, l, inst.
Qed.

#[local] Notation part := (fun pid => p_instances (merged outs pid)).

(** What the partitions store are placed instances, each with one primary copy. *)
Lemma stored_is_placed pid gid i : part pid !! gid = Some i -> gid ∈ all_placed.
Proof using Hready Hall Horder.
  intros (n & b & nets & Hb & Hn & Hname & l & inst & Hi & (H1 & H2 & H3 & _))%(design_insts _ _ _ Horder _ _ _ _ _ Hready _ _ _ _ Hall).
  apply elem_of_all_placed. exists n, b, l, inst. split; [|done]. split; [done|]. split; [done|]. split; [by exists nets|done].
Qed.

Lemma placed_once gid : gid ∈ all_placed -> exists k, (k < length parts)%nat /\ forall pid, (pid < N.of_nat (length parts))%N ->
  (exists i, part pid !! gid = Some i /\ primary_ i = true) <-> pid = N.of_nat k.
Proof using Hready Hall Horder Hnp Hcores Hnodes Hinsts.
  intros (n & b & l & inst & Hat & Hl & Hp & ->)%elem_of_all_placed. pose proof Hat as (Hn & Hname & (nets & Hb) & Hi).
  destruct (compose_32 (composite_transform_ n) (transform_ inst)) as (g & Hg & Hgf); [by apply Hnodes|by apply (Hinsts b nets l)|].
  destruct (assign_point_ok (offset_ g) parts (dr_parts _ _ _ _ _ Hready) Hgf Hcores) as (pa & j & q & Hpa & Ej & Hj & _ & _ & Hcop).
  assert (primary pa ∈ copies pa) as Hin by (apply Hcop; by left). apply lookup_lt_Some in Hj as Hlt. exists j. split; [done|].
  intros pid Hpid. rewrite <- Ej, <- (primary_entry _ _ _ Horder _ _ _ _ _ Hready outs n b l inst g pa pid Hnp Hall Hat Hl Hp Hg Hpa Hin) by lia.
  rewrite (slice_entry_iff _ _ _ Horder _ _ _ _ _ Hready outs pid _ Hall). split.
  - intros (i & H%(design_insts _ _ _ Horder _ _ _ _ _ Hready _ _ _ _ Hall) & Hi'). split; [done|]. destruct H as (n' & b' & H). by exists i, n', b'.
  - intros (_ & i & n' & b' & H & Hi'). exists i. split; [|done]. apply (design_insts _ _ _ Horder _ _ _ _ _ Hready _ _ _ _ Hall). by exists n', b'.
Qed.

(** The checks of all partitions. *)
Definition check_of (k : nat) (q : DSSubPartition) : DSPartitionCheckResult :=
  let p := merged outs (N.of_nat k) in
  ds_verify_partition (partition_id_ q) (xp_ q) (yp_ q) (p_geometry p) (p_geometry_pg p) (p_instances p) (p_inst_connections p)
    (p_nets p) (p_nets_pg p).
Definition flow_checks : list DSPartitionCheckResult := imap check_of parts.

Definition primaries (k : nat) : list N := (filter (fun e => primary_ e.2 = true) (map_to_list (part (N.of_nat k)))).*1.

Lemma elem_of_primaries k gid : gid ∈ primaries k <-> exists i, part (N.of_nat k) !! gid = Some i /\ primary_ i = true.
Proof.
  unfold primaries. rewrite list_elem_of_fmap. split.
  - intros ([g i] & -> & [H1 H2%elem_of_map_to_list]%list_elem_of_filter). by exists i.
  - intros (i & H1 & H2). exists (gid, i). split; [done|]. apply list_elem_of_filter. split; [done|]. by apply elem_of_map_to_list.
Qed.

Lemma primaries_NoDup k : NoDup (primaries k).
Proof. apply filter_keys_NoDup. Qed.

Lemma primaries_perm (f : nat -> list N) : (forall k, (k < length parts)%nat -> f k ≡ₚ primaries k) ->
  concat (f <$> seq 0 (length parts)) ≡ₚ all_placed.
Proof using Hready Hall Horder Hnp Hcores Hnodes Hinsts.
  intros Hf. assert (forall k gid, (k < length parts)%nat -> gid ∈ f k <-> exists i, part (N.of_nat k) !! gid = Some i /\ primary_ i = true) as Hel.
  { intros k gid Hk. by rewrite (Hf k Hk), elem_of_primaries. }
  apply NoDup_Permutation; [|apply all_placed_NoDup|].
  - apply concat_NoDup.
    + intros l (k & -> & Hk%elem_of_seq)%list_elem_of_fmap. rewrite Hf by lia. apply primaries_NoDup.
    + intros i j l l' x Hi Hj Hx Hx'. rewrite list_lookup_fmap in Hi, Hj. apply fmap_Some in Hi as (i' & Hi & ->), Hj as (j' & Hj & ->).
      apply lookup_seq in Hi as [-> Hi], Hj as [-> Hj]. cbn in Hx, Hx'. apply Hel in Hx, Hx'; [|lia..].
      assert (x ∈ all_placed) as (k & _ & Hone)%placed_once by (destruct Hx as (y & Hy & _); by apply stored_is_placed in Hy).
      apply Hone in Hx, Hx'; lia.
  - intros gid. rewrite elem_of_concat. split.
    + intros (l & Hx & (k & -> & Hk%elem_of_seq)%list_elem_of_fmap). apply Hel in Hx as (i & Hi & _); [|lia]. by apply stored_is_placed in Hi.
    + intros (k & Hk & Hone)%placed_once. exists (f k). split.
      * apply Hel; [done|]. apply Hone; lia.
      * apply list_elem_of_fmap_2, elem_of_seq. lia.
Qed.

(** ** The report *)

Definition unplaced_ids (n : DSHierNode) : list N := b ← block_of_node n; (fun l => (instance_start_ n + l)%N) <$> unplaced_locals b.
Definition all_unplaced : list N := concat (unplaced_ids <$> nodes_ tree).

Lemma flow_ids (proj : DSPartitionCheckResult -> list N) (f : nat -> list N) :
  (forall k q, proj (check_of k q) = f k) -> concat (proj <$> flow_checks) = concat (f <$> seq 0 (length parts)).
Proof. intros H. unfold flow_checks. f_equal. rewrite fmap_imap. apply imap_seq. intros i x _. apply H. Qed.

Lemma flow_primary_total : usum primary_instance_count_ flow_checks = u64 (Z.of_nat (length all_placed)).
Proof using Hready Hall Horder Hnp Hcores Hnodes Hinsts.
  rewrite usum_sum. f_equal. rewrite <- (primaries_perm primaries) by done. rewrite <- sum_lengths. f_equal.
  rewrite <- list_fmap_compose. unfold flow_checks. rewrite fmap_imap. by apply imap_seq.
Qed.

Lemma flow_primary_ids : concat (primary_instance_ids_ <$> flow_checks) ≡ₚ all_placed.
Proof using Hready Hall Horder Hnp Hcores Hnodes Hinsts.
  rewrite (flow_ids primary_instance_ids_ (fun k => sort_unique (primaries k))) by done. apply primaries_perm. intros k _.
  apply sort_unique_perm, primaries_NoDup.
Qed.

Lemma flow_instance_set : list_to_set (concat (ck_instance_ids_ <$> flow_checks)) =@{gset N} list_to_set all_placed.
Proof using Hready Hall Horder Hnp Hcores Hnodes Hinsts.
  rewrite (flow_ids ck_instance_ids_ (fun k => sort_unique (map_to_list (part (N.of_nat k))).*1)) by done.
  apply set_eq. intros gid. rewrite !elem_of_list_to_set, elem_of_concat. split.
  - intros (l & Hx & (k & -> & _)%list_elem_of_fmap). apply sort_unique_elem, list_elem_of_fmap in Hx as ([g i] & -> & Hi%elem_of_map_to_list).
    by apply stored_is_placed in Hi.
  - intros (k & Hk & Hone)%placed_once. eexists. split; [|apply list_elem_of_fmap_2, elem_of_seq; split; [lia|exact Hk]].
    destruct (proj2 (Hone (N.of_nat k) ltac:(lia)) eq_refl) as (i & Hi & _). apply sort_unique_elem, list_elem_of_fmap.
    exists (gid, i). split; [done|]. by apply elem_of_map_to_list.
Qed.

Lemma node_count n : n ∈ nodes_ tree -> Z.of_N (instance_count_ n) = 1 + Z.of_nat (length (placed_ids n)) + Z.of_nat (length (unplaced_ids n)).
Proof using Hready Horder.
  intros Hn. destruct (node_def n Hn) as (d & b & nets & Hd & _ & Hname & ->). apply list_elem_of_lookup_2 in Hd as Hin.
  destruct (placed_ids_one n Hn) as (b' & nets' & Hb' & E). unfold placed_ids, unplaced_ids. rewrite E. cbn. rewrite !app_nil_r, !length_fmap.
  assert (b' = b) as ->.
  { assert (b ∈ block_of_node n) as H by (apply elem_of_block_of_node; split; [done|by exists nets]). rewrite E in H.
    by apply list_elem_of_singleton in H. }
  rewrite (instances_split b) by (by apply (dr_blocks _ _ _ _ _ Hready b nets)). lia.
Qed.

Lemma sum_node_counts :
  sum ((fun n => Z.of_N (instance_count_ n)) <$> nodes_ tree) =
  Z.of_nat (length (nodes_ tree)) + Z.of_nat (length all_placed) + Z.of_nat (length all_unplaced).
Proof using Hready Horder.
  unfold all_placed, all_unplaced. rewrite <- !sum_lengths, <- !list_fmap_compose. pose proof node_count as H. revert H. generalize (nodes_ tree).
  intros ns H. induction ns as [|n l IH]; [done|]. rewrite !fmap_cons, !sum_cons, IH by (intros; apply H; by right).
  rewrite (H n) by by left. cbn [length]. unfold Program.Basics.compose. lia.
Qed.

Lemma flow_expected : Z.of_N (total (instance_count_ <$> nodes_ tree)) < 2 ^ 64 ->
  expected_instances tree = Z.of_nat (length all_placed) + Z.of_nat (length all_unplaced).
Proof using Hready Horder.
  intros Hlt. unfold expected_instances. rewrite usum_sum, sum_node_counts.
  assert (Z.of_N (total (instance_count_ <$> nodes_ tree)) = sum ((fun n => Z.of_N (instance_count_ n)) <$> nodes_ tree)) as E.
  { generalize (nodes_ tree). intros ns. induction ns as [|n l IH]; [done|]. rewrite !fmap_cons, sum_cons. cbn. unfold total in *. lia. }
  rewrite E, sum_node_counts in Hlt. destruct (to_root _ _ _ flow_tree_ok) as (n & Hn & _). apply lookup_lt_Some in Hn.
  rewrite (proj2 (Z.ltb_lt _ _)) by lia. rewrite (u64_small (_ + _ + _)) by lia. rewrite u64_small; lia.
Qed.

Section report.
Context (names : list (DSBlockNames B)) (counts : list InstanceCounts).
Context (Hnames : bn_block_name_ <$> names = block_name_ <$> defs.*1).
Context (Hcounts : Forall2 (fun d s => counts_ok d.1 s) defs counts).
(** The vias of a DEF are numbered from 1. *)
Context (Hvias : forall d b nets v, defs !! d = Some (b, nets) -> vias !! d = Some v ->
  forall l, is_Some (via_instances_ nets !! l) <-> (1 <= l <= v)%N).
Context (Hinst_total : Z.of_N (total (instance_count_ <$> nodes_ tree)) < 2 ^ 64).
Context (Hvia_total : Z.of_N (total (via_count_ <$> nodes_ tree)) < 2 ^ 64).

Lemma def_of_node n : n ∈ nodes_ tree -> exists d b nets, def_of_name names (block_cell_name_ n) = Some d /\
  defs !! d = Some (b, nets) /\ vias !! d = Some (via_count_ n) /\ block_of_node n = [b].
Proof using Hready Hnames.
  intros Hn. destruct (node_def n Hn) as (d & b & nets & Hd & Hv & Hname & _). exists d, b, nets. split; [|split; [done|split; [done|]]].
  - assert (exists x, names !! d = Some x /\ bn_block_name_ x = block_name_ b) as (x & Hx & E).
    { assert ((bn_block_name_ <$> names) !! d = Some (block_name_ b)) as H by (rewrite Hnames, !list_lookup_fmap, Hd; done).
      rewrite list_lookup_fmap in H. apply fmap_Some in H as (x & Hx & E). by exists x. }
    unfold def_of_name. rewrite Hname, <- E, (list_find_key bn_block_name_ names d x); [done|rewrite Hnames; apply Hready|done].
  - destruct (placed_ids_one n Hn) as (b' & nets' & _ & E). rewrite E. f_equal.
    assert (b ∈ block_of_node n) as H by (apply elem_of_block_of_node; split; [done|]; exists nets; by eapply list_elem_of_lookup_2).
    rewrite E in H. by apply list_elem_of_singleton in H.
Qed.

Lemma flow_node_placed : mapM (node_placed counts names) (nodes_ tree) = Some ((fun n => Z.of_nat (length (placed_ids n))) <$> nodes_ tree).
Proof using Hready Hnames Hcounts.
  apply mapM_fmap. intros n (d & b & nets & Ed & Hd & _ & Eb)%def_of_node. unfold node_placed, placed_ids. rewrite Ed, Eb.
  destruct (Forall2_lookup_l _ _ _ _ _ Hcounts Hd) as (s & -> & [E1 E2]). cbn. rewrite app_nil_r, length_fmap.
  cbn in E1, E2. rewrite E1, E2. f_equal. destruct (Z.ltb_spec (Z.of_nat (length (unplaced_locals b)))
    (Z.of_nat (length (placed_locals b)) + Z.of_nat (length (unplaced_locals b)))); lia.
Qed.

Lemma missing_none : tree_def_missing tree names = [].
Proof using Hready Hnames.
  unfold tree_def_missing. destruct (list_find _ (nodes_ tree)) as [[i n]|] eqn:E; [|done].
  apply list_find_Some in E as (Hi & Hno & _). destruct (def_of_node n) as (d & b & nets & Ed & _); [by eapply list_elem_of_lookup_2|]. congruence.
Qed.

Definition via_list (n : DSHierNode) : list N := default [] (node_via_ids defs.*2 names n).

Lemma via_list_ok n : n ∈ nodes_ tree -> node_via_ids defs.*2 names n = Some (via_list n) /\
  length (via_list n) = N.to_nat (via_count_ n) /\ NoDup (via_list n) /\
  forall x, x ∈ via_list n -> (via_start_ n <= x < via_start_ n + via_count_ n)%N.
Proof using Hready Hnames Hvias Hvia_total.
  intros Hn. destruct (def_of_node n Hn) as (d & b & nets & Ed & Hd & Hv & _). unfold via_list, node_via_ids.
  rewrite Ed, list_lookup_fmap, Hd. cbn. split; [done|]. pose proof (Hvias d b nets _ Hd Hv) as Hdom.
  assert (forall l, l ∈ (map_to_list (via_instances_ nets)).*1 <-> (1 <= l <= via_count_ n)%N) as Hk.
  { intros l. rewrite <- Hdom, list_elem_of_fmap. split; [intros ([k v] & -> & H%elem_of_map_to_list); by exists v|].
    intros [v H]. exists (l, v). split; [done|]. by apply elem_of_map_to_list. }
  assert ((map_to_list (via_instances_ nets)).*1 ≡ₚ N.of_nat <$> seq 1 (N.to_nat (via_count_ n))) as Hperm.
  { apply NoDup_Permutation; [apply NoDup_fst_map_to_list|apply NoDup_fmap_2; [apply _|apply NoDup_seq]|].
    intros l. rewrite Hk, list_elem_of_fmap. setoid_rewrite elem_of_seq. split; [intros; exists (N.to_nat l); lia|intros (k & -> & ?); lia]. }
  assert (via_start_ n + via_count_ n < 2 ^ 64)%N as Hend.
  { apply list_elem_of_lookup in Hn as [k Hn]. rewrite (node_end _ _ _ (to_via _ _ _ flow_tree_ok) k n Hn).
    pose proof (total_take_mono (via_count_ <$> nodes_ tree) (S k) (length (via_count_ <$> nodes_ tree))) as Hm.
    rewrite (take_ge _ (length (via_count_ <$> nodes_ tree))) in Hm by done. apply lookup_lt_Some in Hn. rewrite length_fmap in Hm. lia. }
  assert (forall l, (1 <= l <= via_count_ n)%N -> via_id n l = (via_start_ n + l - 1)%N) as Hid.
  { intros l Hl. unfold via_id. rewrite u64_small; lia. }
  split; [by rewrite length_fmap, Hperm, length_fmap, length_seq|]. split.
  - apply NoDup_fmap_2_strong; [|apply NoDup_fst_map_to_list]. intros x y Hx%Hk Hy%Hk. rewrite !Hid by done. lia.
  - intros x (l & -> & Hl%Hk)%list_elem_of_fmap. rewrite Hid by done. lia.
Qed.

Lemma flow_vias : mapM (node_via_ids defs.*2 names) (nodes_ tree) = Some (via_list <$> nodes_ tree) /\
  NoDup (concat (via_list <$> nodes_ tree)) /\
  usum (fun n => Z.of_N (via_count_ n)) (nodes_ tree) = Z.of_nat (length (concat (via_list <$> nodes_ tree))).
Proof using Hready Hnames Hvias Hvia_total.
  split; [apply mapM_fmap; intros n Hn; by apply via_list_ok|]. split.
  - apply (spread_ids_NoDup via_start_ via_count_); [apply flow_tree_ok|apply flow_tree_ok|]. intros n Hn. by apply via_list_ok in Hn as (_ & _ & ?).
  - assert (forall n, n ∈ nodes_ tree -> Z.of_N (via_count_ n) = Z.of_nat (length (via_list n))) as H.
    { intros n (_ & -> & _)%via_list_ok. lia. }
    assert (Z.of_N (total (via_count_ <$> nodes_ tree)) = sum ((fun n => Z.of_nat (length (via_list n))) <$> nodes_ tree)) as E.
    { revert H. generalize (nodes_ tree). intros ns H. induction ns as [|n l IH]; [done|]. rewrite !fmap_cons, sum_cons, <- (H n), <- IH;
        [cbn; unfold total; lia|intros; apply H; by right|by left]. }
    rewrite usum_sum, <- sum_lengths, <- list_fmap_compose.
    assert (sum ((fun n => Z.of_N (via_count_ n)) <$> nodes_ tree) = sum ((fun n => Z.of_nat (length (via_list n))) <$> nodes_ tree)) as ->.
    { f_equal. apply list_fmap_ext. intros i n Hn. apply H. by eapply list_elem_of_lookup_2. }
    unfold Program.Basics.compose. apply u64_small. lia.
Qed.
End report.
End flow.

Lemma closure_ok {H} `{!DSNameBackend H} w (h : DSNameHasherT H) label st : hasher_ok w h -> check_hasher_closure h label st = Some st.
Proof.
  intros (h0 & Hok & Hb & Hn & _)%hasher_ok_names. unfold check_hasher_closure.
  assert (forall e, e ∈ for_each h -> closure_step h label st e = Some st) as Hstep.
  { intros [n i] Hin. unfold for_each in Hin. rewrite backend_for_each_map in Hin. apply elem_of_map_to_list in Hin. rewrite Hb in Hin.
    apply (ok_map _ h0 Hok) in Hin as [_ E]. unfold closure_step. cbn [fst snd]. rewrite Hn, E. cbn. by rewrite decide_True. }
  induction (for_each h) as [|e l IH]; [done|]. cbn [ofold_option]. rewrite (Hstep e) by by left. cbn. apply IH.
  intros e' He'. apply Hstep. by right.
Qed.

Definition block_names_ok {B} `{!DSNameBackend B} (n : DSBlockNames B) : Prop :=
  exists i h, bn_instance_names_ n = Some i /\ bn_net_names_ n = Some h /\ hasher_ok id_bits i /\ hasher_ok id_bits h.

Lemma name_maps_ok {B} `{!DSNameBackend B} design stack (names : list (DSBlockNames B)) :
  hasher_ok table_bits (cell_names_ design) -> hasher_ok table_bits (pin_names_ design) ->
  hasher_ok table_bits (via_cell_names_ design) -> hasher_ok table_bits (layer_names_ stack) -> Forall block_names_ok names ->
  ds_check_name_maps design stack names = Some None.
Proof.
  intros H1 H2 H3 H4 Hn. unfold ds_check_name_maps. do 4 (rewrite (closure_ok table_bits) by done; cbn [mbind option_bind]).
  assert (forall st, ofold_option check_block_names names st = Some st) as ->; [|done]. intros st.
  induction Hn as [|n ns (i & h & E1 & E2 & Hi & Hh) _ IH]; [done|]. cbn [ofold_option].
  assert (check_block_names st n = Some st) as ->; [|apply IH]. unfold check_block_names. rewrite E1, E2. cbn [mbind option_bind].
  rewrite (closure_ok id_bits) by done. cbn [mbind option_bind]. by apply (closure_ok id_bits).
Qed.

Lemma built_tree_good {B} `{!DSNameBackend B} design (blocks : list (DSBlockBuildData B * N)) tree : tree_ok design blocks tree -> tree_good tree.
Proof.
  intros Ht i n Hn. split; [by apply (to_ids _ _ _ Ht)|]. intros Hi. by destruct (to_parents _ _ _ Ht i Hi n Hn) as [[_ ?] _].
Qed.

(** ** The whole flow *)

Section built.
Context {B : Type} `{!DSNameBackend B}.
Context (order_conns : gmap N (list DSNetConnection) -> list (N * list DSNetConnection)).
Context (order_insts : gmap N DSInstance -> list (N * DSInstance)).
Context (order_nets : gset N -> list N).
Context (order_roots : gmap N N -> list (N * N)) (order_members : gmap N (list N) -> list (N * list N)).
Context (order_keys : gmap N N -> list N) (order_layers : gmap N (list Z) -> list (N * list Z)).

(** Any order of the tables. *)
Record orders_ok : Prop := {
  oo_insts m e : e ∈ order_insts m <-> m !! e.1 = Some e.2;
  oo_roots m : order_roots m ≡ₚ map_to_list m;
  oo_members m : order_members m ≡ₚ map_to_list m;
  oo_keys m : NoDup (order_keys m) /\ forall x, x ∈ order_keys m <-> x ∈ dom m;
}.

(** Definitions, names, counters, partitions, products and net union that the flow made of
    one another, within the widths of the integers. *)
Record built_flow (design : DSDesign) (stack : DSStack) (g : DSDensityGrid) (defs : list (DSBlockBuildData B * DSNetBuildData))
    (vias : list N) (names : list (DSBlockNames B)) (counts : list InstanceCounts) (parts : list DSSubPartition)
    (tree : DSHierTree) (u : DSNetUnion) (outs : list products) : Prop := {
  bf_ready : design_ready design defs vias parts tree;
  bf_names : bn_block_name_ <$> names = block_name_ <$> defs.*1;
  bf_counts : Forall2 (fun d s => counts_ok d.1 s) defs counts;
  bf_vias d b nets v : defs !! d = Some (b, nets) -> vias !! d = Some v ->
    forall l, is_Some (via_instances_ nets !! l) <-> (1 <= l <= v)%N;
  bf_new : no_primary defs;
  bf_flat : flatten_all order_conns order_insts order_nets design defs parts tree = Some outs;
  bf_parts : exists unspecified w tp pc td, pc < 2 ^ 31 /\ ds_decide_partitions order_layers unspecified g stack w tp pc td = Some parts;
  bf_union : exists slices, ds_build_net_union order_keys order_members tree slices = Some u;
  bf_tables : hasher_ok table_bits (cell_names_ design) /\ hasher_ok table_bits (pin_names_ design) /\
    hasher_ok table_bits (via_cell_names_ design) /\ hasher_ok table_bits (layer_names_ stack) /\ Forall block_names_ok names;
  bf_grid : grid_ok g /\ area_fits g /\ cols g * rows g < 2 ^ 32 /\ fits 64 (domain_area g);
  bf_cores : Forall (fun q => rect_fits 32 (core_rect_ q)) parts;
  bf_nodes n : n ∈ nodes_ tree -> point_fits 32 (offset_ (composite_transform_ n));
  bf_insts b nets l inst : (b, nets) ∈ defs -> instances_ b !! l = Some inst -> point_fits 32 (offset_ (transform_ inst));
  bf_totals : Z.of_N (total (instance_count_ <$> nodes_ tree)) < 2 ^ 64 /\ Z.of_N (total (via_count_ <$> nodes_ tree)) < 2 ^ 64;
}.

(** C36: a design that the flow built is found sound.  For blocks with any instances and
    nets, the hierarchy, the partitions, the products of the partitions, the union of
    nets and the name tables made of them, in any order of the hash tables: the checks
    of all partitions and the check of the design return; nothing ends the process; no
    density variance is reported; the instance ids that are expected are those of all
    instances of all occurrences, the ids found in the partitions are those of the
    placed ones, the holes are the unplaced ones, and no instance has two primary
    copies; every expected via id is found once. *)
Theorem built_design_verified design stack g defs vias names counts parts tree u outs :
  orders_ok -> built_flow design stack g defs vias names counts parts tree u outs ->
  exists r, ds_verify_design order_roots order_members tree design parts stack g u counts defs.*2 names (flow_checks parts outs) = Some r /\
  ds_verify_report_or_fatal r = Ok tt /\ density_variance_ r = None /\
  let placed := Z.of_nat (length (all_placed defs tree)) in let unplaced := Z.of_nat (length (all_unplaced defs tree)) in
  instance_ids_ r = {| expected_ := placed + unplaced; actual_ := placed; holes_ := unplaced; duplicates_ := 0 |} /\
  exists v, via_ids_ r = {| expected_ := v; actual_ := v; holes_ := 0; duplicates_ := 0 |}.
Proof.
  intros [Oi Or Om Ok'] [Hready Hnames Hcounts Hvias Hnew Hflat (un & w & tp & pc & td & Hpc & Hparts) (slices & Hu)
    (T1 & T2 & T3 & T4 & T5) (Hg & Hf & Hcells & Hdom) Hcores Hnodes Hinsts [Hti Htv]].
  pose proof (flow_tree_ok design defs vias parts tree Hready) as Htree.
  destruct (flow_vias design defs vias parts tree Hready names Hnames Hvias Htv) as (Ev & Hvnd & Hvsum).
  unfold ds_verify_design. rewrite Ev, (flow_node_placed design defs vias parts tree Hready names counts Hnames Hcounts). cbn [mbind option_bind].
  destruct (decided_seamless _ _ _ _ _ _ _ _ _ Hg Hf Hcells Hpc Hparts) as [Hs Hp].
  rewrite (proj2 (coverage_iff g Hg parts (dr_parts _ _ _ _ _ Hready) Hp Hdom) Hs). cbn [mbind option_bind].
  rewrite (name_maps_ok design stack names T1 T2 T3 T4 T5). cbn [mbind option_bind]. eexists. split; [done|].
  cbn [union_inconsistency_ coverage_gap_ namemap_inconsistency_ density_variance_ instance_ids_ via_ids_].
  rewrite (flow_primary_total _ _ _ Oi _ _ _ _ _ Hready outs Hflat Hnew Hcores Hnodes Hinsts).
  rewrite (flow_expected _ Oi _ _ _ _ _ Hready Hti), (missing_none _ _ _ _ _ Hready _ Hnames).
  rewrite (flow_instance_set _ _ _ Oi _ _ _ _ _ Hready outs Hflat Hnew Hcores Hnodes Hinsts).
  pose proof (all_placed_NoDup design defs vias parts tree Hready) as Hnd. rewrite (size_list_to_set _ Hnd).
  destruct (hist_once (concat (primary_instance_ids_ <$> flow_checks parts outs))) as [_ ->].
  { by rewrite (flow_primary_ids _ _ _ Oi _ _ _ _ _ Hready outs Hflat Hnew Hcores Hnodes Hinsts). }
  destruct (hist_once _ Hvnd) as [-> ->]. rewrite Hvsum.
  assert (ds_check_net_union order_roots order_members u = None) as Hun.
  { destruct (built_union_agrees order_keys order_members tree slices u) as [Hl Ha]; [done| |by eapply built_tree_good|done|].
    - intros gs. rewrite Om. split; [apply NoDup_map_to_list|]. intros e. rewrite Om. destruct e. apply elem_of_map_to_list.
    - apply (check_union_consistent _ _ Or Om). by apply consistent_agree. }
  split; [|split; [|split]].
  - unfold ds_verify_report_or_fatal. cbn [union_inconsistency_ coverage_gap_ namemap_inconsistency_]. by rewrite Hun.
  - rewrite usum_sum, list_fmap_id. unfold all_placed. rewrite <- sum_lengths, <- list_fmap_compose. by rewrite Z.eqb_refl.
  - unfold id_domain. f_equal. destruct (Z.ltb_spec (Z.of_nat (length (all_placed defs tree)))
      (Z.of_nat (length (all_placed defs tree)) + Z.of_nat (length (all_unplaced defs tree)))); lia.
  - eexists. unfold id_domain. by rewrite Z.ltb_irrefl.
Qed.
End built.

(** * Samples *)

Definition flow_nets : DSNetBuildData :=
  parsed_nets [AddWire 1 sample_wire; AddConnection 1 (sample_conn 1); AddVia 1 {| via_cell_id_ := 0; via_pos_ := GEOPoint 1 1 |}].
Definition flow_defs : list (DSBlockBuildData DSHasherBackendHash * DSNetBuildData) := [(sample_B, flow_nets); (sample_T, new_nets)].
Definition flow_tree : DSHierTree :=
  ok_or {| nodes_ := []; design_name_ := [] |} (ds_build_hier_tree sample_design (blocks_of flow_defs [1%N; 0%N])).

(** Cells of 15 by 80: the placements at 10 and 13 are in the first, those at 20 and 23 in
    the second. *)
Definition flow_grid : DSDensityGrid :=
  {| origin_x := 0; origin_y := 0; bin_width := 15; bin_height := 80; cols := 2; rows := 1; counts_ := [1; 1];
     metal_layer_counts_ := ∅; via_layer_counts_ := ∅ |}.
Definition flow_parts : list DSSubPartition := default [] (ds_decide_partitions any_order 0 flow_grid new_stack default_weights [] 2 0).
Definition flow_names : list (DSBlockNames DSHasherBackendHash) :=
  (fun d => {| bn_block_name_ := block_name_ d.1; bn_instance_names_ := instance_names_ d.1; bn_net_names_ := net_names_ d.1 |}) <$> flow_defs.
Definition flow_counts : list InstanceCounts :=
  [{| instance_count := 1; unplaced_count := 0 |}; {| instance_count := 3; unplaced_count := 0 |}].
Definition flow_outs : list products :=
  default [] (flatten_all map_to_list map_to_list elements sample_design flow_defs flow_parts flow_tree).
Definition flow_union : DSNetUnion :=
  default {| root_of_ := ∅; members_of_ := ∅; dangling_count_ := 0 |} (ds_build_net_union keys_of map_to_list flow_tree []).

Lemma flow_orders : orders_ok map_to_list map_to_list map_to_list keys_of.
Proof. split; [apply map_to_list_order|done|done|apply keys_of_ok]. Qed.

Lemma flow_ready : design_ready sample_design flow_defs [1%N; 0%N] flow_parts flow_tree.
Proof.
  split.
  - discriminate.
  - reflexivity.
  - vm_compute. reflexivity.
  - intros b nets [[= -> ->]|[[= -> ->]|?%elem_of_nil]%elem_of_cons]%elem_of_cons; [| |done];
      apply block_reach_ok; [apply sample_B_reach|apply sample_T_reach].
  - decide_compute.
  - vm_compute. discriminate.
Qed.

Lemma flow_tables : hasher_ok table_bits (cell_names_ sample_design) /\ Forall block_names_ok flow_names.
Proof.
  split.
  - apply reach_ok. apply (reach_reg _ (sample_op (Emplace nB) (sample_op (Emplace nT) new_hasher)) (Emplace nL)).
    + apply sample_op_reach; [apply sample_op_reach; [apply reach_new|]|]; (split; [split; [discriminate|reflexivity]|]; vm_compute; reflexivity).
    + split; [split; [discriminate|reflexivity]|]. vm_compute. reflexivity.
    + vm_compute. reflexivity.
  - assert (forall b : DSBlockBuildData DSHasherBackendHash, block_reach b -> exists i h, instance_names_ b = Some i /\ net_names_ b = Some h /\
      hasher_ok id_bits i /\ hasher_ok id_bits h) as H.
    { intros b Hb%block_reach_ok. destruct (bo_instances _ Hb) as (i & Hi & [Hok _ _ _ _]), (bo_nets _ Hb) as (h & Hh & [Hok' _ _ _ _]).
      exists i, h. split; [done|]. split; [done|]. split; [exists i|exists h]; (split; [done|by left]). }
    constructor; [exact (H _ sample_B_reach)|constructor; [exact (H _ sample_T_reach)|constructor]].
Qed.

#[local] Instance point_fits_dec w p : Decision (point_fits w p).
Proof. unfold point_fits. apply _. Defined.
#[local] Instance rect_fits_dec w r : Decision (rect_fits w r).
Proof. unfold rect_fits. apply _. Defined.

Lemma flow_coordinates :
  Forall (fun q => rect_fits 32 (core_rect_ q)) flow_parts /\
  Forall (fun n => point_fits 32 (offset_ (composite_transform_ n))) (nodes_ flow_tree) /\
  Forall (fun d => map_Forall (fun _ i => point_fits 32 (offset_ (transform_ i)) /\ primary_ i = false) (instances_ d.1)) flow_defs.
Proof. split; [|split]; decide_compute. Qed.

Lemma flow_via_ids d b nets v : flow_defs !! d = Some (b, nets) -> [1%N; 0%N] !! d = Some v ->
  forall l, is_Some (via_instances_ nets !! l) <-> (1 <= l <= v)%N.
Proof.
  destruct d as [|[|d]]; intros [= <- <-] [= <-] l; [exact (proj1 (proj2 (via_numbering [AddWire 1 sample_wire; AddConnection 1 (sample_conn 1); _])) l)|]. cbn. rewrite lookup_empty. split; [by intros [? ?]|lia].
Qed.

Lemma flow_built : built_flow map_to_list map_to_list elements map_to_list keys_of any_order sample_design new_stack flow_grid flow_defs
  [1%N; 0%N] flow_names flow_counts flow_parts flow_tree flow_union flow_outs.
Proof.
  destruct flow_coordinates as (Hp & Hn & Hi), flow_tables as [T1 T2].
  pose proof (proj1 (Forall_forall _ _) Hn) as Hn1. pose proof (proj1 (Forall_forall _ _) Hi) as Hi1. split.
  - apply flow_ready.
  - reflexivity.
  - constructor; [|constructor; [|constructor]]; split; vm_compute; reflexivity.
  - apply flow_via_ids.
  - intros b nets l inst Hb Hl. by apply (Hi1 _ Hb l).
  - vm_compute. reflexivity.
  - exists 0, default_weights, [], 2, 0. split; [lia|]. vm_compute. reflexivity.
  - exists []. vm_compute. reflexivity.
  - assert (hasher_ok table_bits (new_hasher : NameTable)) as Hnew by (exists new_hasher; split; [apply new_hasher_ok|by left]).
    split; [exact T1|]. split; [exact Hnew|]. split; [exact Hnew|]. split; [exact Hnew|exact T2].
  - split; [by split|]. split; [unfold area_fits; decide_compute|]. split; decide_compute.
  - exact Hp.
  - exact Hn1.
  - intros b nets l inst Hb Hl. by apply (Hi1 _ Hb l).
  - split; vm_compute; reflexivity.
Qed.

Lemma built_design_verified_witness : exists r,
  ds_verify_design map_to_list map_to_list flow_tree sample_design flow_parts new_stack flow_grid flow_union flow_counts flow_defs.*2
    flow_names (flow_checks flow_parts flow_outs) = Some r /\
  ds_verify_report_or_fatal r = Ok tt /\ actual_ (instance_ids_ r) = 5.
Proof.
  destruct (built_design_verified map_to_list map_to_list elements map_to_list map_to_list keys_of any_order sample_design new_stack
    flow_grid flow_defs [1%N; 0%N] flow_names flow_counts flow_parts flow_tree flow_union flow_outs flow_orders flow_built)
    as (r & Hr & Hok & _ & Hi & _). exists r. split; [exact Hr|]. split; [exact Hok|]. rewrite Hi. vm_compute. reflexivity.
Defined.

Lemma union_check_exact_witness : ds_check_net_union map_to_list map_to_list flow_union = None.
Proof.
  apply (proj2 (union_check_exact map_to_list map_to_list flow_union ltac:(done) ltac:(done)) keys_of map_to_list flow_tree []).
  - apply keys_of_ok.
  - apply pairs_of_ok.
  - apply (built_tree_good sample_design (blocks_of flow_defs [1%N; 0%N])). apply (flow_tree_ok _ _ _ _ _ flow_ready).
  - vm_compute. reflexivity.
Defined.

Lemma coverage_check_exact_witness : ds_check_partition_coverage flow_parts flow_grid = Some None.
Proof.
  apply (proj2 (coverage_check_exact flow_grid flow_parts ltac:(by split) ltac:(decide_compute)) any_order 0 new_stack default_weights [] 2 0).
  - unfold area_fits. decide_compute.
  - decide_compute.
  - lia.
  - vm_compute. reflexivity.
Defined.
