(* ===== verification/InstancePipeline.v ===== *)
(** Components of a DEF file turned into instances of a block
    (emir/design/cpp/ds_instance_pipeline.h, ds_instance_pipeline.cpp,
    ds_transform_util.h).

    A row of the COMPONENTS section goes through a chain of handlers: the cell is looked
    up, or a fake cell is made for it; the placement point is converted to the transform
    of the instance; the footprint is counted in the density map; the statistics are
    kept.  A handler that misses its environment sets the error flag, which ends the
    chain.  The context holds the block data and the fake cells it shares with the
    caller; the result of a run is the context with their new values.  [Undefined] is a
    signed overflow, a failed assertion or an access outside a table.  Messages are not
    modelled. *)

From stdpp Require Import base gmap list sets fin_maps.
From Stdlib Require Import ZArith NArith Lia.
From S2P Require Import Prelude Bytes NameHasher Geometry BlockData DesignTables HierTree Density Flatten Verify.
Import Corelib.Init.Datatypes(nat(..)) Corelib.Numbers.BinNums(N(..)).
#[local] Open Scope Z_scope.

(** * The placement of a component *)

(** The transform of an instance from the lower left corner [t] of its placed box. *)
Definition place_from_def (t : GEOPointT) (o : GEOOrientation) (bbox : GEORectT) (origin_x origin_y : Z) : option GEOTransformT :=
  bx ← chk 32 (- origin_x); by_ ← chk 32 (- origin_y);
  w ← width 32 bbox; xh ← chk 32 (bx + w);
  h ← height 32 bbox; yh ← chk 32 (by_ + h);
  rotated ← apply_box 32 (GEOTransform (GEOPoint 0 0) o) (GEORect bx by_ xh yh);
  px ← chk 32 (x_ t - x_low_ rotated); py ← chk 32 (y_ t - y_low_ rotated);
  Some (GEOTransform (GEOPoint px py) o).

(** * Fake cells *)

(** FNV-1a of 32 bits. *)
Definition fnv1a_step (hash : N) (c : Byte.byte) : N := (N.lxor hash (Byte.to_N c) * 16777619 mod 2 ^ 32)%N.
Definition fnv1a (name : bytes) : N := foldl fnv1a_step 2166136261%N name.

Definition ds_fake_cell_id_base (block_name : bytes) (max_cell_id : N) : N :=
  ((max_cell_id + 1 + fnv1a block_name mod 65536) mod 2 ^ 32)%N.

Definition fake_key (block_name master : bytes) : bytes := block_name ++ [Byte.x3a; Byte.x3a] ++ master.

Definition fake_bbox : GEORectT := GEORect 0 0 1 1.

Definition fake_cell (key : bytes) : DSCell :=
  {| name_ := key; library_name_ := []; bbox_ := fake_bbox; origin_x_ := 0; origin_y_ := 0; def_path_ := [];
     flags_ := {| is_fake_cell := true; is_std_cell := false; is_lef_cell := false; is_lib_cell := false;
                  is_macro_cell := false; is_block_cell := false; is_polygon := false |};
     pins_ := []; obs_ := []; polygon_ := GEOPolygon [] |}.

(** * The context *)

Record DSInstanceStats := {
  s_counts : InstanceCounts; fake_cell_count : Z; per_cell : gmap N Z;
}.

Section pipeline.
Context {B : Type} `{!DSNameBackend B}.

(** The block data with its density map, statistics and table of fake cells. *)
Record BlockState := {
  bs_block : DSBlockBuildData B; bs_density : DSDensityGrid; bs_stats : DSInstanceStats; bs_fake_ids : gmap bytes N;
}.

Record DSInstanceContext := {
  instance_name : bytes; master_name : bytes; cx_block_name : bytes;
  placement : GEOPointT; orient : GEOOrientation; placement_status : DSPlacementStatus;
  cx_design : option DSDesign; cx_block_data : option BlockState; cx_fake_cells : option (list DSCell);
  cx_cell_id : N; cell_bbox : GEORectT; cell_origin_x : Z; cell_origin_y : Z;
  cx_instance_id : N; cx_error : bool;
}.

Definition set_block_data (b : BlockState) (c : DSInstanceContext) : DSInstanceContext :=
  {| instance_name := instance_name c; master_name := master_name c; cx_block_name := cx_block_name c;
     placement := placement c; orient := orient c; placement_status := placement_status c;
     cx_design := cx_design c; cx_block_data := Some b; cx_fake_cells := cx_fake_cells c;
     cx_cell_id := cx_cell_id c; cell_bbox := cell_bbox c; cell_origin_x := cell_origin_x c; cell_origin_y := cell_origin_y c;
     cx_instance_id := cx_instance_id c; cx_error := cx_error c |}.

Definition set_fake_cells (f : list DSCell) (c : DSInstanceContext) : DSInstanceContext :=
  {| instance_name := instance_name c; master_name := master_name c; cx_block_name := cx_block_name c;
     placement := placement c; orient := orient c; placement_status := placement_status c;
     cx_design := cx_design c; cx_block_data := cx_block_data c; cx_fake_cells := Some f;
     cx_cell_id := cx_cell_id c; cell_bbox := cell_bbox c; cell_origin_x := cell_origin_x c; cell_origin_y := cell_origin_y c;
     cx_instance_id := cx_instance_id c; cx_error := cx_error c |}.

(** The outputs of the first handler. *)
Definition set_cell (id : N) (bbox : GEORectT) (ox oy : Z) (c : DSInstanceContext) : DSInstanceContext :=
  {| instance_name := instance_name c; master_name := master_name c; cx_block_name := cx_block_name c;
     placement := placement c; orient := orient c; placement_status := placement_status c;
     cx_design := cx_design c; cx_block_data := cx_block_data c; cx_fake_cells := cx_fake_cells c;
     cx_cell_id := id; cell_bbox := bbox; cell_origin_x := ox; cell_origin_y := oy;
     cx_instance_id := cx_instance_id c; cx_error := cx_error c |}.

Definition set_instance_id (id : N) (c : DSInstanceContext) : DSInstanceContext :=
  {| instance_name := instance_name c; master_name := master_name c; cx_block_name := cx_block_name c;
     placement := placement c; orient := orient c; placement_status := placement_status c;
     cx_design := cx_design c; cx_block_data := cx_block_data c; cx_fake_cells := cx_fake_cells c;
     cx_cell_id := cx_cell_id c; cell_bbox := cell_bbox c; cell_origin_x := cell_origin_x c; cell_origin_y := cell_origin_y c;
     cx_instance_id := id; cx_error := cx_error c |}.

Definition set_error (c : DSInstanceContext) : DSInstanceContext :=
  {| instance_name := instance_name c; master_name := master_name c; cx_block_name := cx_block_name c;
     placement := placement c; orient := orient c; placement_status := placement_status c;
     cx_design := cx_design c; cx_block_data := cx_block_data c; cx_fake_cells := cx_fake_cells c;
     cx_cell_id := cx_cell_id c; cell_bbox := cell_bbox c; cell_origin_x := cell_origin_x c; cell_origin_y := cell_origin_y c;
     cx_instance_id := cx_instance_id c; cx_error := true |}.

Definition DSInstanceHandler := DSInstanceContext -> outcome DSInstanceContext.

(** * The chain *)

Fixpoint run (handlers : list DSInstanceHandler) (c : DSInstanceContext) : outcome DSInstanceContext :=
  match handlers with
  | [] => Ok c
  | h :: handlers => if cx_error c then Ok c else c' ← h c; run handlers c'
  end.

(** * The handlers *)

Definition add_fake (key : bytes) (id : N) (s : BlockState) : BlockState :=
  {| bs_block := bs_block s; bs_density := bs_density s;
     bs_stats := {| s_counts := s_counts (bs_stats s); fake_cell_count := u64 (fake_cell_count (bs_stats s) + 1);
                    per_cell := per_cell (bs_stats s) |};
     bs_fake_ids := <[key := id]> (bs_fake_ids s) |}.

Definition DSCellResolveNode (c : DSInstanceContext) : outcome DSInstanceContext :=
  match cx_design c, cx_block_data c with
  | Some design, Some s =>
      let resolved := get_id table_bits (cell_names_ design) (master_name c) in
      if is_valid_id table_bits resolved then
        cell ← defined (cells_ design !! N.to_nat resolved);
        Ok (set_cell resolved (bbox_ cell) (origin_x_ cell) (origin_y_ cell) c)
      else
        let key := fake_key (cx_block_name c) (master_name c) in
        match bs_fake_ids s !! key with
        | Some id => Ok (set_cell id fake_bbox 0 0 c)
        | None =>
            match cx_fake_cells c with
            | None => Ok (set_error c)
            | Some fakes =>
                let base := ds_fake_cell_id_base (cx_block_name c) (N.of_nat (length (cells_ design)) mod 2 ^ 32)%N in
                let id := ((base + N.of_nat (length fakes) mod 2 ^ 32) mod 2 ^ 32)%N in
                Ok (set_cell id fake_bbox 0 0 (set_fake_cells (fakes ++ [fake_cell key]) (set_block_data (add_fake key id s) c)))
            end
        end
  | _, _ => Ok (set_error c)
  end.

Definition DSInstanceBuildNode (c : DSInstanceContext) : outcome DSInstanceContext :=
  match cx_block_data c with
  | Some s =>
      if negb (is_valid_id table_bits (cx_cell_id c)) then Ok (set_error c) else
      t ← defined (place_from_def (placement c) (orient c) (cell_bbox c) (cell_origin_x c) (cell_origin_y c));
      let inst := {| cell_id_ := cx_cell_id c; transform_ := t; placement_status_ := placement_status c; primary_ := false |} in
      '(b, id) ← add_instance inst (instance_name c) (bs_block s);
      Ok (set_instance_id id (set_block_data
        {| bs_block := b; bs_density := bs_density s; bs_stats := bs_stats s; bs_fake_ids := bs_fake_ids s |} c))
  | None => Ok (set_error c)
  end.

(** The cell is a block of the design; fake cells are not in its table. *)
Definition is_block_id (design : option DSDesign) (id : N) : bool :=
  match design with
  | Some d => match cells_ d !! N.to_nat id with Some cell => is_block_cell (flags_ cell) | None => false end
  | None => false
  end.

Definition DSDensityNode (c : DSInstanceContext) : outcome DSInstanceContext :=
  match cx_block_data c with
  | None => Ok (set_error c)
  | Some s =>
      if decide (placement_status c = UNPLACED) then Ok c else
      if is_block_id (cx_design c) (cx_cell_id c) then Ok c else
      match find_instance (bs_block s) (cx_instance_id c) with
      | None => Ok (set_error c)
      | Some inst =>
          footprint ← defined (apply_box 32 (transform_ inst) (cell_bbox c));
          d ← defined (accumulate_footprint footprint (bs_density s));
          Ok (set_block_data {| bs_block := bs_block s; bs_density := d; bs_stats := bs_stats s; bs_fake_ids := bs_fake_ids s |} c)
      end
  end.

Definition count_instance (status : DSPlacementStatus) (cell : N) (s : DSInstanceStats) : DSInstanceStats :=
  {| s_counts := {| instance_count := u64 (instance_count (s_counts s) + 1);
                    unplaced_count := if decide (status = UNPLACED) then u64 (unplaced_count (s_counts s) + 1)
                                      else unplaced_count (s_counts s) |};
     fake_cell_count := fake_cell_count s;
     per_cell := <[cell := u64 (default 0 (per_cell s !! cell) + 1)]> (per_cell s) |}.

Definition DSStatsNode (c : DSInstanceContext) : outcome DSInstanceContext :=
  match cx_block_data c with
  | None => Ok (set_error c)
  | Some s =>
      Ok (set_block_data {| bs_block := bs_block s; bs_density := bs_density s;
                            bs_stats := count_instance (placement_status c) (cx_cell_id c) (bs_stats s);
                            bs_fake_ids := bs_fake_ids s |} c)
  end.

Definition ds_make_components_pipeline : list DSInstanceHandler :=
  [DSCellResolveNode; DSInstanceBuildNode; DSDensityNode; DSStatsNode].
End pipeline.
Arguments BlockState B : clear implicits.
Arguments DSInstanceContext B : clear implicits.

(** * Placements *)

(** Orientations that exchange width and height. *)
Definition turned (o : GEOOrientation) : bool :=
  match o with W | E | FW | FE => true | Geometry.N | Geometry.S | FN | FS => false end.

(** The box of a cell: its size, with the origin of the cell moved to (0, 0). *)
Definition cell_box (bbox : GEORectT) (origin_x origin_y : Z) : GEORectT :=
  GEORect (- origin_x) (- origin_y) (- origin_x + (x_high_ bbox - x_low_ bbox)) (- origin_y + (y_high_ bbox - y_low_ bbox)).

Lemma width_Some w r z : width w r = Some z -> x_low_ r <= x_high_ r /\ z = x_high_ r - x_low_ r.
Proof. unfold width. case_decide; [|done]. intros [_ ->]%chk_Some. done. Qed.
Lemma height_Some w r z : height w r = Some z -> y_low_ r <= y_high_ r /\ z = y_high_ r - y_low_ r.
Proof. unfold height. case_decide; [|done]. intros [_ ->]%chk_Some. done. Qed.

(** The result, on integers without bounds. *)
Definition place_image (t : GEOPointT) (o : GEOOrientation) (box : GEORectT) : GEOTransformT :=
  let r := image_box (GEOTransform (GEOPoint 0 0) o) box in GEOTransform (GEOPoint (x_ t - x_low_ r) (y_ t - y_low_ r)) o.

Lemma place_from_def_eq t o bbox ox oy tr :
  place_from_def t o bbox ox oy = Some tr -> rect_ok bbox /\ tr = place_image t o (cell_box bbox ox oy).
Proof.
  unfold place_from_def. intros (bx & [_ ->]%chk_Some & (by_ & [_ ->]%chk_Some & (w & [Hw ->]%width_Some & (xh & [_ ->]%chk_Some &
    (h & [Hh ->]%height_Some & (yh & [_ ->]%chk_Some & (r & [_ ->]%apply_box_sound & (px & [_ ->]%chk_Some & (py & [_ ->]%chk_Some &
    [= <-])%bind_Some)%bind_Some)%bind_Some)%bind_Some)%bind_Some)%bind_Some)%bind_Some)%bind_Some)%bind_Some. done.
Qed.

Lemma place_image_box t o box : rect_ok box ->
  image_box (place_image t o box) box =
  GEORect (x_ t) (y_ t) (x_ t + (if turned o then y_high_ box - y_low_ box else x_high_ box - x_low_ box))
                        (y_ t + (if turned o then x_high_ box - x_low_ box else y_high_ box - y_low_ box)).
Proof.
  destruct t as [x y], box as [xl yl xh yh]. unfold rect_ok. cbn. intros [Hx Hy].
  destruct o; unfold place_image, image_box, image, add_point; cbn; f_equal; lia.
Qed.

(** Coordinates far from the limits of 32 bits. *)
Definition small_rect (r : GEORectT) : Prop := rect_ok r /\ rect_fits 28 r.

Lemma apply_box_small t r : rect_ok r -> rect_fits 31 r -> rect_fits 32 (image_box t r) -> apply_box 32 t r = Some (image_box t r).
Proof.
  intros Hr (H1 & H2 & H3 & H4) (I1 & I2 & I3 & I4). unfold apply_box. rewrite decide_True by done.
  destruct t as [[tx ty] o], r as [xl yl xh yh]. unfold rect_ok, fits, image_box, image, add_point in *. cbn in *.
  rewrite !apply_complete; cbn; try (unfold fits; lia); try (destruct o; unfold point_fits, fits, image, add_point; cbn in *; lia).
  destruct o; cbn in *; unfold image, add_point, min4, max4; cbn; do 2 f_equal; lia.
Qed.

Lemma place_from_def_small t o bbox ox oy :
  point_fits 28 t -> small_rect bbox -> fits 28 ox -> fits 28 oy ->
  exists tr, place_from_def t o bbox ox oy = Some tr /\ point_fits 31 (offset_ tr) /\
  exists f, apply_box 32 tr bbox = Some f /\ rect_ok f /\ rect_fits 31 f.
Proof.
  intros [Tx Ty] [[Bx By] (B1 & B2 & B3 & B4)] Hox Hoy. destruct t as [x y], bbox as [xl yl xh yh]. unfold fits in *. cbn in *.
  assert (place_from_def (GEOPoint x y) o (GEORect xl yl xh yh) ox oy = Some (place_image (GEOPoint x y) o (cell_box (GEORect xl yl xh yh) ox oy))) as E.
  { unfold place_from_def, width, height. cbn [x_low_ y_low_ x_high_ y_high_]. rewrite !decide_True by done.
    repeat (rewrite chk_eq by (unfold fits; lia); cbn [mbind option_bind]).
    rewrite apply_box_small; [|unfold rect_ok; cbn; lia|unfold rect_fits, fits; cbn; lia|].
    - cbn [mbind option_bind]. destruct o; cbn; repeat (rewrite chk_eq by (unfold fits; lia); cbn [mbind option_bind]); done.
    - destruct o; unfold rect_fits, fits, image_box, image, add_point; cbn; lia. }
  eexists. split; [exact E|]. split; [destruct o; unfold point_fits, fits; cbn; lia|].
  eexists. split; [apply apply_box_small; [done|unfold rect_fits, fits; cbn; lia|]|];
    destruct o; unfold rect_fits, rect_ok, fits, image_box, image, add_point; cbn; lia.
Qed.

(** A component is placed by the lower left corner of its box.  [place_from_def] returns
    a transform with the given orientation for which the image of the box of the cell
    (its size, with the cell origin at (0, 0)) has its lower left corner at the
    placement point of the DEF file and the size of the cell, with width and height
    exchanged for quarter turns; it returns without overflow for coordinates within 28
    bits, and the footprint it gives then stays within 31. *)
Theorem component_placed t o bbox origin_x origin_y :
  (forall tr, place_from_def t o bbox origin_x origin_y = Some tr ->
     orient_ tr = o /\ image_box tr (cell_box bbox origin_x origin_y) =
     GEORect (x_ t) (y_ t) (x_ t + (if turned o then y_high_ bbox - y_low_ bbox else x_high_ bbox - x_low_ bbox))
                           (y_ t + (if turned o then x_high_ bbox - x_low_ bbox else y_high_ bbox - y_low_ bbox))) /\
  (point_fits 28 t -> small_rect bbox -> fits 28 origin_x -> fits 28 origin_y ->
   exists tr f, place_from_def t o bbox origin_x origin_y = Some tr /\ apply_box 32 tr bbox = Some f /\ rect_fits 31 f).
Proof.
  split.
  - intros tr [[Hx Hy] ->]%place_from_def_eq. split; [done|]. rewrite place_image_box; [|unfold rect_ok, cell_box; cbn; lia].
    unfold cell_box. cbn. f_equal; destruct (turned o); lia.
  - intros Ht Hb Hox Hoy. destruct (place_from_def_small t o bbox origin_x origin_y Ht Hb Hox Hoy) as (tr & E & _ & f & Hf & _ & ?). eauto.
Qed.

(** * Parsing the components of a DEF file *)

Section components.
Context {B : Type} `{!DSNameBackend B}.
Context (design : DSDesign) (block_name : bytes).

(** A row of the COMPONENTS section in units of the data base. *)
Record component := {
  co_name : bytes; co_master : bytes; co_placement : GEOPointT; co_orient : GEOOrientation; co_status : DSPlacementStatus;
}.

(** The context the callback of the parser makes of a row. *)
Definition component_context (st : BlockState B * list DSCell) (r : component) : DSInstanceContext B :=
  {| instance_name := co_name r; master_name := co_master r; cx_block_name := block_name;
     placement := co_placement r; orient := co_orient r; placement_status := co_status r;
     cx_design := Some design; cx_block_data := Some st.1; cx_fake_cells := Some st.2;
     cx_cell_id := kInvalidId table_bits; cell_bbox := GEORect 0 0 0 0; cell_origin_x := 0; cell_origin_y := 0;
     cx_instance_id := 0; cx_error := false |}.

(** The callback; the flag tells whether the chain ended early. *)
Definition parse_component (st : BlockState B * list DSCell * bool) (r : component) : outcome (BlockState B * list DSCell * bool) :=
  c ← run ds_make_components_pipeline (component_context st.1 r);
  Ok (default st.1.1 (cx_block_data c), default st.1.2 (cx_fake_cells c), st.2 || cx_error c).

(** The state before the first row. *)
Definition fresh_state (cell : N) (g : DSDensityGrid) : BlockState B :=
  {| bs_block := init_placeholder block_name cell new_block; bs_density := g;
     bs_stats := {| s_counts := {| instance_count := 0; unplaced_count := 0 |}; fake_cell_count := 0; per_cell := ∅ |};
     bs_fake_ids := ∅ |}.

Definition parse_components (cell : N) (g : DSDensityGrid) (rows : list component) : outcome (BlockState B * list DSCell * bool) :=
  ofold parse_component rows (fresh_state cell g, [], false).

(** ** What a row becomes *)

Definition fake_id (k : nat) : N :=
  ((ds_fake_cell_id_base block_name (N.of_nat (length (cells_ design)) mod 2 ^ 32) + N.of_nat k mod 2 ^ 32) mod 2 ^ 32)%N.

(** The cell of a row: its id, its box and its origin. *)
Definition cell_of (s : BlockState B) (r : component) (id : N) (bbox : GEORectT) (ox oy : Z) : Prop :=
  let found := get_id table_bits (cell_names_ design) (co_master r) in
  if is_valid_id table_bits found
  then id = found /\ exists c, cells_ design !! N.to_nat id = Some c /\ bbox = bbox_ c /\ ox = origin_x_ c /\ oy = origin_y_ c
  else bs_fake_ids s !! fake_key block_name (co_master r) = Some id /\ bbox = fake_bbox /\ ox = 0 /\ oy = 0.

Definition instance_of (s : BlockState B) (r : component) (i : DSInstance) : Prop :=
  placement_status_ i = co_status r /\ primary_ i = false /\ point_fits 31 (offset_ (transform_ i)) /\
  exists bbox ox oy, cell_of s r (cell_id_ i) bbox ox oy /\
    place_from_def (co_placement r) (co_orient r) bbox ox oy = Some (transform_ i).

Definition instances_with (P : N * DSInstance -> Prop) `{!forall e, Decision (P e)} (b : DSBlockBuildData B) : Z :=
  Z.of_nat (length (filter P (map_to_list (instances_ b)))).

(** The fake cells, one for each master that is not in the table, and their ids. *)
Record fakes_ok (ids : gmap bytes N) (count : Z) (fakes : list DSCell) : Prop := {
  fo_ids key id : ids !! key = Some id <-> exists k c, fakes !! k = Some c /\ name_ c = key /\ id = fake_id k;
  fo_cells : Forall (fun c => exists m, c = fake_cell (fake_key block_name m) /\
    is_valid_id table_bits (get_id table_bits (cell_names_ design) m) = false) fakes;
  fo_names : NoDup (name_ <$> fakes);
  fo_count : count = Z.of_nat (length fakes);
}.

(** The state after the rows [rows]. *)
Record parsed (rows : list component) (s : BlockState B) (fakes : list DSCell) : Prop := {
  pa_block : block_ok (bs_block s);
  pa_next : next_instance_id_ (bs_block s) = N.of_nat (S (length rows));
  pa_names h : instance_names_ (bs_block s) = Some h -> forall n i, backend_map (backend_ h) !! n = Some i <->
    exists k r, rows !! k = Some r /\ n = co_name r /\ i = N.of_nat (S k);
  pa_instances k r : rows !! k = Some r -> exists i, instances_ (bs_block s) !! N.of_nat (S k) = Some i /\ instance_of s r i;
  pa_counts : counts_ok (bs_block s) (s_counts (bs_stats s));
  pa_per_cell c : default 0 (per_cell (bs_stats s) !! c) =
    instances_with (fun e => e.1 <> 0%N /\ cell_id_ e.2 = c) (bs_block s);
  pa_fakes : fakes_ok (bs_fake_ids s) (fake_cell_count (bs_stats s)) fakes /\ (length fakes <= length rows)%nat;
  pa_origin : fits 28 (origin_x (bs_density s)) /\ fits 28 (origin_y (bs_density s));
}.

(** Rows and tables within their bounds: names are proper and new, the cells are in the
    table, coordinates are far from the limits, and the ids of fake cells exist. *)
Record rows_ok (rows : list component) : Prop := {
  ro_names : NoDup (co_name <$> rows) /\ Forall (fun r => proper_name (co_name r)) rows;
  ro_points : Forall (fun r => point_fits 28 (co_placement r)) rows;
  ro_cells m : let id := get_id table_bits (cell_names_ design) m in is_valid_id table_bits id = true ->
    exists c, cells_ design !! N.to_nat id = Some c /\ small_rect (bbox_ c) /\ fits 28 (origin_x_ c) /\ fits 28 (origin_y_ c);
  ro_room : (N.of_nat (length (cells_ design)) + 65537 + N.of_nat (length rows) + 1 < 2 ^ 32)%N;
}.

Lemma fake_id_eq k : (N.of_nat (length (cells_ design)) + 65537 + N.of_nat k < 2 ^ 32)%N ->
  fake_id k = (N.of_nat (length (cells_ design)) + 1 + fnv1a block_name mod 65536 + N.of_nat k)%N.
Proof.
  intros H. unfold fake_id, ds_fake_cell_id_base. pose proof (N.mod_lt (fnv1a block_name) 65536 ltac:(done)).
  rewrite (N.mod_small (N.of_nat (length (cells_ design)))) by lia. rewrite (N.mod_small (N.of_nat k)) by lia.
  rewrite (N.mod_small (_ + 1 + _)) by lia. apply N.mod_small. lia.
Qed.

(** ** The handlers on a row *)

(** The context of a row after some handlers. *)
Definition row_context (s : BlockState B) (fakes : list DSCell) (r : component) (id : N) (bbox : GEORectT) (ox oy : Z) (iid : N)
  : DSInstanceContext B :=
  {| instance_name := co_name r; master_name := co_master r; cx_block_name := block_name;
     placement := co_placement r; orient := co_orient r; placement_status := co_status r;
     cx_design := Some design; cx_block_data := Some s; cx_fake_cells := Some fakes;
     cx_cell_id := id; cell_bbox := bbox; cell_origin_x := ox; cell_origin_y := oy;
     cx_instance_id := iid; cx_error := false |}.

Definition in_bounds (bbox : GEORectT) (ox oy : Z) : Prop := small_rect bbox /\ fits 28 ox /\ fits 28 oy.

Lemma fake_in_bounds : in_bounds fake_bbox 0 0.
Proof. unfold in_bounds, small_rect, rect_ok, rect_fits, fits. cbn. lia. Qed.

Lemma fakes_snoc ids count fakes m :
  fakes_ok ids count fakes -> is_valid_id table_bits (get_id table_bits (cell_names_ design) m) = false ->
  ids !! fake_key block_name m = None -> 0 <= count -> count + 1 < 2 ^ 64 ->
  fakes_ok (<[fake_key block_name m := fake_id (length fakes)]> ids) (u64 (count + 1)) (fakes ++ [fake_cell (fake_key block_name m)]).
Proof.
  intros [Hids Hcells Hnames Hcount] Hm Hnone Hpos Hlt. split.
  - intros key id. rewrite lookup_insert_Some, Hids. split.
    + intros [[<- <-]|(Hne & k & c & Hk & <- & ->)].
      * exists (length fakes), (fake_cell (fake_key block_name m)). split; [by rewrite lookup_app_r, Nat.sub_diag by done|done].
      * exists k, c. split; [by apply lookup_app_l_Some|done].
    + intros (k & c & [Hk|[Hge Hk]]%lookup_app_Some & <- & ->).
      * right. split; [|by exists k, c]. intros E. assert (ids !! name_ c = Some (fake_id k)) as E' by (apply Hids; by exists k, c).
        rewrite <- E in E'. congruence.
      * apply list_lookup_singleton_Some in Hk as [Hk <-]. left. split; [done|]. f_equal. lia.
  - apply Forall_app. split; [done|]. apply Forall_singleton. by exists m.
  - rewrite fmap_app. apply NoDup_app. split; [done|]. split; [|apply NoDup_singleton].
    intros x (c & -> & [k Hk]%list_elem_of_lookup)%list_elem_of_fmap Hx. apply list_elem_of_singleton in Hx. cbn in Hx.
    assert (ids !! name_ c = Some (fake_id k)) as E by (apply Hids; by exists k, c). congruence.
  - rewrite u64_small by lia. rewrite length_app. cbn. lia.
Qed.

Lemma resolve_ok s fakes r :
  fakes_ok (bs_fake_ids s) (fake_cell_count (bs_stats s)) fakes ->
  (N.of_nat (length (cells_ design)) + 65537 + N.of_nat (length fakes) + 1 < 2 ^ 32)%N ->
  (forall m, let id := get_id table_bits (cell_names_ design) m in is_valid_id table_bits id = true ->
    exists c, cells_ design !! N.to_nat id = Some c /\ in_bounds (bbox_ c) (origin_x_ c) (origin_y_ c)) ->
  exists s1 fakes1 id bbox ox oy, DSCellResolveNode (component_context (s, fakes) r) = Ok (row_context s1 fakes1 r id bbox ox oy 0) /\
    bs_block s1 = bs_block s /\ bs_density s1 = bs_density s /\ s_counts (bs_stats s1) = s_counts (bs_stats s) /\
    per_cell (bs_stats s1) = per_cell (bs_stats s) /\
    fakes_ok (bs_fake_ids s1) (fake_cell_count (bs_stats s1)) fakes1 /\ (length fakes1 <= S (length fakes))%nat /\
    bs_fake_ids s ⊆ bs_fake_ids s1 /\
    cell_of s1 r id bbox ox oy /\ is_valid_id table_bits id = true /\ in_bounds bbox ox oy.
Proof.
  intros Hf Hroom Hcells. unfold DSCellResolveNode, cell_of. cbn [component_context cx_design cx_block_data cx_fake_cells master_name cx_block_name fst snd].
  set (found := get_id table_bits (cell_names_ design) (co_master r)). destruct (is_valid_id table_bits found) eqn:Ev.
  { destruct (Hcells (co_master r) Ev) as (c & Hc & Hb). fold found in Hc. rewrite Hc. cbn [defined mbind outcome_bind].
    exists s, fakes, found, (bbox_ c), (origin_x_ c), (origin_y_ c). split; [done|]. repeat (split; [done|]).
    split; [lia|]. split; [done|]. split; [|done]. split; [done|]. by exists c. }
  destruct (bs_fake_ids s !! fake_key block_name (co_master r)) as [id|] eqn:Ek.
  { exists s, fakes, id, fake_bbox, 0, 0. split; [done|]. repeat (split; [done|]). split; [lia|]. split; [done|]. split; [done|].
    split; [|apply fake_in_bounds]. apply (fo_ids _ _ _ Hf) in Ek as (k & c & Hk & _ & ->). apply lookup_lt_Some in Hk.
    rewrite fake_id_eq by lia. pose proof (N.mod_lt (fnv1a block_name) 65536 ltac:(done)). unfold is_valid_id, kInvalidId, table_bits.
    apply negb_true_iff, N.eqb_neq. lia. }
  eexists (add_fake _ _ s), _, _, fake_bbox, 0, 0. split; [done|]. repeat (split; [done|]). pose proof (fo_count _ _ _ Hf).
  split; [apply fakes_snoc; [done|done|done|lia|lia]|]. split; [rewrite length_app; cbn; lia|]. split; [by apply insert_subseteq|].
  split; [cbn; by rewrite lookup_insert_eq|]. split; [|apply fake_in_bounds]. change (is_valid_id table_bits (fake_id (length fakes)) = true).
  rewrite fake_id_eq by lia. pose proof (N.mod_lt (fnv1a block_name) 65536 ltac:(done)). unfold is_valid_id, kInvalidId, table_bits.
  apply negb_true_iff, N.eqb_neq. lia.
Qed.

Lemma add_instance_spec (b : DSBlockBuildData B) inst name :
  block_ok b -> block_pre b (AddInstance inst name) ->
  exists b', add_instance inst name b = Ok (b', next_instance_id_ b) /\ block_ok b' /\
  instances_ b' = <[next_instance_id_ b := inst]> (instances_ b) /\ instances_ b !! next_instance_id_ b = None /\
  next_instance_id_ b' = (next_instance_id_ b + 1)%N /\
  forall h', instance_names_ b' = Some h' -> exists h, instance_names_ b = Some h /\
    backend_map (backend_ h') = <[name := next_instance_id_ b]> (backend_map (backend_ h)).
Proof.
  intros Hb Hpre. destruct (add_instance_ok b inst name Hb Hpre) as (b' & E & Hb'). exists b'. split; [done|]. split; [done|].
  assert (instances_ b !! next_instance_id_ b = None) as Hnone by (apply eq_None_not_Some; rewrite (bo_dom _ Hb); lia).
  unfold add_instance in E. destruct (instance_names_ b) as [h|]; [|done]. cbn [defined mbind outcome_bind] in E.
  apply outcome_bind_Ok in E as (h' & Ha & E). rewrite Hnone in E. injection E as <-. cbn. repeat (split; [done|]).
  intros h'' [= <-]. exists h. split; [done|]. unfold assign in Ha. destruct (is_lcp_form h); [done|].
  destruct (_ <? _)%N; [|done]. injection Ha as <-. cbn. apply backend_insert_map.
Qed.

Lemma footprint_counted f g : rect_ok f -> rect_fits 31 f -> fits 28 (origin_x g) -> fits 28 (origin_y g) ->
  exists g', accumulate_footprint f g = Some g' /\ origin_x g' = origin_x g /\ origin_y g' = origin_y g.
Proof.
  intros Hr (H1 & H2 & _ & _) Hx Hy. unfold accumulate_footprint. destruct (negb (configured g)); [by exists g|].
  rewrite decide_True by done. rewrite touched_cells; [by eexists|unfold fits in *; lia..].
Qed.

(** The handlers after the first. *)
Lemma build_row s fakes r id bbox ox oy :
  block_ok (bs_block s) -> block_pre (bs_block s) (AddInstance (placeholder 0) (co_name r)) ->
  is_valid_id table_bits id = true -> in_bounds bbox ox oy -> point_fits 28 (co_placement r) ->
  fits 28 (origin_x (bs_density s)) -> fits 28 (origin_y (bs_density s)) ->
  exists s' tr, run [DSInstanceBuildNode; DSDensityNode; DSStatsNode] (row_context s fakes r id bbox ox oy 0) =
      Ok (row_context s' fakes r id bbox ox oy (next_instance_id_ (bs_block s))) /\
    place_from_def (co_placement r) (co_orient r) bbox ox oy = Some tr /\ point_fits 31 (offset_ tr) /\
    (exists inst, inst = {| cell_id_ := id; transform_ := tr; placement_status_ := co_status r; primary_ := false |} /\
     add_instance inst (co_name r) (bs_block s) = Ok (bs_block s', next_instance_id_ (bs_block s))) /\
    bs_stats s' = count_instance (co_status r) id (bs_stats s) /\ bs_fake_ids s' = bs_fake_ids s /\
    origin_x (bs_density s') = origin_x (bs_density s) /\ origin_y (bs_density s') = origin_y (bs_density s).
Proof.
  intros Hb Hpre Hid (Hbox & Hox & Hoy) Hp Hgx Hgy.
  destruct (place_from_def_small (co_placement r) (co_orient r) bbox ox oy Hp Hbox Hox Hoy) as (tr & Htr & Hfit & f & Hf & Hfr & Hff).
  set (inst := {| cell_id_ := id; transform_ := tr; placement_status_ := co_status r; primary_ := false |}).
  destruct (add_instance_spec (bs_block s) inst (co_name r) Hb Hpre) as (b' & Hadd & _ & Hinst & _).
  destruct (footprint_counted f (bs_density s) Hfr Hff Hgx Hgy) as (g' & Hg & Ex & Ey).
  assert (find_instance b' (next_instance_id_ (bs_block s)) = Some inst) as Hfind by (unfold find_instance; by rewrite Hinst, lookup_insert_eq).
  exists {| bs_block := b'; bs_density := if decide (co_status r = UNPLACED) then bs_density s else
            if is_block_id (Some design) id then bs_density s else g';
            bs_stats := count_instance (co_status r) id (bs_stats s); bs_fake_ids := bs_fake_ids s |}, tr.
  split; [|split; [done|split; [done|split; [by exists inst|split; [done|split; [done|]]]]]].
  - cbn [run cx_error row_context]. unfold DSInstanceBuildNode. cbn [cx_block_data row_context cx_cell_id placement orient cell_bbox cell_origin_x
      cell_origin_y instance_name placement_status]. rewrite Hid, Htr. cbn [negb defined mbind outcome_bind]. fold inst. rewrite Hadd.
    cbn [mbind outcome_bind run cx_error set_instance_id set_block_data]. unfold DSDensityNode.
    cbn [cx_block_data set_instance_id set_block_data row_context placement_status cx_design cx_cell_id bs_block cx_instance_id cell_bbox bs_density].
    destruct (decide (co_status r = UNPLACED)); [done|]. destruct (is_block_id (Some design) id); [done|].
    rewrite Hfind. cbn [transform_ inst]. rewrite Hf. cbn [defined mbind outcome_bind]. by rewrite Hg.
  - cbn [bs_density]. destruct (decide (co_status r = UNPLACED)); [done|]. by destruct (is_block_id (Some design) id).
Qed.

Lemma count_insert {A} (P : N * A -> Prop) `{!forall e, Decision (P e)} (m : gmap N A) id x : m !! id = None ->
  length (filter P (map_to_list (<[id := x]> m))) = (length (filter P (map_to_list m)) + if decide (P (id, x)) then 1 else 0)%nat.
Proof.
  intros Hid. rewrite (map_to_list_insert m id x Hid), filter_cons. destruct (decide (P (id, x))); cbn [length]; lia.
Qed.

Lemma cell_of_mono s s' r id bbox ox oy : bs_fake_ids s ⊆ bs_fake_ids s' -> cell_of s r id bbox ox oy -> cell_of s' r id bbox ox oy.
Proof.
  intros Hsub. unfold cell_of. destruct (is_valid_id _ _); [done|]. intros (H & ?). split; [|done].
  by eapply lookup_weaken.
Qed.

Lemma instance_of_mono s s' r i : bs_fake_ids s ⊆ bs_fake_ids s' -> instance_of s r i -> instance_of s' r i.
Proof.
  intros Hsub (H1 & H2 & H3 & bbox & ox & oy & Hc & Hp). split; [done|]. split; [done|]. split; [done|]. exists bbox, ox, oy.
  split; [by apply (cell_of_mono s)|done].
Qed.

(** The statistics after one more instance. *)
Lemma counts_snoc (b b' : DSBlockBuildData B) st inst :
  instances_ b' = <[next_instance_id_ b := inst]> (instances_ b) -> instances_ b !! next_instance_id_ b = None ->
  next_instance_id_ b <> 0%N -> instance_count (s_counts st) + 1 < 2 ^ 64 -> counts_ok b (s_counts st) ->
  counts_ok b' (s_counts (count_instance (placement_status_ inst) (cell_id_ inst) st)).
Proof.
  intros Hi Hnone Hne Hlt [C1 C2]. unfold counts_ok, placed_locals, unplaced_locals in *. rewrite Hi, !length_fmap in *.
  rewrite !count_insert by done. cbn [s_counts count_instance instance_count unplaced_count fst snd].
  destruct (decide (placement_status_ inst = UNPLACED)) as [E|E].
  - rewrite decide_False by tauto. rewrite decide_True by done. rewrite !u64_small by lia. lia.
  - rewrite decide_True by done. rewrite decide_False by tauto. rewrite !u64_small by lia. lia.
Qed.

Lemma per_cell_snoc (b b' : DSBlockBuildData B) st inst c :
  instances_ b' = <[next_instance_id_ b := inst]> (instances_ b) -> instances_ b !! next_instance_id_ b = None ->
  next_instance_id_ b <> 0%N -> default 0 (per_cell st !! c) + 1 < 2 ^ 64 ->
  default 0 (per_cell st !! c) = instances_with (fun e => e.1 <> 0%N /\ cell_id_ e.2 = c) b ->
  default 0 (per_cell (count_instance (placement_status_ inst) (cell_id_ inst) st) !! c) =
  instances_with (fun e => e.1 <> 0%N /\ cell_id_ e.2 = c) b'.
Proof.
  intros Hi Hnone Hne Hlt Hc. unfold instances_with in *. rewrite Hi, count_insert by done. cbn [per_cell count_instance fst snd].
  destruct (decide (cell_id_ inst = c)) as [->|E].
  - rewrite lookup_insert_eq. cbn [default from_option id]. rewrite decide_True by done. rewrite u64_small by lia. lia.
  - rewrite lookup_insert_ne by done. rewrite decide_False by tauto. lia.
Qed.

Lemma run_cons h hs (c : DSInstanceContext B) : cx_error c = false -> run (h :: hs) c = (c' ← h c; run hs c').
Proof. intros E. cbn [run]. by rewrite E. Qed.

Lemma parsed_pre rows s fakes r :
  parsed rows s fakes -> rows_ok (rows ++ [r]) -> block_pre (bs_block s) (AddInstance (placeholder 0) (co_name r)).
Proof.
  intros Hpa [[Hnd Hpr] _ _ Hroom]. rewrite Forall_app, Forall_singleton in Hpr. split; [apply Hpr|].
  rewrite length_app in Hroom. cbn in Hroom. split; [rewrite (pa_next _ _ _ Hpa); unfold id_bits; lia|].
  intros h Hh. destruct (bo_instances _ (pa_block _ _ _ Hpa)) as (h' & Hh' & Hnu). rewrite Hh in Hh'. injection Hh' as <-.
  apply get_id_fresh; [apply Hnu|]. destruct (backend_map (backend_ h) !! co_name r) as [i|] eqn:E; [|done]. exfalso.
  apply (pa_names _ _ _ Hpa h Hh) in E as (k & r' & Hk & Hn & _). rewrite fmap_app in Hnd. apply NoDup_app in Hnd as (_ & Hx & _).
  apply (Hx (co_name r)); [|by left]. rewrite Hn. apply list_elem_of_fmap_2. by eapply list_elem_of_lookup_2.
Qed.

(** The counts stay below the number of rows. *)
Lemma parsed_small rows s fakes c :
  parsed rows s fakes -> instance_count (s_counts (bs_stats s)) = Z.of_nat (length rows) /\
  default 0 (per_cell (bs_stats s) !! c) <= Z.of_nat (length rows).
Proof.
  intros Hpa. pose proof (instances_split (bs_block s) (pa_block _ _ _ Hpa)) as Hs. rewrite (bo_total _ (pa_block _ _ _ Hpa)), (pa_next _ _ _ Hpa) in Hs.
  destruct (pa_counts _ _ _ Hpa) as [C1 _]. split; [lia|]. rewrite (pa_per_cell _ _ _ Hpa c). unfold instances_with.
  assert (forall l : list (N * DSInstance), (length (filter (fun e => e.1 <> 0%N /\ cell_id_ e.2 = c) l) <=
    length (filter (fun e => e.1 <> 0%N /\ placement_status_ e.2 <> UNPLACED) l) +
    length (filter (fun e => e.1 <> 0%N /\ placement_status_ e.2 = UNPLACED) l))%nat) as H.
  { induction l as [|e l IH]; [done|]. rewrite !filter_cons. repeat destruct (decide _); cbn [length]; try lia. exfalso. tauto. }
  specialize (H (map_to_list (instances_ (bs_block s)))). unfold placed_locals, unplaced_locals in Hs. rewrite !length_fmap in Hs. lia.
Qed.

Lemma row_parsed rows s fakes e r :
  parsed rows s fakes -> rows_ok (rows ++ [r]) ->
  exists s' fakes', parse_component (s, fakes, e) r = Ok (s', fakes', e) /\ parsed (rows ++ [r]) s' fakes'.
Proof.
  intros Hpa Hro. pose proof (parsed_pre rows s fakes r Hpa Hro) as Hpre. destruct Hro as [[Hnd _] Hpts Hcells Hroom].
  rewrite length_app in Hroom. cbn in Hroom. rewrite Forall_app, Forall_singleton in Hpts. destruct (pa_fakes _ _ _ Hpa) as [Hf Hlen].
  destruct (resolve_ok s fakes r Hf) as (s1 & fakes1 & id & bbox & ox & oy & Hres & Eb & Ed & Ec & Ep & Hf1 & Hlen1 & Hsub & Hcell & Hv & Hbd);
    [lia|intros m id Hm; destruct (Hcells m Hm) as (c & ? & ? & ?); by exists c|].
  pose proof (pa_block _ _ _ Hpa) as Hb. destruct (pa_origin _ _ _ Hpa) as [Hox Hoy]. rewrite <- Eb in Hb, Hpre. rewrite <- Ed in Hox, Hoy.
  destruct (build_row s1 fakes1 r id bbox ox oy Hb Hpre Hv Hbd (proj2 Hpts) Hox Hoy)
    as (s' & tr & Hrun & Htr & Hfit & (inst & Einst & Hadd) & Est & Ef & Ex & Ey).
  destruct (add_instance_spec (bs_block s1) inst (co_name r) Hb Hpre) as (b' & Hadd' & Hb' & Hins & Hnone & Hnext & Hnm).
  rewrite Hadd in Hadd'. injection Hadd' as Eb'. subst b'. exists s', fakes1. split.
  { unfold parse_component. cbn [fst snd]. unfold ds_make_components_pipeline. rewrite run_cons, Hres by done.
    cbn [mbind outcome_bind]. rewrite Hrun. cbn. by rewrite orb_false_r. }
  destruct (parsed_small rows s fakes 0%N Hpa) as [Hsm _]. pose proof (pa_next _ _ _ Hpa) as Hn. rewrite <- Eb in Hn.
  assert (bs_fake_ids s ⊆ bs_fake_ids s') as Hsub' by by rewrite Ef.
  assert (forall k r0, (rows ++ [r]) !! k = Some r0 <-> rows !! k = Some r0 \/ k = length rows /\ r0 = r) as Hrows.
  { intros k r0. rewrite lookup_snoc_Some. split; [intros [[_ ?]|[? ?]]; auto|]. intros [H|[-> ->]]; [left; split; [by eapply lookup_lt_Some|done]|by right]. }
  split; [done| | | | | | |].
  - rewrite Hnext, Hn, length_app. cbn. lia.
  - intros h' Hh' n i. destruct (Hnm h' Hh') as (h & Hh & ->). rewrite lookup_insert_Some. rewrite Eb in Hh. rewrite (pa_names _ _ _ Hpa h Hh).
    setoid_rewrite Hrows. split.
    + intros [[<- <-]|(Hne & k & r0 & Hk & -> & ->)]; [exists (length rows), r; split; [by right|done]|exists k, r0; auto].
    + intros (k & r0 & [Hk|[-> ->]] & -> & ->); [right; split; [|by exists k, r0]|left; done].
      intros E. rewrite fmap_app in Hnd. apply NoDup_app in Hnd as (_ & Hx & _). apply (Hx (co_name r0)); [|rewrite <- E; by left].
      apply list_elem_of_fmap_2. by eapply list_elem_of_lookup_2.
  - intros k r0 [Hk|[-> ->]]%Hrows.
    + destruct (pa_instances _ _ _ Hpa k r0 Hk) as (i & Hi & Hio). exists i. split; [|by apply (instance_of_mono s)].
      rewrite Hins, Eb. rewrite lookup_insert_ne; [done|]. rewrite <- Eb, Hn. apply lookup_lt_Some in Hk. lia.
    + exists inst. split; [by rewrite Hins, Hn, lookup_insert_eq|]. subst inst. split; [done|]. split; [done|]. split; [done|].
      exists bbox, ox, oy. split; [|done]. apply (cell_of_mono s1); [by rewrite Ef|done].
  - rewrite Est. assert (counts_ok (bs_block s1) (s_counts (bs_stats s1))) as H by (rewrite Eb, Ec; apply Hpa).
    pose proof (counts_snoc (bs_block s1) (bs_block s') (bs_stats s1) inst Hins Hnone) as Hc. subst inst. cbn in Hc. apply Hc; [lia|rewrite Ec; lia|done].
  - intros c. rewrite Est. destruct (parsed_small rows s fakes c Hpa) as [_ Hsc].
    pose proof (per_cell_snoc (bs_block s1) (bs_block s') (bs_stats s1) inst c Hins Hnone) as Hc. subst inst. cbn in Hc.
    apply Hc; [lia|rewrite Ep; lia|]. rewrite Ep, Eb. apply Hpa.
  - rewrite Ef, Est. split; [done|]. rewrite length_app. cbn. lia.
  - by rewrite Ex, Ey.
Qed.

Lemma fresh_parsed cell g : fits 28 (origin_x g) -> fits 28 (origin_y g) -> parsed [] (fresh_state cell g) [].
Proof.
  intros Hx Hy. assert (block_ok (init_placeholder block_name cell (new_block (B := B)))) as Hb by (apply block_reach_ok; constructor).
  split; try done.
  - intros h Hh n i. cbn [bs_block fresh_state] in Hh. unfold init_placeholder in Hh. rewrite decide_True in Hh by done. cbn in Hh.
    injection Hh as <-. cbn. rewrite backend_new_map, lookup_empty. split; [done|]. by intros (k & r & ? & _).
  - split; [|done]. split; [|constructor|constructor|done]. intros key id. cbn. rewrite lookup_empty. split; [done|]. by intros (k & c & ? & _).
Qed.

Lemma rows_ok_init rows r : rows_ok (rows ++ [r]) -> rows_ok rows.
Proof.
  intros [[Hnd Hpr] Hpts Hcells Hroom]. rewrite fmap_app in Hnd. apply NoDup_app in Hnd as (Hnd & _). rewrite Forall_app in Hpr, Hpts.
  rewrite length_app in Hroom. split; [split; [done|apply Hpr]|apply Hpts|done|lia].
Qed.

Lemma rows_parsed cell g rows : rows_ok rows -> fits 28 (origin_x g) -> fits 28 (origin_y g) ->
  exists s fakes, parse_components cell g rows = Ok (s, fakes, false) /\ parsed rows s fakes.
Proof.
  intros Hro Hx Hy. unfold parse_components. induction rows as [|r rows IH] using rev_ind.
  - exists (fresh_state cell g), []. split; [done|by apply fresh_parsed].
  - destruct (IH (rows_ok_init rows r Hro)) as (s & fakes & E & Hpa). rewrite ofold_snoc, E. cbn [mbind outcome_bind].
    destruct (row_parsed rows s fakes false r Hpa Hro) as (s' & fakes' & E' & Hpa'). by exists s', fakes'.
Qed.

Lemma fake_ids_distinct rows s fakes key key' id :
  parsed rows s fakes -> (N.of_nat (length (cells_ design)) + 65537 + N.of_nat (length rows) < 2 ^ 32)%N ->
  bs_fake_ids s !! key = Some id -> (N.of_nat (length (cells_ design)) < id)%N /\ (bs_fake_ids s !! key' = Some id -> key' = key).
Proof.
  intros Hpa Hroom. destruct (pa_fakes _ _ _ Hpa) as [[Hids _ _ _] Hlen]. rewrite !Hids. 
  assert (forall k, (k < length fakes)%nat -> exists d, fake_id k = (N.of_nat (length (cells_ design)) + 1 + d + N.of_nat k)%N /\
    d = (fnv1a block_name mod 65536)%N) as Hk by (intros k Hk; eexists; split; [apply fake_id_eq; lia|done]).
  intros (k & c & Hc & <- & ->). destruct (Hk k) as (d & Ed & Hd); [by eapply lookup_lt_Some|]. split; [clear Hd; lia|].
  intros (k' & c' & Hc' & <- & E). destruct (Hk k') as (d' & Ed' & Hd'); [by eapply lookup_lt_Some|].
  assert (d = d') as <- by congruence. assert (k = k') as <- by (clear Hd Hd'; lia). congruence.
Qed.
(** A row is found under its number and its name. *)
Lemma pa_found rows s fakes k r : parsed rows s fakes -> rows_ok rows -> rows !! k = Some r ->
  exists i, find_instance (bs_block s) (N.of_nat (S k)) = Some i /\ find_instance_by_name (bs_block s) (co_name r) = Some i /\ instance_of s r i.
Proof.
  intros Hpa Hro Hk. pose proof (ro_room _ Hro) as Hroom. destruct (pa_instances _ _ _ Hpa k r Hk) as (i & Hi & Hio). exists i. split; [done|]. split; [|done].
  unfold find_instance_by_name. destruct (bo_instances _ (pa_block _ _ _ Hpa)) as (h & Hh & _). rewrite Hh. cbn [mbind option_bind].
  assert (backend_map (backend_ h) !! co_name r = Some (N.of_nat (S k))) as Hn by (apply (pa_names _ _ _ Hpa h Hh); by exists k, r).
  unfold get_id. rewrite backend_find_map, Hn. cbn [default from_option id]. apply lookup_lt_Some in Hk.
  unfold is_valid_id, kInvalidId, id_bits. rewrite (proj2 (N.eqb_neq _ _)) by lia. done.
Qed.
End components.

(** every row of the COMPONENTS section becomes the instance it describes.  For rows
    with different proper names, a table of cells that holds every registered id and
    coordinates within 28 bits, the chain of handlers returns for each row without
    error, and afterwards: row [k] is instance [k + 1] and is found under its name; it
    has the placement status of the row, the cell that its master names, or the fake
    cell of that master if there is none, and the transform that puts the box of that
    cell at the placement point; the block has one instance per row and the placeholder;
    the statistics count its instances, the unplaced ones and those of every cell; and
    the fake cells have different ids outside the table of the design, one for each
    unknown master. *)
Theorem components_parsed {B : Type} `{!DSNameBackend B} design block_name cell g rows :
  rows_ok design rows -> fits 28 (origin_x g) -> fits 28 (origin_y g) ->
  exists (s : BlockState B) fakes, parse_components design block_name cell g rows = Ok (s, fakes, false) /\
  (forall k r, rows !! k = Some r -> exists i, find_instance (bs_block s) (N.of_nat (S k)) = Some i /\
     find_instance_by_name (bs_block s) (co_name r) = Some i /\ instance_of design block_name s r i) /\
  block_ok (bs_block s) /\ instance_total (bs_block s) = S (length rows) /\
  counts_ok (bs_block s) (s_counts (bs_stats s)) /\
  (forall c, default 0 (per_cell (bs_stats s) !! c) = instances_with (fun e => e.1 <> 0%N /\ cell_id_ e.2 = c) (bs_block s)) /\
  NoDup (name_ <$> fakes) /\ fake_cell_count (bs_stats s) = Z.of_nat (length fakes) /\
  (forall c, c ∈ fakes -> exists m id, c = fake_cell (fake_key block_name m) /\ bs_fake_ids s !! name_ c = Some id /\
     is_valid_id table_bits (get_id table_bits (cell_names_ design) m) = false /\ (N.of_nat (length (cells_ design)) < id)%N /\
     forall key, bs_fake_ids s !! key = Some id -> key = name_ c).
Proof.
  intros Hro Hx Hy. destruct (rows_parsed design block_name cell g rows Hro Hx Hy) as (s & fakes & E & Hpa). exists s, fakes. split; [done|].
  pose proof (ro_room _ _ Hro) as Hroom. split; [|split; [apply Hpa|split; [|split; [apply Hpa|split; [apply Hpa|]]]]].
  - intros k r Hk. by apply (pa_found design block_name rows s fakes k r).
  - rewrite (bo_total _ (pa_block _ _ _ _ _ Hpa)), (pa_next _ _ _ _ _ Hpa). lia.
  - destruct (pa_fakes _ _ _ _ _ Hpa) as [[Hids Hcells Hnames Hcount] _]. split; [done|]. split; [done|].
    intros c [k Hk]%list_elem_of_lookup. destruct (Forall_lookup_1 _ _ _ _ Hcells Hk) as (m & Ec & Hm).
    exists m, (fake_id design block_name k). split; [done|].
    assert (bs_fake_ids s !! name_ c = Some (fake_id design block_name k)) as Hc by (apply Hids; by exists k, c). split; [done|]. split; [done|].
    destruct (fake_ids_distinct design block_name rows s fakes (name_ c) (name_ c) _ Hpa ltac:(lia) Hc) as [? _]. split; [done|].
    intros key Hkey. by apply (fake_ids_distinct design block_name rows s fakes (name_ c) key _ Hpa ltac:(lia) Hc).
Qed.

(** A handler without its environment sets the flag, and the chain ends there. *)
Lemma missing_environment {B : Type} `{!DSNameBackend B} (c : DSInstanceContext B) :
  cx_error c = false -> cx_design c = None \/ cx_block_data c = None -> run ds_make_components_pipeline c = Ok (set_error c).
Proof.
  intros He Hm. unfold ds_make_components_pipeline. cbn [run]. rewrite He.
  assert (DSCellResolveNode c = Ok (set_error c)) as ->; [|done]. unfold DSCellResolveNode. destruct Hm as [->| ->]; [done|by destruct (cx_design c)].
Qed.

(** ** Samples *)

(** A component of cell L, one of an unknown cell and one more of it, unplaced. *)
Definition sample_rows : list component :=
  [{| co_name := nx; co_master := nL; co_placement := GEOPoint 10 20; co_orient := W; co_status := PLACED |};
   {| co_name := ny; co_master := nu1; co_placement := GEOPoint 5 5; co_orient := Geometry.N; co_status := FIXED |};
   {| co_name := nn; co_master := nu1; co_placement := GEOPoint 0 0; co_orient := Geometry.N; co_status := UNPLACED |}].

#[local] Instance sample_point_dec w p : Decision (point_fits w p).
Proof. unfold point_fits. apply _. Defined.
#[local] Instance small_rect_dec r : Decision (small_rect r).
Proof. unfold small_rect, rect_fits. apply _. Defined.

Lemma sample_rows_ok : rows_ok sample_design sample_rows.
Proof.
  split.
  - split; [decide_compute|]. repeat (apply Forall_cons; split; [split; [discriminate|by vm_compute]|]). constructor.
  - decide_compute.
  - intros m. assert (map_Forall (fun (_ : bytes) id => is_Some (cells_ sample_design !! N.to_nat id) /\
      Forall (fun c => small_rect (bbox_ c) /\ fits 28 (origin_x_ c) /\ fits 28 (origin_y_ c)) (option_list (cells_ sample_design !! N.to_nat id)))
      (backend_map (backend_ (cell_names_ sample_design)))) as H by decide_compute.
    cbv zeta. unfold get_id. rewrite backend_find_map. intros Hv.
    destruct (backend_map (backend_ (cell_names_ sample_design)) !! m) as [i|] eqn:E; [|vm_compute in Hv; discriminate].
    destruct (H m i E) as [[c Hc] Hall]. rewrite Hc in Hall. cbn [option_list] in Hall. apply Forall_cons in Hall as [Hall _].
    exists c. split; [exact Hc|exact Hall].
  - vm_compute. reflexivity.
Qed.

Lemma components_parsed_witness : exists (s : BlockState DSHasherBackendHash) fakes,
  parse_components sample_design nB 1 (sample_grid 2 [0; 0]) sample_rows = Ok (s, fakes, false) /\
  length fakes = 1%nat /\ exists i, find_instance_by_name (bs_block s) ny = Some i.
Proof.
  destruct (components_parsed (B := DSHasherBackendHash) sample_design nB 1 (sample_grid 2 [0; 0]) sample_rows sample_rows_ok)
    as (s & fakes & E & Hrow & _); [decide_compute|decide_compute|]. exists s, fakes. split; [exact E|].
  assert (match parse_components (B := DSHasherBackendHash) sample_design nB 1 (sample_grid 2 [0; 0]) sample_rows with
    Ok (_, f, _) => length f | _ => 0%nat end = 1%nat) as Hlen by (vm_compute; reflexivity).
  rewrite E in Hlen. split; [exact Hlen|].
  destruct (Hrow 1%nat _ eq_refl) as (i & _ & Hi & _). exists i. exact Hi.
Defined.

Lemma component_placed_witness : exists tr, place_from_def (GEOPoint 10 20) W (GEORect 0 0 100 40) 5 0 = Some tr /\
  image_box tr (cell_box (GEORect 0 0 100 40) 5 0) = GEORect 10 20 50 120.
Proof.
  destruct (proj2 (component_placed (GEOPoint 10 20) W (GEORect 0 0 100 40) 5 0)) as (tr & f & E & _); [decide_compute|decide_compute|decide_compute|decide_compute|].
  exists tr. split; [exact E|]. destruct (proj1 (component_placed (GEOPoint 10 20) W (GEORect 0 0 100 40) 5 0) tr E) as [_ H]. exact H.
Defined.
