(* ===== verification/NetPipeline.v ===== *)
(** Nets of a DEF file turned into the net data of a block
    (emir/design/cpp/ds_net_pipeline.h, ds_net_pipeline.cpp).

    A net goes through three handlers: its connections are resolved to ids of instances
    and pins, its wires, rectangles and vias are resolved to layers and via cells and
    arrays of vias are expanded, and its shapes are counted in the density map.  What
    cannot be resolved is dropped and counted.  The context holds the net data it shares
    with the caller; the result of a run is the context with its new value.  [Undefined]
    is a signed overflow or an access outside a table.  Messages are not modelled. *)

From stdpp Require Import base gmap list sets fin_maps.
From Stdlib Require Import ZArith NArith Lia.
From S2P Require Import Prelude Bytes NameHasher Geometry BlockData DesignTables HierTree Density Flatten.
Import Corelib.Init.Datatypes(nat(..)) Corelib.Numbers.BinNums(N(..)).
#[local] Open Scope Z_scope.

(** * Parsed nets *)

Record DSNetRawConnection := { raw_instance : bytes; raw_pin : bytes }.
Record DSNetRawWire := { raw_wire_layer : bytes; width_dbu : Z; raw_points : list GEOPointT }.
Record DSNetRawRect := { raw_rect_layer : bytes; raw_rect : GEORectT }.
Record DSNetRawVia := {
  raw_via_name : bytes; raw_x : Z; raw_y : Z; num_x : Z; num_y : Z; step_x : Z; step_y : Z;
}.

(** The counters of [DSNetStats] that only the handlers maintain. *)
Record NetCounts := {
  parsed_net_count : N; skipped_net_count : N; skipped_invalid_connection_count : N;
  skipped_layer_ref_count : N; skipped_via_count : N;
}.
Definition no_counts : NetCounts :=
  {| parsed_net_count := 0; skipped_net_count := 0; skipped_invalid_connection_count := 0;
     skipped_layer_ref_count := 0; skipped_via_count := 0 |}.

(** The net data with its density map and these counters. *)
Record NetState := { ns_data : DSNetBuildData; ns_density : DSDensityGrid; ns_counts : NetCounts }.

Definition update_data (f : DSNetBuildData -> DSNetBuildData) (s : NetState) : NetState :=
  {| ns_data := f (ns_data s); ns_density := ns_density s; ns_counts := ns_counts s |}.
Definition update_counts (f : NetCounts -> NetCounts) (s : NetState) : NetState :=
  {| ns_data := ns_data s; ns_density := ns_density s; ns_counts := f (ns_counts s) |}.
Definition set_density (g : DSDensityGrid) (s : NetState) : NetState :=
  {| ns_data := ns_data s; ns_density := g; ns_counts := ns_counts s |}.

Definition count_net (c : NetCounts) : NetCounts :=
  {| parsed_net_count := parsed_net_count c + 1; skipped_net_count := skipped_net_count c;
     skipped_invalid_connection_count := skipped_invalid_connection_count c;
     skipped_layer_ref_count := skipped_layer_ref_count c; skipped_via_count := skipped_via_count c |}.
Definition skip_net (c : NetCounts) : NetCounts :=
  {| parsed_net_count := parsed_net_count c; skipped_net_count := skipped_net_count c + 1;
     skipped_invalid_connection_count := skipped_invalid_connection_count c;
     skipped_layer_ref_count := skipped_layer_ref_count c; skipped_via_count := skipped_via_count c |}.
Definition skip_connection (c : NetCounts) : NetCounts :=
  {| parsed_net_count := parsed_net_count c; skipped_net_count := skipped_net_count c;
     skipped_invalid_connection_count := skipped_invalid_connection_count c + 1;
     skipped_layer_ref_count := skipped_layer_ref_count c; skipped_via_count := skipped_via_count c |}.
Definition skip_layer_ref (c : NetCounts) : NetCounts :=
  {| parsed_net_count := parsed_net_count c; skipped_net_count := skipped_net_count c;
     skipped_invalid_connection_count := skipped_invalid_connection_count c;
     skipped_layer_ref_count := skipped_layer_ref_count c + 1; skipped_via_count := skipped_via_count c |}.
Definition skip_via (c : NetCounts) : NetCounts :=
  {| parsed_net_count := parsed_net_count c; skipped_net_count := skipped_net_count c;
     skipped_invalid_connection_count := skipped_invalid_connection_count c;
     skipped_layer_ref_count := skipped_layer_ref_count c; skipped_via_count := skipped_via_count c + 1 |}.

(** * Resolution of names *)

(** The via of this DEF shadows a via of the same name of the LEF files. *)
Definition ds_resolve_via_cell (design : DSDesign) (design_name via_name : bytes) : N :=
  let prefixed := get_id table_bits (via_cell_names_ design) (design_name ++ [Byte.x3a; Byte.x3a] ++ via_name) in
  if negb (bool_decide (design_name = [])) && is_valid_id table_bits prefixed then prefixed else
  let plain := get_id table_bits (via_cell_names_ design) via_name in
  if is_valid_id table_bits plain then plain else kInvalidId table_bits.

Definition ds_resolve_layer_id (name : bytes) (stack : DSStack) : N := find_layer stack name.

Definition drives (d : DSPinDirection) : bool := match d with OUTPUT | INOUT => true | INPUT => false end.
Definition receives (d : DSPinDirection) : bool := match d with INPUT | INOUT => true | OUTPUT => false end.

(** A connection to pin [p]: [port] for a port of the block itself. *)
Definition connection_to (port : bool) (inst : N) (p : DSPin) : DSNetConnection :=
  {| instance_local_id_ := inst; pin_id_ := pin_global_id_ p; conn_port := port;
     conn_driver := drives (direction_ p); conn_receiver := receives (direction_ p);
     conn_power := match type_ p with PIN_POWER => true | _ => false end;
     conn_ground := match type_ p with PIN_GROUND => true | _ => false end;
     conn_clock := match type_ p with PIN_CLOCK => true | _ => false end |}.

(** [fill_pin_flags]: the first pin of the cell with that id. *)
Definition fill_pin_flags (port : bool) (inst : N) (cell : DSCell) (pin_id : N) : option DSNetConnection :=
  connection_to port inst ∘ snd <$> list_find (fun p => pin_global_id_ p = pin_id) (pins_ cell).

Definition pin_keyword : bytes := [Byte.x50; Byte.x49; Byte.x4e].

Section nets.
Context {B : Type} `{!DSNameBackend B}.

Record DSNetContext := {
  nx_net_name : bytes; nx_is_special : bool; nx_is_pg : bool; nx_use : DSNetUse;
  nx_connections : list DSNetRawConnection; nx_wires : list DSNetRawWire; nx_rects : list DSNetRawRect; nx_vias : list DSNetRawVia;
  nx_stack : option DSStack; nx_design : option DSDesign; nx_block_data : option (DSBlockBuildData B);
  nx_net_data : option NetState; nx_design_name : bytes;
  nx_local_net_id : N; nx_error : bool;
}.

Definition with_net_data (s : NetState) (c : DSNetContext) : DSNetContext :=
  {| nx_net_name := nx_net_name c; nx_is_special := nx_is_special c; nx_is_pg := nx_is_pg c; nx_use := nx_use c;
     nx_connections := nx_connections c; nx_wires := nx_wires c; nx_rects := nx_rects c; nx_vias := nx_vias c;
     nx_stack := nx_stack c; nx_design := nx_design c; nx_block_data := nx_block_data c;
     nx_net_data := Some s; nx_design_name := nx_design_name c;
     nx_local_net_id := nx_local_net_id c; nx_error := nx_error c |}.
Definition with_local_id (id : N) (c : DSNetContext) : DSNetContext :=
  {| nx_net_name := nx_net_name c; nx_is_special := nx_is_special c; nx_is_pg := nx_is_pg c; nx_use := nx_use c;
     nx_connections := nx_connections c; nx_wires := nx_wires c; nx_rects := nx_rects c; nx_vias := nx_vias c;
     nx_stack := nx_stack c; nx_design := nx_design c; nx_block_data := nx_block_data c;
     nx_net_data := nx_net_data c; nx_design_name := nx_design_name c;
     nx_local_net_id := id; nx_error := nx_error c |}.
Definition with_error (c : DSNetContext) : DSNetContext :=
  {| nx_net_name := nx_net_name c; nx_is_special := nx_is_special c; nx_is_pg := nx_is_pg c; nx_use := nx_use c;
     nx_connections := nx_connections c; nx_wires := nx_wires c; nx_rects := nx_rects c; nx_vias := nx_vias c;
     nx_stack := nx_stack c; nx_design := nx_design c; nx_block_data := nx_block_data c;
     nx_net_data := nx_net_data c; nx_design_name := nx_design_name c;
     nx_local_net_id := nx_local_net_id c; nx_error := true |}.

Definition DSNetHandler := DSNetContext -> outcome DSNetContext.

Fixpoint run_net (handlers : list DSNetHandler) (c : DSNetContext) : outcome DSNetContext :=
  match handlers with
  | [] => Ok c
  | h :: handlers => if nx_error c then Ok c else c' ← h c; run_net handlers c'
  end.

(** * The connections *)

Definition resolve_port (design : DSDesign) (block : DSBlockBuildData B) (raw : DSNetRawConnection) : option DSNetConnection :=
  let port_pin := get_id table_bits (pin_names_ design) (raw_pin raw) in
  let block_cell := get_id table_bits (cell_names_ design) (block_name_ block) in
  if negb (is_valid_id table_bits port_pin) then None else
  if negb (is_valid_id table_bits block_cell) then None else
  cell ← cells_ design !! N.to_nat block_cell;
  fill_pin_flags true 0 cell port_pin.

Definition resolve_instance (design : DSDesign) (block : DSBlockBuildData B) (raw : DSNetRawConnection) : option DSNetConnection :=
  h ← instance_names_ block;
  let inst_local := get_id id_bits h (raw_instance raw) in
  if negb (is_valid_id id_bits inst_local) then None else
  inst ← instances_ block !! inst_local;
  cell ← cells_ design !! N.to_nat (cell_id_ inst);
  let pin_id := get_id table_bits (pin_names_ design) (raw_pin raw) in
  if negb (is_valid_id table_bits pin_id) then None else
  fill_pin_flags false inst_local cell pin_id.

Definition resolve_connection (design : DSDesign) (block : DSBlockBuildData B) (raw : DSNetRawConnection) : option DSNetConnection :=
  if decide (raw_instance raw = pin_keyword) then resolve_port design block raw else resolve_instance design block raw.

Definition parse_connection (design : DSDesign) (block : DSBlockBuildData B) (net : N) (s : NetState) (raw : DSNetRawConnection) : NetState :=
  match resolve_connection design block raw with
  | Some conn => update_data (add_connection net conn) s
  | None => update_counts skip_connection s
  end.

Definition DSNetConnectionParseNode (c : DSNetContext) : outcome DSNetContext :=
  match nx_stack c, nx_design c, nx_block_data c, nx_net_data c with
  | Some _, Some design, Some block, Some s =>
      let local := match net_names_ block with Some h => get_id id_bits h (nx_net_name c) | None => kInvalidId id_bits end in
      if negb (is_valid_id id_bits local) then Ok (with_net_data (update_counts skip_net s) c) else
      let s := update_counts count_net s in
      let s := if nx_is_pg c then update_data (mark_pg_net local) s else s in
      let s := update_data (record_net_use local (nx_use c)) s in
      Ok (with_net_data (foldl (parse_connection design block local) s (nx_connections c)) (with_local_id local c))
  | _, _, _, _ => Ok (with_error c)
  end.

(** * The shapes *)

Definition expand_wire (stack : DSStack) (net : N) (s : NetState) (raw : DSNetRawWire) : outcome NetState :=
  let layer := ds_resolve_layer_id (raw_wire_layer raw) stack in
  if negb (is_valid_id table_bits layer) then Ok (update_counts skip_layer_ref s) else
  w ← (if 0 <? width_dbu raw then Ok (width_dbu raw) else l ← defined (layer_by_id stack layer); Ok (default_width_ l));
  Ok (update_data (add_wire net {| wire_layer_id_ := layer; wire_width_ := w; wire_points_ := raw_points raw |}) s).

Definition expand_rect (stack : DSStack) (net : N) (s : NetState) (raw : DSNetRawRect) : NetState :=
  let layer := ds_resolve_layer_id (raw_rect_layer raw) stack in
  if negb (is_valid_id table_bits layer) then update_counts skip_layer_ref s else
  update_data (add_rect net {| rect_layer_id_ := layer; net_rect_ := raw_rect raw |}) s.

(** The positions of an array of vias, row by row. *)
Definition via_position (raw : DSNetRawVia) (iy ix : Z) : option GEOPointT :=
  dx ← chk 32 (ix * step_x raw); x ← chk 32 (raw_x raw + dx);
  dy ← chk 32 (iy * step_y raw); y ← chk 32 (raw_y raw + dy);
  Some (GEOPoint x y).
Definition via_grid (raw : DSNetRawVia) : list (Z * Z) :=
  iy ← seqZ 0 (Z.max (num_y raw) 1); ix ← seqZ 0 (Z.max (num_x raw) 1); [(iy, ix)].

Definition expand_via (design : DSDesign) (design_name : bytes) (net : N) (s : NetState) (raw : DSNetRawVia) : outcome NetState :=
  let cell := ds_resolve_via_cell design design_name (raw_via_name raw) in
  if negb (is_valid_id table_bits cell) then Ok (update_counts skip_via s) else
  ofold (fun s p => pos ← defined (via_position raw p.1 p.2);
                    Ok (update_data (fun d => (add_via_instance net {| via_cell_id_ := cell; via_pos_ := pos |} d).1) s))
    (via_grid raw) s.

Definition DSNetGeometryExpandNode (c : DSNetContext) : outcome DSNetContext :=
  match nx_net_data c with
  | None => Ok (with_error c)
  | Some s =>
      if (nx_local_net_id c =? 0)%N then Ok c else
      stack ← defined (nx_stack c); design ← defined (nx_design c);
      s ← ofold (expand_wire stack (nx_local_net_id c)) (nx_wires c) s;
      let s := foldl (expand_rect stack (nx_local_net_id c)) s (nx_rects c) in
      s ← ofold (expand_via design (nx_design_name c) (nx_local_net_id c)) (nx_vias c) s;
      Ok (with_net_data s c)
  end.

(** * The density *)

(** The rectangle of a segment, in 64 bits and converted to 32. *)
Definition segment_rect (half_w : Z) (p0 p1 : GEOPointT) : GEORectT :=
  GEORect (s32 (Z.min (x_ p0) (x_ p1) - half_w)) (s32 (Z.min (y_ p0) (y_ p1) - half_w))
          (s32 (Z.max (x_ p0) (x_ p1) + half_w)) (s32 (Z.max (y_ p0) (y_ p1) + half_w)).

Definition wire_rects (w : DSNetWire) : list GEORectT :=
  zip_with (segment_rect (Z.quot (wire_width_ w) 2)) (wire_points_ w) (drop 1 (wire_points_ w)).

Definition count_shapes (layer : N) (via : bool) (g : DSDensityGrid) (rs : list GEORectT) : outcome DSDensityGrid :=
  ofold (fun g r => defined (accumulate_layer_shape layer via r g)) rs g.

Definition move_rect (p : GEOPointT) (r : GEORectT) : option GEORectT :=
  xl ← chk 32 (x_low_ r + x_ p); yl ← chk 32 (y_low_ r + y_ p);
  xh ← chk 32 (x_high_ r + x_ p); yh ← chk 32 (y_high_ r + y_ p); Some (GEORect xl yl xh yh).

Definition count_via (design : DSDesign) (d : DSNetBuildData) (g : DSDensityGrid) (id : N) : outcome DSDensityGrid :=
  match via_instances_ d !! id with
  | None => Ok g
  | Some inst =>
      match via_cells_ design !! N.to_nat (via_cell_id_ inst) with
      | None => Ok g
      | Some via =>
          let cut_layer := if is_valid_id table_bits (cut_layer_id_ via) then cut_layer_id_ via else bottom_layer_id_ via in
          ofold (fun g r => m ← defined (move_rect (via_pos_ inst) r); defined (accumulate_layer_shape cut_layer true m g)) (cut_rects_ via) g
      end
  end.

Definition DSNetDensityNode (c : DSNetContext) : outcome DSNetContext :=
  match nx_net_data c with
  | None => Ok (with_error c)
  | Some s =>
      if (nx_local_net_id c =? 0)%N then Ok c else
      let d := ns_data s in let net := nx_local_net_id c in
      g ← ofold (fun g w => count_shapes (wire_layer_id_ w) false g (wire_rects w)) (default [] (wires_ d !! net)) (ns_density s);
      g ← ofold (fun g r => defined (accumulate_layer_shape (rect_layer_id_ r) false (net_rect_ r) g)) (default [] (rects_ d !! net)) g;
      design ← (match net_via_ids_ d !! net with Some _ => defined (nx_design c) | None => Ok (default new_design (nx_design c)) end);
      g ← ofold (count_via design d) (default [] (net_via_ids_ d !! net)) g;
      Ok (with_net_data (set_density g s) c)
  end.

Definition ds_make_nets_pipeline : list DSNetHandler := [DSNetConnectionParseNode; DSNetGeometryExpandNode; DSNetDensityNode].
End nets.
Arguments DSNetContext B : clear implicits.

(** * What a net becomes *)

Section spec.
Context {B : Type} `{!DSNameBackend B}.
Context (stack : DSStack) (design : DSDesign) (block : DSBlockBuildData B) (design_name : bytes).

(** The wire of a segment, on a layer of the stack. *)
Definition wire_of (raw : DSNetRawWire) : option DSNetWire :=
  let layer := ds_resolve_layer_id (raw_wire_layer raw) stack in
  if is_valid_id table_bits layer then
    Some {| wire_layer_id_ := layer;
            wire_width_ := if 0 <? width_dbu raw then width_dbu raw else from_option default_width_ 0 (layer_by_id stack layer);
            wire_points_ := raw_points raw |}
  else None.

Definition rect_of (raw : DSNetRawRect) : option DSNetRect :=
  let layer := ds_resolve_layer_id (raw_rect_layer raw) stack in
  if is_valid_id table_bits layer then Some {| rect_layer_id_ := layer; net_rect_ := raw_rect raw |} else None.

(** The vias of a reference: one for every point of the array. *)
Definition array_point (raw : DSNetRawVia) (p : Z * Z) : GEOPointT :=
  GEOPoint (raw_x raw + p.2 * step_x raw) (raw_y raw + p.1 * step_y raw).
Definition vias_of (raw : DSNetRawVia) : list DSViaInstance :=
  let cell := ds_resolve_via_cell design design_name (raw_via_name raw) in
  if is_valid_id table_bits cell then (fun p => {| via_cell_id_ := cell; via_pos_ := array_point raw p |}) <$> via_grid raw else [].

(** The local id of a net; 0 if the name is not registered. *)
Definition local_of (name : bytes) : N :=
  let id := match net_names_ block with Some h => get_id id_bits h name | None => kInvalidId id_bits end in
  if is_valid_id id_bits id then id else 0%N.

(** The operations on the net data that one net stands for. *)
Definition net_ops (c : DSNetContext B) : list net_op :=
  let net := local_of (nx_net_name c) in
  if (net =? 0)%N then [] else
  (if nx_is_pg c then [MarkPg net] else []) ++ [RecordUse net (nx_use c)] ++
  (AddConnection net <$> omap (resolve_connection design block) (nx_connections c)) ++
  (AddWire net <$> omap wire_of (nx_wires c)) ++ (AddRect net <$> omap rect_of (nx_rects c)) ++
  (AddVia net <$> (nx_vias c ≫= vias_of)).

(** How often [f] fails on a list. *)
Definition failures {A C} (f : A -> option C) (l : list A) : N := N.of_nat (length (filter (fun a => f a = None) l)).

(** The counters after one net. *)
Definition net_counts (c : DSNetContext B) (k : NetCounts) : NetCounts :=
  if (local_of (nx_net_name c) =? 0)%N then skip_net k else
  {| parsed_net_count := parsed_net_count k + 1; skipped_net_count := skipped_net_count k;
     skipped_invalid_connection_count := skipped_invalid_connection_count k + failures (resolve_connection design block) (nx_connections c);
     skipped_layer_ref_count := skipped_layer_ref_count k + failures wire_of (nx_wires c) + failures rect_of (nx_rects c);
     skipped_via_count := skipped_via_count k +
       N.of_nat (length (filter (fun v => is_valid_id table_bits (ds_resolve_via_cell design design_name (raw_via_name v)) = false) (nx_vias c))) |}.

(** ** Sizes *)

Record net_small (c : DSNetContext B) : Prop := {
  sm_wires : Forall (fun w => fits 28 (width_dbu w) /\ Forall (point_fits 28) (raw_points w)) (nx_wires c);
  sm_rects : Forall (fun r => rect_fits 28 (raw_rect r)) (nx_rects c);
  sm_vias : Forall (fun v => Forall (fun p => fits 32 (p.2 * step_x v) /\ fits 32 (p.1 * step_y v) /\ point_fits 28 (array_point v p)) (via_grid v)) (nx_vias c);
}.

(** The tables hold every registered id, with shapes and widths within 28 bits. *)
Record tables_small : Prop := {
  ts_layers name : is_valid_id table_bits (find_layer stack name) = true ->
    exists l, layer_by_id stack (find_layer stack name) = Some l /\ fits 28 (default_width_ l);
  ts_vias : Forall (fun v => Forall (rect_fits 28) (cut_rects_ v)) (via_cells_ design);
}.

(** What the net data then holds. *)
Record data_small (d : DSNetBuildData) : Prop := {
  ds_wires net ws : wires_ d !! net = Some ws -> Forall (fun w => fits 28 (wire_width_ w) /\ Forall (point_fits 28) (wire_points_ w)) ws;
  ds_rects net rs : rects_ d !! net = Some rs -> Forall (fun r => rect_fits 28 (net_rect_ r)) rs;
  ds_via_insts id v : via_instances_ d !! id = Some v -> point_fits 28 (via_pos_ v);
}.
End spec.

Section runs.
Context {B : Type} `{!DSNameBackend B}.
Context (stack : DSStack) (design : DSDesign) (block : DSBlockBuildData B) (design_name : bytes).

(** The state after some operations, with new counters. *)
Definition grown (ops : list net_op) (k : NetCounts) (s : NetState) : NetState :=
  {| ns_data := foldl run_net_op (ns_data s) ops; ns_density := ns_density s; ns_counts := k |}.

Definition plus_counts (nets conns layers vias : N) (k : NetCounts) : NetCounts :=
  {| parsed_net_count := parsed_net_count k + nets; skipped_net_count := skipped_net_count k;
     skipped_invalid_connection_count := skipped_invalid_connection_count k + conns;
     skipped_layer_ref_count := skipped_layer_ref_count k + layers; skipped_via_count := skipped_via_count k + vias |}.

Lemma plus_counts_0 k : plus_counts 0 0 0 0 k = k.
Proof. destruct k. unfold plus_counts. cbn. by rewrite !N.add_0_r. Qed.
Lemma plus_counts_add a b c d a' b' c' d' k :
  plus_counts a b c d (plus_counts a' b' c' d' k) = plus_counts (a' + a) (b' + b) (c' + c) (d' + d) k.
Proof. unfold plus_counts. cbn. by rewrite !N.add_assoc. Qed.

Lemma grown_nil s : grown [] (ns_counts s) s = s.
Proof. by destruct s. Qed.
Lemma grown_grown ops ops' k k' s : grown ops' k' (grown ops k s) = grown (ops ++ ops') k' s.
Proof. unfold grown. cbn. by rewrite foldl_app. Qed.

Lemma failures_cons {A C} (f : A -> option C) a l : failures f (a :: l) = (match f a with None => 1 | Some _ => 0 end + failures f l)%N.
Proof. unfold failures. rewrite filter_cons. destruct (f a); [by rewrite decide_False|rewrite decide_True by done; cbn; lia]. Qed.

(** A loop that adds what [f] makes of an item and counts its failures. *)
Lemma loop_grown {A C} (step : NetState -> A -> NetState) (f : A -> option C) (op : C -> net_op) (count : NetCounts -> NetCounts)
    (plus : N -> NetCounts -> NetCounts) :
  (forall k, plus 0%N k = k) -> (forall n k, plus n (count k) = plus (1 + n)%N k) ->
  (forall s a, step s a = match f a with Some c => grown [op c] (ns_counts s) s | None => grown [] (count (ns_counts s)) s end) ->
  forall l s, foldl step s l = grown (op <$> omap f l) (plus (failures f l) (ns_counts s)) s.
Proof.
  intros H0 Hc Hs l. induction l as [|a l IH]; intros s; [cbn; by rewrite H0, grown_nil|].
  rewrite failures_cons. cbn [foldl]. rewrite IH, Hs. cbn [omap list_omap]. destruct (f a) as [c|]; rewrite grown_grown; cbn [ns_counts grown]; [done|].
  by rewrite Hc.
Qed.

Lemma connections_grown net l s :
  foldl (parse_connection design block net) s l =
  grown (AddConnection net <$> omap (resolve_connection design block) l)
        (plus_counts 0 (failures (resolve_connection design block) l) 0 0 (ns_counts s)) s.
Proof.
  apply (loop_grown _ _ _ skip_connection (fun n => plus_counts 0 n 0 0)).
  - apply plus_counts_0.
  - intros n k. unfold plus_counts, skip_connection. cbn. f_equal; lia.
  - intros s' raw. unfold parse_connection. by destruct (resolve_connection design block raw).
Qed.

Lemma rects_grown net l s :
  foldl (expand_rect stack net) s l =
  grown (AddRect net <$> omap (rect_of stack) l) (plus_counts 0 0 (failures (rect_of stack) l) 0 (ns_counts s)) s.
Proof.
  apply (loop_grown _ _ _ skip_layer_ref (fun n => plus_counts 0 0 n 0)).
  - apply plus_counts_0.
  - intros n k. unfold plus_counts, skip_layer_ref. cbn. f_equal; lia.
  - intros s' raw. unfold expand_rect, rect_of. by destruct (is_valid_id _ _).
Qed.

Lemma wires_grown net l s : tables_small stack design ->
  ofold (expand_wire stack net) l s =
  Ok (grown (AddWire net <$> omap (wire_of stack) l) (plus_counts 0 0 (failures (wire_of stack) l) 0 (ns_counts s)) s).
Proof.
  intros [Hl _]. rewrite (ofold_pure _ (fun s raw => match wire_of stack raw with
    Some w => grown [AddWire net w] (ns_counts s) s | None => grown [] (skip_layer_ref (ns_counts s)) s end) (fun _ => True)).
  - f_equal. apply (loop_grown _ _ _ skip_layer_ref (fun n => plus_counts 0 0 n 0)); [apply plus_counts_0| |done].
    intros n k. unfold plus_counts, skip_layer_ref. cbn. f_equal; lia.
  - intros s' raw _. unfold expand_wire, wire_of, ds_resolve_layer_id. destruct (is_valid_id _ _) eqn:E; [|done]. cbn [negb].
    destruct (Hl (raw_wire_layer raw) E) as (l' & El & _). destruct (0 <? width_dbu raw); [done|]. rewrite El. done.
  - by apply Forall_true.
Qed.

Lemma via_position_small raw p :
  fits 32 (p.2 * step_x raw) -> fits 32 (p.1 * step_y raw) -> point_fits 28 (array_point raw p) ->
  via_position raw p.1 p.2 = Some (array_point raw p).
Proof.
  intros H1 H2 [H3 H4]. unfold via_position. unfold array_point, fits in H3, H4. cbn in H3, H4.
  repeat (rewrite chk_eq by (first [done|unfold fits; lia]); cbn [mbind option_bind]). done.
Qed.

Lemma array_grown net cell raw grid s :
  Forall (fun p => fits 32 (p.2 * step_x raw) /\ fits 32 (p.1 * step_y raw) /\ point_fits 28 (array_point raw p)) grid ->
  ofold (fun s p => pos ← defined (via_position raw p.1 p.2);
                    Ok (update_data (fun d => (add_via_instance net {| via_cell_id_ := cell; via_pos_ := pos |} d).1) s)) grid s =
  Ok (grown (AddVia net <$> ((fun p => {| via_cell_id_ := cell; via_pos_ := array_point raw p |}) <$> grid)) (ns_counts s) s).
Proof.
  intros Hg. revert s. induction grid as [|p grid IH]; intros s; [by destruct s|]. apply Forall_cons in Hg as [(H1 & H2 & H3) Hg].
  cbn [ofold]. rewrite via_position_small by done. cbn [mbind defined outcome_bind].
  rewrite (IH Hg). done.
Qed.

Lemma vias_grown net l s :
  Forall (fun v => Forall (fun p => fits 32 (p.2 * step_x v) /\ fits 32 (p.1 * step_y v) /\ point_fits 28 (array_point v p)) (via_grid v)) l ->
  ofold (expand_via design design_name net) l s =
  Ok (grown (AddVia net <$> (l ≫= vias_of design design_name)) (plus_counts 0 0 0
        (N.of_nat (length (filter (fun v => is_valid_id table_bits (ds_resolve_via_cell design design_name (raw_via_name v)) = false) l)))
        (ns_counts s)) s).
Proof.
  revert s. induction l as [|v l IH]; intros s; [cbn; by rewrite plus_counts_0, grown_nil|]. intros [Hv Hl]%Forall_cons.
  cbn [ofold]. rewrite bind_cons. unfold expand_via at 2. unfold vias_of at 1. cbv zeta. rewrite filter_cons.
  destruct (is_valid_id _ _) eqn:E; cbn [negb].
  - rewrite decide_False by done. rewrite array_grown by done. cbn [mbind outcome_bind]. rewrite IH by done.
    by rewrite grown_grown, fmap_app.
  - rewrite decide_True by done. cbn [mbind outcome_bind app length]. rewrite IH by done. f_equal. unfold grown, plus_counts, skip_via, update_counts. cbn. f_equal. f_equal; lia.
Qed.
End runs.

(** ** Counting shapes *)

Definition origin_small (g : DSDensityGrid) : Prop := fits 28 (origin_x g) /\ fits 28 (origin_y g).

Lemma shape_counted layer via r g : fits 30 (x_low_ r) -> fits 30 (y_low_ r) -> origin_small g ->
  exists g', accumulate_layer_shape layer via r g = Some g' /\ origin_small g'.
Proof.
  intros Hx Hy [Ox Oy]. unfold accumulate_layer_shape. destruct (configured g); cbn [negb]; [|by exists g].
  unfold touched. unfold fits in *. rewrite !chk_eq by (unfold fits; lia). cbn [mbind option_bind]. eexists. split; [done|].
  unfold set_layer. by destruct via.
Qed.

Lemma segment_small half p0 p1 : fits 28 half -> point_fits 28 p0 -> point_fits 28 p1 ->
  fits 30 (x_low_ (segment_rect half p0 p1)) /\ fits 30 (y_low_ (segment_rect half p0 p1)).
Proof. intros H [? ?] [? ?]. unfold segment_rect, fits in *. cbn. rewrite !s32_small by lia. lia. Qed.

Lemma wire_counted w g : fits 28 (wire_width_ w) -> Forall (point_fits 28) (wire_points_ w) -> origin_small g ->
  exists g', count_shapes (wire_layer_id_ w) false g (wire_rects w) = Ok g' /\ origin_small g'.
Proof.
  intros Hw Hp Hg. unfold count_shapes. apply ofold_keeps; [done|]. intros g1 r Hr Hg1. unfold wire_rects in Hr.
  apply list_elem_of_lookup in Hr as [i Hi]. apply lookup_zip_with_Some in Hi as (p0 & p1 & -> & H0 & H1). rewrite lookup_drop in H1.
  destruct (segment_small (Z.quot (wire_width_ w) 2) p0 p1) as [Hx Hy].
  - unfold fits in *. Z.to_euclidean_division_equations. lia.
  - by apply (Forall_lookup_1 _ _ _ _ Hp H0).
  - by apply (Forall_lookup_1 _ _ _ _ Hp H1).
  - destruct (shape_counted (wire_layer_id_ w) false _ g1 Hx Hy Hg1) as (g' & E & Hg'). rewrite E. by exists g'.
Qed.

Lemma via_counted stack design d id g : tables_small stack design -> data_small d -> origin_small g ->
  exists g', count_via design d g id = Ok g' /\ origin_small g'.
Proof.
  intros [_ Hv] Hd Hg. unfold count_via. destruct (via_instances_ d !! id) as [inst|] eqn:Ei; [|by exists g].
  destruct (via_cells_ design !! _) as [via|] eqn:Ev; [|by exists g]. apply (ds_via_insts _ Hd) in Ei as [Px Py].
  apply (Forall_lookup_1 _ _ _ _ Hv) in Ev. apply ofold_keeps; [done|]. intros g1 r Hr Hg1.
  apply (proj1 (Forall_forall _ _) Ev) in Hr as (R1 & R2 & R3 & R4). unfold move_rect. unfold fits in *.
  repeat (rewrite chk_eq by (unfold fits; lia); cbn [mbind option_bind]). cbn [defined mbind outcome_bind].
  match goal with |- context [accumulate_layer_shape ?l ?v ?r ?g] => destruct (shape_counted l v r g) as (g' & E & Hg') end;
    [unfold fits; cbn; lia|unfold fits; cbn; lia|done|]. cbv zeta. rewrite E. by exists g'.
Qed.

(** ** What operations leave in the net data *)

Definition conn_in (n : N) (op : net_op) : option DSNetConnection :=
  match op with AddConnection m c => if decide (m = n) then Some c else None | _ => None end.
Definition wire_in (n : N) (op : net_op) : option DSNetWire :=
  match op with AddWire m w => if decide (m = n) then Some w else None | _ => None end.
Definition rect_in (n : N) (op : net_op) : option DSNetRect :=
  match op with AddRect m r => if decide (m = n) then Some r else None | _ => None end.
Definition via_in (n : N) (op : net_op) : option DSViaInstance :=
  match op with AddVia m v => if decide (m = n) then Some v else None | _ => None end.
Definition use_in (n : N) (op : net_op) : option DSNetUse :=
  match op with RecordUse m u => if decide (m = n /\ u <> SIGNAL) then Some u else None | _ => None end.

Lemma push_at_default {A} k n (x : A) m :
  default [] (push_at k x m !! n) = default [] (m !! n) ++ (if decide (k = n) then [x] else []).
Proof.
  unfold push_at. destruct (decide (k = n)) as [->|Hn]; [by rewrite lookup_insert_eq|]. by rewrite lookup_insert_ne, app_nil_r.
Qed.

Lemma parsed_snoc ops op : parsed_nets (ops ++ [op]) = run_net_op (parsed_nets ops) op.
Proof. unfold parsed_nets. by rewrite foldl_app. Qed.

(** Induction on the operations for one list of the net data. *)
Ltac list_of_ops :=
  match goal with |- _ = omap _ ?ops => induction ops as [|op ops IH] using rev_ind; [done|] end;
  rewrite parsed_snoc, omap_app; match goal with H : _ = omap _ _ |- _ => rewrite <- H end;
  match goal with op : net_op |- _ => destruct op as [m x|m x|m x|m x|m|m x] end; cbn;
  rewrite ?app_nil_r; first [done|rewrite push_at_default; by destruct (decide _)|unfold record_net_use; by destruct (decide _)].

Lemma connections_parsed n ops : default [] (connections_ (parsed_nets ops) !! n) = omap (conn_in n) ops.
Proof. list_of_ops. Qed.
Lemma wires_parsed n ops : default [] (wires_ (parsed_nets ops) !! n) = omap (wire_in n) ops.
Proof. list_of_ops. Qed.
Lemma rects_parsed n ops : default [] (rects_ (parsed_nets ops) !! n) = omap (rect_in n) ops.
Proof. list_of_ops. Qed.

Lemma own_via_ids ops n i : i ∈ default [] (net_via_ids_ (parsed_nets ops) !! n) -> (i < next_via_instance_id_ (parsed_nets ops))%N.
Proof.
  intros Hi. destruct (via_numbering ops) as (Hnext & Hdom & _ & Hall). rewrite Hnext.
  enough (is_Some (via_instances_ (parsed_nets ops) !! i)) as H by (apply Hdom in H; lia). apply Hall.
  destruct (net_via_ids_ (parsed_nets ops) !! n) as [l|] eqn:E; [|by apply elem_of_nil in Hi].
  unfold all_via_ids. apply list_elem_of_In, in_concat. exists l. split; [|by apply list_elem_of_In].
  apply list_elem_of_In, list_elem_of_fmap. exists (n, l). split; [done|]. by apply elem_of_map_to_list.
Qed.

Lemma vias_parsed n ops :
  (fun id => via_instances_ (parsed_nets ops) !! id) <$> default [] (net_via_ids_ (parsed_nets ops) !! n) = Some <$> omap (via_in n) ops.
Proof.
  induction ops as [|op ops IH] using rev_ind; [done|]. rewrite omap_app, fmap_app, <- IH, parsed_snoc. pose proof (own_via_ids ops n) as Hlt.
  destruct op as [m x|m x|m x|m x|m|m x]; cbn; rewrite ?app_nil_r; try done; [|unfold record_net_use; by destruct (decide _)].
  rewrite push_at_default, fmap_app. f_equal; [|destruct (decide _); [|done]; cbn; by rewrite lookup_insert_eq].
  apply list_fmap_ext. intros k i Hi. apply list_elem_of_lookup_2, Hlt in Hi. rewrite lookup_insert_ne by lia. done.
Qed.

Lemma pg_parsed n ops : n ∈ pg_nets_ (parsed_nets ops) <-> MarkPg n ∈ ops.
Proof.
  induction ops as [|op ops IH] using rev_ind; [cbn; rewrite elem_of_nil; set_solver|].
  rewrite parsed_snoc, elem_of_app, <- IH, list_elem_of_singleton.
  destruct op as [m x|m x|m x|m x|m|m x]; cbn; try (split; [by left|intros [?|?]; done]);
    [|unfold record_net_use; destruct (decide _); split; [by left|intros [?|?]; done|by left|intros [?|?]; done]].
  rewrite elem_of_union, elem_of_singleton. split; [intros [->|?]; auto|intros [?|[= ->]]; auto].
Qed.

Lemma use_parsed n ops : net_uses_ (parsed_nets ops) !! n = head (omap (use_in n) ops).
Proof.
  induction ops as [|op ops IH] using rev_ind; [done|]. rewrite omap_app, parsed_snoc.
  assert (forall l : list DSNetUse, head (omap (use_in n) ops ++ l) = match head (omap (use_in n) ops) with Some u => Some u | None => head l end) as Hh
    by (intros l; by destruct (omap (use_in n) ops)).
  rewrite Hh, <- IH. destruct op as [m x|m x|m x|m x|m|m x]; cbn; try (by destruct (net_uses_ (parsed_nets ops) !! n)).
  unfold record_net_use. destruct (decide (x = SIGNAL)) as [->|Hx].
  { rewrite decide_False by tauto. cbn. by destruct (_ !! n). }
  cbn. destruct (decide (m = n)) as [->|Hn].
  - rewrite decide_True by done. cbn. destruct (net_uses_ _ !! n) as [u|] eqn:E; [done|]. by rewrite lookup_insert_eq.
  - rewrite decide_False by tauto. cbn. destruct (net_uses_ (parsed_nets ops) !! m) as [u|]; [|rewrite lookup_insert_ne by done]; by destruct (_ !! n).
Qed.

Lemma omap_over {A C} (f : net_op -> option C) (op : A -> net_op) (g : A -> option C) (l : list A) :
  (forall a, f (op a) = g a) -> omap f (op <$> l) = omap g l.
Proof. intros H. induction l as [|a l IH]; [done|]. cbn. rewrite H. cbn in IH. by rewrite IH. Qed.
Lemma omap_all {A} (l : list A) : omap Some l = l.
Proof. induction l as [|a l IH]; [done|]. cbn. f_equal. exact IH. Qed.
Lemma omap_none {A C} (l : list A) : omap (fun _ => None) l = ([] : list C).
Proof. by induction l. Qed.
Lemma omap_bind {A C E} (f : C -> option E) (g : A -> list C) l : omap f (l ≫= g) = l ≫= (fun a => omap f (g a)).
Proof. induction l as [|a l IH]; [done|]. rewrite !bind_cons, omap_app. by rewrite IH. Qed.

(** Items of the rows that [P] selects. *)
Lemma bind_filter {A C} (P : A -> Prop) `{!forall a, Decision (P a)} (g h : A -> list C) l :
  (forall a, g a = if decide (P a) then h a else []) -> l ≫= g = filter P l ≫= h.
Proof.
  intros Hgh. induction l as [|a l IH]; [done|]. rewrite bind_cons, filter_cons, Hgh, IH. destruct (decide (P a)); [by rewrite bind_cons|done].
Qed.

Section rows.
Context {B : Type} `{!DSNameBackend B}.
Context (stack : DSStack) (design : DSDesign) (block : DSBlockBuildData B) (design_name : bytes).

Notation ops_of := (net_ops stack design block design_name).
Notation id_of := (fun c => local_of block (nx_net_name c)).

(** The appearances of one net in the file. *)
Definition rows_of (rows : list (DSNetContext B)) (n : N) : list (DSNetContext B) := filter (fun c => id_of c = n) rows.

Ltac select_ops Hn c n :=
  unfold net_ops; destruct (N.eqb_spec (local_of block (nx_net_name c)) 0) as [E|E]; [rewrite E, decide_False by done; done|];
  rewrite !omap_app; destruct (decide (local_of block (nx_net_name c) = n)) as [->|Hne];
  destruct (nx_is_pg c); cbn [omap list_omap conn_in wire_in rect_in via_in use_in app];
  rewrite ?(decide_True (P := n = n)), ?(decide_False (P := _ = n)) by done;
  repeat match goal with |- context [omap ?f (?op <$> ?l)] =>
    first [rewrite (omap_over f op Some l) by (intros a; cbn; by rewrite decide_True)
          |rewrite (omap_over f op (fun _ => None) l) by (intros a; cbn; rewrite ?decide_False by done; done)] end;
  rewrite ?omap_all, ?omap_none, ?app_nil_r; cbn [app]; try done.

Lemma row_conns n c : n <> 0%N ->
  omap (conn_in n) (ops_of c) = if decide (id_of c = n) then omap (resolve_connection design block) (nx_connections c) else [].
Proof. intros Hn. select_ops Hn c n. Qed.
Lemma row_wires n c : n <> 0%N -> omap (wire_in n) (ops_of c) = if decide (id_of c = n) then omap (wire_of stack) (nx_wires c) else [].
Proof. intros Hn. select_ops Hn c n. Qed.
Lemma row_rects n c : n <> 0%N -> omap (rect_in n) (ops_of c) = if decide (id_of c = n) then omap (rect_of stack) (nx_rects c) else [].
Proof. intros Hn. select_ops Hn c n. Qed.
Lemma row_vias n c : n <> 0%N -> omap (via_in n) (ops_of c) = if decide (id_of c = n) then nx_vias c ≫= vias_of design design_name else [].
Proof. intros Hn. select_ops Hn c n. Qed.
Lemma row_uses n c : n <> 0%N ->
  omap (use_in n) (ops_of c) = if decide (id_of c = n) then (if decide (nx_use c = SIGNAL) then [] else [nx_use c]) else [].
Proof.
  intros Hn. select_ops Hn c n; destruct (decide (nx_use c = SIGNAL)) as [H|H];
    rewrite ?(decide_False (P := _ /\ _)) by tauto; try done; by rewrite decide_True.
Qed.
Lemma row_pg n c : n <> 0%N -> MarkPg n ∈ ops_of c <-> id_of c = n /\ nx_is_pg c = true.
Proof.
  intros Hn. unfold net_ops. destruct (N.eqb_spec (local_of block (nx_net_name c)) 0) as [E|E].
  { rewrite elem_of_nil, E. naive_solver. }
  rewrite !elem_of_app, list_elem_of_singleton, !list_elem_of_fmap. destruct (nx_is_pg c); [rewrite list_elem_of_singleton|rewrite elem_of_nil]; naive_solver.
Qed.

(** The net data after a list of operations, read off the rows. *)
Record holds (rows : list (DSNetContext B)) (d : DSNetBuildData) (n : N) : Prop := {
  ho_connections : default [] (connections_ d !! n) = rows_of rows n ≫= fun c => omap (resolve_connection design block) (nx_connections c);
  ho_wires : default [] (wires_ d !! n) = rows_of rows n ≫= fun c => omap (wire_of stack) (nx_wires c);
  ho_rects : default [] (rects_ d !! n) = rows_of rows n ≫= fun c => omap (rect_of stack) (nx_rects c);
  ho_vias : (fun id => via_instances_ d !! id) <$> default [] (net_via_ids_ d !! n) =
    Some <$> (rows_of rows n ≫= fun c => nx_vias c ≫= vias_of design design_name);
  ho_pg : n ∈ pg_nets_ d <-> exists c, c ∈ rows_of rows n /\ nx_is_pg c = true;
  ho_use : net_use_of d n = default SIGNAL (head (filter (fun u => u <> SIGNAL) (nx_use <$> rows_of rows n)));
}.

Lemma rows_hold rows n : n <> 0%N -> holds rows (parsed_nets (rows ≫= ops_of)) n.
Proof.
  intros Hn. split.
  - rewrite connections_parsed, omap_bind. apply bind_filter. intros c. by apply row_conns.
  - rewrite wires_parsed, omap_bind. apply bind_filter. intros c. by apply row_wires.
  - rewrite rects_parsed, omap_bind. apply bind_filter. intros c. by apply row_rects.
  - rewrite vias_parsed, omap_bind. f_equal. apply bind_filter. intros c. by apply row_vias.
  - rewrite pg_parsed, list_elem_of_bind. setoid_rewrite list_elem_of_filter. setoid_rewrite row_pg; [|done]. naive_solver.
  - unfold net_use_of. rewrite use_parsed, omap_bind. do 2 f_equal.
    trans (rows_of rows n ≫= fun c => if decide (nx_use c = SIGNAL) then [] else [nx_use c]); [apply bind_filter; intros c; by apply row_uses|].
    induction (rows_of rows n) as [|c l IH]; [done|]. rewrite bind_cons, fmap_cons, filter_cons, IH.
    destruct (decide (nx_use c = SIGNAL)); [by rewrite decide_False by tauto|by rewrite decide_True by done].
Qed.
End rows.

(** ** Runs of the chain *)

Section chain.
Context {B : Type} `{!DSNameBackend B}.
Context (stack : DSStack) (design : DSDesign) (block : DSBlockBuildData B) (design_name : bytes).

(** A context as the callback of the parser makes it. *)
Record fresh_net (c : DSNetContext B) : Prop := {
  fn_stack : nx_stack c = Some stack; fn_design : nx_design c = Some design; fn_block : nx_block_data c = Some block;
  fn_design_name : nx_design_name c = design_name; fn_local : nx_local_net_id c = 0%N; fn_error : nx_error c = false;
}.

(** One net on the shared net data; the flag tells whether a chain ended early. *)
Definition parse_net (st : NetState * bool) (c : DSNetContext B) : outcome (NetState * bool) :=
  c' ← run_net ds_make_nets_pipeline (with_net_data st.1 c);
  Ok (default st.1 (nx_net_data c'), st.2 || nx_error c').

Definition op_small (op : net_op) : Prop :=
  match op with
  | AddWire _ w => fits 28 (wire_width_ w) /\ Forall (point_fits 28) (wire_points_ w)
  | AddRect _ r => rect_fits 28 (net_rect_ r)
  | AddVia _ v => point_fits 28 (via_pos_ v)
  | _ => True
  end.

Lemma push_at_Forall {A} (P : A -> Prop) k (x : A) m n l :
  P x -> (forall n l, m !! n = Some l -> Forall P l) -> push_at k x m !! n = Some l -> Forall P l.
Proof.
  intros Hx Hm. unfold push_at. rewrite lookup_insert_Some. intros [[<- <-]|[_ H]]; [|by eapply Hm].
  rewrite Forall_app, Forall_singleton. split; [|done]. destruct (m !! k) as [l'|] eqn:E; [by eapply Hm|constructor].
Qed.

Lemma op_keeps_small d op : op_small op -> data_small d -> data_small (run_net_op d op).
Proof.
  intros Ho [Hw Hr Hv]. destruct op as [m x|m x|m x|m x|m|m x]; cbn in Ho |- *; try by split.
  - split; cbn; [|done..]. intros n l. by apply push_at_Forall.
  - split; cbn; [done| |done]. intros n l. by apply push_at_Forall.
  - split; cbn; [done..|]. intros id v. rewrite lookup_insert_Some. intros [[_ <-]|[_ H]]; [done|by eapply Hv].
  - unfold record_net_use. by destruct (decide _).
Qed.

Lemma ops_keep_small ops d : Forall op_small ops -> data_small d -> data_small (foldl run_net_op d ops).
Proof.
  revert d. induction ops as [|op ops IH]; intros d; [done|]. intros [Ho Hops]%Forall_cons Hd. cbn. apply IH; [done|]. by apply op_keeps_small.
Qed.

Lemma net_ops_small c : tables_small stack design -> net_small c -> Forall op_small (net_ops stack design block design_name c).
Proof.
  intros [Hl _] [Hw Hr Hv]. unfold net_ops. destruct (_ =? 0)%N; [constructor|].
  rewrite !Forall_app, !Forall_fmap. split; [destruct (nx_is_pg c); by repeat constructor|]. split; [by repeat constructor|].
  split; [by apply Forall_true|]. split; [|split].
  - apply Forall_forall. intros w (raw & Hin & Hraw)%list_elem_of_omap. apply (proj1 (Forall_forall _ _) Hw) in Hin as [H1 H2].
    unfold wire_of, ds_resolve_layer_id in Hraw. destruct (is_valid_id _ _) eqn:E; [|done]. injection Hraw as <-. cbn [op_small wire_width_ wire_points_]. split; [|done].
    destruct (0 <? width_dbu raw); [done|]. destruct (Hl _ E) as (l & -> & ?). done.
  - apply Forall_forall. intros r (raw & Hin & Hraw)%list_elem_of_omap. apply (proj1 (Forall_forall _ _) Hr) in Hin.
    unfold rect_of in Hraw. destruct (is_valid_id _ _); [|done]. by injection Hraw as <-.
  - apply Forall_forall. intros v (raw & Hraw & Hin)%list_elem_of_bind. apply (proj1 (Forall_forall _ _) Hv) in Hin.
    unfold vias_of in Hraw. destruct (is_valid_id _ _); [|by apply elem_of_nil in Hraw].
    apply list_elem_of_fmap in Hraw as (p & -> & Hp). cbn. apply (proj1 (Forall_forall _ _) Hin p Hp).
Qed.

Lemma density_total (c : DSNetContext B) s : nx_net_data c = Some s -> nx_design c = Some design -> tables_small stack design -> data_small (ns_data s) ->
  origin_small (ns_density s) -> nx_local_net_id c <> 0%N ->
  exists g, DSNetDensityNode c = Ok (with_net_data (set_density g s) c) /\ origin_small g.
Proof.
  intros Hs Hd Ht Hda Hg Hl. unfold DSNetDensityNode. rewrite Hs, (proj2 (N.eqb_neq _ _)) by done. cbv zeta.
  match goal with |- context [ofold ?f ?l ?g] => destruct (ofold_keeps origin_small f l g) as (g1 & -> & Hg1) end; [exact Hg| |].
  { intros g w Hw Hg1. destruct (wires_ (ns_data s) !! nx_local_net_id c) as [ws|] eqn:E; [|by apply elem_of_nil in Hw].
    apply (ds_wires _ Hda) in E. apply (proj1 (Forall_forall _ _) E) in Hw as [? ?]. by apply wire_counted. }
  cbn [mbind outcome_bind]. match goal with |- context [ofold ?f ?l ?g] => destruct (ofold_keeps origin_small f l g) as (g2 & -> & Hg2) end; [exact Hg1| |].
  { intros g r Hr Hg2. destruct (rects_ (ns_data s) !! nx_local_net_id c) as [rs|] eqn:E; [|by apply elem_of_nil in Hr].
    apply (ds_rects _ Hda) in E. apply (proj1 (Forall_forall _ _) E) in Hr as (R1 & R2 & _). unfold fits in *.
    destruct (shape_counted (rect_layer_id_ r) false (net_rect_ r) g) as (g' & -> & ?); [unfold fits; lia..|done|by exists g']. }
  assert (exists dd, (match net_via_ids_ (ns_data s) !! nx_local_net_id c with
    Some _ => defined (nx_design c) | None => Ok (default new_design (nx_design c)) end) = Ok dd /\ dd = design) as (dd & -> & ->).
  { exists design. rewrite Hd. by destruct (net_via_ids_ _ !! _). }
  cbn [mbind outcome_bind]. match goal with |- context [ofold ?f ?l ?g] => destruct (ofold_keeps origin_small f l g) as (g3 & -> & Hg3) end; [exact Hg2| |by exists g3].
  intros g id _ Hg3. by apply (via_counted stack).
Qed.

(** A registered net has an id other than 0. *)
Lemma local_positive name h : block_ok block -> net_names_ block = Some h -> is_valid_id id_bits (get_id id_bits h name) = true ->
  local_of block name = get_id id_bits h name /\ get_id id_bits h name <> 0%N.
Proof.
  intros Hb Hh Hv. unfold local_of. rewrite Hh, Hv. split; [done|]. destruct (bo_nets _ Hb) as (h' & Hh' & Hn). rewrite Hh in Hh'. injection Hh' as <-.
  revert Hv. unfold get_id. rewrite backend_find_map. destruct (backend_map (backend_ h) !! name) as [i|] eqn:E; [|by vm_compute].
  intros _. cbn. apply (nu_range _ _ Hn) in E. lia.
Qed.

(** The first two handlers on a registered net. *)
Lemma geometry_parsed (c : DSNetContext B) s h : fresh_net c -> block_ok block -> tables_small stack design -> net_small c ->
  net_names_ block = Some h -> is_valid_id id_bits (get_id id_bits h (nx_net_name c)) = true ->
  (c' ← DSNetConnectionParseNode (with_net_data s c); DSNetGeometryExpandNode c') =
  Ok (with_net_data (grown (net_ops stack design block design_name c) (net_counts stack design block design_name c (ns_counts s)) s)
       (with_local_id (get_id id_bits h (nx_net_name c)) c)).
Proof.
  intros Hf Hb Ht [_ _ Hvias] Hh Hv. destruct (local_positive _ h Hb Hh Hv) as [El Hnz]. unfold DSNetConnectionParseNode.
  cbn [with_net_data nx_stack nx_design nx_block_data nx_net_data nx_net_name nx_is_pg nx_use nx_connections].
  rewrite (fn_stack _ Hf), (fn_design _ Hf), (fn_block _ Hf), Hh, Hv. cbn [negb mbind outcome_bind]. cbv zeta.
  unfold DSNetGeometryExpandNode. cbn [with_net_data with_local_id nx_net_data nx_local_net_id nx_stack nx_design nx_wires nx_rects nx_vias nx_design_name].
  rewrite (proj2 (N.eqb_neq _ _)) by done. rewrite (fn_stack _ Hf), (fn_design _ Hf), (fn_design_name _ Hf). cbn [defined mbind outcome_bind].
  rewrite connections_grown, (wires_grown stack design) by done. cbn [mbind outcome_bind]. rewrite rects_grown, vias_grown by done. cbn [mbind outcome_bind].
  f_equal. unfold with_net_data, with_local_id. cbn. f_equal. f_equal. unfold grown. cbn [ns_data ns_density ns_counts].
  unfold net_ops, net_counts. rewrite El, (proj2 (N.eqb_neq _ _)) by done. rewrite !foldl_app.
  destruct (nx_is_pg c); cbn [foldl app run_net_op ns_data ns_density ns_counts update_data update_counts]; f_equal; unfold plus_counts; cbn; f_equal; lia.
Qed.

Lemma net_parsed c s e : fresh_net c -> block_ok block -> tables_small stack design -> net_small c -> data_small (ns_data s) ->
  origin_small (ns_density s) ->
  exists g, parse_net (s, e) c = Ok (set_density g (grown (net_ops stack design block design_name c)
    (net_counts stack design block design_name c (ns_counts s)) s), e) /\ origin_small g.
Proof.
  intros Hf Hb Ht Hs Hd Hg. destruct (bo_nets _ Hb) as (h & Hh & _). unfold parse_net, ds_make_nets_pipeline. cbn [fst snd].
  cbn [run_net with_net_data nx_error]. rewrite (fn_error _ Hf).
  destruct (is_valid_id id_bits (get_id id_bits h (nx_net_name c))) eqn:Hv.
  - pose proof (geometry_parsed c s h Hf Hb Ht Hs Hh Hv) as Hrun. destruct (local_positive _ h Hb Hh Hv) as [El Hnz].
    destruct (DSNetConnectionParseNode (with_net_data s c)) as [c1| | |] eqn:E1; cbn [mbind outcome_bind] in Hrun |- *; try discriminate Hrun.
    assert (nx_error c1 = false) as ->.
    { revert E1. unfold DSNetConnectionParseNode. cbn [with_net_data nx_stack nx_design nx_block_data nx_net_data nx_net_name].
      rewrite (fn_stack _ Hf), (fn_design _ Hf), (fn_block _ Hf), Hh, Hv. intros [= <-]. apply Hf. }
    rewrite Hrun. cbn [mbind outcome_bind with_net_data with_local_id nx_error]. rewrite (fn_error _ Hf).
    match goal with |- context [DSNetDensityNode ?c] => destruct (density_total c _ eq_refl) as (g & -> & Hg') end.
    + apply (fn_design _ Hf).
    + done.
    + cbn. apply ops_keep_small; [by apply net_ops_small|done].
    + done.
    + done.
    + exists g. split; [|done]. cbn. by rewrite (fn_error _ Hf), orb_false_r.
  - exists (ns_density s). split; [|done]. unfold DSNetConnectionParseNode. cbn [with_net_data nx_stack nx_design nx_block_data nx_net_data nx_net_name].
    rewrite (fn_stack _ Hf), (fn_design _ Hf), (fn_block _ Hf), Hh, Hv. cbn [negb mbind outcome_bind with_net_data nx_error]. rewrite (fn_error _ Hf).
    unfold DSNetGeometryExpandNode. cbn [with_net_data nx_net_data nx_local_net_id]. rewrite (fn_local _ Hf). cbn. rewrite (fn_error _ Hf).
    unfold DSNetDensityNode. cbn [with_net_data nx_net_data nx_local_net_id]. rewrite (fn_local _ Hf). cbn. rewrite (fn_error _ Hf), orb_false_r.
    unfold net_ops, net_counts, local_of. rewrite Hh, Hv. done.
Qed.

(** A file of nets, one chain after the other. *)
Lemma rows_parsed_nets rows s e : Forall fresh_net rows -> Forall net_small rows -> block_ok block -> tables_small stack design ->
  data_small (ns_data s) -> origin_small (ns_density s) ->
  exists g, ofold parse_net rows (s, e) = Ok ({| ns_data := foldl run_net_op (ns_data s) (rows ≫= net_ops stack design block design_name);
    ns_density := g; ns_counts := foldl (fun k c => net_counts stack design block design_name c k) (ns_counts s) rows |}, e).
Proof.
  intros Hf Hs Hb Ht. revert s. induction rows as [|c rows IH]; intros s Hd Hg; [exists (ns_density s); by destruct s|].
  apply Forall_cons in Hf as [Hc Hf], Hs as [Hsc Hs]. destruct (net_parsed c s e Hc Hb Ht Hsc Hd Hg) as (g & E & Hg'). cbn [ofold]. rewrite E.
  cbn [mbind outcome_bind]. edestruct (IH Hf Hs) as (g' & ->); [|exact Hg'|].
  - cbn. apply ops_keep_small; [by apply net_ops_small|done].
  - exists g'. by rewrite bind_cons, foldl_app.
Qed.
End chain.

(** ** Counters *)

(** The operations of each kind. *)
Definition is_conn (op : net_op) : bool := match op with AddConnection _ _ => true | _ => false end.
Definition is_wire (op : net_op) : bool := match op with AddWire _ _ => true | _ => false end.
Definition is_rect (op : net_op) : bool := match op with AddRect _ _ => true | _ => false end.
Definition ops_with (p : net_op -> bool) (ops : list net_op) : N := N.of_nat (length (filter (fun op => p op = true) ops)).

Lemma ops_with_app p ops ops' : ops_with p (ops ++ ops') = (ops_with p ops + ops_with p ops')%N.
Proof. unfold ops_with. rewrite filter_app, length_app. lia. Qed.
Lemma ops_with_over {A} p (op : A -> net_op) (b : bool) (l : list A) :
  (forall a, p (op a) = b) -> ops_with p (op <$> l) = if b then N.of_nat (length l) else 0%N.
Proof.
  intros H. unfold ops_with. induction l as [|a l IH]; [by destruct b|]. rewrite fmap_cons, filter_cons, H.
  destruct b; [rewrite decide_True by done; cbn [length]; lia|by rewrite decide_False].
Qed.

Lemma ops_with_one p op : ops_with p [op] = if p op then 1%N else 0%N.
Proof. unfold ops_with. rewrite filter_cons. by destruct (p op). Qed.

Lemma stats_parsed ops : let st := net_stats_ (parsed_nets ops) in
  connection_count st = ops_with is_conn ops /\ wire_count st = ops_with is_wire ops /\ rect_count st = ops_with is_rect ops.
Proof.
  induction ops as [|op ops IH] using rev_ind; [done|]. cbv zeta in *. destruct IH as (I1 & I2 & I3).
  rewrite parsed_snoc, !ops_with_app, <- I1, <- I2, <- I3, !ops_with_one.
  destruct op; cbn; try lia. unfold record_net_use. destruct (decide _); cbn; lia.
Qed.

Lemma omap_failures {A C} (f : A -> option C) l : (N.of_nat (length (omap f l)) + failures f l)%N = N.of_nat (length l).
Proof. induction l as [|a l IH]; [done|]. rewrite failures_cons. cbn. cbn in IH. destruct (f a); cbn; lia. Qed.

Section totals.
Context {B : Type} `{!DSNameBackend B}.
Context (stack : DSStack) (design : DSDesign) (block : DSBlockBuildData B) (design_name : bytes).
Notation ops_of := (net_ops stack design block design_name).

Ltac count_ops c :=
  intros Hn; unfold net_ops; rewrite (proj2 (N.eqb_neq _ _)) by done; rewrite !ops_with_app;
  repeat match goal with |- context [ops_with ?p (?op <$> ?l)] =>
    first [rewrite (ops_with_over p op true l) by done|rewrite (ops_with_over p op false l) by done] end;
  destruct (nx_is_pg c); rewrite ?ops_with_one; unfold ops_with; cbn; lia.

Lemma row_conn_count c : local_of block (nx_net_name c) <> 0%N ->
  ops_with is_conn (ops_of c) = N.of_nat (length (omap (resolve_connection design block) (nx_connections c))).
Proof. count_ops c. Qed.
Lemma row_wire_count c : local_of block (nx_net_name c) <> 0%N -> ops_with is_wire (ops_of c) = N.of_nat (length (omap (wire_of stack) (nx_wires c))).
Proof. count_ops c. Qed.
Lemma row_rect_count c : local_of block (nx_net_name c) <> 0%N -> ops_with is_rect (ops_of c) = N.of_nat (length (omap (rect_of stack) (nx_rects c))).
Proof. count_ops c. Qed.

Lemma counts_add_up rows :
  let k := foldl (fun k c => net_counts stack design block design_name c k) no_counts rows in
  let st := net_stats_ (parsed_nets (rows ≫= ops_of)) in
  let known := filter (fun c => local_of block (nx_net_name c) <> 0%N) rows in
  parsed_net_count k = N.of_nat (length known) /\
  (parsed_net_count k + skipped_net_count k)%N = N.of_nat (length rows) /\
  (connection_count st + skipped_invalid_connection_count k)%N = N.of_nat (length (known ≫= nx_connections)) /\
  (wire_count st + rect_count st + skipped_layer_ref_count k)%N = N.of_nat (length (known ≫= nx_wires) + length (known ≫= nx_rects)).
Proof.
  cbv zeta. destruct (stats_parsed (rows ≫= ops_of)) as (-> & -> & ->).
  induction rows as [|c rows IH] using rev_ind; [done|]. destruct IH as (I1 & I2 & I3 & I4).
  rewrite foldl_app, bind_app, !ops_with_app, filter_app, !bind_app, !length_app. cbn [foldl].
  set (k := foldl _ no_counts rows) in *. unfold net_counts. clearbody k.
  rewrite filter_cons, filter_nil, bind_singleton. destruct (N.eqb_spec (local_of block (nx_net_name c)) 0) as [E|E].
  - rewrite decide_False by tauto. assert (ops_of c = []) as -> by (unfold net_ops; by rewrite E). unfold ops_with in *. cbn in *. lia.
  - rewrite decide_True, !bind_singleton by done. cbn [length]. rewrite row_conn_count, row_wire_count, row_rect_count by done. cbn.
    pose proof (omap_failures (resolve_connection design block) (nx_connections c)). pose proof (omap_failures (wire_of stack) (nx_wires c)).
    pose proof (omap_failures (rect_of stack) (nx_rects c)). lia.
Qed.
End totals.

(** * Correctness *)

(** The state before the first net. *)
Definition fresh_nets (g : DSDensityGrid) : NetState := {| ns_data := new_nets; ns_density := g; ns_counts := no_counts |}.

(** The first pin of a cell with a given global id. *)
Definition pin_of (cell : DSCell) (id : N) (p : DSPin) : Prop :=
  exists k, pins_ cell !! k = Some p /\ pin_global_id_ p = id /\ forall j q, pins_ cell !! j = Some q -> pin_global_id_ q = id -> (k <= j)%nat.

Lemma fill_pin_flags_Some port inst cell id conn :
  fill_pin_flags port inst cell id = Some conn <-> exists p, pin_of cell id p /\ conn = connection_to port inst p.
Proof.
  unfold fill_pin_flags, pin_of. rewrite fmap_Some. split.
  - intros ([k p] & (Hk & Hp & Hmin)%list_find_Some & ->). exists p. split; [|done]. exists k. split; [done|]. split; [done|].
    intros j q Hj Hq. destruct (decide (j < k)%nat) as [Hlt|]; [|lia]. by destruct (Hmin j q Hj Hlt).
  - intros (p & (k & Hk & Hp & Hmin) & ->). exists (k, p). split; [|done]. apply list_find_Some. split; [done|]. split; [done|].
    intros j q Hj Hlt Hq. specialize (Hmin j q Hj Hq). lia.
Qed.

(** a connection is resolved exactly when both of its names are.  A reference to PIN
    is resolved when the name of the pin is registered and the cell of the block itself
    has a pin of that name; any other one when an instance of that name is in the block,
    its cell is in the table of the design and this cell has such a pin.  The connection
    holds the id of the instance (0 for a port) and of the pin, and its flags are those
    of the first pin of the cell with that id. *)
Theorem connection_exact {B : Type} `{!DSNameBackend B} design (block : DSBlockBuildData B) raw conn :
  block_ok block ->
  let pin := get_id table_bits (pin_names_ design) (raw_pin raw) in
  resolve_connection design block raw = Some conn <->
  is_valid_id table_bits pin = true /\
  if decide (raw_instance raw = pin_keyword) then
    let own := get_id table_bits (cell_names_ design) (block_name_ block) in
    is_valid_id table_bits own = true /\ exists cell p, cells_ design !! N.to_nat own = Some cell /\ pin_of cell pin p /\ conn = connection_to true 0 p
  else exists l inst cell p, find_instance_by_name block (raw_instance raw) = Some inst /\ instances_ block !! l = Some inst /\
    (exists h, instance_names_ block = Some h /\ get_id id_bits h (raw_instance raw) = l) /\
    cells_ design !! N.to_nat (cell_id_ inst) = Some cell /\ pin_of cell pin p /\ conn = connection_to false l p.
Proof.
  intros Hb pin. unfold resolve_connection. destruct (decide _) as [E|E].
  - unfold resolve_port. fold pin. cbv zeta. destruct (is_valid_id _ pin); cbn [negb]; [|naive_solver].
    destruct (is_valid_id _ (get_id _ (cell_names_ _) _)); cbn [negb]; [|naive_solver].
    rewrite bind_Some. setoid_rewrite fill_pin_flags_Some. naive_solver.
  - destruct (bo_instances _ Hb) as (h & Hh & _). unfold resolve_instance, find_instance_by_name. rewrite Hh. cbn [mbind option_bind]. fold pin. cbv zeta.
    destruct (is_valid_id _ (get_id _ h _)) eqn:Ev; cbn [negb]; [|naive_solver]. destruct (is_valid_id _ pin); cbn [negb].
    + rewrite bind_Some. setoid_rewrite bind_Some. setoid_rewrite fill_pin_flags_Some. naive_solver.
    + split; [|naive_solver]. intros (inst & _ & (cell & _ & ?)%bind_Some)%bind_Some. done.
Qed.

(** The net data is what the nets of the file say.  For nets with coordinates within 28
    bits and tables that hold every registered id, every chain of handlers returns without
    error, and for every registered net [n], which may appear several times in the file,
    the stored connections, wires, rectangles and vias are those of its appearances that
    can be resolved, in the order of the file, with arrays of vias expanded row by row;
    [n] is a power net if one of its appearances is, and its use is the first one other
    than SIGNAL.  The via instances are numbered from 1 without gaps over all nets.
    Nothing is lost in silence: nets are parsed or counted as skipped, connections are
    stored or counted as dropped, and wires and rectangles likewise. *)
Theorem nets_parsed {B : Type} `{!DSNameBackend B} stack design (block : DSBlockBuildData B) design_name rows g :
  Forall (fresh_net stack design block design_name) rows -> Forall net_small rows -> block_ok block ->
  tables_small stack design -> origin_small g ->
  exists s, ofold parse_net rows (fresh_nets g, false) = Ok (s, false) /\
  (forall n, n <> 0%N -> holds stack design block design_name rows (ns_data s) n) /\
  (forall i, is_Some (via_instances_ (ns_data s) !! i) <-> (1 <= i <= via_instance_count (net_stats_ (ns_data s)))%N) /\
  let known := filter (fun c => local_of block (nx_net_name c) <> 0%N) rows in
  parsed_net_count (ns_counts s) = N.of_nat (length known) /\
  (parsed_net_count (ns_counts s) + skipped_net_count (ns_counts s))%N = N.of_nat (length rows) /\
  (connection_count (net_stats_ (ns_data s)) + skipped_invalid_connection_count (ns_counts s))%N = N.of_nat (length (known ≫= nx_connections)) /\
  (wire_count (net_stats_ (ns_data s)) + rect_count (net_stats_ (ns_data s)) + skipped_layer_ref_count (ns_counts s))%N =
    N.of_nat (length (known ≫= nx_wires) + length (known ≫= nx_rects)).
Proof.
  intros Hf Hs Hb Ht Hg. destruct (rows_parsed_nets stack design block design_name rows (fresh_nets g) false Hf Hs Hb Ht) as (g' & E);
    [by split; intros ? ?; cbn; rewrite lookup_empty|done|]. eexists. split; [exact E|]. cbn [ns_data ns_counts fresh_nets].
  change (foldl run_net_op new_nets (rows ≫= net_ops stack design block design_name)) with (parsed_nets (rows ≫= net_ops stack design block design_name)).
  split; [intros n Hn; by apply rows_hold|]. split; [apply (via_numbering (rows ≫= net_ops stack design block design_name))|].
  apply counts_add_up.
Qed.

(** * A sample

    Block [B] has an instance of cell [L], whose only pin is [x], and a net; the net has a
    wire of two segments on layer M1 and an array of two vias. *)

Definition net_pin : DSPin :=
  {| type_ := PIN_CLOCK; direction_ := INOUT; pin_global_id_ := 0; pin_placement_status_ := PIN_NONE; is_port := false |}.
Definition net_cell (name : bytes) (block : bool) : DSCell :=
  let c := sample_cell name block in
  {| name_ := name_ c; library_name_ := library_name_ c; bbox_ := bbox_ c; origin_x_ := 0; origin_y_ := 0; def_path_ := def_path_ c;
     flags_ := flags_ c; pins_ := [net_pin]; obs_ := []; polygon_ := polygon_ c |}.
Definition net_via : DSViaCell :=
  {| via_name_ := nu1; bottom_layer_id_ := 0; top_layer_id_ := kInvalidId table_bits; cut_layer_id_ := kInvalidId table_bits;
     cut_rects_ := [GEORect (-1) (-1) 1 1]; bottom_enclosure_ := []; top_enclosure_ := [] |}.
Definition net_design : DSDesign :=
  let d := foldl (fun d c => fst (ok_or (d, 0%N) (add_cell c d))) new_design [net_cell nL false; net_cell nB true] in
  let d := fst (ok_or (d, 0%N) (register_pin nx d)) in fst (ok_or (d, 0%N) (add_via_cell net_via d)).
Definition net_stack : DSStack := fst (ok_or (new_stack, 0%N) (add_layer (sample_layer M1) new_stack)).
Definition net_block : DSBlockBuildData DSHasherBackendHash :=
  run_ops (init_placeholder nB 1 new_block) [AddInstance (sample_inst 0 3) ny; RegisterNet nn].

Definition net_row (name : bytes) (conns : list DSNetRawConnection) (wires : list DSNetRawWire) (vias : list DSNetRawVia)
  : DSNetContext DSHasherBackendHash :=
  {| nx_net_name := name; nx_is_special := false; nx_is_pg := false; nx_use := CLOCK; nx_connections := conns; nx_wires := wires; nx_rects := [];
     nx_vias := vias; nx_stack := Some net_stack; nx_design := Some net_design; nx_block_data := Some net_block;
     nx_net_data := None; nx_design_name := nB; nx_local_net_id := 0; nx_error := false |}.

Definition sample_wire_row : DSNetRawWire := {| raw_wire_layer := M1; width_dbu := 2; raw_points := [GEOPoint 1 5; GEOPoint 8 5] |}.
Definition sample_net_row : DSNetContext DSHasherBackendHash :=
  net_row nn [{| raw_instance := ny; raw_pin := nx |}; {| raw_instance := pin_keyword; raw_pin := nx |}; {| raw_instance := nu2; raw_pin := nx |}]
    [sample_wire_row]
    [{| raw_via_name := nu1; raw_x := 3; raw_y := 3; num_x := 2; num_y := 1; step_x := 4; step_y := 0 |}].
Definition unknown_net_row : DSNetContext DSHasherBackendHash := net_row nT [] [] [].

Example sample_net_data :
  match ofold parse_net [sample_net_row; unknown_net_row] (fresh_nets (sample_grid 1 [0]), false) with
  | Ok (s, e) =>
      (e, instance_local_id_ <$> default [] (connections_ (ns_data s) !! 1%N), via_pos_ <$> omap (fun i => via_instances_ (ns_data s) !! i) [1%N; 2%N],
       skipped_net_count (ns_counts s), skipped_invalid_connection_count (ns_counts s), layer_total 0 false (ns_density s), layer_total 0 true (ns_density s))
      = (false, [1%N; 0%N], [GEOPoint 3 3; GEOPoint 7 3], 1%N, 1%N, 1, 2)
  | _ => False
  end.
Proof. vm_compute. reflexivity. Qed.

(** The shapes of a net are counted once more each time the net appears: here a second
    appearance of the net, with no shapes of its own, doubles the counts. *)
Lemma repeated_net_counted_twice :
  match ofold parse_net [sample_net_row; net_row nn [] [] []] (fresh_nets (sample_grid 1 [0]), false) with
  | Ok (s, _) => length (default [] (wires_ (ns_data s) !! 1%N)) = 1%nat /\
                 layer_total 0 false (ns_density s) = 2 /\ layer_total 0 true (ns_density s) = 4
  | _ => False
  end.
Proof. vm_compute. repeat split. Qed.

Lemma net_block_ok : block_ok net_block.
Proof. apply block_reach_ok, run_ops_reach; [constructor|vm_compute; reflexivity]. Qed.

#[export] Instance point_fits_dec w p : Decision (point_fits w p).
Proof. unfold point_fits. apply _. Defined.
#[export] Instance rect_fits_dec w r : Decision (rect_fits w r).
Proof. unfold rect_fits. apply _. Defined.

Lemma sample_tables_small : tables_small net_stack net_design.
Proof.
  split; [|decide_compute].
  intros name. unfold find_layer, get_id. rewrite backend_find_map.
  assert (map_Forall (fun (_ : bytes) id => id = 0%N) (backend_map (backend_ (layer_names_ net_stack)))) as H by decide_compute.
  destruct (backend_map (backend_ (layer_names_ net_stack)) !! name) as [i|] eqn:E; [|intros Hv; exfalso; revert Hv; clear; vm_compute; discriminate].
  apply H in E as ->.
  intros _. exists (set_layer_id 0 (sample_layer M1)). split; [vm_compute; reflexivity|split; by vm_compute].
Qed.

Lemma sample_row_small : net_small sample_net_row.
Proof. split; decide_compute. Qed.

Lemma nets_parsed_witness : exists s,
  ofold parse_net [sample_net_row] (fresh_nets (sample_grid 1 [0]), false) = Ok (s, false) /\
  parsed_net_count (ns_counts s) = 1%N /\ length (default [] (connections_ (ns_data s) !! 1%N)) = 2%nat.
Proof.
  destruct (nets_parsed net_stack net_design net_block nB [sample_net_row] (sample_grid 1 [0])) as (s & E & Hh & _ & Hc & _).
  - repeat constructor.
  - apply Forall_singleton, sample_row_small.
  - apply net_block_ok.
  - apply sample_tables_small.
  - split; split; by vm_compute.
  - exists s. split; [exact E|]. split; [rewrite Hc; vm_compute; reflexivity|].
    rewrite (ho_connections _ _ _ _ _ _ _ (Hh 1%N ltac:(discriminate))). vm_compute. reflexivity.
Defined.

Lemma connection_exact_witness : exists conn, resolve_connection net_design net_block {| raw_instance := ny; raw_pin := nx |} = Some conn /\
  exists l inst, instances_ net_block !! l = Some inst /\ instance_local_id_ conn = l.
Proof.
  assert (exists conn, resolve_connection net_design net_block {| raw_instance := ny; raw_pin := nx |} = Some conn) as [conn E]
    by (eexists; vm_compute; reflexivity).
  exists conn. split; [exact E|].
  destruct (proj1 (connection_exact net_design net_block {| raw_instance := ny; raw_pin := nx |} conn net_block_ok) E) as [_ H].
  rewrite decide_False in H by discriminate. destruct H as (l & inst & cell & p & _ & Hl & _ & _ & _ & ->). exists l, inst. split; [exact Hl|reflexivity].
Defined.
