(* ===== verification/DefAdapter.v ===== *)
(** The callbacks of the DEF reader (emir/design/cpp/ds_def_adapter.h,
    ds_def_adapter.cpp; [ds_parse_net_use] of ds_types.cpp).

    A DEF file is read three times.  Each time the reader of the lefdef library calls back
    for the statements of the file, here the events of the pass; what its accessors
    return is the data of an event.  The first pass makes the cell of the block with its
    ports, the vias and the blockages; the second one the instances, by the chain of
    [InstancePipeline], and the local ids of the nets; the third one the contents of the
    nets, by the chain of [NetPipeline], in batches.  Coordinates are converted from the
    units of the file with doubles ([Partition.llround] and the binary64 arithmetic).
    Opening the file, the session of the reader and messages are not modelled; the
    counters of the callbacks are integers without bounds. *)

From stdpp Require Import base gmap list sets fin_maps.
From Stdlib Require Import ZArith NArith Lia SpecFloat.
From Stdlib Require Import String.
From stdpp Require Import list.
From S2P Require Import Prelude Bytes NameHasher Geometry BlockData DesignTables HierTree Density Partition Flatten Verify InstancePipeline NetPipeline.
Import Corelib.Init.Datatypes(nat(..), length) Corelib.Numbers.BinNums(N(..)).
#[local] Open Scope Z_scope.

(** * Texts *)

Definition text (s : String.string) : bytes := String.list_byte_of_string s.
Arguments text s%_string.

Definition kNetUseTable : list (bytes * DSNetUse) :=
  [(text "SIGNAL", SIGNAL); (text "POWER", POWER); (text "GROUND", GROUND); (text "CLOCK", CLOCK);
   (text "TIEOFF", TIEOFF); (text "ANALOG", ANALOG); (text "RESET", RESET); (text "SCAN", SCAN)].

(** The use and whether the text is one of the table. *)
Definition ds_parse_net_use (t : bytes) : DSNetUse * bool :=
  match list_find (fun e => e.1 = t) kNetUseTable with
  | Some (_, e) => (e.2, true)
  | None => (SIGNAL, false)
  end.

Definition map_port_use (use : bytes) : DSPinType :=
  if decide (use = text "POWER") then PIN_POWER else
  if decide (use = text "GROUND") then PIN_GROUND else
  if decide (use = text "CLOCK") then PIN_CLOCK else PIN_SIGNAL.

Definition map_port_direction (dir : bytes) : DSPinDirection :=
  if decide (dir = text "OUTPUT" \/ dir = text "TRISTATE") then OUTPUT else
  if decide (dir = text "INOUT" \/ dir = text "FEEDTHRU") then INOUT else INPUT.

(** [DEFI_COMPONENT_UNPLACED] .. [DEFI_COMPONENT_SOFTFIXED] are 1 .. 5. *)
Definition map_component_status (status : Z) : DSPlacementStatus :=
  if status =? 2 then PLACED else if status =? 3 then FIXED else if status =? 4 then COVER else
  if status =? 5 then FIXED else UNPLACED.

Definition orientations : list GEOOrientation := [Geometry.N; W; Geometry.S; E; FN; FW; FS; FE].
Definition component_orient (raw : Z) : GEOOrientation :=
  if (0 <=? raw) && (raw <=? 7) then default Geometry.N (orientations !! Z.to_nat raw) else Geometry.N.

(** * What the reader passes to the callbacks *)

(** A placement is fixed, a cover, or neither. *)
Record defiPinPort := { pp_placement : option (bool * bool); pp_layers : list (bytes * GEORectT) }.
Record defiPin := {
  dp_name : bytes; dp_use : option bytes; dp_direction : option bytes; dp_ports : list defiPinPort;
  dp_layers : list (bytes * GEORectT); dp_placement : option (bool * bool);
}.
Inductive defiVia_body :=
  | ViaRule (x_size y_size : Z) (bot cut top : bytes) (x_be y_be x_te y_te : Z)
  | ViaLayers (layers : list (bytes * GEORectT)).
Record defiVia := { dv_name : bytes; dv_body : defiVia_body }.
Record defiBlockage := { bl_layer : option bytes; bl_rects : list GEORectT; bl_polygons : Z }.
Record defiComponent := { dc_id : bytes; dc_name : bytes; dc_x : Z; dc_y : Z; dc_orient : Z; dc_status : Z }.

Inductive path_item :=
  | PathLayer (name : bytes) | PathWidth (w : Z) | PathPoint (x y : Z) | PathFlushPoint (x y ext : Z)
  | PathVia (name : bytes) | PathViaData (nx ny sx sy : Z) | PathOther.
Record defiNet := {
  dn_name : bytes; dn_use : option bytes; dn_connections : list (bytes * bytes);
  dn_wires : list (list (list path_item)); dn_rects : list (bytes * GEORectT);
  dn_vias : list (bytes * list GEOPointT);
}.

Section adapter.
(** The value of [llround] where it is not specified. *)
Context (unspecified : Z).

(** * Units *)

Definition kGlobalDbuPerMicron : Z := 1000.

Definition def_to_dbu (v def_units : Z) : Z :=
  llround unspecified (ddiv (dmul (of_Z v) (of_Z kGlobalDbuPerMicron)) (of_Z def_units)).

(** Converted and stored as a 32-bit integer. *)
Definition conv (def_units v : Z) : Z := s32 (def_to_dbu v def_units).
Definition def_rect_to_dbu (def_units : Z) (r : GEORectT) : GEORectT :=
  GEORect (conv def_units (x_low_ r)) (conv def_units (y_low_ r)) (conv def_units (x_high_ r)) (conv def_units (y_high_ r)).

(** The box around the points of a DIEAREA. *)
Definition die_box (pts : list GEOPointT) : GEORectT :=
  match pts with
  | [] => GEORect 0 0 0 0
  | p :: pts => foldl (fun b q => GEORect (Z.min (x_low_ b) (x_ q)) (Z.min (y_low_ b) (y_ q)) (Z.max (x_high_ b) (x_ q)) (Z.max (y_high_ b) (y_ q)))
                  (GEORect (x_ p) (y_ p) (x_ p) (y_ p)) pts
  end.

(** The density map of the second and the third pass. *)
Definition die_area_grid (def_units bin : Z) (pts : list GEOPointT) (g : DSDensityGrid) : option DSDensityGrid :=
  if bin <=? 0 then Some g else
  let box := die_box pts in
  let ox := def_to_dbu (x_low_ box) def_units in let oy := def_to_dbu (y_low_ box) def_units in
  let width := def_to_dbu (x_high_ box) def_units - ox in let height := def_to_dbu (y_high_ box) def_units - oy in
  configure (s32 ox) (s32 oy) bin bin (u32 (Z.quot (width + bin - 1) bin)) (u32 (Z.quot (height + bin - 1) bin)) g.

(** * The first pass *)

(** The counters of [DSDefParseStats]. *)
Inductive def_stat :=
  | block_count | port_count | skipped_port_count | via_count | viarule_via_count | via_conflict_count | die_area_count
  | header_skipped_layer_ref_count | obstruction_count | skipped_polygon_obstruction_count.
#[export] Instance def_stat_eq_dec : EqDecision def_stat.
Proof. solve_decision. Defined.
Definition DSDefParseStats := def_stat -> Z.
Definition bump_stat (k : def_stat) (n : Z) (s : DSDefParseStats) : DSDefParseStats :=
  fun j => if decide (j = k) then s j + n else s j.

Record DefContext := {
  hc_units : Z; hc_design_name : bytes; hc_cell : DSCell; hc_active : bool; hc_port_names : list bytes;
  hc_block_cells : list DSCell; hc_port_geoms : DSPinGeometry; hc_vias : list DSViaCell; hc_obstructions : list DSShapeRef;
  hc_stats : DSDefParseStats;
}.
Definition new_header : DefContext :=
  {| hc_units := 100; hc_design_name := []; hc_cell := empty_cell; hc_active := false; hc_port_names := [];
     hc_block_cells := []; hc_port_geoms := ∅; hc_vias := []; hc_obstructions := []; hc_stats := fun _ => 0 |}.

Definition with_units (u : Z) (c : DefContext) : DefContext :=
  {| hc_units := u; hc_design_name := hc_design_name c; hc_cell := hc_cell c; hc_active := hc_active c; hc_port_names := hc_port_names c;
     hc_block_cells := hc_block_cells c; hc_port_geoms := hc_port_geoms c; hc_vias := hc_vias c; hc_obstructions := hc_obstructions c;
     hc_stats := hc_stats c |}.
Definition with_cell (cell : DSCell) (c : DefContext) : DefContext :=
  {| hc_units := hc_units c; hc_design_name := hc_design_name c; hc_cell := cell; hc_active := hc_active c; hc_port_names := hc_port_names c;
     hc_block_cells := hc_block_cells c; hc_port_geoms := hc_port_geoms c; hc_vias := hc_vias c; hc_obstructions := hc_obstructions c;
     hc_stats := hc_stats c |}.
Definition with_ports (names : list bytes) (geoms : DSPinGeometry) (c : DefContext) : DefContext :=
  {| hc_units := hc_units c; hc_design_name := hc_design_name c; hc_cell := hc_cell c; hc_active := hc_active c; hc_port_names := names;
     hc_block_cells := hc_block_cells c; hc_port_geoms := geoms; hc_vias := hc_vias c; hc_obstructions := hc_obstructions c;
     hc_stats := hc_stats c |}.
Definition with_vias (vias : list DSViaCell) (c : DefContext) : DefContext :=
  {| hc_units := hc_units c; hc_design_name := hc_design_name c; hc_cell := hc_cell c; hc_active := hc_active c; hc_port_names := hc_port_names c;
     hc_block_cells := hc_block_cells c; hc_port_geoms := hc_port_geoms c; hc_vias := vias; hc_obstructions := hc_obstructions c;
     hc_stats := hc_stats c |}.
Definition with_obstructions (obs : list DSShapeRef) (c : DefContext) : DefContext :=
  {| hc_units := hc_units c; hc_design_name := hc_design_name c; hc_cell := hc_cell c; hc_active := hc_active c; hc_port_names := hc_port_names c;
     hc_block_cells := hc_block_cells c; hc_port_geoms := hc_port_geoms c; hc_vias := hc_vias c; hc_obstructions := obs;
     hc_stats := hc_stats c |}.
Definition count_stat (k : def_stat) (n : Z) (c : DefContext) : DefContext :=
  {| hc_units := hc_units c; hc_design_name := hc_design_name c; hc_cell := hc_cell c; hc_active := hc_active c; hc_port_names := hc_port_names c;
     hc_block_cells := hc_block_cells c; hc_port_geoms := hc_port_geoms c; hc_vias := hc_vias c; hc_obstructions := hc_obstructions c;
     hc_stats := bump_stat k n (hc_stats c) |}.

Definition set_shape (bbox : GEORectT) (ox oy : Z) (polygon : option (list GEOPointT)) (c : DSCell) : DSCell :=
  {| name_ := name_ c; library_name_ := library_name_ c; bbox_ := bbox; origin_x_ := ox; origin_y_ := oy; def_path_ := def_path_ c;
     flags_ := match polygon with
               | Some _ => {| is_fake_cell := is_fake_cell (flags_ c); is_std_cell := is_std_cell (flags_ c); is_lef_cell := is_lef_cell (flags_ c);
                              is_lib_cell := is_lib_cell (flags_ c); is_macro_cell := is_macro_cell (flags_ c);
                              is_block_cell := is_block_cell (flags_ c); is_polygon := true |}
               | None => flags_ c
               end;
     pins_ := pins_ c; obs_ := obs_ c; polygon_ := match polygon with Some pts => GEOPolygon pts | None => polygon_ c end |}.

Definition def_design_cbk (def_path name : bytes) (c : DefContext) : DefContext :=
  {| hc_units := hc_units c; hc_design_name := name;
     hc_cell := {| name_ := name; library_name_ := []; bbox_ := GEORect 0 0 0 0; origin_x_ := 0; origin_y_ := 0; def_path_ := def_path;
                   flags_ := block_flags; pins_ := []; obs_ := []; polygon_ := GEOPolygon [] |};
     hc_active := true; hc_port_names := hc_port_names c;
     hc_block_cells := hc_block_cells c; hc_port_geoms := hc_port_geoms c; hc_vias := hc_vias c; hc_obstructions := hc_obstructions c;
     hc_stats := hc_stats c |}.

(** [Undefined]: the least 32-bit integer has no opposite. *)
Definition def_die_area_cbk (pts : list GEOPointT) (c : DefContext) : outcome DefContext :=
  let units := hc_units c in
  let bbox := def_rect_to_dbu units (die_box pts) in
  ox ← defined (chk 32 (- x_low_ bbox)); oy ← defined (chk 32 (- y_low_ bbox));
  let polygon := if (2 <? length pts)%nat then Some ((fun p => GEOPoint (conv units (x_ p)) (conv units (y_ p))) <$> pts) else None in
  Ok (count_stat die_area_count 1 (with_cell (set_shape bbox ox oy polygon (hc_cell c)) c)).

(** [collect_rect]: the rectangle, or nothing for an unknown layer. *)
Definition collect_rect (stack : DSStack) (units : Z) (e : bytes * GEORectT) : option DSShapeRef :=
  let layer := ds_resolve_layer_id e.1 stack in
  if is_valid_id table_bits layer then Some {| layer_id_ := layer; rect_ := def_rect_to_dbu units e.2 |} else None.

Definition placement_of (p : bool * bool) : DSPinPlacementStatus :=
  if p.1 then PIN_FIXED else if p.2 then PIN_COVER else PIN_PLACED.

(** The rectangles and the placement of a pin: those of its PORTs if it has some. *)
Definition pin_rects (p : defiPin) : list (bytes * GEORectT) :=
  match dp_ports p with [] => dp_layers p | ports => ports ≫= pp_layers end.
Definition pin_placement (p : defiPin) : option (bool * bool) :=
  match dp_ports p with [] => dp_placement p | ports => head (omap pp_placement ports) end.

Definition def_pin_cbk (stack : DSStack) (p : defiPin) (c : DefContext) : DefContext :=
  if negb (hc_active c) then c else
  if decide (dp_name p ∈ hc_port_names c) then count_stat skipped_port_count 1 c else
  let pin := {| type_ := map_port_use (default (text "SIGNAL") (dp_use p));
                direction_ := map_port_direction (default (text "INPUT") (dp_direction p));
                pin_global_id_ := kInvalidId table_bits;
                pin_placement_status_ := from_option placement_of PIN_PLACED (pin_placement p); is_port := true |} in
  let geoms := omap (collect_rect stack (hc_units c)) (pin_rects p) in
  let dropped := Z.of_N (failures (collect_rect stack (hc_units c)) (pin_rects p)) in
  let local_id := (N.of_nat (length (pins_ (hc_cell c))) mod 2 ^ 32)%N in
  let port_geoms := if decide (geoms = []) then hc_port_geoms c else add_geometries 0 local_id geoms (hc_port_geoms c) in
  count_stat port_count 1 (with_ports (hc_port_names c ++ [dp_name p]) port_geoms
    (with_cell (set_pins (pins_ (hc_cell c) ++ [pin]) (hc_cell c)) (count_stat header_skipped_layer_ref_count dropped c))).

Definition prefixed_via_name (c : DefContext) (name : bytes) : bytes :=
  if decide (hc_design_name c = []) then name else hc_design_name c ++ text "::" ++ name.

(** The first via of a name stays. *)
Definition add_via_unique (cell : DSViaCell) (c : DefContext) : DefContext :=
  if decide (via_name_ cell ∈ via_name_ <$> hc_vias c) then count_stat via_conflict_count 1 c
  else with_vias (hc_vias c ++ [cell]) c.

(** A generated via: a cut around the origin, and the enclosures around the cut. *)
Definition rule_via (stack : DSStack) (units : Z) (name : bytes) (x_size y_size : Z) (bot cut top : bytes) (x_be y_be x_te y_te : Z) : option DSViaCell :=
  let bot_id := ds_resolve_layer_id bot stack in let top_id := ds_resolve_layer_id top stack in let cut_id := ds_resolve_layer_id cut stack in
  if negb (is_valid_id table_bits bot_id) || negb (is_valid_id table_bits top_id) || negb (is_valid_id table_bits cut_id) then None else
  let half_x := Z.quot x_size 2 in let half_y := Z.quot y_size 2 in
  let expand x y := def_rect_to_dbu units (GEORect (- half_x - x) (- half_y - y) (x_size - half_x + x) (y_size - half_y + y)) in
  Some {| via_name_ := name; bottom_layer_id_ := bot_id; top_layer_id_ := top_id; cut_layer_id_ := cut_id;
          cut_rects_ := [def_rect_to_dbu units (GEORect (- half_x) (- half_y) (x_size - half_x) (y_size - half_y))];
          bottom_enclosure_ := [expand x_be y_be]; top_enclosure_ := [expand x_te y_te] |}.

(** The layers of a via made of rectangles: the last cut, the least and the greatest other id. *)
Definition via_layer_step (stack : DSStack) (acc : N * N * N) (id : N) : option (N * N * N) :=
  let '(bottom, top, cut) := acc in
  l ← layer_by_id stack id;
  Some (if decide (layer_type_ l = CUT) then (bottom, top, id)
        else (if negb (is_valid_id table_bits bottom) || (id <? bottom)%N then id else bottom,
              if negb (is_valid_id table_bits top) || (top <? id)%N then id else top, cut)).

(** A rectangle goes to the cuts, the bottom or the top. *)
Definition via_rect_step (stack : DSStack) (units : Z) (v : DSViaCell) (e : N * GEORectT) : option DSViaCell :=
  l ← layer_by_id stack e.1;
  let r := def_rect_to_dbu units e.2 in
  Some {| via_name_ := via_name_ v; bottom_layer_id_ := bottom_layer_id_ v; top_layer_id_ := top_layer_id_ v; cut_layer_id_ := cut_layer_id_ v;
          cut_rects_ := if decide (layer_type_ l = CUT) then cut_rects_ v ++ [r] else cut_rects_ v;
          bottom_enclosure_ := if decide (layer_type_ l <> CUT /\ e.1 = bottom_layer_id_ v) then bottom_enclosure_ v ++ [r] else bottom_enclosure_ v;
          top_enclosure_ := if decide (layer_type_ l <> CUT /\ e.1 <> bottom_layer_id_ v) then top_enclosure_ v ++ [r] else top_enclosure_ v |}.

Definition rect_via (stack : DSStack) (units : Z) (name : bytes) (layers : list (N * GEORectT)) : option DSViaCell :=
  let none := kInvalidId table_bits in
  '(bottom, top, cut) ← ofold_option (via_layer_step stack) layers.*1 (none, none, none);
  ofold_option (via_rect_step stack units) layers
    {| via_name_ := name; bottom_layer_id_ := bottom; top_layer_id_ := top; cut_layer_id_ := cut;
       cut_rects_ := []; bottom_enclosure_ := []; top_enclosure_ := [] |}.

(** The layer of a rectangle of a via; one unknown layer drops the via. *)
Definition via_layer_id (stack : DSStack) (e : bytes * GEORectT) : option (N * GEORectT) :=
  let id := ds_resolve_layer_id e.1 stack in if is_valid_id table_bits id then Some (id, e.2) else None.

Definition def_via_cbk (stack : DSStack) (v : defiVia) (c : DefContext) : outcome DefContext :=
  let name := prefixed_via_name c (dv_name v) in
  match dv_body v with
  | ViaRule x_size y_size bot cut top x_be y_be x_te y_te =>
      match rule_via stack (hc_units c) name x_size y_size bot cut top x_be y_be x_te y_te with
      | None => Ok (count_stat header_skipped_layer_ref_count 1 c)
      | Some cell => Ok (add_via_unique cell (count_stat viarule_via_count 1 c))
      end
  | ViaLayers layers =>
      match mapM (via_layer_id stack) layers with
      | None => Ok (count_stat header_skipped_layer_ref_count 1 c)
      | Some layers => cell ← defined (rect_via stack (hc_units c) name layers); Ok (add_via_unique cell (count_stat via_count 1 c))
      end
  end.

Definition def_blockage_cbk (stack : DSStack) (b : defiBlockage) (c : DefContext) : DefContext :=
  match bl_layer b with
  | None => c
  | Some layer =>
      let c := if 0 <? bl_polygons b then count_stat skipped_polygon_obstruction_count (bl_polygons b) c else c in
      let id := ds_resolve_layer_id layer stack in
      let n := Z.of_nat (length (bl_rects b)) in
      if negb (is_valid_id table_bits id) then count_stat header_skipped_layer_ref_count n c else
      count_stat obstruction_count n
        (with_obstructions (hc_obstructions c ++ ((fun r => {| layer_id_ := id; rect_ := def_rect_to_dbu (hc_units c) r |}) <$> bl_rects b)) c)
  end.

Definition def_design_end_cbk (c : DefContext) : DefContext :=
  if negb (hc_active c) then c else
  count_stat block_count 1
    {| hc_units := hc_units c; hc_design_name := hc_design_name c; hc_cell := empty_cell; hc_active := false; hc_port_names := hc_port_names c;
       hc_block_cells := hc_block_cells c ++ [hc_cell c]; hc_port_geoms := hc_port_geoms c; hc_vias := hc_vias c;
       hc_obstructions := hc_obstructions c; hc_stats := hc_stats c |}.

Inductive header_event :=
  | HDesign (name : bytes) | HUnits (units : Z) | HDieArea (pts : list GEOPointT) | HPin (p : defiPin) | HVia (v : defiVia)
  | HBlockage (b : defiBlockage) | HDesignEnd.

Definition header_step (stack : DSStack) (def_path : bytes) (c : DefContext) (e : header_event) : outcome DefContext :=
  match e with
  | HDesign name => Ok (def_design_cbk def_path name c)
  | HUnits u => Ok (with_units u c)
  | HDieArea pts => def_die_area_cbk pts c
  | HPin p => Ok (def_pin_cbk stack p c)
  | HVia v => def_via_cbk stack v c
  | HBlockage b => Ok (def_blockage_cbk stack b c)
  | HDesignEnd => Ok (def_design_end_cbk c)
  end.

(** [ds_parse_def_header]: [ok] is the status the reader returns. *)
Definition ds_parse_def_header (stack : DSStack) (def_path : bytes) (ok : bool) (events : list header_event) : outcome DefContext :=
  c ← ofold (header_step stack def_path) events new_header;
  if ok then Ok c else FatalExit 16.

(** * The second pass *)

Section components.
Context {B : Type} `{!DSNameBackend B}.
Context (stack : DSStack) (design : DSDesign).

Record DefComponentsContext := {
  cp_units : Z; cp_design_name : bytes; cp_block : BlockState B; cp_fakes : list DSCell; cp_failed : bool;
  component_count : Z; cp_net_count : Z; cp_skipped_net_count : Z;
}.

(** The state before the first event. *)
Definition new_components : DefComponentsContext :=
  {| cp_units := 100; cp_design_name := [];
     cp_block := {| bs_block := new_block; bs_density := new_grid;
                    bs_stats := {| s_counts := {| instance_count := 0; unplaced_count := 0 |}; fake_cell_count := 0; per_cell := ∅ |};
                    bs_fake_ids := ∅ |};
     cp_fakes := []; cp_failed := false; component_count := 0; cp_net_count := 0; cp_skipped_net_count := 0 |}.

Definition with_block (b : BlockState B) (c : DefComponentsContext) : DefComponentsContext :=
  {| cp_units := cp_units c; cp_design_name := cp_design_name c; cp_block := b; cp_fakes := cp_fakes c; cp_failed := cp_failed c;
     component_count := component_count c; cp_net_count := cp_net_count c; cp_skipped_net_count := cp_skipped_net_count c |}.
Definition in_block (b : DSBlockBuildData B) (s : BlockState B) : BlockState B :=
  {| bs_block := b; bs_density := bs_density s; bs_stats := bs_stats s; bs_fake_ids := bs_fake_ids s |}.
Definition in_density (g : DSDensityGrid) (s : BlockState B) : BlockState B :=
  {| bs_block := bs_block s; bs_density := g; bs_stats := bs_stats s; bs_fake_ids := bs_fake_ids s |}.

Definition def_components_design_cbk (name : bytes) (c : DefComponentsContext) : DefComponentsContext :=
  let cell := get_id table_bits (cell_names_ design) name in
  {| cp_units := cp_units c; cp_design_name := name;
     cp_block := in_block (init_placeholder name cell (bs_block (cp_block c))) (cp_block c); cp_fakes := cp_fakes c; cp_failed := cp_failed c;
     component_count := component_count c; cp_net_count := cp_net_count c; cp_skipped_net_count := cp_skipped_net_count c |}.

Definition def_components_units_cbk (u : Z) (c : DefComponentsContext) : DefComponentsContext :=
  {| cp_units := u; cp_design_name := cp_design_name c; cp_block := cp_block c; cp_fakes := cp_fakes c; cp_failed := cp_failed c;
     component_count := component_count c; cp_net_count := cp_net_count c; cp_skipped_net_count := cp_skipped_net_count c |}.

Definition def_components_die_area_cbk (bin : Z) (pts : list GEOPointT) (c : DefComponentsContext) : outcome DefComponentsContext :=
  g ← defined (die_area_grid (cp_units c) bin pts (bs_density (cp_block c)));
  Ok (with_block (in_density g (cp_block c)) c).

(** The row of a component in units of the data base. *)
Definition component_row (units : Z) (d : defiComponent) : component :=
  {| co_name := dc_id d; co_master := dc_name d; co_placement := GEOPoint (conv units (dc_x d)) (conv units (dc_y d));
     co_orient := component_orient (dc_orient d); co_status := map_component_status (dc_status d) |}.

Definition def_components_component_cbk (d : defiComponent) (c : DefComponentsContext) : outcome DefComponentsContext :=
  '(b, fakes, failed) ← parse_component design (cp_design_name c) (cp_block c, cp_fakes c, cp_failed c) (component_row (cp_units c) d);
  Ok {| cp_units := cp_units c; cp_design_name := cp_design_name c; cp_block := b; cp_fakes := fakes; cp_failed := failed;
        component_count := component_count c + 1; cp_net_count := cp_net_count c; cp_skipped_net_count := cp_skipped_net_count c |}.

Definition def_components_net_name_cbk (name : bytes) (c : DefComponentsContext) : outcome DefComponentsContext :=
  h ← defined (net_names_ (bs_block (cp_block c)));
  if is_valid_id id_bits (get_id id_bits h name) then
    Ok {| cp_units := cp_units c; cp_design_name := cp_design_name c; cp_block := cp_block c; cp_fakes := cp_fakes c; cp_failed := cp_failed c;
          component_count := component_count c; cp_net_count := cp_net_count c; cp_skipped_net_count := cp_skipped_net_count c + 1 |}
  else
    '(b, _) ← register_net name (bs_block (cp_block c));
    Ok {| cp_units := cp_units c; cp_design_name := cp_design_name c; cp_block := in_block b (cp_block c); cp_fakes := cp_fakes c;
          cp_failed := cp_failed c; component_count := component_count c; cp_net_count := cp_net_count c + 1;
          cp_skipped_net_count := cp_skipped_net_count c |}.

Inductive components_event :=
  | CDesign (name : bytes) | CUnits (units : Z) | CDieArea (pts : list GEOPointT) | CComponent (d : defiComponent) | CNetName (name : bytes).

Definition components_step (bin : Z) (c : DefComponentsContext) (e : components_event) : outcome DefComponentsContext :=
  match e with
  | CDesign name => Ok (def_components_design_cbk name c)
  | CUnits u => Ok (def_components_units_cbk u c)
  | CDieArea pts => def_components_die_area_cbk bin pts c
  | CComponent d => def_components_component_cbk d c
  | CNetName name => def_components_net_name_cbk name c
  end.

Definition ds_parse_def_components (bin : Z) (ok : bool) (events : list components_event) : outcome DefComponentsContext :=
  c ← ofold (components_step bin) events new_components;
  if ok then Ok c else FatalExit 16.
End components.

(** * The third pass *)

(** The state of the traversal of a path: the wire being built, whether a layer has been
    seen since the last one, the via that waits for its point, and the results. *)
Record traversal := {
  tr_cur : DSNetRawWire; tr_in_wire : bool; tr_pending : DSNetRawVia; tr_has_pending : bool;
  tr_wires : list DSNetRawWire; tr_vias : list DSNetRawVia;
}.
Definition new_wire : DSNetRawWire := {| raw_wire_layer := []; width_dbu := 0; raw_points := [] |}.
Definition new_via : DSNetRawVia :=
  {| raw_via_name := []; raw_x := 0; raw_y := 0; num_x := 1; num_y := 1; step_x := 0; step_y := 0 |}.

Definition flush_wire (t : traversal) : traversal :=
  {| tr_cur := new_wire; tr_in_wire := false; tr_pending := tr_pending t; tr_has_pending := tr_has_pending t;
     tr_wires := if tr_in_wire t && negb (bool_decide (raw_points (tr_cur t) = [])) then tr_wires t ++ [tr_cur t] else tr_wires t;
     tr_vias := tr_vias t |}.

Definition place_at (units x y : Z) (v : DSNetRawVia) : DSNetRawVia :=
  {| raw_via_name := raw_via_name v; raw_x := conv units x; raw_y := conv units y; num_x := num_x v; num_y := num_y v;
     step_x := step_x v; step_y := step_y v |}.

(** A point extends the wire and places the via that waits. *)
Definition path_point (units x y : Z) (t : traversal) : traversal :=
  let cur := {| raw_wire_layer := raw_wire_layer (tr_cur t); width_dbu := width_dbu (tr_cur t);
                raw_points := raw_points (tr_cur t) ++ [GEOPoint (conv units x) (conv units y)] |} in
  if tr_has_pending t then
    {| tr_cur := cur; tr_in_wire := tr_in_wire t; tr_pending := new_via; tr_has_pending := false; tr_wires := tr_wires t;
       tr_vias := tr_vias t ++ [place_at units x y (tr_pending t)] |}
  else
    {| tr_cur := cur; tr_in_wire := tr_in_wire t; tr_pending := tr_pending t; tr_has_pending := false; tr_wires := tr_wires t; tr_vias := tr_vias t |}.

Definition path_step (units : Z) (t : traversal) (i : path_item) : traversal :=
  match i with
  | PathLayer name =>
      let t := flush_wire t in
      {| tr_cur := {| raw_wire_layer := name; width_dbu := width_dbu (tr_cur t); raw_points := raw_points (tr_cur t) |};
         tr_in_wire := true; tr_pending := tr_pending t; tr_has_pending := tr_has_pending t; tr_wires := tr_wires t; tr_vias := tr_vias t |}
  | PathWidth w =>
      {| tr_cur := {| raw_wire_layer := raw_wire_layer (tr_cur t); width_dbu := conv units w; raw_points := raw_points (tr_cur t) |};
         tr_in_wire := tr_in_wire t; tr_pending := tr_pending t; tr_has_pending := tr_has_pending t; tr_wires := tr_wires t; tr_vias := tr_vias t |}
  | PathPoint x y => path_point units x y t
  | PathFlushPoint x y _ => path_point units x y t
  | PathVia name =>
      {| tr_cur := tr_cur t; tr_in_wire := tr_in_wire t;
         tr_pending := {| raw_via_name := name; raw_x := 0; raw_y := 0; num_x := 1; num_y := 1; step_x := 0; step_y := 0 |};
         tr_has_pending := true; tr_wires := tr_wires t; tr_vias := tr_vias t |}
  | PathViaData nx ny sx sy =>
      {| tr_cur := tr_cur t; tr_in_wire := tr_in_wire t;
         tr_pending := {| raw_via_name := raw_via_name (tr_pending t); raw_x := raw_x (tr_pending t); raw_y := raw_y (tr_pending t);
                          num_x := nx; num_y := ny; step_x := conv units sx; step_y := conv units sy |};
         tr_has_pending := tr_has_pending t; tr_wires := tr_wires t; tr_vias := tr_vias t |}
  | PathOther => t
  end.

Definition start_path (wires : list DSNetRawWire) (vias : list DSNetRawVia) : traversal :=
  {| tr_cur := new_wire; tr_in_wire := false; tr_pending := new_via; tr_has_pending := false; tr_wires := wires; tr_vias := vias |}.

Definition traverse_nets_path (units : Z) (out : list DSNetRawWire * list DSNetRawVia) (path : list path_item)
  : list DSNetRawWire * list DSNetRawVia :=
  let t := flush_wire (foldl (path_step units) (start_path out.1 out.2) path) in (tr_wires t, tr_vias t).

(** A via statement of a net is placed at its first point. *)
Definition net_via_raw (units : Z) (v : bytes * list GEOPointT) : DSNetRawVia :=
  match v.2 with
  | p :: _ => {| raw_via_name := v.1; raw_x := conv units (x_ p); raw_y := conv units (y_ p); num_x := 1; num_y := 1; step_x := 0; step_y := 0 |}
  | [] => {| raw_via_name := v.1; raw_x := 0; raw_y := 0; num_x := 1; num_y := 1; step_x := 0; step_y := 0 |}
  end.

Section nets.
Context {B : Type} `{!DSNameBackend B}.
Context (stack : DSStack) (design : DSDesign) (block : DSBlockBuildData B).

(** The context of a net.  Its pointer to the net data is the one all nets share, which
    [parse_net] puts in when the chain runs. *)
Definition net_context (units : Z) (design_name : bytes) (is_special : bool) (net : defiNet) : DSNetContext B :=
  let use := (ds_parse_net_use (default (text "SIGNAL") (dn_use net))).1 in
  let shapes := foldl (traverse_nets_path units) ([], []) (concat (dn_wires net)) in
  {| nx_net_name := dn_name net; nx_is_special := is_special;
     nx_is_pg := is_special || bool_decide (use = POWER) || bool_decide (use = GROUND); nx_use := use;
     nx_connections := (fun c => {| raw_instance := c.1; raw_pin := c.2 |}) <$> dn_connections net;
     nx_wires := shapes.1;
     nx_rects := (fun r => {| raw_rect_layer := r.1; raw_rect := def_rect_to_dbu units r.2 |}) <$> dn_rects net;
     nx_vias := shapes.2 ++ (net_via_raw units <$> dn_vias net);
     nx_stack := Some stack; nx_design := Some design; nx_block_data := Some block; nx_net_data := None; nx_design_name := design_name;
     nx_local_net_id := 0; nx_error := false |}.

Record DefNetsContext := {
  nc_units : Z; nc_design_name : bytes; nc_state : NetState * bool; nc_batch : list (DSNetContext B);
  batch_count : Z; unknown_use_count : Z;
}.
Definition new_nets_context : DefNetsContext :=
  {| nc_units := 100; nc_design_name := []; nc_state := (fresh_nets new_grid, false); nc_batch := []; batch_count := 0; unknown_use_count := 0 |}.

Definition flush_nets_batch (c : DefNetsContext) : outcome DefNetsContext :=
  match nc_batch c with
  | [] => Ok c
  | batch =>
      s ← ofold parse_net batch (nc_state c);
      Ok {| nc_units := nc_units c; nc_design_name := nc_design_name c; nc_state := s; nc_batch := [];
            batch_count := batch_count c + 1; unknown_use_count := unknown_use_count c |}
  end.

Definition extract_nets_net (net_batch_size : Z) (is_special : bool) (net : defiNet) (c : DefNetsContext) : outcome DefNetsContext :=
  let known := (ds_parse_net_use (default (text "SIGNAL") (dn_use net))).2 in
  let batch := nc_batch c ++ [net_context (nc_units c) (nc_design_name c) is_special net] in
  let c := {| nc_units := nc_units c; nc_design_name := nc_design_name c; nc_state := nc_state c; nc_batch := batch;
              batch_count := batch_count c; unknown_use_count := if known then unknown_use_count c else unknown_use_count c + 1 |} in
  if net_batch_size <=? Z.of_nat (length batch) then flush_nets_batch c else Ok c.

Definition def_nets_design_cbk (name : bytes) (c : DefNetsContext) : DefNetsContext :=
  {| nc_units := nc_units c; nc_design_name := name; nc_state := nc_state c; nc_batch := nc_batch c;
     batch_count := batch_count c; unknown_use_count := unknown_use_count c |}.
Definition def_nets_units_cbk (u : Z) (c : DefNetsContext) : DefNetsContext :=
  {| nc_units := u; nc_design_name := nc_design_name c; nc_state := nc_state c; nc_batch := nc_batch c;
     batch_count := batch_count c; unknown_use_count := unknown_use_count c |}.
Definition def_nets_die_area_cbk (bin : Z) (pts : list GEOPointT) (c : DefNetsContext) : outcome DefNetsContext :=
  g ← defined (die_area_grid (nc_units c) bin pts (ns_density (nc_state c).1));
  Ok {| nc_units := nc_units c; nc_design_name := nc_design_name c; nc_state := (set_density g (nc_state c).1, (nc_state c).2);
        nc_batch := nc_batch c; batch_count := batch_count c; unknown_use_count := unknown_use_count c |}.

Inductive nets_event :=
  | NDesign (name : bytes) | NUnits (units : Z) | NDieArea (pts : list GEOPointT) | NNet (is_special : bool) (net : defiNet).

Definition nets_step (bin net_batch_size : Z) (c : DefNetsContext) (e : nets_event) : outcome DefNetsContext :=
  match e with
  | NDesign name => Ok (def_nets_design_cbk name c)
  | NUnits u => Ok (def_nets_units_cbk u c)
  | NDieArea pts => def_nets_die_area_cbk bin pts c
  | NNet is_special net => extract_nets_net net_batch_size is_special net c
  end.

Definition ds_parse_def_nets (bin net_batch_size : Z) (ok : bool) (events : list nets_event) : outcome DefNetsContext :=
  let size := if 0 <? net_batch_size then net_batch_size else 1 in
  c ← ofold (nets_step bin size) events new_nets_context;
  if ok then flush_nets_batch c else FatalExit 16.
End nets.
End adapter.
Arguments DefComponentsContext B : clear implicits.
Arguments DefNetsContext B : clear implicits.

(** * Paths *)

Section paths.
Context (unspecified units : Z).

Definition is_layer (i : path_item) : bool := match i with PathLayer _ => true | _ => false end.
Definition item_point (i : path_item) : option GEOPointT :=
  match i with
  | PathPoint x y | PathFlushPoint x y _ => Some (GEOPoint (conv unspecified units x) (conv unspecified units y))
  | _ => None
  end.
Definition item_width (i : path_item) : option Z := match i with PathWidth w => Some (conv unspecified units w) | _ => None end.

(** The items up to the next layer. *)
Fixpoint segment (items : list path_item) : list path_item :=
  match items with
  | [] => []
  | i :: items => if is_layer i then [] else i :: segment items
  end.

(** The wire of a layer and the items that follow it. *)
Definition segment_wire (name : bytes) (items : list path_item) : list DSNetRawWire :=
  let points := omap item_point (segment items) in
  if decide (points = []) then [] else
  [{| raw_wire_layer := name; width_dbu := default 0 (last (omap item_width (segment items))); raw_points := points |}].

(** One wire for each layer with points. *)
Fixpoint path_wires (items : list path_item) : list DSNetRawWire :=
  match items with
  | [] => []
  | PathLayer name :: items => segment_wire name items ++ path_wires items
  | _ :: items => path_wires items
  end.

(** A via goes to the first point after it and before the next via, with the array data
    in between. *)
Fixpoint place (v : DSNetRawVia) (items : list path_item) : option DSNetRawVia :=
  match items with
  | [] | PathVia _ :: _ => None
  | PathPoint x y :: _ | PathFlushPoint x y _ :: _ => Some (place_at unspecified units x y v)
  | PathViaData nx ny sx sy :: items =>
      place {| raw_via_name := raw_via_name v; raw_x := raw_x v; raw_y := raw_y v; num_x := nx; num_y := ny;
               step_x := conv unspecified units sx; step_y := conv unspecified units sy |} items
  | _ :: items => place v items
  end.
Definition named_via (name : bytes) : DSNetRawVia :=
  {| raw_via_name := name; raw_x := 0; raw_y := 0; num_x := 1; num_y := 1; step_x := 0; step_y := 0 |}.
Fixpoint path_vias (items : list path_item) : list DSNetRawVia :=
  match items with
  | [] => []
  | PathVia name :: items => option_list (place (named_via name) items) ++ path_vias items
  | _ :: items => path_vias items
  end.

(** What the rest of the path adds to a traversal: the wire and the via it has begun. *)
Definition rest_wires (t : traversal) (items : list path_item) : list DSNetRawWire :=
  let points := raw_points (tr_cur t) ++ omap item_point (segment items) in
  (if tr_in_wire t then
     if decide (points = []) then [] else
     [{| raw_wire_layer := raw_wire_layer (tr_cur t);
         width_dbu := default (width_dbu (tr_cur t)) (last (omap item_width (segment items))); raw_points := points |}]
   else []) ++ path_wires items.
Definition rest_vias (t : traversal) (items : list path_item) : list DSNetRawVia :=
  (if tr_has_pending t then option_list (place (tr_pending t) items) else []) ++ path_vias items.

Lemma last_cons_default {A} (x d : A) l : default d (last (x :: l)) = default x (last l).
Proof. rewrite last_cons. by destruct (last l). Qed.

Lemma traverse_rest items t :
  let t' := flush_wire (foldl (path_step unspecified units) t items) in
  tr_wires t' = tr_wires t ++ rest_wires t items /\ tr_vias t' = tr_vias t ++ rest_vias t items.
Proof.
  revert t. induction items as [|i items IH]; intros t.
  - cbn. unfold rest_wires, rest_vias. cbn. rewrite !app_nil_r. split; [|by destruct (tr_has_pending t); rewrite app_nil_r].
    destruct (tr_in_wire t); cbn; [|by rewrite app_nil_r]. destruct (tr_cur t) as [n w ps]. cbn.
    destruct (decide (ps = [])) as [->|H]; [by rewrite app_nil_r|by rewrite bool_decide_eq_false_2].
  - cbv zeta in IH |- *. cbn [foldl]. destruct (IH (path_step unspecified units t i)) as [-> ->]. clear IH.
    unfold rest_wires, rest_vias. destruct i as [n|w|x y|x y e|n|nx ny sx sy|]; cbn [path_step path_wires path_vias segment is_layer omap list_omap item_point item_width place].
    + cbn. split; [|done]. rewrite app_nil_r. unfold segment_wire. destruct (tr_in_wire t); cbn; [|done].
      destruct (decide (raw_points (tr_cur t) = [])) as [H|H]; [by rewrite bool_decide_eq_true_2|]. rewrite bool_decide_eq_false_2 by done. cbn.
      rewrite <- app_assoc. by destruct (tr_cur t).
    + cbn. split; [|done]. by rewrite last_cons_default.
    + unfold path_point. destruct (tr_has_pending t); cbn; rewrite <- !app_assoc; done.
    + unfold path_point. destruct (tr_has_pending t); cbn; rewrite <- !app_assoc; done.
    + cbn. split; [done|]. by destruct (tr_has_pending t).
    + cbn. done.
    + done.
Qed.
End paths.

(** a path becomes its wires and its vias.  The traversal appends one wire for every
    layer item that is followed by points before the next layer item, with these points
    and the last width among them, and one via for every via item that is followed by a
    point before the next via item, at that point, with the array data in between. *)
Theorem path_traversed unspecified units out path :
  traverse_nets_path unspecified units out path = (out.1 ++ path_wires unspecified units path, out.2 ++ path_vias unspecified units path).
Proof.
  unfold traverse_nets_path. cbv zeta. destruct (traverse_rest unspecified units path (start_path out.1 out.2)) as [-> ->]. done.
Qed.

(** So a via at the end of a path is lost. *)
Lemma final_via_lost unspecified units out path name :
  traverse_nets_path unspecified units out (path ++ [PathVia name]) = traverse_nets_path unspecified units out path.
Proof.
  unfold traverse_nets_path. rewrite foldl_app. cbn [foldl path_step]. unfold flush_wire. done.
Qed.

(** The path of the special net of complete.5.8.def
    [METAL1 120 ( 2400 282400 ) ( 240 282400 ) M1_M2]. *)
Example stripe_without_via :
  traverse_nets_path 0 1000 ([], []) [PathLayer M1; PathWidth 120; PathPoint 2400 282400; PathPoint 240 282400; PathVia M2] =
  ([{| raw_wire_layer := M1; width_dbu := 120; raw_points := [GEOPoint 2400 282400; GEOPoint 240 282400] |}], []).
Proof. vm_compute. reflexivity. Qed.

(** * Batches *)

Lemma ofold_app {A St} (f : St -> A -> outcome St) l l' s : ofold f (l ++ l') s = (s' ← ofold f l s; ofold f l' s').
Proof. revert s. induction l as [|a l IH]; intros s; [done|]. cbn. destruct (f s a); cbn; [apply IH|done..]. Qed.

Section batches.
Context {B : Type} `{!DSNameBackend B}.
Context (unspecified : Z) (stack : DSStack) (design : DSDesign) (block : DSBlockBuildData B).

Definition batches (size n : Z) : Z := (n + size - 1) / size.

Definition unknown_uses (nets : list (bool * defiNet)) : Z :=
  Z.of_nat (length (filter (fun n => (ds_parse_net_use (default (text "SIGNAL") (dn_use n.2))).2 = false) nets)).

Definition context_of (c : DefNetsContext B) (n : bool * defiNet) : DSNetContext B :=
  net_context unspecified stack design block (nc_units c) (nc_design_name c) n.1 n.2.

Lemma batches_next size n m : 0 < size -> 0 <= n -> n + 1 = size -> batches size (n + 1 + m) = 1 + batches size m.
Proof. intros Hs Hn E. unfold batches. rewrite E. replace (size + m + size - 1) with (m + size - 1 + 1 * size) by lia. rewrite Z.div_add by lia. lia. Qed.

Lemma flush_some (c : DefNetsContext B) : nc_batch c <> [] ->
  flush_nets_batch c = (s ← ofold parse_net (nc_batch c) (nc_state c);
    Ok {| nc_units := nc_units c; nc_design_name := nc_design_name c; nc_state := s; nc_batch := [];
          batch_count := batch_count c + 1; unknown_use_count := unknown_use_count c |}).
Proof. intros H. unfold flush_nets_batch. by destruct (nc_batch c). Qed.

(** The batch [c] holds comes first. *)
Lemma nets_from size bin nets c :
  0 < size -> Z.of_nat (length (nc_batch c)) < size ->
  (c' ← ofold (nets_step unspecified stack design block bin size) ((fun n => NNet n.1 n.2) <$> nets) c; flush_nets_batch c') =
  (s ← ofold parse_net (nc_batch c ++ (context_of c <$> nets)) (nc_state c);
   Ok {| nc_units := nc_units c; nc_design_name := nc_design_name c; nc_state := s; nc_batch := [];
         batch_count := batch_count c + batches size (Z.of_nat (length (nc_batch c)) + Z.of_nat (length nets));
         unknown_use_count := unknown_use_count c + unknown_uses nets |}).
Proof.
  intros Hs. revert c. induction nets as [|n nets IH]; intros c Hc.
  - cbn [fmap list_fmap ofold mbind outcome_bind]. rewrite app_nil_r. unfold flush_nets_batch. destruct c as [u d s b k w].
    cbn [nc_batch nc_state nc_units nc_design_name batch_count unknown_use_count] in *.
    destruct b as [|x b].
    + cbn [ofold mbind outcome_bind]. unfold batches. rewrite Z.div_small by (cbn; lia). cbn. by rewrite !Z.add_0_r.
    + destruct (ofold parse_net (x :: b) s) as [s'| | |]; cbn [mbind outcome_bind]; [|done..].
      unfold unknown_uses. cbn [filter list_filter length]. f_equal. f_equal; [|lia]. unfold batches. symmetry. cbn [length] in Hc |- *. f_equal.
      symmetry. apply Z.div_unique with (r := Z.of_nat (S (length b)) - 1); lia.
  - rewrite fmap_cons. cbn [ofold nets_step]. unfold extract_nets_net. cbv zeta. rewrite length_app. cbn [length].
    set (x := net_context _ _ _ _ _ _ _ _). 
    set (w := if (ds_parse_net_use (default (text "SIGNAL") (dn_use n.2))).2 then unknown_use_count c else unknown_use_count c + 1).
    assert (unknown_use_count c + unknown_uses (n :: nets) = w + unknown_uses nets) as Hw.
    { unfold w, unknown_uses. rewrite filter_cons. destruct (ds_parse_net_use _).2; [rewrite decide_False by done|rewrite decide_True by done; cbn [length]]; lia. }
    rewrite Hw. clearbody w. rewrite fmap_cons. change (context_of c n) with x. destruct (Z.leb_spec size (Z.of_nat (length (nc_batch c) + 1))) as [Hle|Hlt].
    + rewrite flush_some by (cbn; by destruct (nc_batch c)). cbn [nc_batch nc_state nc_units nc_design_name batch_count unknown_use_count].
      replace (nc_batch c ++ x :: (context_of c <$> nets)) with ((nc_batch c ++ [x]) ++ (context_of c <$> nets)) by (by rewrite <- app_assoc).
      rewrite (ofold_app parse_net (nc_batch c ++ [x])). clearbody x.
      destruct (ofold parse_net (nc_batch c ++ [x]) (nc_state c)) as [s| | |]; cbn [mbind outcome_bind]; [|done..].
      rewrite IH by (cbn; lia). cbn [nc_batch nc_state nc_units nc_design_name batch_count unknown_use_count app].
      replace (Z.of_nat (length (nc_batch c)) + Z.of_nat (S (length nets))) with (Z.of_nat (length (nc_batch c)) + 1 + Z.of_nat (length nets)) by (cbn; lia).
      rewrite batches_next by lia. cbn [length]. rewrite Z.add_0_l, Z.add_assoc. done.
    + cbn [mbind outcome_bind]. rewrite IH by (cbn; rewrite length_app; cbn; lia). cbn [nc_batch nc_state nc_units nc_design_name batch_count unknown_use_count].
      rewrite <- app_assoc. cbn [app]. unfold context_of at 1. cbn [nc_units nc_design_name].
      replace (Z.of_nat (length (nc_batch c ++ [x])) + Z.of_nat (length nets)) with (Z.of_nat (length (nc_batch c)) + Z.of_nat (S (length nets))); [done|].
      rewrite length_app. cbn. lia.
Qed.
End batches.

(** * The second pass *)

Section second.
Context {B : Type} `{!DSNameBackend B}.
Context (unspecified : Z) (design : DSDesign).

(** The chain of a component does not touch the nets. *)
Definition nets_part (s : BlockState B) : option (DSNameHasherT B) * N := (net_names_ (bs_block s), next_net_id_ (bs_block s)).

Lemma handler_nets (c c' : DSInstanceContext B) h :
  h ∈ (ds_make_components_pipeline : list (@DSInstanceHandler B)) -> h c = Ok c' -> nets_part <$> cx_block_data c' = nets_part <$> cx_block_data c.
Proof.
  unfold ds_make_components_pipeline. rewrite !elem_of_cons, elem_of_nil. intros [->|[->|[->|[->|[]]]]].
  - unfold DSCellResolveNode. destruct (cx_design c) as [d|]; [|by intros [= <-]]. destruct (cx_block_data c) as [s|] eqn:E; [|by intros [= <-]; cbn; rewrite E].
    cbv zeta. destruct (is_valid_id _ _); [intros (cell & _ & [= <-])%outcome_bind_Ok; cbn; by rewrite E|].
    destruct (bs_fake_ids s !! _); [intros [= <-]; cbn; by rewrite E|]. destruct (cx_fake_cells c); intros [= <-]; cbn; by rewrite ?E.
  - unfold DSInstanceBuildNode. destruct (cx_block_data c) as [s|] eqn:E; [|by intros [= <-]; cbn; rewrite E].
    destruct (negb _); [intros [= <-]; cbn; by rewrite E|]. intros (t & _ & H)%outcome_bind_Ok. apply outcome_bind_Ok in H as ([b id] & Ha & [= <-]).
    cbn. unfold nets_part. cbn. unfold add_instance in Ha. apply outcome_bind_Ok in Ha as (h1 & _ & Ha).
    apply outcome_bind_Ok in Ha as (h2 & _ & [= <- <-]). done.
  - unfold DSDensityNode. destruct (cx_block_data c) as [s|] eqn:E; [|by intros [= <-]; cbn; rewrite E].
    destruct (decide _); [intros [= <-]; by rewrite E|]. destruct (is_block_id _ _); [intros [= <-]; by rewrite E|].
    destruct (find_instance _ _); [|intros [= <-]; cbn; by rewrite E]. intros (f & _ & H)%outcome_bind_Ok. by apply outcome_bind_Ok in H as (g & _ & [= <-]).
  - unfold DSStatsNode. destruct (cx_block_data c) as [s|] eqn:E; [|by intros [= <-]; cbn; rewrite E]. by intros [= <-].
Qed.

Lemma run_nets hs (c c' : DSInstanceContext B) : (forall h, h ∈ hs -> h ∈ (ds_make_components_pipeline : list (@DSInstanceHandler B))) ->
  run hs c = Ok c' -> nets_part <$> cx_block_data c' = nets_part <$> cx_block_data c.
Proof.
  revert c. induction hs as [|h hs IH]; intros c Hin; cbn [run]; [by intros [= ->]|]. destruct (cx_error c); [by intros [= ->]|].
  intros (c1 & H1 & H)%outcome_bind_Ok. trans (nets_part <$> cx_block_data c1).
  - apply IH; [|done]. intros h' Hh'. apply Hin. by right.
  - eapply handler_nets; [|done]. apply Hin. by left.
Qed.

Lemma component_nets name rows (st st' : BlockState B * list DSCell * bool) :
  ofold (parse_component design name) rows st = Ok st' -> nets_part st'.1.1 = nets_part st.1.1.
Proof.
  revert st. induction rows as [|r rows IH]; intros st; cbn [ofold]; [by intros [= ->]|]. intros (st1 & H1 & H)%outcome_bind_Ok.
  rewrite (IH _ H). unfold parse_component in H1. apply outcome_bind_Ok in H1 as (c & Hrun & [= <-]). apply run_nets in Hrun; [|done].
  cbn in Hrun |- *. destruct (cx_block_data c); [|done]. cbn in Hrun |- *. unfold nets_part in *. congruence.
Qed.

(** The components of the file are those of [InstancePipeline]. *)
Lemma components_from bin ds (c : DefComponentsContext B) :
  ofold (components_step unspecified design bin) (CComponent <$> ds) c =
  ('(b, fakes, failed) ← ofold (parse_component design (cp_design_name c)) (component_row unspecified (cp_units c) <$> ds) (cp_block c, cp_fakes c, cp_failed c);
   Ok {| cp_units := cp_units c; cp_design_name := cp_design_name c; cp_block := b; cp_fakes := fakes; cp_failed := failed;
         component_count := component_count c + Z.of_nat (length ds); cp_net_count := cp_net_count c; cp_skipped_net_count := cp_skipped_net_count c |}).
Proof.
  revert c. induction ds as [|d ds IH]; intros c; [destruct c; cbn; by rewrite Z.add_0_r|]. rewrite !fmap_cons. cbn [ofold components_step].
  unfold def_components_component_cbk. destruct (parse_component _ _ _ _) as [[[b fakes] failed]| | |]; cbn [mbind outcome_bind]; [|done..].
  rewrite IH. cbn [cp_units cp_design_name cp_block cp_fakes cp_failed component_count cp_net_count cp_skipped_net_count].
  destruct (ofold _ _ _) as [[[b' fakes'] failed']| | |]; cbn [mbind outcome_bind]; [|done..]. do 2 f_equal. cbn [length]. lia.
Qed.

(** ** Net names *)

Lemma register_net_spec (b : DSBlockBuildData B) h name :
  block_ok b -> net_names_ b = Some h -> proper_name name -> (next_net_id_ b + 1 < 2 ^ id_bits)%N -> is_valid_id id_bits (get_id id_bits h name) = false ->
  exists b' h', register_net name b = Ok (b', next_net_id_ b) /\ block_ok b' /\ next_net_id_ b' = (next_net_id_ b + 1)%N /\
    instances_ b' = instances_ b /\ instance_names_ b' = instance_names_ b /\ block_name_ b' = block_name_ b /\
    net_names_ b' = Some h' /\ backend_map (backend_ h') = <[name := next_net_id_ b]> (backend_map (backend_ h)).
Proof.
  intros Hb Hh Hname Hroom Hv. destruct (register_net_ok b name Hb) as (b' & id & E & Hb'); [by split|].
  unfold register_net in E |- *. rewrite (ensure_names_ok b Hb) in E |- *. rewrite Hh in E |- *. cbn [default from_option Datatypes.id] in E |- *.
  cbv zeta in E |- *. rewrite Hv in E |- *.
  destruct (assign id_bits name (next_net_id_ b) h) as [h'| | |] eqn:Ha; cbn [mbind outcome_bind] in E |- *; try discriminate E. injection E as <- <-.
  eexists _, h'. split; [done|]. split; [done|]. repeat (split; [done|]).
  unfold assign in Ha. destruct (is_lcp_form h); [done|]. destruct (_ <? _)%N; [|done]. injection Ha as <-. cbn. apply backend_insert_map.
Qed.

(** The state of the pass between two net names. *)
Record named (seen : list bytes) (c0 c : DefComponentsContext B) : Prop := {
  na_block : block_ok (bs_block (cp_block c));
  na_next : next_net_id_ (bs_block (cp_block c)) = Z.to_N (cp_net_count c + 1);
  na_counts : cp_net_count c + cp_skipped_net_count c = Z.of_nat (length seen) /\ 0 <= cp_net_count c /\ 0 <= cp_skipped_net_count c;
  na_known n : n ∈ seen <-> local_of (bs_block (cp_block c)) n <> 0%N;
  na_same : instances_ (bs_block (cp_block c)) = instances_ (bs_block (cp_block c0)) /\
    instance_names_ (bs_block (cp_block c)) = instance_names_ (bs_block (cp_block c0)) /\
    block_name_ (bs_block (cp_block c)) = block_name_ (bs_block (cp_block c0)) /\
    bs_density (cp_block c) = bs_density (cp_block c0) /\ bs_stats (cp_block c) = bs_stats (cp_block c0) /\
    bs_fake_ids (cp_block c) = bs_fake_ids (cp_block c0) /\ cp_fakes c = cp_fakes c0 /\ cp_failed c = cp_failed c0 /\ component_count c = component_count c0;
}.

Lemma local_of_known (b : DSBlockBuildData B) h n :
  block_ok b -> net_names_ b = Some h -> local_of b n <> 0%N <-> is_valid_id id_bits (get_id id_bits h n) = true.
Proof.
  intros Hb Hh. split.
  - unfold local_of. rewrite Hh. by destruct (is_valid_id _ _).
  - intros Hv. by destruct (local_positive b n h Hb Hh Hv) as [-> ?].
Qed.

Lemma known_iff (b : DSBlockBuildData B) h n : block_ok b -> net_names_ b = Some h -> local_of b n <> 0%N <-> is_Some (backend_map (backend_ h) !! n).
Proof.
  intros Hb Hh. rewrite (local_of_known b h n Hb Hh). destruct (bo_nets _ Hb) as (h' & Hh' & Hn). rewrite Hh in Hh'. injection Hh' as <-.
  apply found_iff, Hn.
Qed.

Lemma name_step seen c0 c name : named seen c0 c -> proper_name name -> Z.of_nat (length seen) < 2 ^ 62 ->
  exists c', def_components_net_name_cbk name c = Ok c' /\ named (seen ++ [name]) c0 c'.
Proof.
  intros [Hb Hnext (Hc & Hp & Hq) Hk Hs] Hname Hroom. destruct (bo_nets _ Hb) as (h & Hh & Hnu). unfold def_components_net_name_cbk.
  rewrite Hh. cbn [defined mbind outcome_bind]. destruct (is_valid_id _ _) eqn:Hv.
  - eexists. split; [done|]. split; cbn; [done..| | |done]; [rewrite length_app; cbn; lia|].
    intros n. rewrite elem_of_app, list_elem_of_singleton, Hk. split; [|by left]. intros [?| ->]; [done|]. by apply (local_of_known _ h).
  - destruct (register_net_spec _ h name Hb Hh Hname) as (b' & h' & -> & Hb' & Hn' & Hi & Hin & Hbn & Hh' & Hm); [rewrite Hnext; unfold id_bits; lia|done|].
    cbn [mbind outcome_bind]. eexists. split; [done|]. split; cbn; [done| | | |].
    + rewrite Hn', Hnext. lia.
    + rewrite length_app. cbn. lia.
    + intros n. rewrite elem_of_app, list_elem_of_singleton, Hk, (known_iff _ h n Hb Hh), (known_iff b' h' n Hb' Hh'), Hm, lookup_insert_is_Some'. naive_solver.
    + destruct Hs as (S1 & S2 & S3 & S4). rewrite Hi, Hin, Hbn. done.
Qed.

Lemma names_from bin names seen c0 c : named seen c0 c -> Forall proper_name names -> Z.of_nat (length seen + length names) < 2 ^ 62 ->
  exists c', ofold (components_step unspecified design bin) (CNetName <$> names) c = Ok c' /\ named (seen ++ names) c0 c'.
Proof.
  revert seen c. induction names as [|n names IH]; intros seen c Hn Hp Hr; [exists c; by rewrite app_nil_r|].
  apply Forall_cons in Hp as [Hp1 Hp]. destruct (name_step seen c0 c n Hn Hp1) as (c1 & E & Hn1); [cbn in Hr; lia|].
  destruct (IH _ _ Hn1 Hp) as (c' & E' & Hn'); [rewrite length_app; cbn in *; lia|]. exists c'. rewrite fmap_cons. cbn [ofold components_step]. rewrite E.
  cbn [mbind outcome_bind]. split; [done|]. by rewrite (cons_middle n seen), app_assoc.
Qed.
End second.

(** * Both passes *)

Section passes.
Context {B : Type} `{!DSNameBackend B}.
Context (unspecified : Z) (stack : DSStack) (design : DSDesign).

(** The events of one file in the second and in the third pass: DESIGN, UNITS and DIEAREA
    come first, components before nets. *)
Definition components_events (name : bytes) (units : Z) (pts : list GEOPointT) (ds : list defiComponent) (nets : list (bool * defiNet))
  : list components_event :=
  CDesign name :: CUnits units :: CDieArea pts :: (CComponent <$> ds) ++ (CNetName <$> (dn_name ∘ snd <$> nets)).
Definition nets_events (name : bytes) (units : Z) (pts : list GEOPointT) (nets : list (bool * defiNet)) : list nets_event :=
  NDesign name :: NUnits units :: NDieArea pts :: ((fun n => NNet n.1 n.2) <$> nets).

Lemma die_area_total units bin pts :
  fits 28 (conv unspecified units (x_low_ (die_box pts))) -> fits 28 (conv unspecified units (y_low_ (die_box pts))) ->
  exists g, die_area_grid unspecified units bin pts new_grid = Some g /\ fits 28 (origin_x g) /\ fits 28 (origin_y g).
Proof.
  intros Hx Hy. unfold die_area_grid. destruct (Z.leb_spec bin 0) as [Hb|Hb].
  - exists new_grid. split; [done|]. unfold fits. cbn. lia.
  - unfold configure. rewrite decide_True by lia. eexists. done.
Qed.

Lemma fresh_state_nets name cell g : nets_part (fresh_state (B := B) name cell g) = (Some new_hasher, 1%N).
Proof. unfold nets_part, fresh_state, init_placeholder. cbn [bs_block]. by rewrite decide_True. Qed.

Lemma second_pass name units bin pts ds nets : 
  let rows := component_row unspecified units <$> ds in
  rows_ok design rows -> Forall proper_name (dn_name ∘ snd <$> nets) -> Z.of_nat (length nets) < 2 ^ 62 ->
  fits 28 (conv unspecified units (x_low_ (die_box pts))) -> fits 28 (conv unspecified units (y_low_ (die_box pts))) ->
  exists (c0 c : DefComponentsContext B), ds_parse_def_components unspecified design bin true (components_events name units pts ds nets) = Ok c /\
  parsed design name rows (cp_block c0) (cp_fakes c0) /\ cp_failed c0 = false /\ component_count c0 = Z.of_nat (length ds) /\
  named (dn_name ∘ snd <$> nets) c0 c.
Proof.
  intros rows Hro Hnames Hlen Hx Hy. destruct (die_area_total units bin pts Hx Hy) as (g & Hg & Gx & Gy).
  destruct (rows_parsed (B := B) design name (get_id table_bits (cell_names_ design) name) g rows Hro Gx Gy) as (s & fakes & Hparse & Hpa).
  unfold ds_parse_def_components, components_events. cbn [ofold components_step mbind outcome_bind]. unfold def_components_die_area_cbk.
  cbn [def_components_units_cbk def_components_design_cbk new_components cp_units cp_block cp_fakes bs_density bs_block in_block]. rewrite Hg.
  cbn [defined mbind outcome_bind]. rewrite ofold_app, components_from.
  cbn [with_block cp_design_name cp_units cp_block cp_fakes cp_failed in_density bs_block bs_stats bs_fake_ids].
  unfold parse_components in Hparse. pose proof (component_nets design name rows _ _ Hparse) as Hnets.
  cbn [fst snd] in Hnets. rewrite fresh_state_nets in Hnets.
  unfold fresh_state in Hparse. unfold in_block, in_density. cbn [bs_block bs_density bs_stats bs_fake_ids].
  cbn [def_components_units_cbk def_components_design_cbk new_components cp_units cp_design_name cp_fakes cp_failed component_count cp_net_count cp_skipped_net_count]. fold rows. rewrite Hparse. cbn [mbind outcome_bind].
  match goal with |- exists c0 c, (ofold _ _ ?c1 ≫= _) = _ /\ _ => set (c1' := c1) end.
  destruct (names_from unspecified design bin (dn_name ∘ snd <$> nets) [] c1' c1') as (c & -> & Hn); [|done|cbn; rewrite length_fmap; lia|].
  - unfold nets_part in Hnets. injection Hnets as Hh Hnext.
    split; [apply Hpa|exact Hnext|cbn; lia| |done]. intros n. rewrite elem_of_nil. cbn. unfold local_of. rewrite Hh. unfold get_id. cbn.
    rewrite backend_find_map, backend_new_map, lookup_empty. split; [done|]. by intros [].
  - exists c1', c. split; [done|]. split; [exact Hpa|]. split; [done|]. split; [|exact Hn]. cbn. lia.
Qed.

Lemma third_pass (block : DSBlockBuildData B) name units bin size pts nets :
  let c := {| nc_units := units; nc_design_name := name; nc_state := (fresh_nets new_grid, false); nc_batch := []; batch_count := 0; unknown_use_count := 0 |} in
  block_ok block -> tables_small stack design -> Forall net_small (context_of unspecified stack design block c <$> nets) ->
  fits 28 (conv unspecified units (x_low_ (die_box pts))) -> fits 28 (conv unspecified units (y_low_ (die_box pts))) ->
  exists g, ds_parse_def_nets unspecified stack design block bin size true (nets_events name units pts nets) =
  Ok {| nc_units := units; nc_design_name := name; nc_batch := [];
        nc_state := ({| ns_data := parsed_nets ((context_of unspecified stack design block c <$> nets) ≫= net_ops stack design block name);
          ns_density := g; ns_counts := foldl (fun k r => net_counts stack design block name r k) no_counts (context_of unspecified stack design block c <$> nets) |}, false);
        batch_count := batches (Z.max size 1) (Z.of_nat (length nets)); unknown_use_count := unknown_uses nets |}.
Proof.
  intros c Hb Ht Hs Hx Hy. destruct (die_area_total units bin pts Hx Hy) as (g & Hg & Gx & Gy).
  unfold ds_parse_def_nets, nets_events. cbv zeta. set (z := if 0 <? size then size else 1).
  assert (z = Z.max size 1) as Hz by (unfold z; destruct (Z.ltb_spec 0 size); lia). clearbody z.
  cbn [ofold nets_step mbind outcome_bind]. unfold def_nets_die_area_cbk.
  cbn [def_nets_units_cbk def_nets_design_cbk new_nets_context nc_units nc_state fst snd fresh_nets ns_density]. rewrite Hg. cbn [defined mbind outcome_bind].
  rewrite nets_from by (cbn; lia).
  cbn [def_nets_units_cbk def_nets_design_cbk new_nets_context fst snd nc_units nc_design_name nc_state nc_batch batch_count unknown_use_count app length].
  destruct (rows_parsed_nets stack design block name (context_of unspecified stack design block c <$> nets) (fresh_nets g) false) as (g' & E);
    [|done..|split; intros ? ?; cbn; by rewrite lookup_empty|done|].
  - apply Forall_fmap, Forall_true. intros n. by split.
  - exists g'. rewrite <- Hz. change (set_density g (fresh_nets new_grid)) with (fresh_nets g).
    match goal with |- context [ofold parse_net (?f <$> nets)] => change (f <$> nets) with (context_of unspecified stack design block c <$> nets) end.
    rewrite E. cbn [mbind outcome_bind]. by rewrite !Z.add_0_l.
Qed.
End passes.

(** Under [named], instances are found as before. *)
Lemma named_instances {B : Type} `{!DSNameBackend B} seen (c0 c : DefComponentsContext B) n i :
  named seen c0 c -> find_instance (bs_block (cp_block c)) i = find_instance (bs_block (cp_block c0)) i /\
  find_instance_by_name (bs_block (cp_block c)) n = find_instance_by_name (bs_block (cp_block c0)) n /\
  instance_total (bs_block (cp_block c)) = instance_total (bs_block (cp_block c0)).
Proof.
  intros [_ _ _ _ (S1 & S2 & _)]. unfold find_instance_by_name, find_instance, instance_total. by rewrite S1, S2.
Qed.

(** Every net is known. *)
Lemma all_known {B : Type} `{!DSNameBackend B} stack design (block : DSBlockBuildData B) name rows :
  Forall (fun r => local_of block (nx_net_name r) <> 0%N) rows ->
  parsed_net_count (foldl (fun k r => net_counts stack design block name r k) no_counts rows) = N.of_nat (length rows) /\
  skipped_net_count (foldl (fun k r => net_counts stack design block name r k) no_counts rows) = 0%N.
Proof.
  intros Hall. destruct (counts_add_up stack design block name rows) as (H1 & H2 & _).
  assert (filter (fun c => local_of block (nx_net_name c) <> 0%N) rows = rows) as E.
  { clear H1 H2. induction Hall as [|r rows Hr _ IH]; [done|]. rewrite filter_cons, decide_True by done. by rewrite IH. }
  rewrite E in H1. lia.
Qed.

(** What a net statement contributes, item by item: its connections; a wire for every layer item
    of its paths that points follow, a via for every via item that a point follows ([path_wires] and
    [path_vias]); its rectangles; and one via, at the first point, for every VIA statement. *)
Definition net_statement {B : Type} (unspecified : Z) (stack : DSStack) (design : DSDesign) (block : DSBlockBuildData B) (units : Z) (name : bytes) (n : bool * defiNet) : DSNetContext B :=
  let net := n.2 in
  let use := (ds_parse_net_use (default (text "SIGNAL") (dn_use net))).1 in
  {| nx_net_name := dn_name net; nx_is_special := n.1; nx_is_pg := bool_decide (n.1 = true \/ use = POWER \/ use = GROUND); nx_use := use;
     nx_connections := (fun c => {| raw_instance := c.1; raw_pin := c.2 |}) <$> dn_connections net;
     nx_wires := concat (dn_wires net) ≫= path_wires unspecified units;
     nx_rects := (fun r => {| raw_rect_layer := r.1; raw_rect := def_rect_to_dbu unspecified units r.2 |}) <$> dn_rects net;
     nx_vias := (concat (dn_wires net) ≫= path_vias unspecified units) ++
       ((fun v => let p := default (GEOPoint 0 0) (head ((fun p => GEOPoint (conv unspecified units (x_ p)) (conv unspecified units (y_ p))) <$> v.2)) in
          {| raw_via_name := v.1; raw_x := x_ p; raw_y := y_ p; num_x := 1; num_y := 1; step_x := 0; step_y := 0 |}) <$> dn_vias net);
     nx_stack := Some stack; nx_design := Some design; nx_block_data := Some block; nx_net_data := None; nx_design_name := name;
     nx_local_net_id := 0; nx_error := false |}.

Lemma paths_traversed unspecified units paths out :
  foldl (traverse_nets_path unspecified units) out paths = (out.1 ++ (paths ≫= path_wires unspecified units), out.2 ++ (paths ≫= path_vias unspecified units)).
Proof.
  revert out. induction paths as [|path paths IH]; intros out; [by destruct out; cbn; rewrite !app_nil_r|].
  cbn [foldl]. rewrite IH, path_traversed. cbn [fst snd]. by rewrite !bind_cons, !(assoc_L app).
Qed.

Lemma statement_context {B : Type} unspecified stack design (block : DSBlockBuildData B) units name n :
  net_context unspecified stack design block units name n.1 n.2 = net_statement unspecified stack design block units name n.
Proof.
  unfold net_context, net_statement. cbv zeta. rewrite paths_traversed. cbn [fst snd app]. f_equal.
  - destruct n.1; cbn; [done|]. repeat (case_bool_decide; try done); tauto.
  - f_equal. apply list_fmap_ext. intros _ [v [|p ps]] _; done.
Qed.

(** C33: the two passes over the components and nets of a DEF file return, and agree. The file says
    DESIGN, UNITS and DIEAREA first and components before nets; its component names are different,
    names are not empty, the ids that the tables of cells and layers give are in them with room for
    the fake cells, and the lower corner of the die, the placements, the boxes of cells and all
    lengths, after conversion, fit into 28 bits ([rows_ok], [tables_small], [net_small]).
    Then the second pass and, on its result, the third return without error, whatever the size of
    the batches. Component [k] is instance [k + 1], found under its name and placed as its row says;
    a local id other than 0 is given to exactly the nets of the file, one for each name; the third
    pass skips no net, in as few batches as the size allows; and the net data holds under each id
    the connections, rectangles, wires and vias of all statements of the net that resolve, in the
    order of the file ([net_statement]). A wire is a layer item with the points up to the next one;
    a via of a path is placed at the point after it, so one that ends its path contributes nothing,
    and a VIA statement contributes its first point only. *)
Theorem def_file_read {B : Type} `{!DSNameBackend B} unspecified stack design name units bin size pts ds nets :
  let rows := component_row unspecified units <$> ds in
  let contexts (block : DSBlockBuildData B) := net_statement unspecified stack design block units name <$> nets in
  rows_ok design rows -> Forall proper_name (dn_name ∘ snd <$> nets) -> Z.of_nat (length nets) < 2 ^ 62 ->
  fits 28 (conv unspecified units (x_low_ (die_box pts))) -> fits 28 (conv unspecified units (y_low_ (die_box pts))) ->
  tables_small stack design -> (forall block, Forall net_small (contexts block)) ->
  exists (c2 : DefComponentsContext B) c3, let block := bs_block (cp_block c2) in
  ds_parse_def_components unspecified design bin true (components_events name units pts ds nets) = Ok c2 /\
  ds_parse_def_nets unspecified stack design block bin size true (nets_events name units pts nets) = Ok c3 /\
  cp_failed c2 = false /\ (nc_state c3).2 = false /\
  (forall k r, rows !! k = Some r -> exists i, find_instance block (N.of_nat (S k)) = Some i /\
     find_instance_by_name block (co_name r) = Some i /\ instance_of design name (cp_block c2) r i) /\
  instance_total block = S (length ds) /\
  (forall n, n ∈ (dn_name ∘ snd <$> nets) <-> local_of block n <> 0%N) /\ Z.of_nat (net_count block) = cp_net_count c2 /\
  cp_net_count c2 + cp_skipped_net_count c2 = Z.of_nat (length nets) /\
  parsed_net_count (ns_counts (nc_state c3).1) = N.of_nat (length nets) /\ skipped_net_count (ns_counts (nc_state c3).1) = 0%N /\
  (forall n, n <> 0%N -> holds stack design block name (contexts block) (ns_data (nc_state c3).1) n) /\
  batch_count c3 = batches (Z.max size 1) (Z.of_nat (length nets)).
Proof.
  intros rows contexts Hro Hnames Hlen Hx Hy Ht Hs.
  destruct (second_pass (B := B) unspecified design name units bin pts ds nets Hro Hnames Hlen Hx Hy) as (c0 & c2 & E2 & Hpa & Hf & _ & Hn).
  assert (forall block : DSBlockBuildData B, (fun n => net_context unspecified stack design block units name n.1 n.2) <$> nets = contexts block) as Ec.
  { intros block. apply list_fmap_ext. intros _ n _. apply statement_context. }
  destruct (third_pass unspecified stack design (bs_block (cp_block c2)) name units bin size pts nets (na_block _ _ _ Hn) Ht) as (g & E3);
    [unfold context_of; cbn [nc_units nc_design_name]; rewrite Ec; apply Hs|done..|].
  unfold context_of in E3. cbn [nc_units nc_design_name] in E3. rewrite Ec in E3.
  exists c2. eexists. cbv zeta. split; [exact E2|]. split; [exact E3|]. cbn [nc_state fst snd ns_data ns_counts batch_count].
  pose proof Hn as [Hb Hnext (Hc & Hp & Hq) Hk (S1 & S2 & S3 & S4 & S5 & S6 & S7 & S8 & S9)].
  split; [by rewrite S8|]. split; [done|]. split; [|split; [|split; [done|split; [|split; [by rewrite Hc, length_fmap|]]]]].
  - intros k r Hr. destruct (pa_found _ _ _ _ _ k r Hpa Hro Hr) as (i & Hi & Hin & Hio). exists i.
    destruct (named_instances _ c0 c2 (co_name r) (N.of_nat (S k)) Hn) as (-> & -> & _). split; [done|]. split; [done|].
    apply (instance_of_mono design name (cp_block c0)); [by rewrite S6|done].
  - destruct (named_instances _ c0 c2 [] 0%N Hn) as (_ & _ & ->). rewrite (bo_total _ (pa_block _ _ _ _ _ Hpa)), (pa_next _ _ _ _ _ Hpa), length_fmap. lia.
  - destruct (bo_nets _ Hb) as (h & Hh & Hnu). unfold net_count. rewrite Hh, (nu_count _ _ Hnu), Hnext. lia.
  - destruct (all_known stack design (bs_block (cp_block c2)) name (contexts (bs_block (cp_block c2)))) as [A1 A2].
    { apply Forall_fmap, Forall_forall. intros n Hin. cbn. apply Hk. apply list_elem_of_fmap. by exists n. }
    unfold contexts in A1 at 2. rewrite length_fmap in A1. split; [exact A1|]. split; [exact A2|]. split; [|done]. intros n Hn0. by apply rows_hold.
Qed.

(** * The first pass *)

(** The first element of each key, in order. *)
Definition keep_step {A} (key : A -> bytes) (acc : list A) (a : A) : list A := if decide (key a ∈ key <$> acc) then acc else acc ++ [a].
Definition keep_first {A} (key : A -> bytes) (l : list A) : list A := foldl (keep_step key) [] l.

Lemma keep_first_snoc {A} (key : A -> bytes) l a : keep_first key (l ++ [a]) = keep_step key (keep_first key l) a.
Proof. unfold keep_first. by rewrite foldl_app. Qed.

Lemma lookup_kept_snoc {A} (l : list A) x k : (l ++ [x]) !! k = if decide (k = length l) then Some x else l !! k.
Proof.
  destruct (decide _) as [->|Hk]; [by apply list_lookup_middle|]. destruct (decide (k < length l)%nat); [by apply lookup_app_l|].
  rewrite !lookup_ge_None_2; [done|lia|rewrite length_app; cbn; lia].
Qed.

Lemma keep_first_length {A} (key : A -> bytes) l : (length (keep_first key l) <= length l)%nat.
Proof.
  induction l as [|a l IH] using rev_ind; [done|]. rewrite keep_first_snoc, length_app. unfold keep_step. cbn.
  destruct (decide _); [|rewrite length_app; cbn]; lia.
Qed.

Lemma keep_first_spec {A} (key : A -> bytes) (l : list A) :
  NoDup (key <$> keep_first key l) /\ (forall k, k ∈ key <$> l <-> k ∈ key <$> keep_first key l) /\
  forall a, a ∈ keep_first key l -> exists i, l !! i = Some a /\ forall j b, l !! j = Some b -> key b = key a -> (i <= j)%nat.
Proof.
  induction l as [|a l (IH1 & IH2 & IH3)] using rev_ind; [split; [constructor|]; split; [done|]; by intros a ?%elem_of_nil|].
  assert (forall x i, l !! i = Some x -> (forall j b, l !! j = Some b -> key b = key x -> (i <= j)%nat) ->
    (l ++ [a]) !! i = Some x /\ forall j b, (l ++ [a]) !! j = Some b -> key b = key x -> (i <= j)%nat) as Hext.
  { intros x i Hi Hmin. split; [by apply lookup_app_l_Some|]. intros j b Hj Hb. destruct (decide (j < length l)%nat) as [Hlt|].
    - rewrite lookup_app_l in Hj by done. by apply (Hmin j b).
    - apply lookup_lt_Some in Hi. lia. }
  rewrite keep_first_snoc. unfold keep_step. destruct (decide _) as [Hin|Hin].
  - split; [done|]. split.
    + intros k. rewrite fmap_app, elem_of_app, IH2. cbn [fmap list_fmap]. rewrite list_elem_of_singleton. split; [|by left]. intros [?| ->]; done.
    + intros x Hx. destruct (IH3 x Hx) as (i & Hi & Hmin). exists i. by apply Hext.
  - split; [|split].
    + rewrite fmap_app. cbn. apply NoDup_app. split; [done|]. split; [|apply NoDup_singleton]. intros k Hk ->%list_elem_of_singleton. done.
    + intros k. by rewrite !fmap_app, !elem_of_app, IH2.
    + intros x [Hx| ->%list_elem_of_singleton]%elem_of_app; [destruct (IH3 x Hx) as (i & Hi & Hmin); exists i; by apply Hext|].
      exists (length l). split; [by apply list_lookup_middle|]. intros j b Hj Hb. destruct (decide (j < length l)%nat) as [Hlt|]; [|lia].
      rewrite lookup_app_l in Hj by done. destruct Hin. rewrite <- IH2, <- Hb. apply list_elem_of_fmap_2. by eapply list_elem_of_lookup_2.
Qed.

Section header.
Context (unspecified : Z) (stack : DSStack) (units : Z) (name path : bytes).
Context (Hstack : forall n, is_valid_id table_bits (find_layer stack n) = true -> is_Some (layer_by_id stack (find_layer stack n))).

Definition event_pin (e : header_event) : option defiPin := match e with HPin p => Some p | _ => None end.
Definition event_via (e : header_event) : option defiVia := match e with HVia v => Some v | _ => None end.
Definition event_blockage (e : header_event) : option defiBlockage := match e with HBlockage b => Some b | _ => None end.
Definition is_body (e : header_event) : Prop := match e with HPin _ | HVia _ | HBlockage _ => True | _ => False end.

(** The pin of a port, its shapes, the cell of a via and the obstructions of a blockage. *)
Definition port_pin (p : defiPin) : DSPin :=
  {| type_ := map_port_use (default (text "SIGNAL") (dp_use p)); direction_ := map_port_direction (default (text "INPUT") (dp_direction p));
     pin_global_id_ := kInvalidId table_bits; pin_placement_status_ := from_option placement_of PIN_PLACED (pin_placement p); is_port := true |}.
Definition port_shapes (p : defiPin) : list DSShapeRef := omap (collect_rect unspecified stack units) (pin_rects p).
Definition via_of (v : defiVia) : option DSViaCell :=
  let full := if decide (name = []) then dv_name v else name ++ text "::" ++ dv_name v in
  match dv_body v with
  | ViaRule x_size y_size bot cut top x_be y_be x_te y_te => rule_via unspecified stack units full x_size y_size bot cut top x_be y_be x_te y_te
  | ViaLayers layers => layers ← mapM (via_layer_id stack) layers; rect_via unspecified stack units full layers
  end.
Definition blockage_shapes (b : defiBlockage) : list DSShapeRef :=
  match bl_layer b with
  | Some layer => omap (collect_rect unspecified stack units) (pair layer <$> bl_rects b)
  | None => []
  end.

(** The state after DESIGN, UNITS, DIEAREA and some of the other statements. *)
Record header_inv (cell : DSCell) (body : list header_event) (c : DefContext) : Prop := {
  hi_env : hc_units c = units /\ hc_design_name c = name /\ hc_active c = true /\ hc_block_cells c = [];
  hi_names : hc_port_names c = dp_name <$> keep_first dp_name (omap event_pin body);
  hi_cell : hc_cell c = set_pins (port_pin <$> keep_first dp_name (omap event_pin body)) cell;
  hi_geoms k : default [] (geometry_of (hc_port_geoms c) 0 (N.of_nat k)) =
    from_option port_shapes [] (keep_first dp_name (omap event_pin body) !! k);
  hi_vias : hc_vias c = keep_first via_name_ (omap (fun e => event_via e ≫= via_of) body);
  hi_obs : hc_obstructions c = omap event_blockage body ≫= blockage_shapes;
  hi_ports : hc_stats c port_count = Z.of_nat (length (hc_port_names c)) /\
    hc_stats c port_count + hc_stats c skipped_port_count = Z.of_nat (length (omap event_pin body));
  hi_via_counts : hc_stats c via_count + hc_stats c viarule_via_count = Z.of_nat (length (omap (fun e => event_via e ≫= via_of) body)) /\
    hc_stats c via_count + hc_stats c viarule_via_count = Z.of_nat (length (hc_vias c)) + hc_stats c via_conflict_count;
}.

Lemma via_layers_some layers l : mapM (via_layer_id stack) layers = Some l -> Forall (fun e => is_Some (layer_by_id stack e.1)) l.
Proof using Hstack.
  intros H%mapM_Some. induction H as [|e e' es es' He _ IH]; constructor; [|done]. unfold via_layer_id in He.
  destruct (is_valid_id _ _) eqn:Ev; [|done]. injection He as <-. cbn. by apply Hstack.
Qed.

Lemma rect_via_some full l : Forall (fun e => is_Some (layer_by_id stack e.1)) l -> is_Some (rect_via unspecified stack units full l).
Proof.
  intros Hl. unfold rect_via.
  destruct (ofold_total (via_layer_step stack) l.*1 (kInvalidId table_bits, kInvalidId table_bits, kInvalidId table_bits)) as [[[b t] k] ->].
  { intros i [[b t] k] (e & -> & He)%list_elem_of_fmap. apply (proj1 (Forall_forall _ _) Hl) in He as [x Hx]. cbn. by rewrite Hx. }
  cbn [mbind option_bind]. apply ofold_total. intros e v He. apply (proj1 (Forall_forall _ _) Hl) in He as [x Hx]. unfold via_rect_step. by rewrite Hx.
Qed.

Lemma stat_same k n (c : DefContext) j : j <> k -> hc_stats (count_stat k n c) j = hc_stats c j.
Proof. intros H. cbn. unfold bump_stat. by rewrite decide_False. Qed.
Lemma stat_more k n (c : DefContext) : hc_stats (count_stat k n c) k = hc_stats c k + n.
Proof. cbn. unfold bump_stat. by rewrite decide_True. Qed.

Lemma geometry_added g pin geos k :
  default [] (geometry_of (add_geometries 0 pin geos g) 0 k) = default [] (geometry_of g 0 k) ++ (if decide (pin = k) then geos else []).
Proof.
  unfold geometry_of, add_geometries, DSPinGeometry in *. cbv zeta. rewrite lookup_insert_eq. cbn [mbind option_bind]. destruct (decide (pin = k)) as [->|Hne].
  - rewrite lookup_insert_eq. by destruct (g !! 0%N).
  - rewrite lookup_insert_ne, app_nil_r by done. by destruct (g !! 0%N).
Qed.

(** A statement other than PIN, VIA or BLOCKAGE leaves their lists as they are. *)
Lemma pin_kept cell body c p : header_inv cell body c -> Z.of_nat (length body) < 2 ^ 32 ->
  header_inv cell (body ++ [HPin p]) (def_pin_cbk unspecified stack p c).
Proof.
  intros [(Hu & Hd & Ha & Hbc) Hn Hc Hg Hv Ho [Hp1 Hp2] [Hv1 Hv2]] Hlen. unfold def_pin_cbk. rewrite Ha. cbn [negb].
  assert (omap event_pin (body ++ [HPin p]) = omap event_pin body ++ [p]) as Ep by by rewrite omap_app.
  assert (omap (fun e => event_via e ≫= via_of) (body ++ [HPin p]) = omap (fun e => event_via e ≫= via_of) body) as Ev by (rewrite omap_app; apply app_nil_r).
  assert (omap event_blockage (body ++ [HPin p]) = omap event_blockage body) as Eb by (rewrite omap_app; apply app_nil_r).
  set (kept := keep_first dp_name (omap event_pin body)) in *.
  assert (length kept = length (pins_ (hc_cell c))) as Hlk by (rewrite Hc; cbn; by rewrite length_fmap).
  destruct (decide (dp_name p ∈ hc_port_names c)) as [Hin|Hin].
  - assert (keep_first dp_name (omap event_pin body ++ [p]) = kept) as Ek
      by (rewrite keep_first_snoc; unfold keep_step; fold kept; rewrite <- Hn; by rewrite decide_True).
    split; rewrite ?Ep, ?Ev, ?Eb, ?Ek; try done. rewrite length_app, stat_more, stat_same by done. cbn [length hc_port_names count_stat]. lia.
  - assert (keep_first dp_name (omap event_pin body ++ [p]) = kept ++ [p]) as Ek
      by (rewrite keep_first_snoc; unfold keep_step; fold kept; rewrite <- Hn; by rewrite decide_False).
    assert (N.of_nat (length (pins_ (hc_cell c))) mod 2 ^ 32 = N.of_nat (length kept))%N as Eid.
    { rewrite <- Hlk. apply N.mod_small. pose proof (keep_first_length dp_name (omap event_pin body)). pose proof (omap_failures event_pin body).
      fold kept in H. lia. }
    cbv zeta. rewrite Eid, Hu. change (omap (collect_rect unspecified stack units) (pin_rects p)) with (port_shapes p).
    split; rewrite ?Ep, ?Ev, ?Eb, ?Ek; try done.
    + cbn. by rewrite Hn, fmap_app.
    + cbn. rewrite Hc, fmap_app. done.
    + intros k. cbn [hc_port_geoms count_stat with_ports]. rewrite lookup_kept_snoc.
      assert (default [] (geometry_of (hc_port_geoms c) 0 (N.of_nat k)) ++ (if decide (N.of_nat (length kept) = N.of_nat k) then port_shapes p else []) =
        from_option port_shapes [] (if decide (k = length kept) then Some p else kept !! k)) as <-.
      { rewrite Hg. destruct (decide (k = length kept)) as [->|Hk]; [by rewrite decide_True, lookup_ge_None_2 by done|].
        rewrite decide_False, app_nil_r by lia. done. }
      destruct (decide (port_shapes p = [])) as [->|]; [by destruct (decide _); rewrite app_nil_r|]. apply geometry_added.
    + rewrite length_app, stat_more. rewrite (stat_same _ _ _ skipped_port_count) by done. cbn [hc_stats with_ports with_cell hc_port_names count_stat].
      unfold bump_stat. rewrite !decide_False by done. rewrite length_app. cbn [length]. lia.
Qed.

Lemma via_kept cell body c v : header_inv cell body c ->
  exists c', def_via_cbk unspecified stack v c = Ok c' /\ header_inv cell (body ++ [HVia v]) c'.
Proof using Hstack.
  intros [(Hu & Hd & Ha & Hbc) Hn Hc Hg Hv Ho [Hp1 Hp2] [Hv1 Hv2]].
  assert (omap event_pin (body ++ [HVia v]) = omap event_pin body) as Ep by (rewrite omap_app; apply app_nil_r).
  assert (omap event_blockage (body ++ [HVia v]) = omap event_blockage body) as Eb by (rewrite omap_app; apply app_nil_r).
  assert (omap (fun e => event_via e ≫= via_of) (body ++ [HVia v]) = omap (fun e => event_via e ≫= via_of) body ++ option_list (via_of v)) as Ev
    by (rewrite omap_app; cbn; by destruct (via_of v)).
  set (made := omap (fun e => event_via e ≫= via_of) body) in *.
  assert (forall k, k = via_count \/ k = viarule_via_count -> forall cell', via_of v = Some cell' ->
    header_inv cell (body ++ [HVia v]) (add_via_unique cell' (count_stat k 1 c))) as Hadd.
  { intros k Hk cell' E. unfold add_via_unique. rewrite E in Ev. change (option_list (Some cell')) with [cell'] in Ev. cbn [hc_vias count_stat]. rewrite Hv.
    assert (keep_first via_name_ (made ++ [cell']) = if decide (via_name_ cell' ∈ via_name_ <$> keep_first via_name_ made)
      then keep_first via_name_ made else keep_first via_name_ made ++ [cell']) as Ek by apply keep_first_snoc. rewrite Hv in Hv2.
    destruct (decide _) as [Hin|Hin]; (split; rewrite ?Ep, ?Ev, ?Eb, ?Ek; try done); cbn [hc_vias hc_stats with_vias count_stat hc_port_names]; unfold bump_stat;
      rewrite ?Hv, ?length_app; cbn [length]; destruct Hk as [-> | ->]; repeat (destruct (decide _); try done); lia. }
  assert (via_of v = None -> header_inv cell (body ++ [HVia v]) (count_stat header_skipped_layer_ref_count 1 c)) as Hdrop.
  { intros E. rewrite E in Ev. change (option_list None) with (@nil DSViaCell) in Ev. rewrite app_nil_r in Ev. by split; rewrite ?Ep, ?Ev, ?Eb. }
  unfold def_via_cbk, prefixed_via_name. rewrite Hd, Hu. cbv zeta. revert Hadd Hdrop. unfold via_of. destruct (dv_body v); intros Hadd Hdrop.
  - destruct (rule_via _ _ _ _ _ _ _ _ _ _ _ _ _); (eexists; split; [done|]); [by apply Hadd; [right|]|by apply Hdrop].
  - destruct (mapM (via_layer_id stack) layers) as [l|] eqn:El; [|eexists; split; [done|]; by apply Hdrop].
    apply via_layers_some in El. cbn [mbind option_bind] in Hadd, Hdrop.
    destruct (rect_via_some (if decide (name = []) then dv_name v else name ++ text "::" ++ dv_name v) l El) as [cell' E]. rewrite E.
    cbn [defined mbind outcome_bind]. eexists. split; [done|]. apply Hadd; [by left|done].
Qed.

Lemma blockage_kept cell body c b : header_inv cell body c -> header_inv cell (body ++ [HBlockage b]) (def_blockage_cbk unspecified stack b c).
Proof.
  intros [(Hu & Hd & Ha & Hbc) Hn Hc Hg Hv Ho Hp Hvc].
  assert (omap event_pin (body ++ [HBlockage b]) = omap event_pin body) as Ep by (rewrite omap_app; apply app_nil_r).
  assert (omap (fun e => event_via e ≫= via_of) (body ++ [HBlockage b]) = omap (fun e => event_via e ≫= via_of) body) as Ev by (rewrite omap_app; apply app_nil_r).
  assert (omap event_blockage (body ++ [HBlockage b]) ≫= blockage_shapes = hc_obstructions c ++ blockage_shapes b) as Eb
    by (rewrite omap_app, bind_app, <- Ho; cbn; by rewrite app_nil_r).
  unfold def_blockage_cbk. destruct (bl_layer b) as [layer|] eqn:El.
  2:{ assert (blockage_shapes b = []) as Es by (unfold blockage_shapes; by rewrite El). rewrite Es, app_nil_r in Eb. by split; rewrite ?Ep, ?Ev, ?Eb. }
  assert (blockage_shapes b = omap (collect_rect unspecified stack units) (pair layer <$> bl_rects b)) as E0 by (unfold blockage_shapes; by rewrite El).
  set (c' := if 0 <? bl_polygons b then _ else c). assert (header_inv cell body c') as [(Hu' & Hd' & Ha' & Hbc') Hn' Hc' Hg' Hv' Ho' Hp' Hvc']
    by (unfold c'; destruct (0 <? bl_polygons b); by split).
  assert (hc_obstructions c' = hc_obstructions c) as Eo by (by rewrite Ho', Ho). clearbody c'. cbv zeta.
  assert (omap (collect_rect unspecified stack units) (pair layer <$> bl_rects b) = if is_valid_id table_bits (ds_resolve_layer_id layer stack)
    then (fun r => {| layer_id_ := ds_resolve_layer_id layer stack; rect_ := def_rect_to_dbu unspecified units r |}) <$> bl_rects b else []) as Es.
  { assert (forall r, collect_rect unspecified stack units (layer, r) = if is_valid_id table_bits (ds_resolve_layer_id layer stack)
      then Some {| layer_id_ := ds_resolve_layer_id layer stack; rect_ := def_rect_to_dbu unspecified units r |} else None) as Hr by done.
    clear Eb E0. destruct (is_valid_id _ _); induction (bl_rects b) as [|r rs IH]; try done; rewrite !fmap_cons; cbn [omap list_omap]; rewrite Hr; [f_equal|]; exact IH. }
  rewrite E0, Es in Eb. destruct (is_valid_id _ _); cbn [negb].
  - split; rewrite ?Ep, ?Ev, ?Eb; try done. cbn. by rewrite Hu', Eo.
  - rewrite app_nil_r in Eb. split; rewrite ?Ep, ?Ev, ?Eb; done.
Qed.

Lemma body_kept cell body c e : header_inv cell body c -> is_body e -> Z.of_nat (length body) < 2 ^ 32 ->
  exists c', header_step unspecified stack path c e = Ok c' /\ header_inv cell (body ++ [e]) c'.
Proof using Hstack.
  intros Hi He Hl. destruct e; try done; cbn [header_step].
  - eexists. split; [done|]. by apply pin_kept.
  - by apply via_kept.
  - eexists. split; [done|]. by apply blockage_kept.
Qed.
End header.

Lemma body_read unspecified stack units name path cell body c :
  (forall n, is_valid_id table_bits (find_layer stack n) = true -> is_Some (layer_by_id stack (find_layer stack n))) ->
  header_inv unspecified stack units name cell [] c -> Forall is_body body -> Z.of_nat (length body) < 2 ^ 32 ->
  exists c', ofold (header_step unspecified stack path) body c = Ok c' /\ header_inv unspecified stack units name cell body c'.
Proof.
  intros Hst Hc. induction body as [|e body IH] using rev_ind; intros Hb Hl; [by exists c|].
  rewrite Forall_app, Forall_singleton in Hb. destruct Hb as [Hb He]. rewrite length_app in Hl. cbn in Hl. destruct IH as (c1 & E & Hi); [done|lia|].
  destruct (body_kept unspecified stack units name path Hst cell body c1 e Hi He) as (c' & E' & Hi'); [lia|]. exists c'. by rewrite ofold_snoc, E.
Qed.

(** the first pass delivers the cell of the block and what the file defines for it.  For a
    file whose DIEAREA lies within 28 bits and a stack whose table holds its layers, the
    pass returns with one block cell, named like the design, with the box of the die as
    its box and the opposite of its lower left corner as origin.  Of the PINS, VIAS and
    BLOCKAGES statements, in any order: the pins of the cell are the first pin of every
    name, and the list of names has the same order, so that position [k] of both, and of
    the table of shapes, belong together; the vias are the first one of every name, with
    the name of the design in front; the obstructions are the rectangles on known layers.
    The counter of ports is the number of pins kept, but those of vias also count the
    vias that were dropped because of their names. *)
Theorem header_read unspecified stack units name path pts body :
  (forall n, is_valid_id table_bits (find_layer stack n) = true -> is_Some (layer_by_id stack (find_layer stack n))) ->
  Forall is_body body -> Z.of_nat (length body) < 2 ^ 32 ->
  fits 28 (conv unspecified units (x_low_ (die_box pts))) -> fits 28 (conv unspecified units (y_low_ (die_box pts))) ->
  let ports := keep_first dp_name (omap event_pin body) in
  let bbox := def_rect_to_dbu unspecified units (die_box pts) in
  exists c cell, ds_parse_def_header unspecified stack path true (HDesign name :: HUnits units :: HDieArea pts :: body ++ [HDesignEnd]) = Ok c /\
  hc_block_cells c = [cell] /\ name_ cell = name /\ is_block_cell (flags_ cell) = true /\ def_path_ cell = path /\
  bbox_ cell = bbox /\ origin_x_ cell = - x_low_ bbox /\ origin_y_ cell = - y_low_ bbox /\ is_polygon (flags_ cell) = (2 <? length pts)%nat /\
  pins_ cell = port_pin <$> ports /\ hc_port_names c = dp_name <$> ports /\ NoDup (hc_port_names c) /\
  (forall n, n ∈ hc_port_names c <-> n ∈ dp_name <$> omap event_pin body) /\
  (forall k p, ports !! k = Some p -> default [] (geometry_of (hc_port_geoms c) 0 (N.of_nat k)) = port_shapes unspecified stack units p) /\
  hc_vias c = keep_first via_name_ (omap (fun e => event_via e ≫= via_of unspecified stack units name) body) /\
  hc_obstructions c = omap event_blockage body ≫= blockage_shapes unspecified stack units /\
  hc_stats c port_count = Z.of_nat (length ports) /\ hc_stats c port_count + hc_stats c skipped_port_count = Z.of_nat (length (omap event_pin body)) /\
  hc_stats c via_count + hc_stats c viarule_via_count = Z.of_nat (length (hc_vias c)) + hc_stats c via_conflict_count.
Proof.
  intros Hst Hbody Hlen Hx Hy ports bbox. unfold fits in Hx, Hy.
  set (cell := set_shape bbox (- x_low_ bbox) (- y_low_ bbox)
    (if (2 <? length pts)%nat then Some ((fun p => GEOPoint (conv unspecified units (x_ p)) (conv unspecified units (y_ p))) <$> pts) else None)
    (hc_cell (def_design_cbk path name new_header))).
  set (c1 := count_stat die_area_count 1 (with_cell cell (with_units units (def_design_cbk path name new_header)))).
  destruct (body_read unspecified stack units name path cell body c1 Hst) as (c' & E & [(Hu & Hd & Ha & Hbc) Hn Hc Hg Hv Ho [Hp1 Hp2] [_ Hv2]]); [|done..|].
  { by split. }
  exists (def_design_end_cbk c'), (hc_cell c'). split.
  { unfold ds_parse_def_header. cbn [ofold header_step mbind outcome_bind]. unfold def_die_area_cbk at 1. cbn [hc_units with_units]. cbv zeta. fold bbox.
    rewrite !chk_eq by (unfold fits; cbn; lia). cbn [defined mbind outcome_bind]. fold cell. change (hc_cell _) with (hc_cell (def_design_cbk path name new_header)).
    fold cell. fold c1. rewrite ofold_snoc, E. done. }
  assert (is_block_cell (flags_ cell) = true /\ is_polygon (flags_ cell) = (2 <? length pts)%nat) as [F1 F2] by (unfold cell; by destruct (2 <? length pts)%nat).
  destruct (keep_first_spec dp_name (omap event_pin body)) as (K1 & K2 & _). unfold def_design_end_cbk. rewrite Ha. cbn [negb].
  cbn [hc_block_cells hc_port_names hc_port_geoms hc_vias hc_obstructions hc_stats count_stat]. rewrite Hbc, Hc.
  split; [done|]. split; [done|]. split; [exact F1|]. split; [done|]. split; [done|]. split; [done|]. split; [done|].
  split; [exact F2|]. split; [done|]. split; [done|]. split; [by rewrite Hn|]. split; [intros n; by rewrite Hn, K2|].
  split; [intros k p Hk; rewrite Hg; fold ports; by rewrite Hk|]. split; [done|]. split; [done|]. unfold bump_stat. rewrite !decide_False by done.
  split; [by rewrite Hp1, Hn, length_fmap|done].
Qed.

(** * A sample

    A file with a component of cell [L] and a net that is routed to it. *)

Definition sample_die : list GEOPointT := [GEOPoint 0 0; GEOPoint 100 40].
Definition sample_component : defiComponent := {| dc_id := ny; dc_name := nL; dc_x := 10; dc_y := 20; dc_orient := 1; dc_status := 2 |}.
Definition sample_net : defiNet :=
  {| dn_name := nn; dn_use := Some (text "CLOCK"); dn_connections := [(ny, nx)];
     dn_wires := [[[PathLayer M1; PathPoint 0 5; PathVia nu1; PathPoint 9 5]]]; dn_rects := []; dn_vias := [] |}.

Lemma sample_component_ok : rows_ok net_design (component_row 0 1000 <$> [sample_component]).
Proof.
  split.
  - split; [decide_compute|]. apply Forall_singleton. split; [discriminate|by vm_compute].
  - decide_compute.
  - intros m. assert (map_Forall (fun (_ : bytes) id => is_Some (cells_ net_design !! N.to_nat id) /\
      Forall (fun c => (rect_ok (bbox_ c) /\ rect_fits 28 (bbox_ c)) /\ fits 28 (origin_x_ c) /\ fits 28 (origin_y_ c)) (option_list (cells_ net_design !! N.to_nat id)))
      (backend_map (backend_ (cell_names_ net_design)))) as H by decide_compute.
    cbv zeta. unfold get_id. rewrite backend_find_map. intros Hv.
    destruct (backend_map (backend_ (cell_names_ net_design)) !! m) as [i|] eqn:E; [|vm_compute in Hv; discriminate].
    destruct (H m i E) as [[c Hc] Hall]. rewrite Hc in Hall. apply Forall_cons in Hall as [Hall _]. exists c. split; [exact Hc|exact Hall].
  - vm_compute. reflexivity.
Qed.

Lemma def_file_read_witness : exists (c2 : DefComponentsContext DSHasherBackendHash) c3,
  ds_parse_def_components 0 net_design 40 true (components_events nB 1000 sample_die [sample_component] [(false, sample_net)]) = Ok c2 /\
  ds_parse_def_nets 0 net_stack net_design (bs_block (cp_block c2)) 40 5 true (nets_events nB 1000 sample_die [(false, sample_net)]) = Ok c3 /\
  skipped_net_count (ns_counts (nc_state c3).1) = 0%N /\ exists i, find_instance_by_name (bs_block (cp_block c2)) ny = Some i.
Proof.
  destruct (def_file_read (B := DSHasherBackendHash) 0 net_stack net_design nB 1000 40 5 sample_die [sample_component] [(false, sample_net)])
    as (c2 & c3 & E2 & E3 & _ & _ & Hrows & _ & _ & _ & _ & _ & Hskip & _).
  - apply sample_component_ok.
  - apply Forall_singleton. split; [discriminate|by vm_compute].
  - by vm_compute.
  - decide_compute.
  - decide_compute.
  - apply sample_tables_small.
  - intros block. apply Forall_singleton. split; cbn [nx_wires nx_rects nx_vias net_statement]; decide_compute.
  - exists c2, c3. split; [exact E2|]. split; [exact E3|]. split; [exact Hskip|].
    destruct (Hrows 0%nat _ eq_refl) as (i & _ & Hi & _). exists i. exact Hi.
Defined.

(** Two pins with one name, a generated via, another one with its name, and a blockage. *)
Definition sample_port (layer : bytes) : defiPin :=
  {| dp_name := nx; dp_use := Some (text "POWER"); dp_direction := None; dp_ports := []; dp_layers := [(layer, GEORect 0 0 10 10)]; dp_placement := None |}.
Definition sample_rule : defiVia := {| dv_name := nu1; dv_body := ViaRule 10 6 M1 M1 M1 2 2 2 2 |}.
Definition sample_body : list header_event :=
  [HPin (sample_port M1); HVia sample_rule; HPin (sample_port M2); HVia sample_rule; HBlockage {| bl_layer := Some M1; bl_rects := [GEORect 1 1 2 2]; bl_polygons := 0 |}].

Example sample_header :
  match ds_parse_def_header 0 net_stack [] true (HDesign nB :: HUnits 2000 :: HDieArea sample_die :: sample_body ++ [HDesignEnd]) with
  | Ok c => (bbox_ <$> hc_block_cells c, hc_port_names c, cut_rects_ <$> hc_vias c, rect_ <$> hc_obstructions c, hc_stats c viarule_via_count, hc_stats c via_conflict_count)
            = ([GEORect 0 0 50 20], [nx], [[GEORect (-3) (-2) 3 2]], [GEORect 1 1 1 1], 2, 1)
  | _ => False
  end.
Proof. vm_compute. reflexivity. Qed.

Lemma header_read_witness : exists c cell,
  ds_parse_def_header 0 net_stack [] true (HDesign nB :: HUnits 2000 :: HDieArea sample_die :: sample_body ++ [HDesignEnd]) = Ok c /\
  hc_block_cells c = [cell] /\ length (pins_ cell) = 1%nat.
Proof.
  destruct (header_read 0 net_stack 2000 nB [] sample_die sample_body) as (c & cell & E & Hc & _ & _ & _ & _ & _ & _ & _ & Hp & _).
  - intros n Hv. destruct (ts_layers _ _ sample_tables_small n Hv) as (l & Hl & _). rewrite Hl. by eexists.
  - repeat constructor.
  - by vm_compute.
  - decide_compute.
  - decide_compute.
  - exists c, cell. split; [exact E|]. split; [exact Hc|]. rewrite Hp. vm_compute. reflexivity.
Defined.
