(* ===== verification/ObjectNames.v ===== *)
(** Names of objects and databases as strings.

    A full name is [db_path:short_name] (Database::full_name of
    src/storage/cpp/database.cpp) and is taken apart at its last colon
    ([split_full_name] and [DataService::split_full] of src/storage/cpp).  An
    argument of a task that stands for a database is a tagged string, taken apart
    by [parse_db_arg] and [parse_db_arg_uid] of src/agent/cpp/master_agent.cpp. *)

From stdpp Require Import base strings list.
From Stdlib Require Import Ascii Lia.
From S2P Require Import Prelude.

Definition colon : ascii := ":"%char.

(** [s.rfind(c)]; [None] is [npos]. *)
Fixpoint rfind (c : ascii) (s : string) : option nat :=
  match s with
  | EmptyString => None
  | String a s =>
      match rfind c s with
      | Some p => Some (S p)
      | None => if decide (a = c) then Some 0%nat else None
      end
  end.

(** [s.find(c)]; [None] is [npos]. *)
Fixpoint find (c : ascii) (s : string) : option nat :=
  match s with
  | EmptyString => None
  | String a s => if decide (a = c) then Some 0%nat else S <$> find c s
  end.

(** [s.substr(0, n)] and [s.substr(n)]. *)
Fixpoint str_take (n : nat) (s : string) : string :=
  match n, s with
  | S n, String a s => String a (str_take n s)
  | _, _ => EmptyString
  end.

Fixpoint str_drop (n : nat) (s : string) : string :=
  match n, s with
  | S n, String a s => str_drop n s
  | O, s => s
  | S _, EmptyString => EmptyString
  end.

(** [s.compare(0, p.size(), p) == 0] *)
Definition starts_with (p s : string) : bool := bool_decide (str_take (String.length p) s = p).

(** [Database::full_name] *)
Definition full_name (db_path short_name : string) : string := db_path +:+ ":" +:+ short_name.

(** [fly::split_full_name]: a name without a colon gives two empty strings. *)
Definition split_full_name (full : string) : string * string :=
  match rfind colon full with
  | None => ("", "")
  | Some pos => (str_take pos full, str_drop (S pos) full)
  end.

(** [DataService::split_full]: a name without a colon is all short name. *)
Definition split_full (full : string) : string * string :=
  match rfind colon full with
  | None => ("", full)
  | Some pos => (str_take pos full, str_drop (S pos) full)
  end.

(** The parts between the first [n] colons, and the rest as the last part. *)
Fixpoint split_colons (n : nat) (rest : string) : list string :=
  match n with
  | O => [rest]
  | S n =>
      match find colon rest with
      | None => [rest]
      | Some p => str_take p rest :: split_colons n (str_drop (S p) rest)
      end
  end.

Definition kDbPrefix : string := "__fly_db__:".
Definition kDb2Prefix : string := "__fly_db2__:".

(** The database path of an encoded argument; [""] when the argument is not a
    database. *)
Definition parse_db_arg (arg : string) : string :=
  if negb (starts_with kDbPrefix arg) then
    if negb (starts_with kDb2Prefix arg) then ""
    else
      let rest := str_drop 12 arg in
      match find colon rest with
      | None => rest
      | Some p => str_drop (S p) rest
      end
  else
    let parts := split_colons 3 (str_drop 11 arg) in
    if decide (length parts = 4%nat) then default "" (parts !! 2%nat)
    else if decide (2 <= length parts)%nat then default "" (parts !! 1%nat)
    else "".

(** The unique id and the path of an encoded argument. *)
Definition parse_db_arg_uid (arg : string) : string * string :=
  if starts_with kDb2Prefix arg then
    let rest := str_drop 12 arg in
    match find colon rest with
    | None => ("", "")
    | Some p => (str_take p rest, str_drop (S p) rest)
    end
  else
    let db_path := parse_db_arg arg in
    if decide (db_path = "") then ("", "")
    else
      let rest := str_drop 11 arg in
      match find colon rest with
      | None => ("", db_path)
      | Some first =>
          match find colon (str_drop (S first) rest) with
          | None => ("", db_path)
          | Some _ => (str_take first rest, db_path)
          end
      end.

(** ** Facts about the searches *)

(** No colon occurs in the string. *)
Definition no_colon (s : string) : Prop := find colon s = None.

Lemma find_rfind c s : find c s = None <-> rfind c s = None.
Proof.
  induction s as [|a s IH]; cbn; [done|]. case_decide; [by destruct (rfind c s)|].
  destruct (rfind c s), (find c s); cbn; try done; naive_solver.
Qed.

Lemma string_app_cons x a b : String x a +:+ b = String x (a +:+ b).
Proof. reflexivity. Qed.

Lemma str_take_app a b : str_take (String.length a) (a +:+ b) = a.
Proof.
  induction a as [|x a IH]; [by destruct b|]. rewrite string_app_cons. cbn. by rewrite IH.
Qed.

Lemma str_drop_app a b : str_drop (String.length a) (a +:+ b) = b.
Proof. induction a as [|x a IH]; [by destruct b|done]. Qed.

Lemma app_string_assoc a b c : (a +:+ b) +:+ c = a +:+ (b +:+ c).
Proof. induction a as [|x a IH]; [done|]. rewrite !string_app_cons. by rewrite IH. Qed.

Lemma app_colon_length a : S (String.length a) = String.length (a +:+ ":").
Proof. induction a as [|x a IH]; [done|]. rewrite string_app_cons. cbn. by rewrite IH. Qed.

Lemma str_drop_colon a b : str_drop (S (String.length a)) (a +:+ ":" +:+ b) = b.
Proof. rewrite app_colon_length, <- app_string_assoc. apply str_drop_app. Qed.

Lemma rfind_app a b : no_colon b -> rfind colon (a +:+ ":" +:+ b) = Some (String.length a).
Proof.
  intros Hb%find_rfind. induction a as [|x a IH].
  - change ("" +:+ ":" +:+ b) with (String colon b). cbn. by rewrite Hb.
  - rewrite string_app_cons. cbn. by rewrite IH.
Qed.

Lemma find_app a b : no_colon a -> find colon (a +:+ ":" +:+ b) = Some (String.length a).
Proof.
  unfold no_colon. induction a as [|x a IH]; [done|]. rewrite string_app_cons. cbn. case_decide; [done|].
  destruct (find colon a); cbn; [done|]. intros _. by rewrite IH.
Qed.

Lemma starts_with_app p s : starts_with p (p +:+ s) = true.
Proof. apply bool_decide_eq_true. apply str_take_app. Qed.

Lemma split_full_same full : rfind colon full <> None -> split_full full = split_full_name full.
Proof. unfold split_full, split_full_name. by destruct (rfind colon full). Qed.

Lemma split_full_name_full db short : no_colon short -> split_full_name (full_name db short) = (db, short).
Proof.
  intros Hs. unfold split_full_name, full_name. rewrite rfind_app by done.
  by rewrite str_take_app, str_drop_colon.
Qed.

Lemma split_full_full db short : no_colon short -> split_full (full_name db short) = (db, short).
Proof.
  intros Hs. rewrite split_full_same; [by apply split_full_name_full|].
  unfold full_name. by rewrite rfind_app.
Qed.

Lemma full_name_inj db short db' short' :
  no_colon short -> no_colon short' -> full_name db short = full_name db' short' -> db = db' /\ short = short'.
Proof.
  intros H1 H2 E. pose proof (split_full_name_full db short H1) as E1.
  rewrite E, (split_full_name_full db' short' H2) in E1. by injection E1.
Qed.

(** A split name with a non-empty path is the full name of its parts. *)
Lemma rfind_split full pos : rfind colon full = Some pos ->
  full = str_take pos full +:+ ":" +:+ str_drop (S pos) full /\ no_colon (str_drop (S pos) full).
Proof.
  revert pos. induction full as [|a s IH]; intros pos; cbn [rfind]; [done|].
  destruct (rfind colon s) as [p|] eqn:E.
  - intros [= <-]. destruct (IH p eq_refl) as [H1 H2].
    change (str_take (S p) (String a s)) with (String a (str_take p s)).
    change (str_drop (S (S p)) (String a s)) with (str_drop (S p) s).
    rewrite string_app_cons. split; [by f_equal|done].
  - case_decide as Ha; [|done]. intros [= <-]. subst a.
    change (str_drop 1 (String colon s)) with (str_drop 0 s).
    replace (str_drop 0 s) with s by (by destruct s). split; [done|]. by apply find_rfind.
Qed.

Lemma split_full_name_inv full db short :
  split_full_name full = (db, short) -> db <> "" -> full = full_name db short /\ no_colon short.
Proof.
  unfold split_full_name. destruct (rfind colon full) as [p|] eqn:E; [|intros [= <- <-]; done].
  intros [= <- <-] _. by apply rfind_split.
Qed.

Lemma split_full_inv full db short :
  split_full full = (db, short) -> no_colon short.
Proof.
  unfold split_full. destruct (rfind colon full) as [p|] eqn:E; intros [= <- <-].
  - by apply rfind_split.
  - by apply find_rfind.
Qed.

(** Encoded database arguments.  The current form [__fly_db2__:uid:path] and
    the older form [__fly_db__:uid:path:data] give back the id and the path they
    were made from; the form without an id, [__fly_db__:path:data], gives the
    data path in place of the database path, and no id. *)
Theorem db_arg_decoded uid path data :
  no_colon uid -> no_colon path -> no_colon data -> path <> "" -> data <> "" ->
  parse_db_arg (kDb2Prefix +:+ uid +:+ ":" +:+ path) = path /\
  parse_db_arg_uid (kDb2Prefix +:+ uid +:+ ":" +:+ path) = (uid, path) /\
  parse_db_arg_uid (kDbPrefix +:+ uid +:+ ":" +:+ path +:+ ":" +:+ data) = (uid, path) /\
  parse_db_arg (kDbPrefix +:+ path +:+ ":" +:+ data) = data /\
  parse_db_arg_uid (kDbPrefix +:+ path +:+ ":" +:+ data) = ("", data).
Proof.
  intros Hu Hp Hd Hne Hne'.
  assert (D2 : forall s, str_drop 12 (kDb2Prefix +:+ s) = s) by (intros s; apply (str_drop_app kDb2Prefix)).
  assert (D1 : forall s, str_drop 11 (kDbPrefix +:+ s) = s) by (intros s; apply (str_drop_app kDbPrefix)).
  assert (N1 : forall s, starts_with kDbPrefix (kDb2Prefix +:+ s) = false) by done.
  assert (N2 : forall s, starts_with kDb2Prefix (kDbPrefix +:+ s) = false) by done.
  assert (P4 : parse_db_arg (kDbPrefix +:+ uid +:+ ":" +:+ path +:+ ":" +:+ data) = path).
  { unfold parse_db_arg. rewrite starts_with_app. cbn [negb]. rewrite D1. cbn [split_colons].
    rewrite !find_app, str_drop_colon, !find_app, str_drop_colon by done. by rewrite Hd, !str_take_app. }
  assert (P3 : parse_db_arg (kDbPrefix +:+ path +:+ ":" +:+ data) = data).
  { unfold parse_db_arg. rewrite starts_with_app. cbn [negb]. rewrite D1. cbn [split_colons].
    rewrite !find_app, str_drop_colon by done. by rewrite Hd. }
  split; [|split; [|split; [|split; [done|]]]].
  - unfold parse_db_arg. rewrite N1, starts_with_app. cbn [negb]. rewrite D2, find_app by done.
    apply str_drop_colon.
  - unfold parse_db_arg_uid. rewrite starts_with_app, D2, find_app by done.
    by rewrite str_take_app, str_drop_colon.
  - unfold parse_db_arg_uid. rewrite N2, P4, decide_False, D1, find_app by done.
    by rewrite str_drop_colon, find_app, str_take_app.
  - unfold parse_db_arg_uid. rewrite N2, P3, decide_False, D1, find_app by done.
    by rewrite str_drop_colon, Hd.
Qed.

Lemma db_arg_decoded_witness :
  parse_db_arg_uid "__fly_db2__:u7:/data/top" = ("u7", "/data/top") /\
  parse_db_arg "__fly_db__:/data/top:/disk/d" = "/disk/d".
Proof.
  destruct (db_arg_decoded "u7" "/data/top" "/disk/d") as (_ & H1 & _ & H2 & _); [reflexivity..|discriminate|discriminate|].
  split; [exact H1|exact H2].
Defined.
