(* ===== verification/DataIndex.v ===== *)
(** The data service (src/storage/cpp/data_service.h and .cpp): where the objects
    of the databases are, on this process and on others.

    Entries of the local index are shared pointers: a reader that waits for a
    write keeps the pointer it found.  The entries are therefore kept in a heap
    ([infos_]) and the index holds references into it.  Every operation runs under
    the lock of its domain and is one atomic state transformer.  The scores of the
    network monitor, the clock and configuration values are arguments. *)

From stdpp Require Import base gmap strings list option sets fin_maps.
From Stdlib Require Import ZArith QArith Lia Permutation Sorted.
From S2P Require Import Prelude ObjectNames LocalIndex ObjectCache.

Open Scope Z_scope.

(** ** State *)

Inductive CompletionState := INCOMPLETE | COMPLETE | FAILED.
#[export] Instance CompletionState_eq_dec : EqDecision CompletionState.
Proof. solve_decision. Defined.

Record LocalObjectInfo := mkLocalObjectInfo {
  info_db_path_ : string;
  entries_ : list IndexEntry;
  completion_state_ : CompletionState;
  flushed_ : bool;
  is_temp_ : bool
}.

#[export] Instance set_info_db_path_LocalObjectInfo : Setter info_db_path_ :=
  fun h x => mkLocalObjectInfo (h (info_db_path_ x)) (entries_ x) (completion_state_ x) (flushed_ x) (is_temp_ x).
Arguments set_info_db_path_LocalObjectInfo h x /.
#[export] Instance set_entries_LocalObjectInfo : Setter entries_ :=
  fun h x => mkLocalObjectInfo (info_db_path_ x) (h (entries_ x)) (completion_state_ x) (flushed_ x) (is_temp_ x).
Arguments set_entries_LocalObjectInfo h x /.
#[export] Instance set_completion_state_LocalObjectInfo : Setter completion_state_ :=
  fun h x => mkLocalObjectInfo (info_db_path_ x) (entries_ x) (h (completion_state_ x)) (flushed_ x) (is_temp_ x).
Arguments set_completion_state_LocalObjectInfo h x /.
#[export] Instance set_flushed_LocalObjectInfo : Setter flushed_ :=
  fun h x => mkLocalObjectInfo (info_db_path_ x) (entries_ x) (completion_state_ x) (h (flushed_ x)) (is_temp_ x).
Arguments set_flushed_LocalObjectInfo h x /.
#[export] Instance set_is_temp_LocalObjectInfo : Setter is_temp_ :=
  fun h x => mkLocalObjectInfo (info_db_path_ x) (entries_ x) (completion_state_ x) (flushed_ x) (h (is_temp_ x)).
Arguments set_is_temp_LocalObjectInfo h x /.

Record RemoteObjectMeta := mkRemoteObjectMeta {
  workers_ : list N;
  read_count_ : Z;
  last_access_time_ : Z;
  size_bytes_ : Z;
  accumulated_bytes_ : Z;
  last_suggest_time_ : Z
}.

#[export] Instance set_workers_RemoteObjectMeta : Setter workers_ :=
  fun h x => mkRemoteObjectMeta (h (workers_ x)) (read_count_ x) (last_access_time_ x) (size_bytes_ x) (accumulated_bytes_ x) (last_suggest_time_ x).
Arguments set_workers_RemoteObjectMeta h x /.
#[export] Instance set_read_count_RemoteObjectMeta : Setter read_count_ :=
  fun h x => mkRemoteObjectMeta (workers_ x) (h (read_count_ x)) (last_access_time_ x) (size_bytes_ x) (accumulated_bytes_ x) (last_suggest_time_ x).
Arguments set_read_count_RemoteObjectMeta h x /.
#[export] Instance set_last_access_time_RemoteObjectMeta : Setter last_access_time_ :=
  fun h x => mkRemoteObjectMeta (workers_ x) (read_count_ x) (h (last_access_time_ x)) (size_bytes_ x) (accumulated_bytes_ x) (last_suggest_time_ x).
Arguments set_last_access_time_RemoteObjectMeta h x /.
#[export] Instance set_size_bytes_RemoteObjectMeta : Setter size_bytes_ :=
  fun h x => mkRemoteObjectMeta (workers_ x) (read_count_ x) (last_access_time_ x) (h (size_bytes_ x)) (accumulated_bytes_ x) (last_suggest_time_ x).
Arguments set_size_bytes_RemoteObjectMeta h x /.
#[export] Instance set_accumulated_bytes_RemoteObjectMeta : Setter accumulated_bytes_ :=
  fun h x => mkRemoteObjectMeta (workers_ x) (read_count_ x) (last_access_time_ x) (size_bytes_ x) (h (accumulated_bytes_ x)) (last_suggest_time_ x).
Arguments set_accumulated_bytes_RemoteObjectMeta h x /.
#[export] Instance set_last_suggest_time_RemoteObjectMeta : Setter last_suggest_time_ :=
  fun h x => mkRemoteObjectMeta (workers_ x) (read_count_ x) (last_access_time_ x) (size_bytes_ x) (accumulated_bytes_ x) (h (last_suggest_time_ x)).
Arguments set_last_suggest_time_RemoteObjectMeta h x /.

(** Where a worker serves data ([RemoteObjectInfo]). *)
Record RemoteObjectInfo := mkRemoteObjectInfo {
  r_worker_id_ : N;
  r_host_ : string;
  r_port_ : Z;
  r_storage_only_ : bool;
  r_alive_ : bool
}.

#[export] Instance set_r_worker_id_RemoteObjectInfo : Setter r_worker_id_ :=
  fun h x => mkRemoteObjectInfo (h (r_worker_id_ x)) (r_host_ x) (r_port_ x) (r_storage_only_ x) (r_alive_ x).
Arguments set_r_worker_id_RemoteObjectInfo h x /.
#[export] Instance set_r_host_RemoteObjectInfo : Setter r_host_ :=
  fun h x => mkRemoteObjectInfo (r_worker_id_ x) (h (r_host_ x)) (r_port_ x) (r_storage_only_ x) (r_alive_ x).
Arguments set_r_host_RemoteObjectInfo h x /.
#[export] Instance set_r_port_RemoteObjectInfo : Setter r_port_ :=
  fun h x => mkRemoteObjectInfo (r_worker_id_ x) (r_host_ x) (h (r_port_ x)) (r_storage_only_ x) (r_alive_ x).
Arguments set_r_port_RemoteObjectInfo h x /.
#[export] Instance set_r_storage_only_RemoteObjectInfo : Setter r_storage_only_ :=
  fun h x => mkRemoteObjectInfo (r_worker_id_ x) (r_host_ x) (r_port_ x) (h (r_storage_only_ x)) (r_alive_ x).
Arguments set_r_storage_only_RemoteObjectInfo h x /.
#[export] Instance set_r_alive_RemoteObjectInfo : Setter r_alive_ :=
  fun h x => mkRemoteObjectInfo (r_worker_id_ x) (r_host_ x) (r_port_ x) (r_storage_only_ x) (h (r_alive_ x)).
Arguments set_r_alive_RemoteObjectInfo h x /.

Record DbPaths := mkDbPaths { p_db_path_ : string; p_data_path_ : string; p_writer_id_ : string }.

Record DataService := mkDataService {
  infos_ : gmap N LocalObjectInfo;
  next_info_ : N;
  local_idx_ : gmap string (gmap string N);
  remote_idx_ : gmap string (gmap string RemoteObjectMeta);
  worker_registry_ : gmap N RemoteObjectInfo;
  db_paths_ : gmap string DbPaths;
  db_refs_ : gmap string Z;
  object_cache_ : ObjectCache
}.

#[export] Instance set_infos_DataService : Setter infos_ :=
  fun h x => mkDataService (h (infos_ x)) (next_info_ x) (local_idx_ x) (remote_idx_ x) (worker_registry_ x) (db_paths_ x) (db_refs_ x) (object_cache_ x).
Arguments set_infos_DataService h x /.
#[export] Instance set_next_info_DataService : Setter next_info_ :=
  fun h x => mkDataService (infos_ x) (h (next_info_ x)) (local_idx_ x) (remote_idx_ x) (worker_registry_ x) (db_paths_ x) (db_refs_ x) (object_cache_ x).
Arguments set_next_info_DataService h x /.
#[export] Instance set_local_idx_DataService : Setter local_idx_ :=
  fun h x => mkDataService (infos_ x) (next_info_ x) (h (local_idx_ x)) (remote_idx_ x) (worker_registry_ x) (db_paths_ x) (db_refs_ x) (object_cache_ x).
Arguments set_local_idx_DataService h x /.
#[export] Instance set_remote_idx_DataService : Setter remote_idx_ :=
  fun h x => mkDataService (infos_ x) (next_info_ x) (local_idx_ x) (h (remote_idx_ x)) (worker_registry_ x) (db_paths_ x) (db_refs_ x) (object_cache_ x).
Arguments set_remote_idx_DataService h x /.
#[export] Instance set_worker_registry_DataService : Setter worker_registry_ :=
  fun h x => mkDataService (infos_ x) (next_info_ x) (local_idx_ x) (remote_idx_ x) (h (worker_registry_ x)) (db_paths_ x) (db_refs_ x) (object_cache_ x).
Arguments set_worker_registry_DataService h x /.
#[export] Instance set_db_paths_DataService : Setter db_paths_ :=
  fun h x => mkDataService (infos_ x) (next_info_ x) (local_idx_ x) (remote_idx_ x) (worker_registry_ x) (h (db_paths_ x)) (db_refs_ x) (object_cache_ x).
Arguments set_db_paths_DataService h x /.
#[export] Instance set_db_refs_DataService : Setter db_refs_ :=
  fun h x => mkDataService (infos_ x) (next_info_ x) (local_idx_ x) (remote_idx_ x) (worker_registry_ x) (db_paths_ x) (h (db_refs_ x)) (object_cache_ x).
Arguments set_db_refs_DataService h x /.
#[export] Instance set_object_cache_DataService : Setter object_cache_ :=
  fun h x => mkDataService (infos_ x) (next_info_ x) (local_idx_ x) (remote_idx_ x) (worker_registry_ x) (db_paths_ x) (db_refs_ x) (h (object_cache_ x)).
Arguments set_object_cache_DataService h x /.

Definition new_info : LocalObjectInfo := mkLocalObjectInfo "" [] INCOMPLETE false false.
Definition new_meta : RemoteObjectMeta := mkRemoteObjectMeta [] 0 0 0 0 0.
Definition no_worker : RemoteObjectInfo := mkRemoteObjectInfo 0 "" 0 false true.

(** [reset], the part that clears the indexes; the write-back queue is drained
    before. *)
Definition reset_indexes (s : DataService) : DataService :=
  s <| local_idx_ := ∅ |> <| remote_idx_ := ∅ |> <| worker_registry_ := ∅ |>
    <| db_paths_ := ∅ |> <| db_refs_ := ∅ |>.

Definition empty_service (c : ObjectCache) : DataService := mkDataService ∅ 0 ∅ ∅ ∅ ∅ ∅ c.

(** ** Database registry *)

Definition register_database (db_path data_path writer_id : string) (s : DataService) : DataService :=
  s <| db_refs_ ::= fun m => <[db_path := default 0 (m !! db_path) + 1]> m |>
    <| db_paths_ ::= <[db_path := mkDbPaths db_path data_path writer_id]> |>.

Definition unregister_database (db_path : string) (s : DataService) : DataService :=
  if decide (db_path = "") then s
  else
    match db_refs_ s !! db_path with
    | Some n =>
        if n <=? 1 then s <| db_refs_ ::= delete db_path |> <| db_paths_ ::= delete db_path |>
        else s <| db_refs_ ::= <[db_path := n - 1]> |>
    | None => s <| db_refs_ ::= delete db_path |> <| db_paths_ ::= delete db_path |>
    end.

Definition has_database (db_path : string) (s : DataService) : bool :=
  bool_decide (is_Some (db_paths_ s !! db_path)).

(** ** Local index *)

(** [local_idx_[db_path].objects_] *)
Definition objects_of (db_path : string) (s : DataService) : gmap string N :=
  default ∅ (local_idx_ s !! db_path).

(** The reference and the entry of an object, when the index has it. *)
Definition find_ref (db_path short_name : string) (s : DataService) : option N :=
  objs ← local_idx_ s !! db_path; objs !! short_name.

Definition find_info (db_path short_name : string) (s : DataService) : option LocalObjectInfo :=
  r ← find_ref db_path short_name s; infos_ s !! r.

(** [objs[short_name] = info] with a new entry. *)
Definition put_new (db_path short_name : string) (info : LocalObjectInfo) (s : DataService) : DataService :=
  s <| local_idx_ ::= fun m => <[db_path := <[short_name := next_info_ s]> (default ∅ (m !! db_path))]> m |>
    <| infos_ ::= <[next_info_ s := info]> |>
    <| next_info_ ::= N.succ |>.

(** [local_idx_[db_path]]: the slot of the database exists afterwards. *)
Definition touch_db (db_path : string) (s : DataService) : DataService :=
  s <| local_idx_ ::= map_touch ∅ db_path |>.

(** Update the entry of an object in place, creating it first when it is absent. *)
Definition upsert_info (db_path short_name : string) (f : LocalObjectInfo -> LocalObjectInfo)
    (s : DataService) : DataService :=
  match find_ref db_path short_name s with
  | Some r => s <| infos_ ::= alter f r |>
  | None => put_new db_path short_name (f new_info) s
  end.

(** Update the entry of an object in place when the index has it. *)
Definition update_info (db_path short_name : string) (f : LocalObjectInfo -> LocalObjectInfo)
    (s : DataService) : DataService :=
  match find_ref db_path short_name s with
  | Some r => s <| infos_ ::= alter f r |>
  | None => s
  end.

Definition erase_object (db_path short_name : string) (s : DataService) : DataService :=
  s <| local_idx_ ::= alter (delete short_name) db_path |>.

Definition on_object_written (db_path object_name : string) (entry : IndexEntry) (s : DataService) : DataService :=
  let '(_, short_name) := split_full object_name in
  upsert_info db_path short_name (fun i =>
    i <| info_db_path_ := db_path |> <| entries_ ::= fun l => l ++ [entry] |>
      <| flushed_ := false |> <| completion_state_ := COMPLETE |>) s.

Definition on_flush (db_path : string) (s : DataService) : DataService :=
  s <| infos_ ::= fun h => foldl (fun h r => alter (fun i => i <| flushed_ := true |>) r h) h
                            (map_to_list (objects_of db_path s)).*2 |>.

Definition on_write_started (db_path object_name : string) (s : DataService) : DataService :=
  let '(_, short_name) := split_full object_name in
  let s := touch_db db_path s in
  match find_info db_path short_name s with
  | Some i =>
      if decide (completion_state_ i = COMPLETE) then s
      else put_new db_path short_name (new_info <| info_db_path_ := db_path |>) s
  | None => put_new db_path short_name (new_info <| info_db_path_ := db_path |>) s
  end.

Definition on_write_completed (db_path object_name : string) (entries : list IndexEntry) (s : DataService) :
    DataService :=
  let '(_, short_name) := split_full object_name in
  update_info db_path short_name (fun i => i <| entries_ := entries |> <| completion_state_ := COMPLETE |>) s.

Definition on_write_failed (db_path object_name : string) (s : DataService) : DataService :=
  let '(_, short_name) := split_full object_name in
  match find_ref db_path short_name s with
  | None => s
  | Some r =>
      erase_object db_path short_name (s <| infos_ ::= alter (fun i => i <| completion_state_ := FAILED |>) r |>)
  end.

Definition remove_local_index (object_name : string) (s : DataService) : DataService :=
  let '(db_path, short_name) := split_full object_name in
  erase_object db_path short_name s <| object_cache_ ::= ObjectCache.remove object_name |>.

Definition clear_local_index_for_db (db_path : string) (s : DataService) : DataService :=
  s <| local_idx_ ::= delete db_path |>.

Definition clear_remote_index_for_db (db_path : string) (s : DataService) : DataService :=
  s <| remote_idx_ ::= delete db_path |>.

Definition has_local_object (object_name : string) (s : DataService) : bool :=
  let '(db_path, short_name) := split_full object_name in
  match find_info db_path short_name s with
  | Some i => bool_decide (completion_state_ i = COMPLETE)
  | None => false
  end.

Definition on_object_flushed (object_name : string) (s : DataService) : DataService :=
  let '(db_path, short_name) := split_full object_name in
  update_info db_path short_name (fun i => i <| flushed_ := true |>) s.

(** [entries_.push_back(e)] unless an entry with the same non-empty hash is
    there; the boolean says whether the entry was added. *)
Definition add_entry (e : IndexEntry) (l : list IndexEntry) : bool * list IndexEntry :=
  if decide (write_context_hash_ e <> "" /\ write_context_hash_ e ∈ (write_context_hash_ <$> l))
  then (false, l) else (true, l ++ [e]).

(** The key of an entry in [grouped]: entries name objects by their short name. *)
Definition entry_key (e : IndexEntry) : string :=
  let '(entry_db_path, short_name) := split_full (object_name_ e) in
  if decide (entry_db_path = "") then object_name_ e else short_name.

(** Entries by key, in the order of the file within a key. *)
Definition group_entries (entries : list IndexEntry) : gmap string (list IndexEntry) :=
  foldl (fun m e => <[entry_key e := default [] (m !! entry_key e) ++ [e]]> m) ∅ entries.

Definition restore_entries (db_path : string) (entries : list IndexEntry) (s : DataService) : DataService :=
  let grouped := map_to_list (group_entries entries) in
  let s := touch_db db_path s in
  let s := foldl (fun s g =>
    upsert_info db_path g.1 (fun i =>
      i <| info_db_path_ := db_path |> <| entries_ ::= fun l => foldl (fun l e => (add_entry e l).2) l g.2 |>
        <| completion_state_ := COMPLETE |> <| flushed_ := true |>) s) s grouped in
  foldl (fun s g => s <| object_cache_ ::= ObjectCache.remove (full_name db_path g.1) |>) s grouped.

(** A temporary entry that is a duplicate only marks its object as temporary. *)
Definition restore_temp_entry (db_path : string) (e : IndexEntry) (i : LocalObjectInfo) : LocalObjectInfo :=
  let i := i <| info_db_path_ := db_path |> <| is_temp_ := true |> in
  match add_entry e (entries_ i) with
  | (false, _) => i
  | (true, l) => i <| entries_ := l |> <| completion_state_ := COMPLETE |> <| flushed_ := true |>
  end.

Definition restore_temp_entries (db_path : string) (entries : list IndexEntry) (s : DataService) : DataService :=
  let added (s : DataService) (e : IndexEntry) :=
    match find_info db_path (object_name_ e) s with
    | Some i => (add_entry e (entries_ i)).1
    | None => true
    end in
  let s := touch_db db_path s in
  let '(s, touched) := foldl (fun '(s, touched) e =>
    (upsert_info db_path (object_name_ e) (restore_temp_entry db_path e) s,
     if added s e then touched ++ [full_name db_path (object_name_ e)] else touched)) (s, []) entries in
  foldl (fun s full => s <| object_cache_ ::= ObjectCache.remove full |>) s touched.

Definition find_local_entries (object_name : string) (s : DataService) : option (list IndexEntry) :=
  let '(db_path, short_name) := split_full object_name in
  entries_ <$> find_info db_path short_name s.

Definition is_write_in_progress (object_name : string) (s : DataService) : bool :=
  let '(db_path, short_name) := split_full object_name in
  match find_info db_path short_name s with
  | Some i => bool_decide (completion_state_ i = INCOMPLETE)
  | None => false
  end.

Definition is_temp_object (object_name : string) (s : DataService) : bool :=
  let '(db_path, short_name) := split_full object_name in
  match find_info db_path short_name s with Some i => is_temp_ i | None => false end.

Definition get_write_context_hash (object_name : string) (s : DataService) : string :=
  let '(db_path, short_name) := split_full object_name in
  match find_info db_path short_name s with
  | Some i => match last (entries_ i) with Some e => write_context_hash_ e | None => "" end
  | None => ""
  end.

Definition on_temp_write_started (db_path object_name : string) (s : DataService) : DataService :=
  let '(_, short_name) := split_full object_name in
  put_new db_path short_name (new_info <| info_db_path_ := db_path |> <| is_temp_ := true |>) s.

Definition on_temp_write (db_path object_name : string) (disk_entry : option IndexEntry) (s : DataService) :
    DataService :=
  let '(_, short_name) := split_full object_name in
  update_info db_path short_name (fun i =>
    (match disk_entry with Some e => i <| entries_ := [e] |> | None => i end)
      <| completion_state_ := COMPLETE |>) (touch_db db_path s).

Definition cleanup_temp_entries (db_path : string) (s : DataService) : DataService :=
  s <| local_idx_ ::= alter (filter (fun o => default false (is_temp_ <$> infos_ s !! o.2) = false)) db_path |>.

(** ** Remote index *)

Definition register_worker (worker_id : N) (host : string) (port : Z) (storage_only : bool) (s : DataService) :
    DataService :=
  s <| worker_registry_ ::= <[worker_id := mkRemoteObjectInfo worker_id host port storage_only true]> |>.

Definition set_worker_alive (worker_id : N) (alive : bool) (s : DataService) : DataService :=
  s <| worker_registry_ ::= alter (fun i => i <| r_alive_ := alive |>) worker_id |>.

Definition is_storage_worker (worker_id : N) (s : DataService) : bool :=
  match worker_registry_ s !! worker_id with Some i => r_storage_only_ i | None => false end.

Definition get_worker_address (worker_id : N) (s : DataService) : RemoteObjectInfo :=
  default no_worker (worker_registry_ s !! worker_id).

(** [remote_idx_[db_path][short_name]] updated in place. *)
Definition upsert_meta (db_path short_name : string) (f : RemoteObjectMeta -> RemoteObjectMeta)
    (s : DataService) : DataService :=
  s <| remote_idx_ ::= fun m =>
    let objs := default ∅ (m !! db_path) in
    <[db_path := <[short_name := f (default new_meta (objs !! short_name))]> objs]> m |>.

Definition find_meta (db_path short_name : string) (s : DataService) : option RemoteObjectMeta :=
  objs ← remote_idx_ s !! db_path; objs !! short_name.

Definition add_remote_location (object_name : string) (worker_id : N) (s : DataService) : DataService :=
  let '(db_path, short_name) := split_full object_name in
  upsert_meta db_path short_name (fun m =>
    if decide (worker_id ∈ workers_ m) then m else m <| workers_ ::= fun l => l ++ [worker_id] |>) s.

Definition update_remote_idx (object_name : string) (worker_id : N) (host : string) (port size_bytes : Z)
    (storage_only : bool) (s : DataService) : DataService :=
  let s := register_worker worker_id host port storage_only s in
  let s := add_remote_location object_name worker_id s in
  if 0 <? size_bytes then
    let '(db_path, short_name) := split_full object_name in
    upsert_meta db_path short_name (fun m => m <| size_bytes_ := size_bytes |>) s
  else s.

Definition get_remote_size (object_name : string) (s : DataService) : Z :=
  let '(db_path, short_name) := split_full object_name in
  match find_meta db_path short_name s with Some m => size_bytes_ m | None => 0 end.

(** The overload with one argument: all locations of an object. *)
Definition remove_remote_location (object_name : string) (s : DataService) : DataService :=
  let '(db_path, short_name) := split_full object_name in
  s <| remote_idx_ ::= alter (delete short_name) db_path |>.

(** The overload with a worker; the master's index is authoritative and keeps
    the location. *)
Definition remove_remote_replica (worker_mode : bool) (object_name : string) (worker_id : N)
    (s : DataService) : DataService :=
  if negb worker_mode then s
  else
    let '(db_path, short_name) := split_full object_name in
    match find_meta db_path short_name s with
    | None => s
    | Some m =>
        let workers := filter (fun w => w <> worker_id) (workers_ m) in
        if decide (workers = []) then s <| remote_idx_ ::= alter (delete short_name) db_path |>
        else upsert_meta db_path short_name (fun m => m <| workers_ := workers |>) s
    end.

Definition get_remote_workers (object_name : string) (s : DataService) : list N :=
  let '(db_path, short_name) := split_full object_name in
  match find_meta db_path short_name s with Some m => workers_ m | None => [] end.

Definition get_objects_of_worker (worker_id : N) (s : DataService) : list string :=
  concat ((fun d => (fun o => full_name d.1 o.1) <$>
    filter (fun o => worker_id ∈ workers_ o.2) (map_to_list d.2)) <$> map_to_list (remote_idx_ s)).

(** The bytes each of the given workers holds; every holder has its own copy. *)
Definition get_worker_bytes_batch (worker_ids : gset N) (s : DataService) : gmap N Z :=
  foldl (fun b m => foldl (fun b h => alter (fun n => n + size_bytes_ m) h b) b (workers_ m))
    (gset_to_gmap 0 worker_ids)
    (concat ((fun d => (map_to_list d.2).*2) <$> map_to_list (remote_idx_ s))).

Definition has_remote_location (object_name : string) (s : DataService) : bool :=
  let '(db_path, short_name) := split_full object_name in
  match find_meta db_path short_name s with
  | Some m => negb (bool_decide (workers_ m = []))
  | None => false
  end.

Definition lookup_remote_idx (object_name : string) (s : DataService) : RemoteObjectInfo :=
  match get_remote_workers object_name s with
  | wid :: _ => default no_worker (worker_registry_ s !! wid)
  | [] => no_worker
  end.

(** Living storage nodes first, then other living workers, dead workers last. *)
Definition replica_rank (r : RemoteObjectInfo) : nat :=
  if negb (r_alive_ r) then 2%nat else if r_storage_only_ r then 0%nat else 1%nat.

(** The comparison of [stable_sort]. *)
Definition replica_before (probe : bool) (score : string -> Q) (a b : RemoteObjectInfo) : bool :=
  if decide (replica_rank a <> replica_rank b) then bool_decide (replica_rank a < replica_rank b)%nat
  else if negb probe then false
  else negb (Qle_bool (score (r_host_ a)) (score (r_host_ b))).

(** [std::stable_sort]: an element goes before the first one that is after it. *)
Fixpoint stable_insert {A} (before : A -> A -> bool) (x : A) (l : list A) : list A :=
  match l with
  | [] => [x]
  | y :: l => if before y x then y :: stable_insert before x l else x :: y :: l
  end.

Definition stable_sort {A} (before : A -> A -> bool) (l : list A) : list A :=
  foldr (stable_insert before) [] l.

Definition lookup_all_remote_idx (probe : bool) (score : string -> Q) (object_name : string) (s : DataService) :
    list RemoteObjectInfo :=
  stable_sort (replica_before probe score)
    (omap (fun wid => worker_registry_ s !! wid) (get_remote_workers object_name s)).

Definition remove_remote_index (object_name : string) (s : DataService) : DataService :=
  let '(db_path, short_name) := split_full object_name in
  s <| remote_idx_ ::= alter (delete short_name) db_path |>
    <| object_cache_ ::= ObjectCache.remove object_name |>.

Definition get_all_workers (s : DataService) : list RemoteObjectInfo := (map_to_list (worker_registry_ s)).*2.

(** ** Access counts *)

Definition record_remote_access (now_s : Z) (object_name : string) (size_bytes : Z) (s : DataService) : DataService :=
  let '(db_path, short_name) := split_full object_name in
  match find_meta db_path short_name s with
  | None => s
  | Some _ =>
      upsert_meta db_path short_name (fun m =>
        let m := m <| read_count_ ::= fun n => u64 (n + 1) |> in
        let m := if 0 <? size_bytes
                 then m <| size_bytes_ := size_bytes |> <| accumulated_bytes_ ::= fun n => u64 (n + size_bytes) |>
                 else m in
        m <| last_access_time_ := now_s |>) s
  end.

Record SuggestConfig := mkSuggestConfig {
  auto_backup_enabled : Z;
  worker_suggest_cooldown : Z;
  worker_suggest_bytes_threshold : Z;
  worker_suggest_count_threshold : Z
}.

(** [maybe_suggest_backup]: the counts reported to the master, when the
    thresholds are reached, and the counters cleared. *)
Definition maybe_suggest_backup (cfg : SuggestConfig) (now_s : Z) (object_name : string) (s : DataService) :
    option (string * Z * Z * Z) * DataService :=
  if negb (auto_backup_enabled cfg =? 1) then (None, s)
  else
    let '(db_path, short_name) := split_full object_name in
    match find_meta db_path short_name s with
    | None => (None, s)
    | Some m =>
        if now_s - last_suggest_time_ m <? worker_suggest_cooldown cfg then (None, s)
        else if (accumulated_bytes_ m <? u64 (worker_suggest_bytes_threshold cfg)) &&
                (read_count_ m <? u64 (worker_suggest_count_threshold cfg)) then (None, s)
        else
          (Some (object_name, read_count_ m, accumulated_bytes_ m, size_bytes_ m),
           upsert_meta db_path short_name (fun m =>
             m <| read_count_ := 0 |> <| accumulated_bytes_ := 0 |> <| last_suggest_time_ := now_s |>) s)
    end.

Definition get_access_read_count (object_name : string) (s : DataService) : Z :=
  let '(db_path, short_name) := split_full object_name in
  match find_meta db_path short_name s with Some m => read_count_ m | None => 0 end.

(** ** Registering a write *)

Inductive TaskErrorType :=
  | UNKNOWN | EXECUTION_ERROR | WRITE_TO_FROZEN_DB | WRITE_REGISTRATION_FAILED | WRITE_REGISTRATION_TIMEOUT
  | WRITE_PROVENANCE_MISMATCH | WRITE_DUPLICATE_SKIPPED | DB_ALREADY_FROZEN.
#[export] Instance TaskErrorType_eq_dec : EqDecision TaskErrorType.
Proof. solve_decision. Defined.

Inductive WriteErrorType := OK | FROZEN_DB | REGISTRATION_FAILED | REGISTRATION_TIMEOUT | DUPLICATE_SKIPPED.

(** The check a worker makes on its own index before it asks the master
    ([register_write_with_master], first part): the error it returns, or [None]
    when the master is asked; the second value is what becomes of the last error
    of the task. *)
Definition register_precheck (ctx_hash : string) (preliminary : bool) (full : string) (s : DataService) :
    option TaskErrorType * option TaskErrorType :=
  if decide (ctx_hash <> "" /\ preliminary = false) then
    match find_local_entries full s with
    | None | Some [] => (None, None)
    | Some entries =>
        if decide (Exists (fun e => write_context_hash_ e <> "" /\ write_context_hash_ e <> ctx_hash) entries)
        then (Some WRITE_PROVENANCE_MISMATCH, Some WRITE_PROVENANCE_MISMATCH)
        else if decide (Exists (fun e => write_context_hash_ e = ctx_hash) entries)
             then (Some UNKNOWN, Some WRITE_DUPLICATE_SKIPPED)
             else (None, None)
    end
  else (None, None).

(** [Database::commit_write] up to the write-back request: the entry is opened,
    the write is registered with the answer [reg], and a rejected write is taken
    back.  The boolean says whether a request was queued. *)
Definition commit_write (db_path full : string) (reg : DataService -> TaskErrorType) (s : DataService) :
    WriteErrorType * bool * DataService :=
  let s := on_write_started db_path full s in
  let taken_back := on_write_failed db_path full (s <| object_cache_ ::= ObjectCache.remove full |>) in
  match reg s with
  | WRITE_DUPLICATE_SKIPPED => (DUPLICATE_SKIPPED, false, taken_back)
  | WRITE_PROVENANCE_MISMATCH => (REGISTRATION_FAILED, false, taken_back)
  | WRITE_REGISTRATION_FAILED => (REGISTRATION_FAILED, false, taken_back)
  | WRITE_REGISTRATION_TIMEOUT => (REGISTRATION_TIMEOUT, false, taken_back)
  | WRITE_TO_FROZEN_DB => (FROZEN_DB, false, taken_back)
  | _ => (OK, true, s)
  end.

(** The completion and the failure of the queued write. *)
Definition write_back_complete (db_path full : string) (entries : option (list IndexEntry)) (s : DataService) :
    DataService :=
  let s := match entries with Some es => on_write_completed db_path full es s | None => s end in
  on_object_flushed full s.

Definition write_back_error (db_path full : string) (s : DataService) : DataService :=
  on_write_failed db_path full (s <| object_cache_ ::= ObjectCache.remove full |>).

(** ** Reading locally *)

(** What [try_read_local_raw] finds under the lock. *)
Inductive LocalLookup := NotFound | NotReady (waits_on : N) | Found (entries : list IndexEntry).

Definition lookup_under_lock (object_name : string) (s : DataService) : LocalLookup :=
  let '(db_path, short_name) := split_full object_name in
  match find_ref db_path short_name s with
  | None => NotFound
  | Some r =>
      match infos_ s !! r with
      | None => NotFound
      | Some i =>
          if decide (completion_state_ i = COMPLETE) then
            match db_paths_ s !! db_path with
            | Some p => if decide (p_db_path_ p = "") then NotFound else Found (entries_ i)
            | None => NotFound
            end
          else NotReady r
      end
  end.

(** The predicate of the wait: the entry the reader holds is no longer in
    progress. *)
Definition wait_over (r : N) (s : DataService) : bool :=
  match infos_ s !! r with Some i => negb (bool_decide (completion_state_ i = INCOMPLETE)) | None => false end.

(** ** The local index as a state machine *)

Inductive index_op :=
  | OpObjectWritten (db_path object_name : string) (entry : IndexEntry)
  | OpFlush (db_path : string)
  | OpWriteStarted (db_path object_name : string)
  | OpWriteCompleted (db_path object_name : string) (entries : list IndexEntry)
  | OpWriteFailed (db_path object_name : string)
  | OpRemoveLocal (object_name : string)
  | OpClearLocal (db_path : string)
  | OpObjectFlushed (object_name : string)
  | OpRestore (db_path : string) (entries : list IndexEntry)
  | OpRestoreTemp (db_path : string) (entries : list IndexEntry)
  | OpTempStarted (db_path object_name : string)
  | OpTempWrite (db_path object_name : string) (disk_entry : option IndexEntry)
  | OpCleanupTemp (db_path : string).

Definition index_apply (op : index_op) (s : DataService) : DataService :=
  match op with
  | OpObjectWritten d o e => on_object_written d o e s
  | OpFlush d => on_flush d s
  | OpWriteStarted d o => on_write_started d o s
  | OpWriteCompleted d o es => on_write_completed d o es s
  | OpWriteFailed d o => on_write_failed d o s
  | OpRemoveLocal o => remove_local_index o s
  | OpClearLocal d => clear_local_index_for_db d s
  | OpObjectFlushed o => on_object_flushed o s
  | OpRestore d es => restore_entries d es s
  | OpRestoreTemp d es => restore_temp_entries d es s
  | OpTempStarted d o => on_temp_write_started d o s
  | OpTempWrite d o e => on_temp_write d o e s
  | OpCleanupTemp d => cleanup_temp_entries d s
  end.

Definition index_run (ops : list index_op) (s : DataService) : DataService :=
  foldl (fun s op => index_apply op s) s ops.

(** The operation can take the entry of an object out of the index. *)
Definition displaces (db_path short_name : string) (op : index_op) : Prop :=
  match op with
  | OpWriteStarted d o | OpWriteFailed d o | OpTempStarted d o => d = db_path /\ (split_full o).2 = short_name
  | OpRemoveLocal o => split_full o = (db_path, short_name)
  | OpClearLocal d | OpCleanupTemp d => d = db_path
  | _ => False
  end.

(** ** Facts about references *)

Lemma find_ref_put_new db sh i s d n :
  find_ref d n (put_new db sh i s) = if decide (d = db /\ n = sh) then Some (next_info_ s) else find_ref d n s.
Proof.
  unfold find_ref, put_new. cbn. destruct (decide (d = db)) as [->|Hd].
  - rewrite lookup_insert_eq. cbn. destruct (decide (n = sh)) as [->|Hn].
    + rewrite lookup_insert_eq. by rewrite decide_True.
    + rewrite lookup_insert_ne by done. rewrite decide_False by naive_solver. by destruct (local_idx_ s !! db).
  - rewrite lookup_insert_ne by done. by rewrite decide_False by naive_solver.
Qed.

Lemma find_ref_touch db s d n : find_ref d n (touch_db db s) = find_ref d n s.
Proof.
  unfold find_ref, touch_db, map_touch. cbn. destruct (decide (d = db)) as [->|Hd].
  - rewrite lookup_insert_eq. by destruct (local_idx_ s !! db).
  - by rewrite lookup_insert_ne.
Qed.

Lemma find_ref_erase db sh s d n :
  find_ref d n (erase_object db sh s) = if decide (d = db /\ n = sh) then None else find_ref d n s.
Proof.
  unfold find_ref, erase_object. cbn. destruct (decide (d = db)) as [->|Hd].
  - rewrite lookup_alter_eq. destruct (local_idx_ s !! db) as [m|]; cbn; [|by case_decide].
    destruct (decide (n = sh)) as [->|Hn]; [by rewrite lookup_delete_eq, decide_True|].
    rewrite lookup_delete_ne by done. by rewrite decide_False by naive_solver.
  - rewrite lookup_alter_ne by done. by rewrite decide_False by naive_solver.
Qed.

(** An update in place keeps the references. *)
Lemma find_ref_infos f s d n : find_ref d n (s <| infos_ ::= f |>) = find_ref d n s.
Proof. done. Qed.

Lemma find_ref_cache f s d n : find_ref d n (s <| object_cache_ ::= f |>) = find_ref d n s.
Proof. done. Qed.

(** Every operation is a sequence of elementary changes: an entry is created
    where there was none or where the operation may displace one, an entry that
    the index holds is updated in place, or references are dropped. *)
Inductive change (Q : string -> string -> Prop) (s : DataService) : DataService -> Prop :=
  | change_new d n i : find_ref d n s = None \/ Q d n -> change Q s (put_new d n i s)
  | change_info d n r f : find_ref d n s = Some r -> change Q s (s <| infos_ ::= alter f r |>)
  | change_touch d : change Q s (touch_db d s)
  | change_cache f : change Q s (s <| object_cache_ ::= f |>)
  | change_drop m :
      (forall d n, find_ref d n (s <| local_idx_ := m |>) = find_ref d n s \/
                   (find_ref d n (s <| local_idx_ := m |>) = None /\ Q d n)) ->
      change Q s (s <| local_idx_ := m |>).

Abbreviation changes Q := (rtc (change Q)).

Lemma changes_foldl {A} Q (f : DataService -> A -> DataService) l s :
  (forall s x, changes Q s (f s x)) -> changes Q s (foldl f s l).
Proof.
  intros Hf. revert s. induction l as [|x l IH]; intros s; cbn; [done|]. etrans; [apply Hf|apply IH].
Qed.

Lemma upsert_changes Q db sh f s : changes Q s (upsert_info db sh f s).
Proof.
  unfold upsert_info. destruct (find_ref db sh s) as [r|] eqn:E; apply rtc_once; [by eapply change_info|].
  apply change_new. by left.
Qed.

Lemma update_changes Q db sh f s : changes Q s (update_info db sh f s).
Proof. unfold update_info. destruct (find_ref db sh s) as [r|] eqn:E; [|done]. apply rtc_once. by eapply change_info. Qed.

Lemma erase_changes (Q : string -> string -> Prop) db sh s : Q db sh -> changes Q s (erase_object db sh s).
Proof.
  intros HQ. apply rtc_once. apply (change_drop Q s (alter (delete sh) db (local_idx_ s))). intros d n.
  change (s <| local_idx_ := _ |>) with (erase_object db sh s). rewrite find_ref_erase.
  case_decide as E; [|by left]. destruct E as [-> ->]. by right.
Qed.

Lemma on_flush_changes Q db s : changes Q s (on_flush db s).
Proof.
  unfold on_flush.
  assert (H : forall l h, (forall r, r ∈ l -> exists n, find_ref db n s = Some r) ->
    changes Q (s <| infos_ := h |>)
      (s <| infos_ := foldl (fun h r => alter (fun i => i <| flushed_ := true |>) r h) h l |>)).
  { intros l. induction l as [|r l IH]; intros h Hl; cbn [foldl]; [done|].
    destruct (Hl r) as [n Hn]; [by left|]. etrans; [|apply IH; intros r' ?; apply Hl; by right].
    apply rtc_once. set (s1 := s <| infos_ := h |>). by apply (change_info Q s1 db n r (fun i => i <| flushed_ := true |>)). }
  specialize (H (map_to_list (objects_of db s)).*2 (infos_ s)).
  replace (s <| infos_ := infos_ s |>) with s in H by (by destruct s). apply H.
  intros r ([n r'] & -> & Hin%elem_of_map_to_list)%list_elem_of_fmap. exists n. unfold find_ref.
  unfold objects_of in Hin. by destruct (local_idx_ s !! db).
Qed.

Lemma op_changes op s : changes (fun d n => displaces d n op) s (index_apply op s).
Proof.
  destruct op as [d o e|d|d o|d o es|d o|o|d|o|d es|d es|d o|d o e|d]; cbn.
  - unfold on_object_written. destruct (split_full o). apply upsert_changes.
  - apply on_flush_changes.
  - unfold on_write_started. destruct (split_full o) as [x n] eqn:E.
    etrans; [apply rtc_once, change_touch|]. set (s1 := touch_db d s).
    assert (Hnew : forall i, changes (fun d0 n0 => d = d0 /\ n = n0) s1 (put_new d n i s1))
      by (intros i; apply rtc_once, change_new; by right).
    destruct (find_info d n s1) as [i|]; [case_decide; [apply rtc_refl|]|]; apply Hnew.
  - unfold on_write_completed. destruct (split_full o). apply update_changes.
  - unfold on_write_failed. destruct (split_full o) as [x n] eqn:E. destruct (find_ref d n s) as [r|] eqn:Er; [|done].
    etrans; [apply rtc_once; by eapply (change_info _ s d n r)|]. by apply erase_changes.
  - unfold remove_local_index. destruct (split_full o) as [d n] eqn:E.
    etrans; [by apply (erase_changes _ d n)|]. apply rtc_once, change_cache.
  - unfold clear_local_index_for_db. apply rtc_once, (change_drop _ s (delete d (local_idx_ s))). intros d' n.
    unfold find_ref. cbn. destruct (decide (d = d')) as [->|]; [right; by rewrite lookup_delete_eq|].
    left. by rewrite lookup_delete_ne.
  - unfold on_object_flushed. destruct (split_full o). apply update_changes.
  - unfold restore_entries. set (G := map_to_list (group_entries es)).
    etrans; [apply rtc_once, (change_touch _ s d)|]. etrans; [|apply changes_foldl; intros; apply rtc_once, change_cache].
    apply changes_foldl. intros. apply upsert_changes.
  - unfold restore_temp_entries. etrans; [apply rtc_once, (change_touch _ s d)|].
    set (s1 := touch_db d s).
    assert (H : forall l s2 touched, changes (fun _ _ => False) s2 (foldl (fun '(s, touched) e =>
      (upsert_info d (object_name_ e) (restore_temp_entry d e) s,
       if match find_info d (object_name_ e) s with Some i => (add_entry e (entries_ i)).1 | None => true end
       then touched ++ [full_name d (object_name_ e)] else touched)) (s2, touched) l).1).
    { intros l. induction l as [|e l IH]; intros s2 touched; cbn [foldl]; [done|].
      etrans; [apply upsert_changes|]. apply IH. }
    specialize (H es s1 []). destruct (foldl _ (s1, []) es) as [s3 t3] eqn:E.
    etrans; [exact H|]. apply changes_foldl. intros. apply rtc_once, change_cache.
  - unfold on_temp_write_started. destruct (split_full o) as [x n] eqn:E. apply rtc_once, change_new. right. by cbn.
  - unfold on_temp_write. destruct (split_full o). etrans; [apply rtc_once, change_touch|]. apply update_changes.
  - unfold cleanup_temp_entries. apply rtc_once, (change_drop _ s (alter _ d (local_idx_ s))). intros d' n.
    unfold find_ref. cbn. destruct (decide (d = d')) as [->|]; [|left; by rewrite lookup_alter_ne].
    rewrite lookup_alter_eq. destruct (local_idx_ s !! d') as [m|]; cbn; [|by left].
    destruct (m !! n) as [r|] eqn:Er.
    + destruct (filter _ m !! n) as [r'|] eqn:Ef; [|by right]. left.
      apply map_lookup_filter_Some in Ef as [Ef _]. congruence.
    + left. apply map_lookup_filter_None. by left.
Qed.

(** ** Readers that wait *)

(** A reader waits on the entry of an object that the index still holds. *)
Definition waits_for (db sh : string) (r : N) (s : DataService) : Prop :=
  find_ref db sh s = Some r /\ is_Some (infos_ s !! r) /\ (r < next_info_ s)%N.

Lemma waits_change (Q : string -> string -> Prop) db sh r s s' :
  ~ Q db sh -> change Q s s' -> waits_for db sh r s -> waits_for db sh r s'.
Proof.
  intros HQ Hc (Hf & Hi & Hlt). destruct Hc as [d n i Hd|d n r' f Hr|d|f|m Hm].
  - split; [|split].
    + rewrite find_ref_put_new, decide_False; [done|]. intros [<- <-]. destruct Hd; [congruence|done].
    + cbn. rewrite lookup_insert_ne by lia. done.
    + cbn. lia.
  - split; [done|]. split; [|done]. cbn. destruct (decide (r' = r)) as [->|].
    + rewrite lookup_alter_eq. by apply fmap_is_Some.
    + by rewrite lookup_alter_ne.
  - split; [by rewrite find_ref_touch|done].
  - done.
  - split; [|done]. destruct (Hm db sh) as [->|[_ ?]]; done.
Qed.

Lemma waits_changes (Q : string -> string -> Prop) db sh r s s' :
  ~ Q db sh -> changes Q s s' -> waits_for db sh r s -> waits_for db sh r s'.
Proof. intros HQ. induction 1; eauto using waits_change. Qed.

Lemma waits_run ops db sh r s :
  (forall op, op ∈ ops -> ~ displaces db sh op) -> waits_for db sh r s -> waits_for db sh r (index_run ops s).
Proof.
  revert s. induction ops as [|op ops IH]; intros s Hops Hw; cbn; [done|].
  apply IH; [intros; apply Hops; by right|]. eapply waits_changes; [|apply op_changes|done]. apply Hops. by left.
Qed.

(** A reader holds an entry that the index has dropped. *)
Definition stranded (r : N) (i : LocalObjectInfo) (s : DataService) : Prop :=
  infos_ s !! r = Some i /\ (r < next_info_ s)%N /\ forall d n, find_ref d n s <> Some r.

Lemma stranded_change Q r i s s' : change Q s s' -> stranded r i s -> stranded r i s'.
Proof.
  intros Hc (Hi & Hlt & Hno). destruct Hc as [d n i' Hd|d n r' f Hr|d|f|m Hm].
  - split; [|split].
    + cbn. by rewrite lookup_insert_ne by lia.
    + cbn. lia.
    + intros d' n'. rewrite find_ref_put_new. case_decide; [intros [=]; lia|apply Hno].
  - split; [|done]. cbn. rewrite lookup_alter_ne; [done|]. intros ->. by apply (Hno d n).
  - split; [done|]. split; [done|]. intros d' n'. rewrite find_ref_touch. apply Hno.
  - done.
  - split; [done|]. split; [done|]. intros d' n'. destruct (Hm d' n') as [->|[-> _]]; [apply Hno|done].
Qed.

Lemma stranded_run ops r i s : stranded r i s -> stranded r i (index_run ops s).
Proof.
  revert s. induction ops as [|op ops IH]; intros s Hs; cbn; [done|]. apply IH.
  assert (H : forall s', changes (fun d n => displaces d n op) s s' -> stranded r i s');
    [|by apply H, op_changes]. induction 1; eauto using stranded_change.
Qed.

(** References point to entries of the heap, and no two slots share one. *)
Record refs_ok (s : DataService) : Prop := {
  ref_info : forall d n r, find_ref d n s = Some r -> is_Some (infos_ s !! r) /\ (r < next_info_ s)%N;
  ref_inj : forall d n d' n' r, find_ref d n s = Some r -> find_ref d' n' s = Some r -> d = d' /\ n = n'
}.

Lemma refs_ok_change Q s s' : change Q s s' -> refs_ok s -> refs_ok s'.
Proof.
  intros Hc [Hi Hj]. destruct Hc as [d n i Hd|d n r' f Hr|d|f|m Hm].
  - split.
    + intros d' n' r. rewrite find_ref_put_new. case_decide.
      * intros [= <-]. cbn. split; [by rewrite lookup_insert_eq|lia].
      * intros [Hs Hlt]%Hi. cbn. split; [by rewrite lookup_insert_ne by lia|lia].
    + intros d1 n1 d2 n2 r. rewrite !find_ref_put_new. do 2 case_decide; [naive_solver| | |apply Hj].
      * intros [= <-] [_ ?]%Hi. lia.
      * intros [_ ?]%Hi [= <-]. lia.
  - split; [|done]. intros d' n' r [Hs Hlt]%Hi. split; [|done]. cbn. destruct (decide (r' = r)) as [->|].
    + rewrite lookup_alter_eq. by apply fmap_is_Some.
    + by rewrite lookup_alter_ne.
  - split; intros *; rewrite ?find_ref_touch; [apply Hi|apply Hj].
  - done.
  - assert (Hsub : forall d n r, find_ref d n (s <| local_idx_ := m |>) = Some r -> find_ref d n s = Some r).
    { intros d n r. destruct (Hm d n) as [->|[-> _]]; done. }
    split; [intros d n r ?%Hsub; by eapply Hi|]. intros d n d' n' r ?%Hsub ?%Hsub. by eapply Hj.
Qed.

Lemma refs_ok_run ops s : refs_ok s -> refs_ok (index_run ops s).
Proof.
  revert s. induction ops as [|op ops IH]; intros s Hs; cbn; [done|]. apply IH.
  assert (H : forall s', changes (fun d n => displaces d n op) s s' -> refs_ok s'); [|by apply H, op_changes].
  induction 1; eauto using refs_ok_change.
Qed.

Lemma refs_ok_empty s : local_idx_ s = ∅ -> refs_ok s.
Proof. intros E. split; intros *; unfold find_ref; rewrite E, lookup_empty; done. Qed.

Lemma not_ready_ref db sh s r :
  no_colon sh -> lookup_under_lock (full_name db sh) s = NotReady r ->
  find_ref db sh s = Some r /\ exists i, infos_ s !! r = Some i /\ completion_state_ i <> COMPLETE.
Proof.
  intros Hsh. unfold lookup_under_lock. rewrite split_full_full by done.
  destruct (find_ref db sh s) as [r'|]; [|done]. destruct (infos_ s !! r') as [i|] eqn:Ei; [|done].
  case_decide as Hc; [destruct (db_paths_ s !! db); [by case_decide|done]|]. intros [= <-]. split; [done|]. by exists i.
Qed.

(** A reader that waits for a local write in progress.  Whatever happens to other
    objects, and whatever is done to this one short of displacing its entry, the
    completion of the write wakes the reader and the index then has exactly the
    entries of that write; its failure wakes the reader too, and the object is
    not found any more. *)
Theorem waiting_reader_released s0 before db sh r ops es :
  local_idx_ s0 = ∅ -> no_colon sh ->
  lookup_under_lock (full_name db sh) (index_run before s0) = NotReady r ->
  (forall op, op ∈ ops -> ~ displaces db sh op) ->
  let s := index_run ops (index_run before s0) in
  let done := on_write_completed db (full_name db sh) es s in
  let failed := on_write_failed db (full_name db sh) s in
  wait_over r done = true /\ has_local_object (full_name db sh) done = true /\
  find_local_entries (full_name db sh) done = Some es /\
  wait_over r failed = true /\ lookup_under_lock (full_name db sh) failed = NotFound.
Proof.
  intros H0 Hsh Hl Hops s done failed.
  assert (Hok : refs_ok (index_run before s0)) by (apply refs_ok_run; by apply refs_ok_empty).
  destruct (not_ready_ref _ _ _ _ Hsh Hl) as (Hr & i & Hi & _).
  assert (Hw : waits_for db sh r (index_run before s0)).
  { split; [done|]. by apply (ref_info _ Hok db sh). }
  apply (waits_run ops) in Hw as (Hf & [i' Hi'] & _); [|done]. fold s in Hf, Hi'.
  assert (Ed : done = s <| infos_ ::= alter (fun i => i <| entries_ := es |> <| completion_state_ := COMPLETE |>) r |>).
  { unfold done, on_write_completed. rewrite split_full_full by done. unfold update_info. by rewrite Hf. }
  assert (Fd : find_ref db sh done = Some r) by (by rewrite Ed).
  assert (Id : infos_ done !! r = Some (i' <| entries_ := es |> <| completion_state_ := COMPLETE |>)).
  { rewrite Ed. cbn. by rewrite lookup_alter_eq, Hi'. }
  assert (Ef : failed = erase_object db sh (s <| infos_ ::= alter (fun i => i <| completion_state_ := FAILED |>) r |>)).
  { unfold failed, on_write_failed. rewrite split_full_full by done. by rewrite Hf. }
  unfold wait_over, has_local_object, find_local_entries, lookup_under_lock, find_info.
  rewrite split_full_full by done. rewrite Fd. cbn [mbind option_bind]. rewrite Id.
  split; [done|]. split; [done|]. split; [done|]. rewrite Ef, find_ref_erase, decide_True by done. split; [|done].
  unfold erase_object. cbn. by rewrite lookup_alter_eq, Hi'.
Qed.

(** Two databases; an object of one is being written. *)
Definition sample_service : DataService :=
  register_database "/b" "" "w1" (register_database "/a" "" "w1" (empty_service (empty_cache 1000))).

Definition sample_entry (name hash : string) : IndexEntry := mkIndexEntry name "f" 0 10 false 1 "h" hash.

Lemma waiting_reader_released_witness :
  find_local_entries "/a:x" (on_write_completed "/a" "/a:x" [sample_entry "x" "h1"]
    (index_run [OpWriteStarted "/a" "/a:y"; OpClearLocal "/b"] (index_run [OpWriteStarted "/a" "/a:x"] sample_service)))
  = Some [sample_entry "x" "h1"].
Proof.
  apply (waiting_reader_released sample_service [OpWriteStarted "/a" "/a:x"] "/a" "x" 0%N
           [OpWriteStarted "/a" "/a:y"; OpClearLocal "/b"] [sample_entry "x" "h1"]).
  - reflexivity.
  - reflexivity.
  - vm_compute. reflexivity.
  - intros op [->|[->|[]%elem_of_nil]%elem_of_cons]%elem_of_cons; vm_compute; [intros [_ H]|intros H]; discriminate H.
Defined.

(** Starting the write of an object again while it is in progress gives the
    object a new entry.  A reader that waits on the old one is never woken: no
    later operation on the index, the completion of either write included, ends
    its wait. *)
Theorem restarted_write_strands_reader s0 before db sh r ops :
  local_idx_ s0 = ∅ -> no_colon sh ->
  lookup_under_lock (full_name db sh) (index_run before s0) = NotReady r ->
  wait_over r (index_run before s0) = false ->
  wait_over r (index_run ops (on_write_started db (full_name db sh) (index_run before s0))) = false.
Proof.
  intros H0 Hsh Hl Hw. set (s := index_run before s0) in *.
  assert (Hok : refs_ok s) by (apply refs_ok_run; by apply refs_ok_empty).
  destruct (not_ready_ref _ _ _ _ Hsh Hl) as (Hr & i & Hi & Hc).
  assert (Hst : stranded r i (on_write_started db (full_name db sh) s)).
  { unfold on_write_started. rewrite split_full_full by done.
    assert (Hfi : find_info db sh (touch_db db s) = Some i).
    { unfold find_info. rewrite find_ref_touch, Hr. done. }
    rewrite Hfi, decide_False by done. destruct (ref_info _ Hok _ _ _ Hr) as [_ Hlt]. split; [|split].
    - cbn. by rewrite lookup_insert_ne by lia.
    - cbn. lia.
    - intros d n. rewrite find_ref_put_new. case_decide as E; [intros [=]; cbn in *; lia|]. rewrite find_ref_touch.
      intros Hd. apply E. by destruct (ref_inj _ Hok _ _ _ _ _ Hr Hd). }
  destruct (stranded_run ops _ _ _ Hst) as [E _]. unfold wait_over in *. rewrite Hi in Hw. by rewrite E.
Qed.

Lemma restarted_write_strands_reader_witness :
  wait_over 0%N (index_run [OpWriteCompleted "/a" "/a:x" [sample_entry "x" "h1"]; OpFlush "/a"]
    (on_write_started "/a" "/a:x" (index_run [OpWriteStarted "/a" "/a:x"] sample_service))) = false.
Proof.
  apply (restarted_write_strands_reader sample_service [OpWriteStarted "/a" "/a:x"] "/a" "x" 0%N);
    vm_compute; reflexivity.
Defined.

(** A rejected write destroys what was there.  When an object is complete and a
    new write of it is refused, for whatever reason, taking the write back removes
    the entry of the object that exists: before, the object is found with its
    entries; afterwards it is not found at all. *)
Theorem rejected_write_drops_object db sh reg s i r :
  no_colon sh -> find_ref db sh s = Some r -> infos_ s !! r = Some i -> completion_state_ i = COMPLETE ->
  (forall s', reg s' ∈ [WRITE_TO_FROZEN_DB; WRITE_REGISTRATION_FAILED; WRITE_REGISTRATION_TIMEOUT;
                        WRITE_PROVENANCE_MISMATCH; WRITE_DUPLICATE_SKIPPED]) ->
  let '(err, queued, s') := commit_write db (full_name db sh) reg s in
  err <> OK /\ queued = false /\
  has_local_object (full_name db sh) s = true /\ find_local_entries (full_name db sh) s = Some (entries_ i) /\
  has_local_object (full_name db sh) s' = false /\ find_local_entries (full_name db sh) s' = None.
Proof.
  intros Hsh Hr Hi Hc Hreg.
  assert (E1 : has_local_object (full_name db sh) s = true /\
               find_local_entries (full_name db sh) s = Some (entries_ i)).
  { unfold has_local_object, find_local_entries, find_info. rewrite split_full_full by done.
    rewrite Hr. cbn [mbind option_bind]. rewrite Hi. by rewrite bool_decide_true. }
  assert (Es : on_write_started db (full_name db sh) s = touch_db db s).
  { unfold on_write_started. rewrite split_full_full by done.
    unfold find_info. rewrite find_ref_touch, Hr. cbn [mbind option_bind]. cbn. by rewrite Hi, decide_True. }
  set (s2 := touch_db db s <| object_cache_ ::= ObjectCache.remove (full_name db sh) |>).
  assert (Hr2 : find_ref db sh s2 = Some r) by (unfold s2; rewrite find_ref_cache; by rewrite find_ref_touch).
  assert (E2 : has_local_object (full_name db sh) (on_write_failed db (full_name db sh) s2) = false /\
               find_local_entries (full_name db sh) (on_write_failed db (full_name db sh) s2) = None).
  { unfold has_local_object, find_local_entries, find_info, on_write_failed.
    rewrite !split_full_full by done. rewrite Hr2, find_ref_erase, decide_True by done. done. }
  unfold commit_write. rewrite Es. fold s2. pose proof (Hreg (touch_db db s)) as Hg.
  rewrite !elem_of_cons in Hg. destruct E1, E2.
  destruct Hg as [->|[->|[->|[->|[->|[]%elem_of_nil]]]]]; done.
Qed.

Lemma rejected_write_drops_object_witness :
  let s := index_run [OpWriteStarted "/a" "/a:x"; OpWriteCompleted "/a" "/a:x" [sample_entry "x" "h1"]] sample_service in
  (register_precheck "h2" false "/a:x" s).1 = Some WRITE_PROVENANCE_MISMATCH /\
  has_local_object "/a:x" (commit_write "/a" "/a:x" (fun _ => WRITE_PROVENANCE_MISMATCH) s).2 = false.
Proof.
  intros s. split; [vm_compute; reflexivity|].
  pose proof (rejected_write_drops_object "/a" "x" (fun _ => WRITE_PROVENANCE_MISMATCH) s
    (mkLocalObjectInfo "/a" [sample_entry "x" "h1"] COMPLETE false false) 0%N) as H.
  destruct (commit_write "/a" (full_name "/a" "x") (fun _ => WRITE_PROVENANCE_MISMATCH) s) as [[err q] s'] eqn:E.
  change "/a:x" with (full_name "/a" "x"). rewrite E. apply H; [vm_compute; reflexivity..|]. intros s2. set_solver.
Defined.

(** ** Replicas *)

Lemma stable_insert_perm {A} (before : A -> A -> bool) x l : stable_insert before x l ≡ₚ x :: l.
Proof.
  induction l as [|y l IH]; cbn; [done|]. destruct (before y x); [|done].
  etrans; [by apply perm_skip, IH|apply perm_swap].
Qed.

Lemma stable_sort_perm {A} (before : A -> A -> bool) l : stable_sort before l ≡ₚ l.
Proof. induction l as [|x l IH]; cbn; [done|]. etrans; [apply stable_insert_perm|by apply perm_skip]. Qed.

Lemma elem_of_insert {A} (before : A -> A -> bool) x l y : y ∈ stable_insert before x l <-> y = x \/ y ∈ l.
Proof.
  induction l as [|z l IH]; cbn; [set_solver|]. destruct (before z x); set_solver.
Qed.

Lemma stable_insert_skip {A} (before : A -> A -> bool) x l1 l2 :
  (forall y, y ∈ l1 -> before y x = true) -> stable_insert before x (l1 ++ l2) = l1 ++ stable_insert before x l2.
Proof.
  induction l1 as [|y l1 IH]; intros H; cbn; [done|]. rewrite H by (by left). f_equal. apply IH.
  intros; apply H; by right.
Qed.

Lemma stable_insert_here {A} (before : A -> A -> bool) x l :
  (forall y, y ∈ l -> before y x = false) -> stable_insert before x l = x :: l.
Proof. destruct l as [|y l]; intros H; cbn; [done|]. by rewrite H by (by left). Qed.

(** The order of the comparison: at most as far back, and as fast if level. *)
Definition replica_le (probe : bool) (score : string -> Q) (a b : RemoteObjectInfo) : Prop :=
  replica_before probe score b a = false.

Lemma replica_le_iff probe score a b :
  replica_le probe score a b <->
  (replica_rank a < replica_rank b)%nat \/
  (replica_rank a = replica_rank b /\ (probe = true -> score (r_host_ b) <= score (r_host_ a))%Q).
Proof.
  unfold replica_le, replica_before. case_decide as E.
  - rewrite bool_decide_eq_false. lia.
  - destruct probe; cbn [negb].
    + rewrite negb_false_iff, Qle_bool_iff. split; [intros H; right; done|]. intros [?|[_ H]]; [lia|by apply H].
    + split; [intros _; right; done|done].
Qed.

Lemma replica_le_trans probe score : Transitive (replica_le probe score).
Proof.
  intros a b c. rewrite !replica_le_iff. intros [H1|[E1 H1]] [H2|[E2 H2]]; [left; lia..|].
  right. split; [congruence|]. intros Hp. eapply Qle_trans; [by apply H2|by apply H1].
Qed.

Lemma replica_le_total probe score a b : replica_before probe score b a = true -> replica_le probe score b a.
Proof.
  rewrite replica_le_iff. unfold replica_before. case_decide as E.
  - rewrite bool_decide_eq_true. by left.
  - destruct probe; cbn [negb]; [|done]. rewrite negb_true_iff. intros H. right. split; [done|].
    intros _. apply Qlt_le_weak, Qnot_le_lt. intros Hle%Qle_bool_iff. congruence.
Qed.

Lemma stable_insert_sorted probe score x k :
  StronglySorted (replica_le probe score) k ->
  StronglySorted (replica_le probe score) (stable_insert (replica_before probe score) x k).
Proof.
  induction k as [|y k IHk]; intros Hs; cbn; [by repeat constructor|].
  apply StronglySorted_inv in Hs as [Hs Hall]. destruct (replica_before probe score y x) eqn:E.
  - constructor; [by apply IHk|]. rewrite Forall_forall in *. intros z Hz.
    apply elem_of_insert in Hz as [->|Hz]; [|by apply Hall]. by apply replica_le_total.
  - constructor; [by constructor|]. rewrite Forall_forall in *. intros z [->|Hz]%elem_of_cons; [done|].
    eapply replica_le_trans; [exact E|by apply Hall].
Qed.

Lemma stable_sort_sorted probe score l : StronglySorted (replica_le probe score) (stable_sort (replica_before probe score) l).
Proof. induction l as [|x l IH]; cbn; [constructor|by apply stable_insert_sorted]. Qed.

Definition of_rank (k : nat) (l : list RemoteObjectInfo) : list RemoteObjectInfo :=
  filter (fun r => replica_rank r = k) l.

Lemma stable_sort_ranks score l :
  stable_sort (replica_before false score) l = of_rank 0 l ++ of_rank 1 l ++ of_rank 2 l.
Proof.
  induction l as [|x l IH]; cbn [stable_sort foldr]; [done|].
  change (foldr (stable_insert (replica_before false score)) [] l) with (stable_sort (replica_before false score) l).
  rewrite IH.
  assert (Hb : forall y, replica_before false score y x = bool_decide (replica_rank y < replica_rank x)%nat).
  { intros y. unfold replica_before. case_decide as E; [done|]. cbn.
    rewrite bool_decide_eq_false_2; [done|lia]. }
  assert (Hr : forall k y, y ∈ of_rank k l -> replica_rank y = k) by (by intros k y [? _]%list_elem_of_filter).
  assert (Hlt : forall k, (k < replica_rank x)%nat -> forall y, y ∈ of_rank k l -> replica_before false score y x = true).
  { intros k Hk y Hy%Hr. rewrite Hb. apply bool_decide_eq_true. lia. }
  assert (Hge : forall k, (replica_rank x <= k)%nat -> forall y, y ∈ of_rank k l -> replica_before false score y x = false).
  { intros k Hk y Hy%Hr. rewrite Hb. apply bool_decide_eq_false. lia. }
  assert (Hc : forall k, of_rank k (x :: l) = if decide (replica_rank x = k) then x :: of_rank k l else of_rank k l).
  { intros k. unfold of_rank. rewrite filter_cons. done. }
  assert (Hk : replica_rank x = 0%nat \/ replica_rank x = 1%nat \/ replica_rank x = 2%nat).
  { unfold replica_rank. destruct (r_alive_ x), (r_storage_only_ x); cbn; auto. }
  rewrite !Hc. destruct Hk as [Hk|[Hk|Hk]]; rewrite !Hk; cbn -[of_rank].
  - rewrite stable_insert_here; [done|]. intros y [Hy|[Hy|Hy]%elem_of_app]%elem_of_app.
    + apply (Hge 0%nat); [lia|done].
    + apply (Hge 1%nat); [lia|done].
    + apply (Hge 2%nat); [lia|done].
  - rewrite stable_insert_skip by (apply Hlt; lia). f_equal. rewrite stable_insert_here; [done|].
    intros y [Hy|Hy]%elem_of_app; [apply (Hge 1%nat)|apply (Hge 2%nat)]; done || lia.
  - rewrite stable_insert_skip by (apply Hlt; lia). f_equal.
    rewrite stable_insert_skip by (apply Hlt; lia). f_equal. rewrite stable_insert_here; [done|]. apply Hge. lia.
Qed.

(** The replicas of an object.  A read is offered every registered holder,
    exactly as often as the object lists it; living storage nodes come before
    other living workers and dead workers come last; with the network monitor on,
    no replica is preceded within its class by a slower one, and with it off the
    order within a class is the order in which the holders were recorded. *)
Theorem replica_order probe score full s :
  let holders := omap (fun wid => worker_registry_ s !! wid) (get_remote_workers full s) in
  lookup_all_remote_idx probe score full s ≡ₚ holders /\
  (forall i j a b, (i < j)%nat -> lookup_all_remote_idx probe score full s !! i = Some a ->
     lookup_all_remote_idx probe score full s !! j = Some b ->
     (replica_rank a < replica_rank b)%nat \/
     (replica_rank a = replica_rank b /\ (probe = true -> score (r_host_ b) <= score (r_host_ a))%Q)) /\
  lookup_all_remote_idx false score full s =
    filter (fun r => r_alive_ r = true /\ r_storage_only_ r = true) holders ++
    filter (fun r => r_alive_ r = true /\ r_storage_only_ r = false) holders ++
    filter (fun r => r_alive_ r = false) holders.
Proof.
  intros holders. unfold lookup_all_remote_idx. fold holders. split; [apply stable_sort_perm|]. split.
  - intros i j a b Hij Ha Hb. apply replica_le_iff.
    pose proof (stable_sort_sorted probe score holders) as Hs.
    rewrite <- (take_drop_middle _ _ _ Ha) in Hs. apply StronglySorted_app_inv in Hs as (_ & Hs & _).
    apply StronglySorted_inv in Hs as [_ Hall]. rewrite Forall_forall in Hall. apply Hall.
    apply (list_elem_of_lookup_2 _ (j - S i)%nat). rewrite lookup_drop. rewrite <- Hb. f_equal. lia.
  - rewrite stable_sort_ranks. unfold of_rank. f_equal; [|f_equal]; apply list_filter_ext_in; intros x _;
      unfold replica_rank; destruct (r_alive_ x), (r_storage_only_ x); cbn; naive_solver.
Qed.

(** Recording that a worker holds an object registers the worker again with the
    role the caller gives.  The callers on the master leave the role at its
    default, so a storage node loses its priority when it is recorded as a holder,
    and a worker that was declared dead counts as alive again. *)
Theorem update_forgets_role full w host port size s i :
  worker_registry_ s !! w = Some i ->
  let s' := update_remote_idx full w host port size false s in
  is_storage_worker w s' = false /\ worker_registry_ s' !! w = Some (mkRemoteObjectInfo w host port false true) /\
  replica_rank <$> worker_registry_ s' !! w = Some 1%nat.
Proof.
  intros Hi s'.
  assert (E : worker_registry_ s' !! w = Some (mkRemoteObjectInfo w host port false true)).
  { unfold s', update_remote_idx, add_remote_location, upsert_meta. destruct (split_full full).
    destruct (0 <? size); cbn; by rewrite lookup_insert_eq. }
  unfold is_storage_worker. by rewrite E.
Qed.

Lemma update_forgets_role_witness :
  let s := register_worker 7%N "h" 90 true sample_service in
  is_storage_worker 7%N s = true /\ is_storage_worker 7%N (update_remote_idx "/a:x" 7%N "h" 90 5 false s) = false.
Proof.
  intros s. split; [vm_compute; reflexivity|].
  apply (update_forgets_role "/a:x" 7%N "h" 90 5 s (mkRemoteObjectInfo 7%N "h" 90 true true)). vm_compute. reflexivity.
Defined.

(** ** Holders *)

Lemma find_meta_upsert db sh f s d n :
  find_meta d n (upsert_meta db sh f s) =
  if decide (d = db /\ n = sh) then Some (f (default new_meta (find_meta db sh s))) else find_meta d n s.
Proof.
  unfold find_meta, upsert_meta. cbn. destruct (decide (d = db)) as [->|Hd].
  - rewrite lookup_insert_eq. cbn. destruct (decide (n = sh)) as [->|Hn].
    + rewrite lookup_insert_eq, decide_True by done. by destruct (remote_idx_ s !! db).
    + rewrite lookup_insert_ne by done. rewrite decide_False by naive_solver. by destruct (remote_idx_ s !! db).
  - rewrite lookup_insert_ne by done. by rewrite decide_False by naive_solver.
Qed.

Lemma find_meta_remove db sh s d n :
  find_meta d n (s <| remote_idx_ ::= alter (delete sh) db |>) =
  if decide (d = db /\ n = sh) then None else find_meta d n s.
Proof.
  unfold find_meta. cbn. destruct (decide (d = db)) as [->|Hd].
  - rewrite lookup_alter_eq. destruct (remote_idx_ s !! db) as [m|]; cbn; [|by case_decide].
    destruct (decide (n = sh)) as [->|Hn]; [by rewrite lookup_delete_eq, decide_True|].
    rewrite lookup_delete_ne by done. by rewrite decide_False by naive_solver.
  - rewrite lookup_alter_ne by done. by rewrite decide_False by naive_solver.
Qed.

Definition holds (full : string) (w : N) (s : DataService) : Prop := w ∈ get_remote_workers full s.

Lemma holds_meta full w s :
  holds full w s <-> exists m, find_meta (split_full full).1 (split_full full).2 s = Some m /\ w ∈ workers_ m.
Proof.
  unfold holds, get_remote_workers. destruct (split_full full) as [d n]. cbn.
  destruct (find_meta d n s); [|split; [by intros ?%elem_of_nil|by intros (? & ? & _)]]. naive_solver.
Qed.

Lemma has_remote_iff full s : has_remote_location full s = true <-> exists w, holds full w s.
Proof.
  unfold has_remote_location, holds, get_remote_workers. destruct (split_full full) as [d n].
  destruct (find_meta d n s) as [m|]; cbn.
  - rewrite negb_true_iff, bool_decide_eq_false. destruct (workers_ m) as [|w l]; [|split; [intros _; exists w; by left|done]].
    split; [done|by intros [? ?%elem_of_nil]].
  - split; [done|by intros [? ?%elem_of_nil]].
Qed.

(** Recording a holder adds exactly that holder. *)
Lemma holds_update full w host port size b s full' w' :
  holds full' w' (update_remote_idx full w host port size b s) <->
  holds full' w' s \/ (split_full full' = split_full full /\ w' = w).
Proof.
  rewrite !holds_meta. unfold update_remote_idx, add_remote_location. destruct (split_full full) as [d n].
  destruct (split_full full') as [d' n']. cbn.
  set (s1 := register_worker w host port b s).
  assert (E1 : forall d n, find_meta d n s1 = find_meta d n s) by done.
  set (s2 := upsert_meta d n _ s1).
  assert (E2 : forall p q, (exists m, find_meta p q s2 = Some m /\ w' ∈ workers_ m) <->
    (exists m, find_meta p q s = Some m /\ w' ∈ workers_ m) \/ ((p, q) = (d, n) /\ w' = w)).
  { intros p q. unfold s2. rewrite find_meta_upsert, !E1. case_decide as E.
    - destruct E as [-> ->]. set (m0 := default new_meta (find_meta d n s)).
      assert (E0 : (exists m, find_meta d n s = Some m /\ w' ∈ workers_ m) <-> w' ∈ workers_ m0).
      { unfold m0. destruct (find_meta d n s) as [m|]; cbn; [naive_solver|].
        split; [intros (? & ? & _); done|intros Hx; by apply elem_of_nil in Hx]. }
      rewrite E0. assert (Hf : w' ∈ workers_ (if decide (w ∈ workers_ m0) then m0
        else m0 <| workers_ ::= fun l => l ++ [w] |>) <-> w' ∈ workers_ m0 \/ w' = w).
      { case_decide; cbn; [|set_solver]. split; [by left|]. intros [Hx| ->]; done. }
      naive_solver.
    - assert ((p, q) <> (d, n)) by naive_solver. naive_solver. }
  destruct (0 <? size); [|apply E2].
  rewrite find_meta_upsert. rewrite <- E2. case_decide as E; [|done]. destruct E as [-> ->].
  destruct (find_meta d n s2) as [m|] eqn:Em; cbn; [naive_solver|].
  unfold s2 in Em. rewrite find_meta_upsert, decide_True in Em by done. done.
Qed.

Lemma holds_remove full s full' w' :
  holds full' w' (remove_remote_location full s) <-> holds full' w' s /\ split_full full' <> split_full full.
Proof.
  rewrite !holds_meta. unfold remove_remote_location. destruct (split_full full) as [d n].
  destruct (split_full full') as [d' n']. cbn [fst snd]. rewrite find_meta_remove. case_decide as E.
  - destruct E as [-> ->]. naive_solver.
  - naive_solver.
Qed.

Lemma holds_remove_index full s full' w' :
  holds full' w' (remove_remote_index full s) <-> holds full' w' s /\ split_full full' <> split_full full.
Proof.
  rewrite <- holds_remove, !holds_meta. unfold remove_remote_index, remove_remote_location.
  by destruct (split_full full) as [d n].
Qed.

Lemma objects_of_worker_iff w s full :
  full ∈ get_objects_of_worker w s <->
  exists d n, full = full_name d n /\ exists m, find_meta d n s = Some m /\ w ∈ workers_ m.
Proof.
  unfold get_objects_of_worker. rewrite elem_of_concat. split.
  - intros (l & Hf & ([d objs] & -> & Hd%elem_of_map_to_list)%list_elem_of_fmap).
    apply list_elem_of_fmap in Hf as ([n m] & -> & [Hw Hm%elem_of_map_to_list]%list_elem_of_filter). cbn in *.
    exists d, n. split; [done|]. exists m. split; [|done]. unfold find_meta. by rewrite Hd.
  - intros (d & n & -> & m & Hm & Hw). unfold find_meta in Hm. destruct (remote_idx_ s !! d) as [objs|] eqn:Hd; [|done].
    eexists. split; [|apply list_elem_of_fmap; exists (d, objs); split; [reflexivity|by apply elem_of_map_to_list]].
    apply list_elem_of_fmap. exists (n, m). split; [done|]. apply list_elem_of_filter. split; [done|].
    by apply elem_of_map_to_list.
Qed.
