(* ===== verification/TieredRead.v ===== *)
(** Reading an object wherever it is (the read operations of DataService in
    src/storage/cpp/data_service.cpp): first from the local disk, then from the
    replicas this process knows, then from the replicas the master knows.

    A transfer from a replica is a callback into the network layer; what it
    answers is a function of the number of the transfer and the replica.  The
    clocks, the waits between rounds and the query to the master are arguments in
    the same way; so is the wait for a local write, which has no time limit and may
    never end.  The second tier measures its network deadline from its own start, so
    the elapsed time is given for each of its passes.  Every function returns the events it caused: the answers it
    got, in order, and the backup suggestions it sent.  A transfer that fails its
    checksum may be repeated once; when that fails too the process exits, which is
    the result [Fatal]. *)

From stdpp Require Import base gmap strings list option sets fin_maps.
From Stdlib Require Import ZArith QArith Lia.
From S2P Require Import Prelude Bytes ObjectHeader ObjectNames LocalIndex DataWriter ObjectCache DataIndex.

Open Scope Z_scope.

Inductive ReadError := NONE | DATA_NOT_READY | OBJECT_NOT_FOUND | NETWORK | SHUTDOWN | CHECKSUM.
#[export] Instance ReadError_eq_dec : EqDecision ReadError.
Proof. solve_decision. Defined.

(** What the transfer callback returns. *)
Inductive Answer := AData (data : bytes) (py_name hash : string) | AError (e : ReadError).

Inductive event :=
  | Asked (loc : RemoteObjectInfo) (a : Answer)
  | Suggested (object_name : string) (reads bytes_read size : Z)
  | Refreshed (found can_still_produce : bool).

(** The world a read runs in. *)
Record World := mkWorld {
  w_worker_mode : bool;
  w_probe : bool;
  w_score : string -> Q;
  w_suggest : SuggestConfig;
  w_ask : nat -> RemoteObjectInfo -> Answer;
  w_now_s : nat -> Z;
  w_elapsed_ms : nat -> nat -> Z;
  w_refresh : nat -> DataService -> bool * bool * DataService;
  w_files : DbPaths -> Directories;
  w_resume : N -> DataService -> option DataService;
  w_direct_handler : bool;
  w_remote_handler : bool
}.

Section reads.
Context (w : World) (object_name : string).

(** ** One round over the replicas *)

Inductive RoundResult :=
  | RoundHit (data : bytes) (py_name hash : string)
  | RoundFatal
  | RoundAborted
  | RoundFailed (saw_not_ready refetch : bool).

(** A hit is counted, and reported to the master when it is time. *)
Definition count_access (calls : nat) (size : Z) (s : DataService) : list event * DataService :=
  let s := record_remote_access (w_now_s w calls) object_name size s in
  match maybe_suggest_backup (w_suggest w) (w_now_s w calls) object_name s with
  | (Some (o, reads, bytes_read, size), s) => ([Suggested o reads bytes_read size], s)
  | (None, s) => ([], s)
  end.

(** The loop over the replicas in [try_tier2_read]. *)
Fixpoint tier2_round (replicas : list RemoteObjectInfo) (refetch saw_not_ready : bool) (calls : nat)
    (s : DataService) : RoundResult * list event * nat * DataService :=
  match replicas with
  | [] => (RoundFailed saw_not_ready refetch, [], calls, s)
  | loc :: rest =>
      let a := w_ask w calls loc in
      match a with
      | AData data py_name hash =>
          let '(ev, s) := count_access calls (Z.of_nat (length data)) s in
          (RoundHit data py_name hash, Asked loc a :: ev, S calls, s)
      | AError CHECKSUM =>
          let s := remove_remote_replica (w_worker_mode w) object_name (r_worker_id_ loc) s in
          if refetch then (RoundFatal, [Asked loc a], S calls, s)
          else
            let '(r, ev, calls, s) := tier2_round rest true saw_not_ready (S calls) s in
            (r, Asked loc a :: ev, calls, s)
      | AError e =>
          let s := if decide (e = OBJECT_NOT_FOUND)
                   then remove_remote_replica (w_worker_mode w) object_name (r_worker_id_ loc) s else s in
          if decide (e = SHUTDOWN) then (RoundAborted, [Asked loc a], S calls, s)
          else if refetch then (RoundFatal, [Asked loc a], S calls, s)
          else
            let '(r, ev, calls, s) :=
              tier2_round rest refetch (saw_not_ready || bool_decide (e = DATA_NOT_READY)) (S calls) s in
            (r, Asked loc a :: ev, calls, s)
      end
  end.

(** ** Tier 2 *)

Inductive Tier2Result :=
  | Hit (data : bytes) (py_name hash : string)
  | Miss
  | Fatal
  | OutOfFuel.

(** [kNetworkDeadline], in milliseconds. *)
Definition kNetworkDeadline : Z := 30000.

(** [try_tier2_read], the [pass]-th of the read; [round] counts its rounds. *)
Fixpoint try_tier2_read (pass fuel round calls : nat) (refetch : bool) (s : DataService) :
    Tier2Result * list event * nat * DataService :=
  match fuel with
  | O => (OutOfFuel, [], calls, s)
  | S fuel =>
      match lookup_all_remote_idx (w_probe w) (w_score w) object_name s with
      | [] => (if refetch then Fatal else Miss, [], calls, s)
      | replicas =>
          let '(r, ev, calls, s) := tier2_round replicas refetch false calls s in
          match r with
          | RoundHit data py_name hash => (Hit data py_name hash, ev, calls, s)
          | RoundFatal => (Fatal, ev, calls, s)
          | RoundAborted => (Miss, ev, calls, s)
          | RoundFailed saw_not_ready refetch =>
              if refetch then (Fatal, ev, calls, s)
              else if negb saw_not_ready && (kNetworkDeadline <=? w_elapsed_ms w pass round) then (Miss, ev, calls, s)
              else
                let '(r, ev', calls, s) := try_tier2_read pass fuel (S round) calls refetch s in
                (r, ev ++ ev', calls, s)
          end
      end
  end.

(** ** Local reads *)

(** [do_read_raw_entries]: the last entry is read.  Without an entry the code
    takes the last element of an empty vector, which is undefined. *)
Definition do_read_raw_entries (entries : list IndexEntry) (paths : DbPaths) : option bytes :=
  e ← last entries; read_raw_from_entry (w_files w paths) e.

(** What the local tier ends with; [LocalBlocked]: its wait never ends. *)
Inductive LocalRead := LocalHit (raw : bytes) | LocalMiss | LocalBlocked.

(** [try_read_local_raw].  A reader that waits goes on in the state in which its
    wait ended, [None] when it never does; the paths are those found at its start. *)
Definition try_read_local_raw (wait_local_write : bool) (s : DataService) : LocalRead * DataService :=
  let paths := db_paths_ s in
  let read (es : list IndexEntry) (s : DataService) :=
    match do_read_raw_entries es (default (mkDbPaths "" "" "") (paths !! (split_full object_name).1)) with
    | Some [] | None => (LocalMiss, s)
    | Some raw => (LocalHit raw, s)
    end in
  match lookup_under_lock object_name s with
  | Found es => read es s
  | NotFound => (LocalMiss, s)
  | NotReady r =>
      if wait_local_write then
        match (if wait_over r s then Some s else w_resume w r s) with
        | None => (LocalBlocked, s)
        | Some s =>
            match lookup_under_lock object_name (s <| db_paths_ := paths |>) with
            | Found es => read es s
            | _ => (LocalMiss, s)
            end
        end
      else (LocalMiss, s)
  end.


(** ** All three tiers *)

Inductive ReadResult :=
  | ReadFound (data : bytes)
  | ReadFailed (can_still_produce : bool)
  | ReadFatal
  | ReadBlocked
  | ReadOutOfFuel.

(** Tier 2 when a transfer handler is set. *)
Definition tier2 (pass fuel calls : nat) (s : DataService) : Tier2Result * list event * nat * DataService :=
  if w_direct_handler w then try_tier2_read pass fuel 0 calls false s else (Miss, [], calls, s).

(** [read_raw_compressed] without its first tier: tier 2, a query to the master,
    and tier 2 once more. *)
Definition read_remote (fuel : nat) (s : DataService) : ReadResult * list event * DataService :=
  let '(r, ev, calls, s) := tier2 0 fuel 0 s in
  match r with
  | Hit data _ _ => (ReadFound data, ev, s)
  | Fatal => (ReadFatal, ev, s)
  | OutOfFuel => (ReadOutOfFuel, ev, s)
  | Miss =>
      if negb (w_remote_handler w) then (ReadFailed false, ev, s)
      else
        let '(refreshed, csp, s) := w_refresh w calls s in
        let ev := ev ++ [Refreshed refreshed csp] in
        if negb refreshed then (ReadFailed csp, ev, s)
        else
          let '(r, ev', _, s) := tier2 1 fuel calls s in
          match r with
          | Hit data _ _ => (ReadFound data, ev ++ ev', s)
          | Fatal => (ReadFatal, ev ++ ev', s)
          | OutOfFuel => (ReadOutOfFuel, ev ++ ev', s)
          | Miss => (ReadFailed csp, ev ++ ev', s)
          end
  end.

(** [read_raw_compressed]; of its results the bytes are kept, not the type name
    and the write hash read along with them. *)
Definition read_raw_compressed (fuel : nat) (bypass_local : bool) (s : DataService) :
    ReadResult * list event * DataService :=
  if bypass_local then read_remote fuel s
  else
    match try_read_local_raw true s with
    | (LocalHit raw, s) => (ReadFound raw, [], s)
    | (LocalMiss, s) => read_remote fuel s
    | (LocalBlocked, s) => (ReadBlocked, [], s)
    end.

(** ** Checked reads *)

Inductive CheckedResult :=
  | Checked (data : bytes) (start_backup : bool)
  | NoData
  | CheckedFatal
  | CheckedBlocked
  | CheckedOutOfFuel.

(** [Database::read_object_compressed]: a record without a valid trailer is
    fetched once more, not from the local disk; then the process exits.  The
    boolean of the result says that a backup copy is to be written. *)
Definition read_object_compressed `{Checksum} (fuel : nat) (backup : bool) (s : DataService) :
    CheckedResult * list event * DataService :=
  let ok (data : bytes) (s : DataService) := Checked data (backup && negb (has_local_object object_name s)) in
  let '(r, ev, s) := read_raw_compressed fuel false s in
  match r with
  | ReadFatal => (CheckedFatal, ev, s)
  | ReadBlocked => (CheckedBlocked, ev, s)
  | ReadOutOfFuel => (CheckedOutOfFuel, ev, s)
  | ReadFailed _ | ReadFound [] => (NoData, ev, s)
  | ReadFound data =>
      match deserialize_trailer data with
      | Some _ => (ok data s, ev, s)
      | None =>
          let s := s <| object_cache_ ::= ObjectCache.remove object_name |> in
          let '(r, ev', s) := read_raw_compressed fuel true s in
          match r with
          | ReadOutOfFuel => (CheckedOutOfFuel, ev ++ ev', s)
          | ReadFound (b :: data) =>
              match deserialize_trailer (b :: data) with
              | Some _ => (ok (b :: data) s, ev ++ ev', s)
              | None => (CheckedFatal, ev ++ ev', s)
              end
          | _ => (CheckedFatal, ev ++ ev', s)
          end
      end
  end.

(** ** Streaming reads from replicas

    The second tier of [read_streaming]: a replica answers with a source to pull
    from, here the bytes it will deliver.  A checksum failure costs the one
    repetition there is; the rounds go on, with a query to the master between
    them. *)

Inductive StreamResult :=
  | StreamOpen (data : bytes)
  | StreamError (rerr : ReadError)
  | StreamOutOfFuel.

Inductive StreamRound :=
  | SRoundOpen (data : bytes)
  | SRoundError (rerr : ReadError)
  | SRoundFailed (saw_not_ready refetch : bool) (budget : nat).

Fixpoint stream_round (replicas : list RemoteObjectInfo) (refetch saw_not_ready : bool) (budget calls : nat)
    (s : DataService) : StreamRound * list event * nat * DataService :=
  match replicas with
  | [] => (SRoundFailed saw_not_ready refetch budget, [], calls, s)
  | loc :: rest =>
      let a := w_ask w calls loc in
      match a with
      | AData data _ _ =>
          let '(ev, s) := count_access calls (Z.of_nat (length data)) s in
          (SRoundOpen data, Asked loc a :: ev, S calls, s)
      | AError CHECKSUM =>
          let s := remove_remote_replica (w_worker_mode w) object_name (r_worker_id_ loc) s in
          match budget with
          | S budget =>
              let '(r, ev, calls, s) := stream_round rest true saw_not_ready budget (S calls) s in
              (r, Asked loc a :: ev, calls, s)
          | O => (SRoundError CHECKSUM, [Asked loc a], S calls, s)
          end
      | AError e =>
          let s := if decide (e = OBJECT_NOT_FOUND)
                   then remove_remote_replica (w_worker_mode w) object_name (r_worker_id_ loc) s else s in
          if decide (e = SHUTDOWN) then (SRoundError SHUTDOWN, [Asked loc a], S calls, s)
          else if refetch then (SRoundError CHECKSUM, [Asked loc a], S calls, s)
          else
            let '(r, ev, calls, s) :=
              stream_round rest refetch (saw_not_ready || bool_decide (e = DATA_NOT_READY)) budget (S calls) s in
            (r, Asked loc a :: ev, calls, s)
      end
  end.

Definition refresh (calls : nat) (s : DataService) : list event * DataService :=
  if w_remote_handler w then
    let '(refreshed, csp, s) := w_refresh w calls s in ([Refreshed refreshed csp], s)
  else ([], s).

Fixpoint read_streaming (fuel round calls : nat) (refetch : bool) (budget : nat) (s : DataService) :
    StreamResult * list event * DataService :=
  match fuel with
  | O => (StreamOutOfFuel, [], s)
  | S fuel =>
      let lookup := lookup_all_remote_idx (w_probe w) (w_score w) object_name in
      let '(ev0, s, empty) :=
        match lookup s with
        | [] => if refetch then ([], s, Some CHECKSUM)
                else let '(ev, s) := refresh calls s in
                     (ev, s, match lookup s with [] => Some OBJECT_NOT_FOUND | _ => None end)
        | _ => ([], s, None)
        end in
      match empty with
      | Some e => (StreamError e, ev0, s)
      | None =>
          let '(r, ev, calls, s) := stream_round (lookup s) refetch false budget calls s in
          match r with
          | SRoundOpen data => (StreamOpen data, ev0 ++ ev, s)
          | SRoundError e => (StreamError e, ev0 ++ ev, s)
          | SRoundFailed saw_not_ready refetch budget =>
              if negb saw_not_ready && (kNetworkDeadline <=? w_elapsed_ms w 0 round)
              then (StreamError NETWORK, ev0 ++ ev, s)
              else
                let '(ev1, s) := refresh calls s in
                let '(r, ev', s) := read_streaming fuel (S round) calls refetch budget s in
                (r, ev0 ++ ev ++ ev1 ++ ev', s)
          end
      end
  end.
End reads.

(** ** Corruption is never hidden *)

Definition is_checksum (e : event) : bool :=
  match e with Asked _ (AError CHECKSUM) => true | _ => false end.
Definition is_data (e : event) : bool := match e with Asked _ (AData _ _ _) => true | _ => false end.
Definition is_answer (e : event) : bool := match e with Asked _ _ => true | _ => false end.

(** The answers among the events. *)
Definition answers (ev : list event) : list event := filter (fun e => is_answer e = true) ev.

Definition clean (ev : list event) : Prop := forall e, e ∈ ev -> is_checksum e = false.

(** The answers of a read that got data: no checksum failure at all, or one whose
    very next answer was the data. *)
Definition ends_well (data : bytes) (ev : list event) : Prop :=
  exists pre loc py hash, clean pre /\
  (answers ev = pre ++ [Asked loc (AData data py hash)] \/
   exists loc', answers ev = pre ++ [Asked loc' (AError CHECKSUM); Asked loc (AData data py hash)]).

Lemma answers_app a b : answers (a ++ b) = answers a ++ answers b.
Proof. apply filter_app. Qed.

Lemma answers_asked loc a ev : answers (Asked loc a :: ev) = Asked loc a :: answers ev.
Proof. unfold answers. by rewrite filter_cons_True. Qed.

Lemma clean_answers ev : clean ev <-> clean (answers ev).
Proof.
  unfold clean, answers. setoid_rewrite list_elem_of_filter. split; [naive_solver|].
  intros H e He. destruct (is_answer e) eqn:E; [by apply H|]. by destruct e.
Qed.

Lemma clean_app a b : clean (a ++ b) <-> clean a /\ clean b.
Proof. unfold clean. setoid_rewrite elem_of_app. naive_solver. Qed.

Lemma clean_nil : clean [].
Proof. by intros e ?%elem_of_nil. Qed.

Lemma clean_cons e ev : is_checksum e = false -> clean ev -> clean (e :: ev).
Proof. intros He Hev e' [->|H]%elem_of_cons; [done|by apply Hev]. Qed.

Lemma checksum_not_clean loc ev : ~ clean (Asked loc (AError CHECKSUM) :: ev).
Proof. intros H. by specialize (H _ (list_elem_of_here _ _)). Qed.

Lemma ends_well_prefix data a b : clean (answers a) -> ends_well data b -> ends_well data (a ++ b).
Proof.
  intros Ha (pre & loc & py & hash & Hpre & Hb). exists (answers a ++ pre), loc, py, hash.
  split; [by apply clean_app|]. rewrite answers_app. destruct Hb as [->|[loc' ->]]; [left|right; exists loc']; by rewrite <- app_assoc.
Qed.

(** Some answer said that the process is shutting down. *)
Definition shutting_down (ev : list event) : Prop := exists loc, Asked loc (AError SHUTDOWN) ∈ ev.

Lemma shutting_down_app a b : shutting_down a \/ shutting_down b -> shutting_down (a ++ b).
Proof. unfold shutting_down. setoid_rewrite elem_of_app. naive_solver. Qed.

Section facts.
Context (w : World) (object_name : string).

Lemma count_access_quiet calls size s ev s' : count_access w object_name calls size s = (ev, s') -> answers ev = [].
Proof.
  unfold count_access. destruct (maybe_suggest_backup _ _ _ _) as [[[[[o a] b] c]|] s1]; by intros [= <- _].
Qed.

(** What a round can end with. *)
Definition round_ok (rf : bool) (r : RoundResult) (ev : list event) : Prop :=
  match r with
  | RoundHit data _ _ =>
      if rf then exists loc py hash, answers ev = [Asked loc (AData data py hash)] else ends_well data ev
  | RoundFatal => rf = true \/ ~ clean ev
  | RoundAborted => shutting_down ev
  | RoundFailed _ rf' =>
      if rf then rf' = true else (rf' = true /\ ~ clean ev) \/ (rf' = false /\ clean ev)
  end.

Lemma round_ok_checksum r ev loc : round_ok true r ev -> round_ok false r (Asked loc (AError CHECKSUM) :: ev).
Proof.
  destruct r as [data py hash| | |nr rf']; cbn.
  - intros (l & py' & h' & E). exists [], l, py', h'. split; [apply clean_nil|]. right. exists loc.
    by rewrite answers_asked, E.
  - intros _. right. apply checksum_not_clean.
  - intros [l Hl]. exists l. by right.
  - intros ->. left. split; [done|apply checksum_not_clean].
Qed.

Lemma round_ok_cons r ev e : is_answer e = true -> is_checksum e = false -> is_data e = false ->
  round_ok false r ev -> round_ok false r (e :: ev).
Proof.
  intros He Hc Hd. destruct r as [data py hash| | |nr rf']; cbn.
  - intros H. apply (ends_well_prefix data [e] ev); [|done]. rewrite <- clean_answers. apply clean_cons; [done|apply clean_nil].
  - intros [H|H]; [done|]. right. intros Hcl. apply H. intros x Hx. apply Hcl. by right.
  - intros [l Hl]. exists l. by right.
  - intros [[-> H]|[-> H]]; [left|right; split; [done|by apply clean_cons]]. split; [done|]. intros Hcl. apply H.
    intros x Hx. apply Hcl. by right.
Qed.

Lemma tier2_round_ok replicas rf nr calls s r ev calls' s' :
  tier2_round w object_name replicas rf nr calls s = (r, ev, calls', s') -> round_ok rf r ev.
Proof.
  revert rf nr calls s r ev calls' s'. induction replicas as [|loc rest IH]; intros rf nr calls s r ev calls' s'; cbn [tier2_round].
  { intros [= <- <- _ _]. cbn. destruct rf; [done|]. right. split; [done|apply clean_nil]. }
  destruct (w_ask w calls loc) as [data py hash|e] eqn:Ea.
  { destruct (count_access _ _ _ _ _) as [ev1 s1] eqn:Ec. intros [= <- <- _ _]. apply count_access_quiet in Ec. cbn [round_ok].
    destruct rf; [exists loc, py, hash; by rewrite answers_asked, Ec|].
    exists [], loc, py, hash. split; [apply clean_nil|]. left. by rewrite answers_asked, Ec. }
  assert (Hrest : e <> CHECKSUM ->
    (let s := if decide (e = OBJECT_NOT_FOUND)
                   then remove_remote_replica (w_worker_mode w) object_name (r_worker_id_ loc) s else s in
          if decide (e = SHUTDOWN) then (RoundAborted, [Asked loc (AError e)], S calls, s)
          else if rf then (RoundFatal, [Asked loc (AError e)], S calls, s)
          else
            let '(r, ev, calls, s) :=
              tier2_round w object_name rest rf (nr || bool_decide (e = DATA_NOT_READY)) (S calls) s in
            (r, Asked loc (AError e) :: ev, calls, s)) = (r, ev, calls', s') -> round_ok rf r ev).
  { intros Hne. cbn zeta. case_decide as Hs; [intros [= <- <- _ _]; exists loc; subst e; by left|].
    destruct rf; [intros [= <- <- _ _]; by left|].
    destruct (tier2_round _ _ _ _ _ _ _) as [[[r1 ev1] c1] s1] eqn:E1. intros [= <- <- _ _].
    apply round_ok_cons; [done|by destruct e|done|]. by eapply IH. }
  destruct e; try (by apply Hrest).
  destruct rf; [intros [= <- <- _ _]; by left|].
  destruct (tier2_round _ _ _ _ _ _ _) as [[[r1 ev1] c1] s1] eqn:E1. intros [= <- <- _ _].
  apply round_ok_checksum. by eapply IH.
Qed.

(** What tier 2 can end with. *)
Lemma try_tier2_read_ok pass fuel round calls s r ev calls' s' :
  try_tier2_read w object_name pass fuel round calls false s = (r, ev, calls', s') ->
  match r with
  | Hit data _ _ => ends_well data ev
  | Miss => clean ev \/ shutting_down ev
  | Fatal => ~ clean ev
  | OutOfFuel => clean ev
  end.
Proof.
  revert round calls s r ev calls' s'. induction fuel as [|fuel IH]; intros round calls s r ev calls' s'; cbn [try_tier2_read].
  { intros [= <- <- _ _]. apply clean_nil. }
  destruct (lookup_all_remote_idx _ _ _ s) as [|loc rest]; [intros [= <- <- _ _]; left; apply clean_nil|].
  destruct (tier2_round _ _ _ _ _ _ _) as [[[r1 ev1] c1] s1] eqn:E1. apply tier2_round_ok in E1.
  destruct r1 as [data py hash| | |nr rf]; cbn in E1.
  - intros [= <- <- _ _]. done.
  - intros [= <- <- _ _]. by destruct E1.
  - intros [= <- <- _ _]. by right.
  - destruct E1 as [[-> Hn]|[-> Hc]]; [intros [= <- <- _ _]; done|].
    destruct (negb nr && _); [intros [= <- <- _ _]; by left|].
    destruct (try_tier2_read _ _ _ _ _ _ _ _) as [[[r2 ev2] c2] s2] eqn:E2. intros [= <- <- _ _]. apply IH in E2.
    destruct r2 as [data py hash| | |].
    + apply ends_well_prefix; [by rewrite <- clean_answers|done].
    + destruct E2 as [?|?]; [left; by apply clean_app|right; apply shutting_down_app; by right].
    + rewrite clean_app. naive_solver.
    + by apply clean_app.
Qed.

Lemma tier2_ok pass fuel calls s r ev calls' s' :
  tier2 w object_name pass fuel calls s = (r, ev, calls', s') ->
  match r with
  | Hit data _ _ => ends_well data ev
  | Miss => clean ev \/ shutting_down ev
  | Fatal => ~ clean ev
  | OutOfFuel => clean ev
  end.
Proof.
  unfold tier2. destruct (w_direct_handler w); [apply try_tier2_read_ok|].
  intros [= <- <- _ _]. left. apply clean_nil.
Qed.

(** C9: A read that hits a transfer with a wrong checksum never hides it.  Unless the
    process is shutting down: a read that returns data got it from the local disk,
    or from transfers none of which failed its checksum, or from the transfer made
    right after the only one that did; a read that fails without ending the process
    saw no wrong checksum; and the process is ended only because of one.  (A read
    that waits for a local write for ever returns nothing.) *)
Theorem corruption_never_hidden fuel bypass s r ev s' :
  read_raw_compressed w object_name fuel bypass s = (r, ev, s') -> ~ shutting_down ev ->
  match r with
  | ReadFound data => (bypass = false /\ (try_read_local_raw w object_name true s).1 = LocalHit data /\ ev = []) \/
                      ends_well data ev
  | ReadFailed _ => clean ev
  | ReadFatal => ~ clean ev
  | ReadBlocked => bypass = false /\ (try_read_local_raw w object_name true s).1 = LocalBlocked /\ ev = []
  | ReadOutOfFuel => clean ev
  end.
Proof.
  assert (Hrem : forall s r ev s', read_remote w object_name fuel s = (r, ev, s') -> ~ shutting_down ev ->
    match r with
    | ReadFound data => ends_well data ev | ReadFailed _ => clean ev
    | ReadFatal => ~ clean ev | ReadBlocked => False | ReadOutOfFuel => clean ev end).
  { clear. intros s r ev s'. unfold read_remote. destruct (tier2 _ _ _ _ _ _) as [[[r1 ev1] c1] s1] eqn:E1. apply tier2_ok in E1.
    destruct r1 as [data py hash| | |]; [by intros [= <- <- _]| |by intros [= <- <- _]|by intros [= <- <- _]].
    destruct (negb (w_remote_handler w)).
    { intros [= <- <- _] Hs. naive_solver. }
    destruct (w_refresh w c1 s1) as [[found csp] s2].
    assert (Hc1 : ~ shutting_down (ev1 ++ [Refreshed found csp]) -> clean (ev1 ++ [Refreshed found csp])).
    { intros Hs. apply clean_app. split; [|apply clean_cons; [done|apply clean_nil]].
      destruct E1 as [?|H]; [done|]. destruct Hs. apply shutting_down_app. by left. }
    destruct found; cbn [negb]; [|intros [= <- <- _] Hs; by apply Hc1].
    destruct (tier2 _ _ _ _ _ s2) as [[[r3 ev3] c3] s3] eqn:E3. apply tier2_ok in E3.
    assert (Hsp : ~ shutting_down ((ev1 ++ [Refreshed true csp]) ++ ev3) ->
      clean (ev1 ++ [Refreshed true csp]) /\ ~ shutting_down ev3).
    { intros Hs. split; [apply Hc1|]; intros H; apply Hs, shutting_down_app; [by left|by right]. }
    destruct r3 as [data py hash| | |]; intros [= <- <- _] [Hcl Hns]%Hsp.
    - apply ends_well_prefix; [by rewrite <- clean_answers|done].
    - apply clean_app. naive_solver.
    - rewrite clean_app. naive_solver.
    - by apply clean_app. }
  unfold read_raw_compressed. destruct bypass.
  - intros E Hs. apply Hrem in E; [|done]. destruct r; tauto.
  - destruct (try_read_local_raw w object_name true s) as [[raw| |] s1] eqn:El.
    + intros [= <- <- _] _. left. auto.
    + intros E Hs. apply Hrem in E; [|done]. destruct r; tauto.
    + intros [= <- <- _] _. auto.
Qed.

(** ** Termination *)










(** A checked read hands out only records whose trailer is valid, at the price of
    one repeated fetch at most. *)
Theorem checked_read_valid `{Checksum} fuel backup s data b ev s' :
  read_object_compressed w object_name fuel backup s = (Checked data b, ev, s') ->
  exists h n, deserialize_trailer data = Some (h, n).
Proof.
  unfold read_object_compressed. destruct (read_raw_compressed _ _ _ _ _) as [[r ev1] s1].
  destruct r as [[|x d]| | | |]; try done.
  destruct (deserialize_trailer (x :: d)) as [[h n]|] eqn:E; [intros [= <- _ _ _]; by exists h, n|].
  destruct (read_raw_compressed _ _ _ true _) as [[r2 ev2] s2]. destruct r2 as [[|y d2]| | | |]; try done.
  destruct (deserialize_trailer (y :: d2)) as [[h n]|] eqn:E2; [|done]. intros [= <- _ _ _]. by exists h, n.
Qed.

(** The same failure is judged differently by the two ways to read.  When the
    only replica fails its checksum and the deadline has passed, a read of the
    whole record ends the process, as it has to; a streaming read reports a
    network error. *)
Theorem streaming_hides_corruption fuel round calls s loc :
  lookup_all_remote_idx (w_probe w) (w_score w) object_name s = [loc] ->
  w_ask w calls loc = AError CHECKSUM -> kNetworkDeadline <= w_elapsed_ms w 0 round ->
  (try_tier2_read w object_name 0 (S fuel) round calls false s).1.1.1 = Fatal /\
  (read_streaming w object_name (S fuel) round calls false 1 s).1.1 = StreamError NETWORK.
Proof.
  intros Hl Ha Hd. cbn [try_tier2_read read_streaming]. rewrite Hl. cbn [tier2_round stream_round]. rewrite Ha.
  split; [done|]. cbn -[kNetworkDeadline Z.leb]. destruct (Z.leb_spec kNetworkDeadline (w_elapsed_ms w 0 round)); [|lia].
  rewrite Hl. cbn [stream_round]. by rewrite Ha.
Qed.
End facts.

(** ** A world to run in *)

Definition demo_cfg : SuggestConfig := mkSuggestConfig 1 10 1000 2.
Definition no_files : Directories := mkDirectories None ∅ ∅.

(** Worker 1 delivers corrupt data, worker 2 good data, a second per round. *)
Definition demo_world (ask : nat -> RemoteObjectInfo -> Answer) : World :=
  mkWorld true false (fun _ => 0%Q) demo_cfg ask (fun _ => 100) (fun _ n => 1000 * Z.of_nat n)
    (fun _ s => (false, true, s)) (fun _ => no_files) (fun _ _ => None) true true.

Definition two_peers (n : nat) (loc : RemoteObjectInfo) : Answer :=
  if decide (r_worker_id_ loc = 1%N) then AError CHECKSUM else AData [Byte.x41; Byte.x42] "T" "h".

Definition demo_index : DataService :=
  update_remote_idx "/a:x" 2 "h2" 92 0 false (update_remote_idx "/a:x" 1 "h1" 91 0 false sample_service).

Lemma corruption_never_hidden_witness :
  ends_well [Byte.x41; Byte.x42] (read_raw_compressed (demo_world two_peers) "/a:x" 40 false demo_index).1.2.
Proof.
  destruct (corruption_never_hidden (demo_world two_peers) "/a:x" 40 false demo_index
    (ReadFound [Byte.x41; Byte.x42]) (read_raw_compressed (demo_world two_peers) "/a:x" 40 false demo_index).1.2
    (read_raw_compressed (demo_world two_peers) "/a:x" 40 false demo_index).2) as [(_ & H & _)|H].
  - vm_compute. reflexivity.
  - intros [loc H]. apply (list_elem_of_In _ _) in H. vm_compute in H. destruct H as [H|[H|[]]]; discriminate H.
  - vm_compute in H. discriminate H.
  - exact H.
Defined.

(** Every transfer fails on the network. *)
Definition dead_net (n : nat) (loc : RemoteObjectInfo) : Answer := AError NETWORK.


(** A read of an object whose local write is never finished. *)
Example unfinished_write_blocks :
  (read_raw_compressed (demo_world dead_net) "/a:x" 31 false (on_write_started "/a" "/a:x" sample_service)).1.1 = ReadBlocked.
Proof. vm_compute. reflexivity. Qed.

(** Worker 2 delivers a record that is nothing but a trailer. *)
Definition trailer_peer (n : nat) (loc : RemoteObjectInfo) : Answer := AData (serialize_trailer sample_header) "T" "h".

Lemma checked_read_valid_witness : exists h n, deserialize_trailer (serialize_trailer sample_header) = Some (h, n).
Proof.
  apply (checked_read_valid (demo_world trailer_peer) "/a:x" 40 false demo_index (serialize_trailer sample_header) false
    (read_object_compressed (demo_world trailer_peer) "/a:x" 40 false demo_index).1.2
    (read_object_compressed (demo_world trailer_peer) "/a:x" 40 false demo_index).2).
  vm_compute. reflexivity.
Defined.

Definition corrupt_peer (n : nat) (loc : RemoteObjectInfo) : Answer := AError CHECKSUM.

Lemma streaming_hides_corruption_witness :
  (read_streaming (demo_world corrupt_peer) "/a:x" 1 30 0 false 1
    (update_remote_idx "/a:x" 1 "h1" 91 0 false sample_service)).1.1 = StreamError NETWORK.
Proof.
  apply (streaming_hides_corruption (demo_world corrupt_peer) "/a:x" 0 30 0
    (update_remote_idx "/a:x" 1 "h1" 91 0 false sample_service) (mkRemoteObjectInfo 1 "h1" 91 false true));
    [vm_compute; reflexivity|reflexivity|vm_compute; discriminate].
Defined.
