(* ===== verification/Vars.v ===== *)
(** Variables of a database: small objects kept by the master, cached by the
    workers, and saved next to the database when it is frozen.

    The store and its file are Database's variable service in
    src/storage/cpp/database.cpp; the messages are handled by
    src/agent/cpp/master_agent.cpp and worker_agent.cpp.  A value is a shared
    buffer, or no buffer; its bytes are what the code serializes.  The store is
    traversed in the order of [map_to_list]; opening and writing the file is
    assumed to succeed. *)

From stdpp Require Import base gmap strings list option sets fin_maps.
From Stdlib Require Import ZArith Lia Strings.Byte Strings.String.
From S2P Require Import Prelude Bytes ObjectNames.

Open Scope Z_scope.

(** ** The store of one process *)

Record VarEntry := mkVarEntry { value_ : option bytes; type_name_ : string }.
#[export] Instance VarEntry_eq_dec : EqDecision VarEntry.
Proof. solve_decision. Defined.

(** The members of [Database] that the variable service and freezing use. *)
Record Database := mkDatabase {
  db_path_ : string;
  is_frozen_ : bool;
  writer_id_ : string;
  var_store_ : gmap string VarEntry
}.

#[export] Instance set_db_path_Database : Setter db_path_ :=
  fun h x => mkDatabase (h (db_path_ x)) (is_frozen_ x) (writer_id_ x) (var_store_ x).
Arguments set_db_path_Database h x /.
#[export] Instance set_is_frozen_Database : Setter is_frozen_ :=
  fun h x => mkDatabase (db_path_ x) (h (is_frozen_ x)) (writer_id_ x) (var_store_ x).
Arguments set_is_frozen_Database h x /.
#[export] Instance set_writer_id_Database : Setter writer_id_ :=
  fun h x => mkDatabase (db_path_ x) (is_frozen_ x) (h (writer_id_ x)) (var_store_ x).
Arguments set_writer_id_Database h x /.
#[export] Instance set_var_store_Database : Setter var_store_ :=
  fun h x => mkDatabase (db_path_ x) (is_frozen_ x) (writer_id_ x) (h (var_store_ x)).
Arguments set_var_store_Database h x /.

Definition inject_var (name : string) (e : VarEntry) (db : Database) : Database :=
  db <| var_store_ ::= <[name := e]> |>.

Definition drop_local_var (name : string) (db : Database) : Database :=
  db <| var_store_ ::= delete name |>.

Definition master_set_var (name : string) (e : VarEntry) (db : Database) : bool * Database :=
  if is_frozen_ db then (false, db)
  else if decide (is_Some (var_store_ db !! name)) then (false, db)
  else (true, db <| var_store_ ::= <[name := e]> |>).

Definition master_get_var (name : string) (db : Database) : option VarEntry := var_store_ db !! name.

Definition master_remove_var (name : string) (db : Database) : Database :=
  if decide (name = "") then db <| var_store_ := ∅ |> else db <| var_store_ ::= delete name |>.

Definition master_has_var (name : string) (db : Database) : bool := bool_decide (is_Some (var_store_ db !! name)).

(** ** The file of variables *)

Definition VARS_FILE_MAGIC : Z := 0x53524156.

(** The image of an [int64_t], and the value it is read back as. *)
Definition int64_bytes (z : Z) : bytes := le_split 8 z.
Definition int64_of (bs : bytes) : Z :=
  let n := le_combine bs in if n <? 2 ^ 63 then n else n - 2 ^ 64.

Definition var_bytes (e : VarEntry) : bytes := default [] (value_ e).

Definition var_record (name : string) (e : VarEntry) : bytes :=
  int64_bytes (Z.of_nat (String.length name)) ++ list_byte_of_string name ++
  int64_bytes (Z.of_nat (List.length (var_bytes e))) ++ var_bytes e ++
  int64_bytes (Z.of_nat (String.length (type_name_ e))) ++ list_byte_of_string (type_name_ e).

(** [flush_vars_to_disk]: the content of the file. *)
Definition flush_vars_to_disk (db : Database) : bytes :=
  let snapshot := map_to_list (var_store_ db) in
  int64_bytes VARS_FILE_MAGIC ++ int64_bytes (Z.of_nat (List.length snapshot)) ++
  List.concat ((fun p => var_record p.1 p.2) <$> snapshot).

(** An [ifstream]: what is left and whether no read has failed. *)
Record ifstream := mkIfstream { s_rest : bytes; s_good : bool }.

(** [read] into a buffer of [n] zero bytes: a read that comes up short fills what
    it can and fails the stream; a failed stream reads nothing. *)
Definition stream_read (n : nat) (st : ifstream) : bytes * ifstream :=
  if s_good st then
    if decide (n <= List.length (s_rest st))%nat then (take n (s_rest st), mkIfstream (drop n (s_rest st)) true)
    else (s_rest st ++ replicate (n - List.length (s_rest st)) Byte.x00, mkIfstream [] false)
  else (replicate n Byte.x00, st).

(** A length, and [None] when the loop breaks. *)
Definition read_len (st : ifstream) : option (nat * ifstream) :=
  let '(bs, st) := stream_read 8 st in
  if s_good st && (0 <=? int64_of bs) then Some (Z.to_nat (int64_of bs), st) else None.

(** One iteration of the loop of [load_vars_from_disk]. *)
Definition load_var (st : ifstream) : option (string * VarEntry * ifstream) :=
  '(name_len, st) ← read_len st;
  let '(name, st) := stream_read name_len st in
  '(val_len, st) ← read_len st;
  let '(value, st) := stream_read val_len st in
  '(tn_len, st) ← read_len st;
  let '(type_name, st) := stream_read tn_len st in
  Some (string_of_list_byte name, mkVarEntry (Some value) (string_of_list_byte type_name), st).

Fixpoint load_vars_loop (count : nat) (st : ifstream) (m : gmap string VarEntry) : gmap string VarEntry :=
  match count with
  | O => m
  | S count =>
      match load_var st with
      | None => m
      | Some (name, e, st) => load_vars_loop count st (<[name := e]> m)
      end
  end.

(** [load_vars_from_disk]; [None] is an absent file. *)
Definition load_vars_from_disk (file : option bytes) (db : Database) : Database :=
  match file with
  | None => db
  | Some content =>
      let '(magic, st) := stream_read 8 (mkIfstream content true) in
      if negb (s_good st && (int64_of magic =? VARS_FILE_MAGIC)) then db
      else
        let '(count, st) := stream_read 8 st in
        if negb (s_good st && (0 <=? int64_of count)) then db
        else db <| var_store_ ::= load_vars_loop (Z.to_nat (int64_of count)) st |>
  end.

(** ** Round trip of the file *)

Lemma int64_image z : 0 <= z < 2 ^ 63 -> int64_of (int64_bytes z) = z.
Proof.
  intros Hz. unfold int64_of, int64_bytes. rewrite le_combine_split, Z.mod_small by lia.
  destruct (Z.ltb_spec z (2 ^ 63)); lia.
Qed.

Lemma stream_read_app x r : stream_read (List.length x) (mkIfstream (x ++ r) true) = (x, mkIfstream r true).
Proof.
  unfold stream_read. cbn. rewrite decide_True by (rewrite length_app; lia). by rewrite take_app_length, drop_app_length.
Qed.

Lemma read_len_app n r :
  Z.of_nat n < 2 ^ 63 -> read_len (mkIfstream (int64_bytes (Z.of_nat n) ++ r) true) = Some (n, mkIfstream r true).
Proof.
  intros Hn. unfold read_len. replace 8%nat with (List.length (int64_bytes (Z.of_nat n))) by apply length_le_split.
  rewrite stream_read_app, int64_image by lia. cbn. rewrite (proj2 (Z.leb_le _ _)) by lia. by rewrite Nat2Z.id.
Qed.

Lemma length_byte_string s : List.length (list_byte_of_string s) = String.length s.
Proof.
  unfold list_byte_of_string. rewrite length_map. induction s as [|a s IH]; cbn; [done|]. by f_equal.
Qed.

(** Lengths that fit the file. *)
Definition var_fits (name : string) (e : VarEntry) : Prop :=
  Z.of_nat (String.length name) < 2 ^ 63 /\ Z.of_nat (List.length (var_bytes e)) < 2 ^ 63 /\
  Z.of_nat (String.length (type_name_ e)) < 2 ^ 63.

(** What is read back: a variable without a buffer gets an empty one. *)
Definition saved_entry (e : VarEntry) : VarEntry := mkVarEntry (Some (var_bytes e)) (type_name_ e).

Lemma load_var_record name e r :
  var_fits name e -> load_var (mkIfstream (var_record name e ++ r) true) = Some (name, saved_entry e, mkIfstream r true).
Proof.
  intros (Hn & Hv & Ht). unfold load_var, var_record. rewrite <- !app_assoc.
  rewrite read_len_app by done. cbn [mbind option_bind]. rewrite <- (length_byte_string name), stream_read_app.
  rewrite read_len_app by done. cbn [mbind option_bind]. rewrite stream_read_app.
  rewrite read_len_app by done. cbn [mbind option_bind]. rewrite <- (length_byte_string (type_name_ e)), stream_read_app.
  by rewrite !string_of_list_byte_of_string.
Qed.

Lemma load_vars_records l m r :
  Forall (fun p => var_fits p.1 p.2) l ->
  load_vars_loop (List.length l) (mkIfstream (List.concat ((fun p => var_record p.1 p.2) <$> l) ++ r) true) m =
  foldl (fun m p => <[p.1 := saved_entry p.2]> m) m l.
Proof.
  intros Hl. revert m. induction Hl as [|[name e] l Hp Hl IH]; intros m; [done|].
  cbn [List.length load_vars_loop fmap list_fmap List.concat foldl]. rewrite <- app_assoc. cbn [fst snd] in *.
  rewrite load_var_record by done. apply IH.
Qed.

Lemma foldl_saved_lookup {A B} (f : A -> B) l (m : gmap string B) k :
  NoDup l.*1 ->
  foldl (fun m p => <[p.1 := f p.2]> m) m l !! k =
  match (list_to_map l : gmap string A) !! k with Some e => Some (f e) | None => m !! k end.
Proof.
  revert m. induction l as [|[n e] l IH]; intros m Hnd; cbn; [by rewrite lookup_empty|].
  apply NoDup_cons in Hnd as [Hn Hnd]. rewrite IH by done. destruct (decide (k = n)) as [->|Hk].
  - rewrite lookup_insert_eq. rewrite not_elem_of_list_to_map_1 by done. by rewrite lookup_insert_eq.
  - by rewrite !lookup_insert_ne.
Qed.

Lemma vars_file_merges db other :
  map_Forall var_fits (var_store_ db) -> Z.of_nat (size (var_store_ db)) < 2 ^ 63 ->
  load_vars_from_disk (Some (flush_vars_to_disk db)) other =
    other <| var_store_ ::= fun m => (saved_entry <$> var_store_ db) ∪ m |>.
Proof.
  intros Hfit Hcount. unfold load_vars_from_disk, flush_vars_to_disk. cbn zeta.
  set (l := map_to_list (var_store_ db)).
  assert (Hlen : Z.of_nat (List.length l) < 2 ^ 63) by (unfold l; by rewrite length_map_to_list).
  assert (H8 : forall z, List.length (int64_bytes z) = 8%nat) by (intros; apply length_le_split).
  pose proof (stream_read_app (int64_bytes VARS_FILE_MAGIC)) as Hm. rewrite H8 in Hm. rewrite Hm.
  rewrite int64_image by (vm_compute; done). cbn [s_good negb andb]. rewrite Z.eqb_refl. cbn [negb].
  pose proof (stream_read_app (int64_bytes (Z.of_nat (List.length l)))) as Hc. rewrite H8 in Hc. rewrite Hc.
  rewrite int64_image by lia. cbn [s_good andb]. rewrite (proj2 (Z.leb_le _ _)) by lia. cbn [negb].
  rewrite Nat2Z.id. rewrite <- (app_nil_r (List.concat _)). destruct other as [p f w vs]. cbn in *. f_equal.
  rewrite load_vars_records.
  - apply map_eq. intros k. rewrite foldl_saved_lookup by apply NoDup_fst_map_to_list.
    unfold l. rewrite list_to_map_to_list, lookup_union, lookup_fmap. by destruct (var_store_ db !! k), (vs !! k).
  - apply Forall_forall. intros [n e] Hin%elem_of_map_to_list. by apply (Hfit n e).
Qed.

Lemma vars_file_reads_back db fresh :
  map_Forall var_fits (var_store_ db) -> Z.of_nat (size (var_store_ db)) < 2 ^ 63 -> var_store_ fresh = ∅ ->
  load_vars_from_disk (Some (flush_vars_to_disk db)) fresh = fresh <| var_store_ := saved_entry <$> var_store_ db |>.
Proof.
  intros Hfit Hsz Hfr. rewrite vars_file_merges by done. destruct fresh. cbn in *. subst. by rewrite map_union_empty.
Qed.

(** C31: The file of variables is read back.  Loading the file that a flush of a
    database's variables wrote, into any database, sets exactly the flushed variables there, name by
    name, value and type included, and leaves the other variables alone; only a variable that had no buffer
    comes back with an empty one.  Lengths and the number of variables fit 63 bits.  The claim is about one flush and
    one load: the processes that freeze a database each write the same file, so the variables that stay are
    those of the last one ([worker_freeze_loses_vars]). *)
Theorem vars_roundtrip db other :
  map_Forall var_fits (var_store_ db) -> Z.of_nat (size (var_store_ db)) < 2 ^ 63 ->
  load_vars_from_disk (Some (flush_vars_to_disk db)) other =
    other <| var_store_ ::= fun m => (saved_entry <$> var_store_ db) ∪ m |>.
Proof. apply vars_file_merges. Qed.

Definition sample_db : Database :=
  mkDatabase "/p/db" false "1" {[ "a" := mkVarEntry (Some [Byte.x01; Byte.x02]) "int"; "b" := mkVarEntry None "str" ]}.

Lemma vars_roundtrip_witness :
  let other := sample_db <| var_store_ := {[ "c" := mkVarEntry (Some [Byte.x05]) "int" ]} |> in
  let db := load_vars_from_disk (Some (flush_vars_to_disk sample_db)) other in
  var_store_ db !! "a" = Some (mkVarEntry (Some [Byte.x01; Byte.x02]) "int") /\
  var_store_ db !! "b" = Some (mkVarEntry (Some []) "str") /\ var_store_ db !! "c" = Some (mkVarEntry (Some [Byte.x05]) "int").
Proof.
  intros other db. unfold db. rewrite (vars_roundtrip sample_db other).
  - vm_compute. auto.
  - apply map_Forall_insert_2; [vm_compute; auto|]. apply map_Forall_singleton. vm_compute. auto.
  - vm_compute. reflexivity.
Defined.

(** A file cut short within the last type name is accepted: the variable is
    stored with a type name whose missing characters are zero bytes. *)
Theorem truncated_vars_accepted name e k :
  var_fits name e -> (0 < k <= String.length (type_name_ e))%nat ->
  let db := mkDatabase "" false "" {[ name := e ]} in
  let file := flush_vars_to_disk db in
  var_store_ (load_vars_from_disk (Some (take (List.length file - k) file)) (db <| var_store_ := ∅ |>)) !! name =
  Some (mkVarEntry (Some (var_bytes e)) (string_of_list_byte
    (take (String.length (type_name_ e) - k) (list_byte_of_string (type_name_ e)) ++ replicate k Byte.x00))).
Proof.
  intros (Hn & Hv & Ht) Hk db file. set (T := list_byte_of_string (type_name_ e)).
  assert (HT : List.length T = String.length (type_name_ e)) by apply length_byte_string.
  assert (H8 : forall z, List.length (int64_bytes z) = 8%nat) by (intros; apply length_le_split).
  set (P := int64_bytes (Z.of_nat (String.length name)) ++ list_byte_of_string name ++
            int64_bytes (Z.of_nat (List.length (var_bytes e))) ++ var_bytes e ++
            int64_bytes (Z.of_nat (String.length (type_name_ e)))).
  assert (Ef : file = int64_bytes VARS_FILE_MAGIC ++ int64_bytes 1 ++ P ++ T).
  { unfold file, flush_vars_to_disk, db. cbn [var_store_]. rewrite map_to_list_singleton.
    cbn [List.length fmap list_fmap List.concat fst snd]. unfold var_record, P, T. rewrite app_nil_r. by rewrite <- !app_assoc. }
  assert (Et : take (List.length file - k) file =
    int64_bytes VARS_FILE_MAGIC ++ int64_bytes 1 ++ P ++ take (List.length T - k) T).
  { rewrite Ef. rewrite !length_app, !H8. rewrite !(take_app_ge (int64_bytes _)) by (rewrite H8; lia). f_equal.
    rewrite take_app_ge by (rewrite !H8; lia). f_equal. rewrite take_app_ge by (rewrite !H8; lia). f_equal.
    f_equal. rewrite !H8. lia. }
  rewrite Et. unfold load_vars_from_disk.
  pose proof (stream_read_app (int64_bytes VARS_FILE_MAGIC)) as Hm. rewrite H8 in Hm. rewrite Hm.
  rewrite int64_image by (vm_compute; done). cbn [s_good negb andb]. rewrite Z.eqb_refl. cbn [negb].
  pose proof (stream_read_app (int64_bytes 1)) as Hc. rewrite H8 in Hc. rewrite Hc.
  rewrite int64_image by lia. cbn [s_good andb Z.leb Z.compare negb]. change (Z.to_nat 1) with 1%nat. cbn [load_vars_loop].
  assert (El : load_var (mkIfstream (P ++ take (List.length T - k) T) true) =
    Some (name, mkVarEntry (Some (var_bytes e)) (string_of_list_byte (take (List.length T - k) T ++ replicate k Byte.x00)),
          mkIfstream [] false)).
  { unfold load_var, P. rewrite <- !app_assoc.
    rewrite read_len_app by done. cbn [mbind option_bind]. rewrite <- (length_byte_string name), stream_read_app.
    rewrite read_len_app by done. cbn [mbind option_bind]. rewrite stream_read_app.
    rewrite read_len_app by done. cbn [mbind option_bind]. unfold stream_read. cbn [s_good s_rest].
    rewrite length_take, decide_False by lia. rewrite string_of_list_byte_of_string.
    by replace (String.length (type_name_ e) - Nat.min (List.length T - k) (List.length T))%nat with k by lia. }
  rewrite El. cbn. by rewrite lookup_insert_eq, HT.
Qed.

Lemma truncated_vars_accepted_witness :
  let file := flush_vars_to_disk (mkDatabase "" false "" {[ "a" := mkVarEntry (Some [Byte.x01]) "int" ]}) in
  var_store_ (load_vars_from_disk (Some (take (List.length file - 1) file)) (mkDatabase "" false "" ∅)) !! "a" =
  Some (mkVarEntry (Some [Byte.x01]) ("in" +:+ String Ascii.zero "")).
Proof.
  refine (truncated_vars_accepted "a" (mkVarEntry (Some [Byte.x01]) "int") 1 _ _); [vm_compute; auto|cbn; lia].
Defined.

(** ** Freezing from several processes *)

(** The part of [Database::freeze] about variables: the files of the databases are
    on a disk all processes share. *)
Definition freeze (db : Database) (disk : gmap string bytes) : Database * gmap string bytes :=
  if is_frozen_ db then (db, disk)
  else (db <| is_frozen_ := true |>, <[db_path_ db := flush_vars_to_disk db]> disk).

(** The master freezes its database and writes the variables; a worker that hears
    of it freezes its own instance and writes the file again, with the variables
    it happens to have cached.  A variable the worker had not read is gone for
    whoever loads the database. *)
Theorem worker_freeze_loses_vars master worker fresh disk name :
  db_path_ worker = db_path_ master -> is_frozen_ worker = false ->
  map_Forall var_fits (var_store_ worker) -> Z.of_nat (size (var_store_ worker)) < 2 ^ 63 -> var_store_ fresh = ∅ ->
  var_store_ worker !! name = None ->
  let disk := (freeze worker (freeze master disk).2).2 in
  var_store_ (load_vars_from_disk (disk !! db_path_ master) fresh) !! name = None.
Proof.
  intros Hp Hf Hfit Hsz Hfr Hn disk'. assert (Hd : disk' !! db_path_ master = Some (flush_vars_to_disk worker)).
  { unfold disk'. unfold freeze at 1. rewrite Hf. cbn. by rewrite Hp, lookup_insert_eq. }
  rewrite Hd, vars_file_reads_back by done. cbn. by rewrite lookup_fmap, Hn.
Qed.

Lemma worker_freeze_loses_vars_witness :
  let disk := (freeze (sample_db <| var_store_ := ∅ |>) (freeze sample_db ∅).2).2 in
  var_store_ (load_vars_from_disk (disk !! db_path_ sample_db) (sample_db <| var_store_ := ∅ |>)) !! "a" = None.
Proof.
  refine (worker_freeze_loses_vars sample_db (sample_db <| var_store_ := ∅ |>) (sample_db <| var_store_ := ∅ |>) ∅ "a" _ _ _ _ _ _);
    try reflexivity. apply map_Forall_empty.
Defined.
