(* ===== verification/PendingRpcMap.v ===== *)
(** The table of calls that wait for an answer (src/agent/cpp/pending_rpc_map.h):
    a map from a key to the entry its waiter looks at.  Every method runs under the
    lock of the table; a waiter refers to its entry through the map, so an entry
    written under its key is the one it sees. *)

From stdpp Require Import base gmap.
From S2P Require Import Prelude.

Section PendingRpcMap.
  Context {K P : Type} `{Countable K}.
  Implicit Types (m : gmap K P) (k : K) (p : P).

Definition emplace k p m : gmap K P := <[k := p]> m.

Definition insert_if_absent k p m : P * bool * gmap K P :=
  match m !! k with
  | Some q => (q, false, m)
  | None => (p, true, <[k := p]> m)
  end.

Definition find k m : option P := m !! k.

Definition erase k m : gmap K P := delete k m.

Definition complete k (filler : P -> P) m : gmap K P := alter filler k m.

Definition complete_all_if (pred : P -> bool) (filler : P -> P) m : gmap K P :=
  (fun p => if pred p then filler p else p) <$> m.

(** One look of [wait_for]: [None] goes on waiting; the inner [None] is the null
    pointer it returns for an absent key or at the deadline. *)
Definition wait_for k (is_done : P -> bool) (deadline erase_on_timeout : bool) m : option (option P) * gmap K P :=
  match m !! k with
  | None => (Some None, m)
  | Some p =>
      if is_done p then (Some (Some p), m)
      else if deadline then (Some None, if erase_on_timeout then delete k m else m)
      else (None, m)
  end.

End PendingRpcMap.
