(* ===== verification/VarProtocol.v ===== *)
(** The variable service between the master and its workers.

    Handlers of src/agent/cpp/master_agent.cpp (on_var_set, on_var_get,
    on_var_remove, broadcast_var and the functions of the master's own process)
    and of src/agent/cpp/worker_agent.cpp (set_var_sync, get_var_sync,
    remove_var_async, on_var_ack, on_var_broadcast, the replay queue), the calls
    of Database (set_var, get_var, remove_var of src/storage/cpp/database.cpp)
    that wait on them, and the variables that travel with the assignment of a task
    (assign_task_to_worker, on_task_assign, take_task) and are put into the
    worker's caches before it runs (inject_var).

    The connection of a worker is a pair of queues, delivered in order.  A worker
    runs one call at a time, as its task loop does; a call is split where it
    waits, so that deliveries, other workers and the timeout come between.  An
    [action] names what happens next and [act] is its effect; an action that is
    not possible changes nothing. *)

From stdpp Require Import base gmap strings list option sets fin_maps.
From Stdlib Require Import ZArith Lia.
From S2P Require Import Prelude Bytes ObjectNames Vars PendingRpcMap.

(** ** Messages and state *)

Inductive ToMaster :=
  | VarSetMessage (var_name : string) (value : bytes) (type_name : string)
  | VarGetMessage (var_name : string)
  | VarRemoveMessage (var_name : string).

Record VarAckMessage := mkVarAckMessage {
  ack_var_name_ : string; ack_success_ : bool; ack_error_ : string; ack_value_ : bytes; ack_type_name_ : string }.

(** [VarPayload]: the full name, the value and the type. *)
Definition VarPayload : Type := string * bytes * string.

(** Of the assignment of a task only the variables matter here. *)
Inductive ToWorker :=
  | VarAck (m : VarAckMessage)
  | VarBroadcastMessage (var_name : string) (is_modification_reject : bool)
  | TaskAssign (var_payloads : list VarPayload).

Record PendingVarOp := mkPendingVarOp {
  p_completed_ : bool; p_success_ : bool; p_value_ : option bytes; p_type_name_ : string; p_error_ : string }.

(** The call a worker's task is blocked in, with the arguments it goes on with. *)
Inductive VarCall :=
  | SetCall (db_path name : string) (e : VarEntry)
  | GetCall (db_path name : string).

Record WorkerAgent := mkWorkerAgent {
  databases_ : gmap string Database;
  pending_var_ops_ : gmap string PendingVarOp;
  registered_ : bool;
  pending_master_sends_ : list ToMaster;
  blocked_ : option VarCall;
  (** what the last call returned: success and value *)
  returned_ : option (bool * option bytes);
  (** the two directions of the connection *)
  to_master_ : list ToMaster;
  from_master_ : list ToWorker;
  (** the variables of the tasks assigned, and of the task taken *)
  task_queue_ : list (list VarPayload);
  pending_task_vars_ : list VarPayload
}.
#[export] Instance set_databases_WorkerAgent : Setter databases_ :=
  fun h x => mkWorkerAgent (h (databases_ x)) (pending_var_ops_ x) (registered_ x) (pending_master_sends_ x) (blocked_ x) (returned_ x) (to_master_ x) (from_master_ x) (task_queue_ x) (pending_task_vars_ x).
Arguments set_databases_WorkerAgent h x /.
#[export] Instance set_pending_var_ops_WorkerAgent : Setter pending_var_ops_ :=
  fun h x => mkWorkerAgent (databases_ x) (h (pending_var_ops_ x)) (registered_ x) (pending_master_sends_ x) (blocked_ x) (returned_ x) (to_master_ x) (from_master_ x) (task_queue_ x) (pending_task_vars_ x).
Arguments set_pending_var_ops_WorkerAgent h x /.
#[export] Instance set_registered_WorkerAgent : Setter registered_ :=
  fun h x => mkWorkerAgent (databases_ x) (pending_var_ops_ x) (h (registered_ x)) (pending_master_sends_ x) (blocked_ x) (returned_ x) (to_master_ x) (from_master_ x) (task_queue_ x) (pending_task_vars_ x).
Arguments set_registered_WorkerAgent h x /.
#[export] Instance set_pending_master_sends_WorkerAgent : Setter pending_master_sends_ :=
  fun h x => mkWorkerAgent (databases_ x) (pending_var_ops_ x) (registered_ x) (h (pending_master_sends_ x)) (blocked_ x) (returned_ x) (to_master_ x) (from_master_ x) (task_queue_ x) (pending_task_vars_ x).
Arguments set_pending_master_sends_WorkerAgent h x /.
#[export] Instance set_blocked_WorkerAgent : Setter blocked_ :=
  fun h x => mkWorkerAgent (databases_ x) (pending_var_ops_ x) (registered_ x) (pending_master_sends_ x) (h (blocked_ x)) (returned_ x) (to_master_ x) (from_master_ x) (task_queue_ x) (pending_task_vars_ x).
Arguments set_blocked_WorkerAgent h x /.
#[export] Instance set_returned_WorkerAgent : Setter returned_ :=
  fun h x => mkWorkerAgent (databases_ x) (pending_var_ops_ x) (registered_ x) (pending_master_sends_ x) (blocked_ x) (h (returned_ x)) (to_master_ x) (from_master_ x) (task_queue_ x) (pending_task_vars_ x).
Arguments set_returned_WorkerAgent h x /.
#[export] Instance set_to_master_WorkerAgent : Setter to_master_ :=
  fun h x => mkWorkerAgent (databases_ x) (pending_var_ops_ x) (registered_ x) (pending_master_sends_ x) (blocked_ x) (returned_ x) (h (to_master_ x)) (from_master_ x) (task_queue_ x) (pending_task_vars_ x).
Arguments set_to_master_WorkerAgent h x /.
#[export] Instance set_from_master_WorkerAgent : Setter from_master_ :=
  fun h x => mkWorkerAgent (databases_ x) (pending_var_ops_ x) (registered_ x) (pending_master_sends_ x) (blocked_ x) (returned_ x) (to_master_ x) (h (from_master_ x)) (task_queue_ x) (pending_task_vars_ x).
Arguments set_from_master_WorkerAgent h x /.

#[export] Instance set_task_queue_WorkerAgent : Setter task_queue_ :=
  fun h x => mkWorkerAgent (databases_ x) (pending_var_ops_ x) (registered_ x) (pending_master_sends_ x) (blocked_ x) (returned_ x) (to_master_ x) (from_master_ x) (h (task_queue_ x)) (pending_task_vars_ x).
Arguments set_task_queue_WorkerAgent h x /.
#[export] Instance set_pending_task_vars_WorkerAgent : Setter pending_task_vars_ :=
  fun h x => mkWorkerAgent (databases_ x) (pending_var_ops_ x) (registered_ x) (pending_master_sends_ x) (blocked_ x) (returned_ x) (to_master_ x) (from_master_ x) (task_queue_ x) (h (pending_task_vars_ x)).
Arguments set_pending_task_vars_WorkerAgent h x /.

Record System := mkSystem { db_instances_ : gmap string Database; workers_ : gmap nat WorkerAgent }.

(** ** The worker *)

(** A message for the master: on the connection, or in the replay queue until the
    registration is confirmed. *)
Definition send_master (m : ToMaster) (w : WorkerAgent) : WorkerAgent :=
  if registered_ w then w <| to_master_ ::= (fun q => q ++ [m]) |>
  else w <| pending_master_sends_ ::= (fun q => q ++ [m]) |>.

Definition replay_pending_master_sends (w : WorkerAgent) : WorkerAgent :=
  w <| to_master_ ::= (fun q => q ++ pending_master_sends_ w) |> <| pending_master_sends_ := [] |>.

Definition on_register_ack (w : WorkerAgent) : WorkerAgent :=
  replay_pending_master_sends (w <| registered_ := true |>).

(** The connection breaks: what is on it is lost. *)
Definition on_connection_lost (w : WorkerAgent) : WorkerAgent :=
  w <| registered_ := false |> <| to_master_ := [] |> <| from_master_ := [] |>.

Definition fresh_op : PendingVarOp := mkPendingVarOp false false None "" "".

Definition set_var_sync (full_var_name : string) (value : option bytes) (type_name : string) (w : WorkerAgent) : WorkerAgent :=
  send_master (VarSetMessage full_var_name (default [] value) type_name)
    (w <| pending_var_ops_ ::= PendingRpcMap.emplace full_var_name fresh_op |>).

Definition get_var_sync (full_var_name : string) (w : WorkerAgent) : WorkerAgent :=
  send_master (VarGetMessage full_var_name) (w <| pending_var_ops_ ::= PendingRpcMap.emplace full_var_name fresh_op |>).

Definition remove_var_async (full_var_name : string) (w : WorkerAgent) : WorkerAgent :=
  send_master (VarRemoveMessage full_var_name) w.

Definition cache (db_path name : string) (e : VarEntry) (w : WorkerAgent) : WorkerAgent :=
  w <| databases_ ::= alter (inject_var name e) db_path |>.

(** [Database::set_var], [get_var] and [remove_var] up to where they wait. *)
Definition set_var (db_path name : string) (value : option bytes) (type_name : string) (w : WorkerAgent) : WorkerAgent :=
  match databases_ w !! db_path, blocked_ w with
  | Some db, None =>
      if is_frozen_ db then w <| returned_ := Some (false, None) |>
      else set_var_sync (full_name db_path name) value type_name w
             <| blocked_ := Some (SetCall db_path name (mkVarEntry value type_name)) |>
  | _, _ => w
  end.

Definition get_var (db_path name : string) (w : WorkerAgent) : WorkerAgent :=
  match databases_ w !! db_path, blocked_ w with
  | Some db, None =>
      match var_store_ db !! name with
      | Some e => w <| returned_ := Some (true, value_ e) |>
      | None => get_var_sync (full_name db_path name) w <| blocked_ := Some (GetCall db_path name) |>
      end
  | _, _ => w
  end.

Definition remove_var (db_path name : string) (w : WorkerAgent) : WorkerAgent :=
  match databases_ w !! db_path, blocked_ w with
  | Some _, None =>
      remove_var_async (full_name db_path name) (w <| databases_ ::= alter (drop_local_var name) db_path |>)
  | _, _ => w
  end.

Definition call_name (c : VarCall) : string :=
  match c with SetCall p n _ | GetCall p n => full_name p n end.

(** The call goes on: it takes its answer, or gives up at the deadline.  The
    entry is erased either way. *)
Definition resume (deadline : bool) (w : WorkerAgent) : WorkerAgent :=
  match blocked_ w with
  | None => w
  | Some c =>
      let '(r, ops) := PendingRpcMap.wait_for (call_name c) p_completed_ deadline true (pending_var_ops_ w) in
      match r with
      | None => w
      | Some result =>
          let w := w <| pending_var_ops_ := PendingRpcMap.erase (call_name c) ops |> <| blocked_ := None |> in
          match result with
          | None => w <| returned_ := Some (false, None) |>
          | Some p =>
              match c with
              | SetCall path n e =>
                  (if p_success_ p then cache path n e w else w) <| returned_ := Some (p_success_ p, None) |>
              | GetCall path n =>
                  (match p_success_ p, p_value_ p with
                   | true, Some v => cache path n (mkVarEntry (Some v) (p_type_name_ p)) w
                   | _, _ => w
                   end) <| returned_ := Some (p_success_ p, p_value_ p) |>
              end
          end
      end
  end.

Definition on_var_ack (m : VarAckMessage) (w : WorkerAgent) : WorkerAgent :=
  w <| pending_var_ops_ ::= PendingRpcMap.complete (ack_var_name_ m) (fun p =>
         mkPendingVarOp true (ack_success_ m)
           (if ack_success_ m && negb (bool_decide (ack_value_ m = [])) then Some (ack_value_ m) else p_value_ p)
           (ack_type_name_ m) (ack_error_ m)) |>.

Definition on_var_broadcast (var_name : string) (w : WorkerAgent) : WorkerAgent :=
  let '(db_path, short_name) := split_full_name var_name in
  if decide (db_path = "") then w
  else w <| databases_ ::= alter (drop_local_var short_name) db_path |>.

Definition on_worker_message (m : ToWorker) (w : WorkerAgent) : WorkerAgent :=
  match m with
  | VarAck a => on_var_ack a w
  | VarBroadcastMessage n _ => on_var_broadcast n w
  | TaskAssign payloads => w <| task_queue_ ::= (fun q => q ++ [payloads]) |>
  end.

(** The task loop: the next task is taken and its variables, if it has any, are
    set aside; the executor then puts what is set aside into the caches. *)
Definition take_task (w : WorkerAgent) : WorkerAgent :=
  match task_queue_ w, blocked_ w with
  | payloads :: q, None =>
      w <| task_queue_ := q |> <| pending_task_vars_ ::= (fun old => match payloads with [] => old | _ => payloads end) |>
  | _, _ => w
  end.

Definition inject_payload (w : WorkerAgent) (vp : VarPayload) : WorkerAgent :=
  let '(full, value, type_name) := vp in
  let '(db_path, short_name) := split_full_name full in
  if decide (db_path = "") then w else cache db_path short_name (mkVarEntry (Some value) type_name) w.

Definition inject_task_vars (w : WorkerAgent) : WorkerAgent :=
  match blocked_ w with
  | None => foldl inject_payload (w <| pending_task_vars_ := [] |>) (pending_task_vars_ w)
  | Some _ => w
  end.

(** ** The master *)

Definition update_worker (id : nat) (f : WorkerAgent -> WorkerAgent) (s : System) : System :=
  mkSystem (db_instances_ s) (alter f id (workers_ s)).

Definition send_worker (conn_id : nat) (m : ToWorker) (s : System) : System :=
  update_worker conn_id (fun w => w <| from_master_ ::= (fun q => q ++ [m]) |>) s.

(** To every registered connection. *)
Definition broadcast_var (full_var_name : string) (is_modification_reject : bool) (s : System) : System :=
  mkSystem (db_instances_ s)
    ((fun w => if registered_ w
               then w <| from_master_ ::= (fun q => q ++ [VarBroadcastMessage full_var_name is_modification_reject]) |> else w)
     <$> workers_ s).

(** The database a full name belongs to, and the short name. *)
Definition find_db (full_var_name : string) (s : System) : option (string * Database * string) :=
  let '(db_path, short_name) := split_full_name full_var_name in
  if decide (db_path = "") then None else (fun db => (db_path, db, short_name)) <$> db_instances_ s !! db_path.

Definition put_db (db_path : string) (db : Database) (s : System) : System :=
  mkSystem (<[db_path := db]> (db_instances_ s)) (workers_ s).

Definition on_var_set (conn_id : nat) (var_name : string) (value : bytes) (type_name : string) (s : System) : System :=
  let ack := fun ok err => VarAck (mkVarAckMessage var_name ok err [] "") in
  match find_db var_name s with
  | None => send_worker conn_id (ack false "db not found on master") s
  | Some (db_path, db, short_name) =>
      let '(ok, db) := master_set_var short_name (mkVarEntry (Some value) type_name) db in
      let s := put_db db_path db s in
      if ok then send_worker conn_id (ack true "") s
      else if is_frozen_ db then send_worker conn_id (ack false "db frozen") s
      else send_worker conn_id (ack false "var already exists (immutable)") (broadcast_var var_name true s)
  end.

Definition on_var_get (conn_id : nat) (var_name : string) (s : System) : System :=
  match find_db var_name s with
  | None => send_worker conn_id (VarAck (mkVarAckMessage var_name false "" [] "")) s
  | Some (_, db, short_name) =>
      send_worker conn_id (VarAck
        match master_get_var short_name db with
        | None => mkVarAckMessage var_name false "" [] ""
        | Some (mkVarEntry (Some v) tn) => mkVarAckMessage var_name true "" v tn
        | Some (mkVarEntry None _) => mkVarAckMessage var_name true "" [] ""
        end) s
  end.

(** Also the removal by the master's own process. *)
Definition on_var_remove (var_name : string) (s : System) : System :=
  match find_db var_name s with
  | None => s
  | Some (db_path, db, short_name) =>
      broadcast_var var_name false (put_db db_path (master_remove_var short_name db) s)
  end.

(** The function installed for calls of the master's own process. *)
Definition set_var_func (full_var_name : string) (value : option bytes) (type_name : string) (s : System) : System :=
  match find_db full_var_name s with
  | None => s
  | Some (db_path, db, short_name) =>
      put_db db_path (master_set_var short_name (mkVarEntry value type_name) db).2 s
  end.

(** [assign_task_to_worker]: the declared variables the master holds go along. *)
Definition task_payloads (vars : list string) (s : System) : list VarPayload :=
  omap (fun full =>
    match find_db full s with
    | None => None
    | Some (_, db, short_name) =>
        match master_get_var short_name db with
        | Some (mkVarEntry (Some v) tn) => Some (full, v, tn)
        | _ => None
        end
    end) vars.

Definition assign_task (conn_id : nat) (vars : list string) (s : System) : System :=
  send_worker conn_id (TaskAssign (task_payloads vars s)) s.

Definition on_master_message (conn_id : nat) (m : ToMaster) (s : System) : System :=
  match m with
  | VarSetMessage n v tn => on_var_set conn_id n v tn s
  | VarGetMessage n => on_var_get conn_id n s
  | VarRemoveMessage n => on_var_remove n s
  end.

(** ** Runs *)

Inductive action :=
  | CallSet (w : nat) (db_path name : string) (value : option bytes) (type_name : string)
  | CallGet (w : nat) (db_path name : string)
  | CallRemove (w : nat) (db_path name : string)
  | Resume (w : nat)
  | Deadline (w : nat)
  | AtMaster (w : nat)
  | AtWorker (w : nat)
  | RegisterAck (w : nat)
  | ConnectionLost (w : nat)
  | MasterSet (db_path name : string) (value : option bytes) (type_name : string)
  | MasterRemove (db_path name : string)
  | MasterFreeze (db_path : string)
  | AssignTask (w : nat) (vars : list string)
  | TakeTask (w : nat)
  | InjectVars (w : nat).

Definition act (a : action) (s : System) : System :=
  match a with
  | CallSet w p n v tn => update_worker w (set_var p n v tn) s
  | CallGet w p n => update_worker w (get_var p n) s
  | CallRemove w p n => update_worker w (remove_var p n) s
  | Resume w => update_worker w (resume false) s
  | Deadline w => update_worker w (resume true) s
  | AtMaster w =>
      match to_master_ <$> workers_ s !! w with
      | Some (m :: q) => on_master_message w m (update_worker w (fun x => x <| to_master_ := q |>) s)
      | _ => s
      end
  | AtWorker w =>
      match from_master_ <$> workers_ s !! w with
      | Some (m :: q) => update_worker w (fun x => on_worker_message m (x <| from_master_ := q |>)) s
      | _ => s
      end
  | RegisterAck w => update_worker w on_register_ack s
  | ConnectionLost w => update_worker w on_connection_lost s
  | MasterSet p n v tn => set_var_func (full_name p n) v tn s
  | MasterRemove p n => on_var_remove (full_name p n) s
  | MasterFreeze p => mkSystem (alter (fun db => db <| is_frozen_ := true |>) p (db_instances_ s)) (workers_ s)
  | AssignTask w vars => assign_task w vars s
  | TakeTask w => update_worker w take_task s
  | InjectVars w => update_worker w inject_task_vars s
  end.

Definition run (l : list action) (s : System) : System := foldl (fun s a => act a s) s l.

(** ** Coherence *)

(** The master holds this variable with this content. *)
Definition held (dbs : gmap string Database) (p n : string) (e : VarEntry) : Prop :=
  exists db e', dbs !! p = Some db /\ var_store_ db !! n = Some e' /\
    var_bytes e' = var_bytes e /\ type_name_ e' = type_name_ e.

Definition grows (dbs dbs' : gmap string Database) : Prop := forall p n e, held dbs p n e -> held dbs' p n e.

Definition call_msg (c : VarCall) : ToMaster :=
  match c with
  | SetCall p n e => VarSetMessage (full_name p n) (var_bytes e) (type_name_ e)
  | GetCall p n => VarGetMessage (full_name p n)
  end.

Definition call_plain (c : VarCall) : Prop :=
  match c with SetCall _ n _ | GetCall _ n => no_colon n end.

(** The answer to a call is right: a variable reported stored or found is held. *)
Definition answer_ok (dbs : gmap string Database) (c : VarCall) (ok : bool) (v : option bytes) (tn : string) : Prop :=
  ok = true ->
  match c with
  | SetCall p n e => held dbs p n e
  | GetCall p n => forall b, v = Some b -> held dbs p n (mkVarEntry (Some b) tn)
  end.

Definition asks (w : WorkerAgent) : list ToMaster := to_master_ w ++ pending_master_sends_ w.

Definition is_ack (m : ToWorker) : option VarAckMessage := match m with VarAck a => Some a | _ => None end.
Definition acks (w : WorkerAgent) : list VarAckMessage := omap is_ack (from_master_ w).

Definition unanswered (f : string) (w : WorkerAgent) : Prop := pending_var_ops_ w !! f = Some fresh_op.

(** The buffer an answer carries: none when it is empty. *)
Definition ack_buffer (a : VarAckMessage) : option bytes :=
  if bool_decide (ack_value_ a = []) then None else Some (ack_value_ a).

(** Where the call of a worker stands: asked, answered on the wire, or answered
    (perhaps lost). *)
Inductive standing (dbs : gmap string Database) (w : WorkerAgent) (c : VarCall) : Prop :=
  | Asked : asks w = [call_msg c] -> acks w = [] -> unanswered (call_name c) w -> standing dbs w c
  | Answered a : asks w = [] -> acks w = [a] -> ack_var_name_ a = call_name c ->
      answer_ok dbs c (ack_success_ a) (ack_buffer a) (ack_type_name_ a) ->
      unanswered (call_name c) w -> standing dbs w c
  | Got p : asks w = [] -> acks w = [] -> pending_var_ops_ w !! call_name c = Some p ->
      p = fresh_op \/ answer_ok dbs c (p_success_ p) (p_value_ p) (p_type_name_ p) -> standing dbs w c.

Definition coherent (dbs : gmap string Database) (w : WorkerAgent) : Prop :=
  forall p db n e, databases_ w !! p = Some db -> var_store_ db !! n = Some e -> held dbs p n e.

Definition worker_ok (dbs : gmap string Database) (w : WorkerAgent) : Prop :=
  coherent dbs w /\
  match blocked_ w with
  | None => asks w = [] /\ acks w = []
  | Some c => call_plain c /\ standing dbs w c
  end.

(** The variables on their way to the caches of a worker. *)
Definition is_assign (m : ToWorker) : option (list VarPayload) := match m with TaskAssign p => Some p | _ => None end.
Definition carried (w : WorkerAgent) : list VarPayload :=
  concat (omap is_assign (from_master_ w)) ++ concat (task_queue_ w) ++ pending_task_vars_ w.

Definition payload_ok (dbs : gmap string Database) (vp : VarPayload) : Prop :=
  forall p n, split_full_name vp.1.1 = (p, n) -> p <> "" -> held dbs p n (mkVarEntry (Some vp.1.2) vp.2).

Definition carried_ok (dbs : gmap string Database) (w : WorkerAgent) : Prop := Forall (payload_ok dbs) (carried w).

(** Runs with no removal and no timeout, on names without a colon. *)
Definition quiet (a : action) : Prop :=
  match a with
  | CallRemove _ _ _ | MasterRemove _ _ | Deadline _ => False
  | CallSet _ _ n _ _ | CallGet _ _ n | MasterSet _ n _ _ => no_colon n
  | _ => True
  end.

Lemma answer_grows dbs dbs' c ok v tn : grows dbs dbs' -> answer_ok dbs c ok v tn -> answer_ok dbs' c ok v tn.
Proof. unfold answer_ok. destruct c; naive_solver. Qed.

Lemma worker_ok_grows dbs dbs' w : grows dbs dbs' -> worker_ok dbs w -> worker_ok dbs' w.
Proof.
  intros Hg [Hc Hw]. split; [intros p db n e H1 H2; eapply Hg, Hc; eauto|].
  destruct (blocked_ w) as [c|]; [|done]. destruct Hw as [Hp Hs]. split; [done|].
  destruct Hs as [?|a|p ? ? ? Hgot]; [by apply Asked|eapply Answered; eauto using answer_grows|].
  eapply Got; eauto. destruct Hgot; eauto using answer_grows.
Qed.

(** Only these parts of a worker matter. *)
Lemma worker_ok_ext dbs w w' :
  databases_ w' = databases_ w -> blocked_ w' = blocked_ w -> asks w' = asks w -> acks w' = acks w ->
  pending_var_ops_ w' = pending_var_ops_ w -> worker_ok dbs w -> worker_ok dbs w'.
Proof.
  intros Hd Hb Has Hak Hp [Hc Hw]. split; [unfold coherent; by rewrite Hd|].
  rewrite Hb. destruct (blocked_ w) as [c|]; [|by rewrite Has, Hak].
  destruct Hw as [Hpl Hs]. split; [done|].
  destruct Hs; [apply Asked|eapply Answered|eapply Got]; unfold unanswered in *; rewrite ?Has, ?Hak, ?Hp; eauto.
Qed.

(** A broadcast is no answer. *)
Lemma worker_ok_broadcast dbs w n r :
  worker_ok dbs w -> worker_ok dbs (w <| from_master_ ::= (fun q => q ++ [VarBroadcastMessage n r]) |>).
Proof. apply worker_ok_ext; try done. unfold acks. cbn. by rewrite omap_app, app_nil_r. Qed.

(** Nor is an assignment. *)
Lemma worker_ok_assign dbs w vs :
  worker_ok dbs w -> worker_ok dbs (w <| from_master_ ::= (fun q => q ++ [TaskAssign vs]) |>).
Proof. apply worker_ok_ext; try done. unfold acks. cbn. by rewrite omap_app, app_nil_r. Qed.

(** ** The worker's side *)

Lemma asks_send m w : asks w = [] -> asks (send_master m w) = [m].
Proof.
  unfold asks, send_master. intros [Ht Hp]%app_eq_nil. destruct (registered_ w); cbn; by rewrite Ht, Hp.
Qed.

Lemma send_master_fields m w :
  databases_ (send_master m w) = databases_ w /\ pending_var_ops_ (send_master m w) = pending_var_ops_ w /\
  acks (send_master m w) = acks w /\ blocked_ (send_master m w) = blocked_ w.
Proof. unfold send_master, acks. by destruct (registered_ w). Qed.

(** Asking: the entry is new and the message is the only one. *)
Lemma worker_ok_ask dbs w c :
  call_plain c -> coherent dbs w -> asks w = [] -> acks w = [] ->
  worker_ok dbs (send_master (call_msg c) (w <| pending_var_ops_ ::= PendingRpcMap.emplace (call_name c) fresh_op |>)
                 <| blocked_ := Some c |>).
Proof.
  intros Hp Hc Has Hak. set (w1 := w <| pending_var_ops_ ::= _ |>).
  destruct (send_master_fields (call_msg c) w1) as (Hd & Hpo & Hk & _).
  split; [unfold coherent; cbn; rewrite Hd; exact Hc|]. cbn. split; [done|].
  apply Asked.
  - by apply asks_send.
  - unfold acks in *. cbn in *. by rewrite Hk.
  - unfold unanswered. cbn. rewrite Hpo. unfold w1. cbn. unfold PendingRpcMap.emplace. by rewrite lookup_insert_eq.
Qed.

Lemma set_var_ok dbs p n v tn w : no_colon n -> worker_ok dbs w -> worker_ok dbs (set_var p n v tn w).
Proof.
  intros Hn Hw. unfold set_var. destruct (databases_ w !! p) as [db|]; [|done].
  destruct Hw as [Hc Hw]. destruct (blocked_ w) as [c|] eqn:Eb; [by split; rewrite ?Eb|].
  destruct (is_frozen_ db); [split; [exact Hc|cbn; by rewrite Eb]|].
  destruct Hw as [Has Hak]. exact (worker_ok_ask dbs w (SetCall p n (mkVarEntry v tn)) Hn Hc Has Hak).
Qed.

Lemma get_var_ok dbs p n w : no_colon n -> worker_ok dbs w -> worker_ok dbs (get_var p n w).
Proof.
  intros Hn Hw. unfold get_var. destruct (databases_ w !! p) as [db|]; [|done].
  destruct Hw as [Hc Hw]. destruct (blocked_ w) as [c|] eqn:Eb; [by split; rewrite ?Eb|].
  destruct (var_store_ db !! n); [split; [exact Hc|cbn; by rewrite Eb]|].
  destruct Hw as [Has Hak]. exact (worker_ok_ask dbs w (GetCall p n) Hn Hc Has Hak).
Qed.

Lemma coherent_cache dbs w p n e :
  coherent dbs w -> held dbs p n e -> coherent dbs (cache p n e w).
Proof.
  intros Hc He p' db n' e' Hp Hn. unfold cache in Hp. cbn in Hp.
  apply lookup_alter_Some in Hp as [(<- & db0 & Hdb & ->)|[Hne Hdb]]; [|by eapply Hc].
  cbn in Hn. apply lookup_insert_Some in Hn as [[<- <-]|[_ Hn]]; [done|]. by eapply Hc.
Qed.

(** A call that returns leaves nothing under way. *)
Lemma worker_ok_done dbs w ops r :
  coherent dbs w -> asks w = [] -> acks w = [] ->
  worker_ok dbs (w <| pending_var_ops_ := ops |> <| blocked_ := None |> <| returned_ := r |>).
Proof. by split. Qed.

Lemma resume_ok dbs w : worker_ok dbs w -> worker_ok dbs (resume false w).
Proof.
  intros Hw. unfold resume. destruct (blocked_ w) as [c|] eqn:Eb; [|done].
  destruct (Hw) as [Hc Hs]. rewrite Eb in Hs. destruct Hs as [_ Hs].
  assert (exists p, pending_var_ops_ w !! call_name c = Some p /\
    (p = fresh_op \/ asks w = [] /\ acks w = [] /\ answer_ok dbs c (p_success_ p) (p_value_ p) (p_type_name_ p)))
    as (p & Ep & Hp) by (destruct Hs; naive_solver).
  unfold PendingRpcMap.wait_for. rewrite Ep.
  destruct (p_completed_ p) eqn:Ecp; [|done].
  destruct Hp as [->|(Has & Hak & Hok)]; [done|]. unfold answer_ok in Hok.
  destruct c as [q n e|q n].
  - destruct (p_success_ p); [|by apply worker_ok_done].
    apply (worker_ok_done dbs (cache q n e w)); [apply coherent_cache; auto|done..].
  - destruct (p_success_ p); [|by apply worker_ok_done]. destruct (p_value_ p) as [v|]; [|by apply worker_ok_done].
    apply (worker_ok_done dbs (cache q n (mkVarEntry (Some v) (p_type_name_ p)) w)); [apply coherent_cache; auto|done..].
Qed.

Lemma coherent_drop dbs w p n :
  coherent dbs w -> coherent dbs (w <| databases_ ::= alter (drop_local_var n) p |>).
Proof.
  intros Hc p' db n' e' Hp Hn. cbn in Hp.
  apply lookup_alter_Some in Hp as [(<- & db0 & Hdb & ->)|[Hne Hdb]]; [|by eapply Hc].
  cbn in Hn. apply lookup_delete_Some in Hn as [_ Hn]. by eapply Hc.
Qed.

Lemma broadcast_ok dbs w n : worker_ok dbs w -> worker_ok dbs (on_var_broadcast n w).
Proof.
  intros [Hc Hw]. unfold on_var_broadcast. destruct (split_full_name n) as [p sn]. case_decide; [done|].
  split; [by apply coherent_drop|]. cbn. destruct (blocked_ w) as [c|]; [|done].
  destruct Hw as [Hpl Hs]. split; [done|]. destruct Hs; [apply Asked|eapply Answered|eapply Got]; eauto.
Qed.

(** Delivery of the next message of the master. *)
Lemma deliver_ok dbs w m q :
  from_master_ w = m :: q -> worker_ok dbs w -> worker_ok dbs (on_worker_message m (w <| from_master_ := q |>)).
Proof.
  intros Hq Hw. destruct m as [a|n r|vs]; cbn [on_worker_message].
  - destruct Hw as [Hc Hw]. split; [exact Hc|]. cbn.
    assert (Hak : acks w = a :: omap is_ack q) by (unfold acks; by rewrite Hq).
    destruct (blocked_ w) as [c|]; [|rewrite Hak in Hw; naive_solver].
    destruct Hw as [Hpl Hs]. split; [done|]. destruct Hs as [|a' Has Hak' Hn Hok Hun|]; [congruence| |congruence].
    rewrite Hak in Hak'. injection Hak' as -> Hnil.
    eapply (Got _ _ _ (mkPendingVarOp true (ack_success_ a') _ (ack_type_name_ a') (ack_error_ a'))); [done|done|..].
    + unfold on_var_ack. cbn. unfold PendingRpcMap.complete. rewrite Hn, lookup_alter_eq, Hun. reflexivity.
    + right. cbn. intros Hs. specialize (Hok Hs). rewrite Hs. destruct c as [p n e|p n]; [done|].
      unfold ack_buffer in Hok. case_bool_decide; naive_solver.
  - apply broadcast_ok. revert Hw. apply worker_ok_ext; try done. unfold acks. by rewrite Hq.
  - revert Hw. apply worker_ok_ext; try done. unfold acks. by rewrite Hq.
Qed.

Lemma take_task_ok dbs w : worker_ok dbs w -> worker_ok dbs (take_task w).
Proof. unfold take_task. destruct (task_queue_ w); [done|]. destruct (blocked_ w) eqn:Eb; [done|]. by apply worker_ok_ext. Qed.

(** Injecting what the master holds. *)
Lemma inject_ok dbs w : carried_ok dbs w -> worker_ok dbs w -> worker_ok dbs (inject_task_vars w).
Proof.
  unfold carried_ok, carried, inject_task_vars. intros Hp Hw. destruct (blocked_ w) eqn:Eb; [done|].
  apply Forall_app in Hp as [_ [_ Hp]%Forall_app]. revert Hp. generalize (pending_task_vars_ w) as vs. intros vs.
  assert (Hb : blocked_ (w <| pending_task_vars_ := [] |>) = None) by exact Eb.
  assert (Hw1 : worker_ok dbs (w <| pending_task_vars_ := [] |>)) by (revert Hw; by apply worker_ok_ext).
  revert Hb Hw1. generalize (w <| pending_task_vars_ := [] |>). clear w Hw Eb.
  induction vs as [|[[full v] tn] vs IH]; intros w Hb Hw Hp; [done|]. apply Forall_cons in Hp as [Hv Hp]. cbn [foldl].
  unfold payload_ok in Hv. cbn [fst snd] in Hv. unfold inject_payload at 2. destruct (split_full_name full) as [p n].
  case_decide as Hz; [by apply IH|]. apply IH; [done| |done].
  destruct Hw as [Hc Hw]. split; [apply coherent_cache; [done|by apply Hv]|]. rewrite Hb in Hw. cbn. by rewrite Hb.
Qed.

Lemma register_ack_ok dbs w : worker_ok dbs w -> worker_ok dbs (on_register_ack w).
Proof. apply worker_ok_ext; try done. unfold asks, on_register_ack, replay_pending_master_sends. cbn. by rewrite app_nil_r. Qed.

Lemma connection_lost_ok dbs w : worker_ok dbs w -> worker_ok dbs (on_connection_lost w).
Proof.
  intros [Hc Hw]. split; [exact Hc|]. cbn. destruct (blocked_ w) as [c|].
  - destruct Hw as [Hpl Hs]. split; [done|].
    destruct Hs as [Has Hak Hun|a Has Hak Hn Hok Hun|p Has Hak Hp Hgot].
    + unfold asks in Has. destruct (to_master_ w) as [|m q] eqn:Et; cbn in Has.
      * by apply Asked.
      * apply (Got _ _ _ fresh_op); try done; [|by left]. unfold asks. cbn. injection Has as _ [_ Hnil]%app_eq_nil. done.
    + apply app_eq_nil in Has as [_ Hps]. by apply (Got _ _ _ fresh_op); [..|left].
    + apply app_eq_nil in Has as [_ Hps]. by apply (Got _ _ _ p).
  - destruct Hw as [[_ Hps]%app_eq_nil _]. done.
Qed.

(** ** The master's side *)

Lemma grows_refl dbs : grows dbs dbs.
Proof. by intros p n e. Qed.

(** What a database holds is never replaced by [master_set_var]. *)
Lemma grows_set dbs p db n e :
  dbs !! p = Some db -> grows dbs (<[p := (master_set_var n e db).2]> dbs).
Proof.
  intros Hp q m x (db' & e' & Hq & He & Hbe). destruct (decide (q = p)) as [->|Hne].
  - rewrite Hp in Hq. injection Hq as <-. eexists _, e'. rewrite lookup_insert_eq. split; [done|].
    split; [|done]. unfold master_set_var. destruct (is_frozen_ db); [done|].
    case_decide as Hn; [done|]. cbn. rewrite lookup_insert_ne; [done|]. intros ->. apply Hn. eauto.
  - exists db', e'. by rewrite lookup_insert_ne.
Qed.

Lemma grows_freeze dbs q : grows dbs (alter (fun db => db <| is_frozen_ := true |>) q dbs).
Proof.
  intros p n e (db & e' & Hp & He & Hrest). destruct (decide (p = q)) as [->|Hne].
  - exists (db <| is_frozen_ := true |>), e'. by rewrite lookup_alter_eq, Hp.
  - exists db, e'. by rewrite lookup_alter_ne.
Qed.

(** An answer that reaches the asker. *)
Lemma worker_ok_answer dbs w c a :
  blocked_ w = Some c -> worker_ok dbs w -> asks w = [] -> acks w = [] -> unanswered (call_name c) w ->
  ack_var_name_ a = call_name c -> answer_ok dbs c (ack_success_ a) (ack_buffer a) (ack_type_name_ a) ->
  worker_ok dbs (w <| from_master_ ::= (fun q => q ++ [VarAck a]) |>).
Proof.
  intros Hb [Hc Hw] Has Hak Hun Hn Hok. split; [exact Hc|]. cbn. rewrite Hb in *. split; [by destruct Hw|].
  apply (Answered _ _ _ a); try done. unfold acks in *. cbn. by rewrite omap_app, Hak.
Qed.

Definition all_ok (s : System) : Prop := map_Forall (fun _ w => worker_ok (db_instances_ s) w) (workers_ s).

(** A worker whose question is with the master. *)
Definition awaits (c : VarCall) (w : WorkerAgent) : Prop :=
  blocked_ w = Some c /\ asks w = [] /\ acks w = [] /\ unanswered (call_name c) w.

Lemma all_ok_update s id f :
  (forall w, workers_ s !! id = Some w -> worker_ok (db_instances_ s) w -> worker_ok (db_instances_ s) (f w)) ->
  all_ok s -> all_ok (update_worker id f s).
Proof.
  intros Hf Hs i w Hi. cbn in Hi. apply lookup_alter_Some in Hi as [(<- & w0 & H0 & ->)|[_ H0]]; [|by eapply Hs].
  apply Hf; [done|]. by eapply Hs.
Qed.

Lemma all_ok_grows dbs s : grows (db_instances_ s) dbs -> all_ok s -> all_ok (mkSystem dbs (workers_ s)).
Proof. intros Hg Hs i w Hi. eapply worker_ok_grows; [done|]. by eapply Hs. Qed.

Lemma all_ok_broadcast s n r : all_ok s -> all_ok (broadcast_var n r s).
Proof.
  intros Hs i w Hi. unfold broadcast_var in Hi. cbn [workers_] in Hi. apply lookup_fmap_Some in Hi as (w0 & <- & H0).
  destruct (registered_ w0); [apply worker_ok_broadcast|]; by eapply Hs.
Qed.

Lemma awaits_broadcast s n r c id w :
  workers_ s !! id = Some w -> awaits c w -> exists w', workers_ (broadcast_var n r s) !! id = Some w' /\ awaits c w'.
Proof.
  intros Hw Ha. unfold broadcast_var. cbn [workers_]. rewrite lookup_fmap, Hw. eexists. split; [reflexivity|].
  destruct (registered_ w); [|done]. destruct Ha as (Hb & Has & Hak & Hun). repeat split; try done.
  unfold acks. cbn. by rewrite omap_app, app_nil_r.
Qed.

Lemma all_ok_answer s id w c a :
  workers_ s !! id = Some w -> awaits c w -> all_ok s -> ack_var_name_ a = call_name c ->
  answer_ok (db_instances_ s) c (ack_success_ a) (ack_buffer a) (ack_type_name_ a) ->
  all_ok (send_worker id (VarAck a) s).
Proof.
  intros Hw (Hb & Has & Hak & Hun) Hs Hn Hok. apply all_ok_update; [|done].
  intros w' Hw' Hwk. rewrite Hw in Hw'. injection Hw' as <-. by eapply worker_ok_answer.
Qed.

Lemma find_db_full p n s : no_colon n ->
  find_db (full_name p n) s = if decide (p = "") then None else (fun db => (p, db, n)) <$> db_instances_ s !! p.
Proof. intros Hn. unfold find_db. by rewrite split_full_name_full. Qed.

(** An accepted variable is held from then on. *)
Lemma held_set dbs p db n e :
  (master_set_var n e db).1 = true -> held (<[p := (master_set_var n e db).2]> dbs) p n e.
Proof.
  unfold master_set_var. destruct (is_frozen_ db); [done|]. case_decide; [done|]. intros _.
  eexists _, e. rewrite lookup_insert_eq. split; [done|]. cbn. by rewrite lookup_insert_eq.
Qed.

Lemma on_var_set_ok s id w p n e :
  no_colon n -> workers_ s !! id = Some w -> awaits (SetCall p n e) w -> all_ok s ->
  all_ok (on_var_set id (full_name p n) (var_bytes e) (type_name_ e) s).
Proof.
  intros Hn Hw Ha Hs. unfold on_var_set. rewrite find_db_full by done.
  assert (Hnone : forall err, all_ok (send_worker id (VarAck (mkVarAckMessage (full_name p n) false err [] "")) s))
    by (intros err; by apply (all_ok_answer _ _ w (SetCall p n e))).
  case_decide; [apply Hnone|]. destruct (db_instances_ s !! p) as [db|] eqn:Ep; [|apply Hnone]. cbn [fmap option_fmap option_map].
  pose proof (grows_set _ _ _ n (mkVarEntry (Some (var_bytes e)) (type_name_ e)) Ep) as Hg.
  pose proof (held_set (db_instances_ s) p db n (mkVarEntry (Some (var_bytes e)) (type_name_ e))) as Hh.
  destruct (master_set_var n _ db) as [ok db'] eqn:Eset. cbn in Hg, Hh.
  pose proof (all_ok_grows _ _ Hg Hs) as Hs'. destruct ok.
  - by apply (all_ok_answer _ _ w (SetCall p n e)).
  - destruct (is_frozen_ db'); [by apply (all_ok_answer _ _ w (SetCall p n e))|].
    destruct (awaits_broadcast (put_db p db' s) (full_name p n) true _ id w Hw Ha) as (w' & Hw' & Ha').
    apply (all_ok_answer _ _ w' (SetCall p n e)); try done. by apply all_ok_broadcast.
Qed.

Lemma on_var_get_ok s id w p n :
  no_colon n -> workers_ s !! id = Some w -> awaits (GetCall p n) w -> all_ok s ->
  all_ok (on_var_get id (full_name p n) s).
Proof.
  intros Hn Hw Ha Hs. unfold on_var_get. rewrite find_db_full by done.
  case_decide; [by apply (all_ok_answer _ _ w (GetCall p n))|].
  destruct (db_instances_ s !! p) as [db|] eqn:Ep; [|by apply (all_ok_answer _ _ w (GetCall p n))].
  cbn [fmap option_fmap option_map]. unfold master_get_var.
  destruct (var_store_ db !! n) as [[v tn]|] eqn:En; [|by apply (all_ok_answer _ _ w (GetCall p n))].
  apply (all_ok_answer _ _ w (GetCall p n)); try done; [by destruct v|].
  destruct v as [v|]; intros _ b; [|done]. unfold ack_buffer. cbn. case_bool_decide; [done|]. intros [= <-].
  by exists db, (mkVarEntry (Some v) tn).
Qed.

Lemma at_master_ok s id w m q :
  workers_ s !! id = Some w -> to_master_ w = m :: q -> all_ok s ->
  all_ok (on_master_message id m (update_worker id (fun x => x <| to_master_ := q |>) s)).
Proof.
  intros Hw Hq Hs. pose proof (Hs _ _ Hw) as [Hc Hwk].
  destruct (blocked_ w) as [c|] eqn:Eb; [|unfold asks in Hwk; rewrite Hq in Hwk; naive_solver].
  destruct Hwk as [Hpl Hst]. destruct Hst as [Has Hak Hun|a Has|p Has]; unfold asks in Has; rewrite Hq in Has; [|done..].
  injection Has as -> [-> Hps]%app_eq_nil.
  set (s1 := update_worker id _ s).
  assert (Hw1 : workers_ s1 !! id = Some (w <| to_master_ := [] |>)) by (cbn; by rewrite lookup_alter_eq, Hw).
  assert (Ha : awaits c (w <| to_master_ := [] |>)) by (repeat split; done).
  assert (Hs1 : all_ok s1).
  { apply all_ok_update; [|done]. intros w' Hw' _. rewrite Hw in Hw'. injection Hw' as <-.
    split; [exact Hc|]. cbn. rewrite Eb. split; [done|]. by apply (Got _ _ _ fresh_op); [..|left]. }
  destruct c as [p n e|p n]; cbn [call_msg on_master_message].
  - by eapply on_var_set_ok.
  - by eapply on_var_get_ok.
Qed.

(** ** The variables on their way *)

Definition all_carried (s : System) : Prop := map_Forall (fun _ w => carried_ok (db_instances_ s) w) (workers_ s).

Lemma payload_grows dbs dbs' vp : grows dbs dbs' -> payload_ok dbs vp -> payload_ok dbs' vp.
Proof. unfold payload_ok. intros Hg Hv p n Hs Hp. by apply Hg, Hv. Qed.

Lemma all_carried_grows dbs s : grows (db_instances_ s) dbs -> all_carried s -> all_carried (mkSystem dbs (workers_ s)).
Proof.
  intros Hg Hs i w Hi. eapply Forall_impl; [by eapply Hs|]. intros vp. by apply payload_grows.
Qed.

(** Only what a worker carries matters, and it may carry less. *)
Lemma all_carried_update s id f :
  (forall w, workers_ s !! id = Some w -> forall vp, vp ∈ carried (f w) -> vp ∈ carried w) ->
  all_carried s -> all_carried (update_worker id f s).
Proof.
  intros Hf Hs i w Hi. cbn in Hi. apply lookup_alter_Some in Hi as [(<- & w0 & H0 & ->)|[_ H0]]; [|by eapply Hs].
  apply Forall_forall. intros vp Hvp. pose proof (Hs _ _ H0) as Hw. unfold carried_ok in Hw. rewrite Forall_forall in Hw.
  apply Hw. by eapply Hf.
Qed.

Lemma all_carried_send s id m :
  is_assign m = None -> all_carried s -> all_carried (send_worker id m s).
Proof.
  intros Hm. apply all_carried_update. intros w _ vp. unfold carried. cbn. rewrite omap_app. cbn. rewrite Hm.
  by rewrite app_nil_r.
Qed.

Lemma all_carried_broadcast s n r : all_carried s -> all_carried (broadcast_var n r s).
Proof.
  intros Hs i w Hi. unfold broadcast_var in Hi. cbn [workers_] in Hi. apply lookup_fmap_Some in Hi as (w0 & <- & H0).
  pose proof (Hs _ _ H0) as Hw. destruct (registered_ w0); [|done].
  unfold carried_ok, carried in *. cbn. rewrite omap_app. cbn. by rewrite app_nil_r.
Qed.

Lemma inject_carried vs w : carried (foldl inject_payload w vs) = carried w.
Proof.
  revert w. induction vs as [|[[full v] tn] vs IH]; intros w; [done|]. cbn [foldl]. rewrite IH. unfold inject_payload.
  destruct (split_full_name full) as [p n]. by case_decide.
Qed.

Lemma resume_carried b w : carried (resume b w) = carried w.
Proof.
  unfold resume. destruct (blocked_ w) as [c|]; [|done]. destruct (PendingRpcMap.wait_for _ _ _ _ _) as [[[p|]|] ops]; [|done|done].
  destruct c; [by destruct (p_success_ p)|]. destruct (p_success_ p); [|done]. by destruct (p_value_ p).
Qed.

(** What the master sends along is held. *)
Lemma task_payloads_ok vars s : Forall (payload_ok (db_instances_ s)) (task_payloads vars s).
Proof.
  apply Forall_forall. intros vp Hvp. unfold task_payloads in Hvp. apply list_elem_of_omap in Hvp as (full & _ & Hf).
  destruct (find_db full s) as [[[p db] n]|] eqn:Ef; [|done]. unfold master_get_var in Hf.
  destruct (var_store_ db !! n) as [[[v|] tn]|] eqn:En; [|done|done]. injection Hf as <-.
  unfold find_db in Ef. intros p' n' Hs Hp'. cbn [fst snd] in *. rewrite Hs in Ef. rewrite decide_False in Ef by done.
  destruct (db_instances_ s !! p') as [db'|] eqn:Ep; [|done]. cbn in Ef. injection Ef as -> -> ->.
  by exists db, (mkVarEntry (Some v) tn).
Qed.

Lemma assign_carried id vars s : all_carried s -> all_carried (assign_task id vars s).
Proof.
  intros Hs i w Hi. cbn in Hi. apply lookup_alter_Some in Hi as [(<- & w0 & H0 & ->)|[_ H0]]; [|by eapply Hs].
  pose proof (Hs _ _ H0) as Hw. unfold carried_ok, carried in *. cbn. rewrite omap_app. cbn. rewrite concat_app. cbn.
  rewrite app_nil_r. rewrite !Forall_app in *. destruct Hw as (? & ? & ?). split_and!; [done|apply task_payloads_ok|done|done].
Qed.

Lemma at_worker_carried s id w m q :
  workers_ s !! id = Some w -> from_master_ w = m :: q -> all_carried s ->
  all_carried (update_worker id (fun x => on_worker_message m (x <| from_master_ := q |>)) s).
Proof.
  intros Hw Hq. apply all_carried_update. intros w' Hw' vp. rewrite Hw in Hw'. injection Hw' as <-.
  unfold carried. rewrite Hq. destruct m as [a|n r|vs]; cbn.
  - done.
  - unfold on_var_broadcast. destruct (split_full_name n). by case_decide.
  - rewrite concat_app. cbn. rewrite app_nil_r, !elem_of_app. tauto.
Qed.

Lemma at_master_carried s id m :
  (forall n, m <> VarRemoveMessage n) -> all_carried s -> all_carried (on_master_message id m s).
Proof.
  intros Hm Hs. destruct m as [n v tn|n|n]; cbn [on_master_message].
  - unfold on_var_set. destruct (find_db n s) as [[[p db] sn]|] eqn:Ef; [|by apply all_carried_send].
    assert (Hg : all_carried (put_db p (master_set_var sn (mkVarEntry (Some v) tn) db).2 s)).
    { apply all_carried_grows; [|done]. apply grows_set. unfold find_db in Ef. destruct (split_full_name n) as [p' n'].
      case_decide; [done|]. destruct (db_instances_ s !! p') eqn:Ep; [|done]. by injection Ef as <- -> _. }
    destruct (master_set_var sn _ db) as [ok db']. cbn in Hg. destruct ok; [by apply all_carried_send|].
    destruct (is_frozen_ db'); [by apply all_carried_send|]. by apply all_carried_send, all_carried_broadcast.
  - unfold on_var_get. destruct (find_db n s) as [[[p db] sn]|]; by apply all_carried_send.
  - by destruct (Hm n).
Qed.

(** The message a worker has on its connection is that of its call. *)
Lemma asked_message dbs w m q : worker_ok dbs w -> to_master_ w = m :: q -> forall n, m <> VarRemoveMessage n.
Proof.
  intros [_ Hw] Hq n ->. destruct (blocked_ w) as [c|]; [|destruct Hw as [Hw _]; unfold asks in Hw; by rewrite Hq in Hw].
  destruct Hw as [_ [Has|a Has|p Has]]; unfold asks in Has; rewrite Hq in Has; [|done..]. by destruct c.
Qed.

Lemma act_carried a s : quiet a -> all_ok s -> all_carried s -> all_carried (act a s).
Proof.
  intros Hq Hok Hs. destruct a; cbn [act quiet] in *; try done.
  - apply all_carried_update; [|done]. intros x _ vp. unfold set_var. destruct (databases_ x !! _) as [db|]; [|done].
    destruct (blocked_ x); [done|]. destruct (is_frozen_ db); [done|]. unfold set_var_sync, send_master.
    by destruct (registered_ _).
  - apply all_carried_update; [|done]. intros x _ vp. unfold get_var. destruct (databases_ x !! _) as [db|]; [|done].
    destruct (blocked_ x); [done|]. destruct (var_store_ db !! name); [done|]. unfold get_var_sync, send_master.
    by destruct (registered_ _).
  - apply all_carried_update; [|done]. intros x _ vp. by rewrite resume_carried.
  - destruct (workers_ s !! w) as [x|] eqn:Ew; [|done]. cbn. destruct (to_master_ x) as [|m q] eqn:Et; [done|].
    apply at_master_carried; [eapply asked_message; [by eapply Hok|done]|]. by apply all_carried_update.
  - destruct (workers_ s !! w) as [x|] eqn:Ew; [|done]. cbn. destruct (from_master_ x) as [|m q] eqn:Et; [done|].
    by eapply at_worker_carried.
  - by apply all_carried_update.
  - apply all_carried_update; [|done]. intros x _ vp. unfold carried. cbn. rewrite !elem_of_app. tauto.
  - unfold set_var_func. rewrite find_db_full by done. case_decide; [done|].
    destruct (db_instances_ s !! db_path) as [db|] eqn:Ep; [|done]. cbn. apply all_carried_grows; [|done]. by apply grows_set.
  - apply all_carried_grows; [apply grows_freeze|done].
  - by apply assign_carried.
  - apply all_carried_update; [|done]. intros x _ vp. unfold take_task. destruct (task_queue_ x) as [|vs q] eqn:Eq; [done|].
    destruct (blocked_ x); [done|]. unfold carried. cbn. rewrite Eq. cbn. rewrite !elem_of_app. destruct vs; tauto.
  - apply all_carried_update; [|done]. intros x _ vp. unfold inject_task_vars. destruct (blocked_ x); [done|].
    rewrite inject_carried. unfold carried. cbn. rewrite !elem_of_app, elem_of_nil. tauto.
Qed.

Lemma act_ok a s : quiet a -> all_carried s -> all_ok s -> all_ok (act a s).
Proof.
  intros Hq Hca Hs. destruct a; cbn [act quiet] in *; try done.
  - apply all_ok_update; [|done]. intros ? _. by apply set_var_ok.
  - apply all_ok_update; [|done]. intros ? _. by apply get_var_ok.
  - apply all_ok_update; [|done]. intros ? _. by apply resume_ok.
  - destruct (workers_ s !! w) as [x|] eqn:Ew; [|done]. cbn. destruct (to_master_ x) as [|m q] eqn:Et; [done|].
    by eapply at_master_ok.
  - destruct (workers_ s !! w) as [x|] eqn:Ew; [|done]. cbn. destruct (from_master_ x) as [|m q] eqn:Et; [done|].
    apply all_ok_update; [|done]. intros x' Hx'. rewrite Ew in Hx'. injection Hx' as <-. by apply deliver_ok.
  - apply all_ok_update; [|done]. intros ? _. by apply register_ack_ok.
  - apply all_ok_update; [|done]. intros ? _. by apply connection_lost_ok.
  - unfold set_var_func. rewrite find_db_full by done. case_decide; [done|].
    destruct (db_instances_ s !! db_path) as [db|] eqn:Ep; [|done]. cbn. apply all_ok_grows; [|done]. by apply grows_set.
  - apply all_ok_grows; [apply grows_freeze|done].
  - apply all_ok_update; [|done]. intros ? _. by apply worker_ok_assign.
  - apply all_ok_update; [|done]. intros ? _. by apply take_task_ok.
  - apply all_ok_update; [|done]. intros x Hx. apply inject_ok. by eapply Hca.
Qed.

Lemma run_ok l s : Forall quiet l -> all_carried s -> all_ok s -> all_ok (run l s).
Proof.
  unfold run. intros Hl. revert s. induction Hl as [|a l Ha Hl IH]; intros s Hc Hs; [done|].
  apply IH; [by apply act_carried|by apply act_ok].
Qed.

(** A worker as it starts: nothing cached, nothing under way. *)
Definition idle (w : WorkerAgent) : Prop :=
  map_Forall (fun _ db => var_store_ db = ∅) (databases_ w) /\ blocked_ w = None /\ asks w = [] /\ acks w = [] /\
  carried w = [].

(** C12: However calls, deliveries, connection losses, the master's own calls and the
    assignments of tasks with the variables they carry interleave, in a run without removals and timeouts every variable a worker
    has cached is the master's, value and type. *)
Theorem caches_coherent s l id w p db n e :
  map_Forall (fun _ w => idle w) (workers_ s) -> Forall quiet l ->
  workers_ (run l s) !! id = Some w -> databases_ w !! p = Some db -> var_store_ db !! n = Some e ->
  held (db_instances_ (run l s)) p n e.
Proof.
  intros Hs Hl Hw Hp Hn. assert (H0 : all_ok s).
  { intros i x Hx. destruct (Hs i x Hx) as (Hv & Hb & Has & Hak & _). split; [|by rewrite Hb].
    intros q d m y Hq Hm. by rewrite (Hv q d Hq), lookup_empty in Hm. }
  assert (H1 : all_carried s).
  { intros i x Hx. destruct (Hs i x Hx) as (_ & _ & _ & _ & Hca). unfold carried_ok. by rewrite Hca. }
  destruct (run_ok l s Hl H1 H0 id w Hw) as [Hc _]. by eapply Hc.
Qed.

Definition new_worker (dbs : gmap string Database) : WorkerAgent := mkWorkerAgent dbs ∅ true [] None None [] [] [] [].
Definition sample_system : System :=
  let dbs := {[ "/p" := mkDatabase "/p" false "" ∅ ]} in mkSystem dbs {[ 0%nat := new_worker dbs; 1%nat := new_worker dbs ]}.

Definition sample_run (v : bytes) : list action :=
  [CallSet 0 "/p" "x" (Some v) "t"; AtMaster 0; AtWorker 0; Resume 0; CallGet 1 "/p" "x"; AtMaster 1; AtWorker 1; Resume 1].

Lemma caches_coherent_witness :
  held (db_instances_ (run (sample_run [Byte.x07]) sample_system)) "/p" "x" (mkVarEntry (Some [Byte.x07]) "t").
Proof.
  refine (caches_coherent sample_system (sample_run [Byte.x07]) 1 _ "/p" _ "x" _ _ _ eq_refl eq_refl _).
  - intros i w Hw. unfold sample_system in Hw. cbn [workers_] in Hw. apply lookup_insert_Some in Hw as [[_ <-]|[_ [_ <-]%lookup_singleton_Some]];
      (split; [apply map_Forall_singleton; reflexivity|repeat split]).
  - repeat constructor.
  - vm_compute. reflexivity.
Defined.

(** ** What removals and timeouts do *)

(** What a worker has cached, and what the master holds. *)
Definition cached (id : nat) (p n : string) (s : System) : option VarEntry :=
  w ← workers_ s !! id; db ← databases_ w !! p; var_store_ db !! n.
Definition stored (p n : string) (s : System) : option VarEntry := db ← db_instances_ s !! p; var_store_ db !! n.

(** A call that timed out leaves its answer on the way; answers are matched by
    name alone, so it completes the next call on the same variable.  The second
    [set_var] returns true and caches its value although the master keeps the
    first. *)
Theorem late_ack_misleads v1 v2 :
  let s := run [CallSet 0 "/p" "x" (Some v1) "t"; AtMaster 0; Deadline 0;
                CallSet 0 "/p" "x" (Some v2) "t"; AtWorker 0; Resume 0] sample_system in
  (w ← workers_ s !! 0%nat; returned_ w) = Some (true, None) /\
  cached 0 "/p" "x" s = Some (mkVarEntry (Some v2) "t") /\ stored "/p" "x" s = Some (mkVarEntry (Some v1) "t").
Proof. vm_compute. auto. Qed.

(** A removal that overtakes a reader between its answer and its caching leaves
    the removed value cached for good, with nothing left to be delivered. *)
Theorem removal_overtaken v :
  v <> [] ->
  let s := run [MasterSet "/p" "x" (Some v) "t"; CallGet 1 "/p" "x"; AtMaster 1; MasterRemove "/p" "x";
                AtWorker 1; AtWorker 1; Resume 1] sample_system in
  cached 1 "/p" "x" s = Some (mkVarEntry (Some v) "t") /\ stored "/p" "x" s = None /\
  (w ← workers_ s !! 1%nat; Some (from_master_ w)) = Some [].
Proof. destruct v; [done|]. intros _. vm_compute. auto. Qed.

Lemma removal_overtaken_witness :
  cached 1 "/p" "x" (run [MasterSet "/p" "x" (Some [Byte.x01]) "t"; CallGet 1 "/p" "x"; AtMaster 1; MasterRemove "/p" "x";
    AtWorker 1; AtWorker 1; Resume 1] sample_system) = Some (mkVarEntry (Some [Byte.x01]) "t").
Proof. refine (proj1 (removal_overtaken [Byte.x01] _)). discriminate. Defined.

(** Removing the empty name clears the master's variables; the broadcast makes
    the workers drop only a variable of the empty name, so every other one stays
    in their caches. *)
Theorem clearing_keeps_caches v :
  let s := run (sample_run v ++ [CallRemove 0 "/p" ""; AtMaster 0; AtWorker 0; AtWorker 1]) sample_system in
  cached 0 "/p" "x" s = Some (mkVarEntry (Some v) "t") /\ stored "/p" "x" s = None.
Proof. destruct v; vm_compute; auto. Qed.

(** Freezing stops setting but not removing. *)
Theorem frozen_variable_removed v :
  let s := run (sample_run v ++ [MasterFreeze "/p"]) sample_system in
  stored "/p" "x" s = Some (mkVarEntry (Some v) "t") /\
  stored "/p" "y" (run [CallSet 0 "/p" "y" (Some v) "t"; AtMaster 0] s) = None /\
  stored "/p" "x" (run [CallRemove 0 "/p" "x"; AtMaster 0] s) = None.
Proof. destruct v; vm_compute; auto. Qed.
