(* ===== verification/MasterState.v ===== *)
(** The state of the master (src/agent/cpp/master_agent.h) and the parts of
    master_agent.cpp that the handlers share: frozen databases, the provenance of
    written objects, records of failed tasks, and messages to the workers.

    The master composes the dependency graph, the task registry, the worker
    registry, the scheduler and the data service; each is the state of its own
    file.  Files of failed tasks are lists of records (their encoding is the
    serialization library's); messages are kept in the order they are sent.
    Metrics, logs and user messages have no state here. *)

From stdpp Require Import base gmap strings list option sets fin_maps.
From Stdlib Require Import ZArith QArith Lia.
From S2P Require Import Prelude Bytes ObjectNames DependencyGraph WorkerManager TaskManager TaskScheduler LocalIndex ObjectCache DataIndex Vars.

Open Scope Z_scope.

(** ** Messages *)

Record DataLocation := mkDataLocation {
  loc_object_name_ : string; loc_worker_id_ : N; loc_host_ : string; loc_port_ : Z; loc_storage_only_ : bool }.

Record VarPayload := mkVarPayload { vp_var_name_ : string; vp_value_ : bytes; vp_type_name_ : string }.

Record TaskAssignMessage := mkTaskAssignMessage {
  ta_task_id_ : N; ta_task_name_ : string; ta_task_module_ : string; ta_args_ : list string;
  ta_write_context_hash_ : string; ta_dependency_locations_ : list DataLocation; ta_var_payloads_ : list VarPayload }.

Record WriteRegisterMessage := mkWriteRegisterMessage {
  wr_worker_id_ : N; wr_object_name_ : string; wr_db_path_ : string; wr_write_context_hash_ : string;
  wr_writer_id_ : string; wr_size_bytes_ : Z; wr_preliminary_ : bool }.

Record WriteRegisterAckMessage := mkWriteRegisterAckMessage {
  wa_object_name_ : string; wa_db_path_ : string; wa_success_ : bool; wa_error_message_ : string;
  wa_error_type_ : TaskErrorType }.

Record WrittenObject := mkWrittenObject { wo_object_name_ : string; wo_size_bytes_ : Z; wo_writer_id_ : string }.

Record TaskCompleteMessage := mkTaskCompleteMessage {
  tc_task_id_ : N; tc_worker_id_ : N; tc_written_objects_ : list WrittenObject; tc_is_internal_ : bool }.

Record TaskFailedMessage := mkTaskFailedMessage {
  tf_task_id_ : N; tf_worker_id_ : N; tf_error_message_ : string; tf_dirty_objects_ : list string }.

Record RegisterMessage := mkRegisterMessage {
  reg_worker_id_ : N; reg_attributes_ : list string; reg_hostname_ : string; reg_ip_address_ : string;
  reg_role_ : WorkerRole; reg_data_server_host_ : string; reg_data_server_port_ : Z }.

(** What the master sends. *)
Inductive MasterMessage :=
  | TaskAssign (m : TaskAssignMessage)
  | WriteRegisterAck (m : WriteRegisterAckMessage)
  | DatabaseFreezeNotification (db_path : string)
  | DatabaseFreezeAck (db_path : string) (success : bool) (error_type : TaskErrorType)
  | ObjectRemoved (db_path object_name : string)
  | RemoveCommand (db_path object_name : string)
  | RemoveAck (db_path object_name : string) (not_found : bool)
  | IdxLoadCommand (db_path : string) (writer_ids : list string)
  | RegisterAck (worker_id : N) (duplicate : bool)
  | WorkerProbe (worker_id : N)
  | HeartbeatAck (worker_id : N)
  | MergeCleanup (db_path target_db_path data_path : string) (exempt_worker_ids : list N).

(** ** State *)

Record CachedLocation := mkCachedLocation { cl_worker_id : N; cl_host : string; cl_port : Z }.

Record DbFailureSignal := mkDbFailureSignal { sig_task_id_ : N; sig_error_ : string; sig_kind_ : string }.

Record FailedTaskRecord := mkFailedTaskRecord {
  rec_task_id_ : N; rec_submission_ : TaskSubmissionSpec; rec_error_message_ : string }.

(** A load of index files under way: [-1] marks a failure. *)
Record PendingIdxLoad := mkPendingIdxLoad { remaining_ : Z; pending_workers_ : gset N }.

(** The configuration values the handlers read. *)
Record Config := mkConfig {
  locality_scheduling_enabled : bool;
  fail_unscheduleable_tasks : bool;
  dependency_update_mode : Z;
  worker_reconnect_timeout : Z;
  storage_takeover_enabled : bool;
  storage_takeover_max_writers : Z;
  storage_takeover_fail_timeout : Z;
  log_dir : string;
  host_name : string;
  host_ : string;
  master_port_ : Z
}.

(** Readings of the clocks and of the network monitor during one handler. *)
Record Env := mkEnv {
  clk_ : clock;
  nows_ : nat -> Z;
  create_ms_ : Z;
  assign_ms_ : N -> Z;
  finish_ms_ : N -> Z;
  now_s_ : Z;
  probe_ : bool;
  score_ : string -> Q
}.

Record MasterAgent := mkMasterAgent {
  graph_ : DependencyGraph;
  metadata_ : TaskManager;
  worker_manager_ : workers;
  ds_ : DataService;
  db_instances_ : gmap string Database;
  frozen_markers_ : gset string;
  vars_files_ : gmap string bytes;
  frozen_dbs_ : gset string;
  pending_frozen_dbs_ : gmap string N;
  write_provenance_ : gmap string (gmap string string);
  db_failure_signals_ : gmap string DbFailureSignal;
  task_dependency_locations_ : gmap N (gmap string CachedLocation);
  worker_to_conn_ : gmap N N;
  conn_to_worker_ : gmap N N;
  grace_deadlines_ : gmap N Z;
  shutdown_pending_workers_ : gset N;
  exit_confirmed_workers_ : gset N;
  draining_ : bool;
  running_ : bool;
  failed_tasks_files_ : gmap string (list FailedTaskRecord);
  recorded_workers_ : gset (string * string * string);
  pending_worker_infos_ : gmap string (list (N * string * string * string));
  db_uid_index_ : gmap string string;
  pending_idx_loads_ : gmap string PendingIdxLoad;
  takeover_load_ : gmap N Z;
  takeover_pending_ : gmap N Z;
  deferred_registers_ : gmap N (N * RegisterMessage * Z);
  dup_confirmed_alive_ : gmap N Z;
  sent_ : list (N * MasterMessage)
}.

#[export] Instance set_graph_MasterAgent : Setter graph_ :=
  fun h x => mkMasterAgent (h (graph_ x)) (metadata_ x) (worker_manager_ x) (ds_ x) (db_instances_ x) (frozen_markers_ x) (vars_files_ x) (frozen_dbs_ x) (pending_frozen_dbs_ x) (write_provenance_ x) (db_failure_signals_ x) (task_dependency_locations_ x) (worker_to_conn_ x) (conn_to_worker_ x) (grace_deadlines_ x) (shutdown_pending_workers_ x) (exit_confirmed_workers_ x) (draining_ x) (running_ x) (failed_tasks_files_ x) (recorded_workers_ x) (pending_worker_infos_ x) (db_uid_index_ x) (pending_idx_loads_ x) (takeover_load_ x) (takeover_pending_ x) (deferred_registers_ x) (dup_confirmed_alive_ x) (sent_ x).
Arguments set_graph_MasterAgent h x /.
#[export] Instance set_metadata_MasterAgent : Setter metadata_ :=
  fun h x => mkMasterAgent (graph_ x) (h (metadata_ x)) (worker_manager_ x) (ds_ x) (db_instances_ x) (frozen_markers_ x) (vars_files_ x) (frozen_dbs_ x) (pending_frozen_dbs_ x) (write_provenance_ x) (db_failure_signals_ x) (task_dependency_locations_ x) (worker_to_conn_ x) (conn_to_worker_ x) (grace_deadlines_ x) (shutdown_pending_workers_ x) (exit_confirmed_workers_ x) (draining_ x) (running_ x) (failed_tasks_files_ x) (recorded_workers_ x) (pending_worker_infos_ x) (db_uid_index_ x) (pending_idx_loads_ x) (takeover_load_ x) (takeover_pending_ x) (deferred_registers_ x) (dup_confirmed_alive_ x) (sent_ x).
Arguments set_metadata_MasterAgent h x /.
#[export] Instance set_worker_manager_MasterAgent : Setter worker_manager_ :=
  fun h x => mkMasterAgent (graph_ x) (metadata_ x) (h (worker_manager_ x)) (ds_ x) (db_instances_ x) (frozen_markers_ x) (vars_files_ x) (frozen_dbs_ x) (pending_frozen_dbs_ x) (write_provenance_ x) (db_failure_signals_ x) (task_dependency_locations_ x) (worker_to_conn_ x) (conn_to_worker_ x) (grace_deadlines_ x) (shutdown_pending_workers_ x) (exit_confirmed_workers_ x) (draining_ x) (running_ x) (failed_tasks_files_ x) (recorded_workers_ x) (pending_worker_infos_ x) (db_uid_index_ x) (pending_idx_loads_ x) (takeover_load_ x) (takeover_pending_ x) (deferred_registers_ x) (dup_confirmed_alive_ x) (sent_ x).
Arguments set_worker_manager_MasterAgent h x /.
#[export] Instance set_ds_MasterAgent : Setter ds_ :=
  fun h x => mkMasterAgent (graph_ x) (metadata_ x) (worker_manager_ x) (h (ds_ x)) (db_instances_ x) (frozen_markers_ x) (vars_files_ x) (frozen_dbs_ x) (pending_frozen_dbs_ x) (write_provenance_ x) (db_failure_signals_ x) (task_dependency_locations_ x) (worker_to_conn_ x) (conn_to_worker_ x) (grace_deadlines_ x) (shutdown_pending_workers_ x) (exit_confirmed_workers_ x) (draining_ x) (running_ x) (failed_tasks_files_ x) (recorded_workers_ x) (pending_worker_infos_ x) (db_uid_index_ x) (pending_idx_loads_ x) (takeover_load_ x) (takeover_pending_ x) (deferred_registers_ x) (dup_confirmed_alive_ x) (sent_ x).
Arguments set_ds_MasterAgent h x /.
#[export] Instance set_db_instances_MasterAgent : Setter db_instances_ :=
  fun h x => mkMasterAgent (graph_ x) (metadata_ x) (worker_manager_ x) (ds_ x) (h (db_instances_ x)) (frozen_markers_ x) (vars_files_ x) (frozen_dbs_ x) (pending_frozen_dbs_ x) (write_provenance_ x) (db_failure_signals_ x) (task_dependency_locations_ x) (worker_to_conn_ x) (conn_to_worker_ x) (grace_deadlines_ x) (shutdown_pending_workers_ x) (exit_confirmed_workers_ x) (draining_ x) (running_ x) (failed_tasks_files_ x) (recorded_workers_ x) (pending_worker_infos_ x) (db_uid_index_ x) (pending_idx_loads_ x) (takeover_load_ x) (takeover_pending_ x) (deferred_registers_ x) (dup_confirmed_alive_ x) (sent_ x).
Arguments set_db_instances_MasterAgent h x /.
#[export] Instance set_frozen_markers_MasterAgent : Setter frozen_markers_ :=
  fun h x => mkMasterAgent (graph_ x) (metadata_ x) (worker_manager_ x) (ds_ x) (db_instances_ x) (h (frozen_markers_ x)) (vars_files_ x) (frozen_dbs_ x) (pending_frozen_dbs_ x) (write_provenance_ x) (db_failure_signals_ x) (task_dependency_locations_ x) (worker_to_conn_ x) (conn_to_worker_ x) (grace_deadlines_ x) (shutdown_pending_workers_ x) (exit_confirmed_workers_ x) (draining_ x) (running_ x) (failed_tasks_files_ x) (recorded_workers_ x) (pending_worker_infos_ x) (db_uid_index_ x) (pending_idx_loads_ x) (takeover_load_ x) (takeover_pending_ x) (deferred_registers_ x) (dup_confirmed_alive_ x) (sent_ x).
Arguments set_frozen_markers_MasterAgent h x /.
#[export] Instance set_vars_files_MasterAgent : Setter vars_files_ :=
  fun h x => mkMasterAgent (graph_ x) (metadata_ x) (worker_manager_ x) (ds_ x) (db_instances_ x) (frozen_markers_ x) (h (vars_files_ x)) (frozen_dbs_ x) (pending_frozen_dbs_ x) (write_provenance_ x) (db_failure_signals_ x) (task_dependency_locations_ x) (worker_to_conn_ x) (conn_to_worker_ x) (grace_deadlines_ x) (shutdown_pending_workers_ x) (exit_confirmed_workers_ x) (draining_ x) (running_ x) (failed_tasks_files_ x) (recorded_workers_ x) (pending_worker_infos_ x) (db_uid_index_ x) (pending_idx_loads_ x) (takeover_load_ x) (takeover_pending_ x) (deferred_registers_ x) (dup_confirmed_alive_ x) (sent_ x).
Arguments set_vars_files_MasterAgent h x /.
#[export] Instance set_frozen_dbs_MasterAgent : Setter frozen_dbs_ :=
  fun h x => mkMasterAgent (graph_ x) (metadata_ x) (worker_manager_ x) (ds_ x) (db_instances_ x) (frozen_markers_ x) (vars_files_ x) (h (frozen_dbs_ x)) (pending_frozen_dbs_ x) (write_provenance_ x) (db_failure_signals_ x) (task_dependency_locations_ x) (worker_to_conn_ x) (conn_to_worker_ x) (grace_deadlines_ x) (shutdown_pending_workers_ x) (exit_confirmed_workers_ x) (draining_ x) (running_ x) (failed_tasks_files_ x) (recorded_workers_ x) (pending_worker_infos_ x) (db_uid_index_ x) (pending_idx_loads_ x) (takeover_load_ x) (takeover_pending_ x) (deferred_registers_ x) (dup_confirmed_alive_ x) (sent_ x).
Arguments set_frozen_dbs_MasterAgent h x /.
#[export] Instance set_pending_frozen_dbs_MasterAgent : Setter pending_frozen_dbs_ :=
  fun h x => mkMasterAgent (graph_ x) (metadata_ x) (worker_manager_ x) (ds_ x) (db_instances_ x) (frozen_markers_ x) (vars_files_ x) (frozen_dbs_ x) (h (pending_frozen_dbs_ x)) (write_provenance_ x) (db_failure_signals_ x) (task_dependency_locations_ x) (worker_to_conn_ x) (conn_to_worker_ x) (grace_deadlines_ x) (shutdown_pending_workers_ x) (exit_confirmed_workers_ x) (draining_ x) (running_ x) (failed_tasks_files_ x) (recorded_workers_ x) (pending_worker_infos_ x) (db_uid_index_ x) (pending_idx_loads_ x) (takeover_load_ x) (takeover_pending_ x) (deferred_registers_ x) (dup_confirmed_alive_ x) (sent_ x).
Arguments set_pending_frozen_dbs_MasterAgent h x /.
#[export] Instance set_write_provenance_MasterAgent : Setter write_provenance_ :=
  fun h x => mkMasterAgent (graph_ x) (metadata_ x) (worker_manager_ x) (ds_ x) (db_instances_ x) (frozen_markers_ x) (vars_files_ x) (frozen_dbs_ x) (pending_frozen_dbs_ x) (h (write_provenance_ x)) (db_failure_signals_ x) (task_dependency_locations_ x) (worker_to_conn_ x) (conn_to_worker_ x) (grace_deadlines_ x) (shutdown_pending_workers_ x) (exit_confirmed_workers_ x) (draining_ x) (running_ x) (failed_tasks_files_ x) (recorded_workers_ x) (pending_worker_infos_ x) (db_uid_index_ x) (pending_idx_loads_ x) (takeover_load_ x) (takeover_pending_ x) (deferred_registers_ x) (dup_confirmed_alive_ x) (sent_ x).
Arguments set_write_provenance_MasterAgent h x /.
#[export] Instance set_db_failure_signals_MasterAgent : Setter db_failure_signals_ :=
  fun h x => mkMasterAgent (graph_ x) (metadata_ x) (worker_manager_ x) (ds_ x) (db_instances_ x) (frozen_markers_ x) (vars_files_ x) (frozen_dbs_ x) (pending_frozen_dbs_ x) (write_provenance_ x) (h (db_failure_signals_ x)) (task_dependency_locations_ x) (worker_to_conn_ x) (conn_to_worker_ x) (grace_deadlines_ x) (shutdown_pending_workers_ x) (exit_confirmed_workers_ x) (draining_ x) (running_ x) (failed_tasks_files_ x) (recorded_workers_ x) (pending_worker_infos_ x) (db_uid_index_ x) (pending_idx_loads_ x) (takeover_load_ x) (takeover_pending_ x) (deferred_registers_ x) (dup_confirmed_alive_ x) (sent_ x).
Arguments set_db_failure_signals_MasterAgent h x /.
#[export] Instance set_task_dependency_locations_MasterAgent : Setter task_dependency_locations_ :=
  fun h x => mkMasterAgent (graph_ x) (metadata_ x) (worker_manager_ x) (ds_ x) (db_instances_ x) (frozen_markers_ x) (vars_files_ x) (frozen_dbs_ x) (pending_frozen_dbs_ x) (write_provenance_ x) (db_failure_signals_ x) (h (task_dependency_locations_ x)) (worker_to_conn_ x) (conn_to_worker_ x) (grace_deadlines_ x) (shutdown_pending_workers_ x) (exit_confirmed_workers_ x) (draining_ x) (running_ x) (failed_tasks_files_ x) (recorded_workers_ x) (pending_worker_infos_ x) (db_uid_index_ x) (pending_idx_loads_ x) (takeover_load_ x) (takeover_pending_ x) (deferred_registers_ x) (dup_confirmed_alive_ x) (sent_ x).
Arguments set_task_dependency_locations_MasterAgent h x /.
#[export] Instance set_worker_to_conn_MasterAgent : Setter worker_to_conn_ :=
  fun h x => mkMasterAgent (graph_ x) (metadata_ x) (worker_manager_ x) (ds_ x) (db_instances_ x) (frozen_markers_ x) (vars_files_ x) (frozen_dbs_ x) (pending_frozen_dbs_ x) (write_provenance_ x) (db_failure_signals_ x) (task_dependency_locations_ x) (h (worker_to_conn_ x)) (conn_to_worker_ x) (grace_deadlines_ x) (shutdown_pending_workers_ x) (exit_confirmed_workers_ x) (draining_ x) (running_ x) (failed_tasks_files_ x) (recorded_workers_ x) (pending_worker_infos_ x) (db_uid_index_ x) (pending_idx_loads_ x) (takeover_load_ x) (takeover_pending_ x) (deferred_registers_ x) (dup_confirmed_alive_ x) (sent_ x).
Arguments set_worker_to_conn_MasterAgent h x /.
#[export] Instance set_conn_to_worker_MasterAgent : Setter conn_to_worker_ :=
  fun h x => mkMasterAgent (graph_ x) (metadata_ x) (worker_manager_ x) (ds_ x) (db_instances_ x) (frozen_markers_ x) (vars_files_ x) (frozen_dbs_ x) (pending_frozen_dbs_ x) (write_provenance_ x) (db_failure_signals_ x) (task_dependency_locations_ x) (worker_to_conn_ x) (h (conn_to_worker_ x)) (grace_deadlines_ x) (shutdown_pending_workers_ x) (exit_confirmed_workers_ x) (draining_ x) (running_ x) (failed_tasks_files_ x) (recorded_workers_ x) (pending_worker_infos_ x) (db_uid_index_ x) (pending_idx_loads_ x) (takeover_load_ x) (takeover_pending_ x) (deferred_registers_ x) (dup_confirmed_alive_ x) (sent_ x).
Arguments set_conn_to_worker_MasterAgent h x /.
#[export] Instance set_grace_deadlines_MasterAgent : Setter grace_deadlines_ :=
  fun h x => mkMasterAgent (graph_ x) (metadata_ x) (worker_manager_ x) (ds_ x) (db_instances_ x) (frozen_markers_ x) (vars_files_ x) (frozen_dbs_ x) (pending_frozen_dbs_ x) (write_provenance_ x) (db_failure_signals_ x) (task_dependency_locations_ x) (worker_to_conn_ x) (conn_to_worker_ x) (h (grace_deadlines_ x)) (shutdown_pending_workers_ x) (exit_confirmed_workers_ x) (draining_ x) (running_ x) (failed_tasks_files_ x) (recorded_workers_ x) (pending_worker_infos_ x) (db_uid_index_ x) (pending_idx_loads_ x) (takeover_load_ x) (takeover_pending_ x) (deferred_registers_ x) (dup_confirmed_alive_ x) (sent_ x).
Arguments set_grace_deadlines_MasterAgent h x /.
#[export] Instance set_shutdown_pending_workers_MasterAgent : Setter shutdown_pending_workers_ :=
  fun h x => mkMasterAgent (graph_ x) (metadata_ x) (worker_manager_ x) (ds_ x) (db_instances_ x) (frozen_markers_ x) (vars_files_ x) (frozen_dbs_ x) (pending_frozen_dbs_ x) (write_provenance_ x) (db_failure_signals_ x) (task_dependency_locations_ x) (worker_to_conn_ x) (conn_to_worker_ x) (grace_deadlines_ x) (h (shutdown_pending_workers_ x)) (exit_confirmed_workers_ x) (draining_ x) (running_ x) (failed_tasks_files_ x) (recorded_workers_ x) (pending_worker_infos_ x) (db_uid_index_ x) (pending_idx_loads_ x) (takeover_load_ x) (takeover_pending_ x) (deferred_registers_ x) (dup_confirmed_alive_ x) (sent_ x).
Arguments set_shutdown_pending_workers_MasterAgent h x /.
#[export] Instance set_exit_confirmed_workers_MasterAgent : Setter exit_confirmed_workers_ :=
  fun h x => mkMasterAgent (graph_ x) (metadata_ x) (worker_manager_ x) (ds_ x) (db_instances_ x) (frozen_markers_ x) (vars_files_ x) (frozen_dbs_ x) (pending_frozen_dbs_ x) (write_provenance_ x) (db_failure_signals_ x) (task_dependency_locations_ x) (worker_to_conn_ x) (conn_to_worker_ x) (grace_deadlines_ x) (shutdown_pending_workers_ x) (h (exit_confirmed_workers_ x)) (draining_ x) (running_ x) (failed_tasks_files_ x) (recorded_workers_ x) (pending_worker_infos_ x) (db_uid_index_ x) (pending_idx_loads_ x) (takeover_load_ x) (takeover_pending_ x) (deferred_registers_ x) (dup_confirmed_alive_ x) (sent_ x).
Arguments set_exit_confirmed_workers_MasterAgent h x /.
#[export] Instance set_draining_MasterAgent : Setter draining_ :=
  fun h x => mkMasterAgent (graph_ x) (metadata_ x) (worker_manager_ x) (ds_ x) (db_instances_ x) (frozen_markers_ x) (vars_files_ x) (frozen_dbs_ x) (pending_frozen_dbs_ x) (write_provenance_ x) (db_failure_signals_ x) (task_dependency_locations_ x) (worker_to_conn_ x) (conn_to_worker_ x) (grace_deadlines_ x) (shutdown_pending_workers_ x) (exit_confirmed_workers_ x) (h (draining_ x)) (running_ x) (failed_tasks_files_ x) (recorded_workers_ x) (pending_worker_infos_ x) (db_uid_index_ x) (pending_idx_loads_ x) (takeover_load_ x) (takeover_pending_ x) (deferred_registers_ x) (dup_confirmed_alive_ x) (sent_ x).
Arguments set_draining_MasterAgent h x /.
#[export] Instance set_running_MasterAgent : Setter running_ :=
  fun h x => mkMasterAgent (graph_ x) (metadata_ x) (worker_manager_ x) (ds_ x) (db_instances_ x) (frozen_markers_ x) (vars_files_ x) (frozen_dbs_ x) (pending_frozen_dbs_ x) (write_provenance_ x) (db_failure_signals_ x) (task_dependency_locations_ x) (worker_to_conn_ x) (conn_to_worker_ x) (grace_deadlines_ x) (shutdown_pending_workers_ x) (exit_confirmed_workers_ x) (draining_ x) (h (running_ x)) (failed_tasks_files_ x) (recorded_workers_ x) (pending_worker_infos_ x) (db_uid_index_ x) (pending_idx_loads_ x) (takeover_load_ x) (takeover_pending_ x) (deferred_registers_ x) (dup_confirmed_alive_ x) (sent_ x).
Arguments set_running_MasterAgent h x /.
#[export] Instance set_failed_tasks_files_MasterAgent : Setter failed_tasks_files_ :=
  fun h x => mkMasterAgent (graph_ x) (metadata_ x) (worker_manager_ x) (ds_ x) (db_instances_ x) (frozen_markers_ x) (vars_files_ x) (frozen_dbs_ x) (pending_frozen_dbs_ x) (write_provenance_ x) (db_failure_signals_ x) (task_dependency_locations_ x) (worker_to_conn_ x) (conn_to_worker_ x) (grace_deadlines_ x) (shutdown_pending_workers_ x) (exit_confirmed_workers_ x) (draining_ x) (running_ x) (h (failed_tasks_files_ x)) (recorded_workers_ x) (pending_worker_infos_ x) (db_uid_index_ x) (pending_idx_loads_ x) (takeover_load_ x) (takeover_pending_ x) (deferred_registers_ x) (dup_confirmed_alive_ x) (sent_ x).
Arguments set_failed_tasks_files_MasterAgent h x /.
#[export] Instance set_recorded_workers_MasterAgent : Setter recorded_workers_ :=
  fun h x => mkMasterAgent (graph_ x) (metadata_ x) (worker_manager_ x) (ds_ x) (db_instances_ x) (frozen_markers_ x) (vars_files_ x) (frozen_dbs_ x) (pending_frozen_dbs_ x) (write_provenance_ x) (db_failure_signals_ x) (task_dependency_locations_ x) (worker_to_conn_ x) (conn_to_worker_ x) (grace_deadlines_ x) (shutdown_pending_workers_ x) (exit_confirmed_workers_ x) (draining_ x) (running_ x) (failed_tasks_files_ x) (h (recorded_workers_ x)) (pending_worker_infos_ x) (db_uid_index_ x) (pending_idx_loads_ x) (takeover_load_ x) (takeover_pending_ x) (deferred_registers_ x) (dup_confirmed_alive_ x) (sent_ x).
Arguments set_recorded_workers_MasterAgent h x /.
#[export] Instance set_pending_worker_infos_MasterAgent : Setter pending_worker_infos_ :=
  fun h x => mkMasterAgent (graph_ x) (metadata_ x) (worker_manager_ x) (ds_ x) (db_instances_ x) (frozen_markers_ x) (vars_files_ x) (frozen_dbs_ x) (pending_frozen_dbs_ x) (write_provenance_ x) (db_failure_signals_ x) (task_dependency_locations_ x) (worker_to_conn_ x) (conn_to_worker_ x) (grace_deadlines_ x) (shutdown_pending_workers_ x) (exit_confirmed_workers_ x) (draining_ x) (running_ x) (failed_tasks_files_ x) (recorded_workers_ x) (h (pending_worker_infos_ x)) (db_uid_index_ x) (pending_idx_loads_ x) (takeover_load_ x) (takeover_pending_ x) (deferred_registers_ x) (dup_confirmed_alive_ x) (sent_ x).
Arguments set_pending_worker_infos_MasterAgent h x /.
#[export] Instance set_db_uid_index_MasterAgent : Setter db_uid_index_ :=
  fun h x => mkMasterAgent (graph_ x) (metadata_ x) (worker_manager_ x) (ds_ x) (db_instances_ x) (frozen_markers_ x) (vars_files_ x) (frozen_dbs_ x) (pending_frozen_dbs_ x) (write_provenance_ x) (db_failure_signals_ x) (task_dependency_locations_ x) (worker_to_conn_ x) (conn_to_worker_ x) (grace_deadlines_ x) (shutdown_pending_workers_ x) (exit_confirmed_workers_ x) (draining_ x) (running_ x) (failed_tasks_files_ x) (recorded_workers_ x) (pending_worker_infos_ x) (h (db_uid_index_ x)) (pending_idx_loads_ x) (takeover_load_ x) (takeover_pending_ x) (deferred_registers_ x) (dup_confirmed_alive_ x) (sent_ x).
Arguments set_db_uid_index_MasterAgent h x /.
#[export] Instance set_pending_idx_loads_MasterAgent : Setter pending_idx_loads_ :=
  fun h x => mkMasterAgent (graph_ x) (metadata_ x) (worker_manager_ x) (ds_ x) (db_instances_ x) (frozen_markers_ x) (vars_files_ x) (frozen_dbs_ x) (pending_frozen_dbs_ x) (write_provenance_ x) (db_failure_signals_ x) (task_dependency_locations_ x) (worker_to_conn_ x) (conn_to_worker_ x) (grace_deadlines_ x) (shutdown_pending_workers_ x) (exit_confirmed_workers_ x) (draining_ x) (running_ x) (failed_tasks_files_ x) (recorded_workers_ x) (pending_worker_infos_ x) (db_uid_index_ x) (h (pending_idx_loads_ x)) (takeover_load_ x) (takeover_pending_ x) (deferred_registers_ x) (dup_confirmed_alive_ x) (sent_ x).
Arguments set_pending_idx_loads_MasterAgent h x /.
#[export] Instance set_takeover_load_MasterAgent : Setter takeover_load_ :=
  fun h x => mkMasterAgent (graph_ x) (metadata_ x) (worker_manager_ x) (ds_ x) (db_instances_ x) (frozen_markers_ x) (vars_files_ x) (frozen_dbs_ x) (pending_frozen_dbs_ x) (write_provenance_ x) (db_failure_signals_ x) (task_dependency_locations_ x) (worker_to_conn_ x) (conn_to_worker_ x) (grace_deadlines_ x) (shutdown_pending_workers_ x) (exit_confirmed_workers_ x) (draining_ x) (running_ x) (failed_tasks_files_ x) (recorded_workers_ x) (pending_worker_infos_ x) (db_uid_index_ x) (pending_idx_loads_ x) (h (takeover_load_ x)) (takeover_pending_ x) (deferred_registers_ x) (dup_confirmed_alive_ x) (sent_ x).
Arguments set_takeover_load_MasterAgent h x /.
#[export] Instance set_takeover_pending_MasterAgent : Setter takeover_pending_ :=
  fun h x => mkMasterAgent (graph_ x) (metadata_ x) (worker_manager_ x) (ds_ x) (db_instances_ x) (frozen_markers_ x) (vars_files_ x) (frozen_dbs_ x) (pending_frozen_dbs_ x) (write_provenance_ x) (db_failure_signals_ x) (task_dependency_locations_ x) (worker_to_conn_ x) (conn_to_worker_ x) (grace_deadlines_ x) (shutdown_pending_workers_ x) (exit_confirmed_workers_ x) (draining_ x) (running_ x) (failed_tasks_files_ x) (recorded_workers_ x) (pending_worker_infos_ x) (db_uid_index_ x) (pending_idx_loads_ x) (takeover_load_ x) (h (takeover_pending_ x)) (deferred_registers_ x) (dup_confirmed_alive_ x) (sent_ x).
Arguments set_takeover_pending_MasterAgent h x /.
#[export] Instance set_deferred_registers_MasterAgent : Setter deferred_registers_ :=
  fun h x => mkMasterAgent (graph_ x) (metadata_ x) (worker_manager_ x) (ds_ x) (db_instances_ x) (frozen_markers_ x) (vars_files_ x) (frozen_dbs_ x) (pending_frozen_dbs_ x) (write_provenance_ x) (db_failure_signals_ x) (task_dependency_locations_ x) (worker_to_conn_ x) (conn_to_worker_ x) (grace_deadlines_ x) (shutdown_pending_workers_ x) (exit_confirmed_workers_ x) (draining_ x) (running_ x) (failed_tasks_files_ x) (recorded_workers_ x) (pending_worker_infos_ x) (db_uid_index_ x) (pending_idx_loads_ x) (takeover_load_ x) (takeover_pending_ x) (h (deferred_registers_ x)) (dup_confirmed_alive_ x) (sent_ x).
Arguments set_deferred_registers_MasterAgent h x /.
#[export] Instance set_dup_confirmed_alive_MasterAgent : Setter dup_confirmed_alive_ :=
  fun h x => mkMasterAgent (graph_ x) (metadata_ x) (worker_manager_ x) (ds_ x) (db_instances_ x) (frozen_markers_ x) (vars_files_ x) (frozen_dbs_ x) (pending_frozen_dbs_ x) (write_provenance_ x) (db_failure_signals_ x) (task_dependency_locations_ x) (worker_to_conn_ x) (conn_to_worker_ x) (grace_deadlines_ x) (shutdown_pending_workers_ x) (exit_confirmed_workers_ x) (draining_ x) (running_ x) (failed_tasks_files_ x) (recorded_workers_ x) (pending_worker_infos_ x) (db_uid_index_ x) (pending_idx_loads_ x) (takeover_load_ x) (takeover_pending_ x) (deferred_registers_ x) (h (dup_confirmed_alive_ x)) (sent_ x).
Arguments set_dup_confirmed_alive_MasterAgent h x /.
#[export] Instance set_sent_MasterAgent : Setter sent_ :=
  fun h x => mkMasterAgent (graph_ x) (metadata_ x) (worker_manager_ x) (ds_ x) (db_instances_ x) (frozen_markers_ x) (vars_files_ x) (frozen_dbs_ x) (pending_frozen_dbs_ x) (write_provenance_ x) (db_failure_signals_ x) (task_dependency_locations_ x) (worker_to_conn_ x) (conn_to_worker_ x) (grace_deadlines_ x) (shutdown_pending_workers_ x) (exit_confirmed_workers_ x) (draining_ x) (running_ x) (failed_tasks_files_ x) (recorded_workers_ x) (pending_worker_infos_ x) (db_uid_index_ x) (pending_idx_loads_ x) (takeover_load_ x) (takeover_pending_ x) (deferred_registers_ x) (dup_confirmed_alive_ x) (h (sent_ x)).
Arguments set_sent_MasterAgent h x /.

(** ** Sending *)

Definition send (conn_id : N) (msg : MasterMessage) (m : MasterAgent) : MasterAgent :=
  m <| sent_ ::= (fun q => q ++ [(conn_id, msg)]) |>.

Definition snapshot_worker_conns (m : MasterAgent) : list (N * N) := map_to_list (worker_to_conn_ m).

Definition broadcast (msg : MasterMessage) (m : MasterAgent) : MasterAgent :=
  foldl (fun m p => send p.2 msg m) m (snapshot_worker_conns m).

Definition lookup_worker_conn (worker_id : N) (m : MasterAgent) : N := default 0%N (worker_to_conn_ m !! worker_id).

(** ** Provenance of written objects *)

(** [None] is success; the error message otherwise. *)
Definition provenance_check_and_register (db_path short_name hash : string) (m : MasterAgent) :
    option string * MasterAgent :=
  if decide (hash = "") then (Some ("Empty write_context_hash for " +:+ db_path +:+ ":" +:+ short_name), m)
  else
    let inner := default ∅ (write_provenance_ m !! db_path) in
    let m1 := m <| write_provenance_ ::= <[db_path := inner]> |> in
    match inner !! short_name with
    | None => (None, m <| write_provenance_ ::= <[db_path := <[short_name := hash]> inner]> |>)
    | Some old =>
        if decide (old = hash) then (None, m1)
        else (Some ("Write provenance mismatch for " +:+ db_path +:+ ":" +:+ short_name +:+
                    ": existing hash=" +:+ old +:+ " new hash=" +:+ hash), m1)
    end.

Definition provenance_erase (db_path short_name : string) (m : MasterAgent) : MasterAgent :=
  match write_provenance_ m !! db_path with
  | None => m
  | Some inner =>
      let inner := delete short_name inner in
      if decide (inner = ∅) then m <| write_provenance_ ::= delete db_path |>
      else m <| write_provenance_ ::= <[db_path := inner]> |>
  end.

Definition cleanup_provenance_for_db (db_path : string) (m : MasterAgent) : MasterAgent :=
  m <| write_provenance_ ::= delete db_path |>.

Definition provenance_lookup (db_path short_name : string) (m : MasterAgent) : string :=
  default "" (inner ← write_provenance_ m !! db_path; inner !! short_name).

(** ** Frozen databases *)

Definition is_db_frozen (db_path : string) (m : MasterAgent) : bool :=
  bool_decide (db_path ∈ frozen_dbs_ m) || bool_decide (is_Some (pending_frozen_dbs_ m !! db_path)) ||
  bool_decide (db_path ∈ frozen_markers_ m).

Definition is_db_pending_frozen (db_path : string) (m : MasterAgent) : bool :=
  bool_decide (is_Some (pending_frozen_dbs_ m !! db_path)).

(** [on_master_freeze] *)
Definition on_master_freeze (db_path : string) (m : MasterAgent) : MasterAgent :=
  if negb (running_ m) then m
  else if decide (db_path ∈ frozen_dbs_ m) then m
  else
    let m := m <| frozen_dbs_ ::= (fun s => {[db_path]} ∪ s) |> in
    broadcast (DatabaseFreezeNotification db_path) (cleanup_provenance_for_db db_path m).

(** [Database::freeze] of the master's instance: the flag and the marker, the
    local index, the notification of the process it runs in (here the master
    itself), the file of variables. *)
Definition freeze_instance (db_path : string) (m : MasterAgent) : MasterAgent :=
  match db_instances_ m !! db_path with
  | None => m
  | Some db =>
      if is_frozen_ db then m
      else
        let m := m <| db_instances_ ::= <[db_path := db <| is_frozen_ := true |>]> |>
                   <| frozen_markers_ ::= (fun s => {[db_path]} ∪ s) |>
                   <| ds_ ::= (fun s => cleanup_temp_entries db_path (on_flush db_path s)) |> in
        let m := on_master_freeze db_path m in
        m <| vars_files_ ::= <[db_path := flush_vars_to_disk db]> |>
  end.

(** What the confirmation of one database does after it is in the set. *)
Definition confirm_frozen (db_path : string) (m : MasterAgent) : MasterAgent :=
  broadcast (DatabaseFreezeNotification db_path) (cleanup_provenance_for_db db_path (freeze_instance db_path m)).

Definition commit_pending_frozen (task_id : N) (m : MasterAgent) : MasterAgent :=
  let mine := (filter (fun p => p.2 = task_id) (map_to_list (pending_frozen_dbs_ m))).*1 in
  let committed := filter (fun p => p ∉ frozen_dbs_ m) mine in
  let m := m <| frozen_dbs_ ::= (fun s => list_to_set mine ∪ s) |>
             <| pending_frozen_dbs_ ::= filter (fun p => p.2 <> task_id) |> in
  foldl (fun m db_path => confirm_frozen db_path m) m committed.

Definition rollback_pending_frozen (task_id : N) (m : MasterAgent) : MasterAgent :=
  m <| pending_frozen_dbs_ ::= filter (fun p => p.2 <> task_id) |>.

Definition streaming_mode (c : Config) : bool := dependency_update_mode c =? 0.

Definition on_database_freeze_request (c : Config) (conn_id : N) (db_path : string) (task_id : N) (m : MasterAgent) :
    MasterAgent :=
  let already := bool_decide (db_path ∈ frozen_dbs_ m) || bool_decide (is_Some (pending_frozen_dbs_ m !! db_path)) in
  if already then send conn_id (DatabaseFreezeAck db_path false DB_ALREADY_FROZEN) m
  else if streaming_mode c then
    let m := m <| frozen_dbs_ ::= (fun s => {[db_path]} ∪ s) |> in
    let m := send conn_id (DatabaseFreezeAck db_path true UNKNOWN) m in
    broadcast (DatabaseFreezeNotification db_path) (freeze_instance db_path (cleanup_provenance_for_db db_path m))
  else
    send conn_id (DatabaseFreezeAck db_path true UNKNOWN) (m <| pending_frozen_dbs_ ::= <[db_path := task_id]> |>).

(** ** Failed tasks *)

Definition register_db_failure (db_path : string) (task_id : N) (error kind : string) (m : MasterAgent) : MasterAgent :=
  if decide (db_path = "") then m
  else
    match db_failure_signals_ m !! db_path with
    | Some _ => m
    | None => m <| db_failure_signals_ ::= <[db_path := mkDbFailureSignal task_id error kind]> |>
    end.

Definition get_db_failure (db_path : string) (m : MasterAgent) : bool * N * string :=
  match db_failure_signals_ m !! db_path with
  | None => (false, 0%N, "")
  | Some s => (true, sig_task_id_ s, sig_error_ s)
  end.

Definition no_submission : TaskSubmissionSpec := mkTaskSubmissionSpec "" "" [] [] [] [] (-1)%Q 10 "" [] "".

Definition make_failed_record (task_id : N) (error_msg : string) (m : MasterAgent) : FailedTaskRecord :=
  mkFailedTaskRecord task_id
    (match get_task task_id (metadata_ m) with Some t => submission_ t | None => no_submission end) error_msg.

Definition get_failed_tasks_file_path (c : Config) (owner_db_path : string) : string :=
  if decide (owner_db_path = "") then log_dir c +:+ "/failed_tasks.bin" else owner_db_path +:+ "/failed_tasks.bin".

Definition read_failed_records (file_path : string) (m : MasterAgent) : list FailedTaskRecord :=
  default [] (failed_tasks_files_ m !! file_path).

Definition append_failed_record (file_path : string) (r : FailedTaskRecord) (m : MasterAgent) : MasterAgent :=
  m <| failed_tasks_files_ ::= <[file_path := read_failed_records file_path m ++ [r]]> |>.

Definition rewrite_failed_records (file_path : string) (records : list FailedTaskRecord) (m : MasterAgent) : MasterAgent :=
  foldl (fun m r => append_failed_record file_path r m) (m <| failed_tasks_files_ ::= delete file_path |>) records.

Definition persist_failed_task (c : Config) (r : FailedTaskRecord) (m : MasterAgent) : MasterAgent :=
  append_failed_record (get_failed_tasks_file_path c (owner_db_path_ (rec_submission_ r))) r m.

Definition remove_persisted_task (c : Config) (task_id : N) (m : MasterAgent) : MasterAgent :=
  match get_task task_id (metadata_ m) with
  | None => m
  | Some md =>
      let file_path := get_failed_tasks_file_path c (owner_db_path_ (submission_ md)) in
      let records := read_failed_records file_path m in
      let kept := filter (fun r => rec_task_id_ r <> task_id) records in
      if decide (length kept = length records) then m
      else
        match kept with
        | [] => m <| failed_tasks_files_ ::= delete file_path |>
        | _ => rewrite_failed_records file_path kept m
        end
  end.

(** ** The writers of a database *)

Definition record_worker_info (c : Config) (db_path : string) (worker_id : N) (writer_id_in : string) (m : MasterAgent) :
    MasterAgent :=
  let '(hostname, ip) :=
    if decide (worker_id = 0%N) then (host_name c, host_ c)
    else (get_hostname worker_id (worker_manager_ m), get_ip_address worker_id (worker_manager_ m)) in
  if decide (hostname = "") then m
  else
    let writer_id :=
      if decide (writer_id_in = "") then
        match db_instances_ m !! db_path with Some db => writer_id_ db | None => "" end
      else writer_id_in in
    let key := (db_path, hostname, writer_id) in
    if decide (key ∈ recorded_workers_ m) then m
    else
      m <| recorded_workers_ ::= (fun s => {[key]} ∪ s) |>
        <| pending_worker_infos_ ::= (fun q =>
             <[db_path := default [] (q !! db_path) ++ [(worker_id, writer_id, hostname, ip)]]> q) |>.

(** ** Loads of index files *)

Definition send_idx_load_to_worker (db_path : string) (writer_ids : list string) (worker_id : N) (m : MasterAgent) :
    MasterAgent :=
  let conn := lookup_worker_conn worker_id m in
  if decide (conn = 0%N) then m
  else
    let p :=
      match pending_idx_loads_ m !! db_path with
      | None => mkPendingIdxLoad 1 {[worker_id]}
      | Some p =>
          let ws := {[worker_id]} ∪ pending_workers_ p in mkPendingIdxLoad (Z.of_nat (size ws)) ws
      end in
    send conn (IdxLoadCommand db_path writer_ids) (m <| pending_idx_loads_ ::= <[db_path := p]> |>).

Definition send_idx_load_commands (db_path : string) (writer_ids : list string) (m : MasterAgent) : MasterAgent :=
  broadcast (IdxLoadCommand db_path writer_ids) m.

Definition idx_load_pending (db_path : string) (m : MasterAgent) : Z :=
  match pending_idx_loads_ m !! db_path with Some p => remaining_ p | None => 0 end.

(** The part of [settle_pending_for_dead_worker] about index loads. *)
Definition settle_idx_loads (worker_id : N) (m : MasterAgent) : MasterAgent :=
  m <| pending_idx_loads_ ::= fmap (fun p =>
         if decide (worker_id ∈ pending_workers_ p)
         then mkPendingIdxLoad (-1) (pending_workers_ p ∖ {[worker_id]}) else p) |>.

(** Map the entries of an index file to a worker; [files] are the entries an
    index file loads, [None] when it is absent. *)
Definition map_entries (clk : clock) (db_path idx_path : string) (worker_id : N)
    (files : string -> option (list IndexEntry)) (m : MasterAgent) : MasterAgent :=
  let addr := get_worker_address worker_id (ds_ m) in
  foldl (fun m e =>
      let full := full_name db_path (object_name_ e) in
      m <| ds_ ::= update_remote_idx full worker_id (r_host_ addr) (r_port_ addr) 0 false |>
        <| graph_ ::= mark_data_ready clk full |>)
    m (default [] (files idx_path)).

Definition rebuild_remote_idx_for_worker (clk : clock) (db_path : string) (writer_ids : list string) (worker_id : N)
    (files : string -> option (list IndexEntry)) (m : MasterAgent) : MasterAgent :=
  foldl (fun m writer_id =>
      match files (db_path +:+ "/" +:+ writer_id +:+ ".idx") with
      | None => m
      | Some _ =>
          map_entries clk db_path (db_path +:+ "/.temp." +:+ writer_id +:+ ".idx") worker_id files
            (map_entries clk db_path (db_path +:+ "/" +:+ writer_id +:+ ".idx") worker_id files m)
      end)
    m writer_ids.

(** ** Merges of databases *)

(** [cleanup_after_merge] up to its barrier: every worker is told to drop its
    index of the merged database. *)
Definition start_merge_cleanup (db_path merge_db_path merge_data_path : string) (merge_target_worker_ids : list N)
    (m : MasterAgent) : MasterAgent :=
  broadcast (MergeCleanup db_path merge_db_path merge_data_path merge_target_worker_ids) m.

Definition clear_indexes_for_db (db_path : string) (m : MasterAgent) : MasterAgent :=
  m <| ds_ ::= fun s => clear_remote_index_for_db db_path (clear_local_index_for_db db_path s) |>.

(** The instance of a database is moved: it is registered again under the new path. *)
Definition set_paths (db_path data_path : string) (db : Database) (s : DataService) : Database * DataService :=
  (db <| db_path_ := db_path |>, register_database db_path data_path (writer_id_ db) (unregister_database (db_path_ db) s)).

(** [cleanup_after_merge] from its barrier on: the index is rebuilt from what the
    merge tasks have written ([obj_to_workers], in the order of the hash map), the
    instance of the source path takes the paths of the product, or a new one,
    [opened], is entered for it, and the database is no longer frozen.  The new
    instance has registered itself; its path is empty if it was refused. *)
Definition cleanup_after_merge (clk : clock) (db_path merge_db_path merge_data_path : string) (obj_to_workers : list (string * list N))
    (opened : Database) (m : MasterAgent) : MasterAgent :=
  let m := clear_indexes_for_db db_path m in
  let m := if decide (merge_db_path = db_path) then m else clear_indexes_for_db merge_db_path m in
  let m := foldl (fun m p =>
      foldl (fun m w =>
          let addr := get_worker_address w (ds_ m) in
          m <| ds_ ::= update_remote_idx p.1 w (r_host_ addr) (r_port_ addr) 0 false |>) m p.2
        <| graph_ ::= mark_data_ready clk p.1 |>) m obj_to_workers in
  let moved :=
    match db_instances_ m !! db_path with
    | Some db => set_paths merge_db_path merge_data_path db (ds_ m)
    | None => (opened, if decide (db_path_ opened = "") then ds_ m else register_database (db_path_ opened) merge_data_path (writer_id_ opened) (ds_ m))
    end in
  m <| ds_ := moved.2 |> <| db_instances_ ::= <[db_path := moved.1]> |>
    <| frozen_dbs_ ::= (fun s => s ∖ {[db_path]}) |> <| pending_frozen_dbs_ ::= delete db_path |>.

Definition complete_idx_load (db_path : string) (f : PendingIdxLoad -> PendingIdxLoad) (m : MasterAgent) : MasterAgent :=
  m <| pending_idx_loads_ ::= alter f db_path |>.

Definition on_idx_load_ack (clk : clock) (worker_id : N) (db_path : string) (success : bool) (loaded_writer_ids : list string)
    (files : string -> option (list IndexEntry)) (m : MasterAgent) : MasterAgent :=
  let failed := complete_idx_load db_path (fun p => mkPendingIdxLoad (-1) (pending_workers_ p)) m in
  if negb success then failed
  else
    match db_instances_ m !! db_path with
    | None => failed
    | Some _ =>
        complete_idx_load db_path (fun p =>
            let ws := pending_workers_ p ∖ {[worker_id]} in mkPendingIdxLoad (Z.of_nat (size ws)) ws)
          (rebuild_remote_idx_for_worker clk db_path loaded_writer_ids worker_id files m)
    end.

(** Restore the objects of an index file the master wrote itself, and the
    provenance of a database that is not frozen. *)
Definition restore_master_idx (clk : clock) (db_path writer_id : string) (files : string -> option (list IndexEntry))
    (m : MasterAgent) : MasterAgent :=
  match files (db_path +:+ "/" +:+ writer_id +:+ ".idx") with
  | None => m
  | Some entries =>
      let m := match entries with [] => m | _ => m <| ds_ ::= restore_entries db_path entries |> end in
      let db_frozen := bool_decide (db_path ∈ frozen_markers_ m) in
      foldl (fun m e =>
          let m := m <| graph_ ::= mark_data_ready clk (full_name db_path (object_name_ e)) |> in
          if negb db_frozen && negb (bool_decide (LocalIndex.write_context_hash_ e = "")) then
            m <| write_provenance_ ::= (fun w =>
                   <[db_path := <[object_name_ e := LocalIndex.write_context_hash_ e]> (default ∅ (w !! db_path))]> w) |>
          else m) m entries
  end.
