(* ===== verification/Master.v ===== *)
(** The master's handling of tasks (src/agent/cpp/master_agent.cpp): submission,
    scheduling and assignment, reports of workers, registration and removal of
    objects, disconnected and dead workers, and the restart of failed tasks.

    A handler is a state transformer: the sections it runs under [schedule_mutex_]
    are taken as one step with the rest of the handler, which is how a single
    reactor thread runs it.  [None] is the abort on a duplicate task id.  Merges of
    databases, their pending calls and the quotas of user messages are not part of
    the state. *)

From stdpp Require Import base gmap strings list option sets fin_maps.
From Stdlib Require Import ZArith QArith Lia Ascii.
From S2P Require Import Prelude Bytes ObjectNames DependencyGraph WorkerManager TaskManager TaskScheduler LocalIndex ObjectCache DataIndex Vars MasterState.

Open Scope Z_scope.

Section Handlers.
  Context (c : Config) (e : Env).

(** ** Scheduling *)

Definition replicas (obj : string) (m : MasterAgent) : list RemoteObjectInfo :=
  lookup_all_remote_idx (probe_ e) (score_ e) obj (ds_ m).

(** The input bytes each worker holds of a task's dependencies. *)
Definition held_bytes (deps : list string) (s : DataService) : gmap N Z :=
  foldl (fun acc obj =>
      let sz := get_remote_size obj s in
      foldl (fun acc h => <[h := default 0 (acc !! h) + sz]> acc) acc (get_remote_workers obj s))
    ∅ deps.

Definition compute_locality_hints (locality_on : bool) (m : MasterAgent) : MasterAgent :=
  if negb locality_on then m
  else
    foldl (fun m tid =>
        match get_task_dependencies tid (graph_ m) with
        | [] => m
        | deps => m <| graph_ ::= set_task_locality_hint tid (map_to_list (held_bytes deps (ds_ m))) |>
        end)
      m (get_ready_tasks (graph_ m)).

Definition fail_and_persist_tasks (task_ids : list N) (make_error : N -> MasterAgent -> string) (kind : string)
    (m : MasterAgent) : MasterAgent :=
  foldl (fun m task_id =>
      let error_msg := make_error task_id m in
      let record := make_failed_record task_id error_msg m in
      let m := m <| graph_ ::= DependencyGraph.remove_task task_id |>
                 <| metadata_ ::= fail_task (finish_ms_ e task_id) task_id error_msg |> in
      register_db_failure (owner_db_path_ (rec_submission_ record)) task_id error_msg kind (persist_failed_task c record m))
    m task_ids.

(** The comma-separated list of an error message. *)
Definition comma_list (l : list string) : string :=
  match l with
  | [] => ""
  | x :: l => foldl (fun acc y => acc +:+ "," +:+ y) x l
  end.

Definition update_dependency_location_cache (object_name : string) (worker_id : N) (host : string) (port : Z)
    (m : MasterAgent) : MasterAgent :=
  foldl (fun m task_id =>
      if decide (object_name ∈ get_task_dependencies task_id (graph_ m)) then
        m <| task_dependency_locations_ ::= (fun t =>
               <[task_id := <[object_name := mkCachedLocation worker_id host port]> (default ∅ (t !! task_id))]> t) |>
      else m)
    m (get_pending_tasks (graph_ m)).

(** The variables sent along with an assignment. *)
Definition var_payloads (vars : list string) (m : MasterAgent) : list VarPayload :=
  omap (fun full_var =>
      let '(db_path, short_name) := split_full_name full_var in
      if decide (db_path = "") then None
      else
        db ← db_instances_ m !! db_path;
        match master_get_var short_name db with
        | Some (mkVarEntry (Some v) tn) => Some (mkVarPayload full_var v tn)
        | _ => None
        end)
    vars.

(** The locations sent along: the cached ones, then every replica of the inputs
    that are not cached. *)
Definition dependency_locations (cached : gmap string CachedLocation) (inputs : list string) (m : MasterAgent) :
    list DataLocation :=
  let from_cache := (fun p => mkDataLocation p.1 (cl_worker_id p.2) (cl_host p.2) (cl_port p.2)
                                (is_storage_worker (cl_worker_id p.2) (ds_ m))) <$> map_to_list cached in
  foldl (fun locs dep =>
      if decide (dep ∈ loc_object_name_ <$> locs) then locs
      else
        locs ++ omap (fun r =>
            if decide (r_worker_id_ r = 0%N \/ r_host_ r = "") then None
            else Some (mkDataLocation dep (r_worker_id_ r) (r_host_ r) (r_port_ r) (r_storage_only_ r)))
          (replicas dep m))
    from_cache inputs.

Definition assign_task_to_worker (task_id worker_id : N) (m : MasterAgent) : MasterAgent :=
  match worker_to_conn_ m !! worker_id with
  | None => m
  | Some conn_id =>
      let '(msg, m) :=
        match get_task task_id (metadata_ m) with
        | None => (mkTaskAssignMessage task_id "" "" [] "" [] [], m)
        | Some t =>
            let s := submission_ t in
            (mkTaskAssignMessage task_id (name_ s) (module_ s) (args_ s) (TaskManager.write_context_hash_ s)
               (dependency_locations (default ∅ (task_dependency_locations_ m !! task_id)) (inputs_ s) m)
               (var_payloads (vars_ s) m),
             m <| task_dependency_locations_ ::= delete task_id |>)
        end in
      send conn_id (TaskAssign msg) m <| metadata_ ::= TaskManager.assign_task (assign_ms_ e task_id) task_id worker_id |>
  end.

(** Decide and assign. *)
Definition assign_ready (m : MasterAgent) : MasterAgent :=
  let s := mkTaskScheduler (graph_ m) (worker_manager_ m) (locality_scheduling_enabled c) in
  match schedule_all_available (nows_ e) s with
  | None => m
  | Some (results, s') =>
      foldl (fun m r => if scheduled_ r then assign_task_to_worker (task_id_ r) (result_worker_id_ r) m else m)
        (m <| graph_ := TaskScheduler.graph_ s' |> <| worker_manager_ := manager_ s' |>) results
  end.

(** Pending tasks that nothing can make ready any more. *)
Definition fail_unresolvable (m : MasterAgent) : MasterAgent :=
  let pending := get_pending_tasks (graph_ m) in
  if decide (pending <> [] /\ get_ready_tasks (graph_ m) = [] /\ has_tasks_with_status RUNNING (metadata_ m) = false) then
    fail_and_persist_tasks pending
      (fun t m => "Unresolvable data dependencies: [" +:+ comma_list (get_task_dependencies t (graph_ m)) +:+ "]")
      "Unresolvable data dependencies" m
  else m.

(** Ready tasks that wait for ever for capabilities no worker has. *)
Definition fail_deadlocked (m : MasterAgent) : MasterAgent :=
  if negb (fail_unscheduleable_tasks c) then m
  else
    let has_running := has_tasks_with_status RUNNING (metadata_ m) in
    let deadlocked := filter (fun t =>
        let reqs := get_task_requirements t (graph_ m) in
        capabilities_ reqs <> [] /\ Qle_bool 0 (timeout_seconds_ reqs) = false /\ has_running = false /\
        has_worker_with_all_capabilities (capabilities_ reqs) (worker_manager_ m) = false)
      (get_ready_tasks (graph_ m)) in
    fail_and_persist_tasks deadlocked
      (fun t m => "No worker with required capabilities: [" +:+
                  comma_list (capabilities_ (get_task_requirements t (graph_ m))) +:+ "]")
      "Capability deadlock" m.

Definition schedule_tasks (m : MasterAgent) : MasterAgent :=
  if draining_ m then m
  else fail_deadlocked (fail_unresolvable (assign_ready (compute_locality_hints (locality_scheduling_enabled c) m))).

(** ** Submission *)

(** The database of the first argument that stands for one. *)
Definition first_db (args : list string) : string :=
  default "" (head (filter (fun db => db <> "") (parse_db_arg <$> args))).

Definition effective_spec (spec : TaskSubmissionSpec) : TaskSubmissionSpec :=
  if decide (owner_db_path_ spec = "") then spec <| owner_db_path_ := first_db (args_ spec) |> else spec.

Definition requirements_of (s : TaskSubmissionSpec) : TaskRequirements :=
  mkTaskRequirements (required_capabilities_ s) (attribute_timeout_ s) [] (spec_priority_ s).

(** The preferred replica of each input that has one. *)
Definition prefetch (inputs : list string) (m : MasterAgent) : gmap string CachedLocation :=
  foldl (fun acc dep =>
      match replicas dep m with
      | best :: _ =>
          if decide (r_worker_id_ best = 0%N \/ r_host_ best = "") then acc
          else <[dep := mkCachedLocation (r_worker_id_ best) (r_host_ best) (r_port_ best)]> acc
      | [] => acc
      end)
    ∅ inputs.

Definition submit_task (task_id : N) (spec : TaskSubmissionSpec) (m : MasterAgent) : option MasterAgent :=
  let effective := effective_spec spec in
  md ← create_task (create_ms_ e) task_id effective "" (metadata_ m);
  g ← add_task (clk_ e) task_id (inputs_ effective) (requirements_of effective) (graph_ m);
  let m := m <| metadata_ := md |> <| graph_ := g |> in
  let locations := prefetch (inputs_ effective) m in
  let m := if decide (locations = ∅) then m
           else m <| task_dependency_locations_ ::= (fun t =>
                       <[task_id := locations ∪ default ∅ (t !! task_id)]> t) |> in
  Some (schedule_tasks m).

(** ** Reports of the workers *)

(** A report about a task that is now with another worker. *)
Definition stale_report (task_id worker_id : N) (m : MasterAgent) : bool :=
  match get_task task_id (metadata_ m) with
  | Some t => negb (bool_decide (assigned_worker_id_ t = 0%N)) && negb (bool_decide (assigned_worker_id_ t = worker_id))
  | None => false
  end.

(** The records kept about the writer of an object. *)
Definition record_writer (object_name : string) (worker_id : N) (writer_id : string) (m : MasterAgent) : MasterAgent :=
  let '(db_path, _) := split_full_name object_name in
  if decide (db_path = "") then m else record_worker_info c db_path worker_id writer_id m.

Definition on_task_complete (msg : TaskCompleteMessage) (m : MasterAgent) : MasterAgent :=
  let worker_id := tc_worker_id_ msg in
  if stale_report (tc_task_id_ msg) worker_id m then m
  else
    let m := m <| worker_manager_ ::= complete_task worker_id |> in
    let addr := get_worker_address worker_id (ds_ m) in
    let locate := fun wo m =>
      m <| ds_ ::= update_remote_idx (wo_object_name_ wo) worker_id (r_host_ addr) (r_port_ addr) (wo_size_bytes_ wo) false |> in
    let m :=
      if negb (tc_is_internal_ msg) then
        let m :=
          if streaming_mode c then m
          else
            foldl (fun m wo =>
                let m := m <| graph_ ::= mark_data_ready (clk_ e) (wo_object_name_ wo) |> in
                let m := update_dependency_location_cache (wo_object_name_ wo) worker_id (r_host_ addr) (r_port_ addr) (locate wo m) in
                record_writer (wo_object_name_ wo) worker_id (wo_writer_id_ wo) m)
              m (tc_written_objects_ msg) in
        let m := m <| graph_ ::= DependencyGraph.remove_task (tc_task_id_ msg) |>
                   <| metadata_ ::= update_task_status (finish_ms_ e (tc_task_id_ msg)) (tc_task_id_ msg) COMPLETED |> in
        commit_pending_frozen (tc_task_id_ msg) (remove_persisted_task c (tc_task_id_ msg) m)
      else
        foldl (fun m wo => record_writer (wo_object_name_ wo) worker_id (wo_writer_id_ wo) (locate wo m))
          m (tc_written_objects_ msg) in
    schedule_tasks m.

Definition broadcast_object_removed (db_path object_name : string) (m : MasterAgent) : MasterAgent :=
  let full := full_name db_path object_name in
  broadcast (ObjectRemoved db_path full) (provenance_erase db_path object_name (m <| ds_ ::= remove_remote_index full |>)).

(** What a failed task wrote is withdrawn. *)
Definition clean_dirty (obj : string) (m : MasterAgent) : MasterAgent :=
  let '(db_path, short_name) := split_full_name obj in
  let m := provenance_erase db_path short_name (m <| ds_ ::= remove_remote_index obj |>) in
  let m := m <| graph_ ::= mark_data_removed obj |> in
  if decide (db_path = "") then m else broadcast_object_removed db_path short_name m.

Definition on_task_failed (msg : TaskFailedMessage) (m : MasterAgent) : MasterAgent :=
  if stale_report (tf_task_id_ msg) (tf_worker_id_ msg) m then m
  else
    let t := tf_task_id_ msg in
    let m := m <| worker_manager_ ::= complete_task (tf_worker_id_ msg) |>
               <| metadata_ ::= fail_task (finish_ms_ e t) t (tf_error_message_ msg) |>
               <| graph_ ::= DependencyGraph.remove_task t |> in
    let m :=
      match get_task t (metadata_ m) with
      | None => m
      | Some _ =>
          let record := make_failed_record t (tf_error_message_ msg) m in
          register_db_failure (owner_db_path_ (rec_submission_ record)) t (tf_error_message_ msg)
            "Worker task execution failed" (persist_failed_task c record m)
      end in
    let m := foldl (fun m obj => clean_dirty obj m) m (tf_dirty_objects_ msg) in
    schedule_tasks (rollback_pending_frozen t m).

(** ** Objects *)

Definition do_write_register (msg : WriteRegisterMessage) (m : MasterAgent) : WriteRegisterAckMessage * MasterAgent :=
  let ack := mkWriteRegisterAckMessage (wr_object_name_ msg) (wr_db_path_ msg) in
  let frozen := bool_decide (wr_db_path_ msg ∈ frozen_dbs_ m) || bool_decide (is_Some (pending_frozen_dbs_ m !! wr_db_path_ msg)) in
  if frozen then (ack false ("Database frozen: " +:+ wr_db_path_ msg) WRITE_TO_FROZEN_DB, m)
  else if decide (wr_write_context_hash_ msg = "") then
    (ack false ("Empty write_context_hash for " +:+ wr_object_name_ msg) WRITE_REGISTRATION_FAILED, m)
  else
    let '(prov_db, prov_short) := split_full_name (wr_object_name_ msg) in
    match provenance_check_and_register prov_db prov_short (wr_write_context_hash_ msg) m with
    | (Some err, m) => (ack false err WRITE_PROVENANCE_MISMATCH, m)
    | (None, m) =>
        let ok := ack true "" UNKNOWN in
        if wr_preliminary_ msg then (ok, m)
        else if bool_decide (wr_worker_id_ msg = 0%N) || streaming_mode c then
          let w := wr_worker_id_ msg in
          let addr := get_worker_address w (ds_ m) in
          let m := m <| ds_ ::= update_remote_idx (wr_object_name_ msg) w (r_host_ addr) (r_port_ addr) (wr_size_bytes_ msg) false |> in
          let m := update_dependency_location_cache (wr_object_name_ msg) w (r_host_ addr) (r_port_ addr) m in
          let m := record_worker_info c (wr_db_path_ msg) w (wr_writer_id_ msg) m in
          (ok, schedule_tasks (m <| graph_ ::= mark_data_ready (clk_ e) (wr_object_name_ msg) |>))
        else (ok, m)
    end.

Definition on_write_register (conn_id : N) (msg : WriteRegisterMessage) (m : MasterAgent) : MasterAgent :=
  let '(ack, m) := do_write_register msg m in send conn_id (WriteRegisterAck ack) m.

(** A write of the master's own process; [hash] is the current write hash or the
    time stamp that stands in for an empty one. *)
Definition on_master_register_write (db_path name : string) (compressed_size : Z) (preliminary : bool) (hash : string)
    (m : MasterAgent) : string * TaskErrorType * MasterAgent :=
  if negb (running_ m) then ("master not running", WRITE_REGISTRATION_FAILED, m)
  else
    let writer_id := match db_instances_ m !! db_path with Some db => writer_id_ db | None => "" end in
    let '(ack, m) := do_write_register
      (mkWriteRegisterMessage 0 (full_name db_path name) db_path hash writer_id compressed_size preliminary) m in
    if wa_success_ ack then ("", UNKNOWN, m) else (wa_error_message_ ack, wa_error_type_ ack, m).

Definition on_master_remove (db_path object_name : string) (m : MasterAgent) : bool * MasterAgent :=
  let full := full_name db_path object_name in
  let found := has_local_object full (ds_ m) || has_remote_location full (ds_ m) in
  let m := m <| graph_ ::= mark_data_removed full |>
             <| ds_ ::= remove_local_index full |>
             <| ds_ ::= (fun s => s <| object_cache_ ::= ObjectCache.remove full |>) |> in
  let m := foldl (fun m wid =>
      match worker_to_conn_ m !! wid with
      | Some conn => if decide (conn = 0%N) then m else send conn (RemoveCommand db_path full) m
      | None => m
      end) m (get_remote_workers full (ds_ m)) in
  let m := provenance_erase db_path object_name (m <| ds_ ::= remove_remote_location full |>) in
  (found, schedule_tasks m).

Definition on_remove_request (conn_id : N) (object_name db_path_field : string) (m : MasterAgent) : MasterAgent :=
  let '(db_path, short_name) := split_full_name object_name in
  let '(found, m) := on_master_remove db_path short_name m in
  send conn_id (RemoveAck db_path_field object_name (negb found)) m.

Definition on_worker_property_update (worker_id : N) (added removed : list string) (m : MasterAgent) : MasterAgent :=
  schedule_tasks (m <| worker_manager_ ::= update_capabilities worker_id added removed |>).

(** ** Workers that leave *)

(** Fail a waiting or running task without a record of it. *)
Definition drop_task (task_id : N) (error : string) (m : MasterAgent) : MasterAgent :=
  m <| metadata_ ::= fail_task (finish_ms_ e task_id) task_id error |>
    <| graph_ ::= DependencyGraph.remove_task task_id |>.

Definition fail_orphan_data_objects (worker_id : N) (m : MasterAgent) : MasterAgent :=
  let other_alive := fun full =>
    existsb (fun holder =>
        negb (bool_decide (holder = worker_id)) &&
        match get_worker holder (worker_manager_ m) with Some i => worker_status_alive (WorkerManager.status_ i) | None => false end)
      (get_remote_workers full (ds_ m)) in
  let lost_objects := filter (fun full => other_alive full = false) (get_objects_of_worker worker_id (ds_ m)) in
  match lost_objects with
  | [] => m
  | _ =>
      let m := m <| graph_ ::= (fun g => foldl (fun g full => mark_data_removed full g) g lost_objects) |> in
      let running_now := get_task_ids_by_status RUNNING (metadata_ m) in
      foldl (fun m tid =>
          if decide (tid ∈ running_now) then m
          else if existsb (fun dep => bool_decide (dep ∈ lost_objects)) (get_task_dependencies tid (graph_ m)) then
            drop_task tid "data lost: all replicas unavailable (holder worker dead)" m
          else m)
        m (get_pending_tasks (graph_ m))
  end.

(** The writers of each database recorded for a host. *)
Definition writers_by_db (hostname : string) (m : MasterAgent) : gmap string (list string) :=
  foldl (fun acc rec =>
      let '(rec_db, rec_host, rec_writer) := rec in
      if decide (rec_host = hostname) then <[rec_db := default [] (acc !! rec_db) ++ [rec_writer]]> acc else acc)
    ∅ (elements (recorded_workers_ m)).

Definition INT64_MAX : Z := 2 ^ 63 - 1.

(** The storage worker of a host with the least load; 0 when there is none. *)
Definition pick_storage (hostname : string) (m : MasterAgent) : N :=
  (foldl (fun best i =>
      if negb (bool_decide (role_ i = STORAGE_ONLY)) || negb (worker_status_alive (WorkerManager.status_ i)) ||
         negb (bool_decide (hostname_ i = hostname)) then best
      else
        let load := default 0 (takeover_load_ m !! worker_id_ i) in
        if load <? best.2 then (worker_id_ i, load) else best)
    (0%N, INT64_MAX) (WorkerManager.get_all_workers (worker_manager_ m))).1.

Definition try_storage_takeover (worker_id : N) (m : MasterAgent) : bool * MasterAgent :=
  if negb (storage_takeover_enabled c) then (false, m)
  else
    let hostname := get_hostname worker_id (worker_manager_ m) in
    if decide (hostname = "") then (false, m)
    else
      let by_db := writers_by_db hostname m in
      if decide (by_db = ∅) then (false, m)
      else
        let storage_wid := pick_storage hostname m in
        if decide (storage_wid = 0%N) then (false, m)
        else
          let total_writers := foldl (fun n p => n + Z.of_nat (length p.2)) 0 (map_to_list by_db) in
          let cur_load := default 0 (takeover_load_ m !! storage_wid) in
          if (0 <? storage_takeover_max_writers c) && (storage_takeover_max_writers c <? cur_load + total_writers) then (false, m)
          else
            let m := foldl (fun m p => send_idx_load_to_worker p.1 p.2 storage_wid m) m (map_to_list by_db) in
            let fail_timeout := if storage_takeover_fail_timeout c <=? 0 then 60 else storage_takeover_fail_timeout c in
            (true, m <| takeover_load_ ::= <[storage_wid := cur_load + total_writers]> |>
                     <| takeover_pending_ ::= <[worker_id := now_s_ e + fail_timeout]> |>).

Definition check_takeover_deadlines (now : Z) (m : MasterAgent) : MasterAgent :=
  foldl (fun m dead_wid => fail_orphan_data_objects dead_wid (m <| takeover_pending_ ::= delete dead_wid |>))
    m (filter (fun p => p.2 <= now) (map_to_list (takeover_pending_ m))).*1.

(** Put a task of a dead worker back into the graph. *)
Definition requeue_task (task_id : N) (m : MasterAgent) : MasterAgent :=
  match get_task task_id (metadata_ m) with
  | None => m
  | Some t =>
      let s := submission_ t in
      let g := DependencyGraph.remove_task task_id (graph_ m) in
      match add_task (clk_ e) task_id (inputs_ s) (requirements_of s) g with
      | None => m
      | Some g => m <| graph_ := g |> <| metadata_ ::= unassign_task task_id |>
      end
  end.

(** The worker leaves with this status: what both ways of leaving begin with, and
    the tasks it had. *)
Definition retire_worker (worker_id : N) (status : WorkerStatus) (m : MasterAgent) : list N * MasterAgent :=
  let m := settle_idx_loads worker_id (m <| grace_deadlines_ ::= delete worker_id |>) in
  let m := m <| worker_manager_ ::= update_worker_status worker_id status |> in
  let tasks := get_task_ids_by_worker worker_id (metadata_ m) in
  let m := m <| ds_ ::= set_worker_alive worker_id false |> in
  (tasks, foldl (fun m t => rollback_pending_frozen t m) m tasks).

Definition handle_worker_exit (worker_id : N) (m : MasterAgent) : MasterAgent :=
  let '(tasks_to_recover, m) := retire_worker worker_id EXITED m in
  foldl (fun m t =>
      match get_task t (metadata_ m) with
      | Some md => if decide (TaskManager.status_ md = RUNNING) then drop_task t "worker exited during shutdown" m else m
      | None => m
      end) m tasks_to_recover.

Definition handle_worker_death (worker_id : N) (m : MasterAgent) : MasterAgent :=
  let '(tasks_to_recover, m) := retire_worker worker_id DEAD m in
  let m :=
    if draining_ m then foldl (fun m t => drop_task t "Worker disconnected during shutdown" m) m tasks_to_recover
    else
      let m := foldl (fun m t => requeue_task t m) m tasks_to_recover in
      match tasks_to_recover with [] => m | _ => schedule_tasks m end in
  let '(taken, m) := try_storage_takeover worker_id m in
  if taken then m else fail_orphan_data_objects worker_id m.

Definition check_grace_deadlines (now : Z) (m : MasterAgent) : MasterAgent :=
  foldl (fun m worker_id => handle_worker_death worker_id m) m
    (filter (fun p => p.2 <= now) (map_to_list (grace_deadlines_ m))).*1.

(** ** Workers that register *)

(** The registration is accepted on this connection. *)
Definition accept_register (conn_id : N) (msg : RegisterMessage) (m : MasterAgent) : MasterAgent :=
  let w := reg_worker_id_ msg in
  let m := m <| conn_to_worker_ ::= <[conn_id := w]> |> <| worker_to_conn_ ::= <[w := conn_id]> |> in
  let m := if 0 <? reg_data_server_port_ msg
           then m <| ds_ ::= DataIndex.register_worker w (reg_data_server_host_ msg) (reg_data_server_port_ msg)
                               (bool_decide (reg_role_ msg = STORAGE_ONLY)) |>
           else m in
  let m := send conn_id (RegisterAck w false) m in
  let in_grace := bool_decide (is_Some (grace_deadlines_ m !! w)) in
  let register := if in_grace then register_worker_reconnect else WorkerManager.register_worker in
  let m := m <| grace_deadlines_ ::= delete w |>
             <| worker_manager_ ::= register (now_s_ e) w (host_ c) (master_port_ c) (reg_attributes_ msg)
                                      (reg_hostname_ msg) (reg_ip_address_ msg) (reg_role_ msg) |> in
  schedule_tasks m.

Definition reject_deferred_register (worker_id : N) (m : MasterAgent) : MasterAgent :=
  match deferred_registers_ m !! worker_id with
  | None => m
  | Some (conn, _, _) => send conn (RegisterAck worker_id true) (m <| deferred_registers_ ::= delete worker_id |>)
  end.

(** A dead connection of a worker is forgotten. *)
Definition forget_conn (worker_id conn_id : N) (m : MasterAgent) : MasterAgent :=
  let m := if decide (worker_to_conn_ m !! worker_id = Some conn_id) then m <| worker_to_conn_ ::= delete worker_id |> else m in
  if decide (conn_to_worker_ m !! conn_id = Some worker_id) then m <| conn_to_worker_ ::= delete conn_id |> else m.

(** [on_worker_register]; [probe_sent] is whether the probe of an older connection
    could be sent and [still_connected] whether that connection is up after the
    registration was deferred.  A deferred registration that is replayed at once
    finds the probe failing. *)
Definition on_worker_register (probe_sent still_connected : bool) (conn_id : N) (msg : RegisterMessage) (m : MasterAgent) :
    MasterAgent :=
  let w := reg_worker_id_ msg in
  let m := m <| shutdown_pending_workers_ ::= (fun s => s ∖ {[w]}) |> <| exit_confirmed_workers_ ::= (fun s => s ∖ {[w]}) |> in
  match worker_to_conn_ m !! w with
  | Some existing =>
      if decide (existing = conn_id) then accept_register conn_id msg m
      else if match dup_confirmed_alive_ m !! w with Some t => now_s_ e - t <? 30 | None => false end then
        reject_deferred_register w (send conn_id (RegisterAck w true) m)
      else if negb probe_sent then accept_register conn_id msg (forget_conn w existing m)
      else
        let m := send existing (WorkerProbe w) m in
        let m := m <| deferred_registers_ ::= <[w := (conn_id, msg, now_s_ e + 15)]> |> in
        if still_connected then m
        else accept_register conn_id msg (forget_conn w existing (m <| deferred_registers_ ::= delete w |>))
  | None => accept_register conn_id msg m
  end.

Definition on_probe_ack (worker_id : N) (m : MasterAgent) : MasterAgent :=
  reject_deferred_register worker_id (m <| dup_confirmed_alive_ ::= <[worker_id := now_s_ e]> |>).

Definition replay_deferred_register (probe_sent still_connected : bool) (worker_id : N) (m : MasterAgent) : MasterAgent :=
  match deferred_registers_ m !! worker_id with
  | None => m
  | Some (conn, msg, _) =>
      on_worker_register probe_sent still_connected conn msg (m <| deferred_registers_ ::= delete worker_id |>)
  end.

Definition check_dup_register_deadlines (now : Z) (m : MasterAgent) : MasterAgent :=
  foldl (fun m w => reject_deferred_register w m) m
    (filter (fun p => p.2.2 <= now) (map_to_list (deferred_registers_ m))).*1.

Definition on_disconnect (probe_sent still_connected : bool) (conn_id : N) (m : MasterAgent) : MasterAgent :=
  match conn_to_worker_ m !! conn_id with
  | None => m
  | Some worker_id =>
      let m := forget_conn worker_id conn_id m in
      if decide (worker_id = 0%N) then m
      else
        let m := m <| dup_confirmed_alive_ ::= delete worker_id |> in
        let m := replay_deferred_register probe_sent still_connected worker_id m in
        let left := bool_decide (worker_id ∈ shutdown_pending_workers_ m) || bool_decide (worker_id ∈ exit_confirmed_workers_ m) in
        let m := m <| shutdown_pending_workers_ ::= (fun s => s ∖ {[worker_id]}) |>
                   <| exit_confirmed_workers_ ::= (fun s => s ∖ {[worker_id]}) |> in
        if left then handle_worker_exit worker_id m
        else if draining_ m || (worker_reconnect_timeout c <=? 0) then handle_worker_death worker_id m
        else m <| grace_deadlines_ ::= <[worker_id := now_s_ e + worker_reconnect_timeout c]> |>
               <| worker_manager_ ::= set_worker_grace worker_id true |>
  end.

Definition on_heartbeat (conn_id worker_id : N) (m : MasterAgent) : MasterAgent :=
  let m := m <| worker_manager_ ::= set_heartbeat worker_id (now_s_ e) |> in
  let m := match get_worker worker_id (worker_manager_ m) with
           | Some i =>
               if worker_status_alive (WorkerManager.status_ i) then m
               else m <| worker_manager_ ::= update_worker_status worker_id IDLE |>
                      <| ds_ ::= set_worker_alive worker_id true |>
           | None => m
           end in
  send conn_id (HeartbeatAck worker_id) m.

(** ** Restart of failed tasks *)

(** [path(file).parent_path()] *)
Definition parent_path (file_path : string) : string :=
  match rfind "/"%char file_path with
  | None => ""
  | Some O => "/"
  | Some p => str_take p file_path
  end.

Definition kKwargsPrefix : string := "__fly_kwargs__:".

Definition carries_kwargs (r : FailedTaskRecord) : bool :=
  match last (args_ (rec_submission_ r)) with Some a => starts_with kKwargsPrefix a | None => false end.

(** Where each database a record names is now; [None] when one cannot be found. *)
Definition resolve_arg (m : MasterAgent) (acc : gmap string string) (arg : string) : option (gmap string string) :=
  let '(uid, db_path) := parse_db_arg_uid arg in
  if decide (db_path = "") then Some acc
  else if decide (uid = "") then None
  else
    match db_uid_index_ m !! uid with
    | None => None
    | Some current =>
        if decide (current = "") then None
        else Some (if decide (current = db_path) then acc else <[db_path := current]> acc)
    end.

Definition resolve_args (args : list string) (m : MasterAgent) : option (gmap string string) :=
  foldl (fun acc arg => acc ← acc; resolve_arg m acc arg) (Some ∅) args.

Definition replace_prefix (old_to_new : gmap string string) (full : string) : string :=
  match rfind colon full with
  | None | Some O => full
  | Some pos =>
      match old_to_new !! str_take pos full with
      | Some new => new +:+ str_drop pos full
      | None => full
      end
  end.

Definition reencode_arg (m : MasterAgent) (arg : string) : string :=
  let '(uid, db_path) := parse_db_arg_uid arg in
  if decide (db_path = "") then arg
  else kDb2Prefix +:+ uid +:+ ":" +:+ default "" (db_uid_index_ m !! uid).

Definition relocate (file_path : string) (old_to_new : gmap string string) (m : MasterAgent) (s : TaskSubmissionSpec) :
    TaskSubmissionSpec :=
  let s := s <| args_ ::= fmap (reencode_arg m) |> <| inputs_ ::= fmap (replace_prefix old_to_new) |>
             <| vars_ ::= fmap (replace_prefix old_to_new) |> <| outputs_ ::= fmap (replace_prefix old_to_new) |> in
  if decide (owner_db_path_ s = "") then s else s <| owner_db_path_ := parent_path file_path |>.

(** The number of tasks submitted again. *)
Definition restart_failed_tasks (file_path : string) (m : MasterAgent) : option (nat * MasterAgent) :=
  let records := read_failed_records file_path m in
  if decide (records = []) then Some (0%nat, m)
  else if negb (forallb carries_kwargs records) then Some (0%nat, m)
  else
    match resolve_args (concat ((fun r => args_ (rec_submission_ r)) <$> records)) m with
    | None => Some (0%nat, m)
    | Some old_to_new =>
        let specs := (fun r => (rec_task_id_ r, relocate file_path old_to_new m (rec_submission_ r))) <$> records in
        m ← foldl (fun om p => m ← om; submit_task p.1 p.2 (m <| metadata_ ::= TaskManager.remove_task p.1 |>))
              (Some (m <| failed_tasks_files_ ::= delete file_path |>)) specs;
        Some (length records, m)
    end.

End Handlers.
