(* ===== verification/MasterTasks.v ===== *)
(** The tasks of the master: its two books of them, the dependency graph and the
    task registry, agree through every handler of Master.v. *)

From stdpp Require Import base gmap strings list option sets fin_maps sorting.
From Stdlib Require Import ZArith QArith Lia.
From S2P Require Import Prelude Bytes ObjectNames DependencyGraph WorkerManager TaskManager TaskScheduler LocalIndex ObjectCache DataIndex Vars MasterState Master.

Open Scope Z_scope.

(** ** The registry: which tasks wait *)

Definition waiting (md : TaskManager) (t : N) : Prop := task_status_ md !! t = Some PENDING.

Lemma waiting_get md t :
  tm_wf md -> waiting md t <-> exists x, get_task t md = Some x /\ TaskManager.status_ x = PENDING.
Proof.
  intros Hwf. unfold waiting. split.
  - intros Hs. destruct (get_task_known md t _ Hwf Hs) as (x & Hx & _ & Hst & _). eauto.
  - intros (x & Hx & Hst). apply get_task_bucket in Hx; [|done]. rewrite Hst in Hx.
    by destruct (wf_bucket md Hwf _ _ _ Hx).
Qed.

Lemma cleanup_waiting md :
  tm_wf md -> tm_wf (maybe_cleanup_completed md) /\ forall u, waiting (maybe_cleanup_completed md) u <-> waiting md u.
Proof.
  intros Hwf. destruct (cleanup_spec md Hwf) as (Hwf' & _ & Hget). split; [done|]. intros u.
  rewrite !waiting_get by done. setoid_rewrite Hget. case_decide as Hev; [|done].
  apply list_elem_of_fmap in Hev as ([t k] & -> & Hin). apply evicted_sub, elem_terminal_entries in Hin; [|done].
  destruct Hin as (x & Hx & Hterm & _). cbn in *. split; [by intros (? & ? & _)|].
  intros (y & Hy & Hst). rewrite Hx in Hy. injection Hy as <-. by rewrite Hst in Hterm.
Qed.

Lemma move_waiting t x old to md :
  tm_wf md -> task_status_ md !! t = Some old -> TaskManager.status_ x = old -> TaskManager.task_id_ x = t ->
  tm_wf (store_and_move t x old to md) /\
  forall u, waiting (store_and_move t x old to md) u <-> (u = t /\ to = PENDING) \/ (u <> t /\ waiting md u).
Proof.
  intros Hwf Hs Hx Ht. split; [by apply store_and_move_wf|]. intros u. unfold waiting.
  rewrite store_and_move_status by done. destruct (decide (u = t)) as [->|Hne].
  - rewrite lookup_insert_eq. naive_solver.
  - rewrite lookup_insert_ne by done. naive_solver.
Qed.

Lemma fail_waiting now t err md :
  tm_wf md -> tm_wf (fail_task now t err md) /\ forall u, waiting (fail_task now t err md) u <-> u <> t /\ waiting md u.
Proof.
  intros Hwf. rewrite fail_task_eq by done. destruct (task_status_ md !! t) as [old|] eqn:Es.
  - destruct (get_task_known md t old Hwf Es) as (x & -> & Hb & Hst & Hid). case_decide as Ef.
    + split; [by apply update_meta_wf|]. intros u. unfold waiting. rewrite update_meta_status.
      split; [|naive_solver]. intros Hu. split; [|done]. intros ->. congruence.
    + destruct (move_waiting t (fail_meta now err x) old TaskManager.FAILED md) as [Hwf' Hw]; try done.
      destruct (cleanup_waiting _ Hwf') as [Hwf'' Hw'']. split; [done|]. intros u. rewrite Hw'', Hw. naive_solver.
  - split; [done|]. intros u. unfold waiting. split; [|naive_solver]. intros Hu. split; [|done]. intros ->. congruence.
Qed.

Lemma finish_waiting now t md :
  tm_wf md -> tm_wf (update_task_status now t COMPLETED md) /\
  forall u, waiting (update_task_status now t COMPLETED md) u <-> u <> t /\ waiting md u.
Proof.
  intros Hwf. rewrite update_task_status_eq by done. destruct (task_status_ md !! t) as [old|] eqn:Es.
  - destruct (get_task_known md t old Hwf Es) as (x & -> & Hb & Hst & Hid). case_decide as Ef.
    + split; [done|]. intros u. unfold waiting. split; [|naive_solver]. intros Hu. split; [|done]. intros ->. congruence.
    + destruct (move_waiting t (status_meta now COMPLETED x) old COMPLETED md) as [Hwf' Hw]; try done.
      destruct (cleanup_waiting _ Hwf') as [Hwf'' Hw'']. unfold finish. split; [done|]. intros u. rewrite Hw'', Hw. naive_solver.
  - split; [done|]. intros u. unfold waiting. split; [|naive_solver]. intros Hu. split; [|done]. intros ->. congruence.
Qed.

Lemma assign_waiting now t w md :
  tm_wf md -> tm_wf (TaskManager.assign_task now t w md) /\
  forall u, waiting (TaskManager.assign_task now t w md) u <-> u <> t /\ waiting md u.
Proof.
  intros Hwf. rewrite assign_task_eq. destruct (task_status_ md !! t) as [old|] eqn:Es.
  - destruct (get_task_known md t old Hwf Es) as (x & -> & Hb & Hst & Hid).
    destruct (move_waiting t (assign_meta now w x) old RUNNING md) as [Hwf' Hw]; try done.
    1,2: unfold assign_meta; by case_decide.
    split; [done|]. intros u. rewrite Hw. naive_solver.
  - split; [done|]. intros u. unfold waiting. split; [|naive_solver]. intros Hu. split; [|done]. intros ->. congruence.
Qed.

Lemma unassign_waiting t md :
  tm_wf md -> is_Some (get_task t md) -> tm_wf (unassign_task t md) /\
  forall u, waiting (unassign_task t md) u <-> u = t \/ waiting md u.
Proof.
  intros Hwf [x Hx]. rewrite unassign_task_eq. destruct (task_status_ md !! t) as [old|] eqn:Es.
  - destruct (get_task_known md t old Hwf Es) as (y & Hy & Hb & Hst & Hid). rewrite Hy.
    destruct (move_waiting t (y <| assigned_worker_id_ := 0%N |>) old PENDING md) as [Hwf' Hw]; try done.
    split; [done|]. intros u. rewrite Hw. destruct (decide (u = t)); naive_solver.
  - by rewrite (get_task_unknown md t Es) in Hx.
Qed.

Lemma create_waiting now t spec cfg md md' :
  tm_wf md -> create_task now t spec cfg md = Some md' ->
  tm_wf md' /\ ~ waiting md t /\ forall u, waiting md' u <-> u = t \/ waiting md u.
Proof.
  intros Hwf Hc. split; [by eapply create_task_wf in Hc as [? _]|]. unfold create_task in Hc.
  destruct (task_status_ md !! t) eqn:Es; [done|]. injection Hc as <-. split; [unfold waiting; by rewrite Es|].
  intros u. unfold waiting. cbn. destruct (decide (u = t)) as [->|Hne].
  - rewrite lookup_insert_eq. naive_solver.
  - rewrite lookup_insert_ne by done. naive_solver.
Qed.

Lemma erase_waiting t md :
  tm_wf md -> tm_wf (TaskManager.remove_task t md) /\
  forall u, waiting (TaskManager.remove_task t md) u <-> u <> t /\ waiting md u.
Proof.
  intros Hwf. split; [by apply erase_task_wf|]. intros u. unfold waiting, TaskManager.remove_task.
  rewrite erase_task_status. destruct (decide (u = t)) as [->|Hne].
  - rewrite lookup_delete_eq. naive_solver.
  - rewrite lookup_delete_ne by done. naive_solver.
Qed.

(** ** The graph: which tasks it knows *)

Lemma remove_known t g u : known (DependencyGraph.remove_task t g) u <-> u <> t /\ known g u.
Proof.
  unfold known. destruct (remove_task_fields t g) as [-> _]. destruct (decide (u = t)) as [->|Hne].
  - rewrite lookup_delete_eq. split; [by intros []|naive_solver].
  - rewrite lookup_delete_ne by done. naive_solver.
Qed.

Lemma add_known clk t ins r g g' :
  add_task clk t ins r g = Some g' -> forall u, known g' u <-> u = t \/ known g u.
Proof.
  intros [_ [[_ ->]|[_ ->]]]%add_task_Some u; exact (base_known t ins r g u).
Qed.

Lemma ready_known clk d g u : graph_wf g -> known (mark_data_ready clk d g) u <-> known g u.
Proof. intros Hwf. destruct (mark_data_ready_spec clk d g Hwf) as [Hs _]. by rewrite (same_data_known _ _ u Hs). Qed.

Lemma removed_known d g u : graph_wf g -> known (mark_data_removed d g) u <-> known g u.
Proof.
  intros Hwf. destruct (mark_data_removed_spec d g Hwf) as (_ & Hs & _). by rewrite (same_data_known _ _ u Hs).
Qed.

Lemma hint_known t h g u : known (set_task_locality_hint t h g) u <-> known g u.
Proof. unfold set_task_locality_hint. by destruct (task_requirements_ g !! t). Qed.

(** ** The two books *)

(** The graph and the registry are well formed and have the same waiting tasks;
    every worker the scheduler may choose is connected, and a deferred registration
    is kept under its worker. *)
Record core (g : DependencyGraph) (md : TaskManager) (wm : workers) (conns : gmap N N)
    (deferred : gmap N (N * RegisterMessage * Z)) : Prop := {
  core_graph : graph_wf g;
  core_tasks : tm_wf md;
  core_ids : ids_ok wm;
  core_agree : forall t, known g t <-> waiting md t;
  core_conn : forall w, w ∈ get_idle_workers wm -> is_Some (conns !! w);
  core_deferred : forall w conn msg d, deferred !! w = Some (conn, msg, d) -> reg_worker_id_ msg = w
}.

Definition books (m : MasterAgent) : Prop := core (graph_ m) (metadata_ m) (worker_manager_ m) (worker_to_conn_ m) (deferred_registers_ m).

Section CoreOps.
  Context (g : DependencyGraph) (md : TaskManager) (wm : workers) (conns : gmap N N).
  Context (dr : gmap N (N * RegisterMessage * Z)).
  Context (Hcore : core g md wm conns dr).

Lemma core_hint t h : core (set_task_locality_hint t h g) md wm conns dr.
Proof.
  destruct Hcore as [Hg Ht Hi Ha Hc Hd]. split; try done; [by apply set_task_locality_hint_wf|].
  intros u. by rewrite hint_known.
Qed.

Lemma core_ready clk d : core (mark_data_ready clk d g) md wm conns dr.
Proof.
  destruct Hcore as [Hg Ht Hi Ha Hc Hd]. split; try done; [by apply mark_data_ready_wf|]. intros u. by rewrite ready_known.
Qed.

Lemma core_removed d : core (mark_data_removed d g) md wm conns dr.
Proof.
  destruct Hcore as [Hg Ht Hi Ha Hc Hd]. split; try done; [by apply mark_data_removed_wf|]. intros u. by rewrite removed_known.
Qed.

Lemma core_fail now t err : core (DependencyGraph.remove_task t g) (fail_task now t err md) wm conns dr.
Proof.
  destruct Hcore as [Hg Ht Hi Ha Hc Hd]. destruct (fail_waiting now t err md Ht) as [Hwf Hw].
  split; try done; [by apply remove_task_wf|]. intros u. by rewrite remove_known, Hw, Ha.
Qed.

Lemma core_finish now t : core (DependencyGraph.remove_task t g) (update_task_status now t COMPLETED md) wm conns dr.
Proof.
  destruct Hcore as [Hg Ht Hi Ha Hc Hd]. destruct (finish_waiting now t md Ht) as [Hwf Hw].
  split; try done; [by apply remove_task_wf|]. intros u. by rewrite remove_known, Hw, Ha.
Qed.

Lemma core_requeue clk t ins r g' :
  is_Some (get_task t md) -> add_task clk t ins r (DependencyGraph.remove_task t g) = Some g' ->
  core g' (unassign_task t md) wm conns dr.
Proof.
  intros Hs Hadd. destruct Hcore as [Hg Ht Hi Ha Hc Hd]. destruct (unassign_waiting t md Ht Hs) as [Hwf Hw].
  split; try done; [eapply add_task_wf; [by apply remove_task_wf|done]|].
  intros u. rewrite (add_known _ _ _ _ _ _ Hadd), remove_known, Hw, Ha. destruct (decide (u = t)); naive_solver.
Qed.

Lemma core_submit now clk t spec ins r md' g' :
  create_task now t spec "" md = Some md' -> add_task clk t ins r g = Some g' -> core g' md' wm conns dr.
Proof.
  intros Hcr Hadd. destruct Hcore as [Hg Ht Hi Ha Hc Hd]. destruct (create_waiting _ _ _ _ _ _ Ht Hcr) as (Hwf & _ & Hw).
  split; try done; [by eapply add_task_wf|]. intros u. by rewrite (add_known _ _ _ _ _ _ Hadd), Hw, Ha.
Qed.

(** Changes of the worker registry that make no worker idle without a connection. *)
Lemma core_workers wm' conns' :
  ids_ok wm' -> (forall w, w ∈ get_idle_workers wm' -> is_Some (conns' !! w)) -> core g md wm' conns' dr.
Proof. destruct Hcore. by split. Qed.

End CoreOps.

(** The last field of an [alter]ed worker map. *)
Lemma idle_alter f w wm v :
  v ∈ get_idle_workers (alter f w wm) -> v = w \/ v ∈ get_idle_workers wm.
Proof.
  rewrite !elem_get_idle_workers. destruct (decide (v = w)) as [->|Hne]; [by left|].
  rewrite lookup_alter_ne by done. by right.
Qed.

Lemma alter_ids f w wm : (forall i, worker_id_ (f i) = worker_id_ i) -> ids_ok wm -> ids_ok (alter f w wm).
Proof.
  intros Hf Hi v i. destruct (decide (v = w)) as [->|Hne].
  - rewrite lookup_alter_eq. intros (j & Hj & ->)%fmap_Some. rewrite Hf. by apply Hi.
  - rewrite lookup_alter_ne by done. apply Hi.
Qed.

(** ** Scheduling *)

Lemma rounds_known s rs s' :
  rounds s rs s' -> (forall u, known (TaskScheduler.graph_ s') u <-> known (TaskScheduler.graph_ s) u /\ u ∉ task_id_ <$> rs).
Proof.
  induction 1 as [now s Hn|now s r s' rs s'' E Er Hrs IH]; intros u; [set_solver|].
  rewrite IH. apply schedule_next_spec in E as [(-> & _)|(bef & t & aft & _ & _ & _ & -> & ->)]; [done|].
  cbn. rewrite remove_known. set_solver.
Qed.

Lemma rounds_idle s rs s' :
  rounds s rs s' -> scheduler_ok s -> scheduler_ok s' /\
  forall v, v ∈ get_idle_workers (manager_ s') -> v ∈ get_idle_workers (manager_ s).
Proof.
  induction 1 as [now s Hn|now s r s' rs s'' E Er Hrs IH]; intros Hok; [done|].
  destruct (schedule_next_true _ _ _ _ Hok E Er) as (Hok' & _ & _ & _ & Hi).
  destruct (IH Hok') as [? Hv]. split; [done|]. intros v Hin%Hv%Hi. tauto.
Qed.

(** A property of the state kept by every step of a loop. *)
Lemma foldl_keeps {A St} (P : St -> Prop) (f : St -> A -> St) l s :
  P s -> (forall s x, x ∈ l -> P s -> P (f s x)) -> P (foldl f s l).
Proof.
  revert s. induction l as [|x l IH]; intros s Hs Hf; cbn; [done|]. apply IH; [apply Hf; [left|done]|].
  intros. apply Hf; [by right|done].
Qed.

Lemma hints_books on m : books m -> books (compute_locality_hints on m).
Proof.
  intros Hb. unfold compute_locality_hints. destruct on; [|done]. apply foldl_keeps; [done|].
  intros m' t _ Hb'. destruct (get_task_dependencies t (graph_ m')); [done|]. by apply core_hint.
Qed.

(** Assignments of the scheduler's choices: each chosen task leaves the registry's
    waiting tasks. *)
Lemma assign_all e rs m :
  tm_wf (metadata_ m) ->
  (forall r, r ∈ rs -> scheduled_ r = true /\ is_Some (worker_to_conn_ m !! result_worker_id_ r)) ->
  let m' := foldl (fun m r => if scheduled_ r then assign_task_to_worker e (task_id_ r) (result_worker_id_ r) m else m) m rs in
  graph_ m' = graph_ m /\ worker_manager_ m' = worker_manager_ m /\ worker_to_conn_ m' = worker_to_conn_ m /\
  deferred_registers_ m' = deferred_registers_ m /\ tm_wf (metadata_ m') /\ forall u, waiting (metadata_ m') u <-> waiting (metadata_ m) u /\ u ∉ task_id_ <$> rs.
Proof.
  revert m. induction rs as [|r rs IH]; intros m Hwf Hrs; cbn [foldl]; [set_solver|].
  destruct (Hrs r) as [Hr [conn Hc]]; [left|]. rewrite Hr.
  set (m1 := assign_task_to_worker e (task_id_ r) (result_worker_id_ r) m).
  assert (H1 : graph_ m1 = graph_ m /\ worker_manager_ m1 = worker_manager_ m /\ worker_to_conn_ m1 = worker_to_conn_ m /\
               deferred_registers_ m1 = deferred_registers_ m /\ metadata_ m1 = TaskManager.assign_task (assign_ms_ e (task_id_ r)) (task_id_ r) (result_worker_id_ r) (metadata_ m)).
  { unfold m1, assign_task_to_worker. rewrite Hc. by destruct (get_task (task_id_ r) (metadata_ m)). }
  destruct H1 as (Hg & Hw & Hcn & Hdr & Hm).
  destruct (assign_waiting (assign_ms_ e (task_id_ r)) (task_id_ r) (result_worker_id_ r) (metadata_ m) Hwf) as [Hwf1 Hwt].
  rewrite <- Hm in *. destruct (IH m1 Hwf1) as (Hg' & Hw' & Hcn' & Hdr' & Hwf' & Hwt').
  { intros r' Hr'. rewrite Hcn. apply Hrs. by right. }
  rewrite Hg', Hw', Hcn', Hdr'. split_and!; try done. intros u. rewrite Hwt', Hwt. set_solver.
Qed.

Lemma rounds_scheduled s rs s' r : rounds s rs s' -> r ∈ rs -> scheduled_ r = true.
Proof. induction 1; set_solver. Qed.

Section Keep.
  Context (c : Config) (e : Env).

Lemma assign_ready_books m : books m -> books (assign_ready c e m).
Proof.
  intros Hb. destruct (Hb) as [Hg Ht Hi Ha Hc Hd]. unfold assign_ready.
  set (s := mkTaskScheduler (graph_ m) (worker_manager_ m) (locality_scheduling_enabled c)).
  assert (Hok : scheduler_ok s) by by split.
  destruct (schedule_all_rounds _ (nows_ e) s Hok (Nat.lt_succ_diag_r _)) as (rs & s' & Es & Hrs).
  unfold schedule_all_available. rewrite Es.
  destruct (rounds_ok _ _ _ Hrs Hok) as (Hin & _). destruct (rounds_idle _ _ _ Hrs Hok) as [[Hg' Hi'] Hidle].
  set (m1 := m <| graph_ := TaskScheduler.graph_ s' |> <| worker_manager_ := manager_ s' |>).
  destruct (assign_all e rs m1) as (H1 & H2 & H3 & H6 & H4 & H5); [done| |].
  { intros r Hr. split; [by eapply rounds_scheduled|]. apply Hc. by apply Hin. }
  unfold books. rewrite H1, H2, H3, H6. split; try done.
  - intros t. rewrite H5. cbn. rewrite (rounds_known _ _ _ Hrs). cbn. by rewrite Ha.
  - intros w Hw%Hidle. by apply Hc.
Qed.

Lemma register_failure_books db t err k m : books m -> books (register_db_failure db t err k m).
Proof. intros Hb. unfold register_db_failure. case_decide; [done|]. by destruct (db_failure_signals_ m !! db). Qed.

Lemma fail_tasks_books ts mk k m : books m -> books (fail_and_persist_tasks c e ts mk k m).
Proof.
  intros Hb. unfold fail_and_persist_tasks. apply foldl_keeps; [done|].
  intros m' t _ Hb'. apply register_failure_books. by apply core_fail.
Qed.

Lemma schedule_books m : books m -> books (schedule_tasks c e m).
Proof.
  intros Hb. unfold schedule_tasks. destruct (draining_ m); [done|].
  apply (hints_books (locality_scheduling_enabled c)) in Hb. apply assign_ready_books in Hb.
  revert Hb. generalize (assign_ready c e (compute_locality_hints (locality_scheduling_enabled c) m)). intros m' Hb.
  assert (Hu : books (fail_unresolvable c e m')) by (unfold fail_unresolvable; case_decide; [by apply fail_tasks_books|done]).
  unfold fail_deadlocked. destruct (fail_unscheduleable_tasks c); [by apply fail_tasks_books|done].
Qed.

Lemma submit_books t spec m m' : submit_task c e t spec m = Some m' -> books m -> books m'.
Proof.
  intros Hs Hb. unfold submit_task in Hs.
  destruct (create_task _ _ _ _ _) as [md|] eqn:Ec; [|done].
  destruct (add_task _ _ _ _ _) as [g|] eqn:Eg; [|done]. injection Hs as <-. apply schedule_books.
  case_decide; exact (core_submit _ _ _ _ _ Hb _ _ _ _ _ _ _ _ Ec Eg).
Qed.

(** ** Reports *)

Lemma broadcast_books msg m : books m -> books (broadcast msg m).
Proof. intros Hb. unfold broadcast. apply foldl_keeps; [done|]. by intros. Qed.

Lemma cache_books o w h p m : books m -> books (update_dependency_location_cache o w h p m).
Proof.
  intros Hb. unfold update_dependency_location_cache. apply foldl_keeps; [done|]. intros m' t _ Hb'. by case_decide.
Qed.

Lemma worker_info_books db w wr m : books m -> books (record_worker_info c db w wr m).
Proof.
  intros Hb. unfold record_worker_info. case_decide as Hw; (case_decide; [done|]); by case_decide.
Qed.

Lemma record_writer_books o w wr m : books m -> books (record_writer c o w wr m).
Proof.
  intros Hb. unfold record_writer. destruct (split_full_name o). case_decide; [done|]. by apply worker_info_books.
Qed.

Lemma persisted_books t m : books m -> books (remove_persisted_task c t m).
Proof.
  intros Hb. unfold remove_persisted_task. destruct (get_task t (metadata_ m)); [|done]. case_decide; [done|].
  destruct (filter _ _); [done|]. unfold rewrite_failed_records. apply foldl_keeps; [done|]. by intros.
Qed.

Lemma master_freeze_books db m : books m -> books (on_master_freeze db m).
Proof.
  intros Hb. unfold on_master_freeze. destruct (running_ m); [|done]. cbn [negb]. case_decide; [done|]. by apply broadcast_books.
Qed.

Lemma freeze_instance_books db m : books m -> books (freeze_instance db m).
Proof.
  intros Hb. unfold freeze_instance. destruct (db_instances_ m !! db) as [d|]; [|done]. destruct (is_frozen_ d); [done|].
  apply (master_freeze_books db (m <| db_instances_ ::= <[db := d <| is_frozen_ := true |>]> |>
    <| frozen_markers_ ::= (fun s => {[db]} ∪ s) |> <| ds_ ::= (fun s => cleanup_temp_entries db (on_flush db s)) |>)).
  done.
Qed.

Lemma commit_frozen_books t m : books m -> books (commit_pending_frozen t m).
Proof.
  intros Hb. unfold commit_pending_frozen. apply foldl_keeps; [done|]. intros m' db _ Hb'.
  apply broadcast_books. unfold cleanup_provenance_for_db. by apply freeze_instance_books.
Qed.

(** A worker that reports is idle afterwards, so it must be connected. *)
Lemma complete_books w m :
  books m -> is_Some (worker_to_conn_ m !! w) -> books (m <| worker_manager_ ::= complete_task w |>).
Proof.
  intros Hb Hw. destruct (Hb) as [Hg Ht Hi Ha Hc Hd]. apply (core_workers _ _ _ _ _ Hb); [by apply alter_ids|].
  intros v [->|Hv]%idle_alter; [done|]. by apply Hc.
Qed.

Lemma task_complete_books msg m :
  books m -> is_Some (worker_to_conn_ m !! tc_worker_id_ msg) -> books (on_task_complete c e msg m).
Proof.
  intros Hb Hw. unfold on_task_complete. destruct (stale_report _ _ m); [done|]. apply schedule_books.
  pose proof (complete_books _ _ Hb Hw) as Hb1. destruct (tc_is_internal_ msg); cbn [negb].
  - apply foldl_keeps; [done|]. intros m' wo _ Hb'. by apply record_writer_books.
  - apply commit_frozen_books, persisted_books.
    destruct (streaming_mode c); [by apply core_finish|].
    set (m2 := foldl _ _ _). assert (Hb2 : books m2); [|by apply core_finish].
    apply foldl_keeps; [done|]. intros m' wo _ Hb'. apply record_writer_books, cache_books. by apply core_ready.
Qed.

Lemma erase_provenance_books db sh m : books m -> books (provenance_erase db sh m).
Proof. intros Hb. unfold provenance_erase. destruct (write_provenance_ m !! db); [|done]. by case_decide. Qed.

Lemma clean_dirty_books o m : books m -> books (clean_dirty o m).
Proof.
  intros Hb. unfold clean_dirty. destruct (split_full_name o) as [db sh].
  assert (Hb1 : books (provenance_erase db sh (m <| ds_ ::= remove_remote_index o |>))) by by apply erase_provenance_books.
  apply (fun H => core_removed _ _ _ _ _ H o) in Hb1. case_decide; [done|].
  unfold broadcast_object_removed. by apply broadcast_books, erase_provenance_books.
Qed.

Lemma task_failed_books msg m :
  books m -> is_Some (worker_to_conn_ m !! tf_worker_id_ msg) -> books (on_task_failed c e msg m).
Proof.
  intros Hb Hw. unfold on_task_failed. destruct (stale_report _ _ m); [done|].
  pose proof (complete_books _ _ Hb Hw) as Hb1. apply schedule_books. unfold rollback_pending_frozen.
  set (m1 := _ <| graph_ ::= _ |>).
  assert (Hm1 : books m1) by by apply core_fail.
  set (m2 := match get_task _ (metadata_ m1) with Some _ => _ | None => _ end).
  assert (Hm2 : books m2) by (unfold m2; destruct (get_task _ _); [by apply register_failure_books|done]).
  change (books (foldl (fun m obj => clean_dirty obj m) m2 (tf_dirty_objects_ msg))).
  apply foldl_keeps; [done|]. intros m' o _. apply clean_dirty_books.
Qed.

(** ** Objects *)

Lemma provenance_register_books db sh h m err m' :
  provenance_check_and_register db sh h m = (err, m') -> books m -> books m'.
Proof.
  unfold provenance_check_and_register. case_decide; [by intros [= <- <-]|].
  destruct (default ∅ (write_provenance_ m !! db) !! sh); [|by intros [= <- <-]]. case_decide; by intros [= <- <-].
Qed.

Lemma write_register_books msg m : books m -> books (do_write_register c e msg m).2.
Proof.
  intros Hb. unfold do_write_register. destruct (_ || _); [done|]. case_decide; [done|].
  destruct (split_full_name _) as [db sh].
  destruct (provenance_check_and_register db sh _ m) as [err m1] eqn:Ep.
  apply provenance_register_books in Ep; [|done]. destruct err; [done|].
  destruct (wr_preliminary_ msg); [done|]. destruct (_ || _); [|done]. cbn [snd]. apply schedule_books.
  set (m2 := record_worker_info _ _ _ _ _). assert (Hm2 : books m2) by by apply worker_info_books, cache_books.
  by apply core_ready.
Qed.

Lemma remove_books db o m : books m -> books (on_master_remove c e db o m).2.
Proof.
  intros Hb. unfold on_master_remove. cbn [snd]. apply schedule_books, erase_provenance_books.
  set (m1 := foldl _ _ _). assert (Hm1 : books m1); [|done]. apply foldl_keeps; [by apply core_removed|].
  intros m' w _ Hb'. destruct (worker_to_conn_ m' !! w); [|done]. by case_decide.
Qed.

Lemma property_books w added removed m : books m -> books (on_worker_property_update c e w added removed m).
Proof.
  intros Hb. apply schedule_books. destruct (Hb) as [Hg Ht Hi Ha Hc Hd]. apply (core_workers _ _ _ _ _ Hb); [by apply alter_ids|].
  intros v (i & Hi' & Hst)%elem_get_idle_workers. apply Hc, elem_get_idle_workers.
  cbn in Hi'. unfold update_capabilities in Hi'. destruct (decide (v = w)) as [->|Hne].
  - rewrite lookup_alter_eq in Hi'. apply fmap_Some in Hi' as (j & Hj & ->). by exists j.
  - rewrite lookup_alter_ne in Hi' by done. by exists i.
Qed.

Lemma freeze_request_books conn db t m : books m -> books (on_database_freeze_request c conn db t m).
Proof.
  intros Hb. unfold on_database_freeze_request. destruct (_ || _); [done|]. destruct (streaming_mode c); [|done].
  by apply broadcast_books, freeze_instance_books.
Qed.

(** ** Workers that leave and register *)

(** [books] but for the connection of one worker. *)
Definition books_but (w : N) (m : MasterAgent) : Prop :=
  core (graph_ m) (metadata_ m) (worker_manager_ m) (<[w := 0%N]> (worker_to_conn_ m)) (deferred_registers_ m).

Lemma books_books_but w m : books m -> books_but w m.
Proof.
  intros Hb. apply (core_workers _ _ _ _ _ Hb); [apply Hb|]. intros v Hv. rewrite lookup_insert.
  case_decide; [done|]. by apply Hb.
Qed.

(** The worker that is excepted is not idle any more. *)
Lemma books_except w m wm' :
  books_but w m -> ids_ok wm' -> w ∉ get_idle_workers wm' ->
  (forall v, v ∈ get_idle_workers wm' -> v ∈ get_idle_workers (worker_manager_ m)) ->
  core (graph_ m) (metadata_ m) wm' (worker_to_conn_ m) (deferred_registers_ m).
Proof.
  intros Hb Hids Hw Hv. apply (core_workers _ _ _ _ _ Hb); [done|]. intros v Hin.
  destruct Hb as [_ _ _ _ Hc _]. specialize (Hc v (Hv v Hin)). rewrite lookup_insert_ne in Hc; [done|]. by intros ->.
Qed.

Lemma forget_conn_books w conn m : books m -> books_but w (forget_conn w conn m).
Proof.
  intros Hb. unfold forget_conn.
  set (m1 := if decide (worker_to_conn_ m !! w = Some conn) then _ else m).
  assert (Hm1 : books_but w m1).
  { unfold m1. case_decide; [|by apply books_books_but]. destruct (Hb) as [Hg Ht Hi Ha Hc Hd].
    apply (core_workers _ _ _ _ _ Hb); [done|]. intros v Hv. rewrite lookup_insert. case_decide; [done|].
    cbn. rewrite lookup_delete_ne by done. by apply Hc. }
  by case_decide.
Qed.

Lemma not_idle_alter f w wm :
  (forall i, ~ (WorkerManager.status_ (f i) = IDLE /\ in_grace_ (f i) = false)) -> w ∉ get_idle_workers (alter f w wm).
Proof.
  intros Hf (i & Hi & Hs & Hgr & _)%elem_get_idle_workers. rewrite lookup_alter_eq in Hi.
  apply fmap_Some in Hi as (j & _ & ->). by apply (Hf j).
Qed.

Lemma books_off f w m :
  books_but w m -> (forall i, worker_id_ (f i) = worker_id_ i) ->
  (forall i, ~ (WorkerManager.status_ (f i) = IDLE /\ in_grace_ (f i) = false)) ->
  books (m <| worker_manager_ ::= alter f w |>).
Proof.
  intros Hb Hid Hf. apply (books_except w m); [done|by apply alter_ids, Hb|by apply not_idle_alter|].
  intros v Hv. destruct (idle_alter f w _ v Hv) as [->|]; [|done]. by destruct (not_idle_alter f w (worker_manager_ m) Hf).
Qed.

Lemma retire_books w st m ts m' :
  worker_status_alive st = false -> retire_worker w st m = (ts, m') -> books_but w m -> books m'.
Proof.
  intros Hst. unfold retire_worker. cbn zeta. intros [= _ <-] Hb. apply foldl_keeps; [|done].
  assert (H : books (m <| worker_manager_ ::= alter (fun i => i <| WorkerManager.status_ := st |>) w |>)); [|exact H].
  apply books_off; [done|done|]. intros i [Hs _]. cbn in Hs. by subst st.
Qed.

Lemma drop_books t err m : books m -> books (drop_task e t err m).
Proof. intros Hb. by apply core_fail. Qed.

Lemma exit_books w m : books_but w m -> books (handle_worker_exit e w m).
Proof.
  intros Hb. unfold handle_worker_exit. destruct (retire_worker w EXITED m) as [ts m1] eqn:Er.
  apply retire_books in Er; [|done|done]. apply foldl_keeps; [done|]. intros m' t _ Hb'.
  destruct (get_task t (metadata_ m')); [|done]. case_decide; [by apply drop_books|done].
Qed.

Lemma requeue_books t m : books m -> books (requeue_task e t m).
Proof.
  intros Hb. unfold requeue_task. destruct (get_task t (metadata_ m)) as [x|] eqn:Ex; [|done].
  destruct (add_task _ _ _ _ _) as [g|] eqn:Eg; [|done]. by eapply core_requeue; [done|by exists x|].
Qed.

Lemma orphan_books w m : books m -> books (fail_orphan_data_objects e w m).
Proof.
  intros Hb. unfold fail_orphan_data_objects. destruct (filter _ _) as [|o os]; [done|].
  apply foldl_keeps.
  - unfold books. cbn -[foldl]. apply (foldl_keeps (fun g => core g (metadata_ m) (worker_manager_ m) (worker_to_conn_ m)
      (deferred_registers_ m))); [done|]. intros g o' _ Hg. by apply core_removed.
  - intros m' t _ Hb'. case_decide; [done|]. destruct (existsb _ _); [by apply drop_books|done].
Qed.

Lemma idx_load_books db ws w m : books m -> books (send_idx_load_to_worker db ws w m).
Proof. intros Hb. unfold send_idx_load_to_worker. by case_decide. Qed.

Lemma takeover_books w m b m' : try_storage_takeover c e w m = (b, m') -> books m -> books m'.
Proof.
  unfold try_storage_takeover. destruct (storage_takeover_enabled c); cbn [negb]; [|by intros [= <- <-]].
  do 3 (case_decide; [by intros [= <- <-]|]). destruct (_ && _); intros [= <- <-] Hb; [done|].
  set (m1 := foldl _ _ _). assert (Hm1 : books m1); [|done]. apply foldl_keeps; [done|]. intros m' p _. apply idx_load_books.
Qed.

Lemma death_books w m : books_but w m -> books (handle_worker_death c e w m).
Proof.
  intros Hb. unfold handle_worker_death. destruct (retire_worker w DEAD m) as [ts m1] eqn:Er.
  apply retire_books in Er; [|done|done].
  set (m2 := if draining_ m1 then _ else _). assert (Hm2 : books m2).
  { unfold m2. destruct (draining_ m1); [apply foldl_keeps; [done|]; intros; by apply drop_books|].
    assert (Hm3 : books (foldl (fun m t => requeue_task e t m) m1 ts)).
    { apply foldl_keeps; [done|]. intros m' t _. apply requeue_books. }
    destruct ts; [done|]. by apply schedule_books. }
  destruct (try_storage_takeover c e w m2) as [b m3] eqn:Et. apply takeover_books in Et; [|done].
  destruct b; [done|]. by apply orphan_books.
Qed.

Lemma grace_deadlines_books now m : books m -> books (check_grace_deadlines c e now m).
Proof. intros Hb. unfold check_grace_deadlines. apply foldl_keeps; [done|]. intros m' w _ Hb'. by apply death_books, books_books_but. Qed.

Lemma takeover_deadlines_books now m : books m -> books (check_takeover_deadlines e now m).
Proof. intros Hb. unfold check_takeover_deadlines. apply foldl_keeps; [done|]. intros m' w _ Hb'. by apply orphan_books. Qed.

Lemma register_entry_idle (wm wm' : workers) w i v :
  wm' = <[w := i]> wm -> v ∈ get_idle_workers wm' -> v = w \/ v ∈ get_idle_workers wm.
Proof.
  intros ->. rewrite !elem_get_idle_workers. destruct (decide (v = w)) as [->|Hne]; [by left|].
  rewrite lookup_insert_ne by done. by right.
Qed.

Lemma accept_books conn msg m : books_but (reg_worker_id_ msg) m -> books (accept_register c e conn msg m).
Proof.
  intros Hb. unfold accept_register. apply schedule_books. set (w := reg_worker_id_ msg) in *.
  set (m0 := m <| conn_to_worker_ ::= _ |> <| worker_to_conn_ ::= _ |>).
  set (m1 := if 0 <? reg_data_server_port_ msg then _ else m0).
  assert (H1 : graph_ m1 = graph_ m /\ metadata_ m1 = metadata_ m /\ worker_manager_ m1 = worker_manager_ m /\
               worker_to_conn_ m1 = <[w := conn]> (worker_to_conn_ m) /\ deferred_registers_ m1 = deferred_registers_ m)
    by (unfold m1; by destruct (0 <? reg_data_server_port_ msg)).
  destruct H1 as (Hg & Hm & Hw & Hcn & Hd). unfold books. cbn. rewrite Hg, Hm, Hw, Hcn, Hd.
  apply (core_workers _ _ _ _ _ Hb).
  - destruct Hb as [_ _ Hi _ _ _]. case_bool_decide.
    + apply (worker_apply_ids_ok (OpReconnect (now_s_ e) w (host_ c) (master_port_ c) (reg_attributes_ msg)
               (reg_hostname_ msg) (reg_ip_address_ msg) (reg_role_ msg))). done.
    + apply (worker_apply_ids_ok (OpRegister (now_s_ e) w (host_ c) (master_port_ c) (reg_attributes_ msg)
               (reg_hostname_ msg) (reg_ip_address_ msg) (reg_role_ msg))). done.
  - intros v Hv. rewrite lookup_insert. case_decide as Ev; [done|].
    destruct Hb as [_ _ _ _ Hc _]. assert (Hin : v ∈ get_idle_workers (worker_manager_ m)).
    { case_bool_decide; [unfold register_worker_reconnect in Hv; destruct (worker_manager_ m !! w)|];
        by destruct (register_entry_idle _ _ _ _ _ eq_refl Hv) as [->|]. }
    specialize (Hc v Hin). by rewrite lookup_insert_ne in Hc.
Qed.

Lemma reject_books w m : books m -> books (reject_deferred_register w m).
Proof.
  intros Hb. unfold reject_deferred_register. destruct (deferred_registers_ m !! w) as [[[conn msg] d]|]; [|done].
  destruct Hb as [Hg Ht Hi Ha Hc Hd]. split; try done. cbn. intros v cn ms dl [_ Hv]%lookup_delete_Some. by eapply Hd.
Qed.

Lemma reject_books_but x w m : books_but x m -> books_but x (reject_deferred_register w m).
Proof.
  intros Hb. unfold reject_deferred_register. destruct (deferred_registers_ m !! w) as [[[conn msg] d]|]; [|done].
  destruct Hb as [Hg Ht Hi Ha Hc Hd]. split; try done. cbn. intros v cn ms dl [_ Hv]%lookup_delete_Some. by eapply Hd.
Qed.

(** A dead connection of the excepted worker is forgotten. *)
Lemma forget_conn_but w conn m : books_but w m -> books_but w (forget_conn w conn m).
Proof.
  intros Hb. unfold forget_conn.
  set (m1 := if decide (worker_to_conn_ m !! w = Some conn) then _ else m).
  assert (Hm1 : books_but w m1).
  { unfold m1. case_decide; [|done]. apply (core_workers _ _ _ _ _ Hb); [apply Hb|].
    intros v Hv. destruct Hb as [_ _ _ _ Hc _]. specialize (Hc v Hv). cbn. rewrite lookup_insert in *.
    case_decide; [done|]. by rewrite lookup_delete_ne. }
  by case_decide.
Qed.

Lemma undefer_but w u m : books_but w m -> books_but w (m <| deferred_registers_ ::= delete u |>).
Proof.
  intros [Hg Ht Hi Ha Hc Hd]. split; try done. cbn. intros v cn ms dl [_ Hv]%lookup_delete_Some. by eapply Hd.
Qed.

(** A registration is accepted, rejected or deferred; what held but for its worker
    still does. *)
Lemma register_books_but probe up conn msg m :
  books_but (reg_worker_id_ msg) m -> books_but (reg_worker_id_ msg) (on_worker_register c e probe up conn msg m).
Proof.
  intros Hb. unfold on_worker_register. set (w := reg_worker_id_ msg) in *.
  set (m0 := m <| shutdown_pending_workers_ ::= _ |> <| exit_confirmed_workers_ ::= _ |>).
  assert (Hm0 : books_but w m0) by exact Hb. clearbody m0.
  assert (Hacc : forall m1, books_but w m1 -> books_but w (accept_register c e conn msg m1))
    by (intros m1 H1; by apply books_books_but, accept_books).
  destruct (worker_to_conn_ m0 !! w) as [existing|]; [|by apply Hacc]. case_decide; [by apply Hacc|].
  destruct (match dup_confirmed_alive_ m0 !! w with Some _ => _ | None => _ end); [by apply reject_books_but|].
  destruct probe; cbn [negb]; [|by apply Hacc, forget_conn_but].
  set (m1 := send existing (WorkerProbe w) m0 <| deferred_registers_ ::= <[w := (conn, msg, now_s_ e + 15)]> |>).
  assert (Hm1 : books_but w m1).
  { destruct Hm0 as [Hg Ht Hi Ha Hc Hd]. split; try done. cbn. intros v cn ms dl.
    intros [[<- [= <- <- _]]|[_ Hv]]%lookup_insert_Some; [done|]. by eapply Hd. }
  destruct up; [done|]. by apply Hacc, forget_conn_but, undefer_but.
Qed.

Lemma register_books probe up conn msg m : books m -> books (on_worker_register c e probe up conn msg m).
Proof.
  intros Hb. unfold on_worker_register. set (w := reg_worker_id_ msg) in *.
  set (m0 := m <| shutdown_pending_workers_ ::= _ |> <| exit_confirmed_workers_ ::= _ |>).
  assert (Hm0 : books m0) by exact Hb. clearbody m0.
  assert (Hacc : forall m1, books_but w m1 -> books (accept_register c e conn msg m1)) by (intros m1; apply accept_books).
  destruct (worker_to_conn_ m0 !! w) as [existing|]; [|by apply Hacc, books_books_but].
  case_decide; [by apply Hacc, books_books_but|].
  destruct (match dup_confirmed_alive_ m0 !! w with Some _ => _ | None => _ end); [by apply reject_books|].
  destruct probe; cbn [negb]; [|by apply Hacc, forget_conn_books].
  set (m1 := send existing (WorkerProbe w) m0 <| deferred_registers_ ::= <[w := (conn, msg, now_s_ e + 15)]> |>).
  assert (Hm1 : books m1).
  { destruct Hm0 as [Hg Ht Hi Ha Hc Hd]. split; try done. cbn. intros v cn ms dl.
    intros [[<- [= <- <- _]]|[_ Hv]]%lookup_insert_Some; [done|]. by eapply Hd. }
  destruct up; [done|]. by apply Hacc, forget_conn_but, undefer_but, books_books_but.
Qed.

Lemma replay_books probe up w m : books_but w m -> books_but w (replay_deferred_register c e probe up w m).
Proof.
  intros Hb. unfold replay_deferred_register. destruct (deferred_registers_ m !! w) as [[[conn msg] d]|] eqn:Ed; [|done].
  assert (Hid : reg_worker_id_ msg = w) by (destruct Hb as [_ _ _ _ _ Hd]; by eapply Hd).
  rewrite <- Hid. apply register_books_but. rewrite Hid. by apply undefer_but.
Qed.

Lemma disconnect_books probe up conn m :
  books m -> conn_to_worker_ m !! conn <> Some 0%N -> books (on_disconnect c e probe up conn m).
Proof.
  intros Hb Hz. unfold on_disconnect. destruct (conn_to_worker_ m !! conn) as [w|]; [|done].
  rewrite decide_False by congruence.
  pose proof (forget_conn_books w conn m Hb) as H1.
  assert (H2 : books_but w (replay_deferred_register c e probe up w (forget_conn w conn m <| dup_confirmed_alive_ ::= delete w |>)))
    by by apply replay_books.
  set (m2 := replay_deferred_register _ _ _ _ _ _) in *. clearbody m2.
  destruct (_ || _); [by apply exit_books|]. destruct (_ || _); [by apply death_books|].
  assert (H : books (m2 <| worker_manager_ ::= alter (fun i => i <| in_grace_ := true |>) w |>)); [|exact H].
  apply books_off; [done|done|]. by intros i [_ ?].
Qed.

Lemma heartbeat_books conn w m :
  books m -> is_Some (worker_to_conn_ m !! w) -> books (on_heartbeat e conn w m).
Proof.
  intros Hb Hw. unfold on_heartbeat. set (m1 := m <| worker_manager_ ::= _ |>).
  assert (Hm1 : books m1 /\ worker_to_conn_ m1 = worker_to_conn_ m).
  { split; [|done]. apply (core_workers _ _ _ _ _ Hb); [apply alter_ids; [done|apply Hb]|].
    intros v [->|Hv]%idle_alter; [done|]. by apply Hb. }
  destruct Hm1 as [Hm1 Hcn]. clearbody m1. rewrite <- Hcn in Hw.
  destruct (get_worker w (worker_manager_ m1)) as [i|]; [|done]. destruct (worker_status_alive _); [done|].
  apply (core_workers _ _ _ _ _ Hm1); [apply alter_ids; [done|apply Hm1]|].
  intros v [->|Hv]%idle_alter; [done|]. by apply Hm1.
Qed.

Lemma map_entries_books clk db path w files m : books m -> books (map_entries clk db path w files m).
Proof. intros Hb. unfold map_entries. apply foldl_keeps; [done|]. intros m' x _ Hb'. by apply core_ready. Qed.

Lemma idx_ack_books clk w db ok ws files m : books m -> books (on_idx_load_ack clk w db ok ws files m).
Proof.
  intros Hb. unfold on_idx_load_ack. destruct ok; [|done]. cbn [negb]. destruct (db_instances_ m !! db); [|done].
  unfold complete_idx_load. set (m1 := rebuild_remote_idx_for_worker _ _ _ _ _ _). assert (Hm1 : books m1); [|done].
  unfold m1, rebuild_remote_idx_for_worker. apply foldl_keeps; [done|]. intros m' x _ Hb'. destruct (files _); [|done]. by apply map_entries_books, map_entries_books.
Qed.

Lemma merged_books clk db target data written opened m : books m -> books (cleanup_after_merge clk db target data written opened m).
Proof.
  intros Hb. unfold cleanup_after_merge. set (m1 := foldl _ _ written). assert (Hm1 : books m1); [|exact Hm1].
  unfold m1. apply foldl_keeps; [by case_decide|]. intros m' p _ Hb'. apply core_ready. by apply foldl_keeps.
Qed.

(** A task that is submitted again is not in the graph, or the submission aborts. *)
Lemma resubmit_books t spec m m' :
  submit_task c e t spec (m <| metadata_ ::= TaskManager.remove_task t |>) = Some m' -> books m -> books m'.
Proof.
  intros Hs Hb. refine (submit_books _ _ _ _ Hs _). destruct Hb as [Hg Ht Hi Ha Hc Hd].
  destruct (erase_waiting t (metadata_ m) Ht) as [Hwf Hw].
  assert (Hn : ~ known (graph_ m) t).
  { unfold submit_task in Hs. destruct (create_task _ _ _ _ _); [|done]. cbn in Hs.
    destruct (add_task _ _ _ _ _) as [g|] eqn:Eg; [|done]. by apply add_task_Some in Eg as [? _]. }
  split; try done. intros u. cbn. rewrite Hw, Ha. destruct (decide (u = t)) as [->|]; [|naive_solver]. rewrite <- Ha. naive_solver.
Qed.

Lemma restart_books path m k m' : restart_failed_tasks c e path m = Some (k, m') -> books m -> books m'.
Proof.
  unfold restart_failed_tasks. case_decide; [by intros [= <- <-]|]. destruct (forallb _ _); [|by intros [= <- <-]]. cbn [negb].
  destruct (resolve_args _ m) as [renames|]; [|by intros [= <- <-]].
  set (specs := _ <$> read_failed_records path m). intros Hr Hb.
  assert (H0 : forall x, Some (m <| failed_tasks_files_ ::= delete path |>) = Some x -> books x) by by intros x [= <-].
  revert Hr H0. generalize (Some (m <| failed_tasks_files_ ::= delete path |>)). intros om Hr H0.
  assert (H1 : forall x, foldl (fun om p => m ← om; submit_task c e p.1 p.2 (m <| metadata_ ::= TaskManager.remove_task p.1 |>)) om specs =
    Some x -> books x).
  { apply (foldl_keeps (fun om => forall x, om = Some x -> books x)); [done|]. intros [y|] p _ Hy x Hx; [|done].
    eapply resubmit_books; [exact Hx|by apply Hy]. }
  destruct (foldl _ om specs) as [y|]; [|done]. injection Hr as <- <-. by apply H1.
Qed.

End Keep.

(** ** Runs of the master *)

(** What the master is made to do; each handler with the readings it takes.  A
    handler is one step of a run: runs are the histories in which handlers do not
    overlap. *)
Inductive master_op :=
  | MSubmit (t : N) (spec : TaskSubmissionSpec)
  | MTick
  | MComplete (msg : TaskCompleteMessage)
  | MFailed (msg : TaskFailedMessage)
  | MWrite (conn : N) (msg : WriteRegisterMessage)
  | MRemove (db name : string)
  | MProperty (w : N) (added removed : list string)
  | MFreeze (conn : N) (db : string) (t : N)
  | MRegister (probe up : bool) (conn : N) (msg : RegisterMessage)
  | MProbeAck (w : N)
  | MDisconnect (probe up : bool) (conn : N)
  | MHeartbeat (conn w : N)
  | MGraceCheck (now : Z)
  | MTakeoverCheck (now : Z)
  | MIdxAck (w : N) (db : string) (ok : bool) (ws : list string) (files : string -> option (list IndexEntry))
  | MRestart (path : string)
  | MMergeCleanup (db target data : string) (exempt : list N)
  | MMerged (db target data : string) (written : list (string * list N)) (opened : Database).

Definition master_apply (c : Config) (e : Env) (op : master_op) (m : MasterAgent) : option MasterAgent :=
  match op with
  | MSubmit t spec => submit_task c e t spec m
  | MTick => Some (schedule_tasks c e m)
  | MComplete msg => Some (on_task_complete c e msg m)
  | MFailed msg => Some (on_task_failed c e msg m)
  | MWrite conn msg => Some (on_write_register c e conn msg m)
  | MRemove db name => Some (on_master_remove c e db name m).2
  | MProperty w a r => Some (on_worker_property_update c e w a r m)
  | MFreeze conn db t => Some (on_database_freeze_request c conn db t m)
  | MRegister probe up conn msg => Some (on_worker_register c e probe up conn msg m)
  | MProbeAck w => Some (on_probe_ack e w m)
  | MDisconnect probe up conn => Some (on_disconnect c e probe up conn m)
  | MHeartbeat conn w => Some (on_heartbeat e conn w m)
  | MGraceCheck now => Some (check_grace_deadlines c e now m)
  | MTakeoverCheck now => Some (check_takeover_deadlines e now m)
  | MIdxAck w db ok ws files => Some (on_idx_load_ack (clk_ e) w db ok ws files m)
  | MRestart path => snd <$> restart_failed_tasks c e path m
  | MMergeCleanup db target data exempt => Some (start_merge_cleanup db target data exempt m)
  | MMerged db target data written opened => Some (cleanup_after_merge (clk_ e) db target data written opened m)
  end.

(** Reports and heartbeats come from workers that are connected, and no worker has
    the id 0. *)
Definition op_sound (op : master_op) (m : MasterAgent) : Prop :=
  match op with
  | MComplete msg => is_Some (worker_to_conn_ m !! tc_worker_id_ msg)
  | MFailed msg => is_Some (worker_to_conn_ m !! tf_worker_id_ msg)
  | MHeartbeat _ w => is_Some (worker_to_conn_ m !! w)
  | MDisconnect _ _ conn => conn_to_worker_ m !! conn <> Some 0%N
  | _ => True
  end.

Inductive master_run (c : Config) : MasterAgent -> list (Env * master_op) -> MasterAgent -> Prop :=
  | master_run_nil m : master_run c m [] m
  | master_run_cons m e op m' ops m'' :
      op_sound op m -> master_apply c e op m = Some m' -> master_run c m' ops m'' ->
      master_run c m ((e, op) :: ops) m''.

Lemma master_apply_books c e op m m' : op_sound op m -> master_apply c e op m = Some m' -> books m -> books m'.
Proof.
  intros Hs Ha Hb. destruct op; cbn in Hs, Ha; try injection Ha as <-.
  - by eapply submit_books.
  - by apply schedule_books.
  - by apply task_complete_books.
  - by apply task_failed_books.
  - pose proof (write_register_books c e msg m Hb) as H. unfold on_write_register.
    by destruct (do_write_register c e msg m).
  - by apply remove_books.
  - by apply property_books.
  - by apply freeze_request_books.
  - by apply register_books.
  - by apply reject_books.
  - by apply disconnect_books.
  - by apply heartbeat_books.
  - by apply grace_deadlines_books.
  - by apply takeover_deadlines_books.
  - by apply idx_ack_books.
  - destruct (restart_failed_tasks c e path m) as [[k x]|] eqn:Er; [|done]. injection Ha as <-. by eapply restart_books.
  - by apply broadcast_books.
  - by apply merged_books.
Qed.

Lemma master_run_books c m ops m' : master_run c m ops m' -> books m -> books m'.
Proof. induction 1; [done|]. intros Hb. by eauto using master_apply_books. Qed.

Definition fresh_master : MasterAgent :=
  mkMasterAgent empty_graph empty_manager ∅ (empty_service (empty_cache 0)) ∅ ∅ ∅ ∅ ∅ ∅ ∅ ∅ ∅ ∅ ∅ ∅ ∅ false true ∅ ∅ ∅ ∅ ∅ ∅ ∅ ∅ ∅ [].

Lemma fresh_books : books fresh_master.
Proof.
  split; try done; [apply empty_graph_wf|apply empty_manager_wf| |].
  - intros u. unfold known, waiting. cbn. rewrite lookup_empty. split; [by intros []|done].
  - by intros w (i & Hi & _)%elem_get_idle_workers.
Qed.

(** C3: When the master's handlers run one after the other, no task is forgotten: from a
    fresh master, whatever submissions, reports, writes, removals, registrations, disconnections, deaths,
    merges and restarts it handles, as long as reports and heartbeats come from workers
    that are connected and no connection belongs to a worker 0 ([op_sound]), a task the registry has as
    pending is pending or ready in the graph, and the graph holds no other task.  The
    claim is about such sequential histories only: the code runs the handlers of different connections in
    parallel, and when a scheduling pass falls between the two halves of a disconnection a task is
    lost ([disconnect_race_loses_task]). *)
Theorem no_task_forgotten c ops m t :
  master_run c fresh_master ops m ->
  (t ∈ get_pending_tasks (graph_ m) \/ t ∈ get_ready_tasks (graph_ m)) <-> task_status_ (metadata_ m) !! t = Some PENDING.
Proof.
  intros Hr. destruct (master_run_books _ _ _ _ Hr fresh_books) as [Hg Ht Hi Ha Hc Hd].
  fold (waiting (metadata_ m) t). rewrite <- Ha, (wf_known _ Hg), elem_get_ready_tasks. unfold get_pending_tasks.
  by rewrite (sort_elem N.le), elem_of_elements.
Qed.

(** ** A small cluster *)

Definition config0 : Config := mkConfig true true 0 120 false 0 0 "/log" "h0" "10.0.0.1" 7000.
Definition env0 : Env := mkEnv clock0 (fun _ => 0) 1 (fun _ => 2) (fun _ => 3) 100 false (fun _ => 0%Q).

Definition db_args : list string := ["__fly_db2__:u1:/p"; "__fly_kwargs__:"].
Definition producer : TaskSubmissionSpec := mkTaskSubmissionSpec "make" "m" db_args [] ["/p:x"] [] (-1)%Q 10 "h1" [] "".
Definition consumer : TaskSubmissionSpec := mkTaskSubmissionSpec "use" "m" db_args ["/p:x"] [] [] (-1)%Q 10 "h2" [] "".
Definition hello (w : N) : RegisterMessage := mkRegisterMessage w [] "h1" "10.0.0.2" HYBRID "10.0.0.2" 8000.

Definition cluster : MasterAgent := fresh_master <| db_uid_index_ := {[ "u1" := "/p" ]} |>.

Definition perform (ops : list master_op) (m : MasterAgent) : option MasterAgent :=
  foldl (fun om op => m ← om; master_apply config0 env0 op m) (Some m) ops.

Definition status_of (t : N) (m : MasterAgent) : option TaskStatus := task_status_ (metadata_ m) !! t.

Example first_task_runs :
  (m ← perform [MRegister true true 5 (hello 1); MSubmit 1 producer; MSubmit 2 consumer] cluster;
   Some (status_of 1 m, status_of 2 m)) = Some (Some RUNNING, Some PENDING).
Proof. vm_compute. reflexivity. Qed.

Lemma no_task_forgotten_witness :
  exists m, master_run config0 fresh_master [(env0, MRegister true true 5 (hello 1)); (env0, MSubmit 1 producer); (env0, MSubmit 2 consumer)] m /\
    ((2%N ∈ get_pending_tasks (graph_ m) \/ 2%N ∈ get_ready_tasks (graph_ m)) <-> task_status_ (metadata_ m) !! 2%N = Some PENDING).
Proof.
  assert (H : exists m, master_run config0 fresh_master
    [(env0, MRegister true true 5 (hello 1)); (env0, MSubmit 1 producer); (env0, MSubmit 2 consumer)] m).
  { eexists. do 3 (eapply master_run_cons; [exact I|vm_compute; reflexivity|]). apply master_run_nil. }
  destruct H as [m H]. exists m. split; [exact H|]. exact (no_task_forgotten _ _ _ 2 H).
Defined.

(** ** Where the books go wrong *)

(** [on_disconnect] takes the connection of a worker away before it takes the
    worker off the scheduler's list.  A scheduling pass of another thread in
    between chooses the worker, finds no connection and gives up after the task
    has left the graph: the task stays pending in the registry and is known to
    nobody, also after the worker is declared dead. *)
Definition in_graph (t : N) (m : MasterAgent) : bool := bool_decide (is_Some (task_dependencies_ (graph_ m) !! t)).

Theorem disconnect_race_loses_task :
  (m ← perform [MRegister true true 5 (hello 1)] cluster;
   m ← submit_task config0 env0 1 producer (forget_conn 1 5 m);
   let m := m <| grace_deadlines_ ::= <[1%N := 220]> |> <| worker_manager_ ::= set_worker_grace 1 true |> in
   let m := check_grace_deadlines config0 env0 220 m in
   Some (status_of 1 m, in_graph 1 m, WorkerManager.status_ <$> worker_manager_ m !! 1%N)) =
  Some (Some PENDING, false, Some DEAD).
Proof. vm_compute. reflexivity. Qed.

(** A registration that waits for the verdict on the older connection is replayed
    by [on_disconnect] of that connection and accepted; the same handler then puts
    the worker into grace.  It gets no task any more and is declared dead when the
    grace is over, although it is connected and its heartbeats arrive. *)
Theorem replayed_worker_declared_dead :
  (m ← perform [MRegister true true 5 (hello 1); MRegister true true 6 (hello 1); MDisconnect true true 5;
                MHeartbeat 6 1; MSubmit 1 producer] cluster;
   let waiting := (worker_to_conn_ m !! 1%N, get_idle_workers (worker_manager_ m), status_of 1 m) in
   let m := check_grace_deadlines config0 env0 220 m in
   Some (waiting, worker_to_conn_ m !! 1%N, WorkerManager.status_ <$> worker_manager_ m !! 1%N)) =
  Some ((Some 6%N, [], Some PENDING), Some 6%N, Some DEAD).
Proof. vm_compute. reflexivity. Qed.

(** A registration on a new connection whose older one is found dead by the probe
    starts the worker afresh: it is idle and gets another task while the one it
    runs is still running on it. *)
Theorem probed_reconnect_forgets_task :
  (m ← perform [MRegister true true 5 (hello 1); MSubmit 1 producer; MRegister false true 6 (hello 1); MSubmit 3 producer] cluster;
   Some (get_task_ids_by_worker 1 (metadata_ m), current_task_id_ <$> worker_manager_ m !! 1%N)) =
  Some ([3%N; 1%N], Some 3%N).
Proof. vm_compute. reflexivity. Qed.

(** Restarting a failed task together with one that depends on it cannot work: the
    dependent was removed from the graph when it failed, so it is never made
    ready; when the producer has written its input and finished, it fails again
    for want of data that is there. *)
Theorem restarted_dependent_fails_again :
  (m ← perform [MRegister true true 5 (hello 1); MSubmit 1 producer; MSubmit 2 consumer;
                MFailed (mkTaskFailedMessage 1 1 "boom" [])] cluster;
   let before := (status_of 1 m, status_of 2 m, rec_task_id_ <$> read_failed_records "/p/failed_tasks.bin" m) in
   m ← perform [MRestart "/p/failed_tasks.bin";
                MWrite 5 (mkWriteRegisterMessage 1 "/p:x" "/p" "h1" "w" 10 false);
                MComplete (mkTaskCompleteMessage 1 1 [mkWrittenObject "/p:x" 10 ""] false)] m;
   Some (before, is_data_ready "/p:x" (graph_ m), status_of 1 m, status_of 2 m,
         error_message_ <$> get_task 2 (metadata_ m))) =
  Some ((Some TaskManager.FAILED, Some TaskManager.FAILED, [1%N; 2%N]), true, Some COMPLETED, Some TaskManager.FAILED,
        Some "Unresolvable data dependencies: [/p:x]").
Proof. vm_compute. reflexivity. Qed.

(** A task that fails because its input is lost with a dead worker leaves no record
    to restart it from and no failure signal for its database. *)
Theorem lost_data_failure_unrecorded :
  (m ← perform [MRegister true true 5 (hello 1); MRegister true true 6 (hello 2);
                MWrite 5 (mkWriteRegisterMessage 1 "/p:x" "/p" "h1" "w" 10 false);
                MSubmit 7 (producer <| required_capabilities_ := ["gpu"] |> <| attribute_timeout_ := 100%Q |>);
                MSubmit 1 (consumer <| required_capabilities_ := ["gpu"] |> <| attribute_timeout_ := 100%Q |>)] cluster;
   let m := check_grace_deadlines config0 env0 220 (on_disconnect config0 env0 true true 5 m) in
   Some (status_of 1 m, error_message_ <$> get_task 1 (metadata_ m),
         read_failed_records "/p/failed_tasks.bin" m, get_db_failure "/p" m)) =
  Some (Some TaskManager.FAILED, Some "data lost: all replicas unavailable (holder worker dead)", [], (false, 0%N, "")).
Proof. vm_compute. reflexivity. Qed.

(** ** Nothing waits in vain *)

Section Waits.
  Context (c : Config) (e : Env).

(** Failing a list of tasks takes exactly them out of the graph. *)
Lemma fail_tasks_pending ts mk k m :
  books m ->
  (forall u, u ∈ pending_tasks_ (graph_ (fail_and_persist_tasks c e ts mk k m)) <-> u ∈ pending_tasks_ (graph_ m) /\ u ∉ ts).
Proof.
  revert m. unfold fail_and_persist_tasks. induction ts as [|t ts IH]; intros m Hb u; cbn [foldl]; [set_solver|].
  rewrite IH by (apply register_failure_books; by apply core_fail).
  set (m1 := register_db_failure _ _ _ _ _).
  assert (Hg : graph_ m1 = DependencyGraph.remove_task t (graph_ m)).
  { unfold m1, register_db_failure. case_decide; [done|]. by destruct (_ !! _). }
  rewrite Hg. destruct (remove_task_fields t (graph_ m)) as (_ & _ & -> & _). set_solver.
Qed.

(** The ready tasks a pass gives up on. *)
Definition deadlocked (m : MasterAgent) (t : N) : Prop :=
  t ∈ get_ready_tasks (graph_ m) /\
  has_worker_with_all_capabilities (capabilities_ (get_task_requirements t (graph_ m))) (worker_manager_ m) = false.

(** C19: After a scheduling pass a task is left pending only while something can still
    make it ready: a task is ready or runs, or the pass has just given up on a
    ready task for want of capabilities (the next pass then fails the pending
    ones). *)
Theorem nothing_waits_in_vain m t :
  books m -> draining_ m = false -> t ∈ get_pending_tasks (graph_ (schedule_tasks c e m)) ->
  let m1 := fail_unresolvable c e (assign_ready c e (compute_locality_hints (locality_scheduling_enabled c) m)) in
  get_ready_tasks (graph_ (schedule_tasks c e m)) <> [] \/
  has_tasks_with_status RUNNING (metadata_ (schedule_tasks c e m)) = true \/
  (fail_unscheduleable_tasks c = true /\ exists u, deadlocked m1 u).
Proof.
  intros Hb Hd Ht m1. unfold schedule_tasks in *. rewrite Hd in *. fold m1 in Ht |- *.
  set (m0 := assign_ready c e (compute_locality_hints (locality_scheduling_enabled c) m)) in *.
  assert (Hm0 : books m0) by by apply assign_ready_books, hints_books.
  assert (Hpend : forall g u, u ∈ get_pending_tasks g <-> u ∈ pending_tasks_ g)
    by (intros g u; unfold get_pending_tasks; by rewrite (sort_elem N.le), elem_of_elements).
  assert (Hmain : t ∈ get_pending_tasks (graph_ m1) ->
    get_ready_tasks (graph_ m1) <> [] \/ has_tasks_with_status RUNNING (metadata_ m1) = true).
  { unfold m1, fail_unresolvable. case_decide as Hcond; intros Hin.
    - rewrite Hpend in Hin. apply fail_tasks_pending in Hin as [Hin Hn]; [|done]. by rewrite Hpend in Hn.
    - destruct (get_ready_tasks (graph_ m0)) eqn:Er; [|by left]. right.
      destruct (has_tasks_with_status RUNNING (metadata_ m0)); [done|]. exfalso. apply Hcond. split; [|done]. intros He.
      rewrite He in Hin. by apply not_elem_of_nil in Hin. }
  unfold fail_deadlocked in *. destruct (fail_unscheduleable_tasks c) eqn:Ef; cbn [negb] in *; [|destruct (Hmain Ht); auto].
  set (l := filter _ _) in *. destruct l as [|u l'] eqn:El; [destruct (Hmain Ht); auto|].
  right. right. split; [done|]. exists u. assert (Hu : u ∈ l) by (rewrite El; left).
  unfold l in Hu. apply list_elem_of_filter in Hu as [(_ & _ & _ & Hw) Hr]. done.
Qed.

End Waits.

Lemma nothing_waits_in_vain_witness :
  exists m, 2%N ∈ get_pending_tasks (graph_ (schedule_tasks config0 env0 m)) /\
    (get_ready_tasks (graph_ (schedule_tasks config0 env0 m)) <> [] \/
     has_tasks_with_status RUNNING (metadata_ (schedule_tasks config0 env0 m)) = true \/
     (fail_unscheduleable_tasks config0 = true /\ exists u, deadlocked (fail_unresolvable config0 env0
        (assign_ready config0 env0 (compute_locality_hints (locality_scheduling_enabled config0) m))) u)).
Proof.
  assert (H : exists m, master_run config0 fresh_master
    [(env0, MRegister true true 5 (hello 1)); (env0, MSubmit 1 producer); (env0, MSubmit 2 consumer)] m /\
    draining_ m = false /\ bool_decide (2%N ∈ get_pending_tasks (graph_ (schedule_tasks config0 env0 m))) = true).
  { eexists. split; [do 3 (eapply master_run_cons; [exact I|vm_compute; reflexivity|]); apply master_run_nil|].
    split; vm_compute; reflexivity. }
  destruct H as (m & Hr & Hd & Hp%bool_decide_eq_true). exists m. split; [exact Hp|].
  refine (nothing_waits_in_vain config0 env0 m 2 _ Hd Hp).
  apply (master_run_books _ _ _ _ Hr). apply fresh_books.
Defined.
