(* ===== verification/MasterSafety.v ===== *)
(** Objects and databases as the master guards them: frozen databases, the
    provenance of writes, what a failed task leaves behind, and the order in which
    an object becomes visible. *)

From stdpp Require Import base gmap strings list option sets fin_maps.
From Stdlib Require Import ZArith QArith Lia.
From S2P Require Import Prelude Bytes ObjectNames DependencyGraph WorkerManager TaskManager TaskScheduler LocalIndex ObjectCache DataIndex Vars MasterState Master MasterTasks.

Open Scope Z_scope.
#[local] Arguments DependencyGraph.remove_task : simpl never.
#[local] Arguments DependencyGraph.mark_data_removed : simpl never.
#[local] Arguments DependencyGraph.mark_data_ready : simpl never.

(** ** What scheduling leaves alone *)

(** The parts of the state that say where objects are and whether they may be
    written. *)
Record view := mkView {
  v_ds : DataService;
  v_provenance : gmap string (gmap string string);
  v_frozen : gset string;
  v_pending_frozen : gmap string N;
  v_ready : gmap string bool
}.

Definition view_of (m : MasterAgent) : view :=
  mkView (ds_ m) (write_provenance_ m) (frozen_dbs_ m) (pending_frozen_dbs_ m) (data_ready_status_ (graph_ m)).

Lemma remove_status t g : data_ready_status_ (DependencyGraph.remove_task t g) = data_ready_status_ g.
Proof. by destruct (remove_task_fields t g) as (_ & _ & _ & _ & -> & _). Qed.

Lemma schedule_loop_status fuel nows s rs s' :
  schedule_all_loop fuel nows s = Some (rs, s') ->
  data_ready_status_ (TaskScheduler.graph_ s') = data_ready_status_ (TaskScheduler.graph_ s).
Proof.
  revert nows s rs. induction fuel as [|fuel IH]; intros nows s rs; cbn; [done|].
  destruct (schedule_next (nows 0%nat) s) as [r s1] eqn:E.
  assert (H1 : data_ready_status_ (TaskScheduler.graph_ s1) = data_ready_status_ (TaskScheduler.graph_ s)).
  { apply schedule_next_spec in E as [(_ & -> & _)|(? & t & ? & _ & _ & _ & _ & ->)]; [done|]. apply remove_status. }
  destruct (scheduled_ r); [|by intros [= <- <-]].
  destruct (schedule_all_loop fuel _ s1) as [[rs1 s2]|] eqn:E2; [|done]. intros [= <- <-].
  rewrite <- H1. by eapply IH.
Qed.

Section View.
  Context (c : Config) (e : Env).

Lemma foldl_view {A} (f : MasterAgent -> A -> MasterAgent) l m :
  (forall m x, view_of (f m x) = view_of m) -> view_of (foldl f m l) = view_of m.
Proof. intros Hf. by apply (foldl_same view_of). Qed.

Lemma hints_view on m : view_of (compute_locality_hints on m) = view_of m.
Proof.
  unfold compute_locality_hints. destruct on; [|done]. apply foldl_view. intros m' t.
  destruct (get_task_dependencies t (graph_ m')); [done|]. unfold view_of. cbn. unfold set_task_locality_hint.
  by destruct (task_requirements_ (graph_ m') !! t).
Qed.

Lemma assign_view t w m : view_of (assign_task_to_worker e t w m) = view_of m.
Proof.
  unfold assign_task_to_worker. destruct (worker_to_conn_ m !! w); [|done]. by destruct (get_task t (metadata_ m)).
Qed.

Lemma assign_ready_view m : view_of (assign_ready c e m) = view_of m.
Proof.
  unfold assign_ready. destruct (schedule_all_available _ _) as [[rs s']|] eqn:E; [|done].
  rewrite foldl_view by (intros m' r; destruct (scheduled_ r); [apply assign_view|done]).
  unfold view_of. cbn. by rewrite (schedule_loop_status _ _ _ _ _ E).
Qed.

Lemma fail_view ts mk k m : view_of (fail_and_persist_tasks c e ts mk k m) = view_of m.
Proof.
  unfold fail_and_persist_tasks. apply foldl_view. intros m' t. unfold register_db_failure.
  case_decide; [unfold view_of; cbn; by rewrite remove_status|].
  destruct (_ !! _); unfold view_of; cbn; by rewrite remove_status.
Qed.

(** Scheduling touches none of it. *)
Lemma schedule_view m : view_of (schedule_tasks c e m) = view_of m.
Proof.
  unfold schedule_tasks. destruct (draining_ m); [done|].
  set (m1 := assign_ready c e (compute_locality_hints (locality_scheduling_enabled c) m)).
  assert (H1 : view_of m1 = view_of m) by (unfold m1; by rewrite assign_ready_view, hints_view).
  rewrite <- H1. clearbody m1. transitivity (view_of (fail_unresolvable c e m1)).
  - unfold fail_deadlocked. destruct (fail_unscheduleable_tasks c); [apply fail_view|done].
  - unfold fail_unresolvable. case_decide; [apply fail_view|done].
Qed.

Lemma cache_view o w h p m : view_of (update_dependency_location_cache o w h p m) = view_of m.
Proof. unfold update_dependency_location_cache. apply foldl_view. intros m' t. by case_decide. Qed.

Lemma worker_info_view db w wr m : view_of (record_worker_info c db w wr m) = view_of m.
Proof. unfold record_worker_info. case_decide; (case_decide; [done|]); by case_decide. Qed.

Lemma broadcast_view msg m : view_of (broadcast msg m) = view_of m.
Proof. unfold broadcast. by apply foldl_view. Qed.

End View.

(** Equal views are equal part by part. *)
Lemma view_parts m m' :
  view_of m' = view_of m ->
  ds_ m' = ds_ m /\ write_provenance_ m' = write_provenance_ m /\ frozen_dbs_ m' = frozen_dbs_ m /\
  pending_frozen_dbs_ m' = pending_frozen_dbs_ m /\ data_ready_status_ (graph_ m') = data_ready_status_ (graph_ m).
Proof. by intros [= -> -> -> -> ->]. Qed.

Lemma schedule_provenance c e m : write_provenance_ (schedule_tasks c e m) = write_provenance_ m.
Proof. by destruct (view_parts _ _ (schedule_view c e m)) as (_ & ? & _). Qed.

Lemma worker_info_provenance c db w wr m : write_provenance_ (record_worker_info c db w wr m) = write_provenance_ m.
Proof. by destruct (view_parts _ _ (worker_info_view c db w wr m)) as (_ & ? & _). Qed.

Lemma cache_provenance o w h p m : write_provenance_ (update_dependency_location_cache o w h p m) = write_provenance_ m.
Proof. by destruct (view_parts _ _ (cache_view o w h p m)) as (_ & ? & _). Qed.

(** ** Registering a write *)

(** The provenance recorded for an object. *)
Definition written_by (db sh : string) (m : MasterAgent) : option string := inner ← write_provenance_ m !! db; inner !! sh.

(** A database no write of this process may enter. *)
Definition closed (db : string) (m : MasterAgent) : Prop := db ∈ frozen_dbs_ m \/ is_Some (pending_frozen_dbs_ m !! db).

Lemma closed_test db m :
  bool_decide (db ∈ frozen_dbs_ m) || bool_decide (is_Some (pending_frozen_dbs_ m !! db)) = true <-> closed db m.
Proof. rewrite orb_true_iff, !bool_decide_eq_true. done. Qed.

Section Register.
  Context (c : Config) (e : Env) (msg : WriteRegisterMessage) (m : MasterAgent).
Let db := wr_db_path_ msg.
Let prov := (split_full_name (wr_object_name_ msg)).1.
Let sh := (split_full_name (wr_object_name_ msg)).2.
Let hash := wr_write_context_hash_ msg.
Let ack := (do_write_register c e msg m).1.
Let m' := (do_write_register c e msg m).2.

Lemma provenance_register_spec :
  hash <> "" ->
  match written_by prov sh m with
  | Some h => if decide (h = hash) then (provenance_check_and_register prov sh hash m).1 = None /\
                written_by prov sh (provenance_check_and_register prov sh hash m).2 = Some hash
              else is_Some (provenance_check_and_register prov sh hash m).1
  | None => (provenance_check_and_register prov sh hash m).1 = None /\
            written_by prov sh (provenance_check_and_register prov sh hash m).2 = Some hash
  end.
Proof.
  intros Hh. unfold provenance_check_and_register, written_by. rewrite decide_False by done.
  destruct (write_provenance_ m !! prov) as [inner|] eqn:Ei; cbn.
  - destruct (inner !! sh) as [h|] eqn:Es; cbn.
    + case_decide; [|done]. cbn. rewrite lookup_insert_eq. cbn. by subst.
    + by rewrite !lookup_insert_eq; cbn; rewrite lookup_insert_eq.
  - rewrite lookup_empty. cbn. rewrite lookup_insert_eq. cbn. by rewrite lookup_insert_eq.
Qed.

(** What registering a write answers, on every branch: a frozen database, a
    missing hash and another writer's object are turned away with their own error;
    any other write is accepted and its hash recorded.  Frozen means frozen by this
    process: see [loaded_frozen_db_writable]. *)
Theorem write_register_answers :
  (closed db m -> wa_success_ ack = false /\ wa_error_type_ ack = WRITE_TO_FROZEN_DB /\ m' = m) /\
  (~ closed db m -> hash = "" -> wa_success_ ack = false /\ wa_error_type_ ack = WRITE_REGISTRATION_FAILED /\ m' = m) /\
  (~ closed db m -> hash <> "" -> (exists h, written_by prov sh m = Some h /\ h <> hash) ->
     wa_success_ ack = false /\ wa_error_type_ ack = WRITE_PROVENANCE_MISMATCH) /\
  (~ closed db m -> hash <> "" -> (forall h, written_by prov sh m = Some h -> h = hash) ->
     wa_success_ ack = true /\ written_by prov sh m' = Some hash).
Proof.
  pose proof (closed_test db m) as Ht. subst ack m'. unfold do_write_register. fold db hash.
  split_and!.
  - intros Hc%Ht. by rewrite Hc.
  - intros Hc Hh. apply not_iff_compat in Ht. rewrite <- Ht, not_true_iff_false in Hc. by rewrite Hc, decide_True.
  - intros Hc Hh (h & Hw & Hne). apply not_iff_compat in Ht. rewrite <- Ht, not_true_iff_false in Hc. rewrite Hc, decide_False by done.
    pose proof (provenance_register_spec Hh) as Hp. rewrite Hw, decide_False in Hp by done. subst prov sh.
    destruct (split_full_name (wr_object_name_ msg)) as [d s]. cbn in Hp.
    destruct (provenance_check_and_register d s hash m) as [[err|] m1]; [done|by destruct Hp].
  - intros Hc Hh Hw. apply not_iff_compat in Ht. rewrite <- Ht, not_true_iff_false in Hc. rewrite Hc, decide_False by done.
    pose proof (provenance_register_spec Hh) as Hp. subst prov sh.
    destruct (split_full_name (wr_object_name_ msg)) as [d s]. cbn in Hp, Hw |- *.
    assert (Hok : (provenance_check_and_register d s hash m).1 = None /\
                  written_by d s (provenance_check_and_register d s hash m).2 = Some hash).
    { destruct (written_by d s m) as [h|]; [|done]. by rewrite decide_True in Hp by auto. }
    destruct (provenance_check_and_register d s hash m) as [err m1]. cbn in Hok. destruct Hok as [-> Hok].
    destruct (wr_preliminary_ msg); [by split|].
    destruct (bool_decide (wr_worker_id_ msg = 0%N) || streaming_mode c); [|by split]. split; [done|]. cbn [snd].
    unfold written_by. by rewrite schedule_provenance, worker_info_provenance, cache_provenance.
Qed.
End Register.

(** ** A frozen database stays frozen *)

Section Frozen.
  Context (db : string).
  Implicit Types (m : MasterAgent).
  Notation P m := (db ∈ frozen_dbs_ m).

Lemma view_frozen m m' : view_of m' = view_of m -> P m -> P m'.
Proof. intros H. by destruct (view_parts _ _ H) as (_ & _ & -> & _). Qed.

Lemma schedule_frozen c e m : P m -> P (schedule_tasks c e m).
Proof. apply view_frozen, schedule_view. Qed.

Lemma broadcast_frozen msg m : P m -> P (broadcast msg m).
Proof. apply view_frozen, broadcast_view. Qed.

Lemma worker_info_frozen c d w wr m : P m -> P (record_worker_info c d w wr m).
Proof. apply view_frozen, worker_info_view. Qed.

Lemma cache_frozen o w h p m : P m -> P (update_dependency_location_cache o w h p m).
Proof. apply view_frozen, cache_view. Qed.

Lemma erase_frozen d sh m : P m -> P (provenance_erase d sh m).
Proof. intros H. unfold provenance_erase. destruct (write_provenance_ m !! d); [|done]. by case_decide. Qed.

Lemma master_freeze_frozen d m : P m -> P (on_master_freeze d m).
Proof.
  intros H. unfold on_master_freeze. destruct (running_ m); [|done]. cbn [negb]. case_decide; [done|].
  apply broadcast_frozen. unfold cleanup_provenance_for_db. cbn. set_solver.
Qed.

Lemma freeze_instance_frozen d m : P m -> P (freeze_instance d m).
Proof.
  intros H. unfold freeze_instance. destruct (db_instances_ m !! d) as [x|]; [|done]. destruct (is_frozen_ x); [done|].
  set (m1 := m <| db_instances_ ::= _ |> <| frozen_markers_ ::= _ |> <| ds_ ::= _ |>).
  exact (master_freeze_frozen d m1 H).
Qed.

Lemma confirm_frozen_frozen d m : P m -> P (confirm_frozen d m).
Proof. intros H. by apply broadcast_frozen, freeze_instance_frozen. Qed.

Lemma commit_frozen t m : P m -> P (commit_pending_frozen t m).
Proof.
  intros H. unfold commit_pending_frozen. apply foldl_keeps; [cbn; set_solver|]. intros m' d _. apply confirm_frozen_frozen.
Qed.

Lemma record_writer_frozen c o w wr m : P m -> P (record_writer c o w wr m).
Proof. intros H. unfold record_writer. destruct (split_full_name o). case_decide; [done|]. by apply worker_info_frozen. Qed.

Lemma persisted_frozen c t m : P m -> P (remove_persisted_task c t m).
Proof.
  intros H. unfold remove_persisted_task. destruct (get_task t (metadata_ m)); [|done]. case_decide; [done|].
  destruct (filter _ _); [done|]. unfold rewrite_failed_records. apply foldl_keeps; [done|]. by intros.
Qed.

Lemma complete_frozen c e msg m : P m -> P (on_task_complete c e msg m).
Proof.
  intros H. unfold on_task_complete. destruct (stale_report _ _ m); [done|]. apply schedule_frozen.
  destruct (tc_is_internal_ msg); cbn [negb].
  - apply foldl_keeps; [done|]. intros m' wo _ H'. by apply record_writer_frozen.
  - apply commit_frozen, persisted_frozen. destruct (streaming_mode c); [done|].
    set (m2 := foldl _ _ _). assert (H2 : P m2); [|exact H2]. apply foldl_keeps; [done|]. intros m' wo _ H'.
    by apply record_writer_frozen, cache_frozen.
Qed.

Lemma failure_frozen d t err k m : P m -> P (register_db_failure d t err k m).
Proof. intros H. unfold register_db_failure. case_decide; [done|]. by destruct (db_failure_signals_ m !! d). Qed.

Lemma clean_dirty_frozen o m : P m -> P (clean_dirty o m).
Proof.
  intros H. unfold clean_dirty. destruct (split_full_name o) as [d sh].
  set (m1 := provenance_erase d sh _). assert (H1 : P m1) by by apply erase_frozen.
  case_decide; [done|]. unfold broadcast_object_removed. by apply broadcast_frozen, erase_frozen.
Qed.

Lemma failed_frozen c e msg m : P m -> P (on_task_failed c e msg m).
Proof.
  intros H. unfold on_task_failed. destruct (stale_report _ _ m); [done|]. apply schedule_frozen.
  unfold rollback_pending_frozen. set (m1 := foldl _ _ _). assert (H1 : P m1); [|exact H1].
  apply foldl_keeps; [|intros m' o _; apply clean_dirty_frozen]. destruct (get_task _ _); [by apply failure_frozen|done].
Qed.

Lemma write_frozen c e msg m : P m -> P (do_write_register c e msg m).2.
Proof.
  intros H. unfold do_write_register. destruct (_ || _); [done|]. case_decide; [done|].
  destruct (split_full_name _) as [d sh].
  assert (Hp1 : P (provenance_check_and_register d sh (wr_write_context_hash_ msg) m).2).
  { unfold provenance_check_and_register. case_decide; [done|]. destruct (_ !! sh); [|done]. by case_decide. }
  destruct (provenance_check_and_register _ _ _ m) as [[err|] m1]; [done|]. cbn in Hp1.
  destruct (wr_preliminary_ msg); [done|]. destruct (_ || _); [|done]. cbn [snd]. apply schedule_frozen.
  set (m2 := record_worker_info _ _ _ _ _). assert (H2 : P m2) by by apply worker_info_frozen, cache_frozen. done.
Qed.

Lemma remove_frozen c e d o m : P m -> P (on_master_remove c e d o m).2.
Proof.
  intros H. unfold on_master_remove. cbn [snd]. apply schedule_frozen, erase_frozen.
  set (m1 := foldl _ _ _). assert (H1 : P m1); [|exact H1]. apply foldl_keeps; [done|].
  intros m' w _ H'. destruct (worker_to_conn_ m' !! w); [|done]. by case_decide.
Qed.

Lemma freeze_request_frozen c conn d t m : P m -> P (on_database_freeze_request c conn d t m).
Proof.
  intros H. unfold on_database_freeze_request. destruct (_ || _); [done|]. destruct (streaming_mode c); [|done].
  apply broadcast_frozen, freeze_instance_frozen. cbn. set_solver.
Qed.

Lemma orphan_frozen e w m : P m -> P (fail_orphan_data_objects e w m).
Proof.
  intros H. unfold fail_orphan_data_objects. destruct (filter _ _); [done|]. apply foldl_keeps; [done|].
  intros m' t _ H'. case_decide; [done|]. by destruct (existsb _ _).
Qed.

Lemma retire_frozen w st m : P m -> P (retire_worker w st m).2.
Proof. intros H. unfold retire_worker. cbn [snd]. by apply foldl_keeps. Qed.

Lemma exit_frozen e w m : P m -> P (handle_worker_exit e w m).
Proof.
  intros H. unfold handle_worker_exit. pose proof (retire_frozen w EXITED m H) as H1.
  destruct (retire_worker w EXITED m) as [ts m1]. apply foldl_keeps; [done|]. intros m' t _ H'.
  destruct (get_task t (metadata_ m')); [|done]. by case_decide.
Qed.

Lemma takeover_frozen c e w m : P m -> P (try_storage_takeover c e w m).2.
Proof.
  intros H. unfold try_storage_takeover. destruct (storage_takeover_enabled c); [|done]. cbn [negb].
  do 3 (case_decide; [done|]). destruct (_ && _); [done|]. cbn.
  set (m1 := foldl _ _ _). assert (Hm1 : P m1); [|exact Hm1]. apply foldl_keeps; [done|].
  intros m' p _ H'. unfold send_idx_load_to_worker. by case_decide.
Qed.

Lemma death_frozen c e w m : P m -> P (handle_worker_death c e w m).
Proof.
  intros H. unfold handle_worker_death. pose proof (retire_frozen w DEAD m H) as H1.
  destruct (retire_worker w DEAD m) as [ts m1]. cbn in H1.
  set (m2 := if draining_ m1 then _ else _). assert (H2 : P m2).
  { unfold m2. destruct (draining_ m1); [by apply foldl_keeps|].
    assert (H3 : P (foldl (fun m t => requeue_task e t m) m1 ts)).
    { apply foldl_keeps; [done|]. intros m' t _ H'. unfold requeue_task. destruct (get_task t _); [|done].
      by destruct (add_task _ _ _ _ _). }
    destruct ts; [done|]. by apply schedule_frozen. }
  pose proof (takeover_frozen c e w m2 H2) as H3. destruct (try_storage_takeover c e w m2) as [b m3].
  destruct b; [done|]. by apply orphan_frozen.
Qed.

Lemma reject_frozen w m : P m -> P (reject_deferred_register w m).
Proof. intros H. unfold reject_deferred_register. by destruct (deferred_registers_ m !! w) as [[[? ?] ?]|]. Qed.

Lemma forget_frozen w conn m : P m -> P (forget_conn w conn m).
Proof. intros H. unfold forget_conn. by repeat case_decide. Qed.

Lemma accept_frozen c e conn msg m : P m -> P (accept_register c e conn msg m).
Proof. intros H. unfold accept_register. apply schedule_frozen. by destruct (0 <? reg_data_server_port_ msg). Qed.

Lemma register_frozen c e pr up conn msg m : P m -> P (on_worker_register c e pr up conn msg m).
Proof.
  intros H. unfold on_worker_register. set (m0 := m <| shutdown_pending_workers_ ::= _ |> <| exit_confirmed_workers_ ::= _ |>).
  assert (H0 : P m0) by exact H. clearbody m0. destruct (worker_to_conn_ m0 !! _) as [x|]; [|by apply accept_frozen].
  case_decide; [by apply accept_frozen|]. destruct (match dup_confirmed_alive_ m0 !! _ with Some _ => _ | None => _ end);
    [by apply reject_frozen|]. destruct pr; cbn [negb]; [|by apply accept_frozen, forget_frozen].
  destruct up; [done|]. by apply accept_frozen, forget_frozen.
Qed.

Lemma disconnect_frozen c e pr up conn m : P m -> P (on_disconnect c e pr up conn m).
Proof.
  intros H. unfold on_disconnect. destruct (conn_to_worker_ m !! conn) as [w|]; [|done].
  assert (H1 : P (forget_conn w conn m)) by by apply forget_frozen. case_decide; [done|].
  set (m2 := replay_deferred_register _ _ _ _ _ _). assert (H2 : P m2).
  { unfold m2, replay_deferred_register. destruct (_ !! w) as [[[? ?] ?]|]; [|done]. by apply register_frozen. }
  clearbody m2. destruct (_ || _); [by apply exit_frozen|]. destruct (_ || _); [by apply death_frozen|]. done.
Qed.

Lemma submit_frozen c e t spec m m' : submit_task c e t spec m = Some m' -> P m -> P m'.
Proof.
  intros Hs H. unfold submit_task in Hs. destruct (create_task _ _ _ _ _) as [md|]; [|done]. cbn in Hs.
  destruct (add_task _ _ _ _ _) as [g|]; [|done]. injection Hs as <-. apply schedule_frozen. by case_decide.
Qed.

Lemma restart_frozen c e path m k m' : restart_failed_tasks c e path m = Some (k, m') -> P m -> P m'.
Proof.
  unfold restart_failed_tasks. case_decide; [by intros [= <- <-]|]. destruct (forallb _ _); [|by intros [= <- <-]]. cbn [negb].
  destruct (resolve_args _ m) as [renames|]; [|by intros [= <- <-]]. set (specs := _ <$> _).
  assert (Hf : P m -> forall x, foldl (fun om p => m ← om; submit_task c e p.1 p.2 (m <| metadata_ ::= TaskManager.remove_task p.1 |>))
    (Some (m <| failed_tasks_files_ ::= delete path |>)) specs = Some x -> P x).
  { intros Hp. apply (foldl_keeps (fun om => forall x, om = Some x -> P x)); [intros x [= <-]; exact Hp|].
    intros [y|] p _ Hy x Hx; [|done]. eapply submit_frozen; [exact Hx|exact (Hy y eq_refl)]. }
  destruct (foldl _ _ specs) as [y|]; [|done]. intros [= <- <-] Hp. by apply Hf.
Qed.

Lemma heartbeat_frozen e conn w m : P m -> P (on_heartbeat e conn w m).
Proof.
  intros H. unfold on_heartbeat. cbn. destruct (get_worker w _) as [i|]; [|done]. by destruct (worker_status_alive _).
Qed.

Lemma idx_ack_frozen clk w d ok ws files m : P m -> P (on_idx_load_ack clk w d ok ws files m).
Proof.
  intros H. unfold on_idx_load_ack. destruct ok; [|done]. cbn [negb]. destruct (db_instances_ m !! d); [|done].
  unfold complete_idx_load. set (m1 := rebuild_remote_idx_for_worker _ _ _ _ _ _). assert (H1 : P m1); [|exact H1].
  unfold m1, rebuild_remote_idx_for_worker. apply foldl_keeps; [done|]. intros m' x _ H'. destruct (files _); [|done].
  unfold map_entries. apply foldl_keeps; [|done]. by apply foldl_keeps.
Qed.

(** The operation ends a merge of the database. *)
Definition merges (op : master_op) : Prop := match op with MMerged d _ _ _ _ => d = db | _ => False end.

Lemma merged_frozen clk d target data written opened m :
  d <> db -> P m -> P (cleanup_after_merge clk d target data written opened m).
Proof.
  intros Hd H. unfold cleanup_after_merge. set (m1 := foldl _ _ written).
  assert (H1 : P m1); [|cbn; set_solver]. unfold m1. apply foldl_keeps; [by case_decide|].
  intros m' p _ H'. cbn. by apply (foldl_keeps (fun m => P m)).
Qed.

Lemma master_apply_frozen c e op m m' : ~ merges op -> master_apply c e op m = Some m' -> P m -> P m'.
Proof.
  intros Hop Ha H. destruct op; cbn in Ha; try injection Ha as <-.
  - by eapply submit_frozen.
  - by apply schedule_frozen.
  - by apply complete_frozen.
  - by apply failed_frozen.
  - pose proof (write_frozen c e msg m H) as H1. unfold on_write_register. by destruct (do_write_register c e msg m).
  - by apply remove_frozen.
  - by apply schedule_frozen.
  - by apply freeze_request_frozen.
  - by apply register_frozen.
  - by apply reject_frozen.
  - by apply disconnect_frozen.
  - by apply heartbeat_frozen.
  - unfold check_grace_deadlines. apply foldl_keeps; [done|]. intros m' w _. apply death_frozen.
  - unfold check_takeover_deadlines. apply foldl_keeps; [done|]. intros m' w _ H'. by apply orphan_frozen.
  - by apply idx_ack_frozen.
  - destruct (restart_failed_tasks c e path m) as [[k x]|] eqn:Er; [|done]. injection Ha as <-. by eapply restart_frozen.
  - by apply broadcast_frozen.
  - by apply merged_frozen.
Qed.

End Frozen.

(** C4: A database this master process has frozen takes no write until it is merged: whatever the master
    handles after the freeze, one handler at a time, short of the end of a merge of this database, a registration for
    the database is refused as frozen and changes nothing; the end of a merge of the
    database lifts the freeze.  The marker of a freeze by an earlier process is not
    looked at. *)
Theorem frozen_until_merged c m ops m' db :
  master_run c m ops m' -> db ∈ frozen_dbs_ m ->
  (Forall (fun p => ~ merges db p.2) ops ->
   forall e msg, wr_db_path_ msg = db ->
    do_write_register c e msg m' =
      (mkWriteRegisterAckMessage (wr_object_name_ msg) db false ("Database frozen: " +:+ db) WRITE_TO_FROZEN_DB, m')) /\
  forall clk target data written opened, ~ closed db (cleanup_after_merge clk db target data written opened m').
Proof.
  intros Hr Hdb. split.
  - intros Hops e msg Hm. assert (Hdb' : db ∈ frozen_dbs_ m').
    { induction Hr; [done|]. apply Forall_cons in Hops as [? ?]. eauto using master_apply_frozen. }
    unfold do_write_register. rewrite Hm. by rewrite bool_decide_true.
  - intros clk target data written opened [H|[t H]]; cbn in H; [set_solver|]. by rewrite lookup_delete_eq in H.
Qed.

Definition write_x (w : N) (hash : string) : WriteRegisterMessage := mkWriteRegisterMessage w "/p:x" "/p" hash "w" 10 false.

Lemma frozen_until_merged_witness :
  exists m, (do_write_register config0 env0 (write_x 1 "h") m).1 =
    mkWriteRegisterAckMessage "/p:x" "/p" false "Database frozen: /p" WRITE_TO_FROZEN_DB.
Proof.
  set (m0 := on_database_freeze_request config0 5 "/p" 0 fresh_master).
  set (ops := [(env0, MRegister true true 5 (hello 1)); (env0, MSubmit 1 producer);
               (env0, MMerged "/q" "/r" "/s" [("/r:y", [1%N])] (mkDatabase "/r" false "w" ∅))]).
  assert (H : exists m, master_run config0 m0 ops m).
  { eexists. do 3 (eapply master_run_cons; [exact I|vm_compute; reflexivity|]). apply master_run_nil. }
  destruct H as [m H]. exists m.
  rewrite (proj1 (frozen_until_merged config0 m0 ops m "/p" H ltac:(vm_compute; reflexivity)));
    [reflexivity| |reflexivity].
  unfold ops. rewrite !Forall_cons, Forall_nil. split_and!; [by intros []|by intros []|discriminate|exact I].
Defined.

(** A master that has loaded a database frozen by an earlier process knows it as
    frozen by its marker, yet registers writes to it: [do_write_register] looks at
    the freezes of this process only. *)
Theorem loaded_frozen_db_writable hash :
  hash <> "" ->
  let files := fun path => if decide (path = "/p/w0.idx") then Some [sample_entry "y" "h"] else None in
  let m := restore_master_idx clock0 "/p" "w0" files (fresh_master <| frozen_markers_ := {[ "/p" ]} |>) in
  is_db_frozen "/p" m = true /\ is_data_ready "/p:y" (graph_ m) = true /\
  wa_success_ (do_write_register config0 env0 (write_x 1 hash) m).1 = true.
Proof. destruct hash; [done|]. intros _. vm_compute. auto. Qed.

Lemma loaded_frozen_db_writable_witness :
  let files := fun path => if decide (path = "/p/w0.idx") then Some [sample_entry "y" "h"] else None in
  is_db_frozen "/p" (restore_master_idx clock0 "/p" "w0" files (fresh_master <| frozen_markers_ := {[ "/p" ]} |>)) = true.
Proof. refine (proj1 (loaded_frozen_db_writable "h" _)). discriminate. Defined.

(** ** What a failed task leaves *)

(** The object is not ready for any task, has no location and no provenance. *)
Definition withdrawn (o : string) (m : MasterAgent) : Prop :=
  is_data_ready o (graph_ m) = false /\ (forall w, ~ holds o w (ds_ m)) /\
  written_by (split_full_name o).1 (split_full_name o).2 m = None.

Lemma view_withdrawn o m m' : view_of m' = view_of m -> withdrawn o m -> withdrawn o m'.
Proof.
  intros H. destruct (view_parts _ _ H) as (H1 & H2 & _ & _ & H5). unfold withdrawn, is_data_ready, written_by.
  by rewrite H1, H2, H5.
Qed.

Lemma erase_written db sh m d s :
  written_by d s (provenance_erase db sh m) = if decide (d = db /\ s = sh) then None else written_by d s m.
Proof.
  unfold provenance_erase, written_by. destruct (write_provenance_ m !! db) as [inner|] eqn:E.
  - case_decide as Ee; cbn.
    + destruct (decide (d = db)) as [->|Hd].
      * rewrite lookup_delete_eq. cbn. case_decide; [done|]. rewrite E. cbn.
        assert (Hs : delete sh inner !! s = None) by by rewrite Ee, lookup_empty.
        by rewrite lookup_delete_ne in Hs by naive_solver.
      * rewrite lookup_delete_ne by done. by rewrite decide_False by naive_solver.
    + destruct (decide (d = db)) as [->|Hd].
      * rewrite lookup_insert_eq. cbn. rewrite E. cbn. destruct (decide (s = sh)) as [->|Hs].
        -- by rewrite lookup_delete_eq, decide_True.
        -- rewrite lookup_delete_ne by done. by rewrite decide_False by naive_solver.
      * rewrite lookup_insert_ne by done. by rewrite decide_False by naive_solver.
  - case_decide as Hd; [|done]. destruct Hd as [-> ->]. by rewrite E.
Qed.

Lemma erase_rest db sh m :
  ds_ (provenance_erase db sh m) = ds_ m /\ graph_ (provenance_erase db sh m) = graph_ m /\
  worker_to_conn_ (provenance_erase db sh m) = worker_to_conn_ m.
Proof. unfold provenance_erase. destruct (write_provenance_ m !! db); [|done]. by case_decide. Qed.

Lemma removed_ready o g o' :
  graph_wf g -> is_data_ready o' (mark_data_removed o g) = if decide (o' = o) then false else is_data_ready o' g.
Proof.
  intros Hg. destruct (mark_data_removed_spec o g Hg) as (_ & [_ _ Hs _] & _). unfold is_data_ready. rewrite Hs. cbn.
  case_decide as Ho; [subst; by rewrite lookup_delete_eq|]. by rewrite lookup_delete_ne.
Qed.

(** One dirty object is withdrawn, and no other one comes back. *)
Lemma clean_dirty_withdraws o m o' :
  books m -> o' = o \/ withdrawn o' m -> withdrawn o' (clean_dirty o m).
Proof.
  intros Hb Ho. unfold clean_dirty. destruct (split_full_name o) as [db sh] eqn:Eo.
  set (m1 := provenance_erase db sh (m <| ds_ ::= remove_remote_index o |>)).
  destruct (erase_rest db sh (m <| ds_ ::= remove_remote_index o |>)) as (Hd1 & Hg1 & _). fold m1 in Hd1, Hg1. cbn in Hd1, Hg1.
  set (m2 := m1 <| graph_ ::= mark_data_removed o |>).
  assert (H2 : withdrawn o' m2).
  { split_and!.
    - cbn. rewrite Hg1, removed_ready by apply Hb. case_decide; [done|]. by destruct Ho as [|[? _]].
    - intros w. cbn. rewrite Hd1, holds_remove_index. intros [Hh Hne]. destruct Ho as [->|(_ & Hn & _)]; [done|]. by apply (Hn w).
    - change (written_by (split_full_name o').1 (split_full_name o').2 m1 = None). unfold m1. rewrite erase_written.
      case_decide; [done|]. destruct Ho as [->|(_ & _ & Hw)]; [|done]. rewrite Eo in *. naive_solver. }
  clearbody m2. case_decide; [done|]. unfold broadcast_object_removed.
  apply (view_withdrawn o' (provenance_erase db sh (m2 <| ds_ ::= remove_remote_index (full_name db sh) |>))); [apply broadcast_view|].
  destruct (erase_rest db sh (m2 <| ds_ ::= remove_remote_index (full_name db sh) |>)) as (Hd3 & Hg3 & _).
  destruct H2 as (Hr & Hh & Hw). split_and!.
  - by rewrite Hg3.
  - intros w. rewrite Hd3. cbn. rewrite holds_remove_index. intros [? _]. by apply (Hh w).
  - rewrite erase_written. by case_decide.
Qed.

(** After a failure report nothing of what the task wrote can be read, found or
    counted as an input: each dirty object is withdrawn from the graph, the index
    and the provenance, and tasks that wait for it are pending again. *)
Theorem failed_task_leaves_nothing c e msg m o :
  books m -> is_Some (worker_to_conn_ m !! tf_worker_id_ msg) -> stale_report (tf_task_id_ msg) (tf_worker_id_ msg) m = false ->
  o ∈ tf_dirty_objects_ msg -> withdrawn o (on_task_failed c e msg m).
Proof.
  intros Hb Hw Hst Ho. unfold on_task_failed. rewrite Hst. eapply view_withdrawn; [apply schedule_view|].
  pose proof (complete_books _ _ Hb Hw) as Hb1.
  set (m1 := _ <| graph_ ::= _ |>). assert (Hm1 : books m1) by by apply core_fail.
  set (m2 := match get_task _ (metadata_ m1) with Some _ => _ | None => _ end).
  assert (Hm2 : books m2) by (unfold m2; destruct (get_task _ _); [by apply register_failure_books|done]).
  clearbody m2. unfold rollback_pending_frozen.
  change (withdrawn o (foldl (fun m obj => clean_dirty obj m) m2 (tf_dirty_objects_ msg))).
  assert (Hgen : forall l m, books m -> (o ∈ l \/ withdrawn o m) -> withdrawn o (foldl (fun m obj => clean_dirty obj m) m l)).
  { induction l as [|x l IH]; intros x0 Hx Hin; cbn [foldl]; [by destruct Hin as [?%elem_of_nil|]|].
    apply IH; [by apply clean_dirty_books|]. destruct Hin as [[->|Hin]%elem_of_cons|Hwd]; [|by left|]; right; apply clean_dirty_withdraws; auto. }
  apply Hgen; auto.
Qed.

Lemma failed_task_leaves_nothing_witness :
  exists m, is_data_ready "/p:x" (graph_ m) = true /\
    withdrawn "/p:x" (on_task_failed config0 env0 (mkTaskFailedMessage 1 1 "boom" ["/p:x"]) m).
Proof.
  assert (H : exists m, master_run config0 fresh_master
    [(env0, MRegister true true 5 (hello 1)); (env0, MSubmit 1 producer); (env0, MWrite 5 (write_x 1 "h1"))] m /\
    is_data_ready "/p:x" (graph_ m) = true /\ worker_to_conn_ m !! 1%N = Some 5%N /\ stale_report 1 1 m = false).
  { eexists. split; [do 3 (eapply master_run_cons; [exact I|vm_compute; reflexivity|]); apply master_run_nil|].
    split_and!; vm_compute; reflexivity. }
  destruct H as (m & Hr & Hd & Hc & Hst). exists m. split; [exact Hd|].
  refine (failed_task_leaves_nothing config0 env0 (mkTaskFailedMessage 1 1 "boom" ["/p:x"]) m "/p:x" _ _ Hst _).
  - apply (master_run_books _ _ _ _ Hr). apply fresh_books.
  - cbn. rewrite Hc. by eexists.
  - by left.
Defined.

(** ** Index loads that fail *)

(** The failure of one worker of a load is forgotten when another worker
    acknowledges: after a worker died the wait ends as if all had loaded, and after
    a failed acknowledgement it never ends. *)
Theorem idx_load_failure_forgotten clk db w1 w2 ws files m :
  w1 <> w2 -> is_Some (db_instances_ m !! db) -> pending_idx_loads_ m !! db = Some (mkPendingIdxLoad 2 {[w1; w2]}) ->
  let dead := settle_idx_loads w1 m in
  let failed := on_idx_load_ack clk w1 db false [] files m in
  idx_load_pending db dead = -1 /\ idx_load_pending db (on_idx_load_ack clk w2 db true ws files dead) = 0 /\
  idx_load_pending db failed = -1 /\ idx_load_pending db (on_idx_load_ack clk w2 db true ws files failed) = 1.
Proof.
  intros Hne [d Hd] Hp dead failed.
  assert (Hreb : forall m, pending_idx_loads_ (rebuild_remote_idx_for_worker clk db ws w2 files m) = pending_idx_loads_ m).
  { intros x. unfold rebuild_remote_idx_for_worker. apply (foldl_same pending_idx_loads_). intros y v.
    destruct (files _); [|done]. unfold map_entries. rewrite !(foldl_same pending_idx_loads_) by done. done. }
  assert (Hack : forall x p, is_Some (db_instances_ x !! db) -> pending_idx_loads_ x !! db = Some p ->
    idx_load_pending db (on_idx_load_ack clk w2 db true ws files x) = Z.of_nat (size (pending_workers_ p ∖ {[w2]}))).
  { intros x p [y Hy] Hx. unfold on_idx_load_ack, idx_load_pending, complete_idx_load. cbn. rewrite Hy. cbn.
    by rewrite lookup_alter_eq, Hreb, Hx. }
  assert (E1 : pending_idx_loads_ dead !! db = Some (mkPendingIdxLoad (-1) ({[w1; w2]} ∖ {[w1]}))).
  { unfold dead, settle_idx_loads. cbn. rewrite lookup_fmap, Hp. cbn. by rewrite decide_True by set_solver. }
  assert (E2 : pending_idx_loads_ failed !! db = Some (mkPendingIdxLoad (-1) {[w1; w2]})).
  { unfold failed, on_idx_load_ack, complete_idx_load. cbn. by rewrite lookup_alter_eq, Hp. }
  split_and!.
  - unfold idx_load_pending. by rewrite E1.
  - rewrite (Hack dead _ (ex_intro _ d Hd) E1). cbn. replace (({[w1; w2]} ∖ {[w1]}) ∖ {[w2]}) with (∅ : gset N) by set_solver. done.
  - unfold idx_load_pending. by rewrite E2.
  - rewrite (Hack failed _ (ex_intro _ d Hd) E2). cbn. replace ({[w1; w2]} ∖ {[w2]}) with ({[w1]} : gset N) by set_solver.
    by rewrite size_singleton.
Qed.

Lemma idx_load_failure_forgotten_witness :
  let m := fresh_master <| db_instances_ := {[ "/p" := mkDatabase "/p" false "w" ∅ ]} |>
             <| pending_idx_loads_ := {[ "/p" := mkPendingIdxLoad 2 {[1%N; 2%N]} ]} |> in
  idx_load_pending "/p" (on_idx_load_ack clock0 2 "/p" true [] (fun _ => None) (settle_idx_loads 1 m)) = 0.
Proof.
  intros m. refine (proj1 (proj2 (idx_load_failure_forgotten clock0 "/p" 1 2 [] (fun _ => None) m _ _ _))).
  - discriminate.
  - by eexists.
  - reflexivity.
Defined.
