(* ===== verification/WorkerReports.v ===== *)
(** How a worker reports finished tasks to the master (src/agent/cpp/worker_agent.cpp):
    sent at once while it is registered, kept in a queue while it is not, and
    flushed when its registration is confirmed.

    The connection is part of the state: messages on it are delivered in order,
    and what was not delivered when it breaks or is closed is lost.  The reactor's
    [send] on a dead connection fails, and the code does not look at the result.

    [send_master_or_buffer] takes no lock: it reads two flags and then sends or
    queues, while the handlers of the registration change the flags and flush the
    queue.  A run is a sequence of these single actions of any number of threads. *)

From stdpp Require Import base gmap strings list option.
From Stdlib Require Import ZArith Lia Permutation.
From S2P Require Import Prelude Bytes ObjectNames DataIndex MasterState Master MasterTasks.

Open Scope Z_scope.

Inductive PendingReport :=
  | ReportComplete (m : TaskCompleteMessage)
  | ReportFailed (m : TaskFailedMessage).

Record WorkerLink := mkWorkerLink {
  running_ : bool;
  registered_ : bool;
  reconnecting_ : bool;
  pending_reports_ : list PendingReport;
  (** the connection of [master_conn_]: whether it is up, and what is on it *)
  up_ : bool;
  on_wire_ : list PendingReport;
  (** what the master has got, and what was lost *)
  delivered_ : list PendingReport;
  lost_ : list PendingReport
}.
#[export] Instance set_running_WorkerLink : Setter running_ :=
  fun h x => mkWorkerLink (h (running_ x)) (registered_ x) (reconnecting_ x) (pending_reports_ x) (up_ x) (on_wire_ x) (delivered_ x) (lost_ x).
Arguments set_running_WorkerLink h x /.
#[export] Instance set_registered_WorkerLink : Setter registered_ :=
  fun h x => mkWorkerLink (running_ x) (h (registered_ x)) (reconnecting_ x) (pending_reports_ x) (up_ x) (on_wire_ x) (delivered_ x) (lost_ x).
Arguments set_registered_WorkerLink h x /.
#[export] Instance set_reconnecting_WorkerLink : Setter reconnecting_ :=
  fun h x => mkWorkerLink (running_ x) (registered_ x) (h (reconnecting_ x)) (pending_reports_ x) (up_ x) (on_wire_ x) (delivered_ x) (lost_ x).
Arguments set_reconnecting_WorkerLink h x /.
#[export] Instance set_pending_reports_WorkerLink : Setter pending_reports_ :=
  fun h x => mkWorkerLink (running_ x) (registered_ x) (reconnecting_ x) (h (pending_reports_ x)) (up_ x) (on_wire_ x) (delivered_ x) (lost_ x).
Arguments set_pending_reports_WorkerLink h x /.
#[export] Instance set_up_WorkerLink : Setter up_ :=
  fun h x => mkWorkerLink (running_ x) (registered_ x) (reconnecting_ x) (pending_reports_ x) (h (up_ x)) (on_wire_ x) (delivered_ x) (lost_ x).
Arguments set_up_WorkerLink h x /.
#[export] Instance set_on_wire_WorkerLink : Setter on_wire_ :=
  fun h x => mkWorkerLink (running_ x) (registered_ x) (reconnecting_ x) (pending_reports_ x) (up_ x) (h (on_wire_ x)) (delivered_ x) (lost_ x).
Arguments set_on_wire_WorkerLink h x /.
#[export] Instance set_delivered_WorkerLink : Setter delivered_ :=
  fun h x => mkWorkerLink (running_ x) (registered_ x) (reconnecting_ x) (pending_reports_ x) (up_ x) (on_wire_ x) (h (delivered_ x)) (lost_ x).
Arguments set_delivered_WorkerLink h x /.
#[export] Instance set_lost_WorkerLink : Setter lost_ :=
  fun h x => mkWorkerLink (running_ x) (registered_ x) (reconnecting_ x) (pending_reports_ x) (up_ x) (on_wire_ x) (delivered_ x) (h (lost_ x)).
Arguments set_lost_WorkerLink h x /.

(** [reactor_->send(master_conn_, r)] *)
Definition send_report (r : PendingReport) (l : WorkerLink) : WorkerLink :=
  if up_ l then l <| on_wire_ ::= (fun q => q ++ [r]) |> else l <| lost_ ::= (fun q => q ++ [r]) |>.

(** The test of [send_master_or_buffer]. *)
Definition can_send (l : WorkerLink) : bool := negb (reconnecting_ l) && registered_ l.

Definition send_master_or_buffer (r : PendingReport) (l : WorkerLink) : WorkerLink :=
  if can_send l then send_report r l else l <| pending_reports_ ::= (fun q => q ++ [r]) |>.

(** [initiate_shutdown]: registration ends and the connection is closed. *)
Definition initiate_shutdown (l : WorkerLink) : WorkerLink :=
  l <| running_ := false |> <| registered_ := false |> <| up_ := false |>
    <| lost_ ::= (fun q => q ++ on_wire_ l) |> <| on_wire_ := [] |>.

(** [on_disconnect]; [grace] is [worker_reconnect_timeout].  The event of a
    connection that was replaced is ignored: the current one is still up. *)
Definition on_disconnect (grace : Z) (l : WorkerLink) : WorkerLink :=
  if up_ l then l
  else if grace <=? 0 then initiate_shutdown l
  else if reconnecting_ l then l
  else l <| reconnecting_ := true |> <| registered_ := false |>.

(** The steps of [reconnect_loop]: a new connection, or the end of the grace. *)
Definition reconnected (l : WorkerLink) : WorkerLink :=
  if reconnecting_ l && running_ l then l <| up_ := true |> else l.

Definition grace_expired (l : WorkerLink) : WorkerLink :=
  if reconnecting_ l && running_ l then initiate_shutdown (l <| reconnecting_ := false |>) else l.

(** The network: the connection breaks, or the next message arrives. *)
Definition break (l : WorkerLink) : WorkerLink :=
  l <| up_ := false |> <| lost_ ::= (fun q => q ++ on_wire_ l) |> <| on_wire_ := [] |>.

Definition deliver (l : WorkerLink) : WorkerLink :=
  match on_wire_ l with
  | [] => l
  | r :: q => l <| on_wire_ := q |> <| delivered_ ::= (fun d => d ++ [r]) |>
  end.

(** ** Threads *)

(** The link and the reports in the hands of threads: [reconnecting_] was read as
    false and [registered_] is still to be read; both tests said to send; a test
    said to queue; drained from the queue by a flush.  [acked_] counts the handlers
    of an acknowledgement that are about to flush. *)
Record Reporters := mkReporters {
  the_link : WorkerLink;
  testing_ : list PendingReport;
  sending_ : list PendingReport;
  queuing_ : list PendingReport;
  flushing_ : list PendingReport;
  acked_ : nat
}.
#[export] Instance set_the_link_Reporters : Setter the_link :=
  fun h x => mkReporters (h (the_link x)) (testing_ x) (sending_ x) (queuing_ x) (flushing_ x) (acked_ x).
Arguments set_the_link_Reporters h x /.
#[export] Instance set_testing_Reporters : Setter testing_ :=
  fun h x => mkReporters (the_link x) (h (testing_ x)) (sending_ x) (queuing_ x) (flushing_ x) (acked_ x).
Arguments set_testing_Reporters h x /.
#[export] Instance set_sending_Reporters : Setter sending_ :=
  fun h x => mkReporters (the_link x) (testing_ x) (h (sending_ x)) (queuing_ x) (flushing_ x) (acked_ x).
Arguments set_sending_Reporters h x /.
#[export] Instance set_queuing_Reporters : Setter queuing_ :=
  fun h x => mkReporters (the_link x) (testing_ x) (sending_ x) (h (queuing_ x)) (flushing_ x) (acked_ x).
Arguments set_queuing_Reporters h x /.
#[export] Instance set_flushing_Reporters : Setter flushing_ :=
  fun h x => mkReporters (the_link x) (testing_ x) (sending_ x) (queuing_ x) (h (flushing_ x)) (acked_ x).
Arguments set_flushing_Reporters h x /.
#[export] Instance set_acked_Reporters : Setter acked_ :=
  fun h x => mkReporters (the_link x) (testing_ x) (sending_ x) (queuing_ x) (flushing_ x) (h (acked_ x)).
Arguments set_acked_Reporters h x /.

Definition snoc (r : PendingReport) (q : list PendingReport) : list PendingReport := q ++ [r].

(** [send_master_or_buffer]: the first load of its test. *)
Definition read_reconnecting (r : PendingReport) (s : Reporters) : Reporters :=
  if reconnecting_ (the_link s) then s <| queuing_ ::= snoc r |> else s <| testing_ ::= snoc r |>.

(** The second load, by the thread at position [i]. *)
Definition read_registered (i : nat) (s : Reporters) : Reporters :=
  match testing_ s !! i with
  | None => s
  | Some r =>
      let s := s <| testing_ ::= delete i |> in
      if registered_ (the_link s) then s <| sending_ ::= snoc r |> else s <| queuing_ ::= snoc r |>
  end.

Definition do_send (i : nat) (s : Reporters) : Reporters :=
  match sending_ s !! i with
  | None => s
  | Some r => s <| sending_ ::= delete i |> <| the_link ::= send_report r |>
  end.

Definition do_push (i : nat) (s : Reporters) : Reporters :=
  match queuing_ s !! i with
  | None => s
  | Some r => s <| queuing_ ::= delete i |> <| the_link ::= fun l => l <| pending_reports_ ::= snoc r |> |>
  end.

(** [on_register_ack] up to the end of its critical section: refused as a
    duplicate, stale, or confirmed; a confirmed one goes on to flush. *)
Definition on_register_ack (duplicate : bool) (s : Reporters) : Reporters :=
  if duplicate then s <| the_link ::= initiate_shutdown |>
  else if negb (up_ (the_link s)) then s
  else s <| the_link ::= fun l => l <| registered_ := true |> <| reconnecting_ := false |> |> <| acked_ ::= S |>.

(** [flush_pending_reports]: the queue is drained, then each report is sent. *)
Definition flush_drain (s : Reporters) : Reporters :=
  match acked_ s with
  | O => s
  | S n => s <| acked_ := n |> <| flushing_ ::= (fun q => q ++ pending_reports_ (the_link s)) |>
             <| the_link ::= fun l => l <| pending_reports_ := [] |> |>
  end.

Definition flush_send (i : nat) (s : Reporters) : Reporters :=
  match flushing_ s !! i with
  | None => s
  | Some r => s <| flushing_ ::= delete i |> <| the_link ::= send_report r |>
  end.

(** ** Runs *)

Inductive report_op :=
  | Report (r : PendingReport)
  | ReadRegistered (i : nat)
  | Send (i : nat)
  | Push (i : nat)
  | Ack (duplicate : bool)
  | FlushDrain
  | FlushSend (i : nat)
  | Disconnected (grace : Z)
  | Reconnected
  | GiveUp
  | Break
  | Deliver.

Definition report_step (op : report_op) (s : Reporters) : Reporters :=
  match op with
  | Report r => read_reconnecting r s
  | ReadRegistered i => read_registered i s
  | Send i => do_send i s
  | Push i => do_push i s
  | Ack d => on_register_ack d s
  | FlushDrain => flush_drain s
  | FlushSend i => flush_send i s
  | Disconnected g => s <| the_link ::= on_disconnect g |>
  | Reconnected => s <| the_link ::= reconnected |>
  | GiveUp => s <| the_link ::= grace_expired |>
  | Break => s <| the_link ::= break |>
  | Deliver => s <| the_link ::= deliver |>
  end.

Definition report_run (ops : list report_op) (s : Reporters) : Reporters := foldl (fun s op => report_step op s) s ops.

Definition fresh_link : WorkerLink := mkWorkerLink true false false [] true [] [] [].

Definition fresh_reporters : Reporters := mkReporters fresh_link [] [] [] [] 0.

(** The reports a run makes, in order. *)
Definition made (ops : list report_op) : list PendingReport :=
  omap (fun op => match op with Report r => Some r | _ => None end) ops.

(** What a thread has in its hands. *)
Definition held (s : Reporters) : list PendingReport := testing_ s ++ sending_ s ++ queuing_ s ++ flushing_ s.

(** What has arrived, is on the connection, in the queue or in a thread's hands. *)
Definition kept (s : Reporters) : list PendingReport :=
  delivered_ (the_link s) ++ on_wire_ (the_link s) ++ pending_reports_ (the_link s) ++ held s.

(** The steps that close the connection. *)
Definition ends_connection (op : report_op) : bool :=
  match op with Break | GiveUp | Ack true => true | _ => false end.

Lemma report_run_app ops ops' s : report_run (ops ++ ops') s = report_run ops' (report_run ops s).
Proof. apply foldl_app. Qed.

(** The actions of one call, uninterrupted, are [send_master_or_buffer]. *)
Lemma uninterrupted_report r s :
  report_run [Report r; ReadRegistered (length (testing_ s)); Send (length (sending_ s)); Push (length (queuing_ s))] s =
  s <| the_link ::= send_master_or_buffer r |>.
Proof.
  assert (Hdel : forall q, delete (length q) (snoc r q) = q).
  { intros q. unfold snoc. rewrite delete_middle. apply app_nil_r. }
  assert (Hat : forall q, snoc r q !! length q = Some r) by (intros q; by apply list_lookup_middle).
  assert (Hno : forall q : list PendingReport, q !! length q = None) by (intros q; by apply lookup_ge_None).
  destruct s as [[ru re rc p u w d lo] ts ss qs fs a]. unfold report_run, send_master_or_buffer, can_send.
  cbn [foldl report_step]. unfold read_reconnecting. cbn. destruct rc; cbn.
  - unfold read_registered. cbn. rewrite Hno. unfold do_send. cbn. rewrite Hno. unfold do_push. cbn. by rewrite Hat, Hdel.
  - unfold read_registered. cbn. rewrite Hat, Hdel. destruct re; cbn.
    + unfold do_send. cbn. rewrite Hat, Hdel. unfold do_push. cbn. by rewrite Hno.
    + unfold do_send. cbn. rewrite Hno. unfold do_push. cbn. by rewrite Hat, Hdel.
Qed.

(** ** Nothing appears or disappears *)

(** The list around the element that is taken from it. *)
Ltac taken E := apply list_elem_of_split_length in E as (? & ? & -> & ->); cbn; rewrite !delete_middle.

(** A step takes every report from one place to one place. *)
Lemma step_conserves op s :
  made [op] ++ kept s ++ lost_ (the_link s) ≡ₚ kept (report_step op s) ++ lost_ (the_link (report_step op s)).
Proof.
  destruct s as [l ts ss qs fs a]. unfold kept, held. destruct op; cbn [made omap list_omap report_step app].
  - unfold read_reconnecting, snoc. cbn. destruct (reconnecting_ l); cbn; solve_Permutation.
  - unfold read_registered, snoc. cbn. destruct (ts !! i) as [r|] eqn:E; [|done]. taken E.
    destruct (registered_ l); cbn; solve_Permutation.
  - unfold do_send. cbn. destruct (ss !! i) as [r|] eqn:E; [|done]. taken E. cbn.
    unfold send_report. destruct (up_ l); cbn; solve_Permutation.
  - unfold do_push, snoc. cbn. destruct (qs !! i) as [r|] eqn:E; [|done]. taken E. cbn.
    solve_Permutation.
  - unfold on_register_ack. cbn. destruct duplicate; [cbn; solve_Permutation|].
    by destruct (up_ l).
  - unfold flush_drain. cbn. destruct a; [done|]. cbn. solve_Permutation.
  - unfold flush_send. cbn. destruct (fs !! i) as [r|] eqn:E; [|done]. taken E. cbn.
    unfold send_report. destruct (up_ l); cbn; solve_Permutation.
  - unfold on_disconnect. cbn. destruct (up_ l); [done|]. destruct (grace <=? 0); [cbn; solve_Permutation|]. by destruct (reconnecting_ l).
  - unfold reconnected. cbn. by destruct (reconnecting_ l && running_ l).
  - unfold grace_expired. cbn. destruct (reconnecting_ l && running_ l); [|done]. cbn. solve_Permutation.
  - cbn. solve_Permutation.
  - unfold deliver. cbn. destruct (on_wire_ l) as [|r q] eqn:E; cbn; [by rewrite E|]. solve_Permutation.
Qed.
Lemma run_conserves ops s :
  made ops ++ kept s ++ lost_ (the_link s) ≡ₚ kept (report_run ops s) ++ lost_ (the_link (report_run ops s)).
Proof.
  revert s. induction ops as [|op ops IH]; intros s; [done|].
  change (report_run (op :: ops) s) with (report_run ops (report_step op s)). etrans; [|apply IH].
  etrans; [|apply Permutation_app_head, step_conserves].
  replace (made (op :: ops)) with (made [op] ++ made ops) by (unfold made; by rewrite <- omap_app). solve_Permutation.
Qed.

(** As long as the connection is up, nothing is lost. *)
Lemma step_up op s :
  ends_connection op = false -> up_ (the_link s) = true ->
  up_ (the_link (report_step op s)) = true /\ lost_ (the_link (report_step op s)) = lost_ (the_link s).
Proof.
  intros Hop Hu. destruct op as [r|i|i|i|d| |i|g| | | |]; cbn [report_step]; try done.
  - unfold read_reconnecting. by destruct (reconnecting_ _).
  - unfold read_registered. destruct (testing_ s !! i); [|done]. cbn. by destruct (registered_ _).
  - unfold do_send. destruct (sending_ s !! i); [|done]. cbn. unfold send_report. by rewrite Hu.
  - unfold do_push. by destruct (queuing_ s !! i).
  - destruct d; [done|]. unfold on_register_ack. by rewrite Hu.
  - unfold flush_drain. by destruct (acked_ s).
  - unfold flush_send. destruct (flushing_ s !! i); [|done]. cbn. unfold send_report. by rewrite Hu.
  - cbn. unfold on_disconnect. by rewrite Hu.
  - cbn. unfold reconnected. by destruct (_ && _).
  - cbn. unfold deliver. by destruct (on_wire_ (the_link s)).
Qed.

Lemma run_up ops s :
  Forall (fun op => ends_connection op = false) ops -> up_ (the_link s) = true ->
  up_ (the_link (report_run ops s)) = true /\ lost_ (the_link (report_run ops s)) = lost_ (the_link s).
Proof.
  intros Hops. revert s. induction Hops as [|op ops Hop _ IH]; intros s Hu; [done|].
  destruct (step_up op s Hop Hu) as [H1 H2]. destruct (IH _ H1) as [H3 H4]. split; [done|]. etrans; [exact H4|exact H2].
Qed.

(** ** A connection that holds *)

(** Steps of the worker and of the network that make no report and end no
    connection. *)
Definition quiet (ops : list report_op) : Prop :=
  Forall (fun op => ends_connection op = false) ops /\ made ops = [].

(** The actions every report is away from the master. *)
Definition distance (s : Reporters) : nat :=
  5 * length (testing_ s) + 4 * length (sending_ s) + 4 * length (queuing_ s) +
  3 * length (pending_reports_ (the_link s)) + 2 * length (flushing_ s) + length (on_wire_ (the_link s)).

(** On a connection that is up some action brings a report nearer; a report in
    the queue needs a confirmation of the registration. *)
Lemma nearer s :
  up_ (the_link s) = true -> distance s <> 0%nat ->
  exists ops, quiet ops /\ (distance (report_run ops s) < distance s)%nat.
Proof.
  intros Hu Hd. destruct s as [[ru re rc p u w d lo] ts ss qs fs a]. cbn in Hu. subst u. unfold distance in *. cbn in Hd.
  destruct ts as [|r ts].
  2: { exists [ReadRegistered 0]. split; [by repeat constructor|]. cbn. unfold read_registered. cbn.
       destruct re; cbn; unfold snoc; rewrite length_app; cbn; lia. }
  destruct ss as [|r ss].
  2: { exists [Send 0]. split; [by repeat constructor|]. cbn. rewrite length_app. cbn. lia. }
  destruct qs as [|r qs].
  2: { exists [Push 0]. split; [by repeat constructor|]. cbn. unfold snoc. rewrite length_app. cbn. lia. }
  destruct fs as [|r fs].
  2: { exists [FlushSend 0]. split; [by repeat constructor|]. cbn. rewrite length_app. cbn. lia. }
  destruct w as [|r w].
  2: { exists [Deliver]. split; [by repeat constructor|]. cbn. lia. }
  exists [Ack false; FlushDrain]. split; [by repeat constructor|]. cbn in *. lia.
Qed.

Lemma arrived s : distance s = 0%nat -> kept s = delivered_ (the_link s).
Proof.
  unfold distance, kept, held. intros Hd.
  rewrite (nil_length_inv (testing_ s)), (nil_length_inv (sending_ s)), (nil_length_inv (queuing_ s)),
    (nil_length_inv (pending_reports_ (the_link s))), (nil_length_inv (flushing_ s)), (nil_length_inv (on_wire_ (the_link s))) by lia.
  by rewrite !app_nil_r.
Qed.

Lemma quiet_keeps ops s :
  quiet ops -> up_ (the_link s) = true -> up_ (the_link (report_run ops s)) = true /\ kept (report_run ops s) ≡ₚ kept s.
Proof.
  intros [Hq Hm] Hu. destruct (run_up _ _ Hq Hu) as [Hu' Hl]. split; [done|].
  pose proof (run_conserves ops s) as H. rewrite Hm, Hl in H. cbn [app] in H. symmetry. by apply Permutation_app_inv_r in H.
Qed.

Lemma all_arrive s :
  up_ (the_link s) = true -> exists ops, quiet ops /\ delivered_ (the_link (report_run ops s)) ≡ₚ kept s.
Proof.
  remember (distance s) as n eqn:En. revert s En. induction n as [n IH] using lt_wf_ind. intros s -> Hu.
  destruct (decide (distance s = 0%nat)) as [Hz|Hz].
  - exists []. split; [done|]. cbn. by rewrite arrived.
  - destruct (nearer s Hu Hz) as (ops & Hq & Hlt). destruct (quiet_keeps ops s Hq Hu) as [Hu' Hk].
    destruct (IH _ Hlt _ eq_refl Hu') as (ops' & [Hq1 Hq2] & Hd). exists (ops ++ ops'). split.
    + destruct Hq as [Hf Hm]. split; [by apply Forall_app|]. unfold made in *. by rewrite omap_app, Hm, Hq2.
    + rewrite report_run_app. by etrans.
Qed.

(** C30: No report of a finished task is duplicated or forgotten.  However any number
    of reporting threads, which test the flags and act without a lock, registrations, flushes, breaks,
    reconnections and deliveries interleave: every report made is in exactly one place, with the master, on the
    connection, in the queue, in the hands of a thread or lost; none is lost in a run
    in which no connection breaks and the worker does not shut down; and from any state with
    a connection up, the actions that are due and one more confirmation of
    the registration bring every report that is not lost to the master, if the connection holds
    that long.  The order of the reports is not kept, and a report that is lost
    with its connection is not made again. *)
Theorem reports_conserved ops :
  let s := report_run ops fresh_reporters in
  made ops ≡ₚ kept s ++ lost_ (the_link s) /\
  (Forall (fun op => ends_connection op = false) ops -> lost_ (the_link s) = []) /\
  (up_ (the_link s) = true ->
     exists ops', quiet ops' /\ delivered_ (the_link (report_run (ops ++ ops') fresh_reporters)) ≡ₚ kept s).
Proof.
  intros s. split; [|split].
  - pose proof (run_conserves ops fresh_reporters) as H. by rewrite !app_nil_r in H.
  - intros Hq. by destruct (run_up ops fresh_reporters Hq eq_refl).
  - intros Hu. destruct (all_arrive s Hu) as (ops' & Hq & Hd). exists ops'. split; [done|]. by rewrite report_run_app.
Qed.

Definition report1 : PendingReport := ReportFailed (mkTaskFailedMessage 1 1 "e" []).
Definition report2 : PendingReport := ReportFailed (mkTaskFailedMessage 2 1 "e" []).

(** Two reports made while the worker reconnects: one is queued in time, the other
    after the flush. *)
Definition race : list report_op :=
  [Ack false; FlushDrain; Break; Disconnected 120; Report report1; Report report2; Push 0; Reconnected; Ack false;
   FlushDrain; Push 0; FlushSend 0; Deliver].

Lemma reports_conserved_witness :
  made race = [report1; report2] /\ delivered_ (the_link (report_run race fresh_reporters)) = [report1] /\
  exists ops', quiet ops' /\ delivered_ (the_link (report_run (race ++ ops') fresh_reporters)) ≡ₚ [report1; report2].
Proof.
  split; [reflexivity|]. split; [reflexivity|].
  destruct (reports_conserved race) as (_ & _ & H). exact (H eq_refl).
Defined.

(** ** Reports that are lost, stuck or overtaken *)

(** What is lost stays lost. *)
Lemma lost_grows ops s : lost_ (the_link s) `prefix_of` lost_ (the_link (report_run ops s)).
Proof.
  revert s. induction ops as [|op ops IH]; intros s; [done|]. etrans; [|apply IH]. clear IH.
  assert (Hsend : forall r l, lost_ l `prefix_of` lost_ (send_report r l)).
  { intros r l. unfold send_report. destruct (up_ l); [done|]. by apply prefix_app_r. }
  assert (Hdown : forall l, lost_ l `prefix_of` lost_ (initiate_shutdown l)) by (intros l; by apply prefix_app_r).
  destruct op as [r|i|i|i|d| |i|g| | | |]; cbn [report_step]; try by apply Hdown.
  - unfold read_reconnecting. by destruct (reconnecting_ _).
  - unfold read_registered. destruct (testing_ s !! i); [|done]. cbn. by destruct (registered_ _).
  - unfold do_send. destruct (sending_ s !! i); [apply Hsend|done].
  - unfold do_push. by destruct (queuing_ s !! i).
  - unfold on_register_ack. destruct d; [apply Hdown|]. by destruct (negb _).
  - unfold flush_drain. by destruct (acked_ s).
  - unfold flush_send. destruct (flushing_ s !! i); [apply Hsend|done].
  - cbn. unfold on_disconnect. destruct (up_ _); [done|]. destruct (g <=? 0); [apply Hdown|]. by destruct (reconnecting_ _).
  - cbn. unfold reconnected. by destruct (_ && _).
  - cbn. unfold grace_expired. destruct (_ && _); [exact (Hdown (the_link s))|done].
  - cbn. unfold deliver. by destruct (on_wire_ _).
Qed.

(** A report that is on the connection when it breaks, or sent before the break is
    noticed, is gone: nothing remembers it after the reconnection. *)
Theorem report_lost_with_connection r ops :
  r ∉ made ops ->
  let before := [Ack false; FlushDrain; Report r; ReadRegistered 0; Send 0; Break; Disconnected 120; Reconnected; Ack false] in
  r ∉ kept (report_run (before ++ ops) fresh_reporters).
Proof.
  intros Hops before. rewrite report_run_app. set (s := report_run before fresh_reporters).
  assert (Hlost : kept s = [] /\ lost_ (the_link s) = [r]) by done. destruct Hlost as [Hk Hl].
  destruct (lost_grows ops s) as [rest Hrest]. rewrite Hl in Hrest. pose proof (run_conserves ops s) as Hc.
  rewrite Hk, Hl, Hrest in Hc. cbn in Hc. intros Hin.
  assert (Hperm : made ops ≡ₚ kept (report_run ops s) ++ rest).
  { apply (Permutation_app_inv_l [r]). etrans; [|etrans; [exact Hc|]]; solve_Permutation. }
  apply Hops. eapply elem_of_Permutation_proper; [exact Hperm|]. apply elem_of_app. by left.
Qed.

Lemma report_lost_with_connection_witness :
  report1 ∉ kept (report_run [Ack false; FlushDrain; Report report1; ReadRegistered 0; Send 0; Break; Disconnected 120; Reconnected; Ack false; Deliver] fresh_reporters).
Proof. refine (report_lost_with_connection report1 [Deliver] _). by intros ?%elem_of_nil. Defined.

(** A confirmation that comes between the test of a report and its queuing finds the
    queue empty; the report is queued afterwards and stays there as long as the
    connection holds, although the worker is registered. *)
Theorem report_queued_behind_ack r :
  let s := report_run [Ack false; FlushDrain; Break; Disconnected 120; Report r; Reconnected; Ack false; FlushDrain; Push 0] fresh_reporters in
  can_send (the_link s) = true /\ up_ (the_link s) = true /\ pending_reports_ (the_link s) = [r] /\
  on_wire_ (the_link s) = [] /\ held s = [] /\ acked_ s = 0%nat.
Proof. done. Qed.

(** The flags are set before the queue is flushed, so a later report overtakes the
    ones that wait in the queue. *)
Theorem report_overtakes r1 r2 :
  let s := report_run [Ack false; FlushDrain; Break; Disconnected 120; Report r1; Push 0; Reconnected; Ack false;
                       Report r2; ReadRegistered 0; Send 0; FlushDrain; FlushSend 0; Deliver; Deliver] fresh_reporters in
  delivered_ (the_link s) = [r2; r1].
Proof. done. Qed.

(** What the master makes of it: a worker that comes back in time without its
    report keeps its task.  The task runs for ever, and the worker gets no other. *)
Theorem lost_report_hangs_task :
  (m ← perform [MRegister true true 5 (hello 1); MSubmit 1 producer; MDisconnect true true 5; MRegister true true 6 (hello 1);
                MHeartbeat 6 1; MSubmit 2 producer] cluster;
   let m := check_grace_deadlines config0 env0 100000 m in
   Some (status_of 1 m, status_of 2 m, WorkerManager.current_task_id_ <$> WorkerManager.get_worker 1 (worker_manager_ m))) =
  Some (Some TaskManager.RUNNING, Some TaskManager.PENDING, Some 1%N).
Proof. vm_compute. reflexivity. Qed.
