(* ===== verification/WorkerTasks.v ===== *)
(** What a worker does between taking a task and reporting it
    (src/agent/cpp/worker_agent.cpp with src/storage/cpp/database.cpp): the writes of
    the task, streamed or whole, their registration with the master, the units of
    work they leave to the write-back queue, and the end of the task, which commits
    or undoes them, and what the master then makes of its report.

    The queue runs its units in order ([WriteBackQueue]); here it is a list, and its
    thread takes the first unit at any time ([TStep]).  A caller that waits for a
    unit it has queued finds all earlier ones executed.  What the master answers to a
    registration is an argument: [None] for acceptance, or the error.  File
    operations succeed, and the time stamp that replaces an empty hash is an
    argument. *)

From stdpp Require Import base gmap strings list option sets fin_maps.
From Stdlib Require Import ZArith Lia.
From S2P Require Import Prelude Bytes ObjectNames LocalIndex ObjectCache DataWriter DataIndex MasterState Master MasterTasks MasterSafety WorkerReports.

Open Scope Z_scope.

(** ** State *)

Record Database := mkDatabase {
  writer_ : DataWriter;
  temp_writer_ : option DataWriter;
  is_frozen_ : bool
}.
#[export] Instance set_writer_Database : Setter writer_ :=
  fun h x => mkDatabase (h (writer_ x)) (temp_writer_ x) (is_frozen_ x).
Arguments set_writer_Database h x /.
#[export] Instance set_temp_writer_Database : Setter temp_writer_ :=
  fun h x => mkDatabase (writer_ x) (h (temp_writer_ x)) (is_frozen_ x).
Arguments set_temp_writer_Database h x /.

(** The closures that [Database] hands to the queue. *)
Inductive WriteUnit :=
  | UnitBegin (db_path : string) (temp txn : bool)
  | UnitChunk (db_path : string) (temp : bool) (data : bytes)
  | UnitFinish (db_path : string) (temp : bool) (name : string) (total chunks : Z)
  | UnitRecord (db_path name : string) (original_size chunk_count : Z) (record : bytes) (hash : string) (txn : bool).

Record WriteRecord := mkWriteRecord { wr_full_name_ : string; wr_bytes_ : Z }.

(** The callbacks of [WorkerAgentContext] are set and cleared together with its
    transaction mode. *)
Record TaskWorker := mkTaskWorker {
  tw_worker_id_ : N;
  databases_ : gmap string Database;
  service_ : DataService;
  wbq_ : list WriteUnit;
  current_task_id_ : N;
  current_writes_ : list WriteRecord;
  current_write_hash_ : string;
  last_error_type_ : TaskErrorType;
  transaction_mode_ : bool;
  link_ : WorkerLink
}.
#[export] Instance set_tw_worker_id_TaskWorker : Setter tw_worker_id_ :=
  fun h x => mkTaskWorker (h (tw_worker_id_ x)) (databases_ x) (service_ x) (wbq_ x) (current_task_id_ x) (current_writes_ x) (current_write_hash_ x) (last_error_type_ x) (transaction_mode_ x) (link_ x).
Arguments set_tw_worker_id_TaskWorker h x /.
#[export] Instance set_databases_TaskWorker : Setter databases_ :=
  fun h x => mkTaskWorker (tw_worker_id_ x) (h (databases_ x)) (service_ x) (wbq_ x) (current_task_id_ x) (current_writes_ x) (current_write_hash_ x) (last_error_type_ x) (transaction_mode_ x) (link_ x).
Arguments set_databases_TaskWorker h x /.
#[export] Instance set_service_TaskWorker : Setter service_ :=
  fun h x => mkTaskWorker (tw_worker_id_ x) (databases_ x) (h (service_ x)) (wbq_ x) (current_task_id_ x) (current_writes_ x) (current_write_hash_ x) (last_error_type_ x) (transaction_mode_ x) (link_ x).
Arguments set_service_TaskWorker h x /.
#[export] Instance set_wbq_TaskWorker : Setter wbq_ :=
  fun h x => mkTaskWorker (tw_worker_id_ x) (databases_ x) (service_ x) (h (wbq_ x)) (current_task_id_ x) (current_writes_ x) (current_write_hash_ x) (last_error_type_ x) (transaction_mode_ x) (link_ x).
Arguments set_wbq_TaskWorker h x /.
#[export] Instance set_current_task_id_TaskWorker : Setter current_task_id_ :=
  fun h x => mkTaskWorker (tw_worker_id_ x) (databases_ x) (service_ x) (wbq_ x) (h (current_task_id_ x)) (current_writes_ x) (current_write_hash_ x) (last_error_type_ x) (transaction_mode_ x) (link_ x).
Arguments set_current_task_id_TaskWorker h x /.
#[export] Instance set_current_writes_TaskWorker : Setter current_writes_ :=
  fun h x => mkTaskWorker (tw_worker_id_ x) (databases_ x) (service_ x) (wbq_ x) (current_task_id_ x) (h (current_writes_ x)) (current_write_hash_ x) (last_error_type_ x) (transaction_mode_ x) (link_ x).
Arguments set_current_writes_TaskWorker h x /.
#[export] Instance set_current_write_hash_TaskWorker : Setter current_write_hash_ :=
  fun h x => mkTaskWorker (tw_worker_id_ x) (databases_ x) (service_ x) (wbq_ x) (current_task_id_ x) (current_writes_ x) (h (current_write_hash_ x)) (last_error_type_ x) (transaction_mode_ x) (link_ x).
Arguments set_current_write_hash_TaskWorker h x /.
#[export] Instance set_last_error_type_TaskWorker : Setter last_error_type_ :=
  fun h x => mkTaskWorker (tw_worker_id_ x) (databases_ x) (service_ x) (wbq_ x) (current_task_id_ x) (current_writes_ x) (current_write_hash_ x) (h (last_error_type_ x)) (transaction_mode_ x) (link_ x).
Arguments set_last_error_type_TaskWorker h x /.
#[export] Instance set_transaction_mode_TaskWorker : Setter transaction_mode_ :=
  fun h x => mkTaskWorker (tw_worker_id_ x) (databases_ x) (service_ x) (wbq_ x) (current_task_id_ x) (current_writes_ x) (current_write_hash_ x) (last_error_type_ x) (h (transaction_mode_ x)) (link_ x).
Arguments set_transaction_mode_TaskWorker h x /.
#[export] Instance set_link_TaskWorker : Setter link_ :=
  fun h x => mkTaskWorker (tw_worker_id_ x) (databases_ x) (service_ x) (wbq_ x) (current_task_id_ x) (current_writes_ x) (current_write_hash_ x) (last_error_type_ x) (transaction_mode_ x) (h (link_ x)).
Arguments set_link_TaskWorker h x /.

(** ** The writers of a database *)

Definition get_writer (db_path : string) (temp : bool) (t : TaskWorker) : option DataWriter :=
  d ← databases_ t !! db_path; if temp then temp_writer_ d else Some (writer_ d).

Definition on_writer (db_path : string) (temp : bool) (f : DataWriter -> DataWriter) (t : TaskWorker) : TaskWorker :=
  t <| databases_ ::= alter (fun d => if temp then d <| temp_writer_ ::= fmap f |> else d <| writer_ ::= f |>) db_path |>.

(** ** The write-back queue *)

(** The first write of a task opens the segment. *)
Definition open_segment (txn : bool) (w : DataWriter) : DataWriter :=
  if txn && negb (sp_active_ (segment_point_ w)) then writer_mark_begin w else w.

(** [execute_] of a unit, with its [on_complete_] or [on_error_]. *)
Definition execute (u : WriteUnit) (t : TaskWorker) : TaskWorker :=
  match u with
  | UnitBegin db temp txn => on_writer db temp (fun w => (begin_incremental (open_segment txn w)).2) t
  | UnitChunk db temp data => on_writer db temp (append_incremental data) t
  | UnitFinish db temp name total chunks =>
      on_writer db temp (fun w => flush (finish_incremental name total chunks "" w)) t
  | UnitRecord db name sz ch record hash txn =>
      let t := on_writer db false (open_segment txn) t in
      match get_writer db false t with
      | None => t
      | Some w =>
          if closed_ w then t <| service_ ::= write_back_error db (full_name db name) |>
          else
            let w := flush (write_record_checked name sz ch record hash w).2 in
            on_writer db false (fun _ => w) t
              <| service_ ::= write_back_complete db (full_name db name) (writer_get_all_entries name w) |>
      end
  end.

Definition enqueue_write_back (u : WriteUnit) (t : TaskWorker) : TaskWorker := t <| wbq_ ::= (fun q => q ++ [u]) |>.

Definition drain_write_back (t : TaskWorker) : TaskWorker :=
  foldl (fun t u => execute u t) (t <| wbq_ := [] |>) (wbq_ t).

Definition clear_write_back (t : TaskWorker) : TaskWorker := t <| wbq_ := [] |>.

(** The thread of the queue takes one unit. *)
Definition run_unit (t : TaskWorker) : TaskWorker :=
  match wbq_ t with
  | [] => t
  | u :: q => execute u (t <| wbq_ := q |>)
  end.

(** ** Writing within a task *)

Definition record_write (db_path name : string) (size : Z) (t : TaskWorker) : TaskWorker :=
  if transaction_mode_ t
  then t <| current_writes_ ::= (fun l => l ++ [mkWriteRecord (full_name db_path name) size]) |> else t.

(** [register_write_with_master]: the worker's own check, then the answer of the
    master; the hash is replaced by [stamp] when it is empty. *)
Definition register_write_with_master (db_path name : string) (preliminary : bool) (answer : option TaskErrorType)
    (stamp : string) (t : TaskWorker) : TaskErrorType * TaskWorker :=
  let ctx_hash := if decide (current_write_hash_ t = "") then stamp else current_write_hash_ t in
  match register_precheck ctx_hash preliminary (full_name db_path name) (service_ t) with
  | (Some e, last) => (e, t <| last_error_type_ ::= (fun old => default old last) |>)
  | (None, _) =>
      match answer with
      | None => (UNKNOWN, t)
      | Some e => (e, t <| last_error_type_ := e |>)
      end
  end.

Definition register_write (db_path name : string) (preliminary : bool) (answer : option TaskErrorType)
    (stamp : string) (t : TaskWorker) : TaskErrorType * TaskWorker :=
  if transaction_mode_ t then register_write_with_master db_path name preliminary answer stamp t else (UNKNOWN, t).

(** The begin unit of a stream and its promise: whether the writer is open. *)
Definition begin_stream (db_path : string) (temp : bool) (t : TaskWorker) : bool * TaskWorker :=
  let t := drain_write_back (enqueue_write_back (UnitBegin db_path temp (transaction_mode_ t)) t) in
  (match get_writer db_path temp t with Some w => negb (closed_ w) | None => false end, t).

Definition open_temp_write_stream (db_path : string) (d : Database) (t : TaskWorker) : bool * TaskWorker :=
  match temp_writer_ d with
  | None => (false, t)
  | Some _ => begin_stream db_path true t
  end.

(** Whether the stream was opened, and whether the hash was set for it. *)
Definition open_write_stream (db_path name : string) (temp : bool) (answer : option TaskErrorType) (stamp : string)
    (t : TaskWorker) : bool * bool * TaskWorker :=
  match databases_ t !! db_path with
  | None => (false, false, t)
  | Some d =>
      if temp then let '(ok, t) := open_temp_write_stream db_path d t in (ok, false, t)
      else if is_frozen_ d then (false, false, t <| last_error_type_ := WRITE_TO_FROZEN_DB |>)
      else
        let hash_self_set := bool_decide (current_write_hash_ t = "") in
        let t := if hash_self_set then t <| current_write_hash_ := stamp |> else t in
        let '(e, t) := register_write db_path name true answer stamp t in
        if decide (e = UNKNOWN) then
          let '(ok, t) := begin_stream db_path false t in (ok, hash_self_set, t)
        else
          let t := t <| last_error_type_ := e |> in
          (false, false, if hash_self_set then t <| current_write_hash_ := "" |> else t)
  end.

(** The sink of the stream. *)
Definition sink (db_path : string) (temp : bool) (data : bytes) (t : TaskWorker) : TaskWorker :=
  enqueue_write_back (UnitChunk db_path temp data) t.

Definition rejected (e : TaskErrorType) : WriteErrorType :=
  match e with WRITE_DUPLICATE_SKIPPED => DUPLICATE_SKIPPED | _ => REGISTRATION_FAILED end.

Definition last_size (name : string) (w : option DataWriter) : Z :=
  match w ≫= get_last_entry name with Some e => LocalIndex.size_ e | None => 0 end.

(** The commit callback of a stream of a temporary object. *)
Definition commit_temp_stream (db_path name : string) (total chunks : Z) (answer : option TaskErrorType) (stamp : string)
    (t : TaskWorker) : WriteErrorType * TaskWorker :=
  let full := full_name db_path name in
  let t := drain_write_back (enqueue_write_back (UnitFinish db_path true name total chunks) t) in
  let w := get_writer db_path true t in
  let t := t <| service_ ::= on_temp_write_started db_path full |>
             <| service_ ::= on_temp_write db_path full (w ≫= get_last_entry name) |> in
  let t := record_write db_path name (last_size name w) t in
  let '(e, t) := register_write db_path name false answer stamp t in
  if decide (e = UNKNOWN) then (OK, t)
  else (rejected e, t <| service_ ::= on_write_failed db_path full |> <| last_error_type_ := e |>).

(** The commit callback of a stream: the record is finished on disk, and then
    registered. *)
Definition commit_stream (db_path name : string) (temp : bool) (total chunks : Z) (hash_self_set : bool)
    (answer : option TaskErrorType) (stamp : string) (t : TaskWorker) : WriteErrorType * TaskWorker :=
  if temp then commit_temp_stream db_path name total chunks answer stamp t
  else
    let full := full_name db_path name in
    let t := drain_write_back (enqueue_write_back (UnitFinish db_path false name total chunks) t) in
    let w := get_writer db_path false t in
    let t := t <| service_ ::= on_write_started db_path full |> in
    let self := hash_self_set || bool_decide (current_write_hash_ t = "") in
    let t := if decide (current_write_hash_ t = "") then t <| current_write_hash_ := stamp |> else t in
    let clear t := if self then t <| current_write_hash_ := "" |> else t in
    let '(e, t) := register_write db_path name false answer stamp t in
    if decide (e = UNKNOWN) then
      let t := record_write db_path name (last_size name w) t in
      (OK, clear (t <| service_ ::= write_back_complete db_path full (w ≫= writer_get_all_entries name) |>))
    else
      (rejected e, clear (t <| service_ ::= on_write_failed db_path full |> <| last_error_type_ := e |>)).

(** [Database::commit_write]: a record that is already in memory. *)
Definition commit_write (db_path name : string) (record : bytes) (original_size chunk_count : Z)
    (answer : option TaskErrorType) (stamp : string) (t : TaskWorker) : WriteErrorType * TaskWorker :=
  let full := full_name db_path name in
  let self := bool_decide (current_write_hash_ t = "") in
  let t := if self then t <| current_write_hash_ := stamp |> else t in
  let hash := current_write_hash_ t in
  let clear t := if self then t <| current_write_hash_ := "" |> else t in
  let started := service_ t in
  let '(e, t) := register_write db_path name false answer stamp (t <| service_ ::= on_write_started db_path full |>) in
  let '(result, queued, s) := DataIndex.commit_write db_path full (fun _ => e) started in
  let t := t <| service_ := s |> in
  if queued then
    let t := record_write db_path name (Z.of_nat (length record)) t in
    (result, clear (enqueue_write_back (UnitRecord db_path name original_size chunk_count record hash (transaction_mode_ t)) t))
  else
    (result, clear (if decide (e = WRITE_DUPLICATE_SKIPPED) then t <| last_error_type_ := e |> else t)).

(** ** Begin and end of a task *)

Definition begin_task (task_id : N) (write_context_hash : string) (t : TaskWorker) : TaskWorker :=
  t <| current_task_id_ := task_id |> <| current_writes_ := [] |> <| current_write_hash_ := write_context_hash |>
    <| transaction_mode_ := true |> <| last_error_type_ := UNKNOWN |>.

Definition end_task (t : TaskWorker) : list WriteRecord * TaskWorker :=
  (current_writes_ t,
   t <| last_error_type_ := UNKNOWN |> <| transaction_mode_ := false |> <| current_write_hash_ := "" |>
     <| current_writes_ := [] |> <| current_task_id_ := 0%N |>).

Definition on_writers (db_path : string) (f : DataWriter -> DataWriter) (t : TaskWorker) : TaskWorker :=
  on_writer db_path true f (on_writer db_path false f t).

Definition mark_write_end (db_path : string) (t : TaskWorker) : TaskWorker := on_writers db_path writer_mark_end t.

Definition abort_task_writes (db_path : string) (dirty_full_names : list string) (t : TaskWorker) : TaskWorker :=
  let t := drain_write_back (clear_write_back t) in
  let t := on_writers db_path abort_segment t in
  foldl (fun t full => t <| service_ ::= fun s => remove_local_index full s <| object_cache_ ::= ObjectCache.remove full |> |>)
    t dirty_full_names.

Definition involved_dbs (writes : list WriteRecord) : gset string :=
  list_to_set ((fun w => (split_full_name (wr_full_name_ w)).1) <$> writes) ∖ {[""]}.

Definition commit_task_segments (written_objects : list WriteRecord) (t : TaskWorker) : TaskWorker :=
  foldl (fun t db =>
    match databases_ t !! db with
    | None => t
    | Some _ => mark_write_end db (drain_write_back t)
    end) t (elements (involved_dbs written_objects)).

(** [by_db[db_path]] *)
Definition dirty_of (db_path : string) (writes : list WriteRecord) : list string :=
  filter (fun full => (split_full_name full).1 = db_path) (wr_full_name_ <$> writes).

Definition cleanup_failed_task_writes (dirty_objects : list WriteRecord) (t : TaskWorker) : TaskWorker :=
  foldl (fun t db =>
    match databases_ t !! db with
    | None => t
    | Some _ => abort_task_writes db (dirty_of db dirty_objects) t
    end) t (elements (involved_dbs dirty_objects)).

(** How the execution ended: the declared outputs, or the error. *)
Inductive TaskExecResult := ExecSuccess (outputs : list string) | ExecFailed (error : string).

Definition send_master_or_buffer (r : PendingReport) (t : TaskWorker) : TaskWorker :=
  t <| link_ ::= WorkerReports.send_master_or_buffer r |>.

Definition error_number (e : TaskErrorType) : string :=
  match e with
  | UNKNOWN => "0" | EXECUTION_ERROR => "1" | WRITE_TO_FROZEN_DB => "2" | WRITE_REGISTRATION_FAILED => "3"
  | WRITE_REGISTRATION_TIMEOUT => "4" | WRITE_PROVENANCE_MISMATCH => "5" | WRITE_DUPLICATE_SKIPPED => "6"
  | DB_ALREADY_FROZEN => "7"
  end.

Definition rejected_text (e : TaskErrorType) : string := "Write registration rejected: error_type=" +:+ error_number e.

Definition failed_report (task_id : N) (error : string) (writes : list WriteRecord) (t : TaskWorker) : TaskFailedMessage :=
  mkTaskFailedMessage task_id (tw_worker_id_ t) error (wr_full_name_ <$> writes).

Definition complete_report (task_id : N) (outputs : list string) (writes : list WriteRecord) (t : TaskWorker) :
    TaskCompleteMessage :=
  mkTaskCompleteMessage task_id (tw_worker_id_ t)
    (((fun w => mkWrittenObject (wr_full_name_ w) (wr_bytes_ w) "") <$> writes) ++
     ((fun o => mkWrittenObject o 0 "") <$> outputs)) false.

Definition finish_task (task_id : N) (result : TaskExecResult) (t : TaskWorker) : TaskWorker :=
  let write_error_type := last_error_type_ t in
  let '(tracked_writes, t) := end_task t in
  match result with
  | ExecSuccess outputs =>
      if decide (write_error_type = UNKNOWN) then
        send_master_or_buffer (ReportComplete (complete_report task_id outputs tracked_writes t))
          (commit_task_segments tracked_writes t)
      else
        send_master_or_buffer (ReportFailed (failed_report task_id (rejected_text write_error_type) tracked_writes t))
          (cleanup_failed_task_writes tracked_writes t)
  | ExecFailed error =>
      send_master_or_buffer (ReportFailed (failed_report task_id error tracked_writes t))
        (cleanup_failed_task_writes tracked_writes t)
  end.

(** ** The execution of a task *)

(** A stream from its opening to its commit, or to the exception that ends the
    writing: [commit] is [None] then.  The result is [None] when nothing was
    committed. *)
Definition write_stream (db_path name : string) (temp : bool) (permit : option TaskErrorType) (chunks : list bytes)
    (commit : option (Z * Z * option TaskErrorType)) (stamp : string) (t : TaskWorker) : option WriteErrorType * TaskWorker :=
  let '(opened, self, t) := open_write_stream db_path name temp permit stamp t in
  if opened then
    let t := foldl (fun t data => sink db_path temp data t) t chunks in
    match commit with
    | None => (None, t)
    | Some (total, count, answer) =>
        let '(r, t) := commit_stream db_path name temp total count self answer stamp t in (Some r, t)
    end
  else (None, t).

Inductive task_op :=
  | TStream (db_path name : string) (temp : bool) (permit : option TaskErrorType) (chunks : list bytes)
      (commit : option (Z * Z * option TaskErrorType)) (stamp : string)
  | TWrite (db_path name : string) (record : bytes) (original_size chunk_count : Z) (answer : option TaskErrorType)
      (stamp : string)
  | TStep.

Definition task_step (op : task_op) (t : TaskWorker) : TaskWorker :=
  match op with
  | TStream db name temp permit chunks commit stamp => (write_stream db name temp permit chunks commit stamp t).2
  | TWrite db name record sz ch answer stamp => (commit_write db name record sz ch answer stamp t).2
  | TStep => run_unit t
  end.

Definition task_run (ops : list task_op) (t : TaskWorker) : TaskWorker := foldl (fun t op => task_step op t) t ops.

(** ** What reaches the writers *)

(** What a unit does to one writer. *)
Definition unit_effect (u : WriteUnit) (db : string) (temp : bool) (w : DataWriter) : DataWriter :=
  match u with
  | UnitBegin d tm txn =>
      if decide (d = db /\ tm = temp) then (begin_incremental (open_segment txn w)).2 else w
  | UnitChunk d tm data => if decide (d = db /\ tm = temp) then append_incremental data w else w
  | UnitFinish d tm name total chunks =>
      if decide (d = db /\ tm = temp) then flush (finish_incremental name total chunks "" w) else w
  | UnitRecord d name sz ch record hash txn =>
      if decide (d = db /\ false = temp) then
        let w := open_segment txn w in
        if closed_ w then w else flush (write_record name sz ch record hash w)
      else w
  end.

Lemma get_writer_on d tm db temp f t :
  get_writer d tm (on_writer db temp f t) =
    if decide (db = d /\ temp = tm) then f <$> get_writer d tm t else get_writer d tm t.
Proof.
  unfold get_writer, on_writer. cbn. destruct (decide (db = d)) as [->|Hd].
  - rewrite lookup_alter_eq. destruct (databases_ t !! d) as [x|]; cbn; [|by case_decide].
    destruct temp, tm; cbn; case_decide as Hc; try done; first [by destruct Hc|by destruct Hc as [_ [=]]].
  - rewrite lookup_alter_ne by done. by rewrite decide_False by naive_solver.
Qed.

Lemma get_writer_service d tm f t : get_writer d tm (t <| service_ ::= f |>) = get_writer d tm t.
Proof. done. Qed.

Lemma get_writer_execute u t db temp : get_writer db temp (execute u t) = unit_effect u db temp <$> get_writer db temp t.
Proof.
  destruct u as [d tm txn|d tm data|d tm name total chunks|d name sz ch record hash txn]; cbn [execute];
    try (rewrite get_writer_on; destruct (get_writer db temp t); cbn; by case_decide).
  pose proof (get_writer_on d false d false (open_segment txn) t) as E. rewrite decide_True in E by done.
  rewrite E. destruct (get_writer d false t) as [w|] eqn:Ew; cbn [fmap option_fmap option_map].
  - unfold write_record_checked. destruct (closed_ (open_segment txn w)) eqn:Ec;
      rewrite get_writer_service, !get_writer_on; destruct (get_writer db temp t) as [w'|] eqn:Ew';
      cbn; case_decide as Hd; try done; destruct Hd as [<- <-]; replace w' with w by congruence; by rewrite Ec.
  - rewrite get_writer_on. destruct (get_writer db temp t) as [w'|] eqn:Ew'; cbn; case_decide as Hd; try done.
    destruct Hd as [<- <-]. congruence.
Qed.

Lemma get_writer_units q t db temp :
  get_writer db temp (foldl (fun t u => execute u t) t q) =
    (fun w => foldl (fun w u => unit_effect u db temp w) w q) <$> get_writer db temp t.
Proof.
  revert t. induction q as [|u q IH]; intros t; cbn [foldl]; [by destruct (get_writer db temp t)|].
  rewrite IH, get_writer_execute. by destruct (get_writer db temp t).
Qed.

(** What execution does not touch. *)
Record same_task (t t' : TaskWorker) : Prop := {
  st_id : tw_worker_id_ t' = tw_worker_id_ t;
  st_mode : transaction_mode_ t' = transaction_mode_ t;
  st_writes : current_writes_ t' = current_writes_ t;
  st_hash : current_write_hash_ t' = current_write_hash_ t;
  st_error : last_error_type_ t' = last_error_type_ t;
  st_link : link_ t' = link_ t
}.
#[export] Instance same_task_preorder : PreOrder same_task.
Proof. split; [done|]. intros x y z [] []. split; congruence. Qed.

Lemma execute_same u t : same_task t (execute u t) /\ wbq_ (execute u t) = wbq_ t.
Proof.
  destruct u as [d tm txn|d tm data|d tm name total chunks|d name sz ch record hash txn]; cbn [execute]; try done.
  destruct (get_writer _ _ _) as [w|]; [|done]. destruct (closed_ w); done.
Qed.

Lemma units_same q t :
  let t' := foldl (fun t u => execute u t) t q in same_task t t' /\ wbq_ t' = wbq_ t.
Proof.
  revert t. induction q as [|u q IH]; intros t; cbn [foldl]; [done|].
  destruct (execute_same u t) as [H1 H2]. destruct (IH (execute u t)) as [H3 H4].
  split; [by etrans|congruence].
Qed.

Lemma drain_same t : same_task t (drain_write_back t) /\ wbq_ (drain_write_back t) = [].
Proof. unfold drain_write_back. destruct (units_same (wbq_ t) (t <| wbq_ := [] |>)) as [[] ?]. done. Qed.

(** ** Writers within a task *)

(** A writer that a task has left alone since it began at [w0], or written to
    within a segment opened there. *)
Definition task_writer (w0 w : DataWriter) : Prop := w = w0 \/ exists ops, w = apply_ops ops (writer_mark_begin w0).

Abbreviation active w := (sp_active_ (segment_point_ w) = true).

Record idle_writer (w : DataWriter) : Prop := {
  iw_inv : writer_inv w;
  iw_open : closed_ w = false;
  iw_segment : sp_active_ (segment_point_ w) = false
}.

Lemma apply_op_point o w : segment_point_ (apply_op o w) = segment_point_ w.
Proof.
  destruct o; cbn [apply_op]; try done.
  - unfold write_record. destruct (closed_ w); [done|]. cbn. by case_decide.
  - unfold begin_incremental. destruct (closed_ w); [done|]. cbn. by case_decide.
  - unfold append_incremental. by destruct (incremental_offset_ w).
  - unfold finish_incremental. by destruct (incremental_offset_ w).
  - unfold close. by destruct (closed_ w).
Qed.

Lemma apply_ops_point ops w : segment_point_ (apply_ops ops w) = segment_point_ w.
Proof.
  revert w. induction ops as [|o ops IH]; intros w; [done|]. cbn. unfold apply_ops in IH. rewrite IH. apply apply_op_point.
Qed.

Lemma open_active w : active (open_segment true w).
Proof. unfold open_segment. destruct (sp_active_ (segment_point_ w)) eqn:E; cbn; [done|]. done. Qed.

Lemma open_already w : active w -> open_segment true w = w.
Proof. intros H. unfold open_segment. by rewrite H. Qed.

Lemma task_writer_active w0 w : active w -> task_writer w0 w -> sp_active_ (segment_point_ w0) = false ->
  exists ops, w = apply_ops ops (writer_mark_begin w0).
Proof. intros Ha [->|H] H0; [congruence|done]. Qed.

Lemma open_task w0 w : idle_writer w0 -> task_writer w0 w -> exists ops, open_segment true w = apply_ops ops (writer_mark_begin w0).
Proof.
  intros [_ _ Hi] [->|[ops ->]].
  - exists []. unfold open_segment. by rewrite Hi.
  - exists ops. apply open_already. by rewrite apply_ops_point.
Qed.

(** A unit may run: it opens the segment itself, or the segment is open. *)
Definition unit_ok (t : TaskWorker) (u : WriteUnit) : Prop :=
  match u with
  | UnitBegin _ _ txn | UnitRecord _ _ _ _ _ _ txn => txn = true
  | UnitChunk db temp _ | UnitFinish db temp _ _ _ =>
      forall w, get_writer db temp t = Some w -> active w
  end.

(** A unit only applies operations to a writer, after opening its segment. *)
Lemma unit_effect_ops u db temp w :
  (match u with
   | UnitBegin _ _ txn | UnitRecord _ _ _ _ _ _ txn => txn = true
   | UnitChunk d tm _ | UnitFinish d tm _ _ _ => d = db /\ tm = temp -> active w end) ->
  unit_effect u db temp w = w \/ exists ops, unit_effect u db temp w = apply_ops ops (open_segment true w).
Proof.
  destruct u as [d tm txn|d tm data|d tm name total chunks|d name sz ch record hash txn]; cbn [unit_effect]; intros Hok;
    (case_decide as Hd; [right|by left]).
  - subst txn. by exists [OpBeginIncremental].
  - exists [OpAppendIncremental data]. by rewrite open_already by auto.
  - exists [OpFinishIncremental name total chunks ""; DataWriter.OpFlush]. by rewrite open_already by auto.
  - subst txn. cbv zeta. destruct (closed_ _) eqn:E; [by exists []|]. by exists [OpWrite name sz ch record hash; DataWriter.OpFlush].
Qed.

Lemma unit_ok_local t u db temp w :
  unit_ok t u -> get_writer db temp t = Some w ->
  match u with
  | UnitBegin _ _ txn | UnitRecord _ _ _ _ _ _ txn => txn = true
  | UnitChunk d tm _ | UnitFinish d tm _ _ _ => d = db /\ tm = temp -> active w end.
Proof. destruct u; cbn; try done; intros H Hw [-> ->]; by apply H. Qed.

Lemma unit_effect_active t u db temp w :
  unit_ok t u -> get_writer db temp t = Some w -> active w -> active (unit_effect u db temp w).
Proof.
  intros Hok Hw Ha. destruct (unit_effect_ops u db temp w) as [->|[ops ->]]; [by eapply unit_ok_local|done|].
  rewrite apply_ops_point. apply open_active.
Qed.

Lemma unit_ok_execute t u v : unit_ok t u -> unit_ok t v -> unit_ok (execute u t) v.
Proof.
  intros Hu Hv. destruct v as [d tm txn|d tm data|d tm name total chunks|d name sz ch record hash txn]; cbn in *; try done;
    intros w'; rewrite get_writer_execute; intros (w & Hw & ->)%fmap_Some; eauto using unit_effect_active.
Qed.

(** ** Elementary steps *)

(** The operation concerns only one object of the local index. *)
Definition touches_only (db sh : string) (s s' : DataService) : Prop :=
  refs_ok s -> refs_ok s' /\ forall d n, ~ (d = db /\ n = sh) -> find_info d n s' = find_info d n s.

(** What the calls of a task come down to; [Q] holds of the objects they concern. *)
Inductive micro (Q : string -> string -> Prop) (t : TaskWorker) : TaskWorker -> Prop :=
  | micro_queue u :
      unit_ok t u ->
      match u with UnitRecord d n _ _ _ _ _ | UnitFinish d _ n _ _ => Q d n | _ => True end ->
      micro Q t (enqueue_write_back u t)
  | micro_run : micro Q t (run_unit t)
  | micro_service d n f : Q d n -> (no_colon n -> touches_only d n (service_ t) (f (service_ t))) -> micro Q t (t <| service_ ::= f |>)
  | micro_hash h : micro Q t (t <| current_write_hash_ := h |>)
  | micro_error e : micro Q t (t <| last_error_type_ := e |>)
  | micro_record d n size : micro Q t (record_write d n size t).

Abbreviation reaches Q := (rtc (micro Q)).

Lemma put_new_only d n i s : touches_only d n s (put_new d n i s).
Proof.
  intros Hs. split; [apply (refs_ok_change (fun _ _ => True) s); [|done]; apply change_new; by right|].
  intros d' n' Hn. unfold find_info. rewrite find_ref_put_new, decide_False by naive_solver.
  destruct (find_ref d' n' s) as [r|] eqn:Er; [|done]. cbn. apply lookup_insert_ne.
  apply (ref_info _ Hs) in Er as [_ ?]. lia.
Qed.

Lemma alter_info_only d n r f s : find_ref d n s = Some r -> touches_only d n s (s <| infos_ ::= alter f r |>).
Proof.
  intros Hr Hs. split; [apply (refs_ok_change (fun _ _ => True) s); [|done]; by eapply change_info|].
  intros d' n' Hn. unfold find_info. rewrite find_ref_infos.
  destruct (find_ref d' n' s) as [r'|] eqn:Er; [|done]. cbn. apply lookup_alter_ne. intros <-.
  destruct (ref_inj _ Hs _ _ _ _ _ Hr Er). by apply Hn.
Qed.

Lemma update_only d n f s : touches_only d n s (update_info d n f s).
Proof. unfold update_info. destruct (find_ref d n s) as [r|] eqn:E; [by apply alter_info_only|done]. Qed.

Lemma touch_only d n db s : touches_only d n s (touch_db db s).
Proof.
  intros Hs. split; [apply (refs_ok_change (fun _ _ => True) s); [apply change_touch|done]|].
  intros d' n' _. unfold find_info. by rewrite find_ref_touch.
Qed.

Lemma erase_only d n s : touches_only d n s (erase_object d n s).
Proof.
  intros Hs. split.
  - assert (H : changes (fun _ _ => True) s (erase_object d n s)) by by apply erase_changes.
    revert Hs. induction H; eauto using refs_ok_change.
  - intros d' n' Hn. unfold find_info. by rewrite find_ref_erase, decide_False by naive_solver.
Qed.

Lemma cache_only d n f s : touches_only d n s (s <| object_cache_ ::= f |>).
Proof. intros [H1 H2]. split; [by split|done]. Qed.

#[export] Instance touches_only_preorder d n : PreOrder (touches_only d n).
Proof.
  split; [by intros s Hs|]. intros x y z Hxy Hyz Hx. destruct (Hxy Hx) as [Hy H1]. destruct (Hyz Hy) as [Hz H2].
  split; [done|]. intros d' n' Hn. by rewrite H2, H1.
Qed.

Section service_ops.
Context (db sh : string) (Hsh : no_colon sh) (s : DataService).
Local Abbreviation full := (full_name db sh).

Lemma write_started_only : touches_only db sh s (on_write_started db full s).
Proof.
  unfold on_write_started. rewrite split_full_full by done. etrans; [apply (touch_only _ _ db)|].
  destruct (find_info _ _ _); [case_decide; [done|]|]; apply put_new_only.
Qed.

Lemma write_failed_only : touches_only db sh s (on_write_failed db full s).
Proof.
  unfold on_write_failed. rewrite split_full_full by done. destruct (find_ref db sh s) as [r|] eqn:E; [|done].
  etrans; [by apply alter_info_only|apply erase_only].
Qed.

Lemma write_completed_only es : touches_only db sh s (write_back_complete db full es s).
Proof.
  unfold write_back_complete, on_object_flushed, on_write_completed. rewrite split_full_full by done.
  destruct es; [etrans|]; apply update_only.
Qed.

Lemma temp_started_only : touches_only db sh s (on_temp_write_started db full s).
Proof. unfold on_temp_write_started. rewrite split_full_full by done. apply put_new_only. Qed.

Lemma temp_write_only e : touches_only db sh s (on_temp_write db full e s).
Proof.
  unfold on_temp_write. rewrite split_full_full by done. etrans; [apply (touch_only _ _ db)|apply update_only].
Qed.
End service_ops.

Lemma write_error_only db sh s : no_colon sh -> touches_only db sh s (write_back_error db (full_name db sh) s).
Proof. intros Hsh. unfold write_back_error. etrans; [apply cache_only|by apply write_failed_only]. Qed.

Lemma commit_only db sh reg s : no_colon sh -> touches_only db sh s (DataIndex.commit_write db (full_name db sh) reg s).2.
Proof.
  intros Hsh. unfold DataIndex.commit_write. etrans; [by apply write_started_only|].
  set (s1 := on_write_started _ _ s).
  assert (H : touches_only db sh s1 (on_write_failed db (full_name db sh) (s1 <| object_cache_ ::= ObjectCache.remove (full_name db sh) |>)))
    by by apply write_error_only.
  destruct (reg s1); done.
Qed.

(** ** The calls as elementary steps *)

Lemma execute_queue u t q : execute u (t <| wbq_ := q |>) = execute u t <| wbq_ := q |>.
Proof.
  destruct u as [d tm txn|d tm data|d tm name total chunks|d name sz ch record hash txn]; try done. cbn [execute].
  change (get_writer d false (on_writer d false (open_segment txn) (t <| wbq_ := q |>)))
    with (get_writer d false (on_writer d false (open_segment txn) t)).
  destruct (get_writer _ _ _) as [w|]; [|done]. by destruct (closed_ w).
Qed.

Lemma drain_step t u q : wbq_ t = u :: q -> drain_write_back t = drain_write_back (run_unit t).
Proof.
  intros E. unfold drain_write_back, run_unit. rewrite E. cbn [foldl].
  rewrite !execute_queue. done.
Qed.

Lemma drain_reaches Q t : reaches Q t (drain_write_back t).
Proof.
  remember (wbq_ t) as q eqn:Eq. revert t Eq. induction q as [|u q IH]; intros t Eq.
  - unfold drain_write_back. rewrite <- Eq. cbn [foldl]. fold (clear_write_back t). replace (clear_write_back t) with t; [done|]. destruct t. cbn in Eq. by subst.
  - rewrite (drain_step t u q) by done. eapply rtc_l; [apply micro_run|]. apply IH. unfold run_unit. rewrite <- Eq.
    by rewrite execute_queue.
Qed.

Lemma micro_mode Q t t' : micro Q t t' -> transaction_mode_ t' = transaction_mode_ t.
Proof.
  intros []; try done.
  - unfold run_unit. destruct (wbq_ t); [done|]. by destruct (execute_same w (t <| wbq_ := l |>)) as [[] _].
  - unfold record_write. by destruct (transaction_mode_ t) eqn:E.
Qed.

Lemma reaches_mode Q t t' : reaches Q t t' -> transaction_mode_ t' = transaction_mode_ t.
Proof. induction 1 as [|x y z H1 _ IH]; [done|]. by rewrite IH, (micro_mode _ _ _ H1). Qed.

Lemma register_same db name pre answer stamp t e t' :
  register_write db name pre answer stamp t = (e, t') -> exists l, t' = t <| last_error_type_ := l |>.
Proof.
  unfold register_write, register_write_with_master. destruct (transaction_mode_ t).
  - destruct (register_precheck _ _ _ _) as [[e'|] l]; [intros [= <- <-]; by eexists|].
    destruct answer; intros [= <- <-]; [by eexists|]. exists (last_error_type_ t). by destruct t.
  - intros [= <- <-]. exists (last_error_type_ t). by destruct t.
Qed.

Lemma register_reaches Q db name pre answer stamp t : reaches Q t (register_write db name pre answer stamp t).2.
Proof.
  destruct (register_write _ _ _ _ _ t) as [e t'] eqn:E. apply register_same in E as [l ->]. apply rtc_once, micro_error.
Qed.

(** A hash that is set for one call. *)
Lemma hash_reaches Q (b : bool) h t : reaches Q t (if b then t <| current_write_hash_ := h |> else t).
Proof. destruct b; [apply rtc_once, micro_hash|done]. Qed.

Section calls.
Context (Q : string -> string -> Prop) (db name : string) (HQ : Q db name).

Lemma service_reaches f t : (no_colon name -> touches_only db name (service_ t) (f (service_ t))) -> reaches Q t (t <| service_ ::= f |>).
Proof. intros H. by eapply rtc_once, micro_service. Qed.

(** The segment is open when a stream was opened. *)
Lemma begin_stream_reaches temp t :
  transaction_mode_ t = true ->
  reaches Q t (begin_stream db temp t).2 /\ forall w, get_writer db temp (begin_stream db temp t).2 = Some w -> active w.
Proof.
  intros Hm. unfold begin_stream. cbn [snd]. rewrite Hm. split.
  - eapply rtc_l; [by apply (micro_queue _ _ (UnitBegin db temp true))|apply drain_reaches].
  - intros w. unfold drain_write_back. cbn. rewrite foldl_app. cbn [foldl].
    rewrite get_writer_execute. intros (w1 & _ & ->)%fmap_Some. cbn. rewrite decide_True by done.
    change (active (apply_op OpBeginIncremental (open_segment true w1))). rewrite apply_op_point. apply open_active.
Qed.

Lemma open_reaches temp answer stamp t ok self t' :
  open_write_stream db name temp answer stamp t = (ok, self, t') -> transaction_mode_ t = true ->
  reaches Q t t' /\ (ok = true -> forall w, get_writer db temp t' = Some w -> active w).
Proof.
  intros E Hm. unfold open_write_stream in E. destruct (databases_ t !! db) as [d|]; [|injection E as <- <- <-; done].
  destruct temp.
  - unfold open_temp_write_stream in E. destruct (temp_writer_ d); [|injection E as <- <- <-; done].
    destruct (begin_stream_reaches true t Hm) as [H1 H2]. destruct (begin_stream db true t) as [ok' t1].
    injection E as <- <- <-. done.
  - destruct (is_frozen_ d); [injection E as <- <- <-; split; [apply rtc_once, micro_error|done]|].
    set (t1 := if bool_decide _ then _ else t) in E. assert (H1 : reaches Q t t1) by apply hash_reaches.
    pose proof (register_reaches Q db name true answer stamp t1) as H2.
    destruct (register_write _ _ _ _ _ t1) as [e t2]. cbn [snd] in H2.
    assert (Hm2 : transaction_mode_ t2 = true) by (by rewrite (reaches_mode _ _ _ H2), (reaches_mode _ _ _ H1)).
    assert (H02 : reaches Q t t2) by by etrans. case_decide.
    + destruct (begin_stream_reaches false t2 Hm2) as [H3 H4]. destruct (begin_stream db false t2) as [ok' t3].
      injection E as <- <- <-. split; [by etrans|done].
    + injection E as <- <- <-. split; [|done]. etrans; [exact H02|]. etrans; [apply rtc_once, (micro_error Q t2 e)|].
      exact (hash_reaches Q (bool_decide _) "" (t2 <| last_error_type_ := e |>)).
Qed.

Lemma sinks_reaches temp chunks t :
  (forall w, get_writer db temp t = Some w -> active w) ->
  let t' := foldl (fun t data => sink db temp data t) t chunks in
  reaches Q t t' /\ forall w, get_writer db temp t' = Some w -> active w.
Proof.
  revert t. induction chunks as [|c chunks IH]; intros t Ha; cbn [foldl]; [done|].
  destruct (IH (sink db temp c t) Ha) as [H1 H2]. split; [|done]. eapply rtc_l; [|exact H1].
  by apply (micro_queue _ _ (UnitChunk db temp c)).
Qed.

Lemma commit_stream_reaches temp total chunks self answer stamp t :
  (forall w, get_writer db temp t = Some w -> active w) ->
  reaches Q t (commit_stream db name temp total chunks self answer stamp t).2.
Proof.
  intros Ha. etrans.
  { eapply rtc_l; [by apply (micro_queue _ _ (UnitFinish db temp name total chunks))|apply drain_reaches]. }
  unfold commit_stream, commit_temp_stream. cbv zeta. destruct temp; set (t1 := drain_write_back _); clearbody t1; clear Ha.
  - match goal with |- context [register_write _ _ _ _ _ ?x] => set (t2 := x) end. assert (H2 : reaches Q t1 t2).
    { etrans; [apply service_reaches; intros; by apply temp_started_only|]. etrans; [apply service_reaches; intros; by apply temp_write_only|].
      apply rtc_once, micro_record. }
    etrans; [exact H2|]. clearbody t2. clear H2. pose proof (register_reaches Q db name false answer stamp t2) as H3.
    destruct (register_write _ _ _ _ _ t2) as [e t3]. case_decide; [done|]. cbn [snd]. etrans; [exact H3|].
    etrans; [apply service_reaches; intros; by apply write_failed_only|]. apply rtc_once, micro_error.
  - match goal with |- context [register_write _ _ _ _ _ ?x] => set (t2 := x) end. assert (H2 : reaches Q t1 t2).
    { etrans; [apply service_reaches; intros; by apply write_started_only|]. unfold t2. case_decide; [apply rtc_once, micro_hash|done]. }
    etrans; [exact H2|]. clear H2.
    set (b := _ || _). clearbody t2 b. pose proof (register_reaches Q db name false answer stamp t2) as H3.
    destruct (register_write _ _ _ _ _ t2) as [e t3]. etrans; [exact H3|]. clear H3.
    case_decide; cbn [snd]; (etrans; [|apply hash_reaches]).
    + eapply rtc_l; [apply micro_record|]. apply service_reaches; intros; by apply write_completed_only.
    + etrans; [apply service_reaches; intros; by apply write_failed_only|]. apply rtc_once, micro_error.
Qed.

Lemma commit_write_reaches record sz ch answer stamp t :
  transaction_mode_ t = true -> reaches Q t (commit_write db name record sz ch answer stamp t).2.
Proof.
  intros Hm. unfold commit_write. cbv zeta. set (self := bool_decide _).
  set (t1 := if self then _ else t). assert (H1 : reaches Q t t1) by apply hash_reaches.
  etrans; [exact H1|]. assert (Hm1 : transaction_mode_ t1 = true) by by rewrite (reaches_mode _ _ _ H1).
  clearbody t1 self. clear H1 Hm.
  destruct (register_write _ _ _ _ _ _) as [e t2] eqn:Er. apply register_same in Er as [l ->].
  pose proof (commit_only db name (fun _ => e) (service_ t1)) as Hc.
  destruct (DataIndex.commit_write _ _ _ _) as [[r q] s]. cbn [snd] in Hc.
  assert (H2 : reaches Q t1 (t1 <| service_ ::= on_write_started db (full_name db name) |> <| last_error_type_ := l |> <| service_ := s |>)).
  { etrans; [by apply (service_reaches (fun _ => s))|]. exact (rtc_once _ _ (micro_error Q (t1 <| service_ := s |>) l)). }
  etrans; [exact H2|]. set (t2 := _ <| service_ := s |>). assert (Hm2 : transaction_mode_ t2 = true) by done.
  clearbody t2. clear H2. destruct q; cbn [snd]; (etrans; [|apply hash_reaches]).
  - eapply rtc_l; [apply (micro_record _ _ db name (Z.of_nat (length record)))|].
    apply rtc_once, micro_queue; [|done]. cbn. unfold record_write. by rewrite Hm2.
  - case_decide; [|done]. apply rtc_once, micro_error.
Qed.
End calls.

(** The objects an operation of the task writes. *)
Definition writes_to (db name : string) (op : task_op) : Prop :=
  match op with
  | TStream d n _ _ _ _ _ | TWrite d n _ _ _ _ _ => d = db /\ n = name
  | TStep => False
  end.

Definition plain_name (op : task_op) : Prop :=
  match op with TStream _ n _ _ _ _ _ | TWrite _ n _ _ _ _ _ => no_colon n | TStep => True end.

Lemma stream_reaches Q db name temp permit chunks commit stamp t :
  Q db name -> transaction_mode_ t = true -> reaches Q t (write_stream db name temp permit chunks commit stamp t).2.
Proof.
  intros HQ Hm. unfold write_stream. destruct (open_write_stream _ _ _ _ _ t) as [[ok self] t1] eqn:Eo.
  apply (open_reaches Q) in Eo as [H1 Ha]; [|done..]. destruct ok; [|done].
  destruct (sinks_reaches Q db temp chunks t1 (Ha eq_refl)) as [H2 Ha2].
  destruct commit as [[[total count] answer]|]; [|by etrans].
  pose proof (commit_stream_reaches Q db name HQ temp total count self answer stamp _ Ha2) as H3.
  destruct (commit_stream _ _ _ _ _ _ _ _ _). etrans; [exact H1|]. by etrans.
Qed.

Lemma step_reaches op t :
  transaction_mode_ t = true -> reaches (fun d n => writes_to d n op) t (task_step op t).
Proof.
  intros Hm. destruct op as [db name temp permit chunks commit stamp|db name record sz ch answer stamp|]; cbn [task_step].
  - by apply stream_reaches.
  - by apply commit_write_reaches.
  - apply rtc_once, micro_run.
Qed.

(** ** A task under way *)

Definition idle_worker (t : TaskWorker) : Prop :=
  wbq_ t = [] /\ databases_ t !! "" = None /\
  forall db temp w, get_writer db temp t = Some w -> idle_writer w /\ temp_mode_ w = temp.

(** A worker between tasks whose writers are those of the idle worker [base], or have
    a segment open that began there: a refused write leaves such a segment behind. *)
Definition rests_on (base t : TaskWorker) : Prop :=
  wbq_ t = [] /\
  forall db temp w0, get_writer db temp base = Some w0 -> exists w, get_writer db temp t = Some w /\ task_writer w0 w.

Record under_way (t0 t : TaskWorker) : Prop := {
  uw_mode : transaction_mode_ t = true;
  uw_link : link_ t = link_ t0;
  uw_id : tw_worker_id_ t = tw_worker_id_ t0;
  uw_writer : forall db temp w0, get_writer db temp t0 = Some w0 ->
    exists w, get_writer db temp t = Some w /\ task_writer w0 w;
  uw_queue : forall u, u ∈ wbq_ t -> unit_ok t u
}.

(** Only the writers, the queue and what identifies the task matter. *)
Lemma under_way_ext t0 t t' :
  databases_ t' = databases_ t -> wbq_ t' = wbq_ t -> transaction_mode_ t' = transaction_mode_ t -> link_ t' = link_ t ->
  tw_worker_id_ t' = tw_worker_id_ t -> under_way t0 t -> under_way t0 t'.
Proof.
  intros Hd Hq Hm Hl Hi [H1 H2 H3 H4 H5].
  assert (Hw : forall db temp, get_writer db temp t' = get_writer db temp t) by (intros; unfold get_writer; by rewrite Hd).
  split; try congruence.
  - intros db temp w0 H0. rewrite Hw. auto.
  - rewrite Hq. intros u Hu. specialize (H5 u Hu). destruct u; cbn in *; try done; intros w; rewrite Hw; auto.
Qed.

Section under_way.
Context (t0 : TaskWorker) (Hidle : idle_worker t0).

Lemma execute_under_way u t : unit_ok t u -> under_way t0 t -> under_way t0 (execute u t).
Proof.
  intros Hu [H1 H2 H3 H4 H5]. destruct (execute_same u t) as [[] Hq]. split; try congruence.
  - intros db temp w0 H0. destruct (H4 db temp w0 H0) as (w & Hw & Htw).
    rewrite get_writer_execute, Hw. cbn. eexists. split; [done|].
    destruct (unit_effect_ops u db temp w) as [->|[ops ->]]; [by eapply unit_ok_local|done|].
    right. destruct (open_task w0 w) as [ops' ->]; [by eapply Hidle|done|]. exists (ops' ++ ops). by rewrite apply_ops_app.
  - rewrite Hq. intros v Hv. apply unit_ok_execute; auto.
Qed.

Lemma micro_under_way Q t t' : micro Q t t' -> under_way t0 t -> under_way t0 t'.
Proof.
  intros Hstep Ht. destruct Hstep as [u Hu _| |d n f _ _|h|e|d n size]; try by apply (under_way_ext _ t).
  - destruct Ht as [H1 H2 H3 H4 H5]. split; try done. cbn.
    intros v [Hv| ->%list_elem_of_singleton]%elem_of_app; [exact (H5 v Hv)|exact Hu].
  - unfold run_unit. destruct (wbq_ t) as [|u q] eqn:Eq; [done|]. pose proof (uw_queue _ _ Ht) as Hq. rewrite Eq in Hq.
    apply execute_under_way; [apply Hq; by left|]. destruct Ht as [H1 H2 H3 H4 H5]. split; try done.
    cbn. intros v Hv. apply Hq. by right.
  - unfold record_write. destruct (transaction_mode_ t); by apply (under_way_ext _ t).
Qed.

Lemma reaches_under_way Q t t' : reaches Q t t' -> under_way t0 t -> under_way t0 t'.
Proof. induction 1; eauto using micro_under_way. Qed.

Lemma run_under_way ops t : under_way t0 t -> under_way t0 (task_run ops t).
Proof.
  revert t. induction ops as [|op ops IH]; intros t Ht; [done|]. apply IH.
  eapply reaches_under_way; [apply step_reaches; apply Ht|done].
Qed.

Lemma idle_rests : rests_on t0 t0.
Proof. split; [apply Hidle|]. intros db temp w0 H0. exists w0. split; [done|by left]. Qed.

Lemma resume_under_way task_id hash t :
  rests_on t0 t -> link_ t = link_ t0 -> tw_worker_id_ t = tw_worker_id_ t0 ->
  under_way t0 (begin_task task_id hash t).
Proof.
  intros [Hq Hw] Hl Hi. split; try done. cbn. rewrite Hq. by intros u ?%elem_of_nil.
Qed.

Lemma begin_under_way task_id hash : under_way t0 (begin_task task_id hash t0).
Proof. by apply resume_under_way; [apply idle_rests|..]. Qed.
End under_way.

(** The idle worker with the link and the id of another. *)
Definition as_worker (t base : TaskWorker) : TaskWorker :=
  base <| tw_worker_id_ := tw_worker_id_ t |> <| link_ := link_ t |>.

(** ** Undoing a task *)

Lemma get_writers_on d tm db f t :
  get_writer d tm (on_writers db f t) = if decide (d = db) then f <$> get_writer d tm t else get_writer d tm t.
Proof. unfold on_writers. rewrite !get_writer_on. destruct tm; repeat case_decide; naive_solver. Qed.

Definition forget (full : string) (s : DataService) : DataService :=
  remove_local_index full s <| object_cache_ ::= ObjectCache.remove full |>.

(** [abort_task_writes] in one step. *)
Lemma abort_eq db l t :
  abort_task_writes db l t =
    on_writers db abort_segment t <| wbq_ := [] |> <| service_ ::= (fun s => foldl (fun s full => forget full s) s l) |>.
Proof.
  unfold abort_task_writes. replace (drain_write_back (clear_write_back t)) with (t <| wbq_ := [] |>) by (by destruct t).
  cbv zeta. transitivity ((on_writers db abort_segment (t <| wbq_ := [] |>))
    <| service_ ::= (fun s => foldl (fun s full => forget full s) s l) |>); [|done].
  generalize (on_writers db abort_segment (t <| wbq_ := [] |>)) as t1. clear t.
  induction l as [|full l IH]; intros t1; cbn [foldl]; [by destruct t1|]. rewrite IH. by destruct t1.
Qed.

Lemma forget_all l s d n :
  find_ref d n s = None \/ (exists full, full ∈ l /\ split_full full = (d, n)) ->
  find_ref d n (foldl (fun s full => forget full s) s l) = None.
Proof.
  revert s. induction l as [|full l IH]; intros s H; cbn [foldl].
  { by destruct H as [?|(? & ?%elem_of_nil & _)]. }
  apply IH. unfold forget, remove_local_index. destruct (split_full full) as [db sh] eqn:E.
  rewrite !find_ref_cache, find_ref_erase. case_decide as Hd; [by left|].
  destruct H as [?|(f & [->|Hf]%elem_of_cons & Hs)]; [by left| |right; by exists f]. rewrite E in Hs. naive_solver.
Qed.

(** What the clean-up does to the databases of a list, each of which occurs once. *)
Lemma cleanup_list dirty l t :
  NoDup l ->
  let t' := foldl (fun t db => match databases_ t !! db with
                               | None => t | Some _ => abort_task_writes db (dirty_of db dirty) t end) t l in
  (forall db temp, get_writer db temp t' = if decide (db ∈ l) then abort_segment <$> get_writer db temp t else get_writer db temp t) /\
  (forall db, is_Some (databases_ t' !! db) <-> is_Some (databases_ t !! db)) /\
  link_ t' = link_ t /\ (wbq_ t = [] \/ (exists db, db ∈ l /\ is_Some (databases_ t !! db)) -> wbq_ t' = []) /\
  (forall d n, find_ref d n (service_ t) = None \/
     (exists db full, db ∈ l /\ is_Some (databases_ t !! db) /\ full ∈ dirty_of db dirty /\ split_full full = (d, n)) ->
     find_ref d n (service_ t') = None).
Proof.
  revert t. induction l as [|db l IH]; intros t Hnd; cbn [foldl].
  { split_and!; try done.
    - by intros [?|(db & ?%elem_of_nil & _)].
    - by intros d n [?|(db & full & ?%elem_of_nil & _)]. }
  apply NoDup_cons in Hnd as [Hn Hnd].
  set (t1 := match databases_ t !! db with None => t | Some _ => _ end).
  assert (Hw : forall d tm, get_writer d tm t1 = if decide (d = db) then abort_segment <$> get_writer d tm t else get_writer d tm t).
  { intros d tm. unfold t1. destruct (databases_ t !! db) as [x|] eqn:E.
    - rewrite abort_eq. change (get_writer d tm (?y <| wbq_ := [] |> <| service_ ::= _ |>)) with (get_writer d tm y).
      apply get_writers_on.
    - case_decide as Hd; [|done]. subst d. unfold get_writer. by rewrite E. }
  assert (Hdb : forall d, is_Some (databases_ t1 !! d) <-> is_Some (databases_ t !! d)).
  { intros d. unfold t1. destruct (databases_ t !! db) as [x|]; [|done]. rewrite abort_eq. cbn.
    rewrite !lookup_alter_is_Some. done. }
  assert (Hl : link_ t1 = link_ t) by (unfold t1; destruct (databases_ t !! db); [by rewrite abort_eq|done]).
  assert (Hq : wbq_ t = [] \/ is_Some (databases_ t !! db) -> wbq_ t1 = []).
  { unfold t1. destruct (databases_ t !! db) as [x|]; [by rewrite abort_eq|]. intros [?|[? ?]]; done. }
  assert (Hs : forall d n, find_ref d n (service_ t) = None \/
      (is_Some (databases_ t !! db) /\ exists full, full ∈ dirty_of db dirty /\ split_full full = (d, n)) ->
      find_ref d n (service_ t1) = None).
  { intros d n H. unfold t1. destruct (databases_ t !! db) as [x|]; [|destruct H as [?|[[? ?] _]]; done].
    rewrite abort_eq. cbn. apply forget_all. destruct H as [?|[_ ?]]; auto. }
  clearbody t1. destruct (IH t1 Hnd) as (IHw & IHd & IHl & IHq & IHs). split_and!.
  - intros d tm. rewrite IHw, Hw. destruct (decide (d ∈ db :: l)) as [[->|Hin]%elem_of_cons|Hout].
    + by rewrite decide_False, decide_True.
    + rewrite decide_True, decide_False by (done || by intros ->). done.
    + rewrite elem_of_cons in Hout. by rewrite !decide_False by naive_solver.
  - intros d. by rewrite IHd.
  - congruence.
  - intros [H|(d & [->|Hd]%elem_of_cons & Hx)]; apply IHq; [left; auto|left; auto|right]. exists d. by rewrite Hdb.
  - intros d n [H|(x & full & [->|Hx]%elem_of_cons & Hx2 & Hf & Hsp)]; apply IHs; [left; auto|left; apply Hs; eauto|].
    right. exists x, full. by rewrite Hdb.
Qed.

Lemma involved_spec db writes :
  db ∈ elements (involved_dbs writes) <-> db <> "" /\ exists w, w ∈ writes /\ (split_full_name (wr_full_name_ w)).1 = db.
Proof.
  rewrite elem_of_elements. unfold involved_dbs. rewrite elem_of_difference, elem_of_list_to_set, list_elem_of_fmap.
  rewrite not_elem_of_singleton. naive_solver.
Qed.

Lemma task_writer_abort w0 w :
  idle_writer w0 -> task_writer w0 w ->
  files_ (abort_segment w) = files_ w0 /\ file_index_ (abort_segment w) = file_index_ w0 /\
  current_file_size_ (abort_segment w) = current_file_size_ w0 /\
  sp_active_ (segment_point_ (abort_segment w)) = false /\ writer_inv (abort_segment w).
Proof.
  intros [Hi Ho Hs] [->|[ops ->]].
  - unfold abort_segment. by rewrite Hs.
  - destruct (abort_restores_files ops w0 Hi Ho) as (H1 & H2 & _ & H4 & H5 & H6). done.
Qed.

(** C10: A failed task is undone.  The worker starts the task with an empty write-back queue;
    each of its writers is at rest, or has a segment open that an earlier task's refused
    write left behind ([base] is the worker before these segments).  However the writes of
    the task then went, streamed or whole, accepted, refused or broken off, and however far
    the write-back queue has got: after a
    failure, or a success with a refused write, the worker reports all that was
    recorded as written, and a master with sound books that takes the report, because it has a connection
    to the worker and does not find the report stale, withdraws each of these
    objects; on the worker none of those in an open database can be found any more, and in every
    such database the data files are again what they were in [base]: what they were
    when the task began, unless an earlier task left its segment open, whose bytes then go too. *)
Theorem failed_task_undone base t0 task_id hash ops result :
  idle_worker base -> rests_on base t0 ->
  let t1 := task_run ops (begin_task task_id hash t0) in
  let t2 := finish_task task_id result t1 in
  let dirty := wr_full_name_ <$> current_writes_ t1 in
  (forall outputs, result = ExecSuccess outputs -> last_error_type_ t1 <> UNKNOWN) ->
  (exists msg, link_ t2 = WorkerReports.send_master_or_buffer (ReportFailed msg) (link_ t0) /\
     tf_task_id_ msg = task_id /\ tf_worker_id_ msg = tw_worker_id_ t0 /\ tf_dirty_objects_ msg = dirty /\
     forall c env m full, books m -> is_Some (worker_to_conn_ m !! tw_worker_id_ t0) ->
       stale_report task_id (tw_worker_id_ t0) m = false -> full ∈ dirty -> withdrawn full (on_task_failed c env msg m)) /\
  forall full db sh w0,
    full ∈ dirty -> split_full_name full = (db, sh) -> get_writer db false base = Some w0 ->
    wbq_ t2 = [] /\ lookup_under_lock full (service_ t2) = NotFound /\
    forall temp w, get_writer db temp base = Some w ->
      exists w', get_writer db temp t2 = Some w' /\ files_ w' = files_ w /\ file_index_ w' = file_index_ w /\
        current_file_size_ w' = current_file_size_ w /\ sp_active_ (segment_point_ w') = false /\ writer_inv w'.
Proof.
  intros Hidle Hrest t1 t2 dirty Hfail. change (idle_worker (as_worker t0 base)) in Hidle.
  assert (H1 : under_way (as_worker t0 base) t1) by (apply run_under_way; [done|by apply resume_under_way]).
  set (te := (end_task t1).2). set (ws := current_writes_ t1).
  assert (E2 : exists error, t2 = send_master_or_buffer (ReportFailed (failed_report task_id error ws te)) (cleanup_failed_task_writes ws te)).
  { unfold t2, finish_task. cbn [end_task]. fold ws. destruct result as [outputs|error]; [|by eexists].
    rewrite decide_False by by eapply Hfail. by eexists. }
  destruct E2 as [error E2].
  destruct (cleanup_list ws (elements (involved_dbs ws)) te) as (Hw & Hd & Hl & Hq & Hs); [apply NoDup_elements|].
  fold (cleanup_failed_task_writes ws te) in Hw, Hd, Hl, Hq, Hs. clearbody t2. subst t2.
  set (tc := cleanup_failed_task_writes ws te) in *. clearbody tc. split.
  - exists (failed_report task_id error ws te). assert (Hid : tw_worker_id_ te = tw_worker_id_ t0) by apply H1.
    split_and!; [cbn; rewrite Hl; cbn; by rewrite (uw_link _ _ H1)|done|done|done|].
    intros c env m full Hb Hc Hst Hin. rewrite <- Hid in Hc, Hst. by apply failed_task_leaves_nothing.
  - intros full db sh w0 Hin Hsp H0.
    assert (Hne : db <> "").
    { intros ->. destruct Hidle as (_ & Hnone & _). change (databases_ base !! "" = None) in Hnone. unfold get_writer in H0. by rewrite Hnone in H0. }
    destruct (split_full_name_inv _ _ _ Hsp Hne) as [-> Hnc].
    assert (Hdb : is_Some (databases_ te !! db)).
    { destruct (uw_writer _ _ H1 db false w0 H0) as (w & Hw1 & _). unfold get_writer in Hw1. cbn. by destruct (databases_ t1 !! db). }
    assert (Hinv : db ∈ elements (involved_dbs ws)).
    { apply involved_spec. split; [done|]. apply list_elem_of_fmap in Hin as (r & Er & Hr). exists r. by rewrite <- Er, Hsp. }
    split_and!.
    + cbn. apply Hq. right. by exists db.
    + unfold lookup_under_lock. rewrite split_full_full by done. cbn. rewrite Hs; [done|]. right. exists db, (full_name db sh).
      split_and!; [done|done| |by apply split_full_full]. unfold dirty_of. apply list_elem_of_filter. by rewrite Hsp.
    + intros temp w Hw0. destruct (uw_writer _ _ H1 db temp w Hw0) as (w1 & Hw1 & Htw).
      assert (Hiw : idle_writer w) by (destruct Hidle as (_ & _ & Hall); by destruct (Hall db temp w Hw0)).
      destruct (task_writer_abort w w1 Hiw Htw) as (F1 & F2 & F3 & F4 & F5). exists (abort_segment w1). split_and!; try done.
      cbn. change (get_writer db temp (send_master_or_buffer ?r ?x)) with (get_writer db temp x). rewrite Hw, decide_True by done.
      change (get_writer db temp te) with (get_writer db temp t1). by rewrite Hw1.
Qed.

(** ** What a completed task leaves *)

(** The unit writes an object of its database. *)
Definition concerns (db name : string) (u : WriteUnit) : Prop :=
  match u with UnitRecord d n _ _ _ _ _ | UnitFinish d _ n _ _ => d = db /\ n = name | _ => False end.

Definition plain_unit (u : WriteUnit) : Prop :=
  match u with UnitRecord _ n _ _ _ _ _ => no_colon n | _ => True end.

Lemma execute_service u t :
  plain_unit u ->
  (refs_ok (service_ t) -> refs_ok (service_ (execute u t))) /\
  forall db name, ~ concerns db name u -> refs_ok (service_ t) ->
    find_info db name (service_ (execute u t)) = find_info db name (service_ t).
Proof.
  destruct u as [d tm txn|d tm data|d tm n total chunks|d n sz ch record hash txn]; cbn [execute plain_unit concerns]; try done.
  intros Hn. set (t1 := on_writer _ _ _ t). change (service_ t) with (service_ t1).
  assert (H : touches_only d n (service_ t1) (service_ (match get_writer d false t1 with None => t1 | Some w =>
     if closed_ w then t1 <| service_ ::= write_back_error d (full_name d n) |> else
     let w := flush (write_record_checked n sz ch record hash w).2 in on_writer d false (fun _ => w) t1
       <| service_ ::= write_back_complete d (full_name d n) (writer_get_all_entries n w) |> end))).
  { destruct (get_writer d false t1) as [w|]; [|done]. destruct (closed_ w); cbn; [by apply write_error_only|by apply write_completed_only]. }
  split; [intros Hs; by apply H|]. intros db name Hc Hs. apply H; [done|]. naive_solver.
Qed.

Lemma save_clean x : modified_ (save x) = false /\ LocalIndex.entries_ (save x) = LocalIndex.entries_ x.
Proof. unfold save. by destruct (modified_ x) eqn:E. Qed.

Lemma begin_index w : index_ (begin_incremental w).2 = index_ w.
Proof. unfold begin_incremental. destruct (closed_ w); [done|]. cbn. by case_decide. Qed.

Lemma open_index txn w :
  modified_ (index_ (open_segment txn w)) = modified_ (index_ w) /\
  LocalIndex.entries_ (index_ (open_segment txn w)) = LocalIndex.entries_ (index_ w).
Proof. unfold open_segment. by destruct (txn && _). Qed.

(** Between units the index is saved, and only the unit's own object gets entries. *)
Lemma unit_effect_index u db temp w :
  modified_ (index_ w) = false ->
  modified_ (index_ (unit_effect u db temp w)) = false /\
  forall name, ~ concerns db name u ->
    find_all_entries name (index_ (unit_effect u db temp w)) = find_all_entries name (index_ w).
Proof.
  intros Hm. unfold find_all_entries.
  destruct u as [d tm txn|d tm data|d tm n total chunks|d n sz ch record hash txn]; cbn [unit_effect concerns];
    (case_decide as Hd; [|done]).
  - rewrite begin_index. destruct (open_index txn w) as [-> ->]. done.
  - unfold append_incremental. by destruct (incremental_offset_ w).
  - cbn. destruct (save_clean (index_ (finish_incremental n total chunks "" w))) as [-> ->]. split; [done|].
    intros name Hn. unfold finish_incremental. destruct (incremental_offset_ w); [|done]. cbn.
    unfold push_entry. apply lookup_insert_ne. cbn. naive_solver.
  - destruct (open_index txn w) as [H1 H2]. cbv zeta. set (w1 := open_segment txn w) in *. rewrite <- H2. clearbody w1.
    destruct (closed_ w1) eqn:Ec; [by rewrite H1|]. cbn.
    destruct (save_clean (index_ (write_record n sz ch record hash w1))) as [-> ->]. split; [done|].
    intros name Hn. unfold write_record. rewrite Ec. cbn. case_decide; cbn;
      unfold push_entry; apply lookup_insert_ne; cbn; naive_solver.
Qed.

Record tidy (t : TaskWorker) : Prop := {
  td_refs : refs_ok (service_ t);
  td_names : forall u, u ∈ wbq_ t -> plain_unit u;
  td_clean : forall db temp w, get_writer db temp t = Some w -> modified_ (index_ w) = false
}.

Lemma micro_tidy Q t t' : (forall d n, Q d n -> no_colon n) -> micro Q t t' -> tidy t -> tidy t'.
Proof.
  intros HQ Hstep [H1 H2 H3]. destruct Hstep as [u _ Hu| |d n f Hd Hf|h|e|d n size]; try done.
  - split; try done. cbn. intros v [Hv| ->%list_elem_of_singleton]%elem_of_app; [by apply H2|].
    destruct u; cbn; try done. by eapply HQ.
  - unfold run_unit. destruct (wbq_ t) as [|u q] eqn:Eq; [by split; rewrite ?Eq|]. set (t1 := t <| wbq_ := q |>).
    destruct (execute_service u t1) as [Hr _]; [apply H2; by left|]. destruct (execute_same u t1) as [_ Hq]. split.
    + by apply Hr.
    + rewrite Hq. intros v Hv. apply H2. by right.
    + intros db temp w'. rewrite get_writer_execute. intros (w & Hw & ->)%fmap_Some. eapply unit_effect_index, H3. exact Hw.
  - split; try done. cbn. apply Hf; [by eapply HQ|done].
  - unfold record_write. by destruct (transaction_mode_ t).
Qed.

Lemma reaches_tidy Q t t' : (forall d n, Q d n -> no_colon n) -> reaches Q t t' -> tidy t -> tidy t'.
Proof. intros HQ. induction 1; eauto using micro_tidy. Qed.

Lemma writes_plain op d n : plain_name op -> writes_to d n op -> no_colon n.
Proof. destruct op; cbn; try done; by intros ? [_ <-]. Qed.

Lemma run_tidy ops t :
  (forall op, op ∈ ops -> plain_name op) -> transaction_mode_ t = true -> tidy t -> tidy (task_run ops t).
Proof.
  revert t. induction ops as [|op ops IH]; intros t Hops Hm Ht; [done|]. pose proof (step_reaches op t Hm) as Hr.
  apply IH; [intros; apply Hops; by right|by rewrite (reaches_mode _ _ _ Hr)|].
  eapply reaches_tidy; [|exact Hr|done]. intros d n. apply writes_plain, Hops. by left.
Qed.

(** What was recorded stays recorded. *)
Lemma run_records ops t r : transaction_mode_ t = true -> r ∈ current_writes_ t -> r ∈ current_writes_ (task_run ops t).
Proof.
  revert t. induction ops as [|op ops IH]; intros t Hm Hr; [done|]. pose proof (step_reaches op t Hm) as H.
  apply IH; [by rewrite (reaches_mode _ _ _ H)|]. clear IH Hm. induction H as [|x y z Hxy _ IH]; [done|]. apply IH.
  destruct Hxy as [u Hu _| |d n f _ _|h|e|d n size]; try done.
  - unfold run_unit. destruct (wbq_ x) as [|u q]; [done|]. destruct (execute_same u (x <| wbq_ := q |>)) as [[_ _ -> _ _ _] _]. done.
  - unfold record_write. destruct (transaction_mode_ x); [|done]. cbn. apply elem_of_app. by left.
Qed.

(** A write that is done: its entry is in the index of the service and of the
    writer, whose files only grow from [wf] on. *)
Section kept.
Context (db name : string) (wf : DataWriter) (i : LocalObjectInfo) (es : list IndexEntry) (Hwf : active wf).

Record kept_write (t : TaskWorker) : Prop := {
  kw_tidy : tidy t;
  kw_units : forall u, u ∈ wbq_ t -> unit_ok t u /\ ~ concerns db name u;
  kw_info : find_info db name (service_ t) = Some i;
  kw_writer : exists ops, get_writer db false t = Some (apply_ops ops wf) /\ find_all_entries name (index_ (apply_ops ops wf)) = Some es
}.

Lemma micro_kept Q t t' :
  (forall d n, Q d n -> no_colon n /\ ~ (d = db /\ n = name)) -> micro Q t t' -> kept_write t -> kept_write t'.
Proof.
  intros HQ Hstep [Ht Hu Hi Hw].
  assert (Ht' : tidy t') by (apply (micro_tidy Q t); [intros d n Hd; by apply (HQ d n)|done|done]).
  destruct Hstep as [u Huo Hun| |d n f Hd Hf|h|e|d n size]; try by split.
  - split; try done. cbn. intros v [Hv| ->%list_elem_of_singleton]%elem_of_app; [exact (Hu v Hv)|]. split; [exact Huo|].
    destruct u; cbn; try naive_solver; intros Hc; by eapply HQ.
  - unfold run_unit in *. destruct (wbq_ t) as [|u q] eqn:Eq; [by split; rewrite ?Eq|]. set (t1 := t <| wbq_ := q |>) in *.
    destruct (Hu u) as [Huo Hun]; [by left|]. destruct (execute_same u t1) as [_ Hq].
    destruct (execute_service u t1) as [_ Hs]; [apply (td_names _ Ht); rewrite Eq; by left|]. split.
    + done.
    + rewrite Hq. intros v Hv. destruct (Hu v) as [? ?]; [by right|]. split; [|done]. by apply (unit_ok_execute t1).
    + rewrite Hs; [done|done|apply Ht].
    + destruct Hw as (ops & Hw & He). rewrite get_writer_execute. change (get_writer db false t1) with (get_writer db false t).
      rewrite Hw. cbn. assert (Ha : active (apply_ops ops wf)) by by rewrite apply_ops_point.
      destruct (unit_effect_index u db false (apply_ops ops wf)) as [_ Hf]; [by eapply (td_clean _ Ht)|]. rewrite <- (Hf name Hun) in He.
      destruct (unit_effect_ops u db false (apply_ops ops wf)) as [E|[ops' E]]; [by eapply (unit_ok_local t)|by exists ops; rewrite E in *|].
      rewrite open_already, <- apply_ops_app in E by done. exists (ops ++ ops'). by rewrite E in *.
  - split; try done. cbn. destruct (HQ d n Hd) as [Hn Hne]. destruct (Hf Hn) as [_ Hk]; [apply Ht|]. rewrite Hk; [done|].
    intros [-> ->]. by apply Hne.
  - unfold record_write in *. destruct (transaction_mode_ t); by split.
Qed.

Lemma reaches_kept Q t t' :
  (forall d n, Q d n -> no_colon n /\ ~ (d = db /\ n = name)) -> reaches Q t t' -> kept_write t -> kept_write t'.
Proof. intros HQ. induction 1; eauto using micro_kept. Qed.

Lemma run_kept ops t :
  (forall op, op ∈ ops -> plain_name op /\ ~ writes_to db name op) -> transaction_mode_ t = true ->
  kept_write t -> kept_write (task_run ops t).
Proof.
  revert t. induction ops as [|op ops IH]; intros t Hops Hm Hk; [done|]. pose proof (step_reaches op t Hm) as Hr.
  destruct (Hops op) as [Hp Hn]; [by left|]. apply IH; [intros; apply Hops; by right|by rewrite (reaches_mode _ _ _ Hr)|].
  eapply reaches_kept; [|exact Hr|done]. intros d n Hd. split; [by apply (writes_plain op d n)|]. intros [-> ->]. done.
Qed.
End kept.

(** ** A stream that was committed *)

Lemma drain_enqueue u t : drain_write_back (enqueue_write_back u t) = execute u (drain_write_back t).
Proof. unfold drain_write_back. cbn. by rewrite foldl_app. Qed.

Lemma sinks_eq db temp chunks t :
  foldl (fun t data => sink db temp data t) t chunks = t <| wbq_ ::= (fun q => q ++ (UnitChunk db temp <$> chunks)) |>.
Proof.
  revert t. induction chunks as [|c chunks IH]; intros t; cbn [foldl].
  - destruct t. cbn. by rewrite app_nil_r.
  - rewrite IH. cbn. by rewrite <- app_assoc.
Qed.

Lemma chunks_effect db temp chunks w :
  foldl (fun w u => unit_effect u db temp w) w (UnitChunk db temp <$> chunks) = foldl (fun w data => append_incremental data w) w chunks.
Proof.
  revert w. induction chunks as [|c chunks IH]; intros w; [done|]. cbn [fmap list_fmap foldl unit_effect].
  by rewrite decide_True.
Qed.

Lemma open_begins db name answer stamp t self t' :
  open_write_stream db name false answer stamp t = (true, self, t') -> transaction_mode_ t = true ->
  exists tb, reaches (fun d n => d = db /\ n = name) t tb /\ begin_stream db false tb = (true, t').
Proof.
  intros E Hm. unfold open_write_stream in E. destruct (databases_ t !! db) as [d|]; [|done].
  destruct (is_frozen_ d); [done|]. set (t1 := if bool_decide _ then _ else t) in E.
  pose proof (register_reaches (fun d n => d = db /\ n = name) db name true answer stamp t1) as H2.
  destruct (register_write _ _ _ _ _ t1) as [e t2]. cbn [snd] in H2. case_decide; [|done].
  destruct (begin_stream db false t2) as [ok t3] eqn:Eb. injection E as -> _ <-. exists t2. split; [|done].
  etrans; [|exact H2]. apply hash_reaches.
Qed.

Lemma find_info_update d n f s : find_info d n (update_info d n f s) = f <$> find_info d n s.
Proof.
  unfold update_info, find_info. destruct (find_ref d n s) as [r|] eqn:E; [|by rewrite E].
  rewrite find_ref_infos, E. cbn. apply lookup_alter_eq.
Qed.

Lemma started_info db name s : no_colon name -> is_Some (find_info db name (on_write_started db (full_name db name) s)).
Proof.
  intros Hn. unfold on_write_started. rewrite split_full_full by done.
  assert (Hnew : forall i s, is_Some (find_info db name (put_new db name i s))).
  { intros i s'. unfold find_info. rewrite find_ref_put_new, decide_True by done. cbn. by rewrite lookup_insert_eq. }
  destruct (find_info db name (touch_db db s)) as [i|] eqn:E; [case_decide; [by rewrite E|]|]; apply Hnew.
Qed.

Lemma completed_info db name es s :
  no_colon name ->
  exists i, find_info db name (write_back_complete db (full_name db name) (Some es) (on_write_started db (full_name db name) s)) = Some i /\
    DataIndex.entries_ i = es /\ completion_state_ i = COMPLETE.
Proof.
  intros Hn. destruct (started_info db name s Hn) as [i Hi].
  unfold write_back_complete, on_object_flushed, on_write_completed. rewrite split_full_full by done.
  rewrite !find_info_update, Hi. by eexists.
Qed.

(** What an accepted commit leaves. *)
Lemma commit_stream_ok db name total count self answer stamp ts t' :
  commit_stream db name false total count self answer stamp ts = (OK, t') -> transaction_mode_ t' = true ->
  let td := execute (UnitFinish db false name total count) (drain_write_back ts) in
  databases_ t' = databases_ td /\ wbq_ t' = [] /\
  service_ t' = write_back_complete db (full_name db name) (get_writer db false td ≫= writer_get_all_entries name)
                  (on_write_started db (full_name db name) (service_ td)) /\
  exists size, mkWriteRecord (full_name db name) size ∈ current_writes_ t'.
Proof.
  intros Ec Hm. cbv zeta. unfold commit_stream in Ec. cbv zeta in Ec. rewrite drain_enqueue in Ec.
  set (td := execute _ (drain_write_back ts)) in *.
  assert (Hqd : wbq_ td = []).
  { unfold td. destruct (execute_same (UnitFinish db false name total count) (drain_write_back ts)) as [_ ->]. apply drain_same. }
  match type of Ec with context [register_write _ _ _ _ _ ?x] => set (t2 := x) in Ec end.
  assert (H2 : databases_ t2 = databases_ td /\ wbq_ t2 = wbq_ td /\
    service_ t2 = on_write_started db (full_name db name) (service_ td)) by (unfold t2; by case_decide).
  clearbody t2. destruct (register_write _ _ _ _ _ t2) as [e t3] eqn:Er. apply register_same in Er as [l ->].
  set (b := self || _) in Ec. clearbody b. case_decide; [|injection Ec as Er _; by destruct e].
  set (w := get_writer db false td) in *. clearbody td w. destruct H2 as (Hd & Hq & Hs). rewrite <- Hd, <- Hs.
  pose proof (f_equal snd Ec) as Et. cbn [snd] in Et. unfold record_write in Et.
  change (transaction_mode_ (t2 <| last_error_type_ := l |>)) with (transaction_mode_ t2) in Et.
  destruct (transaction_mode_ t2) eqn:Em.
  - subst t'. destruct b; (split_and!; [done|cbn; congruence|done|]); eexists; cbn; apply elem_of_app; right; by left.
  - subst t'. exfalso. destruct b; cbn in Hm; congruence.
Qed.

(** The record of a stream in the files and in the index of its writer. *)
Lemma stream_record name total count chunks w0 ops1 :
  idle_writer w0 -> temp_mode_ w0 = false ->
  let w1 := apply_ops ops1 (writer_mark_begin w0) in
  closed_ w1 = false ->
  let wf := flush (write_incremental name total count chunks "" w1) in
  exists ops old e, wf = apply_ops ops (writer_mark_begin w0) /\ find_all_entries name (index_ wf) = Some (old ++ [e]) /\
    forall ops d, on_disk (apply_ops ops wf) (write_dir false d) -> read_raw_from_entry d e = Some (concat chunks).
Proof.
  intros [Hinv _ _] Htemp w1 Hopen wf.
  assert (Hinv1 : writer_inv w1 /\ evolves (writer_mark_begin w0) w1) by (apply apply_ops_inv; destruct Hinv; by constructor).
  destruct (incremental_record_stays_readable name total count chunks "" w1 (proj1 Hinv1) Hopen) as (e & He & Hread).
  destruct Hinv1 as [_ [_ Htm _ _ _ _ _]]. cbn in Htm. rewrite Htm, Htemp in Hread.
  eexists _, _, e. split_and!.
  - unfold wf, w1. rewrite write_incremental_ops. change (flush ?x) with (apply_ops [DataWriter.OpFlush] x).
    by rewrite <- !apply_ops_app.
  - unfold wf, find_all_entries. cbn. destruct (save_clean (index_ (write_incremental name total count chunks "" w1))) as [_ ->]. exact He.
  - intros ops d Hdir. apply (Hread (DataWriter.OpFlush :: ops) d); [done|done|]. left. apply list_elem_of_here.
Qed.

Section stream.
Context (t0 : TaskWorker) (Hidle : idle_worker t0) (db name : string) (Hname : no_colon name) (w0 : DataWriter)
  (H0 : get_writer db false t0 = Some w0).

Lemma begin_writer tb t' :
  under_way t0 tb -> begin_stream db false tb = (true, t') ->
  exists ops, let w1 := apply_ops ops (writer_mark_begin w0) in
    closed_ w1 = false /\ get_writer db false t' = Some (begin_incremental w1).2 /\ wbq_ t' = [].
Proof.
  intros Ht. unfold begin_stream. rewrite drain_enqueue, (uw_mode _ _ Ht). intros E.
  pose proof (f_equal fst E) as Eo. pose proof (f_equal snd E) as Et. cbn [fst snd] in Eo, Et. subst t'. clear E.
  assert (Hd : under_way t0 (drain_write_back tb)).
  { eapply (reaches_under_way _ Hidle (fun _ _ => False)); [apply drain_reaches|done]. }
  destruct (uw_writer _ _ Hd db false w0 H0) as (w & Hw & Htw). destruct Hidle as (_ & _ & Hall).
  destruct (open_task w0 w) as [ops Hops]; [by destruct (Hall db false w0 H0)|done|]. exists ops. cbv zeta.
  assert (Hg : get_writer db false (execute (UnitBegin db false true) (drain_write_back tb)) =
    Some (begin_incremental (apply_ops ops (writer_mark_begin w0))).2).
  { rewrite get_writer_execute, Hw. cbn. by rewrite decide_True, Hops. }
  split; [|split; [done|]].
  - rewrite Hg in Eo. apply negb_true_iff in Eo. unfold begin_incremental in Eo.
    destruct (closed_ (apply_ops _ _)) eqn:Ec; [|done]. cbn in Eo. congruence.
  - destruct (execute_same (UnitBegin db false true) (drain_write_back tb)) as [_ ->]. apply drain_same.
Qed.

(** The files, the entries and the reports of a committed stream. *)
Lemma stream_written t permit chunks total count answer stamp t' :
  under_way t0 t -> tidy t ->
  write_stream db name false permit chunks (Some (total, count, answer)) stamp t = (Some OK, t') ->
  exists ops old e i size, let wf := apply_ops ops (writer_mark_begin w0) in
    kept_write db name wf i (old ++ [e]) t' /\ mkWriteRecord (full_name db name) size ∈ current_writes_ t' /\ under_way t0 t' /\
    DataIndex.entries_ i = old ++ [e] /\ completion_state_ i = COMPLETE /\
    forall ops d, on_disk (apply_ops ops wf) (write_dir false d) -> read_raw_from_entry d e = Some (concat chunks).
Proof.
  intros Ht Htidy E. set (Q := fun d n => d = db /\ n = name).
  assert (Hreach : reaches Q t t').
  { pose proof (stream_reaches Q db name false permit chunks (Some (total, count, answer)) stamp t) as H. rewrite E in H.
    apply H; [done|apply Ht]. }
  assert (HQ : forall d n, Q d n -> no_colon n) by by intros d n [_ ->].
  pose proof (reaches_under_way _ Hidle Q _ _ Hreach Ht) as Ht'. pose proof (reaches_tidy Q _ _ HQ Hreach Htidy) as Htidy'.
  unfold write_stream in E. destruct (open_write_stream _ _ _ _ _ t) as [[ok self] to] eqn:Eo. destruct ok; [|done].
  destruct (open_begins _ _ _ _ _ _ _ Eo (uw_mode _ _ Ht)) as (tb & Hb & Ebeg).
  destruct (begin_writer tb to (reaches_under_way _ Hidle Q _ _ Hb Ht) Ebeg) as (ops1 & Hopen & Hw & Hq).
  set (w1 := apply_ops ops1 (writer_mark_begin w0)) in *. clear Eo Ebeg.
  set (ts := foldl _ to chunks) in E. destruct (commit_stream _ _ _ _ _ _ _ _ ts) as [r tc] eqn:Ec. injection E as -> ->.
  destruct (commit_stream_ok _ _ _ _ _ _ _ _ _ Ec (uw_mode _ _ Ht')) as (Hd & Hq' & Hs & size & Hr). clear Ec.
  set (td := execute _ (drain_write_back ts)) in *.
  set (wf := flush (write_incremental name total count chunks "" w1)).
  assert (Hwf : get_writer db false td = Some wf).
  { unfold td. rewrite get_writer_execute. unfold drain_write_back. rewrite get_writer_units.
    unfold ts. rewrite sinks_eq. change (get_writer db false _) with (get_writer db false to). rewrite Hw. cbn. rewrite Hq. cbn.
    rewrite decide_True, chunks_effect by done. done. }
  clearbody td. clear Hw Hq ts.
  destruct Hidle as (_ & _ & Hall). destruct (Hall db false w0 H0) as [Hiw Htemp].
  destruct (stream_record name total count chunks w0 ops1 Hiw Htemp Hopen) as (ops & old & e & Eops & Hes & Hread).
  fold w1 in Eops, Hes, Hread. fold wf in Eops, Hes, Hread.
  assert (Hser : service_ t' = write_back_complete db (full_name db name) (Some (old ++ [e])) (on_write_started db (full_name db name) (service_ td))).
  { rewrite Hs, Hwf. cbn [mbind option_bind]. unfold writer_get_all_entries. by rewrite Hes. }
  destruct (completed_info db name (old ++ [e]) (service_ td) Hname) as (i & Hi & Hie & Hic). rewrite <- Hser in Hi.
  exists ops, old, e, i, size. cbv zeta. rewrite <- Eops. split_and!; try done.
  - split; try done.
    + rewrite Hq'. by intros u ?%elem_of_nil.
    + exists []. split; [|done]. unfold get_writer in *. by rewrite Hd.
Qed.
End stream.

(** ** The commit of the segments *)

Lemma drain_idle t : wbq_ t = [] -> drain_write_back t = t.
Proof. intros Hq. unfold drain_write_back. rewrite Hq. destruct t. cbn in Hq. by subst. Qed.

Lemma commit_list_idle l t :
  NoDup l -> wbq_ t = [] ->
  let t' := foldl (fun t db => match databases_ t !! db with None => t | Some _ => mark_write_end db (drain_write_back t) end) t l in
  (forall d tm, get_writer d tm t' = if decide (d ∈ l) then writer_mark_end <$> get_writer d tm t else get_writer d tm t) /\
  service_ t' = service_ t /\ link_ t' = link_ t.
Proof.
  revert t. induction l as [|db l IH]; intros t Hnd Hq; cbn [foldl]; [done|]. apply NoDup_cons in Hnd as [Hn Hnd].
  pose proof (drain_idle t Hq) as Hd.
  set (t1 := match databases_ t !! db with None => t | Some _ => _ end).
  assert (H1 : (forall d tm, get_writer d tm t1 = if decide (d = db) then writer_mark_end <$> get_writer d tm t else get_writer d tm t) /\
    service_ t1 = service_ t /\ link_ t1 = link_ t /\ wbq_ t1 = []).
  { unfold t1. rewrite Hd. destruct (databases_ t !! db) as [x|] eqn:E; split_and!; try done.
    - intros d tm. apply get_writers_on.
    - intros d tm. case_decide as Hc; [|done]. subst d. unfold get_writer. by rewrite E. }
  destruct H1 as (Hw & Hs & Hl & Hq1). clearbody t1. destruct (IH t1 Hnd Hq1) as (IHw & IHs & IHl). split_and!; try congruence.
  intros d tm. rewrite IHw, Hw. destruct (decide (d ∈ db :: l)) as [[->|Hin]%elem_of_cons|Hout].
  - by rewrite decide_False, decide_True.
  - rewrite decide_True, decide_False by (done || by intros ->). done.
  - rewrite elem_of_cons in Hout. by rewrite !decide_False by naive_solver.
Qed.

(** The queue is drained once, and then the segments end. *)
Lemma commit_list l t :
  NoDup l -> (exists db, db ∈ l /\ is_Some (databases_ t !! db)) ->
  let t' := foldl (fun t db => match databases_ t !! db with None => t | Some _ => mark_write_end db (drain_write_back t) end) t l in
  let td := drain_write_back t in
  (forall d tm, get_writer d tm t' = if decide (d ∈ l) then writer_mark_end <$> get_writer d tm td else get_writer d tm td) /\
  service_ t' = service_ td /\ link_ t' = link_ td.
Proof.
  revert t. induction l as [|db l IH]; intros t Hnd Hex; cbv zeta; [by destruct Hex as (? & ?%elem_of_nil & _)|].
  destruct (databases_ t !! db) as [x|] eqn:E.
  - assert (Hq : wbq_ (drain_write_back t) = []) by apply drain_same.
    assert (E2 : exists y, databases_ (drain_write_back t) !! db = Some y).
    { assert (Hg : is_Some (get_writer db false (drain_write_back t))).
      { unfold drain_write_back. rewrite get_writer_units. apply fmap_is_Some. unfold get_writer. cbn. by rewrite E. }
      unfold get_writer in Hg. destruct (databases_ (drain_write_back t) !! db); [by eexists|]. by destruct Hg. }
    destruct E2 as [y E2]. pose proof (commit_list_idle (db :: l) (drain_write_back t) Hnd Hq) as H.
    cbn [foldl] in H |- *. rewrite E. rewrite E2 in H.
    by rewrite (drain_idle (drain_write_back t)) in H.
  - apply NoDup_cons in Hnd as [Hn Hnd]. cbn [foldl]. rewrite E.
    destruct (IH t Hnd) as (Hw & Hs & Hl).
    { destruct Hex as (d & [->|Hd]%elem_of_cons & Hx); [by rewrite E in Hx; destruct Hx|by exists d]. }
    split_and!; try done. intros d tm. rewrite Hw. destruct (decide (d = db)) as [->|Hne].
    + assert (Hg : get_writer db tm (drain_write_back t) = None).
      { unfold drain_write_back. rewrite get_writer_units. unfold get_writer. cbn. by rewrite E. }
      rewrite Hg. by repeat case_decide.
    + destruct (decide (d ∈ db :: l)) as [[->|Hin]%elem_of_cons|Hout]; [done|by rewrite decide_True|].
      rewrite elem_of_cons in Hout. by rewrite decide_False by naive_solver.
Qed.

(** ** Reloading the index of a writer *)

Section reload.
Context `{IndexCodec}.

Lemma apply_op_agrees o w : agrees (index_ w) -> agrees (index_ (apply_op o w)).
Proof.
  intros Hw. destruct o; cbn [apply_op].
  - unfold write_record. destruct (closed_ w); [done|]. cbn. apply add_entry_agrees. by case_decide.
  - by rewrite begin_index.
  - unfold append_incremental. by destruct (incremental_offset_ w).
  - unfold finish_incremental. destruct (incremental_offset_ w); [|done]. by apply add_entry_agrees.
  - by apply save_agrees.
  - unfold close. destruct (closed_ w); [done|]. by apply save_agrees.
  - by apply remove_entry_agrees.
Qed.

Lemma apply_ops_agrees ops w : agrees (index_ w) -> agrees (index_ (apply_ops ops w)).
Proof. revert w. induction ops as [|o ops IH]; intros w Hw; [done|]. apply IH. by apply apply_op_agrees. Qed.

(** An index whose segment has ended is loaded back with its latest entries. *)
Lemma ended_reload w0 ops x name :
  agrees (index_ w0) -> l_in_segment (log_state (index_ w0)) = false ->
  let w := apply_ops ops (writer_mark_begin w0) in
  modified_ (index_ w) = false -> Forall rec_small (log_ (index_ (writer_mark_end w))) ->
  latest (LocalIndex.entries_ (load_index (idx_bytes (log_ (index_ (writer_mark_end w)))) x)) name =
  latest (LocalIndex.entries_ (index_ w)) name.
Proof.
  intros H0 Hseg w Hm Hsm. rewrite load_whole by done.
  assert (Hw : agrees (index_ w)) by (apply apply_ops_agrees, (index_step_agrees IBegin); [by intros _|done]).
  destruct (ag_clean _ Hw Hm) as [Ha Hr]. rewrite (ag_rest _ Hw name) by (by rewrite ?Ha, ?Hr).
  change (log_ (index_ (writer_mark_end w))) with (log_ (index_ w) ++ [append_marker END]). rewrite log_state_app.
  change (replay [append_marker END] ?s) with (replay_rec s (append_marker END)). by rewrite (replay_end _ (ag_seg _ Hw)).
Qed.
End reload.

(** C11: A completed task has stored what it streamed.  Whatever else the task writes
    before and after, once it has ended well the worker reports the object, its segment is closed,
    a local reader finds the object and gets exactly the bytes of the stream, whatever the writer's
    stream still has in its buffer, and so does
    a process that loads the index of the writer from its file. *)
Theorem completed_task_readable t0 task_id hash before db name permit chunks total count answer stamp after outputs w0 :
  idle_worker t0 -> tidy t0 -> get_writer db false t0 = Some w0 -> no_colon name ->
  (forall op, op ∈ before ++ after -> plain_name op) -> (forall op, op ∈ after -> ~ writes_to db name op) ->
  let t1 := task_run before (begin_task task_id hash t0) in
  let t2 := write_stream db name false permit chunks (Some (total, count, answer)) stamp t1 in
  t2.1 = Some OK ->
  let t3 := task_run after t2.2 in
  last_error_type_ t3 = UNKNOWN ->
  let t4 := finish_task task_id (ExecSuccess outputs) t3 in
  (exists msg size, link_ t4 = WorkerReports.send_master_or_buffer (ReportComplete msg) (link_ t0) /\
     tc_task_id_ msg = task_id /\ mkWrittenObject (full_name db name) size "" ∈ tc_written_objects_ msg) /\
  exists w old e, get_writer db false t4 = Some w /\ sp_active_ (segment_point_ w) = false /\
    has_local_object (full_name db name) (service_ t4) = true /\
    find_local_entries (full_name db name) (service_ t4) = Some (old ++ [e]) /\
    (forall d, on_disk w (write_dir false d) -> read_raw_from_entry d e = Some (concat chunks)) /\
    forall (C : IndexCodec) x, agrees (index_ w0) -> l_in_segment (log_state (index_ w0)) = false ->
      Forall rec_small (log_ (index_ w)) ->
      latest (LocalIndex.entries_ (load_index (idx_bytes (log_ (index_ w))) x)) name = Some (Some e).
Proof.
  intros Hidle Htidy H0 Hname Hplain Hafter t1 t2 Hok t3 Herr t4.
  assert (H1 : under_way t0 t1) by (apply run_under_way; [done|by apply begin_under_way]).
  assert (HT1 : tidy t1) by (apply run_tidy; [intros; apply Hplain; apply elem_of_app; by left|done|by destruct Htidy]).
  unfold t2 in *. clear t2. destruct (write_stream _ _ _ _ _ _ _ t1) as [r tw] eqn:Ew. cbn [fst snd] in *. subst r.
  destruct (stream_written t0 Hidle db name Hname w0 H0 _ _ _ _ _ _ _ _ H1 HT1 Ew)
    as (ops & old & e & i & size & Hk & Hr & H2 & Hie & Hic & Hread).
  set (wf := apply_ops ops (writer_mark_begin w0)) in *. assert (Hwf : active wf) by (unfold wf; by rewrite apply_ops_point).
  pose proof (uw_mode _ _ H2) as Hm. assert (H3 : under_way t0 t3) by by apply run_under_way.
  apply (run_records after) in Hr; [|done]. apply (run_kept _ _ _ _ _ Hwf after) in Hk; [|intros op Hop; split; [apply Hplain, elem_of_app; by right|by apply Hafter]|done].
  fold t3 in Hr, Hk. set (te := (end_task t3).2). set (ws := current_writes_ t3) in *.
  assert (E4 : t4 = send_master_or_buffer (ReportComplete (complete_report task_id outputs ws te)) (commit_task_segments ws te)).
  { unfold t4, finish_task. rewrite Herr. done. }
  assert (Hke : kept_write db name wf i (old ++ [e]) (drain_write_back te)).
  { apply (reaches_kept _ _ _ _ _ Hwf (fun _ _ => False) te); [done|apply drain_reaches|].
    destruct Hk as [[? ? ?] ? ? ?]. by split. }
  destruct (kw_writer _ _ _ _ _ _ Hke) as (ops' & Hw & Hent).
  assert (Hinv : db ∈ elements (involved_dbs ws)).
  { apply involved_spec. split; [|exists (mkWriteRecord (full_name db name) size); cbn; by rewrite split_full_name_full].
    intros ->. destruct Hidle as (_ & Hnone & _). unfold get_writer in H0. by rewrite Hnone in H0. }
  assert (Hdb : is_Some (databases_ te !! db)).
  { destruct (uw_writer _ _ H3 db false w0 H0) as (w & Hw3 & _). unfold get_writer in Hw3. cbn. by destruct (databases_ t3 !! db). }
  destruct (commit_list (elements (involved_dbs ws)) te) as (Cw & Cs & Cl); [apply NoDup_elements|by exists db|].
  fold (commit_task_segments ws te) in Cw, Cs, Cl. specialize (Cw db false). rewrite decide_True, Hw in Cw by done.
  set (tc := commit_task_segments ws te) in *. clearbody t4 tc. subst t4. split.
  - exists (complete_report task_id outputs ws te), size. split_and!; [|done|].
    + cbn. rewrite Cl. destruct (drain_same te) as [[_ _ _ _ _ ->] _]. cbn. by rewrite (uw_link _ _ H3).
    + cbn. apply elem_of_app. left. apply list_elem_of_fmap. by exists (mkWriteRecord (full_name db name) size).
  - exists (writer_mark_end (apply_ops ops' wf)), old, e. split_and!; [exact Cw|done| | | |].
    + unfold has_local_object. rewrite split_full_full by done.
      change (service_ (send_master_or_buffer _ tc)) with (service_ tc). rewrite Cs, (kw_info _ _ _ _ _ _ Hke). by rewrite Hic.
    + unfold find_local_entries. rewrite split_full_full by done.
      change (service_ (send_master_or_buffer _ tc)) with (service_ tc). rewrite Cs, (kw_info _ _ _ _ _ _ Hke). cbn. by rewrite Hie.
    + intros d Hd. by apply (Hread ops' d).
    + intros C x Ha Hs Hsm. pose proof (td_clean _ (kw_tidy _ _ _ _ _ _ Hke) _ _ _ Hw) as Hcl.
      unfold wf in *. rewrite <- apply_ops_app in *. rewrite ended_reload by done. unfold latest.
      unfold find_all_entries in Hent. rewrite Hent. cbn. by rewrite last_snoc.
Qed.

(** ** Witnesses *)

Definition worker0 : TaskWorker :=
  mkTaskWorker 1 {[ "/p" := mkDatabase (open_writer ∅ empty_index "w" "h" 1000 false)
                              (Some (open_writer ∅ empty_index "w" "h" 1000 true)) false ]}
    (empty_service (empty_cache 100)) [] 0 [] "" UNKNOWN false fresh_link.

Definition letters : bytes := [Byte.x41; Byte.x42].

Lemma worker0_writer db temp w :
  get_writer db temp worker0 = Some w -> w = open_writer ∅ empty_index "w" "h" 1000 temp /\ db = "/p".
Proof.
  unfold get_writer. cbn [databases_ worker0]. destruct (decide (db = "/p")) as [->|Hd].
  - rewrite lookup_singleton_eq. cbn [mbind option_bind]. destruct temp; cbn; by intros [= <-].
  - by rewrite lookup_singleton_ne.
Qed.

Lemma worker0_idle : idle_worker worker0.
Proof.
  split; [done|]. split; [done|]. intros db temp w [-> _]%worker0_writer. split; [|by destruct temp]. split; [|by destruct temp..].
  apply open_writer_inv. intros j _. apply lookup_empty.
Qed.

Lemma worker0_tidy : tidy worker0.
Proof.
  split; [by apply refs_ok_empty| |].
  - by intros u ?%elem_of_nil.
  - intros db temp w [-> _]%worker0_writer. by destruct temp.
Qed.

(** An accepted stream and a write that still waits in the queue. *)
Definition task_x : list task_op :=
  [TStream "/p" "x" false None [letters] (Some (2, 1, None)) ""; TWrite "/p" "y" letters 2 1 None ""].

(** The worker after a task whose only stream was refused at its commit: the
    segment is still open. *)
Definition worker1 : TaskWorker :=
  finish_task 1 (ExecFailed "") (task_run [TStream "/p" "r" false None [letters] (Some (2, 1, Some WRITE_TO_FROZEN_DB)) ""]
                                   (begin_task 1 "h1" worker0)).

Lemma worker1_rests : rests_on worker0 worker1.
Proof.
  split; [done|]. intros db temp w [-> ->]%worker0_writer. destruct temp; eexists; (split; [vm_compute; reflexivity|]).
  - left. vm_compute. reflexivity.
  - right. exists [OpBeginIncremental; OpAppendIncremental letters; OpFinishIncremental "r" 2 1 ""; DataWriter.OpFlush].
    vm_compute. reflexivity.
Qed.

Lemma failed_task_undone_witness :
  let t2 := finish_task 7 (ExecFailed "e") (task_run task_x (begin_task 7 "h" worker1)) in
  wbq_ t2 = [] /\ lookup_under_lock "/p:x" (service_ t2) = NotFound /\
  exists w, get_writer "/p" false t2 = Some w /\ files_ w = files_ (open_writer ∅ empty_index "w" "h" 1000 false).
Proof.
  intros t2.
  pose proof (failed_task_undone worker0 worker1 7 "h" task_x (ExecFailed "e") worker0_idle worker1_rests
    (fun outputs E => match E : ExecFailed "e" = ExecSuccess outputs with end)) as H.
  apply proj2 in H.
  destruct (H "/p:x" "/p" "x" (open_writer ∅ empty_index "w" "h" 1000 false)) as (H1 & H2 & H3);
    [vm_compute; by left|vm_compute; reflexivity|reflexivity|].
  split; [exact H1|]. split; [exact H2|].
  destruct (H3 false (open_writer ∅ empty_index "w" "h" 1000 false) eq_refl) as (w & Hw & Hf & _). exists w. split; [exact Hw|exact Hf].
Defined.

Lemma completed_task_readable_witness :
  let t1 := task_run [] (begin_task 7 "h" worker0) in
  let t2 := write_stream "/p" "x" false None [letters] (Some (2, 1, None)) "" t1 in
  let t4 := finish_task 7 (ExecSuccess []) (task_run [TWrite "/p" "y" letters 2 1 None ""] t2.2) in
  exists w old e, get_writer "/p" false t4 = Some w /\ find_local_entries (full_name "/p" "x") (service_ t4) = Some (old ++ [e]) /\
    read_raw_from_entry (mkDirectories None (files_ w) ∅) e = Some letters.
Proof.
  intros t1 t2 t4.
  destruct (completed_task_readable worker0 7 "h" [] "/p" "x" None [letters] 2 1 None "" [TWrite "/p" "y" letters 2 1 None ""] []
    (open_writer ∅ empty_index "w" "h" 1000 false) worker0_idle worker0_tidy eq_refl) as (_ & w & old & e & Hw & _ & _ & He & Hr & _).
  - reflexivity.
  - intros op [->|[]%elem_of_nil]%elem_of_cons. reflexivity.
  - intros op [->|[]%elem_of_nil]%elem_of_cons. intros [_ Hn]. discriminate Hn.
  - vm_compute. reflexivity.
  - vm_compute. reflexivity.
  - exists w, old, e. split; [exact Hw|]. split; [exact He|]. apply (Hr (mkDirectories None (files_ w) ∅)). apply on_disk_whole.
Defined.

(** ** Writes the end of a task misses *)

Definition after_restart (db : string) (temp : bool) (t : TaskWorker) : option (list string) :=
  w ← get_writer db temp t; Some (object_name_ <$> get_all_entries (load_index (idx_bytes (log_ (index_ w))) empty_index)).

(** A stream that is refused when it is committed, because the database was frozen
    meanwhile or the answer took too long, is on the disk already but not recorded
    as written: the failure of its task aborts nothing, the segment stays open, and
    the next task that ends well commits it. *)
Theorem refused_stream_committed e :
  e <> UNKNOWN ->
  let t1 := finish_task 1 (ExecFailed "") (task_run [TStream "/p" "x" false None [letters] (Some (2, 1, Some e)) ""]
                                             (begin_task 1 "h1" worker0)) in
  let t2 := finish_task 2 (ExecSuccess []) (task_run [TStream "/p" "y" false None [letters] (Some (2, 1, None)) ""]
                                             (begin_task 2 "h2" t1)) in
  after_restart "/p" false t1 = Some [] /\ after_restart "/p" false t2 = Some ["y"; "x"].
Proof. intros He. destruct e; [done|..]; split; vm_compute; reflexivity. Qed.

(** A temporary object that is written again by the repetition of a failed task is
    found by the entry of the failed attempt: the index in memory keeps it, and the
    first entry counts.  A shorter record cannot be read then. *)
Theorem repeated_temp_write_unreadable :
  let t1 := finish_task 1 (ExecFailed "") (task_run [TStream "/p" "x" true None [letters] (Some (2, 1, None)) ""]
                                             (begin_task 1 "h" worker0)) in
  let t2 := finish_task 2 (ExecSuccess []) (task_run [TStream "/p" "x" true None [[Byte.x41]] (Some (1, 1, None)) ""]
                                             (begin_task 2 "h" t1)) in
  has_local_object "/p:x" (service_ t2) = true /\
  (w ← get_writer "/p" true t2; es ← find_local_entries "/p:x" (service_ t2); e ← last es;
   Some (read_raw_from_entry (mkDirectories None (files_ w) ∅) e)) = Some None.
Proof. split; vm_compute; reflexivity. Qed.

(** A failed repetition of a task takes away what an earlier run has stored: the
    object is not found any more, although its record and its entry are intact. *)
Theorem failed_repetition_forgets :
  let write := [TStream "/p" "x" false None [letters] (Some (2, 1, None)) ""] in
  let t1 := finish_task 1 (ExecSuccess []) (task_run write (begin_task 1 "h" worker0)) in
  let t2 := finish_task 2 (ExecFailed "") (task_run write (begin_task 2 "h" t1)) in
  has_local_object "/p:x" (service_ t1) = true /\ lookup_under_lock "/p:x" (service_ t2) = NotFound /\
  (files_ <$> get_writer "/p" false t2) = (files_ <$> get_writer "/p" false t1) /\ after_restart "/p" false t2 = Some ["x"].
Proof. split_and!; vm_compute; reflexivity. Qed.
