(* ===== verification/Doubles.v ===== *)
(** Rounding errors of the binary64 arithmetic of [Partition].

    The operations round their exact result to 53 bits.  Here a rounded result is one of the
    two neighbours of the exact one, which bounds its error; a decimal number of three places,
    read as the nearest double and multiplied by 1000, therefore rounds back to the integer
    it was written from. *)

From stdpp Require Import base list.
From Stdlib Require Import ZArith Lia SpecFloat.
From S2P Require Import Prelude Geometry Partition.
#[local] Open Scope Z_scope.

Definition digits (m : Z) : Z := Zdigits2 m.

Lemma digits_pos p : 0 < Z.pos (digits2_pos p) /\ 2 ^ (Z.pos (digits2_pos p) - 1) <= Z.pos p < 2 ^ Z.pos (digits2_pos p).
Proof.
  induction p as [p [IH0 IH]|p [IH0 IH]|]; cbn [digits2_pos]; [| |done]; rewrite Pos2Z.inj_succ; (split; [lia|]);
    replace (Z.succ _ - 1) with (Z.succ (Z.pos (digits2_pos p) - 1)) by lia; rewrite !Z.pow_succ_r by lia; lia.
Qed.

Lemma digits_bounds m : 0 < m -> 0 < digits m /\ 2 ^ (digits m - 1) <= m < 2 ^ digits m.
Proof. destruct m as [|p|p]; [lia| |lia]. intros _. apply digits_pos. Qed.

Lemma digits_le m k : 0 < m < 2 ^ k -> digits m <= k.
Proof. intros [Hm Hk]. destruct (digits_bounds m Hm) as (H0 & H1 & _). apply Z.nlt_ge. intros Hlt. assert (2 ^ k <= 2 ^ (digits m - 1)) by (apply Z.pow_le_mono_r; lia). lia. Qed.

Lemma digits_ge m k : 0 <= k -> 2 ^ k <= m -> k < digits m.
Proof. intros Hk Hm. destruct (digits_bounds m) as (H0 & _ & H2); [lia|]. apply Z.nle_gt. intros Hle. assert (2 ^ digits m <= 2 ^ k) by (apply Z.pow_le_mono_r; lia). lia. Qed.

(** * Shifting *)

Lemma shr_1_half r : 0 <= shr_m r -> shr_m (shr_1 r) = shr_m r / 2 /\ 0 <= shr_m (shr_1 r).
Proof. destruct r as [[|[p|p|]|p] r s]; cbn; intros H; try done; rewrite <- Z.div2_div; cbn; lia. Qed.

Lemma iter_shr n r : 0 <= shr_m r -> shr_m (iter_pos shr_1 n r) = shr_m r / 2 ^ Z.pos n /\ 0 <= shr_m (iter_pos shr_1 n r).
Proof.
  revert r. induction n as [n IH|n IH|]; intros r Hr; cbn [iter_pos]; [| |by apply shr_1_half].
  - destruct (shr_1_half r Hr) as [E1 H1]. destruct (IH _ H1) as [E2 H2]. destruct (IH _ H2) as [E3 H3]. split; [|done].
    rewrite E3, E2, E1, !Z.div_div by lia. f_equal. replace (Z.pos n~1) with (1 + Z.pos n + Z.pos n) by lia. rewrite !Z.pow_add_r by lia. lia.
  - destruct (IH _ Hr) as [E2 H2]. destruct (IH _ H2) as [E3 H3]. split; [|done].
    rewrite E3, E2, Z.div_div by lia. f_equal. replace (Z.pos n~0) with (Z.pos n + Z.pos n) by lia. by rewrite Z.pow_add_r by lia.
Qed.

(** The shift of a mantissa that is not too small: to 53 bits. *)
Lemma shr_fexp_spec m e l : 0 < m -> - 1074 <= digits m + e - 53 ->
  let n := Z.max 0 (digits m - 53) in exists r, shr_fexp 53 1024 m e l = (r, e + n) /\ shr_m r = m / 2 ^ n /\ (n = 0 -> r = shr_record_of_loc m l).
Proof.
  intros Hm Hlow n. unfold shr_fexp. fold (digits m). assert (shr_m (shr_record_of_loc m l) = m) as Er by (by destruct l as [|[]]).
  assert (fexp 53 1024 (digits m + e) - e = digits m - 53 \/ (digits m <= 53 /\ fexp 53 1024 (digits m + e) - e <= 0)) as Hf by (unfold fexp, emin; lia).
  unfold shr. destruct (fexp 53 1024 (digits m + e) - e) as [|p|p] eqn:E.
  - assert (n = 0) as -> by (subst n; lia). eexists. split; [by rewrite Z.add_0_r|]. rewrite Er, Z.div_1_r. done.
  - assert (n = Z.pos p) as -> by (subst n; lia). destruct (iter_shr p (shr_record_of_loc m l)) as [E1 _]; [lia|]. eexists. split; [done|]. by rewrite E1, Er.
  - assert (n = 0) as -> by (subst n; lia). eexists. split; [by rewrite Z.add_0_r|]. rewrite Er, Z.div_1_r. done.
Qed.

Lemma round_neighbour m l : m <= round_nearest_even m l <= m + 1.
Proof. destruct l as [|[]]; cbn; [lia| |lia..]. destruct (Z.even m); lia. Qed.

(** * Rounding *)

(** A mantissa of at most 53 bits is kept. *)
Lemma round_exact s m e : 0 < m < 2 ^ 53 -> - 1074 <= e <= 971 -> - 1074 <= digits m + e - 53 ->
  binary_round_aux 53 1024 s m e loc_Exact = S754_finite s (Z.to_pos m) e.
Proof.
  intros Hm He Hlow. pose proof (digits_le m 53 Hm) as Hd. unfold binary_round_aux.
  destruct (shr_fexp_spec m e loc_Exact) as (r & -> & _ & Hr); [lia|lia|]. rewrite (Hr ltac:(lia)). cbn [shr_record_of_loc loc_of_shr_record shr_m round_nearest_even].
  replace (Z.max 0 (digits m - 53)) with 0 by lia. rewrite Z.add_0_r.
  destruct (shr_fexp_spec m e loc_Exact) as (r' & -> & _ & Hr'); [lia|lia|]. rewrite (Hr' ltac:(lia)). cbn [shr_record_of_loc shr_m].
  replace (Z.max 0 (digits m - 53)) with 0 by lia. rewrite Z.add_0_r. destruct m as [|p|p]; [lia| |lia].
  destruct (Z.leb_spec e (1024 - 53)); [done|lia].
Qed.

(** Any other is rounded to one of its neighbours with 53 bits. *)
Lemma round_near s m e l : let n := Z.max 0 (digits m - 53) in
  0 < m -> - 1074 <= e + n -> e + n <= 970 -> - 1074 <= digits m + e - 53 ->
  exists p e' R, binary_round_aux 53 1024 s m e l = S754_finite s p e' /\ e + n <= e' <= e + n + 1 /\
    R = Z.pos p * 2 ^ (e' - (e + n)) /\ m / 2 ^ n <= R <= m / 2 ^ n + 1.
Proof.
  intros n Hm Hlo Hhi Hlow. destruct (digits_bounds m Hm) as (Hd0 & Hd1 & Hd2). unfold binary_round_aux.
  destruct (shr_fexp_spec m e l Hm Hlow) as (r & -> & Er & _). fold n in Er. fold n.
  pose proof (round_neighbour (shr_m r) (loc_of_shr_record r)) as HR. set (R := round_nearest_even _ _) in *. rewrite Er in HR.
  assert (0 < m / 2 ^ n) as HF.
  { apply Z.div_str_pos. split; [apply Z.pow_pos_nonneg; lia|]. etrans; [|exact Hd1]. apply Z.pow_le_mono_r; lia. }
  assert (m / 2 ^ n < 2 ^ 53) as HF2.
  { apply Z.div_lt_upper_bound; [apply Z.pow_pos_nonneg; lia|]. rewrite <- Z.pow_add_r by lia. eapply Z.lt_le_trans; [exact Hd2|]. apply Z.pow_le_mono_r; lia. }
  destruct (digits_bounds R) as (HdR0 & HdR1 & HdR2); [lia|].
  assert (digits R <= 53 \/ R = 2 ^ 53) as HR53 by (destruct (decide (R < 2 ^ 53)); [left; apply digits_le; lia|right; lia]).
  assert (digits R <= 54) as H54 by (apply digits_le; change (2 ^ 54) with (2 * 2 ^ 53); lia).
  destruct (decide (R = 2 ^ 53)) as [E53|N53].
  - rewrite E53. assert (digits (2 ^ 53) = 54) as Edig by reflexivity.
    destruct (shr_fexp_spec (2 ^ 53) (e + n) loc_Exact) as (r' & -> & Er' & _); [lia|lia|]. rewrite Edig in Er' |- *. change (Z.max 0 (54 - 53)) with 1 in *. rewrite Er'.
    change (2 ^ 53 / 2 ^ 1) with (Z.pos (Z.to_pos (2 ^ 52))). cbv iota. destruct (Z.leb_spec (e + n + 1) (1024 - 53)); [|lia].
    eexists _, _, R. split; [done|]. split; [lia|]. split; [|lia]. replace (e + n + 1 - (e + n)) with 1 by lia. rewrite E53. reflexivity.
  - pose proof (round_exact s R (e + n)) as Hex. unfold binary_round_aux in Hex.
    destruct (shr_fexp_spec R (e + n) loc_Exact) as (r' & Esh & Er' & Hr'); [lia| |].
    { destruct (decide (digits R = 53)); [lia|]. destruct (decide (n = 0)) as [En|]; [|exfalso].
      - assert (digits m - 1 < digits R); [|lia]. apply digits_ge; [lia|]. etrans; [exact Hd1|]. rewrite En, Z.div_1_r in HR. lia.
      - assert (52 < digits R); [|lia]. apply digits_ge; [lia|]. etrans; [|apply HR]. apply Z.div_le_lower_bound; [apply Z.pow_pos_nonneg; lia|].
        rewrite <- Z.pow_add_r by lia. etrans; [|exact Hd1]. apply Z.pow_le_mono_r; lia. }
    rewrite Esh. assert (Z.max 0 (digits R - 53) = 0) as E0 by (destruct HR53; lia). rewrite E0 in *. rewrite (Hr' eq_refl). cbn [shr_record_of_loc shr_m].
    rewrite Z.add_0_r. destruct R as [|p|p] eqn:ER; [lia| |lia]. destruct (Z.leb_spec (e + n) (1024 - 53)); [|lia].
    eexists p, (e + n), (Z.pos p). split; [done|]. split; [lia|]. split; [rewrite Z.sub_diag; lia|]. lia.
Qed.

(** * Integers and thousandths *)

Lemma iter_xO m k : Z.pos (Pos.iter xO m k) = Z.pos m * 2 ^ Z.pos k.
Proof.
  induction k as [|k IH] using Pos.peano_ind; [cbn; lia|]. rewrite Pos.iter_succ, Pos2Z.inj_xO, IH, Pos2Z.inj_succ, Z.pow_succ_r by lia. lia.
Qed.

(** The double of an integer has its value, and 53 bits. *)
Lemma of_Z_spec (s : bool) t : 0 < t < 2 ^ 53 -> exists p, of_Z (if s then - t else t) = S754_finite s p (digits t - 53) /\
  Z.pos p = t * 2 ^ (53 - digits t) /\ 2 ^ 52 <= Z.pos p < 2 ^ 53.
Proof.
  intros Ht. destruct (digits_bounds t) as (H0 & H1 & H2); [lia|]. pose proof (digits_le t 53 Ht) as Hd.
  assert (2 ^ 52 <= t * 2 ^ (53 - digits t) < 2 ^ 53) as Hb.
  { split; [replace (2 ^ 52) with (2 ^ (digits t - 1) * 2 ^ (53 - digits t)) by (rewrite <- Z.pow_add_r by lia; f_equal; lia)|
            replace (2 ^ 53) with (2 ^ digits t * 2 ^ (53 - digits t)) by (rewrite <- Z.pow_add_r by lia; f_equal; lia)];
      [apply Z.mul_le_mono_nonneg_r|apply Z.mul_lt_mono_pos_r]; try lia; try apply Z.pow_nonneg; try apply Z.pow_pos_nonneg; lia. }
  exists (Z.to_pos (t * 2 ^ (53 - digits t))). rewrite Z2Pos.id by lia. split; [|done].
  destruct t as [|p|p]; [lia| |lia].
  assert (of_Z (if s then - Z.pos p else Z.pos p) = binary_round 53 1024 s p 0) as -> by (by destruct s). unfold binary_round.
  change (Z.pos (digits2_pos p)) with (digits (Z.pos p)) in *. set (d := digits (Z.pos p)) in *.
  assert (fexp 53 1024 (d + 0) = d - 53) as -> by (unfold fexp, emin; lia). unfold shl_align. rewrite Z.sub_0_r.
  assert (forall q, Z.pos q = Z.pos p * 2 ^ (53 - d) -> binary_round_aux 53 1024 s (Z.pos q) (d - 53) loc_Exact =
    S754_finite s (Z.to_pos (Z.pos p * 2 ^ (53 - d))) (d - 53)) as Hq.
  { intros q Eq. assert (52 < digits (Z.pos q)) by (apply digits_ge; lia). rewrite round_exact by lia. by rewrite Eq. }
  destruct (d - 53) as [|k|k] eqn:Ek; [|lia|].
  - rewrite <- Ek. replace (d - 53) with 0 by lia. rewrite <- Ek in Hq. replace (d - 53) with 0 in Hq by lia. apply Hq. replace (53 - d) with 0 by lia. lia.
  - apply Hq. rewrite iter_xO. do 2 f_equal. lia.
Qed.

Definition d1000 : double := S754_finite false (Z.to_pos (1000 * 2 ^ 43)) (- 43).
Lemma of_Z_1000 : of_Z 1000 = d1000.
Proof. vm_compute. reflexivity. Qed.

(** The quotient of an integer by 1000, in units of its last places, is off by less than 2. *)
Lemma ddiv_1000 s p e : 2 ^ 52 <= Z.pos p < 2 ^ 53 -> - 52 <= e <= 0 ->
  exists q e', ddiv (S754_finite s p e) d1000 = S754_finite s q e' /\ e - 10 <= e' <= e - 8 /\
    Z.abs (1000 * (Z.pos q * 2 ^ (e' - (e - 10))) - Z.pos p * 2 ^ 10) <= 2000.
Proof.
  intros Hp He. assert (digits (Z.pos p) = 53) as Edp by (pose proof (digits_le (Z.pos p) 53); pose proof (digits_ge (Z.pos p) 52); lia).
  unfold ddiv, SFdiv, d1000. unfold SFdiv_core_binary. fold (digits (Z.pos p)). rewrite Edp.
  change (Zdigits2 (Z.pos (Z.to_pos (1000 * 2 ^ 43)))) with 53.
  assert (Z.min (fexp 53 1024 (53 + e - (53 + -43))) (e - -43) = e - 10) as -> by (unfold fexp, emin; lia).
  replace (e - -43 - (e - 10)) with 53 by lia. cbv iota zeta. rewrite xorb_false_r.
  destruct (Z.div_eucl (Z.shiftl (Z.pos p) 53) (Z.pos (Z.to_pos (1000 * 2 ^ 43)))) as [x rem] eqn:Ediv.
  assert (x = Z.pos p * 2 ^ 10 / 1000) as Ex.
  { assert (x = Z.shiftl (Z.pos p) 53 / (1000 * 2 ^ 43)) as -> by (unfold Z.div; change (1000 * 2 ^ 43) with (Z.pos (Z.to_pos (1000 * 2 ^ 43))); by rewrite Ediv).
    rewrite Z.shiftl_mul_pow2 by lia. change (2 ^ 53) with (2 ^ 10 * 2 ^ 43). rewrite Z.mul_assoc, Z.div_mul_cancel_r by lia. done. }
  clear Ediv. change (2 ^ 10) with 1024 in *. change (2 ^ 52) with 4503599627370496 in *. change (2 ^ 53) with 9007199254740992 in *.
  assert (1000 * x <= Z.pos p * 1024 < 1000 * x + 1000) as Hx by (rewrite Ex; pose proof (Z.div_mod (Z.pos p * 1024) 1000); pose proof (Z.mod_pos_bound (Z.pos p * 1024) 1000); lia).
  assert (52 < digits x <= 54) as Hdx by (split; [apply digits_ge; [lia|]; change (2 ^ 52) with 4503599627370496; lia|
    apply digits_le; change (2 ^ 54) with 18014398509481984; lia]).
  destruct (round_near s x (e - 10) (new_location (Z.pos (Z.to_pos (1000 * 2 ^ 43))) rem)) as (q & e' & R & -> & He' & ER & HR); [lia..|].
  exists q, e'. split; [done|]. split; [lia|]. set (n := Z.max 0 (digits x - 53)) in *.
  assert (Z.pos q * 2 ^ (e' - (e - 10)) = R * 2 ^ n) as ->.
  { rewrite ER, <- Z.mul_assoc, <- Z.pow_add_r by lia. do 2 f_equal. lia. }
  assert (n = 0 \/ n = 1) as [En|En] by lia; rewrite En in *; [rewrite Z.div_1_r in HR; lia|].
  change (2 ^ 1) with 2 in *. pose proof (Z.div_mod x 2). pose proof (Z.mod_pos_bound x 2). lia.
Qed.

(** A number near an integer rounds to it. *)
Lemma llround_near u (s : bool) p e t : 0 < t < 2 ^ 62 -> - 200 <= e <= 0 -> 4 * Z.abs (Z.pos p - t * 2 ^ (- e)) <= 2 ^ (- e) ->
  llround u (S754_finite s p e) = if s then - t else t.
Proof.
  intros Ht He Hnear. assert (0 < 2 ^ (- e)) as Hpow by (apply Z.pow_pos_nonneg; lia). unfold llround.
  assert ((if 0 <=? e then Z.pos p * 2 ^ e else (Z.pos p + 2 ^ (- e - 1)) / 2 ^ (- e)) = t) as ->.
  { destruct (Z.leb_spec 0 e).
    - assert (e = 0) as -> by lia. change (2 ^ (- 0)) with 1 in Hnear. lia.
    - assert (2 ^ (- e) = 2 * 2 ^ (- e - 1)) as E2 by (rewrite <- Z.pow_succ_r by lia; f_equal; lia).
      symmetry. apply (Z.div_unique_pos _ _ _ (Z.pos p + 2 ^ (- e - 1) - t * 2 ^ (- e))); lia. }
  change (2 ^ 62) with 4611686018427387904 in Ht. cbv zeta. rewrite decide_True; [done|]. unfold fits. change (2 ^ (64 - 1)) with 9223372036854775808. destruct s; lia.
Qed.

(** The product with 1000: an error of one in 2^52. *)
Lemma dmul_1000 s q e : Z.pos q < 2 ^ 54 -> - 100 <= e <= - 13 ->
  exists m e', dmul (S754_finite s q e) d1000 = S754_finite s m e' /\ e - 43 <= e' <= 0 /\
    Z.abs (Z.pos m * 2 ^ (e' - (e - 43)) - Z.pos q * (1000 * 2 ^ 43)) * 2 ^ 52 <= Z.pos q * (1000 * 2 ^ 43).
Proof.
  intros Hq He. unfold dmul, SFmul, d1000. rewrite xorb_false_r, Pos2Z.inj_mul, Z2Pos.id by lia. set (P := Z.pos q * (1000 * 2 ^ 43)).
  change (2 ^ 54) with 18014398509481984 in Hq.
  assert (8796093022208000 <= P < 18014398509481984 * 8796093022208000) as HP by (subst P; change (1000 * 2 ^ 43) with 8796093022208000; lia).
  clearbody P. destruct (digits_bounds P) as (_ & HD1 & HD2); [lia|].
  assert (52 < digits P <= 107) as HD.
  { split; [apply digits_ge; [lia|]; change (2 ^ 52) with 4503599627370496; lia|]. apply digits_le. change (2 ^ 107) with (18014398509481984 * 9007199254740992). lia. }
  destruct (round_near s P (e + -43) loc_Exact) as (m & e2 & R & -> & He2 & ER & HR); [lia..|].
  exists m, e2. split; [done|]. split; [lia|]. set (n := Z.max 0 (digits P - 53)) in *. assert (n = digits P - 53) as En by lia.
  assert (0 < 2 ^ n) as Hn by (apply Z.pow_pos_nonneg; lia).
  assert (2 ^ n * 2 ^ 52 <= P) as Hulp by (rewrite <- Z.pow_add_r by lia; by replace (n + 52) with (digits P - 1) by lia).
  assert (Z.pos m * 2 ^ (e2 - (e - 43)) = R * 2 ^ n) as -> by (rewrite ER, <- Z.mul_assoc, <- Z.pow_add_r by lia; do 2 f_equal; lia).
  etrans; [|exact Hulp]. apply Z.mul_le_mono_nonneg_r; [lia|]. pose proof (Z.div_mod P (2 ^ n)). pose proof (Z.mod_pos_bound P (2 ^ n)).
  assert (0 <= R - P / 2 ^ n <= 1) as HR1 by lia. replace (R * 2 ^ n - P) with ((R - P / 2 ^ n) * 2 ^ n - P mod 2 ^ n) by lia.
  assert (R - P / 2 ^ n = 0 \/ R - P / 2 ^ n = 1) as [-> | ->] by lia; lia.
Qed.

(** An integer divided by 1000 and multiplied by 1000 in doubles rounds to itself. *)
Theorem thousandths_exact u t : Z.abs t < 2 ^ 48 -> llround u (dmul (ddiv (of_Z t) (of_Z 1000)) (of_Z 1000)) = t.
Proof.
  intros Ht. destruct (decide (t = 0)) as [->|Hnz]; [done|].
  assert (exists s a, t = (if s : bool then - a else a) /\ 0 < a < 2 ^ 48) as (s & a & -> & Ha) by (destruct (decide (t < 0)); [exists true, (- t)|exists false, t]; lia).
  clear Ht Hnz. destruct (of_Z_spec s a) as (p & -> & Ep & Hp); [lia|]. rewrite of_Z_1000.
  assert (0 < digits a <= 48) as Hd by (split; [apply digits_bounds; lia|apply digits_le; lia]).
  set (e := digits a - 53) in *. replace (53 - digits a) with (- e) in Ep by lia.
  destruct (ddiv_1000 s p e Hp) as (q & e1 & -> & He1 & HV); [lia|]. set (g := e1 - (e - 10)) in *.
  change (2 ^ 48) with 281474976710656 in Ha. change (2 ^ 52) with 4503599627370496 in *. change (2 ^ 53) with 9007199254740992 in *. change (2 ^ 10) with 1024 in *.
  assert (0 < 2 ^ g) as Hg by (apply Z.pow_pos_nonneg; lia). assert (Z.pos q <= Z.pos q * 2 ^ g) as Hqg by nia.
  destruct (dmul_1000 s q e1) as (m & e2 & -> & He2 & HW); [change (2 ^ 54) with 18014398509481984; lia|lia|].
  apply llround_near; [change (2 ^ 62) with 4611686018427387904; lia|lia|]. set (K := e2 - (e1 - 43)) in *.
  assert (0 < 2 ^ K) as HK by (apply Z.pow_pos_nonneg; lia). assert (0 < 2 ^ K * 2 ^ g) as HKg by lia.
  assert (2 ^ (- e2) * (2 ^ K * 2 ^ g) = 2 ^ (- e) * 2 ^ 53) as Esc by (rewrite <- !Z.pow_add_r by lia; f_equal; lia).
  apply (Z.mul_le_mono_pos_r _ _ (2 ^ K * 2 ^ g) HKg). rewrite Esc, <- Z.mul_assoc.
  assert (forall x c, 0 < c -> Z.abs x * c = Z.abs (x * c)) as Habs by (intros x c Hc; rewrite Z.abs_mul, (Z.abs_eq c) by lia; done). rewrite Habs by done.
  replace ((Z.pos m - a * 2 ^ (- e2)) * (2 ^ K * 2 ^ g)) with (Z.pos m * 2 ^ K * 2 ^ g - Z.pos p * 2 ^ 53) by (rewrite Ep, Z.mul_sub_distr_r, <- !(Z.mul_assoc a), Esc; lia).
  assert (32 <= 2 ^ (- e)) as H32 by (change 32 with (2 ^ 5); apply Z.pow_le_mono_r; lia).
  apply (Z.mul_le_mono_pos_r _ _ (2 ^ g) Hg) in HW. change (2 ^ 43) with 8796093022208 in *. change (2 ^ 52) with 4503599627370496 in *. change (2 ^ 53) with 9007199254740992 in *.
  rewrite <- Z.mul_assoc, (Z.mul_comm 4503599627370496), Z.mul_assoc, Habs, Z.mul_sub_distr_r in HW by done.
  replace (Z.pos q * (1000 * 8796093022208) * 2 ^ g) with (1000 * (Z.pos q * 2 ^ g) * 8796093022208) in HW by lia. lia.
Qed.
