(* ===== verification/LefAdapter.v ===== *)
(** The callbacks of the LEF reader (emir/design/cpp/ds_lef_adapter.h, ds_lef_adapter.cpp).

    A technology file gives the layers of [DesignTables.DSStack] and vias; a cell file gives
    a container of its own with a cell per macro, the shapes of the pins by cell and pin
    number, and vias.  The reader of the lefdef library calls back for the statements of a
    file, here the events; what its accessors return is the data of an event.  Lengths are
    microns in doubles and become 1/1000 microns ([Partition.llround]).  Opening the file,
    the session of the reader and messages are not modelled; the counters are integers
    without bounds. *)

From stdpp Require Import base gmap list sets fin_maps.
From Stdlib Require Import ZArith NArith Lia SpecFloat.
From Stdlib Require Import String.
From stdpp Require Import list.
From S2P Require Import Prelude Bytes NameHasher Geometry BlockData DesignTables HierTree Density Partition Doubles Flatten Verify InstancePipeline NetPipeline DefAdapter.
Import Corelib.Init.Datatypes(nat(..), length) Corelib.Numbers.BinNums(N(..)).
#[local] Open Scope Z_scope.

(** * What the reader passes to the callbacks *)

Record lefiRect := { lr_xl : double; lr_yl : double; lr_xh : double; lr_yh : double }.
Record lefiLayer := {
  ll_name : bytes; ll_type : bytes; ll_direction : option bytes; ll_width : option double; ll_pitch : option double;
  ll_spacing : list double; ll_area : option double;
}.
Record lefiVia := { lv_name : bytes; lv_layers : list (bytes * list lefiRect) }.
Record lefiViaRuleLayer := { rl_name : bytes; rl_rect : option lefiRect; rl_enclosure : option (double * double) }.
Record lefiViaRule := { vr_name : bytes; vr_generate : bool; vr_layers : list lefiViaRuleLayer }.

(** The items of a list of geometries: a layer, a rectangle, or any of the others. *)
Inductive lefiGeomItem := GeomLayer (name : bytes) | GeomRect (r : lefiRect) | GeomOther.
Record lefiPin := { lp_name : bytes; lp_use : option bytes; lp_direction : option bytes; lp_ports : list (list lefiGeomItem) }.
Record lefiMacro := { lm_size : option (double * double); lm_origin : option (double * double) }.

(** The counters of [DSLefParseStats]. *)
Inductive lef_stat :=
  | layer_count | skipped_layer_count | macro_count | skipped_macro_count | lef_pin_count | lef_via_count | lef_via_conflict_count
  | viarule_count | lef_skipped_layer_ref_count | skipped_geometry_count | parse_failed_count.
#[export] Instance lef_stat_eq_dec : EqDecision lef_stat.
Proof. solve_decision. Defined.
Definition DSLefParseStats := lef_stat -> Z.
Definition no_stats : DSLefParseStats := fun _ => 0.
Definition bump_lef (k : lef_stat) (s : DSLefParseStats) : DSLefParseStats :=
  fun j => if decide (j = k) then s j + 1 else s j.

Section adapter.
(** The value of [llround] where it is not specified. *)
Context (unspecified : Z).

(** * Units *)

Definition to_dbu (v : double) : Z := llround unspecified (dmul v (of_Z kGlobalDbuPerMicron)).
Definition area_to_dbu (v : double) : Z :=
  let dbu := of_Z kGlobalDbuPerMicron in llround unspecified (dmul (dmul v dbu) dbu).

(** Converted and stored as a 32-bit integer. *)
Definition dbu32 (v : double) : Z := s32 (to_dbu v).
Definition lef_rect_to_dbu (r : lefiRect) : GEORectT :=
  GEORect (dbu32 (lr_xl r)) (dbu32 (lr_yl r)) (dbu32 (lr_xh r)) (dbu32 (lr_yh r)).

(** * Vias *)

Definition find_via (vias : list DSViaCell) (name : bytes) : option DSViaCell :=
  snd <$> list_find (fun v => via_name_ v = name) vias.

Definition lef_add_via_unique (cell : DSViaCell) (vs : list DSViaCell * DSLefParseStats) : list DSViaCell * DSLefParseStats :=
  match find_via vs.1 (via_name_ cell) with
  | Some _ => (vs.1, bump_lef lef_via_conflict_count vs.2)
  | None => (vs.1 ++ [cell], bump_lef lef_via_count vs.2)
  end.

(** The number of a layer of a via and whether it is a cut; an unknown one drops the via. *)
Fixpoint via_infos (stack : DSStack) (layers : list (bytes * list lefiRect)) : outcome (option (list (N * bool))) :=
  match layers with
  | [] => Ok (Some [])
  | e :: layers =>
      let id := ds_resolve_layer_id e.1 stack in
      if negb (is_valid_id table_bits id) then Ok None else
      l ← defined (layer_by_id stack id);
      rest ← via_infos stack layers;
      Ok (fmap (M := option) (cons (id, bool_decide (layer_type_ l = CUT))) rest)
  end.

(** The last cut, the least and the greatest other number. *)
Definition lef_via_layer (acc : N * N * N) (info : N * bool) : N * N * N :=
  let '(bottom, top, cut) := acc in
  if info.2 then (bottom, top, info.1) else
  (if negb (is_valid_id table_bits bottom) || (info.1 <? bottom)%N then info.1 else bottom,
   if negb (is_valid_id table_bits top) || (top <? info.1)%N then info.1 else top, cut).

Definition lef_via_rect (info : N * bool) (out : DSViaCell) (r : lefiRect) : DSViaCell :=
  let rect := lef_rect_to_dbu r in
  let bottom := negb info.2 && bool_decide (info.1 = bottom_layer_id_ out) in
  {| via_name_ := via_name_ out; bottom_layer_id_ := bottom_layer_id_ out; top_layer_id_ := top_layer_id_ out; cut_layer_id_ := cut_layer_id_ out;
     cut_rects_ := if info.2 then cut_rects_ out ++ [rect] else cut_rects_ out;
     bottom_enclosure_ := if bottom then bottom_enclosure_ out ++ [rect] else bottom_enclosure_ out;
     top_enclosure_ := if negb info.2 && negb bottom then top_enclosure_ out ++ [rect] else top_enclosure_ out |}.

Definition convert_via (v : lefiVia) (stack : DSStack) : outcome (option DSViaCell) :=
  infos ← via_infos stack (lv_layers v);
  match infos with
  | None => Ok None
  | Some infos =>
      let none := kInvalidId table_bits in
      let '(bottom, top, cut) := foldl lef_via_layer (none, none, none) infos in
      Ok (Some (foldl (fun out e => foldl (lef_via_rect e.1) out e.2)
        {| via_name_ := lv_name v; bottom_layer_id_ := bottom; top_layer_id_ := top; cut_layer_id_ := cut;
           cut_rects_ := []; bottom_enclosure_ := []; top_enclosure_ := [] |} (zip infos (lv_layers v).*2)))
  end.

(** The cut grown by the enclosure of a layer; the sums are 64 bits wide. *)
Definition expand_cut (xl yl xh yh : Z) (rl : lefiViaRuleLayer) : option GEORectT :=
  let ex := from_option (fun e => to_dbu e.1) 0 (rl_enclosure rl) in
  let ey := from_option (fun e => to_dbu e.2) 0 (rl_enclosure rl) in
  x1 ← chk 64 (xl - ex); y1 ← chk 64 (yl - ey); x2 ← chk 64 (xh + ex); y2 ← chk 64 (yh + ey);
  Some (GEORect (s32 x1) (s32 y1) (s32 x2) (s32 y2)).

(** The template of a rule, if it has one, and [layer_ref_failed]. *)
Definition expand_viarule (vr : lefiViaRule) (stack : DSStack) : outcome (option DSViaCell * bool) :=
  match vr_generate vr, vr_layers vr with
  | true, [bot; cut; top] =>
      match rl_rect cut with
      | None => Ok (None, false)
      | Some r =>
          let bot_id := ds_resolve_layer_id (rl_name bot) stack in
          let top_id := ds_resolve_layer_id (rl_name top) stack in
          let cut_id := ds_resolve_layer_id (rl_name cut) stack in
          if negb (is_valid_id table_bits bot_id) || negb (is_valid_id table_bits top_id) || negb (is_valid_id table_bits cut_id)
          then Ok (None, true) else
          let expand := expand_cut (to_dbu (lr_xl r)) (to_dbu (lr_yl r)) (to_dbu (lr_xh r)) (to_dbu (lr_yh r)) in
          be ← defined (expand bot);
          te ← defined (expand top);
          Ok (Some {| via_name_ := vr_name vr; bottom_layer_id_ := bot_id; top_layer_id_ := top_id; cut_layer_id_ := cut_id;
                      cut_rects_ := [lef_rect_to_dbu r]; bottom_enclosure_ := [be]; top_enclosure_ := [te] |}, false)
      end
  | _, _ => Ok (None, false)
  end.

(** The bodies of the callbacks for vias and rules, the same for both kinds of file. *)
Definition via_cbk (stack : DSStack) (v : lefiVia) (vs : list DSViaCell * DSLefParseStats) : outcome (list DSViaCell * DSLefParseStats) :=
  cell ← convert_via v stack;
  Ok match cell with
     | None => (vs.1, bump_lef lef_skipped_layer_ref_count vs.2)
     | Some cell => lef_add_via_unique cell vs
     end.

Definition viarule_cbk (stack : DSStack) (vr : lefiViaRule) (vs : list DSViaCell * DSLefParseStats) : outcome (list DSViaCell * DSLefParseStats) :=
  '(cell, failed) ← expand_viarule vr stack;
  Ok match cell with
     | Some cell => let vs := lef_add_via_unique cell vs in (vs.1, bump_lef viarule_count vs.2)
     | None => if failed : bool then (vs.1, bump_lef lef_skipped_layer_ref_count vs.2) else vs
     end.

(** * Pins *)

Definition map_pin_use (use : bytes) : DSPinType :=
  if decide (use = text "POWER") then PIN_POWER else
  if decide (use = text "GROUND") then PIN_GROUND else
  if decide (use = text "CLOCK") then PIN_CLOCK else PIN_SIGNAL.

Definition map_pin_direction (dir : bytes) : DSPinDirection :=
  if decide (dir = text "OUTPUT" \/ dir = text "TRISTATE") then OUTPUT else
  if decide (dir = text "INOUT" \/ dir = text "FEEDTHRU") then INOUT else INPUT.

(** * Technology files *)

(** The grid is the field [manufacturing_grid_] of the stack. *)
Record TechContext := { tc_stack : DSStack; tc_grid : Z; tc_vias : list DSViaCell; tc_stats : DSLefParseStats }.

Definition lef_direction (dir : bytes) : DSDirection :=
  if decide (dir = text "HORIZONTAL") then HORIZONTAL else if decide (dir = text "VERTICAL") then VERTICAL else NONE.

Definition layer_of (l : lefiLayer) (type : DSLayerType) : DSLayer :=
  {| layer_name_ := ll_name l; layer_id := kInvalidId table_bits; layer_type_ := type;
     layer_direction_ := from_option lef_direction NONE (ll_direction l);
     default_width_ := from_option dbu32 0 (ll_width l); pitch_ := from_option dbu32 0 (ll_pitch l);
     spacing_ := dbu32 <$> ll_spacing l; min_area_ := from_option area_to_dbu 0 (ll_area l) |}.

Definition layer_type_of (type : bytes) : option DSLayerType :=
  if decide (type = text "ROUTING") then Some ROUTING else if decide (type = text "CUT") then Some CUT else None.

Definition tech_layer_cbk (l : lefiLayer) (c : TechContext) : outcome TechContext :=
  match layer_type_of (ll_type l) with
  | None => Ok {| tc_stack := tc_stack c; tc_grid := tc_grid c; tc_vias := tc_vias c; tc_stats := bump_lef skipped_layer_count (tc_stats c) |}
  | Some type =>
      '(stack, _) ← add_layer (layer_of l type) (tc_stack c);
      Ok {| tc_stack := stack; tc_grid := tc_grid c; tc_vias := tc_vias c; tc_stats := bump_lef layer_count (tc_stats c) |}
  end.

Definition tech_via_cbk (v : lefiVia) (c : TechContext) : outcome TechContext :=
  '(vias, stats) ← via_cbk (tc_stack c) v (tc_vias c, tc_stats c);
  Ok {| tc_stack := tc_stack c; tc_grid := tc_grid c; tc_vias := vias; tc_stats := stats |}.

Definition tech_viarule_cbk (vr : lefiViaRule) (c : TechContext) : outcome TechContext :=
  '(vias, stats) ← viarule_cbk (tc_stack c) vr (tc_vias c, tc_stats c);
  Ok {| tc_stack := tc_stack c; tc_grid := tc_grid c; tc_vias := vias; tc_stats := stats |}.

Definition tech_manufacturing_cbk (value : double) (c : TechContext) : TechContext :=
  {| tc_stack := tc_stack c; tc_grid := dbu32 value; tc_vias := tc_vias c; tc_stats := tc_stats c |}.

Inductive tech_event := TLayer (l : lefiLayer) | TVia (v : lefiVia) | TViaRule (vr : lefiViaRule) | TGrid (value : double).

Definition tech_step (c : TechContext) (e : tech_event) : outcome TechContext :=
  match e with
  | TLayer l => tech_layer_cbk l c
  | TVia v => tech_via_cbk v c
  | TViaRule vr => tech_viarule_cbk vr c
  | TGrid value => Ok (tech_manufacturing_cbk value c)
  end.

(** [ok] is whether the reader returns without a syntax error. *)
Definition ds_parse_tech_lef (ok : bool) (events : list tech_event) (stack : DSStack) (grid : Z) (vias : list DSViaCell) : outcome TechContext :=
  c ← ofold tech_step events {| tc_stack := stack; tc_grid := grid; tc_vias := vias; tc_stats := no_stats |};
  if ok then Ok c else FatalExit 80.

(** * Cell files *)

Record CellContext := {
  cc_design : DSDesign; cc_geometry : DSPinGeometry; cc_vias : list DSViaCell; cc_stats : DSLefParseStats;
  cell_seq : N; macro_valid : bool; current_cell : DSCell; current_pin_geoms : list DSShapeRef;
}.

#[export] Instance set_cc_stats : Setter cc_stats := fun f c =>
  {| cc_design := cc_design c; cc_geometry := cc_geometry c; cc_vias := cc_vias c; cc_stats := f (cc_stats c); cell_seq := cell_seq c;
     macro_valid := macro_valid c; current_cell := current_cell c; current_pin_geoms := current_pin_geoms c |}.
#[export] Instance set_current_cell : Setter current_cell := fun f c =>
  {| cc_design := cc_design c; cc_geometry := cc_geometry c; cc_vias := cc_vias c; cc_stats := cc_stats c; cell_seq := cell_seq c;
     macro_valid := macro_valid c; current_cell := f (current_cell c); current_pin_geoms := current_pin_geoms c |}.
#[export] Instance set_current_pin_geoms : Setter current_pin_geoms := fun f c =>
  {| cc_design := cc_design c; cc_geometry := cc_geometry c; cc_vias := cc_vias c; cc_stats := cc_stats c; cell_seq := cell_seq c;
     macro_valid := macro_valid c; current_cell := current_cell c; current_pin_geoms := f (current_pin_geoms c) |}.
#[export] Instance set_cc_design : Setter cc_design := fun f c =>
  {| cc_design := f (cc_design c); cc_geometry := cc_geometry c; cc_vias := cc_vias c; cc_stats := cc_stats c; cell_seq := cell_seq c;
     macro_valid := macro_valid c; current_cell := current_cell c; current_pin_geoms := current_pin_geoms c |}.
#[export] Instance set_cc_geometry : Setter cc_geometry := fun f c =>
  {| cc_design := cc_design c; cc_geometry := f (cc_geometry c); cc_vias := cc_vias c; cc_stats := cc_stats c; cell_seq := cell_seq c;
     macro_valid := macro_valid c; current_cell := current_cell c; current_pin_geoms := current_pin_geoms c |}.
#[export] Instance set_cc_vias : Setter cc_vias := fun f c =>
  {| cc_design := cc_design c; cc_geometry := cc_geometry c; cc_vias := f (cc_vias c); cc_stats := cc_stats c; cell_seq := cell_seq c;
     macro_valid := macro_valid c; current_cell := current_cell c; current_pin_geoms := current_pin_geoms c |}.
#[export] Instance set_macro_valid : Setter macro_valid := fun f c =>
  {| cc_design := cc_design c; cc_geometry := cc_geometry c; cc_vias := cc_vias c; cc_stats := cc_stats c; cell_seq := cell_seq c;
     macro_valid := f (macro_valid c); current_cell := current_cell c; current_pin_geoms := current_pin_geoms c |}.
#[export] Instance set_cell_seq : Setter cell_seq := fun f c =>
  {| cc_design := cc_design c; cc_geometry := cc_geometry c; cc_vias := cc_vias c; cc_stats := cc_stats c; cell_seq := f (cell_seq c);
     macro_valid := macro_valid c; current_cell := current_cell c; current_pin_geoms := current_pin_geoms c |}.

Arguments set_cc_stats _ _ /.
Arguments set_current_cell _ _ /.
Arguments set_current_pin_geoms _ _ /.
Arguments set_cc_design _ _ /.
Arguments set_cc_geometry _ _ /.
Arguments set_cc_vias _ _ /.
Arguments set_macro_valid _ _ /.
Arguments set_cell_seq _ _ /.

Definition cell_named (name : bytes) : DSCell :=
  {| name_ := name; library_name_ := []; bbox_ := GEORect 0 0 0 0; origin_x_ := 0; origin_y_ := 0;
     def_path_ := []; flags_ := no_flags; pins_ := []; obs_ := []; polygon_ := GEOPolygon [] |}.
Definition add_pin (p : DSPin) (c : DSCell) : DSCell := set_pins (pins_ c ++ [p]) c.
Definition add_obs (ref : DSShapeRef) (c : DSCell) : DSCell :=
  {| name_ := name_ c; library_name_ := library_name_ c; bbox_ := bbox_ c; origin_x_ := origin_x_ c; origin_y_ := origin_y_ c;
     def_path_ := def_path_ c; flags_ := flags_ c; pins_ := pins_ c; obs_ := obs_ c ++ [ref]; polygon_ := polygon_ c |}.

(** One item of [collect_lef_geoms], with the current layer. *)
Definition collect_item (stack : DSStack) (to_obs : bool) (st : bytes * CellContext) (item : lefiGeomItem) : bytes * CellContext :=
  let '(cur_layer, c) := st in
  match item with
  | GeomLayer name => (name, c)
  | GeomRect r =>
      let layer := ds_resolve_layer_id cur_layer stack in
      if negb (is_valid_id table_bits layer) then (cur_layer, c <| cc_stats ::= bump_lef lef_skipped_layer_ref_count |>) else
      let ref := {| layer_id_ := layer; rect_ := lef_rect_to_dbu r |} in
      (cur_layer, if to_obs then c <| current_cell ::= add_obs ref |> else c <| current_pin_geoms ::= (fun l => l ++ [ref]) |>)
  | GeomOther => (cur_layer, c <| cc_stats ::= bump_lef skipped_geometry_count |>)
  end.

Definition collect_lef_geoms (stack : DSStack) (to_obs : bool) (items : list lefiGeomItem) (c : CellContext) : CellContext :=
  (foldl (collect_item stack to_obs) ([], c) items).2.

Definition cell_macro_begin_cbk (name : bytes) (c : CellContext) : outcome CellContext :=
  found ← find_cell (cc_design c) name;
  Ok match found with
     | Some _ => c <| macro_valid := false |> <| cc_stats ::= bump_lef skipped_macro_count |>
     | None => c <| macro_valid := true |> <| cell_seq := (N.of_nat (length (cells_ (cc_design c))) mod 2 ^ 32)%N |>
                 <| current_cell := cell_named name |> <| current_pin_geoms := [] |>
     end.

Definition lef_pin (p : lefiPin) : DSPin :=
  {| type_ := map_pin_use (default (text "SIGNAL") (lp_use p)); direction_ := map_pin_direction (default (text "INPUT") (lp_direction p));
     pin_global_id_ := kInvalidId table_bits; pin_placement_status_ := PIN_NONE; is_port := false |}.

Definition cell_pin_cbk (stack : DSStack) (p : lefiPin) (c : CellContext) : outcome CellContext :=
  if negb (macro_valid c) then Ok c else
  '(design, local_pin_id) ← register_pin (lp_name p) (cc_design c);
  let c := c <| cc_design := design |> <| current_cell ::= add_pin (set_pin_id local_pin_id (lef_pin p)) |>
             <| cc_stats ::= bump_lef lef_pin_count |> in
  let c := foldl (fun c port => collect_lef_geoms stack false port c) c (lp_ports p) in
  Ok match current_pin_geoms c with
     | [] => c
     | geos => c <| cc_geometry ::= add_geometries (cell_seq c) local_pin_id geos |> <| current_pin_geoms := [] |>
     end.

Definition cell_obstruction_cbk (stack : DSStack) (items : list lefiGeomItem) (c : CellContext) : CellContext :=
  if negb (macro_valid c) then c else collect_lef_geoms stack true items c.

Definition macro_flags (f : CellFlags) : CellFlags :=
  {| is_fake_cell := is_fake_cell f; is_std_cell := is_std_cell f; is_lef_cell := true; is_lib_cell := is_lib_cell f;
     is_macro_cell := true; is_block_cell := is_block_cell f; is_polygon := is_polygon f |}.

(** The attributes of the macro, read at its end. *)
Definition macro_attributes (m : lefiMacro) (c : DSCell) : DSCell :=
  {| name_ := name_ c; library_name_ := library_name_ c;
     bbox_ := from_option (fun s => GEORect 0 0 (dbu32 s.1) (dbu32 s.2)) (bbox_ c) (lm_size m);
     origin_x_ := from_option (fun o => dbu32 o.1) (origin_x_ c) (lm_origin m);
     origin_y_ := from_option (fun o => dbu32 o.2) (origin_y_ c) (lm_origin m);
     def_path_ := def_path_ c; flags_ := macro_flags (flags_ c); pins_ := pins_ c; obs_ := obs_ c; polygon_ := polygon_ c |}.

Definition cell_macro_cbk (m : lefiMacro) (c : CellContext) : outcome CellContext :=
  if negb (macro_valid c) then Ok c else
  '(design, _) ← add_cell (macro_attributes m (current_cell c)) (cc_design c);
  Ok (c <| cc_design := design |> <| current_cell := empty_cell |> <| cc_stats ::= bump_lef macro_count |> <| macro_valid := false |>).

Inductive cell_event :=
  | EMacroBegin (name : bytes) | EPin (p : lefiPin) | EObs (items : list lefiGeomItem) | EMacro (m : lefiMacro)
  | EVia (v : lefiVia) | EViaRule (vr : lefiViaRule).

Definition with_lef_vias (c : CellContext) (vs : list DSViaCell * DSLefParseStats) : CellContext :=
  c <| cc_vias := vs.1 |> <| cc_stats := vs.2 |>.

Definition cell_step (stack : DSStack) (c : CellContext) (e : cell_event) : outcome CellContext :=
  match e with
  | EMacroBegin name => cell_macro_begin_cbk name c
  | EPin p => cell_pin_cbk stack p c
  | EObs items => Ok (cell_obstruction_cbk stack items c)
  | EMacro m => cell_macro_cbk m c
  | EVia v => vs ← via_cbk stack v (cc_vias c, cc_stats c); Ok (with_lef_vias c vs)
  | EViaRule vr => vs ← viarule_cbk stack vr (cc_vias c, cc_stats c); Ok (with_lef_vias c vs)
  end.

Definition new_cells (design : DSDesign) (geometry : DSPinGeometry) (vias : list DSViaCell) : CellContext :=
  {| cc_design := design; cc_geometry := geometry; cc_vias := vias; cc_stats := no_stats; cell_seq := 0; macro_valid := false;
     current_cell := empty_cell; current_pin_geoms := [] |}.

(** The results and the counters; after a syntax error they are empty. *)
Definition ds_parse_cell_lef (stack : DSStack) (ok : bool) (events : list cell_event)
    (design : DSDesign) (geometry : DSPinGeometry) (vias : list DSViaCell) : outcome (DSDesign * DSPinGeometry * list DSViaCell * DSLefParseStats) :=
  c ← ofold (cell_step stack) events (new_cells design geometry vias);
  Ok (if ok then (cc_design c, cc_geometry c, cc_vias c, cc_stats c)
      else (new_design, ∅, [], bump_lef parse_failed_count no_stats)).

(** * What a cell file says *)

Inductive macro_item := MPin (p : lefiPin) | MObs (items : list lefiGeomItem).
Record macro_text := { mt_name : bytes; mt_body : list macro_item; mt_end : lefiMacro }.
Inductive file_item := FMacro (m : macro_text) | FVia (v : lefiVia) | FViaRule (vr : lefiViaRule).

Definition macro_events (m : macro_text) : list cell_event :=
  EMacroBegin (mt_name m) :: ((fun i => match i with MPin p => EPin p | MObs items => EObs items end) <$> mt_body m) ++ [EMacro (mt_end m)].
Definition item_events (i : file_item) : list cell_event :=
  match i with FMacro m => macro_events m | FVia v => [EVia v] | FViaRule vr => [EViaRule vr] end.

(** The rectangles under a known layer, the number of the others, and of what is not a rectangle. *)
Fixpoint geom_shapes (stack : DSStack) (cur : bytes) (items : list lefiGeomItem) : list DSShapeRef :=
  match items with
  | [] => []
  | GeomLayer name :: items => geom_shapes stack name items
  | GeomRect r :: items =>
      let layer := ds_resolve_layer_id cur stack in
      if is_valid_id table_bits layer then {| layer_id_ := layer; rect_ := lef_rect_to_dbu r |} :: geom_shapes stack cur items
      else geom_shapes stack cur items
  | GeomOther :: items => geom_shapes stack cur items
  end.
Fixpoint geom_stat (stack : DSStack) (k : lef_stat) (cur : bytes) (items : list lefiGeomItem) : Z :=
  match items with
  | [] => 0
  | GeomLayer name :: items => geom_stat stack k name items
  | GeomRect _ :: items =>
      (if decide (k = lef_skipped_layer_ref_count) then if is_valid_id table_bits (ds_resolve_layer_id cur stack) then 0 else 1 else 0)
      + geom_stat stack k cur items
  | GeomOther :: items => (if decide (k = skipped_geometry_count) then 1 else 0) + geom_stat stack k cur items
  end.

Definition item_pin (i : macro_item) : option lefiPin := match i with MPin p => Some p | MObs _ => None end.
Definition item_obs (i : macro_item) : option (list lefiGeomItem) := match i with MObs items => Some items | MPin _ => None end.
Definition pin_shapes (stack : DSStack) (p : lefiPin) : list DSShapeRef := lp_ports p ≫= geom_shapes stack [].
Definition body_shapes (stack : DSStack) (body : list macro_item) (name : bytes) : list DSShapeRef :=
  filter (fun p => lp_name p = name) (omap item_pin body) ≫= pin_shapes stack.
Definition body_obs (stack : DSStack) (body : list macro_item) : list DSShapeRef := omap item_obs body ≫= geom_shapes stack [].
Definition item_stat (stack : DSStack) (k : lef_stat) (i : macro_item) : Z :=
  match i with
  | MPin p => (if decide (k = lef_pin_count) then 1 else 0) + sum (geom_stat stack k [] <$> lp_ports p)
  | MObs items => geom_stat stack k [] items
  end.

(** The number of a layer in the table and whether it is a cut, if the name is known. *)
Definition layer_kind (stack : DSStack) (name : bytes) : option (N * bool) :=
  let id := find_layer stack name in
  if is_valid_id table_bits id then (fun l => (id, bool_decide (layer_type_ l = CUT))) <$> layer_by_id stack id else None.

(** The rectangles of a via under the layers whose kind satisfies [P], in the order of the file. *)
Definition rects_on (stack : DSStack) (P : N * bool -> Prop) `{!forall i, Decision (P i)} (v : lefiVia) : list GEORectT :=
  lv_layers v ≫= fun e => match layer_kind stack e.1 with Some i => if decide (P i) then lef_rect_to_dbu <$> e.2 else [] | None => [] end.
Definition via_on (stack : DSStack) (v : lefiVia) (i : N * bool) : Prop := exists e, e ∈ lv_layers v /\ layer_kind stack e.1 = Some i.

(** What a via of the file says: the rectangles of the cut layers are its cuts, those of the lowest
    of the other layers its bottom, the rest its top. *)
Record via_says (stack : DSStack) (v : lefiVia) (cell : DSViaCell) : Prop := {
  vs_name : via_name_ cell = lv_name v;
  vs_cuts : cut_rects_ cell = rects_on stack (fun i => i.2 = true) v;
  vs_bottom : bottom_enclosure_ cell = rects_on stack (fun i => i.2 = false /\ i.1 = bottom_layer_id_ cell) v;
  vs_top : top_enclosure_ cell = rects_on stack (fun i => i.2 = false /\ i.1 <> bottom_layer_id_ cell) v;
  vs_bounds id : via_on stack v (id, false) ->
    (bottom_layer_id_ cell <= id <= top_layer_id_ cell)%N /\ via_on stack v (bottom_layer_id_ cell, false) /\ via_on stack v (top_layer_id_ cell, false);
  vs_cut id : via_on stack v (id, true) -> via_on stack v (cut_layer_id_ cell, true);
}.

(** The rectangle of a cut, grown by the enclosure of a layer. *)
Definition grown (r : lefiRect) (rl : lefiViaRuleLayer) : GEORectT :=
  let ex := from_option (fun e => to_dbu e.1) 0 (rl_enclosure rl) in
  let ey := from_option (fun e => to_dbu e.2) 0 (rl_enclosure rl) in
  GEORect (s32 (to_dbu (lr_xl r) - ex)) (s32 (to_dbu (lr_yl r) - ey)) (s32 (to_dbu (lr_xh r) + ex)) (s32 (to_dbu (lr_yh r) + ey)).

(** The rules that give a via: generated, of a lower layer, a cut with a rectangle and an upper layer, in this order. *)
Definition template_of (vr : lefiViaRule) (bot cut top : lefiViaRuleLayer) (r : lefiRect) : Prop :=
  vr_generate vr = true /\ vr_layers vr = [bot; cut; top] /\ rl_rect cut = Some r.

(** What comes of a statement for the table of vias: a cell, nothing for a layer that is not in the
    stack, which is counted, or nothing at all. *)
Inductive via_outcome := ViaCell (cell : DSViaCell) | ViaUnknownLayer | NoVia.
Inductive item_reads (stack : DSStack) : file_item -> via_outcome -> Prop :=
  | reads_macro m : item_reads stack (FMacro m) NoVia
  | reads_via v cell : Forall (fun e => is_Some (layer_kind stack e.1)) (lv_layers v) -> via_says stack v cell ->
      item_reads stack (FVia v) (ViaCell cell)
  | reads_via_unknown v : Exists (fun e => layer_kind stack e.1 = None) (lv_layers v) -> item_reads stack (FVia v) ViaUnknownLayer
  | reads_rule vr bot cut top r b c t : template_of vr bot cut top r ->
      fst <$> layer_kind stack (rl_name bot) = Some b -> fst <$> layer_kind stack (rl_name cut) = Some c -> fst <$> layer_kind stack (rl_name top) = Some t ->
      item_reads stack (FViaRule vr) (ViaCell
        {| via_name_ := vr_name vr; bottom_layer_id_ := b; top_layer_id_ := t; cut_layer_id_ := c;
           cut_rects_ := [lef_rect_to_dbu r]; bottom_enclosure_ := [grown r bot]; top_enclosure_ := [grown r top] |})
  | reads_rule_unknown vr bot cut top r : template_of vr bot cut top r ->
      Exists (fun rl => layer_kind stack (rl_name rl) = None) [bot; cut; top] -> item_reads stack (FViaRule vr) ViaUnknownLayer
  | reads_rule_other vr : ~ (exists bot cut top r, template_of vr bot cut top r) -> item_reads stack (FViaRule vr) NoVia.

Definition outcome_cell (o : via_outcome) : option DSViaCell := match o with ViaCell cell => Some cell | _ => None end.
Definition rule_cell (io : file_item * via_outcome) : option DSViaCell := match io.1 with FViaRule _ => outcome_cell io.2 | _ => None end.
Definition unknown_layer (o : via_outcome) : Z := match o with ViaUnknownLayer => 1 | _ => 0 end.

(** The numbers of a rule are below 2^62: the sums of [grown] fit into 64 bits. *)
Definition rule_small (vr : lefiViaRule) : Prop :=
  Forall (fun rl => (forall r, rl_rect rl = Some r -> Forall (fun x => Z.abs (to_dbu x) < 2 ^ 62) [lr_xl r; lr_yl r; lr_xh r; lr_yh r]) /\
    (forall e, rl_enclosure rl = Some e -> Z.abs (to_dbu e.1) < 2 ^ 62 /\ Z.abs (to_dbu e.2) < 2 ^ 62)) (vr_layers vr).

(** The pins of a cell; [pins] lists the names of the pins by number. *)
Definition pin_stored (pins : list bytes) (p : lefiPin) (q : DSPin) : Prop :=
  exists i, pins !! i = Some (lp_name p) /\ q = set_pin_id (N.of_nat i) (lef_pin p).
Definition cell_with (name : bytes) (ps : list DSPin) (obs : list DSShapeRef) : DSCell :=
  {| name_ := name; library_name_ := []; bbox_ := GEORect 0 0 0 0; origin_x_ := 0; origin_y_ := 0;
     def_path_ := []; flags_ := no_flags; pins_ := ps; obs_ := obs; polygon_ := GEOPolygon [] |}.
Definition cell_stored (stack : DSStack) (pins : list bytes) (m : macro_text) (c : DSCell) : Prop :=
  exists ps, Forall2 (pin_stored pins) (omap item_pin (mt_body m)) ps /\
    c = macro_attributes (mt_end m) (cell_with (mt_name m) ps (body_obs stack (mt_body m))).

(** The shapes of the pins of the macros: those of every pin of the name. *)
Definition shapes_stored (stack : DSStack) (pins : list bytes) (bodies : list (list macro_item)) (g : DSPinGeometry) : Prop :=
  forall i k, default [] (geometry_of g (N.of_nat i) (N.of_nat k)) =
    default [] (body ← bodies !! i; n ← pins !! k; Some (body_shapes stack body n)).

(** The names of the pins, each once, numbered in the order of registration. *)
Definition pins_table (d : DSDesign) (pins : list bytes) : Prop :=
  table_names (pin_names_ d) pins /\ Forall (fun n => n <> []) pins /\ hasher_size (pin_names_ d) = length pins /\ NoDup pins.

(** * Lemmas *)

Lemma bump_lef_eq k s : bump_lef k s k = s k + 1.
Proof. unfold bump_lef. by rewrite decide_True. Qed.
Lemma bump_lef_at k s j : bump_lef k s j = s j + (if decide (j = k) then 1 else 0).
Proof. unfold bump_lef. destruct (decide _); lia. Qed.

(** A pin gets the number of its name, a new one if the name is new. *)
Lemma register_pin_spec d pins n :
  pins_table d pins -> proper_name n -> (N.of_nat (length pins) + 1 < 2 ^ table_bits)%N ->
  exists d' i, register_pin n d = Ok (d', N.of_nat i) /\
    let pins' := if decide (n ∈ pins) then pins else pins ++ [n] in
    pins_table d' pins' /\ pins' !! i = Some n /\
    cells_ d' = cells_ d /\ cell_names_ d' = cell_names_ d /\ via_cells_ d' = via_cells_ d /\ via_cell_names_ d' = via_cell_names_ d.
Proof.
  intros (Ht & Hne & Hsz & Hnd) Hname Hroom. pose proof (table_find _ _ n Ht (proj1 Hname)) as Hf. unfold register_pin.
  destruct (decide (n ∈ pins)) as [Hin|Hin].
  - destruct Hf as (i & Hi & -> & ->). exists d, i. done.
  - rewrite Hf, Hsz, N.mod_small by lia. cbv zeta.
    destruct (table_assign _ _ n (N.of_nat (length pins)) Ht Hname Hin) as (h' & Ha & Ht'); [done| |].
    { intros m. rewrite Nat2N.id, lookup_ge_None_2 by done. done. }
    assert (<[N.to_nat (N.of_nat (length pins)) := n]> (grow_names (N.of_nat (length pins)) pins) = pins ++ [n]) as E.
    { unfold grow_names. rewrite (proj2 (N.leb_le _ _)) by lia. rewrite Nat2N.id. replace (N.to_nat (N.of_nat (length pins) + 1)) with (length pins + 1)%nat by lia.
      rewrite resize_ge by (unfold bytes in *; lia). rewrite insert_app_r_alt by (unfold bytes in *; lia). rewrite Nat.sub_diag.
      rewrite Nat.add_comm, Nat.add_sub. done. }
    rewrite E in Ht'. rewrite Ha. cbn [mbind outcome_bind]. eexists _, (length pins). split; [done|]. split; [|by rewrite list_lookup_middle by done].
    split; [done|]. split; [apply Forall_app; split; [done|]; by apply Forall_singleton, Hname|]. split; [|apply NoDup_app; split; [done|]; split; [by intros m Hm ->%list_elem_of_singleton|apply NoDup_singleton]].
    change (hasher_size h' = length (pins ++ [n])). rewrite length_app, Nat.add_comm. change (length [n]) with 1%nat. rewrite <- Hsz.
    unfold assign in Ha. destruct (is_lcp_form _); [done|]. destruct (_ <? _)%N; [|done]. injection Ha as <-.
    unfold hasher_size. rewrite !backend_size_map. unfold with_names. cbn [backend_]. refine (map_size_insert_None _ _ _ _).
    by apply (table_fresh _ pins); [|apply Hname|].
Qed.

Lemma collect_spec stack to_obs items cur c :
  exists cur', foldl (collect_item stack to_obs) (cur, c) items = (cur',
    {| cc_design := cc_design c; cc_geometry := cc_geometry c; cc_vias := cc_vias c; cc_stats := cc_stats (foldl (collect_item stack to_obs) (cur, c) items).2;
       cell_seq := cell_seq c; macro_valid := macro_valid c;
       current_cell := if to_obs then foldl (fun c r => add_obs r c) (current_cell c) (geom_shapes stack cur items) else current_cell c;
       current_pin_geoms := if to_obs then current_pin_geoms c else current_pin_geoms c ++ geom_shapes stack cur items |}) /\
    forall k, cc_stats (foldl (collect_item stack to_obs) (cur, c) items).2 k = cc_stats c k + geom_stat stack k cur items.
Proof.
  revert cur c. induction items as [|[name|r|] items IH]; intros cur c; cbn [foldl geom_shapes geom_stat].
  - exists cur. split; [destruct c, to_obs; cbn; by rewrite ?app_nil_r|]. intros k. cbn. lia.
  - apply IH.
  - unfold collect_item at 2 4 6. destruct (is_valid_id table_bits (ds_resolve_layer_id cur stack)); cbn [negb].
    + destruct to_obs.
      * edestruct IH as (cur' & E & Hk). exists cur'. split; [exact E|]. intros k. rewrite Hk. cbn. destruct (decide _); lia.
      * edestruct IH as (cur' & E & Hk). exists cur'. split; [rewrite E at 1; cbn; by rewrite <- (assoc_L app)|]. intros k. rewrite Hk. cbn. destruct (decide _); lia.
    + edestruct IH as (cur' & E & Hk). exists cur'. split; [exact E|]. intros k. rewrite Hk. cbn. rewrite bump_lef_at. lia.
  - cbn [collect_item]. edestruct IH as (cur' & E & Hk). exists cur'. split; [exact E|]. intros k. rewrite Hk. cbn. rewrite bump_lef_at. lia.
Qed.

Lemma collect_pin stack items c : exists s,
  collect_lef_geoms stack false items c = c <| current_pin_geoms ::= (fun l => l ++ geom_shapes stack [] items) |> <| cc_stats := s |> /\
  forall k, s k = cc_stats c k + geom_stat stack k [] items.
Proof. destruct (collect_spec stack false items [] c) as (cur & E & Hk). eexists. unfold collect_lef_geoms. split; [by rewrite E at 1|exact Hk]. Qed.

Lemma obs_added l c : foldl (fun c r => add_obs r c) c l =
  {| name_ := name_ c; library_name_ := library_name_ c; bbox_ := bbox_ c; origin_x_ := origin_x_ c; origin_y_ := origin_y_ c;
     def_path_ := def_path_ c; flags_ := flags_ c; pins_ := pins_ c; obs_ := obs_ c ++ l; polygon_ := polygon_ c |}.
Proof.
  revert c. induction l as [|r l IH]; intros c; cbn [foldl]; [destruct c; cbn; by rewrite app_nil_r|].
  rewrite IH. cbn. by rewrite <- (assoc_L app).
Qed.

Lemma collect_obs stack items c : exists s,
  collect_lef_geoms stack true items c = c <| current_cell ::= (fun cell => foldl (fun c r => add_obs r c) cell (geom_shapes stack [] items)) |> <| cc_stats := s |> /\
  forall k, s k = cc_stats c k + geom_stat stack k [] items.
Proof. destruct (collect_spec stack true items [] c) as (cur & E & Hk). eexists. unfold collect_lef_geoms. split; [by rewrite E at 1|exact Hk]. Qed.

Lemma ports_spec stack ports c : exists s,
  foldl (fun c port => collect_lef_geoms stack false port c) c ports =
    c <| current_pin_geoms ::= (fun l => l ++ (ports ≫= geom_shapes stack [])) |> <| cc_stats := s |> /\
  forall k, s k = cc_stats c k + sum (geom_stat stack k [] <$> ports).
Proof.
  revert c. induction ports as [|port ports IH]; intros c; cbn [foldl].
  - exists (cc_stats c). split; [destruct c; cbn; by rewrite app_nil_r|]. intros k. cbn. rewrite sum_nil. lia.
  - destruct (collect_pin stack port c) as (s & -> & Hs). edestruct IH as (s' & -> & Hs'). exists s'. split.
    + destruct c; cbn. by rewrite <- (assoc_L app).
    + intros k. rewrite Hs'. cbn. rewrite Hs, sum_cons. lia.
Qed.

Lemma geometry_added_at g cell pin geos j k :
  default [] (geometry_of (add_geometries cell pin geos g) j k) =
    default [] (geometry_of g j k) ++ (if decide (cell = j /\ pin = k) then geos else []).
Proof.
  unfold geometry_of, add_geometries, DSPinGeometry in *. cbv zeta. destruct (decide (cell = j)) as [<-|Hj].
  - rewrite lookup_insert_eq. cbn [mbind option_bind]. destruct (decide (pin = k)) as [->|Hne].
    + rewrite lookup_insert_eq, decide_True by done. by destruct (g !! cell).
    + rewrite lookup_insert_ne, decide_False, app_nil_r by naive_solver. by destruct (g !! cell).
  - rewrite lookup_insert_ne, decide_False, app_nil_r by naive_solver. done.
Qed.

Lemma body_shapes_snoc stack body p n :
  body_shapes stack (body ++ [MPin p]) n = body_shapes stack body n ++ (if decide (lp_name p = n) then pin_shapes stack p else []).
Proof.
  unfold body_shapes. rewrite omap_app, filter_app, bind_app. f_equal. cbn [omap list_omap item_pin]. rewrite filter_cons, filter_nil.
  destruct (decide _); [|done]. cbn. by rewrite app_nil_r.
Qed.

Lemma body_shapes_unknown stack body n : Forall (fun p => lp_name p <> n) (omap item_pin body) -> body_shapes stack body n = [].
Proof.
  unfold body_shapes. induction (omap item_pin body) as [|p l IH]; [done|]. intros [Hp Hl]%Forall_cons.
  rewrite filter_cons, decide_False by done. by apply IH.
Qed.

Lemma pin_stored_grow pins l p q : pin_stored pins p q -> pin_stored (pins ++ l) p q.
Proof. intros (i & Hi & ->). exists i. split; [by apply lookup_app_l_Some|done]. Qed.

(** The cells, the pins and their shapes agree with the macros read so far. *)
Record cells_ok (stack : DSStack) (kept : list macro_text) (pins : list bytes) (d : DSDesign) : Prop := {
  co_cells : Forall2 (cell_stored stack pins) kept (cells_ d);
  co_names : table_names (cell_names_ d) (name_ <$> cells_ d);
  co_vias : table_names (via_cell_names_ d) (via_name_ <$> via_cells_ d);
  co_pins : pins_table d pins;
}.

Record macro_inv (stack : DSStack) (kept : list macro_text) (name : bytes) (body : list macro_item) (pins : list bytes) (c0 c : CellContext) : Prop := {
  mi_cells : cells_ok stack kept pins (cc_design c);
  mi_state : macro_valid c = true /\ cell_seq c = N.of_nat (length kept) /\ current_pin_geoms c = [] /\ cc_vias c = cc_vias c0;
  mi_cell : exists ps, Forall2 (pin_stored pins) (omap item_pin body) ps /\ current_cell c = cell_with name ps (body_obs stack body);
  mi_shapes : shapes_stored stack pins ((mt_body <$> kept) ++ [body]) (cc_geometry c);
  mi_stats k : cc_stats c k = cc_stats c0 k + sum (item_stat stack k <$> body);
}.

Lemma cells_ok_grow stack kept pins pins' d d' :
  cells_ok stack kept pins d -> (exists l, pins' = pins ++ l) -> pins_table d' pins' ->
  cells_ d' = cells_ d -> cell_names_ d' = cell_names_ d -> via_cells_ d' = via_cells_ d -> via_cell_names_ d' = via_cell_names_ d ->
  cells_ok stack kept pins' d'.
Proof.
  intros [H1 H2 H3 _] [l ->] Hp E1 E2 E3 E4. split; [|by rewrite E1, E2|by rewrite E3, E4|done]. rewrite E1.
  eapply Forall2_impl; [exact H1|]. intros m c (ps & Hps & ->). exists ps. split; [|done].
  eapply Forall2_impl; [exact Hps|]. intros p q. apply pin_stored_grow.
Qed.

(** Every pin of a stored macro is in the table. *)
Lemma stored_known pins body ps n : Forall2 (pin_stored pins) body ps -> n ∉ pins -> Forall (fun p => lp_name p <> n) body.
Proof.
  intros H Hn. apply Forall_forall. intros p [j Hj]%list_elem_of_lookup E. destruct (Forall2_lookup_l _ _ _ _ _ H Hj) as (q & _ & i & Hi & _).
  rewrite E in Hi. by apply list_elem_of_lookup_2 in Hi.
Qed.

Lemma shapes_grow stack pins n bodies g :
  shapes_stored stack pins bodies g -> (n ∉ pins -> Forall (fun b => body_shapes stack b n = []) bodies) ->
  shapes_stored stack (if decide (n ∈ pins) then pins else pins ++ [n]) bodies g.
Proof.
  intros Hs Hn. destruct (decide (n ∈ pins)) as [|Hin]; [done|]. specialize (Hn Hin). intros j k. rewrite (Hs j k).
  destruct (bodies !! j) as [b|] eqn:Ej; [|done]. cbn. rewrite lookup_kept_snoc. destruct (decide (k = length pins)) as [->|]; [|done].
  rewrite lookup_ge_None_2 by done. cbn. symmetry. by eapply (proj1 (Forall_lookup _ _) Hn j).
Qed.

Lemma shapes_pin stack pins bodies body g p i :
  shapes_stored stack pins (bodies ++ [body]) g -> NoDup pins -> pins !! i = Some (lp_name p) ->
  shapes_stored stack pins (bodies ++ [body ++ [MPin p]]) (match pin_shapes stack p with [] => g | geos => add_geometries (N.of_nat (length bodies)) (N.of_nat i) geos g end).
Proof.
  intros Hs Hnd Hi j k.
  trans (default [] (geometry_of g (N.of_nat j) (N.of_nat k)) ++ (if decide (length bodies = j /\ i = k) then pin_shapes stack p else [])).
  { destruct (pin_shapes stack p) as [|r l]; [by destruct (decide _); rewrite app_nil_r|]. rewrite geometry_added_at. f_equal. apply decide_ext. lia. }
  rewrite (Hs j k), !lookup_kept_snoc. destruct (decide (j = length bodies)) as [->|Hj]; [|by rewrite decide_False, app_nil_r by naive_solver].
  cbn [mbind option_bind default from_option]. destruct (pins !! k) as [m|] eqn:Ek; cbn [mbind option_bind default from_option].
  - cbn. rewrite body_shapes_snoc. f_equal. apply decide_ext. split; [intros [_ ->]; congruence|]. intros E. split; [done|].
    eapply NoDup_lookup; [done|done|]. by rewrite E.
  - rewrite decide_False; [done|]. intros [_ ->]. congruence.
Qed.

Lemma obs_kept stack kept name body pins c0 c items :
  macro_inv stack kept name body pins c0 c -> macro_inv stack kept name (body ++ [MObs items]) pins c0 (cell_obstruction_cbk stack items c).
Proof.
  intros [Hc (Hv & Hq & Hp & Hvia) (ps & Hps & Ecur) Hs Hst]. unfold cell_obstruction_cbk. rewrite Hv. cbn [negb].
  destruct (collect_obs stack items c) as (s & -> & Hk). assert (omap item_pin (body ++ [MObs items]) = omap item_pin body) as Ep by (rewrite omap_app; apply app_nil_r).
  split; cbn.
  - done.
  - done.
  - exists ps. split; [by rewrite Ep|]. rewrite obs_added, Ecur. unfold cell_with, body_obs. cbn. f_equal. rewrite omap_app, bind_app. cbn. by rewrite app_nil_r.
  - intros j k. rewrite (Hs j k), !lookup_kept_snoc. destruct (decide _); [|done]. cbn. unfold body_shapes. by rewrite Ep.
  - intros k. rewrite Hk, Hst, fmap_app, sum_app. cbn. rewrite sum_cons, sum_nil. lia.
Qed.

(** The names of the pins of the macros, the open one included, are known. *)
Lemma bodies_known stack kept name body pins c0 c n : macro_inv stack kept name body pins c0 c -> n ∉ pins ->
  Forall (fun b => body_shapes stack b n = []) ((mt_body <$> kept) ++ [body]).
Proof.
  intros [[Hc _ _ _] _ (ps & Hps & _) _ _] Hn. apply Forall_app. split.
  - apply Forall_fmap, Forall_forall. intros m [j Hj]%list_elem_of_lookup. destruct (Forall2_lookup_l _ _ _ _ _ Hc Hj) as (q & _ & qs & Hqs & _).
    cbn. apply body_shapes_unknown. by eapply stored_known.
  - apply Forall_singleton, body_shapes_unknown. by eapply stored_known.
Qed.

Lemma pin_read stack kept name body pins c0 c p :
  macro_inv stack kept name body pins c0 c -> proper_name (lp_name p) -> (N.of_nat (length pins) + 1 < 2 ^ table_bits)%N ->
  exists c' pins', cell_pin_cbk stack p c = Ok c' /\ macro_inv stack kept name (body ++ [MPin p]) pins' c0 c' /\ (length pins' <= S (length pins))%nat.
Proof.
  intros Hi Hname Hroom. pose proof (bodies_known _ _ _ _ _ _ _ (lp_name p) Hi) as Hknown.
  destruct Hi as [Hc (Hv & Hq & Hp & Hvia) (ps & Hps & Ecur) Hs Hst].
  destruct (register_pin_spec _ pins (lp_name p) (co_pins _ _ _ _ Hc) Hname Hroom) as (d' & i & Er & Hpt & Hlk & E1 & E2 & E3 & E4).
  apply (shapes_grow _ _ _ _ _ Hs) in Hknown.
  set (pins' := if decide (lp_name p ∈ pins) then pins else pins ++ [lp_name p]) in *.
  assert (exists l, pins' = pins ++ l) as Hl by (subst pins'; destruct (decide _); [exists []; by rewrite app_nil_r|by eexists]).
  unfold cell_pin_cbk. rewrite Hv, Er. cbn [negb mbind outcome_bind].
  destruct (ports_spec stack (lp_ports p) (c <| cc_design := d' |> <| current_cell ::= add_pin (set_pin_id (N.of_nat i) (lef_pin p)) |> <| cc_stats ::= bump_lef lef_pin_count |>))
    as (s & -> & Hk). cbn in Hk |- *. rewrite Hp. cbn [app].
  change (lp_ports p ≫= geom_shapes stack []) with (pin_shapes stack p).
  pose proof (shapes_pin _ _ _ _ _ p i Hknown (proj2 (proj2 (proj2 Hpt))) Hlk) as Hs'. rewrite length_fmap in Hs'.
  eexists _, pins'. split; [done|]. split.
  2:{ subst pins'. destruct (decide _); [lia|]. rewrite length_app. cbn. lia. }
  assert (forall k, s k = cc_stats c0 k + sum (item_stat stack k <$> body ++ [MPin p])) as Hk'.
  { intros k. rewrite Hk, bump_lef_at, Hst, fmap_app, sum_app. cbn. rewrite sum_cons, sum_nil. cbn. lia. }
  assert (Forall2 (pin_stored pins') (omap item_pin (body ++ [MPin p])) (ps ++ [set_pin_id (N.of_nat i) (lef_pin p)])) as Hps'.
  { rewrite omap_app. apply Forall2_app; [|constructor; [by exists i|constructor]]. destruct Hl as [l ->]. eapply Forall2_impl; [exact Hps|]. intros ? ?. apply pin_stored_grow. }
  assert (cells_ok stack kept pins' d') as Hc' by by eapply cells_ok_grow.
  assert (body_obs stack (body ++ [MPin p]) = body_obs stack body) as Eo by (unfold body_obs; rewrite omap_app; cbn; by rewrite app_nil_r).
  destruct (pin_shapes stack p) as [|r l]; split; cbn; rewrite ?Hq, ?Ecur, ?Eo; try done; by eexists.
Qed.

Lemma body_read_from stack kept name items body pins c0 c :
  macro_inv stack kept name body pins c0 c -> Forall (fun p => proper_name (lp_name p)) (omap item_pin items) ->
  Z.of_nat (length pins + length (omap item_pin items)) + 1 < 2 ^ 32 ->
  exists c' pins', ofold (cell_step stack) ((fun i => match i with MPin p => EPin p | MObs items => EObs items end) <$> items) c = Ok c' /\
    macro_inv stack kept name (body ++ items) pins' c0 c' /\ (length pins' <= length pins + length (omap item_pin items))%nat.
Proof.
  revert body pins c. induction items as [|[p|obs] items IH]; intros body pins c Hi Hn Hroom.
  - exists c, pins. rewrite app_nil_r. split; [done|]. split; [done|]. cbn. lia.
  - cbn in Hn, Hroom. apply Forall_cons in Hn as [Hp Hn].
    destruct (pin_read stack kept name body pins c0 c p Hi Hp) as (c1 & pins1 & E1 & H1 & L1); [unfold table_bits; lia|].
    destruct (IH _ _ _ H1 Hn) as (c2 & pins2 & E2 & H2 & L2); [lia|]. exists c2, pins2. cbn [fmap list_fmap ofold cell_step].
    rewrite E1. cbn [mbind outcome_bind]. rewrite <- (assoc_L app) in H2. split; [exact E2|]. split; [exact H2|]. cbn. lia.
  - destruct (IH _ _ _ (obs_kept _ _ _ _ _ _ _ obs Hi) Hn Hroom) as (c2 & pins2 & E2 & H2 & L2). exists c2, pins2. cbn [fmap list_fmap ofold cell_step].
    cbn [mbind outcome_bind]. rewrite <- (assoc_L app) in H2. split; [exact E2|]. split; [exact H2|]. cbn. lia.
Qed.

(** * A cell file *)

Definition file_macro (i : file_item) : option macro_text := match i with FMacro m => Some m | _ => None end.
Definition file_rule (i : file_item) : option lefiViaRule := match i with FViaRule vr => Some vr | _ => None end.

(** The cell of a via or of a rule, and whether it is dropped for an unknown layer. *)
Definition item_via (stack : DSStack) (i : file_item) : outcome (option DSViaCell * bool) :=
  match i with
  | FMacro _ => Ok (None, false)
  | FVia v => cell ← convert_via v stack; Ok (cell, match cell with None => true | Some _ => false end)
  | FViaRule vr => expand_viarule vr stack
  end.
Definition via_result (stack : DSStack) (i : file_item) : option DSViaCell := match item_via stack i with Ok (cell, _) => cell | _ => None end.
Definition via_lost (stack : DSStack) (i : file_item) : Z := match item_via stack i with Ok (_, true) => 1 | _ => 0 end.

(** The macros that are kept: the first of each name. *)
Definition kept_macros (items : list file_item) : list macro_text := keep_first mt_name (omap file_macro items).
Definition kept_vias (stack : DSStack) (items : list file_item) : list DSViaCell := keep_first via_name_ (omap (via_result stack) items).

Definition file_stat (stack : DSStack) (items : list file_item) (k : lef_stat) : Z :=
  sum ((fun m => sum (item_stat stack k <$> mt_body m)) <$> kept_macros items) +
  match k with
  | macro_count => Z.of_nat (length (kept_macros items))
  | skipped_macro_count => Z.of_nat (length (omap file_macro items)) - Z.of_nat (length (kept_macros items))
  | lef_via_count => Z.of_nat (length (kept_vias stack items))
  | lef_via_conflict_count => Z.of_nat (length (omap (via_result stack) items)) - Z.of_nat (length (kept_vias stack items))
  | viarule_count => Z.of_nat (length (omap (fun i => file_rule i ≫= fun _ => via_result stack i) items))
  | lef_skipped_layer_ref_count => sum (via_lost stack <$> items)
  | _ => 0
  end.

(** The counters after the file, with the outcomes of its statements. *)
Definition read_stat (stack : DSStack) (items : list file_item) (outs : list via_outcome) (k : lef_stat) : Z :=
  sum ((fun m => sum (item_stat stack k <$> mt_body m)) <$> kept_macros items) +
  match k with
  | macro_count => Z.of_nat (length (kept_macros items))
  | skipped_macro_count => Z.of_nat (length (omap file_macro items)) - Z.of_nat (length (kept_macros items))
  | lef_via_count => Z.of_nat (length (keep_first via_name_ (omap outcome_cell outs)))
  | lef_via_conflict_count => Z.of_nat (length (omap outcome_cell outs)) - Z.of_nat (length (keep_first via_name_ (omap outcome_cell outs)))
  | viarule_count => Z.of_nat (length (omap rule_cell (zip items outs)))
  | lef_skipped_layer_ref_count => sum (unknown_layer <$> outs)
  | _ => 0
  end.

Record file_inv (stack : DSStack) (items : list file_item) (pins : list bytes) (c : CellContext) : Prop := {
  fi_cells : cells_ok stack (kept_macros items) pins (cc_design c);
  fi_shapes : shapes_stored stack pins (mt_body <$> kept_macros items) (cc_geometry c);
  fi_vias : cc_vias c = kept_vias stack items;
  fi_stats k : cc_stats c k = file_stat stack items k;
  fi_room : (length pins <= length (omap file_macro items ≫= fun m => omap item_pin (mt_body m)))%nat;
}.

Lemma cells_ok_design stack kept pins d : cells_ok stack kept pins d -> design_ok d.
Proof. intros [_ Hn Hv (Hp & Hne & Hsz & _)]. split; [done|]. split; [done|]. by exists pins. Qed.

Lemma cells_ok_names stack kept pins d : cells_ok stack kept pins d -> name_ <$> cells_ d = mt_name <$> kept.
Proof.
  intros [Hc _ _ _]. induction Hc as [|m c kept cells (ps & _ & ->) _ IH]; [done|]. cbn. by rewrite IH.
Qed.

Lemma invalid_body stack c items : macro_valid c = false ->
  ofold (cell_step stack) ((fun i => match i with MPin p => EPin p | MObs items => EObs items end) <$> items) c = Ok c.
Proof.
  intros Hv. induction items as [|[p|obs] items IH]; [done|..]; cbn [fmap list_fmap ofold cell_step]; unfold cell_pin_cbk, cell_obstruction_cbk;
    rewrite Hv; exact IH.
Qed.

Lemma macro_opened stack items pins c name :
  file_inv stack items pins c -> proper_name name -> Z.of_nat (length items) < 2 ^ 32 -> name ∉ mt_name <$> kept_macros items ->
  exists c', cell_macro_begin_cbk name c = Ok c' /\ macro_inv stack (kept_macros items) name [] pins c c'.
Proof.
  intros [Hc Hs Hv Hst _] Hname Hlen Hnew. unfold cell_macro_begin_cbk.
  rewrite (find_cell_new _ _ (cells_ok_design _ _ _ _ Hc) (proj1 Hname)) by (by rewrite (cells_ok_names _ _ _ _ Hc)).
  eexists. split; [done|]. split; cbn.
  - done.
  - split; [done|]. split; [|done]. pose proof (Forall2_length _ _ _ (co_cells _ _ _ _ Hc)) as <-. apply N.mod_small.
    pose proof (keep_first_length mt_name (omap file_macro items)). unfold kept_macros. pose proof (omap_failures file_macro items). lia.
  - exists []. split; [constructor|done].
  - intros j k. rewrite (Hs j k), lookup_kept_snoc, length_fmap. destruct (decide _) as [->|]; [|done]. rewrite (lookup_ge_None_2 (mt_body <$> kept_macros items)) by by rewrite length_fmap.
    cbn. by destruct (pins !! k).
  - intros k. rewrite sum_nil. lia.
Qed.

Lemma macro_closed stack kept m pins c0 c :
  macro_inv stack kept (mt_name m) (mt_body m) pins c0 c -> proper_name (mt_name m) -> mt_name m ∉ mt_name <$> kept ->
  Z.of_nat (length kept) + 1 < 2 ^ 32 ->
  exists c', cell_macro_cbk (mt_end m) c = Ok c' /\ cells_ok stack (kept ++ [m]) pins (cc_design c') /\
    cc_geometry c' = cc_geometry c /\ cc_vias c' = cc_vias c /\ cc_stats c' = bump_lef macro_count (cc_stats c).
Proof.
  intros [Hc (Hv & _) (ps & Hps & Ecur) _ _] Hname Hnew Hroom. unfold cell_macro_cbk. rewrite Hv, Ecur. cbn [negb]. unfold add_cell.
  rewrite <- (cells_ok_names _ _ _ _ Hc) in Hnew. pose proof (Forall2_length _ _ _ (co_cells _ _ _ _ Hc)) as Hlen.
  destruct (table_emplace _ _ (mt_name m) (co_names _ _ _ _ Hc) Hname Hnew) as (h' & He & Ht'); [rewrite length_fmap; unfold table_bits; lia|].
  change (name_ (macro_attributes (mt_end m) (cell_with (mt_name m) ps (body_obs stack (mt_body m))))) with (mt_name m).
  rewrite He. cbn [mbind outcome_bind]. eexists. split; [done|]. split; [|done]. destruct Hc as [H1 H2 H3 H4]. split; cbn.
  - apply Forall2_app; [done|]. constructor; [by exists ps|constructor].
  - by rewrite fmap_app.
  - done.
  - done.
Qed.

(** Closes an equation between counters. *)
Ltac stat_arith := repeat (case_decide; try congruence); lia.

Lemma kept_macros_snoc items i : kept_macros (items ++ [i]) =
  match i with FMacro m => keep_step mt_name (kept_macros items) m | _ => kept_macros items end.
Proof. unfold kept_macros. rewrite omap_app. destruct i; cbn; [apply keep_first_snoc|by rewrite app_nil_r..]. Qed.

Lemma kept_vias_snoc stack items i : kept_vias stack (items ++ [i]) = from_option (keep_step via_name_ (kept_vias stack items)) (kept_vias stack items) (via_result stack i).
Proof. unfold kept_vias. rewrite omap_app. cbn. destruct (via_result stack i); [apply keep_first_snoc|by rewrite app_nil_r]. Qed.

Lemma length_omap_snoc {A B} (f : A -> option B) l a : length (omap f (l ++ [a])) = (length (omap f l) + match f a with Some _ => 1 | None => 0 end)%nat.
Proof. rewrite omap_app, length_app. cbn. by destruct (f a). Qed.

Lemma macro_stat stack items m k : file_stat stack (items ++ [FMacro m]) k = file_stat stack items k +
  if decide (mt_name m ∈ mt_name <$> kept_macros items) then if decide (k = skipped_macro_count) then 1 else 0
  else sum (item_stat stack k <$> mt_body m) + if decide (k = macro_count) then 1 else 0.
Proof.
  unfold file_stat. rewrite kept_macros_snoc, kept_vias_snoc, !length_omap_snoc. cbn [file_macro file_rule via_result item_via from_option mbind option_bind].
  rewrite fmap_app, sum_app. cbn [fmap list_fmap]. rewrite sum_cons, sum_nil. change (via_lost stack (FMacro m)) with 0. unfold keep_step.
  destruct (decide (mt_name m ∈ _)); [destruct k; cbn; stat_arith|]. rewrite fmap_app, sum_app, length_app. cbn [fmap list_fmap length]. rewrite sum_cons, sum_nil.
  destruct k; cbn; stat_arith.
Qed.

Lemma via_stat stack items i r lost k : file_macro i = None -> item_via stack i = Ok (r, lost) ->
  file_stat stack (items ++ [i]) k = file_stat stack items k +
  match k with
  | lef_via_count => Z.of_nat (length (kept_vias stack (items ++ [i]))) - Z.of_nat (length (kept_vias stack items))
  | lef_via_conflict_count => from_option (fun _ => 1) 0 r - (Z.of_nat (length (kept_vias stack (items ++ [i]))) - Z.of_nat (length (kept_vias stack items)))
  | viarule_count => match i with FViaRule _ => from_option (fun _ => 1) 0 r | _ => 0 end
  | lef_skipped_layer_ref_count => if lost then 1 else 0
  | _ => 0
  end.
Proof.
  intros Hm Hi. unfold file_stat. rewrite kept_macros_snoc, !length_omap_snoc, Hm. unfold via_result. rewrite Hi, fmap_app, sum_app. cbn [fmap list_fmap].
  rewrite sum_cons, sum_nil. unfold via_lost at 2. rewrite Hi. destruct i as [m|v|vr]; [done|..]; cbn [file_rule mbind option_bind]; destruct k, r, lost; cbn; stat_arith.
Qed.

Lemma find_via_spec vias name : find_via vias name = None <-> name ∉ via_name_ <$> vias.
Proof.
  unfold find_via. rewrite fmap_None, list_find_None, Forall_forall. split.
  - intros H (v & -> & Hv)%list_elem_of_fmap. by apply (H v).
  - intros H v Hv E. apply H. rewrite <- E. by apply list_elem_of_fmap_2.
Qed.

Lemma add_via_spec cell vias s : lef_add_via_unique cell (vias, s) =
  (keep_step via_name_ vias cell, bump_lef (if decide (via_name_ cell ∈ via_name_ <$> vias) then lef_via_conflict_count else lef_via_count) s).
Proof.
  unfold lef_add_via_unique, keep_step. cbn [fst snd]. destruct (find_via vias (via_name_ cell)) as [v|] eqn:E.
  - destruct (decide _) as [|Hn]; [done|]. apply find_via_spec in Hn. congruence.
  - apply find_via_spec in E. by destruct (decide _).
Qed.

Lemma length_keep_step (vias : list DSViaCell) cell : Z.of_nat (length (keep_step via_name_ vias cell)) =
  Z.of_nat (length vias) + if decide (via_name_ cell ∈ via_name_ <$> vias) then 0 else 1.
Proof. unfold keep_step. destruct (decide _); [lia|]. rewrite length_app. cbn. lia. Qed.

Lemma via_read stack items pins c i r lost : file_inv stack items pins c -> file_macro i = None -> item_via stack i = Ok (r, lost) ->
  exists c', ofold (cell_step stack) (item_events i) c = Ok c' /\ file_inv stack (items ++ [i]) pins c'.
Proof.
  intros [Hc Hs Hv Hst Hr] Hm Hi.
  assert (exists s, ofold (cell_step stack) (item_events i) c = Ok (c <| cc_vias := kept_vias stack (items ++ [i]) |> <| cc_stats := s |>) /\
    forall k, s k = file_stat stack (items ++ [i]) k) as (s & E & Hk).
  { setoid_rewrite (via_stat stack items i r lost _ Hm Hi). setoid_rewrite <- Hst. rewrite kept_vias_snoc, <- Hv. unfold via_result. rewrite Hi.
    destruct i as [m|v|vr]; [done|..]; cbn [item_via item_events ofold cell_step] in *; unfold via_cbk, viarule_cbk.
    - destruct (convert_via v stack) as [[cell|]| | |] eqn:E; try done; injection Hi as <- <-; cbn [mbind outcome_bind fst snd from_option].
      + rewrite add_via_spec. eexists. split; [done|]. intros k. cbn [fst snd]. rewrite length_keep_step, bump_lef_at. destruct (decide (via_name_ cell ∈ _)), k; cbn; stat_arith.
      + eexists. split; [done|]. intros k. cbn. rewrite bump_lef_at. destruct k; cbn; stat_arith.
    - rewrite Hi. cbn [mbind outcome_bind]. destruct r as [cell|]; cbn [fst snd from_option].
      + destruct lost; [exfalso; revert Hi; clear; unfold expand_viarule; repeat case_match; try done; unfold mbind, outcome_bind; repeat case_match; done|].
        rewrite add_via_spec. eexists. split; [done|]. intros k. cbn [fst snd]. rewrite length_keep_step, !bump_lef_at. destruct (decide (via_name_ cell ∈ _)), k; cbn; stat_arith.
      + destruct lost; (eexists; split; [done|]; intros k; cbn; rewrite ?bump_lef_at; destruct k; cbn; stat_arith). }
  eexists. split; [exact E|]. assert (kept_macros (items ++ [i]) = kept_macros items) as Ek by (rewrite kept_macros_snoc; by destruct i).
  split; cbn; rewrite ?Ek; try done. rewrite omap_app. cbn. by rewrite Hm, app_nil_r.
Qed.

Lemma macro_read stack items pins c m : file_inv stack items pins c -> proper_name (mt_name m) ->
  Forall (fun p => proper_name (lp_name p)) (omap item_pin (mt_body m)) -> Z.of_nat (length items) + 1 < 2 ^ 32 ->
  Z.of_nat (length (omap file_macro (items ++ [FMacro m]) ≫= fun m => omap item_pin (mt_body m))) + 1 < 2 ^ 32 ->
  exists c' pins', ofold (cell_step stack) (macro_events m) c = Ok c' /\ file_inv stack (items ++ [FMacro m]) pins' c'.
Proof.
  intros Hf Hname Hpins Hlen Hroom. pose proof (fi_room _ _ _ _ Hf) as Hr. rewrite omap_app, bind_app in Hroom. cbn [omap list_omap file_macro] in Hroom.
  rewrite length_app in Hroom. cbn in Hroom. rewrite app_nil_r in Hroom. unfold macro_events. cbn [ofold cell_step].
  assert (forall pins' : list bytes, (length pins' <= length pins + length (omap item_pin (mt_body m)))%nat ->
    (length pins' <= length (omap file_macro (items ++ [FMacro m]) ≫= fun m => omap item_pin (mt_body m)))%nat) as Hr'.
  { intros pins' Hl. rewrite omap_app, bind_app. cbn [omap list_omap file_macro]. rewrite length_app. cbn. rewrite app_nil_r. lia. }
  destruct (decide (mt_name m ∈ mt_name <$> kept_macros items)) as [Hin|Hin].
  - unfold cell_macro_begin_cbk. destruct Hf as [Hc Hs Hv Hst _]. rewrite <- (cells_ok_names _ _ _ _ Hc) in Hin.
    destruct (find_cell_old _ _ (cells_ok_design _ _ _ _ Hc) (proj1 Hname) Hin) as (old & -> & _). cbn [mbind outcome_bind].
    rewrite ofold_app, invalid_body by done. cbn [mbind outcome_bind ofold cell_step]. unfold cell_macro_cbk. cbn. eexists _, pins. split; [done|].
    rewrite (cells_ok_names _ _ _ _ Hc) in Hin.
    assert (kept_macros (items ++ [FMacro m]) = kept_macros items) as Ek by (rewrite kept_macros_snoc; unfold keep_step; by rewrite decide_True).
    split; cbn; rewrite ?Ek; try done.
    + by rewrite kept_vias_snoc.
    + intros k. rewrite macro_stat, decide_True, bump_lef_at, Hst by done. done.
    + apply Hr'. lia.
  - destruct (macro_opened stack items pins c (mt_name m) Hf Hname) as (c1 & -> & H1); [lia|done|]. cbn [mbind outcome_bind].
    rewrite ofold_app. destruct (body_read_from _ _ _ (mt_body m) _ _ _ _ H1 Hpins) as (c2 & pins2 & -> & H2 & L2); [lia|]. cbn [mbind outcome_bind ofold cell_step app] in *.
    destruct (macro_closed stack _ m pins2 c c2 H2 Hname Hin) as (c3 & -> & Hc3 & G3 & V3 & S3).
    { pose proof (keep_first_length mt_name (omap file_macro items)). unfold kept_macros. pose proof (omap_failures file_macro items). lia. }
    cbn [mbind outcome_bind]. exists c3, pins2. split; [done|]. destruct H2 as [_ (_ & _ & _ & V2) _ Hs2 Hst2]. destruct Hf as [_ _ Hv Hst _].
    assert (kept_macros (items ++ [FMacro m]) = kept_macros items ++ [m]) as Ek by (rewrite kept_macros_snoc; unfold keep_step; by rewrite decide_False).
    split; rewrite ?Ek; try done.
    + rewrite G3, fmap_app. exact Hs2.
    + rewrite V3, V2, Hv, kept_vias_snoc. done.
    + intros k. rewrite macro_stat, decide_False, S3, bump_lef_at, Hst2, Hst by done. lia.
    + by apply Hr'.
Qed.

(** * Vias *)

Lemma via_infos_total stack layers :
  (forall n, is_valid_id table_bits (find_layer stack n) = true -> is_Some (layer_by_id stack (find_layer stack n))) ->
  exists r, via_infos stack layers = Ok r /\ forall infos, r = Some infos ->
    Forall2 (fun e info => info.1 = find_layer stack e.1 /\ is_valid_id table_bits info.1 = true /\
      (layer_type_ <$> layer_by_id stack info.1) = Some (if info.2 : bool then CUT else ROUTING)) layers infos.
Proof.
  intros Hs. induction layers as [|e layers (r & E & IH)]; cbn [via_infos]; [exists (Some []); split; [done|]; by intros ? [= <-]|].
  unfold ds_resolve_layer_id. destruct (is_valid_id table_bits (find_layer stack e.1)) eqn:Hv; cbn [negb]; [|exists None; split; [done|]; by intros ? ?].
  destruct (Hs _ Hv) as [l Hl]. rewrite Hl. cbn [defined mbind outcome_bind]. rewrite E. cbn [mbind outcome_bind].
  eexists. split; [done|]. intros infos Hi. destruct r as [rest|]; [|done]. injection Hi as <-. constructor; [|by apply IH].
  cbn [fst snd]. split; [done|]. split; [done|]. rewrite Hl. cbn. by destruct (layer_type_ l).
Qed.

(** The least and the greatest number of the layers that are not cuts. *)
Lemma via_layers_spec infos b t c :
  Forall (fun i => is_valid_id table_bits i.1 = true) infos ->
  foldl lef_via_layer (kInvalidId table_bits, kInvalidId table_bits, kInvalidId table_bits) infos = (b, t, c) ->
  (forall i, i ∈ infos -> i.2 = false -> (b <= i.1 <= t)%N) /\
  ((exists i, i ∈ infos /\ i.2 = false) -> (b, false) ∈ infos /\ (t, false) ∈ infos) /\
  ((exists i, i ∈ infos /\ i.2 = true) -> (c, true) ∈ infos) /\
  (is_valid_id table_bits b = true <-> exists i, i ∈ infos /\ i.2 = false) /\ (is_valid_id table_bits t = true <-> exists i, i ∈ infos /\ i.2 = false).
Proof.
  revert b t c. induction infos as [|[id cut] infos IH] using rev_ind; intros b t c Hv.
  { intros [= <- <- <-]. assert (~ exists i : N * bool, i ∈ [] /\ i.2 = false) as Hn by (intros (? & ?%elem_of_nil & _); done).
    split; [by intros ? ?%elem_of_nil|]. split; [done|]. split; [by intros (? & ?%elem_of_nil & _)|]. cbn. unfold is_valid_id. rewrite N.eqb_refl. done. }
  apply Forall_app in Hv as [Hv [Hid _]%Forall_cons]. rewrite foldl_app. destruct (foldl _ _ infos) as [[b0 t0] c0] eqn:E. specialize (IH b0 t0 c0 Hv eq_refl).
  destruct IH as (I1 & I2 & I3 & I4 & I5). cbn [fst] in Hid. cbn [foldl lef_via_layer fst snd].
  assert (forall x, x ∈ infos ++ [(id, cut)] <-> x ∈ infos \/ x = (id, cut)) as Hin by (intros x; by rewrite elem_of_app, list_elem_of_singleton).
  setoid_rewrite Hin. destruct cut; intros [= <- <- <-].
  - split; [intros i [Hi| ->] Hc; [by apply I1|done]|].
    assert ((exists i, (i ∈ infos \/ i = (id, true)) /\ i.2 = false) <-> exists i, i ∈ infos /\ i.2 = false) as ->.
    { split; [intros (i & [Hi| ->] & Hc); [by exists i|done]|intros (i & Hi & Hc); exists i; auto]. }
    split; [intros H; destruct (I2 H); auto|]. split; [by right|]. done.
  - assert (exists i, (i ∈ infos \/ i = (id, false)) /\ i.2 = false) as Hex by (exists (id, false); auto).
    assert (is_valid_id table_bits b0 = false -> forall i, i ∈ infos -> i.2 = false -> False) as Hnone.
    { intros Hb i Hi Hc. assert (is_valid_id table_bits b0 = true) by (apply I4; by exists i). congruence. }
    assert (is_valid_id table_bits t0 = is_valid_id table_bits b0) as Ebt by (apply eq_true_iff_eq; by rewrite I4, I5).
    rewrite Ebt. destruct (is_valid_id table_bits b0) eqn:Hb0; cbn [negb orb].
    + destruct (I2 (proj1 I4 eq_refl)) as [J1 J2]. pose proof (I1 _ J1 eq_refl) as K1. pose proof (I1 _ J2 eq_refl) as K2. cbn in K1, K2.
      split; [|split; [|split; [|split]]].
      * intros i [Hi| ->] Hc; [pose proof (I1 _ Hi Hc)|cbn]; destruct (N.ltb_spec id b0), (N.ltb_spec t0 id); lia.
      * intros _. destruct (N.ltb_spec id b0), (N.ltb_spec t0 id); auto.
      * intros (i & [Hi| ->] & Hc); [|done]. left. apply I3. by exists i.
      * split; [done|]. intros _. by case_match.
      * split; [done|]. intros _. by case_match.
    + split; [|split; [|split; [|split]]]; try done; [|auto|].
      * intros i [Hi| ->] Hc; [by destruct (Hnone eq_refl i Hi Hc)|cbn; lia].
      * intros (i & [Hi| ->] & Hc); [|done]. left. apply I3. by exists i.
Qed.

(** The rectangles of the layers that satisfy [P]. *)
Definition via_part (P : N * bool -> Prop) `{!forall i, Decision (P i)} (rects : list (N * bool * list lefiRect)) : list GEORectT :=
  rects ≫= fun e => if decide (P e.1) then lef_rect_to_dbu <$> e.2 else [].

Lemma via_rects_spec infos rects out :
  foldl (fun out e => foldl (lef_via_rect e.1) out e.2) out (zip infos rects) =
  {| via_name_ := via_name_ out; bottom_layer_id_ := bottom_layer_id_ out; top_layer_id_ := top_layer_id_ out; cut_layer_id_ := cut_layer_id_ out;
     cut_rects_ := cut_rects_ out ++ via_part (fun i => i.2 = true) (zip infos rects);
     bottom_enclosure_ := bottom_enclosure_ out ++ via_part (fun i => i.2 = false /\ i.1 = bottom_layer_id_ out) (zip infos rects);
     top_enclosure_ := top_enclosure_ out ++ via_part (fun i => i.2 = false /\ i.1 <> bottom_layer_id_ out) (zip infos rects) |}.
Proof.
  assert (forall info l out, foldl (lef_via_rect info) out l =
    {| via_name_ := via_name_ out; bottom_layer_id_ := bottom_layer_id_ out; top_layer_id_ := top_layer_id_ out; cut_layer_id_ := cut_layer_id_ out;
       cut_rects_ := cut_rects_ out ++ (if decide (info.2 = true) then lef_rect_to_dbu <$> l else []);
       bottom_enclosure_ := bottom_enclosure_ out ++ (if decide (info.2 = false /\ info.1 = bottom_layer_id_ out) then lef_rect_to_dbu <$> l else []);
       top_enclosure_ := top_enclosure_ out ++ (if decide (info.2 = false /\ info.1 <> bottom_layer_id_ out) then lef_rect_to_dbu <$> l else []) |}) as Hone.
  { intros [id cut] l. induction l as [|r l IH]; intros o; cbn [foldl].
    - destruct o as [vn bl tl cl cr be te]. cbn [via_name_ bottom_layer_id_ top_layer_id_ cut_layer_id_ cut_rects_ bottom_enclosure_ top_enclosure_ fmap list_fmap].
      f_equal; by destruct (decide _); rewrite app_nil_r.
    - rewrite IH. unfold lef_via_rect. cbn [via_name_ bottom_layer_id_ top_layer_id_ cut_layer_id_ cut_rects_ bottom_enclosure_ top_enclosure_ fst snd fmap list_fmap].
      destruct cut; cbn [negb andb].
      + repeat (case_decide; try (exfalso; clear IH; intuition congruence)); by rewrite <- (assoc_L app).
      + destruct (decide (id = bottom_layer_id_ o)) as [->|Hne]; [rewrite bool_decide_true by done|rewrite bool_decide_false by done]; cbn [negb];
          repeat (case_decide; try (exfalso; clear IH; intuition congruence)); by rewrite <- (assoc_L app). }
  unfold via_part. revert out. generalize (zip infos rects) as l. induction l as [|[info rs] l IH]; intros out; cbn [foldl].
  - destruct out; cbn. by rewrite !app_nil_r.
  - rewrite IH, Hone. cbn. by rewrite <- !(assoc_L app).
Qed.

(** The cells of vias are sorted by layer: rectangles of cut layers are cuts, those of the
    lowest other layer the bottom, the rest the top; bottom and top bound the other layers. *)
Theorem via_converted stack v infos :
  via_infos stack (lv_layers v) = Ok (Some infos) -> Forall (fun i => is_valid_id table_bits i.1 = true) infos ->
  let rects := zip infos (lv_layers v).*2 in
  exists cell, convert_via v stack = Ok (Some cell) /\ via_name_ cell = lv_name v /\
    cut_rects_ cell = via_part (fun i => i.2 = true) rects /\
    bottom_enclosure_ cell = via_part (fun i => i.2 = false /\ i.1 = bottom_layer_id_ cell) rects /\
    top_enclosure_ cell = via_part (fun i => i.2 = false /\ i.1 <> bottom_layer_id_ cell) rects /\
    (forall i, i ∈ infos -> i.2 = false -> (bottom_layer_id_ cell <= i.1 <= top_layer_id_ cell)%N) /\
    ((exists i, i ∈ infos /\ i.2 = false) -> (bottom_layer_id_ cell, false) ∈ infos /\ (top_layer_id_ cell, false) ∈ infos) /\
    ((exists i, i ∈ infos /\ i.2 = true) -> (cut_layer_id_ cell, true) ∈ infos).
Proof.
  intros Hi Hv. cbv zeta. unfold convert_via. rewrite Hi. cbn [mbind outcome_bind]. cbv zeta. destruct (foldl lef_via_layer _ infos) as [[b t] c] eqn:E.
  destruct (via_layers_spec _ _ _ _ Hv E) as (H1 & H2 & H3 & _). eexists. split; [done|]. rewrite via_rects_spec. cbn. done.
Qed.

(** * Technology files *)

Definition event_layer (e : tech_event) : option DSLayer := match e with TLayer l => layer_of l <$> layer_type_of (ll_type l) | _ => None end.

(** The sums of a rule fit into 64 bits, whatever the layers are. *)
Definition rule_fits (vr : lefiViaRule) : Prop := forall stack, exists r, expand_viarule vr stack = Ok r.

Lemma expand_cut_grown r rl : Forall (fun x => Z.abs (to_dbu x) < 2 ^ 62) [lr_xl r; lr_yl r; lr_xh r; lr_yh r] ->
  (forall e, rl_enclosure rl = Some e -> Z.abs (to_dbu e.1) < 2 ^ 62 /\ Z.abs (to_dbu e.2) < 2 ^ 62) ->
  expand_cut (to_dbu (lr_xl r)) (to_dbu (lr_yl r)) (to_dbu (lr_xh r)) (to_dbu (lr_yh r)) rl = Some (grown r rl).
Proof.
  rewrite !Forall_cons. intros (H1 & H2 & H3 & H4 & _) He. unfold expand_cut, grown. cbv zeta.
  assert (Z.abs (from_option (fun e => to_dbu e.1) 0 (rl_enclosure rl)) < 2 ^ 62) as H5 by (destruct (rl_enclosure rl); [by apply He|done]).
  assert (Z.abs (from_option (fun e => to_dbu e.2) 0 (rl_enclosure rl)) < 2 ^ 62) as H6 by (destruct (rl_enclosure rl); [by apply He|done]).
  generalize dependent (from_option (fun e => to_dbu e.1) 0 (rl_enclosure rl)). generalize dependent (from_option (fun e => to_dbu e.2) 0 (rl_enclosure rl)).
  revert H1 H2 H3 H4. generalize (to_dbu (lr_xl r)) (to_dbu (lr_yl r)) (to_dbu (lr_xh r)) (to_dbu (lr_yh r)). intros.
  rewrite !chk_eq by (unfold fits; lia). done.
Qed.

(** The rules whose numbers are small fit: they have a template or none. *)
Lemma expand_template vr bot cut top r stack : template_of vr bot cut top r -> rule_small vr ->
  expand_viarule vr stack = Ok
    (if is_valid_id table_bits (find_layer stack (rl_name bot)) && is_valid_id table_bits (find_layer stack (rl_name top)) && is_valid_id table_bits (find_layer stack (rl_name cut))
     then (Some {| via_name_ := vr_name vr; bottom_layer_id_ := find_layer stack (rl_name bot); top_layer_id_ := find_layer stack (rl_name top);
                   cut_layer_id_ := find_layer stack (rl_name cut);
                   cut_rects_ := [lef_rect_to_dbu r]; bottom_enclosure_ := [grown r bot]; top_enclosure_ := [grown r top] |}, false)
     else (None, true)).
Proof.
  intros (Hg & El & Er). unfold rule_small. rewrite El, !Forall_cons. intros ((_ & Hb) & (Hc & _) & (_ & Ht) & _).
  unfold expand_viarule. rewrite Hg, El, Er. cbv zeta. rewrite !(expand_cut_grown r) by auto. unfold ds_resolve_layer_id.
  by repeat destruct (is_valid_id _ _).
Qed.

Lemma not_template vr stack : ~ (exists bot cut top r, template_of vr bot cut top r) -> expand_viarule vr stack = Ok (None, false).
Proof.
  intros Hn. unfold expand_viarule. destruct (vr_generate vr) eqn:Hg; [|done].
  destruct (vr_layers vr) as [|bot [|cut [|top [|]]]] eqn:El; try done. destruct (rl_rect cut) eqn:Er; [|done].
  destruct Hn. by exists bot, cut, top, l.
Qed.

Lemma template_dec vr : (exists bot cut top r, template_of vr bot cut top r) \/ ~ (exists bot cut top r, template_of vr bot cut top r).
Proof.
  unfold template_of. destruct (vr_generate vr); [|right; intros (? & ? & ? & ? & ? & _); done].
  destruct (vr_layers vr) as [|bot [|cut [|top [|]]]]; try (right; intros (? & ? & ? & ? & _ & ? & _); done).
  destruct (rl_rect cut) as [r|] eqn:Er; [left; by exists bot, cut, top, r|right; intros (? & ? & ? & ? & _ & [= <- <- <-] & ?); congruence].
Qed.

Lemma rule_small_fits vr : rule_small vr -> rule_fits vr.
Proof.
  intros Hs stack. destruct (template_dec vr) as [(bot & cut & top & r & Ht)|Hn]; [|eexists; by apply not_template].
  eexists. by apply (expand_template vr bot cut top r).
Qed.

Record tech_inv (events : list tech_event) (c : TechContext) : Prop := {
  ti_layers : layers_ (tc_stack c) = imap (fun i l => set_layer_id (N.of_nat i) l) (omap event_layer events);
  ti_names : table_names (layer_names_ (tc_stack c)) (layer_name_ <$> omap event_layer events);
}.

Lemma imap_names ls : layer_name_ <$> imap (fun i l => set_layer_id (N.of_nat i) l) ls = layer_name_ <$> ls.
Proof. rewrite fmap_imap. apply list_eq. intros i. rewrite list_lookup_imap, list_lookup_fmap. by destruct (ls !! i). Qed.

Lemma tech_inv_found events c n : tech_inv events c -> n <> [] -> is_valid_id table_bits (find_layer (tc_stack c) n) = true ->
  exists i l, find_layer (tc_stack c) n = N.of_nat i /\ layers_ (tc_stack c) !! i = Some l /\ layer_name_ l = n /\ layer_id l = N.of_nat i.
Proof.
  intros [Hl Hn] Hne Hv. pose proof (table_find _ _ n Hn Hne) as Hf. unfold find_layer in *. destruct (decide _) as [Hin|]; [|congruence].
  destruct Hf as (i & Hi & -> & _). rewrite list_lookup_fmap in Hi. destruct (omap event_layer events !! i) as [l|] eqn:El; [|done]. injection Hi as Hi.
  exists i, (set_layer_id (N.of_nat i) l). split; [done|]. split; [by rewrite Hl, list_lookup_imap, El|]. done.
Qed.

(** A number that is found is one of the table. *)
Lemma table_valid h names n : table_names h names -> is_valid_id table_bits (get_id table_bits h n) = true ->
  exists i, get_id table_bits h n = N.of_nat i /\ (i < length names)%nat.
Proof.
  intros (Hok & Hlen & _). destruct (table_get_id h n Hok) as [-> ->]. intros [i Hi]%bool_decide_eq_true. rewrite Hi. exists (N.to_nat i). cbn.
  split; [by rewrite N2Nat.id|]. apply (ok_map _ _ Hok) in Hi as [_ Hg]. pose proof (arena_get_name_valid table_bits h i n Hok Hg). lia.
Qed.

Lemma tech_layers_known events c n : tech_inv events c -> is_valid_id table_bits (find_layer (tc_stack c) n) = true ->
  is_Some (layer_by_id (tc_stack c) (find_layer (tc_stack c) n)).
Proof.
  intros [Hl Hn] (i & Ei & Hi)%(table_valid _ _ n Hn). unfold layer_by_id, find_layer. rewrite Ei, Nat2N.id, Hl.
  apply lookup_lt_is_Some_2. rewrite length_imap. by rewrite length_fmap in Hi.
Qed.

Lemma convert_via_total stack v :
  (forall n, is_valid_id table_bits (find_layer stack n) = true -> is_Some (layer_by_id stack (find_layer stack n))) -> exists r, convert_via v stack = Ok r.
Proof.
  intros Hs. destruct (via_infos_total stack (lv_layers v) Hs) as ([infos|] & E & _); unfold convert_via; rewrite E; cbn [mbind outcome_bind]; [|by eexists].
  cbv zeta. destruct (foldl _ _ _) as [[b t] c]. by eexists.
Qed.

Lemma tech_step_ok events c e : tech_inv events c -> Z.of_nat (length events) + 1 < 2 ^ 32 ->
  (forall l, event_layer e = Some l -> proper_name (layer_name_ l) /\ layer_name_ l ∉ layer_name_ <$> omap event_layer events) ->
  (forall vr, e = TViaRule vr -> rule_fits vr) -> exists c', tech_step c e = Ok c' /\ tech_inv (events ++ [e]) c'.
Proof.
  intros Hinv Hlen Hnew Hfit.
  assert (forall c', event_layer e = None -> tc_stack c' = tc_stack c -> tech_inv (events ++ [e]) c') as Hsame.
  { intros c' He Es. destruct Hinv as [Hl Hn]. assert (omap event_layer (events ++ [e]) = omap event_layer events) as E by (rewrite omap_app; cbn; by rewrite He, app_nil_r).
    split; by rewrite E, Es. }
  destruct e as [l|v|vr|value]; cbn [tech_step].
  - unfold tech_layer_cbk. cbn [event_layer] in *. destruct (layer_type_of (ll_type l)) as [type|] eqn:Et; cbn [fmap option_fmap option_map] in *; [|eexists; split; [done|]; by apply Hsame].
    destruct (Hnew _ eq_refl) as [Hp Hnin]. destruct Hinv as [Hl Hn]. unfold add_layer.
    assert (length (layers_ (tc_stack c)) = length (omap event_layer events)) as Hll by by rewrite Hl, length_imap.
    pose proof (omap_failures event_layer events) as Hom.
    destruct (table_emplace _ _ _ Hn Hp Hnin) as (h' & -> & Ht'); [rewrite length_fmap; unfold table_bits; lia|]. cbn [mbind outcome_bind].
    eexists. split; [done|]. rewrite Hll, N.mod_small by (unfold table_bits; lia).
    assert (omap event_layer (events ++ [TLayer l]) = omap event_layer events ++ [layer_of l type]) as E by (rewrite omap_app; cbn; by rewrite Et).
    split; cbn [tc_stack layers_ layer_names_]; rewrite E; [|by rewrite fmap_app]. rewrite imap_app. cbn. by rewrite Hl, Nat.add_0_r.
  - unfold tech_via_cbk, via_cbk. cbn [fst snd]. destruct (convert_via_total (tc_stack c) v) as (r & ->); [intros n; by eapply tech_layers_known|].
    cbn [mbind outcome_bind]. destruct (match r with Some _ => _ | None => _ end) as [vias stats]. eexists. split; [done|]. by apply Hsame.
  - unfold tech_viarule_cbk, viarule_cbk. destruct (Hfit vr eq_refl (tc_stack c)) as [[r lost] ->].
    cbn [mbind outcome_bind]. destruct (match r with Some _ => _ | None => _ end) as [vias stats]. eexists. split; [done|]. by apply Hsame.
  - eexists. split; [done|]. by apply Hsame.
Qed.

Lemma tech_from events done c : tech_inv done c -> Z.of_nat (length done + length events) < 2 ^ 32 ->
  NoDup (layer_name_ <$> omap event_layer (done ++ events)) -> Forall (fun l => proper_name (layer_name_ l)) (omap event_layer events) ->
  (forall vr, TViaRule vr ∈ events -> rule_fits vr) -> exists c', ofold tech_step events c = Ok c' /\ tech_inv (done ++ events) c'.
Proof.
  revert done c. induction events as [|e events IH]; intros dn c Hi Hlen Hnd Hp Hf; [exists c; by rewrite app_nil_r|]. cbn [length] in Hlen.
  assert (omap event_layer (e :: events) = omap event_layer [e] ++ omap event_layer events) as E by apply (omap_app event_layer [e]).
  destruct (tech_step_ok dn c e Hi) as (c1 & E1 & H1); [lia| |intros vr ->; apply Hf; by left|].
  { intros l Hl. rewrite omap_app, E in Hnd. rewrite E in Hp. cbn [omap list_omap] in Hnd, Hp. rewrite Hl in Hnd, Hp. cbn [app] in Hp. apply Forall_cons in Hp as [Hp _].
    split; [done|]. rewrite fmap_app in Hnd. apply NoDup_app in Hnd as (_ & Hd & _). intros Hin. apply (Hd _ Hin). by left. }
  cbn [ofold]. rewrite E1. cbn [mbind outcome_bind]. destruct (IH (dn ++ [e]) c1 H1) as (c2 & E2 & H2).
  - rewrite length_app. cbn. lia.
  - by rewrite <- (assoc_L app).
  - rewrite E in Hp. by apply Forall_app in Hp as [_ ?].
  - intros vr Hin. apply Hf. by right.
  - rewrite <- (assoc_L app) in H2. by exists c2.
Qed.

(** A technology file whose layers have different names gives the table of its routing and
    cut layers in the order of the file; a layer is found by its name under its position, and
    every number that a name resolves to is in the table. *)
Theorem tech_lef_read events :
  Z.of_nat (length events) < 2 ^ 32 -> NoDup (layer_name_ <$> omap event_layer events) ->
  Forall (fun l => proper_name (layer_name_ l)) (omap event_layer events) -> (forall vr, TViaRule vr ∈ events -> rule_fits vr) ->
  exists c, ds_parse_tech_lef true events new_stack 0 [] = Ok c /\
    layers_ (tc_stack c) = imap (fun i l => set_layer_id (N.of_nat i) l) (omap event_layer events) /\
    (forall i l, layers_ (tc_stack c) !! i = Some l -> find_layer (tc_stack c) (layer_name_ l) = N.of_nat i) /\
    (forall n, is_valid_id table_bits (find_layer (tc_stack c) n) = true -> is_Some (layer_by_id (tc_stack c) (find_layer (tc_stack c) n))).
Proof.
  intros Hlen Hnd Hp Hf. unfold ds_parse_tech_lef.
  destruct (tech_from events [] {| tc_stack := new_stack; tc_grid := 0; tc_vias := []; tc_stats := no_stats |}) as (c & -> & Hi); try done.
  { split; [done|]. apply table_names_new. }
  change ([] ++ events) with events in Hi. cbn [mbind outcome_bind]. exists c. split; [done|]. split; [apply Hi|]. split; [|intros n; by eapply tech_layers_known].
  intros i l Hl. destruct Hi as [El Hn]. rewrite El, list_lookup_imap in Hl. destruct (omap event_layer events !! i) as [l0|] eqn:E0; [|done]. injection Hl as <-.
  change (layer_name_ (set_layer_id (N.of_nat i) l0)) with (layer_name_ l0).
  assert (proper_name (layer_name_ l0)) as Hp0 by (by eapply (proj1 (Forall_lookup _ _) Hp i)).
  pose proof (table_find _ _ (layer_name_ l0) Hn (proj1 Hp0)) as Hf0.
  rewrite decide_True in Hf0 by (apply list_elem_of_fmap_2; by eapply list_elem_of_lookup_2). destruct Hf0 as (j & Hj & Eid & _).
  unfold find_layer. rewrite Eid. f_equal. eapply NoDup_lookup; [exact Hnd|exact Hj|]. by rewrite list_lookup_fmap, E0.
Qed.

(** * Reading a cell file *)

Definition macro_pins (items : list file_item) : list lefiPin := omap file_macro items ≫= fun m => omap item_pin (mt_body m).

Section file.
Context (stack : DSStack).
Context (Hstack : forall n, is_valid_id table_bits (find_layer stack n) = true -> is_Some (layer_by_id stack (find_layer stack n))).

Lemma layer_kind_valid name : is_valid_id table_bits (find_layer stack name) = true <-> is_Some (layer_kind stack name).
Proof.
  unfold layer_kind. cbv zeta. destruct (is_valid_id _ _) eqn:Hv; [|split; [done|by intros [? ?]]].
  destruct (Hstack _ Hv) as [l ->]. cbn. split; [by eexists|done].
Qed.
Lemma layer_kind_id name i : layer_kind stack name = Some i -> i.1 = find_layer stack name.
Proof. unfold layer_kind. cbv zeta. destruct (is_valid_id _ _); [|done]. by intros (l & _ & ->)%fmap_Some_1. Qed.

(** The kinds of the layers of a via, or the first unknown one. *)
Lemma via_infos_kinds layers : via_infos stack layers = Ok (mapM (fun e => layer_kind stack e.1) layers).
Proof.
  induction layers as [|e layers IH]; [done|]. cbn [via_infos]. unfold ds_resolve_layer_id. rewrite IH. cbn [mapM].
  assert (layer_kind stack e.1 = if is_valid_id table_bits (find_layer stack e.1) then (fun l => (find_layer stack e.1, bool_decide (layer_type_ l = CUT))) <$> layer_by_id stack (find_layer stack e.1) else None) as -> by done.
  destruct (is_valid_id table_bits (find_layer stack e.1)) eqn:Hv; [|done]. destruct (Hstack _ Hv) as [l ->]. cbn. by destruct (mapM _ layers).
Qed.

Lemma rects_on_part P `{!forall i, Decision (P i)} v infos : mapM (fun e => layer_kind stack e.1) (lv_layers v) = Some infos ->
  via_part P (zip infos (lv_layers v).*2) = rects_on stack P v.
Proof.
  intros Hm%mapM_Some_1. unfold via_part, rects_on. induction Hm as [|e i ls infos He Hm IH]; [done|]. cbn [fmap list_fmap zip zip_with mbind list_bind] in *.
  rewrite He. f_equal. exact IH.
Qed.

Lemma via_item_reads v : exists r, convert_via v stack = Ok r /\ item_reads stack (FVia v) (from_option ViaCell ViaUnknownLayer r).
Proof.
  pose proof (via_infos_kinds (lv_layers v)) as E. destruct (mapM (fun e => layer_kind stack e.1) (lv_layers v)) as [infos|] eqn:Hm.
  - pose proof (mapM_Some_1 _ _ _ Hm) as Hk.
    assert (forall i, i ∈ infos <-> via_on stack v i) as Hon.
    { intros i. unfold via_on. split.
      - intros (j & Hj)%list_elem_of_lookup. destruct (Forall2_lookup_r _ _ _ _ _ Hk Hj) as (e & He & ?). exists e. split; [by eapply list_elem_of_lookup_2|done].
      - intros (e & (j & Hj)%list_elem_of_lookup & He). destruct (Forall2_lookup_l _ _ _ _ _ Hk Hj) as (i' & Hi & ?). simplify_eq/=. by eapply list_elem_of_lookup_2. }
    destruct (via_converted stack v infos E) as (cell & Ec & Hn & Hcut & Hbot & Htop & Hbd & Hat & Hca).
    { apply Forall_forall. intros i (e & _ & He)%Hon. rewrite (layer_kind_id _ _ He). apply layer_kind_valid. by eexists. }
    rewrite !(rects_on_part _ v infos Hm) in *. exists (Some cell). split; [done|]. apply reads_via.
    + apply Forall_lookup. intros j e He. destruct (Forall2_lookup_l _ _ _ _ _ Hk He) as (i & _ & ?). by exists i.
    + split; try done.
      * intros id Hid%Hon. split; [by apply (Hbd (id, false))|]. rewrite <- !Hon. apply Hat. by exists (id, false).
      * intros id Hid%Hon. rewrite <- Hon. apply Hca. by exists (id, true).
  - exists None. unfold convert_via. rewrite E. split; [done|]. apply reads_via_unknown. by apply mapM_None_1 in Hm.
Qed.

Lemma rule_item_reads vr : rule_small vr -> exists r lost, expand_viarule vr stack = Ok (r, lost) /\
  item_reads stack (FViaRule vr) (match r with Some cell => ViaCell cell | None => if lost : bool then ViaUnknownLayer else NoVia end).
Proof.
  intros Hs. destruct (template_dec vr) as [(bot & cut & top & r & Ht)|Hn]; [|eexists _, _; split; [by apply not_template|by apply reads_rule_other]].
  rewrite (expand_template vr bot cut top r stack Ht Hs).
  assert (forall n, is_valid_id table_bits (find_layer stack n) = true -> fst <$> layer_kind stack n = Some (find_layer stack n)) as Hv.
  { intros n [i Hi]%layer_kind_valid. by rewrite Hi, <- (layer_kind_id _ _ Hi). }
  assert (forall n, is_valid_id table_bits (find_layer stack n) = false -> layer_kind stack n = None) as Hi by (intros n Hn; unfold layer_kind; cbv zeta; by rewrite Hn).
  destruct (is_valid_id table_bits (find_layer stack (rl_name bot))) eqn:Hb; cbn [andb];
    [destruct (is_valid_id table_bits (find_layer stack (rl_name top))) eqn:Htop; cbn [andb]; [destruct (is_valid_id table_bits (find_layer stack (rl_name cut))) eqn:Hc|]|];
    eexists _, _; (split; [done|]); [eapply reads_rule; eauto|eapply reads_rule_unknown; [done|]..].
  - right; left; auto.
  - right; right; left; auto.
  - left; auto.
Qed.

Definition item_outcome (i : file_item) : via_outcome :=
  match item_via stack i with Ok (Some cell, _) => ViaCell cell | Ok (None, true) => ViaUnknownLayer | _ => NoVia end.

Lemma item_outcome_reads i : (forall vr, i = FViaRule vr -> rule_small vr) -> item_reads stack i (item_outcome i).
Proof.
  intros Hs. unfold item_outcome. destruct i as [m|v|vr]; cbn [item_via]; [constructor| |].
  - destruct (via_item_reads v) as (r & -> & Hr). by destruct r.
  - destruct (rule_item_reads vr (Hs vr eq_refl)) as (r & lost & -> & Hr). by destruct r.
Qed.

Lemma item_via_kept i cell lost : item_via stack i = Ok (Some cell, lost) -> lost = false.
Proof.
  destruct i as [m|v|vr]; cbn [item_via]; [done| |].
  - intros (r & _ & [= -> <-])%outcome_bind_Ok. done.
  - unfold expand_viarule. destruct (vr_generate vr), (vr_layers vr) as [|bot [|cut [|top [|]]]]; try done. destruct (rl_rect cut); [|done]. cbv zeta.
    case_match; [done|]. by intros (be & _ & (te & _ & [= _ <-])%outcome_bind_Ok)%outcome_bind_Ok.
Qed.
Lemma item_outcome_cell i : outcome_cell (item_outcome i) = via_result stack i.
Proof. unfold item_outcome, via_result. by destruct (item_via stack i) as [[[cell|] []]| | |]. Qed.
Lemma outcome_cells (items : list file_item) : omap outcome_cell (item_outcome <$> items) = omap (via_result stack) items.
Proof. induction items as [|i items IH]; [done|]. cbn. by rewrite item_outcome_cell, IH. Qed.

Lemma rule_cells (items : list file_item) :
  length (omap rule_cell (zip items (item_outcome <$> items))) = length (omap (fun i => file_rule i ≫= fun _ => via_result stack i) items).
Proof.
  induction items as [|i items IH]; [done|]. cbn. unfold rule_cell at 1. cbn. destruct i; cbn; [done..|].
  rewrite <- item_outcome_cell. destruct (outcome_cell _); cbn; by rewrite IH.
Qed.

Lemma read_stat_eq items k : read_stat stack items (item_outcome <$> items) k = file_stat stack items k.
Proof.
  unfold read_stat, file_stat, kept_vias. rewrite outcome_cells, rule_cells. f_equal. destruct k; try done.
  f_equal. rewrite <- list_fmap_compose. apply list_fmap_ext. intros _ i _. unfold compose, item_outcome, via_lost.
  cbn. destruct (item_via stack i) as [[[cell|] []]| | |] eqn:E; try done. by apply item_via_kept in E.
Qed.

Lemma item_read seen i pins c : file_inv stack seen pins c -> Z.of_nat (length seen) + 1 < 2 ^ 32 ->
  Z.of_nat (length (macro_pins (seen ++ [i]))) + 1 < 2 ^ 32 ->
  (forall m, i = FMacro m -> proper_name (mt_name m) /\ Forall (fun p => proper_name (lp_name p)) (omap item_pin (mt_body m))) ->
  (forall vr, i = FViaRule vr -> rule_fits vr) ->
  exists c' pins', ofold (cell_step stack) (item_events i) c = Ok c' /\ file_inv stack (seen ++ [i]) pins' c'.
Proof.
  intros Hf Hlen Hroom Hm Hr. destruct i as [m|v|vr].
  - destruct (Hm m eq_refl) as [Hn Hp]. by apply (macro_read stack seen pins c m).
  - destruct (convert_via_total stack v Hstack) as [r E].
    edestruct (via_read stack seen pins c (FVia v)) as (c' & E' & H'); [done|done|cbn [item_via]; by rewrite E|]. by exists c', pins.
  - destruct (Hr vr eq_refl stack) as [[r lost] E].
    destruct (via_read stack seen pins c (FViaRule vr) r lost) as (c' & E' & H'); [done..|]. by exists c', pins.
Qed.

Lemma length_macro_pins_app a b : length (macro_pins (a ++ b)) = (length (macro_pins a) + length (macro_pins b))%nat.
Proof. unfold macro_pins. by rewrite omap_app, bind_app, length_app. Qed.

Lemma items_read items seen pins c : file_inv stack seen pins c -> Z.of_nat (length seen + length items) < 2 ^ 32 ->
  Z.of_nat (length (macro_pins (seen ++ items))) + 1 < 2 ^ 32 ->
  Forall (fun m => proper_name (mt_name m)) (omap file_macro items) -> Forall (fun p => proper_name (lp_name p)) (macro_pins items) ->
  (forall vr, FViaRule vr ∈ items -> rule_fits vr) ->
  exists c' pins', ofold (cell_step stack) (items ≫= item_events) c = Ok c' /\ file_inv stack (seen ++ items) pins' c'.
Proof.
  revert seen pins c. induction items as [|i items IH]; intros seen pins c Hf Hlen Hroom Hn Hp Hr; [exists c, pins; by rewrite app_nil_r|].
  cbn [length] in Hlen. change (i :: items) with ([i] ++ items) in Hn, Hp, Hroom |- *. rewrite (assoc_L app) in Hroom |- *.
  rewrite omap_app in Hn. apply Forall_app in Hn as [Hn1 Hn]. unfold macro_pins in Hp. rewrite omap_app, bind_app in Hp. apply Forall_app in Hp as [Hp1 Hp].
  rewrite bind_app, ofold_app.
  destruct (item_read seen i pins c Hf) as (c1 & pins1 & E1 & H1).
  - lia.
  - rewrite length_macro_pins_app in Hroom. lia.
  - intros m ->. cbn in Hn1, Hp1. rewrite app_nil_r in Hp1. split; [by apply Forall_cons in Hn1 as [? _]|done].
  - intros vr ->. apply Hr. by left.
  - change ([i] ≫= item_events) with (item_events i ++ []). rewrite app_nil_r, E1. cbn [mbind outcome_bind].
    apply (IH _ pins1); [done|rewrite length_app; cbn; lia|done..|]. intros vr Hin. apply Hr. by right.
Qed.

(** C34: reading a cell file gives what its statements say, for a stack whose names resolve into its
    table (what a technology file gives), fewer than 2^32 statements and pins, names that are not
    empty and rules whose numbers are below 2^62. The callbacks return, and the result is: a cell per
    macro, the first of each name, with its attributes, pins and obstructions; the pins numbered by
    name; the shapes of the pins of a cell under its number and theirs; and the first via of each name
    among what the statements give. A via gives its rectangles by layer, cuts, lowest layer and rest,
    or nothing when a layer is unknown; a rule gives a via only if it is generated and lists a lower
    layer, a cut with a rectangle and an upper layer, in this order. The counters give the macros and
    vias kept and dropped for their name, and the rectangles, vias and rules dropped for an unknown
    layer; a rule of another form is dropped without any count. *)
Theorem cell_lef_read items :
  Z.of_nat (length items) < 2 ^ 32 -> Z.of_nat (length (macro_pins items)) + 1 < 2 ^ 32 ->
  Forall (fun m => proper_name (mt_name m)) (omap file_macro items) -> Forall (fun p => proper_name (lp_name p)) (macro_pins items) ->
  (forall vr, FViaRule vr ∈ items -> rule_small vr) ->
  exists d g vias stats pins outs, ds_parse_cell_lef stack true (items ≫= item_events) new_design ∅ [] = Ok (d, g, vias, stats) /\
    design_ok d /\ pins_table d pins /\ Forall2 (cell_stored stack pins) (kept_macros items) (cells_ d) /\
    shapes_stored stack pins (mt_body <$> kept_macros items) g /\
    Forall2 (item_reads stack) items outs /\ vias = keep_first via_name_ (omap outcome_cell outs) /\
    forall k, stats k = read_stat stack items outs k.
Proof.
  intros Hlen Hroom Hn Hp Hr. unfold ds_parse_cell_lef.
  destruct (items_read items [] [] (new_cells new_design ∅ [])) as (c & pins & -> & Hf); try done; [|intros vr Hin; by apply rule_small_fits, Hr|].
  { split.
    - split; [constructor|apply table_names_new|apply table_names_new|]. split; [apply table_names_new|]. split; [done|]. split; [done|constructor].
    - intros j k. by rewrite lookup_nil.
    - done.
    - intros k. by destruct k.
    - done. }
  change ([] ++ items) with items in Hf. cbn [mbind outcome_bind]. destruct Hf as [Hc Hs Hv Hst _].
  eexists _, _, _, _, pins, (item_outcome <$> items). split; [done|].
  split; [by eapply cells_ok_design|]. split; [apply Hc|]. split; [apply Hc|]. split; [done|].
  split; [|split; [by rewrite outcome_cells|intros k; by rewrite read_stat_eq]].
  apply Forall2_fmap_r, Forall_Forall2_diag, Forall_forall. intros i Hi. apply item_outcome_reads. intros vr ->. by apply Hr.
Qed.
End file.

(** A syntax error leaves nothing of the file but the mark. *)
Theorem cell_lef_failed stack events d g vias r :
  ds_parse_cell_lef stack false events d g vias = Ok r -> r = (new_design, ∅, [], bump_lef parse_failed_count no_stats).
Proof. unfold ds_parse_cell_lef. intros (c & _ & [= <-])%outcome_bind_Ok. done. Qed.

(** A rule that lists its cut layer last, with the rectangle there, has no effect at all. *)
Theorem cut_last_rule_skipped stack vr vs bot top cut :
  vr_layers vr = [bot; top; cut] -> rl_rect top = None -> viarule_cbk stack vr vs = Ok vs.
Proof. intros E Er. unfold viarule_cbk, expand_viarule. rewrite E, Er. by destruct (vr_generate vr). Qed.

(** * Lengths *)

(** The double nearest to a number of thousandths of a micron. *)
Definition micron (t : Z) : double := ddiv (of_Z t) (of_Z 1000).
Definition micron_rect (xl yl xh yh : Z) : lefiRect := {| lr_xl := micron xl; lr_yl := micron yl; lr_xh := micron xh; lr_yh := micron yh |}.

Lemma dbu32_micron t : - 2 ^ 31 <= t < 2 ^ 31 -> to_dbu (micron t) = t /\ dbu32 (micron t) = t.
Proof.
  intros Ht. assert (to_dbu (micron t) = t) as E by (apply thousandths_exact; lia). split; [done|]. unfold dbu32. rewrite E. by apply s32_small.
Qed.

(** C35: lengths with three decimals are converted exactly. The file says them in microns; what the
    reader passes on is the nearest double, which the callbacks multiply by 1000 in doubles,
    round and store in 32 bits: for rectangles within 32 bits no rounding error is left. *)
Theorem decimals_exact xl yl xh yh :
  Forall (fun t => - 2 ^ 31 <= t < 2 ^ 31) [xl; yl; xh; yh] -> lef_rect_to_dbu (micron_rect xl yl xh yh) = GEORect xl yl xh yh.
Proof.
  intros H. unfold lef_rect_to_dbu, micron_rect. cbn [lr_xl lr_yl lr_xh lr_yh].
  by rewrite !(fun t H => proj2 (dbu32_micron t H)) by (by apply (proj1 (Forall_forall _ _) H); set_solver).
Qed.
End adapter.

(** * The files of the tests *)

Definition routing (name dir : bytes) (width pitch : Z) (spacing : list Z) (area : option double) : lefiLayer :=
  {| ll_name := name; ll_type := text "ROUTING"; ll_direction := Some dir; ll_width := Some (micron width); ll_pitch := Some (micron pitch);
     ll_spacing := micron <$> spacing; ll_area := area |}.
Definition bare_layer (name type : bytes) : lefiLayer :=
  {| ll_name := name; ll_type := type; ll_direction := None; ll_width := None; ll_pitch := None; ll_spacing := []; ll_area := None |}.
Definition square (h : Z) : lefiRect := micron_rect (- h) (- h) h h.
Definition via12 (a b c : Z) : lefiVia :=
  {| lv_name := text "VIA12"; lv_layers := [(text "M1", [square a]); (text "VIA1", [square b]); (text "M2", [square c])] |}.
Definition rule_layer (name : bytes) (rect : option lefiRect) (enclosure : option (Z * Z)) : lefiViaRuleLayer :=
  {| rl_name := name; rl_rect := rect; rl_enclosure := (fun e => (micron e.1, micron e.2)) <$> enclosure |}.
Definition viagen12 : lefiViaRule :=
  {| vr_name := text "VIAGEN12"; vr_generate := true;
     vr_layers := [rule_layer (text "M1") None (Some (30, 40)); rule_layer (text "VIA1") (Some (square 50)) None; rule_layer (text "M2") None (Some (30, 40))] |}.

(** tech_synth.lef *)
Definition tech_synth : list tech_event :=
  [TGrid (ddiv (of_Z 25) (of_Z 10000));
   TLayer (routing (text "M1") (text "HORIZONTAL") 70 190 [70; 90] None); TLayer (bare_layer (text "VIA1") (text "CUT"));
   TLayer (routing (text "M2") (text "VERTICAL") 80 210 [80] (Some (micron 50))); TLayer (bare_layer (text "IMPLANT1") (text "IMPLANT"));
   TVia (via12 100 50 120); TVia (via12 1000 500 1200); TViaRule viagen12].

(** The numbers that the tests of the adapter expect. *)
Definition layer_numbers (l : DSLayer) := (layer_name_ l, default_width_ l, pitch_ l, spacing_ l, min_area_ l).

Lemma tech_synth_read :
  (c ← ds_parse_tech_lef 0 true tech_synth new_stack 0 [];
   Ok (tc_grid c, layer_numbers <$> layers_ (tc_stack c), tc_vias c, tc_stats c <$> [skipped_layer_count; lef_via_conflict_count; viarule_count])) =
  Ok (3, [(text "M1", 70, 190, [70; 90], 0); (text "VIA1", 0, 0, [], 0); (text "M2", 80, 210, [80], 50000)],
      [{| via_name_ := text "VIA12"; bottom_layer_id_ := 0; top_layer_id_ := 2; cut_layer_id_ := 1; cut_rects_ := [GEORect (-50) (-50) 50 50];
          bottom_enclosure_ := [GEORect (-100) (-100) 100 100]; top_enclosure_ := [GEORect (-120) (-120) 120 120] |};
       {| via_name_ := text "VIAGEN12"; bottom_layer_id_ := 0; top_layer_id_ := 2; cut_layer_id_ := 1; cut_rects_ := [GEORect (-50) (-50) 50 50];
          bottom_enclosure_ := [GEORect (-80) (-90) 80 90]; top_enclosure_ := [GEORect (-80) (-90) 80 90] |}], [1; 1; 1]).
Proof. vm_compute. reflexivity. Qed.

(** The rule Via1Array-0 of the technology file of the timing tests lists the cut last: it is skipped. *)
Definition via1array : lefiViaRule :=
  {| vr_name := text "Via1Array-0"; vr_generate := true;
     vr_layers := [rule_layer (text "M1") None (Some (35, 35)); rule_layer (text "M2") None (Some (35, 35)); rule_layer (text "VIA1") (Some (square 35)) None] |}.

Lemma nangate_rule_skipped stack vs : viarule_cbk 0 stack via1array vs = Ok vs.
Proof. by eapply (cut_last_rule_skipped 0 stack via1array). Qed.

Lemma decimals_exact_witness : lef_rect_to_dbu 0 (micron_rect (-123) 70 1900 2147483647) = GEORect (-123) 70 1900 2147483647.
Proof. apply (decimals_exact 0 (-123) 70 1900 2147483647). repeat constructor; lia. Defined.

(** cells_synth.lef, with a rectangle under an unknown layer and a polygon *)
Definition port (layer : bytes) (xl yl xh yh : Z) : list lefiGeomItem := [GeomLayer layer; GeomRect (micron_rect xl yl xh yh)].
Definition simple_pin (name use dir : bytes) (ports : list (list lefiGeomItem)) : lefiPin :=
  {| lp_name := name; lp_use := Some use; lp_direction := Some dir; lp_ports := ports |}.
Definition macro_size (w h : Z) : lefiMacro := {| lm_size := Some (micron w, micron h); lm_origin := None |}.
Definition inv_x1 : macro_text :=
  {| mt_name := text "INV_X1";
     mt_body := [MPin (simple_pin (text "A") (text "SIGNAL") (text "INPUT") [port (text "M1") 0 0 100 100]);
                 MPin (simple_pin (text "ZN") (text "CLOCK") (text "OUTPUT") [port (text "M2") 300 300 500 500 ++ [GeomOther]]);
                 MObs (port (text "M1") 100 100 600 600 ++ port (text "M9") 200 200 600 600)];
     mt_end := macro_size 700 700 |}.
Definition dff_x1 : macro_text :=
  {| mt_name := text "DFF_X1"; mt_body := [MPin (simple_pin (text "A") (text "SIGNAL") (text "INPUT") [port (text "M1") 0 0 100 100; port (text "M2") 0 0 50 50])];
     mt_end := macro_size 1400 1400 |}.
Definition cells_synth : list file_item :=
  [FVia (via12 100 50 120); FMacro inv_x1; FMacro dff_x1; FMacro {| mt_name := text "INV_X1"; mt_body := []; mt_end := macro_size 9900 9900 |};
   FViaRule viagen12].

Lemma viagen12_small : rule_small 0 viagen12.
Proof.
  assert (forall t, Z.abs t <= 50 -> Z.abs (to_dbu 0 (micron t)) < 2 ^ 62) as Hm by (intros t Ht; rewrite (proj1 (dbu32_micron 0 t ltac:(lia))); lia).
  apply Forall_cons_2; [|apply Forall_cons_2; [|apply Forall_cons_2; [|apply Forall_nil_2]]]; split; intros x Hx; try discriminate Hx; injection Hx as <-.
  1, 3: split; apply Hm; lia.
  repeat (apply Forall_cons_2; [apply Hm; lia|]). apply Forall_nil_2.
Qed.

Lemma tech_lef_read_witness : exists c, ds_parse_tech_lef 0 true tech_synth new_stack 0 [] = Ok c /\
  (forall n, is_valid_id table_bits (find_layer (tc_stack c) n) = true -> is_Some (layer_by_id (tc_stack c) (find_layer (tc_stack c) n))).
Proof.
  assert (layer_name_ <$> omap (event_layer 0) tech_synth = [text "M1"; text "VIA1"; text "M2"]) as En by (vm_compute; reflexivity).
  destruct (tech_lef_read 0 tech_synth) as (c & E & _ & _ & H); [vm_compute; reflexivity|..|exists c; split; [exact E|exact H]].
  - rewrite En. apply (bool_decide_unpack (NoDup [text "M1"; text "VIA1"; text "M2"])). vm_compute. exact I.
  - assert (Forall proper_name (layer_name_ <$> omap (event_layer 0) tech_synth)) as Hp by (rewrite En; repeat constructor; (done || cbn; lia)).
    rewrite Forall_fmap in Hp. exact Hp.
  - intros vr Hin. do 7 (apply elem_of_cons in Hin as [[=]|Hin]). apply elem_of_cons in Hin as [[= ->]|Hin]; [apply rule_small_fits, viagen12_small|by apply elem_of_nil in Hin].
Defined.

Lemma cell_lef_read_witness : exists c d g vias stats, ds_parse_tech_lef 0 true tech_synth new_stack 0 [] = Ok c /\
  ds_parse_cell_lef 0 (tc_stack c) true (cells_synth ≫= item_events) new_design ∅ [] = Ok (d, g, vias, stats) /\ design_ok d /\
  length (cells_ d) = 2%nat.
Proof.
  destruct tech_lef_read_witness as (c & E & Hs).
  destruct (cell_lef_read 0 (tc_stack c) Hs cells_synth) as (d & g & vias & stats & pins & outs & E' & Hd & _ & Hc & _).
  - vm_compute. reflexivity.
  - vm_compute. reflexivity.
  - repeat constructor; (done || cbn; lia).
  - repeat constructor; (done || cbn; lia).
  - intros vr Hin. clear E. do 4 (apply elem_of_cons in Hin as [[=]|Hin]). apply elem_of_cons in Hin as [[= ->]|Hin]; [apply viagen12_small|by apply elem_of_nil in Hin].
  - exists c, d, g, vias, stats. split; [exact E|]. split; [exact E'|]. split; [exact Hd|]. rewrite <- (Forall2_length _ _ _ Hc). vm_compute. reflexivity.
Defined.
